(* ===== verification/_CoqProject ===== *)
-Q . S2P
Prelude.v
Operation.v
Journal.v
MemJournal.v
PgJournal.v
PgRefine.v
Transaction.v
Reconciler.v
DirectSink.v
SinkSafety.v
SinkData.v
Pii.v
RustStr.v
Integrity.v
IntegrityProofs.v
Format.v
RecordDecoder.v
RecordProofs.v
Staging.v
StagingQuota.v
StagingFence.v
StagingParts.v
BinaryIr.v
BinaryIrProofs.v
BinaryIrText.v
SigV4.v
SigV4Time.v
SigV4Proofs.v
Managed.v
ManagedRepo.v
ManagedUsage.v
ManagedOps.v
ManagedVisible.v
ManagedPurge.v
ManagedWrites.v
ManagedRepairs.v
ManagedCursor.v
Placement.v
ServiceStorage.v
ServiceConfig.v
ServicePurge.v
ServiceReads.v
ManagedSink.v
ManagedReconcile.v
ManagedSettle.v
ManagedPut.v
ManagedExamples.v
ServiceExamples.v
SinkApi.v
Spool.v
ReadSpool.v
StreamingPut.v
Completion.v
PutExamples.v
SpoolExamples.v
ObjectBody.v
TransformedRead.v
ReadProofs.v
ReadExamples.v
PutRequest.v
MultipartSettle.v
PutRequestExamples.v
FilterPipeline.v
FilterExamples.v
PluginRegistry.v
RegistryProofs.v
RegistryExamples.v
