(* ===== verification/Prelude.v ===== *)
(** * Maskura: a verification library for the S3 gateway

    Maskura (the workspace [crates/*], [filters/*]) is an S3-compatible gateway.
    A request body is authenticated and checked for integrity, cut into records,
    run through a chain of sandboxed WebAssembly filters, and published at a
    destination bucket by a transaction that is recorded in a journal, so that a
    crash or a lost reply is settled later by a reconciler.  Multipart uploads
    are staged as artifacts first and published when the client completes them.
    In managed mode the gateway itself owns the buckets: a repository records
    which generation of an object is the current one, where its copies are, what
    a workspace may still store and which physical versions exist.
    Binary objects go through a format-neutral IR instead of records.

    ** The parts and the files

    - [Prelude]: results and errors, machine integers, bytes, shared tactics.
      [RustStr]: the functions of [str] and [String] the code calls.
    - Destination transactions, [crates/gateway/src/transaction/].
      [Operation]: states, records and identities of [mod.rs].
      [Journal]: [trait OperationJournal] as a type class, with [JournalLaws],
      the part of its contract that its clients use.
      [MemJournal], [PgJournal]: the two implementations of [journal.rs]; both
      discharge [JournalLaws].  [PgRefine]: the refinement between them.
      [Transaction]: [trait TransactionBackend] and the calls a client makes.
      [Reconciler]: [OperationReconciler] of [mod.rs].
      [DirectSink]: [DirectS3Sink] of [s3.rs]; [SinkSafety], [SinkData]: its
      theorems, proved against [JournalLaws] and every provider.
    - Requests.  [SigV4]: the checks of [sigv4.rs] on both forms of an
      authorization, and its cache of signing keys.  [SigV4Time]: timestamps;
      [SigV4Proofs]: its theorems.
    - Bodies. [Integrity], [IntegrityProofs]: [integrity.rs].
      [Format]: [format.rs].  [RecordDecoder], [RecordProofs]: [record.rs].
      [Pii]: [filters/pii-shared], the code of the built-in PII filters.
    - Multipart staging.  [Staging]: the data and the in-memory repository of
      [multipart_staging.rs], with [reconcile_staged_artifacts] and
      [renew_and_fence_completion] of [server.rs].
      [StagingQuota], [StagingFence], [StagingParts]: its theorems.
    - Binary objects.  [BinaryIr], [BinaryIrProofs], [BinaryIrText]:
      [binary_ir.rs].
    - Managed storage: the repository of [managed.rs].  [Managed]: its data and
      pure functions; [ManagedRepo]: [InMemoryManagedRepository], one definition
      per method; [Placement]: the rendezvous placement.  Theorems:
      [ManagedUsage] (bytes), [ManagedOps] (logical operations),
      [ManagedVisible], [ManagedPurge], [ManagedWrites] (physical writes and
      compare-and-swap), [ManagedRepairs], [ManagedCursor].
    - Managed storage: the service of [service_storage.rs] on top of it, with
      [s3_safety.rs].  [ServiceStorage]: backends, reads, deletions, purges;
      [ManagedSink]: the three sinks and the start of a PUT, which drive a
      [DirectSink] and the repository together; [ManagedReconcile]: the repair
      worker and the settlement of abandoned writes.  Theorems: [ServicePurge],
      [ServiceReads], [ManagedSettle], [ManagedPut].
      [ServiceConfig]: the parser of the backend list, the launch checks and the
      ring of objects without authority.
      [ManagedExamples], [ServiceExamples]: concrete instances, where the
      theorems on managed storage are evaluated.
    - Requests that move objects, [server.rs], where the parts above meet.
      [SinkApi]: [trait ObjectSinkTransaction] as a type class, with [SinkLaws],
      what a request relies on; usage events ([control.rs]) and their evidence;
      the in-memory sink ([transaction/memory.rs], [store.rs]), which discharges
      the laws.  [Spool]: the spooled sink and its quota ([transaction/spool.rs]).
      [StreamingPut]: [streaming_single_put] and its Avro counterpart;
      [Completion]: [complete_staged_multipart]; [PutRequest]: [s3_put] around
      them, from the grant to the answer; [MultipartSettle]: the answer to a
      failed completion and its settlement.
      [ReadSpool]: the encrypted spool of a read ([read_spool.rs]).
      [ObjectBody]: bodies and headers of objects ([object.rs]), error documents
      ([s3_error.rs]), headers with two names ([customer_headers.rs]), ranges.
      [TransformedRead]: the control plane ([control.rs]) and [s3_get];
      [ReadProofs]: its theorems.
      [PutExamples], [SpoolExamples], [ReadExamples], [PutRequestExamples]:
      concrete requests.
    - The filters a request runs.  [FilterPipeline]: a session of the pipeline
      with its limits and its asynchronous handle ([plugin_registry.rs]), an
      instance of the class [Pipeline] of the requests.  [PluginRegistry]: the
      catalog, the compile cache and the snapshots of [plugin_registry.rs], with
      the resolutions of [pipeline.rs]; [RegistryProofs]: its theorems.
      [FilterExamples], [RegistryExamples]: concrete filters.

    ** What the theorems show

    - Journal: recorded states move only along [can_transition_to], terminal
      operations never change, leases exclude, an absence is confirmed only by
      two separated observations; the Postgres implementation refines the
      in-memory one between faults, over the calls that the checks and foreign
      keys of its tables admit.
    - Sink and reconciler: COMMITTED and PROVEN_ABORTED are recorded only on the
      provider's evidence, whatever the journal and the provider answer; what
      the first [complete] sends is what was written; [complete] returns only
      recorded metadata.
    - Integrity: an accepted body has the declared digests, length and chain of
      signatures, however the network cuts it; the decoding loop terminates.
    - Formats and records: a format is resolved only by agreeing signals; the
      incremental decoder yields the records of the whole object, loses nothing,
      and accepts only valid output.
    - PII: the single-kind filters are the token-wise redaction and idempotent;
      reported spans are valid.
    - Staging: quotas hold under every interleaving, fenced completions stay
      fenced, completed uploads replay, selections and listings are exact,
      reconciliation spares open uploads.
    - Binary IR: paths and claims are exact, rewriting a claim keeps a value
      valid, the accepted decimals and dates are canonical.
    - Authorization: a request is accepted exactly when every check of the code
      holds, the signature covers what the code reads, the key cache is
      transparent.
    - Managed repository: the usage of a workspace is the sum over its
      operations and stays within the limit, operations follow their protocol,
      an authority changes only by compare-and-swap, stale leases are refused, a
      completed purge leaves nothing, a refused call changes nothing, placement
      moves objects minimally.
    - Managed service: a PUT publishes the bytes written and gives the workspace
      back when it cannot begin, physical writes end accounted for, reads serve
      the recorded generation and find it, the ledger forgets only what the
      provider denies, and polling a purge ends it; all of it while other
      requests call the repository in between.
    - Writing requests: over every sink that keeps [SinkLaws], a PUT or a
      completion that answers published exactly the transformation of the
      verified body, after its usage evidence was accepted, or of the checked
      parts, put together (for JSON, a document complete at the end of a part
      ends there); one that fails and releases its reservation published
      nothing, except an Avro completion that fails after its commit; every PUT
      ends in one of four settlements.
    - Reading requests: a read settles its reservation once, and exactly the
      refusals of Avro objects before their body is read do not settle it; a
      transformed read serves the transformation of the object with its exact
      length and records exactly that usage, through the spool, whose file
      stays within its reservation and replays what was written, or directly,
      where the body is handed out first and settles at its end, and the
      reservation is released only if nothing was disclosed.  A record call of
      that settlement may be in flight when the client drops the body.  The
      spool quota is exact under interleaving.
    - Filters: whatever the filters of a session do, what it gives out is valid
      and within its limits, so what a PUT publishes is; filters without memory
      compose.  The compile cache keeps its weight, pins the catalog, and gives a
      snapshot only engines compiled from the bytes its resolution names.
    - Objects and errors: bodies stay within their limits, foreign headers are
      filtered exactly, ranges are exact, error documents read back as the values
      put into them.
    - A few theorems state defects of the code as it is (names ending in
      [_leak], [_race], [_truncates], [_depends_on_cut],
      [_undoes_completion], [_overwrites], [_lost], [_reopens], [_wedges],
      [_keeps_reservation], [_releases_published]).

    ** How the code is modelled

    A method on shared state is a function from that state to a reply and a
    state; an [Err] after a mutation keeps the mutation.  Methods that call a
    provider or a journal run in a monad over an explicit world, and the other
    side answers anything its class allows.  Methods under one mutex are atomic;
    the Postgres journal is one step per SQL statement, each of which may fail
    before or after it is applied.  Integers are [Z] with the width's bound or
    wrap-around written where the code can reach it; a plain operator wraps, as
    the release profile compiles it.  Iteration orders of hash maps, clock
    readings and generated UUIDs are arguments.  A journal call reads the clock
    once.  The managed repository, its counters of time and UUIDs and the order of
    its hash maps come from an [Env] per call; an operation of the managed service
    is a sequence of such calls, and [Outside] gives the calls other requests make
    between two of them.  Background tasks (heartbeats, cleanup of dropped sinks)
    are such other requests.

    Code outside the repository is a class argument: the AWS SDK
    ([TransactionBackend]), digests and HMAC ([Crypto] with [CryptoLaws]),
    [serde_json] and [csv_core] ([Parsers], [SerdeJson]), [uuid] ([UuidText]),
    the artifact store ([ArtifactStore]), [aws-sigv4] ([AwsSigV4]), the S3 calls
    of the managed service ([ServiceProvider]), the texts of UUIDs and JSON
    ([ManagedText]), [reqwest::Url] ([UrlParser], [UrlLaws]) and the [f64] scores of
    the weighted placement ([Penalty]), which are only compared; the chain of
    sandboxed filters ([Pipeline]; a filter of it, [PipelineFilter], and the
    engine that compiles it, [FilterEngine]), the artifacts of a completion
    ([ArtifactReader]), the texts of a usage event ([UsageEncoding]), the file
    system, AEAD and random source of the spools ([FileSystem], [Aead] with
    [AeadLaws], [OsRng]) and the control plane ([ControlPlane]), which may refuse
    any call.  A [HeaderMap] is the list of its fields in order, or the function
    from a name to its values.  Each theorem over such a class comes with a witness at a
    concrete instance.

    Fuel.  [write_loop] of the sink runs on the length of the input, each turn
    copying at least a byte.  The PII scan runs on the length of the text.
    [push_fuel] of the chunk decoder is twice the input and one more, enough by
    [push_byte_by_byte].  The record decoder drains with twice the buffered bytes
    and four more ([drain_loop_ends]), [csv_loop] with the pending bytes and one
    more ([csv_loop_spec]); following the pages of a listing takes one more call
    than there are parts.  [remove_list_cursor] follows at most as many
    successors as are recorded ([remove_list_cursor_fuel]).  A request drains its
    decoder with [records_fuel], which [drain_measure] shows to be enough, takes
    one turn per frame of a body and one more, and writes a spooled chunk in as
    many frames as it has bytes.  The theorems show the results, not only that a result
    is right if there is one.

    ** Not modelled

    Of [server.rs], routing, authentication of the development modes, the
    handlers of parts, lists and deletions, [begin_streaming_sink] and the opening
    of objects at a backend, which are arguments of the requests; the command line
    tools ([s4ctl], [s4-mcp]); the database-backed stores ([workspace_storage.rs],
    the accounts of [store.rs], the Postgres staging and managed repositories,
    [entity/*]), which are SQL statements through an ORM; the WebAssembly host
    ([wasm-runtime], [binary_pump.rs], [binary_reductor.rs]), the fingerprints of
    [pipeline.rs], which digest the output of [serde], and the Avro codec; calls into SDKs ([backend.rs], the S3 backend of the sink, the
    S3 artifact store), environment variables and policy documents.  They are I/O
    and glue around the parts above, or bindings of libraries whose code is not
    here.  The replicated sink has no second destination, as the only function
    that builds one gives it none. *)

From stdpp Require Export base tactics list list_numbers gmap strings pretty.
From Stdlib Require Export ZArith Lia.
From Stdlib Require Export Strings.Byte.

#[local] Open Scope Z_scope.
Set Default Goal Selector "!".

(** ** Results: Rust's [Result<A, E>] *)

(** [result E A] is Rust's [Result<A, E>]; the error type comes first so that
    [result E] is the monad that the [?] operator works in. *)
Inductive result (E A : Type) : Type :=
| Ok (a : A)
| Err (e : E).
Arguments Ok {E A} a.
Arguments Err {E A} e.

#[global] Instance result_ret E : MRet (result E) := λ A a, Ok a.
#[global] Instance result_bind E : MBind (result E) := λ A B f r,
  match r with Ok a => f a | Err e => Err e end.
#[global] Instance result_fmap E : FMap (result E) := λ A B f r,
  match r with Ok a => Ok (f a) | Err e => Err e end.
#[global] Instance result_eq_dec E A `{EqDecision E, EqDecision A} : EqDecision (result E A).
Proof. solve_decision. Defined.

(** [Result::map_err]. *)
Definition map_err {E F A} (f : E → F) (r : result E A) : result F A :=
  match r with Ok a => Ok a | Err e => Err (f e) end.

(** [Option::ok_or]. *)
Definition ok_or {E A} (o : option A) (e : E) : result E A :=
  match o with Some a => Ok a | None => Err e end.

(** [Result::is_ok]. *)
Definition is_ok {E A} (r : result E A) : bool :=
  match r with Ok _ => true | Err _ => false end.

(** [if !c { return Err(e) }]. *)
Definition ensure {E} (c : bool) (e : E) : result E unit :=
  if c then Ok tt else Err e.

(** ** Methods on [&mut self] that return a [Result]

    Rust keeps the mutations a method made before it returned [Err]: the
    state comes back beside the result on both outcomes. *)
Definition SE (S E A : Type) : Type := S → result E A * S.

#[global] Instance SE_ret S E : MRet (SE S E) := λ A a s, (Ok a, s).
#[global] Instance SE_bind S E : MBind (SE S E) := λ A B f m s,
  match m s with
  | (Ok a, s') => f a s'
  | (Err e, s') => (Err e, s')
  end.

Definition se_throw {S E A} (e : E) : SE S E A := λ s, (Err e, s).
Definition se_get {S E} : SE S E S := λ s, (Ok s, s).
Definition se_gets {S E A} (f : S → A) : SE S E A := λ s, (Ok (f s), s).
Definition se_modify {S E} (f : S → S) : SE S E unit := λ s, (Ok tt, f s).
Definition se_lift {S E A} (r : result E A) : SE S E A := λ s, (r, s).

(** ** Weakest preconditions of such methods *)

(** [wp m Q w]: running [m] in [w] ends in a result and a world that satisfy [Q]. *)
Definition wp {S E A} (m : SE S E A) (Q : result E A → S → Prop) (w : S) : Prop :=
  let (r, w') := m w in Q r w'.

Arguments wp : simpl never.

Lemma wp_mono {S E A} (m : SE S E A) (P Q : result E A → S → Prop) w :
  wp m P w → (∀ r w', P r w' → Q r w') → wp m Q w.
Proof. unfold wp. destruct (m w); eauto. Qed.

Lemma wp_ret {S E A} (a : A) (Q : result E A → S → Prop) w : Q (Ok a) w → wp (mret a) Q w.
Proof. done. Qed.

Lemma wp_throw {S E A} (e : E) (Q : result E A → S → Prop) w : Q (Err e) w → wp (se_throw e) Q w.
Proof. done. Qed.

Lemma wp_lift {S E A} (r : result E A) (Q : result E A → S → Prop) w : Q r w → wp (se_lift r) Q w.
Proof. done. Qed.

Lemma wp_bind {S E A C} (m : SE S E A) (k : A → SE S E C) Q w :
  wp m (λ r w', match r with Ok a => wp (k a) Q w' | Err e => Q (Err e) w' end) w →
  wp (m ≫= k) Q w.
Proof. unfold wp, mbind, SE_bind. by destruct (m w) as [[a|e] w']. Qed.

(** ** Errors of the gateway: [s4_error::S4Error] *)

Record S4Error := mkS4Error { error_code : string; error_message : string }.
#[global] Instance S4Error_eq_dec : EqDecision S4Error.
Proof. solve_decision. Defined.

(** ** Machine integers *)

Definition u32_max : Z := 2 ^ 32 - 1.
Definition u64_max : Z := 2 ^ 64 - 1.
Definition i32_max : Z := 2 ^ 31 - 1.
Definition i64_max : Z := 2 ^ 63 - 1.
Definition i64_min : Z := - 2 ^ 63.

(** [u64::checked_add]. *)
Definition u64_checked_add (a b : Z) : option Z :=
  if a + b <=? u64_max then Some (a + b) else None.

(** Clamping into [i64]: what [saturating_add]/[saturating_sub] return. *)
Definition i64_clamp (z : Z) : Z := Z.max i64_min (Z.min i64_max z).
Definition i64_saturating_add (a b : Z) : Z := i64_clamp (a + b).
Definition i64_saturating_sub (a b : Z) : Z := i64_clamp (a - b).

(** Wrapping, saturating and checked operators. *)
Definition u64_wrap (z : Z) : Z := z mod 2 ^ 64.
Definition i64_wrap (z : Z) : Z := (z + 2 ^ 63) mod 2 ^ 64 - 2 ^ 63.
Definition u64_saturating_add (a b : Z) : Z := Z.min u64_max (a + b).
Definition u64_saturating_sub (a b : Z) : Z := Z.max 0 (a - b).
Definition u64_saturating_mul (a b : Z) : Z := Z.min u64_max (a * b).
Definition u64_checked_sub (a b : Z) : option Z := if b <=? a then Some (a - b) else None.
Definition u32_checked_add (a b : Z) : option Z := if a + b <=? u32_max then Some (a + b) else None.

(** [i64::try_from(x: u64)] and [u64::try_from(x: i64)]. *)
Definition i64_try_from (x : Z) : option Z := if x <=? i64_max then Some x else None.
Definition u64_try_from (x : Z) : option Z := if 0 <=? x then Some x else None.
Definition is_u64 (x : Z) : Prop := 0 <= x <= u64_max.
Definition is_i64 (x : Z) : Prop := i64_min <= x <= i64_max.

(** ** Bytes *)

#[global] Instance byte_eq_dec : EqDecision byte.
Proof. intros x y. destruct (Byte.eqb x y) eqn:E;
  [left; by apply Byte.byte_dec_bl | right; by apply Byte.eqb_false]. Defined.

Definition b2z (b : byte) : Z := Z.of_N (Byte.to_N b).

(** The bytes of a Rust string literal. *)
Definition bs (s : string) : list byte := String.list_byte_of_string s.

Definition is_ascii_digit (b : byte) : bool := (48 <=? b2z b) && (b2z b <=? 57).
Definition is_ascii_lowercase (b : byte) : bool := (97 <=? b2z b) && (b2z b <=? 122).
Definition is_ascii_uppercase (b : byte) : bool := (65 <=? b2z b) && (b2z b <=? 90).
Definition is_ascii_hexdigit (b : byte) : bool :=
  is_ascii_digit b || ((97 <=? b2z b) && (b2z b <=? 102)) || ((65 <=? b2z b) && (b2z b <=? 70)).

(** [u8::to_ascii_lowercase]. *)
Definition to_ascii_lowercase (b : byte) : byte :=
  if is_ascii_uppercase b
  then default b (Byte.of_N (Byte.to_N b + 32)) else b.

(** [<[u8]>::position]. *)
Fixpoint position {A} (p : A → bool) (l : list A) : option nat :=
  match l with
  | [] => None
  | x :: l => if p x then Some O else S <$> position p l
  end.

(** [slice[a..b]] for [a <= b <= len]. *)
Definition slice {A} (l : list A) (a b : nat) : list A := take (b - a) (drop a l).

(** [u64::to_be_bytes]: [n] bytes of [z], most significant first. *)
Fixpoint to_be_bytes (n : nat) (z : Z) : list byte :=
  match n with
  | O => []
  | S n => to_be_bytes n (z / 256) ++ [default x00 (Byte.of_N (Z.to_N (z mod 256)))]
  end.

(** The two quotes of [{:?}] on a string; escape sequences inside are not rendered. *)
Definition debug_str (s : string) : string :=
  let q := String.String (Ascii.ascii_of_nat 34) "" in q +:+ s +:+ q.

(** ** Lemmas on bytes and integers *)

Lemma b2z_inj a b : b2z a = b2z b → a = b.
Proof.
  unfold b2z. intros H. apply N2Z.inj in H.
  pose proof (Byte.of_to_N a) as Ha. rewrite H, Byte.of_to_N in Ha. by simplify_eq.
Qed.

Lemma b2z_range b : 0 <= b2z b < 256.
Proof. unfold b2z. pose proof (Byte.to_N_bounded b). lia. Qed.

Lemma b2z_of_Z z : 0 <= z < 256 → b2z (default x00 (Byte.of_N (Z.to_N z))) = z.
Proof.
  intros Hz. unfold b2z. destruct (Byte.of_N (Z.to_N z)) as [b|] eqn:E; simpl.
  - apply Byte.to_of_N in E. rewrite E. lia.
  - apply Byte.of_N_None_iff in E. lia.
Qed.

Lemma length_to_be_bytes n z : length (to_be_bytes n z) = n.
Proof. revert z. induction n as [|n IH]; intros z; simpl; [done|]. rewrite length_app, IH. simpl. lia. Qed.

Lemma to_be_bytes_inj n a b :
  0 <= a < 256 ^ Z.of_nat n → 0 <= b < 256 ^ Z.of_nat n →
  to_be_bytes n a = to_be_bytes n b → a = b.
Proof.
  revert a b. induction n as [|n IH]; intros a b Ha Hb; cbn [to_be_bytes]; [simpl in *; lia|].
  intros H. apply app_inj_tail in H as [H1 H2].
  apply (f_equal b2z) in H2. rewrite !b2z_of_Z in H2 by (apply Z.mod_pos_bound; lia).
  rewrite Nat2Z.inj_succ, Z.pow_succ_r in Ha, Hb by lia.
  apply IH in H1; [ | split; [apply Z.div_pos|apply Z.div_lt_upper_bound]; lia ..].
  rewrite (Z.div_mod a 256), (Z.div_mod b 256) by lia. congruence.
Qed.

Lemma bs_inj s t : bs s = bs t → s = t.
Proof.
  intros H. rewrite <- (String.string_of_list_byte_of_string s),
    <- (String.string_of_list_byte_of_string t). unfold bs in H. by rewrite H.
Qed.

Lemma i64_clamp_id z : is_i64 z → i64_clamp z = z.
Proof. unfold is_i64, i64_clamp. lia. Qed.

Lemma result_bind_Ok {E A B} (r : result E A) (f : A → result E B) b :
  (r ≫= f) = Ok b ↔ ∃ a, r = Ok a ∧ f a = Ok b.
Proof. destruct r as [a|e]; cbn; naive_solver. Qed.

(** ** Sums over finite maps *)

Section sums.
  Context `{Countable K} {A : Type}.
  Implicit Types (f g : A → Z) (m : gmap K A).

Definition sumZ f m : Z := map_fold (λ _ a acc, f a + acc) 0 m.

Lemma sumZ_empty f : sumZ f ∅ = 0.
Proof. apply map_fold_empty. Qed.

Lemma sumZ_insert f m k a : m !! k = None → sumZ f (<[k := a]> m) = f a + sumZ f m.
Proof. intros Hk. unfold sumZ. rewrite map_fold_insert_L; [done | lia | done]. Qed.

Lemma sumZ_delete f m k a : m !! k = Some a → sumZ f (delete k m) = sumZ f m - f a.
Proof.
  intros Hk. unfold sumZ. rewrite (map_fold_delete_L _ _ k a m); [lia | lia | done].
Qed.

Lemma sumZ_update f m k a b :
  m !! k = Some a → sumZ f (<[k := b]> m) = sumZ f m - f a + f b.
Proof.
  intros Hk. rewrite <- insert_delete_eq, sumZ_insert by apply lookup_delete_eq.
  rewrite (sumZ_delete f m k a) by done. lia.
Qed.

Lemma sumZ_alter f m k (h : A → A) :
  (∀ a, m !! k = Some a → f (h a) = f a) → sumZ f (alter h k m) = sumZ f m.
Proof.
  intros Hh. destruct (m !! k) as [a|] eqn:E.
  - assert (alter h k m = <[k := h a]> m) as ->.
    { apply map_eq. intros j. destruct (decide (k = j)) as [<-|].
      - by rewrite lookup_alter_eq, lookup_insert_eq, E.
      - by rewrite lookup_alter_ne, lookup_insert_ne. }
    rewrite (sumZ_update f m k a) by done. rewrite (Hh a) by done. lia.
  - f_equal. apply map_eq. intros j. destruct (decide (k = j)) as [<-|].
    + by rewrite lookup_alter_eq, E.
    + by rewrite lookup_alter_ne.
Qed.

Lemma sumZ_nonneg f m : (∀ k a, m !! k = Some a → 0 <= f a) → 0 <= sumZ f m.
Proof.
  induction m as [|k a m Hk IH] using map_ind; intros Hf; [by rewrite sumZ_empty |].
  rewrite sumZ_insert by done.
  assert (0 <= f a) by (apply (Hf k); apply lookup_insert_eq).
  assert (0 <= sumZ f m); [|lia]. apply IH. intros j b Hj. apply (Hf j).
  rewrite lookup_insert_ne; [done | congruence].
Qed.

Lemma sumZ_zero f m : (∀ k a, m !! k = Some a → f a = 0) → sumZ f m = 0.
Proof.
  induction m as [|k a m Hk IH] using map_ind; intros Hf; [by rewrite sumZ_empty |].
  rewrite sumZ_insert, (Hf k a) by (done || apply lookup_insert_eq).
  rewrite IH; [done|]. intros j b Hj. apply (Hf j). rewrite lookup_insert_ne; [done | congruence].
Qed.

(** One summand of a non-negative sum. *)
Lemma sumZ_member f m k a :
  (∀ k a, m !! k = Some a → 0 <= f a) → m !! k = Some a → f a <= sumZ f m.
Proof.
  intros Hf Hk. pose proof (sumZ_delete f m k a Hk).
  assert (0 <= sumZ f (delete k m)); [|lia].
  apply sumZ_nonneg. intros j b [_ Hj]%lookup_delete_Some. by eapply Hf.
Qed.

Lemma sumZ_mono f g m : (∀ k a, m !! k = Some a → f a <= g a) → sumZ f m <= sumZ g m.
Proof.
  induction m as [|k a m Hk IH] using map_ind; intros Hf; [by rewrite !sumZ_empty |].
  rewrite !sumZ_insert by done.
  assert (f a <= g a) by (apply (Hf k); apply lookup_insert_eq).
  assert (sumZ f m <= sumZ g m); [|lia]. apply IH. intros j b Hj. apply (Hf j).
  rewrite lookup_insert_ne; [done | congruence].
Qed.

Lemma sumZ_list f m : sumZ f m = foldr (λ a acc, f a + acc) 0 (map_to_list m).*2.
Proof.
  unfold sumZ. rewrite map_fold_foldr. induction (map_to_list m) as [|[k a] l IH]; [done|].
  cbn. by rewrite IH.
Qed.
End sums.

(** ** Proof automation *)

(** Case analysis on the discriminees of the goal and of the hypotheses,
    with injectivity and substitution in between. *)
Ltac run_cases :=
  repeat (case_match || case_decide || case_bool_decide || simplify_eq/=).

(** The same, guided by an equation about a computation that is unfolded by the caller. *)
Ltac inv_run H := revert H; repeat (case_match; simplify_eq/=); intros H; simplify_eq/=.

(** Splitting a chain of [?]s that succeeded. *)
Ltac unbind H :=
  repeat match type of H with
  | _ ≫= _ = Ok _ =>
      let a := fresh "a" in let Ha := fresh "Hok" in
      apply result_bind_Ok in H as (a & Ha & H)
  end.
