(* ===== verification/Operation.v ===== *)
(** * Operations of the destination-transaction layer

    The data of [crates/gateway/src/transaction/mod.rs]: the seven operation
    states and their transition table, the journal records, backend
    capabilities and the derivation of a managed child's identity.  The
    journal implementations are in [MemJournal] and [PgJournal], their client
    in [DirectSink] and [Reconciler]. *)

From S2P Require Import Prelude.

#[local] Open Scope Z_scope.
Set Default Goal Selector "!".

(** A UUID is a 128-bit number; its byte order is the numeric order. *)
Abbreviation Uuid := N (only parsing).

(** ** JSON details of evidence records ([serde_json::Value]) *)

Inductive Json : Type :=
| JNull
| JBool (b : bool)
| JNum (z : Z)
| JStr (s : string)
| JArr (l : list Json)
| JObj (l : list (string * Json)).

Fixpoint json_eqb (x y : Json) {struct x} : bool :=
  match x, y with
  | JNull, JNull => true
  | JBool a, JBool b => Bool.eqb a b
  | JNum a, JNum b => Z.eqb a b
  | JStr a, JStr b => String.eqb a b
  | JArr a, JArr b =>
      (fix go (a b : list Json) :=
         match a, b with
         | [], [] => true
         | x :: a, y :: b => json_eqb x y && go a b
         | _, _ => false
         end) a b
  | JObj a, JObj b =>
      (fix go (a b : list (string * Json)) :=
         match a, b with
         | [], [] => true
         | (k, x) :: a, (l, y) :: b => String.eqb k l && json_eqb x y && go a b
         | _, _ => false
         end) a b
  | _, _ => false
  end.

(** ** Operation states *)

Inductive OperationState : Type :=
| Intent
| Open
| Completing
| CommitUnknown
| Committed
| Aborting
| ProvenAborted.

#[global] Instance OperationState_eq_dec : EqDecision OperationState.
Proof. solve_decision. Defined.

Definition ALL : list OperationState :=
  [Intent; Open; Completing; CommitUnknown; Committed; Aborting; ProvenAborted].

Definition as_str (s : OperationState) : string :=
  match s with
  | Intent => "INTENT"
  | Open => "OPEN"
  | Completing => "COMPLETING"
  | CommitUnknown => "COMMIT_UNKNOWN"
  | Committed => "COMMITTED"
  | Aborting => "ABORTING"
  | ProvenAborted => "PROVEN_ABORTED"
  end.

Definition can_transition_to (self next : OperationState) : bool :=
  match self, next with
  | Intent, (Open | Aborting) => true
  | Open, (Completing | Aborting) => true
  | Completing, (Committed | CommitUnknown | ProvenAborted) => true
  | CommitUnknown, (Committed | ProvenAborted) => true
  | Aborting, ProvenAborted => true
  | _, _ => false
  end.

Definition is_terminal (s : OperationState) : bool :=
  match s with Committed | ProvenAborted => true | _ => false end.

(** ** Records *)

Record WorkspaceDestinationBinding := mkBinding {
  backend_config_version : string;
  capability_attestation_id : string;
  routing_epoch : Z;
  routing_lease_id : Uuid;
  routing_fencing_token : Z;
}.

Record ObjectDestination := mkDestination {
  backend_id : string;
  bucket : string;
  logical_key : string;
  physical_key : string;
  workspace_binding : option WorkspaceDestinationBinding;
}.

Record ExpectedObject := mkExpected {
  exp_digest : option string;
  exp_size : option Z;
  exp_metadata : gmap string string;
}.

Record StoredObjectMeta := mkMeta {
  etag : option string;
  version_id : option string;
  superseded_version_ids : list string;
  version_history_complete : bool;
}.

Record OperationRecord := mkOperation {
  op_id : Uuid;
  op_state : OperationState;
  op_destination : ObjectDestination;
  op_tenant_id : option string;
  op_namespace_epoch : option Z;
  op_expected : ExpectedObject;
  op_upload_id : option string;
  op_committed : option StoredObjectMeta;
  op_lease_owner : option string;
  op_lease_expires_at_ms : option Z;
  op_mutation_not_before_ms : option Z;
  op_exact_absence_observed_at_ms : option Z;
  op_created_at_ms : Z;
  op_updated_at_ms : Z;
}.

Record PartRecord := mkPart {
  part_operation_id : Uuid;
  part_number : Z;
  part_etag : string;
  part_size_bytes : Z;
  part_digest : string;
  part_created_at_ms : Z;
}.

Record EvidenceRecord := mkEvidence {
  ev_id : Uuid;
  ev_operation_id : Uuid;
  ev_kind : string;
  ev_detail : Json;
  ev_created_at_ms : Z;
}.

Inductive JournalError : Type :=
| NotFound (id : Uuid)
| Conflict (message : string)
| Corrupt (message : string)
| Persistence (message : string).

(** [OperationState::parse]. *)
Definition parse_state (value : string) : result JournalError OperationState :=
  match list_find (λ s, as_str s = value) ALL with
  | Some (_, s) => Ok s
  | None => Err (Corrupt ("unknown operation state " +:+ debug_str value))
  end.

(** ** Constructors of a new operation; [now] is [unix_time_ms()], [fresh]
    is [Uuid::now_v7()]. *)

Definition intent (fresh : Uuid) (now : Z)
    (destination : ObjectDestination) (expected : ExpectedObject) : OperationRecord :=
  {| op_id := fresh; op_state := Intent; op_destination := destination;
     op_tenant_id := None; op_namespace_epoch := None; op_expected := expected;
     op_upload_id := None; op_committed := None; op_lease_owner := None;
     op_lease_expires_at_ms := None; op_mutation_not_before_ms := None;
     op_exact_absence_observed_at_ms := None; op_created_at_ms := now;
     op_updated_at_ms := now |}.

Definition scoped_intent (fresh : Uuid) (now : Z) (id : Uuid)
    (destination : ObjectDestination) (expected : ExpectedObject)
    (tenant_id : string) (namespace_epoch : Z) : OperationRecord :=
  let operation := intent fresh now destination expected in
  {| op_id := id; op_state := op_state operation;
     op_destination := op_destination operation;
     op_tenant_id := Some tenant_id; op_namespace_epoch := Some namespace_epoch;
     op_expected := op_expected operation; op_upload_id := op_upload_id operation;
     op_committed := op_committed operation; op_lease_owner := op_lease_owner operation;
     op_lease_expires_at_ms := op_lease_expires_at_ms operation;
     op_mutation_not_before_ms := op_mutation_not_before_ms operation;
     op_exact_absence_observed_at_ms := op_exact_absence_observed_at_ms operation;
     op_created_at_ms := op_created_at_ms operation;
     op_updated_at_ms := op_updated_at_ms operation |}.

Record DirectOperationScope := mkDirectScope {
  direct_operation_id : Uuid;
  direct_tenant_id : string;
}.

Definition direct_intent (fresh : Uuid) (now : Z) (scope : DirectOperationScope)
    (destination : ObjectDestination) (expected : ExpectedObject) : OperationRecord :=
  let operation := intent fresh now destination expected in
  {| op_id := direct_operation_id scope; op_state := op_state operation;
     op_destination := op_destination operation;
     op_tenant_id := Some (direct_tenant_id scope);
     op_namespace_epoch := op_namespace_epoch operation;
     op_expected := op_expected operation; op_upload_id := op_upload_id operation;
     op_committed := op_committed operation; op_lease_owner := op_lease_owner operation;
     op_lease_expires_at_ms := op_lease_expires_at_ms operation;
     op_mutation_not_before_ms := op_mutation_not_before_ms operation;
     op_exact_absence_observed_at_ms := op_exact_absence_observed_at_ms operation;
     op_created_at_ms := op_created_at_ms operation;
     op_updated_at_ms := op_updated_at_ms operation |}.

(** ** Managed children *)

Inductive ManagedChildRole : Type := Primary | Replica | Repair.

Definition role_as_str (r : ManagedChildRole) : string :=
  match r with Primary => "primary" | Replica => "replica" | Repair => "repair" end.

Record ManagedOperationScope := mkScope {
  scope_operation_id : Uuid;
  scope_tenant_id : string;
  scope_namespace_epoch : Z;
}.

Definition CHILD_OPERATION_NAMESPACE : list byte :=
  [x36; x66; x5f; x7a; x4b; x54; x52; xd3; xa8; xd0; xca; xf2; x13; x0e; x1e; xb2].

(** [for field in [..] { identity.extend(len as u64 be); identity.extend(field) }]. *)
Definition child_identity_field (identity field : list byte) : list byte :=
  identity ++ to_be_bytes 8 (Z.of_nat (length field)) ++ field.

Definition child_identity (parent_operation_id : Uuid)
    (destination : ObjectDestination) (role : ManagedChildRole) : list byte :=
  foldl child_identity_field []
    [to_be_bytes 16 (Z.of_N parent_operation_id);
     bs (backend_id destination);
     bs (bucket destination);
     bs (logical_key destination);
     bs (physical_key destination);
     bs (role_as_str role)].

Section child.
(** [Uuid::new_v5] of the [uuid] crate: namespace bytes and name to a UUID. *)
Variable uuid_new_v5 : list byte → list byte → Uuid.

Definition deterministic_child (parent_operation_id : Uuid) (tenant_id : string)
    (namespace_epoch : Z) (destination : ObjectDestination) (role : ManagedChildRole)
    : ManagedOperationScope :=
  {| scope_operation_id :=
       uuid_new_v5 CHILD_OPERATION_NAMESPACE (child_identity parent_operation_id destination role);
     scope_tenant_id := tenant_id;
     scope_namespace_epoch := namespace_epoch |}.
End child.

(** ** Backend capabilities *)

Inductive IncompleteUploadDiscovery : Type :=
| DiscoveryUnsupported | ExactKeyAndStartTime | OperationIdentity.
Inductive CompletionReconciliation : Type :=
| ReconciliationUnsupported | HeadWithOperationIdentity.
Inductive VersioningCapability : Type :=
| VersioningUnsupported | VersioningOptional | VersioningRequired.
Inductive ConditionalReadCapability : Type :=
| ConditionalUnsupported | ConditionalEtag | VersionAndEtag.
Inductive ResponseChecksumCapability : Type :=
| ChecksumUnsupported | ChecksumStandard.
Inductive ListCapability : Type := ListUnsupported | V1AndV2.
Inductive MultipartResponseCapability : Type := MultipartUnsupported | MultipartStandard.

(** [MAX_RECONCILIATION_SLA], in milliseconds like every duration here. *)
Definition MAX_RECONCILIATION_SLA : Z := 5 * 60 * 1000.

Record BackendCapabilities := mkCapabilities {
  incomplete_upload_discovery : IncompleteUploadDiscovery;
  abort_incomplete_upload : bool;
  cleanup_sla : option Z;
  lifecycle_rule : bool;
  versioning : VersioningCapability;
  conditional_reads : ConditionalReadCapability;
  response_checksums : ResponseChecksumCapability;
  list_operations : ListCapability;
  multipart_responses : MultipartResponseCapability;
  completion_reconciliation : CompletionReconciliation;
}.

Inductive CapabilityError : Type :=
| MissingIncompleteUploadDiscovery
| MissingIncompleteUploadAbort
| MissingCompletionReconciliation
| CleanupSlaExceeded.

Definition streaming_eligibility (self : BackendCapabilities) : result CapabilityError unit :=
  match incomplete_upload_discovery self with
  | DiscoveryUnsupported => Err MissingIncompleteUploadDiscovery
  | _ =>
    if negb (abort_incomplete_upload self) then Err MissingIncompleteUploadAbort
    else match completion_reconciliation self with
    | ReconciliationUnsupported => Err MissingCompletionReconciliation
    | _ =>
      match cleanup_sla self with
      | Some sla => if sla <=? MAX_RECONCILIATION_SLA then Ok tt else Err CleanupSlaExceeded
      | None => Err CleanupSlaExceeded
      end
    end
  end.

(** ** Backend and transaction results *)

Inductive BackendErrorKind : Type := Definitive | Ambiguous.
#[global] Instance BackendErrorKind_eq_dec : EqDecision BackendErrorKind.
Proof. solve_decision. Defined.

Record BackendError := mkBackendError { be_kind : BackendErrorKind; be_message : string }.

Definition definitive (message : string) : BackendError := mkBackendError Definitive message.
Definition ambiguous (message : string) : BackendError := mkBackendError Ambiguous message.

Record UploadedPart := mkUploaded { up_part_number : Z; up_etag : string }.
Record DiscoveredUpload := mkDiscovered {
  du_upload_id : string; du_key : string; du_initiated_at_ms : option Z }.

Inductive CompletionProbe : Type :=
| ProbeCommitted (meta : StoredObjectMeta)
| ProvenAbsent
| ProvenAbsentExact
| Inconclusive.

Inductive TransactionError : Type :=
| TJournal (e : JournalError)
| TBackend (e : BackendError)
| TCapability (e : CapabilityError)
| TFinished
| TCompletionAmbiguous
| TTooManyParts
| TSpool (m : string)
| TOutputMismatch
| TCapacityExceeded
| TPublication (m : string).

Inductive SinkCommitState : Type := PreCommit | SinkCommitUnknown | SinkCommitted.

Definition preserves_reservation (s : SinkCommitState) : bool :=
  match s with PreCommit => false | _ => true end.

(** ** Facts about states and identities *)

(** Induction on JSON values through their lists. *)
Lemma Json_ind_strong (P : Json → Prop) :
  P JNull → (∀ b, P (JBool b)) → (∀ z, P (JNum z)) → (∀ s, P (JStr s)) →
  (∀ l, Forall P l → P (JArr l)) → (∀ l, Forall (λ kv, P (snd kv)) l → P (JObj l)) →
  ∀ x, P x.
Proof.
  intros H1 H2 H3 H4 H5 H6. fix IH 1. intros [| | | |l|l]; [done|apply H2|apply H3|apply H4|..].
  - apply H5. induction l as [|x l IHl]; constructor; [apply IH|apply IHl].
  - apply H6. induction l as [|[k x] l IHl]; constructor; [apply IH|apply IHl].
Qed.

Lemma json_eqb_refl x : json_eqb x x = true.
Proof.
  induction x as [|b|z|s|l IH|l IH] using Json_ind_strong; simpl;
    [done|by destruct b|apply Z.eqb_refl|apply String.eqb_refl|..].
  - induction IH as [|x l Hx Hl IHl]; [done|]. by rewrite Hx.
  - induction IH as [|[k x] l Hx Hl IHl]; [done|]. simpl in Hx. by rewrite String.eqb_refl, Hx.
Qed.

(** Progress of an operation: every legal transition strictly increases it. *)
Definition state_rank (s : OperationState) : nat :=
  match s with
  | Intent => 0 | Open => 1 | Completing | Aborting => 2
  | CommitUnknown => 3 | Committed | ProvenAborted => 4
  end.

Lemma can_transition_rank s t :
  can_transition_to s t = true → (state_rank s < state_rank t)%nat.
Proof. destruct s, t; simpl; intros; try done; lia. Qed.

Lemma terminal_no_transition s t : is_terminal s = true → can_transition_to s t = false.
Proof. by destruct s, t. Qed.

Lemma parse_state_as_str s : parse_state (as_str s) = Ok s.
Proof. by destruct s. Qed.

Lemma parse_state_inv s t : parse_state s = Ok t → s = as_str t.
Proof.
  unfold parse_state. repeat case_match; intros; simplify_eq.
  match goal with H : list_find _ _ = Some _ |- _ => apply list_find_Some in H as (_ & H & _) end.
  done.
Qed.

Lemma as_str_inj s t : as_str s = as_str t → s = t.
Proof. destruct s, t; simpl; intros H; done || discriminate H. Qed.

Lemma child_identity_concat (fields : list (list byte)) acc :
  foldl child_identity_field acc fields =
  acc ++ concat ((λ f, to_be_bytes 8 (Z.of_nat (length f)) ++ f) <$> fields).
Proof.
  revert acc. induction fields as [|f fs IH]; intros acc; simpl; [by rewrite app_nil_r|].
  rewrite IH. unfold child_identity_field. by rewrite <- !app_assoc.
Qed.

(** A length-prefixed concatenation determines its fields. *)
Lemma length_prefixed_inj (fs gs : list (list byte)) :
  length fs = length gs →
  Forall (λ f, Z.of_nat (length f) < 2 ^ 64) fs →
  Forall (λ f, Z.of_nat (length f) < 2 ^ 64) gs →
  concat ((λ f, to_be_bytes 8 (Z.of_nat (length f)) ++ f) <$> fs) =
  concat ((λ f, to_be_bytes 8 (Z.of_nat (length f)) ++ f) <$> gs) → fs = gs.
Proof.
  revert gs. induction fs as [|f fs IH]; intros [|g gs] Hlen Hf Hg; try done.
  rewrite !fmap_cons. cbn [concat].
  apply Forall_cons in Hf as [Hf Hfs]. apply Forall_cons in Hg as [Hg Hgs].
  rewrite <- !app_assoc. intros H.
  apply app_inj_1 in H as [H1 H2]; [ | by rewrite !length_to_be_bytes].
  apply to_be_bytes_inj in H1; [ | simpl; lia ..].
  apply app_inj_1 in H2 as [-> H3]; [ | lia].
  f_equal. apply IH; auto.
Qed.

(** Distinct parents, destinations or roles have distinct child identities. *)
Lemma child_identity_inj p p' d d' r r' :
  Z.of_N p < 2 ^ 128 → Z.of_N p' < 2 ^ 128 →
  Forall (λ s, Z.of_nat (length (bs s)) < 2 ^ 64)
    [backend_id d; bucket d; logical_key d; physical_key d;
     backend_id d'; bucket d'; logical_key d'; physical_key d'] →
  child_identity p d r = child_identity p' d' r' →
  p = p' ∧ r = r' ∧ backend_id d = backend_id d' ∧ bucket d = bucket d' ∧
  logical_key d = logical_key d' ∧ physical_key d = physical_key d'.
Proof.
  intros Hp Hp' Hlen H. unfold child_identity in H. rewrite !child_identity_concat in H.
  repeat (apply Forall_cons in Hlen as [? Hlen]).
  assert (∀ q : ManagedChildRole, Z.of_nat (length (bs (role_as_str q))) < 2 ^ 64) as Hrole
    by (intros []; simpl; lia).
  apply length_prefixed_inj in H; [ | done | | ].
  - revert H. generalize (to_be_bytes_inj 16 (Z.of_N p) (Z.of_N p')).
    generalize (to_be_bytes 16 (Z.of_N p)), (to_be_bytes 16 (Z.of_N p')). intros u u' E1 H.
    injection H as -> E2 E3 E4 E5 E6.
    specialize (E1 ltac:(simpl; lia) ltac:(simpl; lia) eq_refl).
    apply bs_inj in E2, E3, E4, E5, E6.
    split; [lia|]. split; [|done]. destruct r, r'; simpl in E6; done || discriminate E6.
  - rewrite !Forall_cons, length_to_be_bytes. repeat split; auto; lia.
  - rewrite !Forall_cons, length_to_be_bytes. repeat split; auto; lia.
Qed.
