(* ===== verification/Journal.v ===== *)
(** * The operation journal as its clients see it

    [trait OperationJournal] of [crates/gateway/src/transaction/mod.rs] as a
    type class, and the part of its contract that the sink and the
    reconciler rely on as a second class, [JournalLaws].  [MemJournal] and
    [PgJournal] give instances of both. *)

From S2P Require Import Prelude Operation.

#[local] Open Scope Z_scope.
Set Default Goal Selector "!".

(** Every operation that reads the clock takes [now], the value
    [unix_time_ms()] returned during that call. *)
Class OperationJournal (J : Type) := {
  j_insert_intent : OperationRecord → SE J JournalError unit;
  j_get : Uuid → SE J JournalError (option OperationRecord);
  j_set_open : Z → Uuid → option string → SE J JournalError unit;
  j_set_expected : Z → Uuid → ExpectedObject → SE J JournalError unit;
  j_transition : Z → Uuid → OperationState → OperationState →
    option StoredObjectMeta → SE J JournalError unit;
  j_record_part : PartRecord → SE J JournalError unit;
  j_append_evidence : EvidenceRecord → SE J JournalError unit;
  j_record_mutation_launch : Z → Uuid → Z → SE J JournalError unit;
  j_confirm_exact_absence : Z → Uuid → Z → Z → SE J JournalError bool;
  j_claim_reconcilable_operation : Z → Uuid → string → Z → Z →
    SE J JournalError (option OperationRecord);
}.

(** [is_some()] of the metadata argument must agree with [next == COMMITTED]. *)
Definition committed_arg_ok (next : OperationState) (committed : option StoredObjectMeta) : bool :=
  Bool.eqb (bool_decide (next = Committed)) (bool_decide (is_Some committed)).

(** Two journals with the same states and commit metadata; the second is
    well-formed if the first is. *)
Definition same_rows {J} (wf : J → Prop) (st : J → Uuid → option OperationState)
    (cm : J → Uuid → option StoredObjectMeta) (j j' : J) : Prop :=
  (wf j → wf j') ∧ ∀ i, st j' i = st j i ∧ cm j' i = cm j i.

(** [j'] is [j] with the row of [id] moved from [from] to [to]. *)
Definition row_moved {J} (wf : J → Prop) (st : J → Uuid → option OperationState)
    (cm : J → Uuid → option StoredObjectMeta) (id : Uuid) (from to : OperationState)
    (c : option StoredObjectMeta) (j j' : J) : Prop :=
  can_transition_to from to = true ∧ committed_arg_ok to c = true ∧
  st j id = Some from ∧ st j' id = Some to ∧
  (to = Committed → cm j' id = c) ∧ (wf j → wf j') ∧
  ∀ i, i ≠ id → st j' i = st j i ∧ cm j' i = cm j i.

(** What the operations do to the rows.  [j_state j id] is the state recorded
    for [id], [j_committed j id] its commit metadata.  A call that reports an
    error may have been applied (a lost reply of the database): the laws only
    promise that it did nothing else. *)
Class JournalLaws (J : Type) `{OperationJournal J} := {
  j_state : J → Uuid → option OperationState;
  j_committed : J → Uuid → option StoredObjectMeta;
  (** Rows are stored under their own id. *)
  j_wf : J → Prop;
  transition_ok j now id from to c j' :
    j_transition now id from to c j = (Ok tt, j') →
    row_moved j_wf j_state j_committed id from to c j j';
  transition_err j now id from to c e j' :
    j_transition now id from to c j = (Err e, j') →
    same_rows j_wf j_state j_committed j j' ∨ row_moved j_wf j_state j_committed id from to c j j';
  set_open_ok j now id u j' :
    j_set_open now id u j = (Ok tt, j') →
    row_moved j_wf j_state j_committed id Intent Open None j j';
  set_open_err j now id u e j' :
    j_set_open now id u j = (Err e, j') →
    same_rows j_wf j_state j_committed j j' ∨ row_moved j_wf j_state j_committed id Intent Open None j j';
  (** The other operations change neither states nor commit metadata. *)
  get_state j id r j' : j_get id j = (r, j') → same_rows j_wf j_state j_committed j j';
  get_read j id op j' :
    j_wf j → j_get id j = (Ok (Some op), j') →
    op_id op = id ∧ j_state j id = Some (op_state op) ∧
    (op_state op = Committed → ∀ c, op_committed op = Some c → j_committed j id = Some c);
  insert_ok j o j' :
    j_insert_intent o j = (Ok tt, j') →
    j_state j' (op_id o) = Some Intent ∧ op_state o = Intent ∧ (j_wf j → j_wf j') ∧
    ∀ i, i ≠ op_id o → j_state j' i = j_state j i ∧ j_committed j' i = j_committed j i;
  set_expected_state j now id x r j' :
    j_set_expected now id x j = (r, j') → same_rows j_wf j_state j_committed j j';
  record_part_state j p r j' :
    j_record_part p j = (r, j') → same_rows j_wf j_state j_committed j j';
  append_evidence_state j e r j' :
    j_append_evidence e j = (r, j') → same_rows j_wf j_state j_committed j j';
  mutation_launch_state j now id nb r j' :
    j_record_mutation_launch now id nb j = (r, j') → same_rows j_wf j_state j_committed j j';
  confirm_absence_state j now id t sep r j' :
    j_confirm_exact_absence now id t sep j = (r, j') → same_rows j_wf j_state j_committed j j';
  claim_state j now id o s l r j' :
    j_claim_reconcilable_operation now id o s l j = (r, j') →
    same_rows j_wf j_state j_committed j j';
  claim_read j now id o s l op j' :
    j_wf j →
    j_claim_reconcilable_operation now id o s l j = (Ok (Some op), j') →
    op_id op = id ∧ op_lease_owner op = Some o ∧
    j_state j id = Some (op_state op) ∧ is_terminal (op_state op) = false;
}.

Section relations.
Context {J : Type} (wf : J → Prop).
Context (st : J → Uuid → option OperationState) (cm : J → Uuid → option StoredObjectMeta).

#[global] Instance same_rows_preorder : PreOrder (same_rows wf st cm).
Proof.
  split; [by intros j|]. intros j k l [W1 H1] [W2 H2]. split; [auto|].
  intros i. destruct (H1 i) as [? ?], (H2 i) as [? ?]. split; congruence.
Qed.

Lemma row_moved_same id from to c j j' k :
  row_moved wf st cm id from to c j j' → same_rows wf st cm j' k →
  row_moved wf st cm id from to c j k.
Proof.
  intros (H1 & H2 & H3 & H4 & H5 & Hw & H6) [Wk H]. destruct (H id) as [Hs Hc].
  split_and!; auto; [by rewrite Hs|intros; rewrite Hc; auto|].
  intros i Hi. destruct (H i) as [-> ->]. auto.
Qed.
End relations.
