(* ===== verification/MemJournal.v ===== *)
(** * The in-memory operation journal

    [InMemoryOperationJournal] of [crates/gateway/src/transaction/journal.rs]:
    one mutex-protected [MemoryState], so each method is one atomic step. *)

From S2P Require Import Prelude Operation Journal.
From stdpp Require Import sorting.

#[local] Open Scope Z_scope.
Set Default Goal Selector "!".

(** [MemoryState] with the two fault-injection counters and the durability
    flag of [InMemoryOperationJournal]. *)
Record MemJournal := mkMem {
  operations : gmap Uuid OperationRecord;
  parts : gmap (Uuid * Z) PartRecord;
  evidence : list EvidenceRecord;
  fail_committed_transitions : nat;
  fail_evidence_appends : nat;
  durable_for_test : bool;
}.

Definition mem_new : MemJournal := mkMem ∅ ∅ [] 0 0 false.

Definition set_operations (f : gmap Uuid OperationRecord → gmap Uuid OperationRecord)
    (j : MemJournal) : MemJournal :=
  mkMem (f (operations j)) (parts j) (evidence j)
    (fail_committed_transitions j) (fail_evidence_appends j) (durable_for_test j).

(** ** Field updates of an operation record *)

Definition op_with_open (now : Z) (upload_id : option string) (o : OperationRecord) :=
  {| op_id := op_id o; op_state := Open; op_destination := op_destination o;
     op_tenant_id := op_tenant_id o; op_namespace_epoch := op_namespace_epoch o;
     op_expected := op_expected o; op_upload_id := upload_id;
     op_committed := op_committed o; op_lease_owner := op_lease_owner o;
     op_lease_expires_at_ms := op_lease_expires_at_ms o;
     op_mutation_not_before_ms := op_mutation_not_before_ms o;
     op_exact_absence_observed_at_ms := op_exact_absence_observed_at_ms o;
     op_created_at_ms := op_created_at_ms o; op_updated_at_ms := now |}.

Definition op_with_expected (now : Z) (expected : ExpectedObject) (o : OperationRecord) :=
  {| op_id := op_id o; op_state := op_state o; op_destination := op_destination o;
     op_tenant_id := op_tenant_id o; op_namespace_epoch := op_namespace_epoch o;
     op_expected := expected; op_upload_id := op_upload_id o;
     op_committed := op_committed o; op_lease_owner := op_lease_owner o;
     op_lease_expires_at_ms := op_lease_expires_at_ms o;
     op_mutation_not_before_ms := op_mutation_not_before_ms o;
     op_exact_absence_observed_at_ms := op_exact_absence_observed_at_ms o;
     op_created_at_ms := op_created_at_ms o; op_updated_at_ms := now |}.

Definition op_with_transition (now : Z) (next : OperationState)
    (committed : option StoredObjectMeta) (o : OperationRecord) :=
  {| op_id := op_id o; op_state := next; op_destination := op_destination o;
     op_tenant_id := op_tenant_id o; op_namespace_epoch := op_namespace_epoch o;
     op_expected := op_expected o; op_upload_id := op_upload_id o;
     op_committed := committed; op_lease_owner := None;
     op_lease_expires_at_ms := None;
     op_mutation_not_before_ms := op_mutation_not_before_ms o;
     op_exact_absence_observed_at_ms := op_exact_absence_observed_at_ms o;
     op_created_at_ms := op_created_at_ms o; op_updated_at_ms := now |}.

Definition op_with_launch (now not_before_ms : Z) (o : OperationRecord) :=
  {| op_id := op_id o; op_state := op_state o; op_destination := op_destination o;
     op_tenant_id := op_tenant_id o; op_namespace_epoch := op_namespace_epoch o;
     op_expected := op_expected o; op_upload_id := op_upload_id o;
     op_committed := op_committed o; op_lease_owner := op_lease_owner o;
     op_lease_expires_at_ms := op_lease_expires_at_ms o;
     op_mutation_not_before_ms :=
       Some (Z.max (default i64_min (op_mutation_not_before_ms o)) not_before_ms);
     op_exact_absence_observed_at_ms := None;
     op_created_at_ms := op_created_at_ms o; op_updated_at_ms := now |}.

Definition op_with_absence (now observed_at_ms : Z) (o : OperationRecord) :=
  {| op_id := op_id o; op_state := op_state o; op_destination := op_destination o;
     op_tenant_id := op_tenant_id o; op_namespace_epoch := op_namespace_epoch o;
     op_expected := op_expected o; op_upload_id := op_upload_id o;
     op_committed := op_committed o; op_lease_owner := op_lease_owner o;
     op_lease_expires_at_ms := op_lease_expires_at_ms o;
     op_mutation_not_before_ms := op_mutation_not_before_ms o;
     op_exact_absence_observed_at_ms := Some observed_at_ms;
     op_created_at_ms := op_created_at_ms o; op_updated_at_ms := now |}.

Definition op_with_lease (owner : string) (lease_until_ms : Z) (o : OperationRecord) :=
  {| op_id := op_id o; op_state := op_state o; op_destination := op_destination o;
     op_tenant_id := op_tenant_id o; op_namespace_epoch := op_namespace_epoch o;
     op_expected := op_expected o; op_upload_id := op_upload_id o;
     op_committed := op_committed o; op_lease_owner := Some owner;
     op_lease_expires_at_ms := Some lease_until_ms;
     op_mutation_not_before_ms := op_mutation_not_before_ms o;
     op_exact_absence_observed_at_ms := op_exact_absence_observed_at_ms o;
     op_created_at_ms := op_created_at_ms o; op_updated_at_ms := op_updated_at_ms o |}.

(** ** Operations *)

(** [HashMap::insert] replaces the record before the duplicate is reported. *)
Definition insert_intent (operation : OperationRecord) : SE MemJournal JournalError unit := λ j,
  if decide (op_state operation = Intent) then
    let j' := set_operations <[op_id operation := operation]> j in
    match operations j !! op_id operation with
    | Some _ => (Err (Conflict "duplicate operation id"), j')
    | None => (Ok tt, j')
    end
  else (Err (Conflict "new operation must start in INTENT"), j).

Definition get (operation_id : Uuid) : SE MemJournal JournalError (option OperationRecord) := λ j,
  (Ok (operations j !! operation_id), j).

Definition set_open (now : Z) (operation_id : Uuid) (upload_id : option string)
    : SE MemJournal JournalError unit := λ j,
  match operations j !! operation_id with
  | None => (Err (NotFound operation_id), j)
  | Some operation =>
    if decide (op_state operation = Intent) then
      (Ok tt, set_operations <[operation_id := op_with_open now upload_id operation]> j)
    else (Err (Conflict ("expected INTENT, found " +:+ as_str (op_state operation))), j)
  end.

Definition set_expected (now : Z) (operation_id : Uuid) (expected : ExpectedObject)
    : SE MemJournal JournalError unit := λ j,
  match operations j !! operation_id with
  | None => (Err (NotFound operation_id), j)
  | Some operation =>
    match op_state operation with
    | Intent | Open =>
      (Ok tt, set_operations <[operation_id := op_with_expected now expected operation]> j)
    | s => (Err (Conflict ("operation " +:+ pretty operation_id +:+
              " cannot update expected output in " +:+ as_str s)), j)
    end
  end.

(** [fetch_update(|remaining| remaining.checked_sub(1)).is_ok()]. *)
Definition take_fault (n : nat) : bool * nat :=
  match n with O => (false, O) | S n => (true, n) end.

Definition transition (now : Z) (operation_id : Uuid) (expected next : OperationState)
    (committed : option StoredObjectMeta) : SE MemJournal JournalError unit := λ j,
  if negb (can_transition_to expected next) then
    (Err (Conflict ("illegal transition " +:+ as_str expected +:+ " -> " +:+ as_str next)), j)
  else if negb (committed_arg_ok next committed) then
    (Err (Conflict "COMMITTED transitions require object metadata only"), j)
  else
    let (fault, remaining) :=
      if decide (next = Committed) then take_fault (fail_committed_transitions j)
      else (false, fail_committed_transitions j) in
    let j := mkMem (operations j) (parts j) (evidence j) remaining
               (fail_evidence_appends j) (durable_for_test j) in
    if fault then (Err (Persistence "injected COMMITTED transition failure"), j)
    else
      match operations j !! operation_id with
      | None => (Err (NotFound operation_id), j)
      | Some operation =>
        if decide (op_state operation = expected) then
          (Ok tt, set_operations
             <[operation_id := op_with_transition now next committed operation]> j)
        else (Err (Conflict ("expected " +:+ as_str expected +:+ ", found " +:+
                as_str (op_state operation))), j)
      end.

Definition record_part (part : PartRecord) : SE MemJournal JournalError unit := λ j,
  let key := (part_operation_id part, part_number part) in
  match parts j !! key with
  | Some existing =>
    if bool_decide (part_etag existing = part_etag part)
       && bool_decide (part_size_bytes existing = part_size_bytes part)
       && bool_decide (part_digest existing = part_digest part)
    then (Ok tt, j)
    else (Err (Conflict ("part " +:+ pretty (part_number part) +:+
            " retry body or result changed")), j)
  | None =>
    (Ok tt, mkMem (operations j) (<[key := part]> (parts j)) (evidence j)
              (fail_committed_transitions j) (fail_evidence_appends j) (durable_for_test j))
  end.

Definition part_le (p q : PartRecord) : Prop := part_number p <= part_number q.
#[global] Instance part_le_dec p q : Decision (part_le p q) := decide (part_number p <= part_number q).

(** [values().filter(..).collect()] then [sort_by_key(part_number)]. *)
Definition list_parts (operation_id : Uuid) (j : MemJournal) : list PartRecord :=
  merge_sort part_le
    (filter (λ p, part_operation_id p = operation_id) (snd <$> map_to_list (parts j))).

Definition append_evidence (e : EvidenceRecord) : SE MemJournal JournalError unit := λ j,
  let (fault, remaining) := take_fault (fail_evidence_appends j) in
  let j := mkMem (operations j) (parts j) (evidence j) (fail_committed_transitions j)
             remaining (durable_for_test j) in
  if fault then (Err (Persistence "injected evidence append failure"), j)
  else
    match list_find (λ r, ev_id r = ev_id e) (evidence j) with
    | Some (_, existing) =>
      if bool_decide (ev_operation_id existing = ev_operation_id e)
         && bool_decide (ev_kind existing = ev_kind e)
         && json_eqb (ev_detail existing) (ev_detail e)
      then (Ok tt, j)
      else (Err (Conflict "evidence id conflicts with an existing record"), j)
    | None =>
      (Ok tt, mkMem (operations j) (parts j) (evidence j ++ [e])
                (fail_committed_transitions j) (fail_evidence_appends j) (durable_for_test j))
    end.

Definition list_evidence (operation_id : Uuid) (j : MemJournal) : list EvidenceRecord :=
  filter (λ e, ev_operation_id e = operation_id) (evidence j).

Definition record_mutation_launch (now : Z) (operation_id : Uuid) (not_before_ms : Z)
    : SE MemJournal JournalError unit := λ j,
  match operations j !! operation_id with
  | None => (Err (NotFound operation_id), j)
  | Some operation =>
    if is_terminal (op_state operation) then
      (Err (Conflict "terminal operation cannot launch a provider mutation"), j)
    else
      (Ok tt, set_operations <[operation_id := op_with_launch now not_before_ms operation]> j)
  end.

Definition confirm_exact_absence (now : Z) (operation_id : Uuid)
    (observed_at_ms minimum_separation_ms : Z) : SE MemJournal JournalError bool := λ j,
  match operations j !! operation_id with
  | None => (Err (NotFound operation_id), j)
  | Some operation =>
    if match op_mutation_not_before_ms operation with
       | Some not_before => observed_at_ms <? not_before
       | None => false
       end
    then (Ok false, j)
    else
      match op_exact_absence_observed_at_ms operation with
      | Some first =>
        (Ok (minimum_separation_ms <=? i64_saturating_sub observed_at_ms first), j)
      | None =>
        (Ok false,
         set_operations <[operation_id := op_with_absence now observed_at_ms operation]> j)
      end
  end.

(** ** Claims *)

Definition lease_free (now : Z) (operation : OperationRecord) : bool :=
  match op_lease_expires_at_ms operation with
  | None => true
  | Some expiry => expiry <? now
  end.

Definition reconcilable (now stale_before_ms : Z) (operation : OperationRecord) : bool :=
  negb (is_terminal (op_state operation))
  && (op_updated_at_ms operation <=? stale_before_ms)
  && lease_free now operation.

(** The order of the tuples [(updated_at_ms, id)]. *)
Definition claim_key_le (a b : Z * Uuid) : Prop :=
  fst a < fst b ∨ (fst a = fst b ∧ (snd a <= snd b)%N).
#[global] Instance claim_key_le_dec a b : Decision (claim_key_le a b).
Proof. unfold claim_key_le. apply _. Defined.

(** The loop body over the selected ids. *)
Fixpoint claim_ids (owner : string) (lease_until_ms : Z) (ids : list (Z * Uuid))
    (ops : gmap Uuid OperationRecord) : list OperationRecord * gmap Uuid OperationRecord :=
  match ids with
  | [] => ([], ops)
  | (_, id) :: ids =>
    match ops !! id with
    | Some operation =>
      let operation := op_with_lease owner lease_until_ms operation in
      let (claimed, ops) := claim_ids owner lease_until_ms ids (<[id := operation]> ops) in
      (operation :: claimed, ops)
    | None => claim_ids owner lease_until_ms ids ops
    end
  end.

Definition claim_reconcilable (now : Z) (owner : string)
    (stale_before_ms lease_until_ms : Z) (limit : nat)
    : SE MemJournal JournalError (list OperationRecord) := λ j,
  let ids := (λ o, (op_updated_at_ms o, op_id o)) <$>
    filter (λ o, reconcilable now stale_before_ms o = true)
      (snd <$> map_to_list (operations j)) in
  let ids := take limit (merge_sort claim_key_le ids) in
  let (claimed, ops) := claim_ids owner lease_until_ms ids (operations j) in
  (Ok claimed, set_operations (λ _, ops) j).

Definition claim_reconcilable_operation (now : Z) (operation_id : Uuid) (owner : string)
    (stale_before_ms lease_until_ms : Z)
    : SE MemJournal JournalError (option OperationRecord) := λ j,
  match operations j !! operation_id with
  | None => (Ok None, j)
  | Some operation =>
    if is_terminal (op_state operation)
       || (stale_before_ms <? op_updated_at_ms operation)
       || match op_lease_expires_at_ms operation with
          | Some expiry => now <=? expiry
          | None => false
          end
    then (Ok None, j)
    else
      let operation := op_with_lease owner lease_until_ms operation in
      (Ok (Some operation), set_operations <[operation_id := operation]> j)
  end.

#[global] Instance MemJournal_journal : OperationJournal MemJournal := {|
  j_insert_intent := insert_intent;
  j_get := get;
  j_set_open := set_open;
  j_set_expected := set_expected;
  j_transition := transition;
  j_record_part := record_part;
  j_append_evidence := append_evidence;
  j_record_mutation_launch := record_mutation_launch;
  j_confirm_exact_absence := confirm_exact_absence;
  j_claim_reconcilable_operation := claim_reconcilable_operation;
|}.

(** ** The journal laws *)

Definition mem_state (j : MemJournal) (id : Uuid) : option OperationState :=
  op_state <$> operations j !! id.
Definition mem_committed (j : MemJournal) (id : Uuid) : option StoredObjectMeta :=
  operations j !! id ≫= op_committed.

(** Records are stored under their own id. *)
Definition mem_keyed (j : MemJournal) : Prop :=
  map_Forall (λ id o, op_id o = id) (operations j).

Abbreviation mem_same := (same_rows mem_keyed mem_state mem_committed).

Lemma mem_state_lookup j id o :
  operations j !! id = Some o → mem_state j id = Some (op_state o).
Proof. unfold mem_state. by intros ->. Qed.

(** Replacing a record by one with the same state and metadata. *)
Lemma mem_update_same j id o o' :
  operations j !! id = Some o → op_state o' = op_state o → op_committed o' = op_committed o →
  op_id o' = op_id o → mem_same j (set_operations <[id := o']> j).
Proof.
  intros Hl Hs Hc Hid. split.
  { intros Hk i x. simpl. rewrite lookup_insert. case_decide; [|apply Hk]. intros [= <-].
    subst i. rewrite Hid. by apply (Hk id o). }
  intros i. unfold mem_state, mem_committed. simpl. rewrite lookup_insert.
  case_decide; [|done]. subst. rewrite Hl. simpl. by rewrite Hs, Hc.
Qed.

(** Replacing a record by a legal successor. *)
Lemma mem_update_moved j j' id from to c o o' :
  operations j !! id = Some o → operations j' = <[id := o']> (operations j) →
  op_state o = from → op_state o' = to → (to = Committed → op_committed o' = c) →
  can_transition_to from to = true → committed_arg_ok to c = true → op_id o' = op_id o →
  row_moved mem_keyed mem_state mem_committed id from to c j j'.
Proof.
  intros Hl Hj <- <- Hc Ht Ha Hid. unfold row_moved, mem_keyed, mem_state, mem_committed.
  rewrite Hj, Hl, lookup_insert_eq. split_and!; auto.
  - intros Hk i x. rewrite lookup_insert. case_decide; [|apply Hk]. intros [= <-].
    subst i. rewrite Hid. by apply (Hk id o).
  - intros i Hi. by rewrite lookup_insert_ne.
Qed.

Create HintDb journal.
#[export] Hint Resolve mem_update_same : journal.

(** The effect of each method on the records, branch by branch. *)
Ltac mem_unfold :=
  unfold insert_intent, get, set_open, set_expected, transition, record_part, append_evidence,
    record_mutation_launch, confirm_exact_absence, claim_reconcilable_operation, take_fault in *.
Ltac mem_cases := intros; simpl in *; mem_unfold; repeat (case_decide || case_match); simplify_eq/=.

Lemma transition_spec now id from to c j r j' :
  transition now id from to c j = (r, j') →
  match r with
  | Ok _ => can_transition_to from to = true ∧ committed_arg_ok to c = true ∧
      ∃ o, operations j !! id = Some o ∧ op_state o = from ∧
        operations j' = <[id := op_with_transition now to c o]> (operations j)
  | Err _ => operations j' = operations j
  end ∧ parts j' = parts j ∧ evidence j' = evidence j.
Proof.
  unfold transition, take_fault. intros H.
  destruct (can_transition_to from to) eqn:E1; simplify_eq/=; [|done].
  destruct (committed_arg_ok to c) eqn:E2; simplify_eq/=; [|done].
  repeat (case_decide || case_match); simplify_eq/=; eauto 10.
Qed.

#[global, program] Instance MemJournal_laws : JournalLaws MemJournal := {|
  j_state := mem_state;
  j_committed := mem_committed;
  j_wf := mem_keyed;
|}.
Next Obligation.
  intros j now id from to c j' H.
  apply transition_spec in H as ((H1 & H2 & o & H3 & H4 & H5) & _).
  by eapply mem_update_moved.
Qed.
Next Obligation.
  intros j now id from to c e j' H. left. apply transition_spec in H as [H _].
  split; [unfold mem_keyed; by rewrite H|].
  intros i. unfold mem_state, mem_committed. by rewrite H.
Qed.
Next Obligation.
  intros j now id u j'. mem_cases. by eapply mem_update_moved.
Qed.
Next Obligation. intros j now id u e j'. by mem_cases; left. Qed.
Next Obligation. intros j id r j'. by mem_cases. Qed.
Next Obligation.
  intros j id op j' Hwf. unfold get, mem_state. intros [= H <-].
  unfold mem_committed. rewrite H. by split; [apply Hwf|].
Qed.
Next Obligation.
  intros j o j'. simpl. unfold insert_intent, mem_state, mem_committed. case_decide; [|done].
  case_match; [done|]. intros; simplify_eq/=. rewrite lookup_insert_eq. split_and!; auto.
  - simpl. by f_equal.
  - intros Hk i x. simpl. rewrite lookup_insert. case_decide; [|apply Hk]. by intros [= <-].
  - intros i Hi. by rewrite lookup_insert_ne.
Qed.
Next Obligation. intros j now id x r j'. mem_cases; eauto with journal; done. Qed.
Next Obligation. intros j p r j'. by mem_cases. Qed.
Next Obligation. intros j e r j'. by mem_cases. Qed.
Next Obligation. intros j now id nb r j'. mem_cases; eauto with journal; done. Qed.
Next Obligation. intros j now id t sep r j'. mem_cases; eauto with journal; done. Qed.
Next Obligation. intros j now id o s l r j'. mem_cases; eauto with journal; done. Qed.
Next Obligation.
  intros j now id o s l op j' Hwf. mem_cases; (erewrite mem_state_lookup by done;
    split_and!; [by eapply Hwf|done|done|by destruct (is_terminal _)]).
Qed.

(** ** Histories: any sequence of journal calls *)

Inductive command : Type :=
| CInsert (o : OperationRecord)
| CGet (id : Uuid)
| COpen (now : Z) (id : Uuid) (u : option string)
| CExpected (now : Z) (id : Uuid) (x : ExpectedObject)
| CTransition (now : Z) (id : Uuid) (from to : OperationState) (c : option StoredObjectMeta)
| CPart (p : PartRecord)
| CEvidence (e : EvidenceRecord)
| CLaunch (now : Z) (id : Uuid) (not_before : Z)
| CConfirm (now : Z) (id : Uuid) (observed sep : Z)
| CClaim (now : Z) (id : Uuid) (owner : string) (stale until : Z)
| CClaimMany (now : Z) (owner : string) (stale until : Z) (limit : nat).

Definition exec (j : MemJournal) (c : command) : MemJournal :=
  match c with
  | CInsert o => snd (insert_intent o j)
  | CGet id => snd (get id j)
  | COpen now id u => snd (set_open now id u j)
  | CExpected now id x => snd (set_expected now id x j)
  | CTransition now id from to m => snd (transition now id from to m j)
  | CPart p => snd (record_part p j)
  | CEvidence e => snd (append_evidence e j)
  | CLaunch now id nb => snd (record_mutation_launch now id nb j)
  | CConfirm now id t sep => snd (confirm_exact_absence now id t sep j)
  | CClaim now id o s l => snd (claim_reconcilable_operation now id o s l j)
  | CClaimMany now o s l n => snd (claim_reconcilable now o s l n j)
  end.

Abbreviation exec_all := (foldl exec).

(** The clock of a call that may take a lease. *)
Definition claim_now (c : command) : option Z :=
  match c with CClaim now _ _ _ _ | CClaimMany now _ _ _ _ => Some now | _ => None end.

(** What a call can do to the record of [id]. *)
Inductive record_step (id : Uuid) : command → OperationRecord → OperationRecord → Prop :=
| step_open now u o :
    op_state o = Intent → record_step id (COpen now id u) o (op_with_open now u o)
| step_expected now x o :
    op_state o = Intent ∨ op_state o = Open →
    record_step id (CExpected now id x) o (op_with_expected now x o)
| step_transition now to m o :
    can_transition_to (op_state o) to = true → committed_arg_ok to m = true →
    record_step id (CTransition now id (op_state o) to m) o (op_with_transition now to m o)
| step_launch now nb o :
    is_terminal (op_state o) = false →
    record_step id (CLaunch now id nb) o (op_with_launch now nb o)
| step_absence now t sep o :
    op_exact_absence_observed_at_ms o = None →
    record_step id (CConfirm now id t sep) o (op_with_absence now t o)
| step_lease c now w l o :
    claim_now c = Some now → reconcilable now (op_updated_at_ms o) o = true →
    record_step id c o (op_with_lease w l o).

Definition inserts (id : Uuid) (c : command) : bool :=
  match c with
  | CInsert o => bool_decide (op_id o = id ∧ op_state o = Intent)
  | _ => false
  end.

Lemma claim_ids_lookup owner l ids ops id :
  (claim_ids owner l ids ops).2 !! id = ops !! id ∨
  ∃ o, ops !! id = Some o ∧ id ∈ (snd <$> ids) ∧
    (claim_ids owner l ids ops).2 !! id = Some (op_with_lease owner l o).
Proof.
  revert ops. induction ids as [|[u i] ids IH]; intros ops; simpl; [by left|].
  destruct (ops !! i) as [o|] eqn:Ei.
  - specialize (IH (<[i := op_with_lease owner l o]> ops)).
    destruct (claim_ids _ _ _ (<[_:=_]> ops)) as [cl ops'] eqn:Ec. simpl in *.
    destruct (decide (i = id)) as [->|Hne].
    + right. exists o. rewrite lookup_insert_eq in IH. split; [done|]. split; [set_solver|].
      destruct IH as [->|(o' & [= <-] & _ & ->)]; done.
    + rewrite lookup_insert_ne in IH by done.
      destruct IH as [->|(o' & ? & ? & ->)]; [by left|right]. exists o'. set_solver.
  - destruct (IH ops) as [->|(o & ? & ? & ->)]; [by left|right]. exists o. set_solver.
Qed.

(** A call that does not insert [id] leaves its record as it was or performs
    one [record_step] on it. *)
Lemma exec_record_step j c id :
  mem_keyed j → inserts id c = false →
  operations (exec j c) !! id = operations j !! id ∨
  ∃ o o', operations j !! id = Some o ∧ operations (exec j c) !! id = Some o' ∧
    record_step id c o o'.
Proof.
  intros Hk Hi. destruct c; simpl in *.
  - unfold insert_intent. apply bool_decide_eq_false in Hi.
    case_decide; [|by left]. left.
    case_match; simpl; rewrite lookup_insert_ne; naive_solver.
  - by left.
  - unfold set_open. destruct (operations j !! id0) as [o|] eqn:E; [|by left].
    case_decide; [|by left]. simpl. rewrite lookup_insert. case_decide; [subst|by left].
    right. eexists _, _. split_and!; [done|done|by constructor].
  - unfold set_expected. destruct (operations j !! id0) as [o|] eqn:E; [|by left].
    destruct (op_state o) eqn:Es; (try by left);
      simpl; rewrite lookup_insert; (case_decide; [subst|by left]);
      right; eexists _, _; (split_and!; [done|done|constructor; auto]).
  - destruct (transition now id0 from to c j) as [r j'] eqn:E.
    apply transition_spec in E as [E _]. simpl. destruct r as [|e]; [|left; by rewrite E].
    destruct E as (Hc & Ha & o & Ho & <- & ->). rewrite lookup_insert.
    case_decide; [subst|by left]. right. eexists _, _. split_and!; [done|done|by constructor].
  - unfold record_part. repeat case_match; by left.
  - unfold append_evidence, take_fault. repeat case_match; by left.
  - unfold record_mutation_launch. destruct (operations j !! id0) as [o|] eqn:E; [|by left].
    destruct (is_terminal _) eqn:Et; [by left|]. simpl. rewrite lookup_insert.
    case_decide; [subst|by left]. right. eexists _, _. split_and!; [done|done|by constructor].
  - unfold confirm_exact_absence. destruct (operations j !! id0) as [o|] eqn:E; [|by left].
    destruct (match op_mutation_not_before_ms o with Some _ => _ | None => _ end); [by left|].
    destruct (op_exact_absence_observed_at_ms o) eqn:Ea; [by left|]. simpl.
    rewrite lookup_insert. case_decide; [subst|by left].
    right. eexists _, _. split_and!; [done|done|by constructor].
  - unfold claim_reconcilable_operation.
    destruct (operations j !! id0) as [o|] eqn:E; [|by left].
    destruct (is_terminal (op_state o)) eqn:Et; [by left|]. simpl.
    destruct (stale <? op_updated_at_ms o) eqn:Eu; [by left|]. simpl.
    destruct (match op_lease_expires_at_ms o with Some _ => _ | None => _ end) eqn:El; [by left|].
    simpl. rewrite lookup_insert. case_decide; [subst|by left].
    right. eexists _, _. split_and!; [done|done|]. eapply step_lease; [done|].
    unfold reconcilable, lease_free. rewrite Et, Z.leb_refl. simpl.
    destruct (op_lease_expires_at_ms o); lia.
  - unfold claim_reconcilable. set (ids := take limit _).
    pose proof (claim_ids_lookup owner until ids (operations j) id) as H.
    destruct (claim_ids owner until ids (operations j)) as [cl ops]. simpl in *.
    destruct H as [->|(o & Ho & Hid & ->)]; [by left|]. right. eexists _, _.
    split_and!; [done|done|]. eapply step_lease; [done|].
    apply list_elem_of_fmap in Hid as ([u i] & -> & Hid). simpl in *.
    apply elem_of_take in Hid as (k & Hid & _).
    apply list_elem_of_lookup_2 in Hid. rewrite merge_sort_Permutation in Hid.
    apply list_elem_of_fmap in Hid as (o' & [= -> ->] & Hid).
    apply list_elem_of_filter in Hid as [Hr Hid].
    apply list_elem_of_fmap in Hid as ([i' o''] & -> & Hid). apply elem_of_map_to_list in Hid.
    simpl in *. rewrite (Hk _ _ Hid) in Ho. simplify_eq.
    unfold reconcilable in *. rewrite Z.leb_refl. destruct (is_terminal _), (lease_free _ _); lia.
Qed.

Lemma record_step_id id c o o' : record_step id c o o' → op_id o' = op_id o.
Proof. by destruct 1. Qed.

Lemma exec_keyed j c : mem_keyed j → mem_keyed (exec j c).
Proof.
  intros Hk id o Ho. destruct (inserts id c) eqn:Ei.
  - destruct c as [o'| | | | | | | | | |]; try done. simpl in *. apply bool_decide_eq_true in Ei as [Ei Es].
    unfold insert_intent in Ho. case_decide; [|by apply Hk].
    case_match; simpl in Ho; rewrite Ei, lookup_insert_eq in Ho; by simplify_eq.
  - destruct (exec_record_step j c id Hk Ei) as [E|(p & p' & Hp & Hp' & Hs)].
    + rewrite E in Ho. by apply Hk.
    + rewrite Hp' in Ho. simplify_eq. rewrite (record_step_id _ _ _ _ Hs). by apply Hk.
Qed.

Lemma exec_all_keyed cs j : mem_keyed j → mem_keyed (exec_all j cs).
Proof. revert j. induction cs as [|c cs IH]; intros j Hk; [done|]. by apply IH, exec_keyed. Qed.
#[export] Hint Resolve exec_keyed exec_all_keyed : journal.

Lemma mem_new_keyed : mem_keyed mem_new.
Proof. done. Qed.
#[export] Hint Resolve mem_new_keyed : journal.

(** A record created by [intent], [scoped_intent] or [direct_intent]. *)
Definition fresh_record (o : OperationRecord) : Prop :=
  op_committed o = None ∧ op_lease_owner o = None ∧ op_lease_expires_at_ms o = None ∧
  op_mutation_not_before_ms o = None ∧ op_exact_absence_observed_at_ms o = None.

Definition fresh_inserts (c : command) : Prop :=
  match c with CInsert o => fresh_record o | _ => True end.

(** Metadata exactly when COMMITTED; no lease on a terminal operation. *)
Definition record_wf (o : OperationRecord) : Prop :=
  (is_Some (op_committed o) ↔ op_state o = Committed) ∧
  (is_terminal (op_state o) = true → op_lease_owner o = None ∧ op_lease_expires_at_ms o = None).

Definition mem_wf (j : MemJournal) : Prop :=
  mem_keyed j ∧ map_Forall (λ _, record_wf) (operations j).

Lemma record_step_wf id c o o' : record_step id c o o' → record_wf o → record_wf o'.
Proof.
  intros Hs [Hc Hl]. destruct Hs as [now u o Hi|now x o Hi|now to m o Ht Ha|now nb o Ht|now t sep o Ha|c now w l o Hn Hr];
    split; simpl; try done; auto.
  - rewrite Hc, Hi. done.
  - unfold committed_arg_ok in Ha. apply Bool.eqb_prop in Ha.
    destruct (decide (to = Committed)) as [->|Hne].
    + rewrite bool_decide_eq_true_2 in Ha by done. symmetry in Ha.
      apply bool_decide_eq_true in Ha. naive_solver.
    + rewrite bool_decide_eq_false_2 in Ha by done. symmetry in Ha.
      apply bool_decide_eq_false in Ha. naive_solver.
  - unfold reconcilable in Hr. by destruct (is_terminal (op_state o)).
Qed.

Lemma fresh_record_wf o : fresh_record o → op_state o = Intent → record_wf o.
Proof. intros (H1 & H2 & H3 & _) Hi. split; rewrite ?Hi, ?H1; [split; by inversion 1|done]. Qed.

Lemma insert_intent_ops o j id p :
  operations (insert_intent o j).2 !! id = Some p →
  operations j !! id = Some p ∨ (p = o ∧ op_id o = id ∧ op_state o = Intent).
Proof.
  unfold insert_intent. case_decide; [|by left]. case_match; simpl;
    rewrite lookup_insert; case_decide; intros; simplify_eq; auto.
Qed.

Lemma exec_wf j c : mem_wf j → fresh_inserts c → mem_wf (exec j c).
Proof.
  intros [Hk Hw] Hf. split; [by apply exec_keyed|]. intros id o Ho.
  destruct (inserts id c) eqn:Ei.
  - destruct c as [o'| | | | | | | | | |]; try done. simpl in *.
    apply insert_intent_ops in Ho as [Ho|(-> & _ & Hi)]; [by eapply Hw|by apply fresh_record_wf].
  - destruct (exec_record_step j c id Hk Ei) as [E|(p & p' & Hp & Hp' & Hs)].
    + rewrite E in Ho. by eapply Hw.
    + rewrite Hp' in Ho. simplify_eq. eapply record_step_wf; [done|]. by eapply Hw.
Qed.

Lemma exec_all_wf cs j : mem_wf j → Forall fresh_inserts cs → mem_wf (exec_all j cs).
Proof.
  revert j. induction cs as [|c cs IH]; intros j Hj Hf; [done|].
  apply Forall_cons in Hf as [? ?]. simpl. apply IH; [|done]. by apply exec_wf.
Qed.

(** A property of records that every step preserves survives a history that
    does not insert the same id again. *)
Lemma exec_all_record (P : OperationRecord → Prop) cs j id o :
  (∀ c p p', P p → record_step id c p p' → P p') →
  mem_keyed j → Forall (λ c, inserts id c = false) cs →
  operations j !! id = Some o → P o →
  ∃ o', operations (exec_all j cs) !! id = Some o' ∧ P o'.
Proof.
  intros HP. revert j o. induction cs as [|c cs IH]; intros j o Hk Hi Ho Hp; [by eauto|].
  apply Forall_cons in Hi as [Hi His]. simpl.
  destruct (exec_record_step j c id Hk Hi) as [E|(p & p' & Hp1 & Hp2 & Hs)].
  - rewrite Ho in E. eapply IH; eauto with journal.
  - rewrite Ho in Hp1. simplify_eq. eapply IH; eauto with journal.
Qed.

Lemma record_step_transitions id c o o' :
  record_step id c o o' →
  op_state o' = op_state o ∨ can_transition_to (op_state o) (op_state o') = true.
Proof. destruct 1 as [now u o Hi| | | | | ]; simpl; auto. right. by rewrite Hi. Qed.

Lemma record_step_terminal id c o o' :
  record_step id c o o' → is_terminal (op_state o) = true →
  op_state o' = op_state o ∧ op_committed o' = op_committed o ∧
  op_expected o' = op_expected o ∧ op_upload_id o' = op_upload_id o.
Proof.
  destruct 1 as [now u o Hi|now x o Hi|now to m o Ht Ha|now nb o Ht|now t sep o Ha|c now w l o Hn Hr]; intros Hterm; simpl; auto.
  - by rewrite Hi in Hterm.
  - destruct Hi as [Hi|Hi]; by rewrite Hi in Hterm.
  - by rewrite terminal_no_transition in Ht.
Qed.

(** ** Leases *)

Lemma claim_operation_spec now id owner stale until j r j' :
  claim_reconcilable_operation now id owner stale until j = (r, j') →
  (r = Ok None ∧ j' = j) ∨
  ∃ o, operations j !! id = Some o ∧ reconcilable now stale o = true ∧
    r = Ok (Some (op_with_lease owner until o)) ∧
    j' = set_operations <[id := op_with_lease owner until o]> j.
Proof.
  unfold claim_reconcilable_operation.
  destruct (operations j !! id) as [o|]; [|intros; left; by simplify_eq].
  destruct (_ || _) eqn:E; intros; simplify_eq; [by left|right].
  exists o. split_and!; try done. unfold reconcilable, lease_free.
  apply orb_false_iff in E as [[-> ?]%orb_false_iff E].
  destruct (op_lease_expires_at_ms o); lia.
Qed.

Lemma claim_leased now id owner stale until j o x :
  operations j !! id = Some o → op_lease_expires_at_ms o = Some x → now <= x →
  claim_reconcilable_operation now id owner stale until j = (Ok None, j).
Proof.
  intros Ho Hx Hle. destruct (claim_reconcilable_operation _ _ _ _ _ j) as [r j'] eqn:E.
  apply claim_operation_spec in E as [[-> ->]|(o' & Ho' & Hr & _)]; [done|].
  simplify_eq. unfold reconcilable, lease_free in Hr. rewrite Hx in Hr. lia.
Qed.

(** Calls that cannot end a lease of [id] running until [l]: they neither
    insert nor transition [id], and their clock has not passed [l]. *)
Definition respects_lease (id : Uuid) (l : Z) (c : command) : Prop :=
  inserts id c = false ∧
  match c with
  | CTransition _ i _ _ _ => i ≠ id
  | CClaim now _ _ _ _ | CClaimMany now _ _ _ _ => now <= l
  | _ => True
  end.

Lemma exec_lease_kept j c id l o :
  mem_keyed j → respects_lease id l c →
  operations j !! id = Some o → op_lease_expires_at_ms o = Some l →
  ∃ o', operations (exec j c) !! id = Some o' ∧ op_lease_expires_at_ms o' = Some l ∧
    op_lease_owner o' = op_lease_owner o.
Proof.
  intros Hk [Hi Hc] Ho Hl.
  destruct (exec_record_step j c id Hk Hi) as [E|(p & p' & Hp & Hp' & Hs)];
    [rewrite E; eauto|].
  rewrite Ho in Hp. simplify_eq. exists p'. split; [done|].
  destruct Hs as [now u q Hq|now x q Hq|now to m q Ht Ha|now nb q Ht|now t sep q Ha|c now w k q Hn Hr];
    simpl in *; auto; try done.
  exfalso. unfold reconcilable, lease_free in Hr. rewrite Hl in Hr.
  destruct c; simplify_eq/=; lia.
Qed.

Lemma exec_all_lease_kept cs j id l o :
  mem_keyed j → Forall (respects_lease id l) cs →
  operations j !! id = Some o → op_lease_expires_at_ms o = Some l →
  ∃ o', operations (exec_all j cs) !! id = Some o' ∧ op_lease_expires_at_ms o' = Some l ∧
    op_lease_owner o' = op_lease_owner o.
Proof.
  revert j o. induction cs as [|c cs IH]; intros j o Hk Hc Ho Hl; [by eauto|].
  apply Forall_cons in Hc as [Hc Hcs]. simpl.
  destruct (exec_lease_kept j c id l o) as (o' & Ho' & Hl' & Hw); auto.
  rewrite <- Hw. eapply IH; eauto with journal.
Qed.

(** ** Exact absence *)

(** A launch of [id] recorded successfully by the command. *)
Definition launches (id : Uuid) (nb : Z) (j : MemJournal) (c : command) : Prop :=
  ∃ now, c = CLaunch now id nb ∧ (record_mutation_launch now id nb j).1 = Ok tt.

(** What the absence column says about the history [cs] that produced it: the
    observation [t0] was made by a call that found none, and nothing since
    then re-inserted the operation or launched a mutation for it. *)
Definition observed_at (id : Uuid) (cs : list command) (t0 : Z) : Prop :=
  ∃ cs1 now sep cs2, cs = cs1 ++ CConfirm now id t0 sep :: cs2 ∧
    (confirm_exact_absence now id t0 sep (exec_all mem_new cs1)).1 = Ok false ∧
    Forall (λ c, inserts id c = false) cs2 ∧
    ∀ a c b nb, cs2 = a ++ c :: b →
      ¬ launches id nb (exec_all mem_new (cs1 ++ CConfirm now id t0 sep :: a)) c.

Lemma observed_at_snoc id cs c t0 :
  observed_at id cs t0 → inserts id c = false →
  (∀ nb, ¬ launches id nb (exec_all mem_new cs) c) → observed_at id (cs ++ [c]) t0.
Proof.
  intros (cs1 & now & sep & cs2 & -> & Hr & Hi & Hl) Hc Hn.
  exists cs1, now, sep, (cs2 ++ [c]). split; [by rewrite <- app_assoc|]. split; [done|].
  split; [apply Forall_app; auto|]. intros a c' b nb Hab.
  destruct b as [|d b _] using rev_ind.
  - apply app_inj_tail in Hab as [<- <-]. apply Hn.
  - rewrite app_comm_cons, app_assoc in Hab. apply app_inj_tail in Hab as [-> _]. eauto.
Qed.

Lemma exec_all_snoc cs c j : exec_all j (cs ++ [c]) = exec (exec_all j cs) c.
Proof. by rewrite foldl_app. Qed.

(** A launch that succeeds clears the absence column and raises the bound. *)
Lemma launch_effect id nb j c :
  launches id nb j c → ∃ o now, operations j !! id = Some o ∧
    operations (exec j c) !! id = Some (op_with_launch now nb o).
Proof.
  intros (now & -> & H). simpl. unfold record_mutation_launch in *.
  destruct (operations j !! id) as [o|]; [|done]. destruct (is_terminal _); [done|].
  exists o, now. split; [done|]. simpl. apply lookup_insert_eq.
Qed.

Lemma confirm_first now id t sep j o :
  operations j !! id = Some o → op_exact_absence_observed_at_ms o = None →
  (confirm_exact_absence now id t sep j).1 = Ok false.
Proof. intros Ho Ha. unfold confirm_exact_absence. rewrite Ho, Ha. by repeat case_match. Qed.

(** The absence column always stems from an observation in the history. *)
Lemma absence_history id cs o t0 :
  Forall fresh_inserts cs →
  operations (exec_all mem_new cs) !! id = Some o →
  op_exact_absence_observed_at_ms o = Some t0 → observed_at id cs t0.
Proof.
  revert o. induction cs as [|c cs IH] using rev_ind; intros o Hf Ho Ht; [done|].
  apply Forall_app in Hf as [Hf Hc]. apply Forall_cons in Hc as [Hc _].
  rewrite exec_all_snoc in Ho. destruct (inserts id c) eqn:Ei.
  { destruct c as [o'| | | | | | | | | |]; try done. simpl in *.
    apply bool_decide_eq_true in Ei as [Ei Es]. unfold insert_intent in Ho.
    rewrite decide_True in Ho by done.
    destruct Hc as (_ & _ & _ & _ & Hc).
    case_match; simpl in Ho; rewrite Ei, lookup_insert_eq in Ho; congruence. }
  assert (∀ nb, ¬ launches id nb (exec_all mem_new cs) c) as Hnl.
  { intros nb (q & now & _ & Hq)%launch_effect. rewrite Hq in Ho. by simplify_eq. }
  destruct (exec_record_step (exec_all mem_new cs) c id) as [E|(p & p' & Hp & Hp' & Hs)];
    [by eauto with journal|done| |].
  - apply observed_at_snoc; auto. rewrite E in Ho. eauto.
  - rewrite Hp' in Ho. simplify_eq.
    destruct Hs as [now u q Hq|now x q Hq|now to m q Hq Ha|now nb q Hq|now t sep q Ha|c now w k q Hn Hr];
      simpl in *; simplify_eq; try (apply observed_at_snoc; by eauto).
    exists cs, now, sep, []. split_and!; [done|by eapply confirm_first|by constructor|].
    intros a c b nb Hab. by destruct a.
Qed.

(** A recorded launch bounds the not-before column from below. *)
Lemma launch_bound id nb a c b o :
  launches id nb (exec_all mem_new a) c → Forall (λ c, inserts id c = false) b →
  operations (exec_all mem_new (a ++ c :: b)) !! id = Some o →
  ∃ m, op_mutation_not_before_ms o = Some m ∧ nb <= m.
Proof.
  intros (p & now & Hp & Hp')%launch_effect Hb Ho.
  assert (∃ o', operations (exec_all mem_new (a ++ c :: b)) !! id = Some o' ∧
    ∃ m, op_mutation_not_before_ms o' = Some m ∧ nb <= m) as (o' & Ho' & H).
  { rewrite foldl_app. simpl. eapply exec_all_record with (o := op_with_launch now nb p);
      [|by eauto with journal|done|done|].
    - intros d q q' (m & Hm & Hle) Hs. destruct Hs; simpl; eauto.
      rewrite Hm. simpl. eexists. split; [done|]. lia.
    - simpl. eexists. split; [done|]. lia. }
  rewrite Ho in Ho'. by simplify_eq.
Qed.

(** ** Properties *)

(** whatever sequence of journal calls is made from the empty journal with
    freshly created operations, every stored record carries commit metadata
    exactly when it is COMMITTED, holds no lease once terminal, and is stored
    under its own id. *)
Theorem mem_history_wf cs :
  Forall fresh_inserts cs → mem_wf (exec_all mem_new cs).
Proof. intros. by apply exec_all_wf. Qed.

Definition ex_destination : ObjectDestination := mkDestination "b2" "bucket" "k" "p/k" None.
Definition ex_op : OperationRecord := intent 7 100 ex_destination (mkExpected None None ∅).
Definition ex_meta : StoredObjectMeta := mkMeta (Some "etag") None [] true.
(** An operation that is opened, completes and commits. *)
Definition ex_commit : list command :=
  [CInsert ex_op; COpen 101 7 None; CTransition 102 7 Open Completing None;
   CTransition 103 7 Completing Committed (Some ex_meta)].

Lemma mem_history_wf_witness :
  mem_state (exec_all mem_new ex_commit) 7%N = Some Committed ∧
  mem_wf (exec_all mem_new ex_commit).
Proof. split; [by vm_compute|]. apply mem_history_wf. repeat constructor. Defined.

(** a terminal operation is immutable: no history of journal calls that
    does not insert the same id again changes its state, its commit metadata,
    its expected object or its upload id. *)
Theorem mem_terminal_immutable cs j id o :
  mem_keyed j → Forall (λ c, inserts id c = false) cs →
  operations j !! id = Some o → is_terminal (op_state o) = true →
  ∃ o', operations (exec_all j cs) !! id = Some o' ∧
    op_state o' = op_state o ∧ op_committed o' = op_committed o ∧
    op_expected o' = op_expected o ∧ op_upload_id o' = op_upload_id o.
Proof.
  intros Hk Hi Ho Ht.
  apply (exec_all_record (λ o', op_state o' = op_state o ∧ op_committed o' = op_committed o ∧
    op_expected o' = op_expected o ∧ op_upload_id o' = op_upload_id o) cs j id o); auto.
  intros c p p' (H1 & H2 & H3 & H4) Hs. apply record_step_terminal in Hs; [|by rewrite H1].
  destruct Hs as (-> & -> & -> & ->). done.
Qed.

Lemma mem_terminal_immutable_witness :
  ∃ o', operations (exec_all (exec_all mem_new ex_commit)
          [CTransition 200 7 Completing ProvenAborted None; CLaunch 201 7 500]) !! 7%N = Some o' ∧
    op_state o' = Committed ∧ op_committed o' = Some ex_meta.
Proof.
  destruct (mem_terminal_immutable
    [CTransition 200 7 Completing ProvenAborted None; CLaunch 201 7 500]
    (exec_all mem_new ex_commit) 7%N
    (op_with_transition 103 Committed (Some ex_meta)
      (op_with_transition 102 Completing None (op_with_open 101 None ex_op))))
    as (o' & H1 & H2 & H3 & _).
  - apply exec_all_keyed, mem_new_keyed.
  - repeat constructor.
  - by vm_compute.
  - done.
  - by exists o'.
Defined.

(** Over any history that does not insert [id] again, the recorded state
    moves only along the transition table of [can_transition_to]. *)
Theorem mem_state_path cs j id o :
  mem_keyed j → Forall (λ c, inserts id c = false) cs →
  operations j !! id = Some o →
  ∃ o', operations (exec_all j cs) !! id = Some o' ∧
    rtc (λ s t, can_transition_to s t = true) (op_state o) (op_state o').
Proof.
  intros Hk Hi Ho.
  apply (exec_all_record (λ o', rtc (λ s t, can_transition_to s t = true) (op_state o) (op_state o'))
    cs j id o); auto; [|by constructor].
  intros c p p' Hp Hs. apply record_step_transitions in Hs as [->|Hs]; [done|].
  by eapply rtc_r.
Qed.

Lemma mem_state_path_witness :
  ∃ o', operations (exec_all (exec_all mem_new [CInsert ex_op])
          [COpen 101 7 None; CTransition 102 7 Open Aborting None]) !! 7%N = Some o' ∧
    rtc (λ s t, can_transition_to s t = true) Intent (op_state o').
Proof.
  apply (mem_state_path [COpen 101 7 None; CTransition 102 7 Open Aborting None]
    (exec_all mem_new [CInsert ex_op]) 7%N ex_op).
  - apply exec_all_keyed, mem_new_keyed.
  - repeat constructor.
  - by vm_compute.
Defined.

(** [confirm_exact_absence] answers [true] only for the second of two
    observations: an earlier call observed absence at [t0], at least the
    required separation before, no mutation was launched and the operation was
    not re-inserted in between, and every mutation launched since the
    operation was inserted has passed its ambiguity window. *)
Theorem mem_exact_absence_confirmed cs now id t sep :
  Forall fresh_inserts cs →
  (confirm_exact_absence now id t sep (exec_all mem_new cs)).1 = Ok true →
  (∃ t0, observed_at id cs t0 ∧ sep <= i64_saturating_sub t t0) ∧
  (∀ a c b nb, cs = a ++ c :: b → launches id nb (exec_all mem_new a) c →
     Forall (λ c, inserts id c = false) b → nb <= t).
Proof.
  intros Hf Hc. unfold confirm_exact_absence in Hc.
  destruct (operations (exec_all mem_new cs) !! id) as [o|] eqn:Ho; [|done].
  split.
  - destruct (match op_mutation_not_before_ms o with Some _ => _ | None => _ end); [done|].
    destruct (op_exact_absence_observed_at_ms o) as [t0|] eqn:Ha; [|done].
    exists t0. split; [by eapply absence_history|]. simpl in Hc. injection Hc. lia.
  - intros a c b nb -> Hl Hb. destruct (launch_bound id nb a c b o) as (m & Hm & Hle); auto.
    rewrite Hm in Hc. destruct (t <? m) eqn:E; [done|]. lia.
Qed.

(** An operation whose completion is ambiguous, observed absent once. *)
Definition ex_absence : list command :=
  [CInsert ex_op; COpen 101 7 None; CTransition 102 7 Open Completing None;
   CLaunch 103 7 75103; CTransition 104 7 Completing CommitUnknown None;
   CConfirm 80000 7 80000 5000].

Lemma mem_exact_absence_confirmed_witness :
  (confirm_exact_absence 86000 7 86000 5000 (exec_all mem_new ex_absence)).1 = Ok true ∧
  ∃ t0, observed_at 7 ex_absence t0 ∧ 5000 <= i64_saturating_sub 86000 t0.
Proof.
  split; [by vm_compute|].
  apply (mem_exact_absence_confirmed ex_absence 86000 7 86000 5000).
  - repeat constructor.
  - by vm_compute.
Defined.

(** a claim is exclusive until its lease expires: after [owner] claimed
    [id] until [until], no later claim made before that instant obtains it,
    whatever other calls happen in between, unless the operation is
    transitioned or re-inserted. *)
Theorem mem_lease_exclusive cs now id owner stale until j op j1 now' owner' stale' until' :
  mem_keyed j →
  claim_reconcilable_operation now id owner stale until j = (Ok (Some op), j1) →
  Forall (respects_lease id until) cs → now' <= until →
  claim_reconcilable_operation now' id owner' stale' until' (exec_all j1 cs) =
    (Ok None, exec_all j1 cs) ∧
  ∃ o, operations (exec_all j1 cs) !! id = Some o ∧ op_lease_owner o = Some owner.
Proof.
  intros Hk Hc Hcs Hle. apply claim_operation_spec in Hc as [[? _]|(o & Ho & _ & _ & ->)]; [done|].
  destruct (exec_all_lease_kept cs (set_operations <[id := op_with_lease owner until o]> j) id until
    (op_with_lease owner until o)) as (o' & Ho' & Hl & Hw); auto.
  - intros i p. simpl. rewrite lookup_insert. case_decide; intros; simplify_eq; simpl; by apply Hk.
  - simpl. apply lookup_insert_eq.
  - split; [by eapply claim_leased|eauto].
Qed.

Lemma mem_lease_exclusive_witness :
  (claim_reconcilable_operation 500 7 "b" 400 900
     (exec_all (claim_reconcilable_operation 300 7 "a" 200 600 (exec_all mem_new [CInsert ex_op])).2
        [CLaunch 350 7 10; CClaimMany 400 "c" 400 900 10])).1 = Ok None.
Proof.
  pose proof (mem_lease_exclusive [CLaunch 350 7 10; CClaimMany 400 "c" 400 900 10]
    300 7 "a" 200 600 (exec_all mem_new [CInsert ex_op]) (op_with_lease "a" 600 ex_op)
    (claim_reconcilable_operation 300 7 "a" 200 600 (exec_all mem_new [CInsert ex_op])).2
    500 "b" 400 900) as H.
  destruct H as [H _].
  - apply exec_all_keyed, mem_new_keyed.
  - by vm_compute.
  - repeat constructor; simpl; lia.
  - lia.
  - by rewrite H.
Defined.

(** The in-memory journal reports a duplicate id only after it has replaced
    the stored record: inserting a second intent under the id of a COMMITTED
    operation returns a conflict and leaves INTENT behind. *)
Theorem mem_duplicate_insert_overwrites j o p :
  operations j !! op_id o = Some p → op_state o = Intent →
  (insert_intent o j).1 = Err (Conflict "duplicate operation id") ∧
  operations (insert_intent o j).2 !! op_id o = Some o.
Proof.
  intros Hp Hi. unfold insert_intent. rewrite decide_True, Hp by done. simpl.
  split; [done|]. apply lookup_insert_eq.
Qed.

Lemma mem_duplicate_insert_overwrites_witness :
  mem_state (exec_all mem_new ex_commit) 7%N = Some Committed ∧
  operations (insert_intent ex_op (exec_all mem_new ex_commit)).2 !! 7%N = Some ex_op.
Proof.
  split; [by vm_compute|].
  refine (proj2 (mem_duplicate_insert_overwrites (exec_all mem_new ex_commit) ex_op
    (op_with_transition 103 Committed (Some ex_meta)
      (op_with_transition 102 Completing None (op_with_open 101 None ex_op))) _ _)); by vm_compute.
Defined.
