(* ===== verification/PgJournal.v ===== *)
(** * The Postgres operation journal

    [PostgresOperationJournal] of [crates/gateway/src/transaction/journal.rs]
    over the tables [object_operations], [object_operation_parts] and
    [object_operation_evidence] ([crates/gateway/src/entity]).  Each SQL
    statement is one step.  A statement may report a database error; whether
    it was applied before the error is then part of the fault, so a lost
    reply of a committed statement is covered.  The constraints of the tables
    ([migrations]: keys, foreign keys and checks) refuse a row with such an
    error.  The text of a database or serde error inside a message is not
    modelled, nor that Postgres refuses a text with a NUL in it. *)

From S2P Require Import Prelude Operation Journal.
From stdpp Require Import sorting.

#[local] Open Scope Z_scope.
Set Default Goal Selector "!".

(** ** Rows ([entity::object_operation::Model] and its two siblings) *)

Record Row := mkRow {
  r_id : Uuid;
  r_state : string;
  r_backend_id : string;
  r_bucket : string;
  r_logical_key : string;
  r_physical_key : string;
  r_tenant_id : option string;
  r_namespace_epoch : option Z;
  r_backend_config_version : option string;
  r_capability_attestation_id : option string;
  r_routing_epoch : option Z;
  r_routing_lease_id : option Uuid;
  r_routing_fencing_token : option Z;
  r_mutation_not_before_ms : option Z;
  r_exact_absence_observed_at_ms : option Z;
  r_expected_digest : option string;
  r_expected_size : option Z;
  r_expected_metadata : Json;
  r_upload_id : option string;
  r_committed_etag : option string;
  r_committed_version_id : option string;
  r_committed_superseded_version_ids : Json;
  r_committed_version_history_complete : bool;
  r_lease_owner : option string;
  r_lease_expires_at_ms : option Z;
  r_created_at_ms : Z;
  r_updated_at_ms : Z;
}.

Record PartRow := mkPartRow {
  pr_operation_id : Uuid;
  pr_part_number : Z;
  pr_etag : string;
  pr_size_bytes : Z;
  pr_digest : string;
  pr_created_at_ms : Z;
}.

(** A database error, and whether the failing statement took effect. *)
Record DbFault := mkFault { fault_message : string; fault_applied : bool }.

(** The tables, and the outcome of the statements to come ([None]: success;
    statements after the end of the list succeed). *)
Record Pg := mkPg {
  rows : gmap Uuid Row;
  part_rows : gmap (Uuid * Z) PartRow;
  evidence_rows : gmap Uuid EvidenceRecord;
  faults : list (option DbFault);
}.

Definition pg_new (faults : list (option DbFault)) : Pg := mkPg ∅ ∅ ∅ faults.

Definition set_rows (f : gmap Uuid Row → gmap Uuid Row) (d : Pg) : Pg :=
  mkPg (f (rows d)) (part_rows d) (evidence_rows d) (faults d).
Definition set_part_rows (f : gmap (Uuid * Z) PartRow → gmap (Uuid * Z) PartRow) (d : Pg) : Pg :=
  mkPg (rows d) (f (part_rows d)) (evidence_rows d) (faults d).
Definition set_evidence_rows (f : gmap Uuid EvidenceRecord → gmap Uuid EvidenceRecord)
    (d : Pg) : Pg :=
  mkPg (rows d) (part_rows d) (f (evidence_rows d)) (faults d).

(** [statement.exec(&self.db).await.map_err(persistence)?]. *)
Definition sql {A} (statement : Pg → A * Pg) : SE Pg JournalError A := λ d,
  let d' := mkPg (rows d) (part_rows d) (evidence_rows d) (tail (faults d)) in
  match mjoin (head (faults d)) with
  | None => let (a, d'') := statement d' in (Ok a, d'')
  | Some f =>
    (Err (Persistence (fault_message f)),
     if fault_applied f then snd (statement d') else d')
  end.

(** ** JSON columns *)

(** [serde_json::to_value(&BTreeMap<String, String>)] and back. *)
Definition json_of_map (m : gmap string string) : Json :=
  JObj ((λ kv, (fst kv, JStr (snd kv))) <$> map_to_list m).
Definition json_str (j : Json) : option string :=
  match j with JStr s => Some s | _ => None end.
Definition map_of_json (j : Json) : option (gmap string string) :=
  match j with
  | JObj l => list_to_map <$> mapM (λ kv, (fst kv,.) <$> json_str (snd kv)) l
  | _ => None
  end.

(** [serde_json::json!(Vec<String>)] and back. *)
Definition json_of_strings (l : list string) : Json := JArr (JStr <$> l).
Definition strings_of_json (j : Json) : option (list string) :=
  match j with JArr l => mapM json_str l | _ => None end.
Arguments json_of_map : simpl never.
Arguments map_of_json : simpl never.
Arguments json_of_strings : simpl never.
Arguments strings_of_json : simpl never.

(** ** Reading a row *)

Definition u64_column (message : string) (z : option Z) : result JournalError (option Z) :=
  match z with
  | None => Ok None
  | Some z => Some <$> ok_or (u64_try_from z) (Corrupt message)
  end.

Definition binding_from_model (m : Row)
    : result JournalError (option WorkspaceDestinationBinding) :=
  match r_backend_config_version m, r_capability_attestation_id m, r_routing_epoch m,
        r_routing_lease_id m, r_routing_fencing_token m with
  | None, None, None, None, None => Ok None
  | Some config, Some attestation, Some epoch, Some lease_id, Some token =>
    epoch ← ok_or (u64_try_from epoch) (Corrupt "negative routing epoch");
    token ← ok_or (u64_try_from token) (Corrupt "negative routing fencing token");
    Ok (Some (mkBinding config attestation epoch lease_id token))
  | _, _, _, _, _ => Err (Corrupt "partial workspace destination binding")
  end.

Definition committed_from_model (m : Row) : result JournalError (option StoredObjectMeta) :=
  match r_committed_etag m, r_committed_version_id m with
  | None, None => Ok None
  | e, v =>
    superseded ← ok_or (strings_of_json (r_committed_superseded_version_ids m))
      (Corrupt "invalid committed version history");
    Ok (Some (mkMeta e v superseded (r_committed_version_history_complete m)))
  end.

Definition operation_from_model (m : Row) : result JournalError OperationRecord :=
  expected_size ← u64_column "negative expected object size" (r_expected_size m);
  metadata ← ok_or (map_of_json (r_expected_metadata m)) (Corrupt "invalid expected metadata");
  committed ← committed_from_model m;
  state ← parse_state (r_state m);
  namespace_epoch ← u64_column "negative namespace epoch" (r_namespace_epoch m);
  binding ← binding_from_model m;
  Ok {| op_id := r_id m; op_state := state;
        op_destination := mkDestination (r_backend_id m) (r_bucket m) (r_logical_key m)
                            (r_physical_key m) binding;
        op_tenant_id := r_tenant_id m; op_namespace_epoch := namespace_epoch;
        op_expected := mkExpected (r_expected_digest m) expected_size metadata;
        op_upload_id := r_upload_id m; op_committed := committed;
        op_lease_owner := r_lease_owner m;
        op_lease_expires_at_ms := r_lease_expires_at_ms m;
        op_mutation_not_before_ms := r_mutation_not_before_ms m;
        op_exact_absence_observed_at_ms := r_exact_absence_observed_at_ms m;
        op_created_at_ms := r_created_at_ms m; op_updated_at_ms := r_updated_at_ms m |}.

Definition part_from_model (m : PartRow) : result JournalError PartRecord :=
  size ← ok_or (u64_try_from (pr_size_bytes m)) (Corrupt "negative uploaded part size");
  Ok (mkPart (pr_operation_id m) (pr_part_number m) (pr_etag m) size (pr_digest m)
        (pr_created_at_ms m)).

(** ** Column updates *)

Definition row_set_state (now : Z) (state : string) (m : Row) : Row :=
  {| r_id := r_id m; r_state := state; r_backend_id := r_backend_id m; r_bucket := r_bucket m;
     r_logical_key := r_logical_key m; r_physical_key := r_physical_key m;
     r_tenant_id := r_tenant_id m; r_namespace_epoch := r_namespace_epoch m;
     r_backend_config_version := r_backend_config_version m;
     r_capability_attestation_id := r_capability_attestation_id m;
     r_routing_epoch := r_routing_epoch m; r_routing_lease_id := r_routing_lease_id m;
     r_routing_fencing_token := r_routing_fencing_token m;
     r_mutation_not_before_ms := r_mutation_not_before_ms m;
     r_exact_absence_observed_at_ms := r_exact_absence_observed_at_ms m;
     r_expected_digest := r_expected_digest m; r_expected_size := r_expected_size m;
     r_expected_metadata := r_expected_metadata m; r_upload_id := r_upload_id m;
     r_committed_etag := r_committed_etag m; r_committed_version_id := r_committed_version_id m;
     r_committed_superseded_version_ids := r_committed_superseded_version_ids m;
     r_committed_version_history_complete := r_committed_version_history_complete m;
     r_lease_owner := r_lease_owner m; r_lease_expires_at_ms := r_lease_expires_at_ms m;
     r_created_at_ms := r_created_at_ms m; r_updated_at_ms := now |}.

Definition row_set_upload (upload_id : option string) (m : Row) : Row :=
  {| r_id := r_id m; r_state := r_state m; r_backend_id := r_backend_id m; r_bucket := r_bucket m;
     r_logical_key := r_logical_key m; r_physical_key := r_physical_key m;
     r_tenant_id := r_tenant_id m; r_namespace_epoch := r_namespace_epoch m;
     r_backend_config_version := r_backend_config_version m;
     r_capability_attestation_id := r_capability_attestation_id m;
     r_routing_epoch := r_routing_epoch m; r_routing_lease_id := r_routing_lease_id m;
     r_routing_fencing_token := r_routing_fencing_token m;
     r_mutation_not_before_ms := r_mutation_not_before_ms m;
     r_exact_absence_observed_at_ms := r_exact_absence_observed_at_ms m;
     r_expected_digest := r_expected_digest m; r_expected_size := r_expected_size m;
     r_expected_metadata := r_expected_metadata m; r_upload_id := upload_id;
     r_committed_etag := r_committed_etag m; r_committed_version_id := r_committed_version_id m;
     r_committed_superseded_version_ids := r_committed_superseded_version_ids m;
     r_committed_version_history_complete := r_committed_version_history_complete m;
     r_lease_owner := r_lease_owner m; r_lease_expires_at_ms := r_lease_expires_at_ms m;
     r_created_at_ms := r_created_at_ms m; r_updated_at_ms := r_updated_at_ms m |}.

Definition row_set_expected (now : Z) (digest : option string) (size : option Z)
    (metadata : Json) (m : Row) : Row :=
  {| r_id := r_id m; r_state := r_state m; r_backend_id := r_backend_id m; r_bucket := r_bucket m;
     r_logical_key := r_logical_key m; r_physical_key := r_physical_key m;
     r_tenant_id := r_tenant_id m; r_namespace_epoch := r_namespace_epoch m;
     r_backend_config_version := r_backend_config_version m;
     r_capability_attestation_id := r_capability_attestation_id m;
     r_routing_epoch := r_routing_epoch m; r_routing_lease_id := r_routing_lease_id m;
     r_routing_fencing_token := r_routing_fencing_token m;
     r_mutation_not_before_ms := r_mutation_not_before_ms m;
     r_exact_absence_observed_at_ms := r_exact_absence_observed_at_ms m;
     r_expected_digest := digest; r_expected_size := size;
     r_expected_metadata := metadata; r_upload_id := r_upload_id m;
     r_committed_etag := r_committed_etag m; r_committed_version_id := r_committed_version_id m;
     r_committed_superseded_version_ids := r_committed_superseded_version_ids m;
     r_committed_version_history_complete := r_committed_version_history_complete m;
     r_lease_owner := r_lease_owner m; r_lease_expires_at_ms := r_lease_expires_at_ms m;
     r_created_at_ms := r_created_at_ms m; r_updated_at_ms := now |}.

Definition row_set_committed (c : StoredObjectMeta) (m : Row) : Row :=
  {| r_id := r_id m; r_state := r_state m; r_backend_id := r_backend_id m; r_bucket := r_bucket m;
     r_logical_key := r_logical_key m; r_physical_key := r_physical_key m;
     r_tenant_id := r_tenant_id m; r_namespace_epoch := r_namespace_epoch m;
     r_backend_config_version := r_backend_config_version m;
     r_capability_attestation_id := r_capability_attestation_id m;
     r_routing_epoch := r_routing_epoch m; r_routing_lease_id := r_routing_lease_id m;
     r_routing_fencing_token := r_routing_fencing_token m;
     r_mutation_not_before_ms := r_mutation_not_before_ms m;
     r_exact_absence_observed_at_ms := r_exact_absence_observed_at_ms m;
     r_expected_digest := r_expected_digest m; r_expected_size := r_expected_size m;
     r_expected_metadata := r_expected_metadata m; r_upload_id := r_upload_id m;
     r_committed_etag := etag c; r_committed_version_id := version_id c;
     r_committed_superseded_version_ids := json_of_strings (superseded_version_ids c);
     r_committed_version_history_complete := version_history_complete c;
     r_lease_owner := r_lease_owner m; r_lease_expires_at_ms := r_lease_expires_at_ms m;
     r_created_at_ms := r_created_at_ms m; r_updated_at_ms := r_updated_at_ms m |}.

Definition row_set_lease (owner : option string) (expires : option Z) (m : Row) : Row :=
  {| r_id := r_id m; r_state := r_state m; r_backend_id := r_backend_id m; r_bucket := r_bucket m;
     r_logical_key := r_logical_key m; r_physical_key := r_physical_key m;
     r_tenant_id := r_tenant_id m; r_namespace_epoch := r_namespace_epoch m;
     r_backend_config_version := r_backend_config_version m;
     r_capability_attestation_id := r_capability_attestation_id m;
     r_routing_epoch := r_routing_epoch m; r_routing_lease_id := r_routing_lease_id m;
     r_routing_fencing_token := r_routing_fencing_token m;
     r_mutation_not_before_ms := r_mutation_not_before_ms m;
     r_exact_absence_observed_at_ms := r_exact_absence_observed_at_ms m;
     r_expected_digest := r_expected_digest m; r_expected_size := r_expected_size m;
     r_expected_metadata := r_expected_metadata m; r_upload_id := r_upload_id m;
     r_committed_etag := r_committed_etag m; r_committed_version_id := r_committed_version_id m;
     r_committed_superseded_version_ids := r_committed_superseded_version_ids m;
     r_committed_version_history_complete := r_committed_version_history_complete m;
     r_lease_owner := owner; r_lease_expires_at_ms := expires;
     r_created_at_ms := r_created_at_ms m; r_updated_at_ms := r_updated_at_ms m |}.

Definition row_set_absence (now : Z) (not_before absence : option Z) (m : Row) : Row :=
  {| r_id := r_id m; r_state := r_state m; r_backend_id := r_backend_id m; r_bucket := r_bucket m;
     r_logical_key := r_logical_key m; r_physical_key := r_physical_key m;
     r_tenant_id := r_tenant_id m; r_namespace_epoch := r_namespace_epoch m;
     r_backend_config_version := r_backend_config_version m;
     r_capability_attestation_id := r_capability_attestation_id m;
     r_routing_epoch := r_routing_epoch m; r_routing_lease_id := r_routing_lease_id m;
     r_routing_fencing_token := r_routing_fencing_token m;
     r_mutation_not_before_ms := not_before;
     r_exact_absence_observed_at_ms := absence;
     r_expected_digest := r_expected_digest m; r_expected_size := r_expected_size m;
     r_expected_metadata := r_expected_metadata m; r_upload_id := r_upload_id m;
     r_committed_etag := r_committed_etag m; r_committed_version_id := r_committed_version_id m;
     r_committed_superseded_version_ids := r_committed_superseded_version_ids m;
     r_committed_version_history_complete := r_committed_version_history_complete m;
     r_lease_owner := r_lease_owner m; r_lease_expires_at_ms := r_lease_expires_at_ms m;
     r_created_at_ms := r_created_at_ms m; r_updated_at_ms := now |}.

(** ** Statements *)

(** [find_by_id(id).one(db)]. *)
Definition select_by_id (id : Uuid) (d : Pg) : option Row * Pg := (rows d !! id, d).

(** [update_many().filter(id).filter(p).exec(db)]: the number of rows affected. *)
Definition update_where (id : Uuid) (p : Row → bool) (f : Row → Row) (d : Pg) : Z * Pg :=
  match rows d !! id with
  | Some m => if p m then (1, set_rows <[id := f m]> d) else (0, d)
  | None => (0, d)
  end.

(** [active_model.update(db)]: one row by primary key. *)
Definition update_by_id (id : Uuid) (f : Row → Row) (d : Pg) : bool * Pg :=
  match rows d !! id with
  | Some m => (true, set_rows <[id := f m]> d)
  | None => (false, d)
  end.

Definition i64_column (e : JournalError) (z : option Z) : result JournalError (option Z) :=
  match z with
  | None => Ok None
  | Some z => Some <$> ok_or (i64_try_from z) e
  end.

Definition updated_one (affected : Z) (message : string) : result JournalError unit :=
  if affected =? 1 then Ok tt else Err (Conflict message).

(** ** Constraints *)

(** [check (c is null or c > 0)] and [check (c is null or c >= 0)]. *)
Definition check_positive (c : option Z) : bool := match c with Some z => 0 <? z | None => true end.
Definition check_natural (c : option Z) : bool := match c with Some z => 0 <=? z | None => true end.

(** The checks of [object_operations]; its state is always the name of one. *)
Definition operation_checks (m : Row) : bool :=
  check_natural (r_expected_size m) && check_positive (r_namespace_epoch m)
  && check_positive (r_routing_epoch m) && check_positive (r_routing_fencing_token m)
  && match r_backend_config_version m, r_capability_attestation_id m, r_routing_epoch m,
           r_routing_lease_id m, r_routing_fencing_token m with
     | None, None, None, None, None => true
     | Some _, Some _, Some _, Some _, Some _ => true
     | _, _, _, _, _ => false
     end.

(** [references object_operations(id)]. *)
Definition references_operation (id : Uuid) (d : Pg) : bool := bool_decide (is_Some (rows d !! id)).

Definition part_checks (m : PartRow) (d : Pg) : bool :=
  references_operation (pr_operation_id m) d && (1 <=? pr_part_number m) && (pr_part_number m <=? 10000)
  && (0 <=? pr_size_bytes m).

(** ** Operations *)

(** The row of a new operation, given the converted numeric columns. *)
Definition intent_row (o : OperationRecord) (expected_size namespace_epoch epoch token : option Z)
    : Row :=
  {| r_id := op_id o; r_state := as_str Intent;
     r_backend_id := backend_id (op_destination o); r_bucket := bucket (op_destination o);
     r_logical_key := logical_key (op_destination o);
     r_physical_key := physical_key (op_destination o);
     r_tenant_id := op_tenant_id o; r_namespace_epoch := namespace_epoch;
     r_backend_config_version := backend_config_version <$> workspace_binding (op_destination o);
     r_capability_attestation_id := capability_attestation_id <$> workspace_binding (op_destination o);
     r_routing_epoch := epoch; r_routing_lease_id := routing_lease_id <$> workspace_binding (op_destination o);
     r_routing_fencing_token := token;
     r_mutation_not_before_ms := op_mutation_not_before_ms o;
     r_exact_absence_observed_at_ms := op_exact_absence_observed_at_ms o;
     r_expected_digest := exp_digest (op_expected o);
     r_expected_size := expected_size;
     r_expected_metadata := json_of_map (exp_metadata (op_expected o));
     r_upload_id := None; r_committed_etag := None; r_committed_version_id := None;
     r_committed_superseded_version_ids := JArr [];
     r_committed_version_history_complete := true;
     r_lease_owner := None; r_lease_expires_at_ms := None;
     r_created_at_ms := op_created_at_ms o; r_updated_at_ms := op_updated_at_ms o |}.

Definition pg_insert_intent (o : OperationRecord) : SE Pg JournalError unit :=
  if decide (op_state o = Intent) then
    expected_size ← se_lift
      (i64_column (Conflict "expected object size exceeds BIGINT") (exp_size (op_expected o)));
    namespace_epoch ← se_lift
      (i64_column (Conflict "namespace epoch exceeds BIGINT") (op_namespace_epoch o));
    let binding := workspace_binding (op_destination o) in
    epoch ← se_lift
      (i64_column (Corrupt "routing epoch exceeds BIGINT") (routing_epoch <$> binding));
    token ← se_lift
      (i64_column (Corrupt "routing fencing token exceeds BIGINT") (routing_fencing_token <$> binding));
    let row := intent_row o expected_size namespace_epoch epoch token in
    inserted ← sql (λ d, match rows d !! op_id o with
                         | Some _ => (false, d)
                         | None => if operation_checks row then (true, set_rows <[op_id o := row]> d) else (false, d)
                         end);
    if inserted : bool then mret tt else se_throw (Persistence "duplicate key or failed check")
  else se_throw (Conflict "new operation must start in INTENT").

Definition pg_get (id : Uuid) : SE Pg JournalError (option OperationRecord) :=
  m ← sql (select_by_id id);
  match m with
  | None => mret None
  | Some m => se_lift (Some <$> operation_from_model m)
  end.

Definition pg_set_open (now : Z) (id : Uuid) (upload_id : option string)
    : SE Pg JournalError unit :=
  affected ← sql (update_where id (λ m, bool_decide (r_state m = as_str Intent))
    (λ m, row_set_upload upload_id (row_set_state now (as_str Open) m)));
  se_lift (updated_one affected
    ("operation " +:+ pretty id +:+ " did not transition INTENT -> OPEN")).

Definition pg_set_expected (now : Z) (id : Uuid) (expected : ExpectedObject)
    : SE Pg JournalError unit :=
  size ← se_lift (i64_column (Conflict "expected object size exceeds BIGINT") (exp_size expected));
  affected ← sql (update_where id
    (λ m, bool_decide (r_state m = as_str Intent) || bool_decide (r_state m = as_str Open))
    (row_set_expected now (exp_digest expected) size (json_of_map (exp_metadata expected))));
  se_lift (updated_one affected ("operation " +:+ pretty id +:+ " cannot update expected output")).

Definition pg_transition (now : Z) (id : Uuid) (expected next : OperationState)
    (committed : option StoredObjectMeta) : SE Pg JournalError unit :=
  if negb (can_transition_to expected next) then
    se_throw (Conflict ("illegal transition " +:+ as_str expected +:+ " -> " +:+ as_str next))
  else if negb (committed_arg_ok next committed) then
    se_throw (Conflict "COMMITTED transitions require object metadata only")
  else
    affected ← sql (update_where id (λ m, bool_decide (r_state m = as_str expected))
      (λ m, let m := row_set_lease None None (row_set_state now (as_str next) m) in
            match committed with Some c => row_set_committed c m | None => m end));
    se_lift (updated_one affected ("operation " +:+ pretty id +:+ " did not transition " +:+
      as_str expected +:+ " -> " +:+ as_str next)).

(** The comparison with the stored part once the insert has failed. *)
Definition pg_part_retry (part : PartRecord) : SE Pg JournalError unit :=
  existing ← sql (λ d, (part_rows d !! (part_operation_id part, part_number part), d));
  existing ← se_lift (ok_or existing (Persistence "part insert failed"));
  existing ← se_lift (part_from_model existing);
  if negb (bool_decide (part_etag existing = part_etag part))
     || negb (bool_decide (part_digest existing = part_digest part))
     || negb (bool_decide (part_size_bytes existing = part_size_bytes part))
  then se_throw (Conflict ("part " +:+ pretty (part_number part) +:+
                   " retry body or result changed"))
  else mret tt.

(** [if let Err(insert_error) = model.insert(..)]: any failure of the insert,
    a duplicate key or another constraint included, leads to the comparison with the stored row. *)
Definition pg_record_part (part : PartRecord) : SE Pg JournalError unit := λ d,
  match i64_try_from (part_size_bytes part) with
  | None => (Err (Conflict "part size exceeds BIGINT"), d)
  | Some size =>
    let key := (part_operation_id part, part_number part) in
    let row := mkPartRow (part_operation_id part) (part_number part) (part_etag part) size
                 (part_digest part) (part_created_at_ms part) in
    match sql (λ d, match part_rows d !! key with
                    | Some _ => (false, d)
                    | None => if part_checks row d then (true, set_part_rows <[key := row]> d) else (false, d)
                    end) d with
    | (Ok true, d) => (Ok tt, d)
    | (_, d) => pg_part_retry part d
    end
  end.

(** [on conflict (id) do nothing]: a row that is not inserted references nothing. *)
Definition pg_append_evidence (e : EvidenceRecord) : SE Pg JournalError unit :=
  accepted ← sql (λ d, match evidence_rows d !! ev_id e with
                       | Some _ => (true, d)
                       | None =>
                         if references_operation (ev_operation_id e) d
                         then (true, set_evidence_rows <[ev_id e := e]> d) else (false, d)
                       end);
  _ ← se_lift (ok_or (if accepted : bool then Some tt else None) (Persistence "foreign key violation"));
  stored ← sql (λ d, (evidence_rows d !! ev_id e, d));
  stored ← se_lift (ok_or stored (Persistence "evidence insert disappeared"));
  if negb (bool_decide (ev_operation_id stored = ev_operation_id e))
     || negb (bool_decide (ev_kind stored = ev_kind e))
     || negb (json_eqb (ev_detail stored) (ev_detail e))
  then se_throw (Conflict "evidence id conflicts with an existing record")
  else mret tt.

(** [record_mutation_launch] reads the row and writes it back in two
    statements; the second one sets three columns computed from the first. *)
Definition launch_read (id : Uuid) (not_before_ms : Z) : SE Pg JournalError Z :=
  m ← sql (select_by_id id);
  m ← se_lift (ok_or m (NotFound id));
  state ← se_lift (parse_state (r_state m));
  if is_terminal state then
    se_throw (Conflict "terminal operation cannot launch a provider mutation")
  else mret (Z.max (default i64_min (r_mutation_not_before_ms m)) not_before_ms).

Definition launch_write (now : Z) (id : Uuid) (next_not_before : Z) : SE Pg JournalError unit :=
  found ← sql (update_by_id id (row_set_absence now (Some next_not_before) None));
  if found : bool then mret tt else se_throw (Persistence "RecordNotUpdated").

Definition pg_record_mutation_launch (now : Z) (id : Uuid) (not_before_ms : Z)
    : SE Pg JournalError unit :=
  next_not_before ← launch_read id not_before_ms;
  launch_write now id next_not_before.

(** [confirm_exact_absence] likewise; [None] asks for the second statement. *)
Definition confirm_read (id : Uuid) (observed_at_ms minimum_separation_ms : Z)
    : SE Pg JournalError (option bool) :=
  m ← sql (select_by_id id);
  m ← se_lift (ok_or m (NotFound id));
  if match r_mutation_not_before_ms m with
     | Some not_before => observed_at_ms <? not_before
     | None => false
     end
  then mret (Some false)
  else match r_exact_absence_observed_at_ms m with
  | Some first =>
    mret (Some (minimum_separation_ms <=? i64_saturating_sub observed_at_ms first))
  | None => mret None
  end.

(** Only the absence and update columns are [Set]; the row read before may be stale. *)
Definition confirm_write (now : Z) (id : Uuid) (observed_at_ms : Z) : SE Pg JournalError bool :=
  found ← sql (update_by_id id
    (λ m, row_set_absence now (r_mutation_not_before_ms m) (Some observed_at_ms) m));
  if found : bool then mret false else se_throw (Persistence "RecordNotUpdated").

Definition pg_confirm_exact_absence (now : Z) (id : Uuid)
    (observed_at_ms minimum_separation_ms : Z) : SE Pg JournalError bool :=
  answer ← confirm_read id observed_at_ms minimum_separation_ms;
  match answer with
  | Some b => mret b
  | None => confirm_write now id observed_at_ms
  end.

Definition row_lease_free (now : Z) (m : Row) : bool :=
  match r_lease_expires_at_ms m with
  | None => true
  | Some expiry => expiry <? now
  end.

Definition row_reconcilable (now stale_before_ms : Z) (m : Row) : bool :=
  negb (bool_decide (r_state m = as_str Committed))
  && negb (bool_decide (r_state m = as_str ProvenAborted))
  && (r_updated_at_ms m <=? stale_before_ms)
  && row_lease_free now m.

(** The claim of one candidate: the lease columns only, if the lease is still free. *)
Definition pg_claim_candidate (now : Z) (owner : string) (lease_until_ms : Z) (candidate : Row)
    : SE Pg JournalError (option OperationRecord) :=
  affected ← sql (update_where (r_id candidate) (row_lease_free now)
    (row_set_lease (Some owner) (Some lease_until_ms)));
  if affected =? 1 then
    se_lift (o ← operation_from_model candidate;
      Ok (Some {| op_id := op_id o; op_state := op_state o; op_destination := op_destination o;
         op_tenant_id := op_tenant_id o; op_namespace_epoch := op_namespace_epoch o;
         op_expected := op_expected o; op_upload_id := op_upload_id o;
         op_committed := op_committed o; op_lease_owner := Some owner;
         op_lease_expires_at_ms := Some lease_until_ms;
         op_mutation_not_before_ms := op_mutation_not_before_ms o;
         op_exact_absence_observed_at_ms := op_exact_absence_observed_at_ms o;
         op_created_at_ms := op_created_at_ms o; op_updated_at_ms := op_updated_at_ms o |}))
  else mret None.

Definition row_updated_le (a b : Row) : Prop := r_updated_at_ms a <= r_updated_at_ms b.
#[global] Instance row_updated_le_dec a b : Decision (row_updated_le a b) :=
  decide (r_updated_at_ms a <= r_updated_at_ms b).

Definition select_reconcilable (now stale_before_ms : Z) (limit : nat) (d : Pg) : list Row * Pg :=
  (take limit (merge_sort row_updated_le
     (filter (λ m, row_reconcilable now stale_before_ms m = true) (snd <$> map_to_list (rows d)))), d).

Fixpoint pg_claim_candidates (now : Z) (owner : string) (lease_until_ms : Z)
    (candidates : list Row) : SE Pg JournalError (list OperationRecord) :=
  match candidates with
  | [] => mret []
  | c :: cs =>
    o ← pg_claim_candidate now owner lease_until_ms c;
    os ← pg_claim_candidates now owner lease_until_ms cs;
    mret (match o with Some o => o :: os | None => os end)
  end.

Definition pg_claim_reconcilable (now : Z) (owner : string)
    (stale_before_ms lease_until_ms : Z) (limit : nat)
    : SE Pg JournalError (list OperationRecord) :=
  candidates ← sql (select_reconcilable now stale_before_ms limit);
  pg_claim_candidates now owner lease_until_ms candidates.

Definition pg_claim_reconcilable_operation (now : Z) (id : Uuid) (owner : string)
    (stale_before_ms lease_until_ms : Z) : SE Pg JournalError (option OperationRecord) :=
  candidate ← sql (λ d, (m ← rows d !! id; guard (row_reconcilable now stale_before_ms m = true);; Some m, d));
  match candidate with
  | None => mret None
  | Some c => pg_claim_candidate now owner lease_until_ms c
  end.

#[global] Instance Pg_journal : OperationJournal Pg := {|
  j_insert_intent := pg_insert_intent;
  j_get := pg_get;
  j_set_open := pg_set_open;
  j_set_expected := pg_set_expected;
  j_transition := pg_transition;
  j_record_part := pg_record_part;
  j_append_evidence := pg_append_evidence;
  j_record_mutation_launch := pg_record_mutation_launch;
  j_confirm_exact_absence := pg_confirm_exact_absence;
  j_claim_reconcilable_operation := pg_claim_reconcilable_operation;
|}.

(** ** The journal laws *)

Definition pg_state (d : Pg) (id : Uuid) : option OperationState :=
  m ← rows d !! id;
  match parse_state (r_state m) with Ok s => Some s | Err _ => None end.

(** The commit columns of a COMMITTED row. *)
Definition pg_committed (d : Pg) (id : Uuid) : option StoredObjectMeta :=
  m ← rows d !! id;
  guard (r_state m = as_str Committed);;
  superseded ← strings_of_json (r_committed_superseded_version_ids m);
  Some (mkMeta (r_committed_etag m) (r_committed_version_id m) superseded
          (r_committed_version_history_complete m)).

(** Rows are stored under their primary key. *)
Definition pg_keyed (d : Pg) : Prop := map_Forall (λ id m, r_id m = id) (rows d).

Abbreviation pg_same := (same_rows pg_keyed pg_state pg_committed).
Abbreviation pg_moved := (row_moved pg_keyed pg_state pg_committed).

(** Every outcome of a statement: applied and answered, or an error with or
    without its effect. *)
Lemma sql_cases {A} (st : Pg → A * Pg) d r d' :
  sql st d = (r, d') →
  ∃ d0, rows d0 = rows d ∧ part_rows d0 = part_rows d ∧ evidence_rows d0 = evidence_rows d ∧
    ((∃ a, r = Ok a ∧ st d0 = (a, d')) ∨
     (∃ m, r = Err (Persistence m) ∧ (d' = d0 ∨ d' = (st d0).2))).
Proof.
  unfold sql. intros H.
  exists (mkPg (rows d) (part_rows d) (evidence_rows d) (tail (faults d))).
  split_and!; [done..|].
  destruct (mjoin (head (faults d))) as [f|]; [|by destruct (st _); simplify_eq; eauto].
  right. case_match; simplify_eq; eauto.
Qed.

Lemma pg_same_rows d d' : rows d' = rows d → pg_same d d'.
Proof.
  intros H. split; [unfold pg_keyed; by rewrite H|]. intros i. unfold pg_state, pg_committed.
  by rewrite H.
Qed.

(** The columns the state view depends on. *)
Definition keeps_state (f : Row → Row) : Prop := ∀ m,
  r_id (f m) = r_id m ∧ r_state (f m) = r_state m ∧
  (r_committed_etag (f m), r_committed_version_id (f m), r_committed_superseded_version_ids (f m),
   r_committed_version_history_complete (f m)) =
  (r_committed_etag m, r_committed_version_id m, r_committed_superseded_version_ids m,
   r_committed_version_history_complete m).

Lemma pg_keyed_insert d id m m' :
  rows d !! id = Some m → r_id m' = r_id m → pg_keyed d → pg_keyed (set_rows <[id := m']> d).
Proof.
  intros Hm Hid Hk i x. simpl. rewrite lookup_insert. case_decide; [|apply Hk].
  intros [= <-]. subst i. rewrite Hid. by apply (Hk id m).
Qed.

Lemma pg_same_insert d id m f :
  keeps_state f → rows d !! id = Some m → pg_same d (set_rows <[id := f m]> d).
Proof.
  intros Hf Hm. destruct (Hf m) as (Hid & Hst & H). split; [by eapply pg_keyed_insert|].
  intros i. unfold pg_state, pg_committed. simpl. rewrite lookup_insert.
  case_decide; [subst i|done]. rewrite Hm. simpl. rewrite Hst. injection H as -> -> -> ->. done.
Qed.

Lemma update_where_same id p f d : keeps_state f → pg_same d (update_where id p f d).2.
Proof.
  intros Hf. unfold update_where. destruct (rows d !! id) eqn:E; [|done].
  case_match; simpl; [by apply pg_same_insert|done].
Qed.

Lemma update_by_id_same id f d : keeps_state f → pg_same d (update_by_id id f d).2.
Proof.
  intros Hf. unfold update_by_id. destruct (rows d !! id) eqn:E; [|done].
  by apply pg_same_insert.
Qed.

(** A statement that keeps the states keeps them whatever its outcome. *)
Lemma sql_same {A} (st : Pg → A * Pg) d r d' :
  (∀ d0, pg_same d0 (st d0).2) → sql st d = (r, d') → pg_same d d'.
Proof.
  intros Hst H. apply sql_cases in H as (d0 & Hr & _ & _ & H).
  transitivity d0; [by apply pg_same_rows|].
  destruct H as [(a & _ & H)|(m & _ & [->| ->])]; [|done|done].
  specialize (Hst d0). by rewrite H in Hst.
Qed.

Lemma select_same id d0 : pg_same d0 (select_by_id id d0).2.
Proof. done. Qed.

Lemma lease_keeps o x : keeps_state (row_set_lease o x).
Proof. by intros m. Qed.
Lemma expected_keeps now g s j : keeps_state (row_set_expected now g s j).
Proof. by intros m. Qed.
Lemma absence_keeps now f g : keeps_state (λ m, row_set_absence now (f m) (g m) m).
Proof. by intros m. Qed.

Lemma launch_keeps now a b : keeps_state (row_set_absence now a b).
Proof. by intros m. Qed.

Create HintDb pg.
#[export] Hint Resolve update_where_same update_by_id_same select_same lease_keeps
  expected_keeps absence_keeps launch_keeps pg_same_rows : pg.

(** Decomposition of a run in the state-and-error monad. *)
Lemma se_bind_inv {S E A B} (m : SE S E A) (k : A → SE S E B) s r s' :
  (m ≫= k) s = (r, s') →
  (∃ a s1, m s = (Ok a, s1) ∧ k a s1 = (r, s')) ∨ (∃ e, m s = (Err e, s') ∧ r = Err e).
Proof.
  unfold mbind, SE_bind. destruct (m s) as [[a|e] s1]; intros H; [left; eauto|right].
  simplify_eq. eauto.
Qed.

(** A run of steps that each keep the states keeps them. *)
Definition se_same {A} (m : SE Pg JournalError A) : Prop :=
  ∀ d r d', m d = (r, d') → pg_same d d'.

Lemma se_same_bind {A B} (m : SE Pg JournalError A) (k : A → SE Pg JournalError B) :
  se_same m → (∀ a, se_same (k a)) → se_same (m ≫= k).
Proof.
  intros Hm Hk d r d' H. apply se_bind_inv in H as [(a & d1 & H1 & H2)|(e & H1 & _)];
    [|by eapply Hm]. etrans; [by eapply Hm|by eapply Hk].
Qed.

Lemma se_same_pure {A} (r : result JournalError A) : se_same (se_lift r).
Proof. intros d r' d' H. unfold se_lift in H. by simplify_eq. Qed.

Lemma se_same_ret {A} (a : A) : se_same (mret a).
Proof. apply (se_same_pure (Ok a)). Qed.

Lemma se_same_throw {A} e : se_same (@se_throw Pg JournalError A e).
Proof. apply (se_same_pure (Err e)). Qed.

Lemma se_same_sql {A} (st : Pg → A * Pg) : (∀ d0, pg_same d0 (st d0).2) → se_same (sql st).
Proof. intros H d r d'. by apply sql_same. Qed.

#[export] Hint Resolve se_same_pure se_same_ret se_same_throw se_same_sql : pg.

Ltac se_same :=
  repeat first
    [ apply se_same_bind; [|intros ?]
    | progress (case_match || case_decide)
    | solve [eauto with pg]
    | apply se_same_sql; intros ?; simpl; repeat case_match; by apply pg_same_rows ].

Lemma pg_get_same id : se_same (pg_get id).
Proof. unfold pg_get. se_same. Qed.
Lemma pg_set_expected_same now id x : se_same (pg_set_expected now id x).
Proof. unfold pg_set_expected. se_same. Qed.
Lemma pg_record_part_same p : se_same (pg_record_part p).
Proof.
  intros d r d' H. unfold pg_record_part in H. case_match; [|by simplify_eq].
  destruct (sql _ d) as [ins d1] eqn:E.
  assert (pg_same d d1) by (clear H; eapply sql_same; [|exact E]; intros d0; simpl; repeat case_match; by apply pg_same_rows).
  etrans; [done|].
  assert (se_same (pg_part_retry p)) as Hretry by (unfold pg_part_retry; se_same).
  by destruct ins as [[]|]; [simplify_eq|eapply Hretry|eapply Hretry].
Qed.
Lemma pg_append_evidence_same e : se_same (pg_append_evidence e).
Proof. unfold pg_append_evidence. se_same. Qed.
Lemma pg_launch_same now id nb : se_same (pg_record_mutation_launch now id nb).
Proof. unfold pg_record_mutation_launch, launch_read, launch_write. se_same. Qed.
Lemma pg_confirm_same now id t sep : se_same (pg_confirm_exact_absence now id t sep).
Proof. unfold pg_confirm_exact_absence, confirm_read, confirm_write. se_same. Qed.
Lemma pg_claim_candidate_same now o l c : se_same (pg_claim_candidate now o l c).
Proof. unfold pg_claim_candidate. se_same. Qed.
Lemma pg_claim_operation_same now id o s l : se_same (pg_claim_reconcilable_operation now id o s l).
Proof. unfold pg_claim_reconcilable_operation. se_same; by apply pg_claim_candidate_same. Qed.

Lemma strings_of_json_of l : strings_of_json (json_of_strings l) = Some l.
Proof.
  unfold strings_of_json, json_of_strings. apply mapM_Some, Forall2_fmap_l, Forall_Forall2_diag.
  by apply Forall_true.
Qed.

(** A guarded state change of one row is a legal move, or did not happen. *)
Lemma update_where_moved id from to c f d n d' :
  can_transition_to from to = true → committed_arg_ok to c = true →
  (∀ m, r_state (f m) = as_str to ∧ r_id (f m) = r_id m) →
  (∀ m, to = Committed → ∃ x, c = Some x ∧ f m = row_set_committed x (f m)) →
  update_where id (λ m, bool_decide (r_state m = as_str from)) f d = (n, d') →
  (n = 1 ∧ pg_moved id from to c d d') ∨ (n = 0 ∧ d' = d).
Proof.
  intros Ht Ha Hs Hc. unfold update_where. destruct (rows d !! id) as [m|] eqn:Hm; [|naive_solver].
  case_bool_decide as E; intros H; simplify_eq; [left|right; done]. split; [done|].
  unfold row_moved, pg_state, pg_committed. simpl. rewrite Hm, lookup_insert_eq. simpl.
  destruct (Hs m) as [Hto Hid]. rewrite E, Hto, !parse_state_as_str.
  split_and!; auto; [|by eapply pg_keyed_insert|].
  - intros ->. destruct (Hc m) as (x & -> & Hx); [done|]. rewrite option_guard_True by done.
    rewrite Hx. simpl. rewrite strings_of_json_of. by destruct x.
  - intros i Hi. by rewrite lookup_insert_ne.
Qed.

(** The same through a statement and its row-count check. *)
Lemma sql_moved id from to c f msg d r d' :
  can_transition_to from to = true → committed_arg_ok to c = true →
  (∀ m, r_state (f m) = as_str to ∧ r_id (f m) = r_id m) →
  (∀ m, to = Committed → ∃ x, c = Some x ∧ f m = row_set_committed x (f m)) →
  (affected ← sql (update_where id (λ m, bool_decide (r_state m = as_str from)) f);
   se_lift (updated_one affected msg)) d = (r, d') →
  (r = Ok tt ∧ pg_moved id from to c d d') ∨
  (is_ok r = false ∧ (pg_same d d' ∨ pg_moved id from to c d d')).
Proof.
  intros Ht Ha Hs Hc H.
  assert (∀ d0 k, rows d0 = rows d → pg_moved id from to c d0 k → pg_moved id from to c d k) as Hmv.
  { intros d0 k Hr. unfold row_moved, pg_keyed, pg_state, pg_committed. by rewrite Hr. }
  apply se_bind_inv in H as [(n & d1 & H1 & H2)|(e & H1 & ->)].
  - apply sql_cases in H1 as (d0 & Hr & _ & _ & [(a & ? & H1)|(? & ? & _)]); [|done]. simplify_eq.
    unfold se_lift in H2. injection H2 as <- <-.
    destruct (update_where_moved id from to c f d0 _ _ Ht Ha Hs Hc H1) as [[Hn Hm]|[Hn Hd]];
      rewrite Hn; [left; eauto|right]. split; [done|]. left. rewrite Hd. by apply pg_same_rows.
  - right. split; [done|]. apply sql_cases in H1 as (d0 & Hr & _ & _ & [(? & ? & _)|(? & _ & H)]); [done|].
    destruct H as [->| ->]; [left; by apply pg_same_rows|].
    destruct (update_where _ _ _ d0) as [n d1] eqn:E.
    destruct (update_where_moved id from to c f d0 _ _ Ht Ha Hs Hc E) as [[_ Hm]|[_ Hd]]; [eauto|].
    left. simpl. rewrite Hd. by apply pg_same_rows.
Qed.

Lemma pg_transition_cases now id from to c d r d' :
  pg_transition now id from to c d = (r, d') →
  (r = Ok tt ∧ pg_moved id from to c d d') ∨
  (is_ok r = false ∧ (pg_same d d' ∨ pg_moved id from to c d d')).
Proof.
  unfold pg_transition. intros H.
  destruct (can_transition_to from to) eqn:E1; simpl in H;
    [|unfold se_throw in H; simplify_eq; right; split; [done|by left]].
  destruct (committed_arg_ok to c) eqn:E2; simpl in H;
    [|unfold se_throw in H; simplify_eq; right; split; [done|by left]].
  eapply sql_moved in H; eauto.
  - intros m. by destruct c.
  - intros m ->. destruct c as [x|]; [by exists x|done].
Qed.

Lemma pg_set_open_cases now id u d r d' :
  pg_set_open now id u d = (r, d') →
  (r = Ok tt ∧ pg_moved id Intent Open None d d') ∨
  (is_ok r = false ∧ (pg_same d d' ∨ pg_moved id Intent Open None d d')).
Proof. unfold pg_set_open. intros H. eapply sql_moved in H; by eauto. Qed.

Lemma operation_from_model_state m o :
  operation_from_model m = Ok o → parse_state (r_state m) = Ok (op_state o) ∧ op_id o = r_id m.
Proof. intros H. unfold operation_from_model in H. unbind H. by simplify_eq. Qed.

Lemma operation_from_model_committed m o :
  operation_from_model m = Ok o → r_state m = as_str Committed → ∀ c, op_committed o = Some c →
  (guard (r_state m = as_str Committed);;
   superseded ← strings_of_json (r_committed_superseded_version_ids m);
   Some (mkMeta (r_committed_etag m) (r_committed_version_id m) superseded
          (r_committed_version_history_complete m))) = Some c.
Proof.
  intros H Hs c Hc. rewrite option_guard_True by done.
  unfold operation_from_model in H. unbind H. simplify_eq/=.
  unfold committed_from_model in *. destruct (strings_of_json _); simpl in *;
    by repeat case_match; simplify_eq/=.
Qed.

Lemma pg_get_read id d o d' :
  pg_keyed d → pg_get id d = (Ok (Some o), d') →
  op_id o = id ∧ pg_state d id = Some (op_state o) ∧
  (op_state o = Committed → ∀ c, op_committed o = Some c → pg_committed d id = Some c).
Proof.
  unfold pg_get. intros Hk H. apply se_bind_inv in H as [(m & d1 & H1 & H2)|(? & _ & ?)]; [|done].
  apply sql_cases in H1 as (d0 & Hr & _ & _ & [(a & ? & H1)|(? & ? & _)]); [|done].
  unfold select_by_id in H1. simplify_eq. destruct (rows d1 !! id) as [x|] eqn:E; [|done].
  unfold se_lift in H2. injection H2 as H2 _. unfold pg_state, pg_committed. rewrite <- Hr, E. simpl.
  destruct (operation_from_model x) as [y|] eqn:Ey; [|done]. simplify_eq/=.
  pose proof (operation_from_model_committed x o Ey) as Hcm.
  apply operation_from_model_state in Ey as [Hst ->]. rewrite Hst. split_and!; [|done|].
  - apply (Hk id). by rewrite <- Hr.
  - intros Hc c Hoc. apply Hcm; [|done]. rewrite Hc in Hst. by apply parse_state_inv.
Qed.

Lemma pg_insert_ok o d d' :
  pg_insert_intent o d = (Ok tt, d') →
  pg_state d' (op_id o) = Some Intent ∧ op_state o = Intent ∧ (pg_keyed d → pg_keyed d') ∧
  ∀ i, i ≠ op_id o → pg_state d' i = pg_state d i ∧ pg_committed d' i = pg_committed d i.
Proof.
  unfold pg_insert_intent. intros H. case_decide; [|done].
  repeat (apply se_bind_inv in H as [(? & ? & ? & H)|(? & _ & ?)]; [|done];
    unfold se_lift in *; simplify_eq).
  match goal with Hs : sql _ _ = _ |- _ => apply sql_cases in Hs as (d0 & Hr & _ & _ & [(a & ? & Hs)|(? & ? & _)]); [|done] end.
  simplify_eq. destruct (rows d0 !! op_id o) eqn:E; simplify_eq; simpl in H; simplify_eq/=.
  destruct (operation_checks _); simplify_eq/=.
  unfold mret, SE_ret in H. simplify_eq.
  unfold pg_state, pg_committed, pg_keyed. simpl. rewrite Hr, lookup_insert_eq. split_and!; auto.
  - intros Hk i m. rewrite lookup_insert. case_decide; [|apply Hk]. by intros [= <-].
  - intros i Hi. by rewrite lookup_insert_ne.
Qed.

Lemma pg_claim_candidate_read now w l c d o d' :
  pg_claim_candidate now w l c d = (Ok (Some o), d') →
  op_id o = r_id c ∧ op_lease_owner o = Some w ∧ parse_state (r_state c) = Ok (op_state o).
Proof.
  unfold pg_claim_candidate. intros H.
  apply se_bind_inv in H as [(n & d1 & _ & H)|(? & _ & ?)]; [|done].
  destruct (n =? 1); unfold se_lift, mret, SE_ret in H; [|by simplify_eq].
  injection H as H _. unbind H. simplify_eq. simpl.
  by apply operation_from_model_state in Hok as [? ?].
Qed.

Lemma pg_claim_read now id w s l d o d' :
  pg_keyed d → pg_claim_reconcilable_operation now id w s l d = (Ok (Some o), d') →
  op_id o = id ∧ op_lease_owner o = Some w ∧
  pg_state d id = Some (op_state o) ∧ is_terminal (op_state o) = false.
Proof.
  intros Hk H. unfold pg_claim_reconcilable_operation in H.
  apply se_bind_inv in H as [(c & d1 & H1 & H2)|(? & _ & ?)]; [|done].
  apply sql_cases in H1 as (d0 & Hr & _ & _ & [(a & ? & H1)|(? & ? & _)]); [|done].
  simplify_eq. rewrite Hr in H2. destruct (rows d !! id) as [m|] eqn:Em; [|done]. simpl in H2.
  case_guard as E; [|done]. simpl in H2.
  apply pg_claim_candidate_read in H2 as (H2 & H3 & H4).
  split; [rewrite H2; by apply (Hk id m)|]. split; [done|]. unfold pg_state. rewrite Em. simpl.
  rewrite H4. split; [done|]. unfold row_reconcilable in E. rewrite (parse_state_inv _ _ H4) in E.
  by destruct (op_state o).
Qed.

#[global] Instance Pg_laws : JournalLaws Pg.
Proof.
  refine {| j_state := pg_state; j_committed := pg_committed; j_wf := pg_keyed |}; simpl.
  - intros * H. apply pg_transition_cases in H as [[_ H]|[H _]]; done.
  - intros * H. apply pg_transition_cases in H as [[? _]|[_ H]]; done.
  - intros * H. apply pg_set_open_cases in H as [[_ H]|[H _]]; done.
  - intros * H. apply pg_set_open_cases in H as [[? _]|[_ H]]; done.
  - intros *. apply pg_get_same.
  - intros *. apply pg_get_read.
  - intros *. apply pg_insert_ok.
  - intros *. apply pg_set_expected_same.
  - intros *. apply pg_record_part_same.
  - intros *. apply pg_append_evidence_same.
  - intros *. apply pg_launch_same.
  - intros *. apply pg_confirm_same.
  - intros *. apply pg_claim_operation_same.
  - intros *. apply pg_claim_read.
Defined.
