(* ===== verification/PgRefine.v ===== *)
(** * The Postgres journal implements the in-memory journal

    Between database faults, one call after another, the two implementations
    of [trait OperationJournal] answer alike.  [journal_rel] relates the
    records of [MemJournal] to the rows of [PgJournal] they are read from;
    every call preserves it and gives the same reply.  The file also has the
    round trips through the row encoding, and what happens where two gateway
    processes interleave the statements of one call. *)

From S2P Require Import Prelude Operation Journal MemJournal PgJournal.

#[local] Open Scope Z_scope.
Set Default Goal Selector "!".

(** ** Replies *)

(** The answer of a call; error messages differ between the implementations. *)
Inductive reply : Type :=
| RDone
| RBool (b : bool)
| RRecord (o : option OperationRecord)
| RRecords (l : list OperationRecord)
| RError.

Definition reply_of {A} (f : A → reply) (r : result JournalError A) : reply :=
  match r with Ok a => f a | Err _ => RError end.

Definition mem_reply (j : MemJournal) (c : command) : reply :=
  match c with
  | CInsert o => reply_of (λ _, RDone) (insert_intent o j).1
  | CGet id => reply_of RRecord (get id j).1
  | COpen now id u => reply_of (λ _, RDone) (set_open now id u j).1
  | CExpected now id x => reply_of (λ _, RDone) (set_expected now id x j).1
  | CTransition now id from to m => reply_of (λ _, RDone) (transition now id from to m j).1
  | CPart p => reply_of (λ _, RDone) (record_part p j).1
  | CEvidence e => reply_of (λ _, RDone) (append_evidence e j).1
  | CLaunch now id nb => reply_of (λ _, RDone) (record_mutation_launch now id nb j).1
  | CConfirm now id t sep => reply_of RBool (confirm_exact_absence now id t sep j).1
  | CClaim now id o s l => reply_of RRecord (claim_reconcilable_operation now id o s l j).1
  | CClaimMany now o s l n => reply_of RRecords (claim_reconcilable now o s l n j).1
  end.

Definition pg_run (d : Pg) (c : command) : reply * Pg :=
  match c with
  | CInsert o => prod_map (reply_of (λ _, RDone)) id (pg_insert_intent o d)
  | CGet i => prod_map (reply_of RRecord) id (pg_get i d)
  | COpen now i u => prod_map (reply_of (λ _, RDone)) id (pg_set_open now i u d)
  | CExpected now i x => prod_map (reply_of (λ _, RDone)) id (pg_set_expected now i x d)
  | CTransition now i from to m =>
      prod_map (reply_of (λ _, RDone)) id (pg_transition now i from to m d)
  | CPart p => prod_map (reply_of (λ _, RDone)) id (pg_record_part p d)
  | CEvidence e => prod_map (reply_of (λ _, RDone)) id (pg_append_evidence e d)
  | CLaunch now i nb => prod_map (reply_of (λ _, RDone)) id (pg_record_mutation_launch now i nb d)
  | CConfirm now i t sep => prod_map (reply_of RBool) id (pg_confirm_exact_absence now i t sep d)
  | CClaim now i o s l =>
      prod_map (reply_of RRecord) id (pg_claim_reconcilable_operation now i o s l d)
  | CClaimMany now o s l n => prod_map (reply_of RRecords) id (pg_claim_reconcilable now o s l n d)
  end.

(** The replies to a history. *)
Fixpoint mem_replies (j : MemJournal) (cs : list command) : list reply :=
  match cs with [] => [] | c :: cs => mem_reply j c :: mem_replies (exec j c) cs end.
Fixpoint pg_replies (d : Pg) (cs : list command) : list reply :=
  match cs with [] => [] | c :: cs => (pg_run d c).1 :: pg_replies (pg_run d c).2 cs end.

(** ** The relation *)

Definition row_rel (o : option OperationRecord) (m : option Row) : Prop :=
  match o, m with
  | None, None => True
  | Some o, Some m => operation_from_model m = Ok o
  | _, _ => False
  end.

Definition part_rel (p : option PartRecord) (m : option PartRow) : Prop :=
  match p, m with
  | None, None => True
  | Some p, Some m => part_from_model m = Ok p
  | _, _ => False
  end.

Record journal_rel (j : MemJournal) (d : Pg) : Prop := mkRel {
  rel_rows i : row_rel (operations j !! i) (rows d !! i);
  rel_parts k : part_rel (parts j !! k) (part_rows d !! k);
  rel_evidence i : snd <$> list_find (λ e, ev_id e = i) (evidence j) = evidence_rows d !! i;
  rel_no_faults : faults d = [] ∧ fail_committed_transitions j = 0%nat ∧
    fail_evidence_appends j = 0%nat;
}.

(** An unsigned field that fits its BIGINT column. *)
Definition bigint (z : option Z) : Prop := match z with Some z => 0 <= z <= i64_max | None => True end.

(** The same for a column that is checked to be positive. *)
Definition positive_bigint (z : option Z) : Prop := match z with Some z => 0 < z <= i64_max | None => True end.
Lemma positive_bigint_weaken z : positive_bigint z → bigint z.
Proof. destruct z; simpl; lia. Qed.

(** What [intent] and its variants create, within the column widths and checks. *)
Definition storable (o : OperationRecord) : Prop :=
  fresh_record o ∧ op_upload_id o = None ∧ bigint (exp_size (op_expected o)) ∧
  positive_bigint (op_namespace_epoch o) ∧
  positive_bigint (routing_epoch <$> workspace_binding (op_destination o)) ∧
  positive_bigint (routing_fencing_token <$> workspace_binding (op_destination o)).

(** The texts a call stores. *)
Fixpoint json_texts (v : Json) : list string :=
  match v with
  | JStr s => [s]
  | JArr l => concat (map json_texts l)
  | JObj l => concat (map (λ kv, kv.1 :: json_texts kv.2) l)
  | JNull | JBool _ | JNum _ => []
  end.
Definition expected_texts (x : ExpectedObject) : list string :=
  option_list (exp_digest x) ++ json_texts (json_of_map (exp_metadata x)).
Definition binding_texts (b : WorkspaceDestinationBinding) : list string :=
  [backend_config_version b; capability_attestation_id b].
Definition command_texts (c : command) : list string :=
  match c with
  | CInsert o =>
    let dest := op_destination o in
    [backend_id dest; bucket dest; logical_key dest; physical_key dest] ++ option_list (op_tenant_id o)
    ++ from_option binding_texts [] (workspace_binding dest) ++ expected_texts (op_expected o)
  | COpen _ _ u => option_list u
  | CExpected _ _ x => expected_texts x
  | CTransition _ _ _ _ (Some m) => option_list (etag m) ++ option_list (version_id m) ++ superseded_version_ids m
  | CPart p => [part_etag p; part_digest p]
  | CEvidence e => ev_kind e :: json_texts (ev_detail e)
  | CClaim _ _ owner _ _ | CClaimMany _ owner _ _ _ => [owner]
  | _ => []
  end.
(** Postgres stores no NUL in a text. *)
Definition text_storable (s : string) : bool :=
  forallb (λ b, negb (Byte.eqb b "000"%byte)) (String.list_byte_of_string s).

(** Where the two implementations are meant to agree: new operations under
    unused ids, sizes, epochs and tokens within the column widths and checks,
    commit metadata that names the object, parts with a legal number, parts
    and evidence of known operations, texts without a NUL.  (The in-memory
    journal takes what the tables refuse.)  Claiming a batch is left out: SQL
    does not order operations with equal timestamps. *)
Definition admissible (j : MemJournal) (c : command) : Prop :=
  match c with
  | CInsert o => storable o ∧ operations j !! op_id o = None
  | CExpected _ _ x => bigint (exp_size x)
  | CTransition _ _ _ _ (Some m) => is_Some (etag m) ∨ is_Some (version_id m)
  | CPart p => 0 <= part_size_bytes p <= i64_max ∧ 1 <= part_number p <= 10000
               ∧ is_Some (operations j !! part_operation_id p)
  | CEvidence e => is_Some (operations j !! ev_operation_id e)
  | CClaimMany _ _ _ _ _ => False
  | _ => True
  end.

Fixpoint admissible_all (j : MemJournal) (cs : list command) : Prop :=
  match cs with
  | [] => True
  | c :: cs => admissible j c ∧ Forall (λ t, text_storable t = true) (command_texts c) ∧ admissible_all (exec j c) cs
  end.

(** ** The encoding of a row *)

Lemma map_of_json_of m : map_of_json (json_of_map m) = Some m.
Proof.
  unfold map_of_json, json_of_map.
  replace (mapM _ _) with (Some (map_to_list m)); [simpl; by rewrite list_to_map_to_list|].
  symmetry. apply mapM_Some, Forall2_fmap_l, Forall_Forall2_diag, Forall_forall.
  by intros [k v] _.
Qed.

Lemma u64_column_bigint msg z : bigint z → u64_column msg z = Ok z.
Proof.
  destruct z as [z|]; [|done]. simpl. intros [H _]. unfold u64_column, u64_try_from.
  by rewrite (proj2 (Z.leb_le 0 z) H).
Qed.

Lemma i64_column_bigint e z : bigint z → i64_column e z = Ok z.
Proof.
  destruct z as [z|]; [|done]. simpl. intros [_ H]. unfold i64_column, i64_try_from.
  by rewrite (proj2 (Z.leb_le z i64_max) H).
Qed.

(** A row decodes to a record when each of its columns does. *)
Definition row_decodes (m : Row) (o : OperationRecord) : Prop :=
  u64_column "negative expected object size" (r_expected_size m) = Ok (exp_size (op_expected o)) ∧
  map_of_json (r_expected_metadata m) = Some (exp_metadata (op_expected o)) ∧
  committed_from_model m = Ok (op_committed o) ∧
  parse_state (r_state m) = Ok (op_state o) ∧
  u64_column "negative namespace epoch" (r_namespace_epoch m) = Ok (op_namespace_epoch o) ∧
  binding_from_model m = Ok (workspace_binding (op_destination o)) ∧
  o = {| op_id := r_id m; op_state := op_state o;
         op_destination := mkDestination (r_backend_id m) (r_bucket m) (r_logical_key m)
                             (r_physical_key m) (workspace_binding (op_destination o));
         op_tenant_id := r_tenant_id m; op_namespace_epoch := op_namespace_epoch o;
         op_expected := mkExpected (r_expected_digest m) (exp_size (op_expected o))
                          (exp_metadata (op_expected o));
         op_upload_id := r_upload_id m; op_committed := op_committed o;
         op_lease_owner := r_lease_owner m; op_lease_expires_at_ms := r_lease_expires_at_ms m;
         op_mutation_not_before_ms := r_mutation_not_before_ms m;
         op_exact_absence_observed_at_ms := r_exact_absence_observed_at_ms m;
         op_created_at_ms := r_created_at_ms m; op_updated_at_ms := r_updated_at_ms m |}.

Lemma operation_from_model_iff m o : operation_from_model m = Ok o ↔ row_decodes m o.
Proof.
  split.
  - intros H. unfold operation_from_model in H. unbind H. simplify_eq.
    unfold row_decodes; simpl. destruct (map_of_json _); simplify_eq/=. done.
  - intros (H1 & H2 & H3 & H4 & H5 & H6 & ->). unfold operation_from_model.
    rewrite H1. simpl. rewrite H2. simpl. rewrite H3. simpl. rewrite H4. simpl.
    rewrite H5. simpl. by rewrite H6.
Qed.

(** Decoding commutes with the column updates. *)
Ltac decode :=
  rewrite !operation_from_model_iff;
  let H := fresh "H" in intros H;
  destruct H as (? & ? & ? & ? & ? & ? & Ho); rewrite Ho; unfold row_decodes;
  split_and!; done.

Lemma decode_open now u m o :
  operation_from_model m = Ok o →
  operation_from_model (row_set_upload u (row_set_state now (as_str Open) m)) =
    Ok (op_with_open now u o).
Proof. decode. Qed.

Lemma decode_expected now x m o :
  bigint (exp_size x) → operation_from_model m = Ok o →
  operation_from_model (row_set_expected now (exp_digest x) (exp_size x)
    (json_of_map (exp_metadata x)) m) = Ok (op_with_expected now x o).
Proof.
  intros Hx. rewrite !operation_from_model_iff. intros (? & ? & ? & ? & ? & ? & Ho).
  rewrite Ho. unfold row_decodes. simpl. rewrite u64_column_bigint, map_of_json_of by done.
  by destruct x.
Qed.

Lemma decode_launch now nb m o :
  operation_from_model m = Ok o →
  operation_from_model (row_set_absence now
    (Some (Z.max (default i64_min (r_mutation_not_before_ms m)) nb)) None m) =
    Ok (op_with_launch now nb o).
Proof. decode. Qed.

Lemma decode_absence now t m o :
  operation_from_model m = Ok o →
  operation_from_model (row_set_absence now (r_mutation_not_before_ms m) (Some t) m) =
    Ok (op_with_absence now t o).
Proof. decode. Qed.

Lemma decode_lease w l m o :
  operation_from_model m = Ok o →
  operation_from_model (row_set_lease (Some w) (Some l) m) = Ok (op_with_lease w l o).
Proof. decode. Qed.

Lemma decode_transition now to m o :
  op_committed o = None → operation_from_model m = Ok o →
  operation_from_model (row_set_lease None None (row_set_state now (as_str to) m)) =
    Ok (op_with_transition now to None o).
Proof.
  intros Hc. rewrite !operation_from_model_iff. intros (? & ? & H3 & ? & ? & ? & Ho).
  rewrite Ho. unfold row_decodes. simpl. rewrite parse_state_as_str. rewrite Hc in H3.
  by split_and!.
Qed.

Lemma committed_decode_encode c m :
  is_Some (etag c) ∨ is_Some (version_id c) →
  committed_from_model (row_set_committed c m) = Ok (Some c).
Proof.
  intros Hc. unfold committed_from_model. simpl. rewrite strings_of_json_of.
  destruct c as [[e|] [v|] s b]; simpl; try done. by destruct Hc as [[? ?]|[? ?]].
Qed.

Lemma decode_commit now c to m o :
  is_Some (etag c) ∨ is_Some (version_id c) → operation_from_model m = Ok o →
  operation_from_model (row_set_committed c
    (row_set_lease None None (row_set_state now (as_str to) m))) =
    Ok (op_with_transition now to (Some c) o).
Proof.
  intros Hc. rewrite !operation_from_model_iff. intros (? & ? & H3 & ? & ? & ? & Ho).
  rewrite Ho. unfold row_decodes. rewrite committed_decode_encode by done. simpl.
  rewrite parse_state_as_str. by split_and!.
Qed.

(** ** One call *)

Lemma sql_clean {A} (st : Pg → A * Pg) d :
  faults d = [] → sql st d = (Ok (st d).1, (st d).2).
Proof. destruct d; simpl. intros ->. unfold sql; simpl. by destruct (st _). Qed.

Lemma bind_run {S E A B} (m : SE S E A) (k : A → SE S E B) s a s' :
  m s = (Ok a, s') → (m ≫= k) s = k a s'.
Proof. unfold mbind, SE_bind. by intros ->. Qed.

Lemma bind_sql {A B} (st : Pg → A * Pg) (k : A → SE Pg JournalError B) d :
  faults d = [] → (sql st ≫= k) d = k (st d).1 (st d).2.
Proof. intros H. apply bind_run. by apply sql_clean. Qed.

Lemma bind_lift {A B} (r : result JournalError A) a (k : A → SE Pg JournalError B) d :
  r = Ok a → (se_lift r ≫= k) d = k a d.
Proof. by intros ->. Qed.

Lemma bind_eval {S E A B} (m : SE S E A) (k : A → SE S E B) s r s' :
  m s = (r, s') → (m ≫= k) s = match r with Ok a => k a s' | Err e => (Err e, s') end.
Proof. unfold mbind, SE_bind. intros ->. by destruct r. Qed.

(** The two reads, statement by statement. *)
Lemma launch_read_clean i nb d m s :
  faults d = [] → rows d !! i = Some m → parse_state (r_state m) = Ok s →
  launch_read i nb d =
    (if is_terminal s then Err (Conflict "terminal operation cannot launch a provider mutation")
     else Ok (Z.max (default i64_min (r_mutation_not_before_ms m)) nb), d).
Proof.
  intros Hf Hm Hs. unfold launch_read. rewrite bind_sql by done. unfold select_by_id; simpl.
  rewrite Hm, (bind_lift _ m), (bind_lift _ s) by done. by destruct (is_terminal s).
Qed.

Lemma confirm_read_clean i t sep d m :
  faults d = [] → rows d !! i = Some m →
  confirm_read i t sep d =
    (Ok (if match r_mutation_not_before_ms m with Some nb => t <? nb | None => false end
         then Some false
         else (λ first, sep <=? i64_saturating_sub t first) <$> r_exact_absence_observed_at_ms m), d).
Proof.
  intros Hf Hm. unfold confirm_read. rewrite bind_sql by done. unfold select_by_id; simpl.
  rewrite Hm, (bind_lift _ m) by done.
  destruct (match r_mutation_not_before_ms m with Some _ => _ | None => _ end); [done|].
  by destruct (r_exact_absence_observed_at_ms m).
Qed.

Lemma absent_read {A} i (k : Row → SE Pg JournalError A) d :
  faults d = [] → rows d !! i = None →
  (m ← sql (select_by_id i); m ← se_lift (ok_or m (NotFound i)); k m) d = (Err (NotFound i), d).
Proof. intros Hf Hm. rewrite bind_sql by done. unfold select_by_id; simpl. by rewrite Hm. Qed.

Lemma rel_update j d i o m :
  journal_rel j d → operation_from_model m = Ok o →
  journal_rel (set_operations <[i := o]> j) (set_rows <[i := m]> d).
Proof.
  intros [H1 H2 H3 H4] Hm. split; simpl; auto.
  intros k. rewrite !lookup_insert. by case_decide.
Qed.

(** Reading both sides of a row. *)
Lemma rel_cases j d i :
  journal_rel j d →
  (operations j !! i = None ∧ rows d !! i = None) ∨
  ∃ o m, operations j !! i = Some o ∧ rows d !! i = Some m ∧
    operation_from_model m = Ok o ∧ r_state m = as_str (op_state o).
Proof.
  intros H. pose proof (rel_rows _ _ H i) as Hr. unfold row_rel in Hr.
  destruct (operations j !! i) as [o|], (rows d !! i) as [m|]; try done; [right|by left].
  exists o, m. split_and!; auto. apply parse_state_inv.
  by apply operation_from_model_iff in Hr as (_ & _ & _ & ? & _).
Qed.

Lemma state_filter s t : bool_decide (as_str s = as_str t) = bool_decide (s = t).
Proof. apply bool_decide_ext. split; [apply as_str_inj|by intros ->]. Qed.

(** A new record is stored in a row that decodes to it. *)
Lemma intent_row_decodes o :
  storable o → op_state o = Intent →
  operation_from_model (intent_row o (exp_size (op_expected o)) (op_namespace_epoch o)
    (routing_epoch <$> workspace_binding (op_destination o))
    (routing_fencing_token <$> workspace_binding (op_destination o))) = Ok o.
Proof.
  intros (Hfr & Hu & H1 & H2%positive_bigint_weaken & H3%positive_bigint_weaken & H4%positive_bigint_weaken) Es.
  apply operation_from_model_iff. unfold row_decodes; simpl.
  rewrite !u64_column_bigint, map_of_json_of by done.
  destruct Hfr as (Hc & Hw & Hx & Hn & Hab).
  assert (∀ z, 0 <= z <= i64_max → u64_try_from z = Some z) as Hz.
  { intros z [Hz _]. unfold u64_try_from. by rewrite (proj2 (Z.leb_le 0 z) Hz). }
  split_and!; try done.
  - unfold committed_from_model; simpl. by rewrite Hc.
  - by rewrite Es.
  - unfold binding_from_model; simpl.
    destruct (workspace_binding (op_destination o)) as [[cv at' ep lid tok]|]; simpl in *; [|done].
    rewrite !Hz by done. done.
  - destruct o as [? ? [] ? ? [] ? ? ? ? ? ? ? ?]; simpl in *. by subst.
Qed.

Lemma storable_checks o :
  storable o →
  operation_checks (intent_row o (exp_size (op_expected o)) (op_namespace_epoch o)
    (routing_epoch <$> workspace_binding (op_destination o))
    (routing_fencing_token <$> workspace_binding (op_destination o))) = true.
Proof.
  intros (_ & _ & B1 & B2 & B3 & B4). unfold operation_checks, check_natural, check_positive. simpl.
  destruct (exp_size _), (op_namespace_epoch _), (workspace_binding _) as [[]|]; simpl in *; lia.
Qed.

Lemma pg_insert_run o d :
  storable o → op_state o = Intent → faults d = [] → rows d !! op_id o = None →
  pg_insert_intent o d = (Ok tt, set_rows <[op_id o := intent_row o (exp_size (op_expected o))
    (op_namespace_epoch o) (routing_epoch <$> workspace_binding (op_destination o))
    (routing_fencing_token <$> workspace_binding (op_destination o))]> d).
Proof.
  intros Hst Hs Hf Hd. pose proof (storable_checks o Hst) as Hck.
  destruct Hst as (_ & _ & B1 & B2%positive_bigint_weaken & B3%positive_bigint_weaken & B4%positive_bigint_weaken).
  unfold pg_insert_intent. rewrite decide_True by done.
  rewrite (bind_lift _ _ _ _ (i64_column_bigint _ _ B1)).
  rewrite (bind_lift _ _ _ _ (i64_column_bigint _ _ B2)).
  rewrite (bind_lift _ _ _ _ (i64_column_bigint _ _ B3)).
  rewrite (bind_lift _ _ _ _ (i64_column_bigint _ _ B4)).
  rewrite bind_sql by done. by rewrite Hd, Hck.
Qed.

(** What one call has to show. *)
Definition simulates (j : MemJournal) (d : Pg) (c : command) : Prop :=
  (pg_run d c).1 = mem_reply j c ∧ journal_rel (exec j c) (pg_run d c).2.

Section one_call.
Context (j : MemJournal) (d : Pg) (Hrel : journal_rel j d) (Hwf : mem_wf j).
Let Hclean : faults d = [] := proj1 (rel_no_faults j d Hrel).

Lemma sim_get i : simulates j d (CGet i).
Proof.
  unfold simulates; simpl. unfold pg_get. rewrite bind_sql by done. simpl.
  destruct (rel_cases j d i Hrel) as [[-> ->]|(o & m & -> & -> & -> & _)]; done.
Qed.

Lemma sim_open now i u : simulates j d (COpen now i u).
Proof.
  unfold simulates; simpl. unfold pg_set_open, set_open. rewrite bind_sql by done.
  unfold update_where.
  destruct (rel_cases j d i Hrel) as [[-> ->]|(o & m & -> & -> & Hm & Hs)]; [done|].
  rewrite Hs, state_filter. case_bool_decide as E;
    [rewrite decide_True by done|rewrite decide_False by done]; simpl; [|done].
  split; [done|]. by apply rel_update, decode_open.
Qed.

Lemma sim_expected now i x : bigint (exp_size x) → simulates j d (CExpected now i x).
Proof.
  intros Hx. unfold simulates; simpl. unfold pg_set_expected, set_expected.
  rewrite (bind_lift _ (exp_size x)) by (by apply i64_column_bigint). rewrite bind_sql by done.
  unfold update_where.
  destruct (rel_cases j d i Hrel) as [[-> ->]|(o & m & -> & -> & Hm & Hs)]; [done|].
  rewrite Hs, !state_filter. destruct (op_state o); simpl; try done.
  all: split; [done|]; by apply rel_update, decode_expected.
Qed.

Lemma sim_transition now i from to c :
  admissible j (CTransition now i from to c) → simulates j d (CTransition now i from to c).
Proof.
  intros Hadm. unfold simulates; simpl. unfold pg_transition, transition.
  destruct (can_transition_to from to) eqn:Et; simpl; [|done].
  destruct (committed_arg_ok to c) eqn:Ea; simpl; [|done].
  rewrite bind_sql by done. unfold update_where.
  pose proof (proj2 (rel_no_faults j d Hrel)) as [Hf Hg]. rewrite Hf. simpl.
  assert (journal_rel (mkMem (operations j) (parts j) (evidence j) 0
    (fail_evidence_appends j) (durable_for_test j)) d) as Hj by (by destruct Hrel).
  replace (if decide (to = Committed) then (false, 0%nat) else (false, 0%nat))
    with (false, 0%nat) by (by case_decide).
  simpl. destruct (rel_cases j d i Hrel) as [[-> ->]|(o & m & Hjo & -> & Hm & Hs)];
    [split; [done|by apply Hj]|]. rewrite Hjo.
  rewrite Hs, state_filter. case_bool_decide as E;
    [rewrite decide_True by done|rewrite decide_False by done]; simpl; [|split; [done|by apply Hj]].
  split; [done|]. apply (rel_update _ _ _ _ _ Hj).
  destruct c as [c|]; [by apply decode_commit|]. apply decode_transition; [|done].
  destruct Hwf as [_ Hw]. destruct (proj1 (Hw i o Hjo)) as [H1 _].
  destruct (op_committed o); [|done]. rewrite E in H1. by rewrite (H1 ltac:(eauto)) in Et.
Qed.

Lemma sim_launch now i nb : simulates j d (CLaunch now i nb).
Proof.
  unfold simulates; simpl. unfold pg_record_mutation_launch, record_mutation_launch.
  destruct (rel_cases j d i Hrel) as [[-> Hd]|(o & m & -> & Hd & Hm & Hs)].
  - by erewrite bind_eval by (by apply absent_read).
  - erewrite bind_eval by (eapply launch_read_clean;
      [done..|rewrite Hs; apply parse_state_as_str]).
    destruct (is_terminal (op_state o)); [done|]. simpl. unfold launch_write.
    rewrite bind_sql by done. unfold update_by_id. rewrite Hd. simpl. split; [done|].
    by apply rel_update, decode_launch.
Qed.

Lemma sim_confirm now i t sep : simulates j d (CConfirm now i t sep).
Proof.
  unfold simulates; simpl. unfold pg_confirm_exact_absence, confirm_exact_absence.
  destruct (rel_cases j d i Hrel) as [[-> Hd]|(o & m & -> & Hd & Hm & Hs)].
  - by erewrite bind_eval by (by apply absent_read).
  - erewrite bind_eval by (by eapply confirm_read_clean). simpl.
    pose proof Hm as (_ & _ & _ & _ & _ & _ & Ho)%operation_from_model_iff.
    replace (op_mutation_not_before_ms o) with (r_mutation_not_before_ms m) by (by rewrite Ho).
    replace (op_exact_absence_observed_at_ms o) with (r_exact_absence_observed_at_ms m)
      by (by rewrite Ho).
    destruct (match r_mutation_not_before_ms m with Some _ => _ | None => _ end); [done|].
    destruct (r_exact_absence_observed_at_ms m); [done|]. simpl. unfold confirm_write.
    rewrite bind_sql by done. unfold update_by_id. rewrite Hd. simpl. split; [done|].
    by apply rel_update, decode_absence.
Qed.

Lemma row_reconcilable_eq now stale o m :
  operation_from_model m = Ok o →
  row_reconcilable now stale m =
  negb (is_terminal (op_state o) || (stale <? op_updated_at_ms o)
        || match op_lease_expires_at_ms o with Some x => now <=? x | None => false end).
Proof.
  intros (_ & _ & _ & Hs & _ & _ & Ho)%operation_from_model_iff. apply parse_state_inv in Hs.
  unfold row_reconcilable, row_lease_free. rewrite Hs, !state_filter. rewrite Ho; simpl.
  rewrite Z.leb_antisym. destruct (op_state o); simpl; try done;
    destruct (stale <? _); simpl; try done; destruct (r_lease_expires_at_ms m); try done;
    apply Z.ltb_antisym.
Qed.

Lemma sim_claim now i w stale l : simulates j d (CClaim now i w stale l).
Proof.
  unfold simulates; simpl. unfold pg_claim_reconcilable_operation, claim_reconcilable_operation.
  rewrite bind_sql by done. simpl.
  destruct (rel_cases j d i Hrel) as [[-> ->]|(o & m & Hjo & Hd & Hm & Hs)]; [done|].
  rewrite Hjo, Hd. simpl. rewrite (row_reconcilable_eq now stale o m Hm).
  destruct (_ || _) eqn:E; simpl; [done|]. unfold pg_claim_candidate.
  rewrite bind_sql by done. unfold update_where.
  assert (r_id m = i) as Hid.
  { destruct Hwf as [Hk _]. rewrite <- (Hk i o Hjo).
    apply operation_from_model_iff in Hm as (_ & _ & _ & _ & _ & _ & ->). done. }
  rewrite Hid, Hd.
  assert (row_lease_free now m = true) as Hfree.
  { pose proof (row_reconcilable_eq now stale o m Hm) as H. rewrite E in H.
    unfold row_reconcilable in H. by apply andb_prop in H as [_ ?]. }
  rewrite Hfree. simpl. rewrite Hm. split; [done|]. by apply rel_update, decode_lease.
Qed.

Lemma rel_part_insert k p m :
  part_from_model m = Ok p →
  journal_rel (mkMem (operations j) (<[k := p]> (parts j)) (evidence j)
    (fail_committed_transitions j) (fail_evidence_appends j) (durable_for_test j))
    (set_part_rows <[k := m]> d).
Proof.
  intros Hm. destruct Hrel as [H1 H2 H3 H4]. split; simpl; auto.
  intros k'. rewrite !lookup_insert. by case_decide.
Qed.

Lemma part_row_decodes p :
  0 <= part_size_bytes p → part_from_model (mkPartRow (part_operation_id p) (part_number p)
    (part_etag p) (part_size_bytes p) (part_digest p) (part_created_at_ms p)) = Ok p.
Proof.
  intros Hp. unfold part_from_model, u64_try_from. simpl.
  rewrite (proj2 (Z.leb_le 0 (part_size_bytes p)) Hp). by destruct p.
Qed.

(** The foreign keys hold where the in-memory journal knows the operation. *)
Lemma known_references i : is_Some (operations j !! i) → references_operation i d = true.
Proof.
  intros [o Ho]. apply bool_decide_eq_true_2. pose proof (rel_rows _ _ Hrel i) as Hr. rewrite Ho in Hr.
  by destruct (rows d !! i).
Qed.

Lemma sim_part p : admissible j (CPart p) → simulates j d (CPart p).
Proof.
  intros ([Hp0 Hp] & [Hn1 Hn2] & Hop%known_references). unfold simulates; simpl. unfold pg_record_part, record_part.
  unfold i64_try_from. rewrite (proj2 (Z.leb_le _ _) Hp). rewrite sql_clean by done. simpl.
  pose proof (rel_parts _ _ Hrel (part_operation_id p, part_number p)) as Hk. unfold part_rel in Hk.
  destruct (parts j !! _) as [q|], (part_rows d !! _) as [m|] eqn:Em; try done; simpl.
  - unfold pg_part_retry. rewrite bind_sql by done. simpl. rewrite Em.
    rewrite (bind_lift _ m), (bind_lift _ q) by done.
    repeat case_bool_decide; simpl; try done; naive_solver.
  - unfold part_checks. simpl. rewrite Hop, (proj2 (Z.leb_le _ _) Hn1), (proj2 (Z.leb_le _ _) Hn2), (proj2 (Z.leb_le _ _) Hp0).
    simpl. split; [done|]. by apply rel_part_insert, part_row_decodes.
Qed.

Lemma evidence_insert_rel e :
  evidence_rows d !! ev_id e = None →
  journal_rel (mkMem (operations j) (parts j) (evidence j ++ [e])
    (fail_committed_transitions j) (fail_evidence_appends j) (durable_for_test j))
    (set_evidence_rows <[ev_id e := e]> d).
Proof.
  intros He. split; simpl; [apply (rel_rows _ _ Hrel)|apply (rel_parts _ _ Hrel)|
    |apply (rel_no_faults _ _ Hrel)].
  intros i. rewrite lookup_insert. pose proof (rel_evidence _ _ Hrel i) as H3.
  destruct (list_find (λ r, ev_id r = i) (evidence j)) as [[n x]|] eqn:Ef; simpl in H3.
  - erewrite list_find_app_l by done. simpl. case_decide; [|done]. subst i. congruence.
  - rewrite list_find_app_r by done. simpl. case_decide; simplify_eq/=; [|by rewrite <- H3].
    done.
Qed.

Lemma sim_evidence e : admissible j (CEvidence e) → simulates j d (CEvidence e).
Proof.
  intros Hop%known_references. unfold simulates; simpl. unfold pg_append_evidence, append_evidence.
  pose proof (proj2 (rel_no_faults j d Hrel)) as [Hf Hg]. rewrite Hg. simpl.
  rewrite bind_sql by done.
  pose proof (rel_evidence _ _ Hrel (ev_id e)) as He.
  destruct (evidence_rows d !! ev_id e) as [x|] eqn:Ee; simpl.
  - rewrite (bind_lift _ tt) by done. rewrite bind_sql by done. simpl. rewrite Ee.
    destruct (list_find _ (evidence j)) as [[n y]|]; simplify_eq/=.
    rewrite (bind_lift _ x) by done.
    assert (journal_rel (mkMem (operations j) (parts j) (evidence j)
      (fail_committed_transitions j) 0 (durable_for_test j)) d) by (by destruct Hrel).
    repeat case_bool_decide; simpl; try done; destruct (json_eqb _ _); done.
  - rewrite Hop. simpl. rewrite (bind_lift _ tt) by done. rewrite bind_sql by done. simpl. rewrite lookup_insert_eq.
    destruct (list_find _ (evidence j)) as [[n y]|]; simplify_eq/=.
    rewrite (bind_lift _ e) by done.
    rewrite !bool_decide_eq_true_2, json_eqb_refl by done. simpl. split; [done|].
    pose proof (evidence_insert_rel e Ee) as H. by rewrite Hg in H.
Qed.

Lemma sim_insert o : admissible j (CInsert o) → simulates j d (CInsert o).
Proof.
  intros [Hst Hfree]. unfold simulates; simpl. unfold insert_intent.
  destruct (decide (op_state o = Intent)) as [Es|Es]; simpl.
  - destruct (rel_cases j d (op_id o) Hrel) as [[_ Hd]|(? & ? & ? & _)]; [|congruence].
    rewrite pg_insert_run, Hfree by done. simpl. split; [done|].
    by apply rel_update, intent_row_decodes.
  - unfold pg_insert_intent. by rewrite decide_False.
Qed.
End one_call.

(** Every admissible call is simulated. *)
Lemma pg_simulates j d c :
  journal_rel j d → mem_wf j → admissible j c → simulates j d c.
Proof.
  intros Hr Hw Ha. destruct c.
  - by apply sim_insert.
  - by apply sim_get.
  - by apply sim_open.
  - by apply sim_expected.
  - by apply sim_transition.
  - by apply sim_part.
  - by apply sim_evidence.
  - by apply sim_launch.
  - by apply sim_confirm.
  - by apply sim_claim.
  - done.
Qed.

(** ** Properties *)


Definition ex_history : list command :=
  ex_absence ++ [CConfirm 86000 7 86000 5000; CTransition 86001 7 CommitUnknown Committed (Some ex_meta);
    CGet 7; CClaim 99000 7 "a" 98000 100000; CLaunch 99001 7 5;
    CPart (mkPart 7 1 "e1" 5 "d1" 99002); CPart (mkPart 7 1 "e2" 5 "d1" 99003);
    CEvidence (mkEvidence 9 7 "usage" (JObj [("source_bytes", JNum 5)]) 99004)].


(** What [insert_intent] writes, [get] reads back: a new record whose
    numbers fit the BIGINT columns is stored and decoded without loss. *)
Theorem pg_insert_get_roundtrip o d :
  storable o → op_state o = Intent → faults d = [] → rows d !! op_id o = None →
  ∃ d', pg_insert_intent o d = (Ok tt, d') ∧ pg_get (op_id o) d' = (Ok (Some o), d').
Proof.
  intros Hst Hs Hf Hd. rewrite pg_insert_run by done. eexists. split; [done|].
  unfold pg_get. rewrite bind_sql by done. simpl. rewrite lookup_insert_eq. unfold se_lift.
  by rewrite intent_row_decodes.
Qed.

Lemma pg_insert_get_roundtrip_witness :
  ∃ d', pg_insert_intent ex_op (pg_new []) = (Ok tt, d') ∧ pg_get 7 d' = (Ok (Some ex_op), d').
Proof. apply (pg_insert_get_roundtrip ex_op (pg_new [])); done. Defined.

(** The commit columns lose metadata that names neither an ETag nor a
    version: the row is COMMITTED, and [get] reports it with no commit
    metadata, which is how an operation that never committed looks. *)
Theorem pg_unnamed_commit_lost now id from c d o m :
  can_transition_to from Committed = true → etag c = None → version_id c = None →
  faults d = [] → rows d !! id = Some m → operation_from_model m = Ok o → op_state o = from →
  ∃ d' o', pg_transition now id from Committed (Some c) d = (Ok tt, d') ∧
    pg_get id d' = (Ok (Some o'), d') ∧ op_state o' = Committed ∧ op_committed o' = None.
Proof.
  intros Ht He Hv Hf Hm Ho Hs. unfold pg_transition. rewrite Ht. simpl.
  rewrite bind_sql by done. unfold update_where. rewrite Hm.
  pose proof Ho as (H1 & H2 & _ & H4 & H5 & H6 & _)%operation_from_model_iff.
  rewrite (parse_state_inv _ _ H4), Hs, bool_decide_eq_true_2 by done. simpl.
  eexists _, (op_with_transition now Committed None o). split; [done|]. unfold pg_get.
  rewrite bind_sql by done. simpl. rewrite lookup_insert_eq. split; [|done].
  unfold se_lift. match goal with |- context [operation_from_model ?r] =>
    assert (operation_from_model r = Ok (op_with_transition now Committed None o)) as -> end; [|done].
  apply operation_from_model_iff in Ho as (? & ? & ? & ? & ? & ? & Heq).
  apply operation_from_model_iff. unfold row_decodes, committed_from_model. simpl.
  rewrite He, Hv. rewrite Heq. split_and!; done.
Qed.

Lemma pg_unnamed_commit_lost_witness :
  ∃ d' o', pg_transition 103 7 Completing Committed (Some (mkMeta None None [] true))
      (pg_run (pg_run (pg_run (pg_new []) (CInsert ex_op)).2 (COpen 101 7 None)).2
         (CTransition 102 7 Open Completing None)).2 = (Ok tt, d') ∧
    pg_get 7 d' = (Ok (Some o'), d') ∧ op_state o' = Committed ∧ op_committed o' = None.
Proof.
  eapply (pg_unnamed_commit_lost 103 7 Completing (mkMeta None None [] true)); try done; by vm_compute.
Defined.

(** ** Two processes *)

(** [confirm_exact_absence] and [record_mutation_launch] are two statements
    each.  When a launch runs between the statements of a confirmation, the
    confirmation stores an observation that was made before the launch, so
    that one single observation after the launch's window confirms the
    absence. *)
Theorem pg_confirm_launch_race id now d m o t0 nb t1 sep :
  faults d = [] → rows d !! id = Some m → operation_from_model m = Ok o →
  is_terminal (op_state o) = false → op_mutation_not_before_ms o = None →
  op_exact_absence_observed_at_ms o = None →
  is_i64 nb → nb <= t1 → sep <= i64_saturating_sub t1 t0 →
  ∃ d1 d2, confirm_read id t0 sep d = (Ok None, d) ∧
    pg_record_mutation_launch now id nb d = (Ok tt, d1) ∧
    confirm_write now id t0 d1 = (Ok false, d2) ∧
    (pg_confirm_exact_absence now id t1 sep d2).1 = Ok true.
Proof.
  intros Hf Hm Ho Ht Hn Ha [Hnb0 _] Hnb Hsep.
  pose proof Ho as (_ & _ & _ & Hs & _ & _ & Heq)%operation_from_model_iff.
  assert (r_mutation_not_before_ms m = None) as Hn' by (by rewrite Heq in Hn).
  assert (r_exact_absence_observed_at_ms m = None) as Ha' by (by rewrite Heq in Ha).
  eexists _, _. split_and!.
  - erewrite confirm_read_clean by done. by rewrite Hn', Ha'.
  - unfold pg_record_mutation_launch. erewrite bind_eval by (by eapply launch_read_clean).
    rewrite Ht. unfold launch_write. rewrite bind_sql by done. unfold update_by_id. by rewrite Hm.
  - unfold confirm_write. rewrite bind_sql by done. unfold update_by_id. simpl.
    by rewrite lookup_insert_eq.
  - unfold pg_confirm_exact_absence. erewrite bind_eval by (eapply confirm_read_clean;
      [done|simpl; apply lookup_insert_eq]).
    simpl. rewrite Hn'. simpl. rewrite (proj2 (Z.ltb_ge t1 _)); [simpl; f_equal; lia|].
    by apply Z.max_lub; [etrans|].
Qed.

Lemma pg_confirm_launch_race_witness :
  ∃ d1 d2, let d := (pg_run (pg_new []) (CInsert ex_op)).2 in
    confirm_read 7 1000 5000 d = (Ok None, d) ∧
    pg_record_mutation_launch 1001 7 76001 d = (Ok tt, d1) ∧
    confirm_write 1001 7 1000 d1 = (Ok false, d2) ∧
    (pg_confirm_exact_absence 1001 7 76001 5000 d2).1 = Ok true.
Proof.
  eapply (pg_confirm_launch_race 7 1001 (pg_run (pg_new []) (CInsert ex_op)).2);
    try done; by vm_compute.
Defined.
