(* ===== verification/Transaction.v ===== *)
(** * Transactions against a journal and a provider

    What [OperationReconciler] ([crates/gateway/src/transaction/mod.rs]) and
    [DirectS3Sink] ([crates/gateway/src/transaction/s3.rs]) share: the trait
    [TransactionBackend], the world a method runs in (itself, the journal, the
    provider, the clock) and the calls it makes.  The world also keeps a log
    of the provider calls with their results; no method reads it, the
    theorems speak about it. *)

From S2P Require Import Prelude Operation Journal.

#[local] Open Scope Z_scope.
Set Default Goal Selector "!".

Definition PROVIDER_MUTATION_AMBIGUITY_WINDOW : Z := 75 * 1000.
Definition EXACT_ABSENCE_CONFIRMATION_DELAY : Z := 5 * 1000.
Definition DIRECT_PART_BYTES : N := 16 * 1024 * 1024.

(** [duration_ms]: a duration in milliseconds as an [i64]. *)
Definition duration_ms (milliseconds : Z) : Z := Z.min milliseconds i64_max.

(** ** The provider: [trait TransactionBackend]

    [B] is the provider's own state; nothing is assumed about it.  The two
    methods that report configuration are constants. *)
Class TransactionBackend (B : Type) := {
  b_capabilities : BackendCapabilities;
  b_has_exact_version_recovery : bool;
  b_put_object : OperationRecord → list byte → SE B BackendError StoredObjectMeta;
  b_create_multipart : OperationRecord → SE B BackendError string;
  b_upload_part : OperationRecord → string → Z → list byte → SE B BackendError string;
  b_complete_multipart : OperationRecord → string → list UploadedPart →
    SE B BackendError StoredObjectMeta;
  b_abort_multipart : OperationRecord → string → SE B BackendError unit;
  b_discover_incomplete : OperationRecord → SE B BackendError (list DiscoveredUpload);
  b_delete_object_version : OperationRecord → string → SE B BackendError unit;
  b_probe_completion : OperationRecord → SE B BackendError CompletionProbe;
}.

(** ** The log of provider calls *)

Inductive event : Type :=
| EPut (body : list byte) (r : result BackendError StoredObjectMeta)
| ECreate (r : result BackendError string)
| EUpload (upload_id : string) (part_number : Z) (body : list byte) (r : result BackendError string)
| EComplete (upload_id : string) (parts : list UploadedPart)
    (r : result BackendError StoredObjectMeta)
| EAbort (upload_id : string) (r : result BackendError unit)
| EDiscover (r : result BackendError (list DiscoveredUpload))
| EDelete (version_id : string) (r : result BackendError unit)
| EProbe (r : result BackendError CompletionProbe)
(** journal calls that the protocol depends on *)
| ELaunch (r : result JournalError unit)
| EConfirm (r : result JournalError bool).

(** The result of a call that may publish the object. *)
Definition commit_attempt (e : event) : option (result BackendError StoredObjectMeta) :=
  match e with EPut _ r | EComplete _ _ r => Some r | _ => None end.

(** Calls that change the provider's state towards publication. *)
Definition is_mutation (e : event) : bool :=
  match e with EPut _ _ | ECreate _ | EUpload _ _ _ _ | EComplete _ _ _ => true | _ => false end.

(** ** The world of a method on [self : S] *)

Section world.
Context {S J B : Type} `{OperationJournal J} `{TransactionBackend B}.

Record World := mkWorld {
  self : S;
  journal : J;
  backend : B;
  (** [unix_time_ms()] and [Uuid::now_v7()] at the [tick]-th use *)
  clock : nat → Z;
  uuids : nat → Uuid;
  tick : nat;
  log : list event;
}.

Definition M (A : Type) : Type := SE World TransactionError A.

Definition w_set_self (s : S) (w : World) : World :=
  mkWorld s (journal w) (backend w) (clock w) (uuids w) (tick w) (log w).
Definition w_set_journal (j : J) (w : World) : World :=
  mkWorld (self w) j (backend w) (clock w) (uuids w) (tick w) (log w).
Definition w_set_backend (b : B) (w : World) : World :=
  mkWorld (self w) (journal w) b (clock w) (uuids w) (tick w) (log w).
Definition w_tick (w : World) : World :=
  mkWorld (self w) (journal w) (backend w) (clock w) (uuids w) (Datatypes.S (tick w)) (log w).
Definition w_log (e : event) (w : World) : World :=
  mkWorld (self w) (journal w) (backend w) (clock w) (uuids w) (tick w) (log w ++ [e]).

Definition get_self : M S := λ w, (Ok (self w), w).
Definition modify_self (f : S → S) : M unit := λ w, (Ok tt, w_set_self (f (self w)) w).

(** [unix_time_ms()]. *)
Definition unix_time_ms : M Z := λ w, (Ok (clock w (tick w)), w_tick w).

(** A journal call; its own clock reading is the next one. *)
Definition journal_call {A} (f : Z → SE J JournalError A) : SE World JournalError A := λ w,
  let (r, j) := f (clock w (tick w)) (journal w) in (r, w_set_journal j (w_tick w)).

(** A provider call, logged with its result. *)
Definition backend_call {A} (ev : result BackendError A → event) (f : SE B BackendError A)
    : SE World BackendError A := λ w,
  let (r, b) := f (backend w) in (r, w_log (ev r) (w_set_backend b w)).

(** The [?] conversions [From<JournalError>] and [From<BackendError>]. *)
Definition from_journal {A} (m : SE World JournalError A) : M A := λ w,
  let (r, w') := m w in (map_err TJournal r, w').
Definition from_backend {A} (m : SE World BackendError A) : M A := λ w,
  let (r, w') := m w in (map_err TBackend r, w').

(** [match fallible.await { .. }] and [let _ = fallible.await]. *)
Definition try_call {E A} (m : SE World E A) : M (result E A) := λ w,
  let (r, w') := m w in (Ok r, w').

(** ** Calls *)

Definition transition_call (id : Uuid) (expected next : OperationState)
    (committed : option StoredObjectMeta) : SE World JournalError unit :=
  journal_call (λ now, j_transition now id expected next committed).

(** [EvidenceRecord::new] then [append_evidence]. *)
Definition evidence_call (id : Uuid) (kind : string) (detail : Json) : SE World JournalError unit :=
  λ w, let e := mkEvidence (uuids w (tick w)) id kind detail (clock w (tick w)) in
       journal_call (λ _, j_append_evidence e) w.

Definition launch_call (id : Uuid) (not_before_ms : Z) : SE World JournalError unit := λ w,
  let (r, w') := journal_call (λ now, j_record_mutation_launch now id not_before_ms) w in
  (r, w_log (ELaunch r) w').

Definition confirm_call (id : Uuid) (observed_at_ms minimum_separation_ms : Z)
    : SE World JournalError bool := λ w,
  let (r, w') := journal_call
    (λ now, j_confirm_exact_absence now id observed_at_ms minimum_separation_ms) w in
  (r, w_log (EConfirm r) w').

(** ** Weakest preconditions *)

Lemma wp_from_journal {A} (m : SE World JournalError A) (Q : result TransactionError A → World → Prop) w :
  wp m (λ r, Q (map_err TJournal r)) w → wp (from_journal m) Q w.
Proof. unfold wp, from_journal. by destruct (m w). Qed.

Lemma wp_from_backend {A} (m : SE World BackendError A) (Q : result TransactionError A → World → Prop) w :
  wp m (λ r, Q (map_err TBackend r)) w → wp (from_backend m) Q w.
Proof. unfold wp, from_backend. by destruct (m w). Qed.

Lemma wp_try {E A} (m : SE World E A) (Q : result TransactionError (result E A) → World → Prop) w :
  wp m (λ r, Q (Ok r)) w → wp (try_call m) Q w.
Proof. unfold wp, try_call. by destruct (m w). Qed.

Lemma wp_get_self (Q : result TransactionError S → World → Prop) w : Q (Ok (self w)) w → wp get_self Q w.
Proof. done. Qed.

Lemma wp_modify_self f (Q : result TransactionError unit → World → Prop) w :
  Q (Ok tt) (w_set_self (f (self w)) w) → wp (modify_self f) Q w.
Proof. done. Qed.

Lemma wp_backend {A} ev (f : SE B BackendError A) (Q : result BackendError A → World → Prop) w :
  (∀ r b, Q r (w_log (ev r) (w_set_backend b w))) → wp (backend_call ev f) Q w.
Proof. intros HQ. unfold wp, backend_call. destruct (f (backend w)). apply HQ. Qed.
End world.
Arguments World : clear implicits.
Arguments M : clear implicits.

(** ** The calls against the journal laws *)

Section calls.
Context {S J B : Type} `{JournalLaws J} `{TransactionBackend B}.
Abbreviation World := (World S J B).

(** Same method state, same journal states, [evs] logged. *)
Definition step_log (evs : list event) (w w' : World) : Prop :=
  self w' = self w ∧ log w' = log w ++ evs ∧
  same_rows j_wf j_state j_committed (journal w) (journal w').
Abbreviation step_same := (step_log []).

(** Same method state, same log, one journal row moved. *)
Definition step_moved (id : Uuid) (from to : OperationState) (c : option StoredObjectMeta)
    (w w' : World) : Prop :=
  self w' = self w ∧ log w' = log w ∧
  row_moved j_wf j_state j_committed id from to c (journal w) (journal w').

Lemma step_log_trans e1 e2 u v w :
  step_log e1 u v → step_log e2 v w → step_log (e1 ++ e2) u w.
Proof.
  intros (Ha & Hb & Hc) (Hd & He & Hf). split_and!; [congruence| |by etrans].
  by rewrite He, Hb, app_assoc.
Qed.

Lemma step_log_nil w : step_same w w.
Proof. split_and!; [done|by rewrite app_nil_r|done]. Qed.

Lemma step_backend e b w : step_log [e] w (w_log e (w_set_backend b w)).
Proof. by split_and!. Qed.

Lemma step_same_log e w w' : step_same w w' → step_log [e] w (w_log e w').
Proof.
  intros (Ha & Hb & Hc). split_and!; [done| |done]. simpl. rewrite Hb. by rewrite app_nil_r.
Qed.

Lemma wp_transition id from to c (Q : result JournalError unit → World → Prop) w :
  (∀ w', step_moved id from to c w w' → Q (Ok tt) w') →
  (∀ e w', step_same w w' ∨ step_moved id from to c w w' → Q (Err e) w') →
  wp (transition_call id from to c) Q w.
Proof.
  intros Hok Herr. unfold wp, transition_call, journal_call.
  destruct (j_transition _ _ _ _ _ _) as [[[]|e] j] eqn:E.
  - apply Hok. apply transition_ok in E. by split_and!.
  - apply Herr. apply transition_err in E as [E|E]; [left|right];
      by split_and!; rewrite ?app_nil_r.
Qed.

Lemma wp_journal_same {A} (f : Z → SE J JournalError A) (Q : result JournalError A → World → Prop) w :
  (∀ now j r j', f now j = (r, j') → same_rows j_wf j_state j_committed j j') →
  (∀ r w', step_same w w' → Q r w') → wp (journal_call f) Q w.
Proof.
  intros Hf HQ. unfold wp, journal_call. destruct (f _ _) as [r j] eqn:E.
  apply HQ. apply Hf in E. by split_and!; [|rewrite app_nil_r|].
Qed.

Lemma wp_evidence id k x (Q : result JournalError unit → World → Prop) w :
  (∀ r w', step_same w w' → Q r w') → wp (evidence_call id k x) Q w.
Proof.
  intros HQ. unfold wp, evidence_call. apply wp_journal_same; [|done].
  intros now j r j'. apply append_evidence_state.
Qed.

Lemma wp_launch id nb (Q : result JournalError unit → World → Prop) w :
  (∀ r w', step_log [ELaunch r] w w' → Q r w') → wp (launch_call id nb) Q w.
Proof.
  intros HQ. unfold wp, launch_call, journal_call.
  destruct (j_record_mutation_launch _ _ _ _) as [r j] eqn:E.
  apply HQ. apply mutation_launch_state in E. by split_and!.
Qed.

Lemma wp_confirm id t sep (Q : result JournalError bool → World → Prop) w :
  (∀ r w', step_log [EConfirm r] w w' → Q r w') → wp (confirm_call id t sep) Q w.
Proof.
  intros HQ. unfold wp, confirm_call, journal_call.
  destruct (j_confirm_exact_absence _ _ _ _ _) as [r j] eqn:E.
  apply HQ. apply confirm_absence_state in E. by split_and!.
Qed.

Lemma wp_clock (Q : result TransactionError Z → World → Prop) w :
  (∀ t w', step_same w w' → Q (Ok t) w') → wp unix_time_ms Q w.
Proof. intros HQ. unfold wp, unix_time_ms. apply HQ. by split_and!; rewrite ?app_nil_r. Qed.

Lemma wp_backend_log {A} ev (f : SE B BackendError A) (Q : result BackendError A → World → Prop) w :
  (∀ r w', step_log [ev r] w w' → Q r w') → wp (backend_call ev f) Q w.
Proof. intros HQ. apply wp_backend. intros r b. apply HQ, step_backend. Qed.
End calls.
Abbreviation step_same := (step_log []).

(** Steps through a method, one call at a time. *)
Ltac wp_step :=
  lazymatch goal with
  | |- wp (_ ≫= _) _ _ => apply wp_bind
  | |- wp (from_journal _) _ _ => apply wp_from_journal
  | |- wp (from_backend _) _ _ => apply wp_from_backend
  | |- wp (try_call _) _ _ => apply wp_try
  | |- wp (mret _) _ _ => apply wp_ret
  | |- wp (se_throw _) _ _ => apply wp_throw
  | |- wp (se_lift _) _ _ => apply wp_lift
  | |- wp get_self _ _ => apply wp_get_self
  | |- wp (modify_self _) _ _ => apply wp_modify_self
  end.

(** ** A provider for the examples *)

(** It answers commit attempts from a script and every probe alike; all other
    calls succeed. *)
Record Script := mkScript {
  script_commits : list (result BackendError StoredObjectMeta);
  script_probe : result BackendError CompletionProbe;
}.

Definition script_commit : SE Script BackendError StoredObjectMeta := λ b,
  match script_commits b with
  | [] => (Err (ambiguous "no reply"), b)
  | r :: rs => (r, mkScript rs (script_probe b))
  end.

Definition scripted_backend : TransactionBackend Script := {|
  b_capabilities := mkCapabilities OperationIdentity true (Some 1000) true VersioningOptional
    ConditionalEtag ChecksumStandard V1AndV2 MultipartStandard HeadWithOperationIdentity;
  b_has_exact_version_recovery := false;
  b_put_object _ _ := script_commit;
  b_create_multipart _ := mret "upload";
  b_upload_part _ _ n _ := mret ("etag-" +:+ pretty n);
  b_complete_multipart _ _ _ := script_commit;
  b_abort_multipart _ _ := mret tt;
  b_discover_incomplete _ := mret [];
  b_delete_object_version _ _ := mret tt;
  b_probe_completion _ := λ b, (script_probe b, b);
|}.
