(* ===== verification/Reconciler.v ===== *)
(** * The operation reconciler

    [OperationReconciler] of [crates/gateway/src/transaction/mod.rs]: it takes
    over an operation whose writer is gone and drives it to a terminal state,
    or leaves it as it is when nothing is proven. *)

From S2P Require Import Prelude Operation Journal MemJournal Transaction.

#[local] Open Scope Z_scope.
Set Default Goal Selector "!".

(** The fields of [OperationReconciler] beside the journal and the backend. *)
Record Reconciler := mkReconciler {
  owner : string;
  lease : Z;
  exact_absence_confirmation_delay : Z;
}.

Definition json_strings (l : list string) : Json := JArr (JStr <$> l).
Definition json_opt (s : option string) : Json :=
  match s with Some s => JStr s | None => JNull end.

(** [meta.version_history_complete = false]. *)
Definition history_incomplete (m : StoredObjectMeta) : StoredObjectMeta :=
  mkMeta (etag m) (version_id m) (superseded_version_ids m) false.

Definition history_evidence_kind (m : StoredObjectMeta) : string :=
  if version_history_complete m then "provider_version_history_complete"
  else "provider_version_history_ambiguous".

Section reconciler.
Context {J B : Type} `{OperationJournal J} `{TransactionBackend B}.
Abbreviation M := (M Reconciler J B).

(** [OperationReconciler::new]. *)
Definition reconciler_new (owner : string) : result CapabilityError Reconciler :=
  _ ← streaming_eligibility b_capabilities;
  Ok (mkReconciler owner 30000 EXACT_ABSENCE_CONFIRMATION_DELAY).

(** The loop over [meta.superseded_version_ids]. *)
Fixpoint delete_versions (operation : OperationRecord) (authoritative : option string)
    (ids : list string) : M unit :=
  match ids with
  | [] => mret tt
  | version_id :: ids =>
    if decide (authoritative = Some version_id) then
      se_throw (TJournal (Corrupt "authoritative provider version was listed as redundant"))
    else
      _ ← from_backend (backend_call (EDelete version_id) (b_delete_object_version operation version_id));
      delete_versions operation authoritative ids
  end.

Fixpoint abort_uploads (operation : OperationRecord) (uploads : list DiscoveredUpload) : M unit :=
  match uploads with
  | [] => mret tt
  | upload :: uploads =>
    _ ← from_backend (backend_call (EAbort (du_upload_id upload))
          (b_abort_multipart operation (du_upload_id upload)));
    abort_uploads operation uploads
  end.

Definition abort_discovered (operation : OperationRecord) : M unit :=
  uploads ← from_backend (backend_call EDiscover (b_discover_incomplete operation));
  abort_uploads operation uploads.

Definition reconcile_unknown (operation : OperationRecord) : M unit :=
  probe ← from_backend (backend_call EProbe (b_probe_completion operation));
  match probe with
  | ProbeCommitted meta =>
    let meta := if negb b_has_exact_version_recovery then history_incomplete meta else meta in
    _ ← delete_versions operation (version_id meta) (superseded_version_ids meta);
    _ ← from_journal (evidence_call (op_id operation) (history_evidence_kind meta)
          (JObj [("version_id", json_opt (version_id meta));
                 ("superseded_version_ids", json_strings (superseded_version_ids meta));
                 ("reconciled", JBool true)]));
    from_journal (transition_call (op_id operation) CommitUnknown Committed (Some meta))
  | ProvenAbsent =>
    from_journal (evidence_call (op_id operation) "completion_absent_inconclusive" (JObj []))
  | ProvenAbsentExact =>
    observed_at_ms ← unix_time_ms;
    this ← get_self;
    confirmed ← from_journal (confirm_call (op_id operation) observed_at_ms
                  (duration_ms (exact_absence_confirmation_delay this)));
    if negb confirmed then
      from_journal (evidence_call (op_id operation) "completion_exact_absence_pending"
        (JObj [("observed_at_ms", JNum observed_at_ms)]))
    else
      _ ← abort_discovered operation;
      _ ← from_journal (evidence_call (op_id operation) "completion_exactly_absent" (JObj []));
      from_journal (transition_call (op_id operation) CommitUnknown ProvenAborted None)
  | Inconclusive => mret tt
  end.

Definition reconcile (operation : OperationRecord) : M unit :=
  this ← get_self;
  _ ← from_journal (evidence_call (op_id operation) "reconcile_started"
        (JObj [("state", JStr (as_str (op_state operation))); ("owner", JStr (owner this))]));
  match op_state operation with
  | Intent =>
    _ ← from_journal (transition_call (op_id operation) Intent Aborting None);
    _ ← abort_discovered operation;
    from_journal (transition_call (op_id operation) Aborting ProvenAborted None)
  | Open | Aborting =>
    _ ← (if decide (op_state operation = Open)
         then from_journal (transition_call (op_id operation) Open Aborting None)
         else mret tt);
    _ ← (match op_upload_id operation with
         | Some upload_id =>
           from_backend (backend_call (EAbort upload_id) (b_abort_multipart operation upload_id))
         | None => mret tt
         end);
    _ ← abort_discovered operation;
    from_journal (transition_call (op_id operation) Aborting ProvenAborted None)
  | Completing =>
    _ ← from_journal (transition_call (op_id operation) Completing CommitUnknown None);
    reconcile_unknown operation
  | CommitUnknown => reconcile_unknown operation
  | Committed | ProvenAborted => mret tt
  end.

Definition reconcile_claimed (operation : OperationRecord) : M unit :=
  this ← get_self;
  if negb (bool_decide (op_lease_owner operation = Some (owner this))) then
    se_throw (TJournal (Conflict "reconciler does not own the claimed operation"))
  else reconcile operation.

Definition reconcile_operation (operation_id : Uuid) (stale_after : Z) : M bool :=
  now ← unix_time_ms;
  this ← get_self;
  operation ← from_journal (journal_call (λ t, j_claim_reconcilable_operation t operation_id (owner this)
    (i64_saturating_sub now (duration_ms stale_after))
    (i64_saturating_add now (duration_ms (lease this)))));
  match operation with
  | Some operation => _ ← reconcile operation; mret true
  | None => mret false
  end.
End reconciler.

(** [validate_production_journal]: the durability of the configured journal, if any. *)
Definition validate_production_journal (streaming_write_requested : bool)
    (is_durable : option bool) : result string unit :=
  if streaming_write_requested && negb (default false is_durable) then
    Err "production streaming writes require a durable operation journal; configure DATABASE_URL"
  else Ok tt.

(** ** Outcomes *)

(** What the log says when an operation is reported committed or aborted. *)
Definition uploads_aborted (evs : list event) : Prop :=
  ∃ us, EDiscover (Ok us) ∈ evs ∧ Forall (λ u, EAbort (du_upload_id u) (Ok tt) ∈ evs) us.

Definition proven_absent (evs : list event) : Prop :=
  EProbe (Ok ProvenAbsentExact) ∈ evs ∧ EConfirm (Ok true) ∈ evs ∧ uploads_aborted evs.

(** The metadata stored for a completion that a probe discovered. *)
Definition recovered_meta (exact : bool) (m : StoredObjectMeta) : StoredObjectMeta :=
  if negb exact then history_incomplete m else m.

Definition proven_committed (exact : bool) (evs : list event) (c : option StoredObjectMeta) : Prop :=
  ∃ m, EProbe (Ok (ProbeCommitted m)) ∈ evs ∧ c = Some (recovered_meta exact m) ∧
    Forall (λ v, EDelete v (Ok tt) ∈ evs) (superseded_version_ids m) ∧
    (∀ v, v ∈ superseded_version_ids m → version_id m ≠ Some v).

(** The operation never reached completion, or its completion is in doubt. *)
Definition before_completion (s : OperationState) : bool :=
  match s with Intent | Open | Aborting => true | _ => false end.
Definition in_doubt (s : OperationState) : bool :=
  match s with Completing | CommitUnknown => true | _ => false end.

Section outcomes.
Context {J B : Type} `{JournalLaws J} `{TransactionBackend B}.
Abbreviation World := (World Reconciler J B).

Lemma wp_delete_versions op v ids (Q : result TransactionError unit → World → Prop) w :
  (∀ r w' evs, step_log evs w w' →
     (r = Ok tt → Forall (λ x, EDelete x (Ok tt) ∈ evs) ids ∧ ∀ x, x ∈ ids → v ≠ Some x) → Q r w') →
  wp (delete_versions op v ids) Q w.
Proof.
  revert Q w. induction ids as [|x ids IH]; intros Q w HQ; simpl.
  - wp_step. apply (HQ _ w []); [apply step_log_nil|]. intros _. split; [constructor|set_solver].
  - case_decide as Ev; [wp_step; apply (HQ _ w []); [apply step_log_nil|done]|].
    repeat wp_step. apply wp_backend_log. intros [[]|e] w1 H1'; simpl.
    + apply IH. intros r w2 evs H2' Hr. apply (HQ _ _ ([EDelete x (Ok tt)] ++ evs));
        [by eapply step_log_trans|]. intros Hok. destruct (Hr Hok) as [Hd Hn]. split.
      * constructor; [set_solver|]. eapply Forall_impl; [done|set_solver].
      * set_solver.
    + by eapply HQ.
Qed.

Lemma wp_abort_uploads op us (Q : result TransactionError unit → World → Prop) w :
  (∀ r w' evs, step_log evs w w' →
     (r = Ok tt → Forall (λ u, EAbort (du_upload_id u) (Ok tt) ∈ evs) us) → Q r w') →
  wp (abort_uploads op us) Q w.
Proof.
  revert Q w. induction us as [|x us IH]; intros Q w HQ; simpl.
  - wp_step. apply (HQ _ w []); [apply step_log_nil|constructor].
  - repeat wp_step. apply wp_backend_log. intros [[]|e] w1 H1'; simpl; [|by eapply HQ].
    apply IH. intros r w2 evs H2' Hr. apply (HQ _ _ ([EAbort (du_upload_id x) (Ok tt)] ++ evs));
      [by eapply step_log_trans|]. intros Hok. constructor; [set_solver|].
    eapply Forall_impl; [by apply Hr|set_solver].
Qed.

Lemma wp_abort_discovered op (Q : result TransactionError unit → World → Prop) w :
  (∀ r w' evs, step_log evs w w' → (r = Ok tt → uploads_aborted evs) → Q r w') →
  wp (abort_discovered op) Q w.
Proof.
  intros HQ. unfold abort_discovered. repeat wp_step. apply wp_backend_log.
  intros [us|e] w1 H1'; simpl; [|by eapply HQ].
  apply wp_abort_uploads. intros r w2 evs H2' Hr.
  apply (HQ _ _ ([EDiscover (Ok us)] ++ evs)); [by eapply step_log_trans|].
  intros Hok. exists us. split; [set_solver|]. eapply Forall_impl; [by apply Hr|set_solver].
Qed.

(** [j_state] along the steps. *)
Lemma step_log_state evs (w w' : World) i :
  step_log evs w w' → j_state (journal w') i = j_state (journal w) i ∧
    j_committed (journal w') i = j_committed (journal w) i.
Proof. intros (_ & _ & _ & Hr). apply Hr. Qed.

(** The outcome of a run of [reconcile] for [op] from [w]. *)
Definition outcome (s0 : OperationState) (id : Uuid) (evs : list event) (w' : World) : Prop :=
  match j_state (journal w') id with
  | Some Committed => s0 = Committed ∨
      (in_doubt s0 = true ∧ proven_committed b_has_exact_version_recovery evs
                              (j_committed (journal w') id))
  | Some ProvenAborted => s0 = ProvenAborted ∨
      (in_doubt s0 = true ∧ proven_absent evs) ∨
      (before_completion s0 = true ∧ uploads_aborted evs)
  | Some Aborting => before_completion s0 = true
  | Some CommitUnknown => in_doubt s0 = true
  | Some s => s = s0
  | None => False
  end.

(** What holds at the end of a call, besides the outcome. *)
Definition finished_run (s0 : OperationState) (id : Uuid) (w : World)
    (r : result TransactionError unit) (w' : World) : Prop :=
  ∃ evs, self w' = self w ∧ log w' = log w ++ evs ∧ outcome s0 id evs w' ∧
    (∀ i, i ≠ id → j_state (journal w') i = j_state (journal w) i ∧
                   j_committed (journal w') i = j_committed (journal w) i) ∧
    (r = Ok tt → before_completion s0 = true → j_state (journal w') id = Some ProvenAborted).

(** The point a run has reached: the state recorded and the events so far. *)
Definition reached (id : Uuid) (s : OperationState) (evs : list event) (w0 w : World) : Prop :=
  self w = self w0 ∧ log w = log w0 ++ evs ∧ j_state (journal w) id = Some s ∧
  ∀ i, i ≠ id → j_state (journal w) i = j_state (journal w0) i ∧
                j_committed (journal w) i = j_committed (journal w0) i.

Lemma reached_log id s evs e (w0 w w' : World) :
  reached id s evs w0 w → step_log e w w' → reached id s (evs ++ e) w0 w'.
Proof.
  intros (Ha & Hb & Hc & Hd) (He & Hf & _ & Hg). split_and!; [congruence| | |].
  - by rewrite Hf, Hb, app_assoc.
  - by destruct (Hg id) as [-> _].
  - intros i Hi. destruct (Hg i) as [-> ->]. auto.
Qed.

Lemma reached_moved id s t c evs (w0 w w' : World) :
  reached id s evs w0 w → step_moved id s t c w w' →
  reached id t evs w0 w' ∧ (t = Committed → j_committed (journal w') id = c).
Proof.
  intros (Ha & Hb & Hc & Hd) (He & Hf & _ & _ & _ & Hg & Hh & _ & Hi).
  split; [|done]. split_and!; [congruence|congruence|done|].
  intros i Hne. destruct (Hi i Hne) as [-> ->]. auto.
Qed.

(** A run that stops where it is. *)
Lemma reached_finished s0 id s evs (w0 w : World) r :
  reached id s evs w0 w →
  (s = s0 ∧ (s0 ≠ Committed → is_ok r = false ∨ before_completion s0 = false)
   ∨ s = Aborting ∧ before_completion s0 = true ∧ is_ok r = false
   ∨ s = CommitUnknown ∧ in_doubt s0 = true
   ∨ s = ProvenAborted ∧ in_doubt s0 = true ∧ proven_absent evs
   ∨ s = ProvenAborted ∧ before_completion s0 = true ∧ uploads_aborted evs
   ∨ s = Committed ∧ in_doubt s0 = true ∧
     proven_committed b_has_exact_version_recovery evs (j_committed (journal w) id)) →
  finished_run s0 id w0 r w.
Proof.
  intros (Ha & Hb & Hc & Hd) Hs. exists evs. unfold outcome. rewrite Hc.
  split_and!; [done|done| |done|].
  - destruct Hs as [[-> _]|[(-> & ? & _)|[[-> ?]|[(-> & ?)|[(-> & ?)|(-> & ?)]]]]]; auto.
    destruct s0; auto.
  - intros -> Hbc. destruct Hs as [[-> Hr]|[(-> & ? & ?)|[(-> & ?)|[(-> & ? & ?)|[(-> & ? & ?)|(-> & ? & ?)]]]]];
      try done; destruct s0; try done; destruct Hr; done.
Qed.

Lemma wp_abort_tail s0 id op evs (w0 w : World) :
  before_completion s0 = true → reached id Aborting evs w0 w → op_id op = id →
  wp (_ ← abort_discovered op; from_journal (transition_call (op_id op) Aborting ProvenAborted None))
    (finished_run s0 id w0) w.
Proof.
  intros Hs Hw <-. wp_step. apply wp_abort_discovered. intros [[]|e] w1 e1 H1' Hup.
  - repeat wp_step. pose proof (reached_log _ _ _ _ _ _ _ Hw H1') as Hw1.
    assert (uploads_aborted (evs ++ e1)) as Hup'.
    { destruct (Hup eq_refl) as (us & ? & ?). exists us. split; [set_solver|].
      eapply Forall_impl; [done|set_solver]. }
    apply wp_transition.
    + intros w2 H2'. destruct (reached_moved _ _ _ _ _ _ _ _ Hw1 H2') as [Hw2 _].
      eapply reached_finished; [done|]. naive_solver.
    + intros e w2 [H2'|H2'].
      * eapply reached_finished; [by eapply reached_log|]. naive_solver.
      * destruct (reached_moved _ _ _ _ _ _ _ _ Hw1 H2') as [Hw2 _].
        eapply reached_finished; [done|]. naive_solver.
  - eapply reached_finished; [by eapply reached_log|]. naive_solver.
Qed.

(** Evidence appended on the way out changes nothing. *)
Lemma wp_evidence_last s0 id i k x evs (w0 w : World) :
  in_doubt s0 = true → reached id CommitUnknown evs w0 w →
  wp (from_journal (evidence_call i k x)) (finished_run s0 id w0) w.
Proof.
  intros Hs Hw. wp_step. apply wp_evidence. intros r w1 H1'.
  eapply reached_finished; [by eapply reached_log|]. naive_solver.
Qed.

Lemma wp_commit_tail s0 op m k x evs (w0 w : World) :
  in_doubt s0 = true → reached (op_id op) CommitUnknown evs w0 w →
  EProbe (Ok (ProbeCommitted m)) ∈ evs →
  let meta := recovered_meta b_has_exact_version_recovery m in
  wp (_ ← delete_versions op (version_id meta) (superseded_version_ids meta);
      _ ← from_journal (evidence_call (op_id op) k x);
      from_journal (transition_call (op_id op) CommitUnknown Committed (Some meta)))
    (finished_run s0 (op_id op) w0) w.
Proof.
  intros Hs Hw Hm meta.
  assert (version_id meta = version_id m ∧ superseded_version_ids meta = superseded_version_ids m)
    as [Hv Hsup] by (subst meta; unfold recovered_meta; by case_match).
  rewrite Hv, Hsup. wp_step. apply wp_delete_versions. intros [[]|e] w1 e1 H1' Hdel;
    [|eapply reached_finished; [by eapply reached_log|]; naive_solver].
  pose proof (reached_log _ _ _ _ _ _ _ Hw H1') as Hw1. repeat wp_step. apply wp_evidence.
  intros [[]|e] w2 H2'; simpl; [|eapply reached_finished; [by eapply reached_log|]; naive_solver].
  pose proof (reached_log _ _ _ _ _ _ _ Hw1 H2') as Hw2. rewrite app_nil_r in Hw2.
  assert (∀ c, c = Some meta →
    proven_committed b_has_exact_version_recovery (evs ++ e1) c) as Hpc.
  { intros c ->. destruct (Hdel eq_refl) as [Hd Hn]. exists m. split_and!; [set_solver|done| |done].
    eapply Forall_impl; [done|set_solver]. }
  wp_step. apply wp_transition.
  - intros w3 H3'. destruct (reached_moved _ _ _ _ _ _ _ _ Hw2 H3') as [Hw3 Hc].
    eapply reached_finished; [done|]. naive_solver.
  - intros e w3 [H3'|H3'];
      [eapply reached_finished; [by eapply reached_log|]; naive_solver|].
    destruct (reached_moved _ _ _ _ _ _ _ _ Hw2 H3') as [Hw3 Hc].
    eapply reached_finished; [done|]. naive_solver.
Qed.

Lemma wp_absent_tail s0 op evs (w0 w : World) :
  in_doubt s0 = true → reached (op_id op) CommitUnknown evs w0 w →
  EProbe (Ok ProvenAbsentExact) ∈ evs → EConfirm (Ok true) ∈ evs →
  wp (_ ← abort_discovered op;
      _ ← from_journal (evidence_call (op_id op) "completion_exactly_absent" (JObj []));
      from_journal (transition_call (op_id op) CommitUnknown ProvenAborted None))
    (finished_run s0 (op_id op) w0) w.
Proof.
  intros Hs Hw Hp Hc. wp_step. apply wp_abort_discovered. intros [[]|e] w1 e1 H1' Hup;
    [|eapply reached_finished; [by eapply reached_log|]; naive_solver].
  pose proof (reached_log _ _ _ _ _ _ _ Hw H1') as Hw1. repeat wp_step. apply wp_evidence.
  intros [[]|e] w2 H2'; simpl; [|eapply reached_finished; [by eapply reached_log|]; naive_solver].
  pose proof (reached_log _ _ _ _ _ _ _ Hw1 H2') as Hw2. rewrite app_nil_r in Hw2.
  assert (proven_absent (evs ++ e1)) as Habs.
  { split_and!; [set_solver|set_solver|]. destruct (Hup eq_refl) as (us & ? & ?). exists us.
    split; [set_solver|]. eapply Forall_impl; [done|set_solver]. }
  wp_step. apply wp_transition.
  - intros w3 H3'. destruct (reached_moved _ _ _ _ _ _ _ _ Hw2 H3') as [Hw3 _].
    eapply reached_finished; [done|]. naive_solver.
  - intros e w3 [H3'|H3'];
      [eapply reached_finished; [by eapply reached_log|]; naive_solver|].
    destruct (reached_moved _ _ _ _ _ _ _ _ Hw2 H3') as [Hw3 _].
    eapply reached_finished; [done|]. naive_solver.
Qed.

Lemma wp_reconcile_unknown s0 op evs (w0 w : World) :
  in_doubt s0 = true → reached (op_id op) CommitUnknown evs w0 w →
  wp (reconcile_unknown op) (finished_run s0 (op_id op) w0) w.
Proof.
  intros Hs Hw. unfold reconcile_unknown. repeat wp_step. apply wp_backend_log.
  intros [p|e] w1 H1'; simpl;
    [|eapply reached_finished; [by eapply reached_log|]; naive_solver].
  pose proof (reached_log _ _ _ _ _ _ _ Hw H1') as Hw1. destruct p as [m| | |].
  - apply (wp_commit_tail s0 op m _ _ _ w0 w1 Hs Hw1). set_solver.
  - by eapply wp_evidence_last.
  - wp_step. apply wp_clock. intros t w2 H2'.
    pose proof (reached_log _ _ _ _ _ _ _ Hw1 H2') as Hw2. repeat wp_step. apply wp_confirm.
    intros [[]|e] w3 H3'; simpl;
      pose proof (reached_log _ _ _ _ _ _ _ Hw2 H3') as Hw3.
    + eapply wp_absent_tail; [done|done|set_solver..].
    + by eapply wp_evidence_last.
    + eapply reached_finished; [done|]. naive_solver.
  - wp_step. eapply reached_finished; [done|]. naive_solver.
Qed.

(** A transition in the middle of a run: it stops there or has moved the row. *)
Lemma wp_transition_step s0 op from to evs (k : unit → M Reconciler J B unit) (w0 w : World) :
  reached (op_id op) from evs w0 w →
  (∀ w', reached (op_id op) to evs w0 w' → wp (k tt) (finished_run s0 (op_id op) w0) w') →
  from = s0 → (to = Aborting ∧ before_completion s0 = true ∨ to = CommitUnknown ∧ in_doubt s0 = true) →
  wp (from_journal (transition_call (op_id op) from to None) ≫= k) (finished_run s0 (op_id op) w0) w.
Proof.
  intros Hw Hk -> Hto. repeat wp_step. apply wp_transition.
  - intros w1 H1'. apply Hk. by destruct (reached_moved _ _ _ _ _ _ _ _ Hw H1').
  - intros e w1 [H1'|H1']; simpl.
    + eapply reached_finished; [by eapply reached_log|]. naive_solver.
    + destruct (reached_moved _ _ _ _ _ _ _ _ Hw H1') as [Hw1 _].
      eapply reached_finished; [done|]. naive_solver.
Qed.

(** The abort path of OPEN and ABORTING operations. *)
Lemma wp_abort_open s0 op evs (w0 w : World) :
  before_completion s0 = true → reached (op_id op) Aborting evs w0 w →
  wp (_ ← (match op_upload_id op with
           | Some upload_id =>
             from_backend (backend_call (EAbort upload_id) (b_abort_multipart op upload_id))
           | None => mret tt
           end);
      _ ← abort_discovered op;
      from_journal (transition_call (op_id op) Aborting ProvenAborted None))
    (finished_run s0 (op_id op) w0) w.
Proof.
  intros Hs Hw. wp_step. destruct (op_upload_id op) as [u|].
  - wp_step. apply wp_backend_log. intros [[]|e] w1 H1'; simpl.
    + eapply wp_abort_tail; [done|by eapply reached_log|done].
    + eapply reached_finished; [by eapply reached_log|]. naive_solver.
  - wp_step. by eapply wp_abort_tail.
Qed.

Lemma wp_reconcile op (w : World) :
  j_state (journal w) (op_id op) = Some (op_state op) →
  wp (reconcile op) (finished_run (op_state op) (op_id op) w) w.
Proof.
  intros Hst. unfold reconcile. repeat wp_step. apply wp_evidence. intros [[]|e] w1 H1'; simpl.
  - assert (reached (op_id op) (op_state op) [] w w1) as Hw.
    { destruct H1' as (Ha & Hb & _ & Hc). split_and!; auto; by destruct (Hc (op_id op)) as [-> _]. }
    destruct (op_state op) eqn:Es; simpl.
    + eapply wp_transition_step; [done| |done|naive_solver]. intros w2 Hw2. by eapply wp_abort_tail.
    + eapply wp_transition_step; [done| |done|naive_solver].
      intros w2 Hw2. by eapply wp_abort_open.
    + eapply wp_transition_step; [done| |done|naive_solver]. intros w2 Hw2.
      by eapply wp_reconcile_unknown.
    + by eapply wp_reconcile_unknown.
    + wp_step. eapply reached_finished; [done|]. naive_solver.
    + wp_step. wp_step. by eapply wp_abort_open.
    + wp_step. eapply reached_finished; [done|]. left. split; [done|]. by right.
  - assert (reached (op_id op) (op_state op) [] w w1) as Hw.
    { destruct H1' as (Ha & Hb & _ & Hc). split_and!; auto; by destruct (Hc (op_id op)) as [-> _]. }
    eapply reached_finished; [done|]. left. split; [done|]. by left.
Qed.

(** C2: the reconciler never guesses.  Whatever the provider answers and
    whichever journal writes fail or lose their reply, an operation it takes
    over ends COMMITTED only if its completion was in doubt, a probe found the
    object and every superseded version was deleted, with the probe's metadata
    recorded; it ends PROVEN_ABORTED only if completion had not begun and every
    discovered upload was aborted, or if a probe proved exact absence and the
    journal confirmed it a second time; every other row keeps its state. *)
Theorem reconcile_outcome op (w : World) r w' :
  j_state (journal w) (op_id op) = Some (op_state op) →
  reconcile op w = (r, w') → finished_run (op_state op) (op_id op) w r w'.
Proof. intros Hst Hr. pose proof (wp_reconcile op w Hst) as Hwp. unfold wp in Hwp. by rewrite Hr in Hwp. Qed.

(** [reconcile_operation] reports [false] and changes nothing for an
    operation it could not claim; an operation that is COMMITTED or
    PROVEN_ABORTED is never claimed, so it keeps its state and metadata. *)
Theorem reconcile_operation_terminal id stale s (w : World) r w' :
  j_wf (journal w) → j_state (journal w) id = Some s → is_terminal s = true →
  reconcile_operation id stale w = (r, w') →
  (r = Ok false ∨ is_ok r = false) ∧ log w' = log w ∧ same_rows j_wf j_state j_committed (journal w) (journal w').
Proof.
  intros Hwf Hst Ht Hrun.
  unfold reconcile_operation, mbind, SE_bind, unix_time_ms, get_self, from_journal, journal_call in Hrun.
  simpl in Hrun.
  destruct (j_claim_reconcilable_operation _ _ _ _ _ _) as [[[op|]|e] j] eqn:E; simpl in Hrun.
  - exfalso. apply claim_read in E as (_ & _ & Hs & Hn); [|done]. congruence.
  - apply claim_state in E. unfold mret, SE_ret in Hrun. simplify_eq. auto.
  - apply claim_state in E. simplify_eq. auto.
Qed.
End outcomes.

(** An operation in doubt, whose object a probe finds. *)
Definition ex_world (p : CompletionProbe) (cs : list command) : World Reconciler MemJournal Script :=
  mkWorld (mkReconciler "r" 30000 5000) (exec_all mem_new cs) (mkScript [] (Ok p))
    (λ n, 90000 + Z.of_nat n) N.of_nat 0 [].

Definition ex_claimed : OperationRecord :=
  op_with_absence 80000 80000 (op_with_transition 104 CommitUnknown None
    (op_with_launch 103 75103 (op_with_transition 102 Completing None (op_with_open 101 None ex_op)))).

#[local] Existing Instance scripted_backend.

Lemma reconcile_outcome_witness :
  let w := ex_world (ProbeCommitted ex_meta) ex_absence in
  j_state (journal (reconcile ex_claimed w).2) 7%N = Some Committed ∧
  finished_run CommitUnknown 7 w (reconcile ex_claimed w).1 (reconcile ex_claimed w).2.
Proof.
  split; [by vm_compute|].
  apply (reconcile_outcome ex_claimed (ex_world (ProbeCommitted ex_meta) ex_absence));
    [by vm_compute|]. by destruct (reconcile _ _).
Defined.

Lemma reconcile_operation_terminal_witness :
  let w := ex_world ProvenAbsentExact ex_commit in
  (reconcile_operation 7 10 w).1 = Ok false ∧ log (reconcile_operation 7 10 w).2 = [].
Proof.
  split; [by vm_compute|].
  apply (reconcile_operation_terminal 7 10 Committed (ex_world ProvenAbsentExact ex_commit)
    (reconcile_operation 7 10 (ex_world ProvenAbsentExact ex_commit)).1).
  - apply exec_all_keyed, mem_new_keyed.
  - by vm_compute.
  - done.
  - by destruct (reconcile_operation _ _ _).
Defined.
