(* ===== verification/DirectSink.v ===== *)
(** * The direct S3 sink

    [DirectS3Sink] of [crates/gateway/src/transaction/s3.rs]: it buffers
    written bytes into parts, uploads them, and publishes the object with one
    PUT or a multipart completion, recording each step in the operation
    journal before it calls the provider. *)

From S2P Require Import Prelude Operation Journal MemJournal Transaction Reconciler.

#[local] Open Scope Z_scope.
Set Default Goal Selector "!".

(** The fields of [DirectS3Sink] beside the journal, the backend and the abort
    signal.  [hashed] is what has been fed to [output_hasher]. *)
Record Sink := mkSink {
  operation : OperationRecord;
  buffer : list byte;
  upload_id : option string;
  uploaded : list UploadedPart;
  max_attempts : nat;
  hashed : list byte;
  output_bytes : Z;
  output_verified : bool;
  finished : bool;
  mutation_ambiguity_window : Z;
  absence_confirmation_delay : Z;
}.

(** ** Field updates *)

Definition op_set_state (s : OperationState) (o : OperationRecord) : OperationRecord :=
  {| op_id := op_id o; op_state := s; op_destination := op_destination o;
     op_tenant_id := op_tenant_id o; op_namespace_epoch := op_namespace_epoch o;
     op_expected := op_expected o; op_upload_id := op_upload_id o;
     op_committed := op_committed o; op_lease_owner := op_lease_owner o;
     op_lease_expires_at_ms := op_lease_expires_at_ms o;
     op_mutation_not_before_ms := op_mutation_not_before_ms o;
     op_exact_absence_observed_at_ms := op_exact_absence_observed_at_ms o;
     op_created_at_ms := op_created_at_ms o; op_updated_at_ms := op_updated_at_ms o |}.

Definition op_set_upload (u : option string) (o : OperationRecord) : OperationRecord :=
  {| op_id := op_id o; op_state := op_state o; op_destination := op_destination o;
     op_tenant_id := op_tenant_id o; op_namespace_epoch := op_namespace_epoch o;
     op_expected := op_expected o; op_upload_id := u;
     op_committed := op_committed o; op_lease_owner := op_lease_owner o;
     op_lease_expires_at_ms := op_lease_expires_at_ms o;
     op_mutation_not_before_ms := op_mutation_not_before_ms o;
     op_exact_absence_observed_at_ms := op_exact_absence_observed_at_ms o;
     op_created_at_ms := op_created_at_ms o; op_updated_at_ms := op_updated_at_ms o |}.

Definition op_set_committed (c : option StoredObjectMeta) (o : OperationRecord) : OperationRecord :=
  {| op_id := op_id o; op_state := op_state o; op_destination := op_destination o;
     op_tenant_id := op_tenant_id o; op_namespace_epoch := op_namespace_epoch o;
     op_expected := op_expected o; op_upload_id := op_upload_id o;
     op_committed := c; op_lease_owner := op_lease_owner o;
     op_lease_expires_at_ms := op_lease_expires_at_ms o;
     op_mutation_not_before_ms := op_mutation_not_before_ms o;
     op_exact_absence_observed_at_ms := op_exact_absence_observed_at_ms o;
     op_created_at_ms := op_created_at_ms o; op_updated_at_ms := op_updated_at_ms o |}.

Definition op_set_expected (x : ExpectedObject) (o : OperationRecord) : OperationRecord :=
  {| op_id := op_id o; op_state := op_state o; op_destination := op_destination o;
     op_tenant_id := op_tenant_id o; op_namespace_epoch := op_namespace_epoch o;
     op_expected := x; op_upload_id := op_upload_id o;
     op_committed := op_committed o; op_lease_owner := op_lease_owner o;
     op_lease_expires_at_ms := op_lease_expires_at_ms o;
     op_mutation_not_before_ms := op_mutation_not_before_ms o;
     op_exact_absence_observed_at_ms := op_exact_absence_observed_at_ms o;
     op_created_at_ms := op_created_at_ms o; op_updated_at_ms := op_updated_at_ms o |}.

Definition sk_operation (f : OperationRecord → OperationRecord) (s : Sink) : Sink :=
  mkSink (f (operation s)) (buffer s) (upload_id s) (uploaded s) (max_attempts s) (hashed s)
    (output_bytes s) (output_verified s) (finished s) (mutation_ambiguity_window s)
    (absence_confirmation_delay s).
Definition sk_buffer (b : list byte) (s : Sink) : Sink :=
  mkSink (operation s) b (upload_id s) (uploaded s) (max_attempts s) (hashed s)
    (output_bytes s) (output_verified s) (finished s) (mutation_ambiguity_window s)
    (absence_confirmation_delay s).
Definition sk_upload (u : option string) (s : Sink) : Sink :=
  mkSink (operation s) (buffer s) u (uploaded s) (max_attempts s) (hashed s)
    (output_bytes s) (output_verified s) (finished s) (mutation_ambiguity_window s)
    (absence_confirmation_delay s).
Definition sk_push_part (p : UploadedPart) (s : Sink) : Sink :=
  mkSink (operation s) (buffer s) (upload_id s) (uploaded s ++ [p]) (max_attempts s) (hashed s)
    (output_bytes s) (output_verified s) (finished s) (mutation_ambiguity_window s)
    (absence_confirmation_delay s).
Definition sk_hash (chunk : list byte) (total : Z) (s : Sink) : Sink :=
  mkSink (operation s) (buffer s) (upload_id s) (uploaded s) (max_attempts s) (hashed s ++ chunk)
    total false (finished s) (mutation_ambiguity_window s) (absence_confirmation_delay s).
Definition sk_verified (b : bool) (s : Sink) : Sink :=
  mkSink (operation s) (buffer s) (upload_id s) (uploaded s) (max_attempts s) (hashed s)
    (output_bytes s) b (finished s) (mutation_ambiguity_window s) (absence_confirmation_delay s).
Definition sk_finished (s : Sink) : Sink :=
  mkSink (operation s) (buffer s) (upload_id s) (uploaded s) (max_attempts s) (hashed s)
    (output_bytes s) (output_verified s) true (mutation_ambiguity_window s)
    (absence_confirmation_delay s).

Definition debug_kind (k : BackendErrorKind) : string :=
  match k with Definitive => "Definitive" | Ambiguous => "Ambiguous" end.

Section sink.
Context {J B : Type} `{OperationJournal J} `{TransactionBackend B}.
(** [sha256_hex] of [crates/gateway/src/transaction/mod.rs] over the [sha2] crate. *)
Context (sha256_hex : list byte → string).
(** [DIRECT_PART_BYTES]. *)
Context (part_bytes : nat).
Abbreviation M := (M Sink J B).

(** [DirectS3Sink::from_operation]; [new], [new_scoped] and [new_direct] pass
    [insert_intent = true], [new_direct_admitted] passes [false]. *)
Definition from_operation (op : OperationRecord) (attempts : nat) (insert_intent : bool)
    : Transaction.M unit J B Sink :=
  _ ← se_lift (map_err TCapability (streaming_eligibility b_capabilities));
  _ ← (if insert_intent then from_journal (journal_call (λ _, j_insert_intent op)) else mret tt);
  mret (mkSink op [] None [] (Nat.max attempts 1) [] 0 false false
          PROVIDER_MUTATION_AMBIGUITY_WINDOW EXACT_ABSENCE_CONFIRMATION_DELAY).

Definition evidence (kind : string) (detail : Json) : M unit :=
  this ← get_self;
  from_journal (evidence_call (op_id (operation this)) kind detail).

Definition record_mutation_launch : M unit :=
  this ← get_self;
  now ← unix_time_ms;
  from_journal (launch_call (op_id (operation this))
    (i64_saturating_add now (duration_ms (mutation_ambiguity_window this)))).

Definition transition (from to : OperationState) (c : option StoredObjectMeta) : M unit :=
  this ← get_self;
  from_journal (transition_call (op_id (operation this)) from to c).

Definition set_state (s : OperationState) : M unit := modify_self (sk_operation (op_set_state s)).

Fixpoint delete_each (authoritative : option string) (ids : list string) : M unit :=
  match ids with
  | [] => mret tt
  | version_id :: ids =>
    if decide (authoritative = Some version_id) then
      se_throw (TJournal (Corrupt "authoritative provider version was listed as redundant"))
    else
      this ← get_self;
      _ ← from_backend (backend_call (EDelete version_id)
            (b_delete_object_version (operation this) version_id));
      delete_each authoritative ids
  end.

Definition delete_redundant_versions (meta : StoredObjectMeta) : M unit :=
  delete_each (version_id meta) (superseded_version_ids meta).

Definition ensure_multipart : M unit :=
  this ← get_self;
  match upload_id this with
  | Some _ => mret tt
  | None =>
    _ ← evidence "create_multipart_before" (JObj []);
    _ ← record_mutation_launch;
    created ← try_call (backend_call ECreate (b_create_multipart (operation this)));
    match created with
    | Err error =>
      _ ← evidence "create_multipart_unknown" (JObj [("kind", JStr (debug_kind (be_kind error)))]);
      se_throw (TBackend error)
    | Ok id =>
      _ ← from_journal (journal_call (λ now, j_set_open now (op_id (operation this)) (Some id)));
      _ ← modify_self (λ s, sk_upload (Some id)
            (sk_operation (λ o, op_set_upload (Some id) (op_set_state Open o)) s));
      evidence "create_multipart_after" (JObj [("upload_id_recorded", JBool true)])
    end
  end.

(** The retry loop of [upload_buffered_part]; [attempt] counts from 1. *)
Fixpoint upload_attempts (upload : string) (number : Z) (body : list byte)
    (remaining attempt : nat) (prior_ambiguous : bool) (last_error : option BackendError) : M unit :=
  match remaining with
  | O => se_throw (TBackend (default (ambiguous "upload part retry budget exhausted") last_error))
  | S remaining =>
    _ ← evidence "upload_part_before"
          (JObj [("part_number", JNum number); ("attempt", JNum (Z.of_nat attempt));
                 ("digest", JStr (sha256_hex body))]);
    _ ← record_mutation_launch;
    this ← get_self;
    sent ← try_call (backend_call (EUpload upload number body)
             (b_upload_part (operation this) upload number body));
    match sent with
    | Ok etag =>
      now ← unix_time_ms;
      _ ← from_journal (journal_call (λ _, j_record_part (mkPart (op_id (operation this)) number etag
            (Z.of_nat (length body)) (sha256_hex body) now)));
      _ ← evidence "upload_part_after"
            (JObj [("part_number", JNum number); ("attempt", JNum (Z.of_nat attempt))]);
      modify_self (sk_push_part (mkUploaded number etag))
    | Err error =>
      let definitive := bool_decide (be_kind error = Definitive) && negb prior_ambiguous in
      if definitive then se_throw (TBackend error)
      else upload_attempts upload number body remaining (S attempt) true (Some error)
    end
  end.

Definition upload_buffered_part (body : list byte) : M unit :=
  this ← get_self;
  match upload_id this with
  | None => se_throw (TBackend (definitive "multipart upload is not open"))
  | Some upload =>
    let number := Z.of_nat (length (uploaded this) + 1) in
    if (i32_max <? number) || (10000 <? number) then se_throw TTooManyParts
    else upload_attempts upload number body (max_attempts this) 1 false None
  end.

Definition mark_commit_unknown : M unit :=
  _ ← transition Completing CommitUnknown None;
  _ ← set_state CommitUnknown;
  evidence "completion_unknown" (JObj []).

Definition version_evidence (meta : StoredObjectMeta) (last : string * Json) : M unit :=
  evidence (history_evidence_kind meta)
    (JObj [("version_id", json_opt (version_id meta));
           ("superseded_version_ids", json_strings (superseded_version_ids meta)); last]).

(** The [match self.backend.probe_completion(..)] of [reconcile_completion]: the
    record with its new state, and [false] where the method returns early. *)
Definition settle_probe (delay : Z) (op : OperationRecord) : M (OperationRecord * bool) :=
  probe ← from_backend (backend_call EProbe (b_probe_completion op));
  match probe with
  | ProbeCommitted meta =>
    let meta := if negb b_has_exact_version_recovery then history_incomplete meta else meta in
    _ ← delete_redundant_versions meta;
    _ ← version_evidence meta ("reconciled", JBool true);
    _ ← from_journal (transition_call (op_id op) CommitUnknown Committed (Some meta));
    mret (op_set_committed (Some meta) (op_set_state Committed op), true)
  | ProvenAbsentExact =>
    now ← unix_time_ms;
    confirmed ← from_journal (confirm_call (op_id op) now (duration_ms delay));
    if negb confirmed then mret (op, false)
    else
      _ ← from_journal (transition_call (op_id op) CommitUnknown ProvenAborted None);
      mret (op_set_state ProvenAborted op, true)
  | ProvenAbsent | Inconclusive => mret (op, true)
  end.

(** [self.operation = operation] and the result. *)
Definition install_operation (op : OperationRecord) (go_on : bool) : M (option StoredObjectMeta) :=
  _ ← modify_self (sk_operation (λ _, op));
  if negb go_on then mret None
  else if decide (op_state op = Committed) then
    se_lift (Some <$> ok_or (op_committed op)
      (TJournal (Corrupt "committed operation has no destination metadata")))
  else mret None.

(** [reconcile_completion] works on the record it reads back and installs it
    as [self.operation] at the end. *)
Definition reconcile_completion : M (option StoredObjectMeta) :=
  this ← get_self;
  found ← from_journal (journal_call (λ _, j_get (op_id (operation this))));
  op ← se_lift (ok_or found (TJournal (NotFound (op_id (operation this)))));
  op ← (if decide (op_state op = Completing) then
          _ ← from_journal (transition_call (op_id op) Completing CommitUnknown None);
          mret (op_set_state CommitUnknown op)
        else mret op);
  finish ← (if decide (op_state op = CommitUnknown)
            then settle_probe (absence_confirmation_delay this) op
            else mret (op, true));
  install_operation (fst finish) (snd finish).

Fixpoint abort_each (uploads : list DiscoveredUpload) : M unit :=
  match uploads with
  | [] => mret tt
  | upload :: uploads =>
    let detail := JObj [("upload_id", JStr (du_upload_id upload))] in
    _ ← evidence "abort_discovered_before" detail;
    this ← get_self;
    _ ← from_backend (backend_call (EAbort (du_upload_id upload))
          (b_abort_multipart (operation this) (du_upload_id upload)));
    _ ← evidence "abort_discovered_after" detail;
    abort_each uploads
  end.

Definition abort_discovered : M unit :=
  this ← get_self;
  uploads ← from_backend (backend_call EDiscover (b_discover_incomplete (operation this)));
  abort_each uploads.

(** The [Ok(meta)] arm that the two completion loops share but for the name of
    their last evidence record. *)
Definition publish (attempt : nat) (meta : StoredObjectMeta) (after : string) : M StoredObjectMeta :=
  let meta := if (1 <? Z.of_nat attempt) && negb b_has_exact_version_recovery
              then history_incomplete meta else meta in
  _ ← delete_redundant_versions meta;
  this ← get_self;
  moved ← try_call (transition_call (op_id (operation this)) Completing Committed (Some meta));
  match moved with
  | Err error =>
    recovered ← try_call reconcile_completion;
    match recovered with
    | Ok (Some recovered) => mret recovered
    | _ => se_throw (TJournal error)
    end
  | Ok _ =>
    _ ← set_state Committed;
    _ ← try_call (version_evidence meta ("attempt", JNum (Z.of_nat attempt)));
    _ ← try_call (evidence after (JObj [("attempt", JNum (Z.of_nat attempt))]));
    mret meta
  end.

(** The evidence of a failed attempt; its own failure is ignored. *)
Definition attempt_failed (prefix : string) (definitive : bool) (attempt : nat) (error : BackendError)
    : M unit :=
  _ ← try_call (evidence (prefix +:+ (if definitive then "_attempt_definitive" else "_attempt_ambiguous"))
        (JObj [("attempt", JNum (Z.of_nat attempt)); ("kind", JStr (debug_kind (be_kind error)))]));
  mret tt.

(** After the retry budget: the outcome is unknown, unless a probe settles it. *)
Definition settle_unknown (error : BackendError) : M StoredObjectMeta :=
  _ ← mark_commit_unknown;
  recovered ← reconcile_completion;
  match recovered with
  | Some recovered => mret recovered
  | None => se_throw (TBackend error)
  end.

Fixpoint put_attempts (body : list byte) (remaining attempt : nat) (prior_ambiguous : bool)
    (last_error : option BackendError) : M StoredObjectMeta :=
  match remaining with
  | O => settle_unknown (default (ambiguous "PUT retry budget exhausted") last_error)
  | S remaining =>
    _ ← evidence "put_object_before"
          (JObj [("attempt", JNum (Z.of_nat attempt)); ("digest", JStr (sha256_hex body));
                 ("size", JNum (Z.of_nat (length body)))]);
    _ ← record_mutation_launch;
    this ← get_self;
    sent ← try_call (backend_call (EPut body) (b_put_object (operation this) body));
    match sent with
    | Ok meta => publish attempt meta "put_object_after"
    | Err error =>
      let definitive := bool_decide (be_kind error = Definitive) && negb prior_ambiguous in
      _ ← attempt_failed "put_object" definitive attempt error;
      if definitive then
        _ ← transition Completing ProvenAborted None;
        _ ← set_state ProvenAborted;
        _ ← modify_self sk_finished;
        se_throw (TBackend error)
      else put_attempts body remaining (S attempt) true (Some error)
    end
  end.

Definition complete_single_put : M StoredObjectMeta :=
  this ← get_self;
  _ ← from_journal (journal_call (λ now, j_set_open now (op_id (operation this)) None));
  _ ← set_state Open;
  _ ← transition Open Completing None;
  _ ← set_state Completing;
  let body := buffer this in
  _ ← modify_self (sk_buffer []);
  put_attempts body (max_attempts this) 1 false None.

Fixpoint complete_attempts (upload : string) (remaining attempt : nat) (prior_ambiguous : bool)
    (last_error : option BackendError) : M StoredObjectMeta :=
  match remaining with
  | O => settle_unknown (default (ambiguous "complete retry budget exhausted") last_error)
  | S remaining =>
    this ← get_self;
    _ ← evidence "complete_multipart_before"
          (JObj [("attempt", JNum (Z.of_nat attempt));
                 ("part_count", JNum (Z.of_nat (length (uploaded this))))]);
    _ ← record_mutation_launch;
    sent ← try_call (backend_call (EComplete upload (uploaded this))
             (b_complete_multipart (operation this) upload (uploaded this)));
    match sent with
    | Ok meta => publish attempt meta "complete_multipart_after"
    | Err error =>
      let definitive := bool_decide (be_kind error = Definitive) && negb prior_ambiguous in
      _ ← attempt_failed "complete_multipart" definitive attempt error;
      if definitive then
        _ ← from_backend (backend_call (EAbort upload) (b_abort_multipart (operation this) upload));
        _ ← abort_discovered;
        _ ← transition Completing ProvenAborted None;
        _ ← set_state ProvenAborted;
        _ ← modify_self sk_finished;
        se_throw (TBackend error)
      else complete_attempts upload remaining (S attempt) true (Some error)
    end
  end.

(** [expect("multipart completion requires upload ID")] cannot fire:
    [complete] calls this only when there is one. *)
Definition complete_multipart : M StoredObjectMeta :=
  this ← get_self;
  _ ← (if decide (buffer this = []) then mret tt
       else _ ← modify_self (sk_buffer []); upload_buffered_part (buffer this));
  _ ← transition Open Completing None;
  _ ← set_state Completing;
  this ← get_self;
  match upload_id this with
  | Some upload => complete_attempts upload (max_attempts this) 1 false None
  | None => se_throw TFinished
  end.

(** ** [impl ObjectSinkTransaction for DirectS3Sink] *)

Definition commit_state (s : Sink) : SinkCommitState :=
  match op_state (operation s) with
  | Completing | CommitUnknown => SinkCommitUnknown
  | Committed => SinkCommitted
  | Intent | Open | Aborting | ProvenAborted => PreCommit
  end.

(** [while !chunk.is_empty()]; [fuel] bounds the iterations. *)
Fixpoint write_loop (fuel : nat) (chunk : list byte) : M unit :=
  match fuel with
  | O => mret tt
  | S fuel =>
    match chunk with
    | [] => mret tt
    | _ =>
      this ← get_self;
      let available := (part_bytes - length (buffer this))%nat in
      let copied := Nat.min available (length chunk) in
      let buffered := buffer this ++ take copied chunk in
      let chunk := drop copied chunk in
      _ ← modify_self (sk_buffer buffered);
      _ ← (if decide (length buffered = part_bytes ∧ chunk ≠ []) then
             _ ← ensure_multipart;
             _ ← modify_self (sk_buffer []);
             upload_buffered_part buffered
           else if decide (length buffered = part_bytes ∧ is_Some (upload_id this)) then
             _ ← modify_self (sk_buffer []);
             upload_buffered_part buffered
           else mret tt);
      write_loop fuel chunk
    end
  end.

Definition write (chunk : list byte) : M unit :=
  this ← get_self;
  if finished this then se_throw TFinished
  else
    total ← se_lift (ok_or (u64_checked_add (output_bytes this) (Z.of_nat (length chunk)))
              TOutputMismatch);
    _ ← modify_self (sk_hash chunk total);
    write_loop (S (length chunk)) chunk.

Definition verify_output (expected_size : Z) (expected_sha256 : string) : M unit :=
  this ← get_self;
  let actual_digest := sha256_hex (hashed this) in
  if negb (output_bytes this =? expected_size) || negb (bool_decide (actual_digest = expected_sha256))
  then se_throw TOutputMismatch
  else
    let expected := mkExpected (Some actual_digest) (Some expected_size)
                      (exp_metadata (op_expected (operation this))) in
    _ ← modify_self (sk_operation (op_set_expected expected));
    _ ← from_journal (journal_call (λ now, j_set_expected now (op_id (operation this)) expected));
    modify_self (sk_verified true).

Definition complete : M StoredObjectMeta :=
  this ← get_self;
  if finished this then se_throw TFinished
  else if negb (output_verified this) then se_throw TOutputMismatch
  else
    result ← try_call (match upload_id this with
                       | Some _ => complete_multipart
                       | None => complete_single_put
                       end);
    match result with
    | Ok meta => _ ← modify_self sk_finished; mret meta
    | Err error => se_throw error
    end.

(** The part of [abort] after the journal says ABORTING. *)
Definition abort_rest : M unit :=
  _ ← set_state Aborting;
  this ← get_self;
  _ ← (match upload_id this with
       | Some upload =>
         _ ← evidence "abort_multipart_before" (JObj []);
         _ ← from_backend (backend_call (EAbort upload) (b_abort_multipart (operation this) upload));
         evidence "abort_multipart_after" (JObj [])
       | None => mret tt
       end);
  _ ← abort_discovered;
  _ ← transition Aborting ProvenAborted None;
  _ ← set_state ProvenAborted;
  modify_self sk_finished.

Definition abort : M unit :=
  this ← get_self;
  if finished this then mret tt
  else match op_state (operation this) with
  | Intent => _ ← transition Intent Aborting None; abort_rest
  | Open => _ ← transition Open Aborting None; abort_rest
  | Aborting => abort_rest
  | Completing | CommitUnknown => se_throw TCompletionAmbiguous
  | Committed | ProvenAborted => modify_self sk_finished
  end.

(** ** Calls on a sink *)

Inductive call : Type :=
| CallWrite (chunk : list byte)
| CallVerify (size : Z) (sha256 : string)
| CallComplete
| CallAbort.

Definition run_call (c : call) (w : World Sink J B) : World Sink J B :=
  match c with
  | CallWrite chunk => (write chunk w).2
  | CallVerify size sha256 => (verify_output size sha256 w).2
  | CallComplete => (complete w).2
  | CallAbort => (abort w).2
  end.

Definition run_calls (cs : list call) (w : World Sink J B) : World Sink J B :=
  foldl (λ w c, run_call c w) w cs.
End sink.
