(* ===== verification/SinkSafety.v ===== *)
(** * What the direct sink may claim

    The safety of [DirectSink] against every journal that satisfies
    [JournalLaws] and every provider: whatever calls are made on a sink, and
    whatever the journal and the provider answer, the journal says COMMITTED
    or PROVEN_ABORTED only with the provider's word for it. *)

From S2P Require Import Prelude Operation Journal MemJournal Transaction Reconciler DirectSink.

#[local] Open Scope Z_scope.
Set Default Goal Selector "!".

(** ** What the log of provider calls shows *)

Definition no_commit (l : list event) : Prop := Forall (λ e, commit_attempt e = None) l.

(** Every attempt to publish was refused with a definitive error. *)
Definition all_definitive (l : list event) : Prop :=
  ∀ e r, e ∈ l → commit_attempt e = Some r → ∃ x, r = Err x ∧ be_kind x = Definitive.

Definition abort_justified (l : list event) : Prop :=
  all_definitive l ∨ (EProbe (Ok ProvenAbsentExact) ∈ l ∧ EConfirm (Ok true) ∈ l).

(** The provider reported the object published with metadata [m]. *)
Definition published (l : list event) (m : StoredObjectMeta) : Prop :=
  ∃ e, e ∈ l ∧ (commit_attempt e = Some (Ok m) ∨ e = EProbe (Ok (ProbeCommitted m))).

Definition commit_justified (l : list event) (c : option StoredObjectMeta) : Prop :=
  ∃ m, published l m ∧ (c = Some m ∨ c = Some (history_incomplete m)) ∧
    Forall (λ v, EDelete v (Ok tt) ∈ l) (superseded_version_ids m).

(** Every call that changes the provider's state comes right after a launch
    recorded in the journal. *)
Definition fenced (l : list event) : Prop :=
  ∀ a e b, l = a ++ e :: b → is_mutation e = true → ∃ a', a = a' ++ [ELaunch (Ok tt)].

(** The state in memory never lags behind the journal by more than a call
    whose reply was lost. *)
Definition local_rel (s js : OperationState) : bool :=
  match s, js with
  | Intent, (Intent | Open | Completing | Aborting) => true
  | Open, (Open | Completing | Aborting) => true
  | Completing, (Completing | CommitUnknown | Committed | ProvenAborted) => true
  | CommitUnknown, (CommitUnknown | Committed | ProvenAborted) => true
  | Aborting, (Aborting | ProvenAborted) => true
  | Committed, Committed => true
  | ProvenAborted, ProvenAborted => true
  | _, _ => false
  end.

(** Events that neither publish nor prepare publication. *)
Definition benign (e : event) : Prop := is_mutation e = false.

Lemma benign_no_commit e : benign e → commit_attempt e = None.
Proof. by destruct e. Qed.

Lemma all_definitive_app l evs : all_definitive l → no_commit evs → all_definitive (l ++ evs).
Proof.
  intros Hl He e r Hin Hr. apply elem_of_app in Hin as [Hin|Hin]; [by eapply Hl|].
  unfold no_commit in He. rewrite Forall_forall in He. rewrite He in Hr; done.
Qed.

Lemma no_commit_definitive l : no_commit l → all_definitive l.
Proof. intros Hl. apply (all_definitive_app [] l); [|done]. intros e r Hin. set_solver. Qed.

Lemma abort_justified_app l evs : abort_justified l → no_commit evs → abort_justified (l ++ evs).
Proof. intros [Hl|[Hp Hc]] He; [left; by apply all_definitive_app|right]. set_solver. Qed.

Lemma published_app l evs m : published l m → published (l ++ evs) m.
Proof. intros (e & He & Hm). exists e. set_solver. Qed.

Lemma commit_justified_app l evs c : commit_justified l c → commit_justified (l ++ evs) c.
Proof.
  intros (m & Hp & Hc & Hd). exists m. split_and!; [by apply published_app|done|].
  eapply Forall_impl; [done|set_solver].
Qed.

Lemma fenced_benign l evs : fenced l → Forall benign evs → fenced (l ++ evs).
Proof.
  intros Hl. induction evs as [|x evs IH] using rev_ind; intros He; [by rewrite app_nil_r|].
  apply Forall_app in He as [He Hx]. apply Forall_cons in Hx as [Hx _].
  intros a e b Hab Hm. destruct b as [|y b _] using rev_ind.
  - rewrite app_assoc in Hab. apply app_inj_tail in Hab as [_ ->]. unfold benign in Hx. congruence.
  - rewrite app_comm_cons, !app_assoc in Hab. apply app_inj_tail in Hab as [Hab _].
    by eapply IH.
Qed.

Lemma fenced_mutation l e : fenced (l ++ [ELaunch (Ok tt)]) → fenced ((l ++ [ELaunch (Ok tt)]) ++ [e]).
Proof.
  intros Hl a x b Hab Hm. destruct b as [|y b _] using rev_ind.
  - apply app_inj_tail in Hab as [<- _]. by exists l.
  - rewrite app_comm_cons, app_assoc in Hab. apply app_inj_tail in Hab as [Hab _]. by eapply Hl.
Qed.

(** ** The invariant *)

Section safety.
Context {J B : Type} `{JournalLaws J} `{TransactionBackend B}.
Context (sha256_hex : list byte → string) (part_bytes : nat).
Abbreviation World := (World Sink J B).

(** What the states, the commit metadata and the log must satisfy together. *)
Definition core (s js : OperationState) (c : option StoredObjectMeta) (l : list event) : Prop :=
  local_rel s js = true ∧ (before_completion s = true → no_commit l) ∧
  (js = Committed → commit_justified l c) ∧ (js = ProvenAborted → abort_justified l) ∧ fenced l.

(** The invariant with both states named. *)
Definition inv_at (id : Uuid) (s js : OperationState) (w : World) : Prop :=
  op_id (operation (self w)) = id ∧ op_state (operation (self w)) = s ∧ j_wf (journal w) ∧
  j_state (journal w) id = Some js ∧ core s js (j_committed (journal w) id) (log w).

Definition inv (id : Uuid) (w : World) : Prop := ∃ s js, inv_at id s js w.

Lemma inv_at_inv id s js w : inv_at id s js w → inv id w.
Proof. intros Hw. by exists s, js. Qed.

(** A step that leaves the rows alone and logs benign events. *)
Lemma inv_at_log id s js evs w w' :
  inv_at id s js w → step_log evs w w' → Forall benign evs → inv_at id s js w'.
Proof.
  intros (Hid & Hs & Hwf & Hjs & Hrel & Hn & Hc & Ha & Hf) (Hself & Hlog & Hw & Hrows) He.
  destruct (Hrows id) as [Hst Hcm].
  assert (no_commit evs) by (eapply Forall_impl; [done|apply benign_no_commit]).
  unfold inv_at, core. rewrite Hself, Hst, Hcm, Hlog. split_and!; auto.
  - intros Hb. apply Forall_app. split; [by apply Hn|done].
  - intros Hj. by apply commit_justified_app, Hc.
  - intros Hj. by apply abort_justified_app; [apply Ha|].
  - by apply fenced_benign.
Qed.

Lemma inv_at_same id s js w w' : inv_at id s js w → step_same w w' → inv_at id s js w'.
Proof. intros. by eapply inv_at_log. Qed.

Lemma inv_at_one id s js e w w' :
  inv_at id s js w → step_log [e] w w' → benign e → inv_at id s js w'.
Proof. intros. eapply inv_at_log; [done..|]. by constructor. Qed.

(** A mutation right after a recorded launch, in a state that allows it. *)
Lemma inv_at_mutation id s js e w w' l :
  inv_at id s js w → log w = l ++ [ELaunch (Ok tt)] → step_log [e] w w' →
  (before_completion s = true → commit_attempt e = None) →
  (js = ProvenAborted → commit_attempt e = None) → inv_at id s js w'.
Proof.
  intros (Hid & Hs & Hwf & Hjs & Hrel & Hn & Hc & Ha & Hf) Hl (Hself & Hlog & Hw & Hrows) He Hp.
  destruct (Hrows id) as [Hst Hcm].
  unfold inv_at, core. rewrite Hself, Hst, Hcm, Hlog. split_and!; auto.
  - intros Hb. apply Forall_app. split; [by apply Hn|]. by constructor; [apply He|].
  - intros Hj. by apply commit_justified_app, Hc.
  - intros Hj. apply abort_justified_app; [by apply Ha|]. by constructor; [apply Hp|].
  - rewrite Hl in *. by apply fenced_mutation.
Qed.

(** A legal move of the row. *)
Lemma inv_at_moved id s js js' c w w' :
  inv_at id s js w → step_moved id js js' c w w' → local_rel s js' = true →
  (js' = Committed → commit_justified (log w) c) →
  (js' = ProvenAborted → abort_justified (log w)) → inv_at id s js' w'.
Proof.
  intros (Hid & Hs & Hwf & Hjs & Hrel & Hn & Hc & Ha & Hf)
    (Hself & Hlog & _ & _ & _ & Hst & Hcm & Hw & _) Hl Hcj Haj.
  unfold inv_at, core. rewrite Hself, Hst, Hlog. split_and!; auto.
  intros Hj. rewrite (Hcm Hj). auto.
Qed.

(** The rows a move can start from. *)
Lemma step_moved_from id from to c s js w w' :
  inv_at id s js w → step_moved id from to c w w' → js = from.
Proof. intros (_ & _ & _ & Hjs & _) (_ & _ & _ & _ & Hfrom & _). congruence. Qed.

(** Updates of the sink. *)
Lemma inv_at_self id s js s' k w :
  inv_at id s js w → op_id (operation k) = id → op_state (operation k) = s' →
  local_rel s' js = true → (before_completion s' = true → before_completion s = true) →
  inv_at id s' js (w_set_self k w).
Proof.
  intros (Hid & Hs & Hwf & Hjs & Hrel & Hn & Hc & Ha & Hf) Hid' Hs' Hl Hb.
  unfold inv_at, core. simpl. split_and!; auto.
Qed.

Lemma inv_at_rel id s js w : inv_at id s js w → local_rel s js = true.
Proof. by intros (_ & _ & _ & _ & ? & _). Qed.

(** ** Calls *)

Abbreviation keeps m := (∀ id s js w, inv_at id s js w → wp m (λ _ w', inv_at id s js w') w).

Lemma wp_evidence_sink kind x (Q : result TransactionError unit → World → Prop) w :
  (∀ r w', step_same w w' → Q r w') → wp (evidence kind x) Q w.
Proof.
  intros HQ. unfold evidence. repeat wp_step. apply wp_evidence. intros [[]|e] w' Hw; by apply HQ.
Qed.

Lemma wp_launch_sink (Q : result TransactionError unit → World → Prop) w :
  (∀ w', step_log [ELaunch (Ok tt)] w w' → Q (Ok tt) w') →
  (∀ e w' x, step_log [ELaunch (Err x)] w w' → Q (Err e) w') →
  wp record_mutation_launch Q w.
Proof.
  intros Hok Herr. unfold record_mutation_launch. repeat wp_step. apply wp_clock.
  intros t w1 H1'. wp_step. apply wp_launch.
  intros [[]|e] w2 H2'; pose proof (step_log_trans _ _ _ _ _ H1' H2') as H3'; simpl; eauto.
Qed.

Lemma wp_transition_sink from to c (Q : result TransactionError unit → World → Prop) w :
  let id := op_id (operation (self w)) in
  (∀ w', step_moved id from to c w w' → Q (Ok tt) w') →
  (∀ e w', step_same w w' ∨ step_moved id from to c w w' → Q (Err e) w') →
  wp (transition from to c) Q w.
Proof.
  intros id Hok Herr. unfold transition. repeat wp_step. apply wp_transition; simpl; eauto.
Qed.

(** The deletions, as far as they went. *)
Lemma wp_delete_each v ids (Q : result TransactionError unit → World → Prop) w :
  (∀ r w' evs, step_log evs w w' → Forall benign evs →
     (r = Ok tt → Forall (λ x, EDelete x (Ok tt) ∈ evs) ids) → Q r w') →
  wp (delete_each v ids) Q w.
Proof.
  revert Q w. induction ids as [|x ids IH]; intros Q w HQ; simpl.
  - wp_step. apply (HQ _ w []); [apply step_log_nil|done|done].
  - case_decide as Ev; [wp_step; apply (HQ _ w []); [apply step_log_nil|done|done]|].
    repeat wp_step. apply wp_backend_log. intros [[]|e] w1 H1'; simpl; [|eapply HQ; [done|by repeat constructor|done]].
    apply IH. intros r w2 evs H2' Hb Hr. apply (HQ _ _ ([EDelete x (Ok tt)] ++ evs));
      [by eapply step_log_trans|by constructor|]. intros Hok.
    constructor; [set_solver|]. eapply Forall_impl; [by apply Hr|set_solver].
Qed.

Lemma wp_abort_each us (Q : result TransactionError unit → World → Prop) w :
  (∀ r w' evs, step_log evs w w' → Forall benign evs → Q r w') → wp (abort_each us) Q w.
Proof.
  revert Q w. induction us as [|u us IH]; intros Q w HQ; simpl.
  - wp_step. by apply (HQ _ w []); [apply step_log_nil|].
  - wp_step. apply wp_evidence_sink. intros [[]|e] w1 H1'; [|by eapply HQ].
    repeat wp_step. apply wp_backend_log. intros [[]|e] w2 H2'; simpl.
    + pose proof (step_log_trans _ _ _ _ _ H1' H2') as H2''.
      repeat wp_step. apply wp_evidence_sink. intros [[]|e] w3 H3';
        pose proof (step_log_trans _ _ _ _ _ H2'' H3') as H3''; simpl in H3''.
      * apply IH. intros r w4 evs H4' Hb.
        eapply HQ; [by eapply step_log_trans|]. apply Forall_app. by split; [repeat constructor|].
      * eapply HQ; [done|]. by repeat constructor.
    + eapply HQ; [by eapply step_log_trans|]. by repeat constructor.
Qed.

Lemma wp_abort_discovered_sink (Q : result TransactionError unit → World → Prop) w :
  (∀ r w' evs, step_log evs w w' → Forall benign evs → Q r w') → wp abort_discovered Q w.
Proof.
  intros HQ. unfold abort_discovered. repeat wp_step. apply wp_backend_log.
  intros [us|e] w1 H1'; simpl; [|eapply HQ; [done|by repeat constructor]].
  apply wp_abort_each. intros r w2 evs H2' Hb.
  eapply HQ; [by eapply step_log_trans|]. by constructor.
Qed.

(** A sink update that touches neither the id nor the state. *)
Lemma inv_at_keep id s js k w :
  inv_at id s js w → operation k = operation (self w) → inv_at id s js (w_set_self k w).
Proof.
  intros Hw Hop. pose proof Hw as (Hid & Hs & _). eapply inv_at_self; [done|by rewrite Hop..| |done].
  by eapply inv_at_rel.
Qed.

(** A journal call that leaves the rows alone. *)
Lemma wp_journal_keep {A} (f : Z → SE J JournalError A) id s js w
    (Q : result JournalError A → World → Prop) :
  (∀ now j r j', f now j = (r, j') → same_rows j_wf j_state j_committed j j') →
  inv_at id s js w → (∀ r w', self w' = self w → inv_at id s js w' → Q r w') →
  wp (journal_call f) Q w.
Proof.
  intros Hf Hw HQ. apply wp_journal_same; [done|]. intros r w' Hs.
  apply HQ; [apply Hs|by eapply inv_at_same].
Qed.

Lemma keeps_upload_attempts u n body remaining attempt prior le :
  keeps (upload_attempts sha256_hex u n body remaining attempt prior le).
Proof.
  revert attempt prior le. induction remaining as [|k IH]; intros attempt prior le id s js w Hw; simpl.
  - by wp_step.
  - wp_step. apply wp_evidence_sink. intros [[]|e] w1 H1'; [|by eapply inv_at_same].
    assert (inv_at id s js w1) as Hw1 by (by eapply inv_at_same).
    wp_step. apply wp_launch_sink; [|intros; by eapply inv_at_one].
    intros w2 H2'. assert (inv_at id s js w2) as Hw2 by (by eapply inv_at_one).
    repeat wp_step. apply wp_backend_log. intros r w3 H3'.
    assert (inv_at id s js w3) as Hw3
      by (eapply inv_at_mutation; [done|apply H2'|done|done|done]).
    destruct r as [et|e].
    + wp_step. apply wp_clock. intros t w4 H4'.
      assert (inv_at id s js w4) as Hw4 by (by eapply inv_at_same).
      repeat wp_step. eapply wp_journal_keep; [intros ? ? ? ? Hp; by eapply record_part_state|done|].
      intros [[]|e] w5 _ Hw5; simpl; [|done]. wp_step. apply wp_evidence_sink.
      intros [[]|e] w6 H6'; [|by eapply inv_at_same].
      wp_step. apply inv_at_keep; [by eapply inv_at_same|done].
    + case_match; [by wp_step|]. by apply IH.
Qed.

Lemma keeps_upload_buffered body : keeps (upload_buffered_part sha256_hex body).
Proof.
  intros id s js w Hw. unfold upload_buffered_part. repeat wp_step.
  destruct (upload_id (self w)); [|by wp_step]. case_match; [by wp_step|].
  by apply keeps_upload_attempts.
Qed.

(** [set_open], for a sink that is not open yet. *)
Lemma wp_set_open u id s js w (Q : result JournalError unit → World → Prop) :
  inv_at id s js w →
  (∀ w', self w' = self w → inv_at id Intent Open w' → s = Intent → Q (Ok tt) w') →
  (∀ e w', self w' = self w → inv id w' → Q (Err e) w') →
  wp (journal_call (λ now, j_set_open now id u)) Q w.
Proof.
  intros Hw Hok Herr. unfold wp, journal_call.
  destruct (j_set_open _ _ _ _) as [[[]|e] j] eqn:E.
  - apply set_open_ok in E.
    assert (step_moved id Intent Open None w (w_set_journal j (w_tick w))) as Hm by (by split_and!).
    pose proof (step_moved_from _ _ _ _ _ _ _ _ Hw Hm) as ->.
    assert (s = Intent) as -> by (apply inv_at_rel in Hw; by destruct s).
    apply Hok; [done| |done]. by eapply inv_at_moved.
  - apply Herr; [done|]. apply set_open_err in E as [E|E].
    + eapply inv_at_inv, inv_at_same; [done|]. by split_and!; rewrite ?app_nil_r.
    + assert (step_moved id Intent Open None w (w_set_journal j (w_tick w))) as Hm by (by split_and!).
      pose proof (step_moved_from _ _ _ _ _ _ _ _ Hw Hm) as ->.
      assert (s = Intent) as -> by (apply inv_at_rel in Hw; by destruct s).
      by eapply inv_at_inv, inv_at_moved.
Qed.

Lemma inv_ensure_multipart id w : inv id w → wp ensure_multipart (λ _ w', inv id w') w.
Proof.
  intros (s & js & Hw). pose proof Hw as [Hid _]. unfold ensure_multipart. repeat wp_step.
  destruct (upload_id (self w)); [wp_step; by eapply inv_at_inv|].
  wp_step. apply wp_evidence_sink. intros [[]|e] w1 H1'; [|by eapply inv_at_inv, inv_at_same].
  assert (inv_at id s js w1) as Hw1 by (by eapply inv_at_same).
  wp_step. apply wp_launch_sink; [|intros; by eapply inv_at_inv, inv_at_one].
  intros w2 H2'. assert (inv_at id s js w2) as Hw2 by (by eapply inv_at_one).
  repeat wp_step. apply wp_backend_log. intros r w3 H3'.
  assert (inv_at id s js w3) as Hw3 by (eapply inv_at_mutation; [done|apply H2'|done|done|done]).
  destruct r as [u|e].
  - repeat wp_step. rewrite Hid. eapply wp_set_open; [done| |].
    + intros w4 _ Hw4 _. repeat wp_step. simpl. apply wp_evidence_sink. intros r w5 H5'.
      eapply inv_at_inv, inv_at_same; [|done].
      apply (inv_at_self _ Intent Open Open); [done|apply Hw4|done..].
    + intros e w4 _ Hw4. done.
  - wp_step. apply wp_evidence_sink. intros [[]|e'] w4 H4'; [wp_step|];
      by eapply inv_at_inv, inv_at_same.
Qed.

(** ** Completion *)

(** The journal records [m] as committed. *)
Definition recorded (id : Uuid) (m : StoredObjectMeta) (w : World) : Prop :=
  j_state (journal w) id = Some Committed ∧ j_committed (journal w) id = Some m.

(** The claim of a method that returns the metadata of a committed object. *)
Definition completes (id : Uuid) (r : result TransactionError StoredObjectMeta) (w : World) : Prop :=
  inv id w ∧ ∀ m, r = Ok m → recorded id m w.
Definition recovers (id : Uuid) (r : result TransactionError (option StoredObjectMeta)) (w : World) : Prop :=
  inv id w ∧ ∀ m, r = Ok (Some m) → recorded id m w.

Lemma recorded_same id m w w' : recorded id m w → step_same w w' → recorded id m w'.
Proof. intros [Hs Hc] (_ & _ & _ & Hr). destruct (Hr id) as [Hs' Hc']. split; congruence. Qed.

(** A record that agrees with the journal row of [id]. *)
Definition read_back (id : Uuid) (s : OperationState) (op : OperationRecord) (w : World) : Prop :=
  inv_at id s (op_state op) w ∧ op_id op = id ∧
  (op_state op = Committed → ∀ c, op_committed op = Some c → j_committed (journal w) id = Some c).

(** States past the point of no return. *)
Lemma past_completion id s js w :
  inv_at id s js w → before_completion s = false → before_completion js = false ∧ local_rel js js = true.
Proof. intros Hw Hs. apply inv_at_rel in Hw. by destruct s, js. Qed.

Lemma wp_read_back id s js w (Q : result JournalError (option OperationRecord) → World → Prop) :
  inv_at id s js w →
  (∀ op w', self w' = self w → read_back id s op w' → Q (Ok (Some op)) w') →
  (∀ w', inv id w' → Q (Ok None) w') → (∀ e w', inv id w' → Q (Err e) w') →
  wp (journal_call (λ _, j_get id)) Q w.
Proof.
  intros Hw Hsome Hnone Herr. unfold wp, journal_call.
  destruct (j_get _ _) as [r j] eqn:E. pose proof E as Hsame. apply get_state in Hsame.
  assert (step_same w (w_set_journal j (w_tick w))) as H1' by (by split_and!; rewrite ?app_nil_r).
  assert (inv_at id s js (w_set_journal j (w_tick w))) as Hw1 by (by eapply inv_at_same).
  destruct r as [[op|]|e]; [|by eapply Hnone, inv_at_inv|by eapply Herr, inv_at_inv].
  apply Hsome; [done|]. apply get_read in E as (Hid & Hst & Hcm); [|apply Hw].
  assert (js = op_state op) as ->.
  { destruct Hw as (_ & _ & _ & Hjs & _). congruence. }
  split_and!; [done|done|]. intros Hc c Hoc. simpl. destruct Hsame as [_ Hr].
  destruct (Hr id) as [_ ->]. by apply Hcm.
Qed.

(** A move of the row while the record is held in hand. *)
Lemma wp_transition_held id s from to c w (Q : result JournalError unit → World → Prop) :
  inv_at id s from w → before_completion s = false → local_rel s to = true →
  (to = Committed → commit_justified (log w) c) → (to = ProvenAborted → abort_justified (log w)) →
  (∀ w', self w' = self w → inv_at id s to w' →
     (to = Committed → j_committed (journal w') id = c) → Q (Ok tt) w') →
  (∀ e w', self w' = self w → (∃ js, inv_at id s js w') → Q (Err e) w') →
  wp (transition_call id from to c) Q w.
Proof.
  intros Hw Hs Hl Hc Ha Hok Herr. apply wp_transition.
  - intros w' Hm. apply Hok; [apply Hm|by eapply inv_at_moved|]. apply Hm.
  - intros e w' [Hm|Hm]; (apply Herr; [apply Hm|eexists]); [by eapply inv_at_same|by eapply inv_at_moved].
Qed.

Lemma recovered_justified l m c :
  published l m → Forall (λ v, EDelete v (Ok tt) ∈ l) (superseded_version_ids m) →
  c = m ∨ c = history_incomplete m → commit_justified l (Some c).
Proof. intros Hp Hd [->| ->]; exists m; auto. Qed.

Lemma wp_delete_justified id s js m c w (Q : result TransactionError unit → World → Prop) :
  inv_at id s js w → published (log w) m → c = m ∨ c = history_incomplete m →
  (∀ w', self w' = self w → inv_at id s js w' → commit_justified (log w') (Some c) → Q (Ok tt) w') →
  (∀ e w', self w' = self w → inv_at id s js w' → Q (Err e) w') →
  wp (delete_redundant_versions c) Q w.
Proof.
  intros Hw Hp Hc Hok Herr. unfold delete_redundant_versions.
  assert (superseded_version_ids c = superseded_version_ids m) as Hsup by (by destruct Hc as [->| ->]).
  rewrite Hsup. apply wp_delete_each. intros r w' evs H1' Hb Hd.
  assert (inv_at id s js w') as Hw' by (by eapply inv_at_log).
  assert (self w' = self w) as Hself by apply H1'.
  destruct r as [[]|e]; [|by apply Herr]. apply Hok; [done|done|].
  destruct H1' as (_ & -> & _). eapply recovered_justified; [by apply published_app| |done].
  eapply Forall_impl; [by apply Hd|set_solver].
Qed.

(** The probe and what follows from it. *)
Lemma wp_settle_probe id s op delay w :
  read_back id s op w → before_completion s = false → op_state op = CommitUnknown →
  wp (settle_probe delay op)
    (λ r w', match r with Ok (op, _) => read_back id s op w' | Err _ => inv id w' end) w.
Proof.
  intros (Hw & Hid & _) Hs Hst. rewrite Hst in Hw. unfold settle_probe.
  repeat wp_step. apply wp_backend_log. intros r w1 H1'.
  assert (inv_at id s CommitUnknown w1) as Hw1 by (by eapply inv_at_one).
  assert (EProbe r ∈ log w1) as Hin by (destruct H1' as (_ & -> & _); set_solver).
  assert (local_rel s Committed = true ∧ local_rel s ProvenAborted = true) as [Hlc Hla]
    by (apply inv_at_rel in Hw; by destruct s).
  destruct r as [[m| | |]|e]; simpl.
  - wp_step. set (c := if negb _ then _ else _).
    eapply (wp_delete_justified id s CommitUnknown m); [done|by exists (EProbe (Ok (ProbeCommitted m))); auto| | |].
    + subst c. case_match; auto.
    + intros w2 _ Hw2 Hj. wp_step. apply wp_evidence_sink. intros [[]|e] w3 H3';
        [|by eapply inv_at_inv, inv_at_same].
      assert (inv_at id s CommitUnknown w3) as Hw3 by (by eapply inv_at_same).
      repeat wp_step. rewrite Hid. eapply wp_transition_held; [done|done|done| |done| |].
      * intros _. destruct H3' as (_ & -> & _). by apply commit_justified_app.
      * intros w4 _ Hw4 Hcm. simpl. wp_step. split_and!; [done|done|]. simpl.
        intros _ x [= <-]. by apply Hcm.
      * intros e w4 _ (js & Hw4). by eapply inv_at_inv.
    + intros e w2 _ Hw2. by eapply inv_at_inv.
  - wp_step. split_and!; [by rewrite Hst|done|by rewrite Hst].
  - wp_step. apply wp_clock. intros t w2 H2'.
    assert (inv_at id s CommitUnknown w2) as Hw2 by (by eapply inv_at_same).
    repeat wp_step. apply wp_confirm. intros r w3 H3'.
    assert (inv_at id s CommitUnknown w3) as Hw3 by (by eapply inv_at_one).
    destruct r as [[]|e]; simpl.
    + repeat wp_step. rewrite Hid. eapply wp_transition_held; [done|done|done|done| | |].
      * intros _. right. destruct H3' as (_ & -> & _), H2' as (_ & -> & _). set_solver.
      * intros w4 _ Hw4 _. simpl. wp_step. by split_and!.
      * intros e w4 _ (js & Hw4). by eapply inv_at_inv.
    + wp_step. split_and!; [by rewrite Hst|done|by rewrite Hst].
    + by eapply inv_at_inv.
  - wp_step. split_and!; [by rewrite Hst|done|by rewrite Hst].
  - by eapply inv_at_inv.
Qed.

(** Installing the record that was read and updated. *)
Lemma wp_install id s op go_on w :
  read_back id s op w → before_completion s = false →
  wp (install_operation op go_on) (recovers id) w.
Proof.
  intros (Hw & Hid & Hcm) Hs. destruct (past_completion _ _ _ _ Hw Hs) as [Hb Hr].
  unfold install_operation. repeat wp_step.
  assert (inv id (w_set_self (sk_operation (λ _, op) (self w)) w)) as Hinv.
  { eapply inv_at_inv, (inv_at_self id s (op_state op) (op_state op)); [done|done|done|done|congruence]. }
  destruct go_on; simpl; [|by wp_step]. case_decide as Hc; [|by wp_step].
  wp_step. split; [done|]. destruct (op_committed op) as [c|] eqn:Ec; simpl; [|done].
  intros m [= <-]. split; [|by apply Hcm]. simpl. destruct Hw as (_ & _ & _ & Hjs & _). congruence.
Qed.

(** From the record read back to the end. *)
Lemma wp_reconcile_rest id s op delay w :
  read_back id s op w → before_completion s = false →
  wp (finish ← (if decide (op_state op = CommitUnknown) then settle_probe delay op
                else mret (op, true));
      install_operation (fst finish) (snd finish)) (recovers id) w.
Proof.
  intros Hw Hs. wp_step. case_decide as Est; [|wp_step; by eapply wp_install].
  eapply wp_mono; [by apply (wp_settle_probe id s)|].
  intros [[op' b]|e] w3 Hw3; [by eapply wp_install|]. by split.
Qed.

Lemma wp_reconcile_completion id s js w :
  inv_at id s js w → before_completion s = false → wp reconcile_completion (recovers id) w.
Proof.
  intros Hw Hs. pose proof Hw as [Hid _]. unfold reconcile_completion. repeat wp_step. rewrite Hid.
  eapply wp_read_back; [done| |by intros w1 Hw1; simpl; repeat wp_step|by intros e w1 Hw1].
  intros op w1 Hself1 Hr1. pose proof Hr1 as (Hw1 & Hop & Hcm). simpl. repeat wp_step. simpl.
  repeat wp_step. case_decide as Ec.
  - repeat wp_step. rewrite Hop. rewrite Ec in Hw1.
    assert (local_rel s CommitUnknown = true) as Hl by (apply inv_at_rel in Hw1; by destruct s).
    eapply wp_transition_held; [done|done|done|done|done| |].
    + intros w2 _ Hw2 _. simpl. wp_step. eapply (wp_reconcile_rest id s); [|done]. by split_and!.
    + intros e w2 _ (js' & Hw2). split; [by eapply inv_at_inv|done].
  - wp_step. by eapply (wp_reconcile_rest id s).
Qed.

(** Calls whose outcome is ignored, once the object is recorded. *)
Lemma recorded_evidence id m k x w (Q : result TransactionError unit → World → Prop) :
  inv id w → recorded id m w →
  (∀ r w', inv id w' → recorded id m w' → Q r w') → wp (evidence k x) Q w.
Proof.
  intros (s & js & Hw) Hr HQ. apply wp_evidence_sink. intros r w' H1'.
  apply HQ; [by eapply inv_at_inv, inv_at_same|by eapply recorded_same].
Qed.

Lemma wp_publish id attempt m after w :
  inv_at id Completing Completing w → published (log w) m →
  wp (publish attempt m after) (completes id) w.
Proof.
  intros Hw Hp. unfold publish, set_state. wp_step. set (c := if _ && _ then _ else _).
  assert (c = m ∨ c = history_incomplete m) as Hc by (subst c; case_match; auto).
  eapply (wp_delete_justified id Completing Completing m); [done|done|done| |];
    [|by intros e w1 _ Hw1; split; [eapply inv_at_inv|]].
  intros w1 Hself1 Hw1 Hj. repeat wp_step.
  replace (op_id (operation (self w1))) with id by (by destruct Hw1).
  eapply wp_transition_held; [done|done|done|by intros _|done| |].
  - intros w2 _ Hw2 Hcm. repeat wp_step.
    assert (inv id (w_set_self (sk_operation (op_set_state Committed) (self w2)) w2)) as Hinv.
    { eapply inv_at_inv, (inv_at_self id Completing Committed Committed); [done|apply Hw2|done..]. }
    assert (recorded id c (w_set_self (sk_operation (op_set_state Committed) (self w2)) w2)) as Hrec.
    { split; [apply Hw2|by apply Hcm]. }
    eapply recorded_evidence; [done|done|]. intros _ w3 Hinv3 Hrec3. repeat wp_step.
    eapply recorded_evidence; [done|done|]. intros _ w4 Hinv4 Hrec4. wp_step.
    split; [done|]. by intros x [= <-].
  - intros e w2 _ (js' & Hw2). repeat wp_step.
    eapply wp_mono; [by eapply wp_reconcile_completion|].
    intros [[x|]|e'] w3 [Hinv3 Hrec3]; wp_step; (split; [done|]); [|done|done].
    intros y [= <-]. by apply Hrec3.
Qed.

Lemma wp_settle_unknown id e w :
  inv_at id Completing Completing w → wp (settle_unknown e) (completes id) w.
Proof.
  intros Hw. unfold settle_unknown, mark_commit_unknown, set_state. repeat wp_step.
  unfold transition. repeat wp_step. replace (op_id (operation (self w))) with id by (by destruct Hw).
  eapply wp_transition_held; [done|done|done|done|done| |];
    [|by intros e' w1 _ (js & Hw1); split; [eapply inv_at_inv|]].
  intros w1 _ Hw1 _. simpl. repeat wp_step.
  assert (inv_at id CommitUnknown CommitUnknown
    (w_set_self (sk_operation (op_set_state CommitUnknown) (self w1)) w1)) as Hw1'
    by (apply (inv_at_self id Completing); [done|apply Hw1|done..]).
  apply wp_evidence_sink. intros [[]|e'] w2 H2'; [|by split; [eapply inv_at_inv, inv_at_same|]].
  wp_step. eapply wp_mono; [eapply wp_reconcile_completion; [by eapply inv_at_same|done]|].
  intros [[x|]|e'] w3 [Hinv3 Hrec3]; [wp_step|wp_step|]; (split; [done|]); [|done|done].
  intros y [= <-]. by apply Hrec3.
Qed.

(** The definitive refusal of the first attempt. *)
Lemma wp_refused id error w :
  inv_at id Completing Completing w → all_definitive (log w) →
  wp (_ ← transition Completing ProvenAborted None;
      _ ← set_state ProvenAborted;
      _ ← modify_self sk_finished;
      se_throw (TBackend error)) (completes id) w.
Proof.
  intros Hw Hd. unfold transition, set_state. repeat wp_step.
  replace (op_id (operation (self w))) with id by (by destruct Hw).
  eapply wp_transition_held; [done|done|done|done|by intros _; left| |].
  - intros w1 _ Hw1 _. simpl. repeat wp_step. split; [|done].
    assert (inv_at id ProvenAborted ProvenAborted
      (w_set_self (sk_operation (op_set_state ProvenAborted) (self w1)) w1)) as Hw1'
      by (apply (inv_at_self id Completing); [done|apply Hw1|done..]).
    by eapply inv_at_inv, inv_at_keep.
  - intros e w1 _ (js & Hw1). split; [by eapply inv_at_inv|done].
Qed.

Lemma wp_attempt_failed prefix d attempt error w (Q : result TransactionError unit → World → Prop) :
  (∀ w', step_same w w' → Q (Ok tt) w') → wp (attempt_failed prefix d attempt error) Q w.
Proof.
  intros HQ. unfold attempt_failed. repeat wp_step. apply wp_evidence_sink.
  intros r w' H1'. wp_step. by apply HQ.
Qed.

(** The log after a refused first attempt, and after anything benign. *)
Lemma refused_log l e x :
  no_commit l → commit_attempt e = Some (Err x) → be_kind x = Definitive → all_definitive (l ++ [e]).
Proof.
  intros Hl He Hx. intros y r Hy Hr. apply elem_of_app in Hy as [Hy|Hy].
  - by eapply (no_commit_definitive l).
  - apply list_elem_of_singleton in Hy as ->. simplify_eq. eauto.
Qed.

Lemma wp_put_attempts id body remaining attempt prior le w :
  inv_at id Completing Completing w → (prior = false → no_commit (log w)) →
  wp (put_attempts sha256_hex body remaining attempt prior le) (completes id) w.
Proof.
  revert attempt prior le w. induction remaining as [|k IH]; intros attempt prior le w Hw Hp; simpl;
    [by apply wp_settle_unknown|].
  wp_step. apply wp_evidence_sink. intros [[]|e] w1 H1'; [|by split; [eapply inv_at_inv, inv_at_same|]].
  assert (inv_at id Completing Completing w1) as Hw1 by (by eapply inv_at_same).
  wp_step. apply wp_launch_sink; [|intros; split; [by eapply inv_at_inv, inv_at_one|done]].
  intros w2 H2'. assert (inv_at id Completing Completing w2) as Hw2 by (by eapply inv_at_one).
  assert (prior = false → no_commit (log w2)) as Hp2.
  { intros Hf. destruct H2' as (_ & -> & _), H1' as (_ & -> & _). rewrite app_nil_r.
    apply Forall_app. split; [by apply Hp|by repeat constructor]. }
  repeat wp_step. apply wp_backend_log. intros r w3 H3'.
  assert (inv_at id Completing Completing w3) as Hw3
    by (eapply inv_at_mutation; [done|apply H2'|done|done|done]).
  destruct r as [m|e].
  - apply wp_publish; [done|]. destruct H3' as (_ & -> & _). exists (EPut body (Ok m)). set_solver.
  - wp_step. apply wp_attempt_failed. intros w4 H4'.
    assert (inv_at id Completing Completing w4) as Hw4 by (by eapply inv_at_same).
    destruct (bool_decide _ && negb prior) eqn:Ed; [|by apply IH].
    apply andb_prop in Ed as [Ek Epr]. apply bool_decide_eq_true in Ek.
    apply wp_refused; [done|]. destruct H4' as (_ & -> & _), H3' as (_ & -> & _).
    rewrite app_nil_r. eapply refused_log; [apply Hp2; by destruct prior|done|done].
Qed.

Lemma wp_complete_attempts id upload remaining attempt prior le w :
  inv_at id Completing Completing w → (prior = false → no_commit (log w)) →
  wp (complete_attempts upload remaining attempt prior le) (completes id) w.
Proof.
  revert attempt prior le w. induction remaining as [|k IH]; intros attempt prior le w Hw Hp; simpl;
    [by apply wp_settle_unknown|].
  repeat wp_step. apply wp_evidence_sink.
  intros [[]|e] w1 H1'; [|by split; [eapply inv_at_inv, inv_at_same|]].
  assert (inv_at id Completing Completing w1) as Hw1 by (by eapply inv_at_same).
  wp_step. apply wp_launch_sink; [|intros; split; [by eapply inv_at_inv, inv_at_one|done]].
  intros w2 H2'. assert (inv_at id Completing Completing w2) as Hw2 by (by eapply inv_at_one).
  assert (prior = false → no_commit (log w2)) as Hp2.
  { intros Hf. destruct H2' as (_ & -> & _), H1' as (_ & -> & _). rewrite app_nil_r.
    apply Forall_app. split; [by apply Hp|by repeat constructor]. }
  repeat wp_step. apply wp_backend_log. intros r w3 H3'.
  assert (inv_at id Completing Completing w3) as Hw3
    by (eapply inv_at_mutation; [done|apply H2'|done|done|done]).
  destruct r as [m|e].
  - apply wp_publish; [done|]. destruct H3' as (_ & -> & _).
    exists (EComplete upload (uploaded (self w)) (Ok m)). set_solver.
  - wp_step. apply wp_attempt_failed. intros w4 H4'.
    assert (inv_at id Completing Completing w4) as Hw4 by (by eapply inv_at_same).
    destruct (bool_decide _ && negb prior) eqn:Ed; [|by apply IH].
    apply andb_prop in Ed as [Ek Epr]. apply bool_decide_eq_true in Ek.
    assert (all_definitive (log w4)) as Hd4.
    { destruct H4' as (_ & -> & _), H3' as (_ & -> & _). rewrite app_nil_r.
      eapply refused_log; [apply Hp2; by destruct prior|done|done]. }
    repeat wp_step. apply wp_backend_log. intros [[]|e'] w5 H5'; simpl;
      [|split; [by eapply inv_at_inv, inv_at_one|done]].
    wp_step. apply wp_abort_discovered_sink. intros [[]|e'] w6 evs H6' Hb;
      [|split; [eapply inv_at_inv, inv_at_log; [by eapply inv_at_one|done..]|done]].
    apply wp_refused; [eapply inv_at_log; [by eapply inv_at_one|done..]|].
    destruct H6' as (_ & -> & _), H5' as (_ & -> & _).
    apply all_definitive_app; [apply all_definitive_app; [done|by repeat constructor]|].
    eapply Forall_impl; [done|apply benign_no_commit].
Qed.

Lemma inv_at_no_commit id s js w : inv_at id s js w → before_completion s = true → no_commit (log w).
Proof. intros (_ & _ & _ & _ & _ & Hn & _). done. Qed.

(** OPEN to COMPLETING, in the journal and then in memory. *)
Lemma wp_begin_completion {A} id s js (k : M Sink J B A) w
    (Q : result TransactionError A → World → Prop) :
  inv_at id s js w →
  (∀ w', inv_at id Completing Completing w' → no_commit (log w') →
     self w' = sk_operation (op_set_state Completing) (self w) → wp k Q w') →
  (∀ e w', inv id w' → Q (Err e) w') →
  wp (_ ← transition Open Completing None; _ ← set_state Completing; k) Q w.
Proof.
  intros Hw Hk Herr. wp_step. apply wp_transition_sink.
  all: replace (op_id (operation (self w))) with id by (by destruct Hw).
  all: assert (js = Open → local_rel s Completing = true ∧ before_completion s = true) as Hopen
         by (intros ->; apply inv_at_rel in Hw; by destruct s).
  - intros w1 Hm. pose proof (step_moved_from _ _ _ _ _ _ _ _ Hw Hm) as ->.
    destruct (Hopen eq_refl) as [Hl Hb].
    assert (inv_at id s Completing w1) as Hw1 by (by eapply inv_at_moved).
    unfold set_state. repeat wp_step. apply Hk.
    + apply (inv_at_self id s); [done|apply Hw1|done..].
    + by apply (inv_at_no_commit id s Completing w1).
    + simpl. by destruct Hm as [-> _].
  - intros e w1 [Hm|Hm]; apply Herr; [by eapply inv_at_inv, inv_at_same|].
    pose proof (step_moved_from _ _ _ _ _ _ _ _ Hw Hm) as ->. destruct (Hopen eq_refl) as [Hl Hb].
    by eapply inv_at_inv, inv_at_moved.
Qed.

Lemma wp_complete_single_put id w : inv id w → wp (complete_single_put sha256_hex) (completes id) w.
Proof.
  intros (s & js & Hw). unfold complete_single_put. repeat wp_step.
  replace (op_id (operation (self w))) with id by (by destruct Hw).
  eapply wp_set_open; [done| |by intros e w1 _ Hw1; split].
  intros w1 _ Hw1 ->. cbn beta iota delta [map_err]. wp_step. apply wp_modify_self. cbn beta iota.
  assert (inv_at id Open Open (w_set_self (sk_operation (op_set_state Open) (self w1)) w1)) as Hw1'
    by (apply (inv_at_self id Intent); [done|apply Hw1|done..]).
  eapply wp_begin_completion; [done| |by intros e w2 Hw2; split].
  intros w2 Hw2 Hn _. repeat wp_step.
  apply wp_put_attempts; [by apply inv_at_keep|by intros _].
Qed.

Lemma wp_complete_multipart id w : inv id w → wp (complete_multipart sha256_hex) (completes id) w.
Proof.
  intros (s & js & Hw). unfold complete_multipart. repeat wp_step.
  assert (∀ w1, inv_at id s js w1 →
    wp (_ ← transition Open Completing None; _ ← set_state Completing; this ← get_self;
        match upload_id this with
        | Some upload => complete_attempts upload (max_attempts this) 1 false None
        | None => se_throw TFinished
        end) (completes id) w1) as Hrest.
  { intros w1 Hw1. eapply wp_begin_completion; [done| |by intros e w2 Hw2; split].
    intros w2 Hw2 Hn _. repeat wp_step. destruct (upload_id (self w2)).
    - by apply wp_complete_attempts.
    - wp_step. split; [by eapply inv_at_inv|done]. }
  case_decide; [wp_step; by apply Hrest|]. repeat wp_step.
  eapply wp_mono; [by apply (keeps_upload_buffered _ id s js), inv_at_keep|].
  intros [[]|e] w2 Hw2; [by apply Hrest|]. split; [by eapply inv_at_inv|done].
Qed.

Lemma wp_complete id w : inv id w → wp (complete sha256_hex) (completes id) w.
Proof.
  intros Hinv. unfold complete. repeat wp_step.
  destruct (finished (self w)); [by wp_step; split|].
  destruct (output_verified (self w)); simpl; [|by wp_step; split]. repeat wp_step.
  assert (wp (match upload_id (self w) with
    | Some _ => complete_multipart sha256_hex | None => complete_single_put sha256_hex end)
    (completes id) w) as Hwp
    by (destruct (upload_id (self w)); [by apply wp_complete_multipart|by apply wp_complete_single_put]).
  eapply wp_mono; [exact Hwp|]. intros [m|e] w1 [(s & js & Hw1) Hr]; repeat wp_step.
  - split; [by eapply inv_at_inv, inv_at_keep|]. intros x [= <-]. by apply (Hr m).
  - split; [by eapply inv_at_inv|done].
Qed.

(** ** The other methods *)

Lemma inv_abort_rest id s js w :
  inv_at id s js w → before_completion s = true → local_rel Aborting js = true →
  wp abort_rest (λ _ w', inv id w') w.
Proof.
  intros Hw Hb Hl. unfold abort_rest, set_state. repeat wp_step.
  set (w1 := w_set_self _ _). assert (inv_at id Aborting js w1) as Hw1
    by (apply (inv_at_self id s); [done|apply Hw|done..]).
  assert (∀ w2, inv_at id Aborting js w2 →
    wp (_ ← abort_discovered; _ ← transition Aborting ProvenAborted None;
        _ ← modify_self (sk_operation (op_set_state ProvenAborted)); modify_self sk_finished)
      (λ _ w', inv id w') w2) as Hrest.
  { intros w2 Hw2. wp_step. apply wp_abort_discovered_sink. intros r w3 evs H3' Hbe.
    assert (inv_at id Aborting js w3) as Hw3 by (by eapply inv_at_log).
    destruct r as [[]|e]; [|by eapply inv_at_inv]. wp_step. apply wp_transition_sink.
    all: replace (op_id (operation (self w3))) with id by (by destruct Hw3).
    all: assert (abort_justified (log w3)) as Hj
           by (left; by eapply no_commit_definitive, (inv_at_no_commit id Aborting js)).
    - intros w4 Hm. pose proof (step_moved_from _ _ _ _ _ _ _ _ Hw3 Hm) as ->. assert (inv_at id Aborting ProvenAborted w4) as Hw4 by (by eapply inv_at_moved).
      repeat wp_step. simpl. eapply inv_at_inv, inv_at_keep; [|done].
      apply (inv_at_self id Aborting ProvenAborted ProvenAborted); [done|apply Hw4|done..].
    - intros e w4 [Hm|Hm]; [by eapply inv_at_inv, inv_at_same|].
      pose proof (step_moved_from _ _ _ _ _ _ _ _ Hw3 Hm) as ->. by eapply inv_at_inv, inv_at_moved. }
  destruct (upload_id (self w1)) as [u|]; [|wp_step; by apply Hrest].
  wp_step. apply wp_evidence_sink. intros [[]|e] w2 H2'; [|by eapply inv_at_inv, inv_at_same].
  assert (inv_at id Aborting js w2) as Hw2 by (by eapply inv_at_same).
  repeat wp_step. apply wp_backend_log. intros [[]|e] w3 H3'; simpl; [|by eapply inv_at_inv, inv_at_one].
  assert (inv_at id Aborting js w3) as Hw3 by (by eapply inv_at_one).
  apply wp_evidence_sink. intros [[]|e] w4 H4'; [|by eapply inv_at_inv, inv_at_same].
  apply Hrest. by eapply inv_at_same.
Qed.

Lemma inv_abort id w : inv id w → wp abort (λ _ w', inv id w') w.
Proof.
  intros (s & js & Hw). pose proof Hw as (Hid & Hs & _). unfold abort. repeat wp_step.
  destruct (finished (self w)); [wp_step; by eapply inv_at_inv|]. rewrite Hs.
  assert (∀ from, can_transition_to from Aborting = true → s = from →
    wp (_ ← transition from Aborting None; abort_rest) (λ _ w', inv id w') w) as Hgo.
  { intros from Hf ->. wp_step.
    assert (local_rel from Aborting = true ∧ before_completion from = true) as [Hl Hb]
      by (apply inv_at_rel in Hw; by destruct from).
    apply wp_transition_sink; rewrite Hid.
    - intros w1 Hm. pose proof (step_moved_from _ _ _ _ _ _ _ _ Hw Hm) as ->.
      eapply (inv_abort_rest id from Aborting); [by eapply inv_at_moved|done|done].
    - intros e w1 [Hm|Hm]; [by eapply inv_at_inv, inv_at_same|].
      pose proof (step_moved_from _ _ _ _ _ _ _ _ Hw Hm) as ->. by eapply inv_at_inv, inv_at_moved. }
  destruct s; [by apply Hgo|by apply Hgo| | | | |].
  - wp_step. by eapply inv_at_inv.
  - wp_step. by eapply inv_at_inv.
  - wp_step. by eapply inv_at_inv, inv_at_keep.
  - eapply (inv_abort_rest id Aborting js); [done|done|by eapply inv_at_rel].
  - wp_step. by eapply inv_at_inv, inv_at_keep.
Qed.

Lemma inv_upload_buffered id body w :
  inv id w → wp (upload_buffered_part sha256_hex body) (λ _ w', inv id w') w.
Proof.
  intros (s & js & Hw). eapply wp_mono; [exact (keeps_upload_buffered body id s js w Hw)|].
  intros r w' Hw'. exact (inv_at_inv _ _ _ _ Hw').
Qed.

Lemma inv_keep id k w : inv id w → operation k = operation (self w) → inv id (w_set_self k w).
Proof. intros (s & js & Hw) Hk. by eapply inv_at_inv, inv_at_keep. Qed.

Lemma inv_write_loop id fuel chunk w :
  inv id w → wp (write_loop sha256_hex part_bytes fuel chunk) (λ _ w', inv id w') w.
Proof.
  revert chunk w. induction fuel as [|fuel IH]; intros chunk w Hw; simpl; [by wp_step|].
  destruct chunk as [|b chunk]; [by wp_step|]. repeat wp_step.
  set (n := Nat.min _ _). set (w1 := w_set_self _ w).
  assert (inv id w1) as Hw1 by (by apply inv_keep).
  case_decide; [|case_decide]; repeat wp_step.
  - eapply wp_mono; [by apply inv_ensure_multipart|]. intros [[]|e] w2 Hw2; [|done].
    repeat wp_step. eapply wp_mono; [by apply inv_upload_buffered, inv_keep|].
    intros [[]|e] w3 Hw3; [by apply IH|done].
  - eapply wp_mono; [by apply inv_upload_buffered, inv_keep|].
    intros [[]|e] w3 Hw3; [by apply IH|done].
  - by apply IH.
Qed.

Lemma inv_write id chunk w : inv id w → wp (write sha256_hex part_bytes chunk) (λ _ w', inv id w') w.
Proof.
  intros Hw. unfold write. repeat wp_step. destruct (finished (self w)); [by wp_step|].
  repeat wp_step. destruct (u64_checked_add _ _) as [z|]; cbn beta iota delta [ok_or]; [|done].
  repeat wp_step. by apply inv_write_loop, inv_keep.
Qed.

Lemma inv_verify id size sha w :
  inv id w → wp (verify_output sha256_hex size sha) (λ _ w', inv id w') w.
Proof.
  intros (s & js & Hw). unfold verify_output. repeat wp_step.
  case_match; [wp_step; by eapply inv_at_inv|]. repeat wp_step.
  set (w1 := w_set_self _ _). assert (inv_at id s js w1) as Hw1.
  { apply (inv_at_self id s js s); [done|apply Hw|apply Hw|by eapply inv_at_rel|done]. }
  eapply wp_journal_keep; [intros ? ? ? ? Hp; by eapply set_expected_state|done|].
  intros [[]|e] w2 _ Hw2; simpl; [wp_step|by eapply inv_at_inv]. by eapply inv_at_inv, inv_at_keep.
Qed.

Lemma inv_run_call id c w : inv id w → inv id (run_call sha256_hex part_bytes c w).
Proof.
  intros Hw. destruct c as [chunk|size sha| |]; simpl.
  - pose proof (inv_write id chunk w Hw) as Hr. unfold wp in Hr. by destruct (write _ _ _ _).
  - pose proof (inv_verify id size sha w Hw) as Hr. unfold wp in Hr. by destruct (verify_output _ _ _ _).
  - pose proof (wp_complete id w Hw) as Hr. unfold wp in Hr. destruct (complete _ _). by destruct Hr.
  - pose proof (inv_abort id w Hw) as Hr. unfold wp in Hr. by destruct (abort _).
Qed.

Lemma inv_run_calls id cs w : inv id w → inv id (run_calls sha256_hex part_bytes cs w).
Proof.
  unfold run_calls. revert w. induction cs as [|c cs IH]; intros w Hw; [done|]. simpl.
  by apply IH, inv_run_call.
Qed.

(** ** Properties *)

(** The world of the sink that [from_operation] returned. *)
Definition with_sink (s : Sink) (w : Transaction.World unit J B) : World :=
  mkWorld s (journal w) (backend w) (clock w) (uuids w) (tick w) (log w).

Lemma from_operation_inv op n w s w' :
  j_wf (journal w) → log w = [] → from_operation op n true w = (Ok s, w') →
  inv (op_id op) (with_sink s w').
Proof.
  intros Hwf Hlog. unfold from_operation, mbind, SE_bind, se_lift.
  destruct (streaming_eligibility b_capabilities); simpl; [|done].
  unfold from_journal, journal_call. destruct (j_insert_intent _ _) as [[[]|e] j] eqn:E; simpl; [|done].
  intros [= <- <-]. apply insert_ok in E as (Hst & Hs & Hw & _).
  exists Intent, Intent. unfold inv_at, core. simpl. rewrite Hlog. split_and!; auto; try done.
  - by constructor.
  - intros l e b Hab. by destruct l.
Qed.

(** C1: whatever sequence of [write], [verify_output], [complete] and [abort] is
    called on a new sink, whatever the provider answers and whichever journal
    writes fail or lose their reply: the journal says COMMITTED only with
    metadata the provider reported for this operation, after the superseded
    versions were deleted; it says PROVEN_ABORTED only if every attempt to
    publish was refused definitively, or a probe proved exact absence and the
    journal confirmed it; and every provider mutation follows a launch
    recorded in the journal. *)
Theorem sink_safe op n w s w' cs :
  j_wf (journal w) → log w = [] → from_operation op n true w = (Ok s, w') →
  let w1 := run_calls sha256_hex part_bytes cs (with_sink s w') in
  ∃ js, j_state (journal w1) (op_id op) = Some js ∧
    (js = Committed → commit_justified (log w1) (j_committed (journal w1) (op_id op))) ∧
    (js = ProvenAborted → abort_justified (log w1)) ∧ fenced (log w1).
Proof.
  intros Hwf Hlog Hnew w1. assert (inv (op_id op) w1) as (s1 & js & Hw).
  { apply inv_run_calls. by eapply from_operation_inv. }
  exists js. destruct Hw as (_ & _ & _ & Hjs & _ & _ & Hc & Ha & Hf). auto.
Qed.

(** [complete] returns metadata only when the journal has recorded the
    operation as COMMITTED with exactly that metadata, also when the reply of
    the commit was lost and the sink recovered it. *)
Theorem sink_complete_recorded op n w s w' cs m w2 :
  j_wf (journal w) → log w = [] → from_operation op n true w = (Ok s, w') →
  complete sha256_hex (run_calls sha256_hex part_bytes cs (with_sink s w')) = (Ok m, w2) →
  j_state (journal w2) (op_id op) = Some Committed ∧
  j_committed (journal w2) (op_id op) = Some m ∧ commit_justified (log w2) (Some m).
Proof.
  intros Hwf Hlog Hnew Hrun.
  pose proof (wp_complete (op_id op) _ (inv_run_calls _ cs _ (from_operation_inv _ _ _ _ _ Hwf Hlog Hnew)))
    as Hwp. unfold wp in Hwp. rewrite Hrun in Hwp. destruct Hwp as [(s1 & js & Hw) Hr].
  destruct (Hr m eq_refl) as [Hst Hcm]. split_and!; [done|done|].
  destruct Hw as (_ & _ & _ & Hjs & _ & _ & Hc & _). rewrite Hst in Hjs. simplify_eq.
  rewrite <- Hcm. by apply Hc.
Qed.

(** [commit_state] is safe to act on: when a sink reports PRE_COMMIT, so
    that its reservation is released, no attempt to publish is outstanding (each
    was refused definitively, or exact absence was proven); when it reports
    COMMITTED, the journal agrees and the provider reported the object. *)
Theorem sink_commit_state_sound op n w s w' cs :
  j_wf (journal w) → log w = [] → from_operation op n true w = (Ok s, w') →
  let w1 := run_calls sha256_hex part_bytes cs (with_sink s w') in
  (commit_state (self w1) = PreCommit → abort_justified (log w1)) ∧
  (commit_state (self w1) = SinkCommitted → j_state (journal w1) (op_id op) = Some Committed ∧
     commit_justified (log w1) (j_committed (journal w1) (op_id op))).
Proof.
  intros Hwf Hlog Hnew w1. assert (inv (op_id op) w1) as (s1 & js & Hw).
  { apply inv_run_calls. by eapply from_operation_inv. }
  destruct Hw as (_ & Hs & _ & Hjs & Hrel & Hn & Hc & Ha & _). unfold commit_state. rewrite Hs.
  split; intros Hst; destruct s1; try done.
  - left. by apply no_commit_definitive, Hn.
  - left. by apply no_commit_definitive, Hn.
  - left. by apply no_commit_definitive, Hn.
  - destruct js; try done. by apply Ha.
  - destruct js; try done. auto.
Qed.
End safety.

#[local] Existing Instance scripted_backend.

(** A sink on the in-memory journal, and two providers: the first answers
    ambiguously once, the second refuses. *)
Definition ex_env (commits : list (result BackendError StoredObjectMeta)) (p : CompletionProbe)
    : World unit MemJournal Script :=
  mkWorld tt mem_new (mkScript commits (Ok p)) (λ n, 1000 + Z.of_nat n) N.of_nat 0 [].
Definition ex_sha (l : list byte) : string := pretty (length l).
Definition ex_calls : list call := [CallWrite (bs "hello"); CallVerify 5 "5"].
Definition ex_start (commits : list (result BackendError StoredObjectMeta)) (p : CompletionProbe)
    : World Sink MemJournal Script :=
  match from_operation ex_op 1 true (ex_env commits p) with
  | (Ok s, w) => with_sink s w
  | (Err _, w) => with_sink (mkSink ex_op [] None [] 0 [] 0 false true 0 0) w
  end.

Lemma sink_safe_witness :
  let w1 := run_calls ex_sha 4 (ex_calls ++ [CallComplete]) (ex_start [Err (ambiguous "t")] Inconclusive) in
  j_state (journal w1) 7%N = Some CommitUnknown ∧ fenced (log w1).
Proof.
  split; [by vm_compute|].
  edestruct (sink_safe ex_sha 4 ex_op 1 (ex_env [Err (ambiguous "t")] Inconclusive))
    as (js & _ & _ & _ & Hf); [apply mem_new_keyed|done|by vm_compute|]. exact Hf.
Defined.

Lemma sink_complete_recorded_witness :
  let r := complete ex_sha (run_calls ex_sha 4 ex_calls
             (ex_start [Err (ambiguous "t")] (ProbeCommitted ex_meta))) in
  r.1 = Ok (history_incomplete ex_meta) ∧
  j_committed (journal r.2) 7%N = Some (history_incomplete ex_meta).
Proof.
  split; [by vm_compute|].
  eapply (sink_complete_recorded ex_sha 4 ex_op 1
    (ex_env [Err (ambiguous "t")] (ProbeCommitted ex_meta)) _ _ ex_calls);
    [apply mem_new_keyed|done|by vm_compute|by vm_compute].
Defined.

Lemma sink_commit_state_sound_witness :
  let w1 := run_calls ex_sha 4 (ex_calls ++ [CallComplete])
              (ex_start [Err (definitive "denied")] Inconclusive) in
  commit_state (self w1) = PreCommit ∧ abort_justified (log w1).
Proof.
  split; [by vm_compute|].
  edestruct (sink_commit_state_sound ex_sha 4 ex_op 1
    (ex_env [Err (definitive "denied")] Inconclusive)) as [Hpre _];
    [apply mem_new_keyed|done|by vm_compute|]. apply Hpre. by vm_compute.
Defined.
