(* ===== verification/SinkData.v ===== *)
(** * What the direct sink sends

    The bytes behind [DirectSink]: after successful writes, the parts stored
    at the provider and the buffer together are the bytes written, and
    [complete] publishes exactly those. *)

From S2P Require Import Prelude Operation Journal MemJournal Transaction Reconciler DirectSink SinkSafety.

#[local] Open Scope Z_scope.
Set Default Goal Selector "!".

(** The parts [ps] of upload [u] were stored with the contents [bodies], and
    are numbered from 1. *)
Definition parts_stored (l : list event) (u : string) (ps : list UploadedPart)
    (bodies : list (list byte)) : Prop :=
  Forall2 (λ p b, EUpload u (up_part_number p) b (Ok (up_etag p)) ∈ l) ps bodies ∧
  up_part_number <$> ps = Z.of_nat <$> seq 1 (length ps).

(** Every attempt to publish carried [data]. *)
Definition sent_only (data : list byte) (l : list event) : Prop :=
  ∀ e, e ∈ l → match e with
  | EPut body _ => body = data
  | EComplete u ps _ => ∃ bodies, parts_stored l u ps bodies ∧ concat bodies = data
  | _ => True
  end.

Lemma parts_stored_app l evs u ps bodies :
  parts_stored l u ps bodies → parts_stored (l ++ evs) u ps bodies.
Proof. intros [Hp Hn]. split; [|done]. eapply Forall2_impl; [done|set_solver]. Qed.

Lemma parts_stored_snoc l u ps bodies p b :
  parts_stored l u ps bodies → up_part_number p = Z.of_nat (length ps + 1) →
  EUpload u (up_part_number p) b (Ok (up_etag p)) ∈ l →
  parts_stored l u (ps ++ [p]) (bodies ++ [b]).
Proof.
  intros [Hp Hn] Hnum Hin. split.
  - apply Forall2_app; [done|]. by constructor.
  - rewrite fmap_app, Hn, length_app. simpl. rewrite Nat.add_1_r, seq_S, fmap_app. simpl.
    by rewrite Hnum, Nat.add_1_r.
Qed.

Lemma sent_only_app data l evs : sent_only data l → no_commit evs → sent_only data (l ++ evs).
Proof.
  intros Hl He e Hin. apply elem_of_app in Hin as [Hin|Hin].
  - specialize (Hl e Hin). destruct e; try done. destruct Hl as (bodies & Hp & Hc). exists bodies.
    split; [by apply parts_stored_app|done].
  - unfold no_commit in He. rewrite Forall_forall in He. specialize (He e Hin). by destruct e.
Qed.

Lemma no_commit_sent data l : no_commit l → sent_only data l.
Proof. intros Hl. apply (sent_only_app data []); [|done]. intros e He. set_solver. Qed.

Section data.
Context {J B : Type} `{OperationJournal J} `{TransactionBackend B}.
Context (sha256_hex : list byte → string) (part_bytes : nat).
Abbreviation World := (World Sink J B).

(** ** Steps that publish nothing *)

(** [w'] comes after [w], and nothing was published in between. *)
Definition quiet_to (w w' : World) : Prop :=
  ∃ evs, log w' = log w ++ evs ∧ no_commit evs.

Lemma quiet_refl w w' : log w' = log w → quiet_to w w'.
Proof. intros Hl. exists []. rewrite Hl, app_nil_r. by split; [|constructor]. Qed.

Lemma quiet_trans u v w : quiet_to u v → quiet_to v w → quiet_to u w.
Proof.
  intros (e1 & H1' & N1) (e2 & H2' & N2). exists (e1 ++ e2). rewrite H2', H1', app_assoc.
  split; [done|]. by apply Forall_app.
Qed.

(** Methods that publish nothing and keep what is written. *)
Definition quiet {E A} (m : SE World E A) : Prop :=
  ∀ w, wp m (λ _ w', quiet_to w w') w.

Lemma quiet_pure {E A} (m : SE World E A) : (∀ w, log (m w).2 = log w) → quiet m.
Proof. intros Hm w. unfold wp. specialize (Hm w). destruct (m w). by apply quiet_refl. Qed.

Lemma quiet_bind {E A C} (m : SE World E A) (k : A → SE World E C) :
  quiet m → (∀ a, quiet (k a)) → quiet (m ≫= k).
Proof.
  intros Hm Hk w. apply wp_bind. eapply wp_mono; [apply Hm|]. intros [a|e] w1 H1'; [|done].
  eapply wp_mono; [apply Hk|]. intros r w2 H2'. by eapply quiet_trans.
Qed.

Lemma quiet_backend {A} ev (f : SE B BackendError A) :
  (∀ r, commit_attempt (ev r) = None) → quiet (backend_call ev f).
Proof.
  intros Hev w. apply wp_backend. intros r b. exists [ev r]. split; [done|]. by constructor.
Qed.

Lemma quiet_journal {A} (f : Z → SE J JournalError A) : quiet (journal_call f).
Proof. apply quiet_pure. intros w. unfold journal_call. by destruct (f _ _). Qed.

Lemma quiet_from_journal {A} (m : SE World JournalError A) : quiet m → quiet (from_journal m).
Proof. intros Hm w. wp_step. apply Hm. Qed.
Lemma quiet_from_backend {A} (m : SE World BackendError A) : quiet m → quiet (from_backend m).
Proof. intros Hm w. wp_step. apply Hm. Qed.
Lemma quiet_try {E A} (m : SE World E A) : quiet m → quiet (try_call m).
Proof. intros Hm w. wp_step. apply Hm. Qed.

Lemma quiet_evidence_call id k x : quiet (evidence_call id k x).
Proof. intros w. unfold wp, evidence_call. apply (quiet_journal (λ _, _) w). Qed.

Lemma quiet_logged {A} (m : SE World JournalError A) (ev : result JournalError A → event) :
  quiet m → (∀ r, commit_attempt (ev r) = None) →
  quiet (λ w, let (r, w') := m w in (r, w_log (ev r) w')).
Proof.
  intros Hm Hev w. specialize (Hm w). unfold wp in *. destruct (m w) as [r w'].
  eapply quiet_trans; [done|]. exists [ev r]. split; [done|]. by constructor.
Qed.

Lemma quiet_launch_call id t : quiet (launch_call id t).
Proof. apply quiet_logged; [apply quiet_journal|done]. Qed.
Lemma quiet_confirm_call id t s : quiet (confirm_call id t s).
Proof. apply quiet_logged; [apply quiet_journal|done]. Qed.
Lemma quiet_ret {E A} (a : A) : quiet (E:=E) (mret a).
Proof. by apply quiet_pure. Qed.
Lemma quiet_throw {E A} (e : E) : quiet (A:=A) (se_throw e).
Proof. by apply quiet_pure. Qed.
Lemma quiet_lift {E A} (r : result E A) : quiet (se_lift r).
Proof. by apply quiet_pure. Qed.
Lemma quiet_get_self : quiet get_self.
Proof. by apply quiet_pure. Qed.
Lemma quiet_modify_self f : quiet (modify_self f).
Proof. by apply quiet_pure. Qed.
Lemma quiet_clock : quiet unix_time_ms.
Proof. by apply quiet_pure. Qed.

Create HintDb quiet.
#[local] Hint Resolve quiet_journal quiet_from_journal quiet_from_backend quiet_try
  quiet_evidence_call quiet_launch_call quiet_confirm_call quiet_ret quiet_throw quiet_lift
  quiet_get_self quiet_modify_self quiet_clock quiet_backend : quiet.

Ltac quiet :=
  repeat first
    [ apply quiet_bind; [|intros ?]
    | solve [eauto 8 with quiet]
    | progress (case_match || case_decide) ].

Lemma quiet_evidence k x : quiet (evidence k x).
Proof. unfold evidence. quiet. Qed.
#[local] Hint Resolve quiet_evidence : quiet.
Lemma quiet_transition from to c : quiet (transition from to c).
Proof. unfold transition, transition_call. quiet. Qed.
Lemma quiet_transition_call id from to c : quiet (transition_call id from to c).
Proof. unfold transition_call. quiet. Qed.
#[local] Hint Resolve quiet_transition quiet_transition_call : quiet.
Lemma quiet_record_launch : quiet record_mutation_launch.
Proof. unfold record_mutation_launch. quiet. Qed.
Lemma quiet_delete_each v ids : quiet (delete_each v ids).
Proof. induction ids; simpl; quiet. Qed.
Lemma quiet_abort_each us : quiet (abort_each us).
Proof. induction us; simpl; quiet. Qed.
#[local] Hint Resolve quiet_record_launch quiet_delete_each quiet_abort_each : quiet.
Lemma quiet_abort_discovered : quiet abort_discovered.
Proof. unfold abort_discovered. quiet. Qed.
Lemma quiet_settle_probe d op : quiet (settle_probe d op).
Proof. unfold settle_probe, delete_redundant_versions, version_evidence. quiet. Qed.
Lemma quiet_install op b : quiet (install_operation op b).
Proof. unfold install_operation. quiet. Qed.
#[local] Hint Resolve quiet_abort_discovered quiet_settle_probe quiet_install : quiet.
Lemma quiet_reconcile : quiet reconcile_completion.
Proof. unfold reconcile_completion. quiet. Qed.
#[local] Hint Resolve quiet_reconcile : quiet.
Lemma quiet_publish n m k : quiet (publish n m k).
Proof. unfold publish, delete_redundant_versions, set_state, version_evidence. quiet. Qed.
Lemma quiet_settle_unknown e : quiet (settle_unknown e).
Proof. unfold settle_unknown, mark_commit_unknown, set_state. quiet. Qed.
Lemma quiet_attempt_failed p d n e : quiet (attempt_failed p d n e).
Proof. unfold attempt_failed. quiet. Qed.
Lemma quiet_abort : quiet abort.
Proof. unfold abort, abort_rest, set_state. quiet. Qed.
#[local] Hint Resolve quiet_publish quiet_settle_unknown quiet_attempt_failed : quiet.

(** ** What is stored *)

(** The sink is left as it was. *)
Definition calm {E A} (m : SE World E A) : Prop :=
  ∀ w, wp m (λ _ w', self w' = self w ∧ quiet_to w w') w.

Lemma calm_journal {A} (f : Z → SE J JournalError A) : calm (from_journal (journal_call f)).
Proof. intros w. wp_step. unfold wp, journal_call. destruct (f _ _). by split; [|apply quiet_refl]. Qed.
Lemma calm_clock : calm unix_time_ms.
Proof. intros w. by split; [|apply quiet_refl]. Qed.
Lemma calm_evidence k x : calm (evidence k x).
Proof.
  intros w. unfold evidence. repeat wp_step. unfold wp, evidence_call, journal_call.
  destruct (j_append_evidence _ _). by split; [|apply quiet_refl].
Qed.
Lemma calm_launch : calm record_mutation_launch.
Proof.
  intros w. unfold record_mutation_launch. repeat wp_step. eapply wp_mono; [apply calm_clock|].
  intros [t|e] w1 [S1 Q1]; [|done]. wp_step. unfold wp, launch_call, journal_call.
  destruct (j_record_mutation_launch _ _ _ _) as [r j].
  split; [done|]. eapply quiet_trans; [done|]. exists [ELaunch r]. split; [done|]. by constructor.
Qed.

Lemma calm_transition from to c : calm (transition from to c).
Proof. intros w. unfold transition, transition_call. wp_step. wp_step. apply calm_journal. Qed.

(** Stepping over a calm call. *)
Lemma wp_calm {E A} (m : SE World E A) (Q : result E A → World → Prop) w :
  calm m → (∀ r w', self w' = self w → quiet_to w w' → Q r w') → wp m Q w.
Proof. intros Hm HQ. eapply wp_mono; [apply Hm|]. intros r w' [Hs Hq]. auto. Qed.

Lemma quiet_elem w w' e : quiet_to w w' → e ∈ log w → e ∈ log w'.
Proof. intros (evs & -> & _). set_solver. Qed.

(** A part that was uploaded is at the provider and on the list. *)
Lemma wp_upload_attempts u n body remaining attempt prior le w :
  wp (upload_attempts sha256_hex u n body remaining attempt prior le)
    (λ r w', quiet_to w w' ∧ (r = Ok tt → ∃ et, self w' = sk_push_part (mkUploaded n et) (self w) ∧
       EUpload u n body (Ok et) ∈ log w')) w.
Proof.
  revert attempt prior le w. induction remaining as [|k IH]; intros attempt prior le w; simpl.
  - wp_step. split; [by apply quiet_refl|done].
  - wp_step. eapply wp_calm; [apply calm_evidence|]. intros [[]|e] w1 S1 Q1; [|done].
    wp_step. eapply wp_calm; [apply calm_launch|]. intros [[]|e] w2 S2 Q2; [|by split; [eapply quiet_trans|]].
    pose proof (quiet_trans _ _ _ Q1 Q2) as Q02. repeat wp_step. apply wp_backend. intros r b.
    set (w3 := w_log _ _). assert (quiet_to w w3) as Q03.
    { eapply quiet_trans; [done|]. eexists [_]. split; [done|]. by constructor. }
    assert (self w3 = self w) as S3 by (simpl; congruence).
    destruct r as [et|e].
    + assert (EUpload u n body (Ok et) ∈ log w3) as Hin by (simpl; set_solver).
      wp_step. eapply wp_calm; [apply calm_clock|]. intros [t|e] w4 S4 Q4; [|by split; [eapply quiet_trans|]].
      wp_step. eapply wp_calm; [apply calm_journal|].
      intros [[]|e] w5 S5 Q5; pose proof (quiet_trans _ _ _ Q4 Q5) as Q35;
        [|by split; [eapply quiet_trans|]].
      wp_step. eapply wp_calm; [apply calm_evidence|].
      intros [[]|e] w6 S6 Q6; pose proof (quiet_trans _ _ _ Q35 Q6) as Q36;
        [|by split; [eapply quiet_trans|]].
      wp_step. split; [eapply quiet_trans; [eapply quiet_trans; [exact Q03|exact Q36]|by apply quiet_refl]|].
      intros _. exists et. split; [simpl; congruence|]. simpl. by eapply quiet_elem.
    + case_match; [by wp_step|]. eapply wp_mono; [apply IH|]. intros r w4 [Q4 Hok].
      split; [by eapply quiet_trans|]. intros Hr. rewrite <- S3. by apply Hok.
Qed.

(** The bytes [data] are at the provider or in the buffer; every stored part is full. *)
Definition stored (data : list byte) (w : World) : Prop :=
  ∃ bodies, concat bodies ++ buffer (self w) = data ∧
    Forall (λ b, length b = part_bytes) bodies ∧ (length (buffer (self w)) <= part_bytes)%nat ∧
    match upload_id (self w) with
    | Some u => parts_stored (log w) u (uploaded (self w)) bodies
    | None => bodies = [] ∧ uploaded (self w) = []
    end.

(** The fields that the upload of a part does not touch. *)
Definition same_output (s s' : Sink) : Prop :=
  hashed s' = hashed s ∧ output_bytes s' = output_bytes s ∧ output_verified s' = output_verified s ∧
  finished s' = finished s ∧ max_attempts s' = max_attempts s.

#[local] Instance same_output_preorder : PreOrder same_output.
Proof. split; [by intros s|]. intros s1 s2 s3 (?&?&?&?&?) (?&?&?&?&?). split_and!; congruence. Qed.

Lemma stored_quiet data w w' :
  stored data w → self w' = self w → quiet_to w w' → stored data w'.
Proof.
  intros (bodies & Hd & Hf & Hl & Hu) Hs (evs & Hlog & _). exists bodies. rewrite Hs, Hlog.
  split_and!; auto. case_match; [by apply parts_stored_app|done].
Qed.

(** Uploading the full buffer moves it to the stored parts. *)
Lemma wp_upload_buffer data w :
  stored data w → is_Some (upload_id (self w)) → length (buffer (self w)) = part_bytes →
  wp (_ ← modify_self (sk_buffer []); upload_buffered_part sha256_hex (buffer (self w)))
    (λ r w', quiet_to w w' ∧ (r = Ok tt →
       stored data w' ∧ same_output (self w) (self w') ∧ buffer (self w') = [] ∧
       upload_id (self w') = upload_id (self w))) w.
Proof.
  intros (bodies & Hd & Hf & Hl & Hu) [u Eu] Hfull. rewrite Eu in Hu. repeat wp_step.
  unfold upload_buffered_part. repeat wp_step. simpl. rewrite Eu.
  case_match; [wp_step; split; [by apply quiet_refl|done]|].
  eapply wp_mono; [apply wp_upload_attempts|]. intros r w' [Q Hok].
  split; [eapply quiet_trans; [by apply quiet_refl|done]|]. intros Hr.
  destruct (Hok Hr) as (et & Hs & Hin). rewrite Hs. split_and!; [|done|done|done].
  exists (bodies ++ [buffer (self w)]). rewrite Hs. simpl. rewrite Eu.
  split_and!; [by rewrite app_nil_r, concat_app; simpl; rewrite app_nil_r| |lia|].
  - apply Forall_app. by split; [|constructor].
  - apply parts_stored_snoc; [|done|done]. destruct Q as (evs & Hlog & _). rewrite Hlog. simpl.
    by apply parts_stored_app.
Qed.

Lemma wp_ensure_multipart data w :
  stored data w →
  wp ensure_multipart (λ r w', quiet_to w w' ∧ (r = Ok tt →
    stored data w' ∧ same_output (self w) (self w') ∧ buffer (self w') = buffer (self w) ∧
    is_Some (upload_id (self w')))) w.
Proof.
  intros Hst. unfold ensure_multipart. repeat wp_step.
  destruct (upload_id (self w)) as [u|] eqn:Eu.
  { wp_step. split; [by apply quiet_refl|]. intros _. by rewrite Eu; split_and!; eauto. }
  wp_step. eapply wp_calm; [apply calm_evidence|]. intros [[]|e] w1 S1 Q1; [|done].
  wp_step. eapply wp_calm; [apply calm_launch|]. intros [[]|e] w2 S2 Q2; [|by split; [eapply quiet_trans|]].
  pose proof (quiet_trans _ _ _ Q1 Q2) as Q02. repeat wp_step. apply wp_backend. intros r b.
  set (w3 := w_log _ _). assert (quiet_to w w3) as Q03.
  { eapply quiet_trans; [done|]. eexists [_]. split; [done|]. by constructor. }
  assert (self w3 = self w) as S3 by (simpl; congruence).
  destruct r as [u|e].
  - wp_step. eapply wp_calm; [apply calm_journal|]. intros [[]|e] w4 S4 Q4; [|by split; [eapply quiet_trans|]].
    repeat wp_step. simpl. set (w5 := w_set_self _ w4).
    assert (quiet_to w w5) as Q05
      by (eapply quiet_trans; [eapply quiet_trans; [exact Q03|exact Q4]|by apply quiet_refl]).
    eapply wp_calm; [apply calm_evidence|]. intros r w6 S6 Q6.
    split; [by eapply quiet_trans|]. intros _.
    assert (self w5 = sk_upload (Some u)
      (sk_operation (λ o, op_set_upload (Some u) (op_set_state Open o)) (self w))) as S5
      by (simpl; congruence).
    rewrite S6, S5. split_and!; [|done|done|by eauto].
    destruct Hst as (bodies & Hd & Hf & Hl & Hu). rewrite Eu in Hu. destruct Hu as [-> Hups].
    exists []. rewrite S6, S5. simpl. split_and!; auto. rewrite Hups. by split.
  - wp_step. eapply wp_calm; [apply calm_evidence|].
    intros [[]|e'] w4 S4 Q4; [wp_step|]; (split; [by eapply quiet_trans|done]).
Qed.

Lemma stored_buffer data w more :
  stored data w → (length (buffer (self w) ++ more) <= part_bytes)%nat →
  stored (data ++ more) (w_set_self (sk_buffer (buffer (self w) ++ more) (self w)) w).
Proof.
  intros (bodies & Hd & Hf & Hl & Hu) Hle. exists bodies. simpl. split_and!; auto.
  by rewrite app_assoc, Hd.
Qed.

(** The fuel of the loop: one iteration per byte, and one more to empty a full buffer. *)
Definition enough (fuel : nat) (chunk : list byte) (w : World) : Prop :=
  chunk = [] ∨ (length chunk + (if decide (length (buffer (self w)) = part_bytes) then 1 else 0) <= fuel)%nat.

Lemma wp_write_loop fuel chunk data w :
  (0 < part_bytes)%nat → stored data w → enough fuel chunk w →
  wp (write_loop sha256_hex part_bytes fuel chunk)
    (λ r w', quiet_to w w' ∧
       (r = Ok tt → stored (data ++ chunk) w' ∧ same_output (self w) (self w'))) w.
Proof.
  intros Hpos. revert chunk data w. induction fuel as [|fuel IH]; intros chunk data w Hst Hen; simpl.
  { destruct Hen as [->|Hen]; [|destruct chunk; [|simpl in Hen; lia]].
    all: wp_step; rewrite app_nil_r; split; [by apply quiet_refl|done]. }
  destruct chunk as [|b chunk]; [wp_step; rewrite app_nil_r; split; [by apply quiet_refl|done]|].
  repeat wp_step. set (all := b :: chunk) in *.
  set (n := Nat.min (part_bytes - length (buffer (self w))) (length all)).
  set (w1 := w_set_self _ w).
  assert (length (buffer (self w)) <= part_bytes)%nat as Hbl by (by destruct Hst as (? & _ & _ & ? & _)).
  assert (length (take n all) = n) as Hn by (rewrite length_take; lia).
  assert (stored (data ++ take n all) w1) as Hst1
    by (apply stored_buffer; [done|]; rewrite length_app, Hn; lia).
  assert (quiet_to w w1) as Q1 by (by apply quiet_refl).
  (* the fuel left for the rest of the chunk, after the buffer was emptied *)
  assert (length (drop n all) <= fuel)%nat as Hfuel.
  { destruct Hen as [?|Hen]; [done|]. rewrite length_drop. case_decide; [lia|].
    assert (0 < length all)%nat by (simpl; lia). lia. }
  assert (∀ w2, stored (data ++ take n all) w2 → quiet_to w w2 → same_output (self w) (self w2) →
    enough fuel (drop n all) w2 →
    wp (write_loop sha256_hex part_bytes fuel (drop n all)) (λ r w', quiet_to w w' ∧
      (r = Ok tt → stored (data ++ all) w' ∧ same_output (self w) (self w'))) w2) as Hgo.
  { intros w2 Hst2 Q2 So2 Hen2. eapply wp_mono; [by eapply IH|]. intros r w3 [Q3 Hok].
    split; [by eapply quiet_trans|]. intros Hr. destruct (Hok Hr) as [Hst3 So3].
    rewrite <- app_assoc, take_drop in Hst3. split; [done|by etrans]. }
  assert (∀ w2, buffer (self w2) = [] → enough fuel (drop n all) w2) as Hempty.
  { intros w2 Hb. right. rewrite Hb. simpl. case_decide; lia. }
  case_decide as E1; [|case_decide as E2].
  - destruct E1 as [Hfull Hne]. wp_step. eapply wp_mono; [by apply wp_ensure_multipart|].
    intros [[]|e] w2 [Q2 Hok2]; pose proof (quiet_trans _ _ _ Q1 Q2) as Q02; [|by split].
    destruct (Hok2 eq_refl) as (Hst2 & So2 & Hb2 & Hu2).
    pose proof (wp_upload_buffer _ w2 Hst2 Hu2) as Hup. rewrite Hb2 in Hup. specialize (Hup Hfull).
    eapply wp_mono; [exact Hup|].
    intros [[]|e] w3 [Q3 Hok3]; pose proof (quiet_trans _ _ _ Q02 Q3) as Q03; [|by split].
    destruct (Hok3 eq_refl) as (Hst3 & So3 & Hb3 & _).
    apply Hgo; [done|done| |by apply Hempty]. etrans; [exact So2|exact So3].
  - destruct E2 as [Hfull Hu]. pose proof (wp_upload_buffer _ w1 Hst1 Hu Hfull) as Hup.
    eapply wp_mono; [exact Hup|].
    intros [[]|e] w3 [Q3 Hok3]; pose proof (quiet_trans _ _ _ Q1 Q3) as Q03; [|by split].
    destruct (Hok3 eq_refl) as (Hst3 & So3 & Hb3 & _).
    apply Hgo; [done|done|exact So3|by apply Hempty].
  - wp_step. apply Hgo; [done|done|done|]. left. apply nil_length_inv.
    assert (length (buffer (self w) ++ take n all) ≠ part_bytes ∨ drop n all = []) as [Hlt| ->];
      [|rewrite length_app, Hn in Hlt; rewrite length_drop; lia|done].
    destruct (decide (drop n all = [])); [by right|left]. intros Hfull. by apply E1.
Qed.

(** ** Completion *)

Lemma sent_quiet data w w' : sent_only data (log w) → quiet_to w w' → sent_only data (log w').
Proof. intros Hs (evs & -> & Hn). by apply sent_only_app. Qed.

Lemma wp_sent_quiet {E A} (m : SE World E A) data w :
  quiet m → sent_only data (log w) → wp m (λ _ w', sent_only data (log w')) w.
Proof. intros Hm Hs. eapply wp_mono; [apply Hm|]. intros r w'. by apply sent_quiet. Qed.

(** One more attempt with the right contents. *)
Lemma sent_only_attempt data l e :
  sent_only data l →
  match e with
  | EPut body _ => body = data
  | EComplete u ps _ => ∃ bodies, parts_stored l u ps bodies ∧ concat bodies = data
  | _ => True
  end → sent_only data (l ++ [e]).
Proof.
  intros Hl He x Hin. apply elem_of_app in Hin as [Hin|Hin].
  - specialize (Hl x Hin). destruct x; try done. destruct Hl as (bodies & ? & ?). exists bodies.
    split; [by apply parts_stored_app|done].
  - apply list_elem_of_singleton in Hin as ->. destruct e; try done. destruct He as (bodies & ? & ?).
    exists bodies. split; [by apply parts_stored_app|done].
Qed.

Lemma wp_put_sent body remaining attempt prior le w :
  sent_only body (log w) →
  wp (put_attempts sha256_hex body remaining attempt prior le) (λ _ w', sent_only body (log w')) w.
Proof.
  revert attempt prior le w. induction remaining as [|k IH]; intros attempt prior le w Hs; simpl;
    [by apply wp_sent_quiet; [apply quiet_settle_unknown|]|].
  wp_step. eapply wp_mono; [by apply wp_sent_quiet; [apply quiet_evidence|]|].
  intros [[]|e] w1 Hs1; [|done]. wp_step.
  eapply wp_mono; [by apply wp_sent_quiet; [apply quiet_record_launch|exact Hs1]|].
  intros [[]|e] w2 Hs2; [|done]. repeat wp_step. apply wp_backend. intros r b. set (w3 := w_log _ _).
  assert (sent_only body (log w3)) as Hs3 by (by apply sent_only_attempt).
  destruct r as [m|e]; [by apply wp_sent_quiet; [apply quiet_publish|]|].
  wp_step. eapply wp_mono; [by apply wp_sent_quiet; [apply quiet_attempt_failed|exact Hs3]|].
  intros [[]|e'] w4 Hs4; [|done]. case_match; [|by apply IH].
  apply wp_sent_quiet; [|done]. unfold set_state. quiet.
Qed.

Lemma wp_complete_sent u data bodies remaining attempt prior le w :
  sent_only data (log w) → parts_stored (log w) u (uploaded (self w)) bodies → concat bodies = data →
  wp (complete_attempts u remaining attempt prior le) (λ _ w', sent_only data (log w')) w.
Proof.
  intros Hs Hp Hc. revert attempt prior le w Hs Hp. induction remaining as [|k IH];
    intros attempt prior le w Hs Hp; simpl; [by apply wp_sent_quiet; [apply quiet_settle_unknown|]|].
  repeat wp_step. eapply wp_calm; [apply calm_evidence|]. intros [[]|e] w1 S1 Q1; [|by eapply sent_quiet].
  wp_step. eapply wp_calm; [apply calm_launch|].
  intros [[]|e] w2 S2 Q2; pose proof (quiet_trans _ _ _ Q1 Q2) as Q02; [|by eapply sent_quiet].
  assert (sent_only data (log w2)) as Hs2 by (by eapply sent_quiet).
  assert (parts_stored (log w2) u (uploaded (self w)) bodies) as Hp2
    by (destruct Q02 as (evs & -> & _); by apply parts_stored_app).
  repeat wp_step. apply wp_backend. intros r b. set (w3 := w_log _ _).
  assert (sent_only data (log w3)) as Hs3 by (apply sent_only_attempt; eauto).
  assert (parts_stored (log w3) u (uploaded (self w)) bodies) as Hp3 by (by apply parts_stored_app).
  destruct r as [m|e]; [by apply wp_sent_quiet; [apply quiet_publish|]|].
  wp_step. unfold attempt_failed. repeat wp_step. eapply wp_calm; [apply calm_evidence|].
  intros r w4 S4 Q4. repeat wp_step. assert (sent_only data (log w4)) as Hs4 by (by eapply sent_quiet).
  destruct (_ && _).
  - apply wp_sent_quiet; [|done]. unfold set_state. quiet.
  - apply IH; [done|]. rewrite S4. destruct Q4 as (evs & -> & _). simpl. rewrite S2, S1.
    by apply parts_stored_app.
Qed.

Lemma wp_complete_data data w :
  stored data w → sent_only data (log w) →
  wp (complete sha256_hex) (λ _ w', sent_only data (log w')) w.
Proof.
  intros (bodies & Hd & _ & _ & Hu) Hs. unfold complete. repeat wp_step.
  destruct (finished (self w)); [by wp_step|]. destruct (output_verified (self w)); simpl; [|by wp_step].
  repeat wp_step.
  assert (wp (match upload_id (self w) with Some _ => complete_multipart sha256_hex
              | None => complete_single_put sha256_hex end) (λ _ w', sent_only data (log w')) w) as Hwp;
    [|eapply wp_mono; [exact Hwp|]; intros [m|e] w1 Hs1; repeat wp_step; done].
  destruct (upload_id (self w)) as [u|] eqn:Eu.
  - unfold complete_multipart. repeat wp_step.
    assert (∀ w1 bs', sent_only data (log w1) → upload_id (self w1) = Some u →
      parts_stored (log w1) u (uploaded (self w1)) bs' → concat bs' = data →
      wp (_ ← transition Open Completing None; _ ← set_state Completing; this ← get_self;
          match upload_id this with
          | Some upload => complete_attempts upload (max_attempts this) 1 false None
          | None => se_throw TFinished
          end) (λ _ w', sent_only data (log w')) w1) as Hrest.
    { intros w1 bs' Hs1 Hu1 Hp1 Hc1. wp_step. eapply wp_calm; [apply calm_transition|].
      intros [[]|e] w2 S2 Q2; [|by eapply sent_quiet]. unfold set_state. repeat wp_step. simpl.
      rewrite S2, Hu1. eapply wp_complete_sent; [by eapply sent_quiet| |done]. simpl.
      destruct Q2 as (evs & -> & _). by apply parts_stored_app. }
    case_decide as Eb.
    + wp_step. rewrite Eb, app_nil_r in Hd. by eapply Hrest.
    + repeat wp_step. unfold upload_buffered_part. repeat wp_step. simpl. rewrite Eu.
      case_match; [by wp_step|]. eapply wp_mono; [apply wp_upload_attempts|].
      intros [[]|e] w1 [Q1 Hok]; [|by eapply sent_quiet; [|exact Q1]].
      destruct (Hok eq_refl) as (et & Hself & Hin).
      apply (Hrest w1 (bodies ++ [buffer (self w)])).
      * by eapply sent_quiet; [|exact Q1].
      * by rewrite Hself.
      * rewrite Hself. simpl. apply parts_stored_snoc; [|done|done].
        destruct Q1 as (evs & -> & _). by apply parts_stored_app.
      * rewrite concat_app. simpl. by rewrite app_nil_r.
  - destruct Hu as [-> _]. simpl in Hd. subst data. unfold complete_single_put. do 2 wp_step.
    wp_step. eapply wp_calm; [apply calm_journal|]. intros [[]|e] w1 S1 Q1; [|by eapply sent_quiet].
    wp_step. apply wp_modify_self. wp_step. eapply wp_calm; [apply calm_transition|].
    intros [[]|e] w2 S2 Q2; [|by eapply (sent_quiet _ w); [|eapply quiet_trans]].
    unfold set_state. repeat wp_step. apply wp_put_sent. simpl.
    by eapply (sent_quiet _ w); [|eapply quiet_trans].
Qed.

(** ** Properties *)

Fixpoint write_all (chunks : list (list byte)) : M Sink J B unit :=
  match chunks with
  | [] => mret tt
  | c :: cs => _ ← write sha256_hex part_bytes c; write_all cs
  end.

(** Everything written is hashed, counted and stored. *)
Definition accounted (data : list byte) (w : World) : Prop :=
  stored data w ∧ hashed (self w) = data ∧ output_bytes (self w) = Z.of_nat (length data) ∧
  no_commit (log w).

Lemma wp_write_data chunk data w :
  (0 < part_bytes)%nat → accounted data w →
  wp (write sha256_hex part_bytes chunk) (λ r w', r = Ok tt → accounted (data ++ chunk) w') w.
Proof.
  intros Hpos (Hst & Hh & Ho & Hn). unfold write. repeat wp_step.
  destruct (finished (self w)); [by wp_step|]. repeat wp_step. rewrite Ho.
  unfold u64_checked_add. destruct (_ <=? u64_max); cbn beta iota delta [ok_or]; [|done].
  repeat wp_step.
  eapply wp_mono.
  - eapply (wp_write_loop (S (length chunk)) chunk data); [done|done|]. right. case_decide; lia.
  - intros r w' [(evs & Hl & He) Hok] Hr. destruct (Hok Hr) as (Hst' & Hh' & Ho' & _).
    split_and!; [done| | |].
    + rewrite Hh'. simpl. by rewrite Hh.
    + rewrite Ho'. simpl. rewrite length_app. lia.
    + rewrite Hl. simpl. by apply Forall_app.
Qed.

Lemma wp_write_all chunks data w :
  (0 < part_bytes)%nat → accounted data w →
  wp (write_all chunks) (λ r w', r = Ok tt → accounted (data ++ concat chunks) w') w.
Proof.
  intros Hpos. revert data w. induction chunks as [|c cs IH]; intros data w Hw; simpl.
  - wp_step. intros _. by rewrite app_nil_r.
  - wp_step. eapply wp_mono; [by apply wp_write_data|]. intros [[]|e] w1 Hw1; [|done].
    eapply wp_mono; [by apply IH, Hw1|]. intros r w2 Hw2 Hr. rewrite app_assoc. auto.
Qed.

Lemma wp_verify_data size sha data w :
  accounted data w →
  wp (verify_output sha256_hex size sha) (λ r w', r = Ok tt → accounted data w' ∧
    size = Z.of_nat (length data) ∧ sha = sha256_hex data) w.
Proof.
  intros (Hst & Hh & Ho & Hn). unfold verify_output. repeat wp_step.
  destruct (output_bytes (self w) =? size) eqn:E1; [|simpl; by wp_step].
  case_bool_decide as E2; simpl; [|by wp_step]. wp_step. apply wp_modify_self. wp_step.
  eapply wp_calm; [apply calm_journal|]. intros [[]|e] w1 S1 (evs & Hl & He); [|done].
  repeat wp_step. intros _. split_and!; [|lia|congruence].
  destruct Hst as (bodies & Hd & Hf & Hle & Hu). split_and!; simpl.
  - exists bodies. simpl. rewrite S1, Hl. simpl. split_and!; auto.
    case_match; [by apply parts_stored_app|done].
  - by rewrite S1.
  - by rewrite S1.
  - rewrite Hl. by apply Forall_app.
Qed.

(** C3: a sink publishes exactly what was written: when all writes to a new
    sink succeeded and its output was verified, every PUT that the first call
    of [complete] sends, whatever that call answers, carries the concatenation
    of the chunks, every multipart completion lists parts,
    numbered from 1, whose stored contents concatenate to it, and the verified
    size and digest are those of that data.  (A second call of [complete]
    after a failed one may publish less: [complete_retry_truncates].) *)
Theorem sink_publishes_written op n w s w' chunks size sha w1 w2 r w3 :
  (0 < part_bytes)%nat → log w = [] → from_operation op n true w = (Ok s, w') →
  write_all chunks (with_sink s w') = (Ok tt, w1) →
  verify_output sha256_hex size sha w1 = (Ok tt, w2) →
  complete sha256_hex w2 = (r, w3) →
  sent_only (concat chunks) (log w3) ∧
  size = Z.of_nat (length (concat chunks)) ∧ sha = sha256_hex (concat chunks).
Proof.
  intros Hpos Hlog Hnew Hw Hv Hc.
  assert (accounted [] (with_sink s w')) as H0'.
  { revert Hnew. unfold from_operation, mbind, SE_bind, se_lift, from_journal, journal_call.
    destruct (streaming_eligibility _); simpl; [|done].
    destruct (j_insert_intent _ _) as [[[]|e] j]; simpl; [|done]. intros [= <- <-].
    split_and!; [|done|done|simpl; rewrite Hlog; by constructor].
    exists []. simpl. split_and!; [done|by constructor|lia|done|done]. }
  pose proof (wp_write_all chunks [] _ Hpos H0') as H1'. unfold wp in H1'. rewrite Hw in H1'.
  specialize (H1' eq_refl). simpl in H1'.
  pose proof (wp_verify_data size sha _ _ H1') as H2'. unfold wp in H2'. rewrite Hv in H2'.
  destruct (H2' eq_refl) as ((Hst & _ & _ & Hn) & Hsize & Hsha).
  pose proof (wp_complete_data _ _ Hst (no_commit_sent _ _ Hn)) as H3'. unfold wp in H3'.
  rewrite Hc in H3'. done.
Qed.
End data.

#[local] Existing Instance scripted_backend.

Lemma sink_publishes_written_witness :
  let w0 := ex_start [Ok ex_meta] Inconclusive in
  let w1 := write_all ex_sha 4 [bs "hel"; bs "lo"] w0 in
  let w2 := verify_output ex_sha 5 "5" w1.2 in
  let w3 := complete ex_sha w2.2 in
  is_ok w1.1 = true ∧ is_ok w2.1 = true ∧ w3.1 = Ok ex_meta ∧ sent_only (bs "hello") (log w3.2).
Proof.
  split_and!; [by vm_compute..|].
  eapply (sink_publishes_written ex_sha 4 ex_op 1 (ex_env [Ok ex_meta] Inconclusive) _ _
    [bs "hel"; bs "lo"] 5 "5"); [lia|done|by vm_compute|by vm_compute|by vm_compute|by vm_compute].
Defined.

(** A provider that refuses the second part. *)
Definition refusing_backend : TransactionBackend Script := {|
  b_capabilities := @b_capabilities _ scripted_backend;
  b_has_exact_version_recovery := false;
  b_put_object _ _ := script_commit;
  b_create_multipart _ := mret "upload";
  b_upload_part _ _ n _ :=
    if decide (n = 2) then se_throw (definitive "refused") else mret ("etag-" +:+ pretty n);
  b_complete_multipart _ _ _ := script_commit;
  b_abort_multipart _ _ := mret tt;
  b_discover_incomplete _ := mret [];
  b_delete_object_version _ _ := mret tt;
  b_probe_completion _ := λ b, (script_probe b, b);
|}.

(** a failed [complete] must not be retried: the last part leaves the buffer
    before its upload, so when that upload fails and [complete] is called
    again, the object is committed without it although the verified size and
    digest cover it. *)
Theorem complete_retry_truncates :
  let complete := @complete MemJournal Script _ refusing_backend ex_sha in
  let w2 := @run_calls MemJournal Script _ refusing_backend ex_sha 4 ex_calls
              (ex_start [Ok ex_meta] Inconclusive) in
  let w3 := (complete w2).2 in
  (complete w2).1 = Err (TBackend (definitive "refused")) ∧
  (complete w3).1 = Ok ex_meta ∧
  hashed (self w2) = bs "hello" ∧
  ∃ b1, EUpload "upload" 1 b1 (Ok "etag-1") ∈ log w3 ∧ b1 = bs "hell" ∧
    EComplete "upload" [mkUploaded 1 "etag-1"] (Ok ex_meta) ∈ log (complete w3).2.
Proof.
  cbv zeta. split_and!; [by vm_compute..|]. exists (bs "hell"). split_and!; [| done |].
  - vm_compute. repeat (apply list_elem_of_here || apply list_elem_of_further).
  - vm_compute. repeat (apply list_elem_of_here || apply list_elem_of_further).
Qed.
