(* ===== verification/Pii.v ===== *)
(** * PII detection and redaction

    [filters/pii-shared/src/lib.rs], the code behind the [pii-default],
    [email-detect], [card-detect] and [ssn-detect] filters.  An input [&str] is
    the list of its bytes; indices are byte indices as in the source.  Every
    class of characters the code tests is ASCII, so a test on the [char]s of a
    slice is the test on its bytes. *)

From S2P Require Import Prelude.
From stdpp Require Import sorting.

#[local] Open Scope nat_scope.
Set Default Goal Selector "!".

Inductive PiiKind : Type := Email | Card | Ssn.
#[global] Instance PiiKind_eq_dec : EqDecision PiiKind.
Proof. solve_decision. Defined.

Definition marker (k : PiiKind) : list byte :=
  match k with
  | Email => bs "[REDACTED_EMAIL]"
  | Card => bs "[REDACTED_CARD]"
  | Ssn => bs "[REDACTED_SSN]"
  end.

(** A span [(start, end, marker)]. *)
Definition span : Type := (nat * nat * list byte)%type.

(** ** Walking over a class of bytes *)

(** [while s > 0 && class(bytes[s - 1]) { s -= 1 }]. *)
Fixpoint walk_left (class : byte → bool) (bytes : list byte) (s : nat) : nat :=
  match s with
  | O => O
  | S s' => if default false (class <$> bytes !! s') then walk_left class bytes s' else s
  end.

(** [while e < len && class(bytes[e]) { e += 1 }], on the bytes from [e] on. *)
Fixpoint run_length (class : byte → bool) (l : list byte) : nat :=
  match l with
  | [] => O
  | b :: l => if class b then S (run_length class l) else O
  end.
Definition walk_right (class : byte → bool) (bytes : list byte) (e : nat) : nat :=
  e + run_length class (drop e bytes).

Definition count_digits (l : list byte) : nat := length (filter (λ b, is_ascii_digit b = true) l).
Definition digits_only (l : list byte) : list byte := filter (λ b, is_ascii_digit b = true) l.

Definition digit_class (b : byte) : bool :=
  is_ascii_digit b || bool_decide (b = x20) || bool_decide (b = x2d).

Definition find_digit_token (bytes : list byte) (start : nat) : option (nat * nat) :=
  let s := walk_left digit_class bytes start in
  let e := walk_right digit_class bytes start in
  if e <=? s then None
  else if count_digits (slice bytes s e) =? 0 then None
  else Some (s, e).

(** The bytes that end an email token: space, newline, carriage return, tab,
    comma, double quote, ampersand. *)
Definition is_boundary (b : byte) : bool :=
  bool_decide (b ∈ [x20; x0a; x0d; x09; x2c; x22; x26]).

Definition find_email_boundary (bytes : list byte) (at_pos : nat) : option (nat * nat) :=
  let s := walk_left (λ b, negb (is_boundary b)) bytes at_pos in
  let e := walk_right (λ b, negb (is_boundary b)) bytes (at_pos + 1) in
  if (s <? at_pos) && (at_pos + 1 <? e) then Some (s, e) else None.

(** ** Validity *)

Definition is_valid_email (s : list byte) : bool :=
  negb (bool_decide (s = [])) && bool_decide (x40 ∈ s) && bool_decide (x2e ∈ s)
  && (length s <=? 254).

(** [char::to_digit(10)] of an ASCII digit. *)
Definition to_digit (b : byte) : Z := if is_ascii_digit b then (b2z b - 48)%Z else 0%Z.

(** The contribution of the digit [d] at index [i] from the right. *)
Definition luhn_digit (i : nat) (d : Z) : Z :=
  (if Nat.odd i then let doubled := d * 2 in if 9 <? doubled then doubled - 9 else doubled
   else d)%Z.

(** The sum over [rev().enumerate()]. *)
Fixpoint luhn_sum (i : nat) (l : list byte) : Z :=
  match l with
  | [] => 0%Z
  | b :: l => (luhn_digit i (to_digit b) + luhn_sum (S i) l)%Z
  end.

Definition luhn_check (s : list byte) : bool := (luhn_sum 0 (reverse s) mod 10 =? 0)%Z.

Definition is_valid_card (digits : list byte) : bool :=
  if (length digits <? 13) || (19 <? length digits) || negb (forallb is_ascii_digit digits)
  then false else luhn_check digits.

Definition is_valid_ssn_format (s : list byte) : bool :=
  ((length s =? 9) && forallb is_ascii_digit s)
  || ((length s =? 11) && bool_decide (s !! 3 = Some x2d) && bool_decide (s !! 6 = Some x2d)
      && forallb is_ascii_digit (take 3 s) && forallb is_ascii_digit (slice s 4 6)
      && forallb is_ascii_digit (drop 7 s)).

(** [str::parse::<u32>()] of a short string of ASCII digits. *)
Definition parse_digits (l : list byte) : Z := foldl (λ acc b, (acc * 10 + to_digit b)%Z) 0%Z l.

Definition is_valid_ssn (digits : list byte) : bool :=
  if negb (length digits =? 9) || negb (forallb is_ascii_digit digits) then false
  else
    let area := parse_digits (take 3 digits) in
    let group := parse_digits (slice digits 3 5) in
    let serial := parse_digits (drop 5 digits) in
    negb ((area =? 0)%Z || (area =? 666)%Z || (899 <? area)%Z || (group =? 0)%Z || (serial =? 0)%Z).

(** ** Scanning *)

(** A span found at index [i], or [None] to move on by one byte. *)
Definition email_step (bytes : list byte) (i : nat) : option span :=
  if bool_decide (bytes !! i = Some x40) then
    match find_email_boundary bytes i with
    | Some (s, e) => if is_valid_email (slice bytes s e) then Some (s, e, marker Email) else None
    | None => None
    end
  else None.

(** The token around the digit at [i] without the separators at its ends:
    [while s < end && !digit(bytes[s])] and [while e > s && !digit(bytes[e - 1])]. *)
Definition trim_token (bytes : list byte) (s e : nat) : nat * nat :=
  let s' := s + run_length (λ b, negb (is_ascii_digit b)) (slice bytes s e) in
  (s', e - run_length (λ b, negb (is_ascii_digit b)) (reverse (slice bytes s' e))).

Arguments trim_token : simpl never.
Arguments marker : simpl never.

Definition card_candidate (c : list byte) : bool :=
  (13 <=? count_digits c) && (count_digits c <=? 19) && is_valid_card (digits_only c).
Definition ssn_candidate (c : list byte) : bool :=
  (count_digits c =? 9) && is_valid_ssn_format c && is_valid_ssn (digits_only c).

(** [kinds]: the digit kinds looked for, with their tests, in order. *)
Definition digit_step (kinds : list PiiKind) (bytes : list byte) (i : nat) : option span :=
  if default false (is_ascii_digit <$> bytes !! i) then
    match find_digit_token bytes i with
    | Some (s, e) =>
      let (s, e) := trim_token bytes s e in
      if e <=? s then None
      else
        let candidate := slice bytes s e in
        if bool_decide (Card ∈ kinds) && card_candidate candidate then Some (s, e, marker Card)
        else if bool_decide (Ssn ∈ kinds) && ssn_candidate candidate then Some (s, e, marker Ssn)
        else None
    | None => None
    end
  else None.

(** [while i < len { .. i = end; continue .. i += 1 }]. *)
Fixpoint scan (step : nat → option span) (len fuel i : nat) : list span :=
  match fuel with
  | O => []
  | S fuel =>
    if i <? len then
      match step i with
      | Some (s, e, m) => (s, e, m) :: scan step len fuel e
      | None => scan step len fuel (i + 1)
      end
    else []
  end.

Definition kind_step (kind : PiiKind) (bytes : list byte) (i : nat) : option span :=
  if decide (kind = Email) then email_step bytes i else digit_step [kind] bytes i.

Definition find_spans (input : list byte) (kind : PiiKind) : list span :=
  scan (kind_step kind input) (length input) (length input) 0.

Definition all_step (bytes : list byte) (i : nat) : option span :=
  match email_step bytes i with
  | Some s => Some s
  | None => digit_step [Card; Ssn] bytes i
  end.

Definition find_all_spans (input : list byte) : list span :=
  scan (all_step input) (length input) (length input) 0.

(** ** Replacement *)

Definition span_le (a b : span) : Prop :=
  fst (fst a) < fst (fst b) ∨ (fst (fst a) = fst (fst b) ∧ snd (fst a) <= snd (fst b)).
#[global] Instance span_le_dec a b : Decision (span_le a b).
Proof. unfold span_le. apply _. Defined.

(** [dedup_by_key(start)]: of neighbours with equal start the first stays. *)
Fixpoint dedup_start (l : list span) : list span :=
  match l with
  | [] => []
  | x :: l =>
    match dedup_start l with
    | y :: l' => if decide (fst (fst x) = fst (fst y)) then x :: l' else x :: y :: l'
    | [] => [x]
    end
  end.

Fixpoint replace_from (input : list byte) (pos : nat) (spans : list span) : list byte :=
  match spans with
  | [] => drop pos input
  | (start, end', replacement) :: spans =>
    if start <? pos then replace_from input pos spans
    else slice input pos start ++ replacement ++ replace_from input end' spans
  end.

(** Both arms of the final [if output == input] return [output]. *)
Definition replace_spans (input : list byte) (spans : list span) : list byte :=
  replace_from input 0 (dedup_start (merge_sort span_le spans)).

Definition redact_emails (input : list byte) : list byte := replace_spans input (find_spans input Email).
Definition redact_cards (input : list byte) : list byte := replace_spans input (find_spans input Card).
Definition redact_ssns (input : list byte) : list byte := replace_spans input (find_spans input Ssn).
Definition redact_pii (input : list byte) : list byte := replace_spans input (find_all_spans input).

Example redact_email_1 :
  redact_pii (bs "Contact alice@example.com for help.") = bs "Contact [REDACTED_EMAIL] for help.".
Proof. vm_compute. reflexivity. Qed.
Example redact_card_1 : redact_pii (bs "x 4111-1111 11111111.") = bs "x [REDACTED_CARD].".
Proof. vm_compute. reflexivity. Qed.

(** ** Tokens *)

(** A maximal run of a class of bytes inside the input. *)
Definition not_last (class : byte → bool) (l : list byte) : Prop :=
  match last l with Some b => class b = false | None => True end.
Definition not_head (class : byte → bool) (l : list byte) : Prop :=
  match l with b :: _ => class b = false | [] => True end.
Record token (class : byte → bool) (pre tok post : list byte) : Prop := mkToken {
  tok_class : Forall (λ b, class b = true) tok;
  tok_pre : not_last class pre;
  tok_post : not_head class post;
}.

Lemma walk_left_token class pre tok post k :
  token class pre tok post → k <= length tok →
  walk_left class (pre ++ tok ++ post) (length pre + k) = length pre.
Proof.
  intros [Ht Hp _]. induction k as [|k IH]; intros Hk.
  - rewrite Nat.add_0_r. destruct pre as [|b pre _] using rev_ind; [done|].
    unfold not_last in Hp. rewrite last_snoc in Hp.
    rewrite length_app; simpl. rewrite Nat.add_1_r. simpl.
    rewrite <- app_assoc, lookup_app_r, Nat.sub_diag by lia. simpl. by rewrite Hp.
  - replace (length pre + S k) with (S (length pre + k)) by lia. simpl.
    rewrite lookup_app_r, lookup_app_l by lia. replace (length pre + k - length pre) with k by lia.
    destruct (lookup_lt_is_Some_2 tok k) as [b Hb]; [lia|]. rewrite Hb. simpl.
    rewrite Forall_lookup in Ht. rewrite (Ht k b Hb). apply IH. lia.
Qed.

Lemma run_length_all class l rest :
  Forall (λ b, class b = true) l → not_head class rest → run_length class (l ++ rest) = length l.
Proof.
  intros Hl Hr. induction Hl as [|b l Hb Hl IH]; simpl.
  - destruct rest; [done|]. simpl in *. by rewrite Hr.
  - by rewrite Hb, IH.
Qed.

Lemma walk_right_token class pre tok post k :
  token class pre tok post → k <= length tok →
  walk_right class (pre ++ tok ++ post) (length pre + k) = length pre + length tok.
Proof.
  intros [Ht _ Hp] Hk. unfold walk_right. rewrite drop_app_ge by lia.
  replace (length pre + k - length pre) with k by lia. rewrite drop_app_le by lia.
  rewrite run_length_all; [|by apply Forall_drop|done]. rewrite length_drop. lia.
Qed.

Lemma slice_token (pre tok post : list byte) :
  slice (pre ++ tok ++ post) (length pre) (length pre + length tok) = tok.
Proof.
  unfold slice. rewrite drop_app_length. replace (_ + _ - _) with (length tok) by lia.
  apply take_app_length.
Qed.

Lemma slice_in_token (pre tok post : list byte) a b :
  a <= b <= length tok →
  slice (pre ++ tok ++ post) (length pre + a) (length pre + b) = slice tok a b.
Proof.
  intros Hab. unfold slice. rewrite drop_app_ge by lia.
  replace (length pre + a - length pre) with a by lia. rewrite drop_app_le by lia.
  rewrite take_app_le by (rewrite length_drop; lia). f_equal. lia.
Qed.

Lemma run_length_le class l : run_length class l <= length l.
Proof. induction l as [|b l IH]; simpl; [lia|]. case_match; lia. Qed.

(** The next run splits the rest of the input. *)
Lemma run_length_spec class l :
  let n := run_length class l in
  Forall (λ b, class b = true) (take n l) ∧ not_head class (drop n l).
Proof.
  induction l as [|b l IH]; simpl; [done|]. destruct (class b) eqn:E; simpl.
  - destruct IH as [H1 H2]. split; [by constructor|done].
  - split; [done|]. by simpl.
Qed.

(** ** The reference: redaction token by token *)

Section reference.
Context (class : byte → bool) (replacement : list byte).
(** The part of a token to replace. *)
Context (found : list byte → option (nat * nat)).

Definition redact_token (t : list byte) : list byte :=
  match found t with
  | Some (a, b) => take a t ++ replacement ++ drop b t
  | None => t
  end.

Fixpoint redact_reference (fuel : nat) (l : list byte) : list byte :=
  match fuel, l with
  | S fuel, b :: l' =>
    let n := run_length class l in
    if decide (n = 0) then b :: redact_reference fuel l'
    else redact_token (take n l) ++ redact_reference fuel (drop n l)
  | _, _ => []
  end.

(** What the scanner's step does on a token. *)
Context (step : list byte → nat → option span).
Context (step_outside : ∀ l i b, l !! i = Some b → class b = false → step l i = None).
Context (step_token : ∀ pre tok post, token class pre tok post →
  match found tok with
  | None => ∀ k, k < length tok → step (pre ++ tok ++ post) (length pre + k) = None
  | Some (a, b) => ∃ k, a <= k < b ∧ b <= length tok ∧
      (∀ j, j < k → step (pre ++ tok ++ post) (length pre + j) = None) ∧
      step (pre ++ tok ++ post) (length pre + k) =
        Some (length pre + a, length pre + b, replacement) ∧
      (∀ j, b <= j < length tok → step (pre ++ tok ++ post) (length pre + j) = None)
  end).

Lemma scan_skip (st : nat → option span) len n fuel i :
  (∀ k, k < n → st (i + k) = None) → i + n <= len → n <= fuel →
  scan st len fuel i = scan st len (fuel - n) (i + n).
Proof.
  revert fuel i. induction n as [|n IH]; intros fuel i Hn Hle Hf.
  - by rewrite Nat.sub_0_r, Nat.add_0_r.
  - destruct fuel as [|fuel]; [lia|]. simpl. rewrite (proj2 (Nat.ltb_lt i len)) by lia.
    pose proof (Hn 0 ltac:(lia)) as H0. rewrite Nat.add_0_r in H0. rewrite H0.
    rewrite IH; [f_equal; lia| |lia|lia]. intros k Hk. replace (i + 1 + k) with (i + S k) by lia.
    apply Hn. lia.
Qed.

Lemma slice_app (l : list byte) a b c : a <= b <= c → slice l a b ++ slice l b c = slice l a c.
Proof.
  intros Habc. unfold slice. replace (drop b l) with (drop (b - a) (drop a l))
    by (rewrite drop_drop; f_equal; lia).
  rewrite take_take_drop. f_equal. lia.
Qed.

Lemma scan_done (st : nat → option span) len fuel i : len <= i → scan st len fuel i = [].
Proof. intros Hi. destruct fuel; simpl; [done|]. by rewrite (proj2 (Nat.ltb_ge i len)) by lia. Qed.

(** One token: the scanner leaves it behind, with the span found in it. *)
Lemma scan_token pre tok post fuel :
  token class pre tok post → length tok + length post <= fuel →
  ∃ fuel', length post <= fuel' ∧
    scan (step (pre ++ tok ++ post)) (length (pre ++ tok ++ post)) fuel (length pre) =
      match found tok with
      | Some (a, b) => [(length pre + a, length pre + b, replacement)]
      | None => []
      end ++
      scan (step (pre ++ tok ++ post)) (length (pre ++ tok ++ post)) fuel' (length (pre ++ tok)).
Proof.
  intros Ht Hfuel. pose proof (step_token pre tok post Ht) as Hs.
  assert (length (pre ++ tok ++ post) = length pre + length tok + length post) as Hlen
    by (rewrite !length_app; lia).
  assert (length (pre ++ tok) = length pre + length tok) as Hlen' by (by rewrite length_app).
  destruct (found tok) as [[a b]|].
  - destruct Hs as (k & Hak & Hbl & Hbefore & Hat & Hafter).
    rewrite (scan_skip _ _ k) by (done || lia).
    destruct (fuel - k) as [|f1] eqn:Ef; [lia|]. cbn [scan].
    rewrite (proj2 (Nat.ltb_lt _ _)) by lia. rewrite Hat.
    rewrite (scan_skip _ _ (length tok - b) f1 (length pre + b)); [|..|lia].
    + exists (f1 - (length tok - b)). split; [lia|]. simpl. do 2 f_equal. lia.
    + intros j Hj. rewrite <- Nat.add_assoc. apply Hafter. lia.
    + lia.
  - rewrite (scan_skip _ _ (length tok)) by (done || lia).
    exists (fuel - length tok). split; [lia|]. by rewrite Hlen'.
Qed.

Lemma replace_scan fuel2 : ∀ fuel pre l pos,
  not_last class pre ∨ not_head class l → pos <= length pre →
  length l <= fuel → length l <= fuel2 →
  replace_from (pre ++ l) pos (scan (step (pre ++ l)) (length (pre ++ l)) fuel (length pre)) =
  slice (pre ++ l) pos (length pre) ++ redact_reference fuel2 l.
Proof.
  induction fuel2 as [|fuel2 IH]; intros fuel pre l pos Hb Hpos Hf Hf2.
  { destruct l; [|simpl in Hf2; lia]. rewrite app_nil_r, scan_done by lia. simpl. unfold slice.
    rewrite app_nil_r, take_ge; [done|]. rewrite length_drop. lia. }
  destruct l as [|b l'].
  { rewrite app_nil_r, scan_done by lia. simpl. unfold slice.
    rewrite app_nil_r, take_ge; [done|]. rewrite length_drop. lia. }
  cbn [redact_reference]. set (l := b :: l') in *. set (n := run_length class l).
  destruct (run_length_spec class l) as [Htok Hpost]. fold n in Htok, Hpost.
  pose proof (run_length_le class l) as Hn. fold n in Hn.
  case_decide as En.
  - assert (class b = false) as Hcb.
    { destruct (class b) eqn:E; [|done]. unfold n, l in En. simpl in En. by rewrite E in En. }
    destruct fuel as [|fuel]; [simpl in Hf; lia|]. cbn [scan].
    rewrite (proj2 (Nat.ltb_lt _ _)) by (rewrite length_app; simpl; lia).
    rewrite (step_outside _ _ b) by (done || (rewrite lookup_app_r, Nat.sub_diag by lia; done)).
    specialize (IH fuel (pre ++ [b]) l' pos). rewrite length_app, <- app_assoc in IH. simpl in IH.
    unfold l. rewrite IH; [|left; unfold not_last; by rewrite last_snoc|lia|simpl in Hf; lia|simpl in Hf2; lia].
    rewrite <- (slice_app _ pos (length pre) (length pre + 1)) by lia.
    rewrite <- app_assoc. f_equal. unfold slice. rewrite drop_app_length.
    by replace (length pre + 1 - length pre) with 1 by lia.
  - assert (l = take n l ++ drop n l) as Hl by (by rewrite take_drop).
    assert (not_last class pre) as Hpre.
    { destruct Hb as [?|Hb]; [done|]. unfold n, l in En. simpl in *. by rewrite Hb in En. }
    assert (token class pre (take n l) (drop n l)) as Ht by (by constructor).
    assert (length (take n l) = n) as Hlt by (rewrite length_take; lia).
    assert (length (drop n l) = length l - n) as Hld by apply length_drop.
    destruct (scan_token pre (take n l) (drop n l) fuel Ht) as (fuel' & Hf' & Hscan); [lia|].
    rewrite take_drop in Hscan. rewrite Hscan.
    assert (∀ p, p <= length (pre ++ take n l) →
      replace_from (pre ++ l) p (scan (step (pre ++ l)) (length (pre ++ l)) fuel' (length (pre ++ take n l))) =
      slice (pre ++ l) p (length (pre ++ take n l)) ++ redact_reference fuel2 (drop n l)) as Hrest.
    { intros p Hp. specialize (IH fuel' (pre ++ take n l) (drop n l) p).
      rewrite <- app_assoc, take_drop in IH. apply IH; [by right|done|done|lia]. }
    assert (length (pre ++ take n l) = length pre + n) as Hlp by (by rewrite length_app, Hlt).
    assert (∀ x y, x <= y <= n → slice (pre ++ l) (length pre + x) (length pre + y) = slice (take n l) x y)
      as Hsl.
    { intros x y Hxy. rewrite <- (take_drop n l) at 1. apply slice_in_token. by rewrite Hlt. }
    unfold redact_token. pose proof (step_token _ _ _ Ht) as Hst.
    destruct (found (take n l)) as [[x y]|]; cbn [app].
    + destruct Hst as (k & Hxk & Hyl & _). rewrite Hlt in Hyl. cbn [replace_from].
      rewrite (proj2 (Nat.ltb_ge _ _)) by lia. rewrite Hrest by lia. rewrite Hlp.
      rewrite <- (slice_app _ pos (length pre) (length pre + x)) by lia.
      replace (slice (pre ++ l) (length pre) (length pre + x)) with (take x (take n l)).
      2: { rewrite <- (Nat.add_0_r (length pre)) at 1. rewrite Hsl by lia. unfold slice.
           by rewrite Nat.sub_0_r. }
      rewrite Hsl by lia. replace (slice (take n l) y n) with (drop y (take n l)).
      2: { unfold slice. rewrite (take_ge (drop y _)); [done|]. rewrite length_drop. lia. }
      by rewrite <- !app_assoc.
    + rewrite Hrest by lia. rewrite Hlp. rewrite <- (slice_app _ pos (length pre)) by lia.
      rewrite <- app_assoc. do 2 f_equal. rewrite <- (Nat.add_0_r (length pre)) at 1. rewrite Hsl by lia.
      unfold slice. rewrite Nat.sub_0_r. simpl. apply take_ge. lia.
Qed.

Definition span_lt (x y : span) : Prop := fst (fst x) < fst (fst y).

(** The spans come in order, none before the point the scan started from. *)
Lemma scan_ascending fuel2 : ∀ fuel pre l,
  not_last class pre ∨ not_head class l → length l <= fuel → length l <= fuel2 →
  let spans := scan (step (pre ++ l)) (length (pre ++ l)) fuel (length pre) in
  StronglySorted span_lt spans ∧ Forall (λ x, length pre <= fst (fst x)) spans.
Proof.
  induction fuel2 as [|fuel2 IH]; intros fuel pre l Hb Hf Hf2; cbv zeta.
  { destruct l; [|simpl in Hf2; lia]. rewrite app_nil_r, scan_done by lia. by repeat constructor. }
  destruct l as [|b l']; [rewrite app_nil_r, scan_done by lia; by repeat constructor|].
  set (l := b :: l') in *. set (n := run_length class l).
  destruct (run_length_spec class l) as [Htok Hpost]. fold n in Htok, Hpost.
  destruct (decide (n = 0)) as [En|En].
  - assert (class b = false) as Hcb.
    { destruct (class b) eqn:E; [|done]. unfold n, l in En. simpl in En. by rewrite E in En. }
    destruct fuel as [|fuel]; [simpl in Hf; lia|]. cbn [scan].
    rewrite (proj2 (Nat.ltb_lt _ _)) by (rewrite length_app; simpl; lia).
    rewrite (step_outside _ _ b) by (done || (rewrite lookup_app_r, Nat.sub_diag by lia; done)).
    specialize (IH fuel (pre ++ [b]) l').
    assert ((pre ++ [b]) ++ l' = pre ++ l) as Happ by (by rewrite <- app_assoc).
    assert (length (pre ++ [b]) = length pre + 1) as Hlen by (by rewrite length_app).
    rewrite Happ, Hlen in IH. destruct IH as [Hs Hlo];
      [left; unfold not_last; by rewrite last_snoc|simpl in Hf; lia|simpl in Hf2; lia|].
    split; [done|]. eapply Forall_impl; [done|]. simpl. intros. lia.
  - assert (not_last class pre) as Hpre.
    { destruct Hb as [?|Hb]; [done|]. unfold n, l in En. simpl in *. by rewrite Hb in En. }
    assert (token class pre (take n l) (drop n l)) as Ht by (by constructor).
    pose proof (run_length_le class l) as Hn. fold n in Hn.
    assert (length (take n l) = n) as Hlt by (rewrite length_take; lia).
    assert (length (drop n l) = length l - n) as Hld by apply length_drop.
    destruct (scan_token pre (take n l) (drop n l) fuel Ht) as (fuel' & Hf' & Hscan); [lia|].
    rewrite take_drop in Hscan. rewrite Hscan.
    specialize (IH fuel' (pre ++ take n l) (drop n l)).
    rewrite <- app_assoc, take_drop in IH. destruct IH as [Hs Hlo]; [by right|done|lia|].
    assert (length (pre ++ take n l) = length pre + n) as Hlp by (by rewrite length_app, Hlt).
    pose proof (step_token _ _ _ Ht) as Hst.
    assert (Forall (λ x : span, length pre <= fst (fst x)) (scan (step (pre ++ l))
      (length (pre ++ l)) fuel' (length (pre ++ take n l)))) as Hlo'
      by (eapply Forall_impl; [exact Hlo|]; intros q Hq; cbn beta in *; lia).
    destruct (found (take n l)) as [[x y]|]; simpl; [|done].
    destruct Hst as (k & Hxk & Hyl & _). split; constructor; [done| |simpl; lia|done].
    eapply Forall_impl; [exact Hlo|]. intros q Hq. unfold span_lt. cbn [fst snd] in *. lia.
Qed.
End reference.

(** ** Sorting and removing duplicates do nothing to spans in order *)

#[global] Instance span_le_trans : Transitive span_le.
Proof. intros x y z. unfold span_le. lia. Qed.
#[global] Instance span_le_total : Total span_le.
Proof. intros x y. unfold span_le. lia. Qed.

(** Spans in order are determined by their start. *)
Lemma ascending_start spans x y :
  StronglySorted span_lt spans → x ∈ spans → y ∈ spans → fst (fst x) = fst (fst y) → x = y.
Proof.
  intros Hs. induction Hs as [|z l Hl IH Hz]; intros Hx Hy Hxy; [set_solver|].
  rewrite Forall_forall in Hz. unfold span_lt in Hz.
  apply elem_of_cons in Hx as [->|Hx], Hy as [->|Hy]; auto.
  - specialize (Hz y Hy). lia.
  - specialize (Hz x Hx). lia.
Qed.

Lemma sort_ascending spans : StronglySorted span_lt spans → merge_sort span_le spans = spans.
Proof.
  intros Hs. apply (StronglySorted_unique_strong span_le).
  - intros x y Hx Hy Hxy Hyx. rewrite merge_sort_Permutation in Hx.
    apply (ascending_start spans); [done..|]. unfold span_le in *. lia.
  - apply StronglySorted_merge_sort; apply _.
  - clear -Hs. induction Hs as [|x l Hl IH Hx]; constructor; [done|].
    eapply Forall_impl; [done|]. unfold span_lt, span_le. intros. lia.
  - apply merge_sort_Permutation.
Qed.

Lemma dedup_ascending spans : StronglySorted span_lt spans → dedup_start spans = spans.
Proof.
  intros Hs. induction Hs as [|x l Hl IH Hx]; simpl; [done|]. rewrite IH.
  destruct l as [|y l]; [done|]. apply Forall_cons in Hx as [Hx _]. unfold span_lt in Hx.
  rewrite decide_False; [done|lia].
Qed.

(** ** The email scanner *)

Definition email_class (b : byte) : bool := negb (is_boundary b).
(** An [@] with something on both sides. *)
Definition interior_at (t : list byte) : bool := bool_decide (x40 ∈ slice t 1 (length t - 1)).
Definition email_found (t : list byte) : option (nat * nat) :=
  if interior_at t && is_valid_email t then Some (0, length t) else None.

Lemma lookup_token (pre tok post : list byte) j :
  j < length tok → (pre ++ tok ++ post) !! (length pre + j) = tok !! j.
Proof.
  intros Hj. rewrite lookup_app_r by lia. replace (length pre + j - length pre) with j by lia.
  by rewrite lookup_app_l.
Qed.

Lemma email_step_token pre tok post j :
  token email_class pre tok post → j < length tok →
  email_step (pre ++ tok ++ post) (length pre + j) =
    if bool_decide (tok !! j = Some x40) && (0 <? j) && (j + 1 <? length tok) && is_valid_email tok
    then Some (length pre + 0, length pre + length tok, marker Email) else None.
Proof.
  intros Ht Hj. unfold email_step. rewrite lookup_token by done.
  case_bool_decide; [|done]. simpl. unfold find_email_boundary. fold email_class.
  rewrite <- Nat.add_assoc. rewrite walk_left_token, walk_right_token by (done || lia).
  replace (length pre <? length pre + j) with (0 <? j) by
    (apply eq_true_iff_eq; rewrite !Nat.ltb_lt; lia).
  replace (length pre + (j + 1) <? length pre + length tok) with (j + 1 <? length tok) by
    (apply eq_true_iff_eq; rewrite !Nat.ltb_lt; lia).
  rewrite <- andb_assoc. destruct (0 <? j), (j + 1 <? length tok); simpl; try done.
  rewrite slice_token, Nat.add_0_r. done.
Qed.

Lemma slice_lookup (l : list byte) a b i : a + i < b → b <= length l → slice l a b !! i = l !! (a + i).
Proof. intros Hi Hb. unfold slice. rewrite lookup_take_lt by lia. by rewrite lookup_drop. Qed.

Lemma email_step_found pre tok post :
  token email_class pre tok post →
  match email_found tok with
  | None => ∀ k, k < length tok → email_step (pre ++ tok ++ post) (length pre + k) = None
  | Some (a, b) => ∃ k, a <= k < b ∧ b <= length tok ∧
      (∀ j, j < k → email_step (pre ++ tok ++ post) (length pre + j) = None) ∧
      email_step (pre ++ tok ++ post) (length pre + k) =
        Some (length pre + a, length pre + b, marker Email) ∧
      (∀ j, b <= j < length tok → email_step (pre ++ tok ++ post) (length pre + j) = None)
  end.
Proof.
  intros Ht. unfold email_found. destruct (is_valid_email tok) eqn:Ev; cycle 1.
  { rewrite andb_false_r. intros k Hk. rewrite email_step_token by done. by rewrite Ev, andb_false_r. }
  rewrite andb_true_r. unfold interior_at. case_bool_decide as Hin.
  - destruct (list_find (λ b, b = x40) (slice tok 1 (length tok - 1))) as [[i x]|] eqn:E.
    2: { apply list_find_None in E. rewrite Forall_forall in E. by destruct (E x40). }
    apply list_find_Some in E as (Hi & -> & Hmin).
    assert (i < length (slice tok 1 (length tok - 1))) as Hlt by (by apply lookup_lt_Some in Hi).
    unfold slice in Hlt. rewrite length_take, length_drop in Hlt.
    rewrite slice_lookup in Hi by lia. exists (1 + i).
    split_and!; [lia|lia|lia| | |lia].
    + intros j Hj. rewrite email_step_token by (done || lia).
      destruct j as [|j]; [by rewrite andb_false_r|].
      rewrite bool_decide_eq_false_2; [done|]. intros Hat.
      apply (Hmin j x40); [|lia|done]. rewrite slice_lookup by lia. done.
    + rewrite email_step_token by (done || lia). rewrite Ev, bool_decide_eq_true_2 by done.
      rewrite !(proj2 (Nat.ltb_lt _ _)) by lia. done.
  - intros k Hk. rewrite email_step_token by done. case_bool_decide as Hat; [|done]. simpl.
    destruct (0 <? k) eqn:E1; [|done]. destruct (k + 1 <? length tok) eqn:E2; [|done].
    apply Nat.ltb_lt in E1, E2. exfalso. apply Hin. apply list_elem_of_lookup.
    exists (k - 1). rewrite slice_lookup by lia. by replace (1 + (k - 1)) with k by lia.
Qed.

Lemma email_step_outside l i b : l !! i = Some b → email_class b = false → email_step l i = None.
Proof.
  intros Hi Hb. unfold email_step. rewrite Hi. case_bool_decide; [|done]. by simplify_eq.
Qed.

(** ** The digit scanners *)

Definition digit_test (kind : PiiKind) (c : list byte) : bool :=
  match kind with Card => card_candidate c | Ssn => ssn_candidate c | Email => false end.
Definition digit_found (kind : PiiKind) (t : list byte) : option (nat * nat) :=
  let (a, b) := trim_token t 0 (length t) in
  if (a <? b) && digit_test kind (slice t a b) then Some (a, b) else None.

Lemma run_length_before class l j :
  j < run_length class l → ∃ x, l !! j = Some x ∧ class x = true.
Proof.
  revert j. induction l as [|b l IH]; intros j Hj; simpl in *; [lia|].
  destruct (class b) eqn:E; [|lia]. destruct j as [|j]; [by exists b|]. apply IH. lia.
Qed.

Lemma run_length_at class l x : l !! run_length class l = Some x → class x = false.
Proof.
  induction l as [|b l IH]; simpl; [done|]. destruct (class b) eqn:E; simpl; [done|].
  by intros [= ->].
Qed.

Lemma slice_all (l : list byte) : slice l 0 (length l) = l.
Proof. unfold slice. rewrite drop_0, take_ge; [done|lia]. Qed.

(** The trimmed token starts and ends with a digit and covers all of them. *)
Lemma trim_spec t a b :
  trim_token t 0 (length t) = (a, b) →
  a <= length t ∧ b <= length t ∧
  (∀ j, j < a → ∃ x, t !! j = Some x ∧ is_ascii_digit x = false) ∧
  (∀ j, b <= j < length t → a <= j → ∃ x, t !! j = Some x ∧ is_ascii_digit x = false) ∧
  (a < b → ∃ x, t !! a = Some x ∧ is_ascii_digit x = true) ∧
  (a < b → ∃ x, t !! (b - 1) = Some x ∧ is_ascii_digit x = true).
Proof.
  unfold trim_token. rewrite slice_all. simpl. set (nd := λ b, negb (is_ascii_digit b)).
  set (n := run_length nd t). intros H. injection H as <- <-.
  assert (n <= length t) as Hn by apply run_length_le.
  assert (length (slice t n (length t)) = length t - n) as Hsl.
  { unfold slice. rewrite length_take, length_drop. lia. }
  set (r := run_length nd (reverse (slice t n (length t)))).
  assert (r <= length t - n) as Hr.
  { unfold r. etrans; [apply run_length_le|]. rewrite length_reverse. lia. }
  split_and!; [done|lia| | | |].
  - intros j Hj. destruct (run_length_before nd t j Hj) as (x & ? & Hx). exists x.
    split; [done|]. unfold nd in Hx. by destruct (is_ascii_digit x).
  - intros j Hj Hnj. assert (length t - 1 - j < r) as Hjr by lia.
    apply run_length_before in Hjr as (x & Hl & Hx). exists x.
    split; [|unfold nd in Hx; by destruct (is_ascii_digit x)].
    rewrite reverse_lookup in Hl by lia. rewrite Hsl in Hl.
    rewrite slice_lookup in Hl by lia. rewrite <- Hl. f_equal. lia.
  - intros Hlt. destruct (lookup_lt_is_Some_2 t n) as [x Hx]; [lia|]. exists x. split; [done|].
    apply run_length_at in Hx. unfold nd in Hx. by destruct (is_ascii_digit x).
  - intros Hlt. destruct (lookup_lt_is_Some_2 t (length t - r - 1)) as [x Hx]; [lia|].
    exists x. split; [done|].
    assert (reverse (slice t n (length t)) !! r = Some x) as Hrx.
    { rewrite reverse_lookup by lia. rewrite Hsl, slice_lookup by lia. rewrite <- Hx. f_equal. lia. }
    apply run_length_at in Hrx. unfold nd in Hrx. by destruct (is_ascii_digit x).
Qed.

Lemma trim_token_shift pre tok post a b :
  trim_token tok 0 (length tok) = (a, b) →
  trim_token (pre ++ tok ++ post) (length pre) (length pre + length tok) = (length pre + a, length pre + b).
Proof.
  unfold trim_token. rewrite slice_all, slice_token. simpl. set (nd := λ b, negb (is_ascii_digit b)).
  intros H. injection H as <- <-.
  assert (run_length nd tok <= length tok) as Hn by apply run_length_le.
  rewrite slice_in_token by lia. f_equal.
  assert (run_length nd (reverse (slice tok (run_length nd tok) (length tok))) <= length tok).
  { etrans; [apply run_length_le|]. rewrite length_reverse. unfold slice. rewrite length_take. lia. }
  lia.
Qed.

Lemma count_digits_pos t j x : t !! j = Some x → is_ascii_digit x = true → 0 < count_digits t.
Proof.
  intros Hj Hx. unfold count_digits. apply list_elem_of_lookup_2 in Hj.
  assert (x ∈ filter (λ b, is_ascii_digit b = true) t) as Hin by (by apply list_elem_of_filter).
  destruct (filter _ t); [set_solver|simpl; lia].
Qed.

Lemma digit_is_class x : is_ascii_digit x = true → digit_class x = true.
Proof. unfold digit_class. by intros ->. Qed.

Lemma digit_step_token kind pre tok post j :
  kind ≠ Email → token digit_class pre tok post → j < length tok →
  digit_step [kind] (pre ++ tok ++ post) (length pre + j) =
    if default false (is_ascii_digit <$> tok !! j) then
      match digit_found kind tok with
      | Some (a, b) => Some (length pre + a, length pre + b, marker kind)
      | None => None
      end
    else None.
Proof.
  intros Hkind Ht Hj. unfold digit_step. rewrite lookup_token by done.
  destruct (lookup_lt_is_Some_2 tok j Hj) as [x Hx]. rewrite Hx.
  cbn [fmap option_fmap option_map default].
  destruct (is_ascii_digit x) eqn:Ed; [|done]. unfold find_digit_token.
  rewrite walk_left_token, walk_right_token by (done || lia).
  rewrite (proj2 (Nat.leb_gt _ _)) by lia. rewrite slice_token.
  pose proof (count_digits_pos tok j x Hx Ed) as Hc.
  destruct (count_digits tok =? 0) eqn:E0; [apply Nat.eqb_eq in E0; lia|].
  unfold digit_found. destruct (trim_token tok 0 (length tok)) as [a b] eqn:Etrim.
  rewrite (trim_token_shift pre tok post a b Etrim).
  apply trim_spec in Etrim as (Ha & Hb & _).
  destruct (a <? b) eqn:Eab.
  - apply Nat.ltb_lt in Eab. rewrite (proj2 (Nat.leb_gt _ _)) by lia.
    rewrite slice_in_token by lia. simpl.
    destruct kind; [done|..]; simpl; case_match; done.
  - apply Nat.ltb_ge in Eab. rewrite (proj2 (Nat.leb_le _ _)) by lia. done.
Qed.

Lemma digit_step_found kind pre tok post :
  kind ≠ Email → token digit_class pre tok post →
  match digit_found kind tok with
  | None => ∀ k, k < length tok → digit_step [kind] (pre ++ tok ++ post) (length pre + k) = None
  | Some (a, b) => ∃ k, a <= k < b ∧ b <= length tok ∧
      (∀ j, j < k → digit_step [kind] (pre ++ tok ++ post) (length pre + j) = None) ∧
      digit_step [kind] (pre ++ tok ++ post) (length pre + k) =
        Some (length pre + a, length pre + b, marker kind) ∧
      (∀ j, b <= j < length tok → digit_step [kind] (pre ++ tok ++ post) (length pre + j) = None)
  end.
Proof.
  intros Hkind Ht. destruct (digit_found kind tok) as [[a b]|] eqn:Ef.
  - pose proof Ef as Ef'. unfold digit_found in Ef'.
    destruct (trim_token tok 0 (length tok)) as [a' b'] eqn:Etrim.
    destruct (a' <? b') eqn:Eab; simpl in Ef'; [|done]. case_match; simplify_eq.
    apply Nat.ltb_lt in Eab. apply trim_spec in Etrim as (Ha & Hb & Hbefore & Hafter & Hat & _).
    exists a. split_and!; [lia|lia|lia| | |].
    + intros j Hj. rewrite digit_step_token by (done || lia).
      destruct (Hbefore j Hj) as (x & -> & Hx). simpl. by rewrite Hx.
    + rewrite digit_step_token by (done || lia). destruct (Hat Eab) as (x & -> & Hx). simpl.
      by rewrite Hx, Ef.
    + intros j Hj. rewrite digit_step_token by (done || lia).
      destruct (Hafter j Hj) as (x & -> & Hx); [lia|]. simpl. by rewrite Hx.
  - intros k Hk. rewrite digit_step_token by done. rewrite Ef. by case_match.
Qed.

Lemma digit_step_outside kind l i b : l !! i = Some b → digit_class b = false → digit_step [kind] l i = None.
Proof.
  intros Hi Hb. unfold digit_step. rewrite Hi. simpl. destruct (is_ascii_digit b) eqn:E; [|done].
  apply digit_is_class in E. congruence.
Qed.

(** ** The three single-kind filters *)

Definition kind_class (kind : PiiKind) : byte → bool :=
  match kind with Email => email_class | _ => digit_class end.
Definition kind_found (kind : PiiKind) : list byte → option (nat * nat) :=
  match kind with Email => email_found | _ => digit_found kind end.
(** Redaction of one kind, token by token. *)
Definition redact_kind_reference (kind : PiiKind) (input : list byte) : list byte :=
  redact_reference (kind_class kind) (marker kind) (kind_found kind) (length input) input.

Lemma kind_outside kind l i b :
  l !! i = Some b → kind_class kind b = false → kind_step kind l i = None.
Proof.
  unfold kind_step. destruct kind; simpl; [apply email_step_outside|apply digit_step_outside..].
Qed.

Lemma kind_token kind pre tok post :
  token (kind_class kind) pre tok post →
  match kind_found kind tok with
  | None => ∀ k, k < length tok → kind_step kind (pre ++ tok ++ post) (length pre + k) = None
  | Some (a, b) => ∃ k, a <= k < b ∧ b <= length tok ∧
      (∀ j, j < k → kind_step kind (pre ++ tok ++ post) (length pre + j) = None) ∧
      kind_step kind (pre ++ tok ++ post) (length pre + k) =
        Some (length pre + a, length pre + b, marker kind) ∧
      (∀ j, b <= j < length tok → kind_step kind (pre ++ tok ++ post) (length pre + j) = None)
  end.
Proof.
  unfold kind_step. destruct kind; simpl;
    [apply email_step_found|by apply digit_step_found|by apply digit_step_found].
Qed.

Lemma redact_kind_eq kind input :
  replace_spans input (find_spans input kind) = redact_kind_reference kind input.
Proof.
  destruct (scan_ascending _ _ _ _ (kind_outside kind) (kind_token kind) (length input)
    (length input) [] input) as [Hs _]; [by left|done|done|].
  unfold replace_spans, find_spans. simpl in Hs. rewrite sort_ascending, dedup_ascending by done.
  apply (replace_scan _ _ _ _ (kind_outside kind) (kind_token kind) (length input) (length input) []);
    [by left|done|done|done].
Qed.

(** C34: [redact_emails], [redact_cards] and [redact_ssns] are the token-wise
    redaction: the single scan with its backtracking to token starts, the
    sorting, the removal of duplicates and the overlap check together replace
    exactly the qualifying part of every maximal token and copy every other
    byte, for every input. *)
Theorem redact_single_kind_reference kind input :
  match kind with
  | Email => redact_emails input
  | Card => redact_cards input
  | Ssn => redact_ssns input
  end = redact_kind_reference kind input.
Proof. destruct kind; apply redact_kind_eq. Qed.

(** ** Redacting twice *)

Section composition.
Context (class : byte → bool) (replacement : list byte) (found : list byte → option (nat * nat)).
Abbreviation reference := (redact_reference class replacement found).

Lemma reference_fuel f1 f2 l : length l <= f1 → length l <= f2 → reference f1 l = reference f2 l.
Proof.
  revert f2 l. induction f1 as [|f1 IH]; intros f2 l H1 H2.
  - destruct l; [|simpl in H1; lia]. by destruct f2.
  - destruct l as [|b l]; [by destruct f2|]. destruct f2 as [|f2]; [simpl in H2; lia|].
    cbn [redact_reference]. simpl in H1, H2. case_decide as E.
    + f_equal. apply IH; lia.
    + f_equal. apply IH; rewrite length_drop; simpl in *; lia.
Qed.

Definition whole (l : list byte) : list byte := reference (length l) l.

Lemma whole_nil : whole [] = [].
Proof. done. Qed.

Lemma whole_other b l : class b = false → whole (b :: l) = b :: whole l.
Proof. intros Hb. unfold whole. simpl. by rewrite Hb. Qed.

Lemma whole_token t l :
  Forall (λ b, class b = true) t → t ≠ [] → not_head class l →
  whole (t ++ l) = redact_token replacement found t ++ whole l.
Proof.
  intros Ht Hne Hl. destruct t as [|b t]; [done|]. unfold whole.
  pose proof (run_length_all class (b :: t) l Ht Hl) as Hn. rewrite length_app. simpl length.
  cbn [Nat.add redact_reference app]. rewrite app_comm_cons, Hn.
  case_decide as E; [simpl in E; lia|]. rewrite take_app_length, drop_app_length. f_equal.
  apply reference_fuel; lia.
Qed.

(** A byte outside the class separates what is before it from what is after. *)
Lemma whole_sep x b y : class b = false → whole (x ++ b :: y) = whole x ++ b :: whole y.
Proof.
  intros Hb. induction x as [x IH] using (well_founded_induction (well_founded_ltof _ length)).
  unfold ltof in IH. destruct x as [|c x]; [by apply whole_other|].
  destruct (class c) eqn:Ec.
  - destruct (run_length_spec class (c :: x)) as [Ht Hd].
    set (n := run_length class (c :: x)) in *.
    pose proof (run_length_le class (c :: x)) as Hn. fold n in Hn.
    assert (0 < n) as Hpos by (unfold n; simpl; rewrite Ec; lia).
    assert (take n (c :: x) ≠ []) as Hne by (destruct n; [lia|done]).
    rewrite <- (take_drop n (c :: x)). rewrite <- app_assoc.
    rewrite whole_token; [|done|done|].
    + rewrite (whole_token _ (drop n (c :: x))) by done. rewrite IH; [by rewrite <- app_assoc|].
      rewrite length_drop. simpl in *. lia.
    + destruct (drop n (c :: x)); simpl in *; done.
  - simpl. rewrite !whole_other by done. simpl. f_equal. apply IH. simpl. lia.
Qed.

Lemma whole_others m y :
  Forall (λ b, class b = false) m → ∀ x, m ≠ [] → whole (x ++ m ++ y) = whole x ++ m ++ whole y.
Proof.
  intros Hm. induction Hm as [|b m Hb Hm IH]; intros x Hne; [done|]. simpl.
  rewrite whole_sep by done. f_equal. f_equal. destruct m as [|c m].
  - done.
  - by apply (IH []).
Qed.

(** Redaction is idempotent when it is on every token. *)
Lemma whole_idempotent l :
  (∀ t, Forall (λ b, class b = true) t → t ≠ [] →
    whole (redact_token replacement found t) = redact_token replacement found t) →
  whole (whole l) = whole l.
Proof.
  intros Htok. induction l as [l IH] using (well_founded_induction (well_founded_ltof _ length)).
  unfold ltof in IH. destruct l as [|c l]; [done|]. destruct (class c) eqn:Ec.
  - destruct (run_length_spec class (c :: l)) as [Ht Hd].
    set (n := run_length class (c :: l)) in *.
    assert (0 < n) as Hpos by (unfold n; simpl; rewrite Ec; lia).
    assert (take n (c :: l) ≠ []) as Hne by (destruct n; [lia|done]).
    rewrite <- (take_drop n (c :: l)). rewrite whole_token by done.
    destruct (drop n (c :: l)) as [|b rest] eqn:Er; [rewrite app_nil_r; by apply Htok|].
    simpl in Hd. rewrite (whole_other b rest) by done. rewrite whole_sep by done.
    rewrite (Htok _ Ht Hne). do 2 f_equal. apply IH.
    pose proof (length_drop (c :: l) n) as Hlen. rewrite Er in Hlen. simpl in *. lia.
  - rewrite !whole_other by done. f_equal. apply IH. simpl. lia.
Qed.
End composition.

(** A token without digits holds nothing to redact. *)
Lemma digit_found_none kind t :
  Forall (λ b, is_ascii_digit b = false) t → digit_found kind t = None.
Proof.
  intros Ht. unfold digit_found. destruct (trim_token t 0 (length t)) as [a b] eqn:E.
  apply trim_spec in E as (_ & _ & _ & _ & Hat & _). destruct (a <? b) eqn:Eab; [|done].
  apply Nat.ltb_lt in Eab. destruct (Hat Eab) as (x & Hx & Hd).
  rewrite Forall_lookup in Ht. apply Ht in Hx. congruence.
Qed.

Lemma whole_no_digits class replacement kind t :
  Forall (λ b, class b = true) t → Forall (λ b, is_ascii_digit b = false) t →
  whole class replacement (digit_found kind) t = t.
Proof.
  intros Hc Hd. destruct t as [|b t]; [done|]. rewrite <- (app_nil_r (b :: t)) at 1.
  rewrite whole_token by done. unfold redact_token. rewrite digit_found_none by done.
  by rewrite whole_nil, app_nil_r.
Qed.

Lemma marker_email_class : Forall (λ b, email_class b = true) (marker Email).
Proof. apply Forall_forall. intros x Hx. revert x Hx. apply Forall_forall. repeat constructor. Qed.
Lemma marker_digit_class kind : Forall (λ b, digit_class b = false) (marker kind).
Proof. destruct kind; repeat constructor. Qed.

(** The digit markers cut the token into two parts without digits. *)
Lemma redact_digits_stable kind t a b :
  kind ≠ Email → Forall (λ b, digit_class b = true) t → digit_found kind t = Some (a, b) →
  whole digit_class (marker kind) (digit_found kind) (take a t ++ marker kind ++ drop b t) =
  take a t ++ marker kind ++ drop b t.
Proof.
  intros Hk Ht Ef. unfold digit_found in Ef.
  destruct (trim_token t 0 (length t)) as [a' b'] eqn:Etrim.
  destruct (a' <? b') eqn:Eab; simpl in Ef; [|done]. case_match; simplify_eq.
  apply Nat.ltb_lt in Eab. apply trim_spec in Etrim as (Ha & Hb & Hbefore & Hafter & _).
  rewrite whole_others; [|apply marker_digit_class|by destruct kind].
  f_equal; [|f_equal]; apply whole_no_digits; [by apply Forall_take| |by apply Forall_drop|].
  - apply Forall_lookup. intros i x Hi. apply lookup_take_Some in Hi as [Hi Hlt].
    destruct (Hbefore i Hlt) as (y & Hy & Hd). congruence.
  - apply Forall_lookup. intros i x Hi. rewrite lookup_drop in Hi.
    pose proof (lookup_lt_Some _ _ _ Hi) as Hlt.
    destruct (Hafter (b + i)) as (y & Hy & Hd); [lia|lia|]. congruence.
Qed.

(** Redaction of a token leaves nothing to redact in it. *)
Lemma redact_token_stable kind t :
  Forall (λ b, kind_class kind b = true) t → t ≠ [] →
  whole (kind_class kind) (marker kind) (kind_found kind)
    (redact_token (marker kind) (kind_found kind) t) =
  redact_token (marker kind) (kind_found kind) t.
Proof.
  intros Ht Hne. unfold redact_token. destruct (kind_found kind t) as [[a b]|] eqn:Ef.
  2: { rewrite <- (app_nil_r t) at 1. rewrite whole_token by done. unfold redact_token.
       by rewrite Ef, whole_nil, app_nil_r. }
  destruct kind.
  - simpl in Ef. unfold email_found in Ef. case_match; simplify_eq.
    assert (take 0 t ++ marker Email ++ drop (length t) t = marker Email) as ->
      by (rewrite drop_all; done).
    rewrite <- (app_nil_r (marker Email)) at 2.
    rewrite whole_token by (done || apply marker_email_class). by rewrite whole_nil, app_nil_r.
  - by apply redact_digits_stable.
  - by apply redact_digits_stable.
Qed.

Lemma whole_reference kind input :
  redact_kind_reference kind input = whole (kind_class kind) (marker kind) (kind_found kind) input.
Proof. done. Qed.

(** redaction is idempotent: a second pass of the same filter over its own
    output changes nothing, so a marker is never taken for PII and no
    qualifying token is left behind. *)
Theorem redact_idempotent kind input :
  redact_kind_reference kind (redact_kind_reference kind input) = redact_kind_reference kind input ∧
  redact_emails (redact_emails input) = redact_emails input ∧
  redact_cards (redact_cards input) = redact_cards input ∧
  redact_ssns (redact_ssns input) = redact_ssns input.
Proof.
  assert (∀ k, redact_kind_reference k (redact_kind_reference k input) = redact_kind_reference k input) as H.
  { intros k. rewrite !whole_reference. apply whole_idempotent, redact_token_stable. }
  split_and!; [apply H|..]; unfold redact_emails, redact_cards, redact_ssns; rewrite !redact_kind_eq; apply H.
Qed.

(** ** The Luhn check *)

Lemma luhn_sum_app i a b : luhn_sum i (a ++ b) = (luhn_sum i a + luhn_sum (i + length a) b)%Z.
Proof.
  revert i. induction a as [|x a IH]; intros i; simpl.
  - by rewrite Nat.add_0_r.
  - rewrite IH. replace (S i + length a) with (i + S (length a)) by lia. lia.
Qed.

Lemma luhn_digit_inj i d d' :
  (0 <= d <= 9)%Z → (0 <= d' <= 9)%Z → ((luhn_digit i d - luhn_digit i d') mod 10 = 0)%Z → d = d'.
Proof.
  intros Hd Hd'. unfold luhn_digit.
  assert (d = 0 ∨ d = 1 ∨ d = 2 ∨ d = 3 ∨ d = 4 ∨ d = 5 ∨ d = 6 ∨ d = 7 ∨ d = 8 ∨ d = 9)%Z as Ed by lia.
  assert (d' = 0 ∨ d' = 1 ∨ d' = 2 ∨ d' = 3 ∨ d' = 4 ∨ d' = 5 ∨ d' = 6 ∨ d' = 7 ∨ d' = 8 ∨ d' = 9)%Z as Ed' by lia.
  destruct (Nat.odd i); destruct_or!; subst; done.
Qed.

Lemma to_digit_range b : (0 <= to_digit b <= 9)%Z.
Proof. unfold to_digit, is_ascii_digit. case_match; lia. Qed.

Lemma to_digit_inj b c :
  is_ascii_digit b = true → is_ascii_digit c = true → to_digit b = to_digit c → b = c.
Proof.
  intros Hb Hc. unfold to_digit. rewrite Hb, Hc. intros H. unfold b2z in H.
  assert (Byte.to_N b = Byte.to_N c) as Hn by lia. apply (f_equal Byte.of_N) in Hn.
  rewrite !Byte.of_to_N in Hn. congruence.
Qed.

(** The card check detects every single-digit error: changing one digit of a
    valid card number to another digit makes it invalid. *)
Theorem luhn_detects_digit_change pre d d' post :
  is_valid_card (pre ++ d :: post) = true → is_ascii_digit d' = true → d ≠ d' →
  is_valid_card (pre ++ d' :: post) = false.
Proof.
  intros Hv Hd' Hne. destruct (is_valid_card (pre ++ d' :: post)) eqn:Hv'; [|done]. exfalso.
  unfold is_valid_card in Hv, Hv'.
  destruct (_ || _ || _) eqn:E in Hv; [done|]. destruct (_ || _ || _) in Hv'; [done|].
  apply orb_false_iff in E as [_ E]. apply negb_false_iff in E.
  rewrite forallb_app in E. apply andb_prop in E as [_ E]. simpl in E. apply andb_prop in E as [Hd _].
  apply Hne. apply to_digit_inj; [done|done|].
  apply (luhn_digit_inj (length (reverse post))); [apply to_digit_range..|].
  unfold luhn_check in *. rewrite reverse_app, reverse_cons, <- app_assoc, luhn_sum_app in Hv, Hv'.
  simpl in Hv, Hv'. apply Z.eqb_eq in Hv, Hv'.
  set (A := luhn_sum 0 (reverse post)) in *. set (C := luhn_sum _ (reverse pre)) in *.
  set (x := luhn_digit _ (to_digit d)) in *. set (y := luhn_digit _ (to_digit d')) in *.
  replace (x - y)%Z with ((A + (x + C)) - (A + (y + C)))%Z by lia.
  rewrite Zminus_mod, Hv, Hv'. done.
Qed.

Lemma luhn_detects_digit_change_witness :
  is_valid_card (bs "4111111111111111") = true ∧ is_valid_card (bs "4111111111111112") = false.
Proof.
  split; [by vm_compute|].
  apply (luhn_detects_digit_change (bs "411111111111111") x31 x32 []); by vm_compute.
Defined.

(** ** The combined filter *)

Definition is_continuation (b : byte) : bool := ((128 <=? b2z b) && (b2z b <? 192))%Z.

(** What a Rust [&str] guarantees of its bytes: a continuation byte follows
    another non-ASCII byte. *)
Definition str_bytes (l : list byte) : Prop :=
  ∀ i b, l !! i = Some b → is_continuation b = true →
    ∃ j c, i = S j ∧ l !! j = Some c ∧ (128 <= b2z c)%Z.

(** [str::is_char_boundary]: slicing panics anywhere else. *)
Definition char_boundary (l : list byte) (i : nat) : Prop :=
  i <= length l ∧ ∀ b, l !! i = Some b → is_continuation b = false.

Definition span_valid (l : list byte) (x : span) : Prop :=
  let '(s, e, m) := x in
  s < e ∧ char_boundary l s ∧ char_boundary l e ∧
  ((m = marker Email ∧ is_valid_email (slice l s e) = true) ∨
   (m = marker Card ∧ is_valid_card (digits_only (slice l s e)) = true) ∨
   (m = marker Ssn ∧ is_valid_ssn_format (slice l s e) = true ∧
    is_valid_ssn (digits_only (slice l s e)) = true)).

Lemma ascii_not_continuation b : (b2z b < 128)%Z → is_continuation b = false.
Proof. unfold is_continuation. lia. Qed.

Lemma boundary_after_ascii l i b :
  str_bytes l → l !! i = Some b → (b2z b < 128)%Z → char_boundary l (S i).
Proof.
  intros Hl Hi Hb. split; [apply lookup_lt_Some in Hi; lia|]. intros c Hc.
  destruct (is_continuation c) eqn:E; [|done].
  destruct (Hl _ _ Hc E) as (j & d & [= <-] & Hd & Hge). simplify_eq. lia.
Qed.

Lemma boundary_at_ascii l i b : l !! i = Some b → (b2z b < 128)%Z → char_boundary l i.
Proof.
  intros Hi Hb. split; [apply lookup_lt_Some in Hi; lia|]. intros c Hc. simplify_eq.
  by apply ascii_not_continuation.
Qed.

Lemma boundary_zero l : str_bytes l → char_boundary l 0.
Proof.
  intros Hl. split; [lia|]. intros b Hb. destruct (is_continuation b) eqn:E; [|done].
  by destruct (Hl _ _ Hb E) as (j & c & ? & _).
Qed.

Lemma boundary_is_ascii b : is_boundary b = true → (b2z b < 128)%Z.
Proof.
  unfold is_boundary. intros H%bool_decide_eq_true.
  repeat (apply elem_of_cons in H as [->|H]; [done|]). by apply elem_of_nil in H.
Qed.

Lemma digit_is_ascii b : is_ascii_digit b = true → (b2z b < 128)%Z.
Proof. unfold is_ascii_digit. lia. Qed.

(** Where the walks stop. *)
Lemma walk_left_stop class l s :
  s <= length l →
  walk_left class l s = 0 ∨ ∃ b, l !! (walk_left class l s - 1) = Some b ∧ class b = false ∧
    0 < walk_left class l s.
Proof.
  induction s as [|s IH]; intros Hs; simpl; [by left|].
  destruct (lookup_lt_is_Some_2 l s) as [b Hb]; [lia|]. rewrite Hb. simpl.
  destruct (class b) eqn:E; [apply IH; lia|]. right. exists b. simpl. rewrite Nat.sub_0_r. split_and!; [done|done|lia].
Qed.

Lemma walk_right_stop class l e :
  e <= length l →
  walk_right class l e = length l ∨ ∃ b, l !! walk_right class l e = Some b ∧ class b = false.
Proof.
  intros He. unfold walk_right. pose proof (run_length_le class (drop e l)) as Hn.
  rewrite length_drop in Hn.
  destruct (l !! (e + run_length class (drop e l))) as [b|] eqn:Eb.
  - right. exists b. split; [done|]. rewrite <- lookup_drop in Eb. by eapply run_length_at.
  - left. apply lookup_ge_None in Eb. lia.
Qed.

Lemma walk_left_le class l s : walk_left class l s <= s.
Proof. induction s as [|s IH]; simpl; [lia|]. case_match; lia. Qed.

Lemma email_step_valid l i x : str_bytes l → email_step l i = Some x → span_valid l x ∧ i < snd (fst x).
Proof.
  intros Hl. unfold email_step. case_bool_decide as Hat; [|done]. unfold find_email_boundary.
  fold email_class. set (s := walk_left _ _ _). set (e := walk_right _ _ _).
  destruct (_ && _) eqn:E; [|done]. apply andb_prop in E as [E1%Nat.ltb_lt E2%Nat.ltb_lt].
  case_match eqn:Ev; [|done]. intros [= <-]. pose proof (lookup_lt_Some _ _ _ Hat) as Hi.
  assert (e <= length l) as He.
  { unfold e, walk_right. pose proof (run_length_le email_class (drop (i + 1) l)).
    rewrite length_drop in *. lia. }
  simpl. split_and!; [lia| | |by left|lia].
  - destruct (walk_left_stop email_class l i) as [H0|(b & Hb & Hc & Hpos)]; [lia| |];
      fold s in H0 || fold s in Hb, Hpos.
    + rewrite H0. by apply boundary_zero.
    + replace s with (S (s - 1)) by lia. eapply boundary_after_ascii; [done|done|].
      apply boundary_is_ascii. unfold email_class in Hc. by destruct (is_boundary b).
  - destruct (walk_right_stop email_class l (i + 1)) as [H0|(b & Hb & Hc)]; [lia| |];
      fold e in H0 || fold e in Hb.
    + rewrite H0. split; [lia|]. intros b Hb. apply lookup_lt_Some in Hb. lia.
    + eapply boundary_at_ascii; [done|]. apply boundary_is_ascii. unfold email_class in Hc.
      by destruct (is_boundary b).
Qed.

(** Every byte of a class lies in a token. *)
Lemma token_around class l i b :
  l !! i = Some b → class b = true → ∀ pre0, not_last class pre0 ∨ not_head class l →
  ∃ pre tok post j, l = pre ++ tok ++ post ∧ token class (pre0 ++ pre) tok post ∧
    i = length pre + j ∧ j < length tok.
Proof.
  revert i. induction l as [l IH] using (well_founded_induction (well_founded_ltof _ length)).
  unfold ltof in IH. intros i Hi Hb pre0 Hp. destruct (run_length_spec class l) as [Ht Hd].
  set (n := run_length class l) in *. pose proof (run_length_le class l) as Hn. fold n in Hn.
  destruct (decide (n = 0)) as [En|En].
  - destruct l as [|c l]; [done|].
    assert (class c = false) as Hc.
    { destruct (class c) eqn:E; [|done]. unfold n in En. simpl in En. by rewrite E in En. }
    destruct i as [|i]; [simpl in Hi; congruence|]. simpl in Hi.
    destruct (IH l ltac:(simpl; lia) i Hi Hb (pre0 ++ [c])) as (pre & tok & post & j & -> & Htok & -> & Hj).
    { left. unfold not_last. by rewrite last_snoc. }
    exists (c :: pre), tok, post, j. rewrite <- app_assoc in Htok. by split_and!.
  - assert (not_last class pre0) as Hpre.
    { destruct Hp as [?|Hp]; [done|]. destruct l as [|c l]; [done|]. unfold n in En. simpl in *.
      by rewrite Hp in En. }
    destruct (decide (i < n)) as [Hlt|Hge].
    + exists [], (take n l), (drop n l), i. rewrite app_nil_r. simpl. rewrite take_drop, length_take.
      split_and!; [done|by constructor|done|lia].
    + destruct (IH (drop n l) ltac:(rewrite length_drop; lia) (i - n)) with (pre0 := pre0 ++ take n l)
        as (pre & tok & post & j & Hl & Htok & Hij & Hj); [|done|by right|].
      * rewrite lookup_drop. by replace (n + (i - n)) with i by lia.
      * exists (take n l ++ pre), tok, post, j. rewrite <- !app_assoc, <- Hl, take_drop.
        rewrite <- app_assoc in Htok. rewrite length_app, length_take. split_and!; [done|done|lia|done].
Qed.

Lemma digit_step_kinds l i x :
  digit_step [Card; Ssn] l i = Some x → digit_step [Card] l i = Some x ∨ digit_step [Ssn] l i = Some x.
Proof.
  unfold digit_step. destruct (default _ _); [|done]. destruct (find_digit_token _ _) as [[s e]|]; [|done].
  destruct (trim_token l s e) as [s' e']. destruct (e' <=? s'); [done|].
  rewrite !(bool_decide_eq_true_2 (Card ∈ _)), !(bool_decide_eq_true_2 (Ssn ∈ _)) by set_solver.
  rewrite (bool_decide_eq_false_2 (Card ∈ [Ssn])) by set_solver.
  rewrite (bool_decide_eq_false_2 (Ssn ∈ [Card])) by set_solver. simpl.
  destruct (card_candidate _); auto.
Qed.

Lemma digit_found_inv kind t a b :
  digit_found kind t = Some (a, b) →
  a < b ∧ b <= length t ∧ digit_test kind (slice t a b) = true ∧
  (∃ x, t !! a = Some x ∧ is_ascii_digit x = true) ∧
  (∃ x, t !! (b - 1) = Some x ∧ is_ascii_digit x = true) ∧
  (∀ j x, t !! j = Some x → is_ascii_digit x = true → j < b).
Proof.
  unfold digit_found. destruct (trim_token t 0 (length t)) as [a' b'] eqn:Etrim.
  destruct (a' <? b') eqn:Eab; simpl; [|done]. case_match eqn:Ev; [|done]. intros; simplify_eq.
  apply Nat.ltb_lt in Eab.
  apply trim_spec in Etrim as (Ha & Hb & Hbefore & Hafter & Hat & Hlast).
  split_and!; auto. intros j x Hj Hx. destruct (decide (j < b)); [done|].
  pose proof (lookup_lt_Some _ _ _ Hj). destruct (Hafter j) as (y & Hy & Hd); [lia|lia|]. congruence.
Qed.

Lemma digit_kind_step_valid kind l i x :
  kind ≠ Email → str_bytes l → digit_step [kind] l i = Some x → span_valid l x ∧ i < snd (fst x).
Proof.
  intros Hk Hl Hstep.
  assert (∃ b, l !! i = Some b ∧ is_ascii_digit b = true) as (b & Hb & Hd).
  { unfold digit_step in Hstep. destruct (l !! i) as [b|] eqn:E; simpl in Hstep; [|done].
    exists b. split; [done|]. by destruct (is_ascii_digit b). }
  destruct (token_around digit_class l i b Hb (digit_is_class b Hd) [])
    as (pre & tok & post & j & -> & Htok & -> & Hj); [by left|]. simpl in Htok.
  rewrite lookup_token in Hb by done.
  rewrite digit_step_token in Hstep by done. rewrite Hb in Hstep. simpl in Hstep. rewrite Hd in Hstep.
  destruct (digit_found kind tok) as [[a c]|] eqn:Ef; [|done]. simplify_eq.
  apply digit_found_inv in Ef as (Hac & Hc & Htest & (x & Hx & Hxd) & (y & Hy & Hyd) & Hall).
  pose proof (Hall _ _ Hb Hd) as Hjc. simpl. split; [|lia]. rewrite slice_in_token by lia.
  split_and!; [lia| | |].
  - eapply boundary_at_ascii; [rewrite lookup_token by lia; exact Hx|by apply digit_is_ascii].
  - replace (length pre + c) with (S (length pre + (c - 1))) by lia.
    eapply boundary_after_ascii; [done|rewrite lookup_token by lia; exact Hy|by apply digit_is_ascii].
  - destruct kind; [done|right; left|right; right]; simpl in Htest;
      unfold card_candidate, ssn_candidate in Htest.
    + split; [done|]. by apply andb_prop in Htest as [_ ?].
    + apply andb_prop in Htest as [Htest ?]. by apply andb_prop in Htest as [_ ?].
Qed.

Lemma all_step_valid l i x : str_bytes l → all_step l i = Some x → span_valid l x ∧ i < snd (fst x).
Proof.
  intros Hl. unfold all_step. destruct (email_step l i) eqn:E.
  - intros [= <-]. by apply email_step_valid.
  - intros [H|H]%digit_step_kinds; [by eapply (digit_kind_step_valid Card)|].
    by eapply (digit_kind_step_valid Ssn).
Qed.

(** The loop makes progress, so that its fuel never runs out. *)
Lemma scan_valid step l fuel i :
  (∀ j x, step j = Some x → span_valid l x ∧ j < snd (fst x)) →
  Forall (span_valid l) (scan step (length l) fuel i).
Proof.
  intros Hstep. revert i. induction fuel as [|fuel IH]; intros i; simpl; [done|].
  case_match; [|done]. destruct (step i) as [[[s e] m]|] eqn:E; [|done].
  constructor; [by apply (Hstep i)|done].
Qed.

Lemma scan_fuel step len f1 f2 i :
  (∀ j x, step j = Some x → j < snd (fst x)) → len - i <= f1 → len - i <= f2 →
  scan step len f1 i = scan step len f2 i.
Proof.
  intros Hstep. revert f2 i. induction f1 as [|f1 IH]; intros f2 i H1 H2.
  - by rewrite !scan_done by lia.
  - destruct f2 as [|f2]; [by rewrite !scan_done by lia|]. simpl.
    destruct (i <? len) eqn:E; [|done]. apply Nat.ltb_lt in E.
    destruct (step i) as [[[s e] m]|] eqn:Es.
    + apply Hstep in Es. simpl in Es. f_equal. apply IH; lia.
    + apply IH; lia.
Qed.

(** every span the combined filter reports lies on character boundaries of
    the string, so that slicing cannot panic, is not empty, and covers a valid
    email, card number or social security number of the kind its marker
    names; the scan ends before its bound whatever the input. *)
Theorem find_all_spans_valid input :
  str_bytes input →
  Forall (span_valid input) (find_all_spans input) ∧
  ∀ more, scan (all_step input) (length input) (length input + more) 0 = find_all_spans input.
Proof.
  intros Hl. split.
  - apply scan_valid. intros j x. by apply all_step_valid.
  - intros more. apply scan_fuel; [|lia|lia]. intros j x Hx. by eapply all_step_valid.
Qed.

Lemma find_all_spans_valid_witness :
  find_all_spans (bs "id 123-45-6789") = [(3, 14, marker Ssn)] ∧
  Forall (span_valid (bs "id 123-45-6789")) (find_all_spans (bs "id 123-45-6789")).
Proof.
  split; [by vm_compute|]. apply (find_all_spans_valid (bs "id 123-45-6789")).
  intros i b Hi Hc. exfalso. revert Hc. apply not_true_iff_false, ascii_not_continuation.
  assert (Forall (λ b, b2z b < 128)%Z (bs "id 123-45-6789")) as Hall by (repeat constructor).
  exact (Forall_lookup_1 _ _ _ _ Hall Hi).
Defined.

(** the combined filter leaks a card number that touches an email address:
    here the card filter alone redacts the number, but the combined filter drops
    its span because it overlaps the email's, and fifteen of the sixteen digits
    stay in the output. *)
Theorem redact_pii_overlap_leak :
  let input := bs "a@b.4 111111111111111" in
  find_all_spans input = [(0, 5, marker Email); (4, 21, marker Card)] ∧
  redact_cards input = bs "a@b.[REDACTED_CARD]" ∧
  redact_pii input = bs "[REDACTED_EMAIL] 111111111111111".
Proof. by vm_compute. Qed.
