(* ===== verification/RustStr.v ===== *)
(** * Strings: what the code uses of [str] and [String]

    A Rust string is the list of its UTF-8 bytes.  The functions of the
    standard library that the components call are written out on them:
    UTF-8 validation with its error, trimming, splitting, parsing of
    integers, ASCII case. *)

From S2P Require Import Prelude.

#[local] Open Scope Z_scope.
Set Default Goal Selector "!".

(** ** UTF-8 *)

(** [Utf8Error]: the index up to which the input is valid, and the length of
    the invalid sequence unless the input ends inside one. *)
Record Utf8Error := mkUtf8Error { valid_up_to : Z; error_len : option Z }.

Definition within (lo hi : Z) (b : byte) : bool := (lo <=? b2z b) && (b2z b <=? hi).

(** [str::from_utf8], from the byte at index [i] on: the error it reports. *)
Fixpoint utf8_error_from (i : Z) (l : list byte) : option Utf8Error :=
  let err n := Some (mkUtf8Error i n) in
  match l with
  | [] => None
  | a :: l1 =>
      if b2z a <? 128 then utf8_error_from (i + 1) l1
      else if within 194 223 a then
        match l1 with
        | [] => err None
        | b :: l2 => if within 128 191 b then utf8_error_from (i + 2) l2 else err (Some 1)
        end
      else if within 224 239 a then
        match l1 with
        | [] => err None
        | b :: l2 =>
            if within (if b2z a =? 224 then 160 else 128) (if b2z a =? 237 then 159 else 191) b then
              match l2 with
              | [] => err None
              | c :: l3 => if within 128 191 c then utf8_error_from (i + 3) l3 else err (Some 2)
              end
            else err (Some 1)
        end
      else if within 240 244 a then
        match l1 with
        | [] => err None
        | b :: l2 =>
            if within (if b2z a =? 240 then 144 else 128) (if b2z a =? 244 then 143 else 191) b then
              match l2 with
              | [] => err None
              | c :: l3 =>
                  if within 128 191 c then
                    match l3 with
                    | [] => err None
                    | d :: l4 => if within 128 191 d then utf8_error_from (i + 4) l4 else err (Some 3)
                    end
                  else err (Some 2)
              end
            else err (Some 1)
        end
      else err (Some 1)
  end.

Definition utf8_error (l : list byte) : option Utf8Error := utf8_error_from 0 l.
Definition utf8_valid (l : list byte) : bool := match utf8_error l with None => true | Some _ => false end.

(** [Display for Utf8Error]. *)
Definition utf8_error_to_string (e : Utf8Error) : string :=
  match error_len e with
  | Some n => "invalid utf-8 sequence of " +:+ pretty n +:+ " bytes from index " +:+ pretty (valid_up_to e)
  | None => "incomplete utf-8 byte sequence from index " +:+ pretty (valid_up_to e)
  end.

(** ** Trimming, splitting, case, integers *)

(** The UTF-8 encodings of the characters [char::is_whitespace] accepts. *)
Definition whitespace : list (list byte) :=
  [[x09]; [x0a]; [x0b]; [x0c]; [x0d]; [x20]; [xc2; x85]; [xc2; xa0]; [xe1; x9a; x80];
   [xe2; x80; x80]; [xe2; x80; x81]; [xe2; x80; x82]; [xe2; x80; x83]; [xe2; x80; x84];
   [xe2; x80; x85]; [xe2; x80; x86]; [xe2; x80; x87]; [xe2; x80; x88]; [xe2; x80; x89];
   [xe2; x80; x8a]; [xe2; x80; xa8]; [xe2; x80; xa9]; [xe2; x80; xaf]; [xe2; x81; x9f];
   [xe3; x80; x80]].

(** [str::strip_prefix]. *)
Definition strip_prefix (p l : list byte) : option (list byte) :=
  if bool_decide (take (length p) l = p) then Some (drop (length p) l) else None.

(** [starts_with]. *)
Definition starts_with (p l : list byte) : bool := bool_decide (take (length p) l = p).

Fixpoint strip_any (ps : list (list byte)) (l : list byte) : option (list byte) :=
  match ps with
  | [] => None
  | p :: ps => match strip_prefix p l with Some r => Some r | None => strip_any ps l end
  end.

Fixpoint trim_start (fuel : nat) (ps : list (list byte)) (l : list byte) : list byte :=
  match fuel with
  | O => l
  | S fuel => match strip_any ps l with Some r => trim_start fuel ps r | None => l end
  end.

(** [str::trim]: leading, then trailing white space; every step drops a byte. *)
Definition trim (l : list byte) : list byte :=
  let l := trim_start (length l) whitespace l in
  reverse (trim_start (length l) (reverse <$> whitespace) (reverse l)).

Definition eq_ignore_ascii_case (a b : list byte) : bool :=
  bool_decide (to_ascii_lowercase <$> a = to_ascii_lowercase <$> b).

(** [str::split_once]. *)
Definition split_once (c : byte) (l : list byte) : option (list byte * list byte) :=
  i ← position (λ b, bool_decide (b = c)) l; Some (take i l, drop (S i) l).

(** [char::to_digit(16)] and [to_digit(10)]. *)
Definition to_digit_radix (radix : Z) (b : byte) : option Z :=
  let v := if is_ascii_digit b then b2z b - 48
           else if (97 <=? b2z b) && (b2z b <=? 122) then b2z b - 87
           else if (65 <=? b2z b) && (b2z b <=? 90) then b2z b - 55
           else 36 in
  if v <? radix then Some v else None.

Fixpoint radix_digits (radix acc : Z) (l : list byte) : option Z :=
  match l with
  | [] => Some acc
  | b :: l =>
      d ← to_digit_radix radix b;
      (if acc * radix + d <=? u64_max then radix_digits radix (acc * radix + d) l else None)
  end.

(** [u64::from_str_radix]: a leading [+] is accepted, an empty number is not. *)
Definition from_str_radix (radix : Z) (l : list byte) : option Z :=
  match l with
  | [] => None
  | b :: r =>
      if bool_decide (b = x2b) then (if bool_decide (r = []) then None else radix_digits radix 0 r)
      else radix_digits radix 0 l
  end.

(** [str::split(c)]: the pieces between the separators. *)
Fixpoint split_on (c : byte) (l : list byte) : list (list byte) :=
  match l with
  | [] => [[]]
  | b :: l =>
    let pieces := split_on c l in
    if bool_decide (b = c) then [] :: pieces
    else match pieces with p :: ps => (b :: p) :: ps | [] => [[b]] end
  end.

(** [join] of a slice of strings. *)
Fixpoint join (sep : list byte) (l : list (list byte)) : list byte :=
  match l with
  | [] => []
  | [x] => x
  | x :: l => x ++ sep ++ join sep l
  end.

(** [str]'s order: bytewise lexicographic. *)
Fixpoint str_lt (a b : list byte) : bool :=
  match a, b with
  | _, [] => false
  | [], _ :: _ => true
  | x :: a, y :: b => (b2z x <? b2z y) || (bool_decide (x = y) && str_lt a b)
  end.

(** ** Lemmas *)

Lemma split_on_none c l : c ∉ l → split_on c l = [l].
Proof.
  induction l as [|b l IH]; intros Hl; cbn; [done|].
  rewrite IH by set_solver. rewrite bool_decide_false; [done|]. set_solver.
Qed.

Lemma split_on_cons c a l : c ∉ a → split_on c (a ++ c :: l) = a :: split_on c l.
Proof.
  induction a as [|b a IH]; intros Ha; cbn; [by rewrite bool_decide_true|].
  rewrite IH by set_solver. rewrite bool_decide_false; [done|]. set_solver.
Qed.

Lemma split_on_spec c l :
  ((c ∉ l) ∧ split_on c l = [l])
  ∨ ∃ a l', l = a ++ c :: l' ∧ (c ∉ a) ∧ split_on c l = a :: split_on c l'.
Proof.
  induction l as [|b l IH]; [left; split; [set_solver|done]|].
  destruct (decide (b = c)) as [->|Hne].
  - right. exists [], l. cbn. rewrite bool_decide_true by done. split_and!; [done|set_solver|done].
  - cbn. rewrite bool_decide_false by done. destruct IH as [[Hn E]|(a & l' & -> & Ha & E)].
    + left. rewrite E. split; [set_solver|done].
    + right. exists (b :: a), l'. rewrite E. split_and!; [done|set_solver|done].
Qed.

Lemma str_lt_irrefl a : str_lt a a = false.
Proof. induction a as [|x a IH]; cbn; [done|]. rewrite Z.ltb_irrefl, IH. by rewrite andb_false_r. Qed.

Lemma str_lt_trans a b c : str_lt a b = true → str_lt b c = true → str_lt a c = true.
Proof.
  revert b c. induction a as [|x a IH]; intros [|y b] [|z c]; cbn; try done.
  rewrite !orb_true_iff, !andb_true_iff, !bool_decide_eq_true, !Z.ltb_lt.
  intros [Hxy|[-> Hab]] [Hyz|[-> Hbc]]; [left; lia | by left | by left |].
  right. split; [done|]. by eapply IH.
Qed.

(** ** Splitting and joining *)

Lemma split_on_nonempty c l : split_on c l ≠ [].
Proof. by destruct (split_on_spec c l) as [[_ ->]|(? & ? & _ & _ & ->)]. Qed.

Lemma join_cons sep x l : l ≠ [] → join sep (x :: l) = x ++ sep ++ join sep l.
Proof. by destruct l. Qed.

Lemma join_split c l : join [c] (split_on c l) = l.
Proof.
  induction l as [l IH] using (induction_ltof1 _ length). unfold ltof in IH.
  destruct (split_on_spec c l) as [[_ ->]|(a & l' & -> & _ & ->)]; [done|].
  rewrite join_cons by apply split_on_nonempty. rewrite IH; [done|]. rewrite length_app. cbn. lia.
Qed.

Lemma split_join c l : l ≠ [] → Forall (λ p, c ∉ p) l → split_on c (join [c] l) = l.
Proof.
  induction l as [|x l IH]; intros Hne Hl; [done|]. apply Forall_cons in Hl as [Hx Hl].
  destruct l as [|y l]; [by apply split_on_none|]. rewrite join_cons by done. cbn [app].
  rewrite split_on_cons by done. by rewrite IH.
Qed.

Lemma split_on_pieces c l : Forall (λ p, c ∉ p) (split_on c l).
Proof.
  induction l as [l IH] using (induction_ltof1 _ length). unfold ltof in IH.
  destruct (split_on_spec c l) as [[Hn ->]|(a & l' & -> & Ha & ->)]; [by repeat constructor|].
  constructor; [done|]. apply IH. rewrite length_app. cbn. lia.
Qed.

Lemma join_inj c l1 l2 :
  l1 ≠ [] → l2 ≠ [] → Forall (λ p, c ∉ p) l1 → Forall (λ p, c ∉ p) l2 →
  join [c] l1 = join [c] l2 → l1 = l2.
Proof. intros H1 H2 F1 F2 E. rewrite <- (split_join c l1), <- (split_join c l2) by done. by rewrite E. Qed.

(** ** Characters that are never trimmed *)

(** A graphic ASCII character: it is never trimmed. *)
Definition graphic (b : byte) : bool := (33 <=? b2z b) && (b2z b <=? 126).

Lemma strip_prefix_app p l : strip_prefix p (p ++ l) = Some l.
Proof. unfold strip_prefix. by rewrite take_app_length, bool_decide_true, drop_app_length. Qed.

Lemma strip_any_graphic ps b l :
  forallb (λ p, match p with [] => false | c :: _ => negb (graphic c) end) ps = true →
  graphic b = true → strip_any ps (b :: l) = None.
Proof.
  intros Hps Hb. induction ps as [|p ps IH]; [done|]. cbn in Hps. apply andb_true_iff in Hps as [Hp Hps].
  destruct p as [|c p]; [done|]. cbn. unfold strip_prefix. cbn.
  rewrite bool_decide_false; [by apply IH|]. intros [= -> _]. by rewrite Hb in Hp.
Qed.

Lemma trim_start_graphic fuel ps b l :
  forallb (λ p, match p with [] => false | c :: _ => negb (graphic c) end) ps = true →
  graphic b = true → trim_start fuel ps (b :: l) = b :: l.
Proof. intros Hps Hb. destruct fuel as [|fuel]; [done|]. cbn [trim_start]. by rewrite strip_any_graphic. Qed.

Lemma trim_graphic l b c : head l = Some b → last l = Some c → graphic b = true → graphic c = true → trim l = l.
Proof.
  intros Hh [l' ->]%last_Some Hb Hc. unfold trim.
  assert (trim_start (length (l' ++ [c])) whitespace (l' ++ [c]) = l' ++ [c]) as ->.
  { destruct (l' ++ [c]) as [|x r]; [done|]. injection Hh as ->. by apply trim_start_graphic. }
  rewrite reverse_app. cbn [reverse rev_append app]. rewrite trim_start_graphic by done.
  change (c :: reverse l') with ([c] ++ reverse l'). by rewrite reverse_app, reverse_involutive.
Qed.

(** ** Printing and parsing of integers *)

(** A [u64] as [to_string] prints it. *)
Definition show_u64 (z : Z) : list byte := bs (pretty (Z.to_N z)).

Lemma bs_cons c s : bs (String.String c s) = Ascii.byte_of_ascii c :: bs s.
Proof. reflexivity. Qed.

Lemma digit_byte (n : N) : (n < 10)%N →
  to_digit_radix 10 (Ascii.byte_of_ascii (pretty_N_char n)) = Some (Z.of_N n)
  ∧ is_ascii_digit (Ascii.byte_of_ascii (pretty_N_char n)) = true.
Proof.
  intros Hn. assert (n = 0 ∨ n = 1 ∨ n = 2 ∨ n = 3 ∨ n = 4 ∨ n = 5 ∨ n = 6 ∨ n = 7 ∨ n = 8 ∨ n = 9)%N as Hc by lia.
  by destruct Hc as [->|[->|[->|[->|[->|[->|[->|[->|[->| ->]]]]]]]]].
Qed.

Lemma pretty_go_digits x s :
  (x <= Z.to_N u64_max)%N →
  radix_digits 10 0 (bs (pretty_N_go x s)) = radix_digits 10 (Z.of_N x) (bs s)
  ∧ (forallb is_ascii_digit (bs s) = true → forallb is_ascii_digit (bs (pretty_N_go x s)) = true).
Proof.
  revert s. induction (N.lt_wf_0 x) as [x _ IH]; intros s Hx.
  assert (x = 0 ∨ 0 < x)%N as [->|Hp] by lia; [by rewrite pretty_N_go_0|].
  rewrite pretty_N_go_step by done.
  assert (Hd : (x `mod` 10 < 10)%N) by (by apply N.mod_lt).
  destruct (digit_byte _ Hd) as [E1 E2].
  destruct (IH (x `div` 10)%N (N.div_lt x 10 Hp eq_refl) (String.String (pretty_N_char (x `mod` 10)) s)) as [I1 I2].
  { pose proof (N.Div0.div_le_upper_bound x 10 x). lia. }
  rewrite I1. rewrite bs_cons in *. cbn [radix_digits forallb] in *. rewrite E1, E2 in *. cbn [mbind option_bind andb] in *.
  split; [|done].
  assert (Ex : Z.of_N (x `div` 10) * 10 + Z.of_N (x `mod` 10) = Z.of_N x).
  { pose proof (N.div_mod x 10). lia. }
  rewrite Ex, (proj2 (Z.leb_le _ _)); [done|]. assert (0 <= u64_max) by done. lia.
Qed.

Lemma show_u64_digits z : is_u64 z → forallb is_ascii_digit (show_u64 z) = true ∧ show_u64 z ≠ [].
Proof.
  intros Hz. unfold show_u64, pretty, pretty_N, is_u64 in *. destruct (decide _) as [|Hn]; [by split|].
  split; [apply pretty_go_digits; [lia|done]|].
  intros E. destruct (pretty_go_digits (Z.to_N z) "") as [Hr _]; [lia|]. rewrite E in Hr.
  change (Some 0 = Some (Z.of_N (Z.to_N z))) in Hr. assert (E0 : 0 = Z.of_N (Z.to_N z)) by congruence.
  apply Hn. rewrite Z2N.id in E0 by lia. by subst z.
Qed.

Lemma show_u64_parse z : is_u64 z → from_str_radix 10 (show_u64 z) = Some z.
Proof.
  intros Hz. destruct (show_u64_digits z Hz) as [Hd Hn]. unfold from_str_radix.
  assert (Hr : radix_digits 10 0 (show_u64 z) = Some z).
  { unfold show_u64, pretty, pretty_N, is_u64 in *. destruct (decide _) as [E|_].
    - assert (z = 0) as -> by lia. done.
    - destruct (pretty_go_digits (Z.to_N z) "") as [-> _]; [lia|]. change (Some (Z.of_N (Z.to_N z)) = Some z).
      f_equal. lia. }
  destruct (show_u64 z) as [|b r]; [done|]. rewrite bool_decide_eq_false_2; [done|].
  by intros ->.
Qed.
