(* ===== verification/Integrity.v ===== *)
(** * Payload integrity: [crates/gateway/src/integrity.rs]

    The incremental verifier that every request body passes through: fixed
    payloads with a SHA-256, the three [aws-chunked] streaming modes with
    their chunk and trailer signatures, and the S3 checksum headers.

    Digests, HMAC, hexadecimal and base64 are crates outside the repository:
    the class [Crypto] is what the code calls of them, and [CryptoLaws] what
    they document (hashing a message in pieces is hashing it at once).  A
    [HeaderMap] is the function from a header name to the values [get_all]
    yields, each as the result of [HeaderValue::to_str].  Strings are the
    lists of their UTF-8 bytes. *)

From S2P Require Import Prelude RustStr.

#[local] Open Scope Z_scope.
Set Default Goal Selector "!".

(** ** The crates the module calls *)

(** An incremental digest with output [A]: [new], [update] and [finalize]. *)
Record Hash (A : Type) := mkHash {
  h_state : Type;
  h_new : h_state;
  h_update : h_state → list byte → h_state;
  h_finalize : h_state → A;
}.
Arguments h_state {A}.
Arguments h_new {A}.
Arguments h_update {A}.
Arguments h_finalize {A}.

(** [H::digest(bytes)]. *)
Definition digest {A} (H : Hash A) (l : list byte) : A :=
  h_finalize H (h_update H (h_new H) l).

Class HashLaws {A} (H : Hash A) : Prop := {
  h_update_nil h : h_update H h [] = h;
  h_update_app h a b : h_update H (h_update H h a) b = h_update H h (a ++ b);
}.

Class Crypto := {
  c_sha256 : Hash (list byte);
  c_sha1 : Hash (list byte);
  c_crc32 : Hash Z;
  c_crc32c : Hash Z;
  c_crc64nvme : Hash Z;
  hmac_sha256 : list byte → list byte → list byte;
  hex_encode : list byte → list byte;
  hex_decode : list byte → option (list byte);
  base64_decode : list byte → option (list byte);
}.

Class CryptoLaws `{Crypto} : Prop := {
  sha256_laws :: HashLaws c_sha256;
  sha1_laws :: HashLaws c_sha1;
  crc32_laws :: HashLaws c_crc32;
  crc32c_laws :: HashLaws c_crc32c;
  crc64nvme_laws :: HashLaws c_crc64nvme;
}.

(** What [headers.get_all(name)] yields; [None] is a value that is not
    visible ASCII, which [to_str] refuses. *)
Definition HeaderMap : Type := string → list (option (list byte)).

(** ** Constants and errors *)

Definition EMPTY_SHA256 : list byte :=
  bs "e3b0c44298fc1c149afbf4c8996fb92427ae41e4649b934ca495991b7852b855".
Definition MAX_CHUNK_HEADER_BYTES : nat := 8 * 1024.
Definition MAX_TRAILER_LINE_BYTES : nat := 8 * 1024.
Definition MAX_TRAILER_BYTES : Z := 16 * 1024.
Definition MAX_TRAILERS : Z := 16.
Definition MAX_CHUNKS : Z := 100000.
Definition MAX_CHUNK_BYTES : Z := 16 * 1024 * 1024.

Inductive IntegrityError : Type :=
| ConflictingChecksum
| DecodedLengthMismatch
| DuplicateHeader (name : string)
| DuplicateTrailer (name : list byte)
| Framing (message : string)
| InvalidChecksum (name : string)
| InvalidDecodedLength
| InvalidPayloadHash
| MissingChecksum
| MissingDecodedLength
| MissingTrailerDeclaration
| OversizedFraming
| PayloadHashMismatch
| SignatureMismatch
| TrailingData
| Truncated
| UnsupportedContentEncoding
| UnsupportedPayloadMode.
#[global] Instance IntegrityError_eq_dec : EqDecision IntegrityError.
Proof. solve_decision. Defined.

Record StreamingSigning := mkSigning {
  signing_key : list byte;
  timestamp : list byte;
  scope : list byte;
  seed_signature : list byte;
}.

Inductive StreamingMode : Type := Signed | SignedTrailer | UnsignedTrailer.
#[global] Instance StreamingMode_eq_dec : EqDecision StreamingMode.
Proof. solve_decision. Defined.

Inductive ChecksumAlgorithm : Type := Crc32 | Crc32c | Crc64Nvme | Sha1 | Sha256.
#[global] Instance ChecksumAlgorithm_eq_dec : EqDecision ChecksumAlgorithm.
Proof. solve_decision. Defined.

(** ** Checksum algorithms *)

Definition ALL : list (ChecksumAlgorithm * string) :=
  [(Crc32, "x-amz-checksum-crc32"%string); (Crc32c, "x-amz-checksum-crc32c"%string);
   (Crc64Nvme, "x-amz-checksum-crc64nvme"%string); (Sha1, "x-amz-checksum-sha1"%string);
   (Sha256, "x-amz-checksum-sha256"%string)].

(** [iter().find_map(f)]. *)
Fixpoint find_map {A B} (f : A → option B) (l : list A) : option B :=
  match l with
  | [] => None
  | x :: l => match f x with Some b => Some b | None => find_map f l end
  end.

(** The [expect] never fails: [ALL] names every constructor (see [header_all]). *)
Definition header (a : ChecksumAlgorithm) : string :=
  default ""%string (find_map (λ p, if bool_decide (p.1 = a) then Some p.2 else None) ALL).

Definition sdk_name (a : ChecksumAlgorithm) : string :=
  match a with
  | Crc32 => "CRC32" | Crc32c => "CRC32C" | Crc64Nvme => "CRC64NVME"
  | Sha1 => "SHA1" | Sha256 => "SHA256"
  end%string.

Definition from_header (name : list byte) : option ChecksumAlgorithm :=
  find_map (λ p, if eq_ignore_ascii_case name (bs p.2) then Some p.1 else None) ALL.

(** The fold of [difference | (left ^ right)] over the zipped bytes. *)
Definition byte_difference (left right : list byte) : Z :=
  foldl (λ difference p, Z.lor difference (Z.lxor (b2z p.1) (b2z p.2))) 0 (zip left right).

Definition constant_time_eq (left right : list byte) : bool :=
  if negb (length left =? length right)%nat then false
  else byte_difference left right =? 0.

(** ** Framing state *)

Inductive DecodeState : Type :=
| Header
| Data
| DataCrlf (matched : nat)
| FinalCrlf (matched : nat)
| Trailers
| Done.
#[global] Instance DecodeState_eq_dec : EqDecision DecodeState.
Proof. solve_decision. Defined.

Section integrity.
Context `{C : Crypto}.

Inductive ChecksumState : Type :=
| StCrc32 (h : h_state c_crc32)
| StCrc32c (h : h_state c_crc32c)
| StCrc64Nvme (h : h_state c_crc64nvme)
| StSha1 (h : h_state c_sha1)
| StSha256 (h : h_state c_sha256).

Definition checksum_new (a : ChecksumAlgorithm) : ChecksumState :=
  match a with
  | Crc32 => StCrc32 (h_new _)
  | Crc32c => StCrc32c (h_new _)
  | Crc64Nvme => StCrc64Nvme (h_new _)
  | Sha1 => StSha1 (h_new _)
  | Sha256 => StSha256 (h_new _)
  end.

Definition checksum_update (s : ChecksumState) (l : list byte) : ChecksumState :=
  match s with
  | StCrc32 h => StCrc32 (h_update _ h l)
  | StCrc32c h => StCrc32c (h_update _ h l)
  | StCrc64Nvme h => StCrc64Nvme (h_update _ h l)
  | StSha1 h => StSha1 (h_update _ h l)
  | StSha256 h => StSha256 (h_update _ h l)
  end.

Definition checksum_finalize (s : ChecksumState) : list byte :=
  match s with
  | StCrc32 h => to_be_bytes 4 (h_finalize _ h)
  | StCrc32c h => to_be_bytes 4 (h_finalize _ h)
  | StCrc64Nvme h => to_be_bytes 8 (h_finalize _ h)
  | StSha1 h => h_finalize _ h
  | StSha256 h => h_finalize _ h
  end.

Definition decode_checksum (a : ChecksumAlgorithm) (value : list byte)
    : result IntegrityError (list byte) :=
  match base64_decode value with
  | None => Err (InvalidChecksum (header a))
  | Some decoded =>
      let expected_len :=
        match a with Crc32 | Crc32c => 4 | Crc64Nvme => 8 | Sha1 => 20 | Sha256 => 32 end%nat in
      if negb (length decoded =? expected_len)%nat then Err (InvalidChecksum (header a))
      else Ok decoded
  end.

Record ChecksumVerifier := mkChecksum {
  cv_algorithm : ChecksumAlgorithm;
  cv_state : ChecksumState;
  cv_expected : option (list byte);
  cv_trailer_required : bool;
}.

Definition cv_update (v : ChecksumVerifier) (l : list byte) : ChecksumVerifier :=
  mkChecksum (cv_algorithm v) (checksum_update (cv_state v) l) (cv_expected v) (cv_trailer_required v).

Definition set_trailer (name value : list byte) : SE ChecksumVerifier IntegrityError unit := λ v,
  if negb (eq_ignore_ascii_case name (bs (header (cv_algorithm v))))
     || negb (bool_decide (cv_expected v = None))
  then (Err ConflictingChecksum, v)
  else match decode_checksum (cv_algorithm v) value with
       | Err e => (Err e, v)
       | Ok expected =>
           (Ok tt, mkChecksum (cv_algorithm v) (cv_state v) (Some expected) (cv_trailer_required v))
       end.

Definition cv_finish (v : ChecksumVerifier) : result IntegrityError unit :=
  expected ← ok_or (cv_expected v) MissingChecksum;
  if cv_trailer_required v && bool_decide (expected = []) then Err MissingChecksum
  else if constant_time_eq (checksum_finalize (cv_state v)) expected then Ok tt
  else Err (InvalidChecksum (header (cv_algorithm v))).

(** ** Signatures *)

Definition parse_sha256 (value : list byte) : result IntegrityError (list byte) :=
  if negb (length value =? 64)%nat || negb (forallb is_ascii_hexdigit value)
  then Err InvalidPayloadHash
  else match hex_decode value with
       | Some output => if (length output =? 32)%nat then Ok output else Err InvalidPayloadHash
       | None => Err InvalidPayloadHash
       end.

Definition hmac_hex (key message : list byte) : list byte := hex_encode (hmac_sha256 key message).

Definition constant_time_hex_eq (left right : list byte) : bool :=
  match hex_decode left, hex_decode right with
  | Some l, Some r => constant_time_eq l r
  | _, _ => false
  end.

Definition empty_signing : StreamingSigning := mkSigning (replicate 32 x00) [] [] [].

(** ** The [aws-chunked] decoder *)

Record AwsChunkedDecoder := mkDecoder {
  mode : StreamingMode;
  signing : StreamingSigning;
  previous_signature : list byte;
  state : DecodeState;
  line : list byte;
  chunk_remaining : Z;
  chunk_hasher : h_state c_sha256;
  expected_chunk_signature : option (list byte);
  expected_decoded_length : Z;
  decoded_length : Z;
  chunks : Z;
  trailer_bytes : Z;
  trailer_count : Z;
  declared_trailer : option (list byte);
  checksum_trailer : option (list byte * list byte);
  trailer_signature : option (list byte);
}.

Definition decoder_new (m : StreamingMode) (len : Z) (trailer : option (list byte))
    (sg : StreamingSigning) : AwsChunkedDecoder :=
  mkDecoder m sg (seed_signature sg) Header [] 0 (h_new _) None len 0 0 0 0 trailer None None.

(** Assignments to one field. *)
Definition set_previous (x : list byte) (d : AwsChunkedDecoder) : AwsChunkedDecoder :=
  let 'mkDecoder m sg _ st ln cr ch es el dl ck tb tc dt ct ts := d in
  mkDecoder m sg x st ln cr ch es el dl ck tb tc dt ct ts.
Definition set_state (x : DecodeState) (d : AwsChunkedDecoder) : AwsChunkedDecoder :=
  let 'mkDecoder m sg ps _ ln cr ch es el dl ck tb tc dt ct ts := d in
  mkDecoder m sg ps x ln cr ch es el dl ck tb tc dt ct ts.
Definition set_line (x : list byte) (d : AwsChunkedDecoder) : AwsChunkedDecoder :=
  let 'mkDecoder m sg ps st _ cr ch es el dl ck tb tc dt ct ts := d in
  mkDecoder m sg ps st x cr ch es el dl ck tb tc dt ct ts.
Definition set_remaining (x : Z) (d : AwsChunkedDecoder) : AwsChunkedDecoder :=
  let 'mkDecoder m sg ps st ln _ ch es el dl ck tb tc dt ct ts := d in
  mkDecoder m sg ps st ln x ch es el dl ck tb tc dt ct ts.
Definition set_hasher (x : h_state c_sha256) (d : AwsChunkedDecoder) : AwsChunkedDecoder :=
  let 'mkDecoder m sg ps st ln cr _ es el dl ck tb tc dt ct ts := d in
  mkDecoder m sg ps st ln cr x es el dl ck tb tc dt ct ts.
Definition set_expected (x : option (list byte)) (d : AwsChunkedDecoder) : AwsChunkedDecoder :=
  let 'mkDecoder m sg ps st ln cr ch _ el dl ck tb tc dt ct ts := d in
  mkDecoder m sg ps st ln cr ch x el dl ck tb tc dt ct ts.
Definition set_decoded (x : Z) (d : AwsChunkedDecoder) : AwsChunkedDecoder :=
  let 'mkDecoder m sg ps st ln cr ch es el _ ck tb tc dt ct ts := d in
  mkDecoder m sg ps st ln cr ch es el x ck tb tc dt ct ts.
Definition set_chunks (x : Z) (d : AwsChunkedDecoder) : AwsChunkedDecoder :=
  let 'mkDecoder m sg ps st ln cr ch es el dl _ tb tc dt ct ts := d in
  mkDecoder m sg ps st ln cr ch es el dl x tb tc dt ct ts.
Definition set_trailer_bytes (x : Z) (d : AwsChunkedDecoder) : AwsChunkedDecoder :=
  let 'mkDecoder m sg ps st ln cr ch es el dl ck _ tc dt ct ts := d in
  mkDecoder m sg ps st ln cr ch es el dl ck x tc dt ct ts.
Definition set_trailer_count (x : Z) (d : AwsChunkedDecoder) : AwsChunkedDecoder :=
  let 'mkDecoder m sg ps st ln cr ch es el dl ck tb _ dt ct ts := d in
  mkDecoder m sg ps st ln cr ch es el dl ck tb x dt ct ts.
Definition set_checksum_trailer (x : option (list byte * list byte)) (d : AwsChunkedDecoder)
    : AwsChunkedDecoder :=
  let 'mkDecoder m sg ps st ln cr ch es el dl ck tb tc dt _ ts := d in
  mkDecoder m sg ps st ln cr ch es el dl ck tb tc dt x ts.
Definition set_trailer_signature (x : option (list byte)) (d : AwsChunkedDecoder)
    : AwsChunkedDecoder :=
  let 'mkDecoder m sg ps st ln cr ch es el dl ck tb tc dt ct _ := d in
  mkDecoder m sg ps st ln cr ch es el dl ck tb tc dt ct x.

(** A [&mut self] method of the decoder. *)
Definition D (A : Type) : Type := SE AwsChunkedDecoder IntegrityError A.

Definition chunk_string_to_sign (sg : StreamingSigning) (previous chunk_hash : list byte) : list byte :=
  bs "AWS4-HMAC-SHA256-PAYLOAD" ++ x0a :: timestamp sg ++ x0a :: scope sg ++ x0a :: previous
  ++ x0a :: EMPTY_SHA256 ++ x0a :: chunk_hash.


Definition verify_chunk_signature : D unit := λ d,
  match expected_chunk_signature d with
  | None => (Ok tt, d)
  | Some expected =>
      let d := set_expected None d in
      let chunk_hash := hex_encode (h_finalize _ (chunk_hasher d)) in
      let string_to_sign := chunk_string_to_sign (signing d) (previous_signature d) chunk_hash in
      let actual := hmac_hex (signing_key (signing d)) string_to_sign in
      if negb (constant_time_hex_eq actual expected) then (Err SignatureMismatch, d)
      else (Ok tt, set_previous expected d)
  end.

(** The signature of a chunk header's extension. *)
Definition chunk_signature (extension : option (list byte)) : result IntegrityError (list byte) :=
  signature ← ok_or (extension ≫= strip_prefix (bs "chunk-signature="))
                    (Framing "missing chunk signature");
  _ ← parse_sha256 signature;
  Ok (to_ascii_lowercase <$> signature).

Definition split_header (l : list byte) : list byte * option (list byte) :=
  match split_once x3b l with
  | Some (size, ext) => (size, Some ext)
  | None => (l, None)
  end.

(** The size of a chunk header, 1 to 16 hexadecimal digits. *)
Definition chunk_size (size : list byte) : result IntegrityError Z :=
  if bool_decide (size = []) || (16 <? length size)%nat || negb (forallb is_ascii_hexdigit size)
  then Err (Framing "invalid chunk size")
  else ok_or (from_str_radix 16 size) (Framing "invalid chunk size").

(** The [match self.mode] on the extension. *)
Definition accept_extension (extension : option (list byte)) : D unit :=
  m ← se_gets mode;
  match m with
  | Signed | SignedTrailer =>
      signature ← se_lift (chunk_signature extension);
      se_modify (set_expected (Some signature))
  | UnsignedTrailer =>
      se_lift (ensure (bool_decide (extension = None)) (Framing "unexpected chunk extension"))
  end.

(** The rest of [start_chunk]: the final chunk is verified at once, another
    one must fit the declared length. *)
Definition open_chunk (size : Z) : D unit :=
  _ ← se_modify (set_remaining size);
  _ ← se_modify (set_hasher (h_new _));
  if size =? 0 then
    _ ← verify_chunk_signature;
    m ← se_gets mode;
    se_modify (set_state (match m with Signed => FinalCrlf 0 | _ => Trailers end))
  else
    decoded ← se_gets decoded_length;
    decoded ← se_lift (ok_or (u64_checked_add decoded size) DecodedLengthMismatch);
    _ ← se_modify (set_decoded decoded);
    limit ← se_gets expected_decoded_length;
    _ ← se_lift (ensure (decoded <=? limit) DecodedLengthMismatch);
    se_modify (set_state Data).

Definition start_chunk (l : list byte) : D unit :=
  _ ← se_lift (ensure (utf8_valid l) (Framing "non-ASCII header"));
  let '(size, extension) := split_header l in
  size ← se_lift (chunk_size size);
  _ ← se_lift (ensure (size <=? MAX_CHUNK_BYTES) OversizedFraming);
  _ ← se_modify (λ d, set_chunks (chunks d + 1) d);
  n ← se_gets chunks;
  _ ← se_lift (ensure (n <=? MAX_CHUNKS) OversizedFraming);
  _ ← accept_extension extension;
  open_chunk size.

Definition trailer_name_ok (name : list byte) : bool :=
  negb (bool_decide (name = []))
  && forallb (λ b, is_ascii_lowercase b || is_ascii_digit b || bool_decide (b = x2d)) name.

Definition parse_trailer (l : list byte) : D unit :=
  _ ← se_modify (λ d, set_trailer_count (trailer_count d + 1) d);
  n ← se_gets trailer_count;
  _ ← se_lift (ensure (n <=? MAX_TRAILERS) OversizedFraming);
  _ ← se_lift (ensure (utf8_valid l) (Framing "non-ASCII trailer"));
  nv ← se_lift (ok_or (split_once x3a l) (Framing "malformed trailer"));
  let '(name, value) := nv : list byte * list byte in
  _ ← se_lift (ensure (trailer_name_ok name && bool_decide (trim value = value))
                 (Framing "non-canonical trailer"));
  d ← se_get;
  if bool_decide (name = bs "x-amz-trailer-signature") then
    if negb (bool_decide (trailer_signature d = None)) || bool_decide (checksum_trailer d = None)
    then se_throw (DuplicateTrailer name)
    else
      _ ← se_lift (parse_sha256 value);
      se_modify (set_trailer_signature (Some (to_ascii_lowercase <$> value)))
  else if negb (bool_decide (checksum_trailer d = None)) then se_throw (DuplicateTrailer name)
  else if negb (bool_decide (declared_trailer d = Some name)) then se_throw ConflictingChecksum
  else se_modify (set_checksum_trailer (Some (name, value))).

Definition trailer_string_to_sign (sg : StreamingSigning) (previous name value : list byte) : list byte :=
  let canonical := name ++ x3a :: value ++ [x0a] in
  bs "AWS4-HMAC-SHA256-TRAILER" ++ x0a :: timestamp sg ++ x0a :: scope sg ++ x0a :: previous
  ++ x0a :: hex_encode (digest c_sha256 canonical).


Definition verify_trailers (d : AwsChunkedDecoder) : result IntegrityError unit :=
  nv ← ok_or (checksum_trailer d) MissingChecksum;
  let '(name, value) := nv : list byte * list byte in
  if bool_decide (mode d = SignedTrailer) then
    expected ← ok_or (trailer_signature d) (Framing "missing trailer signature");
    let string_to_sign := trailer_string_to_sign (signing d) (previous_signature d) name value in
    let actual := hmac_hex (signing_key (signing d)) string_to_sign in
    if negb (constant_time_hex_eq actual expected) then Err SignatureMismatch else Ok tt
  else if negb (bool_decide (trailer_signature d = None))
  then Err (Framing "unexpected trailer signature") else Ok tt.

Definition decoder_finish (d : AwsChunkedDecoder) : result IntegrityError unit :=
  if negb (bool_decide (state d = Done)) then Err Truncated
  else if negb (decoded_length d =? expected_decoded_length d) then Err DecodedLengthMismatch
  else Ok tt.

Definition CRLF : list byte := [x0d; x0a].

Definition ends_with (p l : list byte) : bool := bool_decide (drop (length l - length p) l = p).

(** The bytes are moved from the input to the buffer one by one; on return
    both are given back. *)
Fixpoint take_line (buffer input : list byte) (limit : nat)
    : result IntegrityError (option (list byte)) * (list byte * list byte) :=
  match input with
  | [] => (Ok None, (buffer, []))
  | b :: rest =>
      let buffer := buffer ++ [b] in
      if ends_with CRLF buffer then
        (Ok (Some (take (length buffer - 2) buffer)), ([], rest))
      else if (limit <? length buffer)%nat
              && (negb (length buffer =? limit + 1)%nat || negb (bool_decide (last buffer = Some x0d)))
      then (Err OversizedFraming, (buffer, rest))
      else take_line buffer rest limit
  end.

(** [while !input.is_empty() && *matched < 2 { .. }]: the count and the rest
    of the input, and whether every byte was the expected one. *)
Fixpoint match_crlf (matched : nat) (input : list byte) : bool * (nat * list byte) :=
  match input with
  | [] => (true, (matched, []))
  | b :: rest =>
      if (matched <? 2)%nat then
        if bool_decide (b = if (matched =? 0)%nat then x0d else x0a)
        then match_crlf (matched + 1) rest
        else (false, (matched, input))
      else (true, (matched, input))
  end.

(** One turn of the loop of [push] on a non-empty input: the rest of the
    input and the pieces appended to the output. *)
Definition push_turn (input : list byte) : D (list byte * list (list byte)) := λ d,
  match state d with
  | Header =>
      let '(r, (buffer, rest)) := take_line (line d) input MAX_CHUNK_HEADER_BYTES in
      let d := set_line buffer d in
      match r with
      | Err e => (Err e, d)
      | Ok None => (Ok (rest, []), d)
      | Ok (Some l) => (_ ← start_chunk l; mret (rest, [])) d
      end
  | Data =>
      let n := Z.to_nat (Z.min (chunk_remaining d) (Z.of_nat (length input))) in
      let bytes := take n input in
      let d := set_hasher (h_update _ (chunk_hasher d) bytes) d in
      let d := set_remaining (chunk_remaining d - Z.of_nat n) d in
      let pieces := if bool_decide (bytes = []) then [] else [bytes] in
      if chunk_remaining d =? 0
      then (_ ← verify_chunk_signature; _ ← se_modify (set_state (DataCrlf 0));
            mret (drop n input, pieces)) d
      else (Ok (drop n input, pieces), d)
  | DataCrlf matched =>
      let '(ok, (matched, rest)) := match_crlf matched input in
      let d := set_state (DataCrlf matched) d in
      if negb ok then (Err (Framing "chunk data lacks CRLF"), d)
      else (Ok (rest, []), if (matched =? 2)%nat then set_state Header d else d)
  | FinalCrlf matched =>
      let '(ok, (matched, rest)) := match_crlf matched input in
      let d := set_state (FinalCrlf matched) d in
      if negb ok then (Err (Framing "final chunk lacks CRLF"), d)
      else if (matched =? 2)%nat then
        let d := set_state Done d in
        if bool_decide (rest = []) then (Ok (rest, []), d) else (Err TrailingData, d)
      else (Ok (rest, []), d)
  | Trailers =>
      let '(r, (buffer, rest)) := take_line (line d) input MAX_TRAILER_LINE_BYTES in
      let d := set_line buffer d in
      match r with
      | Err e => (Err e, d)
      | Ok None => (Ok (rest, []), d)
      | Ok (Some l) =>
          match u64_checked_add (trailer_bytes d) (Z.of_nat (length l) + 2) with
          | None => (Err OversizedFraming, d)
          | Some n =>
              let d := set_trailer_bytes n d in
              if MAX_TRAILER_BYTES <? n then (Err OversizedFraming, d)
              else if bool_decide (l = []) then
                match verify_trailers d with
                | Err e => (Err e, d)
                | Ok _ =>
                    let d := set_state Done d in
                    if bool_decide (rest = []) then (Ok (rest, []), d) else (Err TrailingData, d)
                end
              else (_ ← parse_trailer l; mret (rest, [])) d
          end
      end
  | Done => (Err TrailingData, d)
  end.

(** The loop; [None] is a fuel that was too small. *)
Fixpoint push_loop (fuel : nat) (input : list byte) (output : list (list byte)) (d : AwsChunkedDecoder)
    : option (result IntegrityError (list (list byte)) * AwsChunkedDecoder) :=
  match input with
  | [] => Some (Ok output, d)
  | _ =>
      match fuel with
      | O => None
      | S fuel =>
          match push_turn input d with
          | (Ok (rest, pieces), d) => push_loop fuel rest (output ++ pieces) d
          | (Err e, d) => Some (Err e, d)
          end
      end
  end.

(** At most two turns of the loop per byte of the input, and one more: see
    [push_byte_by_byte]. *)
Definition push_fuel (input : list byte) : nat := 2 * length input + 1.

Definition push (input : list byte) : D (list (list byte)) := λ d,
  if bool_decide (state d = Done) && negb (bool_decide (input = [])) then (Err TrailingData, d)
  else default (Err OversizedFraming, d) (push_loop (push_fuel input) input [] d).

(** ** The body verifier *)

Inductive PayloadState : Type :=
| Fixed (sha256 : option (h_state c_sha256)) (expected_sha256 : option (list byte))
| Chunked (decoder : AwsChunkedDecoder)
| Finished.

Record BodyVerifier := mkBody {
  b_state : PayloadState;
  checksum : option ChecksumVerifier;
  decoded_bytes : Z;
}.

Definition require_aws_chunked (content_encoding : option (list byte)) : result IntegrityError unit :=
  match content_encoding with
  | Some value => ensure (eq_ignore_ascii_case (trim value) (bs "aws-chunked")) UnsupportedContentEncoding
  | None => Err UnsupportedContentEncoding
  end.

Definition parse_decoded_length (value : option (list byte)) : result IntegrityError Z :=
  value ← ok_or value MissingDecodedLength;
  ok_or (from_str_radix 10 value) InvalidDecodedLength.

Definition one_header (headers : HeaderMap) (name : string) : result IntegrityError (option (list byte)) :=
  match headers name with
  | [] => Ok None
  | None :: _ => Err (DuplicateHeader name)
  | Some first :: rest =>
      if bool_decide (rest = []) then Ok (Some first) else Err (DuplicateHeader name)
  end.

(** The loop over [ALL]: at most one checksum header. *)
Fixpoint select_checksum (headers : HeaderMap) (l : list (ChecksumAlgorithm * string))
    (selected : option (ChecksumAlgorithm * list byte))
    : result IntegrityError (option (ChecksumAlgorithm * list byte)) :=
  match l with
  | [] => Ok selected
  | (a, name) :: l =>
      v ← one_header headers name;
      match v with
      | None => select_checksum headers l selected
      | Some value =>
          if bool_decide (selected = None) then
            decoded ← decode_checksum a value;
            select_checksum headers l (Some (a, decoded))
          else Err ConflictingChecksum
      end
  end.

Definition checksum_from_headers (headers : HeaderMap) (trailer_declaration : option (list byte))
    : result IntegrityError (option ChecksumVerifier * option (list byte)) :=
  selected ← select_checksum headers ALL None;
  let declared :=
    value ← trim <$> trailer_declaration;
    if bool_decide (value = []) then None else Some (to_ascii_lowercase <$> value) in
  _ ← match declared with
      | Some value =>
          ensure (negb (bool_decide (x2c ∈ value) || bool_decide (from_header value = None)))
                 ConflictingChecksum
      | None => Ok tt
      end;
  _ ← ensure (bool_decide (selected = None) || bool_decide (declared = None)) ConflictingChecksum;
  sdk_algorithm ← one_header headers "x-amz-sdk-checksum-algorithm";
  let algorithm :=
    match fst <$> selected with Some a => Some a | None => declared ≫= from_header end in
  _ ← match sdk_algorithm with
      | Some sdk =>
          match algorithm with
          | None => Err MissingChecksum
          | Some a => ensure (eq_ignore_ascii_case (trim sdk) (bs (sdk_name a))) ConflictingChecksum
          end
      | None => Ok tt
      end;
  Ok ((λ a, mkChecksum a (checksum_new a) (snd <$> selected) (negb (bool_decide (declared = None))))
        <$> algorithm,
      declared).

Definition is_some {A} (o : option A) : bool := match o with Some _ => true | None => false end.

Definition payload_state (payload_hash : list byte) (content_encoding decoded_length trailer_declaration
    declared_trailer : option (list byte)) (sg : option StreamingSigning) (trusted_tls : bool)
    : result IntegrityError PayloadState :=
  if bool_decide (payload_hash = bs "UNSIGNED-PAYLOAD") then
    if negb trusted_tls || is_some content_encoding || is_some trailer_declaration
    then Err UnsupportedPayloadMode else Ok (Fixed None None)
  else if bool_decide (payload_hash = bs "STREAMING-AWS4-HMAC-SHA256-PAYLOAD") then
    _ ← require_aws_chunked content_encoding;
    _ ← ensure (negb (is_some trailer_declaration)) ConflictingChecksum;
    sg ← ok_or sg UnsupportedPayloadMode;
    len ← parse_decoded_length decoded_length;
    Ok (Chunked (decoder_new Signed len None sg))
  else if bool_decide (payload_hash = bs "STREAMING-AWS4-HMAC-SHA256-PAYLOAD-TRAILER") then
    _ ← require_aws_chunked content_encoding;
    sg ← ok_or sg UnsupportedPayloadMode;
    trailer ← ok_or declared_trailer MissingTrailerDeclaration;
    len ← parse_decoded_length decoded_length;
    Ok (Chunked (decoder_new SignedTrailer len (Some trailer) sg))
  else if bool_decide (payload_hash = bs "STREAMING-UNSIGNED-PAYLOAD-TRAILER") then
    _ ← ensure trusted_tls UnsupportedPayloadMode;
    _ ← require_aws_chunked content_encoding;
    trailer ← ok_or declared_trailer MissingTrailerDeclaration;
    len ← parse_decoded_length decoded_length;
    Ok (Chunked (decoder_new UnsignedTrailer len (Some trailer) (default empty_signing sg)))
  else if (length payload_hash =? 64)%nat then
    _ ← ensure (negb (is_some content_encoding || is_some trailer_declaration)) UnsupportedContentEncoding;
    expected ← parse_sha256 payload_hash;
    Ok (Fixed (Some (h_new _)) (Some expected))
  else Err UnsupportedPayloadMode.

Definition from_headers (headers : HeaderMap) (payload_hash : list byte)
    (sg : option StreamingSigning) (trusted_tls : bool) : result IntegrityError BodyVerifier :=
  content_encoding ← one_header headers "content-encoding";
  decoded_length ← one_header headers "x-amz-decoded-content-length";
  trailer_declaration ← one_header headers "x-amz-trailer";
  cd ← checksum_from_headers headers trailer_declaration;
  let '(checksum, declared_trailer) := cd : option ChecksumVerifier * option (list byte) in
  st ← payload_state payload_hash content_encoding decoded_length trailer_declaration
         declared_trailer sg trusted_tls;
  Ok (mkBody st checksum 0).

(** The loop over the decoded pieces: count and checksum. *)
Fixpoint account (pieces : list (list byte)) : SE BodyVerifier IntegrityError unit := λ b,
  match pieces with
  | [] => (Ok tt, b)
  | chunk :: pieces =>
      match u64_checked_add (decoded_bytes b) (Z.of_nat (length chunk)) with
      | None => (Err DecodedLengthMismatch, b)
      | Some n =>
          account pieces (mkBody (b_state b) ((λ v, cv_update v chunk) <$> checksum b) n)
      end
  end.

Definition body_push (bytes : list byte) : SE BodyVerifier IntegrityError (list (list byte)) := λ b,
  match b_state b with
  | Fixed sha256 expected =>
      let b := mkBody (Fixed ((λ h, h_update _ h bytes) <$> sha256) expected)
                 (checksum b) (decoded_bytes b) in
      (_ ← account [bytes]; mret [bytes]) b
  | Chunked decoder =>
      let '(r, decoder) := push bytes decoder in
      let b := mkBody (Chunked decoder) (checksum b) (decoded_bytes b) in
      match r with
      | Ok decoded => (_ ← account decoded; mret decoded) b
      | Err e => (Err e, b)
      end
  | Finished => (Err TrailingData, b)
  end.

Definition take_checksum_trailer (d : AwsChunkedDecoder) : option (list byte * list byte) :=
  checksum_trailer d.

Definition apply_chunked_trailer : SE BodyVerifier IntegrityError unit := λ b,
  match b_state b with
  | Chunked decoder =>
      match take_checksum_trailer decoder with
      | Some (name, value) =>
          match checksum b with
          | None => (Err MissingChecksum, b)
          | Some v =>
              let '(r, v) := set_trailer name value v in
              (r, mkBody (b_state b) (Some v) (decoded_bytes b))
          end
      | None => (Ok tt, b)
      end
  | _ => (Ok tt, b)
  end.

Definition body_finish (b : BodyVerifier) : result IntegrityError Z :=
  match apply_chunked_trailer b with
  | (Err e, _) => Err e
  | (Ok _, b) =>
      _ ← match b_state b with
          | Fixed (Some sha256) (Some expected) =>
              ensure (constant_time_eq (h_finalize _ sha256) expected) PayloadHashMismatch
          | Fixed _ _ => Ok tt
          | Chunked decoder => decoder_finish decoder
          | Finished => Err TrailingData
          end;
      _ ← match checksum b with Some v => cv_finish v | None => Ok tt end;
      Ok (decoded_bytes b)
  end.

(** A request: the verifier is made, the body arrives in pieces, and it is
    finished; the decoded bytes that were handed on and the final count. *)
Fixpoint push_all (pieces : list (list byte)) : SE BodyVerifier IntegrityError (list (list byte)) :=
  match pieces with
  | [] => mret []
  | p :: pieces => out ← body_push p; outs ← push_all pieces; mret (out ++ outs)
  end.

Definition verify_body (headers : HeaderMap) (payload_hash : list byte) (sg : option StreamingSigning)
    (trusted_tls : bool) (pieces : list (list byte)) : result IntegrityError (list byte * Z) :=
  b ← from_headers headers payload_hash sg trusted_tls;
  match push_all pieces b with
  | (Err e, _) => Err e
  | (Ok outs, b) => n ← body_finish b; Ok (concat outs, n)
  end.
End integrity.
