(* ===== verification/IntegrityProofs.v ===== *)
(** * What the payload verifier guarantees

    The [aws-chunked] decoder of [Integrity] is compared with the same decoder
    run byte by byte ([push_is_feed]), so that the cuts the network makes in a
    body do not matter ([verify_body_fragmentation]); an invariant on what has
    been read gives its soundness: a body that is accepted is a well-formed
    stream with a chain of verified signatures, of the declared length, and
    matches every declared digest ([verify_body_sound]). *)

From S2P Require Import Prelude RustStr Integrity.

#[local] Open Scope Z_scope.
Set Default Goal Selector "!".


#[local] Arguments chunk_string_to_sign : simpl never.
#[local] Arguments trailer_string_to_sign : simpl never.
#[local] Arguments bs : simpl never.
#[local] Arguments from_header : simpl never.
#[local] Arguments header : simpl never.
#[local] Arguments u64_checked_add : simpl never.
#[local] Arguments MAX_TRAILER_BYTES : simpl never.
#[local] Arguments MAX_CHUNK_HEADER_BYTES : simpl never.
#[local] Arguments MAX_TRAILER_LINE_BYTES : simpl never.
#[local] Arguments hmac_hex : simpl never.
#[local] Arguments constant_time_hex_eq : simpl never.
#[local] Arguments cv_finish : simpl never.
#[local] Arguments checksum_from_headers : simpl never.
#[local] Arguments decoder_finish : simpl never.

(** A decoder as its fields, under short names. *)
Ltac name_decoder d := destruct d as [md sgn psig dst ln cr ch exs el dl ck tb tc dt ct ts].

Section integrity.
Context `{C : Crypto}.

(** ** Facts on the pure helpers *)

Lemma byte_difference_zero acc l :
  foldl (λ difference p, Z.lor difference (Z.lxor (b2z p.1) (b2z p.2))) acc l = 0 ↔
  acc = 0 ∧ Forall (λ p : byte * byte, b2z p.1 = b2z p.2) l.
Proof.
  revert acc. induction l as [|p l IH]; intros acc; simpl.
  - naive_solver.
  - rewrite IH, Z.lor_eq_0_iff, Z.lxor_eq_0_iff, Forall_cons. naive_solver.
Qed.

Lemma zip_equal (l r : list byte) :
  length l = length r → Forall (λ p : byte * byte, b2z p.1 = b2z p.2) (zip l r) ↔ l = r.
Proof.
  revert r. induction l as [|a l IH]; intros [|b r]; simpl; intros H; try done.
  rewrite Forall_cons, IH by lia. simpl. split; [|naive_solver].
  intros [Hab ->]. by rewrite (b2z_inj a b).
Qed.

Lemma constant_time_eq_decides l r : constant_time_eq l r = bool_decide (l = r).
Proof.
  unfold constant_time_eq, byte_difference. destruct (length l =? length r)%nat eqn:E; simpl.
  - apply Nat.eqb_eq in E. apply eq_bool_prop_intro.
    rewrite Is_true_true, Z.eqb_eq, byte_difference_zero, (zip_equal l r E), bool_decide_spec. tauto.
  - apply Nat.eqb_neq in E. symmetry. apply bool_decide_eq_false. by intros ->.
Qed.

Lemma header_all a : (a, header a) ∈ ALL.
Proof. destruct a; vm_compute; repeat constructor. Qed.

Lemma header_from_header a : from_header (bs (header a)) = Some a.
Proof. by destruct a; vm_compute. Qed.

Lemma take_line_app b rest buffer limit :
  take_line buffer (b :: rest) limit =
  match take_line buffer [b] limit with
  | (Ok None, (buffer', _)) => take_line buffer' rest limit
  | (r, (buffer', _)) => (r, (buffer', rest))
  end.
Proof. cbn [take_line]. by repeat case_match. Qed.

Lemma take_line_one b buffer limit r buffer' rest :
  take_line buffer [b] limit = (r, (buffer', rest)) → rest = [].
Proof. cbn [take_line]. by repeat case_match; intros; simplify_eq. Qed.

(** ** The decoder byte by byte *)

(** A decoder that no error has stopped: a chunk in progress has bytes left,
    and a CRLF in progress is not complete. *)
Definition wf (d : AwsChunkedDecoder) : Prop :=
  match state d with
  | Data => 0 < chunk_remaining d
  | DataCrlf m | FinalCrlf m => (m < 2)%nat
  | _ => True
  end.

(** One byte at a time: the reference the buffered loop is compared with. *)
Definition step (b : byte) : D (list byte) := λ d,
  match push_turn [b] d with
  | (Ok (_, pieces), d) => (Ok (concat pieces), d)
  | (Err e, d) => (Err e, d)
  end.

Fixpoint feed (input : list byte) : D (list byte) :=
  match input with
  | [] => mret []
  | b :: rest => out ← step b; outs ← feed rest; mret (out ++ outs)
  end.

Lemma feed_app a b d :
  feed (a ++ b) d = (out ← feed a; outs ← feed b; mret (out ++ outs)) d.
Proof.
  revert d. induction a as [|x a IH]; intros d.
  - simpl. unfold mbind, SE_bind, mret, SE_ret. by destruct (feed b d) as [[] ?].
  - simpl. unfold mbind, SE_bind, mret, SE_ret in *. destruct (step x d) as [[o|e] d1]; [|done].
    rewrite IH. destruct (feed a d1) as [[o1|e] d2]; [|done].
    destruct (feed b d2) as [[o2|e] d3]; [|done]. by rewrite app_assoc.
Qed.

Lemma verify_chunk_signature_frame d r d' :
  verify_chunk_signature d = (r, d') →
  d' = set_previous (previous_signature d') (set_expected None d) ∧
  (r = Err SignatureMismatch ∧ previous_signature d' = previous_signature d ∨
   r = Ok tt ∧
   match expected_chunk_signature d with
   | None => previous_signature d' = previous_signature d
   | Some expected =>
       previous_signature d' = expected ∧
       constant_time_hex_eq (hmac_hex (signing_key (signing d))
         (chunk_string_to_sign (signing d) (previous_signature d)
            (hex_encode (h_finalize _ (chunk_hasher d))))) expected = true
   end).
Proof.
  unfold verify_chunk_signature. destruct d. cbn. intros H. repeat case_match; simplify_eq/=;
    repeat match goal with H : negb _ = false |- _ => apply negb_false_iff in H end; tauto.
Qed.

(** The decoder after a chunk header announced [size] bytes with signature [es]. *)
Definition opened (size : Z) (es : option (list byte)) (d : AwsChunkedDecoder) : AwsChunkedDecoder :=
  set_hasher (h_new _) (set_remaining size (set_expected es (set_chunks (chunks d + 1) d))).

(** What a chunk header's extension must be, and the signature it carries. *)
Definition extension_ok (m : StreamingMode) (ext : option (list byte))
    (before es : option (list byte)) : Prop :=
  match m with
  | UnsignedTrailer => ext = None ∧ es = before
  | _ => ∃ s, chunk_signature ext = Ok s ∧ es = Some s
  end.

Lemma accept_extension_inv ext d u d' :
  accept_extension ext d = (Ok u, d') →
  ∃ es, extension_ok (mode d) ext (expected_chunk_signature d) es ∧ d' = set_expected es d.
Proof.
  unfold accept_extension, extension_ok, mbind, SE_bind, se_lift, se_modify, se_gets, ensure.
  destruct d as [m]. cbn. intros H.
  destruct m; [destruct (chunk_signature ext); simplify_eq; eauto 10..|].
  case_bool_decide; simplify_eq. eauto.
Qed.

(** What [open_chunk] leaves on success. *)
Definition chunk_opened (size : Z) (d d' : AwsChunkedDecoder) : Prop :=
  size = 0 ∧
    (∃ d1, verify_chunk_signature d = (Ok tt, d1) ∧
           d' = set_state (match mode d with Signed => FinalCrlf 0 | _ => Trailers end) d1)
  ∨ size ≠ 0 ∧ decoded_length d + size <= expected_decoded_length d ∧
    d' = set_state Data (set_decoded (decoded_length d + size) d).

Lemma open_chunk_inv size d u d' :
  open_chunk size d = (Ok u, d') →
  chunk_opened size (set_hasher (h_new _) (set_remaining size d)) d'.
Proof.
  unfold open_chunk, chunk_opened, mbind, SE_bind, se_lift, se_modify, se_gets, ensure, u64_checked_add.
  cbn. intros H. destruct (size =? 0) eqn:E.
  - left. split; [lia|]. destruct (verify_chunk_signature _) as [[[]|] d1] eqn:Hv; [|done].
    exists d1. split; [done|]. apply verify_chunk_signature_frame in Hv as [Hv _].
    assert (mode d1 = mode (set_hasher (h_new _) (set_remaining size d))) as Hm
      by (rewrite Hv; by destruct d).
    rewrite Hm in H. by simplify_eq.
  - right. split; [lia|]. destruct d. cbn in *. repeat case_match; simplify_eq/=. split; [lia|done].
Qed.

Lemma start_chunk_inv l d u d' :
  start_chunk l d = (Ok u, d') →
  ∃ size es,
    chunk_size (split_header l).1 = Ok size ∧ size <= MAX_CHUNK_BYTES ∧ chunks d + 1 <= MAX_CHUNKS ∧
    extension_ok (mode d) (split_header l).2 (expected_chunk_signature d) es ∧
    chunk_opened size (opened size es d) d'.
Proof.
  unfold start_chunk. destruct (split_header l) as [sz ext]. cbn [fst snd].
  unfold mbind, SE_bind, se_lift, se_modify, se_gets, ensure. intros H.
  destruct (utf8_valid l); [|done].
  destruct (chunk_size sz) as [size|] eqn:Hs; [|done].
  destruct (size <=? MAX_CHUNK_BYTES) eqn:Hm; [|done].
  destruct (_ <=? MAX_CHUNKS) eqn:Hc; [|done].
  destruct (accept_extension _ _) as [[u1|] d1] eqn:He; [|done].
  apply accept_extension_inv in He as (es & He & ->). apply open_chunk_inv in H.
  exists size, es. destruct d; cbn in *. repeat (split; [done || lia|]). exact H.
Qed.

Lemma radix_nonneg radix l acc r :
  0 <= radix → 0 <= acc → radix_digits radix acc l = Some r → 0 <= r.
Proof.
  intros Hr. revert acc. induction l as [|b l IH]; intros acc Hacc; cbn; [naive_solver|].
  destruct (to_digit_radix radix b) as [v|] eqn:Hv; cbn; [|done]. case_match; [|done]. apply IH.
  unfold to_digit_radix, is_ascii_digit in Hv. repeat case_match; simplify_eq; nia.
Qed.

Lemma from_str_radix_nonneg radix l r : 0 <= radix → from_str_radix radix l = Some r → 0 <= r.
Proof.
  unfold from_str_radix. intros Hr H.
  repeat case_match; simplify_eq; by eapply radix_nonneg in H.
Qed.

Lemma chunk_size_nonneg sz size : chunk_size sz = Ok size → 0 <= size.
Proof.
  unfold chunk_size, ok_or. case_match; [done|]. destruct (from_str_radix 16 sz) eqn:E; [|done].
  intros; simplify_eq. by eapply from_str_radix_nonneg in E.
Qed.

Lemma position_Some {A} (p : A → bool) l i :
  position p l = Some i →
  ∃ x, l !! i = Some x ∧ p x = true ∧ Forall (λ y, p y = false) (take i l).
Proof.
  revert i. induction l as [|y l IH]; intros i; cbn; [done|]. destruct (p y) eqn:E.
  - intros ?; simplify_eq/=. eauto.
  - intros (j & Hj & ->)%fmap_Some. apply IH in Hj as (x & ? & ? & ?). exists x. cbn. eauto.
Qed.

Lemma split_once_Some c l a b :
  split_once c l = Some (a, b) → l = a ++ c :: b ∧ c ∉ a.
Proof.
  unfold split_once. destruct (position _ l) as [i|] eqn:E; [|done]. cbn. intros ?; simplify_eq.
  apply position_Some in E as (x & Hx & Hc & Hn). apply bool_decide_eq_true in Hc as ->.
  split; [by rewrite (take_drop_middle l i c)|].
  intros Hin. rewrite Forall_forall in Hn. specialize (Hn c Hin). by rewrite bool_decide_eq_false in Hn.
Qed.

Definition TRAILER_SIGNATURE : list byte := bs "x-amz-trailer-signature".

(** The decoder after a trailer line was taken. *)
Definition counted (d : AwsChunkedDecoder) : AwsChunkedDecoder := set_trailer_count (trailer_count d + 1) d.

Lemma parse_trailer_inv l d u d' :
  parse_trailer l d = (Ok u, d') →
  ∃ name value, l = name ++ x3a :: value ∧ (x3a ∉ name) ∧
    (name = TRAILER_SIGNATURE ∧ trailer_signature d = None ∧ checksum_trailer d ≠ None ∧
       is_ok (parse_sha256 value) = true ∧
       d' = set_trailer_signature (Some (to_ascii_lowercase <$> value)) (counted d)
     ∨ name ≠ TRAILER_SIGNATURE ∧ checksum_trailer d = None ∧ declared_trailer d = Some name ∧
       trim value = value ∧ d' = set_checksum_trailer (Some (name, value)) (counted d)).
Proof.
  unfold parse_trailer, mbind, SE_bind, se_lift, se_modify, se_gets, se_get, se_throw, ensure, ok_or.
  intros H. destruct (_ <=? MAX_TRAILERS); [|done]. destruct (utf8_valid l); [|done].
  destruct (split_once x3a l) as [[name value]|] eqn:Hs; [|done]. cbn in H.
  apply split_once_Some in Hs as [-> Hn]. exists name, value. do 2 (split; [done|]).
  destruct (trailer_name_ok name && _) eqn:Hok; [|done]. apply andb_prop in Hok as [_ Ht].
  apply bool_decide_eq_true in Ht. fold TRAILER_SIGNATURE in H. name_decoder d. cbn in *.
  case_bool_decide as Hsig; [left|right].
  - destruct ts; cbn in H; [done|]. case_bool_decide; [done|].
    destruct (parse_sha256 value) eqn:Hp; simplify_eq. auto.
  - destruct ct; cbn in H; [done|]. case_bool_decide; simplify_eq/=. auto 6.
Qed.

Lemma wf_set_line x d : wf (set_line x d) ↔ wf d.
Proof. by destruct d. Qed.

Lemma verify_state d r d' : verify_chunk_signature d = (r, d') → state d' = state d.
Proof. intros [-> _]%verify_chunk_signature_frame. by destruct d. Qed.

Lemma start_chunk_wf l d u d' : start_chunk l d = (Ok u, d') → wf d'.
Proof.
  intros (size & es & Hs & _ & _ & _ & Ho)%start_chunk_inv. apply chunk_size_nonneg in Hs.
  unfold wf. destruct Ho as [[-> (d1 & _ & ->)]|(? & _ & ->)]; destruct d.
  - destruct d1. cbn. by repeat case_match; simplify_eq; try lia.
  - cbn. lia.
Qed.

Lemma parse_trailer_state l d u d' : parse_trailer l d = (Ok u, d') → state d' = state d.
Proof. intros (n & v & _ & _ & [(_&_&_&_&->)|(_&_&_&_&->)])%parse_trailer_inv; by destruct d. Qed.

Lemma step_wf b d o d' : wf d → step b d = (Ok o, d') → wf d'.
Proof.
  intros Hwf. unfold step, push_turn. destruct (state d) as [| |m|m| |] eqn:Hst.
  - destruct (take_line _ _ _) as [[[l|]|] [buf rest]]; cbn; [|intros; simplify_eq; by apply wf_set_line|done].
    unfold mbind, SE_bind. destruct (start_chunk _ _) as [[u|] d1] eqn:Hc; [|done].
    intros; simplify_eq/=. eauto using start_chunk_wf.
  - assert (0 < chunk_remaining d) as Hpos by (unfold wf in Hwf; by rewrite Hst in Hwf).
    replace (Z.to_nat (Z.min (chunk_remaining d) (Z.of_nat (length [b])))) with 1%nat by (cbn [length]; lia).
    destruct d. cbn in *; subst. unfold wf; cbn in *. intros H.
    destruct (_ - _ =? 0) eqn:Hr.
    + unfold mbind, SE_bind, se_modify in H. destruct (verify_chunk_signature _) as [[u|] d1]; [|done].
      cbn in H. simplify_eq. destruct d1; cbn. lia.
    + apply Z.eqb_neq in Hr. simplify_eq/=. lia.
  - destruct d. cbn in *; subst. unfold wf in *; cbn in *. intros H.
    destruct m as [|[|m]]; [..|lia]; cbn in H; case_bool_decide; cbn in H; simplify_eq/=; done || lia.
  - destruct d. cbn in *; subst. unfold wf in *; cbn in *. intros H.
    destruct m as [|[|m]]; [..|lia]; cbn in H; case_bool_decide; cbn in H; simplify_eq/=; done || lia.
  - destruct (take_line _ _ _) as [[[l|]|] [buf rest]] eqn:Hl; cbn; [|intros; simplify_eq; by apply wf_set_line|done].
    intros H. destruct (u64_checked_add _ _); [|done]. destruct (_ <? _); [done|]. case_bool_decide.
    + destruct (verify_trailers _); [|done]. apply take_line_one in Hl as ->. cbn in H. simplify_eq.
      by destruct d.
    + unfold mbind, SE_bind, mret, SE_ret in H. destruct (parse_trailer _ _) as [[u|] d1] eqn:Hp; [|done].
      injection H as _ <-.
      apply parse_trailer_state in Hp. unfold wf. rewrite Hp. destruct d; cbn in *. by subst.
  - done.
Qed.

(** ** The loop is the byte-by-byte decoder *)

(** A turn on [b :: rest] against [step b]: an error is the same error; else
    either the turn ends with [b], or it goes on as a turn on [rest] does
    from the state after [b], with the bytes of [b] before its own. *)
Definition turn_agrees (b : byte) (rest : list byte) (d : AwsChunkedDecoder) : Prop :=
  match step b d with
  | (Err e, d') => push_turn (b :: rest) d = (Err e, d')
  | (Ok o, d') =>
      (∃ ps, push_turn (b :: rest) d = (Ok (rest, ps), d') ∧ concat ps = o) ∨
      match push_turn rest d' with
      | (Err e, d2) => push_turn (b :: rest) d = (Err e, d2)
      | (Ok (r, ps), d2) =>
          ∃ ps', push_turn (b :: rest) d = (Ok (r, ps'), d2) ∧ concat ps' = o ++ concat ps
      end
  end.

Lemma set_line_twice x y d : set_line x (set_line y d) = set_line x d.
Proof. by destruct d. Qed.
Lemma state_set_line x d : state (set_line x d) = state d.
Proof. by destruct d. Qed.
Lemma line_set_line x d : line (set_line x d) = x.
Proof. by destruct d. Qed.

Lemma turn_header b rest d : state d = Header → turn_agrees b rest d.
Proof.
  intros Hst. unfold turn_agrees, step.
  assert (Ht : ∀ i d', state d' = Header → push_turn i d' =
    let '(r, (buffer, rest)) := take_line (line d') i MAX_CHUNK_HEADER_BYTES in
    let d' := set_line buffer d' in
    match r with
    | Err e => (Err e, d')
    | Ok None => (Ok (rest, []), d')
    | Ok (Some l) => (_ ← start_chunk l; mret (rest, [])) d'
    end) by (intros i d' E; unfold push_turn; by rewrite E).
  rewrite !Ht, (take_line_app b rest) by done.
  destruct (take_line (line d) [b] _) as [[[l|]|e] [buf r]]; [| |done].
  - unfold mbind, SE_bind, mret, SE_ret. destruct (start_chunk l _) as [[u|e] d1]; [|done].
    left. by eexists.
  - right. rewrite Ht, line_set_line by by rewrite state_set_line.
    destruct (take_line buf rest _) as [[[l|]|e] [buf2 r2]]; rewrite set_line_twice; [|by eexists|done].
    unfold mbind, SE_bind, mret, SE_ret. destruct (start_chunk l _) as [[u|e] d1]; [|done]. by eexists.
Qed.

Lemma turn_trailers b rest d : state d = Trailers → rest ≠ [] → turn_agrees b rest d.
Proof.
  intros Hst Hrest. unfold turn_agrees, step.
  set (after (l rest : list byte) (d : AwsChunkedDecoder) :=
      match u64_checked_add (trailer_bytes d) (Z.of_nat (length l) + 2) with
      | None => (Err OversizedFraming, d)
      | Some n =>
          let d := set_trailer_bytes n d in
          if MAX_TRAILER_BYTES <? n then (Err OversizedFraming, d)
          else if bool_decide (l = []) then
            match verify_trailers d with
            | Err e => (Err e, d)
            | Ok _ =>
                let d := set_state Done d in
                if bool_decide (rest = []) then (Ok (rest, []), d) else (Err TrailingData, d)
            end
          else (_ ← parse_trailer l; mret (rest, [])) d
      end : result IntegrityError (list byte * list (list byte)) * AwsChunkedDecoder).
  assert (Ht : ∀ i d', state d' = Trailers → push_turn i d' =
    let '(r, (buffer, rest)) := take_line (line d') i MAX_TRAILER_LINE_BYTES in
    let d' := set_line buffer d' in
    match r with
    | Err e => (Err e, d')
    | Ok None => (Ok (rest, []), d')
    | Ok (Some l) => after l rest d'
    end) by (intros i d' E; unfold push_turn; by rewrite E).
  rewrite !Ht, (take_line_app b rest) by done.
  destruct (take_line (line d) [b] _) as [[[l|]|e] [buf r]] eqn:Hl; [| |done].
  - apply take_line_one in Hl as ->. unfold after. destruct (u64_checked_add _ _) as [n|]; [|done].
    cbn zeta. destruct (MAX_TRAILER_BYTES <? n); [done|]. case_bool_decide.
    + destruct (verify_trailers _) as [u|]; [|done]. cbn. right.
      rewrite (bool_decide_eq_false_2 (rest = [])) by done. by destruct d.
    + unfold mbind, SE_bind, mret, SE_ret. destruct (parse_trailer l _) as [[u|e] d1]; [|done].
      left. by eexists.
  - right. rewrite Ht, line_set_line by by rewrite state_set_line.
    destruct (take_line buf rest _) as [[[l|]|e] [buf2 r2]]; rewrite set_line_twice; [|by eexists|done].
    destruct (after l r2 _) as [[[]|] ?]; [by eexists|done].
Qed.

Lemma match_crlf_one m b rest :
  (m < 2)%nat →
  match_crlf m (b :: rest) =
  if bool_decide (b = if (m =? 0)%nat then x0d else x0a)
  then if (m =? 0)%nat then match_crlf 1 rest else (true, (2%nat, rest))
  else (false, (m, b :: rest)).
Proof.
  intros Hm. destruct m as [|[|m]]; [..|lia]; cbn [match_crlf]; [by cbn|].
  case_bool_decide; [|done]. by destruct rest.
Qed.

Lemma turn_crlf b rest d :
  (state d = DataCrlf 0 ∨ state d = DataCrlf 1 ∨ state d = FinalCrlf 0 ∨ state d = FinalCrlf 1) →
  rest ≠ [] → turn_agrees b rest d.
Proof.
  intros Hst Hrest. unfold turn_agrees, step, push_turn.
  name_decoder d. cbn [Integrity.state] in *.
  destruct Hst as [->|[->|[->| ->]]]; rewrite !match_crlf_one by lia; cbn [Nat.eqb];
    (case_bool_decide; [|done]); cbn [fst snd negb].
  - right. cbn. destruct (match_crlf 1 rest) as [[] [k r]]; [|done].
    cbn. destruct (k =? 2)%nat; by eexists.
  - left. by eexists.
  - right. cbn. destruct (match_crlf 1 rest) as [[] [k r]]; [|done].
    cbn. destruct (k =? 2)%nat; [|by eexists]. cbn. case_bool_decide; [by eexists|done].
  - right. cbn. by rewrite bool_decide_eq_false_2.
Qed.

Context {HL : CryptoLaws}.

(** A data turn with [n] bytes taken. *)
Lemma push_turn_data d i n :
  state d = Data → n = Z.to_nat (Z.min (chunk_remaining d) (Z.of_nat (length i))) → (0 < n)%nat →
  push_turn i d =
  let d1 := set_remaining (chunk_remaining d - Z.of_nat n) (set_hasher (h_update _ (chunk_hasher d) (take n i)) d) in
  if chunk_remaining d - Z.of_nat n =? 0
  then match verify_chunk_signature d1 with
       | (Ok _, d2) => (Ok (drop n i, [take n i]), set_state (DataCrlf 0) d2)
       | (Err e, d2) => (Err e, d2)
       end
  else (Ok (drop n i, [take n i]), d1).
Proof.
  intros Hst -> Hn. unfold push_turn. rewrite Hst.
  rewrite (bool_decide_eq_false_2 (take _ i = [])); [by destruct d|].
  intros E%(f_equal length). rewrite length_take in E. cbn in E. lia.
Qed.

Lemma turn_data b rest d : state d = Data → 0 < chunk_remaining d → rest ≠ [] → turn_agrees b rest d.
Proof.
  intros Hst Hpos Hrest. unfold turn_agrees, step.
  assert (Hlen : (0 < length rest)%nat) by (destruct rest; cbn; [done|lia]).
  rewrite (push_turn_data d [b] 1) by (done || cbn [length]; lia).
  set (n := Z.to_nat (Z.min (chunk_remaining d) (Z.of_nat (length (b :: rest))))).
  rewrite (push_turn_data d (b :: rest) n) by (done || unfold n; cbn [length]; lia).
  cbn [take drop Nat.pred]. cbn zeta. destruct (chunk_remaining d - Z.of_nat 1 =? 0) eqn:H1.
  - apply Z.eqb_eq in H1. replace n with 1%nat by (unfold n; cbn [length]; lia).
    rewrite (proj2 (Z.eqb_eq (chunk_remaining d - Z.of_nat 1) 0)) by lia. cbn [take drop].
    destruct (verify_chunk_signature _) as [[u|e] d2]; [|done]. left. by eexists.
  - apply Z.eqb_neq in H1. right. set (d1 := set_remaining _ _).
    assert (Hd1 : chunk_remaining d1 = chunk_remaining d - 1 ∧ state d1 = Data ∧
      chunk_hasher d1 = h_update _ (chunk_hasher d) [b]) by (unfold d1; destruct d; by cbn in * ).
    destruct Hd1 as (Hr & Hs & Hh).
    assert (Hn : n = S (n - 1)) by (unfold n; cbn [length]; lia).
    rewrite (push_turn_data d1 rest (n - 1)) by (done || unfold n; cbn [length]; lia).
    rewrite Hr, Hh, h_update_app. cbn [app]. rewrite Hn. cbn [take drop]. rewrite Nat.sub_succ, Nat.sub_0_r.
    replace (chunk_remaining d - Z.of_nat (S (n - 1))) with (chunk_remaining d - 1 - Z.of_nat (n - 1)) by lia.
    assert (Heq : ∀ r h, set_remaining r (set_hasher h d1) = set_remaining r (set_hasher h d))
      by (intros; unfold d1; by destruct d).
    rewrite Heq. destruct (_ =? 0); [|by eexists].
    destruct (verify_chunk_signature _) as [[u|e] d2]; [by eexists|done].
Qed.

Lemma push_turn_cons b rest d : wf d → rest ≠ [] → turn_agrees b rest d.
Proof.
  unfold wf. destruct (state d) as [| |m|m| |] eqn:E; intros Hwf Hr.
  - by apply turn_header.
  - by apply turn_data.
  - apply turn_crlf; [|done]. destruct m as [|[|]]; [auto..|lia].
  - apply turn_crlf; [|done]. destruct m as [|[|]]; [auto..|lia].
  - by apply turn_trailers.
  - unfold turn_agrees, step, push_turn. by rewrite E.
Qed.

(** The bytes of an outcome, its pieces joined behind [p]. *)
Definition joined (p : list byte) (x : result IntegrityError (list (list byte)) * AwsChunkedDecoder)
    : result IntegrityError (list byte) * AwsChunkedDecoder :=
  ((λ ps, p ++ concat ps) <$> x.1, x.2).
Definition behind (p : list byte) (x : result IntegrityError (list byte) * AwsChunkedDecoder)
    : result IntegrityError (list byte) * AwsChunkedDecoder :=
  ((λ o, p ++ o) <$> x.1, x.2).

Lemma push_loop_output fuel i out out' d :
  concat out = concat out' →
  joined [] <$> push_loop fuel i out d = joined [] <$> push_loop fuel i out' d.
Proof.
  revert i out out' d. induction fuel as [|fuel IH]; intros i out out' d H; destruct i as [|b i]; cbn [push_loop].
  1,3: unfold joined; cbn; by rewrite H.
  - done.
  - destruct (push_turn (b :: i) d) as [[[r ps]|e] d1]; [|done].
    apply IH. by rewrite !concat_app, H.
Qed.

Lemma push_turn_one b d r ps d' : wf d → push_turn [b] d = (Ok (r, ps), d') → r = [].
Proof.
  intros Hwf. destruct (decide (state d = Data)) as [Hst|Hst].
  { unfold wf in Hwf. rewrite Hst in Hwf. rewrite (push_turn_data d [b] 1) by (done || cbn [length]; lia).
    cbn. intros Ht. destruct (_ =? 0); [|by simplify_eq].
    destruct (verify_chunk_signature _) as [[]]; by simplify_eq. }
  unfold wf in Hwf. unfold push_turn. unfold mbind, SE_bind, mret, SE_ret.
  destruct (state d) as [| |m|m| |]; [|done|..|done].
  - destruct (take_line _ _ _) as [[[l|]|e] [buf r']] eqn:Hl; [..|done]; apply take_line_one in Hl as ->.
    + destruct (start_chunk _ _) as [[]]; intros; by simplify_eq.
    + intros; by simplify_eq.
  - rewrite match_crlf_one by done. destruct m as [|[|]]; [..|lia]; cbn; case_bool_decide; cbn; intros; by simplify_eq.
  - rewrite match_crlf_one by done. destruct m as [|[|]]; [..|lia]; cbn; case_bool_decide; cbn; intros; by simplify_eq.
  - destruct (take_line _ _ _) as [[[l|]|e] [buf r']] eqn:Hl; [..|done]; apply take_line_one in Hl as ->.
    + destruct (u64_checked_add _ _); [|done]. destruct (_ <? _); [done|]. case_bool_decide.
      * destruct (verify_trailers _); cbn; intros; by simplify_eq.
      * destruct (parse_trailer _ _) as [[]]; intros; by simplify_eq.
    + intros; by simplify_eq.
Qed.

Lemma push_loop_feed i fuel out d :
  wf d → (length i <= fuel)%nat →
  joined [] <$> push_loop fuel i out d = Some (behind (concat out) (feed i d)).
Proof.
  revert fuel out d. induction i as [|b i IH]; intros fuel out d Hwf Hf.
  { destruct fuel; cbn; unfold joined, behind; cbn; by rewrite app_nil_r. }
  destruct fuel as [|fuel]; [cbn in Hf; lia|]. cbn [length] in Hf. cbn [push_loop feed].
  unfold mbind at 1, SE_bind at 1. destruct (decide (i = [])) as [->|Hi].
  - cbn [feed]. unfold step. destruct (push_turn [b] d) as [[[r ps]|e] d1] eqn:Ht; [|done].
    apply push_turn_one in Ht as ->; [|done].
    destruct fuel; cbn; unfold joined, behind, mbind, SE_bind, mret, SE_ret; cbn;
      rewrite concat_app; by rewrite ?app_nil_r.
  - pose proof (push_turn_cons b i d Hwf Hi) as Ha. unfold turn_agrees in Ha.
    destruct (step b d) as [[o|e] d1] eqn:Hs; [|by rewrite Ha].
    assert (Hb : ∀ p, behind p ((outs ← feed i; mret (o ++ outs)) d1) = behind (p ++ o) (feed i d1)).
    { intros p. unfold mbind, SE_bind, mret, SE_ret, behind. destruct (feed i d1) as [[]]; cbn; [|done].
      by rewrite app_assoc. }
    rewrite Hb. destruct Ha as [(ps & -> & Hps)|Ha].
    + rewrite IH by (eauto using step_wf || lia). by rewrite concat_app, Hps.
    + specialize (IH (S fuel) (out ++ [o]) d1 (step_wf _ _ _ _ Hwf Hs) ltac:(lia)).
      rewrite concat_app in IH. cbn [concat app] in IH. rewrite app_nil_r in IH.
      rewrite <- IH. destruct i as [|b2 i]; [done|]. cbn [push_loop].
      destruct (push_turn (b2 :: i) d1) as [[[r ps]|e] d2]; [|by rewrite Ha].
      destruct Ha as (ps' & -> & Hps). apply push_loop_output. rewrite !concat_app. cbn.
      by rewrite Hps, app_nil_r, <- !app_assoc.
Qed.

Lemma push_is_feed i d : wf d → joined [] (push i d) = feed i d.
Proof.
  intros Hwf. unfold push. destruct (bool_decide (state d = Done) && _) eqn:E.
  - apply andb_prop in E as [Hd Hi]. apply bool_decide_eq_true in Hd. destruct i as [|b i]; [done|].
    cbn [feed]. unfold mbind, SE_bind, step, push_turn. by rewrite Hd.
  - pose proof (push_loop_feed i (push_fuel i) [] d Hwf ltac:(unfold push_fuel; lia)) as H.
    apply fmap_Some in H as (x & -> & Hx). cbn [default concat] in *. unfold id. rewrite <- Hx.
    unfold behind. by destruct (feed i d) as [[]].
Qed.

Lemma feed_wf i d o d' : wf d → feed i d = (Ok o, d') → wf d'.
Proof.
  revert d o. induction i as [|b i IH]; intros d o Hwf; cbn [feed].
  - unfold mret, SE_ret. intros; by simplify_eq.
  - unfold mbind, SE_bind, mret, SE_ret. destruct (step b d) as [[o1|] d1] eqn:Hs; [|done].
    destruct (feed i d1) as [[o2|] d2] eqn:Hf; [|done]. intros; simplify_eq. eauto using step_wf.
Qed.

Lemma step_output b d o d' : wf d → step b d = (Ok o, d') → o = if bool_decide (state d = Data) then [b] else [].
Proof.
  intros Hwf. case_bool_decide as Hst; unfold step.
  - unfold wf in Hwf. rewrite Hst in Hwf. rewrite (push_turn_data d [b] 1) by (done || cbn [length]; lia).
    cbn. destruct (_ =? 0); [|by intros; simplify_eq].
    destruct (verify_chunk_signature _) as [[]]; intros; by simplify_eq.
  - unfold push_turn, mbind, SE_bind, mret, SE_ret. destruct (state d) as [| |k|k| |]; [|done|..|done].
    + destruct (take_line _ _ _) as [[[l|]|] [buf r]]; [|intros [= <- _]; done|done].
      destruct (start_chunk l _) as [[u|] d1]; [intros [= <- _]; done|done].
    + destruct (match_crlf _ _) as [[] [k' r]]; [intros [= <- _]; done|done].
    + destruct (match_crlf _ _) as [[] [k' r]]; cbn [negb]; [|done].
      destruct (k' =? 2)%nat; [case_bool_decide; [|done]|]; intros [= <- _]; done.
    + destruct (take_line _ _ _) as [[[l|]|] [buf r]]; [|intros [= <- _]; done|done].
      destruct (u64_checked_add _ _); [|done]. cbn zeta. destruct (_ <? _); [done|]. case_bool_decide.
      * destruct (verify_trailers _); [|done]. case_bool_decide; [|done]. intros [= <- _]; done.
      * destruct (parse_trailer l _) as [[u|] d1]; [intros [= <- _]; done|done].
Qed.

Lemma feed_output_length i d o d' : wf d → feed i d = (Ok o, d') → (length o <= length i)%nat.
Proof.
  revert d o. induction i as [|b i IH]; intros d o Hwf; cbn [feed].
  - unfold mret, SE_ret. intros; by simplify_eq.
  - unfold mbind, SE_bind, mret, SE_ret. destruct (step b d) as [[o1|] d1] eqn:Hs; [|done].
    destruct (feed i d1) as [[o2|] d2] eqn:Hf; [|done]. intros; simplify_eq.
    apply IH in Hf; [|by eauto using step_wf]. apply step_output in Hs as ->; [|done].
    rewrite length_app. cbn. case_bool_decide; cbn; lia.
Qed.

(** ** The streams the decoder accepts *)

Record Frame := mkFrame { f_header : list byte; f_data : list byte }.

Definition frame_bytes (f : Frame) : list byte := f_header f ++ CRLF ++ f_data f ++ CRLF.
Definition frames_bytes (fs : list Frame) : list byte := concat (frame_bytes <$> fs).
Definition frames_data (fs : list Frame) : list byte := concat (f_data <$> fs).

(** [actual] is the signature the text [given] spells: both decode, to the same bytes. *)
Definition same_hex (actual given : list byte) : Prop :=
  is_Some (hex_decode given) ∧ hex_decode actual = hex_decode given.

Lemma constant_time_hex_eq_same a g : constant_time_hex_eq a g = true ↔ same_hex a g.
Proof.
  unfold constant_time_hex_eq, same_hex.
  destruct (hex_decode a) as [l|], (hex_decode g) as [r|]; rewrite ?constant_time_eq_decides, ?bool_decide_eq_true;
    naive_solver eauto.
Qed.

Section stream.
Context (m : StreamingMode) (sg : StreamingSigning).

(** A frame after the signature [prev]: its header announces the length of
    its data; in the signed modes it carries a signature of the data chained
    to [prev], which becomes [next]; in the unsigned mode it has none. *)
Definition frame_ok (prev : list byte) (f : Frame) (next : list byte) : Prop :=
  let ext := (split_header (f_header f)).2 in
  chunk_size (split_header (f_header f)).1 = Ok (Z.of_nat (length (f_data f))) ∧
  Z.of_nat (length (f_data f)) <= MAX_CHUNK_BYTES ∧
  match m with
  | UnsignedTrailer => ext = None ∧ next = prev
  | _ => chunk_signature ext = Ok next ∧
         same_hex (hmac_hex (signing_key sg)
           (chunk_string_to_sign sg prev (hex_encode (digest c_sha256 (f_data f))))) next
  end.

(** A chain of frames with data, from the signature [prev] to the last one. *)
Inductive frames_ok (prev : list byte) : list Frame → list byte → Prop :=
| frames_nil : frames_ok prev [] prev
| frames_snoc fs mid f next :
    frames_ok prev fs mid → f_data f ≠ [] → frame_ok mid f next → frames_ok prev (fs ++ [f]) next.

(** The lines between the final frame's header and the end of the stream,
    given the checksum trailer and the trailer signature as it is spelt. *)
Definition trailer_lines (ct : option (list byte * list byte)) (sv : option (list byte)) : list byte :=
  match ct with Some (name, value) => name ++ x3a :: value ++ CRLF | None => [] end ++
  match sv with Some s => TRAILER_SIGNATURE ++ x3a :: s ++ CRLF | None => [] end.

(** The end of a stream after the last signature [prev]. *)
Definition tail_ok (tr : option (list byte)) (prev : list byte) (ct : option (list byte * list byte))
    (tail : list byte) : Prop :=
  match m with
  | Signed => ct = None ∧ tail = CRLF
  | SignedTrailer =>
      ∃ name value s, tr = Some name ∧ ct = Some (name, value) ∧
        tail = trailer_lines ct (Some s) ++ CRLF ∧
        same_hex (hmac_hex (signing_key sg) (trailer_string_to_sign sg prev name value))
          (to_ascii_lowercase <$> s)
  | UnsignedTrailer =>
      ∃ name value, tr = Some name ∧ ct = Some (name, value) ∧ tail = trailer_lines ct None ++ CRLF
  end.

(** [input] is a complete stream that carries [output] and the trailer [ct]:
    data frames, a final empty frame, the end. *)
Definition stream_ok (tr : option (list byte)) (input output : list byte)
    (ct : option (list byte * list byte)) : Prop :=
  ∃ fs mid h last tail,
    input = frames_bytes fs ++ h ++ CRLF ++ tail ∧ output = frames_data fs ∧
    frames_ok (seed_signature sg) fs mid ∧ frame_ok mid (mkFrame h []) last ∧ tail_ok tr last ct tail.
End stream.

Lemma frames_bytes_snoc fs f : frames_bytes (fs ++ [f]) = frames_bytes fs ++ frame_bytes f.
Proof. unfold frames_bytes. rewrite fmap_app, concat_app. cbn. by rewrite app_nil_r. Qed.
Lemma frames_data_snoc fs f : frames_data (fs ++ [f]) = frames_data fs ++ f_data f.
Proof. unfold frames_data. rewrite fmap_app, concat_app. cbn. by rewrite app_nil_r. Qed.

Lemma ends_with_inv p l : ends_with p l = true → l = take (length l - length p) l ++ p.
Proof.
  unfold ends_with. intros H%bool_decide_eq_true.
  by rewrite <- (take_drop (length l - length p) l) at 1; rewrite H.
Qed.

Lemma take_line_step buf b limit r buf' rest :
  take_line buf [b] limit = (Ok r, (buf', rest)) →
  match r with
  | None => buf' = buf ++ [b]
  | Some l => buf' = [] ∧ buf ++ [b] = l ++ CRLF
  end.
Proof.
  cbn [take_line]. destruct (ends_with CRLF (buf ++ [b])) eqn:E.
  - intros; simplify_eq. split; [done|]. by apply ends_with_inv in E.
  - case_match; intros; by simplify_eq.
Qed.

(** A verified frame: the outcome of [verify_chunk_signature] on its data. *)
Lemma verify_frame m sg ext data d d' :
  extension_ok m ext None (expected_chunk_signature d) → signing d = sg →
  chunk_hasher d = h_update _ (h_new _) data →
  verify_chunk_signature d = (Ok tt, d') →
  d' = set_previous (previous_signature d') (set_expected None d) ∧
  match m with
  | UnsignedTrailer => ext = None ∧ previous_signature d' = previous_signature d
  | _ => chunk_signature ext = Ok (previous_signature d') ∧
         same_hex (hmac_hex (signing_key sg)
           (chunk_string_to_sign sg (previous_signature d) (hex_encode (digest c_sha256 data))))
           (previous_signature d')
  end.
Proof.
  intros Hext Hsg Hh Hv. apply verify_chunk_signature_frame in Hv as [Hd Hv]. split; [done|].
  destruct Hv as [[? _]|[_ Hv]]; [done|]. unfold digest. rewrite <- Hh, <- Hsg. unfold extension_ok in Hext.
  destruct m; [destruct Hext as (s & Hs & Hes); rewrite Hes in Hv; destruct Hv as [-> Hv];
    by rewrite <- constant_time_hex_eq_same..|].
  destruct Hext as [-> Hes]. by rewrite Hes in Hv.
Qed.

(** Arithmetic after the [state = Data] tests are decided. *)
Ltac bd_lia := cbn; rewrite ?app_nil_r; repeat case_bool_decide; done || lia.

Section soundness.
Context (m : StreamingMode) (sg : StreamingSigning) (tr : option (list byte)) (len : Z).

Definition no_trailer (d : AwsChunkedDecoder) : Prop :=
  checksum_trailer d = None ∧ trailer_signature d = None.

(** The fields the decoder never changes, and the room left. *)
Definition base_inv (o : list byte) (d : AwsChunkedDecoder) : Prop :=
  mode d = m ∧ signing d = sg ∧ declared_trailer d = tr ∧ expected_decoded_length d = len ∧
  decoded_length d <= len ∧
  decoded_length d = Z.of_nat (length o) + (if bool_decide (state d = Data) then chunk_remaining d else 0).

(** What has been read so far ([c]) and handed on ([o]), state by state. *)
Definition framing_inv (c o : list byte) (d : AwsChunkedDecoder) : Prop :=
  base_inv o d ∧
  match state d with
  | Header => ∃ fs,
      c = frames_bytes fs ++ line d ∧ o = frames_data fs ∧
      frames_ok m sg (seed_signature sg) fs (previous_signature d) ∧
      expected_chunk_signature d = None ∧ no_trailer d
  | Data => ∃ fs h part,
      c = frames_bytes fs ++ h ++ CRLF ++ part ∧ o = frames_data fs ++ part ∧
      frames_ok m sg (seed_signature sg) fs (previous_signature d) ∧
      chunk_size (split_header h).1 = Ok (Z.of_nat (length part) + chunk_remaining d) ∧
      Z.of_nat (length part) + chunk_remaining d <= MAX_CHUNK_BYTES ∧
      extension_ok m (split_header h).2 None (expected_chunk_signature d) ∧
      chunk_hasher d = h_update _ (h_new _) part ∧ line d = [] ∧ no_trailer d ∧ 0 < chunk_remaining d
  | DataCrlf k => ∃ fs f,
      c = frames_bytes fs ++ f_header f ++ CRLF ++ f_data f ++ take k CRLF ∧
      o = frames_data (fs ++ [f]) ∧
      frames_ok m sg (seed_signature sg) (fs ++ [f]) (previous_signature d) ∧
      expected_chunk_signature d = None ∧ line d = [] ∧ no_trailer d ∧ (k < 2)%nat
  | FinalCrlf k => m = Signed ∧ no_trailer d ∧ (k < 2)%nat ∧ ∃ fs mid h,
      c = frames_bytes fs ++ h ++ CRLF ++ take k CRLF ∧ o = frames_data fs ∧
      frames_ok m sg (seed_signature sg) fs mid ∧ frame_ok m sg mid (mkFrame h []) (previous_signature d)
  | Trailers => m ≠ Signed ∧ ∃ fs mid h sv,
      c = frames_bytes fs ++ h ++ CRLF ++ trailer_lines (checksum_trailer d) sv ++ line d ∧
      o = frames_data fs ∧ frames_ok m sg (seed_signature sg) fs mid ∧
      frame_ok m sg mid (mkFrame h []) (previous_signature d) ∧
      trailer_signature d = (λ s : list byte, to_ascii_lowercase <$> s) <$> sv ∧
      (∀ name value, checksum_trailer d = Some (name, value) → tr = Some name) ∧
      (checksum_trailer d = None → sv = None)
  | Done => stream_ok m sg tr c o (checksum_trailer d)
  end.

Lemma inv_new : 0 <= len → framing_inv [] [] (decoder_new m len tr sg).
Proof.
  intros Hl. split; [by repeat (split; [done|])|]. cbn. exists []. repeat (split; [done|]).
  split; [constructor|]. done.
Qed.

Lemma inv_start_chunk c o d l u d' :
  base_inv o d → state d = Header → line d = [] → expected_chunk_signature d = None → no_trailer d →
  (∃ fs, c = frames_bytes fs ++ l ++ CRLF ∧ o = frames_data fs ∧
     frames_ok m sg (seed_signature sg) fs (previous_signature d)) →
  start_chunk l d = (Ok u, d') → framing_inv c o d'.
Proof.
  intros (Hm & Hsg & Htr & Hlen & Hle & Hdec) Hst Hline Hes Hnt (fs & -> & -> & Hfs) Hsc.
  apply start_chunk_inv in Hsc as (size & es & Hsz & Hmax & _ & Hext & Ho).
  rewrite Hes, Hm in Hext. rewrite Hst, (bool_decide_eq_false_2 (Header = Data)), Z.add_0_r in Hdec by done.
  destruct Ho as [[-> (d1 & Hv & ->)]|(Hnz & Hfit & ->)].
  - apply (verify_frame m sg (split_header l).2 []) in Hv as [Hd1 Hv];
      [|by destruct d|by destruct d|by rewrite h_update_nil; destruct d].
    remember (previous_signature d1) as ps1 eqn:E1. clear E1. subst d1.
    assert (Hf : frame_ok m sg (previous_signature d) (mkFrame l []) ps1).
    { unfold frame_ok. cbn in *. do 2 (split; [done || lia|]). destruct d; cbn in *. by destruct m. }
    name_decoder d. cbn in *. subst.
    unfold no_trailer in Hnt; cbn in Hnt. destruct Hnt as [-> ->].
    assert (Hmode : m = Signed ∨ m ≠ Signed) by (destruct m; auto).
    unfold framing_inv, base_inv. destruct Hmode as [Hmode|Hmode].
    + assert (Hs : (match m with Signed => FinalCrlf 0 | _ => Trailers end) = FinalCrlf 0) by by rewrite Hmode.
      rewrite Hs. cbn. split; [repeat (split; [done|]); bd_lia|].
      split; [done|]. split; [done|]. split; [lia|]. by exists fs, psig, l.
    + assert (Hs : (match m with Signed => FinalCrlf 0 | _ => Trailers end) = Trailers) by by destruct m.
      rewrite Hs. cbn. split; [repeat (split; [done|]); bd_lia|]. split; [done|].
      exists fs, psig, l, None. cbn. by rewrite ?app_nil_r.
  - apply chunk_size_nonneg in Hsz as Hnn.
    destruct d. cbn in *. subst.
    split; [repeat (split; [done|]); cbn; bd_lia|]. cbn. exists fs, l, []. rewrite h_update_nil, !app_nil_r.
    cbn. repeat (split; [done || lia|]). lia.
Qed.

Lemma inv_wf c o d : framing_inv c o d → wf d.
Proof.
  unfold framing_inv, wf. intros [_ Hi]. destruct (state d); [done|..|done|done].
  - by destruct Hi as (?&?&?&?&?&?&?&?&?&?&?&?&?).
  - by destruct Hi as (?&?&?&?&?&?&?&?&?).
  - by destruct Hi as (?&?&?&?).
Qed.

Lemma base_inv_set_line o x d : base_inv o (set_line x d) ↔ base_inv o d.
Proof. by destruct d. Qed.

Lemma inv_step_header c o d b x d' :
  state d = Header → framing_inv c o d → step b d = (Ok x, d') → framing_inv (c ++ [b]) (o ++ x) d'.
Proof.
  intros Hst [Hb Hi]. rewrite Hst in Hi. destruct Hi as (fs & -> & -> & Hfs & Hes & Hnt).
  unfold step, push_turn. rewrite Hst.
  destruct (take_line _ _ _) as [[[l|]|e] [buf r]] eqn:Hl; [..|done]; apply take_line_step in Hl.
  - destruct Hl as [-> Hl]. unfold mbind, SE_bind, mret, SE_ret.
    destruct (start_chunk l _) as [[u|] d1] eqn:Hsc; [|done]. intros; simplify_eq.
    cbn. rewrite app_nil_r. eapply inv_start_chunk; [..|exact Hsc]; [by apply base_inv_set_line|by destruct d..|].
    exists fs. rewrite <- app_assoc, Hl. by destruct d.
  - subst. intros; simplify_eq. cbn. rewrite app_nil_r, <- app_assoc.
    split; [by apply base_inv_set_line|]. rewrite state_set_line, Hst. exists fs. by destruct d.
Qed.

Lemma inv_step_data c o d b x d' :
  state d = Data → framing_inv c o d → step b d = (Ok x, d') → framing_inv (c ++ [b]) (o ++ x) d'.
Proof.
  intros Hst [Hb Hi]. rewrite Hst in Hi.
  destruct Hi as (fs & h & part & -> & -> & Hfs & Hsz & Hmax & Hext & Hh & Hline & Hnt & Hpos).
  unfold step. rewrite (push_turn_data d [b] 1) by (done || cbn [length]; lia). cbn [take drop].
  destruct Hb as (Hm & Hsg & Htr & Hlen & Hle & Hdec). rewrite Hst, bool_decide_eq_true_2 in Hdec by done.
  rewrite Hh, h_update_app. cbn zeta. destruct (chunk_remaining d - Z.of_nat 1 =? 0) eqn:Hr.
  - apply Z.eqb_eq in Hr. set (d1 := set_remaining _ _).
    destruct (verify_chunk_signature d1) as [[[]|] d2] eqn:Hv; [|done]. intros; simplify_eq. cbn.
    apply (verify_frame m sg (split_header h).2 (part ++ [b])) in Hv as [Hd2 Hv];
      [|by unfold d1; destruct d..].
    remember (previous_signature d2) as ps eqn:E. clear E. subst d2.
    assert (Hf : frame_ok m sg (previous_signature d) (mkFrame h (part ++ [b])) ps).
    { unfold frame_ok. cbn. rewrite length_app. cbn [length]. split; [rewrite Hsz; f_equal; lia|].
      split; [lia|]. unfold d1 in Hv. destruct d; cbn in *. by destruct m. }
    unfold d1. clear d1 Hv. destruct d. cbn in *. subst. rewrite <- !app_assoc. split.
    + repeat (split; [done|]). cbn. rewrite !length_app in *. cbn. bd_lia.
    + cbn. exists fs, (mkFrame h (part ++ [b])). rewrite frames_data_snoc. cbn.
      rewrite app_nil_r. repeat (split; [done|]). split; [|by repeat (split; [done|]); lia].
      eapply frames_snoc; [done| |done]. by destruct part.
  - apply Z.eqb_neq in Hr. intros; simplify_eq. cbn. destruct d. cbn in *. subst.
    rewrite <- !app_assoc. split.
    + repeat (split; [done|]). cbn. rewrite !length_app in *. cbn. bd_lia.
    + cbn. exists fs, h, (part ++ [b]). repeat (split; [done|]). rewrite length_app. cbn [length].
      split; [rewrite Hsz; f_equal; lia|]. repeat (split; [done || lia|]). lia.
Qed.

Lemma inv_step_crlf c o d b x d' :
  (∃ k, state d = DataCrlf k ∨ state d = FinalCrlf k) →
  framing_inv c o d → step b d = (Ok x, d') → framing_inv (c ++ [b]) (o ++ x) d'.
Proof.
  intros [k Hst] [Hb Hi]. unfold step, push_turn. destruct Hst as [Hst|Hst]; rewrite Hst in *.
  - destruct Hi as (fs & f & -> & -> & Hfs & Hes & Hline & Hnt & Hk). rewrite match_crlf_one by done.
    destruct Hb as (Hm & Hsg & Htr & Hlen & Hle & Hdec). rewrite Hst, bool_decide_eq_false_2 in Hdec by done.
    destruct k as [|[|]]; [..|lia]; cbn [Nat.eqb]; (case_bool_decide as Hbb; [|done]); subst b;
      cbn [match_crlf negb]; intros; simplify_eq/=; rewrite ?app_nil_r; destruct d; cbn in *; subst.
    + split; [repeat (split; [done|]); bd_lia|]. cbn. exists fs, f. rewrite <- ?app_assoc. cbn.
      rewrite <- ?app_assoc. repeat (split; [done|]). lia.
    + split; [repeat (split; [done|]); bd_lia|]. cbn. exists (fs ++ [f]).
      rewrite frames_bytes_snoc, ?app_nil_r. unfold frame_bytes. rewrite <- ?app_assoc. cbn.
      rewrite <- ?app_assoc. by repeat (split; [done|]).
  - destruct Hi as (Hsi & Hnt & Hk & fs & mid & h & -> & -> & Hfs & Hf). rewrite match_crlf_one by done.
    destruct Hb as (Hm & Hsg & Htr & Hlen & Hle & Hdec). rewrite Hst, bool_decide_eq_false_2 in Hdec by done.
    destruct k as [|[|]]; [..|lia]; cbn [Nat.eqb]; (case_bool_decide as Hbb; [|done]); subst b;
      cbn [match_crlf negb]; intros; simplify_eq/=; rewrite ?app_nil_r; name_decoder d; cbn in *; subst.
    + split; [repeat (split; [done|]); bd_lia|]. cbn. do 2 (split; [done|]). split; [lia|].
      exists fs, mid, h. by rewrite <- ?app_assoc.
    + split; [repeat (split; [done|]); bd_lia|]. cbn. unfold no_trailer in Hnt. cbn in Hnt.
      exists fs, mid, h, psig, CRLF. rewrite <- ?app_assoc. repeat (split; [done|]).
      unfold tail_ok. destruct Hnt as [-> _]. by rewrite Hsi.
Qed.

Lemma verify_trailers_tail d sv :
  mode d = m → signing d = sg → m ≠ Signed →
  trailer_signature d = (λ s : list byte, to_ascii_lowercase <$> s) <$> sv →
  (∀ name value, checksum_trailer d = Some (name, value) → tr = Some name) →
  verify_trailers d = Ok tt →
  tail_ok m sg tr (previous_signature d) (checksum_trailer d) (trailer_lines (checksum_trailer d) sv ++ CRLF).
Proof.
  intros Hm Hsg Hns Hts Hct. unfold verify_trailers, mbind, result_bind, ok_or.
  destruct (checksum_trailer d) as [[name value]|] eqn:Hc; [|done].
  specialize (Hct _ _ eq_refl). rewrite Hts, Hm, Hsg. unfold tail_ok.
  destruct m; [done|..]; cbn [bool_decide].
  - destruct sv as [s|]; cbn -[trailer_lines]; [|done].
    destruct (constant_time_hex_eq _ _) eqn:Hh; [|done]. apply constant_time_hex_eq_same in Hh.
    intros _. by exists name, value, s.
  - destruct sv as [s|]; cbn -[trailer_lines]; [done|]. intros _. by exists name, value.
Qed.

Lemma trailer_lines_snoc l ct sv d u d' :
  parse_trailer l d = (Ok u, d') → ct = checksum_trailer d →
  trailer_signature d = (λ s : list byte, to_ascii_lowercase <$> s) <$> sv →
  (ct = None → sv = None) →
  ∃ sv', trailer_lines ct sv ++ l ++ CRLF = trailer_lines (checksum_trailer d') sv' ∧
    d' = set_checksum_trailer (checksum_trailer d') (set_trailer_signature (trailer_signature d') (counted d)) ∧
    trailer_signature d' = (λ s : list byte, to_ascii_lowercase <$> s) <$> sv' ∧
    (checksum_trailer d' = None → sv' = None) ∧
    (checksum_trailer d' = checksum_trailer d ∨
     ∃ n v, declared_trailer d = Some n ∧ checksum_trailer d' = Some (n, v)).
Proof.
  intros Hp -> Hts Hsv. apply parse_trailer_inv in Hp as (name & value & -> & _ & Hp).
  unfold trailer_lines. destruct Hp as [(-> & Hnone & Hct & _ & ->)|(_ & Hnone & Hdt & _ & ->)].
  - rewrite Hnone in Hts. destruct sv; [done|]. exists (Some value).
    name_decoder d; cbn in *.
    destruct ct as [[n v]|]; [|done]. cbn. rewrite <- ?app_assoc. cbn. rewrite <- ?app_assoc.
    repeat (split; [done|]). by left.
  - rewrite Hnone in *. rewrite Hsv by done. exists None. rewrite (Hsv eq_refl) in Hts.
    destruct d; cbn in *. subst.
    rewrite <- ?app_assoc. cbn. rewrite ?app_nil_r.
    repeat (split; [done|]). eauto.
Qed.

Lemma inv_step_trailers c o d b x d' :
  state d = Trailers → framing_inv c o d → step b d = (Ok x, d') → framing_inv (c ++ [b]) (o ++ x) d'.
Proof.
  intros Hst [Hb Hi]. rewrite Hst in Hi.
  destruct Hi as (Hns & fs & mid & h & sv & -> & -> & Hfs & Hf & Hts & Htr & Hsv).
  unfold step, push_turn. rewrite Hst.
  destruct (take_line _ _ _) as [[[l|]|e] [buf r]] eqn:Hl; [..|done];
    pose proof (take_line_one _ _ _ _ _ _ Hl) as ->; apply take_line_step in Hl.
  2:{ subst. intros; simplify_eq. cbn. rewrite app_nil_r, <- ?app_assoc.
      split; [by apply base_inv_set_line|]. rewrite state_set_line, Hst. split; [done|].
      exists fs, mid, h, sv. destruct d; cbn in *. rewrite <- ?app_assoc. cbn. by rewrite <- ?app_assoc. }
  destruct Hl as [-> Hl]. destruct (u64_checked_add _ _) as [n|]; [|done]. cbn zeta.
  destruct (MAX_TRAILER_BYTES <? n); [done|]. set (d1 := set_trailer_bytes n (set_line [] d)).
  rewrite <- ?app_assoc. rewrite Hl. case_bool_decide as Hnil.
  - subst l. destruct (verify_trailers d1) as [[]|] eqn:Hv; [|done]. cbn. intros; simplify_eq.
    destruct Hb as (Hm & Hsg & Hdt & Hlen & Hle & Hdec).
    rewrite Hst, bool_decide_eq_false_2 in Hdec by done. rewrite app_nil_r.
    apply (verify_trailers_tail d1 sv) in Hv; [|by unfold d1; destruct d..].
    unfold d1 in *. clear d1. name_decoder d. cbn in *. subst. split; [repeat (split; [done|]); bd_lia|]. cbn.
    exists fs, mid, h, psig. eexists. split; [done|]. by repeat (split; [done|]).
  - unfold mbind, SE_bind, mret, SE_ret. destruct (parse_trailer l d1) as [[u|] d2] eqn:Hp; [|done].
    intros; simplify_eq. cbn. rewrite app_nil_r.
    eapply (trailer_lines_snoc l (checksum_trailer d) sv) in Hp
      as (sv' & Hlines & Hfix & Hts' & Hsv' & Hct'); [|by unfold d1; destruct d..|done].
    rewrite Hlines. clear Hlines. remember (checksum_trailer d') as ct' eqn:E1.
    remember (trailer_signature d') as ts' eqn:E2. clear E1 E2. subst d'.
    unfold d1, counted in *. clear d1. destruct Hb as (Hm & Hsg & Hdt & Hlen & Hle & Hdec).
    rewrite Hst, bool_decide_eq_false_2 in Hdec by done.
    destruct d. cbn in *. subst. split; [repeat (split; [done|]); bd_lia|]. cbn. split; [done|].
    exists fs, mid, h, sv'. rewrite app_nil_r. repeat (split; [done|]). split; [|done].
    intros n1 v1 ->. destruct Hct' as [<-|(n2 & v2 & ? & ?)]; simplify_eq; eauto.
Qed.

Lemma inv_step c o d b x d' :
  framing_inv c o d → step b d = (Ok x, d') → framing_inv (c ++ [b]) (o ++ x) d'.
Proof.
  destruct (state d) eqn:Hst; [eauto using inv_step_header|eauto using inv_step_data
    |eauto using inv_step_crlf..|eauto using inv_step_trailers|].
  unfold step, push_turn. by rewrite Hst.
Qed.

Lemma inv_feed i c o d x d' :
  framing_inv c o d → feed i d = (Ok x, d') → framing_inv (c ++ i) (o ++ x) d'.
Proof.
  revert c o d x. induction i as [|b i IH]; intros c o d x Hi; cbn [feed].
  - unfold mret, SE_ret. intros; simplify_eq. by rewrite !app_nil_r.
  - unfold mbind, SE_bind, mret, SE_ret. destruct (step b d) as [[o1|] d1] eqn:Hs; [|done].
    destruct (feed i d1) as [[o2|] d2] eqn:Hf; [|done]. intros; simplify_eq.
    apply (inv_step c o) in Hs; [|done]. apply (IH _ _ _ _ Hs) in Hf.
    by rewrite <- !app_assoc in Hf.
Qed.

(** A stream that was read to its end and finished is a well-formed stream of
    exactly the declared length. *)
Lemma decoder_sound i o d :
  0 <= len → feed i (decoder_new m len tr sg) = (Ok o, d) → decoder_finish d = Ok tt →
  stream_ok m sg tr i o (checksum_trailer d) ∧ Z.of_nat (length o) = len.
Proof.
  intros Hl Hf Hfin. apply (inv_feed i [] []) in Hf; [|by apply inv_new]. cbn in Hf.
  unfold decoder_finish in Hfin. case_bool_decide as Hd; [|done]. cbn in Hfin.
  destruct (_ =? _) eqn:E; [|done]. apply Z.eqb_eq in E.
  destruct Hf as [(Hm & Hsg & Hdt & Hlen & Hle & Hdec) Hi]. rewrite Hd in Hi, Hdec.
  rewrite bool_decide_eq_false_2 in Hdec by done. split; [done|lia].
Qed.
End soundness.

(** ** The body verifier on the whole body *)

Definition body_wf (b : BodyVerifier) : Prop :=
  match b_state b with Fixed _ _ => True | Chunked d => wf d | Finished => False end.

(** The checksum and the count after [o] was decoded. *)
Definition accounted (st : PayloadState) (o : list byte) (b : BodyVerifier) : BodyVerifier :=
  mkBody st ((λ v, cv_update v o) <$> checksum b) (decoded_bytes b + Z.of_nat (length o)).

(** What pushing [i] does, however it is cut. *)
Definition absorb (i : list byte) (b : BodyVerifier) : result IntegrityError (list byte) * BodyVerifier :=
  match b_state b with
  | Fixed s e => (Ok i, accounted (Fixed ((λ h, h_update _ h i) <$> s) e) i b)
  | Chunked d =>
      match feed i d with
      | (Ok o, d') => (Ok o, accounted (Chunked d') o b)
      | (Err e, d') => (Err e, mkBody (Chunked d') (checksum b) (decoded_bytes b))
      end
  | Finished => (Err TrailingData, b)
  end.

Lemma checksum_update_nil s : checksum_update s [] = s.
Proof. destruct s; cbn; f_equal; apply h_update_nil. Qed.
Lemma checksum_update_app s x y : checksum_update (checksum_update s x) y = checksum_update s (x ++ y).
Proof. destruct s; cbn; f_equal; apply h_update_app. Qed.
Lemma accounted_nil b : accounted (b_state b) [] b = b.
Proof.
  destruct b as [st [[a s e t]|] n]; unfold accounted, cv_update; cbn.
  - by rewrite checksum_update_nil, Z.add_0_r.
  - by rewrite Z.add_0_r.
Qed.
Lemma accounted_app st st' x y b : accounted st y (accounted st' x b) = accounted st (x ++ y) b.
Proof.
  destruct b as [st0 [[a s e t]|] n]; unfold accounted, cv_update; cbn; rewrite length_app, Nat2Z.inj_add, Z.add_assoc.
  - by rewrite checksum_update_app.
  - done.
Qed.

Lemma account_spec ps b r b' :
  account ps b = (r, b') →
  (r = Ok tt ∨ decoded_bytes b + Z.of_nat (length (concat ps)) <= u64_max) →
  r = Ok tt ∧ b' = accounted (b_state b) (concat ps) b.
Proof.
  revert b. induction ps as [|p ps IH]; intros b; cbn [account concat].
  - intros; simplify_eq. by rewrite accounted_nil.
  - unfold u64_checked_add. rewrite length_app, Nat2Z.inj_add.
    destruct (_ <=? u64_max) eqn:E; intros Ha Hr.
    + apply IH in Ha as [-> ->]; [|cbn; destruct Hr; [auto|right; lia]]. split; [done|].
      exact (accounted_app _ (b_state b) p (concat ps) b).
    + apply Z.leb_gt in E. simplify_eq. destruct Hr; [done|lia].
Qed.

Lemma body_push_absorb i b r b' :
  body_wf b → body_push i b = (r, b') →
  (is_ok r = true ∨ decoded_bytes b + Z.of_nat (length i) <= u64_max) →
  absorb i b = ((λ ps, concat ps) <$> r, b').
Proof.
  unfold body_wf, body_push, absorb. destruct (b_state b) as [s e|d|] eqn:Hst; [intros _|intros Hwf|done].
  - unfold mbind, SE_bind, mret, SE_ret. destruct (account [i] _) as [r1 b1] eqn:Ha. intros Hr Hb.
    apply account_spec in Ha as [-> ->]; cbn [concat decoded_bytes] in *; rewrite app_nil_r in *.
    + simplify_eq. cbn. by rewrite app_nil_r.
    + destruct Hb; [left|auto]. destruct r1 as [[]|]; simplify_eq; done.
  - pose proof (push_is_feed i d Hwf) as Hf. destruct (push i d) as [[ps|e] d'].
    + unfold joined in Hf. cbn in Hf. rewrite <- Hf. unfold mbind, SE_bind, mret, SE_ret.
      destruct (account ps _) as [r1 b1] eqn:Ha. intros Hr Hb.
      apply account_spec in Ha as [-> ->]; cbn in *.
      * by simplify_eq.
      * symmetry in Hf. apply feed_output_length in Hf; [|done].
        destruct Hb; [left|right; lia]. destruct r1 as [[]|]; simplify_eq; done.
    + unfold joined in Hf. cbn in Hf. rewrite <- Hf. intros; by simplify_eq.
Qed.

Lemma absorb_wf i b o b' : body_wf b → absorb i b = (Ok o, b') → body_wf b'.
Proof.
  unfold body_wf, absorb. destruct (b_state b) as [s e|d|]; [by intros; simplify_eq| |done].
  intros Hwf. destruct (feed i d) as [[x|] d'] eqn:Hf; [|done]. intros; simplify_eq. cbn. eauto using feed_wf.
Qed.

Lemma absorb_count i b o b' :
  body_wf b → absorb i b = (Ok o, b') →
  decoded_bytes b' <= decoded_bytes b + Z.of_nat (length i) ∧ decoded_bytes b <= decoded_bytes b'.
Proof.
  unfold body_wf, absorb. destruct (b_state b) as [s e|d|]; [intros _ ?; simplify_eq; cbn; lia| |done].
  intros Hwf. destruct (feed i d) as [[x|] d'] eqn:Hf; [|done]. intros; simplify_eq. cbn.
  apply feed_output_length in Hf; [lia|done].
Qed.

Lemma absorb_nil b : body_wf b → absorb [] b = (Ok [], b).
Proof.
  unfold body_wf, absorb. destruct (b_state b) as [s e|d|] eqn:E; [intros _|intros _|done]; cbn.
  - f_equal. replace (Fixed _ e) with (b_state b); [apply accounted_nil|].
    rewrite E. destruct s; cbn; by rewrite ?h_update_nil.
  - f_equal. rewrite <- E. apply accounted_nil.
Qed.

(** An outcome as its caller sees it: the verifier is dropped on an error. *)
Definition outcome {A} (x : result IntegrityError A * BodyVerifier)
    : result IntegrityError (A * BodyVerifier) :=
  match x with (Ok a, b) => Ok (a, b) | (Err e, _) => Err e end.

Lemma absorb_app x y b :
  outcome (absorb (x ++ y) b) =
  p ← outcome (absorb x b); q ← outcome (absorb y p.2); Ok (p.1 ++ q.1, q.2).
Proof.
  unfold mbind, result_bind, outcome, absorb. destruct (b_state b) as [s e|d|] eqn:E; [..|done].
  - cbn. rewrite accounted_app. destruct s; cbn; by rewrite ?h_update_app.
  - rewrite feed_app. unfold mbind, SE_bind, mret, SE_ret.
    destruct (feed x d) as [[o|] d1]; cbn; [|done]. destruct (feed y d1) as [[o'|] d2]; cbn; [|done].
    by rewrite accounted_app.
Qed.

Lemma push_all_absorb pieces b :
  body_wf b →
  (is_ok (push_all pieces b).1 = true ∨
   decoded_bytes b + Z.of_nat (length (concat pieces)) <= u64_max) →
  (p ← outcome (push_all pieces b); Ok (concat p.1, p.2)) = outcome (absorb (concat pieces) b).
Proof.
  revert b. induction pieces as [|p ps IH]; intros b Hwf Hb; cbn [push_all concat].
  - rewrite absorb_nil by done. done.
  - rewrite absorb_app. cbn [push_all concat] in Hb. unfold mbind at 2, SE_bind at 1.
    unfold mbind at 1, SE_bind at 1 in Hb. destruct (body_push p b) as [[o|e] b1] eqn:Hp.
    + pose proof (body_push_absorb p b _ _ Hwf Hp (or_introl eq_refl)) as Ha. rewrite Ha.
      pose proof (absorb_wf _ _ _ _ Hwf Ha) as Hwf1. pose proof (absorb_count _ _ _ _ Hwf Ha) as Hc.
      cbn. rewrite length_app, Nat2Z.inj_add in Hb. specialize (IH b1 Hwf1).
      unfold mbind, SE_bind, mret, SE_ret in *. destruct (push_all ps b1) as [[os|e] b2].
      * rewrite <- IH by by left. cbn. by rewrite concat_app.
      * rewrite <- IH by (destruct Hb; [done|right; lia]). done.
    + destruct Hb as [Hb|Hb]; [done|]. rewrite length_app, Nat2Z.inj_add in Hb.
      apply body_push_absorb in Hp; [|done|right; lia]. by rewrite Hp.
Qed.

(** ** The request headers *)

Lemma select_checksum_spec headers l selected r :
  select_checksum headers l selected = Ok r →
  (∀ p, selected = Some p → r = Some p) ∧
  (∀ a name v, (a, name) ∈ l → one_header headers name = Ok (Some v) →
     ∃ decoded, decode_checksum a v = Ok decoded ∧ r = Some (a, decoded)).
Proof.
  revert selected. induction l as [|[a name] l IH]; intros selected; cbn [select_checksum].
  { intros; simplify_eq. split; [naive_solver|]. intros a name v Hin. by apply not_elem_of_nil in Hin. }
  unfold mbind, result_bind. destruct (one_header headers name) as [[v|]|] eqn:Hh; [| |done].
  - case_bool_decide; [|done]. destruct (decode_checksum a v) as [dec|] eqn:Hd; [|done].
    intros (H1 & H2)%IH. split; [naive_solver|]. intros a' name' v' Hin Hv'.
    apply elem_of_cons in Hin as [?|Hin]; [|eauto].
    assert (v' = v) as -> by congruence. simplify_eq. eauto.
  - intros (H1 & H2)%IH. split; [done|]. intros a' name' v' Hin Hv'.
    apply elem_of_cons in Hin as [?|Hin]; [congruence|eauto].
Qed.

Definition checksum_of (a : ChecksumAlgorithm) (l : list byte) : list byte :=
  checksum_finalize (checksum_update (checksum_new a) l).

(** What the headers declare: at most one checksum, in a header or in the trailer. *)
Lemma checksum_from_headers_inv headers td cv declared :
  checksum_from_headers headers td = Ok (cv, declared) →
  (∀ a v, one_header headers (header a) = Ok (Some v) →
     ∃ decoded t, decode_checksum a v = Ok decoded ∧ cv = Some (mkChecksum a (checksum_new a) (Some decoded) t)) ∧
  (∀ name, declared = Some name →
     ∃ a t, from_header name = Some a ∧ cv = Some (mkChecksum a (checksum_new a) None t)) ∧
  (td = None → declared = None).
Proof.
  unfold checksum_from_headers, mbind, result_bind, ensure.
  destruct (select_checksum headers ALL None) as [sel|] eqn:Hsel; [|done].
  apply select_checksum_spec in Hsel as [_ Hsel].
  set (decl := option_bind _ _ _ _). intros H.
  assert (Htd : td = None → decl = None) by (unfold decl; by intros ->).
  destruct decl as [name|] eqn:Hdecl.
  - destruct (negb _) eqn:Hn; [|done].
    apply negb_true_iff, orb_false_iff in Hn as [_ Hfh]. apply bool_decide_eq_false in Hfh.
    destruct sel as [p|]; [done|]. cbn in H.
    destruct (one_header headers "x-amz-sdk-checksum-algorithm") as [sdk|]; [|done].
    destruct (from_header name) as [a|] eqn:Ha; [|done]. cbn in H. rewrite ?Ha in H.
    assert (∃ t, cv = Some (mkChecksum a (checksum_new a) None t) ∧ declared = Some name) as (t & -> & ->).
    { destruct sdk; [destruct (eq_ignore_ascii_case _ _); [|done]|]; eexists; by simplify_eq/=. }
    split; [|split; [|done]].
    + intros a' v Hv. destruct (Hsel a' _ v (header_all a') Hv) as (dec & _ & ?). done.
    + intros ? [= ->]. eauto.
  - rewrite (orb_true_r (bool_decide (sel = None))) in H. 
    destruct (one_header headers "x-amz-sdk-checksum-algorithm") as [sdk|]; [|done].
    assert (∃ t, declared = None ∧ cv = (λ p, mkChecksum p.1 (checksum_new p.1) (Some p.2) t) <$> sel)
      as (t & -> & ->).
    { destruct sel as [[a dec]|]; cbn in H; destruct sdk; [destruct (eq_ignore_ascii_case _ _); [|done]|..];
        exists false; by simplify_eq/=. }
    split; [|done]. intros a v Hv. destruct (Hsel a _ v (header_all a) Hv) as (dec & Hd & ->). eauto.
Qed.

(** The state [from_headers] starts in, by payload mode. *)
Definition starts (headers : HeaderMap) (ph : list byte) (sg : option StreamingSigning) (tls : bool)
    (declared : option (list byte)) (st : PayloadState) : Prop :=
  ph = bs "UNSIGNED-PAYLOAD" ∧ tls = true ∧ st = Fixed None None ∨
  length ph = 64%nat ∧ (∃ h, hex_decode ph = Some h ∧ st = Fixed (Some (h_new _)) (Some h)) ∨
  ∃ m s len, 0 <= len ∧ st = Chunked (decoder_new m len (if bool_decide (m = Signed) then None else declared) s) ∧
    parse_decoded_length (match one_header headers "x-amz-decoded-content-length" with Ok v => v | Err _ => None end)
      = Ok len ∧
    match m with
    | Signed => ph = bs "STREAMING-AWS4-HMAC-SHA256-PAYLOAD" ∧ sg = Some s ∧ declared = None
    | SignedTrailer =>
        ph = bs "STREAMING-AWS4-HMAC-SHA256-PAYLOAD-TRAILER" ∧ sg = Some s ∧ is_Some declared
    | UnsignedTrailer => ph = bs "STREAMING-UNSIGNED-PAYLOAD-TRAILER" ∧ tls = true ∧ is_Some declared
    end.

Lemma parse_decoded_length_nonneg v len : parse_decoded_length v = Ok len → 0 <= len.
Proof.
  unfold parse_decoded_length, mbind, result_bind, ok_or. destruct v as [v|]; [|done].
  destruct (from_str_radix 10 v) eqn:E; [|done]. intros; simplify_eq. by eapply from_str_radix_nonneg in E.
Qed.

Lemma from_headers_inv headers ph sg tls b :
  from_headers headers ph sg tls = Ok b →
  ∃ td declared, checksum_from_headers headers td = Ok (checksum b, declared) ∧
    decoded_bytes b = 0 ∧ starts headers ph sg tls declared (b_state b).
Proof.
  unfold from_headers. unfold mbind, result_bind.
  destruct (one_header headers "content-encoding") as [ce|]; [|done].
  destruct (one_header headers "x-amz-decoded-content-length") as [dl|] eqn:Hdl; [|done].
  destruct (one_header headers "x-amz-trailer") as [td|]; [|done].
  destruct (checksum_from_headers headers td) as [[cv declared]|] eqn:Hc; [|done].
  destruct (payload_state _ _ _ _ _ _ _) as [st|] eqn:Hp; [|done]. intros; simplify_eq.
  exists td, declared. do 2 (split; [done|]). unfold starts. cbn [b_state]. rewrite Hdl.
  apply checksum_from_headers_inv in Hc as (_ & _ & Htd).
  unfold payload_state, mbind, result_bind, ensure, ok_or in Hp.
  case_bool_decide; [destruct tls; repeat case_match; simplify_eq/=; eauto|].
  case_bool_decide.
  { right; right. destruct (require_aws_chunked ce); [|done]. destruct td; [done|]. cbn in Hp.
    destruct sg as [s|]; [|done]. destruct (parse_decoded_length dl) as [len|] eqn:E; [|done]. simplify_eq.
    exists Signed, s, len. split; [by eapply parse_decoded_length_nonneg|]. by rewrite (Htd eq_refl). }
  case_bool_decide.
  { right; right. destruct (require_aws_chunked ce); [|done]. destruct sg as [s|]; [|done].
    destruct declared as [n|]; [|done]. destruct (parse_decoded_length dl) as [len|] eqn:E; [|done]. simplify_eq.
    exists SignedTrailer, s, len. split; [by eapply parse_decoded_length_nonneg|]. eauto 8. }
  case_bool_decide.
  { right; right. destruct tls; [|done]. destruct (require_aws_chunked ce); [|done].
    destruct declared as [n|]; [|done]. destruct (parse_decoded_length dl) as [len|] eqn:E; [|done]. simplify_eq.
    exists UnsignedTrailer, (default empty_signing sg), len.
    split; [by eapply parse_decoded_length_nonneg|]. eauto 8. }
  destruct (length ph =? 64)%nat eqn:Hlen; [|done]. apply Nat.eqb_eq in Hlen.
  destruct (negb _); [|done]. unfold parse_sha256 in Hp.
  right; left. split; [done|]. destruct (hex_decode ph) as [h|]; repeat case_match; simplify_eq. eauto.
Qed.

Lemma starts_wf headers ph sg tls declared b :
  starts headers ph sg tls declared (b_state b) → body_wf b.
Proof.
  unfold body_wf. intros [(_ & _ & ->)|[(_ & h & _ & ->)|(m & s & len & _ & -> & _)]]; done.
Qed.

Lemma verify_body_outcome headers ph sg tls pieces :
  verify_body headers ph sg tls pieces =
  b ← from_headers headers ph sg tls;
  p ← outcome (push_all pieces b);
  n ← body_finish p.2;
  Ok (concat p.1, n).
Proof.
  unfold verify_body. unfold mbind, result_bind. destruct (from_headers headers ph sg tls) as [b|]; [|done].
  by destruct (push_all pieces b) as [[outs|] b'].
Qed.

Lemma cv_finish_inv v : cv_finish v = Ok tt → cv_expected v = Some (checksum_finalize (cv_state v)).
Proof.
  unfold cv_finish, mbind, result_bind, ok_or. destruct (cv_expected v) as [e|]; [|done].
  rewrite constant_time_eq_decides. destruct (_ && _); [done|].
  destruct (decide (checksum_finalize (cv_state v) = e)) as [<-|Hne]; [done|].
  by rewrite bool_decide_eq_false_2 by done.
Qed.

Lemma decode_checksum_inv a v decoded : decode_checksum a v = Ok decoded → base64_decode v = Some decoded.
Proof. unfold decode_checksum. destruct (base64_decode v); [|done]. destruct (negb _); [done|]. intros; by simplify_eq. Qed.

(** What a finished verifier has checked, given the bytes [o] it decoded. *)

Lemma body_finish_inv b n :
  body_finish b = Ok n →
  n = decoded_bytes b ∧
  match b_state b with
  | Fixed (Some h) (Some e) => h_finalize _ h = e
  | Chunked d => decoder_finish d = Ok tt
  | _ => True
  end ∧
  match b_state b with
  | Chunked d =>
      match checksum_trailer d with
      | Some (name, value) =>
          ∃ v, checksum b = Some v ∧ cv_expected v = None ∧
            eq_ignore_ascii_case name (bs (header (cv_algorithm v))) = true ∧
            base64_decode value = Some (checksum_finalize (cv_state v))
      | None => ∀ v, checksum b = Some v → cv_expected v = Some (checksum_finalize (cv_state v))
      end
  | _ => ∀ v, checksum b = Some v → cv_expected v = Some (checksum_finalize (cv_state v))
  end.
Proof.
  unfold body_finish, apply_chunked_trailer, take_checksum_trailer, mbind, result_bind, ensure.
  intros H. assert (Hcv : ∀ (cv : option ChecksumVerifier) v,
    match cv with Some v => cv_finish v | None => Ok tt end = Ok tt → cv = Some v →
    cv_expected v = Some (checksum_finalize (cv_state v))).
  { intros [?|] v Hv ?; simplify_eq. by apply cv_finish_inv. }
  destruct (b_state b) as [h e|d|] eqn:Hst.
  - rewrite ?Hst in H. destruct h as [h|], e as [e|];
      try (destruct (constant_time_eq _ e) eqn:Hct; [|done]; rewrite constant_time_eq_decides in Hct;
           apply bool_decide_eq_true in Hct);
      (destruct (match checksum b with Some _ => _ | None => _ end) as [[]|] eqn:Hf; [|done]);
      simplify_eq; eauto.
  - destruct (checksum_trailer d) as [[name value]|] eqn:Hct.
    + destruct (checksum b) as [v|] eqn:Hc; [|done]. unfold set_trailer in H.
      destruct (eq_ignore_ascii_case _ _) eqn:Heq; [|done]. case_bool_decide as Hex; [|done]. cbn in H.
      destruct (decode_checksum _ value) as [dec|] eqn:Hd; [|done]. rewrite ?Hst in H. cbn in H.
      destruct (decoder_finish d) as [[]|]; [|done].
      destruct (cv_finish _) as [[]|] eqn:Hf; [|done]. simplify_eq. do 2 (split; [done|]).
      exists v. do 3 (split; [done|]). apply cv_finish_inv in Hf. cbn in Hf. simplify_eq.
      by apply decode_checksum_inv in Hd.
    + rewrite ?Hst in H. destruct (decoder_finish d) as [[]|]; [|done].
      destruct (match checksum b with Some _ => _ | None => _ end) as [[]|] eqn:Hf; [|done]. simplify_eq. eauto.
  - by rewrite ?Hst in H.
Qed.

(** What the caller may rely on once a body was accepted, by payload mode:
    [input] is the body as it was received, [out] what was handed on. *)
Definition accepted (headers : HeaderMap) (ph : list byte) (sg : option StreamingSigning) (tls : bool)
    (input out : list byte) : Prop :=
  ph = bs "UNSIGNED-PAYLOAD" ∧ tls = true ∧ out = input ∨
  length ph = 64%nat ∧ hex_decode ph = Some (digest c_sha256 input) ∧ out = input ∨
  ∃ m s declared ct,
    stream_ok m s declared input out ct ∧
    parse_decoded_length (match one_header headers "x-amz-decoded-content-length" with Ok v => v | Err _ => None end)
      = Ok (Z.of_nat (length out)) ∧
    (∀ name value, ct = Some (name, value) →
       ∃ a, from_header name = Some a ∧ base64_decode value = Some (checksum_of a out)) ∧
    match m with
    | Signed => ph = bs "STREAMING-AWS4-HMAC-SHA256-PAYLOAD" ∧ sg = Some s
    | SignedTrailer => ph = bs "STREAMING-AWS4-HMAC-SHA256-PAYLOAD-TRAILER" ∧ sg = Some s
    | UnsignedTrailer => ph = bs "STREAMING-UNSIGNED-PAYLOAD-TRAILER" ∧ tls = true
    end.

(** The checksum of what was decoded, once the trailer was applied. *)
Lemma checksum_verified headers td cv declared o name value v :
  checksum_from_headers headers td = Ok (cv, declared) →
  declared = Some name → (λ c, cv_update c o) <$> cv = Some v →
  base64_decode value = Some (checksum_finalize (cv_state v)) →
  ∃ a, from_header name = Some a ∧ base64_decode value = Some (checksum_of a o).
Proof.
  intros (_ & Hd & _)%checksum_from_headers_inv Hn Hv Hb. destruct (Hd _ Hn) as (a & t & Ha & ->).
  cbn in Hv. simplify_eq. by exists a.
Qed.

Lemma header_checked headers td cv declared o :
  checksum_from_headers headers td = Ok (cv, declared) →
  (∀ v, (λ c, cv_update c o) <$> cv = Some v → cv_expected v ≠ None →
     cv_expected v = Some (checksum_finalize (cv_state v))) →
  ∀ a v, one_header headers (header a) = Ok (Some v) → base64_decode v = Some (checksum_of a o).
Proof.
  intros (Hhdr & _ & _)%checksum_from_headers_inv Hsum a v Hv.
  destruct (Hhdr a v Hv) as (dec & t & Hdec & Hcv). rewrite Hcv in Hsum.
  specialize (Hsum _ eq_refl ltac:(done)). apply decode_checksum_inv in Hdec.
  cbn in Hsum. unfold checksum_of. congruence.
Qed.

(** C31: A body that the verifier accepts is what it was declared to be.  The
    number of bytes is that of the decoded body; every checksum header and
    every checksum trailer is the checksum of the decoded body; a fixed body
    has the SHA-256 the request was signed with; a streamed body is, byte for
    byte, a sequence of frames whose signatures chain from the seed signature
    of the request to its final frame (and to its trailer), of exactly the
    declared length; the unsigned modes need a trusted transport. *)
Theorem verify_body_sound headers ph sg tls pieces out n :
  verify_body headers ph sg tls pieces = Ok (out, n) →
  n = Z.of_nat (length out) ∧
  (∀ a v, one_header headers (header a) = Ok (Some v) → base64_decode v = Some (checksum_of a out)) ∧
  accepted headers ph sg tls (concat pieces) out.
Proof.
  rewrite verify_body_outcome. unfold mbind at 1, result_bind at 1.
  destruct (from_headers headers ph sg tls) as [b|] eqn:Hfh; [|done].
  apply from_headers_inv in Hfh as (td & declared & Hck & Hz & Hst).
  destruct (push_all pieces b) as [[outs|e] b1] eqn:Hpush; cbn; [|done].
  pose proof (push_all_absorb pieces b (starts_wf _ _ _ _ _ _ Hst)) as Ha.
  rewrite Hpush in Ha. specialize (Ha (or_introl eq_refl)). cbn in Ha. symmetry in Ha.
  destruct (body_finish b1) as [n'|] eqn:Hfin; cbn; [|done]. intros; simplify_eq.
  apply body_finish_inv in Hfin as (-> & Hstate & Hsum).
  unfold outcome, absorb, accounted in Ha. unfold accepted.
  destruct Hst as [(-> & -> & Hs)|[(Hl & h & Hh & Hs)|(m & s & len & Hlen & Hs & Hdl & Hm)]];
    rewrite Hs in Ha; cbn in Ha.
  - injection Ha as Ho <-. cbn in *. rewrite Hz, <- Ho. split; [lia|]. split; [|auto].
    eapply header_checked; eauto.
  - injection Ha as Ho <-. cbn in *. rewrite Hz, <- Ho. split; [lia|]. split; [eapply header_checked; eauto|].
    right; left. split; [done|]. split; [|done]. by rewrite Hh, <- Hstate.
  - destruct (feed (concat pieces) _) as [[o|e] d] eqn:Hf; [|done]. injection Ha as Ho <-. cbn in *.
    rewrite Hz, <- Ho. split; [lia|]. apply decoder_sound in Hf as [Hok Ho']; [|done|done].
    split.
    { eapply header_checked; [done|]. intros v Hv Hex. destruct (checksum_trailer d) as [[name value]|]; [|auto].
      destruct Hsum as (v' & Hv' & Hnone & _). congruence. }
    right; right. exists m, s, (if bool_decide (m = Signed) then None else declared), (checksum_trailer d).
    split; [done|]. split; [by rewrite Hdl, Ho'|]. split; [|destruct m; naive_solver].
    intros name value Hct. rewrite Hct in Hsum. destruct Hsum as (v & Hv & _ & _ & Hb).
    destruct Hok as (fs & mid & h & last & tail & _ & _ & _ & _ & Htail). rewrite Hct in Htail.
    eapply (checksum_verified headers td (checksum b) declared o name value v); [exact Hck| |exact Hv|exact Hb].
    destruct m; cbn in Htail; [by destruct Htail|..]; naive_solver.
Qed.

(** C32: How the network cuts a body into pieces does not matter: for every
    request, the pieces pushed one after the other are accepted or refused,
    with the same decoded bytes, count and error, as the whole body at once. *)
Theorem verify_body_fragmentation headers ph sg tls pieces :
  Z.of_nat (length (concat pieces)) <= u64_max →
  verify_body headers ph sg tls pieces = verify_body headers ph sg tls [concat pieces].
Proof.
  intros Hlen. rewrite !verify_body_outcome. unfold mbind at 1 4, result_bind at 1 4.
  destruct (from_headers headers ph sg tls) as [b|] eqn:Hfh; [|done].
  apply from_headers_inv in Hfh as (td & declared & _ & Hz & Hst). apply starts_wf in Hst.
  assert (Hfin : ∀ x : result IntegrityError (list (list byte) * BodyVerifier),
    (p ← x; n ← body_finish p.2; Ok (concat p.1, n)) =
    (q ← (p ← x; Ok (concat p.1, p.2)); n ← body_finish q.2; Ok (q.1, n))) by by intros [].
  rewrite !Hfin, !push_all_absorb by (done || right; cbn; rewrite ?app_nil_r; lia).
  cbn. by rewrite app_nil_r.
Qed.

(** The buffered loop of [push] is the byte-by-byte decoder: on every
    input, from every state that no error has stopped, it ends (its fuel is
    enough), in the same state, with the same error or the same bytes. *)
Theorem push_byte_by_byte i d : wf d → joined [] (push i d) = feed i d.
Proof. apply push_is_feed. Qed.

(** [constant_time_eq] is equality, and signatures are compared as the
    bytes their hexadecimal text spells. *)
Theorem signature_comparison l r a g :
  constant_time_eq l r = bool_decide (l = r) ∧
  (constant_time_hex_eq a g = true ↔ ∃ x, hex_decode a = Some x ∧ hex_decode g = Some x).
Proof.
  split; [apply constant_time_eq_decides|]. rewrite constant_time_hex_eq_same. unfold same_hex.
  split; [intros [[x Hx] ->]; eauto|intros (x & -> & ->); eauto].
Qed.
End integrity.

(** ** A concrete instance *)

(** A digest over the whole message, kept as the message. *)
Definition whole {A} (f : list byte → A) : Hash A := mkHash A (list byte) [] app f.

#[global] Instance whole_laws {A} (f : list byte → A) : HashLaws (whole f).
Proof. split; intros; cbn; [apply app_nil_r|symmetry; apply app_assoc]. Qed.

Definition poly (n : nat) (l : list byte) : Z :=
  foldl (λ acc b, (acc * 257 + b2z b + 1) mod 256 ^ Z.of_nat n) 0 l.

Definition hex_digit (v : Z) : byte :=
  default x00 (Byte.of_N (Z.to_N (if v <? 10 then v + 48 else v + 87))).
Definition plain_hex (l : list byte) : list byte :=
  concat ((λ b, [hex_digit (b2z b / 16); hex_digit (b2z b mod 16)]) <$> l).
Fixpoint plain_unhex (l : list byte) : option (list byte) :=
  match l with
  | [] => Some []
  | [_] => None
  | a :: b :: l =>
      x ← to_digit_radix 16 a; y ← to_digit_radix 16 b; r ← plain_unhex l;
      Some (default x00 (Byte.of_N (Z.to_N (x * 16 + y))) :: r)
  end.

#[local] Instance plain_crypto : Crypto := {|
  c_sha256 := whole (λ l, to_be_bytes 32 (poly 32 l));
  c_sha1 := whole (λ l, to_be_bytes 20 (poly 20 l));
  c_crc32 := whole (poly 4);
  c_crc32c := whole (poly 4);
  c_crc64nvme := whole (poly 8);
  hmac_sha256 := λ k m, to_be_bytes 32 (poly 32 (k ++ m));
  hex_encode := plain_hex;
  hex_decode := plain_unhex;
  base64_decode := plain_unhex;
|}.

#[local] Instance plain_laws : CryptoLaws.
Proof. split; apply _. Qed.

(** A signed upload of the bytes [hello], with its trailer. *)
Definition sample_signing : StreamingSigning :=
  mkSigning [x01; x02] (bs "20260101T000000Z") (bs "scope") (plain_hex (replicate 32 x07)).
Definition sample_data : list byte := bs "hello".
Definition sample_sig1 : list byte :=
  hmac_hex [x01; x02] (chunk_string_to_sign sample_signing (seed_signature sample_signing)
    (hex_encode (digest c_sha256 sample_data))).
Definition sample_sig2 : list byte :=
  hmac_hex [x01; x02] (chunk_string_to_sign sample_signing sample_sig1 (hex_encode (digest c_sha256 []))).
Definition sample_trailer : list byte := bs "x-amz-checksum-crc32".
Definition sample_value : list byte := plain_hex (checksum_of Crc32 sample_data).
Definition sample_sig3 : list byte :=
  hmac_hex [x01; x02] (trailer_string_to_sign sample_signing sample_sig2 sample_trailer sample_value).
Definition sample_stream : list byte :=
  bs "5;chunk-signature=" ++ sample_sig1 ++ CRLF ++ sample_data ++ CRLF ++
  bs "0;chunk-signature=" ++ sample_sig2 ++ CRLF ++
  sample_trailer ++ x3a :: sample_value ++ CRLF ++
  bs "x-amz-trailer-signature:" ++ sample_sig3 ++ CRLF ++ CRLF.
Definition sample_headers : HeaderMap := λ name,
  if bool_decide (name = "content-encoding"%string) then [Some (bs "aws-chunked")]
  else if bool_decide (name = "x-amz-decoded-content-length"%string) then [Some (bs "5")]
  else if bool_decide (name = "x-amz-trailer"%string) then [Some sample_trailer]
  else [].
Definition sample_hash : list byte := bs "STREAMING-AWS4-HMAC-SHA256-PAYLOAD-TRAILER".

Lemma sample_accepted :
  verify_body sample_headers sample_hash (Some sample_signing) false
    [take 100 sample_stream; drop 100 sample_stream] = Ok (sample_data, 5).
Proof. vm_compute. reflexivity. Qed.

(** A tampered stream is refused. *)
Lemma sample_refused :
  verify_body sample_headers sample_hash (Some sample_signing) false
    [<[85%nat := x61]> sample_stream] = Err SignatureMismatch.
Proof. vm_compute. reflexivity. Qed.

Lemma verify_body_sound_witness :
  accepted sample_headers sample_hash (Some sample_signing) false
    (concat [take 100 sample_stream; drop 100 sample_stream]) sample_data.
Proof.
  exact (proj2 (proj2 (verify_body_sound sample_headers sample_hash (Some sample_signing) false
    [take 100 sample_stream; drop 100 sample_stream] sample_data 5 sample_accepted))).
Defined.

Lemma verify_body_fragmentation_witness :
  verify_body sample_headers sample_hash (Some sample_signing) false
    ((λ b, [b]) <$> sample_stream) =
  verify_body sample_headers sample_hash (Some sample_signing) false
    [concat ((λ b, [b]) <$> sample_stream)].
Proof. apply verify_body_fragmentation. vm_compute. discriminate. Defined.

Lemma push_byte_by_byte_witness :
  joined [] (push sample_stream (decoder_new SignedTrailer 5 (Some sample_trailer) sample_signing)) =
  feed sample_stream (decoder_new SignedTrailer 5 (Some sample_trailer) sample_signing).
Proof. apply push_byte_by_byte. exact I. Defined.
