(* ===== verification/Format.v ===== *)
(** * Object formats: [crates/gateway/src/format.rs]

    The table of formats and the resolution of an object's format from the
    signals a request carries: an override, the content type, the extension
    of the key and the magic bytes.  The theorems show that the table is
    unambiguous and that a format is resolved only when every signal that
    names one names the same one, its magic is there and its gate is open. *)

From S2P Require Import Prelude RustStr.

#[local] Open Scope Z_scope.
Set Default Goal Selector "!".

Inductive Format : Type := Jsonl | Json | Csv | Tsv | Text.
#[global] Instance Format_eq_dec : EqDecision Format.
Proof. solve_decision. Defined.

Definition format_as_str (f : Format) : list byte :=
  match f with
  | Jsonl => bs "jsonl" | Json => bs "json" | Csv => bs "csv" | Tsv => bs "tsv" | Text => bs "text"
  end.

Definition format_parse (s : list byte) : option Format :=
  if bool_decide (s = bs "jsonl") then Some Jsonl
  else if bool_decide (s = bs "json") then Some Json
  else if bool_decide (s = bs "csv") then Some Csv
  else if bool_decide (s = bs "tsv") then Some Tsv
  else if bool_decide (s = bs "text") then Some Text
  else None.

Inductive CodecKind : Type := CodecText | SequentialBinary | SeekableBinary.
#[global] Instance CodecKind_eq_dec : EqDecision CodecKind.
Proof. solve_decision. Defined.

Inductive ProcessedReadSafety : Type := PrefixSafe | CompleteOutputRequired.
#[global] Instance ProcessedReadSafety_eq_dec : EqDecision ProcessedReadSafety.
Proof. solve_decision. Defined.

Record MagicRequirements := mkMagic {
  magic_prefix : option (list byte);
  required_footer : option (list byte);
}.
#[global] Instance MagicRequirements_eq_dec : EqDecision MagicRequirements.
Proof. solve_decision. Defined.
Definition MAGIC_NONE : MagicRequirements := mkMagic None None.

Record FeatureGate := mkGate { gate_name : list byte; gate_enabled_by_default : bool }.
#[global] Instance FeatureGate_eq_dec : EqDecision FeatureGate.
Proof. solve_decision. Defined.

Record FormatSpec := mkSpec {
  spec_name : list byte;
  codec_kind : CodecKind;
  canonical_media_type : list byte;
  media_type_aliases : list (list byte);
  extensions : list (list byte);
  magic : MagicRequirements;
  processed_read_safety : ProcessedReadSafety;
  feature_gate : option FeatureGate;
  record_format : option Format;
}.
#[global] Instance FormatSpec_eq_dec : EqDecision FormatSpec.
Proof. solve_decision. Defined.

(** [Option::is_none_or] and [Option::is_some_and]. *)
Definition is_none_or {A} (o : option A) (p : A → bool) : bool :=
  match o with Some a => p a | None => true end.
Definition is_some_and {A} (o : option A) (p : A → bool) : bool :=
  match o with Some a => p a | None => false end.

(** [iter().find(p)] and [iter().any(p)]. *)
Fixpoint iter_find {A} (p : A → bool) (l : list A) : option A :=
  match l with
  | [] => None
  | x :: l => if p x then Some x else iter_find p l
  end.

Record EnabledBinaryFormats := mkEnabled { enabled_avro : bool; enabled_parquet : bool }.
Definition ENABLED_NONE : EnabledBinaryFormats := mkEnabled false false.
Definition ENABLED_ALL : EnabledBinaryFormats := mkEnabled true true.

Definition is_enabled (e : EnabledBinaryFormats) (spec : FormatSpec) : bool :=
  is_none_or (feature_gate spec) (λ gate,
    gate_enabled_by_default gate ||
    (if bool_decide (gate_name gate = bs "avro") then enabled_avro e
     else if bool_decide (gate_name gate = bs "parquet") then enabled_parquet e
     else false)).

Definition spec_enabled_by_default (spec : FormatSpec) : bool :=
  is_none_or (feature_gate spec) gate_enabled_by_default.

Record FormatResolutionPolicy := mkPolicy {
  require_content_type : bool;
  allow_extension_fallback : bool;
  require_binary_magic : bool;
}.
Definition INFERENCE : FormatResolutionPolicy := mkPolicy false true true.
Definition STRICT_CONTENT_TYPE : FormatResolutionPolicy := mkPolicy true false true.

(** ** The table *)

Definition JSONL_SPEC : FormatSpec :=
  mkSpec (bs "jsonl") CodecText (bs "application/x-ndjson") [bs "application/jsonlines"]
    [bs "jsonl"; bs "ndjson"] MAGIC_NONE PrefixSafe None (Some Jsonl).
Definition JSON_SPEC : FormatSpec :=
  mkSpec (bs "json") CodecText (bs "application/json") [] [bs "json"] MAGIC_NONE PrefixSafe None (Some Json).
Definition CSV_SPEC : FormatSpec :=
  mkSpec (bs "csv") CodecText (bs "text/csv") [] [bs "csv"] MAGIC_NONE PrefixSafe None (Some Csv).
Definition TSV_SPEC : FormatSpec :=
  mkSpec (bs "tsv") CodecText (bs "text/tab-separated-values") [] [bs "tsv"] MAGIC_NONE PrefixSafe None
    (Some Tsv).
Definition TEXT_SPEC : FormatSpec :=
  mkSpec (bs "text") CodecText (bs "text/plain") [] [bs "txt"; bs "text"] MAGIC_NONE PrefixSafe None
    (Some Text).
Definition AVRO_SPEC : FormatSpec :=
  mkSpec (bs "avro") SequentialBinary (bs "application/avro")
    [bs "application/x-avro"; bs "application/vnd.apache.avro+binary"] [bs "avro"]
    (mkMagic (Some (bs "Obj" ++ [x01])) None) CompleteOutputRequired (Some (mkGate (bs "avro") false)) None.
Definition PARQUET_SPEC : FormatSpec :=
  mkSpec (bs "parquet") SeekableBinary (bs "application/vnd.apache.parquet")
    [bs "application/x-parquet"] [bs "parquet"]
    (mkMagic (Some (bs "PAR1")) (Some (bs "PAR1"))) CompleteOutputRequired
    (Some (mkGate (bs "parquet") false)) None.

Definition FORMAT_SPECS : list FormatSpec :=
  [JSONL_SPEC; JSON_SPEC; CSV_SPEC; TSV_SPEC; TEXT_SPEC; AVRO_SPEC; PARQUET_SPEC].

(** ** Lookups *)

(** [split(c).next()]: what precedes the first [c]. *)
Definition before (c : byte) (l : list byte) : list byte :=
  match split_once c l with Some (a, _) => a | None => l end.

(** [rsplit(c).next()] and [rsplit_once(c)]. *)
Definition rsplit_once (c : byte) (l : list byte) : option (list byte * list byte) :=
  match split_once c (reverse l) with
  | Some (b, a) => Some (reverse a, reverse b)
  | None => None
  end.
Definition after_last (c : byte) (l : list byte) : list byte :=
  match rsplit_once c l with Some (_, b) => b | None => l end.

Definition lowercase (l : list byte) : list byte := to_ascii_lowercase <$> l.

Definition normalize_media_type (content_type : list byte) : list byte :=
  lowercase (trim (before x3b content_type)).

Definition is_generic_media_type (media_type : list byte) : bool :=
  bool_decide (media_type = []) || bool_decide (media_type = bs "application/octet-stream")
  || bool_decide (media_type = bs "binary/octet-stream").

Definition object_extension (object_key : list byte) : option (list byte) :=
  let filename := after_last x2f object_key in
  p ← rsplit_once x2e filename;
  if bool_decide (p.2 = []) then None else Some p.2.

Definition for_name (name : list byte) : option FormatSpec :=
  let name := trim name in
  iter_find (λ spec, eq_ignore_ascii_case (spec_name spec) name) FORMAT_SPECS.

Definition names_media_type (media_type : list byte) (spec : FormatSpec) : bool :=
  bool_decide (canonical_media_type spec = media_type)
  || existsb (λ alias, bool_decide (alias = media_type)) (media_type_aliases spec).

Definition for_media_type (content_type : list byte) : option FormatSpec :=
  let media_type := normalize_media_type content_type in
  iter_find (names_media_type media_type) FORMAT_SPECS.

Definition names_extension (extension : list byte) (spec : FormatSpec) : bool :=
  existsb (λ candidate, bool_decide (candidate = extension)) (extensions spec).

Definition for_extension (extension : list byte) : option FormatSpec :=
  let extension := lowercase (default extension (strip_prefix [x2e] extension)) in
  iter_find (names_extension extension) FORMAT_SPECS.

(** The [expect] never fails: see [record_format_spec]. *)
Definition for_record_format (format : Format) : FormatSpec :=
  default TEXT_SPEC (iter_find (λ spec, bool_decide (record_format spec = Some format)) FORMAT_SPECS).

Definition spec_for_magic (prefix : list byte) : option FormatSpec :=
  iter_find (λ spec, is_some_and (magic_prefix (magic spec)) (λ m, starts_with m prefix)) FORMAT_SPECS.

Definition spec_for_partial_magic (prefix : list byte) : option FormatSpec :=
  if bool_decide (prefix = []) then None
  else
    match filter (λ spec, is_some_and (magic_prefix (magic spec)) (λ m, starts_with prefix m) = true)
            FORMAT_SPECS with
    | [spec] => Some spec
    | _ => None
    end.

(** ** Resolution *)

Inductive FormatSignal : Type := SigOverride | SigContentType | SigExtension | SigMagic.
#[global] Instance FormatSignal_eq_dec : EqDecision FormatSignal.
Proof. solve_decision. Defined.

Record ResolvedFormat := mkResolved { resolved_spec : FormatSpec; source : FormatSignal }.
#[global] Instance ResolvedFormat_eq_dec : EqDecision ResolvedFormat.
Proof. solve_decision. Defined.

Inductive FormatResolveError : Type :=
| UnknownOverride (name : list byte)
| MissingContentType
| UnsupportedContentType (media_type : list byte)
| UnknownFormat
| Conflict (first_signal : FormatSignal) (first_format : list byte)
    (second_signal : FormatSignal) (second_format : list byte)
| Disabled (format : list byte) (gate : list byte)
| PendingMagic (format : list byte) (required : nat)
| InsufficientMagic (format : list byte) (required actual : nat)
| MagicMismatch (format : list byte)
| MissingFooterMagic (format : list byte)
| InsufficientFooterMagic (format : list byte) (required actual : nat)
| FooterMagicMismatch (format : list byte).
#[global] Instance FormatResolveError_eq_dec : EqDecision FormatResolveError.
Proof. solve_decision. Defined.

Definition merge_signal (resolved : option ResolvedFormat) (spec : FormatSpec) (signal : FormatSignal)
    : result FormatResolveError (option ResolvedFormat) :=
  match resolved with
  | Some current =>
      if negb (bool_decide (spec_name (resolved_spec current) = spec_name spec)) then
        Err (Conflict (source current) (spec_name (resolved_spec current)) signal (spec_name spec))
      else Ok resolved
  | None => Ok (Some (mkResolved spec signal))
  end.

Definition validate_required_magic (spec : FormatSpec) (prefix : option (list byte))
    (required_by_policy : bool) : result FormatResolveError unit :=
  if negb required_by_policy || bool_decide (codec_kind spec = CodecText) then Ok tt
  else match magic_prefix (magic spec) with
  | None => Ok tt
  | Some required =>
      match prefix with
      | None => Err (PendingMagic (spec_name spec) (length required))
      | Some prefix =>
          if (length prefix <? length required)%nat
          then Err (InsufficientMagic (spec_name spec) (length required) (length prefix))
          else if negb (starts_with required prefix) then Err (MagicMismatch (spec_name spec))
          else Ok tt
      end
  end.

(** The signals in the order the code merges them. *)
Definition merge_override (resolved : option ResolvedFormat) (format_override : option (list byte))
    : result FormatResolveError (option ResolvedFormat) :=
  match format_override with
  | None => Ok resolved
  | Some name =>
      spec ← ok_or (for_name name) (UnknownOverride (trim name));
      merge_signal resolved spec SigOverride
  end.

Definition merge_content_type (resolved : option ResolvedFormat) (media_type : option (list byte))
    : result FormatResolveError (option ResolvedFormat) :=
  match media_type with
  | None => Ok resolved
  | Some mt =>
      if negb (bool_decide (mt = [])) && negb (is_generic_media_type mt) then
        match for_media_type mt with
        | Some spec => merge_signal resolved spec SigContentType
        | None => if bool_decide (resolved = None) then Err (UnsupportedContentType mt) else Ok resolved
        end
      else Ok resolved
  end.

Definition merge_extension (resolved : option ResolvedFormat) (consult : bool)
    (object_key : option (list byte)) : result FormatResolveError (option ResolvedFormat) :=
  match (if consult then key ← object_key; extension ← object_extension key; for_extension extension
         else None) with
  | Some spec => merge_signal resolved spec SigExtension
  | None => Ok resolved
  end.

Definition merge_magic (resolved : option ResolvedFormat) (prefix : option (list byte))
    : result FormatResolveError (option ResolvedFormat) :=
  match prefix ≫= spec_for_magic with
  | Some spec => merge_signal resolved spec SigMagic
  | None =>
      match (if bool_decide (resolved = None) then prefix ≫= spec_for_partial_magic else None) with
      | Some spec => merge_signal resolved spec SigMagic
      | None => Ok resolved
      end
  end.

Definition resolve_format_with_policy (format_override content_type object_key prefix : option (list byte))
    (policy : FormatResolutionPolicy) (enabled : EnabledBinaryFormats) : result FormatResolveError ResolvedFormat :=
  resolved ← merge_override None format_override;
  let media_type := normalize_media_type <$> content_type in
  _ ← ensure (negb (require_content_type policy && is_none_or media_type (λ mt, bool_decide (mt = []))))
             MissingContentType;
  let generic := is_none_or media_type is_generic_media_type in
  resolved ← merge_content_type resolved media_type;
  resolved ← merge_extension resolved (allow_extension_fallback policy && generic) object_key;
  resolved ← merge_magic resolved prefix;
  resolved ← ok_or resolved UnknownFormat;
  _ ← validate_required_magic (resolved_spec resolved) prefix (require_binary_magic policy);
  match feature_gate (resolved_spec resolved) with
  | Some gate =>
      if negb (is_enabled enabled (resolved_spec resolved))
      then Err (Disabled (spec_name (resolved_spec resolved)) (gate_name gate))
      else Ok resolved
  | None => Ok resolved
  end.

Definition resolve_format (format_override content_type object_key prefix : option (list byte))
    : result FormatResolveError ResolvedFormat :=
  resolve_format_with_policy format_override content_type object_key prefix INFERENCE ENABLED_NONE.

Definition validate_footer_magic (spec : FormatSpec) (footer : option (list byte)) : result FormatResolveError unit :=
  match required_footer (magic spec) with
  | None => Ok tt
  | Some required =>
      match footer with
      | None => Err (MissingFooterMagic (spec_name spec))
      | Some footer =>
          if (length footer <? length required)%nat
          then Err (InsufficientFooterMagic (spec_name spec) (length required) (length footer))
          else if negb (bool_decide (drop (length footer - length required) footer = required))
          then Err (FooterMagicMismatch (spec_name spec))
          else Ok tt
      end
  end.

(** ** Facts *)

#[local] Arguments for_name : simpl never.
#[local] Arguments for_media_type : simpl never.
#[local] Arguments for_extension : simpl never.
#[local] Arguments object_extension : simpl never.
#[local] Arguments spec_for_magic : simpl never.
#[local] Arguments spec_for_partial_magic : simpl never.

Lemma iter_find_Some {A} (p : A → bool) l x : iter_find p l = Some x → x ∈ l ∧ p x = true.
Proof.
  induction l as [|y l IH]; cbn; [done|]. destruct (p y) eqn:E.
  - intros; simplify_eq. split; [left|done].
  - intros [? ?]%IH. split; [by right|done].
Qed.

(** The keys by which a spec is found. *)
Definition all_media_types (spec : FormatSpec) : list (list byte) :=
  canonical_media_type spec :: media_type_aliases spec.

Lemma table_names : NoDup (spec_name <$> FORMAT_SPECS).
Proof. apply (bool_decide_unpack _). vm_compute. exact I. Qed.

Lemma spec_name_inj a b : a ∈ FORMAT_SPECS → b ∈ FORMAT_SPECS → spec_name a = spec_name b → a = b.
Proof.
  intros Ha Hb Hn. apply list_elem_of_lookup in Ha as [i Hi]. apply list_elem_of_lookup in Hb as [j Hj].
  assert (i = j) as ->; [|congruence].
  apply (NoDup_lookup _ _ _ (spec_name a) table_names); rewrite list_lookup_fmap.
  - by rewrite Hi.
  - by rewrite Hj, Hn.
Qed.

Lemma merge_signal_inv resolved spec signal r :
  merge_signal resolved spec signal = Ok r →
  ∃ x, r = Some x ∧ (∀ y, resolved = Some y → x = y) ∧ spec_name (resolved_spec x) = spec_name spec ∧
    (resolved = None → x = mkResolved spec signal).
Proof.
  unfold merge_signal. destruct resolved as [y|].
  - case_bool_decide; [|done]. intros; simplify_eq. exists y. naive_solver.
  - intros; simplify_eq. eexists. naive_solver.
Qed.

(** What a merge keeps: an earlier resolution stands, a new one is in the table. *)
Definition keeps (old new : option ResolvedFormat) : Prop :=
  (∀ y, old = Some y → new = Some y) ∧
  ((∀ y, old = Some y → resolved_spec y ∈ FORMAT_SPECS) → ∀ x, new = Some x → resolved_spec x ∈ FORMAT_SPECS).

(** A merged signal names the resolved format. *)
Definition names (spec : FormatSpec) (new : option ResolvedFormat) : Prop :=
  ∃ x, new = Some x ∧ spec_name (resolved_spec x) = spec_name spec.

Lemma keeps_refl r : keeps r r.
Proof. by split. Qed.

Lemma keeps_trans a b c : keeps a b → keeps b c → keeps a c.
Proof. intros [H1 H2] [H3 H4]. split; naive_solver. Qed.

Lemma merge_signal_keeps resolved spec signal r :
  spec ∈ FORMAT_SPECS → merge_signal resolved spec signal = Ok r → keeps resolved r ∧ names spec r.
Proof.
  intros Hin (x & -> & Hold & Hname & Hnew)%merge_signal_inv. split; [split|by exists x].
  - intros y Hy. by rewrite (Hold y Hy).
  - intros Hall x' [= <-]. destruct resolved as [y|]; [rewrite (Hold y eq_refl); eauto|].
    by rewrite (Hnew eq_refl).
Qed.

Lemma names_mono spec a b : names spec a → keeps a b → names spec b.
Proof. intros (x & -> & Hx) [H _]. exists x. eauto. Qed.

Lemma for_name_in n spec : for_name n = Some spec → spec ∈ FORMAT_SPECS.
Proof. by intros [? _]%iter_find_Some. Qed.
Lemma for_media_type_in n spec : for_media_type n = Some spec → spec ∈ FORMAT_SPECS.
Proof. by intros [? _]%iter_find_Some. Qed.
Lemma for_extension_in n spec : for_extension n = Some spec → spec ∈ FORMAT_SPECS.
Proof. by intros [? _]%iter_find_Some. Qed.
Lemma spec_for_magic_in n spec : spec_for_magic n = Some spec → spec ∈ FORMAT_SPECS.
Proof. by intros [? _]%iter_find_Some. Qed.
Lemma spec_for_partial_magic_in n spec : spec_for_partial_magic n = Some spec → spec ∈ FORMAT_SPECS.
Proof.
  unfold spec_for_partial_magic. case_bool_decide; [done|].
  destruct (filter _ FORMAT_SPECS) as [|x [|]] eqn:E; [done| |done]. intros [= <-].
  assert (Hin : x ∈ filter (λ spec, is_some_and (magic_prefix (magic spec)) (λ m, starts_with n m) = true) FORMAT_SPECS)
    by (rewrite E; left).
  by apply list_elem_of_filter in Hin as [_ ?].
Qed.

Create HintDb format.
#[export] Hint Resolve keeps_refl merge_signal_keeps for_name_in for_media_type_in for_extension_in
  spec_for_magic_in spec_for_partial_magic_in : format.

Lemma merge_override_keeps resolved o r :
  merge_override resolved o = Ok r →
  keeps resolved r ∧ ∀ n, o = Some n → ∃ spec, for_name n = Some spec ∧ names spec r.
Proof.
  unfold merge_override, mbind, result_bind, ok_or. destruct o as [n|].
  - destruct (for_name n) as [spec|] eqn:E; [|done]. intros [? ?]%merge_signal_keeps; [|eauto with format].
    split; [done|]. intros ? [= <-]. eauto.
  - intros [= <-]. split; [apply keeps_refl|done].
Qed.

Lemma merge_content_type_keeps resolved mt r :
  merge_content_type resolved mt = Ok r →
  keeps resolved r ∧
  ∀ m, mt = Some m → is_generic_media_type m = false →
    (∀ spec, for_media_type m = Some spec → names spec r) ∧
    (for_media_type m = None → resolved ≠ None).
Proof.
  unfold merge_content_type. destruct mt as [m|]; [|intros [= <-]; split; [apply keeps_refl|done]].
  destruct (negb (bool_decide (m = [])) && negb (is_generic_media_type m)) eqn:E.
  - destruct (for_media_type m) as [spec|] eqn:Em.
    + intros [? ?]%merge_signal_keeps; [|eauto with format]. split; [done|]. intros ? [= <-] _. naive_solver.
    + destruct resolved as [y|]; [|done]. rewrite bool_decide_eq_false_2 by done.
      intros [= <-]. split; [apply keeps_refl|]. intros ? [= <-] _. naive_solver.
  - intros [= <-]. split; [apply keeps_refl|]. intros m' [= <-] Hg. rewrite Hg in E.
    cbn in E. rewrite andb_true_r in E. apply negb_false_iff, bool_decide_eq_true in E. by subst.
Qed.

Lemma merge_extension_keeps resolved c k r :
  merge_extension resolved c k = Ok r →
  keeps resolved r ∧
  ∀ key e spec, c = true → k = Some key → object_extension key = Some e → for_extension e = Some spec →
    names spec r.
Proof.
  unfold merge_extension. intros H. destruct c; [|simplify_eq; split; [apply keeps_refl|done]].
  destruct k as [key|]; [|cbn in H; simplify_eq; split; [apply keeps_refl|done]]. cbn in H.
  destruct (object_extension key) as [e|] eqn:He; cbn in H;
    [|simplify_eq; split; [apply keeps_refl|]; intros key' e' spec' _ [= <-]; congruence].
  destruct (for_extension e) as [spec|] eqn:Hs.
  - apply merge_signal_keeps in H as [? ?]; [|eauto with format]. split; [done|].
    intros key' e' spec' _ [= <-] He' Hs'. congruence.
  - simplify_eq. split; [apply keeps_refl|]. intros key' e' spec' _ [= <-]. congruence.
Qed.

Lemma merge_magic_keeps resolved prefix r :
  merge_magic resolved prefix = Ok r →
  keeps resolved r ∧ ∀ p spec, prefix = Some p → spec_for_magic p = Some spec → names spec r.
Proof.
  unfold merge_magic. destruct prefix as [p|]; cbn.
  - destruct (spec_for_magic p) as [spec|] eqn:Em.
    + intros [? ?]%merge_signal_keeps; [|eauto with format]. split; [done|]. intros; congruence.
    + intros H. split; [|intros; congruence]. case_bool_decide.
      * destruct (spec_for_partial_magic p) as [spec|] eqn:Ep; [|simplify_eq; apply keeps_refl].
        apply merge_signal_keeps in H; [tauto|eauto with format].
      * simplify_eq; apply keeps_refl.
  - intros H. split; [|done]. case_bool_decide; simplify_eq; apply keeps_refl.
Qed.

Lemma validate_required_magic_inv spec prefix pol :
  validate_required_magic spec prefix pol = Ok tt → pol = true → codec_kind spec ≠ CodecText →
  ∀ m, magic_prefix (magic spec) = Some m → ∃ p, prefix = Some p ∧ take (length m) p = m.
Proof.
  unfold validate_required_magic. intros H -> Hk m Hm. rewrite (bool_decide_eq_false_2 _ Hk) in H.
  cbn [negb orb] in H. rewrite Hm in H. destruct prefix as [p|]; [|done]. exists p. split; [done|].
  destruct (_ <? _)%nat; [done|]. unfold starts_with in H. by case_bool_decide.
Qed.

Lemma binary_has_magic spec :
  spec ∈ FORMAT_SPECS → codec_kind spec ≠ CodecText → is_Some (magic_prefix (magic spec)).
Proof.
  unfold FORMAT_SPECS. rewrite !elem_of_cons, elem_of_nil.
  intros [->|[->|[->|[->|[->|[->|[->|[]]]]]]]] H; done || by eexists.
Qed.

(** What the caller may rely on when [r] was resolved. *)
Definition agrees (format_override content_type object_key prefix : option (list byte))
    (policy : FormatResolutionPolicy) (spec : FormatSpec) : Prop :=
  (∀ n, format_override = Some n → for_name n = Some spec) ∧
  (∀ c s, content_type = Some c → is_generic_media_type (normalize_media_type c) = false →
     for_media_type (normalize_media_type c) = Some s → s = spec) ∧
  (∀ c, content_type = Some c → is_generic_media_type (normalize_media_type c) = false →
     format_override = None → for_media_type (normalize_media_type c) = Some spec) ∧
  (∀ key e s, object_key = Some key → allow_extension_fallback policy = true →
     is_none_or (normalize_media_type <$> content_type) is_generic_media_type = true →
     object_extension key = Some e → for_extension e = Some s → s = spec) ∧
  (∀ p s, prefix = Some p → spec_for_magic p = Some s → s = spec).

(** A format is resolved only when nothing speaks against it: it is a
    format of the table; the override, the content type, the extension (where
    it is consulted) and the magic bytes, each where it names a format, name
    this one; a binary format has its magic bytes where the policy requires
    them, and its gate is open; a required content type is there. *)
Theorem resolve_format_agrees format_override content_type object_key prefix policy enabled r :
  resolve_format_with_policy format_override content_type object_key prefix policy enabled = Ok r →
  resolved_spec r ∈ FORMAT_SPECS ∧
  agrees format_override content_type object_key prefix policy (resolved_spec r) ∧
  (require_binary_magic policy = true → codec_kind (resolved_spec r) ≠ CodecText →
     ∃ p m, prefix = Some p ∧ magic_prefix (magic (resolved_spec r)) = Some m ∧ take (length m) p = m) ∧
  is_enabled enabled (resolved_spec r) = true ∧
  (require_content_type policy = true →
     ∃ c, content_type = Some c ∧ normalize_media_type c ≠ []).
Proof.
  unfold resolve_format_with_policy, mbind, result_bind, ensure, ok_or.
  destruct (merge_override None _) as [r1|] eqn:H1; [|done].
  destruct (negb _) eqn:Hct; [|done].
  destruct (merge_content_type r1 _) as [r2|] eqn:H2; [|done].
  destruct (merge_extension r2 _ _) as [r3|] eqn:H3; [|done].
  destruct (merge_magic r3 _) as [[r4|]|] eqn:H4; [|done|done].
  destruct (validate_required_magic _ _ _) as [[]|] eqn:Hm; [|done]. intros Hg.
  assert (H1n : format_override = None → r1 = None) by (intros ->; by injection H1).
  apply merge_override_keeps in H1 as [K1 N1]. apply merge_content_type_keeps in H2 as [K2 N2].
  apply merge_extension_keeps in H3 as [K3 N3]. apply merge_magic_keeps in H4 as [K4 N4].
  assert (r4 = r ∧ is_enabled enabled (resolved_spec r) = true) as [-> Hen].
  { unfold is_enabled, is_none_or in *. destruct (feature_gate (resolved_spec r4)) as [g|] eqn:Hfg.
    - destruct (_ || _) eqn:E in Hg; [|done]. simplify_eq/=. by rewrite Hfg.
    - simplify_eq. by rewrite Hfg. }
  clear Hg. assert (Hin : resolved_spec r ∈ FORMAT_SPECS).
  { apply (proj2 (keeps_trans _ _ _ K1 (keeps_trans _ _ _ K2 (keeps_trans _ _ _ K3 K4)))); done. }
  assert (Hnames : ∀ spec q, spec ∈ FORMAT_SPECS → names spec q → keeps q (Some r) → spec = resolved_spec r).
  { intros spec q Hs Hn Hk. destruct (names_mono _ _ _ Hn Hk) as (x & [= <-] & Hx).
    symmetry. by apply spec_name_inj. }
  assert (K34 := keeps_trans _ _ _ K3 K4). assert (K234 := keeps_trans _ _ _ K2 K34).
  split; [done|]. split; [unfold agrees; split_and!|split_and!].
  - intros n Hn. destruct (N1 n Hn) as (spec & Hspec & Hnm). rewrite Hspec. f_equal.
    eapply Hnames; eauto with format.
  - intros c s -> Hgen Hs. eapply Hnames; [eauto with format|by eapply N2|done].
  - intros c -> Hgen ->. destruct (N2 _ eq_refl Hgen) as [Hs Hnone].
    destruct (for_media_type _) as [s|] eqn:E; [f_equal; eapply Hnames; eauto with format|].
    by destruct (Hnone eq_refl), (H1n eq_refl).
  - intros key e s -> Hfb Hgen He Hs. eapply Hnames; [eauto with format| |exact K4].
    eapply N3; eauto. by rewrite Hfb.
  - intros p s -> Hs. eapply Hnames; eauto with format.
  - intros Hpol Hk. destruct (binary_has_magic _ Hin Hk) as [m Hmm].
    destruct (validate_required_magic_inv _ _ _ Hm Hpol Hk m Hmm) as (p & -> & Hp). eauto.
  - done.
  - intros Hreq. rewrite Hreq in Hct. cbn in Hct. destruct content_type as [c|]; [|done].
    cbn in Hct. exists c. split; [done|]. by case_bool_decide.
Qed.

Lemma resolve_format_agrees_witness :
  resolve_format_with_policy None (Some (bs "Application/AVRO; charset=x")) (Some (bs "a/b.json"))
    (Some (bs "Obj" ++ [x01; x02])) STRICT_CONTENT_TYPE ENABLED_ALL = Ok (mkResolved AVRO_SPEC SigContentType) ∧
  agrees None (Some (bs "Application/AVRO; charset=x")) (Some (bs "a/b.json"))
    (Some (bs "Obj" ++ [x01; x02])) STRICT_CONTENT_TYPE AVRO_SPEC.
Proof.
  split; [by vm_compute|].
  exact (proj1 (proj2 (resolve_format_agrees None (Some (bs "Application/AVRO; charset=x"))
    (Some (bs "a/b.json")) (Some (bs "Obj" ++ [x01; x02])) STRICT_CONTENT_TYPE ENABLED_ALL
    (mkResolved AVRO_SPEC SigContentType) ltac:(by vm_compute)))).
Defined.

(** The table is unambiguous: every name, media type and extension of a
    format finds that format, and the names of the record formats are parsed
    back to them and to nothing else. *)
Theorem format_table_roundtrip :
  (∀ spec, spec ∈ FORMAT_SPECS →
     for_name (spec_name spec) = Some spec ∧
     Forall (λ mt, for_media_type mt = Some spec) (all_media_types spec) ∧
     Forall (λ e, for_extension e = Some spec) (extensions spec)) ∧
  (∀ f s, format_parse s = Some f ↔ s = format_as_str f) ∧
  (∀ f, record_format (for_record_format f) = Some f ∧ spec_name (for_record_format f) = format_as_str f).
Proof.
  split; [|split].
  - intros spec. unfold FORMAT_SPECS at 1. rewrite !elem_of_cons, elem_of_nil.
    intros [->|[->|[->|[->|[->|[->|[->|[]]]]]]]]; (split; [by vm_compute|]); split;
      repeat (apply Forall_cons; split; [by vm_compute|]); apply Forall_nil; exact I.
  - intros f s. split.
    + unfold format_parse. repeat case_bool_decide; intros [= <-]; done.
    + intros ->. by destruct f; vm_compute.
  - intros f. by destruct f; vm_compute.
Qed.
