(* ===== verification/RecordDecoder.v ===== *)
(** * Record framing: [crates/gateway/src/record.rs]

    The decoder that cuts an object's bytes into records (lines, CSV records,
    JSON documents) as they arrive, and the validator that runs the same
    decoder over the whole output of an untrusted pipeline.

    [serde_json] and [csv_core] are crates outside the repository: the class
    [Parsers] is what the code asks of them, whether a slice is one JSON
    value and what the CSV reader returns.  Indices are the source's byte
    indices into [pending]. *)

From S2P Require Import Prelude RustStr Format.

#[local] Open Scope nat_scope.
Set Default Goal Selector "!".

(** [serde_json::from_slice::<Value>]: a value, or an error with its
    [is_eof()] and its text. *)
Inductive JsonOutcome : Type :=
| JsonOk
| JsonErr (is_eof : bool) (message : string).

Class Parsers := {
  json_from_slice : list byte → JsonOutcome;
  (** [Reader::new().read_record(input, output, ends)] for buffers of the two
      lengths: is the result [Record], the bytes consumed, the fields. *)
  csv_read_record : list byte → nat → nat → bool * nat * nat;
}.

(** ** Data *)

Record RecordT := mkRecord { payload : list byte; separator : list byte }.
#[global] Instance RecordT_eq_dec : EqDecision RecordT.
Proof. solve_decision. Defined.

Definition DEFAULT_MAX_SOURCE_FRAME_BYTES : N := 1024 * 1024.
Definition DEFAULT_MAX_RECORD_BYTES : N := 8 * 1024 * 1024.
Definition DEFAULT_MAX_JSON_DOCUMENT_BYTES : N := 8 * 1024 * 1024.
Definition DEFAULT_MAX_CSV_FIELDS : N := 16384.

Record DecoderLimits := mkLimits {
  max_source_frame_bytes : nat;
  max_record_bytes : nat;
  max_json_document_bytes : nat;
  max_csv_fields : nat;
}.

Inductive CsvState : Type := FieldStart | Unquoted | Quoted | QuoteClosed.
#[global] Instance CsvState_eq_dec : EqDecision CsvState.
Proof. solve_decision. Defined.

Record Decoder := mkDec {
  format : Format;
  limits : DecoderLimits;
  pending : list byte;
  ready : option RecordT;
  scan_offset : nat;
  csv_state : CsvState;
  csv_fields : nat;
  finished : bool;
  complete : bool;
  input_seen : bool;
  records_emitted : nat;
}.

(** Error codes. *)
Definition DECODE_JSON : string := "decode.json".
Definition DECODE_CSV : string := "decode.csv".
Definition DECODE_JSONL : string := "decode.jsonl".
Definition DECODE_ENCODING : string := "decode.encoding".
Definition CONFIG_INVALID : string := "config.invalid".
Definition LIMIT_INPUT_BYTES : string := "limit.input_bytes".
Definition RECORD_TOO_LARGE : string := "record.too_large".
Definition INTERNAL : string := "internal".

Definition limit_error (code kind : string) (actual limit : nat) : S4Error :=
  mkS4Error code (kind +:+ " size " +:+ pretty actual +:+ " exceeds limit " +:+ pretty limit).

Definition validate_utf8 (input : list byte) (code : string) : result S4Error unit :=
  match utf8_error input with
  | None => Ok tt
  | Some e => Err (mkS4Error code (utf8_error_to_string e))
  end.

Definition decoder_new (f : Format) (l : DecoderLimits) : result S4Error Decoder :=
  if (max_source_frame_bytes l =? 0) || (max_record_bytes l =? 0)
     || (max_json_document_bytes l =? 0) || (max_csv_fields l =? 0)
  then Err (mkS4Error CONFIG_INVALID "decoder limits must be greater than zero")
  else Ok (mkDec f l [] None 0 FieldStart 1 false false false 0).

(** Assignments. *)
Definition set_pending (x : list byte) (d : Decoder) : Decoder :=
  mkDec (format d) (limits d) x (ready d) (scan_offset d) (csv_state d) (csv_fields d) (finished d)
    (complete d) (input_seen d) (records_emitted d).
Definition set_ready (x : option RecordT) (d : Decoder) : Decoder :=
  mkDec (format d) (limits d) (pending d) x (scan_offset d) (csv_state d) (csv_fields d) (finished d)
    (complete d) (input_seen d) (records_emitted d).
Definition set_scan (x : nat) (d : Decoder) : Decoder :=
  mkDec (format d) (limits d) (pending d) (ready d) x (csv_state d) (csv_fields d) (finished d)
    (complete d) (input_seen d) (records_emitted d).
Definition set_csv (x : CsvState) (d : Decoder) : Decoder :=
  mkDec (format d) (limits d) (pending d) (ready d) (scan_offset d) x (csv_fields d) (finished d)
    (complete d) (input_seen d) (records_emitted d).
Definition set_fields (x : nat) (d : Decoder) : Decoder :=
  mkDec (format d) (limits d) (pending d) (ready d) (scan_offset d) (csv_state d) x (finished d)
    (complete d) (input_seen d) (records_emitted d).
Definition set_finished (d : Decoder) : Decoder :=
  mkDec (format d) (limits d) (pending d) (ready d) (scan_offset d) (csv_state d) (csv_fields d) true
    (complete d) (input_seen d) (records_emitted d).
Definition set_complete (d : Decoder) : Decoder :=
  mkDec (format d) (limits d) (pending d) (ready d) (scan_offset d) (csv_state d) (csv_fields d)
    (finished d) true (input_seen d) (records_emitted d).
Definition set_seen (x : bool) (d : Decoder) : Decoder :=
  mkDec (format d) (limits d) (pending d) (ready d) (scan_offset d) (csv_state d) (csv_fields d)
    (finished d) (complete d) x (records_emitted d).
Definition set_emitted (x : nat) (d : Decoder) : Decoder :=
  mkDec (format d) (limits d) (pending d) (ready d) (scan_offset d) (csv_state d) (csv_fields d)
    (finished d) (complete d) (input_seen d) x.

(** ** The decoder *)

Section decoder.
Context `{P : Parsers}.

Definition ensure_pending_limit (max : nat) (kind : string) (d : Decoder) : result S4Error unit :=
  if max <? length (pending d) then Err (limit_error RECORD_TOO_LARGE kind (length (pending d)) max)
  else Ok tt.

(** Emits [pending[..payload_end]] with [pending[separator_start..consumed]] as its separator. *)
Definition emit (payload_end separator_start consumed : nat) (utf8_code : string)
    : SE Decoder S4Error unit := λ d,
  if max_record_bytes (limits d) <? payload_end
  then (Err (limit_error RECORD_TOO_LARGE "record" payload_end (max_record_bytes (limits d))), d)
  else match validate_utf8 (take payload_end (pending d)) utf8_code with
  | Err e => (Err e, d)
  | Ok _ =>
      let r := mkRecord (take payload_end (pending d)) (slice (pending d) separator_start consumed) in
      (Ok tt, set_scan 0 (set_ready (Some r) (set_pending (drop consumed (pending d)) d)))
  end.

Definition emit_final (d : Decoder) : Decoder :=
  set_scan 0 (set_complete (set_seen true (set_ready (Some (mkRecord (pending d) [])) (set_pending [] d)))).

Definition is_lf (b : byte) : bool := bool_decide (b = x0a).

Definition prepare_line (at_eof : bool) : SE Decoder S4Error unit := λ d,
  match position is_lf (drop (scan_offset d) (pending d)) with
  | Some relative_end =>
      let fin := scan_offset d + relative_end in
      let payload_end :=
        if (0 <? fin) && bool_decide (pending d !! (fin - 1) = Some x0d) then fin - 1 else fin in
      emit payload_end payload_end (fin + 1) DECODE_ENCODING d
  | None =>
      let d := set_scan (length (pending d)) d in
      match ensure_pending_limit (max_record_bytes (limits d)) "record" d with
      | Err e => (Err e, d)
      | Ok _ =>
          if at_eof && (negb (bool_decide (pending d = [])) || negb (input_seen d)) then
            match validate_utf8 (pending d) DECODE_ENCODING with
            | Err e => (Err e, d)
            | Ok _ => (Ok tt, emit_final d)
            end
          else (Ok tt, if at_eof then set_complete d else d)
      end
  end.

Definition prepare_json (at_eof : bool) : SE Decoder S4Error unit := λ d,
  match ensure_pending_limit (max_json_document_bytes (limits d)) "JSON document" d with
  | Err e => (Err e, d)
  | Ok _ =>
      if negb at_eof then (Ok tt, d)
      else if bool_decide (pending d = []) then (Ok tt, set_complete d)
      else match validate_utf8 (pending d) DECODE_ENCODING with
      | Err e => (Err e, d)
      | Ok _ =>
          match json_from_slice (pending d) with
          | JsonErr _ message => (Err (mkS4Error DECODE_JSON message), d)
          | JsonOk => (Ok tt, emit_final d)
          end
      end
  end.

(** ** CSV *)

Definition reset_csv_state (d : Decoder) : Decoder := set_scan 0 (set_fields 1 (set_csv FieldStart d)).

Definition consume_csv_empty (consumed : nat) (d : Decoder) : Decoder :=
  reset_csv_state (set_pending (drop consumed (pending d)) d).

Definition increment_csv_fields : SE Decoder S4Error unit := λ d,
  let d := set_fields (csv_fields d + 1) d in
  if max_csv_fields (limits d) <? csv_fields d
  then (Err (limit_error RECORD_TOO_LARGE "CSV field count" (csv_fields d) (max_csv_fields (limits d))), d)
  else (Ok tt, d).

(** [at] is a line feed or carriage return of [pending]. *)
Definition csv_boundary (d : Decoder) (at_ : nat) (at_eof : bool) : option (nat * nat) :=
  if bool_decide (pending d !! at_ = Some x0a) then Some (at_, at_ + 1)
  else if at_ + 1 <? length (pending d) then
    Some (at_, if bool_decide (pending d !! (at_ + 1) = Some x0a) then at_ + 2 else at_ + 1)
  else if at_eof then Some (at_, at_ + 1) else None.

Definition validate_csv (payload_end : nat) (d : Decoder) : result S4Error unit :=
  let input := take payload_end (pending d) ++ [x0a] in
  let '(is_record, consumed, fields) :=
    csv_read_record input (payload_end + 1) (max_csv_fields (limits d)) in
  if negb is_record || negb (consumed =? length input)
  then Err (mkS4Error DECODE_CSV "CSV parser did not produce one complete record")
  else if max_csv_fields (limits d) <? fields
  then Err (limit_error RECORD_TOO_LARGE "CSV field count" fields (max_csv_fields (limits d)))
  else Ok tt.

Definition emit_csv (payload_end separator_end : nat) : SE Decoder S4Error unit := λ d,
  match validate_csv payload_end d with
  | Err e => (Err e, d)
  | Ok _ =>
      match validate_utf8 (take payload_end (pending d)) DECODE_ENCODING with
      | Err e => (Err e, d)
      | Ok _ =>
          match emit payload_end payload_end separator_end DECODE_CSV d with
          | (Err e, d) => (Err e, d)
          | (Ok _, d) => (Ok tt, reset_csv_state d)
          end
      end
  end.

(** How one turn of the scanning loop ends. *)
Inductive CsvTurn : Type := Advance | Continue | Break | Return.

(** A line end outside quotes at the scan offset; in [FieldStart] an empty
    line is skipped. *)
Definition csv_line_end (skip_empty at_eof : bool) : SE Decoder S4Error CsvTurn := λ d,
  match csv_boundary d (scan_offset d) at_eof with
  | Some (payload_end, separator_end) =>
      if skip_empty && (payload_end =? 0) then (Ok Continue, consume_csv_empty separator_end d)
      else match emit_csv payload_end separator_end d with
           | (Ok _, d) => (Ok Return, d)
           | (Err e, d) => (Err e, d)
           end
  | None => (Ok Break, d)
  end.

Definition csv_next_field : SE Decoder S4Error CsvTurn := λ d,
  match increment_csv_fields d with
  | (Ok _, d) => (Ok Advance, set_csv FieldStart d)
  | (Err e, d) => (Err e, d)
  end.

(** One turn on the byte at the scan offset; [Advance] still moves on by one. *)
Definition csv_turn (b : byte) (at_eof : bool) : SE Decoder S4Error CsvTurn := λ d,
  let line_end := bool_decide (b = x0a) || bool_decide (b = x0d) in
  match csv_state d with
  | FieldStart =>
      if bool_decide (b = x22) then (Ok Advance, set_csv Quoted d)
      else if bool_decide (b = x2c) then
        match increment_csv_fields d with
        | (Ok _, d) => (Ok Advance, d)
        | (Err e, d) => (Err e, d)
        end
      else if line_end then csv_line_end true at_eof d
      else (Ok Advance, set_csv Unquoted d)
  | Unquoted =>
      if bool_decide (b = x2c) then csv_next_field d
      else if bool_decide (b = x22)
      then (Err (mkS4Error DECODE_CSV "quote inside an unquoted CSV field"), d)
      else if line_end then csv_line_end false at_eof d
      else (Ok Advance, d)
  | Quoted => (Ok Advance, if bool_decide (b = x22) then set_csv QuoteClosed d else d)
  | QuoteClosed =>
      if bool_decide (b = x22) then (Ok Advance, set_csv Quoted d)
      else if bool_decide (b = x2c) then csv_next_field d
      else if line_end then csv_line_end false at_eof d
      else (Err (mkS4Error DECODE_CSV "unexpected byte after closing CSV quote"), d)
  end.

(** The loop: [Ok true] is the [return] inside it, [Ok false] its end. *)
Fixpoint csv_loop (fuel : nat) (at_eof : bool) : SE Decoder S4Error bool := λ d,
  match pending d !! scan_offset d with
  | None => (Ok false, d)
  | Some b =>
      match fuel with
      | O => (Ok false, d)
      | S fuel =>
          match csv_turn b at_eof d with
          | (Err e, d) => (Err e, d)
          | (Ok Advance, d) => csv_loop fuel at_eof (set_scan (scan_offset d + 1) d)
          | (Ok Continue, d) => csv_loop fuel at_eof d
          | (Ok Break, d) => (Ok false, d)
          | (Ok Return, d) => (Ok true, d)
          end
      end
  end.

Definition csv_tail (at_eof : bool) : SE Decoder S4Error unit := λ d,
  match ensure_pending_limit (max_record_bytes (limits d)) "CSV record" d with
  | Err e => (Err e, d)
  | Ok _ =>
      if negb at_eof then (Ok tt, d)
      else if bool_decide (csv_state d = Quoted)
      then (Err (mkS4Error DECODE_CSV "unterminated quoted CSV field"), d)
      else if negb (bool_decide (pending d = [])) then
        match validate_csv (length (pending d)) d with
        | Err e => (Err e, d)
        | Ok _ =>
            match validate_utf8 (pending d) DECODE_ENCODING with
            | Err e => (Err e, d)
            | Ok _ => (Ok tt, reset_csv_state (emit_final d))
            end
        end
      else (Ok tt, set_complete d)
  end.

(** Every turn but the last drops or passes a byte, see [csv_loop_spec]. *)
Definition prepare_csv (at_eof : bool) : SE Decoder S4Error unit := λ d,
  match csv_loop (S (length (pending d))) at_eof d with
  | (Err e, d) => (Err e, d)
  | (Ok true, d) => (Ok tt, d)
  | (Ok false, d) => csv_tail at_eof d
  end.

(** ** The public operations *)

Definition prepare_next (at_eof : bool) : SE Decoder S4Error unit := λ d,
  if negb (bool_decide (ready d = None)) || complete d then (Ok tt, d)
  else match format d with
  | Text | Jsonl | Tsv => prepare_line at_eof d
  | Csv => prepare_csv at_eof d
  | Json => prepare_json at_eof d
  end.

Definition push (chunk : list byte) : SE Decoder S4Error unit := λ d,
  if finished d then (Err (mkS4Error INTERNAL "cannot push after decoder finish"), d)
  else if negb (bool_decide (ready d = None))
  then (Err (mkS4Error INTERNAL "drain the ready record before pushing another source frame"), d)
  else if max_source_frame_bytes (limits d) <? length chunk
  then (Err (limit_error LIMIT_INPUT_BYTES "source frame" (length chunk)
               (max_source_frame_bytes (limits d))), d)
  else prepare_next false
         (set_pending (pending d ++ chunk) (set_seen (input_seen d || negb (bool_decide (chunk = []))) d)).

Definition next_record : SE Decoder S4Error (option RecordT) := λ d,
  match (if bool_decide (ready d = None) then prepare_next (finished d) d else (Ok tt, d)) with
  | (Err e, d) => (Err e, d)
  | (Ok _, d) =>
      let r := ready d in
      let d := set_ready None d in
      (Ok r, if bool_decide (r = None) then d else set_emitted (records_emitted d + 1) d)
  end.

Definition finish : SE Decoder S4Error unit := λ d,
  if finished d then (Ok tt, d)
  else if negb (bool_decide (ready d = None))
  then (Err (mkS4Error INTERNAL "drain the ready record before finishing the decoder"), d)
  else match prepare_next true (set_finished d) with
  | (Err e, d) => (Err e, d)
  | (Ok _, d) =>
      if bool_decide (format d = Csv) && bool_decide (ready d = None) && (records_emitted d =? 0)
      then (Err (mkS4Error DECODE_CSV "no CSV records found"), d)
      else (Ok tt, d)
  end.

Definition buffered_bytes (d : Decoder) : nat :=
  length (pending d) +
  match ready d with Some r => length (payload r) + length (separator r) | None => 0 end.

Definition end_of_segment : SE Decoder S4Error unit := λ d,
  if negb (bool_decide (format d = Json)) || bool_decide (pending d = [])
     || negb (bool_decide (ready d = None))
  then (Ok tt, d)
  else match json_from_slice (pending d) with
  | JsonOk => (Ok tt, set_scan 0 (set_seen true (set_ready (Some (mkRecord (pending d) [])) (set_pending [] d))))
  | JsonErr true _ => (Ok tt, d)
  | JsonErr false message => (Err (mkS4Error DECODE_JSON message), d)
  end.

(** ** The output validator *)

Record OutputValidator := mkValidator {
  v_format : Format;
  v_decoder : Decoder;
  max_frame_bytes : nat;
  v_input_seen : bool;
  v_finished : bool;
}.

Definition validator_new (f : Format) (l : DecoderLimits) : result S4Error OutputValidator :=
  d ← decoder_new f l;
  Ok (mkValidator f d (max_source_frame_bytes l) false false).

(** [while let Some(record) = self.decoder.next_record()? { .. }]; [None] is a
    fuel that was too small. *)
Fixpoint drain_loop (fuel : nat) (check : RecordT → result S4Error unit) (d : Decoder)
    : option (result S4Error (list RecordT) * Decoder) :=
  match fuel with
  | O => None
  | S fuel =>
      match next_record d with
      | (Err e, d) => Some (Err e, d)
      | (Ok None, d) => Some (Ok [], d)
      | (Ok (Some r), d) =>
          match check r with
          | Err e => Some (Err e, d)
          | Ok _ =>
              match drain_loop fuel check d with
              | Some (Ok rs, d) => Some (Ok (r :: rs), d)
              | x => x
              end
          end
      end
  end.

(** A record leaves fewer bytes buffered, or is the last: see [drain_loop_ends]. *)
Definition drain (check : RecordT → result S4Error unit) : SE Decoder S4Error (list RecordT) := λ d,
  default (Err (mkS4Error INTERNAL ""), d) (drain_loop (2 * buffered_bytes d + 4) check d).

Definition check_output (f : Format) (r : RecordT) : result S4Error unit :=
  if bool_decide (f = Jsonl) then
    _ ← validate_utf8 (payload r) DECODE_ENCODING;
    match json_from_slice (payload r) with
    | JsonOk => Ok tt
    | JsonErr _ message => Err (mkS4Error DECODE_JSONL message)
    end
  else Ok tt.

Definition with_decoder (d : Decoder) (v : OutputValidator) : OutputValidator :=
  mkValidator (v_format v) d (max_frame_bytes v) (v_input_seen v) (v_finished v).

Definition drain_records : SE OutputValidator S4Error unit := λ v,
  match drain (check_output (v_format v)) (v_decoder v) with
  | (Ok _, d) => (Ok tt, with_decoder d v)
  | (Err e, d) => (Err e, with_decoder d v)
  end.

(** [slice.chunks(n)]. *)
Fixpoint chunks_fuel (fuel n : nat) (l : list byte) : list (list byte) :=
  match fuel, l with
  | _, [] => []
  | O, _ => []
  | S fuel, _ => take n l :: chunks_fuel fuel n (drop n l)
  end.
Definition chunks (n : nat) (l : list byte) : list (list byte) := chunks_fuel (length l) n l.

Fixpoint push_chunks (cs : list (list byte)) : SE OutputValidator S4Error unit := λ v,
  match cs with
  | [] => (Ok tt, v)
  | c :: cs =>
      match push c (v_decoder v) with
      | (Err e, d) => (Err e, with_decoder d v)
      | (Ok _, d) =>
          match drain_records (with_decoder d v) with
          | (Err e, v) => (Err e, v)
          | (Ok _, v) => push_chunks cs v
          end
      end
  end.

Definition push_bytes (bytes : list byte) : SE OutputValidator S4Error unit := λ v,
  push_chunks (chunks (max_frame_bytes v) bytes)
    (mkValidator (v_format v) (v_decoder v) (max_frame_bytes v)
       (v_input_seen v || negb (bool_decide (bytes = []))) (v_finished v)).

Definition push_record (r : RecordT) : SE OutputValidator S4Error unit := λ v,
  if v_finished v then (Err (mkS4Error INTERNAL "cannot validate output after finish"), v)
  else (_ ← push_bytes (payload r); push_bytes (separator r)) v.

Definition validator_finish : SE OutputValidator S4Error unit := λ v,
  if v_finished v then (Ok tt, v)
  else
    let v := mkValidator (v_format v) (v_decoder v) (max_frame_bytes v) (v_input_seen v) true in
    if negb (v_input_seen v) then (Ok tt, v)
    else match finish (v_decoder v) with
    | (Err e, d) => (Err e, with_decoder d v)
    | (Ok _, d) => drain_records (with_decoder d v)
    end.

Fixpoint push_records (rs : list RecordT) : SE OutputValidator S4Error unit :=
  match rs with
  | [] => mret tt
  | r :: rs => _ ← push_record r; push_records rs
  end.

Definition validate_output_records (f : Format) (rs : list RecordT) (l : DecoderLimits)
    : result S4Error unit :=
  v ← validator_new f l;
  ((_ ← push_records rs; validator_finish) v).1.

(** A client that pushes the source in chunks, takes the records out after
    each, finishes and takes out the rest: the way every user of the decoder
    drives it. *)
Definition accept_all (r : RecordT) : result S4Error unit := Ok tt.

Fixpoint decode_chunks (cs : list (list byte)) : SE Decoder S4Error (list RecordT) :=
  match cs with
  | [] => _ ← finish; drain accept_all
  | c :: cs => _ ← push c; rs ← drain accept_all; rest ← decode_chunks cs; mret (rs ++ rest)
  end.

Definition decode (f : Format) (l : DecoderLimits) (cs : list (list byte)) : result S4Error (list RecordT) :=
  d ← decoder_new f l; (decode_chunks cs d).1.
End decoder.
