(* ===== verification/RecordProofs.v ===== *)
(** * What the record decoder guarantees

    The decoder of [RecordDecoder] scans its buffer incrementally, resuming at
    [scan_offset] with the CSV state of the bytes before it.  It is compared
    with [records], a definition that cuts a whole input at once: however the
    input arrives, the records are those of the whole input
    ([decode_reference]), each within its limit and valid UTF-8, and an
    accepted pipeline output consists of valid records as a whole
    ([validated_output]). *)

From S2P Require Import Prelude RustStr Format RecordDecoder.

#[local] Open Scope nat_scope.
Set Default Goal Selector "!".

(** ** The reference *)

(** The record of a line without its line feed. *)
Definition line_record (raw : list byte) : RecordT :=
  if bool_decide (last raw = Some x0d) then mkRecord (take (length raw - 1) raw) [x0d; x0a]
  else mkRecord raw [x0a].

(** What is left when the input ends. *)
Definition remainder (acc : list byte) : list RecordT :=
  if bool_decide (acc = []) then [] else [mkRecord acc []].

(** Lines, [acc] being the bytes of the current one so far. *)
Fixpoint line_records (acc l : list byte) : list RecordT :=
  match l with
  | [] => remainder acc
  | b :: l => if is_lf b then line_record acc :: line_records [] l else line_records (acc ++ [b]) l
  end.

(** The quoting state after a byte that ends no record. *)
Definition csv_after (s : CsvState) (b : byte) : CsvState :=
  match s with
  | FieldStart => if bool_decide (b = x22) then Quoted else if bool_decide (b = x2c) then FieldStart else Unquoted
  | Unquoted => if bool_decide (b = x2c) then FieldStart else Unquoted
  | Quoted => if bool_decide (b = x22) then QuoteClosed else Quoted
  | QuoteClosed => if bool_decide (b = x22) then Quoted else if bool_decide (b = x2c) then FieldStart else QuoteClosed
  end.

Definition is_line_end (b : byte) : bool := bool_decide (b = x0a) || bool_decide (b = x0d).

(** CSV records: a line end outside quotes ends one, an empty line is none. *)
Fixpoint csv_records (s : CsvState) (acc l : list byte) : list RecordT :=
  match l with
  | [] => remainder acc
  | b :: rest =>
      if negb (bool_decide (s = Quoted)) && is_line_end b then
        let cut sep tail :=
          (if bool_decide (acc = []) then [] else [mkRecord acc sep]) ++ tail in
        if bool_decide (b = x0d) then
          match rest with
          | x0a :: rest' => cut [x0d; x0a] (csv_records FieldStart [] rest')
          | _ => cut [x0d] (csv_records FieldStart [] rest)
          end
        else cut [x0a] (csv_records FieldStart [] rest)
      else csv_records (csv_after s b) (acc ++ [b]) rest
  end.

(** The records of a whole input. *)
Definition records (f : Format) (l : list byte) : list RecordT :=
  match f with
  | Text | Jsonl | Tsv => line_records [] l
  | Csv => csv_records FieldStart [] l
  | Json => remainder l
  end.

(** An empty input of lines is one empty record. *)
Definition all_records (f : Format) (l : list byte) : list RecordT :=
  match f with
  | Text | Jsonl | Tsv => if bool_decide (l = []) then [mkRecord [] []] else records f l
  | _ => records f l
  end.

Definition record_limit (f : Format) (l : DecoderLimits) : nat :=
  match f with Json => max_json_document_bytes l | _ => max_record_bytes l end.

Definition opt_list {A} (o : option A) : list A := match o with Some x => [x] | None => [] end.

Section proofs.
Context `{P : Parsers}.

(** What the parsers were asked about a record. *)
Definition parses (f : Format) (l : DecoderLimits) (p : list byte) : Prop :=
  match f with
  | Json => json_from_slice p = JsonOk
  | Csv => ∃ fields, fields ≤ max_csv_fields l ∧
             csv_read_record (p ++ [x0a]) (length p + 1) (max_csv_fields l) = (true, length p + 1, fields)
  | _ => True
  end.

(** A record within its limit, valid UTF-8 and accepted by its parser. *)
Definition record_ok (f : Format) (l : DecoderLimits) (r : RecordT) : Prop :=
  length (payload r) ≤ record_limit f l ∧ utf8_valid (payload r) = true ∧ parses f l (payload r).

Lemma validate_csv_ok pe d u :
  pe ≤ length (pending d) → validate_csv pe d = Ok u → parses Csv (limits d) (take pe (pending d)).
Proof.
  intros Hpe. unfold validate_csv, parses. rewrite length_take, Nat.min_l by done.
  destruct (csv_read_record _ _ _) as [[rec consumed] fields]. destruct rec; [|done]. cbn [negb orb].
  destruct (consumed =? _) eqn:E; [|done]. cbn [negb]. destruct (_ <? fields) eqn:Ef; [done|]. intros _.
  apply Nat.eqb_eq in E. apply Nat.ltb_ge in Ef. exists fields. split; [done|].
  rewrite E, length_app, length_take, Nat.min_l by done. done.
Qed.

Lemma validate_utf8_ok l c u : validate_utf8 l c = Ok u → utf8_valid l = true.
Proof. unfold validate_utf8, utf8_valid. by destruct (utf8_error l). Qed.

Lemma ensure_pending_limit_ok max kind d u :
  ensure_pending_limit max kind d = Ok u → length (pending d) ≤ max.
Proof. unfold ensure_pending_limit. destruct (_ <? _) eqn:E; [done|]. by apply Nat.ltb_ge in E. Qed.

(** ** What the decoder has scanned *)

(** The bytes before [scan_offset] have been read: going on from there gives
    the records of the whole buffer. *)
Definition scanned (d : Decoder) : Prop :=
  scan_offset d ≤ length (pending d) ∧
  match format d with
  | Text | Jsonl | Tsv => ∀ future,
      line_records [] (pending d ++ future) =
      line_records (take (scan_offset d) (pending d)) (drop (scan_offset d) (pending d) ++ future)
  | Csv =>
      (scan_offset d = 0 → csv_state d = FieldStart) ∧
      ∀ future,
      csv_records FieldStart [] (pending d ++ future) =
      csv_records (csv_state d) (take (scan_offset d) (pending d))
        (drop (scan_offset d) (pending d) ++ future)
  | Json => True
  end.

Lemma line_records_no_lf acc a l :
  Forall (λ b, is_lf b = false) a → line_records acc (a ++ l) = line_records (acc ++ a) l.
Proof.
  revert acc. induction a as [|b a IH]; intros acc Ha; cbn; [by rewrite app_nil_r|].
  apply Forall_cons in Ha as [Hb Ha]. rewrite Hb, IH by done. by rewrite <- app_assoc.
Qed.

Lemma position_split {A} (p : A → bool) l :
  match position p l with
  | Some i => ∃ b, l = take i l ++ b :: drop (S i) l ∧ p b = true ∧ Forall (λ y, p y = false) (take i l) ∧ i < length l
  | None => Forall (λ y, p y = false) l
  end.
Proof.
  induction l as [|x l IH]; cbn; [done|]. destruct (p x) eqn:E.
  - exists x. cbn. repeat split; [done|constructor|lia].
  - destruct (position p l) as [i|]; cbn.
    + destruct IH as (b & Hl & Hb & Hf & Hi). exists b. cbn. rewrite <- Hl. repeat split; [done|by constructor|lia].
    + by constructor.
Qed.

(** The buffer up to a line feed, with the part scanned before. *)
Lemma line_found d i :
  scanned d → position is_lf (drop (scan_offset d) (pending d)) = Some i →
  (format d = Text ∨ format d = Jsonl ∨ format d = Tsv) →
  let fin := scan_offset d + i in
  pending d !! fin = Some x0a ∧ fin < length (pending d) ∧
  ∀ future, line_records [] (pending d ++ future) =
    line_record (take fin (pending d)) :: line_records [] (drop (S fin) (pending d) ++ future).
Proof.
  intros [Hs Hsc] Hp Hf. pose proof (position_split is_lf (drop (scan_offset d) (pending d))) as H.
  rewrite Hp in H. destruct H as (b & Hl & Hb & Hno & Hi). rewrite length_drop in Hi.
  unfold is_lf in Hb. apply bool_decide_eq_true in Hb as ->. cbn zeta. set (s := scan_offset d) in *.
  assert (Hat : pending d !! (s + i) = Some x0a).
  { rewrite <- lookup_drop, Hl, lookup_app_r; rewrite length_take, length_drop; [|lia].
    by replace (i - i `min` (length (pending d) - s)) with 0 by lia. }
  split; [done|]. split; [lia|]. intros future.
  assert (Hsc' : ∀ future, line_records [] (pending d ++ future) =
      line_records (take s (pending d)) (drop s (pending d) ++ future))
    by (destruct Hf as [E|[E|E]]; rewrite E in Hsc; exact Hsc).
  rewrite Hsc', Hl. rewrite <- app_assoc, line_records_no_lf by done. cbn [line_records app].
  change (is_lf x0a) with true. cbn iota. f_equal.
  - f_equal. rewrite <- (take_take_drop (pending d) s i). done.
  - rewrite drop_drop. f_equal. f_equal. f_equal. lia.
Qed.

(** ** One preparation *)

Definition fresh (d : Decoder) : Prop := ready d = None ∧ complete d = false.

(** The fields a preparation leaves alone. *)
Definition kept (d d' : Decoder) : Prop :=
  format d' = format d ∧ limits d' = limits d ∧ finished d' = finished d ∧
  records_emitted d' = records_emitted d.

(** The outcome of a preparation: the records of the buffer are the one made
    ready and those of what is left.  At the end of the input nothing follows. *)
Definition prepared (at_eof : bool) (d d' : Decoder) : Prop :=
  kept d d' ∧ length (pending d') ≤ length (pending d) ∧
  (complete d' = false → scanned d' ∧ input_seen d' = input_seen d) ∧
  (complete d' = true → at_eof = true ∧ pending d' = []) ∧
  match ready d' with
  | Some r => record_ok (format d) (limits d) r ∧
              (length (pending d') < length (pending d) ∨ complete d' = true)
  | None => if at_eof then complete d' = true
            else length (pending d') ≤ record_limit (format d) (limits d)
  end.

Definition same_records (at_eof : bool) (d d' : Decoder) : Prop :=
  ∀ future, (at_eof = true → future = []) →
  records (format d) (pending d ++ future) = opt_list (ready d') ++ records (format d) (pending d' ++ future).

Lemma scanned_start d :
  scan_offset d = 0 → (format d = Csv → csv_state d = FieldStart) → scanned d.
Proof.
  intros Hs Hc. unfold scanned. rewrite Hs, take_0, drop_0. split; [lia|].
  destruct (format d); [done..| |done|done]. by rewrite Hc.
Qed.

Lemma emit_inv pe ss c code d u d' :
  emit pe ss c code d = (Ok u, d') →
  pe ≤ max_record_bytes (limits d) ∧ utf8_valid (take pe (pending d)) = true ∧
  d' = set_scan 0 (set_ready (Some (mkRecord (take pe (pending d)) (slice (pending d) ss c)))
         (set_pending (drop c (pending d)) d)).
Proof.
  unfold emit. destruct (_ <? pe) eqn:E; [done|]. apply Nat.ltb_ge in E.
  destruct (validate_utf8 _ code) eqn:Hu; [|done]. intros; simplify_eq.
  eauto using validate_utf8_ok.
Qed.

Lemma line_record_cut l fin :
  l !! fin = Some x0a →
  let pe := if (0 <? fin) && bool_decide (l !! (fin - 1) = Some x0d) then fin - 1 else fin in
  line_record (take fin l) = mkRecord (take pe l) (slice l pe (fin + 1)) ∧ pe ≤ fin.
Proof.
  intros Hat pe. assert (Hlt : fin < length l) by by eapply lookup_lt_Some.
  assert (Hlast : last (take fin l) = if 0 <? fin then l !! (fin - 1) else None).
  { rewrite last_lookup, length_take. replace (fin `min` length l) with fin by lia.
    destruct fin as [|f]; [done|]. cbn [Nat.pred Nat.ltb Nat.leb]. rewrite lookup_take_lt by lia.
    f_equal. lia. }
  assert (Hone : slice l fin (fin + 1) = [x0a]).
  { unfold slice. replace (fin + 1 - fin) with 1 by lia. by rewrite (drop_S l x0a fin Hat). }
  unfold line_record. rewrite Hlast. unfold pe. destruct (0 <? fin) eqn:E; cbn [andb].
  - apply Nat.ltb_lt in E. case_bool_decide as Hcr; cbn; [|by rewrite Hone; auto with lia].
    split; [|lia]. f_equal.
    + rewrite length_take, take_take. f_equal. lia.
    + unfold slice. replace (fin + 1 - (fin - 1)) with 2 by lia. rewrite (drop_S l x0d (fin - 1) Hcr).
      replace (S (fin - 1)) with fin by lia. by rewrite (drop_S l x0a fin Hat).
  - cbn. by rewrite Hone; auto with lia.
Qed.

Lemma is_line_format f : f = Text ∨ f = Jsonl ∨ f = Tsv →
  (∀ l, records f l = line_records [] l) ∧ (∀ l, record_limit f l = max_record_bytes l) ∧ f ≠ Csv ∧
  (∀ l p, parses f l p).
Proof. by intros [-> | [-> | ->]]. Qed.

(** An emission from the front of the buffer. *)
Lemma prepared_emit at_eof d c r :
  c ≤ length (pending d) → 0 < c → complete d = false →
  record_ok (format d) (limits d) r → (format d = Csv → csv_state d = FieldStart) →
  prepared at_eof d (set_scan 0 (set_ready (Some r) (set_pending (drop c (pending d)) d))).
Proof.
  intros Hc Hpos Hcomp Hr Hcsv. unfold prepared. cbn. rewrite Hcomp, length_drop.
  split; [done|]. split; [lia|]. split; [|split; [done|split; [done|left; lia]]].
  intros _. split; [|done]. by apply scanned_start.
Qed.

Lemma prepare_line_spec at_eof d u d' :
  (format d = Text ∨ format d = Jsonl ∨ format d = Tsv) → scanned d → fresh d →
  (pending d ≠ [] → input_seen d = true) →
  prepare_line at_eof d = (Ok u, d') →
  prepared at_eof d d' ∧
  (pending d ≠ [] ∨ input_seen d = true ∨ at_eof = false → same_records at_eof d d') ∧
  (at_eof = true → pending d = [] → input_seen d = false → ready d' = Some (mkRecord [] []) ∧ complete d' = true).
Proof.
  intros Hf Hsc [Hr Hcm] Hseen. unfold prepare_line.
  pose proof (is_line_format _ Hf) as (Hrec & Hlim & Hnc & Hpar).
  destruct (position is_lf _) as [i|] eqn:Hp.
  - destruct (line_found d i Hsc Hp Hf) as (Hat & Hlt & Hcut). set (fin := scan_offset d + i) in *.
    destruct (line_record_cut (pending d) fin Hat) as [Hlr Hpe].
    set (pe := if _ && _ then _ else _) in *. intros (Hmax & Hutf & ->)%emit_inv.
    split; [apply (prepared_emit at_eof d); [lia|lia|done| |done]|split].
    + split; cbn; [rewrite Hlim, length_take; lia|by split].
    + intros _ future _. rewrite Hrec. cbn. rewrite Hcut, Hlr, Hrec. cbn.
      by replace (fin + 1) with (S fin) by lia.
    + intros _ Hnil. by rewrite Hnil in Hat.
  - pose proof (position_split is_lf (drop (scan_offset d) (pending d))) as Hno. rewrite Hp in Hno.
    destruct (ensure_pending_limit _ _ _) as [[]|] eqn:Hlimit; [|done].
    apply ensure_pending_limit_ok in Hlimit as E. clear Hlimit. cbn in E.
    assert (Hscan : scanned (set_scan (length (pending d)) d)).
    { destruct Hsc as [Hle Hsc]. unfold scanned. cbn. split; [done|].
      assert (H : ∀ future, line_records [] (pending d ++ future) =
        line_records (take (length (pending d)) (pending d)) (drop (length (pending d)) (pending d) ++ future)).
      { intros future. rewrite take_ge, drop_ge by lia. cbn.
        by destruct Hf as [Ef|[Ef|Ef]]; rewrite Ef in Hsc; rewrite Hsc, line_records_no_lf, take_drop. }
      by destruct Hf as [-> |[-> | ->]]. }
    assert (Hall : line_records [] (pending d) = remainder (pending d)).
    { destruct Hsc as [Hle Hsc]. assert (Hsc' : ∀ future, line_records [] (pending d ++ future) =
        line_records (take (scan_offset d) (pending d)) (drop (scan_offset d) (pending d) ++ future))
        by (destruct Hf as [Ef|[Ef|Ef]]; rewrite Ef in Hsc; exact Hsc).
      specialize (Hsc' []). rewrite (line_records_no_lf (take _ _)), take_drop, app_nil_r in Hsc' by done. exact Hsc'. }
    destruct (at_eof && _) eqn:Hemit.
    + destruct (validate_utf8 _ _) as [[]|] eqn:Hu; [|done]. intros; simplify_eq.
      apply andb_prop in Hemit as [-> Hcond]. apply validate_utf8_ok in Hu. cbn in *.
      split; [|split].
      * unfold prepared. cbn. repeat (split; [done || lia|]). split; [|by right].
        split; cbn; [by rewrite Hlim|by split].
      * intros Hne future Hfut. rewrite (Hfut eq_refl), app_nil_r, !Hrec, Hall. cbn. unfold remainder.
        case_bool_decide as Hnil; [|done]. rewrite Hnil in *. cbn in Hcond.
        destruct Hne as [?|[Hs|?]]; [done| |done]. by rewrite Hs in Hcond.
      * intros _ -> _. done.
    + intros H. assert (Hd : d' = (if at_eof then set_complete (set_scan (length (pending d)) d)
                               else set_scan (length (pending d)) d)) by congruence.
      clear H. subst d'. cbn in Hemit. destruct at_eof; cbn in *.
      * apply orb_false_iff in Hemit as [Hnil Hs]. apply negb_false_iff, bool_decide_eq_true in Hnil.
        apply negb_false_iff in Hs. split; [|split].
        -- unfold prepared. cbn. rewrite Hr, Hnil. by repeat (split; [done|]).
        -- intros _ future Hfut. cbn. by rewrite (Hfut eq_refl), Hnil, Hr.
        -- intros _ _ Hs'. congruence.
      * split; [|split; [|done]].
        -- unfold prepared. cbn. rewrite Hr, Hcm, Hlim. repeat (split; [done|]). done.
        -- intros _ future _. cbn. by rewrite Hr.
Qed.

Lemma prepare_json_spec at_eof d u d' :
  format d = Json → scanned d → fresh d → prepare_json at_eof d = (Ok u, d') →
  prepared at_eof d d' ∧ same_records at_eof d d'.
Proof.
  intros Hf Hsc [Hr Hcm]. unfold prepare_json.
  destruct (ensure_pending_limit _ _ _) as [[]|] eqn:Hlim; [|done].
  apply ensure_pending_limit_ok in Hlim. destruct at_eof; cbn [negb].
  - case_bool_decide as Hnil.
    + intros; simplify_eq. split; [|intros future Hfut; cbn; by rewrite (Hfut eq_refl), Hnil, Hf, Hr].
      unfold prepared. cbn. rewrite Hr, Hnil. by repeat (split; [done|]).
    + destruct (validate_utf8 _ _) as [[]|] eqn:Hu; [|done]. apply validate_utf8_ok in Hu.
      destruct (json_from_slice _) eqn:Hjs; [|done]. intros; simplify_eq. split.
      * unfold prepared. cbn. repeat (split; [done || lia|]). split; [|by right].
        rewrite Hf. by split.
      * intros future Hfut. rewrite (Hfut eq_refl), app_nil_r, Hf. cbn. unfold remainder.
        by rewrite bool_decide_eq_false_2.
  - intros; simplify_eq. split; [|intros future _; by rewrite Hr].
    unfold prepared. rewrite Hr, Hcm, Hf. by repeat (split; [done|]).
Qed.

(** ** CSV *)

(** A line end outside quotes: the record before it, and the rest. *)
Lemma csv_boundary_cut d at_ at_eof b pe se :
  pending d !! at_ = Some b → is_line_end b = true →
  csv_boundary d at_ at_eof = Some (pe, se) →
  pe = at_ ∧ at_ < se ≤ length (pending d) ∧
  ∀ s acc future, s ≠ Quoted → (at_eof = true → future = []) →
    csv_records s acc (drop at_ (pending d) ++ future) =
    (if bool_decide (acc = []) then [] else [mkRecord acc (slice (pending d) pe se)]) ++
    csv_records FieldStart [] (drop se (pending d) ++ future).
Proof.
  intros Hat Hle. assert (Hlt : at_ < length (pending d)) by by eapply lookup_lt_Some.
  unfold csv_boundary. rewrite Hat.
  assert (Hbs : ∀ s acc future, s ≠ Quoted → csv_records s acc (b :: future) =
    let cut sep tail := (if bool_decide (acc = []) then [] else [mkRecord acc sep]) ++ tail in
    if bool_decide (b = x0d) then
      match future with
      | x0a :: rest' => cut [x0d; x0a] (csv_records FieldStart [] rest')
      | _ => cut [x0d] (csv_records FieldStart [] future)
      end
    else cut [x0a] (csv_records FieldStart [] future)).
  { intros s acc future Hs. cbn [csv_records]. by rewrite (bool_decide_eq_false_2 (s = Quoted)), Hle. }
  assert (Hone : ∀ c, pending d !! at_ = Some c → slice (pending d) at_ (at_ + 1) = [c]).
  { intros c Hc. unfold slice. replace (at_ + 1 - at_) with 1 by lia. by rewrite (drop_S _ _ _ Hc). }
  destruct (decide (b = x0a)) as [->|Hlf];
    [rewrite (bool_decide_eq_true_2 (Some x0a = Some x0a)) by done
    |rewrite (bool_decide_eq_false_2 (Some b = Some x0a)) by congruence].
  - intros; simplify_eq. split; [done|]. split; [lia|]. intros s acc future Hs _.
    rewrite (drop_S _ _ _ Hat). cbn [app]. rewrite Hbs by done. cbn.
    replace (pe + 1) with (S pe) by lia. rewrite <- (Nat.add_1_r pe), (Hone _ Hat). done.
  - assert (b = x0d) as ->.
    { unfold is_line_end in Hle. apply orb_prop in Hle as [H|H]; apply bool_decide_eq_true in H; [|done].
      by subst. }
    destruct (at_ + 1 <? length (pending d)) eqn:Hmore.
    + apply Nat.ltb_lt in Hmore. destruct (lookup_lt_is_Some_2 _ _ Hmore) as [c Hc].
      rewrite Hc. destruct (decide (c = x0a)) as [->|Hcl];
        [rewrite (bool_decide_eq_true_2 (Some x0a = Some x0a)) by done
        |rewrite (bool_decide_eq_false_2 (Some c = Some x0a)) by congruence];
        intros; simplify_eq; (split; [done|]); (split; [lia|]);
        intros s acc future Hs _; rewrite (drop_S _ _ _ Hat); cbn [app]; rewrite Hbs by done; cbn zeta;
        rewrite bool_decide_eq_true_2 by done; rewrite <- (Nat.add_1_r pe), (drop_S _ _ _ Hc); cbn [app].
      * assert (Htwo : slice (pending d) pe (pe + 2) = [x0d; x0a]).
        { unfold slice. replace (pe + 2 - pe) with 2 by lia. rewrite (drop_S _ _ _ Hat).
          rewrite <- (Nat.add_1_r pe), (drop_S _ _ _ Hc). done. }
        rewrite Htwo. by replace (S (pe + 1)) with (pe + 2) by lia.
      * rewrite (Hone _ Hat). destruct c; done.
    + apply Nat.ltb_ge in Hmore. destruct at_eof; [|done]. intros; simplify_eq. split; [done|]. split; [lia|].
      intros s acc future Hs Hfut. rewrite (Hfut eq_refl), !app_nil_r, (drop_S _ _ _ Hat).
      rewrite !(drop_ge (pending d)) by lia. rewrite Hbs by done. cbn zeta.
      rewrite bool_decide_eq_true_2 by done. by rewrite (Hone _ Hat).
Qed.

(** How a turn of the scanning loop leaves the decoder. *)
Definition csv_turned (at_eof : bool) (b : byte) (d : Decoder) (t : CsvTurn) (d1 : Decoder) : Prop :=
  match t with
  | Advance =>
      (csv_state d = Quoted ∨ is_line_end b = false) ∧
      ∃ n, d1 = set_csv (csv_after (csv_state d) b) (set_fields n d)
  | Continue =>
      csv_state d = FieldStart ∧ scan_offset d = 0 ∧ is_line_end b = true ∧
      ∃ pe se, csv_boundary d (scan_offset d) at_eof = Some (pe, se) ∧ d1 = consume_csv_empty se d
  | Break => d1 = d ∧ at_eof = false
  | Return =>
      csv_state d ≠ Quoted ∧ is_line_end b = true ∧ (csv_state d = FieldStart → scan_offset d ≠ 0) ∧
      ∃ pe se, csv_boundary d (scan_offset d) at_eof = Some (pe, se) ∧
        pe ≤ max_record_bytes (limits d) ∧ utf8_valid (take pe (pending d)) = true ∧
        parses Csv (limits d) (take pe (pending d)) ∧ d1 = reset_csv_state (set_scan 0 (set_ready
               (Some (mkRecord (take pe (pending d)) (slice (pending d) pe se)))
               (set_pending (drop se (pending d)) d)))
  end.

Lemma csv_line_end_turned skip at_eof b d t d1 :
  pending d !! scan_offset d = Some b → is_line_end b = true → csv_state d ≠ Quoted →
  skip = bool_decide (csv_state d = FieldStart) →
  csv_line_end skip at_eof d = (Ok t, d1) → csv_turned at_eof b d t d1.
Proof.
  intros Hat Hle Hq Hskip. unfold csv_line_end.
  destruct (csv_boundary d _ at_eof) as [[pe se]|] eqn:Hb.
  - destruct (csv_boundary_cut d _ at_eof b pe se Hat Hle Hb) as (-> & Hse & _).
    destruct (skip && _) eqn:Hs.
    + intros; simplify_eq. apply andb_prop in Hs as [Hst Hz]. apply bool_decide_eq_true in Hst.
      apply Nat.eqb_eq in Hz. cbn. repeat (split; [done|]). eauto.
    + destruct (emit_csv _ _ _) as [[[]|] d2] eqn:He; [|done]. intros; simplify_eq.
      unfold emit_csv in He. destruct (validate_csv _ _) eqn:Hv; [|done]. apply validate_csv_ok in Hv; [|lia]. destruct (validate_utf8 _ _); [|done].
      destruct (emit _ _ _ _ _) as [[[]|] d3] eqn:He2; [|done]. simplify_eq.
      apply emit_inv in He2 as (Hmax & Hutf & ->). cbn. repeat (split; [done|]).
      split; [|by eauto 10]. intros Hfs Hz. rewrite Hfs, Hz in Hs. done.
  - intros; simplify_eq. cbn. split; [done|]. destruct at_eof; [|done].
    unfold csv_boundary in Hb. repeat case_match; done.
Qed.

Lemma increment_csv_fields_inv d u d1 :
  increment_csv_fields d = (Ok u, d1) → d1 = set_fields (csv_fields d + 1) d.
Proof. unfold increment_csv_fields. case_match; [done|]. intros; by simplify_eq. Qed.

Lemma csv_turn_turned at_eof b d t d1 :
  pending d !! scan_offset d = Some b → csv_turn b at_eof d = (Ok t, d1) → csv_turned at_eof b d t d1.
Proof.
  intros Hat. unfold csv_turn, csv_next_field.
  assert (Hle : is_line_end b = bool_decide (b = x0a) || bool_decide (b = x0d)) by done.
  assert (Hq : ∀ c, b = c → c ≠ x0a → c ≠ x0d → is_line_end b = false).
  { intros c -> H1 H2. unfold is_line_end. by rewrite !bool_decide_eq_false_2. }
  rewrite <- Hle. destruct (csv_state d) eqn:Hst.
  - destruct (decide (b = x22)) as [Hb|Hb];
      [rewrite (bool_decide_eq_true_2 _ Hb)|rewrite (bool_decide_eq_false_2 _ Hb)].
    { intros [= <- <-]. cbn. rewrite Hst. split; [right; by apply (Hq x22)|].
      exists (csv_fields d). cbn. rewrite (bool_decide_eq_true_2 _ Hb). by destruct d. }
    destruct (decide (b = x2c)) as [Hc|Hc];
      [rewrite (bool_decide_eq_true_2 _ Hc)|rewrite (bool_decide_eq_false_2 _ Hc)].
    { destruct (increment_csv_fields d) as [[u|] d2] eqn:Hi; [|done]. intros [= <- <-].
      apply increment_csv_fields_inv in Hi as ->. cbn. rewrite Hst. split; [right; by apply (Hq x2c)|].
      exists (csv_fields d + 1). cbn. rewrite (bool_decide_eq_false_2 _ Hb), (bool_decide_eq_true_2 _ Hc).
      destruct d; cbn in *. by subst. }
    destruct (is_line_end b) eqn:E.
    + intros H. eapply csv_line_end_turned; eauto; rewrite Hst; done.
    + intros [= <- <-]. cbn. rewrite Hst. split; [by right|]. exists (csv_fields d). cbn.
      rewrite (bool_decide_eq_false_2 _ Hb), (bool_decide_eq_false_2 _ Hc). by destruct d.
  - destruct (decide (b = x2c)) as [Hc|Hc];
      [rewrite (bool_decide_eq_true_2 _ Hc)|rewrite (bool_decide_eq_false_2 _ Hc)].
    { destruct (increment_csv_fields d) as [[u|] d2] eqn:Hi; [|done]. intros [= <- <-].
      apply increment_csv_fields_inv in Hi as ->. cbn. rewrite Hst. split; [right; by apply (Hq x2c)|].
      exists (csv_fields d + 1). cbn. by rewrite (bool_decide_eq_true_2 _ Hc). }
    destruct (decide (b = x22)) as [Hb|Hb];
      [by rewrite (bool_decide_eq_true_2 _ Hb)|rewrite (bool_decide_eq_false_2 _ Hb)].
    destruct (is_line_end b) eqn:E.
    + intros H. eapply csv_line_end_turned; eauto; rewrite Hst; done.
    + intros [= <- <-]. cbn. rewrite Hst. split; [by right|]. exists (csv_fields d). cbn.
      rewrite (bool_decide_eq_false_2 _ Hc). destruct d; cbn in *. by subst.
  - intros [= <- <-]. cbn. rewrite Hst. split; [by left|]. exists (csv_fields d). cbn.
    destruct (decide (b = x22)) as [Hb|Hb];
      [rewrite !(bool_decide_eq_true_2 _ Hb)|rewrite !(bool_decide_eq_false_2 _ Hb)];
      destruct d; cbn in *; by subst.
  - destruct (decide (b = x22)) as [Hb|Hb];
      [rewrite (bool_decide_eq_true_2 _ Hb)|rewrite (bool_decide_eq_false_2 _ Hb)].
    { intros [= <- <-]. cbn. rewrite Hst. split; [right; by apply (Hq x22)|].
      exists (csv_fields d). cbn. rewrite (bool_decide_eq_true_2 _ Hb). by destruct d. }
    destruct (decide (b = x2c)) as [Hc|Hc];
      [rewrite (bool_decide_eq_true_2 _ Hc)|rewrite (bool_decide_eq_false_2 _ Hc)].
    { destruct (increment_csv_fields d) as [[u|] d2] eqn:Hi; [|done]. intros [= <- <-].
      apply increment_csv_fields_inv in Hi as ->. cbn. rewrite Hst. split; [right; by apply (Hq x2c)|].
      exists (csv_fields d + 1). cbn. by rewrite (bool_decide_eq_false_2 _ Hb), (bool_decide_eq_true_2 _ Hc). }
    destruct (is_line_end b) eqn:E; [|done].
    intros H. eapply csv_line_end_turned; eauto; rewrite Hst; done.
Qed.

Lemma scanned_advance b d n :
  format d = Csv → scanned d → pending d !! scan_offset d = Some b →
  csv_state d = Quoted ∨ is_line_end b = false →
  scanned (set_scan (scan_offset d + 1) (set_csv (csv_after (csv_state d) b) (set_fields n d))).
Proof.
  intros Hf [Hle Hsc] Hat Hq. rewrite Hf in Hsc. destruct Hsc as [Hz Hsc].
  assert (Hlt : scan_offset d < length (pending d)) by by eapply lookup_lt_Some.
  unfold scanned. cbn. rewrite Hf. split; [lia|]. split; [lia|]. intros future. rewrite Hsc.
  rewrite (drop_S _ _ _ Hat). cbn [app csv_records].
  assert (negb (bool_decide (csv_state d = Quoted)) && is_line_end b = false) as ->.
  { destruct Hq as [-> | ->]; [done|by rewrite andb_false_r]. }
  rewrite (Nat.add_1_r (scan_offset d)), (take_S_r _ _ _ Hat). done.
Qed.

(** What the scanning loop leaves; [true] when it made a record ready. *)
Definition csv_looped (at_eof : bool) (d : Decoder) (b : bool) (d' : Decoder) : Prop :=
  kept d d' ∧ complete d' = false ∧ input_seen d' = input_seen d ∧
  length (pending d') ≤ length (pending d) ∧ scanned d' ∧ same_records at_eof d d' ∧
  if b then ∃ r, ready d' = Some r ∧ record_ok (format d) (limits d) r ∧
                 length (pending d') < length (pending d)
  else ready d' = None ∧ (at_eof = true → scan_offset d' = length (pending d')).

(** The loop ends by itself: its fuel is one more than the bytes to scan. *)
Lemma csv_loop_spec fuel at_eof d b d' :
  format d = Csv → scanned d → fresh d → length (pending d) - scan_offset d < fuel →
  csv_loop fuel at_eof d = (Ok b, d') → csv_looped at_eof d b d'.
Proof.
  revert d. induction fuel as [|fuel IH]; intros d Hf Hsc [Hr Hcm] Hfuel; [lia|]. cbn [csv_loop].
  destruct (pending d !! scan_offset d) as [c|] eqn:Hat.
  2:{ intros; simplify_eq. unfold csv_looped. repeat (split; [done|]). split; [by intros future _; rewrite Hr|].
      split; [done|]. intros _. apply lookup_ge_None in Hat. destruct Hsc. lia. }
  assert (Hlt : scan_offset d < length (pending d)) by by eapply lookup_lt_Some.
  destruct (csv_turn c at_eof d) as [[t|] d1] eqn:Ht; [|done].
  apply csv_turn_turned in Ht; [|done]. destruct t; cbn [csv_turned] in Ht.
  - destruct Ht as (Hq & n & ->). intros H. apply IH in H; cbn; [|done|by apply scanned_advance|done|lia].
    exact H.
  - destruct Ht as (Hfs & Hz & Hle & pe & se & Hb & ->).
    destruct (csv_boundary_cut d _ at_eof c pe se Hat Hle Hb) as (-> & Hse & Hcut).
    intros H. apply IH in H; cbn; [|done|by apply scanned_start|done|rewrite length_drop; lia].
    destruct H as (Hk & Hc' & Hs' & Hlen & Hsc' & Hsame & Hb'). cbn in *. rewrite length_drop in *.
    unfold csv_looped. repeat (split; [done || lia|]). split.
    + intros future Hfut. rewrite <- Hsame by done. cbn. rewrite Hf. cbn.
      specialize (Hcut FieldStart [] future ltac:(done) Hfut). rewrite Hz in Hcut. cbn in Hcut.
      by rewrite drop_0 in Hcut.
    + destruct b; [|done]. destruct Hb' as (r & ? & ? & ?). exists r. repeat (split; [done|]). lia.
  - destruct Ht as [-> ->]. intros; simplify_eq. unfold csv_looped. repeat (split; [done|]).
    split; [by intros future _; rewrite Hr|]. done.
  - destruct Ht as (Hq & Hle & Hfs & pe & se & Hb & Hmax & Hutf & Hpar & ->).
    destruct (csv_boundary_cut d _ at_eof c pe se Hat Hle Hb) as (-> & Hse & Hcut).
    intros; simplify_eq. unfold csv_looped. cbn. rewrite length_drop.
    repeat (split; [done || lia|]). split; [by apply scanned_start|]. split.
    + intros future Hfut. cbn. rewrite Hf. cbn. destruct Hsc as [_ Hsc]. rewrite Hf in Hsc.
      destruct Hsc as [Hz Hsc]. rewrite Hsc, Hcut by done. rewrite bool_decide_eq_false_2; [done|].
      intros Hnil%(f_equal length). rewrite length_take in Hnil. cbn in Hnil.
      assert (H0 : scan_offset d = 0) by lia. exact (Hfs (Hz H0) H0).
    + eexists. split; [done|]. split; [|lia]. rewrite Hf. split; cbn; [rewrite length_take; lia|by split].
Qed.

Lemma prepare_csv_spec at_eof d u d' :
  format d = Csv → scanned d → fresh d → prepare_csv at_eof d = (Ok u, d') →
  prepared at_eof d d' ∧ same_records at_eof d d'.
Proof.
  intros Hf Hsc Hfr. unfold prepare_csv. destruct (csv_loop _ at_eof d) as [[b|] d1] eqn:Hl; [|done].
  apply csv_loop_spec in Hl; [|done|done|done|lia].
  destruct Hl as (Hk & Hcm & Hseen & Hlen & Hsc1 & Hsame & Hb). destruct b.
  - destruct Hb as (r & Hr & Hok & Hlt). intros; simplify_eq. split; [|done].
    unfold prepared. rewrite Hcm, Hr. repeat (split; [done|]). by left.
  - destruct Hb as (Hr & Hend). unfold csv_tail. destruct Hk as (Hf1 & Hl1 & Hfin1 & Hem1).
    destruct (ensure_pending_limit _ _ _) as [[]|] eqn:Hlim; [|done].
    apply ensure_pending_limit_ok in Hlim. rewrite Hl1 in Hlim. destruct at_eof; cbn [negb].
    + specialize (Hend eq_refl). destruct (bool_decide (csv_state d1 = Quoted)); [done|].
      assert (Hall : records (format d) (pending d1) = remainder (pending d1)).
      { destruct Hsc1 as [_ Hsc1]. rewrite Hf1, Hf in Hsc1. destruct Hsc1 as [_ Hsc1].
        specialize (Hsc1 []). rewrite Hend, take_ge, drop_ge, app_nil_r in Hsc1 by done. by rewrite Hf. }
      case_bool_decide as Hnil; cbn [negb].
      * intros; simplify_eq. split.
        -- unfold prepared. cbn. rewrite Hr, Hnil. cbn. repeat (split; [done || lia|]). done.
        -- intros future Hfut. rewrite (Hsame future Hfut), Hr. cbn. by rewrite Hr.
      * destruct (validate_csv _ _) eqn:Hv; [|done]. apply validate_csv_ok in Hv; [|done].
        rewrite take_ge, Hl1 in Hv by done. destruct (validate_utf8 _ _) as [[]|] eqn:Hu; [|done].
        apply validate_utf8_ok in Hu. intros; simplify_eq. split.
        -- unfold prepared. cbn. repeat (split; [done || lia|]). split; [|by right].
           rewrite Hf. by split.
        -- intros future Hfut. rewrite (Hsame future Hfut), (Hfut eq_refl), !app_nil_r, Hall, Hr. cbn.
           unfold remainder. rewrite bool_decide_eq_false_2 by done. by rewrite Hf.
    + intros; simplify_eq. split; [|done]. unfold prepared. rewrite Hcm, Hr, Hf.
      repeat (split; [done|]). done.
Qed.

(** ** Every operation *)

Definition is_lines (f : Format) : Prop := f = Text ∨ f = Jsonl ∨ f = Tsv.

Lemma prepare_next_spec at_eof d u d' :
  scanned d → fresh d → (pending d ≠ [] → input_seen d = true) →
  prepare_next at_eof d = (Ok u, d') →
  prepared at_eof d d' ∧
  (pending d ≠ [] ∨ input_seen d = true ∨ at_eof = false ∨ ¬ is_lines (format d) →
     same_records at_eof d d') ∧
  (is_lines (format d) → at_eof = true → pending d = [] → input_seen d = false →
     ready d' = Some (mkRecord [] []) ∧ complete d' = true).
Proof.
  intros Hsc Hfr Hseen. unfold prepare_next. destruct Hfr as [Hr Hcm]. rewrite Hr, Hcm. cbn.
  destruct (format d) eqn:Hf; intros H.
  1,4,5: assert (Hl : is_lines (format d)) by (rewrite Hf; unfold is_lines; auto);
    destruct (prepare_line_spec at_eof d u d' Hl Hsc (conj Hr Hcm) Hseen H) as (H1 & H2 & H3);
    rewrite <- Hf; split; [done|]; split; [naive_solver|auto].
  - apply prepare_json_spec in H as [? ?]; [|done|done|done]. split; [done|]. split; [done|by intros [? | [? | ?]]].
  - apply prepare_csv_spec in H as [? ?]; [|done|done|done]. split; [done|]. split; [done|by intros [? | [? | ?]]].
Qed.

(** The decoder between two operations. *)
Definition dec_inv (d : Decoder) : Prop :=
  (complete d = false → scanned d ∧ (pending d ≠ [] → input_seen d = true)) ∧
  (complete d = true → pending d = [] ∧ finished d = true) ∧
  (∀ r, ready d = Some r → record_ok (format d) (limits d) r).

(** What is still to come once the input has ended. *)
Definition tail_records (d : Decoder) : list RecordT :=
  if complete d then []
  else if bool_decide (pending d = []) && negb (input_seen d) && bool_decide (format d ≠ Csv ∧ format d ≠ Json)
  then [mkRecord [] []] else records (format d) (pending d).

Definition drain_measure (d : Decoder) : nat :=
  2 * length (pending d) + (if bool_decide (ready d = None) then 0 else 1) + (if complete d then 0 else 2).

Lemma is_lines_iff f : is_lines f ↔ f ≠ Csv ∧ f ≠ Json.
Proof. unfold is_lines. destruct f; naive_solver. Qed.

Lemma records_nil f : records f [] = [].
Proof. by destruct f. Qed.

(** One [next_record]. *)
Definition stepped (d : Decoder) (o : option RecordT) (d' : Decoder) : Prop :=
  format d' = format d ∧ limits d' = limits d ∧ finished d' = finished d ∧ ready d' = None ∧ dec_inv d' ∧
  (∀ r, o = Some r → record_ok (format d) (limits d) r ∧ drain_measure d' < drain_measure d) ∧
  (o = None → ready d = None ∧
     if finished d then complete d' = true else length (pending d') ≤ record_limit (format d) (limits d)) ∧
  (finished d = false → complete d' = false ∧ input_seen d' = input_seen d ∧
     ∀ future, opt_list (ready d) ++ records (format d) (pending d ++ future) =
               opt_list o ++ records (format d) (pending d' ++ future)) ∧
  (finished d = true → opt_list (ready d) ++ tail_records d = opt_list o ++ tail_records d').

Lemma next_record_spec d o d' :
  dec_inv d → next_record d = (Ok o, d') → stepped d o d'.
Proof.
  intros (Hnc & Hc & Hok) H. unfold next_record in H. destruct (ready d) as [r|] eqn:Hr.
  { cbn in H. rewrite Hr in H. injection H as <- <-. unfold stepped, dec_inv, tail_records, drain_measure. cbn.
    rewrite Hr. split; [done|]. split; [done|]. split; [done|]. split; [done|]. split; [done|].
    split; [intros ? [= <-]; split; [by apply Hok|case_bool_decide; [done|lia]]|]. split; [done|].
    split; [|done]. intros Hf. split; [|done]. destruct (complete d); [|done]. destruct (Hc eq_refl). congruence. }
  rewrite bool_decide_eq_true_2 in H by done.
  destruct (complete d) eqn:Hcm.
  { unfold prepare_next in H. rewrite Hcm, orb_true_r, Hr in H. injection H as <- <-.
    destruct (Hc eq_refl) as [Hp Hf]. unfold stepped, dec_inv, tail_records. cbn. rewrite Hcm, Hf, Hr.
    by repeat (split; [done|]). }
  destruct (Hnc eq_refl) as [Hsc Hseen].
  destruct (prepare_next (finished d) d) as [[u|] d1] eqn:Hp; [|done].
  destruct (prepare_next_spec _ _ _ _ Hsc (conj Hr Hcm) Hseen Hp) as (Hprep & Hsame & Hempty).
  destruct Hprep as ((Hf1 & Hl1 & Hfin1 & _) & Hlen & Hopen & Hclosed & Hready).
  injection H as <- <-. set (d' := if bool_decide (ready d1 = None) then _ else _).
  assert (Hd' : format d' = format d1 ∧ limits d' = limits d1 ∧ finished d' = finished d1 ∧ ready d' = None ∧
    complete d' = complete d1 ∧ pending d' = pending d1 ∧ input_seen d' = input_seen d1 ∧
    (scanned d1 → scanned d')) by (unfold d'; by case_bool_decide).
  destruct Hd' as (Hf' & Hl' & Hfin' & Hr' & Hc' & Hp' & Hs' & Hsc'). clearbody d'.
  assert (Hseen1 : complete d1 = false → pending d1 ≠ [] → input_seen d1 = true).
  { intros E Hne. destruct (Hopen E) as [_ ->]. apply Hseen. intros Hnil. rewrite Hnil in Hlen.
    destruct (pending d1); [done|cbn in Hlen; lia]. }
  assert (Hdone : complete d1 = true → finished d = true ∧ pending d1 = []) by apply Hclosed.
  unfold stepped, dec_inv. rewrite Hf', Hl', Hfin', Hr', Hc', Hp', Hs', Hf1, Hl1, Hfin1.
  do 4 (split; [done|]). split; [|split; [|split; [|split]]].
  - split; [intros E; destruct (Hopen E); auto|]. split; [|done]. intros E. destruct (Hdone E). auto.
  - intros r Hrr. rewrite Hrr in Hready. destruct Hready as [Hrok Hdec]. split; [done|].
    unfold drain_measure. rewrite Hp', Hr', Hc', Hr, Hcm. cbn. destruct Hdec as [Hdec| ->]; [|lia].
    destruct (complete d1); lia.
  - intros Hn. rewrite Hn in Hready. split; [done|]. by destruct (finished d).
  - intros Hf. assert (Hcd : complete d1 = false) by (destruct (complete d1); [by destruct (Hdone eq_refl); congruence|done]).
    split; [done|]. split; [by apply Hopen|]. intros future. rewrite Hr.
    apply Hsame; [auto|]. by rewrite Hf.
  - intros Hf. rewrite Hr. cbn [opt_list app]. unfold tail_records. rewrite Hcm, Hc', Hp', Hs', Hf', Hf1.
    destruct (decide (pending d = [] ∧ input_seen d = false ∧ is_lines (format d))) as [(Hnil & Hns & Hlines)|Hno].
    + destruct (Hempty Hlines Hf Hnil Hns) as [-> ->]. rewrite Hnil, Hns. cbn.
      by rewrite bool_decide_eq_true_2 by by apply is_lines_iff.
    + assert (Hb : bool_decide (pending d = []) && negb (input_seen d) &&
        bool_decide (format d ≠ Csv ∧ format d ≠ Json) = false).
      { apply not_true_is_false. intros [[E1 E2]%andb_prop E3]%andb_prop. apply bool_decide_eq_true in E1, E3.
        apply negb_true_iff in E2. apply Hno. by rewrite is_lines_iff. }
      rewrite Hb. assert (Hsm : same_records (finished d) d d1).
      { apply Hsame. destruct (decide (pending d = [])); [|auto]. destruct (input_seen d); [auto|].
        right; right; right. intros Hlines. by apply Hno. }
      specialize (Hsm [] (λ _, eq_refl)). rewrite !app_nil_r in Hsm. rewrite Hsm. f_equal.
      destruct (complete d1) eqn:E1; [by destruct (Hdone eq_refl) as [_ ->]; rewrite records_nil|].
      clear Hb. destruct (Hopen eq_refl) as [_ ->]. case_bool_decide as Hp1; [|done].
      destruct (input_seen d) eqn:Es; [done|]. cbn. case_bool_decide as Hfm; [|done].
      exfalso. apply Hno. split; [|by rewrite is_lines_iff].
      destruct (decide (pending d = [])) as [|n]; [done|]. by specialize (Hseen n).
Qed.

(** Draining: it ends, and hands out the records of the buffer. *)
Definition drained (check : RecordT → result S4Error unit) (d : Decoder) (rs : list RecordT) (d' : Decoder) : Prop :=
  format d' = format d ∧ limits d' = limits d ∧ finished d' = finished d ∧ ready d' = None ∧ dec_inv d' ∧
  Forall (λ r, record_ok (format d) (limits d) r ∧ check r = Ok tt) rs ∧
  (finished d = false → complete d' = false ∧ input_seen d' = input_seen d ∧
     length (pending d') ≤ record_limit (format d) (limits d) ∧
     ∀ future, opt_list (ready d) ++ records (format d) (pending d ++ future) =
               rs ++ records (format d) (pending d' ++ future)) ∧
  (finished d = true → opt_list (ready d) ++ tail_records d = rs).

Lemma drain_loop_ends fuel check d :
  dec_inv d → drain_measure d < fuel →
  ∃ r d', drain_loop fuel check d = Some (r, d') ∧ ∀ rs, r = Ok rs → drained check d rs d'.
Proof.
  revert d. induction fuel as [|fuel IH]; intros d Hinv Hm; [lia|]. cbn [drain_loop].
  destruct (next_record d) as [[[r|]|e] d1] eqn:Hn; [| |by eexists _, _].
  - apply next_record_spec in Hn; [|done].
    destruct Hn as (Hf & Hl & Hfin & Hr & Hinv1 & Hsome & _ & Hopen & Hclosed).
    destruct (Hsome r eq_refl) as [Hok Hdec].
    destruct (check r) as [[]|] eqn:Hck; [|by eexists _, _].
    destruct (IH d1 Hinv1 ltac:(lia)) as (q & d2 & -> & Hq).
    destruct q as [rs|]; [|by eexists _, _]. eexists _, _. split; [done|]. intros ? [= <-].
    destruct (Hq rs eq_refl) as (Hf2 & Hl2 & Hfin2 & Hr2 & Hinv2 & Hall & Hopen2 & Hclosed2).
    rewrite Hf, Hl, Hfin, Hr in *. cbn [opt_list app] in *. unfold drained.
    do 5 (split; [done|]). split; [by constructor|]. split.
    + intros E. destruct (Hopen E) as (Hc1 & Hs1 & Hrec). destruct (Hopen2 E) as (Hc2 & Hs2 & Hlen & Hrec2).
      split; [done|]. split; [congruence|]. split; [done|]. intros future. by rewrite Hrec, Hrec2.
    + intros E. by rewrite (Hclosed E), (Hclosed2 E).
  - apply next_record_spec in Hn; [|done].
    destruct Hn as (Hf & Hl & Hfin & Hr & Hinv1 & _ & Hnone & Hopen & Hclosed).
    destruct (Hnone eq_refl) as [Hrd Hend].
    eexists _, _. split; [done|]. intros ? [= <-]. unfold drained. do 5 (split; [done|]). split; [constructor|]. split.
    + intros E. rewrite E in Hend. destruct (Hopen E) as (? & ? & ?). done.
    + intros E. rewrite E in Hend. rewrite (Hclosed E). unfold tail_records. by rewrite Hend.
Qed.

Lemma drain_spec check d rs d' :
  dec_inv d → drain check d = (Ok rs, d') → drained check d rs d'.
Proof.
  intros Hinv. unfold drain.
  destruct (drain_loop_ends (2 * buffered_bytes d + 4) check d Hinv) as (r & d1 & -> & Hr).
  { unfold drain_measure, buffered_bytes. destruct (ready d) as [x|]; [rewrite bool_decide_eq_false_2 by done|];
      destruct (complete d); cbn; lia. }
  cbn. intros; simplify_eq. auto.
Qed.

Lemma push_spec chunk d u d' :
  dec_inv d → complete d = false → push chunk d = (Ok u, d') →
  format d' = format d ∧ limits d' = limits d ∧ finished d' = false ∧ dec_inv d' ∧ complete d' = false ∧
  finished d = false ∧ ready d = None ∧
  input_seen d' = input_seen d || negb (bool_decide (chunk = [])) ∧
  ∀ future, records (format d) (pending d ++ chunk ++ future) =
    opt_list (ready d') ++ records (format d) (pending d' ++ future).
Proof.
  intros (Hnc & _ & _) Hcm. destruct (Hnc Hcm) as [Hsc Hseen]. unfold push.
  destruct (finished d) eqn:Hfin; [done|]. case_bool_decide as Hr; [|done]. cbn [negb].
  destruct (_ <? _); [done|]. set (d0 := set_pending _ _).
  assert (Hsc0 : scanned d0).
  { destruct Hsc as [Hle Hsc]. unfold scanned, d0. cbn. rewrite length_app. split; [lia|].
    assert (Ht : take (scan_offset d) (pending d ++ chunk) = take (scan_offset d) (pending d)) by by rewrite take_app_le.
    assert (Hd : ∀ x, drop (scan_offset d) (pending d ++ chunk) ++ x = drop (scan_offset d) (pending d) ++ chunk ++ x)
      by (intros; by rewrite drop_app_le, <- app_assoc).
    destruct (format d); [|done| |..]; try (intros future; rewrite Ht, Hd, <- app_assoc; apply Hsc).
    destruct Hsc as [Hz Hsc]. split; [done|]. intros future. rewrite Ht, Hd, <- app_assoc. apply Hsc. }
  assert (Hseen0 : pending d0 ≠ [] → input_seen d0 = true).
  { unfold d0. cbn. intros Hne. destruct chunk as [|b chunk]; cbn.
    - rewrite app_nil_r in Hne. by rewrite Hseen.
    - apply orb_true_r. }
  intros Hp. destruct (prepare_next_spec false d0 u d' Hsc0 (conj Hr Hcm) Hseen0 Hp) as (Hprep & Hsame & _).
  destruct Hprep as ((Hf1 & Hl1 & Hfin1 & _) & Hlen & Hopen & Hclosed & Hready). cbn in *.
  assert (Hcd : complete d' = false) by (destruct (complete d'); [by destruct (Hclosed eq_refl)|done]).
  destruct (Hopen Hcd) as [Hsc' Hs'].
  split; [done|]. split; [done|]. split; [by rewrite Hfin1|]. split.
  { unfold dec_inv. rewrite Hcd, Hf1, Hl1. split; [|split; [done|]].
    - intros _. split; [done|]. intros Hne. rewrite Hs'. apply Hseen0. intros Hnil. cbn in Hnil.
      rewrite Hnil in Hlen. destruct (pending d'); [done|cbn in Hlen; lia].
    - intros r Hrr. rewrite Hrr in Hready. by destruct Hready. }
  do 4 (split; [done|]). intros future. specialize (Hsame ltac:(auto) future ltac:(done)).
  cbn in Hsame. by rewrite <- app_assoc in Hsame.
Qed.

(** Finishing is a [next_record] on the ended input that leaves its record in place. *)
Lemma finish_spec d u d' :
  dec_inv d → finished d = false → finish d = (Ok u, d') →
  ready d = None ∧ format d' = format d ∧ limits d' = limits d ∧ finished d' = true ∧ dec_inv d' ∧
  tail_records d = opt_list (ready d') ++ tail_records d'.
Proof.
  intros Hinv Hfin. unfold finish. rewrite Hfin. case_bool_decide as Hr; [|done]. cbn [negb].
  destruct (prepare_next true (set_finished d)) as [[u1|] d1] eqn:Hp; [|done].
  intros H. assert (d1 = d') as ->. { case_match; [done|]. by simplify_eq. } clear H.
  assert (Hinv0 : dec_inv (set_finished d)).
  { destruct Hinv as (H1 & H2 & H3). split; [done|]. split; [|done]. cbn. intros E. by destruct (H2 E). }
  set (d2 := if bool_decide (ready d' = None) then set_ready None d'
             else set_emitted (records_emitted (set_ready None d') + 1) (set_ready None d')).
  assert (Hn : next_record (set_finished d) = (Ok (ready d'), d2)).
  { unfold next_record. cbn [ready set_finished finished]. rewrite bool_decide_eq_true_2 by done.
    by rewrite Hp. }
  apply next_record_spec in Hn; [|done].
  destruct Hn as (Hf & Hl & Hf2 & Hr2 & Hinv2 & Hsome & _ & _ & Hclosed).
  assert (Hsame : format d2 = format d' ∧ limits d2 = limits d' ∧ finished d2 = finished d' ∧
    complete d2 = complete d' ∧ pending d2 = pending d' ∧ input_seen d2 = input_seen d' ∧
    (scanned d2 → scanned d') ∧ tail_records d2 = tail_records d') by (unfold d2; by case_bool_decide).
  destruct Hsame as (E1 & E2 & E3 & E4 & E5 & E6 & E7 & E8). cbn in *. rewrite Hr, E8 in Hclosed.
  split; [done|]. split; [congruence|]. split; [congruence|]. split; [congruence|]. split; [|by apply Hclosed].
  destruct Hinv2 as (H1 & H2 & _). unfold dec_inv in *. rewrite E4, E5, E6, E3 in *.
  split; [intros E; destruct (H1 E); auto|]. split; [done|].
  intros r Hrr. destruct (Hsome r Hrr) as [Hok _]. by rewrite <- E1, <- E2, Hf, Hl.
Qed.

(** The records of what is buffered and of what is still to come. *)
Definition final_records (f : Format) (seen : bool) (l : list byte) : list RecordT :=
  if bool_decide (l = []) && negb seen && bool_decide (f ≠ Csv ∧ f ≠ Json) then [mkRecord [] []]
  else records f l.

Lemma decode_chunks_spec cs d rs d' :
  dec_inv d → complete d = false → finished d = false → decode_chunks cs d = (Ok rs, d') →
  rs = final_records (format d) (input_seen d || negb (bool_decide (concat cs = []))) (pending d ++ concat cs) ∧
  Forall (record_ok (format d) (limits d)) rs.
Proof.
  revert d rs. induction cs as [|c cs IH]; intros d rs Hinv Hcm Hfin; cbn [decode_chunks].
  - unfold mbind, SE_bind. destruct (finish d) as [[u|] d1] eqn:Hf; [|done].
    apply finish_spec in Hf as (Hr & Hf1 & Hl1 & Hfin1 & Hinv1 & Htail); [|done|done].
    intros (_ & _ & _ & _ & _ & Hall & _ & Hclosed)%drain_spec; [|done].
    rewrite Hf1, Hl1 in Hall. split.
    + rewrite <- (Hclosed Hfin1), <- Htail. unfold tail_records, final_records. cbn.
      by rewrite Hcm, app_nil_r, orb_false_r.
    + eapply Forall_impl; [exact Hall|]. by intros x [? _].
  - unfold mbind, SE_bind, mret, SE_ret. destruct (push c d) as [[u|] d1] eqn:Hp; [|done].
    apply push_spec in Hp as (Hf1 & Hl1 & Hfin1 & Hinv1 & Hcm1 & _ & Hr & Hs1 & Hrec1); [|done|done].
    destruct (drain accept_all d1) as [[rs1|] d2] eqn:Hd; [|done].
    apply drain_spec in Hd as (Hf2 & Hl2 & Hfin2 & Hr2 & Hinv2 & Hall & Hopen & _); [|done].
    destruct (Hopen Hfin1) as (Hcm2 & Hs2 & _ & Hrec2).
    destruct (decode_chunks cs d2) as [[rest|] d3] eqn:Hrest; [|done]. intros; simplify_eq.
    apply IH in Hrest as [-> Hok]; [|done|done|congruence].
    rewrite Hf2, Hl2, Hf1, Hl1 in *. split.
    2:{ apply Forall_app. split; [|done]. eapply Forall_impl; [exact Hall|]. by intros x [? _]. }
    cbn [concat]. specialize (Hrec1 (concat cs)). specialize (Hrec2 (concat cs)).
    assert (Hrec : records (format d) (pending d ++ c ++ concat cs) =
      rs1 ++ records (format d) (pending d2 ++ concat cs)) by congruence.
    assert (Hseen : input_seen d2 || negb (bool_decide (concat cs = [])) =
      input_seen d || negb (bool_decide (c ++ concat cs = []))).
    { rewrite Hs2, Hs1, <- orb_assoc. f_equal. destruct c; [done|]. cbn. done. }
    rewrite Hseen. unfold final_records.
    destruct (input_seen d || negb (bool_decide (c ++ concat cs = []))) eqn:Hsn.
    { cbn. rewrite !andb_false_r. cbn. by rewrite Hrec. }
    apply orb_false_iff in Hsn as [Hsd Hcc]. apply negb_false_iff, bool_decide_eq_true in Hcc.
    apply app_eq_nil in Hcc as [-> Hcs]. rewrite Hcs in *. cbn in *. rewrite app_nil_r in *.
    assert (Hpd : pending d = []).
    { destruct (decide (pending d = [])); [done|]. destruct Hinv as (H1 & _ & _).
      destruct (H1 Hcm) as [_ H]. by rewrite H in Hsd. }
    assert (Hpd2 : pending d2 = []).
    { destruct (decide (pending d2 = [])) as [|n]; [done|]. destruct Hinv2 as (H1 & _ & _).
      destruct (H1 Hcm2) as [_ H]. rewrite Hs2, Hs1, Hsd in H. by specialize (H n). }
    rewrite Hpd, Hpd2, records_nil in *. destruct rs1; [|done]. by destruct (_ && _).
Qed.
End proofs.

Lemma decode_all_records `{P : Parsers} f l cs rs :
  decode f l cs = Ok rs →
  rs = all_records f (concat cs) ∧ Forall (record_ok f l) rs.
Proof.
  unfold decode, mbind, result_bind. destruct (decoder_new f l) as [d|] eqn:Hn; [|done].
  unfold decoder_new in Hn. case_match; [done|]. injection Hn as <-.
  destruct (decode_chunks cs _) as [r d'] eqn:Hd. cbn. intros ->.
  apply decode_chunks_spec in Hd as [-> Hok]; [|split; [|by split]|done|done].
  - split; [|done]. unfold final_records, all_records. cbn.
    destruct f; repeat case_bool_decide; cbn; try done; naive_solver.
  - intros _. split; [|done]. by apply scanned_start.
Qed.

(** However an object arrives, its records are those of the whole object:
    for every format, limits and sequence of source frames, a decoding that
    succeeds yields the records of the concatenated bytes (lines with their
    line ends, CSV records cut at line ends outside quotes, one JSON
    document), and every record is within its limit and valid UTF-8. *)
Theorem decode_reference `{P : Parsers} f l cs rs :
  decode f l cs = Ok rs →
  rs = all_records f (concat cs) ∧ Forall (record_ok f l) rs.
Proof. apply decode_all_records. Qed.

(** ** Nothing is lost *)

Definition record_bytes (r : RecordT) : list byte := payload r ++ separator r.

(** [input] is the bytes of the records in order, with blank lines between them. *)
Inductive woven : list RecordT → list byte → Prop :=
| woven_nil blank : Forall (λ b, is_line_end b = true) blank → woven [] blank
| woven_cons blank r rs rest :
    Forall (λ b, is_line_end b = true) blank → woven rs rest →
    woven (r :: rs) (blank ++ record_bytes r ++ rest).

Lemma woven_blank blank rs l :
  Forall (λ b, is_line_end b = true) blank → woven rs l → woven rs (blank ++ l).
Proof.
  intros Hb [blank' Hb'|blank' r rs' rest Hb' Hw].
  - constructor. by apply Forall_app.
  - rewrite app_assoc. constructor; [by apply Forall_app|done].
Qed.

Lemma remainder_bytes acc : concat (record_bytes <$> remainder acc) = acc.
Proof. unfold remainder. case_bool_decide; cbn; [by subst|]. unfold record_bytes. cbn. by rewrite !app_nil_r. Qed.

Lemma line_record_bytes raw : record_bytes (line_record raw) = raw ++ [x0a].
Proof.
  unfold line_record, record_bytes. case_bool_decide as H; cbn; [|done].
  rewrite last_Some in H. destruct H as [l ->]. rewrite length_app. cbn.
  replace (length l + 1 - 1) with (length l) by lia. rewrite take_app_length. by rewrite <- app_assoc.
Qed.

Lemma line_records_bytes acc l : concat (record_bytes <$> line_records acc l) = acc ++ l.
Proof.
  revert acc. induction l as [|b l IH]; intros acc; cbn; [by rewrite remainder_bytes, app_nil_r|].
  destruct (is_lf b) eqn:E; cbn.
  - unfold is_lf in E. apply bool_decide_eq_true in E as ->. rewrite IH, line_record_bytes. cbn.
    by rewrite <- app_assoc.
  - rewrite IH. by rewrite <- app_assoc.
Qed.

Lemma woven_remainder acc : woven (remainder acc) acc.
Proof.
  unfold remainder. case_bool_decide; [subst; by constructor|].
  pose proof (woven_cons [] (mkRecord acc []) [] [] (Forall_nil_2 _) (woven_nil [] (Forall_nil_2 _))) as Hw.
  unfold record_bytes in Hw. cbn in Hw. by rewrite !app_nil_r in Hw.
Qed.

Lemma woven_cut acc sep rs l :
  Forall (λ b, is_line_end b = true) sep → woven rs l →
  woven ((if bool_decide (acc = []) then [] else [mkRecord acc sep]) ++ rs) (acc ++ sep ++ l).
Proof.
  intros Hs Hw. case_bool_decide; cbn; [subst; cbn; by apply woven_blank|].
  pose proof (woven_cons [] (mkRecord acc sep) rs l (Forall_nil_2 _) Hw) as Hc.
  unfold record_bytes in Hc. cbn in Hc. by rewrite <- app_assoc in Hc.
Qed.

(** Line ends are cut two at a time at most, so the induction is on the length. *)
Lemma csv_records_woven n s acc l : length l ≤ n → woven (csv_records s acc l) (acc ++ l).
Proof.
  revert s acc l. induction n as [|n IH]; intros s acc l Hn.
  { destruct l; [|cbn in Hn; lia]. rewrite app_nil_r. apply woven_remainder. }
  destruct l as [|b l]; [rewrite app_nil_r; apply woven_remainder|]. cbn in Hn. cbn [csv_records].
  destruct (negb _ && is_line_end b) eqn:E.
  - apply andb_prop in E as [_ Hle]. case_bool_decide as Hcr.
    + subst b. assert (Hone : woven ((if bool_decide (acc = []) then [] else [mkRecord acc [x0d]]) ++
        csv_records FieldStart [] l) (acc ++ x0d :: l)).
      { apply (woven_cut acc [x0d]); [by repeat constructor|]. apply (IH FieldStart [] l). lia. }
      destruct l as [|c l]; [exact Hone|]. destruct c; try exact Hone.
      apply (woven_cut acc [x0d; x0a]); [by repeat constructor|]. cbn in Hn. apply (IH FieldStart [] l). lia.
    + assert (b = x0a) as ->.
      { unfold is_line_end in Hle. apply orb_prop in Hle as [E1|E1]; by apply bool_decide_eq_true in E1. }
      apply (woven_cut acc [x0a]); [by repeat constructor|]. apply (IH FieldStart [] l). lia.
  - replace (acc ++ b :: l) with ((acc ++ [b]) ++ l) by by rewrite <- app_assoc.
    apply IH. lia.
Qed.

Lemma all_records_woven f l : woven (all_records f l) l.
Proof.
  destruct f; cbn; [| |apply (csv_records_woven _ _ [] _ (le_n _))|..].
  2: apply woven_remainder.
  all: assert (Hw : ∀ rs, woven rs (concat (record_bytes <$> rs)))
    by (induction rs; [by constructor|apply (woven_cons []); [constructor|done]]).
  all: case_bool_decide as Hn; [rewrite Hn; apply (Hw [mkRecord [] []])|].
  all: specialize (Hw (line_records [] l)); by rewrite line_records_bytes in Hw.
Qed.

Lemma woven_length rs l : woven rs l → length (concat (record_bytes <$> rs)) ≤ length l.
Proof. induction 1; cbn; [lia|]. rewrite !length_app in *. lia. Qed.

(** C35: Decoding loses no byte of an object: the records with their
    separators, put together, are the object again; for CSV, up to blank
    lines, which are dropped between records. *)
Theorem decode_lossless `{P : Parsers} f l cs rs :
  decode f l cs = Ok rs →
  woven rs (concat cs) ∧ (f ≠ Csv → concat (record_bytes <$> rs) = concat cs).
Proof.
  intros [-> _]%decode_all_records. split; [apply all_records_woven|].
  intros Hf. destruct f; cbn; [| |done|..]; [|apply remainder_bytes|..];
    (case_bool_decide as Hn; [by rewrite Hn|apply line_records_bytes]).
Qed.

(** ** The output of a pipeline *)

Section output.
Context `{P : Parsers} (f : Format) (l : DecoderLimits).

Definition good (r : RecordT) : Prop := record_ok f l r ∧ check_output f r = Ok tt.

(** A validator that has accepted the bytes [out] so far. *)
Definition validating (out : list byte) (v : OutputValidator) : Prop :=
  let d := v_decoder v in
  v_format v = f ∧ format d = f ∧ limits d = l ∧ max_frame_bytes v = max_source_frame_bytes l ∧
  0 < max_frame_bytes v ∧ dec_inv d ∧
  complete d = false ∧ finished d = false ∧ ready d = None ∧ v_finished v = false ∧
  input_seen d = negb (bool_decide (out = [])) ∧ v_input_seen v = negb (bool_decide (out = [])) ∧
  ∃ rs, Forall good rs ∧ ∀ future, records f (out ++ future) = rs ++ records f (pending d ++ future).

Lemma chunks_concat n bytes : 0 < n → concat (chunks n bytes) = bytes.
Proof.
  intros Hn. unfold chunks. assert (H : ∀ fuel l', length l' ≤ fuel → concat (chunks_fuel fuel n l') = l').
  { induction fuel as [|fuel IH]; intros [|b l'] Hl; cbn in *; [done|lia|done|].
    assert (Hc : length (drop n (b :: l')) ≤ fuel) by (rewrite length_drop; cbn; lia).
    rewrite (IH _ Hc). apply take_drop. }
  by apply H.
Qed.

Lemma fresh_validating v : validator_new f l = Ok v → validating [] v.
Proof.
  unfold validator_new, mbind, result_bind, decoder_new. destruct (_ || _) eqn:E; [done|]. intros [= <-].
  apply orb_false_iff in E as [[[E1 _]%orb_false_iff _]%orb_false_iff _]. apply Nat.eqb_neq in E1.
  unfold validating. cbn. repeat (split; [done || lia|]). split; [|repeat (split; [done|]); exists []; by split].
  split; [|by split]. intros _. split; [|done]. by apply scanned_start.
Qed.

Lemma push_chunks_spec cs out v v' u :
  validating out (mkValidator (v_format v) (v_decoder v) (max_frame_bytes v) (negb (bool_decide (out = []))) (v_finished v)) →
  push_chunks cs v = (Ok u, v') →
  v_input_seen v' = v_input_seen v ∧
  validating (out ++ concat cs) (mkValidator (v_format v') (v_decoder v') (max_frame_bytes v')
    (negb (bool_decide (out ++ concat cs = []))) (v_finished v')).
Proof.
  revert out v. induction cs as [|c cs IH]; intros out v Hv; cbn [push_chunks concat].
  { intros; simplify_eq. by rewrite app_nil_r. }
  destruct Hv as (Hvf & Hf & Hl & Hmf & Hpos & Hinv & Hcm & Hfin & Hr & Hvfin & Hseen & _ & rs & Hrs & Hrec). cbn in *.
  destruct (push c (v_decoder v)) as [[u1|] d1] eqn:Hp; [|done].
  apply push_spec in Hp as (Hf1 & Hl1 & Hfin1 & Hinv1 & Hcm1 & _ & _ & Hs1 & Hrec1); [|done|done].
  unfold drain_records. cbn [v_format v_decoder with_decoder]. destruct (drain _ d1) as [[rs1|] d2] eqn:Hd; [|done].
  apply drain_spec in Hd as (Hf2 & Hl2 & Hfin2 & Hr2 & Hinv2 & Hall & Hopen & _); [|done].
  destruct (Hopen Hfin1) as (Hcm2 & Hs2 & _ & Hrec2).
  intros H. apply (IH (out ++ c)) in H as [Hsame H].
  - split; [exact Hsame|]. by rewrite <- app_assoc in H.
  - unfold validating. cbn. rewrite Hf2, Hl2, Hf1, Hl1, Hfin2, Hfin1.
    repeat (split; [done|]). split.
    { rewrite Hs2, Hs1, Hseen. destruct out; [by destruct c|done]. }
    split; [done|]. exists (rs ++ rs1). rewrite Hf1, Hl1, Hf, Hl, Hvf in Hall. split.
    + apply Forall_app. split; [done|exact Hall].
    + intros future. rewrite <- app_assoc, Hrec. rewrite Hf in Hrec1. rewrite Hrec1.
      rewrite Hf1, Hf in Hrec2. by rewrite Hrec2, app_assoc.
Qed.

Lemma push_bytes_spec bytes out v v' u :
  validating out v → push_bytes bytes v = (Ok u, v') → validating (out ++ bytes) v'.
Proof.
  intros Hv Hp. unfold push_bytes in Hp.
  assert (Hv2 := Hv). destruct Hv2 as (Hvf & _ & _ & _ & Hpos & _ & _ & _ & _ & _ & _ & Hvs & _).
  apply (push_chunks_spec _ out) in Hp as [Hs Hp'].
  - rewrite chunks_concat in Hp' by done. cbn in Hs. destruct v' as [vf vd mf vi vfin]. cbn in *.
    replace vi with (negb (bool_decide (out ++ bytes = []))); [done|].
    rewrite Hs, Hvs. destruct out; [by destruct bytes|done].
  - cbn. rewrite <- Hvs. by destruct v.
Qed.

Lemma push_records_spec rs out v v' u :
  validating out v → push_records rs v = (Ok u, v') → validating (out ++ concat (record_bytes <$> rs)) v'.
Proof.
  revert out v. induction rs as [|r rs IH]; intros out v Hv; cbn [push_records fmap list_fmap concat].
  { unfold mret, SE_ret. intros; simplify_eq. by rewrite app_nil_r. }
  unfold mbind, SE_bind. destruct (push_record r v) as [[u1|] v1] eqn:Hp; [|done].
  unfold push_record, mbind, SE_bind in Hp. destruct (v_finished v); [done|].
  destruct (push_bytes (payload r) v) as [[u2|] v2] eqn:Hp2; [|done].
  apply (push_bytes_spec _ out) in Hp2; [|done]. apply (push_bytes_spec _ _ _ _ _ Hp2) in Hp.
  intros H. apply (IH _ _ Hp) in H. unfold record_bytes at 1. by rewrite <- !app_assoc in *.
Qed.

Lemma validator_finish_spec out v v' u :
  validating out v → validator_finish v = (Ok u, v') → Forall good (records f out).
Proof.
  intros (Hvf & Hf & Hl & Hmf & Hpos & Hinv & Hcm & Hfin & Hr & Hvfin & Hseen & Hvs & rs & Hrs & Hrec).
  unfold validator_finish. rewrite Hvfin. cbn. rewrite Hvs. case_bool_decide as Hnil; cbn [negb].
  { intros _. rewrite Hnil, records_nil. constructor. }
  destruct (finish (v_decoder v)) as [[u1|] d1] eqn:Hfi; [|done].
  apply finish_spec in Hfi as (_ & Hf1 & Hl1 & Hfin1 & Hinv1 & Htail); [|done|done].
  unfold drain_records. cbn [v_format v_decoder with_decoder]. destruct (drain _ d1) as [[rs2|] d2] eqn:Hd; [|done]. intros _.
  apply drain_spec in Hd as (_ & _ & _ & _ & _ & Hall & _ & Hclosed); [|done].
  rewrite Hf1, Hl1, Hf, Hl, Hvf in Hall. specialize (Hrec []). rewrite !app_nil_r in Hrec. rewrite Hrec.
  apply Forall_app. split; [done|]. rewrite <- (Hclosed Hfin1), <- Htail in Hall. unfold tail_records in Hall.
  rewrite Hcm, Hseen, andb_false_r, Hf in Hall. exact Hall.
Qed.
End output.

(** The output of an untrusted pipeline is validated as one stream: when
    the validator accepts a list of output records, the bytes they amount to,
    cut into records anew, are all within their limits, valid UTF-8 and
    accepted by their parser, and for JSON lines every line is one JSON value,
    wherever the pipeline put the boundaries of its own records. *)
Theorem validated_output `{P : Parsers} f l rs :
  validate_output_records f rs l = Ok tt →
  Forall (λ r, record_ok f l r ∧ (f = Jsonl → json_from_slice (payload r) = JsonOk))
    (records f (concat (record_bytes <$> rs))).
Proof.
  unfold validate_output_records, mbind, result_bind, SE_bind.
  destruct (validator_new f l) as [v0|] eqn:Hn; [|done]. apply fresh_validating in Hn.
  destruct (push_records rs v0) as [[u|] v] eqn:Hp; [|done].
  apply (push_records_spec f l rs [] _ _ _ Hn) in Hp. destruct (validator_finish v) as [[u1|] v1] eqn:Hfin; [|done]. intros _.
  apply (validator_finish_spec f l _ _ _ _ Hp) in Hfin. eapply Forall_impl; [exact Hfin|].
  intros r [Hok Hck]. split; [done|]. intros ->. unfold check_output in Hck. cbn in Hck.
  unfold mbind, result_bind in Hck. destruct (validate_utf8 _ _); [|done]. by destruct (json_from_slice _).
Qed.

(** ** A concrete instance *)

(** JSON values of digits only, and CSV records counted by their commas. *)
#[local] Instance sample_parsers : Parsers := {|
  json_from_slice l :=
    if negb (bool_decide (l = [])) && forallb is_ascii_digit l then JsonOk else JsonErr (bool_decide (l = [])) "expected value";
  csv_read_record l _ _ := (true, length l, S (length (filter (λ b, b = x2c) l)));
|}.

Definition sample_limits : DecoderLimits := mkLimits 8 3 6 2.

Definition sample_csv : list (list byte) := [bs "a,"; [x22; x0a]; [x22; x0d]; [x0a; x0a]; bs "c"].

Definition sample_csv_records : list RecordT :=
  [mkRecord (bs "a," ++ [x22; x0a; x22]) [x0d; x0a]; mkRecord (bs "c") []].

Lemma sample_csv_decoded : decode Csv (mkLimits 8 8 6 2) sample_csv = Ok sample_csv_records.
Proof. by vm_compute. Qed.

Lemma decode_reference_witness : sample_csv_records = all_records Csv (concat sample_csv).
Proof. exact (proj1 (decode_reference _ _ _ _ sample_csv_decoded)). Defined.

Lemma decode_lossless_witness : woven sample_csv_records (concat sample_csv).
Proof. exact (proj1 (decode_lossless _ _ _ _ sample_csv_decoded)). Defined.

Lemma validated_output_witness :
  Forall (λ r, record_ok Jsonl sample_limits r ∧ (Jsonl = Jsonl → json_from_slice (payload r) = JsonOk))
    (records Jsonl (concat (record_bytes <$> [mkRecord (bs "1") []; mkRecord (bs "2") [x0a]; mkRecord (bs "3") []]))).
Proof. apply (validated_output Jsonl sample_limits). by vm_compute. Defined.

(** A record whose boundary hides an error is refused as a stream: each of the
    two records is a JSON value, the line they make is not. *)
Lemma split_record_refused :
  validate_output_records Jsonl [mkRecord (bs "1") [x0a]; mkRecord (bs "2") (bs " "); mkRecord (bs "3") [x0a]]
    sample_limits = Err (mkS4Error DECODE_JSONL "expected value").
Proof. by vm_compute. Qed.

(** The limit on a line depends on how its bytes arrive: a line of exactly
    the limit that ends in CR LF is decoded when it arrives in one frame, and
    refused as too large when the frame ends between the CR and the LF,
    because the CR is counted until the LF is there. *)
Theorem crlf_limit_depends_on_cut :
  decode Text sample_limits [bs "abc" ++ [x0d; x0a]] = Ok [mkRecord (bs "abc") [x0d; x0a]] ∧
  decode Text sample_limits [bs "abc" ++ [x0d]; [x0a]] =
    Err (limit_error RECORD_TOO_LARGE "record" 4 3).
Proof. by vm_compute. Qed.
