(* ===== verification/Staging.v ===== *)
(** * Multipart staging: the repository of uploads, parts and attempts

    The data types of [crates/gateway/src/multipart_staging.rs] and its
    [InMemoryMultipartRepository].  The repository is one mutex-protected
    [MemoryState], so each method is one atomic step; a method that returns
    [Err] after a mutation keeps that mutation, which [SE] records.

    Arguments that stand for the environment: [clock] is the value of the
    [now_ms()] a method reads by itself, [uuid] the printed [Uuid::now_v7()],
    and [order] the order in which the [HashMap] is iterated where the method
    stops after [limit] entries.  Arithmetic that the source writes with a
    plain operator wraps at the width of its type, as the release profile
    compiles it. *)

From S2P Require Import Prelude Operation.
From stdpp Require Import sorting.

#[local] Open Scope Z_scope.
Set Default Goal Selector "!".

(** ** Constants *)

Definition MAX_ACTIVE_UPLOADS : nat := 16.
Definition MAX_PARTS : Z := 10000.
Definition DEFAULT_EXPIRY_ms : Z := 24 * 60 * 60 * 1000.
Definition ARTIFACT_PREFIX : string := "multipart/".
Definition RECONCILIATION_GRACE_ms : Z := 5 * 60 * 1000.
Definition COMPLETION_LEASE_ms : Z := 30 * 1000.

(** ** Errors *)

Inductive StagingError : Type :=
| Unavailable
| NotFound
| NotOpen
| QuotaExceeded
| InvalidPart
| CompletionConflict
| Fenced
| Persistence (message : string)
| Crypto (message : string).
#[global] Instance StagingError_eq_dec : EqDecision StagingError.
Proof. solve_decision. Defined.

Inductive AbortMutationError : Type :=
| PreMutation (e : StagingError)
| MutationUnknown (e : StagingError).

(** ** Data *)

Record StagingQuotaLimits := mkQuotas { tenant_bytes : Z; global_bytes : Z }.

(** [StagingQuotaLimits::new]. *)
Definition quota_limits_new (tenant global : Z) : result StagingError StagingQuotaLimits :=
  if (tenant =? 0) || (global =? 0) || (global <? tenant) then Err QuotaExceeded
  else Ok (mkQuotas tenant global).

Record PendingPart := mkPendingPart {
  pd_upload_id : string;
  pd_part_number : Z;
  pd_attempt : Z;
  pd_artifact_key : string;
  pd_reserved_bytes : Z;
}.

Record CleanupCandidate := mkCandidate { cc_upload_id : string; cc_artifact_key : string }.
#[global] Instance CleanupCandidate_eq_dec : EqDecision CleanupCandidate.
Proof. solve_decision. Defined.

Record MultipartIdentity := mkIdentity {
  id_tenant_id : string;
  id_credential_policy_id : string;
  id_bucket : string;
  id_key : string;
  id_upload_id : string;
}.
#[global] Instance MultipartIdentity_eq_dec : EqDecision MultipartIdentity.
Proof. solve_decision. Defined.

Record MultipartSnapshot := mkSnapshot {
  sn_metadata : gmap string string;
  sn_tags : gmap string string;
  sn_checksum_mode : option string;
  sn_destination : Json;
  sn_plugin_snapshot : Json;
  sn_max_staged_bytes : Z;
}.

Inductive MultipartLifecycle : Type := Open | Completing | Completed | Aborted | Expired.
#[global] Instance MultipartLifecycle_eq_dec : EqDecision MultipartLifecycle.
Proof. solve_decision. Defined.

(** [control::PipelineEvidence]. *)
Record PipelineEvidence := mkPipelineEvidence {
  pe_revision : string;
  pe_fingerprint : string;
  pe_components : string;
  pe_fuel_consumed : Z;
  pe_duration_ms : Z;
  pe_spool_mode : string;
}.
#[global] Instance PipelineEvidence_eq_dec : EqDecision PipelineEvidence.
Proof. solve_decision. Defined.

Record MultipartCompletionResult := mkCompletionResult {
  cr_etag : option string;
  cr_checksum_sha256 : string;
  cr_version_id : option string;
  cr_source_bytes : Z;
  cr_size_bytes : Z;
  cr_pipeline_evidence : option PipelineEvidence;
}.
#[global] Instance MultipartCompletionResult_eq_dec : EqDecision MultipartCompletionResult.
Proof. solve_decision. Defined.

Record MultipartUpload := mkUpload {
  up_identity : MultipartIdentity;
  up_namespace_epoch : option Z;
  up_snapshot : MultipartSnapshot;
  up_lifecycle : MultipartLifecycle;
  up_staged_bytes : Z;
  up_reserved_bytes : Z;
  up_created_at_ms : Z;
  up_expires_at_ms : Z;
  up_updated_at_ms : Z;
  up_tombstone_until_ms : option Z;
  up_complete_request_fingerprint : option string;
  up_completion_lease_owner : option string;
  up_completion_lease_expires_at_ms : option Z;
  up_completion_fencing_token : Z;
  up_completion_result : option MultipartCompletionResult;
}.

Record MultipartPart := mkMultipartPart {
  mp_upload_id : string;
  mp_part_number : Z;
  mp_attempt : Z;
  mp_artifact_key : string;
  mp_etag : string;
  mp_checksum_sha256 : string;
  mp_size_bytes : Z;
  mp_created_at_ms : Z;
}.
#[global] Instance MultipartPart_eq_dec : EqDecision MultipartPart.
Proof. solve_decision. Defined.

Record CompletePart := mkCompletePart {
  cp_part_number : Z;
  cp_etag : string;
  cp_checksum_sha256 : option string;
}.

Record CompletionLease := mkLease {
  cl_fencing_token : Z;
  cl_selected_parts : list MultipartPart;
  cl_cleanup_parts : list MultipartPart;
}.

Inductive CompletionAcquire : Type :=
| Acquired (lease : CompletionLease)
| Replayed (result : MultipartCompletionResult)
| Busy.

Record CleanupAudit := mkAudit {
  au_id : Uuid;
  au_upload_id : string;
  au_kind : string;
  au_detail : Json;
  au_created_at_ms : Z;
}.

Record RetiredMultipartUpload := mkRetired {
  rt_upload_id : string;
  rt_tenant_id : string;
  rt_namespace_epoch : option Z;
}.

(** [MemoryAttempt]; the lifecycle is the static string of the source. *)
Record MemoryAttempt := mkAttempt {
  at_part : MultipartPart;
  at_reserved_bytes : Z;
  at_lifecycle : string;
}.

Record MemoryState := mkStaging {
  uploads : gmap string MultipartUpload;
  parts : gmap (string * Z) MultipartPart;
  attempts : gmap string MemoryAttempt;
  audits : list CleanupAudit;
  pending : gmap string PendingPart;
}.

(** [InMemoryMultipartRepository::with_quotas] starts from [MemoryState::default()]. *)
Definition staging_new : MemoryState := mkStaging ∅ ∅ ∅ [] ∅.

Definition set_uploads f (s : MemoryState) :=
  mkStaging (f (uploads s)) (parts s) (attempts s) (audits s) (pending s).
Definition set_parts f (s : MemoryState) :=
  mkStaging (uploads s) (f (parts s)) (attempts s) (audits s) (pending s).
Definition set_attempts f (s : MemoryState) :=
  mkStaging (uploads s) (parts s) (f (attempts s)) (audits s) (pending s).
Definition set_audits f (s : MemoryState) :=
  mkStaging (uploads s) (parts s) (attempts s) (f (audits s)) (pending s).
Definition set_pending f (s : MemoryState) :=
  mkStaging (uploads s) (parts s) (attempts s) (audits s) (f (pending s)).

(** ** Field updates of an upload *)

Definition up_bytes (staged reserved updated : Z) (u : MultipartUpload) : MultipartUpload :=
  mkUpload (up_identity u) (up_namespace_epoch u) (up_snapshot u) (up_lifecycle u)
    staged reserved (up_created_at_ms u) (up_expires_at_ms u) updated
    (up_tombstone_until_ms u) (up_complete_request_fingerprint u)
    (up_completion_lease_owner u) (up_completion_lease_expires_at_ms u)
    (up_completion_fencing_token u) (up_completion_result u).

Definition up_terminal (l : MultipartLifecycle) (tombstone updated : Z) (u : MultipartUpload) :=
  mkUpload (up_identity u) (up_namespace_epoch u) (up_snapshot u) l
    (up_staged_bytes u) (up_reserved_bytes u) (up_created_at_ms u) (up_expires_at_ms u) updated
    (Some tombstone) (up_complete_request_fingerprint u)
    (up_completion_lease_owner u) (up_completion_lease_expires_at_ms u)
    (up_completion_fencing_token u) (up_completion_result u).

Definition up_acquired (fingerprint owner : string) (lease token updated : Z) (u : MultipartUpload) :=
  mkUpload (up_identity u) (up_namespace_epoch u) (up_snapshot u) Completing
    (up_staged_bytes u) (up_reserved_bytes u) (up_created_at_ms u) (up_expires_at_ms u) updated
    (up_tombstone_until_ms u) (Some fingerprint) (Some owner) (Some lease)
    token (up_completion_result u).

Definition up_renewed (lease updated : Z) (u : MultipartUpload) :=
  mkUpload (up_identity u) (up_namespace_epoch u) (up_snapshot u) (up_lifecycle u)
    (up_staged_bytes u) (up_reserved_bytes u) (up_created_at_ms u) (up_expires_at_ms u) updated
    (up_tombstone_until_ms u) (up_complete_request_fingerprint u)
    (up_completion_lease_owner u) (Some lease)
    (up_completion_fencing_token u) (up_completion_result u).

Definition up_completed (r : MultipartCompletionResult) (tombstone updated : Z) (u : MultipartUpload) :=
  mkUpload (up_identity u) (up_namespace_epoch u) (up_snapshot u) Completed
    (up_staged_bytes u) (up_reserved_bytes u) (up_created_at_ms u) (up_expires_at_ms u) updated
    (Some tombstone) (up_complete_request_fingerprint u) None None
    (up_completion_fencing_token u) (Some r).

(** ** Helpers *)

Definition lifecycle_name (l : MultipartLifecycle) : string :=
  match l with
  | Open => "OPEN" | Completing => "COMPLETING" | Completed => "COMPLETED"
  | Aborted => "ABORTED" | Expired => "EXPIRED"
  end.

Definition lifecycle (value : string) : result StagingError MultipartLifecycle :=
  if decide (value = "OPEN") then Ok Open
  else if decide (value = "COMPLETING") then Ok Completing
  else if decide (value = "COMPLETED") then Ok Completed
  else if decide (value = "ABORTED") then Ok Aborted
  else if decide (value = "EXPIRED") then Ok Expired
  else Err (Persistence "invalid multipart lifecycle").

Definition same_identity (u : MultipartUpload) (i : MultipartIdentity) : bool :=
  bool_decide (id_tenant_id (up_identity u) = id_tenant_id i)
  && bool_decide (id_credential_policy_id (up_identity u) = id_credential_policy_id i)
  && bool_decide (id_bucket (up_identity u) = id_bucket i)
  && bool_decide (id_key (up_identity u) = id_key i)
  && bool_decide (id_upload_id (up_identity u) = id_upload_id i).

(** The loop of [validate_selected_parts] from a given [previous]. *)
Fixpoint validate_loop (current : list MultipartPart) (previous : Z)
    (requested : list CompletePart) : result StagingError (list MultipartPart) :=
  match requested with
  | [] => Ok []
  | request :: rest =>
    if (cp_part_number request =? 0) || (cp_part_number request <=? previous) then Err InvalidPart
    else
      match List.find (λ p, mp_part_number p =? cp_part_number request) current with
      | None => Err InvalidPart
      | Some part =>
        if negb (bool_decide (mp_etag part = cp_etag request))
           || match cp_checksum_sha256 request with
              | Some checksum => negb (bool_decide (checksum = mp_checksum_sha256 part))
              | None => false
              end
        then Err InvalidPart
        else selected ← validate_loop current (cp_part_number request) rest;
             mret (part :: selected)
      end
  end.

Definition validate_selected_parts (current : list MultipartPart) (requested : list CompletePart)
    : result StagingError (list MultipartPart) :=
  match requested with
  | [] => Err InvalidPart
  | _ => validate_loop current 0 requested
  end.

(** [uploads.get(&identity.upload_id).filter(|u| same_identity(u, identity))]. *)
Definition find_upload (s : MemoryState) (i : MultipartIdentity) : option MultipartUpload :=
  u ← uploads s !! id_upload_id i;
  if same_identity u i then Some u else None.

(** The entries of a [HashMap] in the iteration order given by its keys. *)
Definition in_order {V} (order : list string) (m : gmap string V) : list (string * V) :=
  omap (λ k, (λ v, (k, v)) <$> m !! k) order.

(** ** Operations *)

Definition create (upload : MultipartUpload) : SE MemoryState StagingError unit := λ s,
  let active := length (filter
    (λ c, id_tenant_id (up_identity c) = id_tenant_id (up_identity upload) ∧ up_lifecycle c = Open)
    (map_to_list (uploads s)).*2) in
  if decide (MAX_ACTIVE_UPLOADS <= active)%nat then (Err QuotaExceeded, s)
  else
    let k := id_upload_id (up_identity upload) in
    let s' := set_uploads <[k := upload]> s in
    match uploads s !! k with
    | Some _ => (Err (Persistence "duplicate upload id"), s')
    | None => (Ok tt, s')
    end.

Definition get_authorized (i : MultipartIdentity) : SE MemoryState StagingError MultipartUpload := λ s,
  (ok_or (find_upload s i) NotFound, s).

Definition replace_part (clock : Z) (i : MultipartIdentity) (part : MultipartPart)
    : SE MemoryState StagingError (option MultipartPart) := λ s,
  if (mp_part_number part =? 0) || (MAX_PARTS <? mp_part_number part) then (Err InvalidPart, s)
  else
    let previous := parts s !! (id_upload_id i, mp_part_number part) in
    match find_upload s i with
    | None => (Err NotFound, s)
    | Some upload =>
      if negb (bool_decide (up_lifecycle upload = Open)) then (Err NotOpen, s)
      else
        let next := u64_saturating_add
          (u64_saturating_sub (up_staged_bytes upload) (from_option mp_size_bytes 0 previous))
          (mp_size_bytes part) in
        if sn_max_staged_bytes (up_snapshot upload) <? next then (Err QuotaExceeded, s)
        else if match previous with
                | Some p => mp_attempt part <=? mp_attempt p
                | None => false
                end
        then (Err (Persistence "stale part replacement"), s)
        else
          (Ok previous,
           set_parts <[(id_upload_id i, mp_part_number part) := part]>
             (set_uploads <[id_upload_id i := up_bytes next (up_reserved_bytes upload) clock upload]> s))
    end.

(** The pair that [uploads.values().fold((0, 0), ..)] computes: the tenant's
    sum is a plain [+], the global one saturates. *)
Definition quota_fold (tenant : string) (us : list MultipartUpload) : Z * Z :=
  fold_left (λ '(t, g) c,
    let used := u64_saturating_add (up_staged_bytes c) (up_reserved_bytes c) in
    (u64_wrap (t + (if decide (id_tenant_id (up_identity c) = tenant) then used else 0)),
     u64_saturating_add g used)) us (0, 0).

(** [.map(|value| value.part.attempt).max().unwrap_or(0)] over the attempts of one part. *)
Definition last_attempt (s : MemoryState) (upload_id : string) (part_number : Z) : Z :=
  foldr Z.max 0 ((λ a, mp_attempt (at_part a)) <$>
    filter (λ a, mp_upload_id (at_part a) = upload_id ∧ mp_part_number (at_part a) = part_number)
      (map_to_list (attempts s)).*2).

Definition artifact_key_for (i : MultipartIdentity) (part_number : Z) (uuid : string) : string :=
  ARTIFACT_PREFIX +:+ id_tenant_id i +:+ "/" +:+ id_upload_id i +:+ "/" +:+ pretty part_number
    +:+ "/" +:+ uuid.

Definition begin_part (q : StagingQuotaLimits) (uuid : string) (i : MultipartIdentity)
    (part_number reserved now : Z) : SE MemoryState StagingError PendingPart := λ s,
  if (part_number =? 0) || (MAX_PARTS <? part_number) || (reserved =? 0) then (Err InvalidPart, s)
  else match find_upload s i with
  | None => (Err NotFound, s)
  | Some upload =>
    if negb (bool_decide (up_lifecycle upload = Open)) || (up_expires_at_ms upload <=? now)
    then (Err NotOpen, s)
    else match (used ← u64_checked_add (up_staged_bytes upload) (up_reserved_bytes upload);
                u64_checked_add used reserved) with
    | None => (Err QuotaExceeded, s)
    | Some total =>
      if sn_max_staged_bytes (up_snapshot upload) <? total then (Err QuotaExceeded, s)
      else
        let '(tenant_used, global_used) :=
          quota_fold (id_tenant_id i) (map_to_list (uploads s)).*2 in
        match u64_checked_add tenant_used reserved with
        | None => (Err QuotaExceeded, s)
        | Some t =>
          if tenant_bytes q <? t then (Err QuotaExceeded, s)
          else match u64_checked_add global_used reserved with
          | None => (Err QuotaExceeded, s)
          | Some g =>
            if global_bytes q <? g then (Err QuotaExceeded, s)
            else match u32_checked_add (last_attempt s (id_upload_id i) part_number) 1 with
            | None => (Err InvalidPart, s)
            | Some attempt =>
              let k := artifact_key_for i part_number uuid in
              let p := mkPendingPart (id_upload_id i) part_number attempt k reserved in
              let part := mkMultipartPart (id_upload_id i) part_number attempt k "" "" 0 now in
              (Ok p,
               set_pending <[k := p]>
                 (set_attempts <[k := mkAttempt part reserved "PENDING"]>
                   (set_uploads <[id_upload_id i :=
                      up_bytes (up_staged_bytes upload)
                        (u64_wrap (up_reserved_bytes upload + reserved)) now upload]> s)))
            end
          end
        end
    end
  end.

(** [if let Some(a) = attempts.get_mut(key) { a.lifecycle = "RETIRED" }]. *)
Definition retire_attempt (key : string) (m : gmap string MemoryAttempt) : gmap string MemoryAttempt :=
  alter (λ a, mkAttempt (at_part a) (at_reserved_bytes a) "RETIRED") key m.

Definition commit_part (clock : Z) (i : MultipartIdentity) (p : PendingPart) (part : MultipartPart)
    : SE MemoryState StagingError (list MultipartPart) := λ s,
  if negb (bool_decide (mp_upload_id part = pd_upload_id p))
     || negb (mp_part_number part =? pd_part_number p)
     || negb (mp_attempt part =? pd_attempt p)
     || negb (bool_decide (mp_artifact_key part = pd_artifact_key p))
     || (pd_reserved_bytes p <? mp_size_bytes part)
  then (Err InvalidPart, s)
  else match find_upload s i with
  | None => (Err NotFound, s)
  | Some upload =>
    if negb (bool_decide (up_lifecycle upload = Open)) then (Err NotOpen, s)
    else
      let previous := option_list (parts s !! (id_upload_id i, mp_part_number part)) in
      let s1 := set_attempts
        (λ m, fold_left (λ m old, retire_attempt (mp_artifact_key old) m) previous m) s in
      match attempts s1 !! pd_artifact_key p with
      | None => (Err NotFound, s1)
      | Some attempt =>
        if negb (bool_decide (at_lifecycle attempt = "PENDING"))
           || negb (at_reserved_bytes attempt =? pd_reserved_bytes p)
        then (Err NotFound, s1)
        else
          let s2 := set_parts <[(id_upload_id i, mp_part_number part) := part]>
            (set_pending (delete (pd_artifact_key p))
              (set_attempts <[pd_artifact_key p := mkAttempt part 0 "CURRENT"]> s1)) in
          match u64_checked_sub (up_reserved_bytes upload) (pd_reserved_bytes p) with
          | None => (Err (Persistence "multipart reservation missing"), s2)
          | Some reserved =>
            match u64_checked_add (up_staged_bytes upload) (mp_size_bytes part) with
            | None =>
              (Err QuotaExceeded,
               set_uploads <[id_upload_id i :=
                 up_bytes (up_staged_bytes upload) reserved (up_updated_at_ms upload) upload]> s2)
            | Some staged =>
              (Ok previous,
               set_uploads <[id_upload_id i := up_bytes staged reserved clock upload]> s2)
            end
          end
      end
  end.

Definition confirm_artifact_deleted (clock : Z) (artifact_key : string)
    : SE MemoryState StagingError unit := λ s,
  match attempts s !! artifact_key with
  | None => (Ok tt, s)
  | Some attempt =>
    let s1 := set_parts (filter (λ kp, mp_artifact_key kp.2 ≠ artifact_key))
      (set_pending (delete artifact_key) (set_attempts (delete artifact_key) s)) in
    let k := mp_upload_id (at_part attempt) in
    match uploads s !! k with
    | None => (Err (Persistence "multipart upload disappeared"), s1)
    | Some upload =>
      if decide (at_lifecycle attempt = "PENDING") then
        match u64_checked_sub (up_reserved_bytes upload) (at_reserved_bytes attempt) with
        | None => (Err (Persistence "multipart reservation underflow"), s1)
        | Some reserved =>
          (Ok tt, set_uploads <[k := up_bytes (up_staged_bytes upload) reserved clock upload]> s1)
        end
      else
        match u64_checked_sub (up_staged_bytes upload) (mp_size_bytes (at_part attempt)) with
        | None => (Err (Persistence "multipart staged bytes underflow"), s1)
        | Some staged =>
          (Ok tt, set_uploads <[k := up_bytes staged (up_reserved_bytes upload) clock upload]> s1)
        end
    end
  end.

Definition discard_pending (clock : Z) (_identity : MultipartIdentity) (p : PendingPart)
    : SE MemoryState StagingError unit :=
  confirm_artifact_deleted clock (pd_artifact_key p).

(** The predicate inside [cleanup_candidates]. *)
Definition cleanup_candidate (s : MemoryState) (now : Z) (entry : string * MemoryAttempt)
    : option CleanupCandidate :=
  let '(key, attempt) := entry in
  upload ← uploads s !! mp_upload_id (at_part attempt);
  let old_pending := bool_decide (at_lifecycle attempt = "PENDING")
    && (mp_created_at_ms (at_part attempt) <=? i64_wrap (now - RECONCILIATION_GRACE_ms)) in
  if negb (bool_decide (up_lifecycle upload = Open))
     || bool_decide (at_lifecycle attempt = "RETIRED") || old_pending
  then Some (mkCandidate (mp_upload_id (at_part attempt)) key) else None.

Definition cleanup_candidates (order : list string) (now : Z) (limit : nat)
    : SE MemoryState StagingError (list CleanupCandidate) := λ s,
  (Ok (take limit (omap (cleanup_candidate s now) (in_order order (attempts s)))), s).

Definition known_artifact_keys : SE MemoryState StagingError (gmap string Z) := λ s,
  (Ok ((λ a, mp_created_at_ms (at_part a)) <$> attempts s), s).

(** [sort_by_key(|part| part.part_number)]. *)
Definition part_le (a b : MultipartPart) : Prop := mp_part_number a <= mp_part_number b.
#[global] Instance part_le_dec : RelDecision part_le.
Proof. intros a b. unfold part_le. apply _. Defined.

Definition upload_parts (s : MemoryState) (upload_id : string) : list MultipartPart :=
  filter (λ p, mp_upload_id p = upload_id) (map_to_list (parts s)).*2.

Definition list_parts (i : MultipartIdentity) (marker : Z) (limit : nat)
    : SE MemoryState StagingError (list MultipartPart * bool) := λ s,
  match get_authorized i s with
  | (Err e, s) => (Err e, s)
  | (Ok _, s) =>
    let found := merge_sort part_le
      (filter (λ p, mp_upload_id p = id_upload_id i ∧ marker < mp_part_number p)
         (map_to_list (parts s)).*2) in
    (Ok (take limit found, bool_decide (limit < length found)%nat), s)
  end.

Definition acquire_completion (i : MultipartIdentity) (fingerprint : string)
    (requested : list CompletePart) (owner : string) (lease_expires_at_ms now : Z)
    : SE MemoryState StagingError CompletionAcquire := λ s,
  match find_upload s i with
  | None => (Err NotFound, s)
  | Some upload =>
    let same_request := bool_decide (up_complete_request_fingerprint upload = Some fingerprint) in
    match up_lifecycle upload with
    | Completed =>
      match up_completion_result upload with
      | None => (Err (Persistence "completed upload is missing its result"), s)
      | Some r => (if same_request then Ok (Replayed r) else Err CompletionConflict, s)
      end
    | Aborted | Expired => (Err NotOpen, s)
    | (Open | Completing) as l =>
      if bool_decide (l = Completing) && negb same_request then (Err CompletionConflict, s)
      else if bool_decide (l = Completing)
           && match up_completion_lease_expires_at_ms upload with
              | Some expires => now <? expires
              | None => false
              end
      then (Ok Busy, s)
      else if bool_decide (l = Open) && (up_expires_at_ms upload <=? now) then (Err NotOpen, s)
      else
        let cleanup_parts := merge_sort part_le (upload_parts s (id_upload_id i)) in
        match validate_selected_parts cleanup_parts requested with
        | Err e => (Err e, s)
        | Ok selected_parts =>
          match u64_checked_add (up_completion_fencing_token upload) 1 with
          | None => (Err (Persistence "completion fencing token exhausted"), s)
          | Some token =>
            (Ok (Acquired (mkLease token selected_parts cleanup_parts)),
             set_uploads <[id_upload_id i :=
               up_acquired fingerprint owner lease_expires_at_ms token now upload]> s)
          end
        end
    end
  end.

Definition renew_completion (clock : Z) (i : MultipartIdentity) (fencing_token lease_expires_at_ms : Z)
    : SE MemoryState StagingError unit := λ s,
  match find_upload s i with
  | None => (Err NotFound, s)
  | Some upload =>
    if negb (bool_decide (up_lifecycle upload = Completing))
       || negb (up_completion_fencing_token upload =? fencing_token)
    then (Err Fenced, s)
    else (Ok tt, set_uploads <[id_upload_id i := up_renewed lease_expires_at_ms clock upload]> s)
  end.

Definition check_completion_lease (i : MultipartIdentity) (fencing_token now : Z)
    : SE MemoryState StagingError unit :=
  upload ← get_authorized i;
  if bool_decide (up_lifecycle upload = Completing)
     && (up_completion_fencing_token upload =? fencing_token)
     && match up_completion_lease_expires_at_ms upload with
        | Some expires => now <? expires
        | None => false
        end
  then mret tt else se_throw Fenced.

Definition complete_completion (i : MultipartIdentity) (fencing_token : Z)
    (r : MultipartCompletionResult) (now : Z) : SE MemoryState StagingError unit := λ s,
  match find_upload s i with
  | None => (Err NotFound, s)
  | Some upload =>
    if negb (bool_decide (up_lifecycle upload = Completing))
       || negb (up_completion_fencing_token upload =? fencing_token)
       || match up_completion_lease_expires_at_ms upload with
          | Some expires => expires <=? now
          | None => true
          end
    then (Err Fenced, s)
    else (Ok tt, set_uploads <[id_upload_id i :=
            up_completed r (i64_wrap (now + DEFAULT_EXPIRY_ms)) now upload]> s)
  end.

(** [parts.extract_if(|(id, _), _| ids.contains(id))]: what is taken out, and what stays. *)
Definition extract_parts (ids : list string) (m : gmap (string * Z) MultipartPart)
    : list MultipartPart * gmap (string * Z) MultipartPart :=
  ((map_to_list (filter (λ kp, kp.1.1 ∈ ids) m)).*2, filter (λ kp, kp.1.1 ∉ ids) m).

Definition abort (i : MultipartIdentity) (now : Z)
    : SE MemoryState AbortMutationError (list MultipartPart) := λ s,
  match find_upload s i with
  | None => (Err (PreMutation NotFound), s)
  | Some upload =>
    if decide (up_lifecycle upload = Open) then
      let '(removed, rest) := extract_parts [id_upload_id i] (parts s) in
      (Ok removed,
       set_parts (λ _, rest)
         (set_uploads <[id_upload_id i :=
            up_terminal Aborted (i64_wrap (now + DEFAULT_EXPIRY_ms)) now upload]> s))
    else if decide (up_lifecycle upload = Aborted) then (Ok [], s)
    else (Err (PreMutation NotOpen), s)
  end.

(** [attempts.values().any(..) || pending.values().any(..)] for one upload. *)
Definition artifacts_remain (s : MemoryState) (upload_id : string) : bool :=
  existsb (λ a, bool_decide (mp_upload_id (at_part a) = upload_id)) (map_to_list (attempts s)).*2
  || existsb (λ p, bool_decide (pd_upload_id p = upload_id)) (map_to_list (pending s)).*2.

Definition delete_terminal_upload (i : MultipartIdentity) : SE MemoryState StagingError unit := λ s,
  match find_upload s i with
  | None => (Err NotFound, s)
  | Some upload =>
    if negb (bool_decide (up_lifecycle upload = Aborted) || bool_decide (up_lifecycle upload = Expired))
       || artifacts_remain s (id_upload_id i)
    then (Err (Persistence "multipart artifacts remain after cleanup"), s)
    else (Ok tt, set_uploads (delete (id_upload_id i)) s)
  end.

(** The filter of [retire_terminal_uploads]. *)
Definition retirable (s : MemoryState) (now : Z) (u : MultipartUpload) : bool :=
  (bool_decide (up_lifecycle u = Completed) || bool_decide (up_lifecycle u = Aborted)
   || bool_decide (up_lifecycle u = Expired))
  && match up_tombstone_until_ms u with Some until => until <=? now | None => false end
  && negb (artifacts_remain s (id_upload_id (up_identity u))).

(** [filter_map(|id| uploads.remove(&id))]. *)
Fixpoint remove_uploads (ids : list string) (m : gmap string MultipartUpload)
    : list MultipartUpload * gmap string MultipartUpload :=
  match ids with
  | [] => ([], m)
  | k :: ids =>
    match m !! k with
    | None => remove_uploads ids m
    | Some u => let '(removed, m') := remove_uploads ids (delete k m) in (u :: removed, m')
    end
  end.

Definition retire_terminal_uploads (order : list string) (now : Z) (limit : nat)
    : SE MemoryState StagingError (list RetiredMultipartUpload) := λ s,
  let ids := (λ u, id_upload_id (up_identity u)) <$>
    take limit (filter (λ u, retirable s now u = true) (in_order order (uploads s)).*2) in
  let '(removed, m) := remove_uploads ids (uploads s) in
  (Ok ((λ u, mkRetired (id_upload_id (up_identity u)) (id_tenant_id (up_identity u))
          (up_namespace_epoch u)) <$> removed),
   set_uploads (λ _, m) s).

Definition reap_expired (order : list string) (now : Z) (limit : nat)
    : SE MemoryState StagingError (list MultipartPart) := λ s,
  let expired := take limit (filter
    (λ ku, up_lifecycle ku.2 = Open ∧ up_expires_at_ms ku.2 <= now) (in_order order (uploads s))) in
  let m := foldr (λ ku, <[ku.1 := up_terminal Expired (i64_wrap (now + DEFAULT_EXPIRY_ms)) now ku.2]>)
    (uploads s) expired in
  let '(removed, rest) :=
    extract_parts ((λ ku, id_upload_id (up_identity ku.2)) <$> expired) (parts s) in
  (Ok removed, set_parts (λ _, rest) (set_uploads (λ _, m) s)).

Definition audit (a : CleanupAudit) : SE MemoryState StagingError unit := λ s,
  (Ok tt, set_audits (λ l, l ++ [a]) s).

(** ** Callers in [server.rs]

    [StagingArtifactStore] is the S3 client behind a trait: a parameter.  A
    deletion answers whether it succeeded, a listing every object below the
    prefix with its modification time. *)

Record StagedArtifact := mkStaged { sa_key : string; sa_modified_at_ms : Z }.

Class ArtifactStore (W : Type) := {
  store_delete : string → W → bool * W;
  store_list : string → W → result StagingError (list StagedArtifact) * W;
}.

Section server.
  Context {W : Type} `{ArtifactStore W}.

(** [renew_and_fence_completion]: [now] and [now'] are its two clock readings,
    [clock] the one inside the renewal. *)
Definition renew_and_fence_completion (now clock now' : Z) (i : MultipartIdentity)
    (lease : CompletionLease) : SE MemoryState StagingError unit :=
  renew_completion clock i (cl_fencing_token lease) (i64_wrap (now + COMPLETION_LEASE_ms));;
  check_completion_lease i (cl_fencing_token lease) now'.

(** The loop over the candidates: the repository forgets an artifact only after its deletion. *)
Fixpoint delete_candidates (clock : Z) (id : Uuid) (cs : list CleanupCandidate)
    : SE (MemoryState * W) StagingError unit := λ '(s, w),
  match cs with
  | [] => (Ok tt, (s, w))
  | c :: cs =>
    match store_delete (cc_artifact_key c) w with
    | (false, w) => delete_candidates clock id cs (s, w)
    | (true, w) =>
      match confirm_artifact_deleted clock (cc_artifact_key c) s with
      | (Err e, s) => (Err e, (s, w))
      | (Ok _, s) =>
        match audit (mkAudit id (cc_upload_id c) "reconcile_attempt"
                (JObj [("artifact_key", JStr (cc_artifact_key c))]) clock) s with
        | (Err e, s) => (Err e, (s, w))
        | (Ok _, s) => delete_candidates clock id cs (s, w)
        end
      end
    end
  end.

(** The loop over the listed objects: unknown ones past the grace period are deleted. *)
Fixpoint delete_unknown (known : gmap string Z) (cutoff : Z) (l : list StagedArtifact) (w : W) : W :=
  match l with
  | [] => w
  | a :: l =>
    delete_unknown known cutoff l
      (if bool_decide (known !! sa_key a = None) && (sa_modified_at_ms a <=? cutoff)
       then (store_delete (sa_key a) w).2 else w)
  end.

(** [reconcile_staged_artifacts]; one clock reading stands for all, one UUID for every audit id. *)
Definition reconcile_staged_artifacts (order : list string) (now : Z) (id : Uuid)
    : SE (MemoryState * W) StagingError unit := λ '(s, w),
  match cleanup_candidates order now 256 s with
  | (Err e, s) => (Err e, (s, w))
  | (Ok candidates, s) =>
    match delete_candidates now id candidates (s, w) with
    | (Err e, sw) => (Err e, sw)
    | (Ok _, (s, w)) =>
      match known_artifact_keys s with
      | (Err e, s) => (Err e, (s, w))
      | (Ok known, s) =>
        let cutoff := i64_wrap (now - RECONCILIATION_GRACE_ms) in
        match store_list ARTIFACT_PREFIX w with
        | (Err e, w) => (Err e, (s, w))
        | (Ok listed, w) => (Ok tt, (s, delete_unknown known cutoff listed w))
        end
      end
    end
  end.
End server.
