(* ===== verification/StagingQuota.v ===== *)
(** * Multipart staging: the calls of the gateway and the quota invariant

    [Call] lists the repository calls the gateway makes, [sys_step] runs one of
    them, and [reach] is what any interleaving of admissible calls can reach.
    The invariant says that the byte counters of an upload are exactly the sums
    over its attempts, and that they respect the three quotas. *)

From S2P Require Import Prelude Operation Staging.

#[local] Open Scope Z_scope.
Set Default Goal Selector "!".

(** ** The calls of the gateway *)

Inductive Call : Type :=
| CCreate (upload : MultipartUpload)
| CGet (i : MultipartIdentity)
| CBegin (uuid : string) (i : MultipartIdentity) (part_number reserved now : Z)
| CCommit (clock : Z) (i : MultipartIdentity) (p : PendingPart) (part : MultipartPart)
| CDiscard (clock : Z) (i : MultipartIdentity) (p : PendingPart)
| CConfirm (clock : Z) (artifact_key : string)
| CCandidates (order : list string) (now : Z) (limit : nat)
| CKnown
| CList (i : MultipartIdentity) (marker : Z) (limit : nat)
| CAcquire (i : MultipartIdentity) (fingerprint : string) (requested : list CompletePart)
    (owner : string) (lease_expires_at_ms now : Z)
| CRenew (clock : Z) (i : MultipartIdentity) (fencing_token lease_expires_at_ms : Z)
| CCheck (i : MultipartIdentity) (fencing_token now : Z)
| CComplete (i : MultipartIdentity) (fencing_token : Z) (r : MultipartCompletionResult) (now : Z)
| CAbort (i : MultipartIdentity) (now : Z)
| CDeleteTerminal (i : MultipartIdentity)
| CRetire (order : list string) (now : Z) (limit : nat)
| CReap (order : list string) (now : Z) (limit : nat)
| CAudit (a : CleanupAudit).

(** The repository after a call, whatever the call returned. *)
Definition call_state (q : StagingQuotaLimits) (c : Call) (s : MemoryState) : MemoryState :=
  match c with
  | CCreate u => (create u s).2
  | CGet i => (get_authorized i s).2
  | CBegin uuid i n r now => (begin_part q uuid i n r now s).2
  | CCommit t i p part => (commit_part t i p part s).2
  | CDiscard t i p => (discard_pending t i p s).2
  | CConfirm t k => (confirm_artifact_deleted t k s).2
  | CCandidates o now l => (cleanup_candidates o now l s).2
  | CKnown => (known_artifact_keys s).2
  | CList i m l => (list_parts i m l s).2
  | CAcquire i fp req o e now => (acquire_completion i fp req o e now s).2
  | CRenew t i tok e => (renew_completion t i tok e s).2
  | CCheck i tok now => (check_completion_lease i tok now s).2
  | CComplete i tok r now => (complete_completion i tok r now s).2
  | CAbort i now => (abort i now s).2
  | CDeleteTerminal i => (delete_terminal_upload i s).2
  | CRetire o now l => (retire_terminal_uploads o now l s).2
  | CReap o now l => (reap_expired o now l s).2
  | CAudit a => (audit a s).2
  end.

(** The repository, the pending parts it has handed out and the upload ids used so far. *)
Record Sys := mkSys {
  repo : MemoryState;
  issued : list (MultipartIdentity * PendingPart);
  used_ids : gset string;
}.

Definition sys_new : Sys := mkSys staging_new [] ∅.

Definition sys_step (q : StagingQuotaLimits) (c : Call) (y : Sys) : Sys :=
  mkSys (call_state q c (repo y))
    (match c with
     | CBegin uuid i n r now =>
       match (begin_part q uuid i n r now (repo y)).1 with
       | Ok p => (i, p) :: issued y
       | Err _ => issued y
       end
     | _ => issued y
     end)
    (match c with
     | CCreate u => {[id_upload_id (up_identity u)]} ∪ used_ids y
     | _ => used_ids y
     end).

(** What the gateway guarantees about its arguments.  A new upload has the
    fields of the one constructor call in [server.rs] and an id that was not
    used before; the artifact key of a new attempt carries a new UUID; a part is
    committed with a pending part that [begin_part] returned for the same
    identity; and a byte count is a [u64]. *)
Definition admissible (y : Sys) (c : Call) : Prop :=
  match c with
  | CCreate u =>
    (id_upload_id (up_identity u) ∉ used_ids y)
    ∧ up_lifecycle u = Open ∧ up_staged_bytes u = 0 ∧ up_reserved_bytes u = 0
    ∧ up_completion_fencing_token u = 0 ∧ up_completion_result u = None
    ∧ is_u64 (sn_max_staged_bytes (up_snapshot u))
  | CBegin uuid i n r now =>
    is_u64 r ∧ artifact_key_for i n uuid ∉ ((λ ip, pd_artifact_key ip.2) <$> issued y)
  | CCommit t i p part => (i, p) ∈ issued y ∧ is_u64 (mp_size_bytes part)
  | _ => True
  end.

Inductive reach (q : StagingQuotaLimits) : Sys → Prop :=
| reach_new : reach q sys_new
| reach_step y c : reach q y → admissible y c → reach q (sys_step q c y).

(** ** The invariant *)

Definition belongs (k : string) (a : MemoryAttempt) : bool :=
  bool_decide (mp_upload_id (at_part a) = k).
Definition is_pending (a : MemoryAttempt) : bool := bool_decide (at_lifecycle a = "PENDING").

(** The bytes an attempt reserves, and the bytes it stages, for upload [k]. *)
Definition reserves (k : string) (a : MemoryAttempt) : Z :=
  if belongs k a && is_pending a then at_reserved_bytes a else 0.
Definition stages (k : string) (a : MemoryAttempt) : Z :=
  if belongs k a && negb (is_pending a) then mp_size_bytes (at_part a) else 0.

Definition used (u : MultipartUpload) : Z := up_staged_bytes u + up_reserved_bytes u.
Definition tenant_used (t : string) (u : MultipartUpload) : Z :=
  if decide (id_tenant_id (up_identity u) = t) then used u else 0.

Record Accounts (s : MemoryState) : Prop := {
  acc_keyed k u : uploads s !! k = Some u → id_upload_id (up_identity u) = k;
  acc_attempt k a : attempts s !! k = Some a →
    0 <= at_reserved_bytes a ∧ 0 <= mp_size_bytes (at_part a)
    ∧ is_Some (uploads s !! mp_upload_id (at_part a));
  acc_part k p : parts s !! k = Some p →
    k = (mp_upload_id p, mp_part_number p)
    ∧ ∃ a, attempts s !! mp_artifact_key p = Some a ∧ at_part a = p ∧ is_pending a = false;
  acc_reserved k u : uploads s !! k = Some u → up_reserved_bytes u = sumZ (reserves k) (attempts s);
  acc_staged k u : uploads s !! k = Some u → up_staged_bytes u = sumZ (stages k) (attempts s);
}.

Record Bounded (q : StagingQuotaLimits) (s : MemoryState) : Prop := {
  bnd_upload k u : uploads s !! k = Some u → used u <= sn_max_staged_bytes (up_snapshot u) <= u64_max;
  bnd_tenant t : sumZ (tenant_used t) (uploads s) <= tenant_bytes q;
  bnd_global : sumZ used (uploads s) <= global_bytes q;
}.

Record Issued (y : Sys) : Prop := {
  iss_used k : is_Some (uploads (repo y) !! k) → k ∈ used_ids y;
  iss_upload i p : (i, p) ∈ issued y → pd_upload_id p = id_upload_id i;
  iss_attempt i p a : (i, p) ∈ issued y → attempts (repo y) !! pd_artifact_key p = Some a →
    mp_upload_id (at_part a) = pd_upload_id p ∧ mp_part_number (at_part a) = pd_part_number p;
  iss_key k : is_Some (attempts (repo y) !! k) → k ∈ ((λ ip, pd_artifact_key ip.2) <$> issued y);
}.

Definition quotas_ok (q : StagingQuotaLimits) : Prop :=
  0 <= tenant_bytes q <= u64_max ∧ 0 <= global_bytes q <= u64_max.

Record Inv (q : StagingQuotaLimits) (y : Sys) : Prop := {
  inv_accounts : Accounts (repo y);
  inv_bounded : Bounded q (repo y);
  inv_issued : Issued y;
}.

(** ** Updates that keep the accounts *)

(** The fields the invariant reads are the same. *)
Definition same_account (u u' : MultipartUpload) : Prop :=
  up_identity u' = up_identity u ∧ up_snapshot u' = up_snapshot u
  ∧ up_staged_bytes u' = up_staged_bytes u ∧ up_reserved_bytes u' = up_reserved_bytes u.

(** [s'] has no upload and no attempt that [s] has not. *)
Definition shrinks (s s' : MemoryState) : Prop :=
  (∀ k, is_Some (uploads s' !! k) → is_Some (uploads s !! k))
  ∧ (∀ k a', attempts s' !! k = Some a' → ∃ a, attempts s !! k = Some a
       ∧ mp_upload_id (at_part a') = mp_upload_id (at_part a)
       ∧ mp_part_number (at_part a') = mp_part_number (at_part a)).

Lemma shrinks_refl s : shrinks s s.
Proof. split; [done|]. intros k a Ha. by exists a. Qed.

Lemma issued_shrinks y s' :
  Issued y → shrinks (repo y) s' → Issued (mkSys s' (issued y) (used_ids y)).
Proof.
  intros [Hu Hi Ha Hk] [Sup Satt]. constructor; cbn.
  - intros k Hsome. by apply Hu, Sup.
  - done.
  - intros i p a' Hip Ha'. destruct (Satt _ _ Ha') as (a & Hla & -> & ->). by eapply Ha.
  - intros k [a' Ha']. destruct (Satt _ _ Ha') as (a & Hla & _). apply Hk. by eexists.
Qed.

Lemma find_upload_Some s i u :
  find_upload s i = Some u → uploads s !! id_upload_id i = Some u ∧ up_identity u = i.
Proof.
  unfold find_upload. destruct (uploads s !! id_upload_id i) as [u0|]; cbn; [|done].
  destruct (same_identity u0 i) eqn:E; [|done]. intros [= ->]. split; [done|].
  unfold same_identity in E. rewrite !andb_true_iff, !bool_decide_eq_true in E.
  destruct (up_identity u), i; cbn in *. destruct_and!. by subst.
Qed.

Section updates.
  Context (q : StagingQuotaLimits) (s : MemoryState).
  Context (HA : Accounts s) (HB : Bounded q s).

Lemma used_nonneg k u : uploads s !! k = Some u → 0 <= up_staged_bytes u ∧ 0 <= up_reserved_bytes u.
Proof.
  intros Hu. rewrite (acc_reserved s HA k u Hu), (acc_staged s HA k u Hu).
  split; apply sumZ_nonneg; intros j a Ha; destruct (acc_attempt s HA j a Ha) as (?&?&?);
    unfold stages, reserves; by case_match.
Qed.

Lemma accounts_meta k u u' :
  uploads s !! k = Some u → same_account u u' → Accounts (set_uploads <[k := u']> s).
Proof.
  intros Hu (Hid & _ & Hst & Hre). constructor; cbn.
  - intros j v [[<- <-]|[? Hj]]%lookup_insert_Some; [rewrite Hid|]; by eapply acc_keyed.
  - intros j a Ha. destruct (acc_attempt s HA j a Ha) as (?&?&?). repeat split; [done..|].
    apply lookup_insert_is_Some'. by right.
  - apply HA.
  - intros j v [[<- <-]|[? Hj]]%lookup_insert_Some; [rewrite Hre|]; by apply acc_reserved.
  - intros j v [[<- <-]|[? Hj]]%lookup_insert_Some; [rewrite Hst|]; by apply acc_staged.
Qed.

(** Replacing an upload by one that uses no more keeps every bound. *)
Lemma bounded_less k u u' :
  uploads s !! k = Some u → up_identity u' = up_identity u → up_snapshot u' = up_snapshot u →
  used u' <= used u → Bounded q (set_uploads <[k := u']> s).
Proof.
  intros Hu Hid Hsn Hle. constructor; cbn.
  - intros j v [[<- <-]|[? Hj]]%lookup_insert_Some; [rewrite Hsn|by eapply bnd_upload].
    pose proof (bnd_upload q s HB k u Hu). lia.
  - intros t. rewrite (sumZ_update _ _ k u) by done. pose proof (bnd_tenant q s HB t).
    unfold tenant_used in *. rewrite Hid. case_decide; lia.
  - rewrite (sumZ_update _ _ k u) by done. pose proof (bnd_global q s HB). lia.
Qed.

Lemma bounded_meta k u u' :
  uploads s !! k = Some u → same_account u u' → Bounded q (set_uploads <[k := u']> s).
Proof.
  intros Hu (Hid & Hsn & Hst & Hre). apply (bounded_less k u u' Hu Hid Hsn). unfold used. lia.
Qed.

(** Removing parts. *)
Lemma accounts_parts f : (∀ k p, f (parts s) !! k = Some p → parts s !! k = Some p) →
  Accounts (set_parts f s).
Proof.
  intros Hf. destruct HA as [H1 H2 H3 H4 H5]. constructor; cbn; [done..| |done|done].
  intros k p Hp. by apply H3, Hf.
Qed.

Lemma bounded_parts f : Bounded q (set_parts f s).
Proof. destruct HB. by constructor. Qed.

(** Removing an upload none of whose attempts remain. *)
Lemma accounts_delete k :
  (∀ j a, attempts s !! j = Some a → mp_upload_id (at_part a) ≠ k) →
  Accounts (set_uploads (delete k) s).
Proof.
  intros Hno. destruct HA as [H1 H2 H3 H4 H5].
  constructor; cbn; [| |done| |].
  - intros j u [? Hj]%lookup_delete_Some. by apply H1.
  - intros j a Ha. destruct (H2 j a Ha) as (?&?&?). repeat split; [done..|].
    rewrite lookup_delete_ne; [done|]. by apply not_eq_sym, (Hno j).
  - intros j u [? Hj]%lookup_delete_Some. by apply H4.
  - intros j u [? Hj]%lookup_delete_Some. by apply H5.
Qed.

Lemma bounded_delete k : Bounded q (set_uploads (delete k) s).
Proof.
  destruct (uploads s !! k) as [u|] eqn:Hk.
  - destruct (used_nonneg k u Hk). constructor; cbn.
    + intros j v [? Hj]%lookup_delete_Some. by eapply bnd_upload.
    + intros t. rewrite (sumZ_delete _ _ k u) by done. pose proof (bnd_tenant q s HB t).
      unfold tenant_used at 2. unfold used. case_decide; lia.
    + rewrite (sumZ_delete _ _ k u) by done. pose proof (bnd_global q s HB). unfold used at 2. lia.
  - unfold set_uploads. rewrite delete_id by done. by destruct s.
Qed.
End updates.

(** ** The quota fold computes the sums *)

Lemma quota_fold_sums tenant us t g :
  (∀ u, u ∈ us → 0 <= up_staged_bytes u ∧ 0 <= up_reserved_bytes u) →
  0 <= t <= g → g + foldr (λ u acc, used u + acc) 0 us <= u64_max →
  fold_left (λ '(t, g) c,
    let used := u64_saturating_add (up_staged_bytes c) (up_reserved_bytes c) in
    (u64_wrap (t + (if decide (id_tenant_id (up_identity c) = tenant) then used else 0)),
     u64_saturating_add g used)) us (t, g)
  = (t + foldr (λ u acc, tenant_used tenant u + acc) 0 us,
     g + foldr (λ u acc, used u + acc) 0 us).
Proof.
  revert t g. induction us as [|u us IH]; intros t g Hnn Htg Hmax; cbn [foldr fold_left] in *.
  { f_equal; lia. }
  destruct (Hnn u (list_elem_of_here _ _)) as [H1 H2].
  assert (0 <= foldr (λ u acc, used u + acc) 0 us) as Hrest.
  { clear -Hnn. assert (∀ v, v ∈ us → 0 <= used v) as Hv.
    { intros v Hv. destruct (Hnn v) as [??]; [by apply list_elem_of_further|]. unfold used. lia. }
    clear Hnn. induction us as [|v us IH]; cbn; [done|].
    assert (0 <= used v) by (apply Hv, list_elem_of_here).
    assert (0 <= foldr (λ u acc, used u + acc) 0 us); [|lia].
    apply IH. intros w Hw. apply Hv. by apply list_elem_of_further. }
  assert (u64_saturating_add (up_staged_bytes u) (up_reserved_bytes u) = used u) as ->.
  { unfold u64_saturating_add, used in *. lia. }
  assert (0 <= tenant_used tenant u <= used u) as Htu.
  { unfold tenant_used, used in *. case_decide; lia. }
  assert (u64_wrap (t + (if decide (id_tenant_id (up_identity u) = tenant) then used u else 0))
    = t + tenant_used tenant u) as ->.
  { unfold u64_wrap, u64_max, tenant_used in *. apply Z.mod_small. case_decide; lia. }
  assert (u64_saturating_add g (used u) = g + used u) as ->.
  { unfold u64_saturating_add. lia. }
  rewrite IH; [f_equal; lia | | lia | lia].
  intros v Hv. apply Hnn. by apply list_elem_of_further.
Qed.

Lemma quota_fold_spec q s tenant :
  Accounts s → Bounded q s → quotas_ok q →
  quota_fold tenant (map_to_list (uploads s)).*2
  = (sumZ (tenant_used tenant) (uploads s), sumZ used (uploads s)).
Proof.
  intros HA HB Hq. unfold quota_fold. rewrite quota_fold_sums; [by rewrite !sumZ_list | | lia |].
  - intros u ([k u'] & -> & Hin)%list_elem_of_fmap. apply elem_of_map_to_list in Hin.
    by eapply used_nonneg.
  - rewrite <- sumZ_list. pose proof (bnd_global q s HB). destruct Hq as [_ ?]. lia.
Qed.

(** ** Each call keeps the invariant *)

Lemma create_keeps q y u :
  Inv q y → admissible y (CCreate u) → quotas_ok q → Inv q (sys_step q (CCreate u) y).
Proof.
  intros [HA HB HI] (Hfresh & Hop & Hst & Hre & _ & _ & Hmax) Hq.
  unfold sys_step, call_state, create. case_decide.
  { constructor; [done..|]. destruct HI as [Hu ? ? ?]. constructor; cbn; [|done..].
    intros k Hk. set_solver. }
  set (k := id_upload_id (up_identity u)) in *.
  assert (uploads (repo y) !! k = None) as Hnone.
  { apply eq_None_not_Some. intros Hs. by apply Hfresh, (iss_used y HI). }
  rewrite Hnone. cbn [snd].
  assert (∀ j a, attempts (repo y) !! j = Some a → mp_upload_id (at_part a) ≠ k) as Hno.
  { intros j a Ha. destruct (acc_attempt _ HA j a Ha) as (_ & _ & [v Hv]). congruence. }
  constructor; cbn.
  - constructor; cbn.
    + intros j v [[<- <-]|[? Hj]]%lookup_insert_Some; [done|]. by apply (acc_keyed _ HA).
    + intros j a Ha. destruct (acc_attempt _ HA j a Ha) as (?&?&?). repeat split; [done..|].
      apply lookup_insert_is_Some'. by right.
    + apply HA.
    + intros j v [[<- <-]|[? Hj]]%lookup_insert_Some; [|by apply (acc_reserved _ HA)].
      rewrite Hre. symmetry. apply sumZ_zero. intros j a Ha. unfold reserves, belongs.
      rewrite bool_decide_false; [done|]. by eapply Hno.
    + intros j v [[<- <-]|[? Hj]]%lookup_insert_Some; [|by apply (acc_staged _ HA)].
      rewrite Hst. symmetry. apply sumZ_zero. intros j a Ha. unfold stages, belongs.
      rewrite bool_decide_false; [done|]. by eapply Hno.
  - assert (used u = 0) as Hz by (unfold used; lia). constructor; cbn.
    + intros j v [[<- <-]|[? Hj]]%lookup_insert_Some; [|by eapply (bnd_upload q)].
      rewrite Hz. destruct Hmax. lia.
    + intros t. rewrite sumZ_insert by done. pose proof (bnd_tenant q _ HB t).
      unfold tenant_used at 1. rewrite Hz. case_decide; lia.
    + rewrite sumZ_insert by done. pose proof (bnd_global q _ HB). lia.
  - destruct HI as [Hu ? ? ?]. constructor; cbn; [|done..].
    intros j [<-|Hj]%lookup_insert_is_Some'; [set_solver|].
    apply Hu in Hj. set_solver.
Qed.

Definition begun (i : MultipartIdentity) (n r now : Z) (p : PendingPart)
    (u : MultipartUpload) (s : MemoryState) : MemoryState :=
  set_pending <[pd_artifact_key p := p]>
    (set_attempts <[pd_artifact_key p := mkAttempt (mkMultipartPart (id_upload_id i) n
         (pd_attempt p) (pd_artifact_key p) "" "" 0 now) r "PENDING"]>
      (set_uploads <[id_upload_id i := up_bytes (up_staged_bytes u) (up_reserved_bytes u + r) now u]> s)).

(** What a successful [begin_part] has checked, and the state it leaves. *)
Lemma begin_part_Ok q s uuid i n r now p s' :
  Accounts s → Bounded q s → quotas_ok q → is_u64 r →
  begin_part q uuid i n r now s = (Ok p, s') →
  ∃ u, find_upload s i = Some u ∧ up_lifecycle u = Open ∧ now < up_expires_at_ms u
    ∧ used u + r <= sn_max_staged_bytes (up_snapshot u)
    ∧ sumZ (tenant_used (id_tenant_id i)) (uploads s) + r <= tenant_bytes q
    ∧ sumZ used (uploads s) + r <= global_bytes q
    ∧ p = mkPendingPart (id_upload_id i) n (last_attempt s (id_upload_id i) n + 1)
            (artifact_key_for i n uuid) r
    ∧ s' = begun i n r now p u s.
Proof.
  intros HA HB Hq [Hr _] Hb. unfold begin_part in Hb. rewrite (quota_fold_spec q) in Hb by done.
  case_match; [done|]. destruct (find_upload s i) as [u|] eqn:Hf; [|done].
  destruct (negb _ || _) eqn:E0; [done|].
  destruct (u64_checked_add (up_staged_bytes u) (up_reserved_bytes u)) as [us|] eqn:E1; [|done].
  cbn in Hb. destruct (u64_checked_add us r) as [total|] eqn:E2; [|done].
  destruct (sn_max_staged_bytes (up_snapshot u) <? total) eqn:E3; [done|].
  destruct (u64_checked_add (sumZ (tenant_used (id_tenant_id i)) (uploads s)) r) as [t|] eqn:E4; [|done].
  destruct (tenant_bytes q <? t) eqn:E5; [done|].
  destruct (u64_checked_add (sumZ used (uploads s)) r) as [g|] eqn:E6; [|done].
  destruct (global_bytes q <? g) eqn:E7; [done|].
  destruct (u32_checked_add _ 1) as [att|] eqn:E8; [|done].
  unfold u64_checked_add, u32_checked_add in *. repeat case_match; try done. simplify_eq.
  apply orb_false_iff in E0 as [E0 E0']. apply negb_false_iff, bool_decide_eq_true in E0.
  apply Z.leb_gt in E0'. destruct (find_upload_Some s i u Hf) as [Hu _].
  destruct (used_nonneg s HA _ u Hu). exists u. unfold used in *.
  repeat match goal with
  | H : (_ <=? _) = true |- _ => apply Z.leb_le in H
  | H : (_ <? _) = false |- _ => apply Z.ltb_ge in H
  end.
  split_and!; [done | done | done | lia | lia | lia | done |].
  unfold begun. cbn. do 4 f_equal. unfold u64_wrap. rewrite Z.mod_small; [done|].
  unfold u64_max in *. lia.
Qed.

Lemma begin_part_Err q s uuid i n r now e s' :
  begin_part q uuid i n r now s = (Err e, s') → s' = s.
Proof. unfold begin_part. intros Hb. by repeat case_match; simplify_eq/=. Qed.

Lemma begin_accounts s i n r now p u :
  Accounts s → find_upload s i = Some u → 0 <= r →
  attempts s !! pd_artifact_key p = None → Accounts (begun i n r now p u s).
Proof.
  intros HA Hf Hr Hnone. apply find_upload_Some in Hf as [Hu Hid]. constructor; cbn.
  - intros j v [[<- <-]|[? Hj]]%lookup_insert_Some; [cbn; by rewrite Hid|]. by apply (acc_keyed _ HA).
  - intros j a [[<- <-]|[? Hj]]%lookup_insert_Some; cbn.
    + repeat split; [done..|]. by rewrite lookup_insert_eq.
    + destruct (acc_attempt _ HA j a Hj) as (?&?&?). repeat split; [done..|].
      apply lookup_insert_is_Some'. by right.
  - intros j v Hj. destruct (acc_part _ HA j v Hj) as (-> & a & Ha & <- & Hp).
    split; [done|]. exists a. split; [|done]. rewrite lookup_insert_ne; [done|]. congruence.
  - intros j v Hv. rewrite sumZ_insert by done. unfold reserves at 1, belongs, is_pending. cbn.
    apply lookup_insert_Some in Hv as [[<- <-]|[? Hj]].
    + cbn. rewrite !bool_decide_true by done. cbn. rewrite (acc_reserved _ HA _ u Hu). lia.
    + rewrite bool_decide_false by done. cbn. by apply (acc_reserved _ HA).
  - intros j v Hv. rewrite sumZ_insert by done. unfold stages at 1, is_pending. cbn.
    rewrite andb_false_r. cbn.
    apply lookup_insert_Some in Hv as [[<- <-]|[? Hj]]; cbn; by apply (acc_staged _ HA).
Qed.

Lemma begin_bounded q s i n r now p u :
  Bounded q s → find_upload s i = Some u → 0 <= r →
  used u + r <= sn_max_staged_bytes (up_snapshot u) →
  sumZ (tenant_used (id_tenant_id i)) (uploads s) + r <= tenant_bytes q →
  sumZ used (uploads s) + r <= global_bytes q → Bounded q (begun i n r now p u s).
Proof.
  intros HB [Hu Hid]%find_upload_Some Hr Hmax Ht Hg. constructor; cbn.
  - intros j v [[<- <-]|[? Hj]]%lookup_insert_Some; [|by eapply (bnd_upload q)].
    pose proof (bnd_upload q s HB _ u Hu). unfold used in *. cbn. lia.
  - intros t. rewrite (sumZ_update _ _ _ u) by done. pose proof (bnd_tenant q s HB t).
    unfold tenant_used at 2 3. cbn. rewrite Hid in *.
    destruct (decide (id_tenant_id i = t)) as [<-|]; unfold used in *; cbn; lia.
  - rewrite (sumZ_update _ _ _ u) by done. unfold used in *. cbn. lia.
Qed.

Lemma begin_keeps q y uuid i n r now :
  Inv q y → admissible y (CBegin uuid i n r now) → quotas_ok q →
  Inv q (sys_step q (CBegin uuid i n r now) y).
Proof.
  intros [HA HB HI] [Hr Hkey] Hq. unfold sys_step, call_state.
  destruct (begin_part q uuid i n r now (repo y)) as [[p|e] s'] eqn:Hb; cbn [fst snd].
  2: { apply begin_part_Err in Hb as ->. by constructor; [..|destruct HI; constructor]. }
  apply begin_part_Ok in Hb as (u & Hf & _ & _ & Hmax & Ht & Hg & -> & ->); [|done..].
  assert (attempts (repo y) !! artifact_key_for i n uuid = None) as Hnone.
  { apply eq_None_not_Some. intros Hs. by apply Hkey, (iss_key y HI). }
  destruct Hr. constructor; cbn [repo].
  - by apply begin_accounts.
  - by apply begin_bounded.
  - apply find_upload_Some in Hf as [Hu _]. destruct HI as [Hus Hup Hatt Hk]. constructor; cbn.
    + intros j [<-|Hj]%lookup_insert_is_Some'; apply Hus; [by eexists|done].
    + intros i' p' [[= -> ->]|Hin]%elem_of_cons; [done|by eapply Hup].
    + intros i' p' a Hin Ha. apply elem_of_cons in Hin as [[= -> ->]|Hin]; cbn in *.
      * by rewrite lookup_insert_eq in Ha; simplify_eq/=.
      * apply lookup_insert_Some in Ha as [[Heq _]|[_ Ha]]; [|by eapply Hatt].
        exfalso. apply Hkey. rewrite Heq.
        apply (list_elem_of_fmap_2 (λ ip, pd_artifact_key ip.2) _ (i', p')) in Hin. done.
    + intros j [<-|Hj]%lookup_insert_is_Some'; [left|]. right. by apply Hk.
Qed.

(** ** Committing a part *)

Lemma lookup_retire_attempt key m j a' :
  retire_attempt key m !! j = Some a' →
  ∃ a, m !! j = Some a ∧ at_part a' = at_part a ∧ at_reserved_bytes a' = at_reserved_bytes a
    ∧ (at_lifecycle a' = at_lifecycle a ∨ j = key ∧ at_lifecycle a' = "RETIRED").
Proof.
  unfold retire_attempt. intros Ha. destruct (decide (key = j)) as [<-|].
  - rewrite lookup_alter_eq in Ha. destruct (m !! key) as [a|]; [|done]. simplify_eq/=.
    exists a. naive_solver.
  - rewrite lookup_alter_ne in Ha by done. exists a'. naive_solver.
Qed.

(** Retiring the attempt of a part that is listed keeps the accounts: it was not pending. *)
Lemma accounts_retire s k p :
  Accounts s → parts s !! k = Some p →
  Accounts (set_attempts (retire_attempt (mp_artifact_key p)) s).
Proof.
  intros HA Hp. destruct (acc_part s HA k p Hp) as (_ & a0 & Ha0 & Hpart & Hnp).
  constructor; cbn.
  - apply HA.
  - intros j a' (a & Ha & -> & -> & _)%lookup_retire_attempt. by apply (acc_attempt s HA j).
  - intros j v Hv. destruct (acc_part s HA j v Hv) as (-> & a & Ha & <- & Hnp'). split; [done|].
    unfold retire_attempt. destruct (decide (mp_artifact_key p = mp_artifact_key (at_part a))) as [E|].
    + exists (mkAttempt (at_part a) (at_reserved_bytes a) "RETIRED"). rewrite E, lookup_alter_eq, Ha.
      done.
    + exists a. by rewrite lookup_alter_ne by done.
  - intros j u Hu. rewrite (acc_reserved s HA j u Hu). symmetry. apply sumZ_alter.
    intros a Ha. simplify_eq. unfold reserves, is_pending, belongs in *. cbn.
    by rewrite Hnp, !andb_false_r.
  - intros j u Hu. rewrite (acc_staged s HA j u Hu). symmetry. apply sumZ_alter.
    intros a Ha. simplify_eq. unfold stages, is_pending, belongs in *. cbn. by rewrite Hnp.
Qed.

(** The attempts after the previous part of the same number is retired. *)
Definition retire_previous (k : string * Z) (s : MemoryState) : MemoryState :=
  set_attempts (λ m, fold_left (λ m old, retire_attempt (mp_artifact_key old) m)
    (option_list (parts s !! k)) m) s.

Lemma retire_previous_keeps q s k :
  Accounts s → Bounded q s →
  Accounts (retire_previous k s) ∧ Bounded q (retire_previous k s) ∧ shrinks s (retire_previous k s).
Proof.
  intros HA HB. unfold retire_previous. destruct (parts s !! k) as [p|] eqn:Hp; cbn.
  - split; [by apply (accounts_retire s k)|]. split; [by destruct HB|]. split; cbn; [done|].
    intros j a' (a & Ha & -> & _)%lookup_retire_attempt. by exists a.
  - destruct s. split; [done|]. split; [done|]. apply shrinks_refl.
Qed.

(** The state after the attempt of [p] became the current part. *)
Definition committed (clock : Z) (i : MultipartIdentity) (p : PendingPart) (part : MultipartPart)
    (u : MultipartUpload) (s : MemoryState) : MemoryState :=
  set_uploads <[id_upload_id i := up_bytes (up_staged_bytes u + mp_size_bytes part)
      (up_reserved_bytes u - pd_reserved_bytes p) clock u]>
    (set_parts <[(id_upload_id i, mp_part_number part) := part]>
      (set_pending (delete (pd_artifact_key p))
        (set_attempts <[pd_artifact_key p := mkAttempt part 0 "CURRENT"]> s))).

Section commit.
  Context (q : StagingQuotaLimits) (s : MemoryState) (i : MultipartIdentity) (p : PendingPart).
  Context (part : MultipartPart) (u : MultipartUpload) (a : MemoryAttempt).
  Context (HA : Accounts s) (HB : Bounded q s).
  Context (Hu : uploads s !! id_upload_id i = Some u).
  Context (Ha : attempts s !! pd_artifact_key p = Some a) (Hpend : is_pending a = true).
  Context (Hbelongs : mp_upload_id (at_part a) = id_upload_id i).
  Context (Hres : at_reserved_bytes a = pd_reserved_bytes p).
  Context (Hsize : 0 <= mp_size_bytes part <= pd_reserved_bytes p).

(** The reservation of a pending attempt is part of what its upload has reserved. *)
Lemma reservation_held : pd_reserved_bytes p <= up_reserved_bytes u.
Proof.
  rewrite (acc_reserved s HA _ u Hu), <- Hres.
  transitivity (reserves (id_upload_id i) a).
  - unfold reserves, belongs. by rewrite Hpend, Hbelongs, bool_decide_true.
  - apply (sumZ_member _ _ (pd_artifact_key p)); [|done]. intros j b Hb.
    destruct (acc_attempt s HA j b Hb) as (?&?&?). unfold reserves. by case_match.
Qed.

Lemma commit_fits : up_staged_bytes u + mp_size_bytes part <= u64_max.
Proof.
  pose proof reservation_held. pose proof (bnd_upload q s HB _ u Hu). unfold used in *. lia.
Qed.

Lemma commit_bounded clock : Bounded q (committed clock i p part u s).
Proof.
  assert (Bounded q (set_uploads <[id_upload_id i := up_bytes (up_staged_bytes u + mp_size_bytes part)
      (up_reserved_bytes u - pd_reserved_bytes p) clock u]> s)) as [H1 H2 H3].
  { apply (bounded_less q s HB _ u); [done..|]. unfold used. cbn. lia. }
  by constructor.
Qed.

Lemma commit_accounts clock :
  mp_upload_id part = id_upload_id i → mp_artifact_key part = pd_artifact_key p →
  Accounts (committed clock i p part u s).
Proof.
  intros Hup Hkey. constructor; cbn.
  - intros j v [[<- <-]|[? Hj]]%lookup_insert_Some; cbn; by apply (acc_keyed s HA).
  - intros j b [[<- <-]|[? Hj]]%lookup_insert_Some; cbn.
    + split; [lia|]. split; [lia|]. rewrite Hup. by rewrite lookup_insert_eq.
    + destruct (acc_attempt s HA j b Hj) as (?&?&?). repeat split; [done..|].
      apply lookup_insert_is_Some'. by right.
  - intros j v [[<- <-]|[? Hj]]%lookup_insert_Some; cbn.
    + split; [by rewrite Hup|]. exists (mkAttempt part 0 "CURRENT").
      by rewrite Hkey, lookup_insert_eq.
    + destruct (acc_part s HA j v Hj) as (-> & b & Hb & <- & Hnp). split; [done|]. exists b.
      split; [|done]. rewrite lookup_insert_ne; [done|]. intros E. rewrite <- E in Hb. congruence.
  - intros j v Hv. rewrite (sumZ_update _ _ _ a) by done.
    unfold reserves at 2 3. rewrite Hpend. unfold belongs, is_pending. cbn. rewrite Hbelongs, Hup.
    rewrite andb_false_r, andb_true_r.
    apply lookup_insert_Some in Hv as [[<- <-]|[? Hj]]; cbn.
    + rewrite bool_decide_true, (acc_reserved s HA _ u Hu) by done. lia.
    + rewrite bool_decide_false, (acc_reserved s HA _ v Hj) by done. lia.
  - intros j v Hv. rewrite (sumZ_update _ _ _ a) by done.
    unfold stages at 2 3. rewrite Hpend. unfold belongs, is_pending. cbn. rewrite Hup.
    rewrite andb_false_r, andb_true_r.
    apply lookup_insert_Some in Hv as [[<- <-]|[? Hj]]; cbn.
    + rewrite bool_decide_true, (acc_staged s HA _ u Hu) by done. lia.
    + rewrite bool_decide_false, (acc_staged s HA _ v Hj) by done. lia.
Qed.
End commit.

(** The three ways [commit_part] ends on a pending part that was handed out:
    refused with the state as it was; refused after the previous part of that
    number was retired; or the attempt is the current part. *)
Lemma commit_cases q y clock i p part :
  Inv q y → (i, p) ∈ issued y → is_u64 (mp_size_bytes part) →
  (∃ e, commit_part clock i p part (repo y) = (Err e, repo y) ∧ e ∈ [InvalidPart; NotFound; NotOpen])
  ∨ commit_part clock i p part (repo y)
      = (Err NotFound, retire_previous (id_upload_id i, mp_part_number part) (repo y))
  ∨ (∃ u a, let s1 := retire_previous (id_upload_id i, mp_part_number part) (repo y) in
       commit_part clock i p part (repo y)
         = (Ok (option_list (parts (repo y) !! (id_upload_id i, mp_part_number part))),
            committed clock i p part u s1)
       ∧ find_upload (repo y) i = Some u ∧ up_lifecycle u = Open
       ∧ attempts s1 !! pd_artifact_key p = Some a ∧ is_pending a = true
       ∧ at_reserved_bytes a = pd_reserved_bytes p ∧ mp_upload_id (at_part a) = id_upload_id i
       ∧ mp_upload_id part = id_upload_id i ∧ mp_part_number part = pd_part_number p
       ∧ mp_artifact_key part = pd_artifact_key p
       ∧ 0 <= mp_size_bytes part <= pd_reserved_bytes p).
Proof.
  intros [HA HB HI] Hin Hsz. unfold commit_part.
  destruct (_ || _) eqn:E1; [left; eexists; split; [done|set_solver]|].
  destruct (find_upload (repo y) i) as [u|] eqn:Hf; [|left; eexists; split; [done|set_solver]].
  destruct (negb (bool_decide (up_lifecycle u = Open))) eqn:E2; [left; eexists; split; [done|set_solver]|].
  right. set (k := (id_upload_id i, mp_part_number part)).
  destruct (retire_previous_keeps q (repo y) k HA HB) as (HA1 & HB1 & Hsh).
  fold (retire_previous k (repo y)). cbn zeta.
  destruct (attempts (retire_previous k (repo y)) !! pd_artifact_key p) as [a|] eqn:Ha; [|by left].
  destruct (negb (bool_decide (at_lifecycle a = "PENDING")) || _) eqn:E3; [by left|].
  right. exists u, a. cbn zeta.
  rewrite !orb_false_iff, ?negb_false_iff in *.
  rewrite !bool_decide_eq_true, !Z.eqb_eq, Z.ltb_ge in *.
  destruct E1 as ((((Eu & En) & _) & Ek) & Es). destruct E3 as [Epend Eres].
  pose proof (find_upload_Some _ _ _ Hf) as [Hu _].
  pose proof (iss_upload y HI i p Hin) as Hpu.
  destruct (iss_attempt _ (issued_shrinks y _ HI Hsh) i p a Hin Ha) as [Hau _].
  assert (is_pending a = true) as Hpend by (unfold is_pending; by apply bool_decide_true).
  destruct Hsz as [Hsz _].
  assert (uploads (retire_previous k (repo y)) = uploads (repo y)) as Hsame by done.
  assert (pd_reserved_bytes p <= up_reserved_bytes u) as Hheld.
  { eapply (reservation_held _ i p u a HA1); [by rewrite Hsame | done | done | congruence | done]. }
  assert (up_staged_bytes u + mp_size_bytes part <= u64_max) as Hfits.
  { eapply (commit_fits q _ i p part u a HA1 HB1); [by rewrite Hsame|done|done|congruence|done|lia]. }
  unfold u64_checked_sub, u64_checked_add.
  rewrite (proj2 (Z.leb_le _ _) Hheld), (proj2 (Z.leb_le _ _) Hfits).
  split_and!; try done; try congruence.
Qed.

Lemma commit_keeps q y clock i p part :
  Inv q y → admissible y (CCommit clock i p part) → Inv q (sys_step q (CCommit clock i p part) y).
Proof.
  intros HInv [Hin Hsz]. destruct HInv as [HA HB HI] eqn:E. clear E.
  pose proof (retire_previous_keeps q (repo y) (id_upload_id i, mp_part_number part) HA HB)
    as (HA1 & HB1 & Hsh).
  unfold sys_step, call_state.
  destruct (commit_cases q y clock i p part HInv Hin Hsz) as [(e & -> & _)|[->|(u & a & Hc)]].
  - by constructor; [..|destruct HI].
  - constructor; [done..|]. by apply issued_shrinks.
  - destruct Hc as (-> & Hf & _ & Ha & Hpend & Hres & Hau & Hpu & Hpn & Hpk & Hs). cbn [snd].
    apply find_upload_Some in Hf as [Hu _]. constructor; cbn [repo].
    + by apply (commit_accounts _ i p part u a HA1).
    + by apply (commit_bounded q).
    + apply issued_shrinks; [done|]. split; cbn.
      * intros j [<-|Hj]%lookup_insert_is_Some'; [by eexists|done].
      * intros j b [[<- <-]|[? Hj]]%lookup_insert_Some; [|by apply Hsh].
        destruct (proj2 Hsh _ _ Ha) as (a0 & Ha0 & _ & _). exists a0. split; [done|].
        destruct (iss_attempt y HI i p a0 Hin Ha0) as [-> ->]. cbn.
        split; [|done]. by rewrite Hpu, (iss_upload y HI i p Hin).
Qed.

(** ** Releasing an artifact *)

Definition released (clock : Z) (key : string) (a : MemoryAttempt) (u : MultipartUpload)
    (s : MemoryState) : MemoryState :=
  let k := mp_upload_id (at_part a) in
  set_uploads <[k := up_bytes (up_staged_bytes u - stages k a) (up_reserved_bytes u - reserves k a)
      clock u]>
    (set_parts (filter (λ kp, mp_artifact_key kp.2 ≠ key))
      (set_pending (delete key) (set_attempts (delete key) s))).

(** Under the invariant the release always succeeds: the upload exists and
    neither counter underflows. *)
Lemma confirm_cases s clock key :
  Accounts s →
  (attempts s !! key = None ∧ confirm_artifact_deleted clock key s = (Ok tt, s))
  ∨ (∃ a u, attempts s !! key = Some a ∧ uploads s !! mp_upload_id (at_part a) = Some u
       ∧ confirm_artifact_deleted clock key s = (Ok tt, released clock key a u s)).
Proof.
  intros HA. unfold confirm_artifact_deleted.
  destruct (attempts s !! key) as [a|] eqn:Ha; [right|by left].
  destruct (acc_attempt s HA key a Ha) as (Hr & Hs & [u Hu]). exists a, u.
  split; [done|]. split; [done|]. rewrite Hu.
  set (k := mp_upload_id (at_part a)) in *.
  assert (reserves k a <= up_reserved_bytes u) as H1.
  { rewrite (acc_reserved s HA k u Hu). apply (sumZ_member _ _ key); [|done].
    intros j b Hb. destruct (acc_attempt s HA j b Hb) as (?&?&?). unfold reserves. by case_match. }
  assert (stages k a <= up_staged_bytes u) as H2.
  { rewrite (acc_staged s HA k u Hu). apply (sumZ_member _ _ key); [|done].
    intros j b Hb. destruct (acc_attempt s HA j b Hb) as (?&?&?). unfold stages. by case_match. }
  unfold released. fold k. unfold reserves, stages, belongs, is_pending in *. fold k in H1, H2 |- *.
  rewrite (bool_decide_true (k = k)) in * by done.
  destruct (decide (at_lifecycle a = "PENDING")) as [E|E];
    [rewrite (bool_decide_true (at_lifecycle a = _)) in * by done
    |rewrite (bool_decide_false (at_lifecycle a = _)) in * by done]; cbn in H1, H2 |- *;
    unfold u64_checked_sub.
  - rewrite (proj2 (Z.leb_le _ _) H1). by rewrite Z.sub_0_r.
  - rewrite (proj2 (Z.leb_le _ _) H2). by rewrite Z.sub_0_r.
Qed.

Lemma released_keeps q s clock key a u :
  Accounts s → Bounded q s → attempts s !! key = Some a →
  uploads s !! mp_upload_id (at_part a) = Some u →
  Accounts (released clock key a u s) ∧ Bounded q (released clock key a u s)
  ∧ shrinks s (released clock key a u s).
Proof.
  intros HA HB Ha Hu. destruct (acc_attempt s HA key a Ha) as (Hr & Hs & _).
  unfold released. set (k := mp_upload_id (at_part a)) in *.
  assert (∀ j, j ≠ k → reserves j a = 0 ∧ stages j a = 0) as Hother.
  { intros j Hj. unfold reserves, stages, belongs. by rewrite bool_decide_false. }
  assert (0 <= reserves k a ∧ 0 <= stages k a) as [H1 H2].
  { unfold reserves, stages. split; by case_match. }
  split; [|split].
  - constructor; cbn.
    + intros j v [[<- <-]|[? Hj]]%lookup_insert_Some; cbn; by apply (acc_keyed s HA).
    + intros j b [? Hj]%lookup_delete_Some. destruct (acc_attempt s HA j b Hj) as (?&?&?).
      repeat split; [done..|]. apply lookup_insert_is_Some'. by right.
    + intros j v [Hj Hne]%map_lookup_filter_Some. cbn in Hne.
      destruct (acc_part s HA j v Hj) as (-> & b & Hb & <- & Hnp).
      split; [done|]. exists b. by rewrite lookup_delete_ne.
    + intros j v Hv. rewrite (sumZ_delete _ _ key a) by done.
      apply lookup_insert_Some in Hv as [[<- <-]|[? Hj]]; cbn.
      * by rewrite (acc_reserved s HA k u Hu).
      * rewrite (acc_reserved s HA j v Hj), (proj1 (Hother j ltac:(done))). lia.
    + intros j v Hv. rewrite (sumZ_delete _ _ key a) by done.
      apply lookup_insert_Some in Hv as [[<- <-]|[? Hj]]; cbn.
      * by rewrite (acc_staged s HA k u Hu).
      * rewrite (acc_staged s HA j v Hj), (proj2 (Hother j ltac:(done))). lia.
  - assert (Bounded q (set_uploads <[k := up_bytes (up_staged_bytes u - stages k a)
      (up_reserved_bytes u - reserves k a) clock u]> s)) as [B1 B2 B3].
    { apply (bounded_less q s HB _ u); [done..|]. unfold used. cbn. lia. }
    by constructor.
  - split; cbn.
    + intros j [<-|Hj]%lookup_insert_is_Some'; [by eexists|done].
    + intros j b [? Hj]%lookup_delete_Some. by exists b.
Qed.

(** ** The remaining calls *)

Definition Keeps (q : StagingQuotaLimits) (s s' : MemoryState) : Prop :=
  Accounts s' ∧ Bounded q s' ∧ shrinks s s'.

Lemma inv_keeps q y s' :
  Issued y → Keeps q (repo y) s' → Inv q (mkSys s' (issued y) (used_ids y)).
Proof. intros HI (HA & HB & Hsh). constructor; [done..|]. by apply issued_shrinks. Qed.

Lemma shrinks_trans s1 s2 s3 : shrinks s1 s2 → shrinks s2 s3 → shrinks s1 s3.
Proof.
  intros [U1 A1] [U2 A2]. split; [by auto|]. intros k a3 H3.
  destruct (A2 k a3 H3) as (a2 & H2 & -> & ->). by apply A1.
Qed.

Lemma shrinks_uploads s f : (∀ k, is_Some (f (uploads s) !! k) → is_Some (uploads s !! k)) →
  shrinks s (set_uploads f s).
Proof. intros Hf. split; [done|]. intros k a Ha. by exists a. Qed.

Section keeps.
  Context (q : StagingQuotaLimits) (s : MemoryState).
  Context (HA : Accounts s) (HB : Bounded q s).

Lemma staging_keeps_refl : Keeps q s s.
Proof. split; [done|]. split; [done|]. apply shrinks_refl. Qed.

Lemma keeps_meta k u u' :
  uploads s !! k = Some u → same_account u u' → Keeps q s (set_uploads <[k := u']> s).
Proof.
  intros Hu Hs. split; [by apply (accounts_meta s HA k u)|].
  split; [by apply (bounded_meta q s HB k u)|]. apply shrinks_uploads.
  intros j [<-|Hj]%lookup_insert_is_Some'; [by eexists|done].
Qed.

Lemma keeps_delete k :
  (∀ j a, attempts s !! j = Some a → mp_upload_id (at_part a) ≠ k) →
  Keeps q s (set_uploads (delete k) s).
Proof.
  intros Hno. split; [by apply accounts_delete|]. split; [by apply bounded_delete|].
  apply shrinks_uploads. intros j [v [_ Hj]%lookup_delete_Some]. by eexists.
Qed.

Lemma keeps_confirm clock key : Keeps q s (confirm_artifact_deleted clock key s).2.
Proof.
  destruct (confirm_cases s clock key HA) as [[_ ->]|(a & u & Ha & Hu & ->)]; [apply staging_keeps_refl|].
  by apply released_keeps.
Qed.

Lemma artifacts_remain_false k :
  artifacts_remain s k = false → ∀ j a, attempts s !! j = Some a → mp_upload_id (at_part a) ≠ k.
Proof.
  intros [Hf _]%orb_false_iff j a Ha E. apply not_true_iff_false in Hf. apply Hf.
  apply existsb_exists. exists a. split; [|by apply bool_decide_eq_true_2].
  apply list_elem_of_In, list_elem_of_fmap. exists (j, a). split; [done|]. by apply elem_of_map_to_list.
Qed.
End keeps.

Lemma staging_keeps_trans q s1 s2 s3 : shrinks s1 s2 → Keeps q s2 s3 → Keeps q s1 s3.
Proof. intros H12 (HA & HB & H23). split; [done|]. split; [done|]. by eapply shrinks_trans. Qed.

Lemma keeps_parts q s s' f :
  Keeps q s s' → (∀ k p, f (parts s') !! k = Some p → parts s' !! k = Some p) →
  Keeps q s (set_parts f s').
Proof.
  intros (HA & HB & Hsh) Hf. split; [by apply accounts_parts|]. split; [by apply bounded_parts|done].
Qed.

Lemma extract_rest ids m k p : (extract_parts ids m).2 !! k = Some p → m !! k = Some p.
Proof. cbn. by intros [? _]%map_lookup_filter_Some. Qed.

Lemma in_order_lookup {V} order (m : gmap string V) k v : (k, v) ∈ in_order order m → m !! k = Some v.
Proof.
  unfold in_order. intros (k' & Hk' & Hv)%list_elem_of_omap.
  destruct (m !! k') as [v'|] eqn:E; cbn in Hv; [|done]. by injection Hv as <- <-.
Qed.

(** Retiring: the removed uploads have no attempt left. *)
Lemma remove_uploads_keeps q ids s :
  Accounts s → Bounded q s →
  (∀ k, k ∈ ids → ∀ j a, attempts s !! j = Some a → mp_upload_id (at_part a) ≠ k) →
  Keeps q s (set_uploads (λ _, (remove_uploads ids (uploads s)).2) s).
Proof.
  revert s. induction ids as [|k ids IH]; intros s HA HB Hno; cbn.
  { destruct s. by apply staging_keeps_refl. }
  assert (∀ j a, attempts s !! j = Some a → mp_upload_id (at_part a) ≠ k) as Hk
    by (apply Hno, list_elem_of_here).
  assert (∀ k, k ∈ ids → ∀ j a, attempts s !! j = Some a → mp_upload_id (at_part a) ≠ k) as Hks
    by (intros k' Hk'; apply Hno; by apply list_elem_of_further).
  destruct (uploads s !! k) as [u|]; [|by apply IH].
  destruct (keeps_delete q s HA HB k Hk) as (HA' & HB' & Hsh).
  pose proof (IH (set_uploads (delete k) s) HA' HB' Hks) as Hrest. cbn in Hrest.
  destruct (remove_uploads ids (delete k (uploads s))) as [removed m] eqn:E. cbn in Hrest |- *.
  by eapply staging_keeps_trans.
Qed.

(** Expiring: each entry is replaced by its terminal form. *)
Lemma expire_lookup (F : MultipartUpload → MultipartUpload)
    (l : list (string * MultipartUpload)) (m : gmap string MultipartUpload) k u :
  (∀ k v, (k, v) ∈ l → m !! k = Some v) →
  foldr (λ ku, <[ku.1 := F ku.2]>) m l !! k = Some u →
  m !! k = Some u ∨ ∃ v, (k, v) ∈ l ∧ m !! k = Some v ∧ u = F v.
Proof.
  induction l as [|[j v] l IH]; cbn; intros Hl Hk; [by left|].
  apply lookup_insert_Some in Hk as [[<- <-]|[Hne Hk]].
  - right. exists v. split; [apply list_elem_of_here|]. split; [|done]. apply Hl, list_elem_of_here.
  - destruct IH as [H|(w & Hin & Hw & ->)]; [|done|by left|].
    + intros k' v' Hin. apply Hl. by apply list_elem_of_further.
    + right. exists w. split; [by apply list_elem_of_further|done].
Qed.

Lemma expire_keeps q (F : MultipartUpload → MultipartUpload) l s :
  (∀ u, same_account u (F u)) → Accounts s → Bounded q s →
  (∀ k v, (k, v) ∈ l → uploads s !! k = Some v) →
  Keeps q s (set_uploads (λ _, foldr (λ ku, <[ku.1 := F ku.2]>) (uploads s) l) s).
Proof.
  intros HF HA HB. induction l as [|[j v] l IH]; cbn; intros Hl.
  { destruct s. by apply staging_keeps_refl. }
  assert (∀ k v, (k, v) ∈ l → uploads s !! k = Some v) as Hl'
    by (intros k' v' Hin; apply Hl; by apply list_elem_of_further).
  destruct (IH Hl') as (HA' & HB' & Hsh). set (s' := set_uploads _ s) in *.
  assert (∃ u, uploads s' !! j = Some u ∧ same_account u (F v)) as (u & Hu & Hsame).
  { assert (uploads s !! j = Some v) as Hj by apply Hl, list_elem_of_here.
    assert (is_Some (uploads s' !! j)) as [u Hu].
    { cbn. clear -Hj. induction l as [|[j' v'] l IH]; cbn; [by eexists|].
      apply lookup_insert_is_Some'. by right. }
    exists u. split; [done|]. cbn in Hu. apply expire_lookup in Hu; [|done].
    destruct Hu as [Hu|(w & _ & Hw & ->)]; simplify_eq; [apply HF|].
    destruct (HF v) as (E1 & E2 & E3 & E4). by unfold same_account. }
  apply (staging_keeps_trans q s s'); [done|].
  apply (keeps_meta q s' HA' HB' j u); done.
Qed.

Lemma acquire_keeps q s i fp req owner lease now :
  Accounts s → Bounded q s → Keeps q s (acquire_completion i fp req owner lease now s).2.
Proof.
  intros HA HB. unfold acquire_completion.
  destruct (find_upload s i) as [u|] eqn:Hf; [|by apply staging_keeps_refl].
  apply find_upload_Some in Hf as [Hu _].
  repeat case_match; try (by apply staging_keeps_refl); by apply (keeps_meta q s HA HB _ u).
Qed.

Lemma renew_keeps q s clock i tok lease :
  Accounts s → Bounded q s → Keeps q s (renew_completion clock i tok lease s).2.
Proof.
  intros HA HB. unfold renew_completion.
  destruct (find_upload s i) as [u|] eqn:Hf; [|by apply staging_keeps_refl].
  apply find_upload_Some in Hf as [Hu _].
  case_match; [by apply staging_keeps_refl|]. by apply (keeps_meta q s HA HB _ u).
Qed.

Lemma complete_keeps q s i tok r now :
  Accounts s → Bounded q s → Keeps q s (complete_completion i tok r now s).2.
Proof.
  intros HA HB. unfold complete_completion.
  destruct (find_upload s i) as [u|] eqn:Hf; [|by apply staging_keeps_refl].
  apply find_upload_Some in Hf as [Hu _].
  case_match; [by apply staging_keeps_refl|]. by apply (keeps_meta q s HA HB _ u).
Qed.

Lemma abort_keeps q s i now : Accounts s → Bounded q s → Keeps q s (abort i now s).2.
Proof.
  intros HA HB. unfold abort.
  destruct (find_upload s i) as [u|] eqn:Hf; [|by apply staging_keeps_refl].
  apply find_upload_Some in Hf as [Hu _].
  case_decide; [|case_decide; by apply staging_keeps_refl].
  destruct (extract_parts [id_upload_id i] (parts s)) as [removed rest] eqn:E. cbn [snd].
  apply keeps_parts; [by apply (keeps_meta q s HA HB _ u)|].
  intros k p Hk. change (parts s !! k = Some p).
  apply (extract_rest [id_upload_id i]). by rewrite E.
Qed.

Lemma delete_terminal_keeps q s i :
  Accounts s → Bounded q s → Keeps q s (delete_terminal_upload i s).2.
Proof.
  intros HA HB. unfold delete_terminal_upload.
  destruct (find_upload s i) as [u|] eqn:Hf; [|by apply staging_keeps_refl].
  destruct (_ || _) eqn:E; [by apply staging_keeps_refl|]. apply orb_false_iff in E as [_ E].
  apply keeps_delete; [done..|]. by apply artifacts_remain_false.
Qed.

Lemma retire_keeps q s order now limit :
  Accounts s → Bounded q s → Keeps q s (retire_terminal_uploads order now limit s).2.
Proof.
  intros HA HB. unfold retire_terminal_uploads. set (ids := _ <$> _).
  assert (∀ k, k ∈ ids → ∀ j a, attempts s !! j = Some a → mp_upload_id (at_part a) ≠ k) as Hno.
  { intros k (u & -> & Hu)%list_elem_of_fmap.
    apply elem_of_take in Hu as (n & Hu & _). apply list_elem_of_lookup_2 in Hu.
    apply list_elem_of_filter in Hu as [Hret _].
    apply andb_true_iff in Hret as [_ Hret]. apply negb_true_iff in Hret.
    by apply artifacts_remain_false. }
  pose proof (remove_uploads_keeps q ids s HA HB Hno) as Hk.
  by destruct (remove_uploads ids (uploads s)).
Qed.

Lemma reap_keeps q s order now limit :
  Accounts s → Bounded q s → Keeps q s (reap_expired order now limit s).2.
Proof.
  intros HA HB. unfold reap_expired. set (expired := take limit _).
  set (F := up_terminal Expired (i64_wrap (now + DEFAULT_EXPIRY_ms)) now).
  assert (∀ k v, (k, v) ∈ expired → uploads s !! k = Some v) as Hl.
  { intros k v (n & Hn & _)%elem_of_take. apply list_elem_of_lookup_2 in Hn.
    apply list_elem_of_filter in Hn as [_ Hn]. by eapply in_order_lookup. }
  pose proof (expire_keeps q F expired s ltac:(done) HA HB Hl) as Hk.
  destruct (extract_parts _ (parts s)) as [removed rest] eqn:E. cbn [snd].
  apply keeps_parts; [done|]. intros k p Hp. change (parts s !! k = Some p).
  eapply (extract_rest ((λ ku, id_upload_id (up_identity ku.2)) <$> expired)). by rewrite E.
Qed.

Lemma audit_keeps q s a : Accounts s → Bounded q s → Keeps q s (audit a s).2.
Proof.
  intros [] []. split; [by constructor|]. split; [by constructor|]. split; [done|]. intros k b Hb. by exists b.
Qed.

Create HintDb staging.
#[export] Hint Resolve staging_keeps_refl keeps_confirm acquire_keeps renew_keeps complete_keeps abort_keeps
  delete_terminal_keeps retire_keeps reap_keeps audit_keeps : staging.

(** Every admissible call keeps the invariant. *)
Lemma staging_inv_step q y c : quotas_ok q → Inv q y → admissible y c → Inv q (sys_step q c y).
Proof.
  intros Hq HInv Hadm. pose proof HInv as [HA HB HI].
  destruct c; try (apply inv_keeps; [done|]; unfold call_state, discard_pending; by auto with staging).
  - by apply create_keeps.
  - by apply begin_keeps.
  - by apply commit_keeps.
  - apply inv_keeps; [done|]. cbn. unfold list_parts, get_authorized.
    destruct (find_upload _ _); by apply staging_keeps_refl.
  - apply inv_keeps; [done|]. cbn. unfold check_completion_lease, mbind, SE_bind, get_authorized.
    destruct (find_upload _ _); cbn; [case_match|]; by apply staging_keeps_refl.
Qed.

Lemma staging_inv_new q : quotas_ok q → Inv q sys_new.
Proof.
  intros [? ?]. constructor; constructor; cbn; try (intros; set_solver);
    try (intros *; by rewrite lookup_empty); try (intros; rewrite sumZ_empty; lia).
Qed.

Lemma inv_reach q y : quotas_ok q → reach q y → Inv q y.
Proof. intros Hq. induction 1; [by apply staging_inv_new | by apply staging_inv_step]. Qed.

(** ** Properties *)

(** C29: In every state that any interleaving of the gateway's calls reaches,
    the counters of an upload are exactly the reservations of its pending
    attempts and the sizes of its other attempts; staged and reserved bytes
    together stay within the limit of the upload; and the bytes of a tenant and
    of all tenants stay within the configured quotas.  Replaced parts keep
    counting until their deletion is confirmed. *)
Theorem staging_quotas q y :
  quotas_ok q → reach q y →
  (∀ k u, uploads (repo y) !! k = Some u →
     up_reserved_bytes u = sumZ (reserves k) (attempts (repo y))
     ∧ up_staged_bytes u = sumZ (stages k) (attempts (repo y))
     ∧ 0 <= up_staged_bytes u ∧ 0 <= up_reserved_bytes u
     ∧ up_staged_bytes u + up_reserved_bytes u <= sn_max_staged_bytes (up_snapshot u))
  ∧ (∀ t, sumZ (tenant_used t) (uploads (repo y)) <= tenant_bytes q)
  ∧ sumZ used (uploads (repo y)) <= global_bytes q.
Proof.
  intros Hq Hr. destruct (inv_reach q y Hq Hr) as [HA HB _].
  split; [|split; [apply HB | apply HB]].
  intros k u Hu. destruct (used_nonneg _ HA k u Hu). destruct (bnd_upload q _ HB k u Hu).
  split_and!; [by apply HA | by apply HA | done..].
Qed.

(** In every reachable state confirming the deletion of an artifact
    succeeds: the upload is there, neither counter underflows, and afterwards no
    attempt, pending part or listed part carries the key.  Committing a part
    with a pending part that was handed out fails only with [InvalidPart],
    [NotFound] or [NotOpen], never on the arithmetic of the counters. *)
Theorem staging_release_total q y clock :
  quotas_ok q → reach q y →
  (∀ key, (confirm_artifact_deleted clock key (repo y)).1 = Ok tt
     ∧ let s' := (confirm_artifact_deleted clock key (repo y)).2 in
       attempts s' !! key = None ∧ (∀ k p, parts s' !! k = Some p → mp_artifact_key p ≠ key))
  ∧ (∀ i p part e, (i, p) ∈ issued y → is_u64 (mp_size_bytes part) →
       (commit_part clock i p part (repo y)).1 = Err e → e ∈ [InvalidPart; NotFound; NotOpen]).
Proof.
  intros Hq Hr. pose proof (inv_reach q y Hq Hr) as HInv. split.
  - intros key. destruct HInv as [HA HB _].
    destruct (confirm_cases (repo y) clock key HA) as [[Hn ->]|(a & u & Ha & Hu & ->)]; cbn.
    + split; [done|]. split; [done|]. intros k p Hp E.
      destruct (acc_part _ HA k p Hp) as (_ & b & Hb & _). congruence.
    + split; [done|]. split; [apply lookup_delete_eq|].
      by intros k p [_ Hne]%map_lookup_filter_Some.
  - intros i p part e Hin Hsz Hc.
    destruct (commit_cases q y clock i p part HInv Hin Hsz) as [(e' & E & He)|[E|(u & a & E & _)]];
      rewrite E in Hc; simplify_eq/=; [done | set_solver].
Qed.

(** *** A run: an upload of which one part is staged and another is pending *)

Definition ex_quotas : StagingQuotaLimits := mkQuotas 1000 5000.
Definition ex_identity : MultipartIdentity := mkIdentity "acme" "policy" "bucket" "key" "u1".
Definition ex_upload : MultipartUpload :=
  mkUpload ex_identity None (mkSnapshot ∅ ∅ None JNull JNull 600) Open 0 0 0 86400000 0
    None None None None 0 None.
Definition ex_pending : PendingPart :=
  mkPendingPart "u1" 1 1 "multipart/acme/u1/1/aaaa" 400.
Definition ex_part : MultipartPart :=
  mkMultipartPart "u1" 1 1 "multipart/acme/u1/1/aaaa" "etag" "sum" 350 11.
Definition ex_calls : list Call :=
  [CCreate ex_upload; CBegin "aaaa" ex_identity 1 400 10; CCommit 11 ex_identity ex_pending ex_part;
   CBegin "bbbb" ex_identity 2 200 12].
Definition ex_sys : Sys := fold_left (λ y c, sys_step ex_quotas c y) ex_calls sys_new.

Lemma ex_reach : reach ex_quotas ex_sys.
Proof.
  unfold ex_sys, ex_calls, fold_left. repeat apply reach_step; try apply reach_new; cbn [admissible].
  - by split_and!.
  - split; [done|]. apply not_elem_of_nil.
  - split; [|done]. apply list_elem_of_In. left. by vm_compute.
  - split; [done|]. apply (bool_decide_unpack _). by vm_compute.
Qed.

(** The 350 staged and 200 reserved bytes of the run fit in the limit of 600. *)
Lemma staging_quotas_witness :
  (∃ u, uploads (repo ex_sys) !! "u1" = Some u ∧ up_staged_bytes u = 350 ∧ up_reserved_bytes u = 200)
  ∧ sumZ used (uploads (repo ex_sys)) <= global_bytes ex_quotas.
Proof.
  split; [eexists; by vm_compute|].
  apply (staging_quotas ex_quotas ex_sys); [by repeat split | apply ex_reach].
Defined.

Lemma staging_release_total_witness :
  (confirm_artifact_deleted 13 "multipart/acme/u1/1/aaaa" (repo ex_sys)).1 = Ok tt.
Proof.
  apply (staging_release_total ex_quotas ex_sys 13); [by repeat split | apply ex_reach].
Defined.
