(* ===== verification/StagingFence.v ===== *)
(** * Multipart staging: completion leases, fencing and replay

    How one upload evolves under every interleaving of the gateway's calls:
    the lifecycle only moves forward, the fencing token only grows, and a
    completed upload keeps its result.  From that, a completion whose lease was
    taken over can do nothing, and a completed upload answers every retry with
    the same result. *)

From S2P Require Import Prelude Operation Staging StagingQuota.
From stdpp Require Import sorting.

#[local] Open Scope Z_scope.
Set Default Goal Selector "!".

(** ** How one upload evolves *)

(** The lifecycle graph. *)
Definition leads_to (l l' : MultipartLifecycle) : bool :=
  bool_decide (l = l')
  || match l, l' with
     | Open, _ => true
     | Completing, Completed => true
     | _, _ => false
     end.

Definition terminal (l : MultipartLifecycle) : bool :=
  match l with Completed | Aborted | Expired => true | Open | Completing => false end.

Record evolves (u u' : MultipartUpload) : Prop := {
  ev_identity : up_identity u' = up_identity u;
  ev_snapshot : up_snapshot u' = up_snapshot u;
  ev_path : leads_to (up_lifecycle u) (up_lifecycle u') = true;
  ev_token : up_completion_fencing_token u <= up_completion_fencing_token u';
  ev_leased : up_lifecycle u = Open → up_lifecycle u' = Completing ∨ up_lifecycle u' = Completed →
    up_completion_fencing_token u < up_completion_fencing_token u'
    ∧ is_Some (up_complete_request_fingerprint u');
  ev_fingerprint : up_lifecycle u ≠ Open →
    up_complete_request_fingerprint u' = up_complete_request_fingerprint u;
  ev_result : up_lifecycle u = Completed →
    up_completion_result u' = up_completion_result u
    ∧ up_completion_fencing_token u' = up_completion_fencing_token u;
}.

Lemma evolves_refl u : evolves u u.
Proof.
  constructor; try done.
  - unfold leads_to. by rewrite bool_decide_true.
  - intros ->. naive_solver.
Qed.

Lemma leads_to_trans a b c : leads_to a b = true → leads_to b c = true → leads_to a c = true.
Proof. by destruct a, b, c. Qed.

Lemma evolves_trans u v w : evolves u v → evolves v w → evolves u w.
Proof.
  intros [I1 S1 P1 T1 L1 F1 R1] [I2 S2 P2 T2 L2 F2 R2].
  constructor; [congruence | congruence | by eapply leads_to_trans | lia | | |].
  - intros Hu Hw. destruct (decide (up_lifecycle v = Open)) as [Hv|Hv].
    + destruct (L2 Hv Hw). split; [lia|done].
    + assert (up_lifecycle v = Completing ∨ up_lifecycle v = Completed) as Hv'.
      { rewrite Hu in P1. destruct (up_lifecycle v), Hw as [Hw|Hw]; rewrite Hw in P2; naive_solver. }
      destruct (L1 Hu Hv'). rewrite F2 by done. split; [lia|done].
  - intros Hu. assert (up_lifecycle v ≠ Open) as Hv.
    { intros Hv. rewrite Hv in P1. by destruct (up_lifecycle u). }
    rewrite F2, F1 by done. done.
  - intros Hu. assert (up_lifecycle v = Completed) as Hv.
    { rewrite Hu in P1. by destruct (up_lifecycle v). }
    destruct (R1 Hu) as [E1 E2], (R2 Hv) as [E3 E4]. split; congruence.
Qed.

(** The uploads of one state evolve into those of another; only terminal ones are dropped. *)
Definition Evolve (m m' : gmap string MultipartUpload) : Prop := ∀ k u, m !! k = Some u →
  (m' !! k = None ∧ terminal (up_lifecycle u) = true) ∨ ∃ u', m' !! k = Some u' ∧ evolves u u'.

Lemma Evolve_refl m : Evolve m m.
Proof. intros k u Hu. right. exists u. split; [done|apply evolves_refl]. Qed.

Lemma Evolve_insert m k u u' : m !! k = Some u → evolves u u' → Evolve m (<[k := u']> m).
Proof.
  intros Hk He j v Hj. right. destruct (decide (k = j)) as [<-|].
  - rewrite lookup_insert_eq. simplify_eq. by exists u'.
  - rewrite lookup_insert_ne by done. exists v. split; [done|apply evolves_refl].
Qed.

Lemma Evolve_new m k u' : m !! k = None → Evolve m (<[k := u']> m).
Proof.
  intros Hk j v Hj. right. exists v. rewrite lookup_insert_ne by congruence.
  split; [done|apply evolves_refl].
Qed.

(** Changing only counters and the modification time. *)
Lemma evolves_bytes staged reserved updated u : evolves u (up_bytes staged reserved updated u).
Proof. destruct (evolves_refl u). by constructor. Qed.

Lemma evolves_terminal l tombstone updated u :
  up_lifecycle u = Open → l = Aborted ∨ l = Expired → evolves u (up_terminal l tombstone updated u).
Proof.
  intros Hu Hl. constructor; cbn; try done.
  - rewrite Hu. by destruct Hl as [-> | ->].
  - intros _. destruct Hl as [-> | ->]; naive_solver.
Qed.

Lemma remove_uploads_lookup ids m k :
  (remove_uploads ids m).2 !! k = if decide (k ∈ ids) then None else m !! k.
Proof.
  revert m. induction ids as [|j ids IH]; intros m; cbn; [done|].
  destruct (m !! j) as [u|] eqn:Hj.
  - specialize (IH (delete j m)). destruct (remove_uploads ids (delete j m)) as [removed m'].
    cbn in *. rewrite IH. destruct (decide (k = j)) as [->|].
    + rewrite lookup_delete_eq. repeat case_decide; set_solver.
    + rewrite lookup_delete_ne by done. repeat case_decide; set_solver.
  - rewrite IH. destruct (decide (k = j)) as [->|]; repeat case_decide; set_solver.
Qed.

Lemma retire_evolves s order now limit :
  (∀ k u, uploads s !! k = Some u → id_upload_id (up_identity u) = k) →
  Evolve (uploads s) (uploads (retire_terminal_uploads order now limit s).2).
Proof.
  intros Hkeyed k u Hu. unfold retire_terminal_uploads. set (ids := _ <$> _).
  pose proof (remove_uploads_lookup ids (uploads s) k) as Hl.
  destruct (remove_uploads ids (uploads s)) as [removed m] eqn:E. cbn in *.
  destruct (decide (k ∈ ids)) as [Hin|]; [left | right; exists u; rewrite Hl; split; [done|apply evolves_refl]].
  split; [done|]. unfold ids in Hin. apply list_elem_of_fmap in Hin as (v & -> & Hv).
  apply elem_of_take in Hv as (n & Hv & _). apply list_elem_of_lookup_2 in Hv.
  apply list_elem_of_filter in Hv as [Hret Hv].
  apply list_elem_of_fmap in Hv as ([j v'] & -> & Hv). cbn in *. apply in_order_lookup in Hv.
  rewrite (Hkeyed _ _ Hv) in Hu. simplify_eq.
  unfold retirable in Hret. by destruct (up_lifecycle u).
Qed.

Lemma expire_evolves s order now limit :
  Evolve (uploads s) (uploads (reap_expired order now limit s).2).
Proof.
  unfold reap_expired. set (expired := take limit _).
  set (F := up_terminal Expired (i64_wrap (now + DEFAULT_EXPIRY_ms)) now).
  assert (∀ k v, (k, v) ∈ expired → uploads s !! k = Some v ∧ up_lifecycle v = Open) as Hl.
  { intros k v (n & Hn & _)%elem_of_take. apply list_elem_of_lookup_2 in Hn.
    apply list_elem_of_filter in Hn as [[Hop _] Hn]. split; [by eapply in_order_lookup|done]. }
  destruct (extract_parts _ (parts s)) as [removed rest]. cbn [snd uploads set_parts set_uploads].
  intros k u Hu. right.
  assert (is_Some (foldr (λ ku, <[ku.1 := F ku.2]>) (uploads s) expired !! k)) as [u' Hu'].
  { clear Hl. induction expired as [|[j v] l IH]; cbn; [by eexists|].
    apply lookup_insert_is_Some'. by right. }
  exists u'. split; [done|].
  apply expire_lookup in Hu' as [E|(v & Hin & Hv & ->)]; [| |intros j w Hin; by apply Hl].
  - simplify_eq. apply evolves_refl.
  - simplify_eq. apply evolves_terminal; [by eapply Hl | by right].
Qed.

Lemma confirm_evolves s clock key :
  Accounts s → Evolve (uploads s) (uploads (confirm_artifact_deleted clock key s).2).
Proof.
  intros HA. destruct (confirm_cases s clock key HA) as [[_ ->]|(a & u & Ha & Hu & ->)];
    [apply Evolve_refl|]. apply (Evolve_insert _ _ u); [done|apply evolves_bytes].
Qed.

(** A successful acquisition leases the upload under the next token. *)
Lemma acquire_Acquired s i fp req owner lease now l s' :
  acquire_completion i fp req owner lease now s = (Ok (Acquired l), s') →
  ∃ u, find_upload s i = Some u
    ∧ (up_lifecycle u = Open ∧ now < up_expires_at_ms u
       ∨ up_lifecycle u = Completing ∧ up_complete_request_fingerprint u = Some fp
         ∧ (∀ e, up_completion_lease_expires_at_ms u = Some e → e <= now))
    ∧ cl_fencing_token l = up_completion_fencing_token u + 1
    ∧ cl_cleanup_parts l = merge_sort part_le (upload_parts s (id_upload_id i))
    ∧ validate_selected_parts (cl_cleanup_parts l) req = Ok (cl_selected_parts l)
    ∧ s' = set_uploads <[id_upload_id i := up_acquired fp owner lease (cl_fencing_token l) now u]> s.
Proof.
  unfold acquire_completion. destruct (find_upload s i) as [u|] eqn:Hf; [|done]. cbn zeta.
  intros H. exists u. split; [done|]. unfold u64_checked_add in H.
  destruct (up_lifecycle u) eqn:Hl; [| |by repeat case_match|done|done]; cbn in H.
  - destruct (up_expires_at_ms u <=? now) eqn:E1; [done|].
    destruct (validate_selected_parts _ req) as [sel|] eqn:Ev; [|done].
    destruct (_ <=? u64_max); [|done]. injection H as <- <-. cbn.
    apply Z.leb_gt in E1. split; [by left|]. done.
  - destruct (bool_decide (up_complete_request_fingerprint u = Some fp)) eqn:Efp; [|done].
    apply bool_decide_eq_true in Efp. cbn in H.
    destruct (match up_completion_lease_expires_at_ms u with Some _ => _ | None => _ end) eqn:El; [done|].
    destruct (validate_selected_parts _ req) as [sel|] eqn:Ev; [|done].
    destruct (_ <=? u64_max); [|done]. injection H as <- <-. cbn.
    split; [right|done]. split; [done|]. split; [done|].
    intros e He. rewrite He in El. apply Z.ltb_ge in El. lia.
Qed.

(** Every other outcome of an acquisition leaves the repository as it is. *)
Lemma acquire_same s i fp req owner lease now r s' :
  acquire_completion i fp req owner lease now s = (r, s') →
  (∀ l, r ≠ Ok (Acquired l)) → s' = s.
Proof.
  unfold acquire_completion. intros H Hr.
  repeat (case_match; simplify_eq/=; try done); exfalso; by eapply Hr.
Qed.

Lemma acquire_evolves s i fp req owner lease now :
  Evolve (uploads s) (uploads (acquire_completion i fp req owner lease now s).2).
Proof.
  destruct (acquire_completion i fp req owner lease now s) as [[[l|r|]|e] s'] eqn:H; cbn [snd];
    try (apply acquire_same in H as ->; [apply Evolve_refl|by intros ?]).
  apply acquire_Acquired in H as (u & Hf & Hl & Htok & _ & _ & ->).
  apply find_upload_Some in Hf as [Hu _]. apply (Evolve_insert _ _ u); [done|].
  constructor; cbn; try done; try lia.
  - unfold leads_to. by destruct Hl as [(-> & _)|(-> & _)].
  - intros _ _. split; [lia|done].
  - intros Hne. by destruct Hl as [(? & _)|(_ & -> & _)].
  - intros Hc. destruct Hl as [(? & _)|(? & _)]; congruence.
Qed.

Lemma renew_evolves s clock i tok lease :
  Evolve (uploads s) (uploads (renew_completion clock i tok lease s).2).
Proof.
  unfold renew_completion. destruct (find_upload s i) as [u|] eqn:Hf; [|apply Evolve_refl].
  apply find_upload_Some in Hf as [Hu _]. case_match; [apply Evolve_refl|].
  apply (Evolve_insert _ _ u); [done|]. destruct (evolves_refl u). by constructor.
Qed.

Lemma complete_evolves s i tok r now :
  Evolve (uploads s) (uploads (complete_completion i tok r now s).2).
Proof.
  unfold complete_completion. destruct (find_upload s i) as [u|] eqn:Hf; [|apply Evolve_refl].
  apply find_upload_Some in Hf as [Hu _].
  destruct (decide (up_lifecycle u = Completing)) as [Hc|Hc];
    [rewrite bool_decide_true by done | rewrite bool_decide_false by done; apply Evolve_refl].
  case_match; [apply Evolve_refl|]. apply (Evolve_insert _ _ u); [done|].
  constructor; cbn; try done; rewrite Hc; done.
Qed.

Lemma abort_evolves s i now : Evolve (uploads s) (uploads (abort i now s).2).
Proof.
  unfold abort. destruct (find_upload s i) as [u|] eqn:Hf; [|apply Evolve_refl].
  apply find_upload_Some in Hf as [Hu _]. case_decide; [|case_decide; apply Evolve_refl].
  apply (Evolve_insert _ _ u); [done|]. apply evolves_terminal; [done|by left].
Qed.

Lemma delete_terminal_evolves s i :
  Evolve (uploads s) (uploads (delete_terminal_upload i s).2).
Proof.
  unfold delete_terminal_upload. destruct (find_upload s i) as [u|] eqn:Hf; [|apply Evolve_refl].
  apply find_upload_Some in Hf as [Hu _].
  destruct (negb _ || _) eqn:E; [apply Evolve_refl|]. intros k v Hv. cbn.
  destruct (decide (id_upload_id i = k)) as [<-|].
  - left. split; [apply lookup_delete_eq|]. simplify_eq. by destruct (up_lifecycle u).
  - right. exists v. rewrite lookup_delete_ne by done. split; [done|apply evolves_refl].
Qed.

#[local] Hint Resolve Evolve_refl confirm_evolves acquire_evolves renew_evolves complete_evolves
  abort_evolves delete_terminal_evolves expire_evolves : staging.

(** One call, whatever it returns. *)
Lemma step_evolves q y c :
  quotas_ok q → Inv q y → admissible y c → Evolve (uploads (repo y)) (uploads (repo (sys_step q c y))).
Proof.
  intros Hq HInv Hadm. pose proof HInv as [HA HB HI].
  destruct c; cbn [sys_step repo call_state]; unfold discard_pending; auto with staging.
  - destruct Hadm as [Hfresh _]. unfold create. case_decide; [apply Evolve_refl|].
    assert (uploads (repo y) !! id_upload_id (up_identity upload) = None) as Hn.
    { apply eq_None_not_Some. intros Hs. by apply Hfresh, (iss_used y HI). }
    rewrite Hn. by apply Evolve_new.
  - destruct (begin_part q uuid i part_number reserved now (repo y)) as [[p|e] s'] eqn:Hb; cbn.
    + destruct Hadm as [Hr _].
      apply begin_part_Ok in Hb as (u & Hf & _ & _ & _ & _ & _ & _ & ->); [|done..].
      apply find_upload_Some in Hf as [Hu _].
      apply (Evolve_insert _ _ u); [done|apply evolves_bytes].
    + apply begin_part_Err in Hb as ->. apply Evolve_refl.
  - destruct Hadm as [Hin Hsz].
    destruct (commit_cases q y clock i p part HInv Hin Hsz) as [(e & -> & _)|[->|(u & a & -> & Hf & _)]];
      [apply Evolve_refl | apply Evolve_refl |].
    apply find_upload_Some in Hf as [Hu _].
    apply (Evolve_insert _ _ u); [done|apply evolves_bytes].
  - unfold list_parts, get_authorized. destruct (find_upload _ _); apply Evolve_refl.
  - unfold check_completion_lease, mbind, SE_bind, get_authorized.
    destruct (find_upload _ _); cbn; [case_match|]; apply Evolve_refl.
  - apply retire_evolves. apply HA.
Qed.

(** ** Runs *)

Inductive later (q : StagingQuotaLimits) (y : Sys) : Sys → Prop :=
| later_refl : later q y y
| later_step y' c : later q y y' → admissible y' c → later q y (sys_step q c y').

Lemma later_reach q y y' : reach q y → later q y y' → reach q y'.
Proof. intros Hr. induction 1; [done | by apply reach_step]. Qed.

Lemma later_trans q y1 y2 y3 : later q y1 y2 → later q y2 y3 → later q y1 y3.
Proof. intros H12. induction 1; [done | by apply later_step]. Qed.

(** A call other than [create] adds no upload. *)
Lemma step_shrinks q y c :
  quotas_ok q → Inv q y → admissible y c → (∀ u, c ≠ CCreate u) →
  ∀ k, is_Some (uploads (repo (sys_step q c y)) !! k) → is_Some (uploads (repo y) !! k).
Proof.
  intros Hq HInv Hadm Hnc. pose proof HInv as [HA HB HI].
  destruct c; cbn [sys_step repo call_state]; unfold discard_pending;
    try (by match goal with |- ∀ k, is_Some (uploads ?s' !! k) → _ =>
           assert (Keeps q (repo y) s') as (_ & _ & Hsh & _) by auto with staging end).
  - by destruct (Hnc upload).
  - intros k. destruct (begin_part q uuid i part_number reserved now (repo y)) as [[p|e] s'] eqn:Hb; cbn.
    + destruct Hadm as [Hr _].
      apply begin_part_Ok in Hb as (u & Hf & _ & _ & _ & _ & _ & _ & ->); [|done..].
      apply find_upload_Some in Hf as [Hu _].
      cbn. by intros [<-|Hj]%lookup_insert_is_Some'; [eexists|].
    + by apply begin_part_Err in Hb as ->.
  - intros k. destruct Hadm as [Hin Hsz].
    destruct (commit_cases q y clock i p part HInv Hin Hsz) as [(e & -> & _)|[->|(u & a & -> & Hf & _)]];
      [done..|]. apply find_upload_Some in Hf as [Hu _].
    cbn. by intros [<-|Hj]%lookup_insert_is_Some'; [eexists|].
  - unfold list_parts, get_authorized. by destruct (find_upload _ _).
  - unfold check_completion_lease, mbind, SE_bind, get_authorized.
    destruct (find_upload _ _); cbn; [case_match|]; done.
Qed.

Lemma step_used q y c : used_ids y ⊆ used_ids (sys_step q c y).
Proof. destruct c; cbn; set_solver. Qed.

(** An id that was used and whose upload is gone stays unused. *)
Lemma step_gone q y c k :
  quotas_ok q → Inv q y → admissible y c → k ∈ used_ids y → uploads (repo y) !! k = None →
  uploads (repo (sys_step q c y)) !! k = None.
Proof.
  intros Hq HInv Hadm Hk Hn. apply eq_None_not_Some. intros Hs.
  destruct c; try (eapply step_shrinks in Hs; [|done..]; destruct Hs; congruence).
  destruct Hadm as [Hfresh _]. cbn in Hs. unfold create in Hs. revert Hs.
  case_decide; cbn; [intros []; congruence|]. case_match; cbn;
    (intros [<-|[? Hs]]%lookup_insert_is_Some'; [done|congruence]).
Qed.

Lemma later_used q y y' k :
  quotas_ok q → reach q y → later q y y' → is_Some (uploads (repo y) !! k) → k ∈ used_ids y'.
Proof.
  intros Hq Hr Hl Hk. induction Hl as [|y' c Hl IH Hadm].
  - by apply (iss_used y (inv_issued q y (inv_reach q y Hq Hr))).
  - by apply step_used, IH.
Qed.

(** Over a run an upload is retired, once and for all, or it has evolved. *)
Lemma later_evolves q y y' k u :
  quotas_ok q → reach q y → later q y y' → uploads (repo y) !! k = Some u →
  uploads (repo y') !! k = None ∨ ∃ u', uploads (repo y') !! k = Some u' ∧ evolves u u'.
Proof.
  intros Hq Hr Hl Hu. induction Hl as [|y' c Hl IH Hadm].
  { right. exists u. split; [done|apply evolves_refl]. }
  assert (Inv q y') as HInv by (apply inv_reach; [done|by eapply later_reach]).
  destruct IH as [Hn|(u' & Hu' & He)].
  - left. apply step_gone; [done..| |done]. eapply later_used; [done..|]. by eexists.
  - destruct (step_evolves q y' c Hq HInv Hadm k u' Hu') as [[Hn _]|(u'' & Hu'' & He')]; [by left|].
    right. exists u''. split; [done|]. by eapply evolves_trans.
Qed.

(** ** Operations under a stale token *)

(** Every operation of a completion is refused when the token is not the
    upload's, and leaves the repository as it is. *)
Lemma stale_token_refused s i tok :
  (∀ u, find_upload s i = Some u → up_completion_fencing_token u ≠ tok) →
  (∀ clock lease, ∃ e, renew_completion clock i tok lease s = (Err e, s) ∧ e ∈ [Fenced; NotFound])
  ∧ (∀ now, ∃ e, check_completion_lease i tok now s = (Err e, s) ∧ e ∈ [Fenced; NotFound])
  ∧ (∀ r now, ∃ e, complete_completion i tok r now s = (Err e, s) ∧ e ∈ [Fenced; NotFound]).
Proof.
  intros Hne. unfold renew_completion, check_completion_lease, complete_completion,
    mbind, SE_bind, get_authorized.
  destruct (find_upload s i) as [u|] eqn:Hf; cbn.
  - rewrite (proj2 (Z.eqb_neq _ _) (Hne u eq_refl)). cbn. rewrite !orb_true_r, andb_false_r. cbn.
    split_and!; intros; eexists; (split; [done|set_solver]).
  - split_and!; intros; eexists; (split; [done|set_solver]).
Qed.

Lemma evolved_find q y y' i u :
  quotas_ok q → reach q y → later q y y' → find_upload (repo y) i = Some u →
  ∀ u', find_upload (repo y') i = Some u' → evolves u u'.
Proof.
  intros Hq Hr Hl [Hu _]%find_upload_Some u' [Hu' _]%find_upload_Some.
  destruct (later_evolves q y y' _ u Hq Hr Hl Hu) as [Hn|(v & Hv & He)]; congruence.
Qed.

(** A leased or completed upload has the fingerprint of its request. *)
Lemma reach_fingerprint q y k u :
  quotas_ok q → reach q y → uploads (repo y) !! k = Some u →
  up_lifecycle u = Completing ∨ up_lifecycle u = Completed →
  is_Some (up_complete_request_fingerprint u).
Proof.
  intros Hq Hr. revert k u. induction Hr as [|y c Hr IH Hadm]; intros k u' Hu' Hl.
  { cbn in Hu'. by rewrite lookup_empty in Hu'. }
  pose proof (inv_reach q y Hq Hr) as HInv.
  destruct (uploads (repo y) !! k) as [u|] eqn:Hu.
  - destruct (step_evolves q y c Hq HInv Hadm k u Hu) as [[Hn _]|(v & Hv & He)]; [congruence|].
    assert (v = u') as -> by congruence.
    destruct (decide (up_lifecycle u = Open)) as [Ho|Ho]; [by apply (ev_leased u u' He)|].
    rewrite (ev_fingerprint u u' He Ho). apply (IH k u Hu).
    pose proof (ev_path u u' He). destruct (up_lifecycle u), Hl as [Hl|Hl]; rewrite Hl in *; naive_solver.
  - destruct c; try (exfalso; eapply eq_None_not_Some; [exact Hu|];
      eapply (step_shrinks q y); [done..|by eexists]).
    destruct Hadm as (_ & Hop & _). revert Hu'. cbn. unfold create.
    case_decide; cbn; [congruence|]. case_match; cbn;
      (intros [[<- <-]|[_ ?]]%lookup_insert_Some; [destruct Hl; congruence|congruence]).
Qed.

Lemma complete_Ok s i tok r now s' :
  complete_completion i tok r now s = (Ok tt, s') →
  ∃ u, find_upload s i = Some u ∧ up_lifecycle u = Completing ∧ up_completion_fencing_token u = tok
    ∧ (∃ e, up_completion_lease_expires_at_ms u = Some e ∧ now < e)
    ∧ s' = set_uploads <[id_upload_id i :=
             up_completed r (i64_wrap (now + DEFAULT_EXPIRY_ms)) now u]> s.
Proof.
  unfold complete_completion. destruct (find_upload s i) as [u|]; [|done].
  destruct (decide (up_lifecycle u = Completing)) as [Hc|Hc];
    [rewrite bool_decide_true by done | by rewrite bool_decide_false by done].
  destruct (Z.eqb_spec (up_completion_fencing_token u) tok) as [Ht|]; [|done]. cbn.
  destruct (up_completion_lease_expires_at_ms u) as [e|] eqn:He; [|done].
  destruct (Z.leb_spec e now); [done|]. intros [= <-]. exists u. split_and!; [done..| |done].
  by exists e.
Qed.

Lemma find_upload_insert s i u u' :
  find_upload s i = Some u → up_identity u' = up_identity u →
  find_upload (set_uploads <[id_upload_id i := u']> s) i = Some u'.
Proof.
  unfold find_upload. cbn. rewrite lookup_insert_eq. cbn.
  destruct (uploads s !! id_upload_id i) as [v|]; cbn; [|done].
  destruct (same_identity v i) eqn:E; [|done]. intros [= ->] Hid.
  unfold same_identity in *. by rewrite Hid, E.
Qed.

(** ** Properties *)

(** Over any run of the gateway's calls an upload that is present keeps its
    identity and its snapshot; its lifecycle moves only along OPEN to
    COMPLETING, COMPLETED, ABORTED or EXPIRED and COMPLETING to COMPLETED; its
    fencing token never decreases and grows whenever a completion starts; the
    fingerprint is fixed once it is leased, and a completed upload keeps its
    result.  Only a completed, aborted or expired upload is ever removed, and
    its id never names an upload again. *)
Theorem staging_lifecycle q y k u :
  quotas_ok q → reach q y → uploads (repo y) !! k = Some u →
  (∀ c, admissible y c → uploads (repo (sys_step q c y)) !! k = None →
     terminal (up_lifecycle u) = true)
  ∧ (∀ y' u', later q y y' → uploads (repo y') !! k = Some u' → evolves u u')
  ∧ (∀ y' y'', later q y y' → uploads (repo y') !! k = None → later q y' y'' →
       uploads (repo y'') !! k = None).
Proof.
  intros Hq Hr Hu. split_and!.
  - intros c Hadm Hn.
    destruct (step_evolves q y c Hq (inv_reach q y Hq Hr) Hadm k u Hu) as [[_ Ht]|(v & Hv & _)];
      [done|congruence].
  - intros y' u' Hl Hu'.
    destruct (later_evolves q y y' k u Hq Hr Hl Hu) as [Hn|(v & Hv & He)]; congruence.
  - intros y' y'' Hl Hn Hl'. induction Hl' as [|y'' c Hl' IH Hadm]; [done|].
    pose proof (later_trans q y y' y'' Hl Hl') as Hl''.
    apply step_gone; [done|by apply inv_reach; [|eapply later_reach]|done| |done].
    eapply later_used; [done..|]. by eexists.
Qed.

(** C30: When a completion lease is taken over, the earlier holder is fenced for
    good: its token is smaller than the new one, and in every later state
    renewing, checking and completing with it fail with [Fenced] (or [NotFound]
    once the upload is retired) and change nothing. *)
Theorem stale_completion_fenced q y1 y2 y3 i fp1 req1 owner1 lease1 now1 l1 fp2 req2 owner2 lease2 now2 l2 :
  quotas_ok q → reach q y1 →
  (acquire_completion i fp1 req1 owner1 lease1 now1 (repo y1)).1 = Ok (Acquired l1) →
  later q (sys_step q (CAcquire i fp1 req1 owner1 lease1 now1) y1) y2 →
  (acquire_completion i fp2 req2 owner2 lease2 now2 (repo y2)).1 = Ok (Acquired l2) →
  later q (sys_step q (CAcquire i fp2 req2 owner2 lease2 now2) y2) y3 →
  let tok := cl_fencing_token l1 in let s := repo y3 in
  tok < cl_fencing_token l2
  ∧ (∀ clock lease, ∃ e, renew_completion clock i tok lease s = (Err e, s) ∧ e ∈ [Fenced; NotFound])
  ∧ (∀ now, ∃ e, check_completion_lease i tok now s = (Err e, s) ∧ e ∈ [Fenced; NotFound])
  ∧ (∀ r now, ∃ e, complete_completion i tok r now s = (Err e, s) ∧ e ∈ [Fenced; NotFound]).
Proof.
  intros Hq Hr Ha1 Hl12 Ha2 Hl23 tok s.
  set (c1 := CAcquire i fp1 req1 owner1 lease1 now1) in *.
  set (c2 := CAcquire i fp2 req2 owner2 lease2 now2) in *.
  assert (reach q (sys_step q c1 y1)) as Hr1 by by apply reach_step.
  assert (reach q y2) as Hr2 by by eapply later_reach.
  assert (reach q (sys_step q c2 y2)) as Hr2' by by apply reach_step.
  destruct (acquire_completion i fp1 req1 owner1 lease1 now1 (repo y1)) as [r1 s1] eqn:E1.
  destruct (acquire_completion i fp2 req2 owner2 lease2 now2 (repo y2)) as [r2 s2] eqn:E2.
  cbn in Ha1, Ha2. subst r1 r2.
  assert (repo (sys_step q c1 y1) = s1) as Hs1 by (cbn; by rewrite E1).
  assert (repo (sys_step q c2 y2) = s2) as Hs2 by (cbn; by rewrite E2).
  apply acquire_Acquired in E1 as (u1 & Hf1 & _ & Ht1 & _ & _ & ->).
  apply acquire_Acquired in E2 as (u2 & Hf2 & _ & Ht2 & _ & _ & ->).
  pose proof (find_upload_insert _ _ _ (up_acquired fp1 owner1 lease1 (cl_fencing_token l1) now1 u1)
    Hf1 eq_refl) as Hv1.
  pose proof (find_upload_insert _ _ _ (up_acquired fp2 owner2 lease2 (cl_fencing_token l2) now2 u2)
    Hf2 eq_refl) as Hv2.
  rewrite <- Hs1 in Hv1. rewrite <- Hs2 in Hv2.
  pose proof (ev_token _ _ (evolved_find q _ y2 i _ Hq Hr1 Hl12 Hv1 u2 Hf2)) as Ht12. cbn in Ht12.
  assert (tok < cl_fencing_token l2) as Hlt by (unfold tok; lia). split; [done|].
  apply stale_token_refused. intros u3 Hu3.
  pose proof (ev_token _ _ (evolved_find q _ y3 i _ Hq Hr2' Hl23 Hv2 u3 Hu3)) as Ht23. cbn in Ht23. lia.
Qed.

(** Once a completion is recorded with a result, every later acquisition
    for that upload changes nothing and returns exactly that result for the
    same request, [CompletionConflict] for any other request, or [NotFound]
    once the upload has been retired: the object is completed at most once. *)
Theorem completion_replayed q y i tok r now :
  quotas_ok q → reach q y →
  (complete_completion i tok r now (repo y)).1 = Ok tt →
  ∃ fp, (∃ u, find_upload (repo y) i = Some u ∧ up_complete_request_fingerprint u = Some fp)
  ∧ ∀ y' fp' req owner lease now', later q (sys_step q (CComplete i tok r now) y) y' →
      acquire_completion i fp' req owner lease now' (repo y')
      = (match find_upload (repo y') i with
         | Some _ => if decide (fp' = fp) then Ok (Replayed r) else Err CompletionConflict
         | None => Err NotFound
         end, repo y').
Proof.
  intros Hq Hr Hc. destruct (complete_completion i tok r now (repo y)) as [res s1] eqn:E.
  cbn in Hc. subst res. assert (repo (sys_step q (CComplete i tok r now) y) = s1) as Hs1 by (cbn; by rewrite E).
  apply complete_Ok in E as (u & Hf & Hl & _ & _ & Hs). rewrite Hs in Hs1. clear Hs.
  pose proof (find_upload_Some _ _ _ Hf) as [Hu _].
  destruct (reach_fingerprint q y _ u Hq Hr Hu (or_introl Hl)) as [fp Hfp].
  exists fp. split; [by exists u|]. intros y' fp' req owner lease now' Hlater.
  pose proof (find_upload_insert _ _ _ (up_completed r (i64_wrap (now + DEFAULT_EXPIRY_ms)) now u)
    Hf eq_refl) as Hv. rewrite <- Hs1 in Hv.
  assert (reach q (sys_step q (CComplete i tok r now) y)) as Hr1 by by apply reach_step.
  unfold acquire_completion. destruct (find_upload (repo y') i) as [u'|] eqn:Hf'; [|done].
  pose proof (evolved_find q _ y' i _ Hq Hr1 Hlater Hv u' Hf') as He.
  pose proof (ev_path _ _ He) as Hp. cbn in Hp.
  assert (up_lifecycle u' = Completed) as -> by by destruct (up_lifecycle u').
  destruct (ev_result _ _ He eq_refl) as [-> _]. cbn.
  rewrite (ev_fingerprint _ _ He) by done. cbn. rewrite Hfp.
  destruct (decide (fp' = fp)) as [->|]; [by rewrite bool_decide_true|].
  rewrite bool_decide_false; [done|congruence].
Qed.

(** *** A completion that is taken over after its lease expired *)

Definition ex_selection : list CompletePart := [mkCompletePart 1 "etag" None].
Definition ex_first : Call := CAcquire ex_identity "fp" ex_selection "worker-1" 50 20.
Definition ex_second : Call := CAcquire ex_identity "fp" ex_selection "worker-2" 90 60.
Definition ex_result : MultipartCompletionResult :=
  mkCompletionResult (Some "etag") "sum" None 350 350 None.
Definition ex_sys1 : Sys := sys_step ex_quotas ex_first ex_sys.
Definition ex_sys2 : Sys := sys_step ex_quotas ex_second ex_sys1.
Definition ex_current : MultipartUpload := up_bytes 350 200 12 ex_upload.

Lemma ex_quotas_ok : quotas_ok ex_quotas.
Proof. by repeat split. Qed.

Lemma ex_current_lookup : uploads (repo ex_sys) !! "u1" = Some ex_current.
Proof. by vm_compute. Qed.

Lemma ex_acquired_first :
  (acquire_completion ex_identity "fp" ex_selection "worker-1" 50 20 (repo ex_sys)).1
  = Ok (Acquired (mkLease 1 [ex_part] [ex_part])).
Proof. by vm_compute. Qed.

Lemma ex_acquired_second :
  (acquire_completion ex_identity "fp" ex_selection "worker-2" 90 60 (repo ex_sys1)).1
  = Ok (Acquired (mkLease 2 [ex_part] [ex_part])).
Proof. by vm_compute. Qed.

Definition ex_leased : MultipartUpload := up_acquired "fp" "worker-1" 50 1 20 ex_current.

Lemma ex_leased_lookup : uploads (repo ex_sys1) !! "u1" = Some ex_leased.
Proof. by vm_compute. Qed.

Lemma ex_later : later ex_quotas ex_sys ex_sys1.
Proof. apply later_step; [apply later_refl|done]. Qed.

Lemma staging_lifecycle_witness : evolves ex_current ex_leased ∧ ¬ evolves ex_leased ex_current.
Proof.
  split.
  - apply (staging_lifecycle ex_quotas ex_sys "u1" ex_current ex_quotas_ok ex_reach ex_current_lookup)
      with (y' := ex_sys1); [apply ex_later | apply ex_leased_lookup].
  - intros He. pose proof (ev_token _ _ He) as Ht. cbn in Ht. lia.
Defined.

Lemma stale_completion_fenced_witness :
  ∃ e, complete_completion ex_identity 1 ex_result 70 (repo ex_sys2) = (Err e, repo ex_sys2)
    ∧ e ∈ [Fenced; NotFound].
Proof.
  apply (stale_completion_fenced ex_quotas ex_sys ex_sys1 ex_sys2 ex_identity
    "fp" ex_selection "worker-1" 50 20 (mkLease 1 [ex_part] [ex_part])
    "fp" ex_selection "worker-2" 90 60 (mkLease 2 [ex_part] [ex_part])
    ex_quotas_ok ex_reach ex_acquired_first (later_refl _ _) ex_acquired_second (later_refl _ _)).
Defined.

Lemma ex_reach2 : reach ex_quotas ex_sys2.
Proof. apply reach_step; [|done]. apply reach_step; [apply ex_reach|done]. Qed.

Lemma ex_completes : (complete_completion ex_identity 2 ex_result 70 (repo ex_sys2)).1 = Ok tt.
Proof. by vm_compute. Qed.

Lemma completion_replayed_witness :
  ∃ fp, (∃ u, find_upload (repo ex_sys2) ex_identity = Some u
           ∧ up_complete_request_fingerprint u = Some fp)
  ∧ ∀ y' fp' req owner lease now',
      later ex_quotas (sys_step ex_quotas (CComplete ex_identity 2 ex_result 70) ex_sys2) y' →
      acquire_completion ex_identity fp' req owner lease now' (repo y')
      = (match find_upload (repo y') ex_identity with
         | Some _ => if decide (fp' = fp) then Ok (Replayed ex_result) else Err CompletionConflict
         | None => Err NotFound
         end, repo y').
Proof.
  exact (completion_replayed ex_quotas ex_sys2 ex_identity 2 ex_result 70 ex_quotas_ok ex_reach2 ex_completes).
Defined.
