(* ===== verification/StagingParts.v ===== *)
(** * Multipart staging: selecting, listing and reconciling parts

    What a completion selects, how the pages of a listing fit together, and
    which artifacts the reconciliation of [server.rs] deletes. *)

From S2P Require Import Prelude Operation Staging StagingQuota StagingFence.
From stdpp Require Import sorting.

#[local] Open Scope Z_scope.
Set Default Goal Selector "!".

(** ** The parts of one upload, in order *)

#[global] Instance part_le_trans : Transitive part_le.
Proof. unfold part_le. intros a b c. lia. Qed.
#[global] Instance part_le_total : Total part_le.
Proof. unfold part_le. intros a b. lia. Qed.

Definition part_lt (a b : MultipartPart) : Prop := mp_part_number a < mp_part_number b.

Definition sorted_parts (s : MemoryState) (upload_id : string) : list MultipartPart :=
  merge_sort part_le (upload_parts s upload_id).

Lemma elem_of_upload_parts s k p :
  p ∈ upload_parts s k ↔ mp_upload_id p = k ∧ ∃ key, parts s !! key = Some p.
Proof.
  unfold upload_parts. rewrite list_elem_of_filter, list_elem_of_fmap. split.
  - intros (Hk & [key p'] & -> & Hin). split; [done|]. exists key. by apply elem_of_map_to_list.
  - intros (Hk & key & Hkey). split; [done|]. exists (key, p). split; [done|]. by apply elem_of_map_to_list.
Qed.

Lemma elem_of_sorted_parts s k p :
  p ∈ sorted_parts s k ↔ mp_upload_id p = k ∧ ∃ key, parts s !! key = Some p.
Proof. unfold sorted_parts. by rewrite merge_sort_Permutation, elem_of_upload_parts. Qed.

Lemma StronglySorted_filter {A} (R : relation A) (P : A → Prop) `{∀ x, Decision (P x)} l :
  StronglySorted R l → StronglySorted R (filter P l).
Proof.
  induction 1 as [|x l Hs IH Hall]; [constructor|]. rewrite filter_cons. case_decide; [|done].
  constructor; [done|]. rewrite Forall_forall in *. intros y [_ Hy]%list_elem_of_filter. by apply Hall.
Qed.

Ltac sorted := apply StronglySorted_merge_sort; apply _.

Section sorted.
  Context (s : MemoryState) (HA : Accounts s).

(** A part number names one part of an upload. *)
Lemma part_number_unique k p p' :
  p ∈ upload_parts s k → p' ∈ upload_parts s k → mp_part_number p = mp_part_number p' → p = p'.
Proof.
  intros [Hp [key Hkey]]%elem_of_upload_parts [Hp' [key' Hkey']]%elem_of_upload_parts Hn.
  destruct (acc_part s HA key p Hkey) as [-> _]. destruct (acc_part s HA key' p' Hkey') as [-> _].
  congruence.
Qed.

Lemma NoDup_upload_parts k : NoDup (upload_parts s k).
Proof.
  apply NoDup_filter. apply NoDup_fmap_2_strong; [|apply NoDup_map_to_list].
  intros [k1 p1] [k2 p2] H1%elem_of_map_to_list H2%elem_of_map_to_list Heq. cbn in Heq. subst.
  destruct (acc_part s HA k1 p2 H1) as [-> _]. destruct (acc_part s HA k2 p2 H2) as [-> _]. done.
Qed.

Lemma sorted_parts_lt k : StronglySorted part_lt (sorted_parts s k).
Proof.
  assert (StronglySorted part_le (sorted_parts s k)) as Hs by sorted.
  assert (NoDup (sorted_parts s k)) as Hnd.
  { unfold sorted_parts. rewrite merge_sort_Permutation. apply NoDup_upload_parts. }
  assert (∀ p, p ∈ sorted_parts s k → p ∈ upload_parts s k) as Hin.
  { intros p. unfold sorted_parts. by rewrite merge_sort_Permutation. }
  induction Hs as [|p l Hs IH Hall]; [constructor|]. inversion_clear Hnd as [|? ? Hp Hnd'].
  constructor; [apply IH; [done|]; intros x Hx; apply Hin; by right|].
  rewrite Forall_forall in Hall |- *. intros x Hx.
  assert (mp_part_number p ≠ mp_part_number x) as Hne.
  { intros E. apply Hp. rewrite (part_number_unique k p x); [done| | |done]; apply Hin; by constructor. }
  specialize (Hall x Hx). unfold part_le, part_lt in *. lia.
Qed.

(** Sorting the parts past a marker is the tail of the sorted parts. *)
Lemma sorted_filter k marker :
  merge_sort part_le (filter (λ p, mp_upload_id p = k ∧ marker < mp_part_number p)
    (map_to_list (parts s)).*2)
  = filter (λ p, marker < mp_part_number p) (sorted_parts s k).
Proof.
  assert (filter (λ p, mp_upload_id p = k ∧ marker < mp_part_number p) (map_to_list (parts s)).*2
    = filter (λ p, marker < mp_part_number p) (upload_parts s k)) as ->.
  { unfold upload_parts. rewrite list_filter_filter. apply list_filter_iff. naive_solver. }
  apply (StronglySorted_unique_strong part_le).
  - intros x y Hx Hy. rewrite merge_sort_Permutation in Hx.
    apply list_elem_of_filter in Hx as [_ Hx]. apply list_elem_of_filter in Hy as [_ Hy].
    unfold sorted_parts in Hy. rewrite merge_sort_Permutation in Hy.
    unfold part_le. intros ? ?. apply (part_number_unique k); [done..|lia].
  - sorted.
  - apply StronglySorted_filter. sorted.
  - rewrite merge_sort_Permutation. unfold sorted_parts. by rewrite merge_sort_Permutation.
Qed.
End sorted.

(** ** Selecting parts *)

(** A stored part is the one a client names. *)
Definition part_matches (request : CompletePart) (part : MultipartPart) : Prop :=
  mp_part_number part = cp_part_number request ∧ mp_etag part = cp_etag request
  ∧ (∀ checksum, cp_checksum_sha256 request = Some checksum → mp_checksum_sha256 part = checksum).

(** The numbers of a request are positive and strictly increasing. *)
Definition well_ordered (previous : Z) (requested : list CompletePart) : Prop :=
  StronglySorted (λ a b, cp_part_number a < cp_part_number b) requested
  ∧ Forall (λ r, previous < cp_part_number r) requested.

Lemma find_part current n p :
  (∀ a b, a ∈ current → b ∈ current → mp_part_number a = mp_part_number b → a = b) →
  List.find (λ p, mp_part_number p =? n) current = Some p ↔ p ∈ current ∧ mp_part_number p = n.
Proof.
  intros Hu. split.
  - intros [Hin Hn]%find_some. rewrite Z.eqb_eq in Hn. by rewrite list_elem_of_In.
  - intros [Hin Hn]. destruct (List.find _ current) as [p'|] eqn:E.
    + apply find_some in E as [Hin' Hn']. rewrite Z.eqb_eq in Hn'. apply list_elem_of_In in Hin'.
      f_equal. apply Hu; [done..|lia].
    + eapply find_none in E; [|by apply list_elem_of_In]. cbn in E. lia.
Qed.

(** The two comparisons of the loop. *)
Lemma part_matches_bool request part :
  mp_part_number part = cp_part_number request →
  negb (bool_decide (mp_etag part = cp_etag request))
    || match cp_checksum_sha256 request with
       | Some checksum => negb (bool_decide (checksum = mp_checksum_sha256 part))
       | None => false
       end = false ↔ part_matches request part.
Proof.
  intros Hn. unfold part_matches. rewrite orb_false_iff, negb_false_iff, bool_decide_eq_true.
  destruct (cp_checksum_sha256 request) as [c|]; [|naive_solver].
  rewrite negb_false_iff, bool_decide_eq_true. naive_solver.
Qed.

Lemma well_ordered_cons previous r rest :
  well_ordered previous (r :: rest)
  ↔ previous < cp_part_number r ∧ well_ordered (cp_part_number r) rest.
Proof.
  unfold well_ordered. split.
  - intros [Hs Hf]. inversion_clear Hs. by inversion_clear Hf.
  - intros (Hr & Hs & Hf). split; [by constructor|]. constructor; [done|].
    eapply Forall_impl; [exact Hf|]. cbn. intros x Hx. lia.
Qed.

Lemma validate_loop_spec current previous requested selected :
  (∀ a b, a ∈ current → b ∈ current → mp_part_number a = mp_part_number b → a = b) →
  0 <= previous →
  validate_loop current previous requested = Ok selected ↔
  well_ordered previous requested ∧ Forall2 part_matches requested selected
  ∧ Forall (λ p, p ∈ current) selected.
Proof.
  intros Hu. revert previous selected.
  induction requested as [|r rest IH]; intros previous selected Hprev; cbn.
  { split.
    - intros [= <-]. split_and!; [split; constructor | constructor..].
    - by intros (_ & ->%Forall2_nil_inv_l & _). }
  rewrite well_ordered_cons.
  destruct ((cp_part_number r =? 0) || (cp_part_number r <=? previous)) eqn:E1.
  { split; [done|]. intros ((Hr & _) & _). lia. }
  destruct (List.find _ current) as [p|] eqn:Ef.
  2: { split; [done|]. intros (_ & (q & rest' & [Hn _] & _ & ->)%Forall2_cons_inv_l & [Hin _]%Forall_cons).
       by rewrite (proj2 (find_part current _ q Hu) (conj Hin Hn)) in Ef. }
  apply (find_part current _ p Hu) in Ef as [Hin Hn].
  destruct (negb _ || match cp_checksum_sha256 r with Some _ => _ | None => _ end) eqn:E2.
  { split; [done|]. intros (_ & (q & rest' & Hm & _ & ->)%Forall2_cons_inv_l & [Hin' _]%Forall_cons).
    assert (q = p) as -> by (apply Hu; [done..|]; destruct Hm; lia).
    apply (part_matches_bool r p Hn) in Hm. congruence. }
  apply (part_matches_bool r p Hn) in E2.
  destruct (validate_loop current (cp_part_number r) rest) as [sel|e] eqn:Er; cbn.
  - apply IH in Er as (Hw & Hm & Hc); [|lia]. split.
    + intros [= <-]. split_and!; [lia | done | by constructor | by constructor].
    + intros (_ & (q & rest' & Hm' & Hms & ->)%Forall2_cons_inv_l & [Hin' Hins]%Forall_cons).
      assert (q = p) as -> by (apply Hu; [done..|]; destruct Hm'; lia).
      assert (validate_loop current (cp_part_number r) rest = Ok rest') as Er'.
      { apply IH; [lia|]. done. }
      assert (validate_loop current (cp_part_number r) rest = Ok sel) as Er by (apply IH; [lia|done]).
      rewrite Er in Er'. by injection Er' as ->.
  - split; [done|].
    intros ((_ & Hw) & (q & rest' & _ & Hms & ->)%Forall2_cons_inv_l & [_ Hins]%Forall_cons).
    assert (validate_loop current (cp_part_number r) rest = Ok rest') as Er'.
    { apply IH; [lia|]. done. }
    congruence.
Qed.

Lemma validate_selected_spec current requested selected :
  (∀ a b, a ∈ current → b ∈ current → mp_part_number a = mp_part_number b → a = b) →
  validate_selected_parts current requested = Ok selected ↔
  requested ≠ [] ∧ well_ordered 0 requested ∧ Forall2 part_matches requested selected
  ∧ Forall (λ p, p ∈ current) selected.
Proof.
  intros Hu. unfold validate_selected_parts. destruct requested as [|r rest]; [naive_solver|].
  rewrite (validate_loop_spec current 0 _ selected Hu) by lia. naive_solver.
Qed.

(** A completion of an open, unexpired upload is granted exactly when the
    request names at least one part, with positive and strictly increasing
    numbers, and every part it names is a current part of that upload with the
    ETag (and the checksum, when given) of the request.  The lease then holds
    those parts in that order, all current parts of the upload for cleanup, and
    the next fencing token; each selected part has an attempt whose upload is
    finished. *)
Theorem completion_selection q y i u fp requested owner lease now selected :
  quotas_ok q → reach q y → find_upload (repo y) i = Some u →
  up_lifecycle u = Open → now < up_expires_at_ms u → up_completion_fencing_token u < u64_max →
  (acquire_completion i fp requested owner lease now (repo y)).1
    = Ok (Acquired (mkLease (up_completion_fencing_token u + 1) selected
                      (sorted_parts (repo y) (id_upload_id i)))) ↔
  requested ≠ [] ∧ well_ordered 0 requested ∧ Forall2 part_matches requested selected
  ∧ Forall (λ p, mp_upload_id p = id_upload_id i
      ∧ parts (repo y) !! (id_upload_id i, mp_part_number p) = Some p
      ∧ ∃ a, attempts (repo y) !! mp_artifact_key p = Some a ∧ at_part a = p ∧ is_pending a = false) selected.
Proof.
  intros Hq Hr Hf Hop Hexp Htok. destruct (inv_reach q y Hq Hr) as [HA _ _].
  assert (∀ a b, a ∈ sorted_parts (repo y) (id_upload_id i) → b ∈ sorted_parts (repo y) (id_upload_id i) →
    mp_part_number a = mp_part_number b → a = b) as Hu.
  { intros a b. unfold sorted_parts. rewrite merge_sort_Permutation. by apply part_number_unique. }
  transitivity (validate_selected_parts (sorted_parts (repo y) (id_upload_id i)) requested = Ok selected).
  - unfold acquire_completion. rewrite Hf, Hop. cbn. rewrite (proj2 (Z.leb_gt _ _) Hexp).
    fold (sorted_parts (repo y) (id_upload_id i)).
    destruct (validate_selected_parts _ requested) as [sel|e]; [|done].
    unfold u64_checked_add. rewrite (proj2 (Z.leb_le _ _)) by lia. cbn. naive_solver.
  - rewrite validate_selected_spec by done. do 3 f_equiv.
    apply Forall_iff. intros p. rewrite elem_of_sorted_parts. split.
    + intros (Hp & key & Hkey). destruct (acc_part _ HA key p Hkey) as (-> & a & Ha).
      split; [done|]. split; [by rewrite <- Hp|]. by exists a.
    + intros (Hp & Hkey & _). split; [done|]. by eexists.
Qed.

Lemma completion_selection_witness :
  (acquire_completion ex_identity "fp" ex_selection "worker-1" 50 20 (repo ex_sys)).1
    = Ok (Acquired (mkLease 1 [ex_part] (sorted_parts (repo ex_sys) "u1"))).
Proof.
  apply (completion_selection ex_quotas ex_sys ex_identity ex_current "fp" ex_selection "worker-1" 50 20
    [ex_part] ex_quotas_ok ex_reach); [by vm_compute | done | done | done |].
  split_and!; [done | | |].
  - split; repeat constructor.
  - repeat constructor. intros checksum. done.
  - apply Forall_singleton. split; [done|]. split; [by vm_compute|]. eexists. by vm_compute.
Defined.

(** ** Listing *)

(** What a client collects that follows the pages of [list_parts] from a marker. *)
Fixpoint follow_pages (fuel : nat) (s : MemoryState) (i : MultipartIdentity) (marker : Z) (limit : nat)
    : list MultipartPart :=
  match fuel with
  | O => []
  | S fuel =>
    match (list_parts i marker limit s).1 with
    | Ok (page, true) =>
      page ++ follow_pages fuel s i (from_option mp_part_number marker (last page)) limit
    | Ok (page, false) => page
    | Err _ => []
    end
  end.

Lemma filter_none {A} (P : A → Prop) `{∀ x, Decision (P x)} (l : list A) :
  (∀ x, x ∈ l → ¬ P x) → filter P l = [].
Proof.
  induction l as [|x l IH]; intros Hl; [done|]. rewrite filter_cons, decide_False by set_solver.
  apply IH. set_solver.
Qed.

Lemma filter_all {A} (P : A → Prop) `{∀ x, Decision (P x)} (l : list A) : (∀ x, x ∈ l → P x) → filter P l = l.
Proof.
  induction l as [|x l IH]; intros Hl; [done|]. rewrite filter_cons, decide_True by set_solver.
  f_equal. apply IH. set_solver.
Qed.

(** What follows a page is what is past its last number. *)
Lemma drop_page l marker limit x :
  StronglySorted part_lt l →
  last (take limit (filter (λ p, marker < mp_part_number p) l)) = Some x →
  filter (λ p, mp_part_number x < mp_part_number p) l
  = drop limit (filter (λ p, marker < mp_part_number p) l).
Proof.
  intros Hs Hx. set (l' := filter _ l) in *.
  assert (StronglySorted part_lt l') as Hs' by by apply StronglySorted_filter.
  apply last_Some in Hx as [front Hx].
  assert (marker < mp_part_number x) as Hm.
  { assert (x ∈ l') as [? _]%list_elem_of_filter; [|done].
    rewrite <- (take_drop limit l'), Hx. set_solver. }
  assert (filter (λ p, mp_part_number x < mp_part_number p) l
    = filter (λ p, mp_part_number x < mp_part_number p) l') as ->.
  { unfold l'. rewrite list_filter_filter. apply list_filter_iff. intros p. lia. }
  rewrite <- (take_drop limit l') in Hs'. rewrite <- (take_drop limit l') at 1.
  rewrite Hx in Hs'. rewrite filter_app, Hx. clearbody l'. clear Hx Hs.
  rewrite filter_none, filter_all; [done| |].
  - intros p Hp. by apply (StronglySorted_app_1_elem_of part_lt (front ++ [x]) _ x p Hs'); [set_solver|].
  - apply StronglySorted_app_1_l in Hs'.
    intros p [Hp| ->%list_elem_of_singleton]%elem_of_app; [|lia].
    pose proof (StronglySorted_app_1_elem_of _ front [x] p x Hs' Hp ltac:(set_solver)) as Hlt.
    unfold part_lt in Hlt. lia.
Qed.

(** The pages of a listing fit together: following the markers with any
    positive page size, a client collects exactly the current parts of the
    upload past its first marker, each once, in increasing part number. *)
Theorem listing_complete q y i u marker limit :
  quotas_ok q → reach q y → find_upload (repo y) i = Some u → (0 < limit)%nat →
  follow_pages (S (length (sorted_parts (repo y) (id_upload_id i)))) (repo y) i marker limit
    = filter (λ p, marker < mp_part_number p) (sorted_parts (repo y) (id_upload_id i))
  ∧ StronglySorted part_lt (sorted_parts (repo y) (id_upload_id i))
  ∧ ∀ p, p ∈ sorted_parts (repo y) (id_upload_id i) ↔
      parts (repo y) !! (id_upload_id i, mp_part_number p) = Some p.
Proof.
  intros Hq Hr Hf Hlim. destruct (inv_reach q y Hq Hr) as [HA _ _].
  set (l := sorted_parts (repo y) (id_upload_id i)).
  assert (StronglySorted part_lt l) as Hs by by apply sorted_parts_lt.
  split; [|split; [done|]].
  - assert (∀ fuel (m : Z), (length (filter (λ p, m < mp_part_number p)%Z l) < fuel)%nat →
      follow_pages fuel (repo y) i m limit = filter (λ p, m < mp_part_number p) l) as Hgo.
    { induction fuel as [|fuel IH]; intros m Hfuel; [lia|]. cbn [follow_pages].
      unfold list_parts, get_authorized. rewrite Hf. cbn [ok_or fst].
      rewrite sorted_filter by done. fold l. set (l' := filter _ l) in *.
      destruct (decide (limit < length l')%nat) as [Hlt|Hge];
        [rewrite bool_decide_true by done | rewrite bool_decide_false by done; apply take_ge; lia].
      destruct (last (take limit l')) as [x|] eqn:Hx.
      2: { apply last_None in Hx. apply (f_equal length) in Hx. rewrite length_take in Hx. cbn in Hx. lia. }
      cbn. pose proof (drop_page l m limit x Hs Hx) as Hdrop. fold l' in Hdrop.
      rewrite IH; rewrite Hdrop; [apply take_drop|]. rewrite length_drop. lia. }
    apply Hgo. pose proof (length_filter (λ p, marker < mp_part_number p) l). lia.
  - intros p. unfold l. rewrite elem_of_sorted_parts. split.
    + intros (Hp & key & Hkey). destruct (acc_part _ HA key p Hkey) as (-> & _). by rewrite <- Hp.
    + intros Hkey. destruct (acc_part _ HA _ p Hkey) as ([= Hp] & _). split; [done|]. by eexists.
Qed.

Lemma listing_complete_witness :
  follow_pages (S (length (sorted_parts (repo ex_sys) "u1"))) (repo ex_sys) ex_identity 0 1
    = filter (λ p, 0 < mp_part_number p) (sorted_parts (repo ex_sys) "u1").
Proof.
  apply (listing_complete ex_quotas ex_sys ex_identity ex_current 0 1 ex_quotas_ok ex_reach);
    [by vm_compute | lia].
Defined.

(** ** Reconciliation *)

(** Confirming a deletion forgets at most that artifact. *)
Lemma confirm_attempts s clock key k a :
  Accounts s → attempts (confirm_artifact_deleted clock key s).2 !! k = Some a →
  attempts s !! k = Some a ∧ k ≠ key.
Proof.
  intros HA. destruct (confirm_cases s clock key HA) as [[Hn ->]|(b & u & Hb & Hu & ->)]; cbn.
  - intros Ha. split; [done|]. congruence.
  - by intros [? ?]%lookup_delete_Some.
Qed.

Lemma confirm_attempts_other s clock key k :
  Accounts s → k ≠ key → attempts (confirm_artifact_deleted clock key s).2 !! k = attempts s !! k.
Proof.
  intros HA Hne. destruct (confirm_cases s clock key HA) as [[Hn ->]|(b & u & Hb & Hu & ->)]; cbn; [done|].
  by rewrite lookup_delete_ne.
Qed.

Lemma confirm_parts s clock key k p :
  Accounts s → parts (confirm_artifact_deleted clock key s).2 !! k = Some p → parts s !! k = Some p.
Proof.
  intros HA. destruct (confirm_cases s clock key HA) as [[Hn ->]|(b & u & Hb & Hu & ->)]; cbn; [done|].
  by intros [? _]%map_lookup_filter_Some.
Qed.

(** One pass of the loop body after a deletion that succeeded. *)
Lemma confirm_audit q s clock key a :
  Accounts s → Bounded q s →
  ∃ s', confirm_artifact_deleted clock key s = (Ok tt, s')
    ∧ Accounts (audit a s').2 ∧ Bounded q (audit a s').2 ∧ attempts s' !! key = None.
Proof.
  intros HA HB. destruct (keeps_confirm q s HA HB clock key) as (HA' & HB' & _).
  destruct (audit_keeps q _ a HA' HB') as (HA'' & HB'' & _).
  exists (confirm_artifact_deleted clock key s).2. split; [|split; [done|split; [done|]]].
  - destruct (confirm_cases s clock key HA) as [[_ ->]|(b & u & _ & _ & ->)]; done.
  - apply eq_None_not_Some. intros [b Hb]. by apply confirm_attempts in Hb as [_ ?].
Qed.

Section reconcile.
  Context {W : Type} `{ArtifactStore W} (q : StagingQuotaLimits).

(** The deletion loop always ends, keeps the accounts, and forgets only candidates. *)
Lemma delete_candidates_keeps clock id cs s (w : W) :
  Accounts s → Bounded q s →
  ∃ s' w', delete_candidates clock id cs (s, w) = (Ok tt, (s', w'))
    ∧ Accounts s' ∧ Bounded q s'
    ∧ (∀ k a, attempts s' !! k = Some a → attempts s !! k = Some a)
    ∧ (∀ k p, parts s' !! k = Some p → parts s !! k = Some p)
    ∧ (∀ k, k ∉ (cc_artifact_key <$> cs) → attempts s' !! k = attempts s !! k)
    ∧ (∀ k u, uploads s !! k = Some u → ∃ u', uploads s' !! k = Some u' ∧ evolves u u'
         ∧ up_lifecycle u' = up_lifecycle u
         ∧ up_completion_lease_expires_at_ms u' = up_completion_lease_expires_at_ms u)
    ∧ ((∀ k w, (store_delete k w).1 = true) →
       ∀ c, c ∈ cs → attempts s' !! cc_artifact_key c = None).
Proof.
  revert s w. induction cs as [|c cs IH]; intros s w HA HB; cbn.
  { exists s, w. split_and!; try done; [|set_solver].
    intros k u Hu. exists u. by split_and!; [|apply evolves_refl|..]. }
  destruct (store_delete (cc_artifact_key c) w) as [[|] w1] eqn:Ed.
  2: { destruct (IH s w1 HA HB) as (s' & w' & E & HA' & HB' & H1 & H2 & H3 & H4 & H5).
       exists s', w'. split_and!; try done; [intros k Hk; apply H3; set_solver|].
       intros Hok. specialize (Hok (cc_artifact_key c) w). by rewrite Ed in Hok. }
  set (au := mkAudit _ _ _ _ _).
  destruct (confirm_audit q s clock (cc_artifact_key c) au HA HB) as (s1 & Hc & HA1 & HB1 & Hn).
  rewrite Hc. destruct (IH (audit au s1).2 w1 HA1 HB1) as (s' & w' & E & HA' & HB' & H1 & H2 & H3 & H4 & H5).
  assert (s1 = (confirm_artifact_deleted clock (cc_artifact_key c) s).2) as Hs1 by by rewrite Hc.
  exists s', w'. cbn in *. split_and!; [done..| | | | |].
  - intros k a Ha. specialize (H1 k a Ha). rewrite Hs1 in H1.
    by apply confirm_attempts in H1 as [? _].
  - intros k p Hp. specialize (H2 k p Hp). rewrite Hs1 in H2. by apply confirm_parts in H2.
  - intros k Hk. rewrite H3 by set_solver. rewrite Hs1. apply confirm_attempts_other; [done|set_solver].
  - intros k u Hu.
    assert (∃ u', uploads s1 !! k = Some u' ∧ evolves u u' ∧ up_lifecycle u' = up_lifecycle u
      ∧ up_completion_lease_expires_at_ms u' = up_completion_lease_expires_at_ms u)
      as (u1 & Hu1 & He1 & Hl1 & Hx1).
    { rewrite Hs1. destruct (confirm_cases s clock (cc_artifact_key c) HA) as [[_ ->]|(b & v & Hb & Hv & ->)].
      - exists u. by split_and!; [|apply evolves_refl|..].
      - cbn. destruct (decide (mp_upload_id (at_part b) = k)) as [<-|].
        + rewrite lookup_insert_eq. eexists. split; [done|]. simplify_eq. split; [apply evolves_bytes|done].
        + rewrite lookup_insert_ne by done. exists u. by split_and!; [|apply evolves_refl|..]. }
    destruct (H4 k u1 Hu1) as (u2 & Hu2 & He2 & Hl2 & Hx2). exists u2.
    split_and!; [done | by eapply evolves_trans | congruence | congruence].
  - intros Hok c' [->|Hin]%elem_of_cons; [|by apply H5].
    apply eq_None_not_Some. intros [a Ha]. specialize (H1 _ a Ha). congruence.
Qed.
End reconcile.

(** When the limit covers the attempts, every attempt is looked at. *)
Lemma cleanup_candidates_all s order now limit k a c :
  order ≡ₚ (map_to_list (attempts s)).*1 → (size (attempts s) <= limit)%nat →
  attempts s !! k = Some a → cleanup_candidate s now (k, a) = Some c →
  ∃ cs, cleanup_candidates order now limit s = (Ok cs, s) ∧ c ∈ cs.
Proof.
  intros Hord Hlim Ha Hc. eexists. split; [done|]. rewrite take_ge.
  - apply list_elem_of_omap. exists (k, a). split; [|done]. apply list_elem_of_omap.
    exists k. split; [|by rewrite Ha]. rewrite Hord. apply list_elem_of_fmap.
    exists (k, a). split; [done|]. by apply elem_of_map_to_list.
  - assert (length order = size (attempts s)) as Hlen by by rewrite Hord, length_fmap, length_map_to_list.
    transitivity (length order); [|lia]. unfold in_order.
    transitivity (length (omap (λ k, (λ v, (k, v)) <$> attempts s !! k) order)).
    + generalize (omap (λ k, (λ v, (k, v)) <$> attempts s !! k) order) as l. clear.
      induction l as [|x l IH]; cbn; [done|]. case_match; cbn; lia.
    + clear. induction order as [|x l IH]; cbn; [done|]. case_match; cbn; lia.
Qed.

(** The reconciliation keeps what the deletion loop leaves in the repository. *)
Lemma reconcile_repo `{ArtifactStore W} q order now id s (w : W) cs :
  Accounts s → Bounded q s → cleanup_candidates order now 256 s = (Ok cs, s) →
  (reconcile_staged_artifacts order now id (s, w)).2.1 = (delete_candidates now id cs (s, w)).2.1.
Proof.
  intros HA HB Hcs. unfold reconcile_staged_artifacts. rewrite Hcs.
  destruct (delete_candidates_keeps q now id cs s w HA HB) as (s' & w' & -> & _). cbn.
  by destruct (store_list ARTIFACT_PREFIX w') as [[l|e] w''].
Qed.

(** An acquisition that follows the removal of a part it names is refused. *)
Lemma acquire_missing s i u fp req owner lease now r :
  find_upload s i = Some u → up_lifecycle u = Completing →
  up_complete_request_fingerprint u = Some fp →
  (∀ e, up_completion_lease_expires_at_ms u = Some e → e <= now) →
  Accounts s → head req = Some r → parts s !! (id_upload_id i, cp_part_number r) = None →
  acquire_completion i fp req owner lease now s = (Err InvalidPart, s).
Proof.
  intros Hf Hl Hfp Hexp HA Hhd Hnone. unfold acquire_completion. rewrite Hf, Hl. cbn.
  rewrite (bool_decide_true _ Hfp). cbn.
  assert (match up_completion_lease_expires_at_ms u with Some e => now <? e | None => false end = false) as ->.
  { destruct (up_completion_lease_expires_at_ms u) as [e|]; [|done]. apply Z.ltb_ge. by apply Hexp. }
  fold (sorted_parts s (id_upload_id i)).
  destruct req as [|r' rest]; [done|]. injection Hhd as ->. cbn.
  destruct (_ || _); [done|]. destruct (List.find _ _) as [p'|] eqn:Efind; [|done].
  apply find_some in Efind as [Hin Hn']. apply list_elem_of_In, elem_of_sorted_parts in Hin as (Hp' & key & Hkey).
  destruct (acc_part s HA key p' Hkey) as (-> & _). apply Z.eqb_eq in Hn'. congruence.
Qed.

(** A reconciliation whose deletions succeed removes every artifact of an upload
    that is not open, and leaves the upload itself. *)
Lemma reconcile_clears `{ArtifactStore W} q s k u order now id (w : W) :
  Accounts s → Bounded q s → (∀ k w, (store_delete k w).1 = true) →
  uploads s !! k = Some u → up_lifecycle u ≠ Open →
  order ≡ₚ (map_to_list (attempts s)).*1 → (size (attempts s) <= 256)%nat →
  let s' := (reconcile_staged_artifacts order now id (s, w)).2.1 in
  Accounts s'
  ∧ (∀ j a, attempts s' !! j = Some a → mp_upload_id (at_part a) ≠ k)
  ∧ (∀ n, parts s' !! (k, n) = None)
  ∧ ∃ u', uploads s' !! k = Some u' ∧ evolves u u' ∧ up_lifecycle u' = up_lifecycle u
      ∧ up_completion_lease_expires_at_ms u' = up_completion_lease_expires_at_ms u.
Proof.
  intros HA HB Hdel Hu Hl Hord Hsize s2. pose proof (eq_refl : cleanup_candidates order now 256 s = _) as Ecs.
  unfold cleanup_candidates at 2 in Ecs. set (cs := take 256 _) in Ecs.
  destruct (delete_candidates_keeps q now id cs s w HA HB)
    as (s' & w' & Hd & HA' & HB' & Hatt & Hparts & _ & Hups & Hgone).
  assert (s2 = s') as -> by (unfold s2; rewrite (reconcile_repo q order now id s w cs HA HB Ecs), Hd; done).
  assert (∀ j a, attempts s' !! j = Some a → mp_upload_id (at_part a) ≠ k) as Hclear.
  { intros j a Ha Hk. pose proof (Hatt j a Ha) as Ha0.
    destruct (cleanup_candidates_all s order now 256 j a (mkCandidate k j)) as (cs' & Ecs' & Hin); [done..| |].
    - unfold cleanup_candidate. rewrite Hk, Hu. cbn. by rewrite bool_decide_false.
    - rewrite Ecs in Ecs'. injection Ecs' as <-. specialize (Hgone Hdel _ Hin). cbn in Hgone. congruence. }
  split_and!; [done | done | | by apply Hups].
  intros n. apply eq_None_not_Some. intros [p Hp].
  destruct (acc_part s' HA' _ p Hp) as ([= Hk _] & a & Ha & <- & _). by apply (Hclear _ a Ha).
Qed.

(** A reconciliation that runs while a completion holds its lease deletes
    the parts of that upload, whether or not the lease is still valid:
    [cleanup_candidates] offers every attempt of an upload that is not OPEN, and
    a COMPLETING upload is not.  Afterwards no part and no attempt of the upload
    exists, and every retry of the completion is refused with [InvalidPart]. *)
Theorem reconcile_undoes_completion `{ArtifactStore W} q y i fp req owner lease now l order now' id (w : W) :
  quotas_ok q → reach q y → (∀ k w, (store_delete k w).1 = true) →
  (acquire_completion i fp req owner lease now (repo y)).1 = Ok (Acquired l) →
  let s1 := (acquire_completion i fp req owner lease now (repo y)).2 in
  order ≡ₚ (map_to_list (attempts s1)).*1 → (size (attempts s1) <= 256)%nat →
  let s2 := (reconcile_staged_artifacts order now' id (s1, w)).2.1 in
  (∀ n, parts s2 !! (id_upload_id i, n) = None)
  ∧ (∀ k a, attempts s2 !! k = Some a → mp_upload_id (at_part a) ≠ id_upload_id i)
  ∧ ∀ owner' lease' now'', lease <= now'' →
      acquire_completion i fp req owner' lease' now'' s2 = (Err InvalidPart, s2).
Proof.
  intros Hq Hr Hdel Hacq s1 Hord Hsize s2. pose proof (inv_reach q y Hq Hr) as [HA HB _].
  destruct (acquire_keeps q (repo y) i fp req owner lease now HA HB) as (HA1 & HB1 & _). fold s1 in HA1, HB1.
  assert (acquire_completion i fp req owner lease now (repo y) = (Ok (Acquired l), s1)) as E
    by (unfold s1; destruct (acquire_completion _ _ _ _ _ _ _); naive_solver).
  apply acquire_Acquired in E as (u & Hf & _ & _ & _ & Hval & Hs1). clearbody s1. subst s1.
  set (u1 := up_acquired fp owner lease (cl_fencing_token l) now u) in *.
  pose proof (find_upload_Some _ _ _ (find_upload_insert _ _ _ u1 Hf eq_refl)) as [Hu1 Hid].
  destruct (reconcile_clears q _ _ u1 order now' id w HA1 HB1 Hdel Hu1 ltac:(done) Hord Hsize)
    as (HA2 & Hatt & Hparts & u2 & Hu2 & He & Hl2 & Hx2). fold s2 in HA2, Hatt, Hparts, Hu2.
  split_and!; [done..|]. intros owner' lease' now'' Hexp.
  destruct req as [|r rest]; [done|].
  apply (acquire_missing s2 i u2 fp _ _ _ _ r); try done.
  - unfold find_upload. rewrite Hu2. cbn. unfold same_identity.
    rewrite (ev_identity _ _ He), Hid. by rewrite !bool_decide_true.
  - by rewrite (ev_fingerprint _ _ He).
  - rewrite Hx2. by intros e [= <-].
Qed.

(** *** A store that records what it is asked to delete *)

Definition log_store (ok : string → bool) (listing : list StagedArtifact) : ArtifactStore (list string) :=
  {| store_delete k w := (ok k, k :: w); store_list _ w := (Ok listing, w) |}.

Definition ex_keys : list string := ["multipart/acme/u1/1/aaaa"; "multipart/acme/u1/2/bbbb"].

Lemma ex_keys_order :
  ex_keys ≡ₚ (map_to_list (attempts (acquire_completion ex_identity "fp" ex_selection "worker-1" 50 20
                (repo ex_sys)).2)).*1.
Proof. apply (bool_decide_unpack _). by vm_compute. Qed.

Lemma reconcile_undoes_completion_witness :
  let s2 := (@reconcile_staged_artifacts _ (log_store (λ _, true) []) ex_keys 30 0
    ((acquire_completion ex_identity "fp" ex_selection "worker-1" 50 20 (repo ex_sys)).2, [])).2.1 in
  acquire_completion ex_identity "fp" ex_selection "worker-2" 90 60 s2 = (Err InvalidPart, s2).
Proof.
  refine (proj2 (proj2 (@reconcile_undoes_completion _ (log_store (λ _, true) []) ex_quotas ex_sys ex_identity "fp"
    ex_selection "worker-1" 50 20 (mkLease 1 [ex_part] [ex_part]) ex_keys 30 0 []
    ex_quotas_ok ex_reach ltac:(done) ex_acquired_first ex_keys_order _)) "worker-2" 90 60 ltac:(lia)).
  apply Nat.leb_le. by vm_compute.
Defined.

Section spares.
  Context (ok : string → bool) (listing : list StagedArtifact).
#[local] Abbreviation store := (log_store ok listing).

Lemma delete_candidates_log clock id cs s (w : list string) r s' w' :
  @delete_candidates _ store clock id cs (s, w) = (r, (s', w')) →
  ∀ k, k ∈ w' → k ∈ w ∨ k ∈ (cc_artifact_key <$> cs).
Proof.
  revert s w. induction cs as [|c cs IH]; intros s w; cbn.
  { intros [= <- <- <-] k Hk. by left. }
  destruct (ok (cc_artifact_key c)).
  - destruct (confirm_artifact_deleted _ _ _) as [[[]|e] s1].
    + intros E k Hk. specialize (IH _ _ E k Hk). set_solver.
    + intros [= <- <- <-] k Hk. set_solver.
  - intros E k Hk. specialize (IH _ _ E k Hk). set_solver.
Qed.

Lemma delete_unknown_log known cutoff l (w : list string) k :
  k ∈ @delete_unknown _ store known cutoff l w → k ∈ w ∨ known !! k = None.
Proof.
  revert w. induction l as [|a l IH]; intros w Hk; cbn in *; [by left|].
  apply IH in Hk as [Hk|Hk]; [|by right].
  destruct (bool_decide (known !! sa_key a = None)) eqn:E; cbn in Hk; [|by left].
  apply bool_decide_eq_true in E. destruct (_ <=? _); set_solver.
Qed.

(** In every reachable state, whatever the store answers and lists and in
    whatever order the attempts are read, the reconciliation ends without an
    error and asks for the deletion of no artifact that an open upload still
    needs: neither the current attempt of a part nor a pending attempt younger
    than the grace period. *)
Theorem reconcile_spares_open q y order now id :
  quotas_ok q → reach q y →
  ∃ s' w', @reconcile_staged_artifacts _ store order now id (repo y, []) = (Ok tt, (s', w'))
  ∧ ∀ k a u, attempts (repo y) !! k = Some a →
      uploads (repo y) !! mp_upload_id (at_part a) = Some u → up_lifecycle u = Open →
      at_lifecycle a = "CURRENT"
      ∨ at_lifecycle a = "PENDING"
        ∧ i64_wrap (now - RECONCILIATION_GRACE_ms) < mp_created_at_ms (at_part a) →
      (k ∉ w') ∧ attempts s' !! k = Some a.
Proof.
  intros Hq Hr. pose proof (inv_reach q y Hq Hr) as [HA HB _].
  unfold reconcile_staged_artifacts. cbn [cleanup_candidates].
  set (cs := take 256 _).
  destruct (@delete_candidates_keeps _ store q now id cs (repo y) [] HA HB)
    as (s' & w' & Hd & _ & _ & _ & _ & Hkeep & _). rewrite Hd. cbn.
  eexists _, _. split; [done|]. intros k a u Ha Hu Hop Hlive.
  assert (k ∉ (cc_artifact_key <$> cs)) as Hk.
  { intros (c & -> & Hc)%list_elem_of_fmap. apply elem_of_take in Hc as (n & Hc & _).
    apply list_elem_of_lookup_2, list_elem_of_omap in Hc as ([j b] & Hb & Hc).
    apply in_order_lookup in Hb. unfold cleanup_candidate in Hc.
    destruct (uploads (repo y) !! mp_upload_id (at_part b)) as [v|] eqn:Hv; cbn in Hc; [|done].
    destruct (_ || _) eqn:Eb; [|done]. injection Hc as <-. cbn in Ha. simplify_eq.
    rewrite Hop in Eb. destruct Hlive as [Hl | [Hl Hage]]; rewrite Hl in Eb; cbn in Eb; [done|].
    apply Z.leb_le in Eb. lia. }
  rewrite Hkeep by done. split; [|done]. intros Hin. apply delete_unknown_log in Hin as [Hin|Hin].
  - apply (delete_candidates_log _ _ _ _ _ _ _ _ Hd) in Hin as [Hin|Hin]; [by apply elem_of_nil in Hin|done].
  - rewrite lookup_fmap, Hkeep, Ha in Hin by done. done.
Qed.
End spares.

Lemma reconcile_spares_open_witness :
  ∃ s' w', @reconcile_staged_artifacts _ (log_store (λ _, true) [mkStaged "multipart/x" 0]) ex_keys 1000000 0
    (repo ex_sys, []) = (Ok tt, (s', w'))
  ∧ ∀ k a u, attempts (repo ex_sys) !! k = Some a →
      uploads (repo ex_sys) !! mp_upload_id (at_part a) = Some u → up_lifecycle u = Open →
      at_lifecycle a = "CURRENT"
      ∨ at_lifecycle a = "PENDING"
        ∧ i64_wrap (1000000 - RECONCILIATION_GRACE_ms) < mp_created_at_ms (at_part a) →
      (k ∉ w') ∧ attempts s' !! k = Some a.
Proof.
  apply (reconcile_spares_open (λ _, true) [mkStaged "multipart/x" 0] ex_quotas ex_sys ex_keys 1000000 0
    ex_quotas_ok ex_reach).
Defined.

(** ** Two defects of the in-memory repository *)

(** [create] replaces the stored upload before it reports the duplicate. *)
Example duplicate_create_overwrites u :
  id_upload_id (up_identity u) = "u1" → id_tenant_id (up_identity u) = "other" →
  (create u (repo ex_sys)).1 = Err (Persistence "duplicate upload id")
  ∧ uploads (create u (repo ex_sys)).2 !! "u1" = Some u.
Proof.
  intros Hk Ht. unfold create. rewrite Hk, Ht.
  rewrite decide_False by (apply Nat.leb_nle; by vm_compute).
  rewrite ex_current_lookup. split; [done|]. apply lookup_insert_eq.
Qed.

(** A commit that is repeated with the same pending part is refused, but the
    current attempt is retired by then, and the next reconciliation deletes the
    artifact of a part that is still listed. *)
Example repeated_commit_retires_current :
  let (r, s) := commit_part 14 ex_identity ex_pending ex_part (repo ex_sys) in
  r = Err NotFound
  ∧ parts s !! ("u1", 1) = Some ex_part
  ∧ at_lifecycle <$> attempts s !! mp_artifact_key ex_part = Some "RETIRED"
  ∧ (cleanup_candidates ex_keys 15 256 s).1 = Ok [mkCandidate "u1" (mp_artifact_key ex_part)].
Proof. by vm_compute. Qed.
