(* ===== verification/BinaryIr.v ===== *)
(** * The binary IR: [crates/gateway/src/binary_ir.rs]

    Schemas and values of the format-neutral representation that binary codecs
    hand to reductors: validation with its limits, the conformance of a value to
    a schema, paths, and the claims a reductor makes on them.

    Text is the list of its UTF-8 bytes.  A float is its bit pattern.  A
    [&mut path] that is pushed and popped around a call is the path passed down.
    A visitor is called with the entries of the list the traversal returns, in
    that order; the mutable traversal threads the visitor's own state.  The
    [uuid] crate, [serde_json] and the derived (de)serialization are parameters
    ([UuidText], [SerdeJson]). *)

From S2P Require Import Prelude RustStr.

#[local] Open Scope Z_scope.
Set Default Goal Selector "!".

Abbreviation str := (list byte) (only parsing).
Definition text (s : str) : string := String.string_of_list_byte s.

(** ** Limits *)

Definition SCHEMA_IR_VERSION : Z := 1.
Definition VALUE_IR_VERSION : Z := 1.

Definition ERROR_SCHEMA_INVALID : string := "binary_ir.schema_invalid".
Definition ERROR_VALUE_INVALID : string := "binary_ir.value_invalid".
Definition ERROR_VERSION_UNSUPPORTED : string := "binary_ir.version_unsupported".
Definition ERROR_NON_CANONICAL : string := "binary_ir.non_canonical".

Record BinaryIrLimits := mkIrLimits {
  max_encoded_schema_bytes : Z;
  max_fields : Z;
  max_nesting_depth : Z;
  max_encoded_value_bytes : Z;
}.

Definition ir_limits_default : BinaryIrLimits :=
  mkIrLimits (1024 * 1024) 4096 8 (8 * 1024 * 1024).

Definition ir_limits_validate (l : BinaryIrLimits) : result S4Error unit :=
  if (max_encoded_schema_bytes l =? 0) || (max_fields l =? 0)
     || (max_nesting_depth l =? 0) || (max_encoded_value_bytes l =? 0)
  then Err (mkS4Error "config.invalid" "binary IR limits must be greater than zero")
  else Ok tt.

(** ** Schemas *)

Inductive SchemaNode : Type :=
| mkNode (nullable : bool) (kind : SchemaKind)
with SchemaKind : Type :=
| KNull | KBoolean | KI32 | KI64 | KF32 | KF64 | KString | KBytes
| KArray (items : SchemaNode)
| KMap (values : SchemaNode)
| KRecord (fields : list (str * SchemaNode))
| KDate | KTime | KTimestamp | KUuid
| KDecimal (precision scale : Z)
| KCustom (type_id : str) (value : SchemaNode).

Definition node_nullable (n : SchemaNode) : bool := let 'mkNode b _ := n in b.
Definition node_kind (n : SchemaNode) : SchemaKind := let 'mkNode _ k := n in k.

Record SchemaIr := mkSchemaIr { schema_version : Z; schema_root : SchemaNode }.

Definition schema_ir_new (root : SchemaNode) : SchemaIr := mkSchemaIr SCHEMA_IR_VERSION root.

Inductive SchemaPathSegment : Type :=
| SField (name : str) | SArrayElement | SMapValue | SLogicalValue.
#[global] Instance SchemaPathSegment_eq_dec : EqDecision SchemaPathSegment.
Proof. solve_decision. Defined.

Abbreviation SchemaPath := (list SchemaPathSegment) (only parsing).

(** [Display for SchemaPath]. *)
Definition schema_path_display (p : SchemaPath) : string :=
  foldl (λ acc seg, acc +:+ match seg with
    | SField name => "." +:+ text name
    | SArrayElement => "[*]"
    | SMapValue => "{*}"
    | SLogicalValue => "<logical>"
    end) "$" p.

Definition schema_error (p : SchemaPath) (message : string) : S4Error :=
  mkS4Error ERROR_SCHEMA_INVALID ("schema at " +:+ schema_path_display p +:+ ": " +:+ message).

Definition validate_version (kind : string) (actual expected : Z) : result S4Error unit :=
  if actual =? expected then Ok tt
  else Err (mkS4Error ERROR_VERSION_UNSUPPORTED ("unsupported " +:+ kind +:+ " IR version " +:+
              pretty actual +:+ "; expected " +:+ pretty expected)).

(** The loop over the fields of a record schema; [names] are those seen so far. *)
Definition validate_fields (path : SchemaPath) (check : str → Z → SchemaNode → result S4Error Z) :=
  fix go (names : list str) (field_count : Z) (fields : list (str * SchemaNode)) {struct fields} :=
    match fields with
    | [] => Ok field_count
    | (name, schema) :: fields =>
      if bool_decide (name = []) then Err (schema_error path "field names must not be empty")
      else if bool_decide (name ∈ names) then
        Err (schema_error path ("duplicate field name " +:+ debug_str (text name)))
      else
        field_count ← check name field_count schema;
        go (name :: names) field_count fields
    end.

(** [SchemaNode::validate_inner]; the result carries the new [field_count]. *)
Fixpoint validate_node (l : BinaryIrLimits) (depth : Z) (field_count : Z) (path : SchemaPath)
    (n : SchemaNode) {struct n} : result S4Error Z :=
  let 'mkNode nullable kind := n in
  if max_nesting_depth l <? depth then
    Err (schema_error path ("nesting depth " +:+ pretty depth +:+ " exceeds limit " +:+
           pretty (max_nesting_depth l)))
  else if nullable && (match kind with KNull => true | _ => false end) then
    Err (schema_error path "null cannot also be nullable")
  else validate_kind l depth field_count path kind
with validate_kind (l : BinaryIrLimits) (depth : Z) (field_count : Z) (path : SchemaPath)
    (k : SchemaKind) {struct k} : result S4Error Z :=
  match k with
  | KArray items => validate_node l (depth + 1) field_count (path ++ [SArrayElement]) items
  | KMap values => validate_node l (depth + 1) field_count (path ++ [SMapValue]) values
  | KRecord fields =>
    if u64_max <? field_count + Z.of_nat (length fields) then
      Err (schema_error path "field count overflow while validating schema")
    else
      let field_count := field_count + Z.of_nat (length fields) in
      if max_fields l <? field_count then
        Err (schema_error path ("field count " +:+ pretty field_count +:+ " exceeds limit " +:+
               pretty (max_fields l)))
      else
        validate_fields path
          (λ name field_count schema,
             validate_node l (depth + 1) field_count (path ++ [SField name]) schema)
          [] field_count fields
  | KDecimal precision scale =>
    if precision =? 0 then Err (schema_error path "decimal precision must be positive")
    else if precision <? scale then
      Err (schema_error path ("decimal scale " +:+ pretty scale +:+ " exceeds precision " +:+
             pretty precision))
    else Ok field_count
  | KCustom type_id value =>
    if bool_decide (type_id = []) then
      Err (schema_error path "custom logical type ID must not be empty")
    else validate_node l (depth + 1) field_count (path ++ [SLogicalValue]) value
  | _ => Ok field_count
  end.

(** [SchemaIr::validate]. *)
Definition schema_validate (schema : SchemaIr) (l : BinaryIrLimits) : result S4Error unit :=
  _ ← ir_limits_validate l;
  _ ← validate_version "schema" (schema_version schema) SCHEMA_IR_VERSION;
  _ ← validate_node l 0 0 [] (schema_root schema);
  Ok tt.

(** [SchemaNode::visit_paths_inner]: the calls of the visitor, in order. *)
Fixpoint visit_node (path : SchemaPath) (n : SchemaNode) {struct n} : list (SchemaPath * SchemaNode) :=
  (path, n) :: (let 'mkNode _ kind := n in visit_kind path kind)
with visit_kind (path : SchemaPath) (k : SchemaKind) {struct k} : list (SchemaPath * SchemaNode) :=
  match k with
  | KArray items => visit_node (path ++ [SArrayElement]) items
  | KMap values => visit_node (path ++ [SMapValue]) values
  | KRecord fields =>
    fields ≫= λ '(name, schema), visit_node (path ++ [SField name]) schema
  | KCustom _ value => visit_node (path ++ [SLogicalValue]) value
  | _ => []
  end.

Definition visit_paths (n : SchemaNode) : list (SchemaPath * SchemaNode) := visit_node [] n.

(** [SchemaIr::reductor_claim_paths]. *)
Definition reductor_claim_paths (schema : SchemaIr) : list SchemaPath :=
  omap (λ '(path, n), match node_kind n with
    | KRecord _ | KCustom _ _ => Some path
    | _ => None
    end) (visit_paths (schema_root schema)).

(** [.iter().find(|field| field.name == *name)]. *)
Definition find_named {A} (name : str) (l : list (str * A)) : option A :=
  snd <$> List.find (λ f, bool_decide (f.1 = name)) l.

(** [SchemaNode::node_at_path]. *)
Fixpoint node_at_path (n : SchemaNode) (path : SchemaPath) {struct path} : option SchemaNode :=
  match path with
  | [] => Some n
  | segment :: path =>
    match node_kind n, segment with
    | KArray items, SArrayElement => node_at_path items path
    | KMap values, SMapValue => node_at_path values path
    | KRecord fields, SField name =>
      schema ← find_named name fields; node_at_path schema path
    | KCustom _ value, SLogicalValue => node_at_path value path
    | _, _ => None
    end
  end.

(** ** Values *)

Inductive Value : Type :=
| VNull
| VBoolean (b : bool)
| VI32 (z : Z)
| VI64 (z : Z)
| VF32 (bits : Z)
| VF64 (bits : Z)
| VString (s : str)
| VBytes (l : list byte)
| VArray (items : list Value)
| VMap (entries : list (str * Value))
| VRecord (fields : list (str * Value))
| VDate (s : str)
| VTime (s : str)
| VTimestamp (s : str)
| VUuid (s : str)
| VDecimal (s : str)
| VCustom (type_id : str) (value : Value).

Record ValueIr := mkValueIr { value_version : Z; value_root : Value }.

Definition value_ir_new (root : Value) : ValueIr := mkValueIr VALUE_IR_VERSION root.

Inductive ValuePathSegment : Type :=
| PField (name : str) | PArrayIndex (index : nat) | PMapKey (key : str) | PLogicalValue.
#[global] Instance ValuePathSegment_eq_dec : EqDecision ValuePathSegment.
Proof. solve_decision. Defined.

Abbreviation ValuePath := (list ValuePathSegment) (only parsing).

(** [Display for ValuePath]. *)
Definition value_path_display (p : ValuePath) : string :=
  foldl (λ acc seg, acc +:+ match seg with
    | PField name => "." +:+ text name
    | PArrayIndex index => "[" +:+ pretty index +:+ "]"
    | PMapKey key => "[" +:+ debug_str (text key) +:+ "]"
    | PLogicalValue => "<logical>"
    end) "$" p.

Definition value_error (p : ValuePath) (message : string) : S4Error :=
  mkS4Error ERROR_VALUE_INVALID ("value at " +:+ value_path_display p +:+ ": " +:+ message).

Definition schema_kind_name (k : SchemaKind) : string :=
  match k with
  | KNull => "null" | KBoolean => "boolean" | KI32 => "i32" | KI64 => "i64" | KF32 => "f32"
  | KF64 => "f64" | KString => "string" | KBytes => "bytes" | KArray _ => "array" | KMap _ => "map"
  | KRecord _ => "record" | KDate => "date" | KTime => "time" | KTimestamp => "timestamp"
  | KUuid => "uuid" | KDecimal _ _ => "decimal" | KCustom _ _ => "custom"
  end.

Definition value_kind_name (v : Value) : string :=
  match v with
  | VNull => "null" | VBoolean _ => "boolean" | VI32 _ => "i32" | VI64 _ => "i64" | VF32 _ => "f32"
  | VF64 _ => "f64" | VString _ => "string" | VBytes _ => "bytes" | VArray _ => "array"
  | VMap _ => "map" | VRecord _ => "record" | VDate _ => "date" | VTime _ => "time"
  | VTimestamp _ => "timestamp" | VUuid _ => "uuid" | VDecimal _ => "decimal" | VCustom _ _ => "custom"
  end.

(** ** Text of dates, times, UUIDs and decimals *)

Definition digit_value (b : byte) : Z := b2z b - 48.

(** [parse_digits]: at most four digits are passed, so the [u32] cannot overflow. *)
Definition parse_digits (l : list byte) : option Z :=
  foldl (λ acc b, value ← acc; if is_ascii_digit b then Some (value * 10 + digit_value b) else None)
    (Some 0) l.

Definition is_leap_year (year : Z) : bool :=
  (year mod 4 =? 0) && (negb (year mod 100 =? 0) || (year mod 400 =? 0)).

Definition validate_date (value : str) : result string unit :=
  if negb (length value =? 10)%nat
     || negb (bool_decide (value !! 4%nat = Some x2d)) || negb (bool_decide (value !! 7%nat = Some x2d))
  then Err "expected YYYY-MM-DD"
  else
    year ← ok_or (parse_digits (slice value 0 4)) "year must contain digits";
    month ← ok_or (parse_digits (slice value 5 7)) "month must contain digits";
    day ← ok_or (parse_digits (slice value 8 10)) "day must contain digits";
    if year =? 0 then Err "year zero is not supported"
    else
      days ← (if bool_decide (month ∈ [1; 3; 5; 7; 8; 10; 12]) then Ok 31
              else if bool_decide (month ∈ [4; 6; 9; 11]) then Ok 30
              else if month =? 2 then (if is_leap_year year then Ok 29 else Ok 28)
              else Err "month is out of range");
      if (day =? 0) || (days <? day) then Err "day is out of range" else Ok tt.

Definition validate_time (value : str) : result string unit :=
  if (length value <? 8)%nat
     || negb (bool_decide (value !! 2%nat = Some x3a)) || negb (bool_decide (value !! 5%nat = Some x3a))
  then Err "expected HH:MM:SS with an optional fractional part"
  else
    hour ← ok_or (parse_digits (slice value 0 2)) "hour must contain digits";
    minute ← ok_or (parse_digits (slice value 3 5)) "minute must contain digits";
    second ← ok_or (parse_digits (slice value 6 8)) "second must contain digits";
    if (23 <? hour) || (59 <? minute) || (59 <? second) then Err "time component is out of range"
    else if (length value =? 8)%nat then Ok tt
    else if negb (bool_decide (value !! 8%nat = Some x2e)) then
      Err "fractional seconds must start with a decimal point"
    else
      let fraction := drop 9 value in
      if bool_decide (fraction = []) || (9 <? length fraction)%nat || negb (forallb is_ascii_digit fraction)
      then Err "fractional seconds must contain one to nine digits"
      else if bool_decide (last fraction = Some x30) then
        Err "fractional seconds must not have trailing zeros"
      else Ok tt.

(** [str::strip_suffix] with one character. *)
Definition strip_suffix_byte (c : byte) (l : list byte) : option (list byte) :=
  if bool_decide (last l = Some c) then Some (take (length l - 1) l) else None.

Definition validate_timestamp (value : str) : result string unit :=
  match strip_suffix_byte x5a value with
  | None => Err "expected a UTC timestamp ending in Z"
  | Some without_zone =>
    match split_once x54 without_zone with
    | None => Err "expected date and time separated by T"
    | Some (date, time) =>
      if bool_decide (x54 ∈ time) then Err "timestamp contains more than one T separator"
      else _ ← validate_date date; validate_time time
    end
  end.

(** [Uuid::parse_str(value).map(|u| u.hyphenated().to_string())] of the [uuid] crate. *)
Class UuidText := { uuid_hyphenated : list byte → option (list byte) }.

Definition validate_uuid `{UuidText} (value : str) : result string unit :=
  match uuid_hyphenated value with
  | None => Err "expected a UUID"
  | Some canonical =>
    if bool_decide (canonical = value) then Ok tt
    else Err "expected lowercase hyphenated canonical form"
  end.

Record DecimalParts := mkDecimal { dec_precision : Z; dec_scale : Z }.

(** [parse_decimal] after the sign. *)
Definition parse_unsigned_decimal (negative : bool) (unsigned : str) : result string DecimalParts :=
  if bool_decide (unsigned = []) || bool_decide (head unsigned = Some x2b) then
    Err "expected digits with an optional leading minus sign"
  else
    let parts := split_on x2e unsigned in
    let integer := default [] (parts !! 0%nat) in
    let fraction := parts !! 1%nat in
    if bool_decide (is_Some (parts !! 2%nat)) then Err "more than one decimal point"
    else if bool_decide (integer = []) || negb (forallb is_ascii_digit integer) then
      Err "integer part must contain ASCII digits"
    else if (1 <? length integer)%nat && bool_decide (head integer = Some x30) then
      Err "integer part has a leading zero"
    else
      let fraction := default [] fraction in
      if bool_decide (x2e ∈ unsigned) && (bool_decide (fraction = []) || negb (forallb is_ascii_digit fraction))
      then Err "fractional part must contain ASCII digits"
      else
        let scale := Z.of_nat (length fraction) in
        if u32_max <? scale then Err "scale is too large"
        else
          let digits := integer ++ fraction in
          let first_significant :=
            default (length digits - 1)%nat (position (λ b, negb (bool_decide (b = x30))) digits) in
          let precision := Z.of_nat (length digits - first_significant) in
          if u32_max <? precision then Err "precision is too large"
          else if negative && forallb (λ b, bool_decide (b = x30)) digits then
            Err "negative zero is not canonical"
          else Ok (mkDecimal precision scale).

Definition parse_decimal (value : str) : result string DecimalParts :=
  match strip_prefix (bs "-") value with
  | Some unsigned => parse_unsigned_decimal true unsigned
  | None => parse_unsigned_decimal false value
  end.

(** ** Validation of values *)

(** The loops of [Value::validate_inner] over items, entries and fields. *)
Definition check_items {A} (check : nat → A → result S4Error unit) :=
  fix go (index : nat) (items : list A) {struct items} : result S4Error unit :=
    match items with
    | [] => Ok tt
    | item :: items => _ ← check index item; go (S index) items
    end.

Definition check_entries (path : ValuePath) (check : str → Value → result S4Error unit) :=
  fix go (previous_key : option str) (entries : list (str * Value)) {struct entries}
      : result S4Error unit :=
    match entries with
    | [] => Ok tt
    | (key, value) :: entries =>
      if match previous_key with Some previous => negb (str_lt previous key) | None => false end then
        Err (value_error path "map entries must have unique keys in ascending order")
      else _ ← check key value; go (Some key) entries
    end.

Definition check_fields (path : ValuePath) (check : str → Value → result S4Error unit) :=
  fix go (names : list str) (fields : list (str * Value)) {struct fields} : result S4Error unit :=
    match fields with
    | [] => Ok tt
    | (name, value) :: fields =>
      if bool_decide (name = []) then Err (value_error path "record field names must not be empty")
      else if bool_decide (name ∈ names) then
        Err (value_error path ("duplicate record field name " +:+ debug_str (text name)))
      else _ ← check name value; go (name :: names) fields
    end.

Definition at_path (path : ValuePath) (what : string) {A} (r : result string A) : result S4Error A :=
  map_err (λ message, value_error path ("invalid " +:+ what +:+ ": " +:+ message)) r.

(** [Value::validate_inner]. *)
Fixpoint validate_value `{UuidText} (l : BinaryIrLimits) (depth : Z) (path : ValuePath) (v : Value)
    {struct v} : result S4Error unit :=
  if max_nesting_depth l <? depth then
    Err (value_error path ("nesting depth " +:+ pretty depth +:+ " exceeds limit " +:+
           pretty (max_nesting_depth l)))
  else match v with
  | VArray items =>
    check_items (λ index, validate_value l (depth + 1) (path ++ [PArrayIndex index])) 0 items
  | VMap entries =>
    check_entries path (λ key, validate_value l (depth + 1) (path ++ [PMapKey key])) None entries
  | VRecord fields =>
    check_fields path (λ name, validate_value l (depth + 1) (path ++ [PField name])) [] fields
  | VDate value => at_path path "date" (validate_date value)
  | VTime value => at_path path "time" (validate_time value)
  | VTimestamp value => at_path path "timestamp" (validate_timestamp value)
  | VUuid value => at_path path "UUID" (validate_uuid value)
  | VDecimal value => _ ← at_path path "decimal" (parse_decimal value); Ok tt
  | VCustom type_id value =>
    if bool_decide (type_id = []) then
      Err (value_error path "custom logical type ID must not be empty")
    else validate_value l (depth + 1) (path ++ [PLogicalValue]) value
  | _ => Ok tt
  end.

(** The loop over the fields of a record and of its schema, side by side. *)
Definition conform_fields (path : ValuePath) (check : str → Value → SchemaNode → result S4Error unit) :=
  fix go (fields : list (str * Value)) (schemas : list (str * SchemaNode)) {struct fields}
      : result S4Error unit :=
    match fields, schemas with
    | (name, value) :: fields, (schema_name, schema) :: schemas =>
      if negb (bool_decide (name = schema_name)) then
        Err (value_error path ("record field " +:+ debug_str (text name) +:+
               " is out of order or does not match schema field " +:+ debug_str (text schema_name)))
      else _ ← check name value schema; go fields schemas
    | _, _ => Ok tt
    end.

Definition conform_decimal (path : ValuePath) (value : str) (precision scale : Z) : result S4Error unit :=
  decimal ← at_path path "decimal" (parse_decimal value);
  if negb (dec_scale decimal =? scale) then
    Err (value_error path ("decimal scale " +:+ pretty (dec_scale decimal) +:+
           " does not match schema scale " +:+ pretty scale))
  else if precision <? dec_precision decimal then
    Err (value_error path ("decimal precision " +:+ pretty (dec_precision decimal) +:+
           " exceeds schema precision " +:+ pretty precision))
  else Ok tt.

(** [validate_value_against_schema]. *)
Fixpoint conforms (path : ValuePath) (v : Value) (schema : SchemaNode) {struct v} : result S4Error unit :=
  match v, node_kind schema with
  | VNull, k =>
    if node_nullable schema || (match k with KNull => true | _ => false end) then Ok tt
    else Err (value_error path "null supplied for a required schema")
  | VBoolean _, KBoolean | VI32 _, KI32 | VI64 _, KI64 | VF32 _, KF32 | VF64 _, KF64
  | VString _, KString | VBytes _, KBytes | VDate _, KDate | VTime _, KTime
  | VTimestamp _, KTimestamp | VUuid _, KUuid => Ok tt
  | VArray items, KArray item_schema =>
    check_items (λ index item, conforms (path ++ [PArrayIndex index]) item item_schema) 0 items
  | VMap entries, KMap values =>
    check_items (λ _ '(key, value), conforms (path ++ [PMapKey key]) value values) 0 entries
  | VRecord fields, KRecord schema_fields =>
    if negb (length fields =? length schema_fields)%nat then
      Err (value_error path ("record has " +:+ pretty (length fields) +:+ " fields but schema requires "
             +:+ pretty (length schema_fields)))
    else conform_fields path (λ name value schema, conforms (path ++ [PField name]) value schema)
           fields schema_fields
  | VDecimal value, KDecimal precision scale => conform_decimal path value precision scale
  | VCustom type_id inner, KCustom schema_type_id inner_schema =>
    if negb (bool_decide (type_id = schema_type_id)) then
      Err (value_error path ("custom logical type ID " +:+ debug_str (text type_id) +:+
             " does not match schema ID " +:+ debug_str (text schema_type_id)))
    else conforms (path ++ [PLogicalValue]) inner inner_schema
  | _, k =>
    Err (value_error path ("value type " +:+ value_kind_name v +:+ " does not match schema type " +:+
           schema_kind_name k))
  end.

(** [ValueIr::validate]. *)
Definition value_validate `{UuidText} (v : ValueIr) (schema : SchemaIr) (l : BinaryIrLimits)
    : result S4Error unit :=
  _ ← ir_limits_validate l;
  _ ← validate_version "value" (value_version v) VALUE_IR_VERSION;
  _ ← schema_validate schema l;
  _ ← validate_value l 0 [] (value_root v);
  conforms [] (value_root v) (schema_root schema).

(** ** Paths and claims *)

(** [Value::value_at_path]. *)
Fixpoint value_at_path (v : Value) (path : ValuePath) {struct path} : option Value :=
  match path with
  | [] => Some v
  | segment :: path =>
    match v, segment with
    | VArray items, PArrayIndex index => item ← items !! index; value_at_path item path
    | VMap entries, PMapKey key => value ← find_named key entries; value_at_path value path
    | VRecord fields, PField name => value ← find_named name fields; value_at_path value path
    | VCustom _ value, PLogicalValue => value_at_path value path
    | _, _ => None
    end
  end.

(** Assignment through the reference that [iter_mut().find(..)] returns. *)
Fixpoint update_named {A} (name : str) (f : A → A) (l : list (str * A)) : list (str * A) :=
  match l with
  | [] => []
  | (n, a) :: l => if bool_decide (n = name) then (n, f a) :: l else (n, a) :: update_named name f l
  end.

(** [Value::value_at_path_mut], as the value with [f] applied at the reference. *)
Fixpoint update_at_path (v : Value) (path : ValuePath) (f : Value → Value) {struct path} : option Value :=
  match path with
  | [] => Some (f v)
  | segment :: path =>
    match v, segment with
    | VArray items, PArrayIndex index =>
      item ← items !! index; item' ← update_at_path item path f;
      Some (VArray (<[index := item']> items))
    | VMap entries, PMapKey key =>
      value ← find_named key entries; value' ← update_at_path value path f;
      Some (VMap (update_named key (λ _, value') entries))
    | VRecord fields, PField name =>
      value ← find_named name fields; value' ← update_at_path value path f;
      Some (VRecord (update_named name (λ _, value') fields))
    | VCustom type_id value, PLogicalValue =>
      value' ← update_at_path value path f; Some (VCustom type_id value')
    | _, _ => None
    end
  end.

(** [.iter().enumerate()]. *)
Definition enumerate {A} (items : list A) : list (nat * A) := imap pair items.

(** [visit_claim_matches_inner]: the calls of the visitor, in order. *)
Fixpoint claim_matches (path : ValuePath) (v : Value) (segments : SchemaPath) {struct segments}
    : list (ValuePath * Value) :=
  match segments with
  | [] => [(path, v)]
  | segment :: rest =>
    match v, segment with
    | VRecord fields, SField name =>
      match find_named name fields with
      | Some value => claim_matches (path ++ [PField name]) value rest
      | None => []
      end
    | VArray items, SArrayElement =>
      enumerate items ≫= λ '(index, item), claim_matches (path ++ [PArrayIndex index]) item rest
    | VMap entries, SMapValue =>
      entries ≫= λ '(key, value), claim_matches (path ++ [PMapKey key]) value rest
    | VCustom _ value, SLogicalValue => claim_matches (path ++ [PLogicalValue]) value rest
    | _, _ => []
    end
  end.

Definition visit_claim_matches (v : Value) (claim : SchemaPath) : list (ValuePath * Value) :=
  claim_matches [] v claim.

(** [visit_claim_matches_mut_inner]; [S] is what the visitor closure carries. *)
Section claim_mut.
  Context {S : Type} (visitor : ValuePath → Value → S → Value * S).

Definition mut_items (visit : nat → Value → S → Value * S) :=
  fix go (index : nat) (items : list Value) (s : S) {struct items} : list Value * S :=
    match items with
    | [] => ([], s)
    | item :: items =>
      let '(item, s) := visit index item s in
      let '(items, s) := go (Datatypes.S index) items s in (item :: items, s)
    end.

Definition mut_entries (visit : str → Value → S → Value * S) :=
  fix go (entries : list (str * Value)) (s : S) {struct entries} : list (str * Value) * S :=
    match entries with
    | [] => ([], s)
    | (key, value) :: entries =>
      let '(value, s) := visit key value s in
      let '(entries, s) := go entries s in ((key, value) :: entries, s)
    end.

Fixpoint claim_matches_mut (path : ValuePath) (v : Value) (segments : SchemaPath) (s : S)
    {struct segments} : Value * S :=
  match segments with
  | [] => visitor path v s
  | segment :: rest =>
    match v, segment with
    | VRecord fields, SField name =>
      match find_named name fields with
      | Some value =>
        let '(value, s) := claim_matches_mut (path ++ [PField name]) value rest s in
        (VRecord (update_named name (λ _, value) fields), s)
      | None => (v, s)
      end
    | VArray items, SArrayElement =>
      let '(items, s) := mut_items
        (λ index item, claim_matches_mut (path ++ [PArrayIndex index]) item rest) 0 items s in
      (VArray items, s)
    | VMap entries, SMapValue =>
      let '(entries, s) := mut_entries
        (λ key value, claim_matches_mut (path ++ [PMapKey key]) value rest) entries s in
      (VMap entries, s)
    | VCustom type_id value, SLogicalValue =>
      let '(value, s) := claim_matches_mut (path ++ [PLogicalValue]) value rest s in
      (VCustom type_id value, s)
    | _, _ => (v, s)
    end
  end.

Definition visit_claim_matches_mut (v : Value) (claim : SchemaPath) (s : S) : Value * S :=
  claim_matches_mut [] v claim s.
End claim_mut.

(** ** Canonical JSON *)

(** [serde_json::Value]; a number is its text. *)
Inductive JsonValue : Type :=
| JvNull
| JvBool (b : bool)
| JvNumber (text : string)
| JvString (s : str)
| JvArray (values : list JsonValue)
| JvObject (members : list (str * JsonValue)).

(** [serde_json] and the derived implementations; an error carries its text. *)
Class SerdeJson := {
  to_vec : JsonValue → result string (list byte);
  from_slice : list byte → result string JsonValue;
  schema_to_value : SchemaIr → result string JsonValue;
  schema_from_value : JsonValue → result string SchemaIr;
  value_to_value : ValueIr → result string JsonValue;
  value_from_value : JsonValue → result string ValueIr;
}.

Definition ensure_size (kind : string) (actual limit : Z) (code : string) : result S4Error unit :=
  if limit <? actual then
    Err (mkS4Error code (kind +:+ " size " +:+ pretty actual +:+ " exceeds limit " +:+ pretty limit))
  else Ok tt.

(** [object.get("type").and_then(as_str).is_some_and(|tag| unit_variants.contains(&tag))]. *)
Definition is_unit_variant (unit_variants : list str) (members : list (str * JsonValue)) : bool :=
  match find_named (bs "type") members with
  | Some (JvString tag) => bool_decide (tag ∈ unit_variants)
  | _ => false
  end.

Fixpoint reject_unit_variant_extras (unit_variants : list str) (kind : string) (v : JsonValue)
    {struct v} : result S4Error unit :=
  match v with
  | JvArray values => check_items (λ _, reject_unit_variant_extras unit_variants kind) 0 values
  | JvObject members =>
    if is_unit_variant unit_variants members && negb (length members =? 1)%nat then
      Err (mkS4Error "decode.json" (kind +:+ " unit variant contains unknown fields"))
    else check_items (λ _ '(_, value), reject_unit_variant_extras unit_variants kind value) 0 members
  | _ => Ok tt
  end.

Section canonical.
  Context `{UuidText, SerdeJson}.

Definition encoding_failed (error : string) : S4Error :=
  mkS4Error "internal" ("JSON encoding failed: " +:+ error).

Definition serialize_json (value : result string JsonValue) : result S4Error (list byte) :=
  value ← map_err encoding_failed value;
  map_err encoding_failed (to_vec value).

Definition deserialize_json {A} (value : result string A) : result S4Error A :=
  map_err (mkS4Error "decode.json") value.

Definition parse_canonical_json (encoded : list byte) (kind : string) : result S4Error JsonValue :=
  value ← map_err (mkS4Error "decode.json") (from_slice encoded);
  canonical ← map_err encoding_failed (to_vec value);
  if negb (bool_decide (encoded = canonical)) then
    Err (mkS4Error ERROR_NON_CANONICAL (kind +:+ " IR JSON is not in canonical form"))
  else Ok value.

Definition encode_schema_canonical_json (schema : SchemaIr) (l : BinaryIrLimits)
    : result S4Error (list byte) :=
  _ ← schema_validate schema l;
  encoded ← serialize_json (schema_to_value schema);
  _ ← ensure_size "encoded schema" (Z.of_nat (length encoded)) (max_encoded_schema_bytes l)
        "limit.input_bytes";
  Ok encoded.

Definition SCHEMA_UNIT_VARIANTS : list str :=
  [bs "null"; bs "boolean"; bs "i32"; bs "i64"; bs "f32"; bs "f64"; bs "string"; bs "bytes";
   bs "date"; bs "time"; bs "timestamp"; bs "uuid"].

Definition decode_schema_canonical_json (encoded : list byte) (l : BinaryIrLimits)
    : result S4Error SchemaIr :=
  _ ← ir_limits_validate l;
  _ ← ensure_size "encoded schema" (Z.of_nat (length encoded)) (max_encoded_schema_bytes l)
        "limit.input_bytes";
  json ← parse_canonical_json encoded "schema";
  _ ← reject_unit_variant_extras SCHEMA_UNIT_VARIANTS "schema" json;
  schema ← deserialize_json (schema_from_value json);
  _ ← schema_validate schema l;
  Ok schema.

Definition encode_value_canonical_json (v : ValueIr) (schema : SchemaIr) (l : BinaryIrLimits)
    : result S4Error (list byte) :=
  _ ← value_validate v schema l;
  encoded ← serialize_json (value_to_value v);
  _ ← ensure_size "encoded value" (Z.of_nat (length encoded)) (max_encoded_value_bytes l)
        "record.too_large";
  Ok encoded.

Definition decode_value_canonical_json (encoded : list byte) (schema : SchemaIr) (l : BinaryIrLimits)
    : result S4Error ValueIr :=
  _ ← ir_limits_validate l;
  _ ← ensure_size "encoded value" (Z.of_nat (length encoded)) (max_encoded_value_bytes l)
        "record.too_large";
  json ← parse_canonical_json encoded "value";
  _ ← reject_unit_variant_extras [bs "null"] "value" json;
  v ← deserialize_json (value_from_value json);
  _ ← value_validate v schema l;
  Ok v.
End canonical.
