(* ===== verification/BinaryIrProofs.v ===== *)
(** * What the binary IR guarantees

    A validated schema is within its limits and its paths name its nodes
    ([schema_paths_exact]); a claim on a validated value visits exactly the
    values its path selects, each once and of the claimed schema
    ([claim_matches_exact]); rewriting them with values of that schema keeps the
    whole value valid and touches nothing else ([claim_rewrite_valid]).  The
    accepted texts of decimals and dates are in [BinaryIrText]. *)

From S2P Require Import Prelude RustStr BinaryIr.

#[local] Open Scope Z_scope.
Set Default Goal Selector "!".

#[local] Arguments validate_node : simpl never.
#[local] Arguments validate_kind : simpl never.
#[local] Arguments find_named : simpl never.

(** ** Results *)

Lemma unit_eta (x : unit) : x = tt.
Proof. by destruct x. Qed.

(** ** The loops *)

Lemma check_items_Ok {A} (check : nat → A → result S4Error unit) i items :
  check_items check i items = Ok tt ↔ ∀ j x, items !! j = Some x → check (i + j)%nat x = Ok tt.
Proof.
  revert i. induction items as [|x items IH]; intros i; cbn.
  { split; [done|]. done. }
  rewrite result_bind_Ok. split.
  - intros ([] & Hx & Hrest) [|j] y Hy; cbn in Hy.
    + injection Hy as <-. by rewrite Nat.add_0_r.
    + replace (i + S j)%nat with (S i + j)%nat by lia. by apply (proj1 (IH (S i)) Hrest).
  - intros Hall. exists tt. split; [specialize (Hall 0%nat x eq_refl); by rewrite Nat.add_0_r in Hall|].
    apply IH. intros j y Hy. replace (S i + j)%nat with (i + S j)%nat by lia. by apply Hall.
Qed.

Lemma check_fields_Ok path check names fields :
  check_fields path check names fields = Ok tt ↔
  (∀ n, n ∈ fields.*1 → n ≠ [] ∧ n ∉ names) ∧ NoDup fields.*1
  ∧ (∀ n v, (n, v) ∈ fields → check n v = Ok tt).
Proof.
  revert names. induction fields as [|[n v] fields IH]; intros names; cbn.
  { split; [intros _; split_and!; [set_solver|constructor|set_solver]|done]. }
  destruct (decide (n = [])) as [->|Hne].
  { rewrite bool_decide_true by done. split; [done|]. intros [H _]. destruct (H []); set_solver. }
  rewrite bool_decide_false by done. destruct (decide (n ∈ names)) as [Hin|Hnin].
  { rewrite bool_decide_true by done. split; [done|]. intros [H _]. destruct (H n); set_solver. }
  rewrite bool_decide_false by done. rewrite result_bind_Ok. split.
  - intros ([] & Hc & Hrest). apply IH in Hrest as (H1 & H2 & H3). split_and!.
    + intros m [->|Hm]%elem_of_cons; [done|]. destruct (H1 m Hm). set_solver.
    + constructor; [|done]. intros Hm. destruct (H1 n Hm). set_solver.
    + intros m w [[= -> ->]|Hm]%elem_of_cons; [done|]. by apply H3.
  - intros (H1 & H2 & H3). exists tt. split; [apply H3; set_solver|]. apply NoDup_cons in H2 as [Hn H2].
    apply IH. split_and!; [|done|].
    + intros m Hm. destruct (H1 m) as [? ?]; [set_solver|]. split; [done|].
      intros [->|?]%elem_of_cons; [done|]. done.
    + intros m w Hm. apply H3. set_solver.
Qed.

(** [str_lt] is a strict order. *)
Lemma check_entries_Ok path check previous entries :
  check_entries path check previous entries = Ok tt →
  (∀ k, k ∈ entries.*1 → ∀ p, previous = Some p → str_lt p k = true) ∧ NoDup entries.*1
  ∧ (∀ k v, (k, v) ∈ entries → check k v = Ok tt).
Proof.
  revert previous. induction entries as [|[k v] entries IH]; intros previous; cbn.
  { intros _. split_and!; [set_solver|constructor|set_solver]. }
  destruct (match previous with Some _ => _ | None => _ end) eqn:Eprev; [done|].
  rewrite result_bind_Ok. intros ([] & Hc & Hrest). apply IH in Hrest as (H1 & H2 & H3).
  assert (∀ p, previous = Some p → str_lt p k = true) as Hp.
  { intros p ->. by apply negb_false_iff in Eprev. }
  split_and!.
  - intros j [->|Hj]%elem_of_cons p Hprev; [by apply Hp|].
    eapply str_lt_trans; [by apply Hp|]. by apply H1.
  - constructor; [|done]. intros Hk. specialize (H1 k Hk k eq_refl). by rewrite str_lt_irrefl in H1.
  - intros j w [[= -> ->]|Hj]%elem_of_cons; [done|]. by apply H3.
Qed.

(** The loop depends on the keys and on what the check says of each entry. *)
Lemma check_entries_same path check check' previous entries entries' :
  entries'.*1 = entries.*1 →
  (∀ k v, (k, v) ∈ entries' → check' k v = Ok tt) →
  check_entries path check previous entries = Ok tt → check_entries path check' previous entries' = Ok tt.
Proof.
  revert previous entries'. induction entries as [|[k v] entries IH]; intros previous [|[k' v'] entries']; cbn;
    try done. intros [= -> Hkeys] Hc. destruct (match previous with Some _ => _ | None => _ end); [done|].
  rewrite !result_bind_Ok. intros ([] & _ & Hrest). exists tt. split; [apply Hc; set_solver|].
  eapply IH; [done| |done]. intros j w Hj. apply Hc. set_solver.
Qed.

Lemma conform_fields_Ok path check fields schemas :
  length fields = length schemas →
  conform_fields path check fields schemas = Ok tt ↔
  fields.*1 = schemas.*1
  ∧ ∀ j n v s, fields !! j = Some (n, v) → schemas !! j = Some (n, s) → check n v s = Ok tt.
Proof.
  revert schemas. induction fields as [|[n v] fields IH]; intros [|[n' s] schemas]; cbn; try done.
  intros [= Hlen]. destruct (decide (n = n')) as [->|Hne].
  2: { rewrite bool_decide_false by done. cbn. split; [done|]. by intros [[= ? ?] _]. }
  rewrite bool_decide_true by done. cbn. rewrite result_bind_Ok. split.
  - intros ([] & Hc & Hrest). apply IH in Hrest as [Hn Hr]; [|done]. split; [by f_equal|].
    intros [|j] m w t; cbn; [by intros [= <- <-] [= <-]|]. apply Hr.
  - intros [[= Hn] Hall]. exists tt. split; [by apply (Hall 0%nat)|]. apply IH; [done|].
    split; [done|]. intros j m w t Hj Hs. by apply (Hall (S j)).
Qed.

(** ** Named entries *)

Lemma find_named_Some {A} name (l : list (str * A)) a : find_named name l = Some a → (name, a) ∈ l.
Proof.
  unfold find_named. destruct (List.find _ l) as [[n b]|] eqn:E; cbn; [|done]. intros [= ->].
  apply find_some in E as [Hin Hn]. apply bool_decide_eq_true in Hn. cbn in Hn. subst.
  by apply list_elem_of_In.
Qed.

Lemma find_named_elem {A} name (l : list (str * A)) a :
  NoDup l.*1 → find_named name l = Some a ↔ (name, a) ∈ l.
Proof.
  intros Hnd. split; [apply find_named_Some|]. induction l as [|[n b] l IH]; [set_solver|].
  apply NoDup_cons in Hnd as [Hn Hnd]. unfold find_named. cbn.
  intros [[= <- <-]|Hin]%elem_of_cons; [by rewrite bool_decide_true|].
  rewrite bool_decide_false; [by apply IH|]. intros ->. apply Hn. by apply (list_elem_of_fmap_2 fst _ (name, a)).
Qed.

Lemma find_named_update {A} name (f : A → A) (l : list (str * A)) n :
  find_named n (update_named name f l) = if decide (n = name) then f <$> find_named n l else find_named n l.
Proof.
  unfold find_named. induction l as [|[m a] l IH]; cbn; [by case_decide|].
  destruct (decide (m = name)) as [->|Hne]; [rewrite (bool_decide_true (name = name)) by done
    | rewrite (bool_decide_false (m = name)) by done]; cbn.
  - destruct (decide (n = name)) as [->|]; [by rewrite bool_decide_true|].
    by rewrite bool_decide_false by done.
  - destruct (decide (m = n)) as [->|]; [rewrite bool_decide_true by done | by rewrite bool_decide_false].
    cbn. by rewrite decide_False.
Qed.

Lemma update_named_names {A} name (f : A → A) (l : list (str * A)) : (update_named name f l).*1 = l.*1.
Proof. induction l as [|[m a] l IH]; cbn; [done|]. case_bool_decide; cbn; by rewrite ?IH. Qed.

Lemma update_named_elem {A} name (f : A → A) (l : list (str * A)) n a :
  (n, a) ∈ update_named name f l → (n, a) ∈ l ∨ n = name ∧ ∃ b, find_named name l = Some b ∧ a = f b.
Proof.
  unfold find_named. induction l as [|[m b] l IH]; cbn; [set_solver|].
  destruct (decide (m = name)) as [->|Hne]; [rewrite bool_decide_true by done
    | rewrite bool_decide_false by done]; cbn.
  - intros [[= -> ->]|Hin]%elem_of_cons; [right; eauto|left; set_solver].
  - intros [[= -> ->]|Hin]%elem_of_cons; [left; set_solver|]. apply IH in Hin as [Hin|Hin]; [left; set_solver|by right].
Qed.

Lemma elem_of_enumerate {A} (items : list A) i x : (i, x) ∈ enumerate items ↔ items !! i = Some x.
Proof.
  unfold enumerate. rewrite list_elem_of_lookup. setoid_rewrite list_lookup_imap. split.
  - intros [j Hj]. destruct (items !! j) as [y|] eqn:E; cbn in Hj; [|done]. by injection Hj as <- <-.
  - intros Hi. exists i. by rewrite Hi.
Qed.

Lemma NoDup_enumerate {A} (items : list A) : NoDup (enumerate items).
Proof.
  apply NoDup_alt. intros i j x Hi Hj. unfold enumerate in *. rewrite list_lookup_imap in Hi, Hj.
  destruct (items !! i), (items !! j); cbn in *; congruence.
Qed.

(** ** Claims *)

(** A concrete path follows a schema path. *)
Inductive path_matches : SchemaPath → ValuePath → Prop :=
| pm_nil : path_matches [] []
| pm_field name c p : path_matches c p → path_matches (SField name :: c) (PField name :: p)
| pm_index i c p : path_matches c p → path_matches (SArrayElement :: c) (PArrayIndex i :: p)
| pm_key k c p : path_matches c p → path_matches (SMapValue :: c) (PMapKey k :: p)
| pm_logical c p : path_matches c p → path_matches (SLogicalValue :: c) (PLogicalValue :: p).

Section values.
  Context `{UuidText} (l : BinaryIrLimits).

(** What the validation of a value says of its children. *)
Lemma valid_depth depth path v : validate_value l depth path v = Ok tt → depth <= max_nesting_depth l.
Proof. destruct v; cbn; case_match; try done; intros _; by apply Z.ltb_ge. Qed.

Lemma valid_array depth path items i w :
  validate_value l depth path (VArray items) = Ok tt → items !! i = Some w →
  validate_value l (depth + 1) (path ++ [PArrayIndex i]) w = Ok tt.
Proof.
  cbn. case_match; [done|]. intros Hok Hi. apply (proj1 (check_items_Ok _ 0 items) Hok i w Hi).
Qed.

Lemma valid_map depth path entries :
  validate_value l depth path (VMap entries) = Ok tt →
  NoDup entries.*1
  ∧ ∀ k w, (k, w) ∈ entries → validate_value l (depth + 1) (path ++ [PMapKey k]) w = Ok tt.
Proof. cbn. case_match; [done|]. intros Hok. by apply check_entries_Ok in Hok as (_ & ? & ?). Qed.

Lemma valid_record depth path fields :
  validate_value l depth path (VRecord fields) = Ok tt →
  NoDup fields.*1
  ∧ ∀ n w, (n, w) ∈ fields → validate_value l (depth + 1) (path ++ [PField n]) w = Ok tt.
Proof. cbn. case_match; [done|]. intros Hok. by apply check_fields_Ok in Hok as (_ & ? & ?). Qed.

Lemma valid_custom depth path type_id w :
  validate_value l depth path (VCustom type_id w) = Ok tt →
  validate_value l (depth + 1) (path ++ [PLogicalValue]) w = Ok tt.
Proof. cbn. case_match; [done|]. by case_bool_decide. Qed.

Lemma claim_prefix path v claim p w : (p, w) ∈ claim_matches path v claim → ∃ q, p = path ++ q.
Proof.
  revert path v. induction claim as [|seg claim IH]; intros path v; cbn.
  { intros [= -> ->]%list_elem_of_singleton. exists []. by rewrite app_nil_r. }
  assert (∀ s x, (p, w) ∈ claim_matches (path ++ [s]) x claim → ∃ q, p = path ++ q) as Hgo.
  { intros s x Hin. destruct (IH _ _ Hin) as [q ->]. exists (s :: q). by rewrite <- app_assoc. }
  destruct v as [| | | | | | | |items|entries|fields| | | | | |type_id inner], seg as [name| | |];
    try (by intros ?%elem_of_nil); try apply Hgo.
  - intros ([i x] & Hp & _)%list_elem_of_bind. by eapply Hgo.
  - intros ([k x] & Hp & Hin)%list_elem_of_bind. by eapply Hgo.
  - destruct (find_named name fields); [apply Hgo|by intros ?%elem_of_nil].
Qed.

(** Completeness and soundness of the traversal, below any path. *)
Lemma claim_matches_spec depth path v claim p w :
  validate_value l depth path v = Ok tt →
  (p, w) ∈ claim_matches path v claim ↔
  ∃ q, p = path ++ q ∧ path_matches claim q ∧ value_at_path v q = Some w.
Proof.
  revert depth path v. induction claim as [|seg claim IH]; intros depth path v Hv; cbn.
  { rewrite list_elem_of_singleton. split.
    - intros [= -> ->]. exists []. rewrite app_nil_r. split_and!; [done|constructor|done].
    - intros (q & -> & Hm & Hw). inversion Hm; subst. cbn in Hw. injection Hw as ->. by rewrite app_nil_r. }
  assert (∀ s x, (p, w) ∈ claim_matches (path ++ [s]) x claim →
    validate_value l (depth + 1) (path ++ [s]) x = Ok tt →
    ∃ q, p = path ++ s :: q ∧ path_matches claim q ∧ value_at_path x q = Some w) as Hfrom.
  { intros s x Hin Hx. apply (IH _ _ _ Hx) in Hin as (q & -> & Hm & Hw).
    exists q. by rewrite <- app_assoc. }
  assert (∀ s x q, p = path ++ s :: q → path_matches claim q → value_at_path x q = Some w →
    validate_value l (depth + 1) (path ++ [s]) x = Ok tt →
    (p, w) ∈ claim_matches (path ++ [s]) x claim) as Hto.
  { intros s x q -> Hm Hw Hx. apply (IH _ _ _ Hx). exists q. by rewrite <- app_assoc. }
  destruct v as [| | | | | | | |items|entries|fields| | | | | |type_id inner], seg as [name| | |];
    try (by (split; [by intros ?%elem_of_nil | intros (q & _ & Hm & Hw); by inversion Hm; subst])).
  - rewrite list_elem_of_bind. split.
    + intros ([i x] & Hp & Ex%elem_of_enumerate).
      destruct (Hfrom _ x Hp) as (q & -> & Hm & Hw); [by eapply valid_array|].
      exists (PArrayIndex i :: q). split_and!; [done|by constructor|]. cbn. by rewrite Ex.
    + intros (q & Hp & Hm & Hw). inversion Hm as [| |i c q' Hm'| |]; subst c q. cbn in Hw.
      destruct (items !! i) as [x|] eqn:Ex; cbn in Hw; [|done].
      exists (i, x). split; [eapply (Hto (PArrayIndex i) x); [done..|by eapply valid_array]|].
      by apply elem_of_enumerate.
  - destruct (valid_map _ _ _ Hv) as [Hnd Hall]. rewrite list_elem_of_bind. split.
    + intros ([k x] & Hp & Hin). destruct (Hfrom _ x Hp (Hall k x Hin)) as (q & -> & Hm & Hw).
      exists (PMapKey k :: q). split_and!; [done|by constructor|]. cbn.
      by rewrite (proj2 (find_named_elem k entries x Hnd) Hin).
    + intros (q & Hp & Hm & Hw). inversion Hm as [| | |k c q' Hm'|]; subst c q. cbn in Hw.
      destruct (find_named k entries) as [x|] eqn:Ex; cbn in Hw; [|done].
      apply find_named_Some in Ex. exists (k, x). split; [|done]. by eapply Hto; [done..|apply Hall].
  - destruct (valid_record _ _ _ Hv) as [Hnd Hall]. split.
    + destruct (find_named name fields) as [x|] eqn:Ex; [|by intros ?%elem_of_nil]. intros Hp.
      pose proof (find_named_Some _ _ _ Ex) as Hin.
      destruct (Hfrom _ x Hp (Hall name x Hin)) as (q & -> & Hm & Hw).
      exists (PField name :: q). split_and!; [done|by constructor|]. cbn. by rewrite Ex.
    + intros (q & Hp & Hm & Hw). inversion Hm as [|n c q' Hm'| | |]; subst n c q. cbn in Hw.
      destruct (find_named name fields) as [x|] eqn:Ex; cbn in Hw; [|done].
      pose proof (find_named_Some _ _ _ Ex) as Hin. by eapply Hto; [done..|apply Hall].
  - pose proof (valid_custom _ _ _ _ Hv) as Hx. split.
    + intros Hp. destruct (Hfrom _ _ Hp Hx) as (q & -> & Hm & Hw).
      exists (PLogicalValue :: q). split_and!; [done|by constructor|done].
    + intros (q & Hp & Hm & Hw). inversion Hm; subst. cbn in Hw. by eapply Hto.
Qed.

Lemma NoDup_claim_matches depth path v claim :
  validate_value l depth path v = Ok tt → NoDup (claim_matches path v claim).
Proof.
  revert depth path v. induction claim as [|seg claim IH]; intros depth path v Hv; cbn.
  { apply NoDup_singleton. }
  assert (∀ s s' (x x' : Value) y, y ∈ claim_matches (path ++ [s]) x claim →
    y ∈ claim_matches (path ++ [s']) x' claim → s = s') as Hseg.
  { intros s s' x x' [p w] H1 H2. apply claim_prefix in H1 as [q1 ->]. apply claim_prefix in H2 as [q2 E].
    rewrite <- !app_assoc in E. apply app_inv_head in E. by injection E. }
  destruct v as [| | | | | | | |items|entries|fields| | | | | |type_id inner], seg as [name| | |];
    try apply NoDup_nil_2.
  - apply NoDup_bind; [| |apply NoDup_enumerate].
    + intros [i x] [i' x'] y Hx%elem_of_enumerate Hx'%elem_of_enumerate H1 H2.
      pose proof (Hseg _ _ _ _ _ H1 H2) as [= ->]. congruence.
    + intros [i x] Hx%elem_of_enumerate. eapply IH. by eapply valid_array.
  - destruct (valid_map _ _ _ Hv) as [Hnd Hall]. apply NoDup_bind.
    + intros [k x] [k' x'] y Hx Hx' H1 H2. pose proof (Hseg _ _ _ _ _ H1 H2) as [= ->].
      f_equal. apply (find_named_elem _ _ _ Hnd) in Hx, Hx'. congruence.
    + intros [k x] Hx. eapply IH. by apply Hall.
    + by eapply NoDup_fmap_1.
  - destruct (valid_record _ _ _ Hv) as [Hnd Hall].
    destruct (find_named name fields) as [x|] eqn:Ex; [|apply NoDup_nil_2].
    eapply IH. apply Hall. by apply find_named_Some.
  - eapply IH. by eapply valid_custom.
Qed.
End values.

(** ** Conformance *)

Lemma find_named_aligned {A B} name (l : list (str * A)) (m : list (str * B)) a b :
  l.*1 = m.*1 → find_named name l = Some a → find_named name m = Some b →
  ∃ j, l !! j = Some (name, a) ∧ m !! j = Some (name, b).
Proof.
  revert m. induction l as [|[n x] l IH]; intros [|[n' y] m]; try done. intros [= <- Hn].
  unfold find_named. cbn. destruct (decide (n = name)) as [->|Hne].
  - rewrite !bool_decide_true by done. cbn. intros [= <-] [= <-]. by exists 0%nat.
  - rewrite !bool_decide_false by done. intros Ha Hb. destruct (IH m Hn Ha Hb) as [j [H1 H2]].
    by exists (S j).
Qed.

(** What conformance says of the children that a segment selects. *)
Lemma conforms_array path items n s i w :
  conforms path (VArray items) n = Ok tt → node_kind n = KArray s → items !! i = Some w →
  conforms (path ++ [PArrayIndex i]) w s = Ok tt.
Proof.
  cbn. intros Hc Hk Hi. rewrite Hk in Hc. exact (proj1 (check_items_Ok _ 0 items) Hc i w Hi).
Qed.

Lemma conforms_map path entries n s k w :
  conforms path (VMap entries) n = Ok tt → node_kind n = KMap s → (k, w) ∈ entries →
  conforms (path ++ [PMapKey k]) w s = Ok tt.
Proof.
  cbn. intros Hc Hk [i Hi]%list_elem_of_lookup. rewrite Hk in Hc.
  exact (proj1 (check_items_Ok _ 0 entries) Hc i (k, w) Hi).
Qed.

Lemma conforms_record path fields n schemas :
  node_kind n = KRecord schemas →
  conforms path (VRecord fields) n = Ok tt ↔
  fields.*1 = schemas.*1
  ∧ ∀ j m v s, fields !! j = Some (m, v) → schemas !! j = Some (m, s) →
      conforms (path ++ [PField m]) v s = Ok tt.
Proof.
  intros Hk. cbn. rewrite Hk. destruct (Nat.eqb_spec (length fields) (length schemas)) as [Hlen|Hlen]; cbn.
  - by rewrite conform_fields_Ok.
  - split; [done|]. intros [Hn _]. apply (f_equal length) in Hn. by rewrite !length_fmap in Hn.
Qed.

Lemma conforms_custom path type_id inner n id s :
  conforms path (VCustom type_id inner) n = Ok tt → node_kind n = KCustom id s →
  type_id = id ∧ conforms (path ++ [PLogicalValue]) inner s = Ok tt.
Proof. cbn. intros Hc Hk. rewrite Hk in Hc. case_bool_decide; [done|]. done. Qed.

(** Every value a claim selects conforms to the node the claim names. *)
Lemma claim_matches_conform path v n claim m p w :
  conforms path v n = Ok tt → node_at_path n claim = Some m →
  (p, w) ∈ claim_matches path v claim → conforms p w m = Ok tt.
Proof.
  revert path v n. induction claim as [|seg claim IH]; intros path v n Hc Hm; cbn.
  { cbn in Hm. injection Hm as ->. by intros [= -> ->]%list_elem_of_singleton. }
  cbn in Hm.
  destruct v as [| | | | | | | |items|entries|fields| | | | | |type_id inner], seg as [name| | |];
    try (by intros ?%elem_of_nil).
  - destruct (node_kind n) as [| | | | | | | |s| | | | | | | |] eqn:Hk; try done.
    intros ([i x] & Hp & Hx%elem_of_enumerate)%list_elem_of_bind.
    eapply IH; [|done|done]. by eapply conforms_array.
  - destruct (node_kind n) as [| | | | | | | | |s| | | | | | |] eqn:Hk; try done.
    intros ([k x] & Hp & Hx)%list_elem_of_bind. eapply IH; [|done|done]. by eapply conforms_map.
  - destruct (node_kind n) as [| | | | | | | | | |schemas| | | | | |] eqn:Hk; try done.
    destruct (find_named name schemas) as [s|] eqn:Es; cbn in Hm; [|done].
    destruct (find_named name fields) as [x|] eqn:Ex; [|by intros ?%elem_of_nil].
    destruct (proj1 (conforms_record path fields n schemas Hk) Hc) as [Hnames Hall].
    destruct (find_named_aligned name fields schemas x s Hnames Ex Es) as (j & Hj & Hs).
    eapply IH; [by eapply Hall|done].
  - destruct (node_kind n) as [| | | | | | | | | | | | | | | |id s] eqn:Hk; try done.
    destruct (conforms_custom _ _ _ _ _ _ Hc Hk) as [_ Hx]. by eapply IH.
Qed.

(** ** Rewriting the values a claim selects *)

Lemma update_named_lookup {A} name (f : A → A) (l : list (str * A)) j m a :
  update_named name f l !! j = Some (m, a) →
  l !! j = Some (m, a)
  ∨ m = name ∧ ∃ b, l !! j = Some (name, b) ∧ find_named name l = Some b ∧ a = f b.
Proof.
  unfold find_named. revert j. induction l as [|[n x] l IH]; intros j; cbn; [done|].
  destruct (decide (n = name)) as [->|Hne]; [rewrite bool_decide_true by done
    | rewrite bool_decide_false by done]; destruct j as [|j]; cbn.
  - intros [= <- <-]. right. eauto.
  - by left.
  - intros [= -> ->]. by left.
  - apply IH.
Qed.

Section rewriting.
  Context {S : Type} (visitor : ValuePath → Value → S → Value * S).

Lemma mut_items_lookup (visit : nat → Value → S → Value * S) i items s j :
  (∀ x, items !! j = Some x → ∃ s', (mut_items visit i items s).1 !! j = Some (visit (i + j)%nat x s').1)
  ∧ (items !! j = None → (mut_items visit i items s).1 !! j = None).
Proof.
  revert i s j. induction items as [|x items IH]; intros i s j; cbn; [done|].
  destruct (visit i x s) as [x' s1] eqn:Ev.
  destruct (IH (Datatypes.S i) s1 (pred j)) as [H1 H2].
  destruct (mut_items visit (Datatypes.S i) items s1) as [items' s2]. cbn in *.
  destruct j as [|j]; cbn in *.
  - split; [|done]. intros y [= <-]. exists s. by rewrite Nat.add_0_r, Ev.
  - replace (i + Datatypes.S j)%nat with (Datatypes.S (i + j)) by lia. done.
Qed.

Lemma mut_entries_lookup (visit : str → Value → S → Value * S) entries s j :
  (∀ k x, entries !! j = Some (k, x) → ∃ s', (mut_entries visit entries s).1 !! j = Some (k, (visit k x s').1))
  ∧ (entries !! j = None → (mut_entries visit entries s).1 !! j = None).
Proof.
  revert s j. induction entries as [|[k x] entries IH]; intros s j; cbn; [done|].
  destruct (visit k x s) as [x' s1] eqn:Ev.
  destruct (IH s1 (pred j)) as [H1 H2].
  destruct (mut_entries visit entries s1) as [entries' s2]. cbn in *.
  destruct j as [|j]; cbn in *; [|done]. split; [|done]. intros k' y [= <- <-]. exists s. by rewrite Ev.
Qed.

Lemma mut_entries_keys (visit : str → Value → S → Value * S) entries s :
  (mut_entries visit entries s).1.*1 = entries.*1.
Proof.
  revert s. induction entries as [|[k x] entries IH]; intros s; cbn; [done|].
  destruct (visit k x s) as [x' s1]. specialize (IH s1).
  destruct (mut_entries visit entries s1). cbn in *. by rewrite IH.
Qed.

Lemma mut_entries_find (visit : str → Value → S → Value * S) entries s k :
  (∀ x, find_named k entries = Some x → ∃ s', find_named k (mut_entries visit entries s).1 = Some (visit k x s').1)
  ∧ (find_named k entries = None → find_named k (mut_entries visit entries s).1 = None).
Proof.
  unfold find_named. revert s. induction entries as [|[n x] entries IH]; intros s; cbn; [done|].
  destruct (visit n x s) as [x' s1] eqn:Ev. destruct (IH s1) as [H1 H2].
  destruct (mut_entries visit entries s1) as [entries' s2]. cbn in *.
  destruct (decide (n = k)) as [->|Hne]; [rewrite bool_decide_true by done
    | rewrite bool_decide_false by done]; cbn; [|done].
  split; [|done]. intros y [= <-]. exists s. by rewrite Ev.
Qed.

(** The selected positions hold what the visitor returned. *)
Lemma claim_mut_selected path v claim s q w :
  path_matches claim q → value_at_path v q = Some w →
  ∃ s', value_at_path (claim_matches_mut visitor path v claim s).1 q = Some (visitor (path ++ q) w s').1.
Proof.
  intros Hm. revert path v s. induction Hm as [|name c q Hm IH|i c q Hm IH|k c q Hm IH|c q Hm IH];
    intros path v s Hw; cbn in Hw |- *.
  { injection Hw as ->. exists s. by rewrite app_nil_r. }
  all: destruct v as [| | | | | | | |items|entries|fields| | | | | |type_id inner]; try done.
  - destruct (find_named name fields) as [x|] eqn:Ex; cbn in Hw; [|done].
    destruct (IH (path ++ [PField name]) x s Hw) as [s' Hs'].
    destruct (claim_matches_mut visitor (path ++ [PField name]) x c s) as [x' s1]. cbn in *.
    rewrite find_named_update, decide_True, Ex by done. cbn. exists s'. by rewrite <- app_assoc in Hs'.
  - destruct (items !! i) as [x|] eqn:Ex; cbn in Hw; [|done].
    destruct (mut_items_lookup (λ index item, claim_matches_mut visitor (path ++ [PArrayIndex index]) item c)
      0 items s i) as [Hl _]. destruct (Hl x Ex) as [s1 Hx].
    destruct (mut_items _ 0 items s) as [items' s2]. cbn in *. rewrite Hx. cbn.
    destruct (IH (path ++ [PArrayIndex i]) x s1 Hw) as [s' Hs']. exists s'. by rewrite <- app_assoc in Hs'.
  - destruct (find_named k entries) as [x|] eqn:Ex; cbn in Hw; [|done].
    destruct (mut_entries_find (λ key value, claim_matches_mut visitor (path ++ [PMapKey key]) value c)
      entries s k) as [Hl _]. destruct (Hl x Ex) as [s1 Hx].
    destruct (mut_entries _ entries s) as [entries' s2]. cbn in *. rewrite Hx. cbn.
    destruct (IH (path ++ [PMapKey k]) x s1 Hw) as [s' Hs']. exists s'. by rewrite <- app_assoc in Hs'.
  - destruct (IH (path ++ [PLogicalValue]) inner s Hw) as [s' Hs'].
    destruct (claim_matches_mut visitor (path ++ [PLogicalValue]) inner c s) as [x' s1]. cbn in *.
    exists s'. by rewrite <- app_assoc in Hs'.
Qed.

Lemma path_matches_ex claim : ∃ p, path_matches claim p.
Proof.
  induction claim as [|[name| | |] claim [p Hp]]; [by exists []; constructor|..].
  - exists (PField name :: p). by constructor.
  - exists (PArrayIndex 0 :: p). by constructor.
  - exists (PMapKey [] :: p). by constructor.
  - exists (PLogicalValue :: p). by constructor.
Qed.

(** Neither path leads to the other. *)
Definition apart (p q : ValuePath) : Prop := ¬ p `prefix_of` q ∧ ¬ q `prefix_of` p.

Lemma apart_tail seg claim x q :
  (∀ p, path_matches (seg :: claim) p → apart p (x :: q)) →
  (∀ p, path_matches claim p → path_matches (seg :: claim) (x :: p)) →
  ∀ p, path_matches claim p → apart p q.
Proof.
  intros Hq Hx p Hp. destruct (Hq (x :: p) (Hx p Hp)) as [Ha Hb].
  split; intros Hpre; [apply Ha|apply Hb]; by apply prefix_cons.
Qed.

(** Positions that are neither above nor below a selected one keep their value. *)
Lemma claim_mut_untouched path v claim s q :
  (∀ p, path_matches claim p → apart p q) →
  value_at_path (claim_matches_mut visitor path v claim s).1 q = value_at_path v q.
Proof.
  revert path v s q. induction claim as [|seg claim IH]; intros path v s q Hq.
  { destruct (Hq []) as [[] _]; [constructor|apply prefix_nil]. }
  destruct q as [|x q].
  { destruct (path_matches_ex (seg :: claim)) as [p Hp]. destruct (Hq p Hp) as [_ []]. apply prefix_nil. }
  cbn. destruct v as [| | | | | | | |items|entries|fields| | | | | |type_id inner], seg as [name| | |]; try done.
  - pose proof (mut_items_lookup (λ index item, claim_matches_mut visitor (path ++ [PArrayIndex index]) item claim)
      0 items s) as Hl.
    destruct (mut_items _ 0 items s) as [items' s2]. destruct x as [|i| |]; try done. cbn in *.
    destruct (Hl i) as [H1 H2]. destruct (items !! i) as [y|] eqn:Ey; [|by rewrite H2].
    destruct (H1 y eq_refl) as [s1 ->]. cbn. apply IH. eapply apart_tail; [exact Hq|by constructor].
  - pose proof (mut_entries_find (λ key value, claim_matches_mut visitor (path ++ [PMapKey key]) value claim)
      entries s) as Hl.
    destruct (mut_entries _ entries s) as [entries' s2]. destruct x as [| |k|]; try done. cbn in *.
    destruct (Hl k) as [H1 H2]. destruct (find_named k entries) as [y|] eqn:Ey; [|by rewrite H2].
    destruct (H1 y eq_refl) as [s1 ->]. cbn. apply IH. eapply apart_tail; [exact Hq|by constructor].
  - destruct (find_named name fields) as [y|] eqn:Ey; [|done].
    specialize (IH (path ++ [PField name]) y s q).
    destruct (claim_matches_mut visitor (path ++ [PField name]) y claim s) as [y' s1]. cbn in *.
    destruct x as [n| | |]; try done. rewrite find_named_update.
    destruct (decide (n = name)) as [->|]; [|done]. rewrite Ey. cbn. apply IH. eapply apart_tail; [exact Hq|by constructor].
  - specialize (IH (path ++ [PLogicalValue]) inner s q).
    destruct (claim_matches_mut visitor (path ++ [PLogicalValue]) inner claim s) as [y' s1]. cbn in *.
    destruct x; try done. apply IH. eapply apart_tail; [exact Hq|by constructor].
Qed.
End rewriting.

(** The validation and the conformance of a value are kept. *)
Section rewriting_valid.
  Context `{UuidText} (l : BinaryIrLimits) {S : Type} (visitor : ValuePath → Value → S → Value * S).

(** What the visitor must return for the values it is given. *)
Definition visitor_ok (depth : Z) (path : ValuePath) (v : Value) (claim : SchemaPath) (m : SchemaNode) : Prop :=
  ∀ q w s, (path ++ q, w) ∈ claim_matches path v claim →
    validate_value l (depth + Z.of_nat (length q)) (path ++ q) (visitor (path ++ q) w s).1 = Ok tt
    ∧ conforms (path ++ q) (visitor (path ++ q) w s).1 m = Ok tt.

(** The requirement for a child, from the one for the whole. *)
Lemma visitor_ok_child depth path v claim m seg x c :
  visitor_ok depth path v claim m →
  (∀ y, y ∈ claim_matches (path ++ [seg]) x c → y ∈ claim_matches path v claim) →
  visitor_ok (depth + 1) (path ++ [seg]) x c m.
Proof.
  intros Hok Hsub q w s Hin. pose proof (Hsub _ Hin) as Hin'. rewrite <- app_assoc in Hin' |- *.
  cbn in *. destruct (Hok (seg :: q) w s Hin') as [H1 H2]. cbn in H1. split; [|done].
  by replace (depth + 1 + Z.of_nat (length q)) with (depth + Z.pos (Pos.of_succ_nat (length q))) by lia.
Qed.

(** A container whose children are replaced by valid and conforming ones. *)
Lemma rebuild_array depth path items items' n sch :
  validate_value l depth path (VArray items) = Ok tt → node_kind n = KArray sch →
  (∀ i w, items' !! i = Some w → validate_value l (depth + 1) (path ++ [PArrayIndex i]) w = Ok tt
     ∧ conforms (path ++ [PArrayIndex i]) w sch = Ok tt) →
  validate_value l depth path (VArray items') = Ok tt ∧ conforms path (VArray items') n = Ok tt.
Proof.
  intros Hv Hk Hall. pose proof (valid_depth l _ _ _ Hv) as Hd. apply Z.ltb_ge in Hd. cbn.
  rewrite Hd, Hk. split; apply check_items_Ok; intros j x Hx; by apply Hall.
Qed.

Lemma rebuild_map depth path entries entries' n sch :
  validate_value l depth path (VMap entries) = Ok tt → node_kind n = KMap sch →
  entries'.*1 = entries.*1 →
  (∀ k w, (k, w) ∈ entries' → validate_value l (depth + 1) (path ++ [PMapKey k]) w = Ok tt
     ∧ conforms (path ++ [PMapKey k]) w sch = Ok tt) →
  validate_value l depth path (VMap entries') = Ok tt ∧ conforms path (VMap entries') n = Ok tt.
Proof.
  intros Hv Hk Hkeys Hall. pose proof (valid_depth l _ _ _ Hv) as Hd. apply Z.ltb_ge in Hd.
  cbn in Hv |- *. rewrite Hd in Hv |- *. rewrite Hk. split.
  - eapply check_entries_same; [done| |exact Hv]. intros k w Hin. by apply Hall.
  - apply check_items_Ok. intros j [k x] Hx. apply Hall. by eapply list_elem_of_lookup_2.
Qed.

Lemma rebuild_record depth path fields fields' n schemas :
  validate_value l depth path (VRecord fields) = Ok tt → conforms path (VRecord fields) n = Ok tt →
  node_kind n = KRecord schemas → fields'.*1 = fields.*1 →
  (∀ j name w sch, fields' !! j = Some (name, w) → schemas !! j = Some (name, sch) →
     validate_value l (depth + 1) (path ++ [PField name]) w = Ok tt
     ∧ conforms (path ++ [PField name]) w sch = Ok tt) →
  validate_value l depth path (VRecord fields') = Ok tt ∧ conforms path (VRecord fields') n = Ok tt.
Proof.
  intros Hv Hc Hk Hnames Hall. pose proof (valid_depth l _ _ _ Hv) as Hd. apply Z.ltb_ge in Hd.
  apply (conforms_record path fields n schemas Hk) in Hc as [Heq _].
  split; [|apply (conforms_record path fields' n schemas Hk); split; [congruence|]; intros; by eapply Hall].
  cbn in Hv |- *. rewrite Hd in Hv |- *. apply check_fields_Ok in Hv as (H1 & H2 & _).
  apply check_fields_Ok. rewrite Hnames. split_and!; [done..|].
  intros name w [j Hj]%list_elem_of_lookup.
  assert (schemas.*1 !! j = Some name) as Hs.
  { rewrite <- Heq, <- Hnames, list_lookup_fmap, Hj. done. }
  rewrite list_lookup_fmap in Hs. destruct (schemas !! j) as [[name' sch]|] eqn:Esch; [|done].
  injection Hs as ->. by eapply Hall.
Qed.

(** The field a name finds, in a record and in its schema. *)
Lemma field_valid depth path fields n schemas name x sch :
  validate_value l depth path (VRecord fields) = Ok tt → conforms path (VRecord fields) n = Ok tt →
  node_kind n = KRecord schemas → find_named name fields = Some x → find_named name schemas = Some sch →
  validate_value l (depth + 1) (path ++ [PField name]) x = Ok tt
  ∧ conforms (path ++ [PField name]) x sch = Ok tt.
Proof.
  intros Hv Hc Hk Ex Es. destruct (valid_record l _ _ _ Hv) as [_ Hvs].
  destruct (proj1 (conforms_record path fields n schemas Hk) Hc) as [Hnames Hall].
  destruct (find_named_aligned name fields schemas x sch Hnames Ex Es) as (j & Hj & Hs).
  split; [by apply Hvs, find_named_Some | by eapply Hall].
Qed.

Lemma rebuild_field depth path fields n schemas name sch x' :
  validate_value l depth path (VRecord fields) = Ok tt → conforms path (VRecord fields) n = Ok tt →
  node_kind n = KRecord schemas → find_named name schemas = Some sch →
  validate_value l (depth + 1) (path ++ [PField name]) x' = Ok tt →
  conforms (path ++ [PField name]) x' sch = Ok tt →
  let v' := VRecord (update_named name (λ _, x') fields) in
  validate_value l depth path v' = Ok tt ∧ conforms path v' n = Ok tt.
Proof.
  intros Hv Hc Hk Es Hvx Hcx. destruct (valid_record l _ _ _ Hv) as [Hnd Hvs].
  destruct (proj1 (conforms_record path fields n schemas Hk) Hc) as [Hnames Hall].
  apply (rebuild_record depth path fields _ n schemas Hv Hc Hk (update_named_names _ _ _)).
  intros j name' w sch' Hj Hsj. apply update_named_lookup in Hj as [Hj|(-> & b & Hj & _ & ->)].
  - split; [apply Hvs; by eapply list_elem_of_lookup_2 | by eapply Hall].
  - assert (sch' = sch) as ->; [|done]. apply list_elem_of_lookup_2 in Hsj.
    rewrite Hnames in Hnd. apply (find_named_elem _ _ _ Hnd) in Hsj. congruence.
Qed.

Lemma claim_mut_valid depth path v n claim m s :
  validate_value l depth path v = Ok tt → conforms path v n = Ok tt →
  node_at_path n claim = Some m → visitor_ok depth path v claim m →
  validate_value l depth path (claim_matches_mut visitor path v claim s).1 = Ok tt
  ∧ conforms path (claim_matches_mut visitor path v claim s).1 n = Ok tt.
Proof.
  revert depth path v n s. induction claim as [|seg claim IH]; intros depth path v n s Hv Hc Hm Hok.
  { cbn in Hm |- *. injection Hm as ->. destruct (Hok [] v s) as [H1 H2].
    - rewrite app_nil_r. apply list_elem_of_here.
    - rewrite app_nil_r in H1, H2. cbn in H1. by rewrite Z.add_0_r in H1. }
  cbn in Hm |- *.
  destruct v as [| | | | | | | |items|entries|fields| | | | | |type_id inner], seg as [name| | |];
    try (by split).
  - destruct (node_kind n) as [| | | | | | | |sch| | | | | | | |] eqn:Hk; try done.
    pose proof (mut_items_lookup (λ index item, claim_matches_mut visitor (path ++ [PArrayIndex index]) item claim)
      0 items s) as Hl. destruct (mut_items _ 0 items s) as [items' s2]. cbn in Hl |- *.
    apply (rebuild_array depth path items items' n sch Hv Hk). intros i w Hw. destruct (Hl i) as [H1 H2].
    destruct (items !! i) as [x|] eqn:Ex; [|by rewrite H2 in Hw]. destruct (H1 x eq_refl) as [s1 Hx].
    rewrite Hx in Hw. injection Hw as <-.
    apply IH; [by eapply valid_array | by eapply conforms_array | done |].
    eapply visitor_ok_child; [exact Hok|]. intros y Hy. cbn. apply list_elem_of_bind.
    exists (i, x). split; [done|]. by apply elem_of_enumerate.
  - destruct (node_kind n) as [| | | | | | | | |sch| | | | | | |] eqn:Hk; try done.
    destruct (valid_map l _ _ _ Hv) as [_ Hvs].
    pose proof (mut_entries_lookup (λ key value, claim_matches_mut visitor (path ++ [PMapKey key]) value claim)
      entries s) as Hl.
    pose proof (mut_entries_keys (λ key value, claim_matches_mut visitor (path ++ [PMapKey key]) value claim)
      entries s) as Hkeys.
    destruct (mut_entries _ entries s) as [entries' s2]. cbn in Hl, Hkeys |- *.
    apply (rebuild_map depth path entries entries' n sch Hv Hk Hkeys).
    intros k w [j Hj]%list_elem_of_lookup. destruct (Hl j) as [H1 H2].
    destruct (entries !! j) as [[k' x]|] eqn:Ex; [|by rewrite H2 in Hj].
    destruct (H1 k' x eq_refl) as [s1 Hx]. rewrite Hx in Hj. injection Hj as -> <-.
    apply list_elem_of_lookup_2 in Ex.
    apply IH; [by apply Hvs | by eapply conforms_map | done |].
    eapply visitor_ok_child; [exact Hok|]. intros y Hy. cbn. apply list_elem_of_bind. by exists (k, x).
  - destruct (node_kind n) as [| | | | | | | | | |schemas| | | | | |] eqn:Hk; try done.
    destruct (find_named name schemas) as [sch|] eqn:Es; cbn in Hm; [|done].
    destruct (find_named name fields) as [x|] eqn:Ex; [|by split].
    destruct (field_valid depth path fields n schemas name x sch Hv Hc Hk Ex Es) as [Hvx Hcx].
    assert (visitor_ok (depth + 1) (path ++ [PField name]) x claim m) as Hok'.
    { eapply visitor_ok_child; [exact Hok|]. intros y Hy. cbn. by rewrite Ex. }
    destruct (IH (depth + 1) (path ++ [PField name]) x sch s Hvx Hcx Hm Hok') as [IH1 IH2].
    destruct (claim_matches_mut visitor (path ++ [PField name]) x claim s) as [x' s1]. cbn in IH1, IH2 |- *.
    by apply (rebuild_field depth path fields n schemas name sch x').
  - destruct (node_kind n) as [| | | | | | | | | | | | | | | |id sch] eqn:Hk; try done.
    destruct (conforms_custom _ _ _ _ _ _ Hc Hk) as [-> Hx].
    assert (visitor_ok (depth + 1) (path ++ [PLogicalValue]) inner claim m) as Hok'
      by (by eapply visitor_ok_child; [exact Hok|]).
    destruct (IH (depth + 1) _ inner sch s (valid_custom l _ _ _ _ Hv) Hx Hm Hok') as [IH1 IH2].
    destruct (claim_matches_mut visitor (path ++ [PLogicalValue]) inner claim s) as [x' s1].
    cbn in Hv, IH1, IH2 |- *. rewrite Hk. destruct (max_nesting_depth l <? depth); [done|].
    destruct (bool_decide (id = [])); [done|]. by rewrite bool_decide_true.
Qed.
End rewriting_valid.

(** ** Schemas *)

(** The children of a node, with the segments that lead to them. *)
Definition children (k : SchemaKind) : list (SchemaPathSegment * SchemaNode) :=
  match k with
  | KArray items => [(SArrayElement, items)]
  | KMap values => [(SMapValue, values)]
  | KRecord fields => (λ f, (SField f.1, f.2)) <$> fields
  | KCustom _ value => [(SLogicalValue, value)]
  | _ => []
  end.

(** Induction on the nodes below a node. *)
Lemma SchemaNode_children_ind (P : SchemaNode → Prop) :
  (∀ b k, (∀ seg c, (seg, c) ∈ children k → P c) → P (mkNode b k)) → ∀ n, P n.
Proof.
  intros HP. fix IH 1. intros [b k]. apply HP.
  destruct k as [| | | | | | | |items|values|fields| | | | | |type_id value]; cbn; intros seg c Hin;
    try (apply elem_of_nil in Hin; destruct Hin);
    try (apply list_elem_of_singleton in Hin; injection Hin as -> ->; apply IH).
  induction fields as [|[name sch] fields IHf]; cbn in Hin; [apply elem_of_nil in Hin; destruct Hin|].
  apply elem_of_cons in Hin as [E|Hin]; [|by apply IHf]. injection E as -> ->. apply IH.
Qed.

Lemma visit_node_eq path b k :
  visit_node path (mkNode b k)
  = (path, mkNode b k) :: (children k ≫= λ '(seg, c), visit_node (path ++ [seg]) c).
Proof.
  cbn. f_equal. destruct k as [| | | | | | | |items|values|fields| | | | | |type_id value]; cbn;
    rewrite ?app_nil_r; try done.
  induction fields as [|[name sch] fields IH]; cbn; [done|]. by rewrite IH.
Qed.

(** A segment leads to at most one child. *)
Definition child_at (seg : SchemaPathSegment) (k : SchemaKind) : option SchemaNode :=
  node_at_path (mkNode false k) [seg].

Lemma child_at_elem k seg c : NoDup (children k).*1 → child_at seg k = Some c ↔ (seg, c) ∈ children k.
Proof.
  unfold child_at. cbn. intros Hnd.
  destruct k as [| | | | | | | |items|values|fields| | | | | |type_id value], seg as [name| | |]; cbn in *;
    rewrite ?list_elem_of_singleton, ?elem_of_nil; try naive_solver.
  - assert (NoDup fields.*1) as Hnd'.
    { rewrite <- list_fmap_compose in Hnd. by apply (NoDup_fmap_1 SField); rewrite <- list_fmap_compose. }
    rewrite list_elem_of_fmap. split.
    + destruct (find_named name fields) as [c'|] eqn:E; cbn; [|done]. intros [= ->].
      apply find_named_Some in E. by exists (name, c).
    + intros ([name' c'] & [= -> ->] & Hin). cbn. by rewrite (proj2 (find_named_elem name' fields c' Hnd') Hin).
  - rewrite list_elem_of_fmap. split; [done|]. by intros (? & ? & _).
  - rewrite list_elem_of_fmap. split; [done|]. by intros (? & ? & _).
  - rewrite list_elem_of_fmap. split; [done|]. by intros (? & ? & _).
Qed.

Lemma node_at_path_cons n seg path :
  node_at_path n (seg :: path) = child_at seg (node_kind n) ≫= λ c, node_at_path c path.
Proof.
  unfold child_at. cbn. destruct (node_kind n) as [| | | | | | | | | |fields| | | | | |], seg; try done.
  cbn. by destruct (find_named name fields).
Qed.

(** No two fields of a record, anywhere in the schema, share a name. *)
Definition distinct_fields (n : SchemaNode) : Prop :=
  ∀ path m, (path, m) ∈ visit_node [] n → NoDup (children (node_kind m)).*1.

Lemma visit_node_path path n :
  visit_node path n = (λ x, (path ++ x.1, x.2)) <$> visit_node [] n.
Proof.
  revert path. induction n as [b k IH] using SchemaNode_children_ind. intros path.
  rewrite !visit_node_eq. cbn. rewrite app_nil_r. f_equal.
  induction (children k) as [|[seg c] cs IHc]; cbn; [done|].
  rewrite fmap_app, IHc by (intros; eapply IH; by right). f_equal.
  rewrite (IH seg c) with (path := path ++ [seg]) by left. rewrite (IH seg c) with (path := [seg]) by left.
  rewrite <- list_fmap_compose. apply list_fmap_ext. intros j [p m] _. cbn. by rewrite <- app_assoc.
Qed.

Lemma elem_of_visit_child b k seg c path m :
  (seg, c) ∈ children k → (path, m) ∈ visit_node [] c → (seg :: path, m) ∈ visit_node [] (mkNode b k).
Proof.
  intros Hc Hin. rewrite visit_node_eq. right. apply list_elem_of_bind. exists (seg, c). split; [|done].
  rewrite visit_node_path. apply list_elem_of_fmap. by exists (path, m).
Qed.

Lemma elem_of_visit b k path m :
  (path, m) ∈ visit_node [] (mkNode b k) ↔
  (path = [] ∧ m = mkNode b k)
  ∨ ∃ seg c path', path = seg :: path' ∧ (seg, c) ∈ children k ∧ (path', m) ∈ visit_node [] c.
Proof.
  split.
  - rewrite visit_node_eq. intros [[= -> ->]|Hin]%elem_of_cons; [by left|right].
    apply list_elem_of_bind in Hin as ([seg c] & Hin & Hc). rewrite visit_node_path in Hin.
    apply list_elem_of_fmap in Hin as ([p' m'] & [= -> ->] & Hin). by exists seg, c, p'.
  - intros [[-> ->]|(seg & c & path' & -> & Hc & Hin)]; [rewrite visit_node_eq; apply list_elem_of_here|].
    by eapply elem_of_visit_child.
Qed.

Lemma distinct_child b k seg c :
  distinct_fields (mkNode b k) → (seg, c) ∈ children k → distinct_fields c.
Proof. intros Hd Hc path m Hin. eapply Hd. by eapply elem_of_visit_child. Qed.

Lemma distinct_root b k : distinct_fields (mkNode b k) → NoDup (children k).*1.
Proof. intros Hd. apply (Hd [] (mkNode b k)). apply elem_of_visit. by left. Qed.

(** The traversal lists the nodes that paths name. *)
Lemma visit_node_at_path n path m :
  distinct_fields n → (path, m) ∈ visit_node [] n ↔ node_at_path n path = Some m.
Proof.
  revert path. induction n as [b k IH] using SchemaNode_children_ind. intros path Hd.
  rewrite elem_of_visit. destruct path as [|seg path]; [cbn; naive_solver|].
  rewrite node_at_path_cons. cbn [node_kind]. split.
  - intros [[? _]|(seg' & c & path' & [= -> ->] & Hc & Hin)]; [done|].
    rewrite (proj2 (child_at_elem k seg' c (distinct_root b k Hd)) Hc). cbn.
    apply (IH seg' c Hc); [by eapply distinct_child|done].
  - destruct (child_at seg k) as [c|] eqn:E; cbn; [|done]. intros Hm.
    apply (child_at_elem k seg c (distinct_root b k Hd)) in E.
    right. exists seg, c, path. split_and!; [done..|]. apply (IH seg c E); [by eapply distinct_child|done].
Qed.

Lemma NoDup_visit n path : distinct_fields n → NoDup (visit_node path n).
Proof.
  revert path. induction n as [b k IH] using SchemaNode_children_ind. intros path Hd.
  assert (∀ s (x : SchemaNode) p m, (p, m) ∈ visit_node (path ++ [s]) x → ∃ q, p = path ++ s :: q) as Hp.
  { intros s x p m Hin. rewrite visit_node_path in Hin.
    apply list_elem_of_fmap in Hin as ([q m'] & [= -> ->] & _). exists q. by rewrite <- app_assoc. }
  rewrite visit_node_eq. constructor.
  - intros ([s x] & Hin & _)%list_elem_of_bind. apply Hp in Hin as [q Hq].
    apply (f_equal length) in Hq. rewrite length_app in Hq. cbn in Hq. lia.
  - pose proof (distinct_root b k Hd) as Hnd. apply NoDup_bind.
    + intros [s x] [s' x'] [p m] Hx Hx' H1 H2. apply Hp in H1 as [q1 ->]. apply Hp in H2 as [q2 E].
      apply app_inv_head in E. injection E as -> _. f_equal.
      apply (child_at_elem k s' _ Hnd) in Hx, Hx'. congruence.
    + intros [s x] Hx. apply (IH s x Hx). by eapply distinct_child.
    + by eapply NoDup_fmap_1.
Qed.

(** ** The limits of a schema *)

(** The fields of the record nodes among the visited ones. *)
Definition own_fields (n : SchemaNode) : Z :=
  match node_kind n with KRecord fields => Z.of_nat (length fields) | _ => 0 end.
Definition total_fields (visits : list (SchemaPath * SchemaNode)) : Z :=
  foldr (λ x acc, own_fields x.2 + acc) 0 visits.

Lemma total_fields_app a b : total_fields (a ++ b) = total_fields a + total_fields b.
Proof. unfold total_fields. induction a as [|x a IH]; cbn; [done|]. rewrite IH. lia. Qed.

Lemma total_fields_cons p n a : total_fields ((p, n) :: a) = own_fields n + total_fields a.
Proof. done. Qed.

Section limits.
  Context (l : BinaryIrLimits).

(** What a successful validation of a node establishes. *)
Record node_ok (depth count : Z) (path : SchemaPath) (n : SchemaNode) (count' : Z) : Prop := {
  nok_depth : ∀ p m, (p, m) ∈ visit_node [] n → depth + Z.of_nat (length p) <= max_nesting_depth l;
  nok_count : count' = count + total_fields (visit_node path n);
  nok_fields : count <= max_fields l → count' <= max_fields l;
  nok_distinct : distinct_fields n;
}.

(** The loop over the fields of a record. *)
Lemma validate_fields_Ok path depth names count fields count' :
  (∀ name sch, (name, sch) ∈ fields → ∀ count count',
     validate_node l (depth + 1) count (path ++ [SField name]) sch = Ok count' →
     node_ok (depth + 1) count (path ++ [SField name]) sch count') →
  validate_fields path (λ name count sch, validate_node l (depth + 1) count (path ++ [SField name]) sch)
    names count fields = Ok count' →
  (∀ n, n ∈ fields.*1 → n ∉ names) ∧ NoDup fields.*1
  ∧ count' = count + total_fields (fields ≫= λ '(name, sch), visit_node (path ++ [SField name]) sch)
  ∧ (count <= max_fields l → count' <= max_fields l)
  ∧ ∀ name sch, (name, sch) ∈ fields → distinct_fields sch
      ∧ ∀ p m, (p, m) ∈ visit_node [] sch → depth + 1 + Z.of_nat (length p) <= max_nesting_depth l.
Proof.
  intros IH. revert names count. induction fields as [|[name sch] fields IHf]; intros names count; cbn.
  { intros [= <-]. split_and!; [set_solver|constructor|lia|done|set_solver]. }
  destruct (bool_decide (name = [])); [done|].
  destruct (decide (name ∈ names)) as [Hin|Hnin]; [by rewrite bool_decide_true|].
  rewrite bool_decide_false by done. rewrite result_bind_Ok. intros (count1 & Hv & Hrest).
  apply IH in Hv as [Hdep Hcnt Hfld Hdis]; [|by left].
  apply IHf in Hrest as (H1 & H2 & H3 & H4 & H5); [|intros; eapply IH; [by right|done]].
  split_and!.
  - intros m [->|Hm]%elem_of_cons; [done|]. specialize (H1 m Hm). set_solver.
  - constructor; [|done]. intros Hm. specialize (H1 name Hm). set_solver.
  - rewrite total_fields_app. lia.
  - naive_solver.
  - intros m s [[= -> ->]|Hm]%elem_of_cons; [done|]. by apply (H5 m).
Qed.

(** A node with at most one child, reached by [seg]. *)
Lemma node_ok_single depth count path b k seg c count' :
  children k = [(seg, c)] → own_fields (mkNode b k) = 0 → depth <= max_nesting_depth l →
  node_ok (depth + 1) count (path ++ [seg]) c count' → node_ok depth count path (mkNode b k) count'.
Proof.
  intros Hk Hown Hd [Hdep Hcnt Hfld Hdis].
  assert (∀ p m, (p, m) ∈ visit_node [] (mkNode b k) →
    (p = [] ∧ m = mkNode b k) ∨ ∃ p', p = seg :: p' ∧ (p', m) ∈ visit_node [] c) as Hvisit.
  { intros p m [?|(s & x & p' & -> & Hc & Hin)]%elem_of_visit; [by left|]. right.
    rewrite Hk in Hc. apply list_elem_of_singleton in Hc. injection Hc as -> ->. by exists p'. }
  constructor; [| |done|].
  - intros p m [[-> _]|(p' & -> & Hin)]%Hvisit; cbn [length]; [lia|]. specialize (Hdep p' m Hin). lia.
  - rewrite visit_node_eq, Hk, total_fields_cons, Hown. cbn [mbind list_bind]. rewrite app_nil_r. lia.
  - intros p m [[-> ->]|(p' & -> & Hin)]%Hvisit; [|by eapply Hdis].
    cbn [node_kind]. rewrite Hk. apply NoDup_singleton.
Qed.

Lemma node_ok_leaf depth count path b k :
  children k = [] → own_fields (mkNode b k) = 0 → depth <= max_nesting_depth l →
  node_ok depth count path (mkNode b k) count.
Proof.
  intros Hk Hown Hd.
  assert (∀ p m, (p, m) ∈ visit_node [] (mkNode b k) → p = [] ∧ m = mkNode b k) as Hvisit.
  { intros p m [?|(s & x & p' & -> & Hc & Hin)]%elem_of_visit; [done|]. rewrite Hk in Hc.
    by apply elem_of_nil in Hc. }
  constructor; [| |done|].
  - intros p m [-> _]%Hvisit. cbn. lia.
  - rewrite visit_node_eq, Hk, total_fields_cons, Hown. cbn. lia.
  - intros p m [-> ->]%Hvisit. cbn [node_kind]. rewrite Hk. apply NoDup_nil_2.
Qed.

Lemma node_ok_record depth count path b fields count' :
  depth <= max_nesting_depth l → count + Z.of_nat (length fields) <= max_fields l →
  (∀ name sch, (name, sch) ∈ fields → ∀ count count',
     validate_node l (depth + 1) count (path ++ [SField name]) sch = Ok count' →
     node_ok (depth + 1) count (path ++ [SField name]) sch count') →
  validate_fields path (λ name count sch, validate_node l (depth + 1) count (path ++ [SField name]) sch)
    [] (count + Z.of_nat (length fields)) fields = Ok count' →
  node_ok depth count path (mkNode b (KRecord fields)) count'.
Proof.
  intros Hd Hmax IH Hv. apply validate_fields_Ok in Hv as (_ & Hnd & Hcnt & Hfld & Hall); [|done].
  constructor.
  - intros p m [[-> _]|(s & c & p' & -> & Hc & Hin)]%elem_of_visit; cbn [length]; [lia|].
    apply list_elem_of_fmap in Hc as ([name sch] & [= -> ->] & Hf).
    destruct (Hall name sch Hf) as [_ Hdep]. specialize (Hdep p' m Hin). lia.
  - rewrite visit_node_eq. cbn [children]. rewrite list_fmap_bind, total_fields_cons, Hcnt.
    unfold own_fields. cbn [node_kind].
    assert ((fields ≫= (λ '(seg, c), visit_node (path ++ [seg]) c) ∘ (λ f, (SField f.1, f.2)))
      = fields ≫= λ '(name, sch), visit_node (path ++ [SField name]) sch) as ->.
    { apply list_bind_ext; [|done]. by intros [name sch]. }
    lia.
  - intros _. by apply Hfld.
  - intros p m [[-> ->]|(s & c & p' & -> & Hc & Hin)]%elem_of_visit.
    + cbn. rewrite <- list_fmap_compose. apply (NoDup_fmap_2_strong _ fields).
      * intros [n1 s1] [n2 s2] H1 H2 [= ->]. f_equal.
        apply (find_named_elem _ _ _ Hnd) in H1, H2. congruence.
      * by eapply NoDup_fmap_1.
    + apply list_elem_of_fmap in Hc as ([name sch] & [= -> ->] & Hf).
      destruct (Hall name sch Hf) as [Hdis _]. by eapply Hdis.
Qed.

Lemma validate_node_Ok depth count path n count' :
  validate_node l depth count path n = Ok count' → node_ok depth count path n count'.
Proof.
  revert depth count path count'. induction n as [b k IH] using SchemaNode_children_ind.
  intros depth count path count'. unfold validate_node; fold validate_node; fold validate_kind.
  destruct (Z.ltb_spec (max_nesting_depth l) depth) as [|Hd]; [done|]. case_match; [done|].
  destruct k as [| | | | | | | |items|values|fields| | | | |precision scale|type_id value];
    unfold validate_kind; fold validate_node; fold validate_kind;
    try (intros [= <-]; by apply node_ok_leaf).
  - intros Hv. eapply node_ok_single; [done..|]. by eapply IH; [left|].
  - intros Hv. eapply node_ok_single; [done..|]. by eapply IH; [left|].
  - destruct (u64_max <? _); [done|]. cbn zeta.
    destruct (Z.ltb_spec (max_fields l) (count + Z.of_nat (length fields))); [done|].
    intros Hv. apply node_ok_record; [done..| |done].
    intros name sch Hin count1 count2 Hv'. eapply IH; [|done].
    cbn. apply list_elem_of_fmap. by exists (name, sch).
  - destruct (precision =? 0); [done|]. destruct (precision <? scale); [done|].
    intros [= <-]. by apply node_ok_leaf.
  - destruct (bool_decide (type_id = [])); [done|]. intros Hv.
    eapply node_ok_single; [done..|]. by eapply IH; [left|].
Qed.
End limits.

(** ** Properties *)

Lemma schema_validate_Ok schema l :
  schema_validate schema l = Ok tt → ∃ count, node_ok l 0 0 [] (schema_root schema) count.
Proof.
  unfold schema_validate. intros (? & _ & H)%result_bind_Ok.
  apply result_bind_Ok in H as (? & _ & H). apply result_bind_Ok in H as (count & H & _).
  exists count. by apply validate_node_Ok.
Qed.

Lemma value_validate_Ok `{UuidText} v schema l :
  value_validate v schema l = Ok tt ↔
  ir_limits_validate l = Ok tt ∧ value_version v = VALUE_IR_VERSION ∧ schema_validate schema l = Ok tt
  ∧ validate_value l 0 [] (value_root v) = Ok tt ∧ conforms [] (value_root v) (schema_root schema) = Ok tt.
Proof.
  unfold value_validate, validate_version. rewrite !result_bind_Ok. split.
  - intros ([] & H1 & H2). destruct (Z.eqb_spec (value_version v) VALUE_IR_VERSION); [|done]. cbn in H2.
    apply result_bind_Ok in H2 as ([] & H2 & H3). apply result_bind_Ok in H3 as ([] & H3 & H4). done.
  - intros (H1 & H2 & H3 & H4 & H5). exists tt. split; [done|]. rewrite H2, Z.eqb_refl. cbn.
    by rewrite H3, H4.
Qed.

(** The paths of a validated schema name its nodes: the traversal visits
    every node once, [node_at_path] finds exactly the visited node, the claimable
    paths are those of the records and custom nodes, and the schema is within its
    limits of nesting and of fields. *)
Theorem schema_paths_exact schema l :
  schema_validate schema l = Ok tt → is_u64 (max_fields l) →
  (∀ p n, (p, n) ∈ visit_paths (schema_root schema) ↔ node_at_path (schema_root schema) p = Some n)
  ∧ NoDup (visit_paths (schema_root schema)).*1
  ∧ (∀ p, p ∈ reductor_claim_paths schema ↔ ∃ n, node_at_path (schema_root schema) p = Some n
       ∧ match node_kind n with KRecord _ | KCustom _ _ => True | _ => False end)
  ∧ (∀ p n, node_at_path (schema_root schema) p = Some n → Z.of_nat (length p) <= max_nesting_depth l)
  ∧ total_fields (visit_paths (schema_root schema)) <= max_fields l.
Proof.
  intros [count [Hdep Hcnt Hfld Hdis]]%schema_validate_Ok [Hmax _]. unfold visit_paths.
  assert (∀ p n, (p, n) ∈ visit_node [] (schema_root schema) ↔ node_at_path (schema_root schema) p = Some n)
    as Hex by (intros p n; by apply visit_node_at_path).
  split_and!; [done| | | |].
  - apply NoDup_fmap_2_strong; [|by apply NoDup_visit].
    intros [p1 n1] [p2 n2] H1%Hex H2%Hex Heq. cbn in Heq. subst. congruence.
  - intros p. unfold reductor_claim_paths. rewrite list_elem_of_omap. split.
    + intros ([q n] & Hin%Hex & Hq). exists n. destruct (node_kind n); naive_solver.
    + intros (n & Hin%Hex & Hn). exists (p, n). split; [done|]. by destruct (node_kind n).
  - intros p n Hin%Hex. specialize (Hdep p n Hin). lia.
  - rewrite Z.add_0_l in Hcnt. rewrite <- Hcnt. by apply Hfld.
Qed.

(** On a validated value a claim visits exactly the values that the concrete
    instances of its path select, each path once, and when the schema has a node
    at the claim, every visited value conforms to that node. *)
Theorem claim_matches_exact `{UuidText} v schema l claim :
  value_validate v schema l = Ok tt →
  (∀ p w, (p, w) ∈ visit_claim_matches (value_root v) claim ↔
     path_matches claim p ∧ value_at_path (value_root v) p = Some w)
  ∧ NoDup (visit_claim_matches (value_root v) claim).*1
  ∧ (∀ n p w, node_at_path (schema_root schema) claim = Some n →
       (p, w) ∈ visit_claim_matches (value_root v) claim → conforms p w n = Ok tt).
Proof.
  intros (_ & _ & _ & Hv & Hc)%value_validate_Ok. unfold visit_claim_matches.
  assert (∀ p w, (p, w) ∈ claim_matches [] (value_root v) claim ↔
    path_matches claim p ∧ value_at_path (value_root v) p = Some w) as Hex.
  { intros p w. rewrite (claim_matches_spec l 0 [] _ _ _ _ Hv). naive_solver. }
  split_and!; [done| |].
  - apply NoDup_fmap_2_strong; [|by eapply NoDup_claim_matches].
    intros [p1 w1] [p2 w2] H1%Hex H2%Hex Heq. cbn in Heq. subst. destruct H1, H2. congruence.
  - intros n p w Hn Hin. by eapply claim_matches_conform.
Qed.

(** C36: Rewriting the values a claim selects, with a visitor that may carry
    state and returns values valid at their depth and of the claimed schema,
    leaves a value that validates against the same schema.  Every selected
    position holds what the visitor returned for it, and a position that is
    neither above nor below a selected one keeps its value. *)
Theorem claim_rewrite_valid `{UuidText} {S} (visitor : ValuePath → Value → S → Value * S) v schema l claim n s :
  value_validate v schema l = Ok tt → node_at_path (schema_root schema) claim = Some n →
  (∀ p w s, (p, w) ∈ visit_claim_matches (value_root v) claim →
     validate_value l (Z.of_nat (length p)) p (visitor p w s).1 = Ok tt
     ∧ conforms p (visitor p w s).1 n = Ok tt) →
  let root' := (visit_claim_matches_mut visitor (value_root v) claim s).1 in
  value_validate (mkValueIr (value_version v) root') schema l = Ok tt
  ∧ (∀ p w, (p, w) ∈ visit_claim_matches (value_root v) claim →
       ∃ s', value_at_path root' p = Some (visitor p w s').1)
  ∧ (∀ q, (∀ p, path_matches claim p → apart p q) →
       value_at_path root' q = value_at_path (value_root v) q).
Proof.
  intros (H1 & H2 & H3 & Hv & Hc)%value_validate_Ok Hn Hok root'.
  unfold visit_claim_matches_mut in root'. split_and!.
  - apply value_validate_Ok. split_and!; [done..| |]; cbn [value_root];
      eapply (claim_mut_valid l visitor 0 [] _ _ claim n s Hv Hc Hn);
      intros q w s' Hin; by apply Hok.
  - intros p w Hin. apply (claim_matches_spec l 0 [] _ _ _ _ Hv) in Hin as (q & -> & Hm & Hw).
    by apply (claim_mut_selected visitor []).
  - intros q Hq. by apply claim_mut_untouched.
Qed.

(** ** A concrete schema and value *)

(** A table of rows, each with an amount and an optional note. *)
Definition sample_schema : SchemaIr :=
  schema_ir_new (mkNode false (KRecord
    [(bs "rows", mkNode false (KArray (mkNode false (KRecord
       [(bs "amount", mkNode false (KDecimal 6 2)); (bs "note", mkNode true KString)]))));
     (bs "day", mkNode false KDate)])).

Definition sample_value : ValueIr :=
  value_ir_new (VRecord
    [(bs "rows", VArray
       [VRecord [(bs "amount", VDecimal (bs "12.50")); (bs "note", VNull)];
        VRecord [(bs "amount", VDecimal (bs "-3.00")); (bs "note", VString (bs "refund"))]]);
     (bs "day", VDate (bs "2024-02-29"))]).

Definition sample_claim : SchemaPath := [SField (bs "rows"); SArrayElement; SField (bs "amount")].

(** A recogniser of 36-byte texts stands for the [uuid] crate in the examples. *)
Definition sample_uuid : UuidText :=
  {| uuid_hyphenated := λ s, if (length s =? 36)%nat then Some s else None |}.

(** A visitor that replaces an amount by zero and counts what it replaced. *)
Definition sample_visitor (_ : ValuePath) (_ : Value) (count : nat) : Value * nat :=
  (VDecimal (bs "0.00"), S count).

Lemma schema_paths_exact_witness :
  schema_validate sample_schema ir_limits_default = Ok tt
  ∧ reductor_claim_paths sample_schema = [[]; [SField (bs "rows"); SArrayElement]]
  ∧ total_fields (visit_paths (schema_root sample_schema)) <= 4096.
Proof.
  assert (schema_validate sample_schema ir_limits_default = Ok tt) as Hv by (by vm_compute).
  split_and!; [done|by vm_compute|].
  exact (proj2 (proj2 (proj2 (proj2 (schema_paths_exact sample_schema ir_limits_default Hv
    ltac:(by vm_compute)))))).
Defined.

Lemma claim_matches_exact_witness :
  length (visit_claim_matches (value_root sample_value) sample_claim) = 2%nat
  ∧ NoDup (visit_claim_matches (value_root sample_value) sample_claim).*1.
Proof.
  split; [by vm_compute|].
  exact (proj1 (proj2 (@claim_matches_exact sample_uuid sample_value sample_schema ir_limits_default
    sample_claim ltac:(by vm_compute)))).
Defined.

Lemma claim_rewrite_valid_witness :
  (visit_claim_matches_mut sample_visitor (value_root sample_value) sample_claim 0%nat).2 = 2%nat
  ∧ @value_validate sample_uuid
      (value_ir_new (visit_claim_matches_mut sample_visitor (value_root sample_value) sample_claim 0%nat).1)
      sample_schema ir_limits_default = Ok tt.
Proof.
  split; [by vm_compute|].
  refine (proj1 (@claim_rewrite_valid sample_uuid nat sample_visitor sample_value sample_schema
    ir_limits_default sample_claim (mkNode false (KDecimal 6 2)) 0%nat ltac:(by vm_compute)
    ltac:(by vm_compute) _)).
  intros p w s Hin. assert (p ∈ (visit_claim_matches (value_root sample_value) sample_claim).*1) as Hp
    by (apply list_elem_of_fmap; by exists (p, w)).
  assert (Z.of_nat (length p) = 3) as -> by (vm_compute in Hp; repeat (apply elem_of_cons in Hp as [->|Hp];
    [done|]); by apply elem_of_nil in Hp).
  split; by vm_compute.
Defined.
