(* ===== verification/BinaryIrText.v ===== *)
(** * The canonical texts of the binary IR

    Which texts [validate_date] and [parse_decimal] of [BinaryIr] accept: exactly
    the zero-padded texts of calendar dates, and one text per decimal number and
    scale. *)

From S2P Require Import Prelude RustStr BinaryIr BinaryIrProofs.

#[local] Open Scope Z_scope.
Set Default Goal Selector "!".

(** ** Fixed-width decimal digits *)

Definition digit_byte (z : Z) : byte := default x00 (Byte.of_N (Z.to_N (48 + z))).

(** [n] digits of [z], most significant first. *)
Fixpoint pad (n : nat) (z : Z) : list byte :=
  match n with
  | O => []
  | S n => pad n (z / 10) ++ [digit_byte (z mod 10)]
  end.

Lemma digit_byte_value z : 0 <= z < 10 → is_ascii_digit (digit_byte z) = true ∧ digit_value (digit_byte z) = z.
Proof.
  intros Hz. unfold is_ascii_digit, digit_value, digit_byte. rewrite b2z_of_Z by lia.
  rewrite andb_true_iff, !Z.leb_le. lia.
Qed.

Lemma digit_byte_of b : is_ascii_digit b = true → digit_byte (digit_value b) = b ∧ 0 <= digit_value b < 10.
Proof.
  unfold is_ascii_digit, digit_value, digit_byte. rewrite andb_true_iff, !Z.leb_le. intros Hb.
  split; [|lia]. replace (48 + (b2z b - 48)) with (b2z b) by lia.
  unfold b2z. rewrite N2Z.id, Byte.of_to_N. done.
Qed.

Lemma length_pad n z : length (pad n z) = n.
Proof. revert z. induction n as [|n IH]; intros z; cbn; [done|]. rewrite length_app, IH. cbn. lia. Qed.

Lemma parse_digits_app a b :
  parse_digits (a ++ [b]) = (value ← parse_digits a; if is_ascii_digit b then Some (value * 10 + digit_value b) else None).
Proof. unfold parse_digits. by rewrite foldl_app. Qed.

Lemma parse_digits_pad n z : 0 <= z < 10 ^ Z.of_nat n → parse_digits (pad n z) = Some z.
Proof.
  revert z. induction n as [|n IH]; intros z Hz; [cbn in *; unfold parse_digits; cbn; f_equal; lia|].
  cbn [pad]. rewrite parse_digits_app.
  assert (10 ^ Z.of_nat (S n) = 10 * 10 ^ Z.of_nat n) as Hpow
    by (rewrite Nat2Z.inj_succ, Z.pow_succ_r by lia; lia).
  rewrite IH. 2: { split; [apply Z.div_pos; lia|]. apply Z.div_lt_upper_bound; lia. }
  cbn. destruct (digit_byte_value (z mod 10)) as [-> ->]; [apply Z.mod_pos_bound; lia|].
  f_equal. pose proof (Z.div_mod z 10). lia.
Qed.

(** A number that is read is written back by [pad]. *)
Lemma parse_digits_Some l z :
  parse_digits l = Some z → l = pad (length l) z ∧ 0 <= z < 10 ^ Z.of_nat (length l)
    ∧ forallb is_ascii_digit l = true.
Proof.
  revert z. induction l as [|b l IH] using rev_ind; intros z; [by intros [= <-]|].
  rewrite parse_digits_app. destruct (parse_digits l) as [y|]; cbn; [|done].
  destruct (is_ascii_digit b) eqn:Hb; [|done]. intros [= <-].
  destruct (IH y eq_refl) as (Hl & Hy & Hd). destruct (digit_byte_of b Hb) as [Hbyte Hv].
  rewrite length_app. cbn [length]. rewrite Nat.add_1_r. cbn [pad].
  assert ((y * 10 + digit_value b) / 10 = y) as ->.
  { rewrite Z.add_comm, Z.div_add, Z.div_small by lia. lia. }
  assert ((y * 10 + digit_value b) mod 10 = digit_value b) as ->.
  { rewrite Z.add_comm, Z.mod_add, Z.mod_small by lia. lia. }
  rewrite Hbyte, <- Hl. split; [done|]. split.
  - rewrite Nat2Z.inj_succ, Z.pow_succ_r by lia. lia.
  - rewrite forallb_app, Hd. cbn. by rewrite Hb.
Qed.

Lemma parse_digits_all l : forallb is_ascii_digit l = true → is_Some (parse_digits l).
Proof.
  induction l as [|b l IH] using rev_ind; [by eexists|]. rewrite forallb_app, andb_true_iff.
  intros [Hl Hb]. cbn in Hb. rewrite andb_true_r in Hb. rewrite parse_digits_app.
  destruct (IH Hl) as [y ->]. cbn. rewrite Hb. by eexists.
Qed.

Lemma parse_digits_inj a b z : parse_digits a = Some z → parse_digits b = Some z → length a = length b → a = b.
Proof.
  intros (Ha & _)%parse_digits_Some (Hb & _)%parse_digits_Some Hlen. rewrite Ha, Hb. by rewrite Hlen.
Qed.

(** ** Dates *)

Definition days_in_month (year month : Z) : Z :=
  if month =? 2 then (if is_leap_year year then 29 else 28)
  else if bool_decide (month ∈ [4; 6; 9; 11]) then 30 else 31.

Definition date_text (year month day : Z) : str :=
  pad 4 year ++ [x2d] ++ pad 2 month ++ [x2d] ++ pad 2 day.

Definition calendar_date (year month day : Z) : Prop :=
  1 <= year <= 9999 ∧ 1 <= month <= 12 ∧ 1 <= day <= days_in_month year month.

(** The number of days of a month, as the code computes it. *)
Lemma month_days year month :
  (if bool_decide (month ∈ [1; 3; 5; 7; 8; 10; 12]) then Ok 31
   else if bool_decide (month ∈ [4; 6; 9; 11]) then Ok 30
   else if month =? 2 then (if is_leap_year year then Ok 29 else Ok 28)
   else Err "month is out of range")
  = (if bool_decide (1 <= month <= 12) then Ok (days_in_month year month)
     else @Err string Z "month is out of range").
Proof.
  unfold days_in_month.
  destruct (decide (1 <= month <= 12)) as [Hm|Hm]; [rewrite (bool_decide_true (1 <= _ <= _)) by done
    | rewrite (bool_decide_false (1 <= _ <= _)) by done].
  - assert (month ∈ [1; 2; 3; 4; 5; 6; 7; 8; 9; 10; 11; 12]) as Hin.
    { rewrite !elem_of_cons, elem_of_nil. lia. }
    repeat (apply elem_of_cons in Hin as [->|Hin]; [destruct (is_leap_year year); by vm_compute|]).
    by apply elem_of_nil in Hin.
  - rewrite !bool_decide_false by (rewrite !elem_of_cons, elem_of_nil; lia).
    destruct (Z.eqb_spec month 2); [lia|done].
Qed.

(** The parts of a text of the shape that is checked first. *)
Lemma date_shape value :
  length value = 10%nat → value !! 4%nat = Some x2d → value !! 7%nat = Some x2d →
  value = slice value 0 4 ++ [x2d] ++ slice value 5 7 ++ [x2d] ++ slice value 8 10.
Proof.
  intros Hlen H4 H7. do 10 (destruct value as [|? value]; [done|]). destruct value; [|done].
  cbn in *. by simplify_eq.
Qed.

#[local] Arguments slice : simpl never.
#[local] Arguments parse_digits : simpl never.

(** [validate_date] accepts exactly the texts YYYY-MM-DD, with zero-padded
    fields, of the dates of the Gregorian calendar from year 1 to year 9999. *)
Theorem date_exact value :
  validate_date value = Ok tt ↔ ∃ year month day,
    value = date_text year month day ∧ calendar_date year month day.
Proof.
  unfold validate_date. split.
  - destruct (negb (length value =? 10)%nat || _ || _) eqn:E; [done|].
    rewrite !orb_false_iff, !negb_false_iff, !bool_decide_eq_true, Nat.eqb_eq in E.
    destruct E as [[Hlen H4] H7]. pose proof (date_shape value Hlen H4 H7) as Hshape.
    destruct (parse_digits (slice value 0 4)) as [y|] eqn:Ey; [|done]. cbn.
    destruct (parse_digits (slice value 5 7)) as [m|] eqn:Em; [|done]. cbn.
    destruct (parse_digits (slice value 8 10)) as [d|] eqn:Ed; [|done]. cbn.
    destruct (Z.eqb_spec y 0) as [|Hy0]; [done|]. rewrite month_days.
    destruct (bool_decide (1 <= m <= 12)) eqn:Hm; [|done]. apply bool_decide_eq_true in Hm. cbn.
    destruct (_ || _) eqn:Hday; [done|]. intros _. apply orb_false_iff in Hday as [Hd0 Hd1].
    apply parse_digits_Some in Ey as (Ey & Hy & _), Em as (Em & _ & _), Ed as (Ed & Hd & _).
    unfold slice in *. rewrite !length_take, !length_drop, Hlen in *.
    cbn [Nat.sub Nat.min] in *. rewrite Ey, Em, Ed in Hshape.
    exists y, m, d. split; [done|]. unfold calendar_date. cbn in Hy, Hd. lia.
  - intros (y & m & d & -> & Hy & Hm & Hd).
    assert (d < 10 ^ Z.of_nat 2) as Hd2 by (unfold days_in_month in Hd; repeat case_match; lia).
    assert (∀ a b c, length a = 4%nat → length b = 2%nat → length c = 2%nat →
      let v : str := a ++ [x2d] ++ b ++ [x2d] ++ c in
      length v = 10%nat ∧ v !! 4%nat = Some x2d ∧ v !! 7%nat = Some x2d
      ∧ slice v 0 4 = a ∧ slice v 5 7 = b ∧ slice v 8 10 = c) as Hparts.
    { intros a b c Ha Hb Hc. do 4 (destruct a as [|? a]; [done|]). destruct a; [|done].
      do 2 (destruct b as [|? b]; [done|]). destruct b; [|done].
      do 2 (destruct c as [|? c]; [done|]). by destruct c. }
    destruct (Hparts (pad 4 y) (pad 2 m) (pad 2 d)) as (Hlen & H4 & H7 & S1 & S2 & S3);
      [apply length_pad..|]. fold (date_text y m d) in Hlen, H4, H7, S1, S2, S3.
    rewrite Hlen, H4, H7, S1, S2, S3. cbn [negb orb Nat.eqb].
    rewrite !parse_digits_pad by lia. cbn. rewrite !bool_decide_true by done. cbn.
    destruct (Z.eqb_spec y 0); [lia|]. rewrite month_days, bool_decide_true by done. cbn.
    rewrite (proj2 (Z.eqb_neq d 0)), (proj2 (Z.ltb_ge _ _)) by lia. done.
Qed.

Lemma date_exact_leap_example :
  validate_date (bs "2024-02-29") = Ok tt ∧ validate_date (bs "1900-02-29") ≠ Ok tt.
Proof. by vm_compute. Qed.

(** ** Decimals *)

Definition all_digits (l : list byte) : Prop := forallb is_ascii_digit l = true.

(** The text of a decimal from its sign and digits; no point without a fraction. *)
Definition decimal_text (negative : bool) (integer fraction : list byte) : str :=
  (if negative then [x2d] else []) ++ integer
  ++ match fraction with [] => [] | _ => x2e :: fraction end.

(** The text stands for [unscaled * 10 ^ (- scale)]. *)
Definition decimal_denotes (value : str) (unscaled scale : Z) : Prop :=
  ∃ negative integer fraction u,
    value = decimal_text negative integer fraction ∧ integer ≠ [] ∧ all_digits integer ∧ all_digits fraction
    ∧ parse_digits (integer ++ fraction) = Some u
    ∧ unscaled = (if negative then - u else u) ∧ scale = Z.of_nat (length fraction).

Lemma digits_no_byte c l : all_digits l → is_ascii_digit c = false → c ∉ l.
Proof.
  intros Hl Hc Hin. apply list_elem_of_In in Hin. unfold all_digits in Hl. rewrite forallb_forall in Hl.
  by rewrite (Hl c Hin) in Hc.
Qed.

(** What [parse_decimal] decides once the text is taken apart. *)
Definition decimal_checks (negative : bool) (integer fraction : list byte) : result string DecimalParts :=
  if (1 <? length integer)%nat && bool_decide (head integer = Some x30) then
    Err "integer part has a leading zero"
  else if u32_max <? Z.of_nat (length fraction) then Err "scale is too large"
  else
    let digits := integer ++ fraction in
    let first_significant :=
      default (length digits - 1)%nat (position (λ b, negb (bool_decide (b = x30))) digits) in
    let precision := Z.of_nat (length digits - first_significant) in
    if u32_max <? precision then Err "precision is too large"
    else if negative && forallb (λ b, bool_decide (b = x30)) digits then
      Err "negative zero is not canonical"
    else Ok (mkDecimal precision (Z.of_nat (length fraction))).

(** The digits of a decimal without its sign. *)
Definition unsigned_text (integer fraction : list byte) : str :=
  integer ++ match fraction with [] => [] | _ => x2e :: fraction end.

Lemma parse_unsigned_text negative integer fraction :
  integer ≠ [] → all_digits integer → all_digits fraction →
  parse_unsigned_decimal negative (unsigned_text integer fraction) = decimal_checks negative integer fraction.
Proof.
  intros Hne Hi Hf. unfold parse_unsigned_decimal.
  assert (x2e ∉ integer) as Hi2 by by apply digits_no_byte.
  assert (x2e ∉ fraction) as Hf2 by by apply digits_no_byte.
  assert (split_on x2e (unsigned_text integer fraction)
    = match fraction with [] => [integer] | _ => [integer; fraction] end) as ->.
  { unfold unsigned_text. destruct fraction as [|f fs]; [rewrite app_nil_r; by apply split_on_none|].
    by rewrite split_on_cons, split_on_none. }
  assert (unsigned_text integer fraction ≠ [] ∧ head (unsigned_text integer fraction) ≠ Some x2b) as [H1 H2].
  { destruct integer as [|b integer]; [done|]. split; [done|]. intros [= ->].
    by apply andb_true_iff in Hi as [? _]. }
  rewrite (bool_decide_false _ H1), (bool_decide_false _ H2). cbn [orb].
  assert (x2e ∈ unsigned_text integer fraction ↔ fraction ≠ []) as Hpoint.
  { unfold unsigned_text. destruct fraction; [rewrite app_nil_r; naive_solver|]. split; [done|]. set_solver. }
  unfold all_digits in Hi, Hf. unfold decimal_checks. destruct fraction as [|f fs]; cbn -[forallb].
  - rewrite (bool_decide_false _ Hne), Hi, (bool_decide_false (x2e ∈ _)) by naive_solver. done.
  - rewrite (bool_decide_false _ Hne), Hi, Hf. cbn. by rewrite andb_false_r.
Qed.

Lemma parse_decimal_text negative integer fraction :
  integer ≠ [] → all_digits integer → all_digits fraction →
  parse_decimal (decimal_text negative integer fraction) = decimal_checks negative integer fraction.
Proof.
  intros Hne Hi Hf. rewrite <- parse_unsigned_text by done. unfold parse_decimal, strip_prefix.
  destruct negative; [done|]. destruct integer as [|b integer]; [done|].
  rewrite bool_decide_false; [done|]. cbn. intros [= ->]. by apply andb_true_iff in Hi as [? _].
Qed.

(** Every accepted text is taken apart. *)
Lemma parse_decimal_shape value d :
  parse_decimal value = Ok d → ∃ negative integer fraction,
    value = decimal_text negative integer fraction ∧ integer ≠ [] ∧ all_digits integer ∧ all_digits fraction.
Proof.
  assert (∀ negative unsigned, parse_unsigned_decimal negative unsigned = Ok d → ∃ integer fraction,
    unsigned = unsigned_text integer fraction ∧ integer ≠ [] ∧ all_digits integer ∧ all_digits fraction) as Hu.
  { intros negative unsigned. unfold parse_unsigned_decimal. case_match; [done|]. cbn zeta.
    destruct (bool_decide (is_Some (split_on x2e unsigned !! 2%nat))) eqn:E2; [done|].
    apply bool_decide_eq_false in E2.
    destruct (bool_decide (default [] (split_on x2e unsigned !! 0%nat) = []) || _) eqn:E3; [done|].
    apply orb_false_iff in E3 as [E3 E3']. apply bool_decide_eq_false in E3. apply negb_false_iff in E3'.
    case_match; [done|]. destruct (bool_decide (x2e ∈ unsigned) && _) eqn:E4; [done|]. intros _.
    destruct (split_on_spec x2e unsigned) as [[Hn Hs]|(a & l' & -> & Ha & Hs)]; rewrite Hs in *; cbn in *.
    - exists unsigned, []. unfold unsigned_text. by rewrite app_nil_r.
    - destruct (split_on_spec x2e l') as [[Hn Hs']|(a' & l'' & -> & Ha' & Hs')]; rewrite Hs' in *; cbn in *.
      + rewrite (bool_decide_true (x2e ∈ _)) in E4 by set_solver. cbn in E4.
        apply orb_false_iff in E4 as [E4 E5]. apply bool_decide_eq_false in E4. apply negb_false_iff in E5.
        exists a, l'. split_and!; [|done..]. by destruct l'.
      + exfalso. apply E2. destruct (split_on x2e l'') eqn:E; [|by eexists].
        by destruct (split_on_spec x2e l'') as [[_ E']|(? & ? & _ & _ & E')]; rewrite E' in E. }
  unfold parse_decimal, strip_prefix. destruct (bool_decide _) eqn:E.
  - apply bool_decide_eq_true in E. intros (i & f & Hv & ?)%Hu. exists true, i, f. split; [|done].
    rewrite <- (take_drop (length (bs "-")) value), E, Hv. done.
  - intros (i & f & Hv & ?)%Hu. by exists false, i, f.
Qed.

(** *** The number that digits stand for *)

Lemma parse_digits_split a b u :
  parse_digits (a ++ b) = Some u →
  ∃ x y, parse_digits a = Some x ∧ parse_digits b = Some y ∧ u = x * 10 ^ Z.of_nat (length b) + y.
Proof.
  revert u. induction b as [|c b IH] using rev_ind; intros u.
  { rewrite app_nil_r. intros Hu. exists u, 0. split_and!; [done..|cbn; lia]. }
  rewrite app_assoc, parse_digits_app. destruct (parse_digits (a ++ b)) as [v|]; cbn; [|done].
  destruct (is_ascii_digit c) eqn:Hc; [|done]. intros [= <-].
  destruct (IH v eq_refl) as (x & y & Hx & Hy & ->).
  exists x, (y * 10 + digit_value c). split_and!; [done| |].
  - rewrite parse_digits_app, Hy. cbn. by rewrite Hc.
  - rewrite length_app. cbn [length]. rewrite Nat.add_1_r, Nat2Z.inj_succ, Z.pow_succ_r by lia. lia.
Qed.

Lemma parse_digits_zeros l : forallb (λ b, bool_decide (b = x30)) l = true → parse_digits l = Some 0.
Proof.
  induction l as [|b l IH] using rev_ind; [done|]. rewrite forallb_app, andb_true_iff. intros [Hl Hb].
  cbn in Hb. rewrite andb_true_r, bool_decide_eq_true in Hb. subst. rewrite parse_digits_app, IH by done. done.
Qed.

Lemma parse_digits_zero l : parse_digits l = Some 0 → forallb (λ b, bool_decide (b = x30)) l = true.
Proof.
  intros (E & _)%parse_digits_Some. rewrite E. generalize (length l) as n. clear.
  induction n as [|n IH]; [done|]. cbn [pad]. rewrite Z.div_0_l by lia. by rewrite forallb_app, IH.
Qed.

(** A leading digit other than zero bounds the number from below. *)
Lemma parse_digits_lower b l u :
  parse_digits (b :: l) = Some u → b ≠ x30 → 10 ^ Z.of_nat (length l) <= u.
Proof.
  intros Hu Hb. pose proof (parse_digits_Some _ _ Hu) as (_ & _ & Hd).
  destruct (parse_digits_split [b] l u Hu) as (x & y & Hx & Hy & ->).
  apply parse_digits_Some in Hy as (_ & Hy & _). cbn in Hd. apply andb_true_iff in Hd as [Hd _].
  unfold parse_digits in Hx. cbn in Hx. rewrite Hd in Hx. injection Hx as <-.
  destruct (digit_byte_of b Hd) as [Hbyte Hv].
  assert (digit_value b ≠ 0) as Hnz.
  { intros E. apply Hb. rewrite <- Hbyte, E. by vm_compute. }
  assert (1 <= digit_value b) by lia. nia.
Qed.

Lemma position_spec {A} (p : A → bool) l :
  match position p l with
  | Some i => ∃ a x b, l = a ++ x :: b ∧ length a = i ∧ p x = true ∧ forallb (λ y, negb (p y)) a = true
  | None => forallb (λ y, negb (p y)) l = true
  end.
Proof.
  induction l as [|x l IH]; cbn; [done|]. destruct (p x) eqn:Hx; cbn.
  - by exists [], x, l.
  - destruct (position p l) as [i|]; cbn; [|by rewrite IH].
    destruct IH as (a & y & b & -> & <- & Hy & Ha). exists (x :: a), y, b. cbn. by rewrite Hx, Ha.
Qed.

(** [precision] is the number of significant digits, at least one. *)
Lemma precision_spec digits u :
  digits ≠ [] → parse_digits digits = Some u →
  let i := default (length digits - 1)%nat (position (λ b, negb (bool_decide (b = x30))) digits) in
  let precision := Z.of_nat (length digits - i) in
  1 <= precision ∧ u < 10 ^ precision ∧ (precision = 1 ∨ 10 ^ (precision - 1) <= u).
Proof.
  intros Hne Hu. pose proof (position_spec (λ b, negb (bool_decide (b = x30))) digits) as Hpos.
  assert (∀ l : list byte, forallb (λ y, negb (negb (bool_decide (y = x30)))) l
    = forallb (λ b, bool_decide (b = x30)) l) as Hnn.
  { intros l. induction l as [|y l IH]; cbn; [done|]. by rewrite negb_involutive, IH. }
  destruct (position _ digits) as [i|]; cbn.
  - destruct Hpos as (a & x & b & -> & <- & Hx & Ha). rewrite Hnn in Ha.
    destruct (parse_digits_split a (x :: b) u Hu) as (z & y & Hz & Hy & ->).
    rewrite (parse_digits_zeros a Ha) in Hz. injection Hz as <-.
    apply negb_true_iff, bool_decide_eq_false in Hx.
    pose proof (parse_digits_lower x b y Hy Hx) as Hlow. apply parse_digits_Some in Hy as (_ & Hy & _).
    rewrite length_app. replace (length a + length (x :: b) - length a)%nat with (S (length b)) by (cbn; lia).
    cbn [length] in *. rewrite Nat2Z.inj_succ in *. split_and!; [lia..|]. right.
    replace (Z.succ (Z.of_nat (length b)) - 1) with (Z.of_nat (length b)) by lia. lia.
  - rewrite Hnn in Hpos. rewrite (parse_digits_zeros _ Hpos) in Hu. injection Hu as <-.
    destruct digits as [|b digits]; [done|]. cbn [length].
    replace (Z.of_nat (S (length digits) - (S (length digits) - 1))) with 1 by lia. lia.
Qed.

(** Two accepted texts of the same number and scale have integer parts of the same length. *)
Lemma integer_length_le n1 i1 f1 d1 n2 i2 f2 d2 u :
  decimal_checks n1 i1 f1 = Ok d1 → decimal_checks n2 i2 f2 = Ok d2 → i1 ≠ [] →
  parse_digits (i1 ++ f1) = Some u → parse_digits (i2 ++ f2) = Some u → length f1 = length f2 →
  (length i2 <= length i1)%nat.
Proof.
  intros _ H2 Hne Hu1 Hu2 Hf. destruct (decide (length i2 <= length i1)%nat) as [|Hlt]; [done|exfalso].
  unfold decimal_checks in H2. destruct ((1 <? length i2)%nat && _) eqn:E; [done|]. clear H2.
  destruct i2 as [|b i2]; [cbn in Hlt; lia|].
  assert ((1 <? length (b :: i2))%nat = true) as Hone.
  { apply Nat.ltb_lt. destruct i1; [done|]. cbn in *. lia. }
  rewrite Hone in E. cbn in E. apply bool_decide_eq_false in E.
  pose proof (parse_digits_lower b (i2 ++ f2) u Hu2 ltac:(congruence)) as Hlow.
  apply parse_digits_Some in Hu1 as (_ & Hu & _). rewrite !length_app in *.
  assert (10 ^ Z.of_nat (length i1 + length f1) <= 10 ^ Z.of_nat (length i2 + length f2)); [|lia].
  apply Z.pow_le_mono_r; [lia|]. cbn in Hlt. lia.
Qed.

(** [parse_decimal] accepts one text per number and scale, and measures it:
    an accepted text stands for a number [u * 10 ^ (- scale)] with the reported
    scale, the reported precision is the count of significant digits of [u] (at
    least one), and two accepted texts of the same number and scale are equal. *)
Theorem decimal_canonical value d :
  parse_decimal value = Ok d →
  (∃ u, decimal_denotes value u (dec_scale d)
     ∧ Z.abs u < 10 ^ dec_precision d
     ∧ (dec_precision d = 1 ∨ 10 ^ (dec_precision d - 1) <= Z.abs u))
  ∧ (∀ value' d' u k, parse_decimal value' = Ok d' →
       decimal_denotes value u k → decimal_denotes value' u k → value' = value).
Proof.
  intros Hp. split.
  - destruct (parse_decimal_shape value d Hp) as (n & i & f & -> & Hne & Hi & Hf).
    rewrite parse_decimal_text in Hp by done.
    destruct (parse_digits_all (i ++ f)) as [u Hu].
    { unfold all_digits in *. by rewrite forallb_app, Hi, Hf. }
    destruct (precision_spec (i ++ f) u ltac:(by destruct i) Hu) as (_ & H1 & H2).
    pose proof (parse_digits_Some _ _ Hu) as (_ & Hu0 & _).
    unfold decimal_checks in Hp. repeat (case_match; [done|]). injection Hp as <-. cbn.
    exists (if n then - u else u). split.
    + by exists n, i, f, u.
    + replace (Z.abs (if n then - u else u)) with u by (destruct n; lia). done.
  - intros value' d' u k Hp' (n1 & i1 & f1 & u1 & -> & Hne1 & Hi1 & Hf1 & Hu1 & -> & ->)
      (n2 & i2 & f2 & u2 & -> & Hne2 & Hi2 & Hf2 & Hu2 & Hsign & Hk).
    rewrite parse_decimal_text in Hp, Hp' by done. assert (length f1 = length f2) as Hlf by lia.
    pose proof (parse_digits_Some _ _ Hu1) as (_ & Hpos1 & _).
    pose proof (parse_digits_Some _ _ Hu2) as (_ & Hpos2 & _).
    assert (u1 = u2) as -> by (destruct n1, n2; lia).
    pose proof (integer_length_le _ _ _ _ _ _ _ _ _ Hp Hp' Hne1 Hu1 Hu2 Hlf) as Hle1.
    pose proof (integer_length_le _ _ _ _ _ _ _ _ _ Hp' Hp Hne2 Hu2 Hu1 (eq_sym Hlf)) as Hle2.
    assert (i1 ++ f1 = i2 ++ f2) as Heq.
    { eapply parse_digits_inj; [done..|]. rewrite !length_app. lia. }
    apply app_inj_1 in Heq as [-> ->]; [|lia].
    destruct n1, n2; try done; assert (u2 = 0) as -> by lia; apply parse_digits_zero in Hu1;
      unfold decimal_checks in Hp, Hp'; rewrite Hu1 in Hp, Hp'; by repeat case_match.
Qed.

Lemma decimal_canonical_witness :
  (∃ u, decimal_denotes (bs "-12.50") u 2 ∧ Z.abs u < 10 ^ 4 ∧ (4 = 1 ∨ 10 ^ (4 - 1) <= Z.abs u))
  ∧ parse_decimal (bs "-012.50") ≠ Ok (mkDecimal 4 2).
Proof.
  split; [|by vm_compute].
  exact (proj1 (decimal_canonical (bs "-12.50") (mkDecimal 4 2) ltac:(by vm_compute))).
Defined.
