(* ===== verification/SigV4.v ===== *)
(** * Request authorization: [crates/gateway/src/sigv4.rs]

    AWS Signature Version 4: the two places a signature may be in (the
    [authorization] header, the query of a presigned URL), the checks on scope,
    time and signed headers, the cache of signing keys, and [authorize], which
    ends in the payload verifier of [Integrity].

    The signer is the [aws-sigv4] crate, here the class [AwsSigV4]; its fixed
    settings (single percent-encoding, no path normalization) are part of it.
    A [HeaderMap] is the list of its entries, names in lower case as the [http]
    crate stores them; a [Uri] is what its accessors return.  Times and
    durations are nanoseconds, those of [SystemTime] since the epoch. *)

From S2P Require Import Prelude RustStr Integrity.

#[local] Open Scope Z_scope.
Set Default Goal Selector "!".

Abbreviation str := (list byte) (only parsing).

(** ** Constants and errors *)

Definition from_secs (secs : Z) : Z := secs * 10 ^ 9.

Definition DEFAULT_REGION : str := bs "us-east-1".
Definition MAX_PRESIGN_EXPIRY : Z := from_secs (7 * 24 * 60 * 60).

Definition SEMANTIC_HEADERS : list str :=
  [bs "x-maskura-storage-mode"; bs "x-maskura-backend-url"; bs "x-maskura-process";
   bs "x-maskura-stable-fields"; bs "x-maskura-encrypt-fields"; bs "x-s4-storage-mode";
   bs "x-s4-backend-url"; bs "x-s4-process"; bs "x-s4-stable-fields"; bs "x-s4-encrypt-fields";
   bs "content-type"; bs "content-encoding"; bs "content-md5"].

Definition X_AMZ_SIGNER_EXCLUSIONS : list str := [bs "x-amz-user-agent"; bs "x-amz-checksum-mode"].

Inductive SigV4Error : Type :=
| AmbiguousAuthentication
| CacheUnavailable
| ClockSkew
| SDuplicateHeader (name : string)
| Expired
| InvalidAuthorization
| InvalidCredential
| InvalidDate
| InvalidPresign
| InvalidScope
| InvalidSignedHeaders
| MissingHeader (name : string)
| Payload (error : IntegrityError)
| SSignatureMismatch.
#[global] Instance SigV4Error_eq_dec : EqDecision SigV4Error.
Proof. solve_decision. Defined.

(** ** Headers and URIs: the [http] crate *)

Abbreviation Headers := (list (list byte * list byte)) (only parsing).

Record Uri := mkUri {
  scheme_str : option str;
  uri_path : str;
  uri_query : option str;
  path_and_query : option str;
}.

Definition get_all (headers : Headers) (name : str) : list str :=
  omap (λ '(n, v), if bool_decide (n = name) then Some v else None) headers.

(** [HeaderMap::keys]; which of two offending names is met first cannot be told. *)
Definition keys (headers : Headers) : list str := remove_dups headers.*1.

(** [HeaderValue::to_str]: visible ASCII and tabs. *)
Definition to_str (value : str) : option str :=
  if forallb (λ b, ((32 <=? b2z b) && (b2z b <? 127)) || (b2z b =? 9)) value then Some value else None.

(** The same headers, as the payload verifier reads them. *)
Definition header_map (headers : Headers) : HeaderMap := λ name, to_str <$> get_all headers (bs name).

(** ** Policy *)

Record SigV4Policy := mkPolicy {
  expected_region : str;
  max_clock_skew : Z;
  trusted_tls_termination : bool;
}.

Definition policy_new (region : str) (trusted : bool) : SigV4Policy :=
  mkPolicy region (from_secs (15 * 60)) trusted.

(** [env] is [std::env::var(..).ok()]. *)
Definition policy_from_env (env : string → option str) : SigV4Policy :=
  policy_new (default DEFAULT_REGION (env "S4_SIGV4_REGION"))
    (match env "S4_SIGV4_TRUSTED_TLS" with
     | Some value => bool_decide (value = bs "1") || eq_ignore_ascii_case value (bs "true")
     | None => false
     end).

Definition trusted_tls (policy : SigV4Policy) (uri : Uri) : bool :=
  match scheme_str uri with
  | Some scheme => eq_ignore_ascii_case scheme (bs "https")
  | None => false
  end || trusted_tls_termination policy.

(** ** Parsed authorization *)

Inductive Location : Type := InHeader | InQuery (expires : Z).
#[global] Instance Location_eq_dec : EqDecision Location.
Proof. solve_decision. Defined.

Record RequestAuthorization := mkAuth {
  access_key : str;
  scope_date : str;
  region : str;
  service : str;
  terminator : str;
  signed_headers : list str;
  signature : str;
  auth_timestamp : str;
  location : Location;
}.

Definition sig_one_header (headers : Headers) (name : string) : result SigV4Error (option str) :=
  match get_all headers (bs name) with
  | [] => Ok None
  | first :: rest =>
    first ← ok_or (to_str first) (SDuplicateHeader name);
    if bool_decide (rest = []) then Ok (Some first) else Err (SDuplicateHeader name)
  end.

Definition validate_signature (value : str) : result SigV4Error unit :=
  if negb (length value =? 64)%nat || negb (forallb is_ascii_hexdigit value)
  then Err InvalidAuthorization else Ok tt.

Definition parse_credential (value : str) : result SigV4Error (str * str * str * str * str) :=
  match split_on x2f value with
  | [a; b; c; d; e] =>
    if existsb (λ part, bool_decide (part = [])) [a; b; c; d; e] then Err InvalidCredential
    else Ok (a, b, c, d, e)
  | _ => Err InvalidCredential
  end.

(** [slice.windows(2)]. *)
Definition windows2 {A} (l : list A) : list (A * A) := zip l (tail l).

Definition signed_name_ok (name : str) : bool :=
  negb (bool_decide (name = []))
  && forallb (λ b, is_ascii_lowercase b || is_ascii_digit b || bool_decide (b = x2d)) name.

Definition parse_signed_headers (value : str) : result SigV4Error (list str) :=
  if bool_decide (value = []) then Err InvalidSignedHeaders
  else
    let headers := split_on x3b value in
    if existsb (λ name, negb (signed_name_ok name)) headers
       || existsb (λ '(a, b), negb (str_lt a b)) (windows2 headers)
    then Err InvalidSignedHeaders else Ok headers.

(** [slot.replace(value).is_some()] is an error. *)
Definition set_once {A} (slot : option A) (value : A) : result SigV4Error (option A) :=
  match slot with Some _ => Err InvalidAuthorization | None => Ok (Some value) end.

(** The loop of [from_header] over the comma-separated fields. *)
Record HeaderFields := mkFields {
  f_credential : option str;
  f_signed_headers : option (list str);
  f_signature : option str;
}.

Definition header_field (part : str) (f : HeaderFields) : result SigV4Error HeaderFields :=
  let part := trim part in
  match strip_prefix (bs "Credential=") part with
  | Some value =>
    slot ← set_once (f_credential f) value;
    Ok (mkFields slot (f_signed_headers f) (f_signature f))
  | None =>
  match strip_prefix (bs "SignedHeaders=") part with
  | Some value =>
    headers ← parse_signed_headers value;
    slot ← set_once (f_signed_headers f) headers;
    Ok (mkFields (f_credential f) slot (f_signature f))
  | None =>
  match strip_prefix (bs "Signature=") part with
  | Some value =>
    _ ← validate_signature value;
    slot ← set_once (f_signature f) (to_ascii_lowercase <$> value);
    Ok (mkFields (f_credential f) (f_signed_headers f) slot)
  | None => Err InvalidAuthorization
  end end end.

Fixpoint header_fields (parts : list str) (f : HeaderFields) : result SigV4Error HeaderFields :=
  match parts with
  | [] => Ok f
  | part :: parts => f ← header_field part f; header_fields parts f
  end.

Definition from_authorization (value : str) (headers : Headers) : result SigV4Error RequestAuthorization :=
  rest ← ok_or (strip_prefix (bs "AWS4-HMAC-SHA256 ") value) InvalidAuthorization;
  let parts := split_on x2c rest in
  f ← header_fields parts (mkFields None None None);
  if negb (length parts =? 3)%nat then Err InvalidAuthorization
  else
    credential ← ok_or (f_credential f) InvalidCredential;
    c ← parse_credential credential;
    let '(access_key, scope_date, region, service, terminator) := c : str * str * str * str * str in
    date ← sig_one_header headers "x-amz-date";
    timestamp ← ok_or date (MissingHeader "x-amz-date");
    signed_headers ← ok_or (f_signed_headers f) InvalidSignedHeaders;
    signature ← ok_or (f_signature f) InvalidAuthorization;
    Ok (mkAuth access_key scope_date region service terminator signed_headers signature timestamp InHeader).

(** ** Query authentication *)

(** [percent_decode] before its final UTF-8 check. *)
Fixpoint percent_bytes (l : str) : result SigV4Error str :=
  match l with
  | [] => Ok []
  | b :: l =>
    if bool_decide (b = x25) then
      match l with
      | h1 :: h2 :: l =>
        if negb (utf8_valid [h1; h2]) then Err InvalidPresign
        else
          v ← ok_or (from_str_radix 16 [h1; h2]) InvalidPresign;
          rest ← percent_bytes l;
          Ok (default x00 (Byte.of_N (Z.to_N v)) :: rest)
      | _ => Err InvalidPresign
      end
    else rest ← percent_bytes l; Ok (b :: rest)
  end.

Definition percent_decode (value : str) : result SigV4Error str :=
  decoded ← percent_bytes value;
  if utf8_valid decoded then Ok decoded else Err InvalidPresign.

Record QueryAuthentication := mkQuery {
  q_credential : str;
  q_timestamp : str;
  q_expires : Z;
  q_signed_headers : str;
  q_signature : str;
}.

(** The six slots of [QueryAuthentication::parse]. *)
Definition AUTH_PARAMETERS : list str :=
  [bs "X-Amz-Algorithm"; bs "X-Amz-Credential"; bs "X-Amz-Date"; bs "X-Amz-Expires";
   bs "X-Amz-SignedHeaders"; bs "X-Amz-Signature"].

(** [pair.split_once('=').unwrap_or((pair, ""))]. *)
Definition split_pair (p : str) : str * str := default (p, []) (split_once x3d p).

(** The loop over the pairs; a slot is filled at most once. *)
Fixpoint query_slots (pairs : list str) (slots : gmap nat str) : result SigV4Error (gmap nat str) :=
  match pairs with
  | [] => Ok slots
  | p :: pairs =>
    let '(raw_name, raw_value) := split_pair p in
    name ← percent_decode raw_name;
    value ← percent_decode raw_value;
    match position (λ p, bool_decide (p = name)) AUTH_PARAMETERS with
    | Some slot =>
      match slots !! slot with
      | Some _ => Err InvalidPresign
      | None => query_slots pairs (<[slot := value]> slots)
      end
    | None => query_slots pairs slots
    end
  end.

Definition query_parse (uri : Uri) : result SigV4Error (option QueryAuthentication) :=
  match uri_query uri with
  | None => Ok None
  | Some query =>
    slots ← query_slots (split_on x26 query) ∅;
    if bool_decide (slots = ∅) then Ok None
    else if negb (bool_decide (slots !! 0%nat = Some (bs "AWS4-HMAC-SHA256"))) then Err InvalidPresign
    else
      expires ← ok_or (slots !! 3%nat) InvalidPresign;
      expires ← ok_or (from_secs <$> from_str_radix 10 expires) InvalidPresign;
      signature ← ok_or (slots !! 5%nat) InvalidPresign;
      _ ← validate_signature signature;
      credential ← ok_or (slots !! 1%nat) InvalidPresign;
      timestamp ← ok_or (slots !! 2%nat) InvalidPresign;
      signed_headers ← ok_or (slots !! 4%nat) InvalidPresign;
      Ok (Some (mkQuery credential timestamp expires signed_headers (to_ascii_lowercase <$> signature)))
  end.

Definition from_query (query : QueryAuthentication) : result SigV4Error RequestAuthorization :=
  c ← parse_credential (q_credential query);
  let '(access_key, scope_date, region, service, terminator) := c : str * str * str * str * str in
  signed_headers ← parse_signed_headers (q_signed_headers query);
  Ok (mkAuth access_key scope_date region service terminator signed_headers (q_signature query)
        (q_timestamp query) (InQuery (q_expires query))).

(** [RequestAuthorization::parse]. *)
Definition auth_parse (uri : Uri) (headers : Headers) : result SigV4Error (option RequestAuthorization) :=
  authorization ← sig_one_header headers "authorization";
  query ← query_parse uri;
  match authorization, query with
  | Some _, Some _ => Err AmbiguousAuthentication
  | Some value, None =>
    if starts_with (bs "AWS4-") value then auth ← from_authorization value headers; Ok (Some auth) else Ok None
  | None, Some query => auth ← from_query query; Ok (Some auth)
  | None, None => Ok None
  end.

(** The filter of [query_signing_target]. *)
Definition retained (p : str) : bool :=
  match percent_decode (split_pair p).1 with
  | Ok name => negb (starts_with (bs "X-Amz-") name)
  | Err _ => false
  end.

Definition query_signing_target (uri : Uri) : str :=
  let kept := List.filter retained (split_on x26 (default [] (uri_query uri))) in
  if bool_decide (kept = []) then uri_path uri
  else uri_path uri ++ bs "?" ++ join (bs "&") kept.

(** ** Time *)

(** Days since 1970-01-01 for a proleptic Gregorian date; the [/] and [%] of
    [i64] truncate. *)
Definition days_from_civil (year month day : Z) : Z :=
  let year := if month <=? 2 then year - 1 else year in
  let era := Z.quot (if 0 <=? year then year else year - 399) 400 in
  let year_of_era := year - era * 400 in
  let adjusted_month := Z.rem (month + 9) 12 in
  let day_of_year := Z.quot (153 * adjusted_month + 2) 5 + day - 1 in
  let day_of_era :=
    year_of_era * 365 + Z.quot year_of_era 4 - Z.quot year_of_era 100 + day_of_year in
  era * 146097 + day_of_era - 719468.

(** [bytes[index].checked_sub(b'0')]. *)
Definition checked_sub_zero (b : byte) : option Z := if 48 <=? b2z b then Some (b2z b - 48) else None.

Definition two (bytes : str) (index : nat) : option Z :=
  high ← bytes !! index ≫= checked_sub_zero;
  low ← bytes !! S index ≫= checked_sub_zero;
  if (high <? 10) && (low <? 10) then Some (high * 10 + low) else None.

Definition parse_timestamp (value : str) : option Z :=
  if negb (length value =? 16)%nat || negb (bool_decide (value !! 8%nat = Some x54))
     || negb (bool_decide (value !! 15%nat = Some x5a)) then None
  else
    century ← two value 0; rest ← two value 2;
    let year := century * 100 + rest in
    month ← two value 4; day ← two value 6;
    hour ← two value 9; minute ← two value 11; second ← two value 13;
    let leap := (year mod 4 =? 0) && (negb (year mod 100 =? 0) || (year mod 400 =? 0)) in
    let month_days := [31; if leap then 29 else 28; 31; 30; 31; 30; 31; 31; 30; 31; 30; 31] in
    if negb ((1 <=? month) && (month <=? 12)) || (day =? 0)
       || (default 0 (month_days !! Z.to_nat (month - 1)) <? day)
       || (23 <? hour) || (59 <? minute) || (59 <? second) then None
    else
      let seconds := days_from_civil year month day * 86400 + hour * 3600 + minute * 60 + second in
      if 0 <=? seconds then Some (from_secs seconds) else None.

(** [SystemTime::checked_add]: the seconds are an [i64]. *)
Definition system_time_checked_add (t d : Z) : option Z :=
  if (t + d) / 10 ^ 9 <=? i64_max then Some (t + d) else None.

(** [duration_since] fails exactly when the other time is later, so the first
    [match] of the source takes the distance. *)
Definition sig_validate_time (loc : Location) (timestamp now skew : Z) : result SigV4Error unit :=
  match loc with
  | InHeader =>
    let difference := if timestamp <=? now then now - timestamp else timestamp - now in
    if skew <? difference then Err ClockSkew else Ok tt
  | InQuery expires =>
    if MAX_PRESIGN_EXPIRY <? expires then Err InvalidPresign
    else if (now <=? timestamp) && (skew <? timestamp - now) then Err ClockSkew
    else
      expiry ← ok_or (system_time_checked_add timestamp expires) InvalidPresign;
      if expiry <? now then Err Expired else Ok tt
  end.

(** ** Signed headers *)

Definition requires_signed_header_integrity (name : str) : bool :=
  bool_decide (name ∈ SEMANTIC_HEADERS)
  || (starts_with (bs "x-amz-") name && negb (bool_decide (name ∈ X_AMZ_SIGNER_EXCLUSIONS))).

Definition is_trim_all_canonical (value : str) : bool :=
  negb (bool_decide (x09 ∈ value))
  && negb (bool_decide (head value = Some x20))
  && negb (bool_decide (last value = Some x20))
  && negb (existsb (λ p, bool_decide (p = (x20, x20))) (windows2 value)).

Definition integrity_value_ok (headers : Headers) (name : str) : bool :=
  if negb (requires_signed_header_integrity name) then true
  else match get_all headers name with
  | [] => true
  | [value] => utf8_valid value && is_trim_all_canonical value
  | _ => false
  end.

Definition validate_integrity_header_values (headers : Headers) : result SigV4Error unit :=
  ensure (forallb (integrity_value_ok headers) (keys headers)) InvalidSignedHeaders.

Definition validate_signed_headers (signed : list str) (loc : Location) (headers : Headers)
    : result SigV4Error unit :=
  _ ← ensure (bool_decide (bs "host" ∈ signed)) InvalidSignedHeaders;
  _ ← ensure (negb (bool_decide (loc = InHeader)
               && (negb (bool_decide (bs "x-amz-date" ∈ signed))
                   || negb (bool_decide (bs "x-amz-content-sha256" ∈ signed))))) InvalidSignedHeaders;
  _ ← validate_integrity_header_values headers;
  _ ← ensure (forallb (λ name, negb (bool_decide (get_all headers name = []))) signed)
        (MissingHeader "signed header");
  ensure (forallb (λ name, negb (requires_signed_header_integrity name)
                           || bool_decide (name ∈ signed)) (keys headers)) InvalidSignedHeaders.

Definition signed_header_value (headers : Headers) (name : str) : result SigV4Error (str * str) :=
  values ← ok_or (mapM to_str (get_all headers name)) InvalidSignedHeaders;
  if bool_decide (values = []) then Err (MissingHeader "signed header")
  else Ok (name, join (bs ",") values).

Fixpoint collect_signed_header_values (headers : Headers) (signed : list str)
    : result SigV4Error (list (str * str)) :=
  match signed with
  | [] => Ok []
  | name :: signed =>
    p ← signed_header_value headers name;
    rest ← collect_signed_header_values headers signed;
    Ok (p :: rest)
  end.

(** ** The signer and the cache of signing keys *)

Inductive SignableBody : Type := Precomputed (hash : str) | UnsignedPayload.

(** What a call of [aws_sigv4::http_request::sign] is given; [expires_in] is set
    when the signature goes into the query. *)
Record SigningRequest := mkSigningRequest {
  sr_method : str;
  sr_target : str;
  sr_headers : list (str * str);
  sr_body : SignableBody;
  sr_access_key : str;
  sr_secret : str;
  sr_region : str;
  sr_service : str;
  sr_time : Z;
  sr_expires_in : option Z;
}.

(** [sign] covers building the parameters and the request; a failure of any of
    the three is the same error to the caller. *)
Class AwsSigV4 := {
  sign : SigningRequest → option str;
  generate_signing_key : str → Z → str → str → str;
}.

Record CacheKey := mkCacheKey { ck_credential : str; ck_date : str; ck_region : str; ck_service : str }.
#[global] Instance CacheKey_eq_dec : EqDecision CacheKey.
Proof. solve_decision. Defined.

Record CacheEntry := mkEntry {
  e_key : CacheKey;
  e_secret_fingerprint : str;
  e_signing_key : str;
  e_expires_at : Z;
}.

(** [poisoned]: a thread panicked while it held the lock. *)
Record SigningKeyCache := mkCache {
  cache_capacity : nat;
  cache_ttl : Z;
  cache_poisoned : bool;
  cache_entries : list CacheEntry;
}.

Definition cache_new (capacity : nat) (ttl : Z) : SigningKeyCache :=
  mkCache (Nat.max capacity 1) ttl false [].

Definition cache_standard : SigningKeyCache := cache_new 1024 (from_secs (15 * 60)).

Definition set_cache_entries (entries : list CacheEntry) (c : SigningKeyCache) : SigningKeyCache :=
  mkCache (cache_capacity c) (cache_ttl c) (cache_poisoned c) entries.

(** [position] and [remove]: the first match and the other entries. *)
Fixpoint take_first {A} (p : A → bool) (l : list A) : option (A * list A) :=
  match l with
  | [] => None
  | x :: l =>
    if p x then Some (x, l)
    else match take_first p l with Some (y, rest) => Some (y, x :: rest) | None => None end
  end.

(** [while entries.len() >= capacity { entries.pop_front(); }]. *)
Fixpoint make_room (capacity : nat) (entries : list CacheEntry) : list CacheEntry :=
  match entries with
  | [] => []
  | _ :: rest => if (capacity <=? length entries)%nat then make_room capacity rest else entries
  end.

Section authorize.
  Context `{Crypto, AwsSigV4}.

Definition derive (auth : RequestAuthorization) (secret : str) (timestamp instant : Z)
    : SE SigningKeyCache SigV4Error str := λ c,
  let cache_key := mkCacheKey (access_key auth) (scope_date auth) (region auth) (service auth) in
  let secret_fingerprint := digest c_sha256 secret in
  if cache_poisoned c then (Err CacheUnavailable, c)
  else
    let entries := List.filter (λ e, instant <? e_expires_at e) (cache_entries c) in
    match take_first (λ e, bool_decide (e_key e = cache_key)
                           && bool_decide (e_secret_fingerprint e = secret_fingerprint)) entries with
    | Some (entry, rest) => (Ok (e_signing_key entry), set_cache_entries (rest ++ [entry]) c)
    | None =>
      let signing_key := generate_signing_key secret timestamp (region auth) (service auth) in
      (Ok signing_key,
       set_cache_entries (make_room (cache_capacity c) entries
         ++ [mkEntry cache_key secret_fingerprint signing_key (instant + cache_ttl c)]) c)
    end.

(** ** [authorize] *)

Definition validate_scope (auth : RequestAuthorization) (policy : SigV4Policy) : result SigV4Error unit :=
  if bool_decide (access_key auth = []) || negb (length (scope_date auth) =? 8)%nat
     || negb (forallb is_ascii_digit (scope_date auth))
     || negb (bool_decide (region auth = expected_region policy))
     || negb (bool_decide (service auth = bs "s3"))
     || negb (bool_decide (terminator auth = bs "aws4_request"))
  then Err InvalidScope else Ok tt.

Definition signing_request (auth : RequestAuthorization) (method : str) (uri : Uri) (secret : str)
    (timestamp : Z) (payload_hash : str) (signed_values : list (str * str)) : SigningRequest :=
  let '(target, body, expires_in) :=
    match location auth with
    | InHeader => (default (uri_path uri) (path_and_query uri),
                   Precomputed (to_ascii_lowercase <$> payload_hash), None)
    | InQuery expires => (query_signing_target uri, UnsignedPayload, Some expires)
    end in
  mkSigningRequest method target signed_values body (access_key auth) secret (region auth)
    (service auth) timestamp expires_in.

Definition constant_time_signature_eq (left right : str) : bool :=
  match hex_decode left, hex_decode right with
  | Some l, Some r => if negb (length l =? length r)%nat then false else byte_difference l r =? 0
  | _, _ => false
  end.

Definition verify_seed_signature (auth : RequestAuthorization) (request : SigningRequest)
    : result SigV4Error unit :=
  output ← ok_or (sign request) InvalidAuthorization;
  ensure (constant_time_signature_eq output (signature auth)) SSignatureMismatch.

Definition payload_hash_of (auth : RequestAuthorization) (headers : Headers) : result SigV4Error str :=
  value ← sig_one_header headers "x-amz-content-sha256";
  match location auth with
  | InHeader => ok_or value (MissingHeader "x-amz-content-sha256")
  | InQuery _ => Ok (default (bs "UNSIGNED-PAYLOAD") value)
  end.

Definition streaming_signing (auth : RequestAuthorization) (key : str) : StreamingSigning :=
  mkSigning key (auth_timestamp auth)
    (scope_date auth ++ bs "/" ++ region auth ++ bs "/" ++ service auth ++ bs "/" ++ terminator auth)
    (signature auth).

(** [now] is the caller's clock, [instant] the monotonic one the cache reads.  A
    timestamp that parses has eight digits in front, so [get(..8)] is there. *)
Definition authorize (auth : RequestAuthorization) (method : str) (uri : Uri) (headers : Headers)
    (secret : str) (policy : SigV4Policy) (now instant : Z)
    : SE SigningKeyCache SigV4Error BodyVerifier :=
  _ ← se_lift (validate_scope auth policy);
  timestamp ← se_lift (ok_or (parse_timestamp (auth_timestamp auth)) InvalidDate);
  _ ← se_lift (ensure (bool_decide (scope_date auth = take 8 (auth_timestamp auth))) InvalidScope);
  _ ← se_lift (sig_validate_time (location auth) timestamp now (max_clock_skew policy));
  _ ← se_lift (validate_signed_headers (signed_headers auth) (location auth) headers);
  payload_hash ← se_lift (payload_hash_of auth headers);
  signed_values ← se_lift (collect_signed_header_values headers (signed_headers auth));
  signing_key ← derive auth secret timestamp instant;
  _ ← se_lift (verify_seed_signature auth
                 (signing_request auth method uri secret timestamp payload_hash signed_values));
  se_lift (map_err Payload (from_headers (header_map headers) payload_hash
    (Some (streaming_signing auth signing_key)) (trusted_tls policy uri))).
End authorize.
