(* ===== verification/SigV4Time.v ===== *)
(** * Timestamps of signed requests

    [parse_timestamp] of [SigV4] against the calendar: days are counted year by
    year and month by month from 1970-01-01, and the closed formula of
    [days_from_civil] is shown to be that count. *)

From S2P Require Import Prelude RustStr Integrity SigV4 BinaryIr BinaryIrText.

#[local] Open Scope Z_scope.
Set Default Goal Selector "!".

(** ** Counting days *)

Definition days_in_year (year : Z) : Z := if is_leap_year year then 366 else 365.

(** The days of [n] years from [year] on, and of the first [n] months of a year. *)
Fixpoint days_of_years (n : nat) (year : Z) : Z :=
  match n with
  | O => 0
  | S n => days_in_year year + days_of_years n (year + 1)
  end.

Fixpoint days_of_months (n : nat) (year : Z) : Z :=
  match n with
  | O => 0
  | S n => days_of_months n year + days_in_month year (Z.of_nat (S n))
  end.

(** Days from 1970-01-01 to a date from then on. *)
Definition unix_day (year month day : Z) : Z :=
  days_of_years (Z.to_nat (year - 1970)) 1970 + days_of_months (Z.to_nat (month - 1)) year + (day - 1).

Definition calendar_time (year month day hour minute second : Z) : Prop :=
  1970 <= year <= 9999 ∧ 1 <= month <= 12 ∧ 1 <= day <= days_in_month year month
  ∧ 0 <= hour <= 23 ∧ 0 <= minute <= 59 ∧ 0 <= second <= 59.

Definition timestamp_text (year month day hour minute second : Z) : str :=
  pad 4 year ++ pad 2 month ++ pad 2 day ++ [x54] ++ pad 2 hour ++ pad 2 minute ++ pad 2 second ++ [x5a].

(** A timestamp denotes a time when it is the text of a calendar time and that
    many seconds after the epoch. *)
Definition timestamp_denotes (value : str) (t : Z) : Prop :=
  ∃ year month day hour minute second,
    calendar_time year month day hour minute second
    ∧ value = timestamp_text year month day hour minute second
    ∧ t = from_secs (unix_day year month day * 86400 + hour * 3600 + minute * 60 + second).

(** ** The closed formula *)

Lemma leap_days year :
  days_in_year year
  = 365 + ((year / 4 - (year - 1) / 4) - (year / 100 - (year - 1) / 100) + (year / 400 - (year - 1) / 400)).
Proof.
  unfold days_in_year, is_leap_year.
  destruct (Z.eqb_spec (year mod 4) 0), (Z.eqb_spec (year mod 100) 0), (Z.eqb_spec (year mod 400) 0); cbn;
    Z.div_mod_to_equations; lia.
Qed.

Lemma days_of_years_closed n year :
  days_of_years n year
  = let last := year + Z.of_nat n - 1 in
    365 * Z.of_nat n + (last / 4 - (year - 1) / 4) - (last / 100 - (year - 1) / 100)
    + (last / 400 - (year - 1) / 400).
Proof.
  revert year. induction n as [|n IH]; intros year; cbn zeta in *.
  - cbn [days_of_years]. replace (year + Z.of_nat 0 - 1) with (year - 1) by lia. lia.
  - cbn [days_of_years]. rewrite IH, leap_days, Nat2Z.inj_succ.
    replace (year + 1 + Z.of_nat n - 1) with (year + Z.of_nat n) by lia.
    replace (year + Z.succ (Z.of_nat n) - 1) with (year + Z.of_nat n) by lia.
    replace (year + 1 - 1) with year by lia. lia.
Qed.

Lemma leap_count year :
  (if is_leap_year year then 1 else 0)
  = (year / 4 - (year - 1) / 4) - (year / 100 - (year - 1) / 100) + (year / 400 - (year - 1) / 400).
Proof. pose proof (leap_days year) as H. unfold days_in_year in H. destruct (is_leap_year year); lia. Qed.

(** Days before the month, in a common year. *)
Definition month_offset (month : Z) : Z :=
  default 0 ([0; 31; 59; 90; 120; 151; 181; 212; 243; 273; 304; 334] !! Z.to_nat (month - 1)).

(** The twelve months, one by one. *)
Ltac each_month Hm :=
  match type of Hm with
  | 1 <= ?m <= 12 =>
    let H := fresh in
    assert (m = 1 ∨ m = 2 ∨ m = 3 ∨ m = 4 ∨ m = 5 ∨ m = 6 ∨ m = 7 ∨ m = 8 ∨ m = 9 ∨ m = 10 ∨ m = 11 ∨ m = 12)
      as H by lia; repeat (destruct H as [->|H]); try subst m
  end.

Lemma days_of_months_closed year month :
  1 <= month <= 12 →
  days_of_months (Z.to_nat (month - 1)) year
  = month_offset month + (if 2 <? month then if is_leap_year year then 1 else 0 else 0).
Proof.
  intros Hm. each_month Hm; cbv -[is_leap_year]; by destruct (is_leap_year year).
Qed.

(** The years of the code's formula, with the era unfolded into floored divisions. *)
Lemma era_days year :
  -1 <= year →
  let era := Z.quot (if 0 <=? year then year else year - 399) 400 in
  let year_of_era := year - era * 400 in
  era * 146097 + (year_of_era * 365 + Z.quot year_of_era 4 - Z.quot year_of_era 100)
  = 365 * year + year / 4 - year / 100 + year / 400.
Proof.
  intros Hy. destruct (Z.leb_spec 0 year) as [H|H]; cbn zeta.
  - assert (Z.quot year 400 = year / 400) as -> by (by apply Z.quot_div_nonneg).
    assert (0 <= year - year / 400 * 400) by (Z.div_mod_to_equations; lia).
    rewrite !Z.quot_div_nonneg by lia. Z.div_mod_to_equations. lia.
  - by replace year with (-1) by lia.
Qed.

Lemma days_from_civil_closed year month day :
  0 <= year → 1 <= month <= 12 →
  days_from_civil year month day
  = 365 * year + (year - 1) / 4 - (year - 1) / 100 + (year - 1) / 400 + month_offset month
    + (if 2 <? month then if is_leap_year year then 1 else 0 else 0) + day - 719528.
Proof.
  intros Hy Hm. rewrite leap_count. unfold days_from_civil. cbn zeta.
  assert (∀ y m, -1 <= y → ∀ off, Z.quot (153 * Z.rem (m + 9) 12 + 2) 5 = off →
    Z.quot (if 0 <=? y then y else y - 399) 400 * 146097
    + ((y - Z.quot (if 0 <=? y then y else y - 399) 400 * 400) * 365
       + Z.quot (y - Z.quot (if 0 <=? y then y else y - 399) 400 * 400) 4
       - Z.quot (y - Z.quot (if 0 <=? y then y else y - 399) 400 * 400) 100
       + (Z.quot (153 * Z.rem (m + 9) 12 + 2) 5 + day - 1)) - 719468
    = 365 * y + y / 4 - y / 100 + y / 400 + off + day - 1 - 719468) as Hera.
  { intros y m Hlow off ->. pose proof (era_days y Hlow). cbn zeta in *. lia. }
  each_month Hm; cbn -[Z.quot Z.rem Z.div Z.mul Z.add Z.sub];
    (erewrite Hera; [|lia|by vm_compute]);
    match goal with |- context [month_offset ?m] =>
      let v := eval vm_compute in (month_offset m) in change (month_offset m) with v end;
    lia.
Qed.

Lemma days_from_civil_unix year month day :
  1970 <= year → 1 <= month <= 12 → days_from_civil year month day = unix_day year month day.
Proof.
  intros Hy Hm. rewrite days_from_civil_closed by lia. unfold unix_day.
  rewrite days_of_months_closed, days_of_years_closed by done. cbn zeta. rewrite Z2Nat.id by lia.
  replace (1970 + (year - 1970) - 1) with (year - 1) by lia.
  replace ((1970 - 1) / 4) with 492 by done. replace ((1970 - 1) / 100) with 19 by done.
  replace ((1970 - 1) / 400) with 4 by done. lia.
Qed.

Lemma month_offset_range month : 1 <= month <= 12 → 0 <= month_offset month <= 334.
Proof. intros Hm. by each_month Hm; vm_compute. Qed.

Lemma unix_day_nonneg year month day :
  1970 <= year → 1 <= month <= 12 → 1 <= day → 0 <= unix_day year month day.
Proof.
  intros Hy Hm Hd. rewrite <- days_from_civil_unix, days_from_civil_closed by lia.
  pose proof (month_offset_range month Hm). destruct (2 <? month), (is_leap_year year); Z.div_mod_to_equations; lia.
Qed.

Lemma month_end year month :
  1 <= month <= 12 →
  month_offset month + (if 2 <? month then if is_leap_year year then 1 else 0 else 0) + days_in_month year month
  <= days_in_year year.
Proof.
  intros Hm. unfold days_in_year. each_month Hm; cbv -[is_leap_year Z.le]; by destruct (is_leap_year year).
Qed.

Lemma civil_before_epoch year month day :
  0 <= year < 1970 → 1 <= month <= 12 → day <= days_in_month year month → days_from_civil year month day < 0.
Proof.
  intros Hy Hm Hd. rewrite days_from_civil_closed by lia.
  pose proof (month_end year month Hm) as Hend. rewrite leap_days in Hend.
  assert (365 * (year + 1) + year / 4 - year / 100 + year / 400 < 719528); [|lia].
  clear Hend Hd. Z.div_mod_to_equations. lia.
Qed.

(** ** The text *)

Lemma checked_digit b :
  match checked_sub_zero b with
  | Some d => is_ascii_digit b = (d <? 10) ∧ digit_value b = d
  | None => is_ascii_digit b = false
  end.
Proof.
  unfold checked_sub_zero, is_ascii_digit, digit_value. destruct (Z.leb_spec 48 (b2z b)); cbn; [|done].
  destruct (Z.leb_spec (b2z b) 57), (Z.ltb_spec (b2z b - 48) 10); split; done || lia.
Qed.

Lemma two_digits value i :
  (S i < length value)%nat → two value i = parse_digits (slice value i (i + 2)).
Proof.
  intros Hi. destruct (lookup_lt_is_Some_2 value i ltac:(lia)) as [a Ha].
  destruct (lookup_lt_is_Some_2 value (S i) Hi) as [b Hb].
  assert (slice value i (i + 2) = [a; b]) as ->.
  { unfold slice. replace (i + 2 - i)%nat with 2%nat by lia.
    rewrite (drop_S value a i Ha), (drop_S value b (S i) Hb). done. }
  unfold two, parse_digits. rewrite Ha, Hb. cbn.
  pose proof (checked_digit a) as Da. pose proof (checked_digit b) as Db.
  destruct (checked_sub_zero a) as [x|]; [destruct Da as [-> ->]|rewrite Da; done].
  destruct (checked_sub_zero b) as [y|]; [destruct Db as [-> ->]|rewrite Db; by cbn; destruct (x <? 10)].
  cbn. destruct (x <? 10); cbn; [|done]. by destruct (y <? 10).
Qed.

Lemma timestamp_parts a b c d e f :
  length a = 4%nat → length b = 2%nat → length c = 2%nat → length d = 2%nat → length e = 2%nat →
  length f = 2%nat →
  let v : str := a ++ b ++ c ++ [x54] ++ d ++ e ++ f ++ [x5a] in
  length v = 16%nat ∧ v !! 8%nat = Some x54 ∧ v !! 15%nat = Some x5a
  ∧ slice v 0 4 = a ∧ slice v 4 6 = b ∧ slice v 6 8 = c ∧ slice v 9 11 = d ∧ slice v 11 13 = e
  ∧ slice v 13 15 = f.
Proof.
  intros Ha Hb Hc Hd He Hf. destruct a as [|?[|?[|?[|?[|]]]]]; try discriminate Ha.
  destruct b as [|?[|?[|]]]; try discriminate Hb. destruct c as [|?[|?[|]]]; try discriminate Hc.
  destruct d as [|?[|?[|]]]; try discriminate Hd. destruct e as [|?[|?[|]]]; try discriminate He.
  destruct f as [|?[|?[|]]]; try discriminate Hf. done.
Qed.

#[local] Arguments slice : simpl never.
#[local] Arguments parse_digits : simpl never.

Lemma month_days_lookup year month :
  1 <= month <= 12 →
  default 0 ([31; if (year mod 4 =? 0) && (negb (year mod 100 =? 0) || (year mod 400 =? 0)) then 29 else 28;
              31; 30; 31; 30; 31; 31; 30; 31; 30; 31] !! Z.to_nat (month - 1)) = days_in_month year month.
Proof.
  fold (is_leap_year year). intros Hm. each_month Hm; cbv -[is_leap_year]; by destruct (is_leap_year year).
Qed.

(** What is left of [parse_timestamp] once the fields are read. *)
Definition timestamp_of (year month day hour minute second : Z) : option Z :=
  if negb ((1 <=? month) && (month <=? 12)) || (day =? 0)
     || (default 0 ([31; if (year mod 4 =? 0) && (negb (year mod 100 =? 0) || (year mod 400 =? 0)) then 29 else 28;
                     31; 30; 31; 30; 31; 31; 30; 31; 30; 31] !! Z.to_nat (month - 1)) <? day)
     || (23 <? hour) || (59 <? minute) || (59 <? second) then None
  else
    let seconds := days_from_civil year month day * 86400 + hour * 3600 + minute * 60 + second in
    if 0 <=? seconds then Some (from_secs seconds) else None.

Lemma timestamp_of_spec year month day hour minute second t :
  0 <= year <= 9999 → 0 <= day → 0 <= hour → 0 <= minute → 0 <= second →
  timestamp_of year month day hour minute second = Some t ↔
  calendar_time year month day hour minute second
  ∧ t = from_secs (unix_day year month day * 86400 + hour * 3600 + minute * 60 + second).
Proof.
  intros Hy Hd Hh Hmi Hs. unfold timestamp_of, calendar_time.
  destruct (decide (1 <= month <= 12)) as [Hm|Hm].
  2: { assert ((1 <=? month) && (month <=? 12) = false) as -> by (apply andb_false_iff; rewrite !Z.leb_gt; lia).
       cbn. split; [done|]. lia. }
  rewrite month_days_lookup by done.
  assert ((1 <=? month) && (month <=? 12) = true) as -> by (apply andb_true_iff; rewrite !Z.leb_le; lia). cbn.
  destruct (Z.eqb_spec day 0), (Z.ltb_spec (days_in_month year month) day), (Z.ltb_spec 23 hour),
    (Z.ltb_spec 59 minute), (Z.ltb_spec 59 second); cbn;
    try (split; [done|intros [(? & ? & ? & ? & ? & ?) _]; lia]).
  destruct (decide (1970 <= year)) as [Hy'|Hy'].
  - rewrite days_from_civil_unix by lia. pose proof (unix_day_nonneg year month day Hy' Hm ltac:(lia)).
    rewrite (proj2 (Z.leb_le _ _)) by lia. split; [intros [= <-]; split; [lia|done]|]. by intros [_ ->].
  - pose proof (civil_before_epoch year month day ltac:(lia) Hm ltac:(lia)).
    rewrite (proj2 (Z.leb_gt _ _)) by lia. split; [done|lia].
Qed.

Lemma parse_timestamp_eq value :
  length value = 16%nat → value !! 8%nat = Some x54 → value !! 15%nat = Some x5a →
  parse_timestamp value
  = (century ← parse_digits (slice value 0 2); rest ← parse_digits (slice value 2 4);
     month ← parse_digits (slice value 4 6); day ← parse_digits (slice value 6 8);
     hour ← parse_digits (slice value 9 11); minute ← parse_digits (slice value 11 13);
     second ← parse_digits (slice value 13 15);
     timestamp_of (century * 100 + rest) month day hour minute second).
Proof.
  intros Hlen H8 H15. unfold parse_timestamp. rewrite Hlen, H8, H15, !two_digits by lia. by rewrite !bool_decide_true.
Qed.

(** Four digits are two and two. *)
Lemma pad_four a b : 0 <= a → 0 <= b < 100 → pad 4 (a * 100 + b) = pad 2 a ++ pad 2 b.
Proof.
  intros Ha Hb. cbn [pad app].
  assert ((a * 100 + b) / 10 / 10 = a) as -> by (Z.div_mod_to_equations; lia).
  assert ((a * 100 + b) / 10 mod 10 = b / 10 mod 10) as -> by (Z.div_mod_to_equations; lia).
  assert ((a * 100 + b) mod 10 = b mod 10) as -> by (Z.div_mod_to_equations; lia). done.
Qed.

Lemma timestamp_shape value :
  length value = 16%nat → value !! 8%nat = Some x54 → value !! 15%nat = Some x5a →
  value = (slice value 0 2 ++ slice value 2 4) ++ slice value 4 6 ++ slice value 6 8 ++ [x54]
          ++ slice value 9 11 ++ slice value 11 13 ++ slice value 13 15 ++ [x5a].
Proof.
  intros Hlen H8 H15. do 16 (destruct value as [|? value]; [done|]). destruct value; [|done].
  cbn in H8, H15. simplify_eq. done.
Qed.

Lemma digits_of_slice value i j z :
  parse_digits (slice value i j) = Some z → (j = i + 2 ∧ j <= length value)%nat →
  slice value i j = pad 2 z ∧ 0 <= z < 100.
Proof.
  intros (E & Hz & _)%parse_digits_Some [-> Hj].
  assert (length (slice value i (i + 2)) = 2%nat) as Hl by (unfold slice; rewrite length_take, length_drop; lia).
  by rewrite Hl in *.
Qed.

(** [parse_timestamp] accepts exactly the texts YYYYMMDDTHHMMSSZ of the
    times of the Gregorian calendar from 1970 to 9999, and answers the time that
    counting the days of the years and months since the epoch gives. *)
Theorem timestamp_exact value t : parse_timestamp value = Some t ↔ timestamp_denotes value t.
Proof.
  split.
  - intros Hp. assert (length value = 16%nat ∧ value !! 8%nat = Some x54 ∧ value !! 15%nat = Some x5a)
      as (Hlen & H8 & H15).
    { unfold parse_timestamp in Hp. destruct (negb (length value =? 16)%nat || _ || _) eqn:E; [done|].
      rewrite !orb_false_iff, !negb_false_iff, !bool_decide_eq_true, Nat.eqb_eq in E. tauto. }
    rewrite parse_timestamp_eq in Hp by done. pose proof (timestamp_shape value Hlen H8 H15) as Hshape.
    apply bind_Some in Hp as (ce & Hce & Hp). apply digits_of_slice in Hce as [Ece Hce]; [|lia].
    apply bind_Some in Hp as (re & Hre & Hp). apply digits_of_slice in Hre as [Ere Hre]; [|lia].
    apply bind_Some in Hp as (mo & Hmo & Hp). apply digits_of_slice in Hmo as [Emo Hmo]; [|lia].
    apply bind_Some in Hp as (da & Hda & Hp). apply digits_of_slice in Hda as [Eda Hda]; [|lia].
    apply bind_Some in Hp as (ho & Hho & Hp). apply digits_of_slice in Hho as [Eho Hho]; [|lia].
    apply bind_Some in Hp as (mi & Hmi & Hp). apply digits_of_slice in Hmi as [Emi Hmi]; [|lia].
    apply bind_Some in Hp as (se & Hse & Hp). apply digits_of_slice in Hse as [Ese Hse]; [|lia].
    apply timestamp_of_spec in Hp as [Hcal ->]; [|lia..].
    exists (ce * 100 + re), mo, da, ho, mi, se. split_and!; [done| |done].
    rewrite Hshape, Ece, Ere, Emo, Eda, Eho, Emi, Ese, <- pad_four by lia. done.
  - intros (y & mo & d & h & mi & s & Hcal & -> & ->). pose proof Hcal as (Hy & Hmo & Hd & Hh & Hmi & Hs).
    assert (d <= 31) by (unfold days_in_month in Hd; repeat case_match; lia).
    destruct (timestamp_parts (pad 4 y) (pad 2 mo) (pad 2 d) (pad 2 h) (pad 2 mi) (pad 2 s))
      as (Hlen & H8 & H15 & S0 & S1 & S2 & S3 & S4 & S5); [apply length_pad..|].
    fold (timestamp_text y mo d h mi s) in Hlen, H8, H15, S0, S1, S2, S3, S4, S5.
    rewrite parse_timestamp_eq, S1, S2, S3, S4, S5 by done.
    assert (slice (timestamp_text y mo d h mi s) 0 2 = pad 2 (y / 100)
            ∧ slice (timestamp_text y mo d h mi s) 2 4 = pad 2 (y mod 100)) as [-> ->].
    { unfold timestamp_text. rewrite (Z.div_mod y 100) at 1 3 by lia. rewrite Z.mul_comm.
      rewrite pad_four by (Z.div_mod_to_equations; lia). done. }
    rewrite !parse_digits_pad by (Z.div_mod_to_equations; lia). cbn.
    replace (y / 100 * 100 + y mod 100) with y by (Z.div_mod_to_equations; lia).
    by apply timestamp_of_spec; [lia..|].
Qed.
