(* ===== verification/SigV4Proofs.v ===== *)
(** * What an authorized request guarantees

    [authorize] of [SigV4] accepts exactly the requests that are in scope, fresh,
    signed over every header the gateway acts on, and carry the signature the
    signer computes ([authorize_exact]); what is signed determines those headers,
    the method and the target ([signature_covers_request]).  The cache of signing
    keys is bounded and invisible ([signing_key_cache_transparent]), and the
    [authorization] header round-trips ([authorization_roundtrip]). *)

From Stdlib Require Import Sorting.Sorted.
From S2P Require Import Prelude RustStr Integrity IntegrityProofs SigV4 BinaryIr BinaryIrText SigV4Time.

#[local] Open Scope Z_scope.
Set Default Goal Selector "!".

(** ** Canonical header values *)

(** TrimAll of the AWS documentation: spaces and tabs around the value are
    dropped and every run of them inside is one space. *)
Definition trim_all (value : str) : str :=
  join [x20] (List.filter (λ w, negb (bool_decide (w = [])))
    (split_on x20 ((λ b, if bool_decide (b = x09) then x20 else b) <$> value))).

(** No leading, trailing or double space. *)
Definition spaced (l : str) : Prop :=
  head l ≠ Some x20 ∧ last l ≠ Some x20 ∧ ∀ a b, l ≠ a ++ x20 :: x20 :: b.

Lemma windows2_double (l : str) :
  existsb (λ p, bool_decide (p = (x20, x20))) (windows2 l) = true ↔ ∃ a b, l = a ++ x20 :: x20 :: b.
Proof.
  induction l as [|x l IH]; [split; [done|]; by intros ([|??] & ? & ?)|].
  destruct l as [|y l]; [split; [done|]; by intros ([|?[|??]] & ? & ?)|].
  change (windows2 (x :: y :: l)) with ((x, y) :: windows2 (y :: l)).
  cbn [existsb]. rewrite orb_true_iff, bool_decide_eq_true, IH. split.
  - intros [[= -> ->]|(a & b & E)]; [by exists [], l|]. exists (x :: a), b. by rewrite E.
  - intros ([|z a] & b & E); cbn in E; [left; by simplify_eq|]. right. exists a, b. by simplify_eq.
Qed.

Lemma is_trim_all_spaced value :
  is_trim_all_canonical value = true ↔ (x09 ∉ value) ∧ spaced value.
Proof.
  unfold is_trim_all_canonical, spaced. rewrite !andb_true_iff, !negb_true_iff, !bool_decide_eq_false.
  rewrite <- not_true_iff_false, windows2_double. naive_solver.
Qed.

Lemma spaced_pieces l : spaced l → l ≠ [] → Forall (λ w, w ≠ []) (split_on x20 l).
Proof.
  induction l as [l IH] using (induction_ltof1 _ length). unfold ltof in IH. intros (Hh & Hl & Hd) Hne.
  destruct (split_on_spec x20 l) as [[Hn ->]|(a & l' & -> & Ha & ->)]; [by repeat constructor|].
  constructor; [by intros ->|]. apply IH.
  - rewrite length_app. cbn. lia.
  - split_and!.
    + destruct l' as [|y l']; [done|]. intros [= ->]. by apply (Hd a l').
    + intros E. apply Hl. rewrite last_app_cons. destruct l'; [done|]. by rewrite last_cons, E.
    + intros b d ->. apply (Hd (a ++ x20 :: b) d). by rewrite <- app_assoc.
  - intros ->. apply Hl. by rewrite last_snoc.
Qed.

Lemma split_on_app c p r : split_on c (p ++ c :: r) = split_on c p ++ split_on c r.
Proof.
  induction p as [|b p IH]; cbn; [by rewrite bool_decide_true|]. rewrite IH.
  destruct (bool_decide (b = c)); [done|].
  pose proof (split_on_nonempty c p). by destruct (split_on c p).
Qed.

Lemma pieces_spaced l : Forall (λ w, w ≠ []) (split_on x20 l) → spaced l.
Proof.
  rewrite Forall_forall. intros Hl. split_and!.
  - destruct l as [|b l]; [done|]. intros [= ->]. apply (Hl []); [|done].
    change (x20 :: l) with ([] ++ x20 :: l). rewrite split_on_app. set_solver.
  - intros [l' ->]%last_Some. apply (Hl []); [|done]. rewrite split_on_app. set_solver.
  - intros a b ->. apply (Hl []); [|done]. rewrite split_on_app.
    change (x20 :: b) with ([] ++ x20 :: b). rewrite split_on_app. set_solver.
Qed.

Lemma filter_true {A} (f : A → bool) l : Forall (λ x, f x = true) l → List.filter f l = l.
Proof. induction 1 as [|x l Hx _ IH]; cbn; [done|]. by rewrite Hx, IH. Qed.

Lemma Forall_filter_true {A} (f : A → bool) l : Forall (λ x, f x = true) (List.filter f l).
Proof. induction l as [|x l IH]; cbn; [done|]. destruct (f x) eqn:E; [by constructor|done]. Qed.

Lemma Forall_filter_keep {A} (f : A → bool) (P : A → Prop) l : Forall P l → Forall P (List.filter f l).
Proof. induction 1 as [|x l Hx _ IH]; cbn; [done|]. destruct (f x); [by constructor|done]. Qed.

(** The test of the code is equality with TrimAll. *)
Lemma is_trim_all_exact value : is_trim_all_canonical value = true ↔ trim_all value = value.
Proof.
  rewrite is_trim_all_spaced. unfold trim_all. set (plain := _ <$> value). split.
  - intros [Htab Hsp]. assert (plain = value) as ->.
    { unfold plain. clear Hsp. induction value as [|b value IH]; cbn; [done|].
      rewrite bool_decide_false by set_solver. rewrite IH by set_solver. done. }
    destruct (decide (value = [])) as [->|Hne]; [done|].
    rewrite filter_true; [apply join_split|].
    eapply Forall_impl; [by apply spaced_pieces|]. intros w Hw. cbn. by rewrite bool_decide_false.
  - set (ws := List.filter _ _). intros E.
    assert (Forall (λ w, w ≠ []) ws) as Hw.
    { eapply Forall_impl; [apply Forall_filter_true|]. intros w Hw%negb_true_iff. by apply bool_decide_eq_false in Hw. }
    assert (Forall (λ w, x20 ∉ w) ws) as Hs by (apply Forall_filter_keep, split_on_pieces).
    split.
    + assert (x09 ∉ plain) as Hp.
      { unfold plain. intros (b & Hb & _)%list_elem_of_fmap. case_bool_decide; congruence. }
      assert (Forall (λ w, x09 ∉ w) ws) as Ht.
      { apply Forall_filter_keep. rewrite <- (join_split x20 plain) in Hp.
        clear -Hp. induction (split_on x20 plain) as [|w l IH]; [done|].
        destruct l as [|y l]; [by repeat constructor|]. rewrite join_cons in Hp by done.
        constructor; [set_solver|]. apply IH. set_solver. }
      rewrite <- E. clear -Ht. induction Ht as [|w l Hw _ IH]; [cbn; set_solver|].
      destruct l; [done|]. rewrite join_cons by done. set_solver.
    + destruct (decide (ws = [])) as [Hn|Hn].
      * rewrite Hn in E. cbn in E. rewrite <- E. split_and!; [done|done|]. intros [] ?; done.
      * apply pieces_spaced. rewrite <- E, split_join; done.
Qed.

(** ** The checks of [authorize] *)

Lemma get_all_elem headers name v : v ∈ get_all headers name ↔ (name, v) ∈ headers.
Proof.
  unfold get_all. rewrite list_elem_of_omap. split.
  - intros ([n w] & Hin & Hv). case_bool_decide; by simplify_eq.
  - intros Hin. exists (name, v). by rewrite bool_decide_true.
Qed.

Lemma get_all_keys headers name : get_all headers name ≠ [] ↔ name ∈ keys headers.
Proof.
  unfold keys. rewrite elem_of_remove_dups, list_elem_of_fmap. split.
  - intros Hne. destruct (get_all headers name) as [|v l] eqn:E; [done|].
    exists (name, v). split; [done|]. apply get_all_elem. rewrite E. set_solver.
  - intros ([n v] & Hn & Hin) E. cbn in Hn. subst n. apply get_all_elem in Hin. rewrite E in Hin.
    by apply elem_of_nil in Hin.
Qed.

Lemma ensure_Ok {E} (c : bool) (e : E) : ensure c e = Ok tt ↔ c = true.
Proof. by destruct c. Qed.

(** A header the gateway acts on: signed, once, valid UTF-8 in TrimAll form. *)
Definition protected (headers : Headers) (signed : list str) (name : str) : Prop :=
  name ∈ signed ∧ ∃ v, get_all headers name = [v] ∧ utf8_valid v = true ∧ trim_all v = v.

Record headers_signed (signed : list str) (loc : Location) (headers : Headers) : Prop := {
  hs_host : bs "host" ∈ signed;
  hs_header : loc = InHeader → bs "x-amz-date" ∈ signed ∧ bs "x-amz-content-sha256" ∈ signed;
  hs_present : ∀ name, name ∈ signed → get_all headers name ≠ [];
  hs_protected : ∀ name, requires_signed_header_integrity name = true →
    get_all headers name ≠ [] → protected headers signed name;
}.

Lemma validate_integrity_Ok headers :
  validate_integrity_header_values headers = Ok tt ↔
  ∀ name, requires_signed_header_integrity name = true → get_all headers name ≠ [] →
    ∃ v, get_all headers name = [v] ∧ utf8_valid v = true ∧ trim_all v = v.
Proof.
  unfold validate_integrity_header_values. rewrite ensure_Ok, forallb_forall. split.
  - intros Hall name Hreq Hne. specialize (Hall name). rewrite <- list_elem_of_In, <- get_all_keys in Hall.
    specialize (Hall Hne). unfold integrity_value_ok in Hall. rewrite Hreq in Hall. cbn in Hall.
    destruct (get_all headers name) as [|v [|]]; try done.
    apply andb_true_iff in Hall as [Hu Hc%is_trim_all_exact]. eauto.
  - intros Hall name Hin. rewrite <- list_elem_of_In, <- get_all_keys in Hin. unfold integrity_value_ok.
    destruct (requires_signed_header_integrity name) eqn:Hreq; cbn; [|done].
    destruct (Hall name Hreq Hin) as (v & -> & -> & Hc). by rewrite (proj2 (is_trim_all_exact v) Hc).
Qed.

Lemma validate_signed_headers_Ok signed loc headers :
  validate_signed_headers signed loc headers = Ok tt ↔ headers_signed signed loc headers.
Proof.
  unfold validate_signed_headers. split.
  - intros ([] & Hhost%ensure_Ok & Hrest)%result_bind_Ok.
    apply result_bind_Ok in Hrest as ([] & Hloc%ensure_Ok & Hrest).
    apply result_bind_Ok in Hrest as ([] & Hval & Hrest).
    apply result_bind_Ok in Hrest as ([] & Hpres%ensure_Ok & Hcov%ensure_Ok).
    rewrite validate_integrity_Ok in Hval.
    rewrite forallb_forall in Hpres, Hcov. apply bool_decide_eq_true in Hhost. split.
    + done.
    + intros ->. rewrite (bool_decide_true (InHeader = InHeader)) in Hloc by done. cbn in Hloc.
      rewrite negb_orb, !negb_involutive, andb_true_iff, !bool_decide_eq_true in Hloc. done.
    + intros name Hin%list_elem_of_In. specialize (Hpres name Hin). by apply negb_true_iff, bool_decide_eq_false in Hpres.
    + intros name Hreq Hne. split; [|by apply Hval].
      specialize (Hcov name). rewrite <- list_elem_of_In, <- get_all_keys in Hcov. specialize (Hcov Hne).
      rewrite Hreq in Hcov. cbn in Hcov. by apply bool_decide_eq_true in Hcov.
  - intros [Hhost Hloc Hpres Hprot]. apply result_bind_Ok. exists tt.
    rewrite ensure_Ok, bool_decide_eq_true. split; [done|].
    apply result_bind_Ok. exists tt. rewrite ensure_Ok. split.
    { rewrite negb_true_iff, andb_false_iff. destruct (decide (loc = InHeader)) as [Hl|Hl].
      - right. destruct (Hloc Hl). by rewrite !bool_decide_true.
      - left. by rewrite bool_decide_false. }
    rewrite result_bind_Ok. exists tt. split.
    { apply validate_integrity_Ok. intros name Hreq Hne. by destruct (Hprot name Hreq Hne) as [_ ?]. }
    rewrite result_bind_Ok. exists tt. rewrite !ensure_Ok, !forallb_forall. split.
    + intros name Hin%list_elem_of_In. by rewrite bool_decide_false by auto.
    + intros name Hin%list_elem_of_In%get_all_keys.
      destruct (requires_signed_header_integrity name) eqn:Hreq; cbn; [|done].
      destruct (Hprot name Hreq Hin). by rewrite bool_decide_true.
Qed.

(** A timestamp is fresh: within the clock skew, or not expired. *)
Definition fresh (loc : Location) (t now skew : Z) : Prop :=
  match loc with
  | InHeader => Z.abs (now - t) <= skew
  | InQuery expires => expires <= MAX_PRESIGN_EXPIRY ∧ t - now <= skew ∧ now <= t + expires
  end.

Lemma unix_day_bound year month day :
  1970 <= year <= 9999 → 1 <= month <= 12 → day <= days_in_month year month →
  unix_day year month day <= 10 ^ 7.
Proof.
  intros Hy Hm Hd. rewrite <- days_from_civil_unix, days_from_civil_closed by lia.
  pose proof (month_end year month Hm) as Hend. unfold days_in_year in Hend.
  destruct (2 <? month), (is_leap_year year); Z.div_mod_to_equations; lia.
Qed.

(** The range of a time that a timestamp denotes, and its day. *)
Lemma denotes_range v t : timestamp_denotes v t → 0 <= t <= from_secs (10 ^ 12).
Proof.
  intros (y & mo & d & h & mi & s & (Hy & Hmo & Hd & Hh & Hmi & Hs) & _ & ->).
  pose proof (unix_day_bound y mo d Hy Hmo ltac:(lia)).
  pose proof (unix_day_nonneg y mo d ltac:(lia) Hmo ltac:(lia)). unfold from_secs. lia.
Qed.

Lemma validate_time_Ok v loc t now skew :
  timestamp_denotes v t → 0 <= skew →
  sig_validate_time loc t now skew = Ok tt ↔ fresh loc t now skew.
Proof.
  intros Ht Hskew. apply denotes_range in Ht. unfold sig_validate_time, fresh. destruct loc as [|e].
  - assert ((if t <=? now then now - t else t - now) = Z.abs (now - t)) as -> by (destruct (Z.leb_spec t now); lia).
    destruct (Z.ltb_spec skew (Z.abs (now - t))); split; done || lia.
  - destruct (Z.ltb_spec MAX_PRESIGN_EXPIRY e) as [He|He]; [split; [done|lia]|].
    destruct ((now <=? t) && (skew <? t - now)) eqn:Ef.
    { apply andb_true_iff in Ef as [?%Z.leb_le ?%Z.ltb_lt]. split; [done|lia]. }
    assert (t - now <= skew) by (apply andb_false_iff in Ef as [?%Z.leb_gt|?%Z.ltb_ge]; lia).
    assert ((t + e) / 10 ^ 9 <= i64_max) as Hadd.
    { unfold from_secs, MAX_PRESIGN_EXPIRY, i64_max in *. unfold from_secs in *. cbn in He. Z.div_mod_to_equations. lia. }
    unfold system_time_checked_add. rewrite (proj2 (Z.leb_le _ _) Hadd). cbn.
    destruct (Z.ltb_spec (t + e) now); split; done || lia.
Qed.

Lemma take_text y mo d h mi s :
  take 8 (timestamp_text y mo d h mi s) = pad 4 y ++ pad 2 mo ++ pad 2 d.
Proof. done. Qed.

Lemma pad_digits n z : 0 <= z < 10 ^ Z.of_nat n → forallb is_ascii_digit (pad n z) = true.
Proof. intros Hz. by destruct (parse_digits_Some _ _ (parse_digits_pad n z Hz)) as (_ & _ & ?). Qed.

Lemma pad_inj n a b : 0 <= a < 10 ^ Z.of_nat n → 0 <= b < 10 ^ Z.of_nat n → pad n a = pad n b → a = b.
Proof. intros Ha Hb E. pose proof (parse_digits_pad n a Ha). rewrite E, parse_digits_pad in H by done. congruence. Qed.

(** Two times of the same day, by their texts. *)
Lemma denotes_day v v' t t' :
  timestamp_denotes v t → timestamp_denotes v' t' → take 8 v = take 8 v' →
  t / from_secs 86400 = t' / from_secs 86400.
Proof.
  intros (y & mo & d & h & mi & s & (Hy & Hmo & Hd & Hh & Hmi & Hs) & -> & ->)
    (y' & mo' & d' & h' & mi' & s' & (Hy' & Hmo' & Hd' & Hh' & Hmi' & Hs') & -> & ->).
  rewrite !take_text. intros E. assert (∀ y m, days_in_month y m <= 31) as H31.
  { intros ? ?. unfold days_in_month. repeat case_match; lia. }
  pose proof (H31 y mo). pose proof (H31 y' mo').
  apply app_inj_1 in E as [Ey E]; [|by rewrite !length_pad]. apply app_inj_1 in E as [Em Ed]; [|by rewrite !length_pad].
  apply pad_inj in Ey as ->; [|lia..]. apply pad_inj in Em as ->; [|lia..]. apply pad_inj in Ed as ->; [|lia..].
  unfold from_secs. rewrite !Z.div_mul_cancel_r by lia.
  rewrite <- !Z.add_assoc, !Z.div_add_l by lia. rewrite !Z.div_small by lia. done.
Qed.

Lemma denotes_date_digits v t :
  timestamp_denotes v t → length (take 8 v) = 8%nat ∧ forallb is_ascii_digit (take 8 v) = true.
Proof.
  intros (y & mo & d & h & mi & s & (Hy & Hmo & Hd & _) & -> & _). rewrite take_text.
  assert (d < 100) by (unfold days_in_month in Hd; repeat case_match; lia).
  rewrite !length_app, !length_pad, !forallb_app, !pad_digits by lia. done.
Qed.

(** ** The cache of signing keys *)

(** The documented derivation: a key depends on the day of the time, not on the
    time within it. *)
Class AwsSigV4Laws `{AwsSigV4} : Prop := {
  signing_key_daily secret t t' region service :
    t / from_secs 86400 = t' / from_secs 86400 →
    generate_signing_key secret t region service = generate_signing_key secret t' region service;
}.

Section cache.
  Context `{Crypto, AwsSigV4}.

(** The digest tells the secrets in use apart. *)
Definition collision_free (secrets : list str) : Prop :=
  ∀ s s', s ∈ secrets → s' ∈ secrets → digest c_sha256 s = digest c_sha256 s' → s = s'.

(** An entry holds the key of one of the secrets for its own scope. *)
Definition entry_ok (secrets : list str) (e : CacheEntry) : Prop :=
  ∃ secret v t, secret ∈ secrets ∧ e_secret_fingerprint e = digest c_sha256 secret
    ∧ timestamp_denotes v t ∧ ck_date (e_key e) = take 8 v
    ∧ e_signing_key e = generate_signing_key secret t (ck_region (e_key e)) (ck_service (e_key e)).

Record cache_ok (secrets : list str) (c : SigningKeyCache) : Prop := {
  co_lock : cache_poisoned c = false;
  co_capacity : (1 <= cache_capacity c)%nat;
  co_bounded : (length (cache_entries c) <= cache_capacity c)%nat;
  co_entries : Forall (entry_ok secrets) (cache_entries c);
}.

Lemma cache_new_ok secrets capacity ttl : cache_ok secrets (cache_new capacity ttl).
Proof. split; cbn; [done|lia|lia|constructor]. Qed.

Lemma take_first_Some {A} (p : A → bool) l x rest :
  take_first p l = Some (x, rest) → p x = true ∧ Permutation l (x :: rest).
Proof.
  revert rest. induction l as [|y l IH]; intros rest; cbn; [done|]. destruct (p y) eqn:Hy.
  - by intros [= -> ->].
  - destruct (take_first p l) as [[z r]|]; [|done]. intros [= -> <-].
    destruct (IH r eq_refl) as [? HP]. split; [done|]. rewrite HP. apply Permutation_swap.
Qed.

Lemma make_room_length capacity l : (1 <= capacity)%nat → (length (make_room capacity l) < capacity)%nat.
Proof.
  intros Hc. induction l as [|e l IH]; cbn [make_room]; [cbn; lia|].
  destruct (Nat.leb_spec capacity (length (e :: l))); [done|lia].
Qed.

Lemma make_room_sub P capacity l : Forall P l → Forall P (make_room capacity l).
Proof.
  induction 1 as [|e l He Hl IH]; cbn [make_room]; [done|]. destruct (_ <=? _)%nat; [done|by constructor].
Qed.

Lemma filter_length_le {A} (f : A → bool) l : (length (List.filter f l) <= length l)%nat.
Proof. induction l as [|x l IH]; cbn; [done|]. destruct (f x); cbn; lia. Qed.

(** A derivation answers the signing key and keeps the cache sound and bounded. *)
Lemma derive_ok `{!AwsSigV4Laws} secrets auth secret t instant c :
  cache_ok secrets c → collision_free secrets → secret ∈ secrets →
  timestamp_denotes (auth_timestamp auth) t → scope_date auth = take 8 (auth_timestamp auth) →
  ∃ c', derive auth secret t instant c
        = (Ok (generate_signing_key secret t (region auth) (service auth)), c') ∧ cache_ok secrets c'.
Proof.
  intros [Hlock Hcap Hlen Hent] Hfree Hin Ht Hdate. unfold derive. rewrite Hlock. cbn zeta.
  set (live := List.filter _ _).
  assert (Forall (entry_ok secrets) live) as Hlive by (by apply Forall_filter_keep).
  assert (length live <= cache_capacity c)%nat as Hll
    by (unfold live; etransitivity; [apply filter_length_le|done]).
  destruct (take_first _ live) as [[e rest]|] eqn:Ef.
  - apply take_first_Some in Ef as [[Hk Hfp]%andb_true_iff HP].
    apply bool_decide_eq_true in Hk, Hfp. rewrite HP in Hlive. apply Forall_cons in Hlive as [He Hrest].
    pose proof He as (s & v & t' & Hs & Hsfp & Ht' & Hd & Hkey). rewrite Hk in Hd, Hkey. cbn in Hd, Hkey.
    assert (s = secret) as -> by (apply Hfree; [done..|]; congruence).
    rewrite Hkey, (signing_key_daily secret t' t). 2: { eapply denotes_day; [done..|]. congruence. }
    eexists. split; [done|]. split; cbn; [done|done| |apply Forall_app; by repeat constructor].
    rewrite HP in Hll. rewrite length_app. cbn in Hll |- *. lia.
  - eexists. split; [done|]. split; cbn; [done|done| |].
    + rewrite length_app. cbn. pose proof (make_room_length (cache_capacity c) live Hcap). lia.
    + apply Forall_app. split; [by apply make_room_sub|]. constructor; [|done].
      exists secret, (auth_timestamp auth), t. done.
Qed.
End cache.

(** ** Authorization *)

Section authorized.
  Context `{Crypto, AwsSigV4}.

Record in_scope (auth : RequestAuthorization) (policy : SigV4Policy) : Prop := {
  is_access_key : access_key auth ≠ [];
  is_region : region auth = expected_region policy;
  is_service : service auth = bs "s3";
  is_terminator : terminator auth = bs "aws4_request";
}.

Lemma validate_scope_Ok auth policy v t :
  timestamp_denotes v t → scope_date auth = take 8 v →
  validate_scope auth policy = Ok tt ↔ in_scope auth policy.
Proof.
  intros [Hlen Hdig]%denotes_date_digits Hdate. unfold validate_scope. rewrite Hdate, Hlen, Hdig. cbn.
  rewrite !orb_false_r. destruct (_ || _) eqn:E.
  - split; [done|]. intros [H1 H2 H3 H4]. exfalso.
    rewrite !orb_true_iff, !negb_true_iff, bool_decide_eq_true, !bool_decide_eq_false in E. tauto.
  - rewrite !orb_false_iff, !negb_false_iff, !bool_decide_eq_true, bool_decide_eq_false in E.
    split; [|done]. intros _. destruct E as [[[? ?] ?] ?]. by split.
Qed.

Lemma constant_time_signature_same a g : constant_time_signature_eq a g = true ↔ same_hex a g.
Proof. rewrite <- constant_time_hex_eq_same. done. Qed.

(** What a request must satisfy, and the verifier of its body. *)
Definition authentic (auth : RequestAuthorization) (method : str) (uri : Uri) (headers : Headers)
    (secret : str) (policy : SigV4Policy) (now : Z) (v : BodyVerifier) : Prop :=
  ∃ t payload_hash values output,
    in_scope auth policy
    ∧ timestamp_denotes (auth_timestamp auth) t ∧ scope_date auth = take 8 (auth_timestamp auth)
    ∧ fresh (location auth) t now (max_clock_skew policy)
    ∧ headers_signed (signed_headers auth) (location auth) headers
    ∧ payload_hash_of auth headers = Ok payload_hash
    ∧ collect_signed_header_values headers (signed_headers auth) = Ok values
    ∧ sign (signing_request auth method uri secret t payload_hash values) = Some output
    ∧ same_hex output (signature auth)
    ∧ from_headers (header_map headers) payload_hash
        (Some (streaming_signing auth (generate_signing_key secret t (region auth) (service auth))))
        (trusted_tls policy uri) = Ok v.

(** Caches that requests with the given secrets can leave behind. *)
Inductive cache_reach (secrets : list str) : SigningKeyCache → Prop :=
| reach_new capacity ttl : cache_reach secrets (cache_new capacity ttl)
| reach_authorize c auth method uri headers secret policy now instant :
    cache_reach secrets c → secret ∈ secrets →
    cache_reach secrets (authorize auth method uri headers secret policy now instant c).2.

Lemma se_lift_bind {S E A B} (r : result E A) (k : A → SE S E B) (s : S) :
  (se_lift r ≫= k) s = match r with Ok a => k a s | Err e => (Err e, s) end.
Proof. by destruct r. Qed.

(** The branch of a refused request. *)
#[local] Ltac refuse := right; eexists; split; [reflexivity|];
  intros ? (? & ? & ? & ? & ? & ? & ?); simplify_eq/=; congruence.

(** [authorize] asks the cache for a key only for a day it has checked. *)
Lemma authorize_cases auth method uri headers secret policy now instant c :
  let rest t payload_hash values key :=
    _ ← verify_seed_signature auth (signing_request auth method uri secret t payload_hash values);
    map_err Payload (from_headers (header_map headers) payload_hash
      (Some (streaming_signing auth key)) (trusted_tls policy uri)) in
  (∃ t payload_hash values,
     validate_scope auth policy = Ok tt ∧ parse_timestamp (auth_timestamp auth) = Some t
     ∧ scope_date auth = take 8 (auth_timestamp auth)
     ∧ sig_validate_time (location auth) t now (max_clock_skew policy) = Ok tt
     ∧ validate_signed_headers (signed_headers auth) (location auth) headers = Ok tt
     ∧ payload_hash_of auth headers = Ok payload_hash
     ∧ collect_signed_header_values headers (signed_headers auth) = Ok values
     ∧ authorize auth method uri headers secret policy now instant c
       = match derive auth secret t instant c with
         | (Ok key, c') => (rest t payload_hash values key, c')
         | (Err e, c') => (Err e, c')
         end)
  ∨ (∃ e, authorize auth method uri headers secret policy now instant c = (Err e, c)
      ∧ ∀ t, ¬ (validate_scope auth policy = Ok tt ∧ parse_timestamp (auth_timestamp auth) = Some t
         ∧ scope_date auth = take 8 (auth_timestamp auth)
         ∧ sig_validate_time (location auth) t now (max_clock_skew policy) = Ok tt
         ∧ validate_signed_headers (signed_headers auth) (location auth) headers = Ok tt
         ∧ is_ok (payload_hash_of auth headers) = true
         ∧ is_ok (collect_signed_header_values headers (signed_headers auth)) = true)).
Proof.
  cbn zeta. unfold authorize. rewrite se_lift_bind.
  destruct (validate_scope auth policy) as [[]|e] eqn:E1; [|refuse]. rewrite se_lift_bind.
  destruct (parse_timestamp _) as [t|] eqn:E2; cbn [ok_or]; [|refuse]. rewrite se_lift_bind.
  unfold ensure at 1. case_bool_decide as E3; [|refuse]. rewrite se_lift_bind.
  destruct (sig_validate_time _ _ _ _) as [[]|e] eqn:E4; [|refuse]. rewrite se_lift_bind.
  destruct (validate_signed_headers _ _ _) as [[]|e] eqn:E5; [|refuse]. rewrite se_lift_bind.
  destruct (payload_hash_of auth headers) as [hash|e] eqn:E6; [|refuse]. rewrite se_lift_bind.
  destruct (collect_signed_header_values _ _) as [values|e] eqn:E7; [|refuse].
  left. exists t, hash, values. split_and!; try done. unfold mbind, SE_bind.
  destruct (derive auth secret t instant c) as [[key|e] c']; [|done].
  unfold se_lift. by destruct (verify_seed_signature _ _) as [[]|e].
Qed.
Context `{!AwsSigV4Laws}.

Lemma cache_reach_ok secrets c : cache_reach secrets c → collision_free secrets → cache_ok secrets c.
Proof.
  induction 1 as [capacity ttl|c auth method uri headers secret policy now instant Hc IH Hin]; intros Hfree;
    [apply cache_new_ok|]. specialize (IH Hfree).
  destruct (authorize_cases auth method uri headers secret policy now instant c)
    as [(t & hash & values & _ & Ht%timestamp_exact & Hdate & _ & _ & _ & _ & ->)|(e & -> & _)]; [|done].
  destruct (derive_ok secrets auth secret t instant c IH Hfree Hin Ht Hdate) as (c' & -> & Hc'). done.
Qed.

(** C27: A request is authorized, with a verifier for its body, exactly when it is
    authentic: the credential is in scope, the timestamp is a calendar time of the
    scope's day and fresh, the host and every header the gateway acts on are
    signed (present once, valid UTF-8, in TrimAll form), and the signature is the
    one the signer computes for the method, target, signed headers and payload
    hash.  The verifier is bound to that signature and to the signing key of the
    secret, whatever the cache holds after earlier requests. *)
Theorem authorize_exact secrets c auth method uri headers secret policy now instant v :
  cache_reach secrets c → collision_free secrets → secret ∈ secrets → 0 <= max_clock_skew policy →
  (authorize auth method uri headers secret policy now instant c).1 = Ok v ↔
  authentic auth method uri headers secret policy now v.
Proof.
  intros Hreach Hfree Hin Hskew. pose proof (cache_reach_ok _ _ Hreach Hfree) as Hok.
  destruct (authorize_cases auth method uri headers secret policy now instant c)
    as [(t & hash & values & Hscope & Ht%timestamp_exact & Hdate & Htime & Hsigned & Hhash & Hvalues & ->)
       |(e & -> & Hno)].
  - destruct (derive_ok secrets auth secret t instant c Hok Hfree Hin Ht Hdate) as (c' & -> & _). cbn [fst].
    rewrite (validate_scope_Ok auth policy _ t Ht Hdate) in Hscope.
    rewrite (validate_time_Ok _ _ t _ _ Ht Hskew) in Htime. rewrite validate_signed_headers_Ok in Hsigned. split.
    + intros ([] & Hseed & Hv)%result_bind_Ok. apply result_bind_Ok in Hseed as (output & Hout & Hsame%ensure_Ok).
      apply constant_time_signature_same in Hsame. destruct (sign _) as [o|] eqn:Hsign; [|done].
      injection Hout as ->. destruct (from_headers _ _ _ _) as [v'|] eqn:Hfrom; [|done]. injection Hv as ->.
      by exists t, hash, values, output.
    + intros (t' & hash' & values' & output & _ & Ht' & _ & _ & _ & Hhash' & Hvalues' & Hsign & Hsame & Hfrom).
      apply timestamp_exact in Ht, Ht'. assert (t' = t) as -> by congruence.
      assert (hash' = hash) as -> by congruence. assert (values' = values) as -> by congruence.
      apply result_bind_Ok. exists tt. rewrite Hfrom.
      split; [|done]. apply result_bind_Ok. exists output. rewrite Hsign, ensure_Ok.
      by rewrite constant_time_signature_same.
  - split; [done|]. intros (t & hash & values & output & Hscope & Ht & Hdate & Htime & Hsigned & Hhash & Hvalues & _).
    destruct (Hno t). rewrite Hhash, Hvalues, timestamp_exact, validate_signed_headers_Ok.
    rewrite (validate_scope_Ok auth policy _ t Ht Hdate), (validate_time_Ok _ _ t _ _ Ht Hskew). done.
Qed.
End authorized.

(** ** What the signature covers *)

Section covers.
  Context `{Crypto, AwsSigV4}.

(** The signing request of an authorization, as [authorize] puts it together. *)
Definition request_to_sign (auth : RequestAuthorization) (method : str) (uri : Uri) (headers : Headers)
    (secret : str) : option SigningRequest :=
  t ← parse_timestamp (auth_timestamp auth);
  match payload_hash_of auth headers, collect_signed_header_values headers (signed_headers auth) with
  | Ok hash, Ok values => Some (signing_request auth method uri secret t hash values)
  | _, _ => None
  end.

(** The parameters of a presigned request that are not its authentication. *)
Definition kept_parameters (uri : Uri) : list str :=
  List.filter retained (split_on x26 (default [] (uri_query uri))).

Lemma collect_Forall2 headers signed values :
  collect_signed_header_values headers signed = Ok values →
  Forall2 (λ name p, signed_header_value headers name = Ok p) signed values.
Proof.
  revert values. induction signed as [|name signed IH]; intros values; cbn; [by intros [= <-]|].
  intros (p & Hp & Hrest)%result_bind_Ok. apply result_bind_Ok in Hrest as (rest & Hrest & [= <-]).
  constructor; [done|]. by apply IH.
Qed.

Lemma signed_value_name headers name p : signed_header_value headers name = Ok p → p.1 = name.
Proof.
  unfold signed_header_value. intros (values & _ & Hp)%result_bind_Ok. case_bool_decide; [done|].
  by injection Hp as <-.
Qed.

Lemma signed_value_single headers name v p :
  get_all headers name = [v] → signed_header_value headers name = Ok p → p = (name, v).
Proof.
  unfold signed_header_value. intros ->. cbn. unfold to_str.
  destruct (forallb _ v); cbn; [|done]. by intros [= <-].
Qed.

Lemma collect_names headers signed values :
  collect_signed_header_values headers signed = Ok values → signed = values.*1.
Proof.
  intros HF%collect_Forall2. induction HF as [|name p signed values Hp _ IH]; cbn; [done|].
  by rewrite (signed_value_name _ _ _ Hp), IH.
Qed.

(** Equal signed values: the same values of every header signed once. *)
Lemma collect_agree h1 h2 signed values name v1 v2 :
  collect_signed_header_values h1 signed = Ok values →
  collect_signed_header_values h2 signed = Ok values →
  name ∈ signed → get_all h1 name = [v1] → get_all h2 name = [v2] → v1 = v2.
Proof.
  intros H1%collect_Forall2 H2%collect_Forall2 Hin E1 E2.
  apply list_elem_of_lookup in Hin as [i Hi].
  destruct (Forall2_lookup_l _ _ _ _ _ H1 Hi) as (p & Hp & P1).
  destruct (Forall2_lookup_l _ _ _ _ _ H2 Hi) as (p' & Hp' & P2). simplify_eq.
  apply (signed_value_single _ _ _ _ E1) in P1. apply (signed_value_single _ _ _ _ E2) in P2. congruence.
Qed.

(** A path without a question mark and the kept parameters are read off the target. *)
Lemma target_inj u1 u2 :
  x3f ∉ uri_path u1 → x3f ∉ uri_path u2 → query_signing_target u1 = query_signing_target u2 →
  uri_path u1 = uri_path u2 ∧ kept_parameters u1 = kept_parameters u2.
Proof.
  intros N1 N2. unfold query_signing_target. fold (kept_parameters u1) (kept_parameters u2).
  assert (∀ u, Forall (λ p, x26 ∉ p) (kept_parameters u)) as HF
    by (intros; apply Forall_filter_keep, split_on_pieces).
  assert (∀ (a b p q : str), x3f ∉ a → x3f ∉ p → a ++ x3f :: b = p ++ x3f :: q → a = p ∧ b = q) as Hcut.
  { intros a b p q Ha Hp E. apply (f_equal (split_once x3f)) in E as E'. revert E'.
    assert (∀ a b : str, x3f ∉ a → split_once x3f (a ++ x3f :: b) = Some (a, b)) as Hs.
    { clear. intros a b Ha. unfold split_once. induction a as [|c a IH]; cbn; [done|].
      rewrite bool_decide_false by set_solver. specialize (IH ltac:(set_solver)).
      destruct (position _ (a ++ x3f :: b)) as [i|]; [|done]. cbn in IH |- *. injection IH as E1 E2. by rewrite E1, E2. }
    rewrite !Hs by done. by intros [= -> ->]. }
  case_bool_decide as K1; case_bool_decide as K2.
  - intros ->. by rewrite K1, K2.
  - intros E. exfalso. apply N1. rewrite E. set_solver.
  - intros E. exfalso. apply N2. rewrite <- E. set_solver.
  - intros [-> E]%Hcut; [|done..]. split; [done|]. by apply (join_inj x26).
Qed.

(** C28: The signature covers what the gateway acts on: when two accepted requests
    give the signer the same input, they agree on the method, the kind of
    authorization, the access key and the list of signed headers, on every value
    of every semantic header and every [x-amz-] header outside the two
    exclusions, on the target, and (presigned) on the path and every query
    parameter that is not named [X-Amz-]. *)
Theorem signature_covers_request a1 m1 u1 h1 s1 p1 n1 i1 c1 v1 a2 m2 u2 h2 s2 p2 n2 i2 c2 v2 :
  (authorize a1 m1 u1 h1 s1 p1 n1 i1 c1).1 = Ok v1 → (authorize a2 m2 u2 h2 s2 p2 n2 i2 c2).1 = Ok v2 →
  request_to_sign a1 m1 u1 h1 s1 = request_to_sign a2 m2 u2 h2 s2 →
  m1 = m2 ∧ location a1 = location a2 ∧ access_key a1 = access_key a2
  ∧ signed_headers a1 = signed_headers a2
  ∧ (∀ name, requires_signed_header_integrity name = true → get_all h1 name = get_all h2 name)
  ∧ (location a1 = InHeader →
       default (uri_path u1) (path_and_query u1) = default (uri_path u2) (path_and_query u2))
  ∧ (location a1 ≠ InHeader → x3f ∉ uri_path u1 → x3f ∉ uri_path u2 →
       uri_path u1 = uri_path u2 ∧ kept_parameters u1 = kept_parameters u2).
Proof.
  intros A1 A2 Hreq.
  destruct (authorize_cases a1 m1 u1 h1 s1 p1 n1 i1 c1)
    as [(t1 & k1 & w1 & _ & T1 & _ & _ & S1 & K1 & W1 & _)|(e & E & _)]; [|by rewrite E in A1].
  destruct (authorize_cases a2 m2 u2 h2 s2 p2 n2 i2 c2)
    as [(t2 & k2 & w2 & _ & T2 & _ & _ & S2 & K2 & W2 & _)|(e & E & _)]; [|by rewrite E in A2].
  unfold request_to_sign in Hreq. rewrite T1, T2, K1, K2, W1, W2 in Hreq. cbn in Hreq.
  apply validate_signed_headers_Ok in S1 as [_ _ Pres1 Prot1], S2 as [_ _ Pres2 Prot2].
  unfold signing_request in Hreq.
  assert (w1 = w2) as -> by (destruct (location a1), (location a2); cbn in Hreq; congruence).
  assert (signed_headers a1 = signed_headers a2) as Hsig
    by (rewrite (collect_names _ _ _ W1), (collect_names _ _ _ W2); done).
  assert (location a1 = location a2) as Hloc by (destruct (location a1), (location a2); cbn in Hreq; congruence).
  rewrite Hloc in Hreq |- *. split_and!.
  1-3: destruct (location a2); cbn in Hreq; congruence.
  - done.
  - intros name Hn. rewrite Hsig in *.
    destruct (decide (get_all h1 name = [])) as [N1|N1], (decide (get_all h2 name = [])) as [N2|N2].
    + congruence.
    + destruct (Prot2 name Hn N2) as [Hin _]. by destruct (Pres1 name Hin).
    + destruct (Prot1 name Hn N1) as [Hin _]. by destruct (Pres2 name Hin).
    + destruct (Prot1 name Hn N1) as (Hin & x & E1 & _), (Prot2 name Hn N2) as (_ & y & E2 & _).
      rewrite E1, E2. by rewrite (collect_agree h1 h2 _ w2 name x y W1 W2 Hin E1 E2).
  - intros E. rewrite E in Hreq. cbn in Hreq. congruence.
  - intros E N1 N2. destruct (location a2) as [|e]; [done|]. apply target_inj; [done..|]. cbn in Hreq. congruence.
Qed.
End covers.

(** ** Histories of the cache *)

Section history.
  Context `{Crypto, AwsSigV4, !AwsSigV4Laws}.

(** A call of [derive], with the clock reading it makes. *)
Record DeriveCall := mkDerive { dc_auth : RequestAuthorization; dc_secret : str; dc_time : Z; dc_instant : Z }.

(** What [authorize] has checked before it makes the call. *)
Definition well_timed (d : DeriveCall) : Prop :=
  parse_timestamp (auth_timestamp (dc_auth d)) = Some (dc_time d)
  ∧ scope_date (dc_auth d) = take 8 (auth_timestamp (dc_auth d)).

Fixpoint derive_all (calls : list DeriveCall) (c : SigningKeyCache)
    : list (result SigV4Error str) * SigningKeyCache :=
  match calls with
  | [] => ([], c)
  | d :: calls =>
    let '(r, c) := derive (dc_auth d) (dc_secret d) (dc_time d) (dc_instant d) c in
    let '(rs, c) := derive_all calls c in (r :: rs, c)
  end.

Definition uncached (d : DeriveCall) : result SigV4Error str :=
  Ok (generate_signing_key (dc_secret d) (dc_time d) (region (dc_auth d)) (service (dc_auth d))).

Lemma derive_all_ok secrets calls c :
  cache_ok secrets c → collision_free secrets → Forall (λ d, dc_secret d ∈ secrets ∧ well_timed d) calls →
  (derive_all calls c).1 = uncached <$> calls ∧ cache_ok secrets (derive_all calls c).2.
Proof.
  intros Hc Hfree Hcalls. revert c Hc. induction Hcalls as [|d calls [Hin [Ht Hdate]] _ IH]; intros c Hc; cbn; [done|].
  apply timestamp_exact in Ht.
  destruct (derive_ok secrets (dc_auth d) (dc_secret d) (dc_time d) (dc_instant d) c Hc Hfree Hin Ht Hdate)
    as (c' & -> & Hc'). destruct (IH c' Hc') as [E1 E2]. destruct (derive_all calls c') as [rs c'']. cbn in *.
  by rewrite E1.
Qed.

(** The cache of signing keys is invisible and bounded: over every history of
    derivations, with any clock readings, each answer is the key the signer
    derives afresh for that secret, time, region and service, and the cache never
    holds more than its capacity, as long as the digest tells the secrets of the
    history apart. *)
Theorem signing_key_cache_transparent capacity ttl calls :
  collision_free (dc_secret <$> calls) → Forall well_timed calls →
  (derive_all calls (cache_new capacity ttl)).1 = uncached <$> calls
  ∧ (length (cache_entries (derive_all calls (cache_new capacity ttl)).2) <= Nat.max capacity 1)%nat.
Proof.
  intros Hfree Hcalls.
  destruct (derive_all_ok (dc_secret <$> calls) calls (cache_new capacity ttl)) as [E Hok];
    [apply cache_new_ok|done| |].
  - apply Forall_forall. intros d Hd. rewrite Forall_forall in Hcalls. split; [|by apply Hcalls].
    apply list_elem_of_fmap. eauto.
  - split; [done|]. pose proof (co_bounded _ _ Hok). destruct Hok as [_ _ Hb _].
    assert (cache_capacity (derive_all calls (cache_new capacity ttl)).2 = Nat.max capacity 1) as <-; [|done].
    change (Nat.max capacity 1) with (cache_capacity (cache_new capacity ttl)). generalize (cache_new capacity ttl).
    clear. induction calls as [|d calls IH]; intros c; cbn; [done|].
    destruct (derive _ _ _ _ c) as [r c'] eqn:E. specialize (IH c').
    destruct (derive_all calls c') as [rs c'']. cbn in *. rewrite IH. clear IH.
    unfold derive in E. destruct (cache_poisoned c); [by simplify_eq|].
    destruct (take_first _ _) as [[? ?]|]; by simplify_eq.
Qed.
End history.

(** ** The [authorization] header *)

Lemma trim_space l b c :
  head l = Some b → last l = Some c → graphic b = true → graphic c = true → trim (x20 :: l) = l.
Proof.
  intros Hh Hl Hb Hc. rewrite <- (trim_graphic l b c) at 2 by done. unfold trim.
  assert (trim_start (length (x20 :: l)) whitespace (x20 :: l) = l) as ->.
  { cbn [length]. cbn [trim_start]. assert (strip_any whitespace (x20 :: l) = Some l) as -> by done.
    destruct l as [|x l]; [done|]. injection Hh as ->. by apply trim_start_graphic. }
  assert (trim_start (length l) whitespace l = l) as ->; [|done].
  destruct l as [|x l]; [done|]. injection Hh as ->. by apply trim_start_graphic.
Qed.

Definition credential_text (auth : RequestAuthorization) : str :=
  join [x2f] [access_key auth; scope_date auth; region auth; service auth; terminator auth].

(** The header as AWS clients write it. *)
Definition authorization_text (auth : RequestAuthorization) : str :=
  bs "AWS4-HMAC-SHA256 Credential=" ++ credential_text auth ++ bs ", SignedHeaders="
  ++ join [x3b] (signed_headers auth) ++ bs ", Signature=" ++ signature auth.

Definition component_ok (part : str) : Prop :=
  part ≠ [] ∧ forallb graphic part = true ∧ (x2f ∉ part) ∧ (x2c ∉ part).

Record header_authorization (auth : RequestAuthorization) : Prop := {
  ha_components : Forall component_ok [access_key auth; scope_date auth; region auth; service auth; terminator auth];
  ha_signed : signed_headers auth ≠ [];
  ha_names : Forall (λ name, signed_name_ok name = true) (signed_headers auth);
  ha_sorted : StronglySorted (λ a b, str_lt a b = true) (signed_headers auth);
  ha_signature : length (signature auth) = 64%nat ∧ forallb is_ascii_hexdigit (signature auth) = true
    ∧ to_ascii_lowercase <$> signature auth = signature auth;
  ha_location : location auth = InHeader;
}.

Lemma sorted_windows (l : list str) :
  StronglySorted (λ a b, str_lt a b = true) l → existsb (λ '(a, b), negb (str_lt a b)) (windows2 l) = false.
Proof.
  induction 1 as [|a l Hs IH Ha]; [done|]. destruct l as [|b l]; [done|].
  change (windows2 (a :: b :: l)) with ((a, b) :: windows2 (b :: l)). cbn [existsb].
  apply Forall_cons in Ha as [-> _]. by rewrite IH.
Qed.

Lemma parse_signed_headers_join l :
  l ≠ [] → Forall (λ name, signed_name_ok name = true) l → StronglySorted (λ a b, str_lt a b = true) l →
  parse_signed_headers (join [x3b] l) = Ok l.
Proof.
  intros Hne Hok Hs. unfold parse_signed_headers.
  assert (Forall (λ p, x3b ∉ p) l) as Hsep.
  { eapply Forall_impl; [done|]. intros p [_ Hp]%andb_true_iff Hin%list_elem_of_In.
    rewrite forallb_forall in Hp. by specialize (Hp _ Hin). }
  assert (join [x3b] l ≠ []) as Hj.
  { intros E. pose proof (split_join x3b l Hne Hsep) as E2. rewrite E in E2. cbn in E2. subst l.
    apply Forall_cons in Hok as [Hok _]. done. }
  rewrite bool_decide_false, split_join, sorted_windows, orb_false_r by done.
  assert (existsb (λ name, negb (signed_name_ok name)) l = false) as ->; [|done].
  clear -Hok. induction Hok as [|x l Hx _ IH]; cbn; [done|]. by rewrite Hx, IH.
Qed.

Lemma parse_credential_text auth :
  Forall component_ok [access_key auth; scope_date auth; region auth; service auth; terminator auth] →
  parse_credential (credential_text auth)
  = Ok (access_key auth, scope_date auth, region auth, service auth, terminator auth).
Proof.
  intros HF. unfold parse_credential, credential_text.
  rewrite split_join; [|done|by eapply Forall_impl; [done|]; intros p (_ & _ & ? & _)].
  rewrite !Forall_cons in HF. destruct HF as ((H1 & _) & (H2 & _) & (H3 & _) & (H4 & _) & (H5 & _) & _).
  cbn. by rewrite !bool_decide_false by done.
Qed.

Lemma last_graphic (p l : str) : forallb graphic l = true → l ≠ [] → ∃ c, last (p ++ l) = Some c ∧ graphic c = true.
Proof.
  intros Hl Hne. destruct l as [|x l] using rev_ind; [done|]. rewrite forallb_app, andb_true_iff in Hl.
  exists x. rewrite app_assoc, last_snoc. cbn in Hl. rewrite andb_true_r in Hl. tauto.
Qed.

Lemma forallb_no {A} (f : A → bool) (x : A) l : forallb f l = true → f x = false → x ∉ l.
Proof. intros Hl Hx Hin%list_elem_of_In. rewrite forallb_forall in Hl. by rewrite (Hl x Hin) in Hx. Qed.

Lemma forallb_mono {A} (f g : A → bool) l : (∀ x, f x = true → g x = true) → forallb f l = true → forallb g l = true.
Proof. intros Hfg. rewrite !forallb_forall. eauto. Qed.

(** The text of each field, joined by a separator. *)
Lemma forallb_join (f : byte → bool) c l :
  f c = true → Forall (λ p, forallb f p = true) l → forallb f (join [c] l) = true.
Proof.
  intros Hc. induction 1 as [|x l Hx _ IH]; [done|]. destruct l as [|y l]; [done|].
  rewrite join_cons by done. rewrite !forallb_app, Hx. cbn [forallb]. by rewrite Hc, IH.
Qed.

Lemma join_nonempty c (l : list str) : Exists (λ p, p ≠ []) l → join [c] l ≠ [].
Proof.
  induction 1 as [x l Hx|x l _ IH]; destruct l as [|y l].
  - done.
  - rewrite join_cons by done. by destruct x.
  - by cbn in IH.
  - rewrite join_cons by done. by destruct x.
Qed.

Lemma signed_names_graphic l :
  Forall (λ name, signed_name_ok name = true) l → forallb (λ b, graphic b && negb (bool_decide (b = x2c))) (join [x3b] l) = true.
Proof.
  intros Hl. apply forallb_join; [done|]. eapply Forall_impl; [done|]. intros p [_ Hp]%andb_true_iff.
  eapply forallb_mono; [|done]. intros b. cbv beta. rewrite !orb_true_iff, bool_decide_eq_true.
  intros Hb. assert (b ≠ x2c) by (intros ->; naive_solver). rewrite (bool_decide_false (b = x2c)), andb_true_r by done.
  unfold graphic, is_ascii_lowercase, is_ascii_digit in *. rewrite !andb_true_iff, !Z.leb_le in *.
  destruct Hb as [[Hb|Hb]| ->]; [lia|lia|by vm_compute].
Qed.

Lemma hexdigit_graphic b : is_ascii_hexdigit b = true → graphic b && negb (bool_decide (b = x2c)) = true.
Proof.
  intros Hb. assert (b ≠ x2c) by (by intros ->). rewrite (bool_decide_false (b = x2c)), andb_true_r by done.
  unfold is_ascii_hexdigit, is_ascii_digit, graphic in *. rewrite !orb_true_iff, !andb_true_iff, !Z.leb_le in *. lia.
Qed.

Lemma component_graphic parts :
  Forall component_ok parts → forallb (λ b, graphic b && negb (bool_decide (b = x2c))) (join [x2f] parts) = true.
Proof.
  intros HF. apply forallb_join; [done|]. eapply Forall_impl; [done|]. intros p (_ & Hp & _ & Hc).
  apply forallb_forall. intros b Hin. rewrite forallb_forall in Hp. rewrite (Hp b Hin).
  rewrite bool_decide_false; [done|]. intros ->. by apply Hc, list_elem_of_In.
Qed.

Definition plain (l : str) : Prop :=
  l ≠ [] ∧ forallb (λ b, graphic b && negb (bool_decide (b = x2c))) l = true.

Lemma plain_field name value :
  (∃ b, head name = Some b ∧ graphic b = true) → plain value →
  trim (name ++ value) = name ++ value ∧ trim (x20 :: name ++ value) = name ++ value.
Proof.
  intros (b & Hb & Gb) [Hne Hv].
  destruct (last_graphic name value) as (c & Hc & Gc); [|done|].
  { eapply forallb_mono; [|done]. by intros x [? _]%andb_true_iff. }
  assert (head (name ++ value) = Some b) by (by destruct name).
  split; [by eapply trim_graphic|by eapply trim_space].
Qed.

Lemma plain_no_comma value : plain value → x2c ∉ value.
Proof. intros [_ Hv]. by eapply forallb_no. Qed.

Lemma literal_no_comma l : forallb (λ b, negb (bool_decide (b = x2c))) l = true → x2c ∉ l.
Proof. intros Hl. by eapply forallb_no. Qed.

Lemma authorization_fields credential signed signature :
  plain (join [x3b] signed) → plain signature → length signature = 64%nat →
  forallb is_ascii_hexdigit signature = true → to_ascii_lowercase <$> signature = signature →
  plain credential → parse_signed_headers (join [x3b] signed) = Ok signed →
  header_fields [bs "Credential=" ++ credential; x20 :: bs "SignedHeaders=" ++ join [x3b] signed;
                 x20 :: bs "Signature=" ++ signature] (mkFields None None None)
  = Ok (mkFields (Some credential) (Some signed) (Some signature)).
Proof.
  intros Hs Hsig Hlen Hhex Hlow Hc Hparse. cbn [header_fields].
  assert (header_field (bs "Credential=" ++ credential) (mkFields None None None)
          = Ok (mkFields (Some credential) None None)) as ->.
  { unfold header_field. cbn zeta.
    by rewrite (proj1 (plain_field (bs "Credential=") credential ltac:(by eexists) Hc)), strip_prefix_app. }
  cbn [mbind result_bind].
  assert (header_field (x20 :: bs "SignedHeaders=" ++ join [x3b] signed) (mkFields (Some credential) None None)
          = Ok (mkFields (Some credential) (Some signed) None)) as ->.
  { unfold header_field. cbn zeta. rewrite (proj2 (plain_field (bs "SignedHeaders=") _ ltac:(by eexists) Hs)).
    assert (strip_prefix (bs "Credential=") (bs "SignedHeaders=" ++ join [x3b] signed) = None) as -> by done.
    by rewrite strip_prefix_app, Hparse. }
  cbn [mbind result_bind]. unfold header_field. cbn zeta.
  rewrite (proj2 (plain_field (bs "Signature=") _ ltac:(by eexists) Hsig)).
  assert (strip_prefix (bs "Credential=") (bs "Signature=" ++ signature) = None) as -> by done.
  assert (strip_prefix (bs "SignedHeaders=") (bs "Signature=" ++ signature) = None) as -> by done.
  rewrite strip_prefix_app. unfold validate_signature. rewrite Hlen, Hhex, Hlow. done.
Qed.

(** The authorization header round-trips: the header that AWS clients write
    for a well-formed authorization is parsed back to exactly that
    authorization, with the time of the [x-amz-date] header. *)
Theorem authorization_roundtrip auth uri headers :
  header_authorization auth → query_parse uri = Ok None →
  sig_one_header headers "authorization" = Ok (Some (authorization_text auth)) →
  sig_one_header headers "x-amz-date" = Ok (Some (auth_timestamp auth)) →
  auth_parse uri headers = Ok (Some auth).
Proof.
  intros [Hcomp Hne Hnames Hsorted (Hlen & Hhex & Hlow) Hloc] Hquery Hauth Hdate.
  unfold auth_parse. rewrite Hauth, Hquery. cbn [mbind result_bind].
  assert (starts_with (bs "AWS4-") (authorization_text auth) = true) as -> by done.
  assert (plain (credential_text auth)) as Pc.
  { split; [|by apply component_graphic]. apply join_nonempty. left. apply Forall_cons in Hcomp as [[] _]. done. }
  assert (plain (join [x3b] (signed_headers auth))) as Ps.
  { split; [|by apply signed_names_graphic]. apply join_nonempty. destruct (signed_headers auth) as [|n l]; [done|].
    left. intros ->. by apply Forall_cons in Hnames as [? _]. }
  assert (plain (signature auth)) as Pg.
  { split; [by intros E; rewrite E in Hlen|]. eapply forallb_mono; [apply hexdigit_graphic|done]. }
  unfold from_authorization, authorization_text.
  change (bs "AWS4-HMAC-SHA256 Credential=") with (bs "AWS4-HMAC-SHA256 " ++ bs "Credential=").
  rewrite <- !app_assoc, strip_prefix_app. cbn [ok_or mbind result_bind].
  assert (split_on x2c (bs "Credential=" ++ credential_text auth ++ bs ", SignedHeaders=" ++
      join [x3b] (signed_headers auth) ++ bs ", Signature=" ++ signature auth)
    = [bs "Credential=" ++ credential_text auth; x20 :: bs "SignedHeaders=" ++ join [x3b] (signed_headers auth);
       x20 :: bs "Signature=" ++ signature auth]) as ->.
  { change (bs ", SignedHeaders=") with (x2c :: x20 :: bs "SignedHeaders=").
    change (bs ", Signature=") with (x2c :: x20 :: bs "Signature=").
    rewrite app_assoc. cbn [app]. rewrite split_on_cons.
    2: { apply not_elem_of_app. split; [by apply literal_no_comma|by apply plain_no_comma]. }
    f_equal. rewrite (app_assoc (bs "SignedHeaders=")), app_comm_cons, split_on_cons.
    2: { rewrite not_elem_of_cons, not_elem_of_app. split_and!; [done|by apply literal_no_comma|by apply plain_no_comma]. }
    f_equal. rewrite split_on_none; [done|].
    rewrite not_elem_of_cons, not_elem_of_app. split_and!; [done|by apply literal_no_comma|by apply plain_no_comma]. }
  rewrite authorization_fields by (done || by apply parse_signed_headers_join). cbn [mbind result_bind length Nat.eqb negb ok_or f_credential].
  rewrite parse_credential_text by done. cbn [mbind result_bind]. rewrite Hdate. cbn.
  rewrite <- Hloc. by destruct auth.
Qed.

(** ** Parameters a presigned signature does not cover *)

(** A parameter named [X-Amz-] that is none of the six is neither read nor signed:
    appending one changes neither the parsed authentication nor the target. *)
Lemma extra_amz_parameter_unsigned scheme path q full full' :
  let extra := bs "X-Amz-Extra=1" in
  let u := mkUri scheme path (Some q) full in
  let u' := mkUri scheme path (Some (q ++ x26 :: extra)) full' in
  query_parse u' = query_parse u ∧ query_signing_target u' = query_signing_target u.
Proof.
  intros extra u u'. unfold query_parse, query_signing_target. cbn -[extra]. rewrite split_on_app.
  assert (split_on x26 extra = [extra]) as -> by done. split.
  - assert (∀ pairs slots, query_slots (pairs ++ [extra]) slots = query_slots pairs slots) as ->; [|done].
    intros pairs. induction pairs as [|p pairs IH]; intros slots; cbn [app query_slots]; [done|].
    destruct (split_pair p) as [n v]. destruct (percent_decode n) as [n'|]; [|done].
    destruct (percent_decode v) as [v'|]; [|done]. cbn. repeat (case_match; [|try done]); try apply IH; done.
  - rewrite List.filter_app. assert (List.filter retained [extra] = []) as -> by done. by rewrite app_nil_r.
Qed.

(** ** A concrete request *)

(** A signer that folds what it is given into 32 bytes, and keys made of the
    secret and the day. *)
#[local] Instance toy_sigv4 : AwsSigV4 := {|
  sign r := Some (plain_hex (to_be_bytes 32 (poly 32
    (sr_secret r ++ sr_method r ++ sr_target r ++ concat ((λ p, p.1 ++ p.2) <$> sr_headers r)
     ++ match sr_body r with Precomputed h => h | UnsignedPayload => bs "UNSIGNED-PAYLOAD" end
     ++ sr_access_key r ++ sr_region r ++ sr_service r ++ to_be_bytes 16 (sr_time r)))));
  generate_signing_key secret t region service := secret ++ to_be_bytes 8 (t / from_secs 86400) ++ region ++ service;
|}.

#[local] Instance toy_laws : AwsSigV4Laws.
Proof. split. intros secret t t' region service E. cbn. by rewrite E. Qed.

#[local] Existing Instance plain_crypto.

Definition toy_secret : str := bs "open sesame".
Definition toy_uri : Uri := mkUri (Some (bs "https")) (bs "/bucket/key") None (Some (bs "/bucket/key")).
Definition toy_policy : SigV4Policy := policy_new (bs "us-east-1") false.
Definition toy_now : Z := from_secs 1767225600.

(** The authorization with a given signature, and the headers that carry it. *)
Definition toy_unsigned (sig : str) : RequestAuthorization :=
  mkAuth (bs "AKIDEXAMPLE") (bs "20260101") (bs "us-east-1") (bs "s3") (bs "aws4_request")
    [bs "host"; bs "x-amz-content-sha256"; bs "x-amz-date"] sig (bs "20260101T000000Z") InHeader.

Definition toy_base : Headers :=
  [(bs "host", bs "gateway.example"); (bs "x-amz-date", bs "20260101T000000Z");
   (bs "x-amz-content-sha256", bs "UNSIGNED-PAYLOAD"); (bs "user-agent", bs "cli  1.0")].

Definition toy_signature : str :=
  Eval vm_compute in
    default [] (r ← request_to_sign (toy_unsigned []) (bs "GET") toy_uri toy_base toy_secret; sign r).
Definition toy_auth : RequestAuthorization := toy_unsigned toy_signature.
Definition toy_headers : Headers := (bs "authorization", authorization_text toy_auth) :: toy_base.

Definition toy_verifier : BodyVerifier := mkBody (Fixed None None) None 0.

Lemma toy_authorized :
  (authorize toy_auth (bs "GET") toy_uri toy_headers toy_secret toy_policy toy_now 0 cache_standard).1
  = Ok toy_verifier.
Proof. vm_cast_no_check (@eq_refl (result SigV4Error BodyVerifier) (Ok toy_verifier)). Qed.

(** The same request with another [user-agent], which is not signed. *)
Definition toy_headers' : Headers := (bs "user-agent", bs "other") :: toy_headers.

Lemma toy_authorized' :
  (authorize toy_auth (bs "GET") toy_uri toy_headers' toy_secret toy_policy toy_now 0 cache_standard).1
  = Ok toy_verifier.
Proof. vm_cast_no_check (@eq_refl (result SigV4Error BodyVerifier) (Ok toy_verifier)). Qed.

Lemma authorize_exact_witness :
  authentic toy_auth (bs "GET") toy_uri toy_headers toy_secret toy_policy toy_now toy_verifier.
Proof.
  apply (authorize_exact [toy_secret] cache_standard toy_auth (bs "GET") toy_uri toy_headers toy_secret
    toy_policy toy_now 0 toy_verifier).
  - apply reach_new.
  - intros s s' Hs%list_elem_of_singleton Hs'%list_elem_of_singleton _. congruence.
  - by apply list_elem_of_singleton.
  - by vm_compute.
  - exact toy_authorized.
Defined.

Lemma signature_covers_request_witness :
  get_all toy_headers (bs "x-amz-date") = get_all toy_headers' (bs "x-amz-date").
Proof.
  refine (proj1 (proj2 (proj2 (proj2 (proj2 (signature_covers_request
    toy_auth (bs "GET") toy_uri toy_headers toy_secret toy_policy toy_now 0 cache_standard toy_verifier
    toy_auth (bs "GET") toy_uri toy_headers' toy_secret toy_policy toy_now 0
    cache_standard toy_verifier toy_authorized toy_authorized' _))))) (bs "x-amz-date") _); by vm_compute.
Defined.

Definition toy_calls : list DeriveCall :=
  [mkDerive toy_auth toy_secret toy_now 0; mkDerive toy_auth (bs "other") toy_now 1;
   mkDerive toy_auth toy_secret toy_now 2].

Lemma signing_key_cache_transparent_witness :
  (derive_all toy_calls (cache_new 2 (from_secs 900))).1 = uncached <$> toy_calls
  ∧ length (cache_entries (derive_all toy_calls (cache_new 2 (from_secs 900))).2) = 2%nat.
Proof.
  split; [|by vm_compute].
  refine (proj1 (signing_key_cache_transparent 2 (from_secs 900) toy_calls _ _)).
  - assert (digest c_sha256 toy_secret ≠ digest c_sha256 (bs "other")) as Hd
      by (rewrite <- (bool_decide_eq_false (digest c_sha256 toy_secret = digest c_sha256 (bs "other")));
          vm_compute; reflexivity).
    assert (∀ s, s ∈ dc_secret <$> toy_calls → s = toy_secret ∨ s = bs "other") as Hin.
    { intros s Hs. cbn in Hs. rewrite !elem_of_cons, elem_of_nil in Hs. tauto. }
    intros s s' [->| ->]%Hin [->| ->]%Hin E; [reflexivity|exfalso; exact (Hd E)
      |exfalso; exact (Hd (eq_sym E))|reflexivity].
  - repeat constructor; by vm_compute.
Defined.

Lemma authorization_roundtrip_witness :
  auth_parse toy_uri toy_headers = Ok (Some toy_auth).
Proof.
  apply (authorization_roundtrip toy_auth toy_uri toy_headers); [|by vm_compute..].
  split; [|done| |repeat constructor|by vm_compute|done].
  - assert (∀ l, bool_decide (l = []) = false → forallb graphic l = true →
      forallb (λ b, negb (bool_decide (b = x2f))) l = true → forallb (λ b, negb (bool_decide (b = x2c))) l = true →
      component_ok l) as Hok.
    { intros l H1%bool_decide_eq_false H2 H3 H4. split_and!; [done|done|by apply (forallb_no _ _ _ H3)|by apply (forallb_no _ _ _ H4)]. }
    repeat constructor; by apply Hok.
  - repeat constructor.
Defined.
