(* ===== verification/Managed.v ===== *)
(** * Managed storage: the data of the authority repository

    The data types and helper functions of [crates/gateway/src/managed.rs]:
    logical keys, object authorities, repairs, logical operations and their
    evidence, workspace usage, list cursors, physical writes and versions, and
    namespace purges.  The placement of objects on backends is in [Placement],
    the repository itself in [ManagedRepo]. *)

From S2P Require Import Prelude Operation Integrity.

#[local] Open Scope Z_scope.
Set Default Goal Selector "!".

(** ** Decidable equality of JSON values *)

(** Induction over JSON values through the nested lists. *)
Section json_ind.
  Variable P : Json → Prop.
  Hypothesis (Pnull : P JNull) (Pbool : ∀ b, P (JBool b)) (Pnum : ∀ z, P (JNum z))
    (Pstr : ∀ s, P (JStr s)) (Parr : ∀ l, Forall P l → P (JArr l))
    (Pobj : ∀ l, Forall (λ kv, P kv.2) l → P (JObj l)).

Fixpoint json_ind' (j : Json) : P j :=
    match j with
    | JNull => Pnull
    | JBool b => Pbool b
    | JNum z => Pnum z
    | JStr s => Pstr s
    | JArr l => Parr l ((fix go l : Forall P l :=
        match l with
        | [] => Forall_nil_2 _
        | x :: l => Forall_cons_2 _ _ _ (json_ind' x) (go l)
        end) l)
    | JObj l => Pobj l ((fix go l : Forall (λ kv, P kv.2) l :=
        match l with
        | [] => Forall_nil_2 _
        | kv :: l => Forall_cons_2 _ _ _ (json_ind' kv.2) (go l)
        end) l)
    end.
End json_ind.

Lemma json_eqb_eq x y : json_eqb x y = true ↔ x = y.
Proof.
  revert y. induction x as [|b|z|s|l IH|l IH] using json_ind'; intros [|b'|z'|s'|l'|l']; simpl;
    try (split; [discriminate|congruence]); [done|..].
  - rewrite Bool.eqb_true_iff. naive_solver.
  - rewrite Z.eqb_eq. naive_solver.
  - rewrite String.eqb_eq. naive_solver.
  - assert (∀ l', (fix go (a b : list Json) : bool :=
      match a, b with [], [] => true | x :: a, y :: b => json_eqb x y && go a b | _, _ => false end)
      l l' = true ↔ l = l') as ->; [|naive_solver].
    clear l'. induction IH as [|x l Hx _ IHl]; intros [|y l']; try (split; congruence).
    rewrite andb_true_iff, Hx, IHl. naive_solver.
  - assert (∀ l', (fix go (a b : list (string * Json)) : bool :=
      match a, b with
      | [], [] => true
      | (k, x) :: a, (l, y) :: b => String.eqb k l && json_eqb x y && go a b
      | _, _ => false end) l l' = true ↔ l = l') as ->; [|naive_solver].
    clear l'. induction IH as [|[k x] l Hx _ IHl]; intros [|[k' y] l']; try (split; congruence).
    rewrite !andb_true_iff, String.eqb_eq, IHl. simpl in Hx. rewrite Hx. naive_solver.
Qed.

#[global] Instance Json_eq_dec : EqDecision Json.
Proof.
  refine (λ x y, match json_eqb x y as b return json_eqb x y = b → _ with
                 | true => λ H, left _ | false => λ H, right _ end eq_refl).
  - abstract by apply json_eqb_eq.
  - abstract (intros E%json_eqb_eq; congruence).
Defined.

(** ** Crates the module calls *)

(** The [Display] of a UUID and [serde_json::to_vec] of a value. *)
Class ManagedText := {
  uuid_display : Uuid → string;
  json_to_vec : Json → result string (list byte);
}.

(** ** Constants *)

Definition PLACEMENT_VERSION_V1 : Z := 1.
Definition PHYSICAL_WRITE_LEASE_MS : Z := 2 * 60 * 60 * 1000.
Definition MAX_REPAIR_ATTEMPTS : Z := 8.
Definition REPAIR_BACKOFF_BASE_MS : Z := 30000.
Definition REPAIR_BACKOFF_MAX_MS : Z := 4 * 60 * 60 * 1000.
Definition MANAGED_VISIBLE_LIMIT_BYTES : Z := 1024 * 1024 * 1024.
Definition MANAGED_REPLACEMENT_HEADROOM_BYTES : Z := 128 * 1024 * 1024.
Definition MANAGED_LIST_CURSOR_TTL_MS : Z := 15 * 60 * 1000.
Definition MANAGED_LIST_CURSOR_WORKSPACE_LIMIT : Z := 100.
Definition MANAGED_LIST_CURSOR_GLOBAL_LIMIT : Z := 10000.
Definition MANAGED_LIST_CURSOR_RESPONSE_MAX_BYTES : Z := 64 * 1024.
Definition MANAGED_LIST_CURSOR_WORKSPACE_MAX_BYTES : Z := 1024 * 1024.
Definition MANAGED_LIST_CURSOR_GLOBAL_MAX_BYTES : Z := 64 * 1024 * 1024.
Definition MANAGED_AUTHORITY_LIST_MAX_KEYS : Z := 1000.

(** [1i64 << attempts.min(10)] stays below [2^10], so the shift does not overflow. *)
Definition repair_backoff_ms (attempts : Z) : Z :=
  Z.min (i64_clamp (REPAIR_BACKOFF_BASE_MS * Z.shiftl 1 (Z.min attempts 10))) REPAIR_BACKOFF_MAX_MS.

(** ** Enumerations *)

Inductive ManagedStreamingMode : Type := ModeOff | ModeObserve | ModeEnforce.
#[global] Instance ManagedStreamingMode_eq_dec : EqDecision ManagedStreamingMode.
Proof. solve_decision. Defined.

Inductive ManagedMutationKind : Type := MPut | MDelete.
#[global] Instance ManagedMutationKind_eq_dec : EqDecision ManagedMutationKind.
Proof. solve_decision. Defined.

Inductive ManagedLogicalOperationState : Type :=
| LIntent
| LOpen
| LCompleting
| LCommitUnknown
| LCommitted
| LProvenAborted.
#[global] Instance ManagedLogicalOperationState_eq_dec : EqDecision ManagedLogicalOperationState.
Proof. solve_decision. Defined.

Inductive ManagedError : Type :=
| InvalidMode (value : string)
| MutationDisabled (mode : ManagedStreamingMode)
| OffAfterAuthority
| Conflict
| Corrupt (message : string)
| Persistence (message : string)
| NamespaceFenced
| InvalidTransition (from to : ManagedLogicalOperationState)
| MutationInProgress
| QuotaExceeded
| CursorExpired
| CursorQueryMismatch
| CursorLimitExceeded.
#[global] Instance ManagedError_eq_dec : EqDecision ManagedError.
Proof. solve_decision. Defined.

Definition from_value (value : option string) : result ManagedError ManagedStreamingMode :=
  match value with
  | None => Ok ModeOff
  | Some v =>
    if decide (v = "off") then Ok ModeOff
    else if decide (v = "observe") then Ok ModeObserve
    else if decide (v = "enforce") then Ok ModeEnforce
    else Err (InvalidMode v)
  end.

Definition allows_mutations (m : ManagedStreamingMode) : bool := bool_decide (m = ModeEnforce).

Inductive CopyStatus : Type := Ready | RepairPending | Absent.
#[global] Instance CopyStatus_eq_dec : EqDecision CopyStatus.
Proof. solve_decision. Defined.

Inductive RepairKind : Type := KReplica | KPlacement | KDeleteGeneration.
#[global] Instance RepairKind_eq_dec : EqDecision RepairKind.
Proof. solve_decision. Defined.

Inductive RepairTargetRole : Type := RPrimary | RReplica | RCleanup.
#[global] Instance RepairTargetRole_eq_dec : EqDecision RepairTargetRole.
Proof. solve_decision. Defined.

Inductive ManagedSettlementState : Type := SPending | SSettled | SReleased.
#[global] Instance ManagedSettlementState_eq_dec : EqDecision ManagedSettlementState.
Proof. solve_decision. Defined.

Inductive ManagedListVersion : Type := V1 | V2.
#[global] Instance ManagedListVersion_eq_dec : EqDecision ManagedListVersion.
Proof. solve_decision. Defined.

Inductive ManagedListCursorState : Type := CursorActive | CursorUsed.
#[global] Instance ManagedListCursorState_eq_dec : EqDecision ManagedListCursorState.
Proof. solve_decision. Defined.

Inductive BackendVersioningMode : Type := Unversioned | Enabled | Suspended | Unknown.
#[global] Instance BackendVersioningMode_eq_dec : EqDecision BackendVersioningMode.
Proof. solve_decision. Defined.

Inductive BackendVersioningCapability : Type := CapUnsupported | CapOptional | CapRequired.
#[global] Instance BackendVersioningCapability_eq_dec : EqDecision BackendVersioningCapability.
Proof. solve_decision. Defined.

(** [control::RequestKind] and [control::UsageRoute]. *)
Inductive RequestKind : Type := Write | Read.
#[global] Instance RequestKind_eq_dec : EqDecision RequestKind.
Proof. solve_decision. Defined.

Inductive UsageRoute : Type :=
| PutObject
| GetObject
| HeadObject
| ListObjects
| DeleteObject
| AbortMultipartUpload
| CompleteMultipartUpload.
#[global] Instance UsageRoute_eq_dec : EqDecision UsageRoute.
Proof. solve_decision. Defined.

(** ** Their names in the database: [as_str] and [parse]

    The [parse] of an enumeration looks its argument up in a table and refuses
    any other text with the same kind of message. *)

Class Named (A : Type) := { name_of : A → string; parse_name : string → result ManagedError A }.

(** The common [match value { ... }] of the [parse] functions. *)
Fixpoint parse_table {A} (what value : string) (table : list (string * A)) : result ManagedError A :=
  match table with
  | [] => Err (Corrupt ("unknown " +:+ what +:+ " " +:+ debug_str value))
  | (name, a) :: table => if decide (value = name) then Ok a else parse_table what value table
  end.

Definition copy_status_str (s : CopyStatus) : string :=
  match s with Ready => "READY" | RepairPending => "REPAIR_PENDING" | Absent => "ABSENT" end.
Definition copy_status_parse (value : string) : result ManagedError CopyStatus :=
  parse_table "managed copy status" value
    [("READY", Ready); ("REPAIR_PENDING", RepairPending); ("ABSENT", Absent)].
#[global] Instance CopyStatus_named : Named CopyStatus :=
  {| name_of := copy_status_str; parse_name := copy_status_parse |}.

Definition repair_kind_str (k : RepairKind) : string :=
  match k with
  | KReplica => "REPLICA" | KPlacement => "PLACEMENT" | KDeleteGeneration => "DELETE_GENERATION"
  end.
Definition repair_kind_parse (value : string) : result ManagedError RepairKind :=
  parse_table "managed repair kind" value
    [("REPLICA", KReplica); ("PLACEMENT", KPlacement); ("DELETE_GENERATION", KDeleteGeneration)].
#[global] Instance RepairKind_named : Named RepairKind :=
  {| name_of := repair_kind_str; parse_name := repair_kind_parse |}.

Definition target_role_str (r : RepairTargetRole) : string :=
  match r with RPrimary => "PRIMARY" | RReplica => "REPLICA" | RCleanup => "CLEANUP" end.
Definition target_role_parse (value : string) : result ManagedError RepairTargetRole :=
  parse_table "managed repair target role" value
    [("PRIMARY", RPrimary); ("REPLICA", RReplica); ("CLEANUP", RCleanup)].
#[global] Instance RepairTargetRole_named : Named RepairTargetRole :=
  {| name_of := target_role_str; parse_name := target_role_parse |}.

Definition mutation_kind_str (k : ManagedMutationKind) : string :=
  match k with MPut => "PUT" | MDelete => "DELETE" end.
Definition mutation_kind_parse (value : string) : result ManagedError ManagedMutationKind :=
  parse_table "managed mutation kind" value [("PUT", MPut); ("DELETE", MDelete)].
#[global] Instance ManagedMutationKind_named : Named ManagedMutationKind :=
  {| name_of := mutation_kind_str; parse_name := mutation_kind_parse |}.

Definition logical_state_str (s : ManagedLogicalOperationState) : string :=
  match s with
  | LIntent => "INTENT" | LOpen => "OPEN" | LCompleting => "COMPLETING"
  | LCommitUnknown => "COMMIT_UNKNOWN" | LCommitted => "COMMITTED"
  | LProvenAborted => "PROVEN_ABORTED"
  end.
Definition logical_state_parse (value : string) : result ManagedError ManagedLogicalOperationState :=
  parse_table "managed logical operation state" value
    [("INTENT", LIntent); ("OPEN", LOpen); ("COMPLETING", LCompleting);
     ("COMMIT_UNKNOWN", LCommitUnknown); ("COMMITTED", LCommitted);
     ("PROVEN_ABORTED", LProvenAborted)].
#[global] Instance ManagedLogicalOperationState_named : Named ManagedLogicalOperationState :=
  {| name_of := logical_state_str; parse_name := logical_state_parse |}.

Definition settlement_str (s : ManagedSettlementState) : string :=
  match s with SPending => "PENDING" | SSettled => "SETTLED" | SReleased => "RELEASED" end.
Definition settlement_parse (value : string) : result ManagedError ManagedSettlementState :=
  parse_table "managed settlement state" value
    [("PENDING", SPending); ("SETTLED", SSettled); ("RELEASED", SReleased)].
#[global] Instance ManagedSettlementState_named : Named ManagedSettlementState :=
  {| name_of := settlement_str; parse_name := settlement_parse |}.

Definition list_version_str (v : ManagedListVersion) : string :=
  match v with V1 => "V1" | V2 => "V2" end.
Definition list_version_parse (value : string) : result ManagedError ManagedListVersion :=
  parse_table "managed list version" value [("V1", V1); ("V2", V2)].
#[global] Instance ManagedListVersion_named : Named ManagedListVersion :=
  {| name_of := list_version_str; parse_name := list_version_parse |}.

Definition capability_str (c : BackendVersioningCapability) : string :=
  match c with
  | CapUnsupported => "UNSUPPORTED" | CapOptional => "OPTIONAL" | CapRequired => "REQUIRED"
  end.
Definition capability_parse (value : string) : result ManagedError BackendVersioningCapability :=
  parse_table "backend versioning capability" value
    [("UNSUPPORTED", CapUnsupported); ("OPTIONAL", CapOptional); ("REQUIRED", CapRequired)].
#[global] Instance BackendVersioningCapability_named : Named BackendVersioningCapability :=
  {| name_of := capability_str; parse_name := capability_parse |}.

Definition versioning_mode_str (m : BackendVersioningMode) : string :=
  match m with
  | Unversioned => "UNVERSIONED" | Enabled => "ENABLED"
  | Suspended => "SUSPENDED" | Unknown => "UNKNOWN"
  end.
Definition versioning_mode_parse (value : string) : result ManagedError BackendVersioningMode :=
  parse_table "backend versioning mode" value
    [("UNVERSIONED", Unversioned); ("ENABLED", Enabled);
     ("SUSPENDED", Suspended); ("UNKNOWN", Unknown)].
#[global] Instance BackendVersioningMode_named : Named BackendVersioningMode :=
  {| name_of := versioning_mode_str; parse_name := versioning_mode_parse |}.

(** [control::RequestKind::as_str] and [UsageRoute::as_str] with the parsers of [managed.rs]. *)
Definition request_kind_str (k : RequestKind) : string :=
  match k with Write => "write" | Read => "read" end.
Definition request_kind_from_str (value : string) : result ManagedError RequestKind :=
  parse_table "managed request kind" value [("write", Write); ("read", Read)].
#[global] Instance RequestKind_named : Named RequestKind :=
  {| name_of := request_kind_str; parse_name := request_kind_from_str |}.

Definition usage_route_str (r : UsageRoute) : string :=
  match r with
  | PutObject => "PutObject" | GetObject => "GetObject" | HeadObject => "HeadObject"
  | ListObjects => "ListObjects" | DeleteObject => "DeleteObject"
  | AbortMultipartUpload => "AbortMultipartUpload"
  | CompleteMultipartUpload => "CompleteMultipartUpload"
  end.
Definition usage_route_from_str (value : string) : result ManagedError UsageRoute :=
  parse_table "managed usage route" value
    [("PutObject", PutObject); ("GetObject", GetObject); ("HeadObject", HeadObject);
     ("ListObjects", ListObjects); ("DeleteObject", DeleteObject);
     ("AbortMultipartUpload", AbortMultipartUpload);
     ("CompleteMultipartUpload", CompleteMultipartUpload)].
#[global] Instance UsageRoute_named : Named UsageRoute :=
  {| name_of := usage_route_str; parse_name := usage_route_from_str |}.

Definition terminal (s : ManagedLogicalOperationState) : bool :=
  match s with LCommitted | LProvenAborted => true | _ => false end.

Definition valid_logical_transition (from to : ManagedLogicalOperationState) : bool :=
  match from, to with
  | LOpen, LCompleting | LOpen, LCommitUnknown
  | LCompleting, LCommitUnknown | LCommitUnknown, LCompleting => true
  | _, _ => false
  end.

(** ** Records

    A field [f] of a record is the projection [<prefix>_f]; [set_<prefix>_f v r]
    assigns it. *)

Record LogicalObjectKey := mkLogical {
  lk_tenant_id : string;
  lk_bucket : string;
  lk_key : string;
}.
#[global] Instance LogicalObjectKey_eq_dec : EqDecision LogicalObjectKey.
Proof. solve_decision. Defined.

Record Placement := mkPlacement {
  pl_version : Z;
  pl_primary_backend_id : string;
  pl_replica_backend_id : option string;
}.
#[global] Instance Placement_eq_dec : EqDecision Placement.
Proof. solve_decision. Defined.

Record ManagedPlacementBackendFact := mkFact {
  bf_backend_id : string;
  bf_placement_weight : Z;
  bf_placement_capacity_units : Z;
}.
#[global] Instance ManagedPlacementBackendFact_eq_dec : EqDecision ManagedPlacementBackendFact.
Proof. solve_decision. Defined.

Record ManagedPlacementPolicy := mkPolicy {
  pp_version : Z;
  pp_fingerprint : string;
  pp_backend_facts : list ManagedPlacementBackendFact;
  pp_activated_at_ms : Z;
}.
#[global] Instance ManagedPlacementPolicy_eq_dec : EqDecision ManagedPlacementPolicy.
Proof. solve_decision. Defined.

Record ObjectAuthority := mkAuthority {
  oa_logical : LogicalObjectKey;
  oa_generation : Uuid;
  oa_digest : string;
  oa_size : Z;
  oa_metadata : gmap string string;
  oa_placement_version : Z;
  oa_primary_backend_id : string;
  oa_primary_version_id : option string;
  oa_replica_backend_id : option string;
  oa_primary_status : CopyStatus;
  oa_replica_status : CopyStatus;
  oa_tombstone : bool;
  oa_cas_version : Z;
  oa_created_at_ms : Z;
  oa_updated_at_ms : Z;
}.
#[global] Instance ObjectAuthority_eq_dec : EqDecision ObjectAuthority.
Proof. solve_decision. Defined.
Definition set_oa_placement_version v (r : ObjectAuthority) : ObjectAuthority :=
  mkAuthority (oa_logical r) (oa_generation r) (oa_digest r) (oa_size r) (oa_metadata r) v
    (oa_primary_backend_id r) (oa_primary_version_id r) (oa_replica_backend_id r)
    (oa_primary_status r) (oa_replica_status r) (oa_tombstone r) (oa_cas_version r)
    (oa_created_at_ms r) (oa_updated_at_ms r).
Definition set_oa_primary_backend_id v (r : ObjectAuthority) : ObjectAuthority :=
  mkAuthority (oa_logical r) (oa_generation r) (oa_digest r) (oa_size r) (oa_metadata r)
    (oa_placement_version r) v (oa_primary_version_id r) (oa_replica_backend_id r)
    (oa_primary_status r) (oa_replica_status r) (oa_tombstone r) (oa_cas_version r)
    (oa_created_at_ms r) (oa_updated_at_ms r).
Definition set_oa_replica_backend_id v (r : ObjectAuthority) : ObjectAuthority :=
  mkAuthority (oa_logical r) (oa_generation r) (oa_digest r) (oa_size r) (oa_metadata r)
    (oa_placement_version r) (oa_primary_backend_id r) (oa_primary_version_id r) v
    (oa_primary_status r) (oa_replica_status r) (oa_tombstone r) (oa_cas_version r)
    (oa_created_at_ms r) (oa_updated_at_ms r).
Definition set_oa_primary_status v (r : ObjectAuthority) : ObjectAuthority :=
  mkAuthority (oa_logical r) (oa_generation r) (oa_digest r) (oa_size r) (oa_metadata r)
    (oa_placement_version r) (oa_primary_backend_id r) (oa_primary_version_id r)
    (oa_replica_backend_id r) v (oa_replica_status r) (oa_tombstone r) (oa_cas_version r)
    (oa_created_at_ms r) (oa_updated_at_ms r).
Definition set_oa_replica_status v (r : ObjectAuthority) : ObjectAuthority :=
  mkAuthority (oa_logical r) (oa_generation r) (oa_digest r) (oa_size r) (oa_metadata r)
    (oa_placement_version r) (oa_primary_backend_id r) (oa_primary_version_id r)
    (oa_replica_backend_id r) (oa_primary_status r) v (oa_tombstone r) (oa_cas_version r)
    (oa_created_at_ms r) (oa_updated_at_ms r).
Definition set_oa_cas_version v (r : ObjectAuthority) : ObjectAuthority :=
  mkAuthority (oa_logical r) (oa_generation r) (oa_digest r) (oa_size r) (oa_metadata r)
    (oa_placement_version r) (oa_primary_backend_id r) (oa_primary_version_id r)
    (oa_replica_backend_id r) (oa_primary_status r) (oa_replica_status r) (oa_tombstone r) v
    (oa_created_at_ms r) (oa_updated_at_ms r).
Definition set_oa_created_at_ms v (r : ObjectAuthority) : ObjectAuthority :=
  mkAuthority (oa_logical r) (oa_generation r) (oa_digest r) (oa_size r) (oa_metadata r)
    (oa_placement_version r) (oa_primary_backend_id r) (oa_primary_version_id r)
    (oa_replica_backend_id r) (oa_primary_status r) (oa_replica_status r) (oa_tombstone r)
    (oa_cas_version r) v (oa_updated_at_ms r).
Definition set_oa_updated_at_ms v (r : ObjectAuthority) : ObjectAuthority :=
  mkAuthority (oa_logical r) (oa_generation r) (oa_digest r) (oa_size r) (oa_metadata r)
    (oa_placement_version r) (oa_primary_backend_id r) (oa_primary_version_id r)
    (oa_replica_backend_id r) (oa_primary_status r) (oa_replica_status r) (oa_tombstone r)
    (oa_cas_version r) (oa_created_at_ms r) v.

Record RepairRecord := mkRepair {
  rr_id : Uuid;
  rr_repair_id : Uuid;
  rr_kind : RepairKind;
  rr_logical : LogicalObjectKey;
  rr_namespace_epoch : Z;
  rr_authority_cas_version : Z;
  rr_generation : Uuid;
  rr_digest : string;
  rr_size : Z;
  rr_metadata : gmap string string;
  rr_physical_key : string;
  rr_source_backend_id : option string;
  rr_target_backend_id : string;
  rr_target_role : RepairTargetRole;
  rr_placement_version : Z;
  rr_placement_primary_backend_id : option string;
  rr_placement_replica_backend_id : option string;
  rr_attempts : Z;
  rr_lease_owner : option string;
  rr_lease_token : option Uuid;
  rr_lease_expires_at_ms : option Z;
  rr_not_before_ms : Z;
  rr_created_at_ms : Z;
  rr_updated_at_ms : Z;
}.
#[global] Instance RepairRecord_eq_dec : EqDecision RepairRecord.
Proof. solve_decision. Defined.
Definition set_rr_id v (r : RepairRecord) : RepairRecord :=
  mkRepair v (rr_repair_id r) (rr_kind r) (rr_logical r) (rr_namespace_epoch r)
    (rr_authority_cas_version r) (rr_generation r) (rr_digest r) (rr_size r) (rr_metadata r)
    (rr_physical_key r) (rr_source_backend_id r) (rr_target_backend_id r) (rr_target_role r)
    (rr_placement_version r) (rr_placement_primary_backend_id r) (rr_placement_replica_backend_id
    r) (rr_attempts r) (rr_lease_owner r) (rr_lease_token r) (rr_lease_expires_at_ms r)
    (rr_not_before_ms r) (rr_created_at_ms r) (rr_updated_at_ms r).
Definition set_rr_repair_id v (r : RepairRecord) : RepairRecord :=
  mkRepair (rr_id r) v (rr_kind r) (rr_logical r) (rr_namespace_epoch r) (rr_authority_cas_version
    r) (rr_generation r) (rr_digest r) (rr_size r) (rr_metadata r) (rr_physical_key r)
    (rr_source_backend_id r) (rr_target_backend_id r) (rr_target_role r) (rr_placement_version r)
    (rr_placement_primary_backend_id r) (rr_placement_replica_backend_id r) (rr_attempts r)
    (rr_lease_owner r) (rr_lease_token r) (rr_lease_expires_at_ms r) (rr_not_before_ms r)
    (rr_created_at_ms r) (rr_updated_at_ms r).
Definition set_rr_namespace_epoch v (r : RepairRecord) : RepairRecord :=
  mkRepair (rr_id r) (rr_repair_id r) (rr_kind r) (rr_logical r) v (rr_authority_cas_version r)
    (rr_generation r) (rr_digest r) (rr_size r) (rr_metadata r) (rr_physical_key r)
    (rr_source_backend_id r) (rr_target_backend_id r) (rr_target_role r) (rr_placement_version r)
    (rr_placement_primary_backend_id r) (rr_placement_replica_backend_id r) (rr_attempts r)
    (rr_lease_owner r) (rr_lease_token r) (rr_lease_expires_at_ms r) (rr_not_before_ms r)
    (rr_created_at_ms r) (rr_updated_at_ms r).
Definition set_rr_placement_version v (r : RepairRecord) : RepairRecord :=
  mkRepair (rr_id r) (rr_repair_id r) (rr_kind r) (rr_logical r) (rr_namespace_epoch r)
    (rr_authority_cas_version r) (rr_generation r) (rr_digest r) (rr_size r) (rr_metadata r)
    (rr_physical_key r) (rr_source_backend_id r) (rr_target_backend_id r) (rr_target_role r) v
    (rr_placement_primary_backend_id r) (rr_placement_replica_backend_id r) (rr_attempts r)
    (rr_lease_owner r) (rr_lease_token r) (rr_lease_expires_at_ms r) (rr_not_before_ms r)
    (rr_created_at_ms r) (rr_updated_at_ms r).
Definition set_rr_placement_primary_backend_id v (r : RepairRecord) : RepairRecord :=
  mkRepair (rr_id r) (rr_repair_id r) (rr_kind r) (rr_logical r) (rr_namespace_epoch r)
    (rr_authority_cas_version r) (rr_generation r) (rr_digest r) (rr_size r) (rr_metadata r)
    (rr_physical_key r) (rr_source_backend_id r) (rr_target_backend_id r) (rr_target_role r)
    (rr_placement_version r) v (rr_placement_replica_backend_id r) (rr_attempts r) (rr_lease_owner
    r) (rr_lease_token r) (rr_lease_expires_at_ms r) (rr_not_before_ms r) (rr_created_at_ms r)
    (rr_updated_at_ms r).
Definition set_rr_placement_replica_backend_id v (r : RepairRecord) : RepairRecord :=
  mkRepair (rr_id r) (rr_repair_id r) (rr_kind r) (rr_logical r) (rr_namespace_epoch r)
    (rr_authority_cas_version r) (rr_generation r) (rr_digest r) (rr_size r) (rr_metadata r)
    (rr_physical_key r) (rr_source_backend_id r) (rr_target_backend_id r) (rr_target_role r)
    (rr_placement_version r) (rr_placement_primary_backend_id r) v (rr_attempts r) (rr_lease_owner
    r) (rr_lease_token r) (rr_lease_expires_at_ms r) (rr_not_before_ms r) (rr_created_at_ms r)
    (rr_updated_at_ms r).
Definition set_rr_attempts v (r : RepairRecord) : RepairRecord :=
  mkRepair (rr_id r) (rr_repair_id r) (rr_kind r) (rr_logical r) (rr_namespace_epoch r)
    (rr_authority_cas_version r) (rr_generation r) (rr_digest r) (rr_size r) (rr_metadata r)
    (rr_physical_key r) (rr_source_backend_id r) (rr_target_backend_id r) (rr_target_role r)
    (rr_placement_version r) (rr_placement_primary_backend_id r) (rr_placement_replica_backend_id
    r) v (rr_lease_owner r) (rr_lease_token r) (rr_lease_expires_at_ms r) (rr_not_before_ms r)
    (rr_created_at_ms r) (rr_updated_at_ms r).
Definition set_rr_lease_owner v (r : RepairRecord) : RepairRecord :=
  mkRepair (rr_id r) (rr_repair_id r) (rr_kind r) (rr_logical r) (rr_namespace_epoch r)
    (rr_authority_cas_version r) (rr_generation r) (rr_digest r) (rr_size r) (rr_metadata r)
    (rr_physical_key r) (rr_source_backend_id r) (rr_target_backend_id r) (rr_target_role r)
    (rr_placement_version r) (rr_placement_primary_backend_id r) (rr_placement_replica_backend_id
    r) (rr_attempts r) v (rr_lease_token r) (rr_lease_expires_at_ms r) (rr_not_before_ms r)
    (rr_created_at_ms r) (rr_updated_at_ms r).
Definition set_rr_lease_token v (r : RepairRecord) : RepairRecord :=
  mkRepair (rr_id r) (rr_repair_id r) (rr_kind r) (rr_logical r) (rr_namespace_epoch r)
    (rr_authority_cas_version r) (rr_generation r) (rr_digest r) (rr_size r) (rr_metadata r)
    (rr_physical_key r) (rr_source_backend_id r) (rr_target_backend_id r) (rr_target_role r)
    (rr_placement_version r) (rr_placement_primary_backend_id r) (rr_placement_replica_backend_id
    r) (rr_attempts r) (rr_lease_owner r) v (rr_lease_expires_at_ms r) (rr_not_before_ms r)
    (rr_created_at_ms r) (rr_updated_at_ms r).
Definition set_rr_lease_expires_at_ms v (r : RepairRecord) : RepairRecord :=
  mkRepair (rr_id r) (rr_repair_id r) (rr_kind r) (rr_logical r) (rr_namespace_epoch r)
    (rr_authority_cas_version r) (rr_generation r) (rr_digest r) (rr_size r) (rr_metadata r)
    (rr_physical_key r) (rr_source_backend_id r) (rr_target_backend_id r) (rr_target_role r)
    (rr_placement_version r) (rr_placement_primary_backend_id r) (rr_placement_replica_backend_id
    r) (rr_attempts r) (rr_lease_owner r) (rr_lease_token r) v (rr_not_before_ms r)
    (rr_created_at_ms r) (rr_updated_at_ms r).
Definition set_rr_not_before_ms v (r : RepairRecord) : RepairRecord :=
  mkRepair (rr_id r) (rr_repair_id r) (rr_kind r) (rr_logical r) (rr_namespace_epoch r)
    (rr_authority_cas_version r) (rr_generation r) (rr_digest r) (rr_size r) (rr_metadata r)
    (rr_physical_key r) (rr_source_backend_id r) (rr_target_backend_id r) (rr_target_role r)
    (rr_placement_version r) (rr_placement_primary_backend_id r) (rr_placement_replica_backend_id
    r) (rr_attempts r) (rr_lease_owner r) (rr_lease_token r) (rr_lease_expires_at_ms r) v
    (rr_created_at_ms r) (rr_updated_at_ms r).
Definition set_rr_updated_at_ms v (r : RepairRecord) : RepairRecord :=
  mkRepair (rr_id r) (rr_repair_id r) (rr_kind r) (rr_logical r) (rr_namespace_epoch r)
    (rr_authority_cas_version r) (rr_generation r) (rr_digest r) (rr_size r) (rr_metadata r)
    (rr_physical_key r) (rr_source_backend_id r) (rr_target_backend_id r) (rr_target_role r)
    (rr_placement_version r) (rr_placement_primary_backend_id r) (rr_placement_replica_backend_id
    r) (rr_attempts r) (rr_lease_owner r) (rr_lease_token r) (rr_lease_expires_at_ms r)
    (rr_not_before_ms r) (rr_created_at_ms r) v.

Record ManagedRouteFence := mkFence {
  rf_namespace_epoch : Z;
  rf_routing_epoch : Z;
}.
#[global] Instance ManagedRouteFence_eq_dec : EqDecision ManagedRouteFence.
Proof. solve_decision. Defined.

Record ManagedLogicalOperationIntent := mkLogicalIntent {
  li_operation_id : Uuid;
  li_receipt_id : Uuid;
  li_logical : LogicalObjectKey;
  li_kind : ManagedMutationKind;
  li_generation : Uuid;
  li_fence : ManagedRouteFence;
  li_expected_authority_cas : option Z;
  li_prior_logical_size : Z;
  li_primary_child_operation_id : Uuid;
  li_backend_id : string;
  li_provider_bucket : string;
  li_physical_key : string;
  li_occurred_at_ms : Z;
  li_rate_version : Z;
  li_route : UsageRoute;
  li_request_kind : RequestKind;
  li_max_processed_bytes : Z;
}.
#[global] Instance ManagedLogicalOperationIntent_eq_dec : EqDecision ManagedLogicalOperationIntent.
Proof. solve_decision. Defined.

Record ManagedUsageEvidence := mkEvidence {
  ue_expected_output_digest : option string;
  ue_expected_output_size : Z;
  ue_source_bytes : Z;
  ue_processed_bytes : Z;
  ue_payload : Json;
}.
#[global] Instance ManagedUsageEvidence_eq_dec : EqDecision ManagedUsageEvidence.
Proof. solve_decision. Defined.

Record ManagedLogicalOperation := mkLogicalOp {
  lo_intent : ManagedLogicalOperationIntent;
  lo_evidence : option ManagedUsageEvidence;
  lo_reserved_physical_bytes : Z;
  lo_committed_physical_bytes : Z;
  lo_released_physical_bytes : Z;
  lo_state : ManagedLogicalOperationState;
  lo_committed_authority_version : option Z;
  lo_settlement_state : ManagedSettlementState;
  lo_last_error_class : option string;
  lo_created_at_ms : Z;
  lo_updated_at_ms : Z;
  lo_committed_at_ms : option Z;
  lo_aborted_at_ms : option Z;
}.
#[global] Instance ManagedLogicalOperation_eq_dec : EqDecision ManagedLogicalOperation.
Proof. solve_decision. Defined.
Definition set_lo_evidence v (r : ManagedLogicalOperation) : ManagedLogicalOperation :=
  mkLogicalOp (lo_intent r) v (lo_reserved_physical_bytes r) (lo_committed_physical_bytes r)
    (lo_released_physical_bytes r) (lo_state r) (lo_committed_authority_version r)
    (lo_settlement_state r) (lo_last_error_class r) (lo_created_at_ms r) (lo_updated_at_ms r)
    (lo_committed_at_ms r) (lo_aborted_at_ms r).
Definition set_lo_reserved_physical_bytes v (r : ManagedLogicalOperation) : ManagedLogicalOperation :=
  mkLogicalOp (lo_intent r) (lo_evidence r) v (lo_committed_physical_bytes r)
    (lo_released_physical_bytes r) (lo_state r) (lo_committed_authority_version r)
    (lo_settlement_state r) (lo_last_error_class r) (lo_created_at_ms r) (lo_updated_at_ms r)
    (lo_committed_at_ms r) (lo_aborted_at_ms r).
Definition set_lo_committed_physical_bytes v (r : ManagedLogicalOperation) : ManagedLogicalOperation :=
  mkLogicalOp (lo_intent r) (lo_evidence r) (lo_reserved_physical_bytes r) v
    (lo_released_physical_bytes r) (lo_state r) (lo_committed_authority_version r)
    (lo_settlement_state r) (lo_last_error_class r) (lo_created_at_ms r) (lo_updated_at_ms r)
    (lo_committed_at_ms r) (lo_aborted_at_ms r).
Definition set_lo_released_physical_bytes v (r : ManagedLogicalOperation) : ManagedLogicalOperation :=
  mkLogicalOp (lo_intent r) (lo_evidence r) (lo_reserved_physical_bytes r)
    (lo_committed_physical_bytes r) v (lo_state r) (lo_committed_authority_version r)
    (lo_settlement_state r) (lo_last_error_class r) (lo_created_at_ms r) (lo_updated_at_ms r)
    (lo_committed_at_ms r) (lo_aborted_at_ms r).
Definition set_lo_state v (r : ManagedLogicalOperation) : ManagedLogicalOperation :=
  mkLogicalOp (lo_intent r) (lo_evidence r) (lo_reserved_physical_bytes r)
    (lo_committed_physical_bytes r) (lo_released_physical_bytes r) v
    (lo_committed_authority_version r) (lo_settlement_state r) (lo_last_error_class r)
    (lo_created_at_ms r) (lo_updated_at_ms r) (lo_committed_at_ms r) (lo_aborted_at_ms r).
Definition set_lo_committed_authority_version v (r : ManagedLogicalOperation) : ManagedLogicalOperation :=
  mkLogicalOp (lo_intent r) (lo_evidence r) (lo_reserved_physical_bytes r)
    (lo_committed_physical_bytes r) (lo_released_physical_bytes r) (lo_state r) v
    (lo_settlement_state r) (lo_last_error_class r) (lo_created_at_ms r) (lo_updated_at_ms r)
    (lo_committed_at_ms r) (lo_aborted_at_ms r).
Definition set_lo_settlement_state v (r : ManagedLogicalOperation) : ManagedLogicalOperation :=
  mkLogicalOp (lo_intent r) (lo_evidence r) (lo_reserved_physical_bytes r)
    (lo_committed_physical_bytes r) (lo_released_physical_bytes r) (lo_state r)
    (lo_committed_authority_version r) v (lo_last_error_class r) (lo_created_at_ms r)
    (lo_updated_at_ms r) (lo_committed_at_ms r) (lo_aborted_at_ms r).
Definition set_lo_last_error_class v (r : ManagedLogicalOperation) : ManagedLogicalOperation :=
  mkLogicalOp (lo_intent r) (lo_evidence r) (lo_reserved_physical_bytes r)
    (lo_committed_physical_bytes r) (lo_released_physical_bytes r) (lo_state r)
    (lo_committed_authority_version r) (lo_settlement_state r) v (lo_created_at_ms r)
    (lo_updated_at_ms r) (lo_committed_at_ms r) (lo_aborted_at_ms r).
Definition set_lo_updated_at_ms v (r : ManagedLogicalOperation) : ManagedLogicalOperation :=
  mkLogicalOp (lo_intent r) (lo_evidence r) (lo_reserved_physical_bytes r)
    (lo_committed_physical_bytes r) (lo_released_physical_bytes r) (lo_state r)
    (lo_committed_authority_version r) (lo_settlement_state r) (lo_last_error_class r)
    (lo_created_at_ms r) v (lo_committed_at_ms r) (lo_aborted_at_ms r).
Definition set_lo_committed_at_ms v (r : ManagedLogicalOperation) : ManagedLogicalOperation :=
  mkLogicalOp (lo_intent r) (lo_evidence r) (lo_reserved_physical_bytes r)
    (lo_committed_physical_bytes r) (lo_released_physical_bytes r) (lo_state r)
    (lo_committed_authority_version r) (lo_settlement_state r) (lo_last_error_class r)
    (lo_created_at_ms r) (lo_updated_at_ms r) v (lo_aborted_at_ms r).
Definition set_lo_aborted_at_ms v (r : ManagedLogicalOperation) : ManagedLogicalOperation :=
  mkLogicalOp (lo_intent r) (lo_evidence r) (lo_reserved_physical_bytes r)
    (lo_committed_physical_bytes r) (lo_released_physical_bytes r) (lo_state r)
    (lo_committed_authority_version r) (lo_settlement_state r) (lo_last_error_class r)
    (lo_created_at_ms r) (lo_updated_at_ms r) (lo_committed_at_ms r) v.

Record ManagedWorkspaceUsage := mkUsage {
  wu_tenant_id : string;
  wu_visible_logical_bytes : Z;
  wu_physical_allocated_bytes : Z;
  wu_reserved_bytes : Z;
  wu_visible_limit_bytes : Z;
  wu_replacement_headroom_bytes : Z;
  wu_active_operation_id : option Uuid;
  wu_version : Z;
  wu_created_at_ms : Z;
  wu_updated_at_ms : Z;
}.
#[global] Instance ManagedWorkspaceUsage_eq_dec : EqDecision ManagedWorkspaceUsage.
Proof. solve_decision. Defined.
Definition set_wu_visible_logical_bytes v (r : ManagedWorkspaceUsage) : ManagedWorkspaceUsage :=
  mkUsage (wu_tenant_id r) v (wu_physical_allocated_bytes r) (wu_reserved_bytes r)
    (wu_visible_limit_bytes r) (wu_replacement_headroom_bytes r) (wu_active_operation_id r)
    (wu_version r) (wu_created_at_ms r) (wu_updated_at_ms r).
Definition set_wu_physical_allocated_bytes v (r : ManagedWorkspaceUsage) : ManagedWorkspaceUsage :=
  mkUsage (wu_tenant_id r) (wu_visible_logical_bytes r) v (wu_reserved_bytes r)
    (wu_visible_limit_bytes r) (wu_replacement_headroom_bytes r) (wu_active_operation_id r)
    (wu_version r) (wu_created_at_ms r) (wu_updated_at_ms r).
Definition set_wu_reserved_bytes v (r : ManagedWorkspaceUsage) : ManagedWorkspaceUsage :=
  mkUsage (wu_tenant_id r) (wu_visible_logical_bytes r) (wu_physical_allocated_bytes r) v
    (wu_visible_limit_bytes r) (wu_replacement_headroom_bytes r) (wu_active_operation_id r)
    (wu_version r) (wu_created_at_ms r) (wu_updated_at_ms r).
Definition set_wu_active_operation_id v (r : ManagedWorkspaceUsage) : ManagedWorkspaceUsage :=
  mkUsage (wu_tenant_id r) (wu_visible_logical_bytes r) (wu_physical_allocated_bytes r)
    (wu_reserved_bytes r) (wu_visible_limit_bytes r) (wu_replacement_headroom_bytes r) v
    (wu_version r) (wu_created_at_ms r) (wu_updated_at_ms r).
Definition set_wu_version v (r : ManagedWorkspaceUsage) : ManagedWorkspaceUsage :=
  mkUsage (wu_tenant_id r) (wu_visible_logical_bytes r) (wu_physical_allocated_bytes r)
    (wu_reserved_bytes r) (wu_visible_limit_bytes r) (wu_replacement_headroom_bytes r)
    (wu_active_operation_id r) v (wu_created_at_ms r) (wu_updated_at_ms r).
Definition set_wu_updated_at_ms v (r : ManagedWorkspaceUsage) : ManagedWorkspaceUsage :=
  mkUsage (wu_tenant_id r) (wu_visible_logical_bytes r) (wu_physical_allocated_bytes r)
    (wu_reserved_bytes r) (wu_visible_limit_bytes r) (wu_replacement_headroom_bytes r)
    (wu_active_operation_id r) (wu_version r) (wu_created_at_ms r) v.

Record ManagedOperationCommit := mkCommit {
  oc_operation : ManagedLogicalOperation;
  oc_authority : ObjectAuthority;
  oc_usage : ManagedWorkspaceUsage;
}.
#[global] Instance ManagedOperationCommit_eq_dec : EqDecision ManagedOperationCommit.
Proof. solve_decision. Defined.

Record ManagedProvenPhysicalAllocation := mkProven {
  pa_authority : ObjectAuthority;
  pa_allocated_bytes : Z;
}.
#[global] Instance ManagedProvenPhysicalAllocation_eq_dec : EqDecision ManagedProvenPhysicalAllocation.
Proof. solve_decision. Defined.

Record AuthorityListQuery := mkListQuery {
  lq_tenant_id : string;
  lq_bucket : string;
  lq_prefix : string;
  lq_after : option string;
  lq_max_keys : Z;
}.

Record AuthorityListPage := mkListPage {
  lp_objects : list ObjectAuthority;
  lp_next_after : option string;
}.

Record AuthorityPlacementCursor := mkPlacementCursor {
  pc_tenant_id : string;
  pc_bucket : string;
  pc_key : string;
}.

Record AuthorityPlacementPageQuery := mkPlacementQuery {
  pq_target_placement_version : Z;
  pq_after : option AuthorityPlacementCursor;
  pq_limit : Z;
}.

Record AuthorityPlacementPage := mkPlacementPage {
  ppg_objects : list ObjectAuthority;
  ppg_next_after : option AuthorityPlacementCursor;
}.

Record AuthorityPlacementStats := mkPlacementStats {
  ps_remaining : Z;
  ps_oldest_updated_at_ms : option Z;
}.

Record RepairStateCounts := mkCounts {
  rc_pending : Z;
  rc_leased : Z;
  rc_dead : Z;
}.

Record ManagedListCursorBinding := mkCursorBinding {
  cb_tenant_id : string;
  cb_bucket : string;
  cb_prefix : string;
  cb_delimiter : option string;
  cb_version : ManagedListVersion;
}.
#[global] Instance ManagedListCursorBinding_eq_dec : EqDecision ManagedListCursorBinding.
Proof. solve_decision. Defined.

Record ManagedListCursorPosition := mkPosition {
  cpos_last_key : option string;
  cpos_last_common_prefix : option string;
}.
#[global] Instance ManagedListCursorPosition_eq_dec : EqDecision ManagedListCursorPosition.
Proof. solve_decision. Defined.

Record ManagedListCursor := mkCursor {
  lc_id : Uuid;
  lc_binding : ManagedListCursorBinding;
  lc_fence : ManagedRouteFence;
  lc_position : ManagedListCursorPosition;
  lc_response_state : Json;
  lc_response_state_bytes : Z;
  lc_final_page : bool;
  lc_state : ManagedListCursorState;
  lc_created_at_ms : Z;
  lc_expires_at_ms : Z;
  lc_first_used_at_ms : option Z;
}.
#[global] Instance ManagedListCursor_eq_dec : EqDecision ManagedListCursor.
Proof. solve_decision. Defined.
Definition set_lc_state v (r : ManagedListCursor) : ManagedListCursor :=
  mkCursor (lc_id r) (lc_binding r) (lc_fence r) (lc_position r) (lc_response_state r)
    (lc_response_state_bytes r) (lc_final_page r) v (lc_created_at_ms r) (lc_expires_at_ms r)
    (lc_first_used_at_ms r).
Definition set_lc_first_used_at_ms v (r : ManagedListCursor) : ManagedListCursor :=
  mkCursor (lc_id r) (lc_binding r) (lc_fence r) (lc_position r) (lc_response_state r)
    (lc_response_state_bytes r) (lc_final_page r) (lc_state r) (lc_created_at_ms r)
    (lc_expires_at_ms r) v.

Record ManagedListCursorRequest := mkCursorRequest {
  cr_binding : ManagedListCursorBinding;
  cr_position : ManagedListCursorPosition;
  cr_response_state : Json;
  cr_final_page : bool;
}.

Record NamespacePurgeRequest := mkPurgeRequest {
  pr_tenant_id : string;
  pr_operation_id : Uuid;
}.

Record ProviderStorageIdentity := mkStorageIdentity {
  si_provider_kind : string;
  si_provider_instance_id : string;
  si_provider_account_id : string;
  si_canonical_endpoint : string;
  si_region : string;
}.
#[global] Instance ProviderStorageIdentity_eq_dec : EqDecision ProviderStorageIdentity.
Proof. solve_decision. Defined.

Record PhysicalWriteIntent := mkWriteIntent {
  wi_intent_id : Uuid;
  wi_tenant_id : string;
  wi_backend_id : string;
  wi_storage_identity : ProviderStorageIdentity;
  wi_credential_epoch : Z;
  wi_provider_bucket : string;
  wi_physical_key : string;
  wi_versioning_mode : BackendVersioningMode;
  wi_versioning_capability : BackendVersioningCapability;
  wi_lease_owner : string;
}.
#[global] Instance PhysicalWriteIntent_eq_dec : EqDecision PhysicalWriteIntent.
Proof. solve_decision. Defined.
Definition set_wi_lease_owner v (r : PhysicalWriteIntent) : PhysicalWriteIntent :=
  mkWriteIntent (wi_intent_id r) (wi_tenant_id r) (wi_backend_id r) (wi_storage_identity r)
    (wi_credential_epoch r) (wi_provider_bucket r) (wi_physical_key r) (wi_versioning_mode r)
    (wi_versioning_capability r) v.

Record PhysicalWriteLease := mkWriteLease {
  wl_intent_id : Uuid;
  wl_namespace_epoch : Z;
  wl_owner : string;
  wl_token : Uuid;
}.
#[global] Instance PhysicalWriteLease_eq_dec : EqDecision PhysicalWriteLease.
Proof. solve_decision. Defined.

Record DurablePhysicalWriteIntent := mkDurableIntent {
  di_intent : PhysicalWriteIntent;
  di_namespace_epoch : Z;
  di_blocked_reason : option string;
  di_lease_expires_at_ms : Z;
  di_lease : PhysicalWriteLease;
}.

Record PhysicalVersionTarget := mkVersionTarget {
  vt_tenant_id : string;
  vt_namespace_epoch : Z;
  vt_backend_id : string;
  vt_storage_identity : ProviderStorageIdentity;
  vt_credential_epoch : Z;
  vt_provider_bucket : string;
  vt_physical_key : string;
  vt_version_id : option string;
  vt_versioning_mode : BackendVersioningMode;
  vt_versioning_capability : BackendVersioningCapability;
  vt_write_operation_id : Uuid;
}.
#[global] Instance PhysicalVersionTarget_eq_dec : EqDecision PhysicalVersionTarget.
Proof. solve_decision. Defined.
#[global] Instance LogicalObjectKey_countable : Countable LogicalObjectKey.
Proof.
  refine (inj_countable' (λ k, (lk_tenant_id k, lk_bucket k, lk_key k))
    (λ '(t, b, k), mkLogical t b k) _).
  by intros [].
Defined.

Definition object_key (k : LogicalObjectKey) : string := lk_bucket k +:+ "/" +:+ lk_key k.

Inductive NamespacePurgeStatus : Type :=
| PurgePending
| PurgeRunning
| PurgeComplete (deleted_versions : Z)
| PurgeBlocked (reason : string)
| PurgeUnsupported (reason : string).
#[global] Instance NamespacePurgeStatus_eq_dec : EqDecision NamespacePurgeStatus.
Proof. solve_decision. Defined.

(** ** What one call observes of its environment

    The reading of the clock, the UUIDs it generates, and the order in which it
    iterates hash maps: any enumeration of their entries, and a new one for
    every call. *)
Record Env := mkEnv {
  env_now : Z;
  env_uuid : nat → Uuid;
  env_iter : ∀ (K : Type) (H1 : EqDecision K) (H2 : Countable K) (A : Type),
    gmap K A → list (K * A);
  env_iter_perm : ∀ K H1 H2 A m, env_iter K H1 H2 A m ≡ₚ map_to_list m;
}.

Definition hash_iter (e : Env) `{Countable K} {A} (m : gmap K A) : list (K * A) :=
  env_iter e K _ _ A m.

(** ** Keys of physical objects *)

Section helpers.
  Context `{Crypto, ManagedText}.

  (** [hash_field(&mut hasher, value)]: a length and the bytes. *)
Definition hash_field (hasher : h_state c_sha256) (value : list byte) : h_state c_sha256 :=
    h_update c_sha256 (h_update c_sha256 hasher (to_be_bytes 8 (Z.of_nat (length value)))) value.

Definition generation_physical_key (logical : LogicalObjectKey) (generation : Uuid) : string :=
    let hasher := h_new c_sha256 in
    let hasher := hash_field hasher (bs (lk_tenant_id logical)) in
    let hasher := hash_field hasher (bs (lk_bucket logical)) in
    let hasher := hash_field hasher (bs (lk_key logical)) in
    "__s4/generations/"
      +:+ String.string_of_list_byte (hex_encode (h_finalize c_sha256 hasher))
      +:+ "/" +:+ uuid_display generation.

  (** ** Repairs *)

  (** [RepairRecord::copy], with the clock and the UUID it draws. *)
Definition repair_copy (now : Z) (repair_id : Uuid) (kind : RepairKind) (a : ObjectAuthority)
      (source : option string) (target : string) (role : RepairTargetRole) (placement_version : Z)
      : RepairRecord :=
    {| rr_id := repair_id; rr_repair_id := repair_id; rr_kind := kind;
       rr_logical := oa_logical a; rr_namespace_epoch := 0;
       rr_authority_cas_version := oa_cas_version a; rr_generation := oa_generation a;
       rr_digest := oa_digest a; rr_size := oa_size a; rr_metadata := oa_metadata a;
       rr_physical_key := generation_physical_key (oa_logical a) (oa_generation a);
       rr_source_backend_id := source; rr_target_backend_id := target;
       rr_target_role := role; rr_placement_version := placement_version;
       rr_placement_primary_backend_id := None; rr_placement_replica_backend_id := None;
       rr_attempts := 0; rr_lease_owner := None; rr_lease_token := None;
       rr_lease_expires_at_ms := None; rr_not_before_ms := 0;
       rr_created_at_ms := now; rr_updated_at_ms := now |}.

Definition repair_placement (now : Z) (repair_id : Uuid) (a : ObjectAuthority)
      (source : option string) (target : string) (role : RepairTargetRole) (p : Placement)
      : RepairRecord :=
    set_rr_placement_replica_backend_id (pl_replica_backend_id p)
      (set_rr_placement_primary_backend_id (Some (pl_primary_backend_id p))
        (repair_copy now repair_id KPlacement a source target role (pl_version p))).

  (** The repairs draw the UUIDs [n], [n + 1], … of the call. *)
Definition cleanup_repairs (e : Env) (n : nat) (a : ObjectAuthority) : list RepairRecord :=
    repair_copy (env_now e) (env_uuid e n) KDeleteGeneration a None (oa_primary_backend_id a)
      RCleanup (oa_placement_version a)
    :: match oa_replica_backend_id a with
       | Some replica =>
         [repair_copy (env_now e) (env_uuid e (S n)) KDeleteGeneration a None replica
            RCleanup (oa_placement_version a)]
       | None => []
       end.

Definition publication_repairs (e : Env) (n : nat) (a : ObjectAuthority) : list RepairRecord :=
    match oa_replica_backend_id a, oa_replica_status a with
    | Some replica, RepairPending =>
      [repair_copy (env_now e) (env_uuid e n) KReplica a (Some (oa_primary_backend_id a)) replica
         RReplica (oa_placement_version a)]
    | _, _ => []
    end.

  (** The backends of the old placement that the new one does not use, in the
      order the [HashSet] is iterated. *)
Definition placement_cleanup_repairs (e : Env) (n : nat) (previous a : ObjectAuthority)
      : list RepairRecord :=
    let old_locations := omap id [Some (oa_primary_backend_id previous); oa_replica_backend_id previous] in
    let unused := filter (λ backend, backend ≠ oa_primary_backend_id a
                                     ∧ oa_replica_backend_id a ≠ Some backend) old_locations in
    let distinct := (hash_iter e (list_to_map ((λ backend, (backend, tt)) <$> unused) : gmap string unit)).*1 in
    imap (λ i backend, repair_copy (env_now e) (env_uuid e (n + i)) KDeleteGeneration a None backend
                         RCleanup (oa_placement_version a)) distinct.
End helpers.

(** Does the authority hold exactly the copies of a placement, all ready? *)
Definition locations_match (a : ObjectAuthority) (primary : string) (replica : option string) : bool :=
  bool_decide (oa_primary_backend_id a = primary)
  && bool_decide (oa_primary_status a = Ready)
  && match replica with
     | Some r => bool_decide (oa_replica_backend_id a = Some r) && bool_decide (oa_replica_status a = Ready)
     | None => bool_decide (oa_replica_backend_id a = None) && bool_decide (oa_replica_status a = Absent)
     end.

(** [apply_repair_to_authority] on [&mut authority]: the new authority comes
    back beside the answer; the errors are returned before any assignment. *)
Definition apply_repair_to_authority (a : ObjectAuthority) (repair : RepairRecord)
    : result ManagedError (bool * ObjectAuthority) :=
  if decide (rr_kind repair = KPlacement) then
    match rr_placement_primary_backend_id repair with
    | None => Err (Corrupt "placement repair has no requested primary backend")
    | Some primary =>
      if rr_placement_version repair <? oa_placement_version a then Ok (false, a)
      else
        moved ← match rr_target_role repair with
                | RPrimary =>
                  if decide (rr_target_backend_id repair = primary) then
                    let a := set_oa_primary_backend_id primary a in
                    let a := set_oa_primary_status Ready a in
                    Ok (match rr_placement_replica_backend_id repair with
                        | None => set_oa_replica_status Absent (set_oa_replica_backend_id None a)
                        | Some _ => a
                        end)
                  else Err (Corrupt "placement repair target does not match requested placement")
                | RReplica =>
                  if decide (rr_placement_replica_backend_id repair = Some (rr_target_backend_id repair)) then
                    Ok (set_oa_replica_status Ready
                         (set_oa_replica_backend_id (Some (rr_target_backend_id repair)) a))
                  else Err (Corrupt "placement repair target does not match requested placement")
                | RCleanup => Err (Corrupt "placement repair target does not match requested placement")
                end;
        Ok (true, if locations_match moved primary (rr_placement_replica_backend_id repair)
                  then set_oa_placement_version (rr_placement_version repair) moved else moved)
    end
  else
    match rr_target_role repair with
    | RPrimary => Ok (true, set_oa_primary_status Ready (set_oa_primary_backend_id (rr_target_backend_id repair) a))
    | RReplica => Ok (true, set_oa_replica_status Ready
                              (set_oa_replica_backend_id (Some (rr_target_backend_id repair)) a))
    | RCleanup => Ok (false, a)
    end.

(** ** Validation and small computations *)

Definition physical_allocation (expected_size exact_version_count : Z) : result ManagedError Z :=
  if exact_version_count =? 0 then
    Err (Persistence "managed logical operation cannot settle before its child is ledgered")
  else if expected_size * exact_version_count <=? u64_max then Ok (expected_size * exact_version_count)
  else Err QuotaExceeded.

Definition serialize_cursor_response_state `{ManagedText} (response_state : Json)
    : result ManagedError (list byte) :=
  serialized ← map_err (λ error, Corrupt ("invalid cursor response state: " +:+ error))
                 (json_to_vec response_state);
  if MANAGED_LIST_CURSOR_RESPONSE_MAX_BYTES <? Z.of_nat (length serialized)
  then Err CursorLimitExceeded
  else Ok serialized.

Definition cursor_matches_request (c : ManagedListCursor) (r : ManagedListCursorRequest) : bool :=
  bool_decide (lc_binding c = cr_binding r)
  && bool_decide (lc_position c = cr_position r)
  && bool_decide (lc_response_state c = cr_response_state r)
  && bool_decide (lc_final_page c = cr_final_page r).

Definition is_empty (s : string) : bool := bool_decide (s = "").

Definition validate_logical_intent (i : ManagedLogicalOperationIntent) : result ManagedError unit :=
  if is_empty (lk_tenant_id (li_logical i))
     || is_empty (lk_bucket (li_logical i))
     || is_empty (li_backend_id i)
     || is_empty (li_provider_bucket i)
     || is_empty (li_physical_key i)
     || (rf_namespace_epoch (li_fence i) =? 0)
     || (rf_routing_epoch (li_fence i) =? 0)
     || (li_rate_version i <=? 0)
     || (li_occurred_at_ms i <? 0)
     || negb (bool_decide (li_request_kind i = Write))
     || negb (match li_kind i, li_route i with
              | MPut, PutObject | MDelete, DeleteObject => true
              | _, _ => false
              end)
  then Err Conflict else Ok tt.

Definition validate_physical_intent (i : PhysicalWriteIntent) : result ManagedError unit :=
  let identity := wi_storage_identity i in
  if is_empty (wi_tenant_id i) || is_empty (wi_backend_id i) || is_empty (wi_provider_bucket i)
     || is_empty (wi_physical_key i) || (wi_credential_epoch i =? 0)
     || is_empty (si_provider_kind identity) || is_empty (si_provider_instance_id identity)
     || is_empty (si_provider_account_id identity) || is_empty (si_canonical_endpoint identity)
     || is_empty (si_region identity)
  then Err Conflict else Ok tt.
