(* ===== verification/ManagedRepo.v ===== *)
(** * Managed storage: the in-memory repository

    [InMemoryManagedRepository] of [crates/gateway/src/managed.rs].  The
    repository is one [MemoryState] behind a mutex, so each method is one atomic
    step; a method that returns [Err] after a mutation keeps that mutation,
    which [SE] records.  Every call takes an [Env]: the clock reading, the
    generated UUIDs and the iteration order of the hash maps it sees. *)

From S2P Require Import Prelude Operation Integrity Managed.
From stdpp Require Import sorting.

#[local] Open Scope Z_scope.
Set Default Goal Selector "!".

(** ** State *)

Record MemoryPurge := mkPurge {
  mp_tenant_id : string;
  mp_status : NamespacePurgeStatus;
  mp_deleted_versions : Z;
}.
Definition set_mp_status v (p : MemoryPurge) := mkPurge (mp_tenant_id p) v (mp_deleted_versions p).
Definition set_mp_deleted_versions v (p : MemoryPurge) := mkPurge (mp_tenant_id p) (mp_status p) v.

Record MemoryState := mkMemory {
  authorities : gmap LogicalObjectKey ObjectAuthority;
  logical_operations : gmap Uuid ManagedLogicalOperation;
  workspace_usage : gmap string ManagedWorkspaceUsage;
  list_cursors : gmap Uuid ManagedListCursor;
  list_cursor_successors : gmap Uuid Uuid;
  repairs : gmap Uuid (RepairRecord * string);
  physical_write_intents : gmap Uuid PhysicalWriteIntent;
  blocked_write_intents : gmap Uuid string;
  physical_write_leases : gmap Uuid Z;
  physical_write_tokens : gmap Uuid Uuid;
  physical_write_epochs : gmap Uuid Z;
  physical_versions : list PhysicalVersionTarget;
  fenced_namespaces : gmap string Uuid;
  purges : gmap Uuid MemoryPurge;
  namespace_epochs : gmap string Z;
  routing_epochs : gmap string Z;
  multipart_activities : gmap string (string * Z);
  confirmed_multipart_activities : gset string;
  multipart_registration_expiry : gmap string Z;
  placement_policy_fingerprints : gmap Z string;
}.

(** [MemoryState::default()]. *)
Definition managed_new : MemoryState :=
  mkMemory ∅ ∅ ∅ ∅ ∅ ∅ ∅ ∅ ∅ ∅ ∅ [] ∅ ∅ ∅ ∅ ∅ ∅ ∅ ∅.

(** [upd_f g s]: the state with [g] applied to its field [f]. *)
Definition upd_authorities h (s : MemoryState) : MemoryState :=
  mkMemory (h (authorities s)) (logical_operations s) (workspace_usage s) (list_cursors s)
    (list_cursor_successors s) (repairs s) (physical_write_intents s) (blocked_write_intents s)
    (physical_write_leases s) (physical_write_tokens s) (physical_write_epochs s)
    (physical_versions s) (fenced_namespaces s) (purges s) (namespace_epochs s) (routing_epochs s)
    (multipart_activities s) (confirmed_multipart_activities s) (multipart_registration_expiry s)
    (placement_policy_fingerprints s).
Definition upd_logical_operations h (s : MemoryState) : MemoryState :=
  mkMemory (authorities s) (h (logical_operations s)) (workspace_usage s) (list_cursors s)
    (list_cursor_successors s) (repairs s) (physical_write_intents s) (blocked_write_intents s)
    (physical_write_leases s) (physical_write_tokens s) (physical_write_epochs s)
    (physical_versions s) (fenced_namespaces s) (purges s) (namespace_epochs s) (routing_epochs s)
    (multipart_activities s) (confirmed_multipart_activities s) (multipart_registration_expiry s)
    (placement_policy_fingerprints s).
Definition upd_workspace_usage h (s : MemoryState) : MemoryState :=
  mkMemory (authorities s) (logical_operations s) (h (workspace_usage s)) (list_cursors s)
    (list_cursor_successors s) (repairs s) (physical_write_intents s) (blocked_write_intents s)
    (physical_write_leases s) (physical_write_tokens s) (physical_write_epochs s)
    (physical_versions s) (fenced_namespaces s) (purges s) (namespace_epochs s) (routing_epochs s)
    (multipart_activities s) (confirmed_multipart_activities s) (multipart_registration_expiry s)
    (placement_policy_fingerprints s).
Definition upd_list_cursors h (s : MemoryState) : MemoryState :=
  mkMemory (authorities s) (logical_operations s) (workspace_usage s) (h (list_cursors s))
    (list_cursor_successors s) (repairs s) (physical_write_intents s) (blocked_write_intents s)
    (physical_write_leases s) (physical_write_tokens s) (physical_write_epochs s)
    (physical_versions s) (fenced_namespaces s) (purges s) (namespace_epochs s) (routing_epochs s)
    (multipart_activities s) (confirmed_multipart_activities s) (multipart_registration_expiry s)
    (placement_policy_fingerprints s).
Definition upd_list_cursor_successors h (s : MemoryState) : MemoryState :=
  mkMemory (authorities s) (logical_operations s) (workspace_usage s) (list_cursors s) (h
    (list_cursor_successors s)) (repairs s) (physical_write_intents s) (blocked_write_intents s)
    (physical_write_leases s) (physical_write_tokens s) (physical_write_epochs s)
    (physical_versions s) (fenced_namespaces s) (purges s) (namespace_epochs s) (routing_epochs s)
    (multipart_activities s) (confirmed_multipart_activities s) (multipart_registration_expiry s)
    (placement_policy_fingerprints s).
Definition upd_repairs h (s : MemoryState) : MemoryState :=
  mkMemory (authorities s) (logical_operations s) (workspace_usage s) (list_cursors s)
    (list_cursor_successors s) (h (repairs s)) (physical_write_intents s) (blocked_write_intents
    s) (physical_write_leases s) (physical_write_tokens s) (physical_write_epochs s)
    (physical_versions s) (fenced_namespaces s) (purges s) (namespace_epochs s) (routing_epochs s)
    (multipart_activities s) (confirmed_multipart_activities s) (multipart_registration_expiry s)
    (placement_policy_fingerprints s).
Definition upd_physical_write_intents h (s : MemoryState) : MemoryState :=
  mkMemory (authorities s) (logical_operations s) (workspace_usage s) (list_cursors s)
    (list_cursor_successors s) (repairs s) (h (physical_write_intents s)) (blocked_write_intents
    s) (physical_write_leases s) (physical_write_tokens s) (physical_write_epochs s)
    (physical_versions s) (fenced_namespaces s) (purges s) (namespace_epochs s) (routing_epochs s)
    (multipart_activities s) (confirmed_multipart_activities s) (multipart_registration_expiry s)
    (placement_policy_fingerprints s).
Definition upd_blocked_write_intents h (s : MemoryState) : MemoryState :=
  mkMemory (authorities s) (logical_operations s) (workspace_usage s) (list_cursors s)
    (list_cursor_successors s) (repairs s) (physical_write_intents s) (h (blocked_write_intents
    s)) (physical_write_leases s) (physical_write_tokens s) (physical_write_epochs s)
    (physical_versions s) (fenced_namespaces s) (purges s) (namespace_epochs s) (routing_epochs s)
    (multipart_activities s) (confirmed_multipart_activities s) (multipart_registration_expiry s)
    (placement_policy_fingerprints s).
Definition upd_physical_write_leases h (s : MemoryState) : MemoryState :=
  mkMemory (authorities s) (logical_operations s) (workspace_usage s) (list_cursors s)
    (list_cursor_successors s) (repairs s) (physical_write_intents s) (blocked_write_intents s) (h
    (physical_write_leases s)) (physical_write_tokens s) (physical_write_epochs s)
    (physical_versions s) (fenced_namespaces s) (purges s) (namespace_epochs s) (routing_epochs s)
    (multipart_activities s) (confirmed_multipart_activities s) (multipart_registration_expiry s)
    (placement_policy_fingerprints s).
Definition upd_physical_write_tokens h (s : MemoryState) : MemoryState :=
  mkMemory (authorities s) (logical_operations s) (workspace_usage s) (list_cursors s)
    (list_cursor_successors s) (repairs s) (physical_write_intents s) (blocked_write_intents s)
    (physical_write_leases s) (h (physical_write_tokens s)) (physical_write_epochs s)
    (physical_versions s) (fenced_namespaces s) (purges s) (namespace_epochs s) (routing_epochs s)
    (multipart_activities s) (confirmed_multipart_activities s) (multipart_registration_expiry s)
    (placement_policy_fingerprints s).
Definition upd_physical_write_epochs h (s : MemoryState) : MemoryState :=
  mkMemory (authorities s) (logical_operations s) (workspace_usage s) (list_cursors s)
    (list_cursor_successors s) (repairs s) (physical_write_intents s) (blocked_write_intents s)
    (physical_write_leases s) (physical_write_tokens s) (h (physical_write_epochs s))
    (physical_versions s) (fenced_namespaces s) (purges s) (namespace_epochs s) (routing_epochs s)
    (multipart_activities s) (confirmed_multipart_activities s) (multipart_registration_expiry s)
    (placement_policy_fingerprints s).
Definition upd_physical_versions h (s : MemoryState) : MemoryState :=
  mkMemory (authorities s) (logical_operations s) (workspace_usage s) (list_cursors s)
    (list_cursor_successors s) (repairs s) (physical_write_intents s) (blocked_write_intents s)
    (physical_write_leases s) (physical_write_tokens s) (physical_write_epochs s) (h
    (physical_versions s)) (fenced_namespaces s) (purges s) (namespace_epochs s) (routing_epochs
    s) (multipart_activities s) (confirmed_multipart_activities s) (multipart_registration_expiry
    s) (placement_policy_fingerprints s).
Definition upd_fenced_namespaces h (s : MemoryState) : MemoryState :=
  mkMemory (authorities s) (logical_operations s) (workspace_usage s) (list_cursors s)
    (list_cursor_successors s) (repairs s) (physical_write_intents s) (blocked_write_intents s)
    (physical_write_leases s) (physical_write_tokens s) (physical_write_epochs s)
    (physical_versions s) (h (fenced_namespaces s)) (purges s) (namespace_epochs s)
    (routing_epochs s) (multipart_activities s) (confirmed_multipart_activities s)
    (multipart_registration_expiry s) (placement_policy_fingerprints s).
Definition upd_purges h (s : MemoryState) : MemoryState :=
  mkMemory (authorities s) (logical_operations s) (workspace_usage s) (list_cursors s)
    (list_cursor_successors s) (repairs s) (physical_write_intents s) (blocked_write_intents s)
    (physical_write_leases s) (physical_write_tokens s) (physical_write_epochs s)
    (physical_versions s) (fenced_namespaces s) (h (purges s)) (namespace_epochs s)
    (routing_epochs s) (multipart_activities s) (confirmed_multipart_activities s)
    (multipart_registration_expiry s) (placement_policy_fingerprints s).
Definition upd_namespace_epochs h (s : MemoryState) : MemoryState :=
  mkMemory (authorities s) (logical_operations s) (workspace_usage s) (list_cursors s)
    (list_cursor_successors s) (repairs s) (physical_write_intents s) (blocked_write_intents s)
    (physical_write_leases s) (physical_write_tokens s) (physical_write_epochs s)
    (physical_versions s) (fenced_namespaces s) (purges s) (h (namespace_epochs s))
    (routing_epochs s) (multipart_activities s) (confirmed_multipart_activities s)
    (multipart_registration_expiry s) (placement_policy_fingerprints s).
Definition upd_routing_epochs h (s : MemoryState) : MemoryState :=
  mkMemory (authorities s) (logical_operations s) (workspace_usage s) (list_cursors s)
    (list_cursor_successors s) (repairs s) (physical_write_intents s) (blocked_write_intents s)
    (physical_write_leases s) (physical_write_tokens s) (physical_write_epochs s)
    (physical_versions s) (fenced_namespaces s) (purges s) (namespace_epochs s) (h (routing_epochs
    s)) (multipart_activities s) (confirmed_multipart_activities s) (multipart_registration_expiry
    s) (placement_policy_fingerprints s).
Definition upd_multipart_activities h (s : MemoryState) : MemoryState :=
  mkMemory (authorities s) (logical_operations s) (workspace_usage s) (list_cursors s)
    (list_cursor_successors s) (repairs s) (physical_write_intents s) (blocked_write_intents s)
    (physical_write_leases s) (physical_write_tokens s) (physical_write_epochs s)
    (physical_versions s) (fenced_namespaces s) (purges s) (namespace_epochs s) (routing_epochs s)
    (h (multipart_activities s)) (confirmed_multipart_activities s) (multipart_registration_expiry
    s) (placement_policy_fingerprints s).
Definition upd_confirmed_multipart_activities h (s : MemoryState) : MemoryState :=
  mkMemory (authorities s) (logical_operations s) (workspace_usage s) (list_cursors s)
    (list_cursor_successors s) (repairs s) (physical_write_intents s) (blocked_write_intents s)
    (physical_write_leases s) (physical_write_tokens s) (physical_write_epochs s)
    (physical_versions s) (fenced_namespaces s) (purges s) (namespace_epochs s) (routing_epochs s)
    (multipart_activities s) (h (confirmed_multipart_activities s)) (multipart_registration_expiry
    s) (placement_policy_fingerprints s).
Definition upd_multipart_registration_expiry h (s : MemoryState) : MemoryState :=
  mkMemory (authorities s) (logical_operations s) (workspace_usage s) (list_cursors s)
    (list_cursor_successors s) (repairs s) (physical_write_intents s) (blocked_write_intents s)
    (physical_write_leases s) (physical_write_tokens s) (physical_write_epochs s)
    (physical_versions s) (fenced_namespaces s) (purges s) (namespace_epochs s) (routing_epochs s)
    (multipart_activities s) (confirmed_multipart_activities s) (h (multipart_registration_expiry
    s)) (placement_policy_fingerprints s).
Definition upd_placement_policy_fingerprints h (s : MemoryState) : MemoryState :=
  mkMemory (authorities s) (logical_operations s) (workspace_usage s) (list_cursors s)
    (list_cursor_successors s) (repairs s) (physical_write_intents s) (blocked_write_intents s)
    (physical_write_leases s) (physical_write_tokens s) (physical_write_epochs s)
    (physical_versions s) (fenced_namespaces s) (purges s) (namespace_epochs s) (routing_epochs s)
    (multipart_activities s) (confirmed_multipart_activities s) (multipart_registration_expiry s)
    (h (placement_policy_fingerprints s)).

(** ** Entries of the maps *)

(** [fenced_namespaces.contains_key(tenant)]. *)
Definition fenced (s : MemoryState) (tenant : string) : bool :=
  bool_decide (is_Some (fenced_namespaces s !! tenant)).

(** [map.entry(k).or_insert(v)]: the map afterwards. *)
Definition or_insert `{Countable K} {A} (k : K) (v : A) (m : gmap K A) : gmap K A :=
  match m !! k with Some _ => m | None => <[k := v]> m end.

(** [epochs.get(tenant).copied().unwrap_or(1)], also what an entry holds
    after [or_insert(1)]. *)
Definition namespace_epoch (s : MemoryState) (tenant : string) : Z :=
  default 1 (namespace_epochs s !! tenant).
Definition routing_epoch (s : MemoryState) (tenant : string) : Z :=
  default 1 (routing_epochs s !! tenant).
Definition current_fence (s : MemoryState) (tenant : string) : ManagedRouteFence :=
  mkFence (namespace_epoch s tenant) (routing_epoch s tenant).

Definition enter_namespace (tenant : string) : MemoryState → MemoryState :=
  upd_namespace_epochs (or_insert tenant 1).
Definition enter_routing (tenant : string) : MemoryState → MemoryState :=
  upd_routing_epochs (or_insert tenant 1).

(** The usage row that [InMemoryManagedRepository::workspace_usage] inserts. *)
Definition new_usage (now : Z) (tenant : string) : ManagedWorkspaceUsage :=
  {| wu_tenant_id := tenant; wu_visible_logical_bytes := 0; wu_physical_allocated_bytes := 0;
     wu_reserved_bytes := 0; wu_visible_limit_bytes := MANAGED_VISIBLE_LIMIT_BYTES;
     wu_replacement_headroom_bytes := MANAGED_REPLACEMENT_HEADROOM_BYTES;
     wu_active_operation_id := None; wu_version := 1;
     wu_created_at_ms := now; wu_updated_at_ms := now |}.
Definition enter_usage (now : Z) (tenant : string) : MemoryState → MemoryState :=
  upd_workspace_usage (or_insert tenant (new_usage now tenant)).
(** The row after [enter_usage]. *)
Definition usage_row (now : Z) (tenant : string) (s : MemoryState) : ManagedWorkspaceUsage :=
  default (new_usage now tenant) (workspace_usage s !! tenant).

(** [usage.version = usage.version.saturating_add(1); usage.updated_at_ms = now]. *)
Definition touch_usage (now : Z) (u : ManagedWorkspaceUsage) : ManagedWorkspaceUsage :=
  set_wu_updated_at_ms now (set_wu_version (u64_saturating_add (wu_version u) 1) u).

(** Is the tenant fenced, or has an epoch moved on from the operation's fence? *)
Definition fence_lost (s : MemoryState) (i : ManagedLogicalOperationIntent) : bool :=
  let tenant := lk_tenant_id (li_logical i) in
  fenced s tenant
  || negb (namespace_epoch s tenant =? rf_namespace_epoch (li_fence i))
  || negb (routing_epoch s tenant =? rf_routing_epoch (li_fence i)).

(** Does the version ledger hold a version of this key on this backend? *)
Definition ledgered (s : MemoryState) (tenant backend key : string) : bool :=
  existsb (λ v, bool_decide (vt_tenant_id v = tenant) && bool_decide (vt_backend_id v = backend)
                && bool_decide (vt_physical_key v = key)) (physical_versions s).

(** The versions the primary child of an operation wrote. *)
Definition child_version_count (s : MemoryState) (i : ManagedLogicalOperationIntent) : Z :=
  Z.of_nat (length (filter (λ v,
    vt_write_operation_id v = li_primary_child_operation_id i
    ∧ vt_tenant_id v = lk_tenant_id (li_logical i)
    ∧ vt_backend_id v = li_backend_id i
    ∧ vt_provider_bucket v = li_provider_bucket i
    ∧ vt_physical_key v = li_physical_key i) (physical_versions s))).

(** [existing.filter(|v| !v.tombstone).map_or(0, |v| v.size)]. *)
Definition live_size (a : option ObjectAuthority) : Z :=
  match a with Some a => if oa_tombstone a then 0 else oa_size a | None => 0 end.

(** [chars().take(n)] of a valid UTF-8 text: stop before the leading byte of
    the next character. *)
Fixpoint take_chars (n : nat) (l : list byte) : list byte :=
  match l with
  | [] => []
  | b :: l =>
    if (128 <=? b2z b) && (b2z b <? 192) then b :: take_chars n l
    else match n with O => [] | S n => b :: take_chars n l end
  end.
Definition take_128 (s : string) : string :=
  String.string_of_list_byte (take_chars 128 (bs s)).

(** ** Repairs *)

Definition same_repair (existing repair : RepairRecord) : bool :=
  bool_decide (rr_kind existing = rr_kind repair)
  && bool_decide (rr_generation existing = rr_generation repair)
  && bool_decide (rr_target_backend_id existing = rr_target_backend_id repair).

Definition insert_memory_repair (e : Env) (repair : RepairRecord) (s : MemoryState) : MemoryState :=
  match List.find (λ kv, same_repair kv.2.1 repair) (hash_iter e (repairs s)) with
  | Some (k, (existing, status)) =>
    if decide (status = "DONE") then
      let renewed := set_rr_lease_expires_at_ms None (set_rr_lease_token None (set_rr_lease_owner None
        (set_rr_updated_at_ms (env_now e)
          (set_rr_repair_id (rr_repair_id existing) (set_rr_id (rr_repair_id existing) repair))))) in
      upd_repairs <[k := (renewed, "PENDING")]> s
    else s
  | None => upd_repairs <[rr_repair_id repair := (repair, "PENDING")]> s
  end.

Definition insert_memory_waiting_placement_cleanup (repair : RepairRecord) (s : MemoryState) : MemoryState :=
  if existsb (λ kv, same_repair kv.2.1 repair) (map_to_list (repairs s)) then s
  else upd_repairs <[rr_repair_id repair := (repair, "WAITING_CUTOVER")]> s.

(** [for mut repair in repairs { repair.namespace_epoch = epoch; insert(repair) }]. *)
Definition insert_repairs (e : Env) (epoch : Z) (rs : list RepairRecord) (s : MemoryState) : MemoryState :=
  foldl (λ s r, insert_memory_repair e (set_rr_namespace_epoch epoch r) s) s rs.

(** The same for cleanups, of which only those with a ledgered version are inserted. *)
Definition insert_ledgered_repairs (e : Env) (epoch : Z) (rs : list RepairRecord) (s : MemoryState)
    : MemoryState :=
  foldl (λ s r,
    if ledgered s (lk_tenant_id (rr_logical r)) (rr_target_backend_id r) (rr_physical_key r)
    then insert_memory_repair e (set_rr_namespace_epoch epoch r) s else s) s rs.

(** ** Namespaces and epochs *)

Definition assert_namespace_active (tenant : string) : SE MemoryState ManagedError unit := λ s,
  if fenced s tenant then (Err NamespaceFenced, s) else (Ok tt, s).

Definition route_fence (tenant : string) : SE MemoryState ManagedError ManagedRouteFence := λ s,
  if fenced s tenant then (Err NamespaceFenced, s)
  else
    let s := enter_routing tenant (enter_namespace tenant s) in
    (Ok (current_fence s tenant), s).

Definition advance_routing_epoch (tenant : string) (expected_routing_epoch : Z)
    : SE MemoryState ManagedError ManagedRouteFence := λ s,
  if fenced s tenant then (Err NamespaceFenced, s)
  else
    let s := enter_routing tenant (enter_namespace tenant s) in
    if negb (routing_epoch s tenant =? expected_routing_epoch) then (Err Conflict, s)
    else match u64_checked_add (routing_epoch s tenant) 1 with
         | None => (Err (Corrupt "managed routing epoch overflow"), s)
         | Some next =>
           let s := upd_routing_epochs <[tenant := next]> s in
           (Ok (mkFence (namespace_epoch s tenant) next), s)
         end.

(** ** Logical operations *)

Definition new_logical_operation (now : Z) (intent : ManagedLogicalOperationIntent)
    : ManagedLogicalOperation :=
  {| lo_intent := intent; lo_evidence := None; lo_reserved_physical_bytes := 0;
     lo_committed_physical_bytes := 0; lo_released_physical_bytes := 0; lo_state := LIntent;
     lo_committed_authority_version := None; lo_settlement_state := SPending;
     lo_last_error_class := None; lo_created_at_ms := now; lo_updated_at_ms := now;
     lo_committed_at_ms := None; lo_aborted_at_ms := None |}.

(** Is the receipt or the child of the intent taken by another operation, a
    running physical write or a written version? *)
Definition intent_taken (s : MemoryState) (intent : ManagedLogicalOperationIntent) : bool :=
  existsb (λ kv, bool_decide (li_receipt_id (lo_intent kv.2) = li_receipt_id intent)
                 || bool_decide (li_primary_child_operation_id (lo_intent kv.2)
                                 = li_primary_child_operation_id intent))
    (map_to_list (logical_operations s))
  || bool_decide (is_Some (physical_write_intents s !! li_primary_child_operation_id intent))
  || existsb (λ v, bool_decide (vt_write_operation_id v = li_primary_child_operation_id intent))
       (physical_versions s).

Definition insert_logical_operation (e : Env) (intent : ManagedLogicalOperationIntent)
    : SE MemoryState ManagedError ManagedLogicalOperation := λ s,
  let tenant := lk_tenant_id (li_logical intent) in
  match validate_logical_intent intent with
  | Err x => (Err x, s)
  | Ok _ =>
    if fenced s tenant then (Err NamespaceFenced, s)
    else
      let s := enter_routing tenant (enter_namespace tenant s) in
      if negb (bool_decide (li_fence intent = current_fence s tenant)) then (Err Conflict, s)
      else
        match logical_operations s !! li_operation_id intent with
        | Some existing =>
          if decide (lo_intent existing = intent) then (Ok existing, s) else (Err Conflict, s)
        | None =>
          if intent_taken s intent then (Err Conflict, s)
          else
            let operation := new_logical_operation (env_now e) intent in
            (Ok operation, upd_logical_operations <[li_operation_id intent := operation]> s)
        end
  end.

Definition logical_operation (operation_id : Uuid)
    : SE MemoryState ManagedError (option ManagedLogicalOperation) := λ s,
  (Ok (logical_operations s !! operation_id), s).

Definition op_le (a b : ManagedLogicalOperation) : Prop := lo_updated_at_ms a <= lo_updated_at_ms b.
#[global] Instance op_le_dec : RelDecision op_le.
Proof. intros a b. unfold op_le. apply _. Defined.

Definition pending_logical_operations (e : Env) (limit : Z)
    : SE MemoryState ManagedError (list ManagedLogicalOperation) := λ s,
  let operations := filter (λ o, terminal (lo_state o) = false) (hash_iter e (logical_operations s)).*2 in
  (Ok (take (Z.to_nat limit) (merge_sort op_le operations)), s).

Definition reserve_logical_operation (e : Env) (operation_id : Uuid) (physical_bytes : Z)
    : SE MemoryState ManagedError ManagedWorkspaceUsage := λ s,
  match logical_operations s !! operation_id with
  | None => (Err Conflict, s)
  | Some operation =>
    let tenant := lk_tenant_id (li_logical (lo_intent operation)) in
    if fence_lost s (lo_intent operation) then (Err NamespaceFenced, s)
    else
      let s := enter_usage (env_now e) tenant s in
      let usage := usage_row (env_now e) tenant s in
      if bool_decide (lo_state operation = LOpen)
         && (lo_reserved_physical_bytes operation =? physical_bytes)
         && bool_decide (wu_active_operation_id usage = Some operation_id)
      then (Ok usage, s)
      else if negb (bool_decide (lo_state operation = LIntent))
      then (Err (InvalidTransition (lo_state operation) LOpen), s)
      else if bool_decide (is_Some (wu_active_operation_id usage)) then (Err MutationInProgress, s)
      else
        match u64_checked_add (wu_visible_limit_bytes usage) (wu_replacement_headroom_bytes usage),
              u64_checked_add (wu_reserved_bytes usage) physical_bytes with
        | Some bound, Some reserved =>
          match u64_checked_add (wu_physical_allocated_bytes usage) reserved with
          | Some value =>
            if bound <? value then (Err QuotaExceeded, s)
            else
              let usage := touch_usage (env_now e)
                (set_wu_active_operation_id (Some operation_id) (set_wu_reserved_bytes reserved usage)) in
              let operation := set_lo_updated_at_ms (env_now e) (set_lo_state LOpen
                (set_lo_reserved_physical_bytes physical_bytes operation)) in
              (Ok usage, upd_logical_operations <[operation_id := operation]>
                           (upd_workspace_usage <[tenant := usage]> s))
          | None => (Err QuotaExceeded, s)
          end
        | _, _ => (Err QuotaExceeded, s)
        end
  end.

Definition record_logical_usage (e : Env) (operation_id : Uuid) (evidence : ManagedUsageEvidence)
    : SE MemoryState ManagedError ManagedLogicalOperation := λ s,
  if negb (ue_processed_bytes evidence
           =? Z.max (ue_source_bytes evidence) (ue_expected_output_size evidence))
  then (Err Conflict, s)
  else
    match logical_operations s !! operation_id with
    | None => (Err Conflict, s)
    | Some operation =>
      if bool_decide (lo_evidence operation = Some evidence) then (Ok operation, s)
      else if bool_decide (is_Some (lo_evidence operation))
           || bool_decide (lo_state operation = LIntent)
           || terminal (lo_state operation)
           || (li_max_processed_bytes (lo_intent operation) <? ue_processed_bytes evidence)
           || (bool_decide (li_kind (lo_intent operation) = MPut)
               && bool_decide (ue_expected_output_digest evidence = None))
           || (bool_decide (li_kind (lo_intent operation) = MDelete)
               && (negb (ue_expected_output_size evidence =? 0)
                   || negb (ue_source_bytes evidence =? 0)
                   || negb (ue_processed_bytes evidence =? 0)))
      then (Err Conflict, s)
      else
        let operation := set_lo_updated_at_ms (env_now e) (set_lo_evidence (Some evidence) operation) in
        (Ok operation, upd_logical_operations <[operation_id := operation]> s)
    end.

Definition transition_logical_operation (e : Env) (operation_id : Uuid)
    (from to : ManagedLogicalOperationState) (error_class : option string)
    : SE MemoryState ManagedError ManagedLogicalOperation := λ s,
  if negb (valid_logical_transition from to) then (Err (InvalidTransition from to), s)
  else
    match logical_operations s !! operation_id with
    | None => (Err Conflict, s)
    | Some operation =>
      if negb (bool_decide (lo_state operation = from)) then (Err Conflict, s)
      else
        let operation := set_lo_updated_at_ms (env_now e)
          (set_lo_last_error_class (take_128 <$> error_class) (set_lo_state to operation)) in
        (Ok operation, upd_logical_operations <[operation_id := operation]> s)
    end.

Definition workspace_usage_of (tenant : string)
    : SE MemoryState ManagedError (option ManagedWorkspaceUsage) := λ s,
  (Ok (workspace_usage s !! tenant), s).

Section commits.
  Context `{Crypto, ManagedText}.

  (** The guards on the recorded authority that both commits share. *)
Definition authority_moved (existing : option ObjectAuthority) (i : ManagedLogicalOperationIntent) : bool :=
    negb (bool_decide (oa_cas_version <$> existing = li_expected_authority_cas i))
    || negb (live_size existing =? li_prior_logical_size i).

  (** [operation.intent.expected_authority_cas.unwrap_or(0).saturating_add(1)]. *)
Definition next_cas (expected : option Z) : Z := u64_saturating_add (default 0 expected) 1.

  (** [existing.filter(|v| !v.tombstone)] and its cleanup repairs, from UUID [n] on. *)
Definition replaced_cleanups (e : Env) (n : nat) (existing : option ObjectAuthority) : list RepairRecord :=
    match existing with
    | Some a => if oa_tombstone a then [] else cleanup_repairs e n a
    | None => []
    end.

Definition settleable (st : ManagedLogicalOperationState) : bool :=
    bool_decide (st = LCompleting) || bool_decide (st = LCommitUnknown).

  (** The guards of [commit_logical_put] on the operation and its evidence. *)
Definition put_mismatch (operation : ManagedLogicalOperation) (evidence : ManagedUsageEvidence)
      (a : ObjectAuthority) : bool :=
    let i := lo_intent operation in
    negb (bool_decide (li_kind i = MPut))
    || negb (settleable (lo_state operation))
    || negb (bool_decide (oa_logical a = li_logical i))
    || negb (bool_decide (oa_generation a = li_generation i))
    || negb (bool_decide (oa_primary_backend_id a = li_backend_id i))
    || oa_tombstone a
    || negb (bool_decide (ue_expected_output_digest evidence = Some (oa_digest a)))
    || negb (ue_expected_output_size evidence =? oa_size a).

Definition commit_logical_put (e : Env) (operation_id : Uuid) (a : ObjectAuthority)
      (physical_allocated_bytes : Z) : SE MemoryState ManagedError ManagedOperationCommit := λ s,
    let now := env_now e in
    match logical_operations s !! operation_id with
    | None => (Err Conflict, s)
    | Some operation =>
      let i := lo_intent operation in
      let tenant := lk_tenant_id (li_logical i) in
      if decide (lo_state operation = LCommitted) then
        match authorities s !! li_logical i with
        | None => (Err Conflict, s)
        | Some persisted =>
          if negb (bool_decide (oa_generation persisted = li_generation i))
             || negb (lo_committed_physical_bytes operation =? physical_allocated_bytes)
          then (Err Conflict, s)
          else
            let s := enter_usage now tenant s in
            (Ok (mkCommit operation persisted (usage_row now tenant s)), s)
        end
      else
        match lo_evidence operation with
        | None => (Err Conflict, s)
        | Some evidence =>
          if put_mismatch operation evidence a then (Err Conflict, s)
          else if fence_lost s i then (Err NamespaceFenced, s)
          else
            match physical_allocation (oa_size a) (child_version_count s i) with
            | Err x => (Err x, s)
            | Ok derived =>
              if negb (physical_allocated_bytes =? derived)
                 || (lo_reserved_physical_bytes operation <? derived)
              then (Err Conflict, s)
              else
                let existing := authorities s !! oa_logical a in
                if authority_moved existing i then (Err Conflict, s)
                else
                  let s := enter_usage now tenant s in
                  let usage := usage_row now tenant s in
                  if negb (bool_decide (wu_active_operation_id usage = Some operation_id))
                     || (wu_reserved_bytes usage <? lo_reserved_physical_bytes operation)
                  then (Err Conflict, s)
                  else
                    match (value ← u64_checked_sub (wu_visible_logical_bytes usage) (li_prior_logical_size i);
                           u64_checked_add value (oa_size a)) with
                    | None => (Err QuotaExceeded, s)
                    | Some visible =>
                      if wu_visible_limit_bytes usage <? visible then (Err QuotaExceeded, s)
                      else
                        let a := set_oa_cas_version (next_cas (li_expected_authority_cas i)) a in
                        let a := set_oa_created_at_ms
                          (match existing with Some v => oa_created_at_ms v | None => now end) a in
                        let a := set_oa_updated_at_ms now a in
                        let epoch := rf_namespace_epoch (li_fence i) in
                        let s := upd_authorities <[oa_logical a := a]> s in
                        let s := insert_repairs e epoch (publication_repairs e 0 a) s in
                        let s := insert_ledgered_repairs e epoch (replaced_cleanups e 1 existing) s in
                        let usage := set_wu_visible_logical_bytes visible (usage_row now tenant s) in
                        match u64_checked_add (wu_physical_allocated_bytes usage) derived with
                        | None => (Err QuotaExceeded, upd_workspace_usage <[tenant := usage]> s)
                        | Some allocated =>
                          let usage := set_wu_physical_allocated_bytes allocated usage in
                          match u64_checked_sub (wu_reserved_bytes usage)
                                  (lo_reserved_physical_bytes operation) with
                          | None => (Err Conflict, upd_workspace_usage <[tenant := usage]> s)
                          | Some reserved =>
                            let usage := touch_usage now (set_wu_active_operation_id None
                              (set_wu_reserved_bytes reserved usage)) in
                            let operation := set_lo_committed_at_ms (Some now) (set_lo_updated_at_ms now
                              (set_lo_committed_authority_version (Some (oa_cas_version a))
                                (set_lo_committed_physical_bytes derived
                                  (set_lo_state LCommitted operation)))) in
                            (Ok (mkCommit operation a usage),
                             upd_logical_operations <[operation_id := operation]>
                               (upd_workspace_usage <[tenant := usage]> s))
                          end
                        end
                    end
            end
        end
    end.

  (** The authority a deletion publishes. *)
Definition tombstone_authority (now : Z) (logical : LogicalObjectKey) (generation : Uuid)
      (p : Placement) (cas created : Z) : ObjectAuthority :=
    {| oa_logical := logical; oa_generation := generation; oa_digest := ""; oa_size := 0;
       oa_metadata := ∅; oa_placement_version := pl_version p;
       oa_primary_backend_id := pl_primary_backend_id p; oa_primary_version_id := None;
       oa_replica_backend_id := pl_replica_backend_id p; oa_primary_status := Absent;
       oa_replica_status := Absent; oa_tombstone := true; oa_cas_version := cas;
       oa_created_at_ms := created; oa_updated_at_ms := now |}.

Definition delete_mismatch (operation : ManagedLogicalOperation) : bool :=
    negb (bool_decide (li_kind (lo_intent operation) = MDelete))
    || negb (lo_reserved_physical_bytes operation =? 0)
    || match lo_evidence operation with
       | None => true
       | Some evidence => negb (ue_expected_output_size evidence =? 0)
                          || negb (ue_source_bytes evidence =? 0)
                          || negb (ue_processed_bytes evidence =? 0)
       end
    || negb (settleable (lo_state operation)).

Definition commit_logical_delete (e : Env) (operation_id : Uuid) (p : Placement)
      : SE MemoryState ManagedError ManagedOperationCommit := λ s,
    let now := env_now e in
    match logical_operations s !! operation_id with
    | None => (Err Conflict, s)
    | Some operation =>
      let i := lo_intent operation in
      let tenant := lk_tenant_id (li_logical i) in
      if decide (lo_state operation = LCommitted) then
        match authorities s !! li_logical i with
        | None => (Err Conflict, s)
        | Some a =>
          if oa_tombstone a && bool_decide (oa_generation a = li_generation i) then
            let s := enter_usage now tenant s in
            (Ok (mkCommit operation a (usage_row now tenant s)), s)
          else (Err Conflict, s)
        end
      else if delete_mismatch operation
      then (Err (InvalidTransition (lo_state operation) LCommitted), s)
      else if fence_lost s i then (Err NamespaceFenced, s)
      else
        let existing := authorities s !! li_logical i in
        if authority_moved existing i then (Err Conflict, s)
        else
          let s := enter_usage now tenant s in
          let usage := usage_row now tenant s in
          if negb (bool_decide (wu_active_operation_id usage = Some operation_id)) then (Err Conflict, s)
          else
            match u64_checked_sub (wu_visible_logical_bytes usage) (li_prior_logical_size i) with
            | None => (Err Conflict, s)
            | Some visible =>
              let a := tombstone_authority now (li_logical i) (li_generation i) p
                (next_cas (li_expected_authority_cas i))
                (match existing with Some v => oa_created_at_ms v | None => now end) in
              let s := upd_authorities <[oa_logical a := a]> s in
              let s := insert_ledgered_repairs e (rf_namespace_epoch (li_fence i))
                         (replaced_cleanups e 0 existing) s in
              let usage := touch_usage now (set_wu_active_operation_id None
                (set_wu_visible_logical_bytes visible (usage_row now tenant s))) in
              let operation := set_lo_committed_at_ms (Some now) (set_lo_updated_at_ms now
                (set_lo_committed_authority_version (Some (oa_cas_version a))
                  (set_lo_state LCommitted operation))) in
              (Ok (mkCommit operation a usage),
               upd_logical_operations <[operation_id := operation]>
                 (upd_workspace_usage <[tenant := usage]> s))
            end
    end.

  (** The allocation that [prove_logical_abort] charges, and the cleanup repairs
      it inserts on the way. *)
Definition aborted_allocation (e : Env) (operation : ManagedLogicalOperation)
      (physical : option ManagedProvenPhysicalAllocation) : SE MemoryState ManagedError Z := λ s,
    let i := lo_intent operation in
    let count := child_version_count s i in
    match physical with
    | None => if negb (count =? 0) then (Err Conflict, s) else (Ok 0, s)
    | Some physical =>
      match lo_evidence operation with
      | None => (Err Conflict, s)
      | Some evidence =>
        let a := pa_authority physical in
        match physical_allocation (oa_size a) count with
        | Err x => (Err x, s)
        | Ok derived =>
          if (count =? 0)
             || negb (bool_decide (oa_logical a = li_logical i))
             || negb (bool_decide (oa_generation a = li_generation i))
             || negb (bool_decide (oa_primary_backend_id a = li_backend_id i))
             || oa_tombstone a
             || negb (ue_expected_output_size evidence =? oa_size a)
             || negb (bool_decide (ue_expected_output_digest evidence = Some (oa_digest a)))
             || negb (pa_allocated_bytes physical =? derived)
             || (lo_reserved_physical_bytes operation <? derived)
          then (Err Conflict, s)
          else (Ok derived,
                insert_ledgered_repairs e (rf_namespace_epoch (li_fence i)) (cleanup_repairs e 0 a) s)
        end
      end
    end.

Definition prove_logical_abort (e : Env) (operation_id : Uuid) (error_class : string)
      (physical : option ManagedProvenPhysicalAllocation)
      : SE MemoryState ManagedError ManagedLogicalOperation := λ s,
    let now := env_now e in
    match logical_operations s !! operation_id with
    | None => (Err Conflict, s)
    | Some operation =>
      let i := lo_intent operation in
      let tenant := lk_tenant_id (li_logical i) in
      if decide (lo_state operation = LProvenAborted) then (Ok operation, s)
      else if decide (lo_state operation = LCommitted)
      then (Err (InvalidTransition (lo_state operation) LProvenAborted), s)
      else if negb (namespace_epoch s tenant =? rf_namespace_epoch (li_fence i)) then (Err Conflict, s)
      else
        match aborted_allocation e operation physical s with
        | (Err x, s) => (Err x, s)
        | (Ok allocated, s) =>
          let s := enter_usage now tenant s in
          let usage := usage_row now tenant s in
          if negb (bool_decide (lo_state operation = LIntent))
             && negb (bool_decide (wu_active_operation_id usage = Some operation_id))
          then (Err Conflict, s)
          else
            match u64_checked_sub (wu_reserved_bytes usage) (lo_reserved_physical_bytes operation) with
            | None => (Err Conflict, s)
            | Some reserved =>
              let usage := set_wu_reserved_bytes reserved usage in
              match u64_checked_add (wu_physical_allocated_bytes usage) allocated with
              | None => (Err QuotaExceeded, upd_workspace_usage <[tenant := usage]> s)
              | Some total =>
                let usage := set_wu_physical_allocated_bytes total usage in
                let usage := if decide (wu_active_operation_id usage = Some operation_id)
                             then set_wu_active_operation_id None usage else usage in
                let usage := touch_usage now usage in
                let operation := set_lo_aborted_at_ms (Some now) (set_lo_updated_at_ms now
                  (set_lo_last_error_class (Some (take_128 error_class))
                    (set_lo_settlement_state SReleased
                      (set_lo_committed_physical_bytes allocated
                        (set_lo_state LProvenAborted operation))))) in
                (Ok operation, upd_logical_operations <[operation_id := operation]>
                                 (upd_workspace_usage <[tenant := usage]> s))
              end
            end
        end
    end.
End commits.

(** ** Listings *)

(** [str]'s order on [string]. *)
Definition str_le (a b : string) : Prop := String.leb a b = true.
#[global] Instance str_le_dec : RelDecision str_le.
Proof. intros a b. unfold str_le. apply _. Defined.
Definition str_ltb (a b : string) : bool := String.ltb a b.

Definition authority_key_le (a b : ObjectAuthority) : Prop :=
  str_le (lk_key (oa_logical a)) (lk_key (oa_logical b)).
#[global] Instance authority_key_le_dec : RelDecision authority_key_le.
Proof. intros a b. unfold authority_key_le. apply _. Defined.

(** The filter of [list_authority]. *)
Definition listed (query : AuthorityListQuery) (a : ObjectAuthority) : bool :=
  bool_decide (lk_tenant_id (oa_logical a) = lq_tenant_id query)
  && bool_decide (lk_bucket (oa_logical a) = lq_bucket query)
  && negb (oa_tombstone a)
  && String.prefix (lq_prefix query) (lk_key (oa_logical a))
  && match lq_after query with
     | None => true
     | Some after => str_ltb after (lk_key (oa_logical a))
     end.

Definition list_authority (e : Env) (query : AuthorityListQuery)
    : SE MemoryState ManagedError AuthorityListPage := λ s,
  if MANAGED_AUTHORITY_LIST_MAX_KEYS <? lq_max_keys query then (Err Conflict, s)
  else if lq_max_keys query =? 0 then (Ok (mkListPage [] None), s)
  else if fenced s (lq_tenant_id query) then (Err NamespaceFenced, s)
  else
    let n := Z.to_nat (lq_max_keys query) in
    let objects := merge_sort authority_key_le
      (filter (λ a, listed query a = true) (hash_iter e (authorities s)).*2) in
    let next_after := if (n <? length objects)%nat
                      then (λ a, lk_key (oa_logical a)) <$> objects !! (n - 1)%nat else None in
    (Ok (mkListPage (take n objects) next_after), s).

(** The lexicographic order of [(tenant_id, bucket, key)]. *)
Definition logical_compare (a b : LogicalObjectKey) : comparison :=
  match String.compare (lk_tenant_id a) (lk_tenant_id b) with
  | Eq => match String.compare (lk_bucket a) (lk_bucket b) with
          | Eq => String.compare (lk_key a) (lk_key b)
          | c => c
          end
  | c => c
  end.
Definition authority_le (a b : ObjectAuthority) : Prop :=
  logical_compare (oa_logical a) (oa_logical b) ≠ Gt.
#[global] Instance authority_le_dec : RelDecision authority_le.
Proof. intros a b. unfold authority_le. apply _. Defined.

Definition cursor_logical (c : AuthorityPlacementCursor) : LogicalObjectKey :=
  mkLogical (pc_tenant_id c) (pc_bucket c) (pc_key c).

Definition below_placement (query : AuthorityPlacementPageQuery) (a : ObjectAuthority) : bool :=
  negb (oa_tombstone a)
  && (oa_placement_version a <? pq_target_placement_version query)
  && match pq_after query with
     | None => true
     | Some after => bool_decide (logical_compare (oa_logical a) (cursor_logical after) = Gt)
     end.

Definition list_authority_below_placement_version (e : Env) (query : AuthorityPlacementPageQuery)
    : SE MemoryState ManagedError AuthorityPlacementPage := λ s,
  if (MANAGED_AUTHORITY_LIST_MAX_KEYS <? pq_limit query) || (pq_target_placement_version query =? 0)
  then (Err Conflict, s)
  else if pq_limit query =? 0 then (Ok (mkPlacementPage [] None), s)
  else
    let n := Z.to_nat (pq_limit query) in
    let objects := merge_sort authority_le
      (filter (λ a, below_placement query a = true) (hash_iter e (authorities s)).*2) in
    let next_after := if (n <? length objects)%nat
      then (λ a, mkPlacementCursor (lk_tenant_id (oa_logical a)) (lk_bucket (oa_logical a))
                   (lk_key (oa_logical a))) <$> objects !! (n - 1)%nat else None in
    (Ok (mkPlacementPage (take n objects) next_after), s).

Definition authority_placement_stats (e : Env) (target_placement_version : Z)
    : SE MemoryState ManagedError AuthorityPlacementStats := λ s,
  if target_placement_version =? 0 then (Err Conflict, s)
  else
    (Ok (foldl (λ st a,
           if negb (oa_tombstone a) && (oa_placement_version a <? target_placement_version)
           then mkPlacementStats (u64_saturating_add (ps_remaining st) 1)
                  (Some (match ps_oldest_updated_at_ms st with
                         | Some oldest => Z.min oldest (oa_updated_at_ms a)
                         | None => oa_updated_at_ms a
                         end))
           else st) (mkPlacementStats 0 None) (hash_iter e (authorities s)).*2), s).

(** ** List cursors *)

(** [try_fold(0, |total, c| total.checked_add(c.response_state_bytes).ok_or(..))]. *)
Definition cursor_bytes (cs : list ManagedListCursor) : result ManagedError Z :=
  foldl (λ acc c, total ← acc;
           ok_or (u64_checked_add total (lc_response_state_bytes c)) CursorLimitExceeded)
    (Ok 0) cs.

(** [total.checked_add(bytes).is_none_or(|b| b > max)]. *)
Definition exceeds (total bytes max : Z) : bool :=
  match u64_checked_add total bytes with Some b => max <? b | None => true end.

Definition live_cursors (s : MemoryState) (e : Env) (now_ms : Z) : list ManagedListCursor :=
  filter (λ c, now_ms < lc_expires_at_ms c) (hash_iter e (list_cursors s)).*2.

Definition tenant_cursors (tenant : string) (cs : list ManagedListCursor) : list ManagedListCursor :=
  filter (λ c, cb_tenant_id (lc_binding c) = tenant) cs.

Definition create_list_cursor_in_state `{ManagedText} (e : Env) (request : ManagedListCursorRequest)
    (now_ms : Z) : SE MemoryState ManagedError ManagedListCursor := λ s,
  let tenant := cb_tenant_id (cr_binding request) in
  match serialize_cursor_response_state (cr_response_state request) with
  | Err x => (Err x, s)
  | Ok serialized =>
    let response_state_bytes := Z.of_nat (length serialized) in
    if fenced s tenant then (Err NamespaceFenced, s)
    else
      let global := live_cursors s e now_ms in
      let workspace := tenant_cursors tenant global in
      match cursor_bytes workspace, cursor_bytes global with
      | Ok workspace_bytes, Ok global_bytes =>
        if (MANAGED_LIST_CURSOR_WORKSPACE_LIMIT <=? Z.of_nat (length workspace))
           || (MANAGED_LIST_CURSOR_GLOBAL_LIMIT <=? Z.of_nat (length global))
           || exceeds workspace_bytes response_state_bytes MANAGED_LIST_CURSOR_WORKSPACE_MAX_BYTES
           || exceeds global_bytes response_state_bytes MANAGED_LIST_CURSOR_GLOBAL_MAX_BYTES
        then (Err CursorLimitExceeded, s)
        else
          let s := enter_routing tenant (enter_namespace tenant s) in
          let cursor := {| lc_id := env_uuid e 0; lc_binding := cr_binding request;
                           lc_fence := current_fence s tenant; lc_position := cr_position request;
                           lc_response_state := cr_response_state request;
                           lc_response_state_bytes := response_state_bytes;
                           lc_final_page := cr_final_page request; lc_state := CursorActive;
                           lc_created_at_ms := now_ms;
                           lc_expires_at_ms := i64_saturating_add now_ms MANAGED_LIST_CURSOR_TTL_MS;
                           lc_first_used_at_ms := None |} in
          (Ok cursor, upd_list_cursors <[lc_id cursor := cursor]> s)
      | Err x, _ | _, Err x => (Err x, s)
      end
  end.

(** [remove_list_cursor] recurses on the successor it has just removed from the
    map, so the size of that map bounds the calls. *)
Fixpoint remove_list_cursor (fuel : nat) (cursor_id : Uuid) (s : MemoryState) : MemoryState :=
  match fuel with
  | O => s
  | S fuel =>
    let s := match list_cursor_successors s !! cursor_id with
             | Some successor_id =>
               remove_list_cursor fuel successor_id
                 (upd_list_cursor_successors (delete cursor_id) s)
             | None => s
             end in
    let s := upd_list_cursor_successors (filter (λ kv, kv.2 ≠ cursor_id)) s in
    upd_list_cursors (delete cursor_id) s
  end.
Definition remove_cursor (cursor_id : Uuid) (s : MemoryState) : MemoryState :=
  remove_list_cursor (S (size (list_cursor_successors s))) cursor_id s.

Definition create_list_cursor `{ManagedText} (e : Env) (request : ManagedListCursorRequest) (now_ms : Z)
    : SE MemoryState ManagedError ManagedListCursor := create_list_cursor_in_state e request now_ms.

Definition create_list_cursor_successor `{ManagedText} (e : Env) (predecessor_cursor_id : Uuid)
    (request : ManagedListCursorRequest) (now_ms : Z)
    : SE MemoryState ManagedError ManagedListCursor := λ s,
  match list_cursor_successors s !! predecessor_cursor_id with
  | Some successor_id =>
    match list_cursors s !! successor_id with
    | None => (Err (Corrupt "managed cursor successor is missing"), s)
    | Some cursor =>
      if (lc_expires_at_ms cursor <=? now_ms)
         || negb (bool_decide (lc_fence cursor = current_fence s (cb_tenant_id (lc_binding cursor))))
      then (Err CursorExpired, s)
      else if cursor_matches_request cursor request then (Ok cursor, s) else (Err Conflict, s)
    end
  | None =>
    match create_list_cursor_in_state e request now_ms s with
    | (Err x, s) => (Err x, s)
    | (Ok cursor, s) =>
      (Ok cursor, upd_list_cursor_successors <[predecessor_cursor_id := lc_id cursor]> s)
    end
  end.

Definition use_list_cursor (cursor_id : Uuid) (binding : ManagedListCursorBinding) (now_ms : Z)
    : SE MemoryState ManagedError ManagedListCursor := λ s,
  if fenced s (cb_tenant_id binding) then (Err NamespaceFenced, s)
  else
    match list_cursors s !! cursor_id with
    | None => (Err CursorExpired, s)
    | Some cursor =>
      if lc_expires_at_ms cursor <=? now_ms then (Err CursorExpired, remove_cursor cursor_id s)
      else if negb (bool_decide (lc_binding cursor = binding)) then (Err CursorQueryMismatch, s)
      else if negb (bool_decide (lc_fence cursor = current_fence s (cb_tenant_id (lc_binding cursor))))
      then (Err CursorExpired, remove_cursor cursor_id s)
      else
        let cursor := if decide (lc_state cursor = CursorActive)
                      then set_lc_first_used_at_ms (Some now_ms) (set_lc_state CursorUsed cursor)
                      else cursor in
        (Ok cursor, upd_list_cursors <[cursor_id := cursor]> s)
    end.

Definition delete_list_cursor (cursor_id : Uuid) : SE MemoryState ManagedError unit := λ s,
  (Ok tt, remove_cursor cursor_id s).

(** The order of the pairs [(expires_at_ms, id)]. *)
Definition expiry_le (a b : Z * Uuid) : Prop := a.1 < b.1 ∨ (a.1 = b.1 ∧ (a.2 <= b.2)%N).
#[global] Instance expiry_le_dec : RelDecision expiry_le.
Proof. intros a b. unfold expiry_le. apply _. Defined.

Definition cleanup_expired_list_cursors (e : Env) (now_ms limit : Z) : SE MemoryState ManagedError Z := λ s,
  let expired := merge_sort expiry_le
    ((λ c, (lc_expires_at_ms c, lc_id c)) <$>
       filter (λ c, lc_expires_at_ms c <= now_ms) (hash_iter e (list_cursors s)).*2) in
  let expired := take (Z.to_nat limit) expired in
  (Ok (Z.of_nat (length expired)), foldl (λ s c, remove_cursor c.2 s) s expired).

(** ** Multipart activities *)

Definition REGISTRATION_TTL_MS : Z := 10 * 60 * 1000.

Definition begin_multipart_activity (e : Env) (upload_id tenant : string) : SE MemoryState ManagedError Z := λ s,
  if fenced s tenant then (Err NamespaceFenced, s)
  else
    let s := enter_namespace tenant s in
    let epoch := namespace_epoch s tenant in
    let s := upd_multipart_activities <[upload_id := (tenant, epoch)]> s in
    let s := upd_multipart_registration_expiry
               <[upload_id := i64_saturating_add (env_now e) REGISTRATION_TTL_MS]> s in
    (Ok epoch, s).

Definition assert_multipart_activity (upload_id tenant : string) (epoch : Z) (allow_purging : bool)
    : SE MemoryState ManagedError unit := λ s,
  if negb (namespace_epoch s tenant =? epoch)
     || (fenced s tenant && negb allow_purging)
     || negb (bool_decide (multipart_activities s !! upload_id = Some (tenant, epoch)))
     || negb (bool_decide (upload_id ∈ confirmed_multipart_activities s))
  then (Err NamespaceFenced, s) else (Ok tt, s).

Definition confirm_multipart_activity (upload_id tenant : string) (epoch : Z)
    : SE MemoryState ManagedError unit := λ s,
  if fenced s tenant || negb (bool_decide (multipart_activities s !! upload_id = Some (tenant, epoch)))
  then (Err NamespaceFenced, s)
  else
    let s := upd_confirmed_multipart_activities (λ c, {[upload_id]} ∪ c) s in
    (Ok tt, upd_multipart_registration_expiry (delete upload_id) s).

Definition reconcile_multipart_activities (e : Env) (limit : Z) : SE MemoryState ManagedError Z := λ s,
  let expired := (take (Z.to_nat limit)
    (filter (λ kv, kv.2 <= env_now e) (hash_iter e (multipart_registration_expiry s)))).*1 in
  (Ok (Z.of_nat (length expired)),
   foldl (λ s upload_id, upd_multipart_activities (delete upload_id)
                           (upd_multipart_registration_expiry (delete upload_id) s)) s expired).

Definition finish_multipart_activity (upload_id tenant : string) (epoch : Z)
    : SE MemoryState ManagedError unit := λ s,
  if decide (multipart_activities s !! upload_id = Some (tenant, epoch)) then
    let s := upd_multipart_activities (delete upload_id) s in
    let s := upd_confirmed_multipart_activities (λ c, c ∖ {[upload_id]}) s in
    (Ok tt, upd_multipart_registration_expiry (delete upload_id) s)
  else (Ok tt, s).

(** ** Authorities *)

Definition any_authority : SE MemoryState ManagedError bool := λ s,
  (Ok (negb (bool_decide (authorities s = ∅))), s).

Definition get (logical : LogicalObjectKey) : SE MemoryState ManagedError (option ObjectAuthority) := λ s,
  if fenced s (lk_tenant_id logical) then (Err NamespaceFenced, s)
  else (Ok (authorities s !! logical), s).

Definition publish `{Crypto, ManagedText} (e : Env) (a : ObjectAuthority) (expected_cas : option Z)
    : SE MemoryState ManagedError ObjectAuthority := λ s,
  let now := env_now e in
  let tenant := lk_tenant_id (oa_logical a) in
  if fenced s tenant then (Err NamespaceFenced, s)
  else
    let existing := authorities s !! oa_logical a in
    if negb (bool_decide (oa_cas_version <$> existing = expected_cas)) then (Err Conflict, s)
    else
      let a := set_oa_cas_version (next_cas expected_cas) a in
      let a := set_oa_created_at_ms
                 (match existing with Some v => oa_created_at_ms v | None => now end) a in
      let a := set_oa_updated_at_ms now a in
      let s := enter_namespace tenant s in
      let epoch := namespace_epoch s tenant in
      let s := upd_authorities <[oa_logical a := a]> s in
      let s := insert_repairs e epoch (publication_repairs e 0 a) s in
      let s := insert_ledgered_repairs e epoch (replaced_cleanups e 1 existing) s in
      (Ok a, s).

Definition record_placement_policy (policy : ManagedPlacementPolicy) : SE MemoryState ManagedError bool := λ s,
  match placement_policy_fingerprints s !! pp_version policy with
  | Some existing => (Ok (bool_decide (existing = pp_fingerprint policy)), s)
  | None => (Ok true, upd_placement_policy_fingerprints <[pp_version policy := pp_fingerprint policy]> s)
  end.

Definition advance_placement_version (e : Env) (logical : LogicalObjectKey) (expected_cas : Z)
    (p : Placement) : SE MemoryState ManagedError ObjectAuthority := λ s,
  if fenced s (lk_tenant_id logical) then (Err NamespaceFenced, s)
  else
    match authorities s !! logical with
    | None => (Err Conflict, s)
    | Some a =>
      if oa_tombstone a
         || negb (oa_cas_version a =? expected_cas)
         || (pl_version p <=? oa_placement_version a)
         || negb (locations_match a (pl_primary_backend_id p) (pl_replica_backend_id p))
      then (Err Conflict, s)
      else
        let a := set_oa_updated_at_ms (env_now e) (set_oa_cas_version (u64_saturating_add (oa_cas_version a) 1)
          (set_oa_placement_version (pl_version p) a)) in
        (Ok a, upd_authorities <[logical := a]> s)
    end.

(** The generation is the call's first UUID; those of the repairs follow. *)
Definition tombstone `{Crypto, ManagedText} (e : Env) (generation : Uuid) (logical : LogicalObjectKey)
    (expected_cas : option Z) (p : Placement) : SE MemoryState ManagedError ObjectAuthority :=
  publish e (tombstone_authority (env_now e) logical generation p 0 (env_now e)) expected_cas.

(** ** The repair queue *)

Definition enqueue (e : Env) (repair : RepairRecord) : SE MemoryState ManagedError unit := λ s,
  let tenant := lk_tenant_id (rr_logical repair) in
  if fenced s tenant then (Err NamespaceFenced, s)
  else
    let s := enter_namespace tenant s in
    let epoch := namespace_epoch s tenant in
    let accept := (Ok tt, insert_memory_repair e (set_rr_namespace_epoch epoch repair) s) in
    if decide (rr_kind repair = KDeleteGeneration) then
      let targets := filter (λ v, vt_tenant_id v = tenant ∧ vt_backend_id v = rr_target_backend_id repair
                                  ∧ vt_physical_key v = rr_physical_key repair) (physical_versions s) in
      if bool_decide (targets = []) then (Ok tt, s)
      else if existsb (λ v, negb (vt_namespace_epoch v =? epoch)) targets then (Err Conflict, s)
      else accept
    else
      match authorities s !! rr_logical repair with
      | Some a =>
        if negb (bool_decide (oa_generation a = rr_generation repair))
           || negb (oa_cas_version a =? rr_authority_cas_version repair)
        then (Err Conflict, s) else accept
      | None => (Err Conflict, s)
      end.

(** The filter of [claim_repairs]. *)
Definition claimable (s : MemoryState) (now : Z) (r : RepairRecord * string) : bool :=
  let '(repair, status) := r in
  let tenant := lk_tenant_id (rr_logical repair) in
  negb (fenced s tenant)
  && (namespace_epoch s tenant =? rr_namespace_epoch repair)
  && (bool_decide (status = "PENDING")
      || (bool_decide (status = "LEASED")
          && match rr_lease_expires_at_ms repair with Some expiry => expiry <=? now | None => false end))
  && (rr_not_before_ms repair <=? now).

Definition repair_le (a b : Uuid * (RepairRecord * string)) : Prop :=
  rr_updated_at_ms a.2.1 <= rr_updated_at_ms b.2.1.
#[global] Instance repair_le_dec : RelDecision repair_le.
Proof. intros a b. unfold repair_le. apply _. Defined.

(** The assignments of a claim under the lease token [token]. *)
Definition lease_repair (now : Z) (owner : string) (token : Uuid) (until : Z) (r : RepairRecord) : RepairRecord :=
  set_rr_updated_at_ms now (set_rr_lease_expires_at_ms (Some until)
    (set_rr_lease_token (Some token) (set_rr_lease_owner (Some owner) (set_rr_id token r)))).

(** The loop over the candidates; the [i]-th claim draws the call's [i]-th UUID. *)
Fixpoint claim_loop (e : Env) (owner : string) (until : Z) (i : nat)
    (candidates : list (Uuid * (RepairRecord * string))) (s : MemoryState)
    : list RepairRecord * MemoryState :=
  match candidates with
  | [] => ([], s)
  | (k, (repair, _)) :: rest =>
    let repair := lease_repair (env_now e) owner (env_uuid e i) until repair in
    let '(claimed, s) := claim_loop e owner until (S i) rest
                           (upd_repairs <[k := (repair, "LEASED")]> s) in
    (repair :: claimed, s)
  end.

Definition claim_repairs (e : Env) (owner : string) (lease_until_ms limit : Z)
    : SE MemoryState ManagedError (list RepairRecord) := λ s,
  let candidates := merge_sort repair_le
    (filter (λ kv, claimable s (env_now e) kv.2 = true) (hash_iter e (repairs s))) in
  let '(claimed, s) := claim_loop e owner lease_until_ms 0 (take (Z.to_nat limit) candidates) s in
  (Ok claimed, s).

(** [repairs.values_mut().find(|(r, _)| r.lease_token == Some(token))]. *)
Definition find_leased (e : Env) (token : Uuid) (s : MemoryState) : option (Uuid * (RepairRecord * string)) :=
  List.find (λ kv, bool_decide (rr_lease_token kv.2.1 = Some token)) (hash_iter e (repairs s)).

(** [status != "LEASED" || lease_expires_at_ms.is_none_or(|expiry| expiry <= now)]. *)
Definition lease_lapsed (now : Z) (r : RepairRecord * string) : bool :=
  negb (bool_decide (r.2 = "LEASED"))
  || match rr_lease_expires_at_ms r.1 with Some expiry => expiry <=? now | None => true end.

Definition renew_repair (e : Env) (lease_token : Uuid) (lease_until_ms : Z)
    : SE MemoryState ManagedError unit := λ s,
  match find_leased e lease_token s with
  | None => (Err Conflict, s)
  | Some (k, (repair, status)) =>
    if lease_lapsed (env_now e) (repair, status) then (Err Conflict, s)
    else
      let repair := set_rr_updated_at_ms (env_now e)
                      (set_rr_lease_expires_at_ms (Some lease_until_ms) repair) in
      (Ok tt, upd_repairs <[k := (repair, status)]> s)
  end.

Definition drop_lease (now : Z) (r : RepairRecord) : RepairRecord :=
  set_rr_updated_at_ms now (set_rr_lease_expires_at_ms None
    (set_rr_lease_token None (set_rr_lease_owner None r))).

(** The part of [complete_repair] after the repair is done: the authority it
    updates, with the placement cleanups and whether to activate them. *)
Definition repaired_authority (s : MemoryState) (repair : RepairRecord) : option ObjectAuthority :=
  a ← authorities s !! rr_logical repair;
  if negb (bool_decide (rr_kind repair = KDeleteGeneration))
     && bool_decide (oa_generation a = rr_generation repair)
     && (oa_cas_version a =? rr_authority_cas_version repair)
     && negb (oa_tombstone a)
  then Some a else None.

Definition activate_cleanups (repair : RepairRecord) (s : MemoryState) : MemoryState :=
  upd_repairs (fmap (λ r : RepairRecord * string, let '(cleanup, status) := r in
    if bool_decide (status = "WAITING_CUTOVER")
       && bool_decide (rr_logical cleanup = rr_logical repair)
       && bool_decide (rr_generation cleanup = rr_generation repair)
       && (rr_placement_version cleanup =? rr_placement_version repair)
    then (cleanup, "PENDING") else r)) s.

Definition complete_repair `{Crypto, ManagedText} (e : Env) (repair : RepairRecord)
    : SE MemoryState ManagedError bool := λ s,
  let now := env_now e in
  if negb (bool_decide (rr_lease_token repair = Some (rr_id repair))) then (Err Conflict, s)
  else if negb (namespace_epoch s (lk_tenant_id (rr_logical repair)) =? rr_namespace_epoch repair)
  then (Err Conflict, s)
  else
    match repairs s !! rr_repair_id repair with
    | None => (Err Conflict, s)
    | Some (stored, status) =>
      if lease_lapsed now (stored, status)
         || negb (bool_decide (rr_lease_token stored = Some (rr_id repair)))
      then (Err Conflict, s)
      else
        let s := upd_repairs <[rr_repair_id repair := (drop_lease now stored, "DONE")]> s in
        match repaired_authority s repair with
        | None => (Ok false, s)
        | Some previous =>
          match apply_repair_to_authority previous repair with
          | Err x => (Err x, s)
          | Ok (false, _) => (Ok false, s)
          | Ok (true, a) =>
            let a := set_oa_updated_at_ms now
                       (set_oa_cas_version (u64_saturating_add (oa_cas_version a) 1) a) in
            let s := upd_authorities <[rr_logical repair := a]> s in
            if decide (rr_kind repair = KPlacement) then
              let s := foldl (λ s cleanup, insert_memory_waiting_placement_cleanup
                           (set_rr_placement_version (rr_placement_version repair)
                             (set_rr_namespace_epoch (rr_namespace_epoch repair) cleanup)) s)
                         s (placement_cleanup_repairs e 0 previous a) in
              (Ok true, if oa_placement_version a =? rr_placement_version repair
                        then activate_cleanups repair s else s)
            else (Ok true, s)
          end
        end
    end.

Definition fail_repair (e : Env) (lease_token : Uuid) : SE MemoryState ManagedError unit := λ s,
  let now := env_now e in
  match find_leased e lease_token s with
  | None => (Err Conflict, s)
  | Some (k, (repair, status)) =>
    if lease_lapsed now (repair, status) then (Err Conflict, s)
    else
      let attempts := Z.min u32_max (rr_attempts repair + 1) in
      let repair := drop_lease now (set_rr_attempts attempts repair) in
      if MAX_REPAIR_ATTEMPTS <=? attempts
      then (Ok tt, upd_repairs <[k := (set_rr_not_before_ms 0 repair, "DEAD")]> s)
      else (Ok tt, upd_repairs
              <[k := (set_rr_not_before_ms (i64_saturating_add now (repair_backoff_ms attempts)) repair,
                      "PENDING")]> s)
  end.

Definition repair_state_counts (e : Env) : SE MemoryState ManagedError RepairStateCounts := λ s,
  (Ok (foldl (λ counts r,
         if decide (r.2 = "LEASED")
         then mkCounts (rc_pending counts) (u64_saturating_add (rc_leased counts) 1) (rc_dead counts)
         else if decide (r.2 = "DEAD")
         then mkCounts (rc_pending counts) (rc_leased counts) (u64_saturating_add (rc_dead counts) 1)
         else mkCounts (u64_saturating_add (rc_pending counts) 1) (rc_leased counts) (rc_dead counts))
       (mkCounts 0 0 0) (hash_iter e (repairs s)).*2), s).

(** ** Physical writes *)

(** May the child [intent] of [parent] start writing? *)
Definition child_refused (s : MemoryState) (intent : PhysicalWriteIntent) (parent : ManagedLogicalOperation) : bool :=
  let i := lo_intent parent in
  negb (bool_decide (lo_state parent = LOpen))
  || match workspace_usage s !! wi_tenant_id intent with
     | None => true
     | Some usage => negb (bool_decide (wu_active_operation_id usage = Some (li_operation_id i)))
     end
  || negb (bool_decide (lk_tenant_id (li_logical i) = wi_tenant_id intent))
  || negb (bool_decide (li_backend_id i = wi_backend_id intent))
  || negb (bool_decide (li_provider_bucket i = wi_provider_bucket intent))
  || negb (bool_decide (li_physical_key i = wi_physical_key intent))
  || negb (namespace_epoch s (wi_tenant_id intent) =? rf_namespace_epoch (li_fence i))
  || negb (routing_epoch s (wi_tenant_id intent) =? rf_routing_epoch (li_fence i)).

Definition parent_of (e : Env) (child : Uuid) (s : MemoryState) : option (Uuid * ManagedLogicalOperation) :=
  List.find (λ kv, bool_decide (li_primary_child_operation_id (lo_intent kv.2) = child))
    (hash_iter e (logical_operations s)).

Definition begin_physical_write (e : Env) (intent : PhysicalWriteIntent)
    : SE MemoryState ManagedError PhysicalWriteLease := λ s,
  let tenant := wi_tenant_id intent in
  let k := wi_intent_id intent in
  match validate_physical_intent intent with
  | Err x => (Err x, s)
  | Ok _ =>
    if fenced s tenant then (Err NamespaceFenced, s)
    else
      let s := enter_routing tenant (enter_namespace tenant s) in
      let epoch := namespace_epoch s tenant in
      if match parent_of e k s with Some (_, parent) => child_refused s intent parent | None => false end
      then (Err Conflict, s)
      else
        match physical_write_intents s !! k with
        | Some existing =>
          if negb (bool_decide (existing = intent))
             || negb (bool_decide (physical_write_epochs s !! k = Some epoch))
          then (Err Conflict, s)
          else
            match physical_write_tokens s !! k with
            | None => (Err Conflict, s)
            | Some token => (Ok (mkWriteLease k epoch (wi_lease_owner existing) token), s)
            end
        | None =>
          let token := env_uuid e 0 in
          let s := upd_physical_write_intents <[k := intent]> s in
          let s := upd_physical_write_leases
                     <[k := i64_saturating_add (env_now e) PHYSICAL_WRITE_LEASE_MS]> s in
          let s := upd_physical_write_tokens <[k := token]> s in
          let s := upd_physical_write_epochs <[k := epoch]> s in
          (Ok (mkWriteLease k epoch (wi_lease_owner intent) token), s)
        end
  end.

Definition pending_physical_write_intents (e : Env) (limit : Z)
    : SE MemoryState ManagedError (list DurablePhysicalWriteIntent) := λ s,
  (Ok ((λ intent,
      let k := wi_intent_id intent in
      let epoch := default 1 (physical_write_epochs s !! k) in
      mkDurableIntent intent epoch (blocked_write_intents s !! k)
        (default 0 (physical_write_leases s !! k))
        (mkWriteLease k epoch (wi_lease_owner intent) (default 0%N (physical_write_tokens s !! k))))
     <$> take (Z.to_nat limit) (hash_iter e (physical_write_intents s)).*2), s).

(** Does the repository hold the lease's token and epoch, and has it not expired? *)
Definition lease_lost (now : Z) (lease : PhysicalWriteLease) (s : MemoryState) : bool :=
  negb (bool_decide (physical_write_tokens s !! wl_intent_id lease = Some (wl_token lease)))
  || negb (bool_decide (physical_write_epochs s !! wl_intent_id lease = Some (wl_namespace_epoch lease)))
  || match physical_write_leases s !! wl_intent_id lease with
     | Some expires => expires <=? now
     | None => true
     end.

(** [physical_write_intents.get(id).is_none_or(|intent| intent.lease_owner != lease.owner)]. *)
Definition owner_lost (lease : PhysicalWriteLease) (s : MemoryState) : bool :=
  match physical_write_intents s !! wl_intent_id lease with
  | Some intent => negb (bool_decide (wi_lease_owner intent = wl_owner lease))
  | None => true
  end.

Definition renew_physical_write_intent (e : Env) (lease : PhysicalWriteLease) (lease_expires_at_ms : Z)
    : SE MemoryState ManagedError unit := λ s,
  if owner_lost lease s || lease_lost (env_now e) lease s then (Err Conflict, s)
  else (Ok tt, upd_physical_write_leases <[wl_intent_id lease := lease_expires_at_ms]> s).

Definition claim_expired_physical_write_intent (e : Env) (intent_id : Uuid) (owner : string)
    (lease_expires_at_ms : Z) : SE MemoryState ManagedError (option PhysicalWriteLease) := λ s,
  if match physical_write_leases s !! intent_id with
     | Some expires => env_now e <? expires
     | None => true
     end
  then (Ok None, s)
  else
    let token := env_uuid e 0 in
    match physical_write_epochs s !! intent_id, physical_write_intents s !! intent_id with
    | Some epoch, Some intent =>
      let s := upd_physical_write_intents <[intent_id := set_wi_lease_owner owner intent]> s in
      let s := upd_physical_write_tokens <[intent_id := token]> s in
      let s := upd_physical_write_leases <[intent_id := lease_expires_at_ms]> s in
      (Ok (Some (mkWriteLease intent_id epoch owner token)), s)
    | _, _ => (Err Conflict, s)
    end.

(** The five removals that end a write. *)
Definition drop_write (k : Uuid) (s : MemoryState) : MemoryState :=
  upd_physical_write_epochs (delete k) (upd_physical_write_tokens (delete k)
    (upd_physical_write_leases (delete k) (upd_blocked_write_intents (delete k)
      (upd_physical_write_intents (delete k) s)))).

Definition version_target (intent : PhysicalWriteIntent) (lease : PhysicalWriteLease)
    (version_id : option string) : PhysicalVersionTarget :=
  {| vt_tenant_id := wi_tenant_id intent; vt_namespace_epoch := wl_namespace_epoch lease;
     vt_backend_id := wi_backend_id intent; vt_storage_identity := wi_storage_identity intent;
     vt_credential_epoch := wi_credential_epoch intent;
     vt_provider_bucket := wi_provider_bucket intent; vt_physical_key := wi_physical_key intent;
     vt_version_id := version_id; vt_versioning_mode := wi_versioning_mode intent;
     vt_versioning_capability := wi_versioning_capability intent;
     vt_write_operation_id := wl_intent_id lease |}.

Definition same_version (a b : PhysicalVersionTarget) : bool :=
  bool_decide (vt_tenant_id a = vt_tenant_id b)
  && bool_decide (vt_backend_id a = vt_backend_id b)
  && bool_decide (vt_provider_bucket a = vt_provider_bucket b)
  && bool_decide (vt_physical_key a = vt_physical_key b)
  && bool_decide (vt_version_id a = vt_version_id b).

Definition ledger_version (target : PhysicalVersionTarget) (vs : list PhysicalVersionTarget) :=
  if existsb (λ existing, same_version existing target) vs then vs else vs ++ [target].

Definition commit_physical_write (e : Env) (lease : PhysicalWriteLease)
    (superseded_version_ids : list string) (version_id : option string)
    : SE MemoryState ManagedError unit := λ s,
  if existsb is_empty superseded_version_ids
     || match version_id with Some v => is_empty v | None => false end
  then (Err Conflict, s)
  else if owner_lost lease s || lease_lost (env_now e) lease s then (Err Conflict, s)
  else
    match physical_write_intents s !! wl_intent_id lease with
    | None => (Err Conflict, s) (* excluded by [owner_lost] *)
    | Some intent =>
      let s := drop_write (wl_intent_id lease) s in
      (Ok tt, upd_physical_versions
        (λ vs, foldl (λ vs v, ledger_version (version_target intent lease v) vs) vs
                 ((Some <$> superseded_version_ids) ++ [version_id])) s)
    end.

Definition abort_physical_write (e : Env) (lease : PhysicalWriteLease) : SE MemoryState ManagedError unit := λ s,
  if lease_lost (env_now e) lease s then (Err Conflict, s)
  else (Ok tt, drop_write (wl_intent_id lease) s).

Definition block_physical_write (e : Env) (lease : PhysicalWriteLease) (reason : string)
    : SE MemoryState ManagedError unit := λ s,
  if lease_lost (env_now e) lease s then (Err Conflict, s)
  else (Ok tt, upd_blocked_write_intents <[wl_intent_id lease := reason]> s).

Definition physical_versions_of (tenant backend provider_bucket key : string)
    : SE MemoryState ManagedError (list PhysicalVersionTarget) := λ s,
  (Ok (filter (λ v, vt_tenant_id v = tenant ∧ vt_backend_id v = backend
                    ∧ vt_provider_bucket v = provider_bucket ∧ vt_physical_key v = key)
         (physical_versions s)), s).

Definition forget_physical_version (e : Env) (target : PhysicalVersionTarget)
    : SE MemoryState ManagedError unit := λ s,
  let previous_len := length (physical_versions s) in
  let s := upd_physical_versions (filter (λ v, v ≠ target)) s in
  if (length (physical_versions s) =? previous_len)%nat
     || existsb (λ v, bool_decide (vt_write_operation_id v = vt_write_operation_id target))
          (physical_versions s)
  then (Ok tt, s)
  else
    match parent_of e (vt_write_operation_id target) s with
    | None => (Ok tt, s)
    | Some (operation_id, operation) =>
      let tenant := lk_tenant_id (li_logical (lo_intent operation)) in
      let committed := lo_committed_physical_bytes operation in
      match u64_checked_sub committed (lo_released_physical_bytes operation) with
      | None => (Err (Corrupt "managed operation released bytes exceed committed bytes"), s)
      | Some released =>
        if released <=? 0 then (Ok tt, s)
        else
          let s := enter_usage (env_now e) tenant s in
          let usage := usage_row (env_now e) tenant s in
          match u64_checked_sub (wu_physical_allocated_bytes usage) released with
          | None => (Err (Corrupt "managed physical usage is below the child allocation"), s)
          | Some allocated =>
            let usage := touch_usage (env_now e) (set_wu_physical_allocated_bytes allocated usage) in
            let operation := set_lo_updated_at_ms (env_now e)
                               (set_lo_released_physical_bytes committed operation) in
            (Ok tt, upd_logical_operations <[operation_id := operation]>
                      (upd_workspace_usage <[tenant := usage]> s))
          end
      end
    end.

(** ** Purging a namespace *)

(** The reason of a blocked write of the tenant, the first one iterated. *)
Definition blocked_reason (e : Env) (s : MemoryState) (tenant : string) : option string :=
  head (omap (λ kv : Uuid * string,
    match physical_write_intents s !! kv.1 with
    | Some intent => if decide (wi_tenant_id intent = tenant) then Some kv.2 else None
    | None => None
    end) (hash_iter e (blocked_write_intents s))).

Definition has_unresolved (s : MemoryState) (tenant : string) : bool :=
  existsb (λ kv : Uuid * ManagedLogicalOperation,
    bool_decide (lk_tenant_id (li_logical (lo_intent kv.2)) = tenant)
    && negb (terminal (lo_state kv.2))) (map_to_list (logical_operations s)).

(** Running writes, written versions or multipart activities of the tenant. *)
Definition has_physical (s : MemoryState) (tenant : string) : bool :=
  existsb (λ kv : Uuid * PhysicalWriteIntent, bool_decide (wi_tenant_id kv.2 = tenant))
    (map_to_list (physical_write_intents s))
  || existsb (λ v, bool_decide (vt_tenant_id v = tenant)) (physical_versions s)
  || existsb (λ kv : string * (string * Z), bool_decide (kv.2.1 = tenant))
       (map_to_list (multipart_activities s)).

(** What a completed purge removes and resets. *)
Definition release_all (now : Z) (tenant : string) (o : ManagedLogicalOperation) : ManagedLogicalOperation :=
  if decide (lk_tenant_id (li_logical (lo_intent o)) = tenant)
  then set_lo_updated_at_ms now (set_lo_released_physical_bytes (lo_committed_physical_bytes o) o)
  else o.

Definition clear_usage (now : Z) (u : ManagedWorkspaceUsage) : ManagedWorkspaceUsage :=
  touch_usage now (set_wu_active_operation_id None (set_wu_reserved_bytes 0
    (set_wu_physical_allocated_bytes 0 (set_wu_visible_logical_bytes 0 u)))).

Definition purge_cursors (tenant : string) (s : MemoryState) : MemoryState :=
  let s := upd_list_cursors (filter (λ kv, cb_tenant_id (lc_binding kv.2) ≠ tenant)) s in
  upd_list_cursor_successors (filter (λ kv,
    is_Some (list_cursors s !! kv.1) ∧ is_Some (list_cursors s !! kv.2))) s.

(** [*epochs.entry(tenant).or_insert(1) += 1]. *)
Definition bump_epochs (tenant : string) (s : MemoryState) : MemoryState :=
  let s := upd_namespace_epochs <[tenant := u64_wrap (namespace_epoch s tenant + 1)]> s in
  upd_routing_epochs <[tenant := u64_wrap (routing_epoch s tenant + 1)]> s.

Definition clear_namespace (now : Z) (tenant : string) (s : MemoryState) : MemoryState :=
  let s := upd_authorities (filter (λ kv, lk_tenant_id kv.1 ≠ tenant)) s in
  let s := upd_repairs (filter (λ kv, lk_tenant_id (rr_logical kv.2.1) ≠ tenant)) s in
  let s := upd_logical_operations (fmap (release_all now tenant)) s in
  let s := upd_workspace_usage (alter (clear_usage now) tenant) s in
  let s := purge_cursors tenant s in
  let s := upd_fenced_namespaces (delete tenant) s in
  bump_epochs tenant s.

Definition set_purge_status (operation_id : Uuid) (status : NamespacePurgeStatus) : MemoryState → MemoryState :=
  upd_purges (alter (set_mp_status status) operation_id).

Definition finish_purge (e : Env) (operation_id : Uuid) (s : MemoryState) : NamespacePurgeStatus * MemoryState :=
  match purges s !! operation_id with
  | None => (PurgeBlocked "managed namespace purge operation was not found", s)
  | Some purge =>
    match mp_status purge with
    | PurgeComplete n => (PurgeComplete n, s)
    | status =>
      let tenant := mp_tenant_id purge in
      match blocked_reason e s tenant with
      | Some reason => (PurgeBlocked reason, set_purge_status operation_id (PurgeBlocked reason) s)
      | None =>
        if has_unresolved s tenant then
          let blocked := PurgeBlocked "managed namespace has unresolved logical operations" in
          (blocked, set_purge_status operation_id blocked s)
        else if has_physical s tenant then (status, s)
        else
          let complete := PurgeComplete (mp_deleted_versions purge) in
          (complete, set_purge_status operation_id complete (clear_namespace (env_now e) tenant s))
      end
    end
  end.

Section purge.
  Context `{Crypto, ManagedText}.

  (** The backends that must hold a ledgered version of a live authority. *)
Definition required_backends (a : ObjectAuthority) : list string :=
    oa_primary_backend_id a ::
    match oa_replica_backend_id a with
    | Some replica => if decide (oa_replica_status a = Ready) then [replica] else []
    | None => []
    end.

  (** The first backend, in iteration order, whose version is not ledgered. *)
Definition unledgered (e : Env) (s : MemoryState) (tenant : string) : option string :=
    head (a ← (hash_iter e (authorities s)).*2;
          if bool_decide (lk_tenant_id (oa_logical a) = tenant) && negb (oa_tombstone a)
          then filter (λ b, ledgered s tenant b (generation_physical_key (oa_logical a) (oa_generation a)) = false)
                 (required_backends a)
          else []).

Definition purge_namespace (e : Env) (request : NamespacePurgeRequest)
      : SE MemoryState ManagedError NamespacePurgeStatus := λ s,
    let tenant := pr_tenant_id request in
    let id := pr_operation_id request in
    let finish s := let '(status, s) := finish_purge e id s in (Ok status, s) in
    match purges s !! id with
    | Some purge =>
      if negb (bool_decide (mp_tenant_id purge = tenant))
      then (Ok (PurgeBlocked "purge operation belongs to another namespace"), s)
      else finish s
    | None =>
      if fenced s tenant
      then (Ok (PurgeBlocked "another managed namespace purge is already running"), s)
      else
        match unledgered e s tenant with
        | Some backend_id =>
          (Ok (PurgeBlocked
             ("managed authority references unledgered physical versions on backend " +:+ backend_id)), s)
        | None =>
          let s := upd_fenced_namespaces <[tenant := id]> s in
          finish (upd_purges <[id := mkPurge tenant PurgeRunning 0]> s)
        end
    end.
End purge.

Definition namespace_purge_status (e : Env) (request : NamespacePurgeRequest)
    : SE MemoryState ManagedError NamespacePurgeStatus := λ s,
  let '(status, s) := finish_purge e (pr_operation_id request) s in (Ok status, s).

Definition purge_targets (request : NamespacePurgeRequest) (limit : Z)
    : SE MemoryState ManagedError (list PhysicalVersionTarget) := λ s,
  match purges s !! pr_operation_id request with
  | Some purge =>
    if negb (bool_decide (mp_tenant_id purge = pr_tenant_id request)) then (Err Conflict, s)
    else (Ok (take (Z.to_nat limit)
                (filter (λ v, vt_tenant_id v = pr_tenant_id request) (physical_versions s))), s)
  | None => (Err Conflict, s)
  end.

Definition mark_purge_target_deleted (request : NamespacePurgeRequest) (target : PhysicalVersionTarget)
    : SE MemoryState ManagedError unit := λ s,
  let before := length (physical_versions s) in
  let s := upd_physical_versions (filter (λ v, v ≠ target)) s in
  if (length (physical_versions s) =? before)%nat then (Ok tt, s)
  else (Ok tt, upd_purges (alter (λ p, set_mp_status PurgeRunning
                  (set_mp_deleted_versions (u64_saturating_add (mp_deleted_versions p) 1) p))
                (pr_operation_id request)) s).

Definition mark_purge_target_blocked (request : NamespacePurgeRequest) (reason : string)
    : SE MemoryState ManagedError unit := λ s,
  (Ok tt, set_purge_status (pr_operation_id request) (PurgeBlocked reason) s).

(** [validate_mode] over the repository's [any_authority] and [is_durable]. *)
Definition validate_mode (mode : ManagedStreamingMode) (is_durable development : bool)
    : SE MemoryState ManagedError unit := λ s,
  if bool_decide (mode = ModeOff) && negb (bool_decide (authorities s = ∅)) then (Err OffAfterAuthority, s)
  else if negb (bool_decide (mode = ModeOff)) && negb is_durable && negb development
  then (Err (Persistence "managed observe/enforce mode requires DATABASE_URL"), s)
  else (Ok tt, s).
