(* ===== verification/ManagedUsage.v ===== *)
(** * Managed storage: the calls, and the accounting of bytes

    [ManagedCall] lists the methods of the repository that can change it,
    [managed_step] runs one, and [mreach] is what any sequence of calls reaches.
    The invariant [accounted] says that the counters of a workspace are exactly
    the sums over its logical operations and stay within the quota.  From it
    follow that a refused call leaves the repository as it was, and that an
    operation can always be settled. *)

From S2P Require Import Prelude Operation Integrity Managed ManagedRepo.
From stdpp Require Import sorting.

#[local] Open Scope Z_scope.
Set Default Goal Selector "!".

(** ** The calls *)

Inductive ManagedCall : Type :=
| CRouteFence (tenant : string)
| CAdvanceRouting (tenant : string) (expected : Z)
| CInsertOp (intent : ManagedLogicalOperationIntent)
| CReserve (id : Uuid) (bytes : Z)
| CRecordUsage (id : Uuid) (evidence : ManagedUsageEvidence)
| CCommitPut (id : Uuid) (a : ObjectAuthority) (bytes : Z)
| CCommitDelete (id : Uuid) (p : Placement)
| CTransition (id : Uuid) (from to : ManagedLogicalOperationState) (error_class : option string)
| CProveAbort (id : Uuid) (error_class : string) (physical : option ManagedProvenPhysicalAllocation)
| CCreateCursor (request : ManagedListCursorRequest) (now_ms : Z)
| CCreateSuccessor (id : Uuid) (request : ManagedListCursorRequest) (now_ms : Z)
| CUseCursor (id : Uuid) (binding : ManagedListCursorBinding) (now_ms : Z)
| CDeleteCursor (id : Uuid)
| CCleanupCursors (now_ms limit : Z)
| CBeginMultipart (upload_id tenant : string)
| CConfirmMultipart (upload_id tenant : string) (epoch : Z)
| CReconcileMultipart (limit : Z)
| CFinishMultipart (upload_id tenant : string) (epoch : Z)
| CPublish (a : ObjectAuthority) (expected_cas : option Z)
| CRecordPolicy (policy : ManagedPlacementPolicy)
| CAdvancePlacement (logical : LogicalObjectKey) (expected_cas : Z) (p : Placement)
| CTombstone (generation : Uuid) (logical : LogicalObjectKey) (expected_cas : option Z) (p : Placement)
| CEnqueue (repair : RepairRecord)
| CClaimRepairs (owner : string) (until limit : Z)
| CRenewRepair (token : Uuid) (until : Z)
| CCompleteRepair (repair : RepairRecord)
| CFailRepair (token : Uuid)
| CBeginWrite (intent : PhysicalWriteIntent)
| CRenewWrite (lease : PhysicalWriteLease) (expires : Z)
| CClaimWrite (id : Uuid) (owner : string) (expires : Z)
| CCommitWrite (lease : PhysicalWriteLease) (superseded : list string) (version : option string)
| CAbortWrite (lease : PhysicalWriteLease)
| CBlockWrite (lease : PhysicalWriteLease) (reason : string)
| CForget (target : PhysicalVersionTarget)
| CPurge (request : NamespacePurgeRequest)
| CPurgeStatus (request : NamespacePurgeRequest)
| CMarkDeleted (request : NamespacePurgeRequest) (target : PhysicalVersionTarget)
| CMarkBlocked (request : NamespacePurgeRequest) (reason : string).

Section managed.
  Context `{Crypto, ManagedText}.

  (** The repository after a call, and the error the call returned if it failed.
      The methods left out only read. *)
Definition call_run (e : Env) (c : ManagedCall) (s : MemoryState) : option ManagedError * MemoryState :=
    let out {A} (r : result ManagedError A * MemoryState) :=
      (match r.1 with Ok _ => None | Err x => Some x end, r.2) in
    match c with
    | CRouteFence t => out (route_fence t s)
    | CAdvanceRouting t n => out (advance_routing_epoch t n s)
    | CInsertOp i => out (insert_logical_operation e i s)
    | CReserve id n => out (reserve_logical_operation e id n s)
    | CRecordUsage id ev => out (record_logical_usage e id ev s)
    | CCommitPut id a n => out (commit_logical_put e id a n s)
    | CCommitDelete id p => out (commit_logical_delete e id p s)
    | CTransition id f t c => out (transition_logical_operation e id f t c s)
    | CProveAbort id c p => out (prove_logical_abort e id c p s)
    | CCreateCursor r now => out (create_list_cursor e r now s)
    | CCreateSuccessor id r now => out (create_list_cursor_successor e id r now s)
    | CUseCursor id b now => out (use_list_cursor id b now s)
    | CDeleteCursor id => out (delete_list_cursor id s)
    | CCleanupCursors now l => out (cleanup_expired_list_cursors e now l s)
    | CBeginMultipart u t => out (begin_multipart_activity e u t s)
    | CConfirmMultipart u t n => out (confirm_multipart_activity u t n s)
    | CReconcileMultipart l => out (reconcile_multipart_activities e l s)
    | CFinishMultipart u t n => out (finish_multipart_activity u t n s)
    | CPublish a c => out (publish e a c s)
    | CRecordPolicy p => out (record_placement_policy p s)
    | CAdvancePlacement k c p => out (advance_placement_version e k c p s)
    | CTombstone g k c p => out (tombstone e g k c p s)
    | CEnqueue r => out (enqueue e r s)
    | CClaimRepairs o u l => out (claim_repairs e o u l s)
    | CRenewRepair t u => out (renew_repair e t u s)
    | CCompleteRepair r => out (complete_repair e r s)
    | CFailRepair t => out (fail_repair e t s)
    | CBeginWrite i => out (begin_physical_write e i s)
    | CRenewWrite l x => out (renew_physical_write_intent e l x s)
    | CClaimWrite id o x => out (claim_expired_physical_write_intent e id o x s)
    | CCommitWrite l vs v => out (commit_physical_write e l vs v s)
    | CAbortWrite l => out (abort_physical_write e l s)
    | CBlockWrite l r => out (block_physical_write e l r s)
    | CForget t => out (forget_physical_version e t s)
    | CPurge r => out (purge_namespace e r s)
    | CPurgeStatus r => out (namespace_purge_status e r s)
    | CMarkDeleted r t => out (mark_purge_target_deleted r t s)
    | CMarkBlocked r x => out (mark_purge_target_blocked r x s)
    end.
Definition managed_step (e : Env) (c : ManagedCall) (s : MemoryState) : MemoryState := (call_run e c s).2.
Definition call_error (e : Env) (c : ManagedCall) (s : MemoryState) : option ManagedError := (call_run e c s).1.

  (** The [u64] arguments that enter the byte counters are in range. *)
Definition call_ok (c : ManagedCall) : Prop :=
    match c with
    | CReserve _ n => is_u64 n
    | CInsertOp i => is_u64 (li_prior_logical_size i)
    | CCommitPut _ a _ | CPublish a _ => is_u64 (oa_size a)
    | CProveAbort _ _ (Some p) => is_u64 (oa_size (pa_authority p))
    | _ => True
    end.

Inductive mreach : MemoryState → Prop :=
  | mreach_new : mreach managed_new
  | mreach_step e c s : mreach s → call_ok c → mreach (managed_step e c s).
End managed.

(** ** Sums over the image of a map *)

Section image.
  Context `{Countable K} {A : Type}.
  Implicit Types (f g : A → Z) (m : gmap K A).

Lemma sumZ_ext f g m : (∀ k a, m !! k = Some a → f a = g a) → sumZ f m = sumZ g m.
Proof.
    intros Hfg. apply Z.le_antisymm; apply sumZ_mono; intros k a Ha; rewrite (Hfg k a Ha); lia.
Qed.

Lemma sumZ_fmap f (h : A → A) m : sumZ f (h <$> m) = sumZ (λ a, f (h a)) m.
Proof.
    induction m as [|k a m Hk IH] using map_ind; [by rewrite fmap_empty, !sumZ_empty|].
    rewrite fmap_insert, !sumZ_insert, IH; [done|done|]. by rewrite lookup_fmap, Hk.
Qed.
End image.

(** ** The accounting invariant *)

Definition op_tenant (o : ManagedLogicalOperation) : string := lk_tenant_id (li_logical (lo_intent o)).

(** Has the operation reserved space and not been settled? *)
Definition op_active (o : ManagedLogicalOperation) : bool :=
  match lo_state o with LOpen | LCompleting | LCommitUnknown => true | _ => false end.

Definition reserved_part (t : string) (o : ManagedLogicalOperation) : Z :=
  if bool_decide (op_tenant o = t) && op_active o then lo_reserved_physical_bytes o else 0.
Definition allocated_part (t : string) (o : ManagedLogicalOperation) : Z :=
  if bool_decide (op_tenant o = t)
  then lo_committed_physical_bytes o - lo_released_physical_bytes o else 0.

Definition bytes_limit : Z := MANAGED_VISIBLE_LIMIT_BYTES + MANAGED_REPLACEMENT_HEADROOM_BYTES.

(** The usage row of a tenant; a tenant without one has used nothing. *)
Definition urow (us : gmap string ManagedWorkspaceUsage) (t : string) : ManagedWorkspaceUsage :=
  default (new_usage 0 t) (us !! t).

Record op_wf (k : Uuid) (o : ManagedLogicalOperation) : Prop := {
  op_key : li_operation_id (lo_intent o) = k;
  op_prior : 0 <= li_prior_logical_size (lo_intent o);
  op_reserved : 0 <= lo_reserved_physical_bytes o;
  op_released : 0 <= lo_released_physical_bytes o <= lo_committed_physical_bytes o;
  op_unsettled : terminal (lo_state o) = false → lo_committed_physical_bytes o = 0;
  op_unreserved : lo_state o = LIntent → lo_reserved_physical_bytes o = 0;
}.

(** The row [u] accounts for the operations [ops] of tenant [t]. *)
Record row_ok (ops : gmap Uuid ManagedLogicalOperation) (t : string) (u : ManagedWorkspaceUsage) : Prop := {
  row_limit : wu_visible_limit_bytes u = MANAGED_VISIBLE_LIMIT_BYTES;
  row_headroom : wu_replacement_headroom_bytes u = MANAGED_REPLACEMENT_HEADROOM_BYTES;
  row_visible : 0 <= wu_visible_logical_bytes u <= MANAGED_VISIBLE_LIMIT_BYTES;
  row_reserved : wu_reserved_bytes u = sumZ (reserved_part t) ops;
  row_allocated : wu_physical_allocated_bytes u = sumZ (allocated_part t) ops;
  row_bound : wu_physical_allocated_bytes u + wu_reserved_bytes u <= bytes_limit;
  row_active id : wu_active_operation_id u = Some id ↔
    ∃ o, ops !! id = Some o ∧ op_tenant o = t ∧ op_active o = true;
}.

Record accounted (ops : gmap Uuid ManagedLogicalOperation) (us : gmap string ManagedWorkspaceUsage) : Prop := {
  acc_wf k o : ops !! k = Some o → op_wf k o;
  acc_row t : row_ok ops t (urow us t);
}.

Lemma op_active_terminal o : op_active o = true → terminal (lo_state o) = false.
Proof. unfold op_active. by destruct (lo_state o). Qed.
Lemma op_active_not_intent o : op_active o = true → lo_state o ≠ LIntent.
Proof. unfold op_active. by destruct (lo_state o). Qed.

Lemma reserved_part_nonneg k t o : op_wf k o → 0 <= reserved_part t o.
Proof. intros []. unfold reserved_part. case_match; lia. Qed.
Lemma allocated_part_nonneg k t o : op_wf k o → 0 <= allocated_part t o.
Proof. intros []. unfold allocated_part. case_match; lia. Qed.

(** The same row up to timestamps and version. *)
Definition same_bytes (u v : ManagedWorkspaceUsage) : Prop :=
  wu_visible_limit_bytes u = wu_visible_limit_bytes v
  ∧ wu_replacement_headroom_bytes u = wu_replacement_headroom_bytes v
  ∧ wu_visible_logical_bytes u = wu_visible_logical_bytes v
  ∧ wu_reserved_bytes u = wu_reserved_bytes v
  ∧ wu_physical_allocated_bytes u = wu_physical_allocated_bytes v
  ∧ wu_active_operation_id u = wu_active_operation_id v.

Lemma row_ok_bytes ops t u v : same_bytes u v → row_ok ops t u → row_ok ops t v.
Proof.
  intros (E1 & E2 & E3 & E4 & E5 & E6) [].
  split; rewrite <- ?E1, <- ?E2, <- ?E3, <- ?E4, <- ?E5, <- ?E6; done.
Qed.

Lemma usage_row_urow now t s : same_bytes (usage_row now t s) (urow (workspace_usage s) t).
Proof. unfold usage_row, urow. by destruct (workspace_usage s !! t). Qed.

Lemma lookup_or_insert `{Countable K} {A} (k j : K) (v : A) (m : gmap K A) :
  or_insert k v m !! j =
    if decide (k = j) then Some (default v (m !! k)) else m !! j.
Proof.
  unfold or_insert. destruct (m !! k) as [a|] eqn:E; case_decide as D; subst; simpl; [done|done|..].
  - by rewrite lookup_insert_eq.
  - by rewrite lookup_insert_ne.
Qed.

Lemma urow_or_insert us t t' now :
  same_bytes (urow us t') (urow (or_insert t (new_usage now t) us) t').
Proof.
  unfold urow. rewrite lookup_or_insert. case_decide as D; [subst t'|done].
  by destruct (us !! t).
Qed.

Lemma accounted_enter ops us t now :
  accounted ops us → accounted ops (or_insert t (new_usage now t) us).
Proof.
  intros [Hwf Hrow]. split; [done|]. intros t'.
  eapply row_ok_bytes; [apply urow_or_insert|apply Hrow].
Qed.

(** One operation and the row of its tenant change together. *)
Lemma accounted_update ops us id o o' u' :
  accounted ops us → ops !! id = Some o → op_tenant o' = op_tenant o → op_wf id o' →
  let t := op_tenant o in
  let u := urow us t in
  wu_visible_limit_bytes u' = wu_visible_limit_bytes u →
  wu_replacement_headroom_bytes u' = wu_replacement_headroom_bytes u →
  0 <= wu_visible_logical_bytes u' <= MANAGED_VISIBLE_LIMIT_BYTES →
  wu_reserved_bytes u' = wu_reserved_bytes u - reserved_part t o + reserved_part t o' →
  wu_physical_allocated_bytes u' = wu_physical_allocated_bytes u - allocated_part t o + allocated_part t o' →
  wu_physical_allocated_bytes u' + wu_reserved_bytes u' <= bytes_limit →
  (∀ j, wu_active_operation_id u' = Some j ↔
     (j ≠ id ∧ wu_active_operation_id u = Some j) ∨ (j = id ∧ op_active o' = true)) →
  accounted (<[id := o']> ops) (<[t := u']> us).
Proof.
  intros [Hwf Hrow] Ho Ht Ho' t u HL HH Hvis Hres Hall Hb Hact. split.
  - intros k x. destruct (decide (k = id)) as [->|Hk].
    + rewrite lookup_insert_eq. by intros [= <-].
    + rewrite lookup_insert_ne by done. apply Hwf.
  - intros t'. specialize (Hrow t') as Hr. unfold urow. destruct (decide (t = t')) as [<-|Ht'].
    + rewrite lookup_insert_eq. simpl. destruct Hr as [h1 h2 h3 h4 h5 h6 h7].
      split; fold u in h1, h2, h4, h5, h7 |- *; [congruence|congruence|done| | |done|].
      * rewrite (sumZ_update _ _ _ o) by done. lia.
      * rewrite (sumZ_update _ _ _ o) by done. lia.
      * intros j. rewrite Hact, h7. destruct (decide (j = id)) as [->|Hj].
        -- rewrite lookup_insert_eq. naive_solver.
        -- rewrite lookup_insert_ne by done. naive_solver.
    + rewrite lookup_insert_ne by done. fold (urow us t'). destruct Hr as [h1 h2 h3 h4 h5 h6 h7].
      assert (reserved_part t' o = 0 ∧ reserved_part t' o' = 0) as [Z1 Z2].
      { unfold reserved_part. rewrite Ht. by rewrite !bool_decide_eq_false_2. }
      assert (allocated_part t' o = 0 ∧ allocated_part t' o' = 0) as [Z3 Z4].
      { unfold allocated_part. rewrite Ht. by rewrite !bool_decide_eq_false_2. }
      split; rewrite ?(sumZ_update _ _ _ o) by done; try done; [lia|lia|].
      intros j. rewrite h7. destruct (decide (j = id)) as [->|Hj].
      * rewrite lookup_insert_eq, Ho. unfold t in Ht'. naive_solver congruence.
      * by rewrite lookup_insert_ne.
Qed.

(** The same when the row stays: the operation's share does not change. *)
Lemma accounted_alter ops us id o o' :
  accounted ops us → ops !! id = Some o → op_tenant o' = op_tenant o → op_wf id o' →
  op_active o' = op_active o →
  lo_reserved_physical_bytes o' = lo_reserved_physical_bytes o →
  lo_committed_physical_bytes o' = lo_committed_physical_bytes o →
  lo_released_physical_bytes o' = lo_released_physical_bytes o →
  accounted (<[id := o']> ops) us.
Proof.
  intros [Hwf Hrow] Ho Ht Ho' Ha Hr Hc Hl. split.
  - intros k x. destruct (decide (k = id)) as [->|Hk].
    + rewrite lookup_insert_eq. by intros [= <-].
    + rewrite lookup_insert_ne by done. apply Hwf.
  - intros t. destruct (Hrow t) as [h1 h2 h3 h4 h5 h6 h7].
    split; rewrite ?(sumZ_update _ _ _ o) by done; try done.
    + unfold reserved_part at 2 3. rewrite Ht, Ha, Hr. lia.
    + unfold allocated_part at 2 3. rewrite Ht, Hc, Hl. lia.
    + intros j. rewrite h7. destruct (decide (j = id)) as [->|Hj].
      * rewrite lookup_insert_eq, Ho. naive_solver congruence.
      * by rewrite lookup_insert_ne.
Qed.

(** A new operation has no share. *)
Lemma accounted_insert ops us id o :
  accounted ops us → ops !! id = None → op_wf id o → lo_state o = LIntent →
  accounted (<[id := o]> ops) us.
Proof.
  intros [Hwf Hrow] Ho Hw Hs.
  pose proof (op_unsettled _ _ Hw) as Hc. pose proof (op_unreserved _ _ Hw Hs) as Hz.
  pose proof (op_released _ _ Hw) as Hl. rewrite Hs in Hc. specialize (Hc eq_refl).
  split.
  - intros k x. destruct (decide (k = id)) as [->|Hk].
    + rewrite lookup_insert_eq. by intros [= <-].
    + rewrite lookup_insert_ne by done. apply Hwf.
  - intros t. destruct (Hrow t) as [h1 h2 h3 h4 h5 h6 h7].
    split; rewrite ?sumZ_insert by done; try done.
    + unfold reserved_part at 1. rewrite Hz. case_match; lia.
    + unfold allocated_part at 1. case_match; lia.
    + intros j. rewrite h7. destruct (decide (j = id)) as [->|Hj].
      * rewrite lookup_insert_eq, Ho. split; [by intros (?&?&?)|].
        intros (x & [= <-] & _ & Ha). unfold op_active in Ha. by rewrite Hs in Ha.
      * by rewrite lookup_insert_ne.
Qed.

(** The bytes an operation keeps reserved. *)
Definition held (o : ManagedLogicalOperation) : Z :=
  if op_active o then lo_reserved_physical_bytes o else 0.

Lemma allocated_part_eq o : allocated_part (op_tenant o) o = lo_committed_physical_bytes o - lo_released_physical_bytes o.
Proof. unfold allocated_part. by rewrite bool_decide_eq_true_2. Qed.
Lemma reserved_part_eq o :
  reserved_part (op_tenant o) o = held o.
Proof. unfold reserved_part. by rewrite bool_decide_eq_true_2. Qed.

(** The update read off the row a method has at hand. *)
Lemma accounted_settle now s id o o' u' :
  accounted (logical_operations s) (workspace_usage s) →
  logical_operations s !! id = Some o → op_tenant o' = op_tenant o → op_wf id o' →
  let u := usage_row now (op_tenant o) s in
  wu_visible_limit_bytes u' = wu_visible_limit_bytes u →
  wu_replacement_headroom_bytes u' = wu_replacement_headroom_bytes u →
  0 <= wu_visible_logical_bytes u' <= MANAGED_VISIBLE_LIMIT_BYTES →
  wu_reserved_bytes u' = wu_reserved_bytes u - held o + held o' →
  wu_physical_allocated_bytes u' =
    wu_physical_allocated_bytes u
    - (lo_committed_physical_bytes o - lo_released_physical_bytes o)
    + (lo_committed_physical_bytes o' - lo_released_physical_bytes o') →
  wu_physical_allocated_bytes u' + wu_reserved_bytes u' <= bytes_limit →
  (∀ j, wu_active_operation_id u' = Some j ↔
     (j ≠ id ∧ wu_active_operation_id u = Some j) ∨ (j = id ∧ op_active o' = true)) →
  accounted (<[id := o']> (logical_operations s)) (<[op_tenant o := u']> (workspace_usage s)).
Proof.
  intros HA Ho Ht Hwf u. destruct (usage_row_urow now (op_tenant o) s) as (E1 & E2 & E3 & E4 & E5 & E6).
  unfold u. rewrite E1, E2, E4, E5, E6. intros. apply accounted_update; try done.
  - rewrite reserved_part_eq, <- Ht, reserved_part_eq, Ht. done.
  - rewrite allocated_part_eq, <- Ht, allocated_part_eq, Ht. done.
Qed.

(** What the invariant says of the row a method has at hand. *)
Lemma accounted_row now s t :
  accounted (logical_operations s) (workspace_usage s) → row_ok (logical_operations s) t (usage_row now t s).
Proof.
  intros HA. eapply row_ok_bytes; [|apply (acc_row _ _ HA t)].
  destruct (usage_row_urow now t s) as (?&?&?&?&?&?). by repeat split.
Qed.

(** An active operation is the one its row names, with its reservation counted. *)
Lemma accounted_active now s id o :
  accounted (logical_operations s) (workspace_usage s) →
  logical_operations s !! id = Some o → op_active o = true →
  wu_active_operation_id (usage_row now (op_tenant o) s) = Some id
  ∧ wu_reserved_bytes (usage_row now (op_tenant o) s) = lo_reserved_physical_bytes o.
Proof.
  intros HA Ho Ha. pose proof (accounted_row now s (op_tenant o) HA) as [_ _ _ Hr _ _ Hact].
  assert (wu_active_operation_id (usage_row now (op_tenant o) s) = Some id) as E.
  { apply Hact. by exists o. }
  split; [done|]. rewrite Hr.
  assert (lo_reserved_physical_bytes o = reserved_part (op_tenant o) o) as ->.
  { unfold reserved_part. by rewrite bool_decide_eq_true_2, Ha. }
  transitivity (sumZ (reserved_part (op_tenant o)) (delete id (logical_operations s))
                + reserved_part (op_tenant o) o); [rewrite (sumZ_delete _ _ _ o) by done; lia|].
  rewrite sumZ_zero; [lia|]. intros k x [Hk Hx]%lookup_delete_Some.
  unfold reserved_part. case_bool_decide as Et; [|done]. destruct (op_active x) eqn:Ex; [|done].
  exfalso. apply Hk. assert (Some id = Some k) by (rewrite <- E; apply Hact; by exists x). congruence.
Qed.

Lemma accounted_allocated_ge now s id o :
  accounted (logical_operations s) (workspace_usage s) → logical_operations s !! id = Some o →
  lo_committed_physical_bytes o - lo_released_physical_bytes o
    <= wu_physical_allocated_bytes (usage_row now (op_tenant o) s).
Proof.
  intros HA Ho. rewrite (row_allocated _ _ _ (accounted_row now s (op_tenant o) HA)).
  etransitivity; [|apply (sumZ_member _ _ id o); [|done]].
  - unfold allocated_part. rewrite bool_decide_eq_true_2; done.
  - intros k a Ha. eapply allocated_part_nonneg, (acc_wf _ _ HA), Ha.
Qed.

Lemma accounted_nonneg now s t :
  accounted (logical_operations s) (workspace_usage s) →
  0 <= wu_reserved_bytes (usage_row now t s) ∧ 0 <= wu_physical_allocated_bytes (usage_row now t s).
Proof.
  intros HA. destruct (accounted_row now s t HA) as [_ _ _ -> -> _ _].
  split; apply sumZ_nonneg; intros k o Ho.
  - by eapply reserved_part_nonneg, (acc_wf _ _ HA).
  - by eapply allocated_part_nonneg, (acc_wf _ _ HA).
Qed.

(** ** Repairs leave the other fields alone *)

Lemma insert_memory_repair_frame e r s : ∃ m, insert_memory_repair e r s = upd_repairs (λ _, m) s.
Proof.
  unfold insert_memory_repair. destruct s.
  repeat case_match; first [by eexists | eexists; reflexivity].
Qed.

Lemma fold_repairs_frame {A} (f : MemoryState → A → MemoryState) l s :
  (∀ a s, ∃ m, f s a = upd_repairs (λ _, m) s) → ∃ m, foldl f s l = upd_repairs (λ _, m) s.
Proof.
  intros Hf. revert s. induction l as [|a l IH]; intros s.
  - exists (repairs s). by destruct s.
  - destruct (Hf a s) as [m Em]. simpl. rewrite Em. destruct (IH (upd_repairs (λ _, m) s)) as [m' ->].
    by exists m'.
Qed.

Lemma insert_repairs_frame e n rs s : ∃ m, insert_repairs e n rs s = upd_repairs (λ _, m) s.
Proof. apply fold_repairs_frame. intros r s'. apply insert_memory_repair_frame. Qed.

Lemma insert_ledgered_repairs_frame e n rs s :
  ∃ m, insert_ledgered_repairs e n rs s = upd_repairs (λ _, m) s.
Proof.
  apply fold_repairs_frame. intros r s'. case_match.
  - apply insert_memory_repair_frame.
  - exists (repairs s'). by destruct s'.
Qed.

(** Abstracts the map of repairs that the insertions of a method leave. *)
Ltac frame_repairs :=
  repeat match goal with
  | |- context [insert_repairs ?e ?n ?rs ?s] =>
      let m := fresh "m" in let E := fresh "E" in
      destruct (insert_repairs_frame e n rs s) as [m E]; rewrite E; clear E
  | |- context [insert_ledgered_repairs ?e ?n ?rs ?s] =>
      let m := fresh "m" in let E := fresh "E" in
      destruct (insert_ledgered_repairs_frame e n rs s) as [m E]; rewrite E; clear E
  end.

(** ** Every operation keeps the accounts *)

Lemma bytes_limit_u64 : bytes_limit <= u64_max.
Proof. by apply Z.leb_le. Qed.

Definition macc (s : MemoryState) : Prop := accounted (logical_operations s) (workspace_usage s).

Lemma macc_enter now t s : macc s → macc (enter_usage now t s).
Proof. unfold macc. simpl. apply accounted_enter. Qed.

Lemma u64_checked_sub_Some a b c : u64_checked_sub a b = Some c ↔ b <= a ∧ c = a - b.
Proof. unfold u64_checked_sub. case_match; naive_solver lia. Qed.
Lemma u64_checked_add_Some a b c : u64_checked_add a b = Some c ↔ a + b <= u64_max ∧ c = a + b.
Proof. unfold u64_checked_add. case_match; naive_solver lia. Qed.

Lemma physical_allocation_Ok size n d :
  physical_allocation size n = Ok d → n ≠ 0 ∧ d = size * n ∧ d <= u64_max.
Proof. unfold physical_allocation. repeat case_match; naive_solver lia. Qed.

Lemma physical_allocation_nonneg size n d :
  0 <= size → 0 <= n → physical_allocation size n = Ok d → 0 <= d.
Proof. intros ?? (_ & -> & _)%physical_allocation_Ok. nia. Qed.

(** The result of a guard that a method has passed. *)
Ltac guards :=
  repeat match goal with
  | H : (_ || _) = false |- _ => apply orb_false_elim in H as [? ?]
  | H : (_ && _) = true |- _ => apply andb_prop in H as [? ?]
  | H : negb _ = false |- _ => apply negb_false_iff in H
  | H : negb _ = true |- _ => apply negb_true_iff in H
  | H : bool_decide _ = true |- _ => apply bool_decide_eq_true in H
  | H : bool_decide _ = false |- _ => apply bool_decide_eq_false in H
  | H : (_ =? _) = true |- _ => apply Z.eqb_eq in H
  | H : (_ <? _) = false |- _ => apply Z.ltb_ge in H
  | H : (_ <=? _) = false |- _ => apply Z.leb_gt in H
  | H : u64_checked_sub _ _ = Some _ |- _ => apply u64_checked_sub_Some in H as [? ?]
  | H : u64_checked_add _ _ = Some _ |- _ => apply u64_checked_add_Some in H as [? ?]
  | H : _ ∧ _ |- _ => destruct H
  end.

Lemma settleable_active o : settleable (lo_state o) = true → op_active o = true.
Proof. unfold settleable, op_active. by destruct (lo_state o). Qed.

Lemma insert_op_macc e i s : is_u64 (li_prior_logical_size i) →
  macc s → macc (insert_logical_operation e i s).2.
Proof.
  intros Hp HA. unfold insert_logical_operation. repeat (case_match; simpl; try exact HA).
  unfold macc. simpl. apply accounted_insert; [done|done|split; simpl; unfold is_u64 in *; lia|done].
Qed.

Lemma reserve_macc e id n s : is_u64 n → macc s → macc (reserve_logical_operation e id n s).2.
Proof.
  intros Hn HA. unfold reserve_logical_operation.
  destruct (logical_operations s !! id) as [o|] eqn:Ho; [|done].
  destruct (fence_lost _ _); [done|].
  pose proof (macc_enter (env_now e) (op_tenant o) s HA) as HA1.
  change (lk_tenant_id (li_logical (lo_intent o))) with (op_tenant o).
  set (s1 := enter_usage _ _ s) in *. cbv zeta.
  repeat (case_match; try exact HA1). guards. subst.
  assert (Ho1 : logical_operations s1 !! id = Some o) by done.
  pose proof (acc_wf _ _ HA1 _ _ Ho1) as [w1 w2 w3 w4 w5 w6].
  assert (Hst : lo_state o = LIntent) by done. rewrite Hst in w5. specialize (w5 eq_refl).
  pose proof (accounted_row (env_now e) s1 (op_tenant o) HA1) as [h1 h2 h3 h4 h5 h6 h7].
  assert (Hno : wu_active_operation_id (usage_row (env_now e) (op_tenant o) s1) = None).
  { destruct (wu_active_operation_id _) eqn:E; [|done]. exfalso. by eauto. }
  unfold is_u64 in *.
  apply (accounted_settle (env_now e) s1 id o); [done|done|done| |done|done|done|..];
    unfold held, op_active; rewrite ?Hst; simpl; [split; simpl; (done || lia)|lia|lia| |].
  - unfold bytes_limit. lia.
  - intros j. rewrite Hno. naive_solver.
Qed.

Lemma op_wf_alter k o o' :
  op_wf k o → lo_intent o' = lo_intent o →
  lo_reserved_physical_bytes o' = lo_reserved_physical_bytes o →
  lo_committed_physical_bytes o' = lo_committed_physical_bytes o →
  lo_released_physical_bytes o' = lo_released_physical_bytes o →
  (terminal (lo_state o') = false → terminal (lo_state o) = false) →
  (lo_state o' = LIntent → lo_state o = LIntent) → op_wf k o'.
Proof.
  intros [w1 w2 w3 w4 w5 w6] E1 E2 E3 E4 E5 E6.
  split; rewrite ?E1, ?E2, ?E3, ?E4; auto.
Qed.

Lemma record_macc e id ev s : macc s → macc (record_logical_usage e id ev s).2.
Proof.
  intros HA. unfold record_logical_usage. repeat (case_match; try exact HA).
  eapply accounted_alter; [exact HA|done|done| |done..].
  eapply op_wf_alter; [by apply (acc_wf _ _ HA)|done..].
Qed.

Lemma valid_transition_active from to :
  valid_logical_transition from to = true →
  match from with LOpen | LCompleting | LCommitUnknown => true | _ => false end = true
  ∧ match to with LOpen | LCompleting | LCommitUnknown => true | _ => false end = true.
Proof. by destruct from, to. Qed.

Lemma transition_macc e id f t c s : macc s → macc (transition_logical_operation e id f t c s).2.
Proof.
  intros HA. unfold transition_logical_operation. repeat (case_match; try exact HA). guards.
  subst f. edestruct valid_transition_active as [A1 A2]; [done|].
  eapply accounted_alter; [exact HA|done|done| | |done..].
  - eapply op_wf_alter; [by apply (acc_wf _ _ HA)|done..| |]; simpl.
    + intros _. by destruct (lo_state _).
    + intros ->. done.
  - unfold op_active. simpl. by rewrite A1, A2.
Qed.

Section commits.
  Context `{Crypto, ManagedText}.

  (** Settling the active operation [o] with [d] bytes of its reservation allocated. *)
Lemma accounted_settled now s id o o' u' d :
    macc s → logical_operations s !! id = Some o → op_active o = true →
    lo_intent o' = lo_intent o → terminal (lo_state o') = true →
    lo_reserved_physical_bytes o' = lo_reserved_physical_bytes o →
    lo_committed_physical_bytes o' = d → lo_released_physical_bytes o' = lo_released_physical_bytes o →
    0 <= d <= lo_reserved_physical_bytes o →
    let u := usage_row now (op_tenant o) s in
    wu_visible_limit_bytes u' = wu_visible_limit_bytes u →
    wu_replacement_headroom_bytes u' = wu_replacement_headroom_bytes u →
    0 <= wu_visible_logical_bytes u' <= MANAGED_VISIBLE_LIMIT_BYTES →
    wu_reserved_bytes u' = wu_reserved_bytes u - lo_reserved_physical_bytes o →
    wu_physical_allocated_bytes u' = wu_physical_allocated_bytes u + d →
    wu_active_operation_id u' = None →
    accounted (<[id := o']> (logical_operations s)) (<[op_tenant o := u']> (workspace_usage s)).
Proof.
    intros HA Ho Ha Hi Hst Hr Hc Hl Hd u HL HH Hv Hres Hall Hact.
    pose proof (acc_wf _ _ HA _ _ Ho) as [w1 w2 w3 w4 w5 w6].
    specialize (w5 (op_active_terminal _ Ha)).
    pose proof (accounted_row now s (op_tenant o) HA) as [h1 h2 h3 h4 h5 h6 h7].
    destruct (accounted_active now s id o HA Ho Ha) as [Eid Eres]. fold u in h6, Eid, Eres.
    assert (Hina : op_active o' = false) by (unfold op_active; by destruct (lo_state o')).
    eapply (accounted_settle now); [done|done|by unfold op_tenant; rewrite Hi| |done|done|done|..];
      unfold held; rewrite ?Ha, ?Hina, ?Hc, ?Hl; fold u; [|lia|lia|lia|].
    - split; rewrite ?Hi, ?Hr, ?Hc, ?Hl; [done|done|done|lia| |].
      + by rewrite Hst.
      + intros E. by rewrite E in Hst.
    - intros j. rewrite Hact, Eid. naive_solver.
Qed.

Lemma child_version_count_nonneg s i : 0 <= child_version_count s i.
Proof. unfold child_version_count. lia. Qed.

Lemma put_macc e id a n s : is_u64 (oa_size a) → macc s → macc (commit_logical_put e id a n s).2.
Proof.
    intros Hsz HA. unfold commit_logical_put.
    destruct (logical_operations s !! id) as [o|] eqn:Ho; [|done].
    change (lk_tenant_id (li_logical (lo_intent o))) with (op_tenant o).
    pose proof (macc_enter (env_now e) (op_tenant o) s HA) as HA1.
    cbv zeta. destruct (decide _); [repeat (case_match; try exact HA; try exact HA1)|].
    destruct (lo_evidence o) as [ev|]; [|done].
    destruct (put_mismatch _ _ _) eqn:Hpm; [done|].
    destruct (fence_lost _ _); [done|].
    destruct (physical_allocation _ _) as [d|] eqn:Hd; [|done].
    case_match eqn:Hg1; [done|]. case_match; [done|].
    set (s1 := enter_usage _ _ s) in *.
    case_match eqn:Hg2; [done|]. case_match eqn:Hvis; [|done]. case_match eqn:Hlim; [done|].
    frame_repairs. simpl.
    match goal with |- context [u64_checked_add ?x d] => change x with
      (wu_physical_allocated_bytes (usage_row (env_now e) (op_tenant o) s1)) end.
    match goal with |- context [u64_checked_sub ?x _] => change x with
      (wu_reserved_bytes (usage_row (env_now e) (op_tenant o) s1)) end.
    unfold put_mismatch in Hpm. apply bind_Some in Hvis as (v & Hv & Hvis). guards. subst.
    assert (Ha : op_active o = true) by (by apply settleable_active).
    destruct (accounted_active (env_now e) s1 id o HA1 Ho Ha) as [Eid Eres].
    pose proof (accounted_row (env_now e) s1 (op_tenant o) HA1) as [h1 h2 h3 h4 h5 h6 h7].
    pose proof (physical_allocation_nonneg _ _ _ (proj1 Hsz) (child_version_count_nonneg _ _) Hd).
    pose proof (op_prior _ _ (acc_wf _ _ HA1 _ _ Ho)).
    unfold u64_checked_add, u64_checked_sub, is_u64 in *.
    rewrite (proj2 (Z.leb_le _ _)) by (pose proof bytes_limit_u64; lia).
    rewrite (proj2 (Z.leb_le _ _)) by lia. simpl.
    eapply (accounted_settled (env_now e) s1 id o _ _ d); simpl; try done; lia.
Qed.

Lemma delete_macc e id p s : macc s → macc (commit_logical_delete e id p s).2.
Proof.
    intros HA. unfold commit_logical_delete.
    destruct (logical_operations s !! id) as [o|] eqn:Ho; [|done].
    change (lk_tenant_id (li_logical (lo_intent o))) with (op_tenant o).
    pose proof (macc_enter (env_now e) (op_tenant o) s HA) as HA1.
    cbv zeta. destruct (decide _); [repeat (case_match; try exact HA; try exact HA1)|].
    destruct (delete_mismatch o) eqn:Hdm; [done|].
    case_match; [done|]. case_match; [done|].
    set (s1 := enter_usage _ _ s) in *.
    case_match eqn:Hg; [done|]. case_match eqn:Hvis; [|done].
    frame_repairs. unfold macc. simpl.
    unfold delete_mismatch in Hdm. guards. subst.
    assert (Ha : op_active o = true) by (by apply settleable_active).
    pose proof (accounted_row (env_now e) s1 (op_tenant o) HA1) as [h1 h2 h3 h4 h5 h6 h7].
    pose proof (acc_wf _ _ HA1 _ _ Ho) as [w1 w2 w3 w4 w5 w6].
    specialize (w5 (op_active_terminal _ Ha)).
    eapply (accounted_settled (env_now e) s1 id o _ _ 0); simpl; try done; try lia.
    all: change (wu_visible_logical_bytes (usage_row (env_now e) (op_tenant o) s1)) with
      (wu_visible_logical_bytes (usage_row (env_now e) (op_tenant o) s1)).
    all: change (usage_row (env_now e) (op_tenant o) (upd_repairs (λ _, m) _)) with
      (usage_row (env_now e) (op_tenant o) s1); try lia.
Qed.

  (** The bytes an abort charges are part of the reservation. *)
Lemma aborted_allocation_bound e o physical s d s' :
    (∀ p, physical = Some p → is_u64 (oa_size (pa_authority p))) → 0 <= lo_reserved_physical_bytes o →
    aborted_allocation e o physical s = (Ok d, s') → 0 <= d <= lo_reserved_physical_bytes o.
Proof.
    unfold aborted_allocation. intros Hp Hr. repeat case_match; intros [= <- <-]; try lia.
    all: guards; try lia.
    all: edestruct (Hp _ eq_refl); split; [|lia].
    all: eapply physical_allocation_nonneg; [done|apply child_version_count_nonneg|done].
Qed.

Lemma aborted_allocation_frame e o physical s :
    ∃ m, (aborted_allocation e o physical s).2 = upd_repairs (λ _, m) s.
Proof.
    assert (∃ m, s = upd_repairs (λ _, m) s) as Hs by (exists (repairs s); by destruct s).
    unfold aborted_allocation. cbv zeta. repeat (case_match; try exact Hs).
    apply insert_ledgered_repairs_frame.
Qed.

Lemma abort_macc e id c physical s :
    (∀ p, physical = Some p → is_u64 (oa_size (pa_authority p))) →
    macc s → macc (prove_logical_abort e id c physical s).2.
Proof.
    intros Hp HA. unfold prove_logical_abort.
    destruct (logical_operations s !! id) as [o|] eqn:Ho; [|done].
    change (lk_tenant_id (li_logical (lo_intent o))) with (op_tenant o).
    cbv zeta. destruct (decide _); [done|]. destruct (decide _); [done|]. case_match; [done|].
    destruct (aborted_allocation_frame e o physical s) as [m Em].
    destruct (aborted_allocation e o physical s) as [[d|x] s0] eqn:Eal; simpl in Em; subst s0; [|done].
    pose proof (acc_wf _ _ HA _ _ Ho) as [w1 w2 w3 w4 w5 w6].
    pose proof (aborted_allocation_bound _ _ _ _ _ _ Hp w3 Eal) as Hd.
    assert (HA1 : macc (enter_usage (env_now e) (op_tenant o) (upd_repairs (λ _, m) s))) by (by apply macc_enter).
    set (s1 := enter_usage _ _ _) in *.
    assert (Ho1 : logical_operations s1 !! id = Some o) by done.
    case_match eqn:Hg; [done|]. case_match eqn:Hres; [|done].
    pose proof (accounted_row (env_now e) s1 (op_tenant o) HA1) as [h1 h2 h3 h4 h5 h6 h7].
    destruct (accounted_nonneg (env_now e) s1 (op_tenant o) HA1) as [n1 n2].
    guards. subst z. simpl. unfold u64_checked_add.
    assert (Hfit : wu_physical_allocated_bytes (usage_row (env_now e) (op_tenant o) s1) + d <= u64_max).
    { pose proof bytes_limit_u64. destruct (op_active o) eqn:Ha.
      - destruct (accounted_active (env_now e) s1 id o HA1 Ho1 Ha). lia.
      - assert (lo_state o = LIntent) as Hi by (unfold op_active in Ha; by destruct (lo_state o)).
        specialize (w6 Hi). lia. }
    rewrite (proj2 (Z.leb_le _ _)) by done. unfold macc. simpl.
    assert (Hterm : terminal (lo_state o) = false) by (by destruct (lo_state o)). specialize (w5 Hterm).
    destruct (decide _) as [Eact|Eact];
      (apply (accounted_settle (env_now e) s1 id o);
       [done|done|done|split; simpl; try done; lia|done|done|simpl; lia|..]);
      unfold held, op_active; simpl.
    2, 3, 6, 7: lia.
    1, 3: destruct (lo_state o); try lia; try done; specialize (w6 eq_refl); lia.
    all: intros j; naive_solver.
Qed.
End commits.

Lemma parent_of_Some e c s id o : parent_of e c s = Some (id, o) →
  logical_operations s !! id = Some o ∧ li_primary_child_operation_id (lo_intent o) = c.
Proof.
  unfold parent_of. intros [Hin Hc]%List.find_some. apply bool_decide_eq_true in Hc. split; [|done].
  apply list_elem_of_In in Hin. unfold hash_iter in Hin. rewrite env_iter_perm in Hin.
  by apply elem_of_map_to_list in Hin.
Qed.

Lemma forget_macc e target s : macc s → macc (forget_physical_version e target s).2.
Proof.
  intros HA. unfold forget_physical_version. cbv zeta.
  set (s0 := upd_physical_versions _ s). assert (HA0 : macc s0) by exact HA.
  case_match; [done|]. destruct (parent_of _ _ s0) as [[id o]|] eqn:Hp; [|done].
  apply parent_of_Some in Hp as [Ho _].
  change (lk_tenant_id (li_logical (lo_intent o))) with (op_tenant o).
  case_match eqn:Hrel; [|done]. case_match; [done|].
  pose proof (macc_enter (env_now e) (op_tenant o) s0 HA0) as HA1.
  set (s1 := enter_usage _ _ s0) in *. case_match eqn:Hall; [|done]. guards. subst z0 z.
  assert (Ho1 : logical_operations s1 !! id = Some o) by done.
  pose proof (acc_wf _ _ HA1 _ _ Ho1) as [w1 w2 w3 w4 w5 w6].
  pose proof (accounted_row (env_now e) s1 (op_tenant o) HA1) as [h1 h2 h3 h4 h5 h6 h7].
  apply (accounted_settle (env_now e) s1 id o); [done|done|done| |done|done|done|..];
    unfold held, op_active; simpl; fold (op_active o); [|lia|lia|lia|].
  - split; simpl; try done; lia.
  - intros j. rewrite h7. split; [|naive_solver].
    intros (x & Hx & Ht & Hact). destruct (decide (j = id)) as [->|]; [|naive_solver].
    right. split; [done|]. rewrite Ho1 in Hx. by injection Hx as <-.
Qed.

Lemma existsb_map_false `{Countable K} {A} (f : K * A → bool) (m : gmap K A) k a :
  existsb f (map_to_list m) = false → m !! k = Some a → f (k, a) = false.
Proof.
  intros Hf Hk. destruct (f (k, a)) eqn:E; [|done].
  assert (existsb f (map_to_list m) = true); [|congruence].
  apply existsb_exists. exists (k, a). split; [|done].
  apply list_elem_of_In. by apply elem_of_map_to_list.
Qed.

Lemma unresolved_terminal s t k o :
  has_unresolved s t = false → logical_operations s !! k = Some o → op_tenant o = t →
  terminal (lo_state o) = true.
Proof.
  intros Hu Ho Ht. pose proof (existsb_map_false _ _ _ _ Hu Ho) as E. simpl in E.
  unfold op_tenant in Ht. rewrite bool_decide_eq_true_2 in E by done. by apply negb_false_iff in E.
Qed.

Lemma terminal_inactive o : terminal (lo_state o) = true → op_active o = false.
Proof. unfold op_active. by destruct (lo_state o). Qed.

Lemma release_all_fields now t o :
  lo_intent (release_all now t o) = lo_intent o ∧ lo_state (release_all now t o) = lo_state o
  ∧ lo_reserved_physical_bytes (release_all now t o) = lo_reserved_physical_bytes o
  ∧ lo_committed_physical_bytes (release_all now t o) = lo_committed_physical_bytes o.
Proof. unfold release_all. by case_decide. Qed.

(** The accounts after a purge: everything of the tenant is released. *)
Lemma accounted_purged now t ops us :
  accounted ops us → (∀ k o, ops !! k = Some o → op_tenant o = t → terminal (lo_state o) = true) →
  accounted (release_all now t <$> ops) (alter (clear_usage now) t us).
Proof.
  intros [Hwf Hrow] Hterm. split.
  - intros k o'. rewrite lookup_fmap. destruct (ops !! k) as [o|] eqn:Ho; [|done].
    intros [= <-]. destruct (Hwf _ _ Ho) as [w1 w2 w3 w4 w5 w6].
    destruct (release_all_fields now t o) as (E1 & E2 & E3 & E4).
    split; rewrite ?E1, ?E2, ?E3, ?E4; try done.
    unfold release_all. case_decide; simpl; lia.
  - intros t'. destruct (Hrow t') as [h1 h2 h3 h4 h5 h6 h7].
    assert (Hres : sumZ (reserved_part t') (release_all now t <$> ops) = sumZ (reserved_part t') ops).
    { rewrite sumZ_fmap. apply sumZ_ext. intros k o Ho. unfold reserved_part, op_tenant, op_active.
      destruct (release_all_fields now t o) as (-> & -> & -> & _). done. }
    assert (Hact : ∀ j, (∃ o, (release_all now t <$> ops) !! j = Some o ∧ op_tenant o = t' ∧ op_active o = true)
      ↔ (∃ o, ops !! j = Some o ∧ op_tenant o = t' ∧ op_active o = true)).
    { intros j. rewrite lookup_fmap. unfold op_tenant, op_active. split.
      - intros (x & (o & Ho & ->)%fmap_Some & Hx). exists o.
        destruct (release_all_fields now t o) as (E1 & E2 & _). by rewrite E1, E2 in Hx.
      - intros (o & -> & Ho). simpl. eexists. split; [done|].
        destruct (release_all_fields now t o) as (-> & -> & _). done. }
    destruct (decide (t' = t)) as [->|Hne].
    + assert (Z1 : sumZ (reserved_part t) ops = 0).
      { apply sumZ_zero. intros k o Ho. unfold reserved_part. case_bool_decide as Et; [|done].
        by rewrite (terminal_inactive _ (Hterm _ _ Ho Et)). }
      assert (Z2 : sumZ (allocated_part t) (release_all now t <$> ops) = 0).
      { rewrite sumZ_fmap. apply sumZ_zero. intros k o Ho.
        unfold allocated_part, op_tenant. destruct (release_all_fields now t o) as (-> & _ & _ & ->).
        case_bool_decide as Et; [|done]. unfold release_all. case_decide; [simpl; lia|done]. }
      assert (Hnone : wu_active_operation_id (urow us t) = None).
      { apply eq_None_not_Some. intros [j (o & Ho & Et & Ha)%h7]. by rewrite (terminal_inactive _ (Hterm _ _ Ho Et)) in Ha. }
      unfold urow in *. rewrite lookup_alter_eq.
      destruct (us !! t) as [u|] eqn:Eu; simpl in *;
        (split; simpl; rewrite ?Hres, ?Z1, ?Z2; try done;
         first [by apply Z.leb_le | intros j; rewrite Hact, <- h7; naive_solver]).
    + assert (Hall : sumZ (allocated_part t') (release_all now t <$> ops) = sumZ (allocated_part t') ops).
      { rewrite sumZ_fmap. apply sumZ_ext. intros k o Ho. unfold allocated_part, op_tenant.
        destruct (release_all_fields now t o) as (-> & _ & _ & ->).
        case_bool_decide as Et; [|done]. unfold release_all. case_decide; [congruence|done]. }
      unfold urow in *. rewrite lookup_alter_ne by done.
      split; rewrite ?Hres, ?Hall; try done. intros j. by rewrite Hact.
Qed.

Lemma finish_purge_macc e id s : macc s → macc (finish_purge e id s).2.
Proof.
  intros HA. unfold finish_purge. cbv zeta.
  destruct (purges s !! id) as [p|]; [|done].
  assert (∀ status, macc (match blocked_reason e s (mp_tenant_id p) with
    | Some reason => (PurgeBlocked reason, set_purge_status id (PurgeBlocked reason) s)
    | None =>
      if has_unresolved s (mp_tenant_id p) then
        (PurgeBlocked "managed namespace has unresolved logical operations",
         set_purge_status id (PurgeBlocked "managed namespace has unresolved logical operations") s)
      else if has_physical s (mp_tenant_id p) then (status, s)
      else (PurgeComplete (mp_deleted_versions p),
            set_purge_status id (PurgeComplete (mp_deleted_versions p))
              (clear_namespace (env_now e) (mp_tenant_id p) s))
    end).2) as Hmain; [|by destruct (mp_status p); first [exact HA | apply Hmain]].
  intros status. case_match; [exact HA|]. destruct (has_unresolved _ _) eqn:Hu; [exact HA|].
  case_match; [exact HA|]. apply accounted_purged; [exact HA|].
  intros k o Ho. by apply unresolved_terminal with s k.
Qed.

(** ** The other calls leave operations and rows alone *)

Definition accounts (s : MemoryState) := (logical_operations s, workspace_usage s).

Lemma remove_list_cursor_accounts n id s : accounts (remove_list_cursor n id s) = accounts s.
Proof.
  revert id s. induction n as [|n IH]; intros id s; simpl; [done|].
  case_match; [|done]. unfold accounts in *. simpl. by rewrite IH.
Qed.

Lemma foldl_preserves {A B S} (view : S → B) (f : S → A → S) l s :
  (∀ a s, view (f s a) = view s) → view (foldl f s l) = view s.
Proof. intros Hf. revert s. induction l as [|a l IH]; intros s; simpl; [done|]. by rewrite IH, Hf. Qed.

Lemma claim_loop_frame e o u i l s : ∃ m, (claim_loop e o u i l s).2 = upd_repairs (λ _, m) s.
Proof.
  revert i s. induction l as [|[k [r st]] l IH]; intros i s; simpl.
  - exists (repairs s). by destruct s.
  - destruct (IH (S i) (upd_repairs <[k := (lease_repair (env_now e) o (env_uuid e i) u r, "LEASED")]> s)) as [m Em].
    destruct (claim_loop _ _ _ _ _ _). simpl in *. exists m. by rewrite Em.
Qed.

Lemma waiting_cleanup_accounts r s : accounts (insert_memory_waiting_placement_cleanup r s) = accounts s.
Proof. unfold insert_memory_waiting_placement_cleanup. by case_match. Qed.

Lemma insert_memory_repair_accounts e r s : accounts (insert_memory_repair e r s) = accounts s.
Proof. by destruct (insert_memory_repair_frame e r s) as [m ->]. Qed.

Lemma macc_accounts s s' : accounts s' = accounts s → macc s → macc s'.
Proof. unfold accounts, macc. by intros [= -> ->]. Qed.

(** The methods that are a few cases over the maps. *)
Ltac unfold_calls :=
  unfold route_fence, advance_routing_epoch, create_list_cursor_successor, create_list_cursor,
    create_list_cursor_in_state, use_list_cursor, delete_list_cursor, cleanup_expired_list_cursors,
    remove_cursor, begin_multipart_activity, confirm_multipart_activity,
    reconcile_multipart_activities, finish_multipart_activity, record_placement_policy,
    advance_placement_version, enqueue, claim_repairs, renew_repair, fail_repair,
    begin_physical_write, renew_physical_write_intent, claim_expired_physical_write_intent,
    commit_physical_write, abort_physical_write, block_physical_write,
    mark_purge_target_deleted, mark_purge_target_blocked.

Create Rewrite HintDb accounts.
#[export] Hint Rewrite remove_list_cursor_accounts waiting_cleanup_accounts
  insert_memory_repair_accounts : accounts.

Section reachable.
  Context `{Crypto, ManagedText}.

Lemma purge_macc e r s : macc s → macc (purge_namespace e r s).2.
Proof.
    intros HA. unfold purge_namespace. cbv zeta.
    pose proof (finish_purge_macc e (pr_operation_id r)) as Hf.
    repeat (case_match; try exact HA); simpl;
      match goal with HF : finish_purge _ _ ?s0 = (_, ?s1) |- macc ?s1 =>
        pose proof (Hf s0) as Hx; rewrite HF in Hx; apply Hx; exact HA end.
Qed.

Lemma purge_status_macc e r s : macc s → macc (namespace_purge_status e r s).2.
Proof.
    intros HA. unfold namespace_purge_status.
    pose proof (finish_purge_macc e (pr_operation_id r) s HA) as Hf. by destruct (finish_purge _ _ _).
Qed.

Lemma complete_repair_accounts e r s : accounts (complete_repair e r s).2 = accounts s.
Proof.
    unfold complete_repair. cbv zeta. repeat (case_match; try done).
    all: match goal with |- context [foldl ?f ?s1 ?l] =>
      assert (accounts (foldl f s1 l) = accounts s1) as E
        by (apply foldl_preserves; intros; apply waiting_cleanup_accounts); exact E end.
Qed.

Lemma publish_accounts e a c s : accounts (publish e a c s).2 = accounts s.
Proof. unfold publish. cbv zeta. do 2 (case_match; [done|]). by frame_repairs. Qed.

  (** The calls that touch neither operations nor usage. *)
Definition quiet (c : ManagedCall) : bool :=
    match c with
    | CInsertOp _ | CReserve _ _ | CRecordUsage _ _ | CCommitPut _ _ _ | CCommitDelete _ _
    | CTransition _ _ _ _ | CProveAbort _ _ _ | CForget _ | CPurge _ | CPurgeStatus _ => false
    | _ => true
    end.

Lemma quiet_accounts e c s : quiet c = true → accounts (managed_step e c s) = accounts s.
Proof.
    destruct c; intros Hq; try discriminate Hq; unfold managed_step, call_run; simpl.
    all: try (apply publish_accounts); try (apply complete_repair_accounts).
    all: unfold_calls; cbv zeta.
    all: try (repeat (case_match; try done); cbn [fst snd]; autorewrite with accounts; done).
    - repeat case_match; simplify_eq; done.
    - apply foldl_preserves. intros. apply remove_list_cursor_accounts.
    - by apply foldl_preserves.
    - destruct (claim_loop_frame e owner until 0 (take (Z.to_nat limit) (merge_sort repair_le
        (filter (λ kv, claimable s (env_now e) kv.2 = true) (hash_iter e (repairs s))))) s) as [m Em].
      destruct (claim_loop _ _ _ _ _ _). simpl in *. by rewrite Em.
Qed.

Lemma managed_step_macc e c s : call_ok c → macc s → macc (managed_step e c s).
Proof.
    intros Hc HA. destruct (quiet c) eqn:Hq.
    { eapply macc_accounts; [by apply quiet_accounts|done]. }
    destruct c; try discriminate Hq; unfold managed_step, call_run; simpl in *.
    - by apply insert_op_macc.
    - by apply reserve_macc.
    - by apply record_macc.
    - by apply put_macc.
    - by apply delete_macc.
    - by apply transition_macc.
    - apply abort_macc; [|done]. by intros p ->.
    - by apply forget_macc.
    - by apply purge_macc.
    - by apply purge_status_macc.
Qed.

Lemma accounted_new : macc managed_new.
Proof.
    split; [by intros k o|]. intros t. unfold urow. simpl.
    split; simpl; rewrite ?sumZ_empty; try done; try (by apply Z.leb_le).
    intros j. naive_solver.
Qed.

Lemma mreach_macc s : mreach s → macc s.
Proof. induction 1; [apply accounted_new | by apply managed_step_macc]. Qed.

(** C22: In every reachable repository the usage row of a workspace is exact: the
    reserved bytes are those of its unsettled operation, the allocated bytes are
    what its settled operations committed and have not released, the sum stays
    within the limit and its headroom, the visible bytes within the limit, and
    the active operation is the one unsettled operation that has reserved space,
    so there is never more than one. *)
Theorem managed_usage_exact s t u : mreach s → workspace_usage s !! t = Some u →
    wu_reserved_bytes u = sumZ (reserved_part t) (logical_operations s)
    ∧ wu_physical_allocated_bytes u = sumZ (allocated_part t) (logical_operations s)
    ∧ wu_physical_allocated_bytes u + wu_reserved_bytes u
        <= MANAGED_VISIBLE_LIMIT_BYTES + MANAGED_REPLACEMENT_HEADROOM_BYTES
    ∧ 0 <= wu_visible_logical_bytes u <= MANAGED_VISIBLE_LIMIT_BYTES
    ∧ (∀ id, wu_active_operation_id u = Some id ↔
         ∃ o, logical_operations s !! id = Some o ∧ op_tenant o = t ∧ op_active o = true).
Proof.
    intros Hs%mreach_macc Hu. destruct (acc_row _ _ Hs t) as [h1 h2 h3 h4 h5 h6 h7].
    unfold urow in *. rewrite Hu in *. simpl in *.
    split; [done|]. split; [done|]. split; [done|]. split; [done|]. exact h7.
Qed.
End reachable.
