(* ===== verification/ManagedOps.v ===== *)
(** * Managed storage: the life of a logical operation

    What one call can do to a logical operation, the fence it keeps, and what
    follows: settled operations are final, a refused call changes nothing that
    can be observed, and an operation can always be brought to an end. *)

From S2P Require Import Prelude Operation Integrity Managed ManagedRepo ManagedUsage.
From stdpp Require Import sorting.

#[local] Open Scope Z_scope.
Set Default Goal Selector "!".

(** ** One step of one operation *)

(** The moves between states that the methods make. *)
Definition logical_move (from to : ManagedLogicalOperationState) : bool :=
  valid_logical_transition from to
  || match from, to with
     | LIntent, LOpen => true
     | (LCompleting | LCommitUnknown), LCommitted => true
     | (LIntent | LOpen | LCompleting | LCommitUnknown), LProvenAborted => true
     | _, _ => false
     end.

(** What a call may do to an operation: its intent stays, its state moves at
    most once, recorded evidence stays, and a settled operation only releases
    bytes. *)
Record op_next (o o' : ManagedLogicalOperation) : Prop := {
  on_intent : lo_intent o' = lo_intent o;
  on_state : lo_state o' = lo_state o ∨ logical_move (lo_state o) (lo_state o') = true;
  on_evidence ev : lo_evidence o = Some ev → lo_evidence o' = Some ev;
  on_settled : terminal (lo_state o) = true →
    lo_state o' = lo_state o ∧ lo_evidence o' = lo_evidence o
    ∧ lo_committed_physical_bytes o' = lo_committed_physical_bytes o
    ∧ lo_committed_authority_version o' = lo_committed_authority_version o
    ∧ lo_released_physical_bytes o <= lo_released_physical_bytes o';
}.

(** A new operation carries the fence of the moment. *)
Definition op_fresh (s : MemoryState) (o : ManagedLogicalOperation) : Prop :=
  lo_state o = LIntent ∧ li_fence (lo_intent o) = current_fence s (op_tenant o).

Definition ops_next (s s' : MemoryState) : Prop :=
  ∀ id, match logical_operations s !! id, logical_operations s' !! id with
        | Some o, Some o' => op_next o o'
        | None, Some o' => op_fresh s o'
        | None, None => True
        | Some _, None => False
        end.

Lemma op_next_refl o : op_next o o.
Proof. by split; [|left|..]. Qed.

Lemma ops_next_eq s s' : logical_operations s' = logical_operations s → ops_next s s'.
Proof. intros E id. rewrite E. destruct (_ !! id); [apply op_next_refl|done]. Qed.

Lemma ops_next_insert s s' id o o' :
  logical_operations s !! id = Some o → op_next o o' →
  logical_operations s' = <[id := o']> (logical_operations s) → ops_next s s'.
Proof.
  intros Ho Hn E j. rewrite E. destruct (decide (j = id)) as [->|Hj].
  - by rewrite Ho, lookup_insert_eq.
  - rewrite lookup_insert_ne by done. destruct (_ !! j); [apply op_next_refl|done].
Qed.

Lemma settleable_not_terminal st : settleable st = true → terminal st = false ∧ logical_move st LCommitted = true.
Proof. by destruct st. Qed.

(** Closes the goals in which the operations did not change. *)
Ltac same_ops := apply ops_next_eq; try reflexivity; by frame_repairs.

Section steps.
  Context `{Crypto, ManagedText}.

Lemma insert_op_next e i s : ops_next s (insert_logical_operation e i s).2.
Proof.
    unfold insert_logical_operation. cbv zeta. repeat (case_match; try same_ops).
    guards. intros id. cbn. destruct (decide (id = li_operation_id i)) as [->|Hid].
    - change (logical_operations (enter_routing _ _)) with (logical_operations s) in *.
      match goal with E : logical_operations s !! _ = None |- _ => rewrite E end.
      rewrite lookup_insert_eq. split; [done|]. unfold op_tenant. cbn.
      etransitivity; [eassumption|]. unfold current_fence, namespace_epoch, routing_epoch. cbn.
      rewrite !lookup_or_insert. case_decide; [|done].
      by destruct (namespace_epochs s !! _), (routing_epochs s !! _).
    - rewrite lookup_insert_ne by done. destruct (_ !! id); [apply op_next_refl|done].
Qed.

Lemma reserve_next e id n s : ops_next s (reserve_logical_operation e id n s).2.
Proof.
    unfold reserve_logical_operation. cbv zeta. repeat (case_match; try same_ops). guards.
    eapply ops_next_insert; [done| |done].
    split; cbn; [done|right|done|]; match goal with E : lo_state _ = LIntent |- _ => by rewrite E end.
Qed.

Lemma record_next e id ev s : ops_next s (record_logical_usage e id ev s).2.
Proof.
    unfold record_logical_usage. repeat (case_match; try same_ops). guards.
    eapply ops_next_insert; [done| |done]. split; cbn; [done|by left| |].
    - intros ev' E. match goal with Hn : ¬ is_Some (lo_evidence _) |- _ => destruct Hn; by eexists end.
    - congruence.
Qed.

Lemma transition_next e id f t c s : ops_next s (transition_logical_operation e id f t c s).2.
Proof.
    unfold transition_logical_operation. repeat (case_match; try same_ops). guards. subst f.
    eapply ops_next_insert; [done| |done]. split; cbn; [done|right|done|].
    - unfold logical_move. by match goal with E : valid_logical_transition _ _ = true |- _ => rewrite E end.
    - by destruct (lo_state _).
Qed.

Lemma put_next e id a n s : ops_next s (commit_logical_put e id a n s).2.
Proof.
    unfold commit_logical_put. destruct (logical_operations s !! id) as [o|] eqn:Ho; [|same_ops].
    cbv zeta. destruct (decide _); [repeat (case_match; try same_ops)|].
    destruct (lo_evidence o) as [ev|] eqn:Hev; [|same_ops].
    destruct (put_mismatch _ _ _) eqn:Hpm; [same_ops|].
    unfold put_mismatch in Hpm. guards.
    edestruct settleable_not_terminal as [T1 T2]; [eassumption|].
    repeat (case_match; try same_ops).
    all: frame_repairs; eapply ops_next_insert; [exact Ho| |reflexivity].
    all: split; cbn; [done|by right|done|congruence].
Qed.

Lemma delete_next e id p s : ops_next s (commit_logical_delete e id p s).2.
Proof.
    unfold commit_logical_delete. destruct (logical_operations s !! id) as [o|] eqn:Ho; [|same_ops].
    cbv zeta. destruct (decide _); [repeat (case_match; try same_ops)|].
    destruct (delete_mismatch o) eqn:Hpm; [same_ops|].
    unfold delete_mismatch in Hpm. guards.
    edestruct settleable_not_terminal as [T1 T2]; [eassumption|].
    repeat (case_match; try same_ops).
    all: frame_repairs; eapply ops_next_insert; [exact Ho| |reflexivity].
    all: split; cbn; [done|by right|done|congruence].
Qed.

Lemma abort_next e id c p s : ops_next s (prove_logical_abort e id c p s).2.
Proof.
    unfold prove_logical_abort. destruct (logical_operations s !! id) as [o|] eqn:Ho; [|same_ops].
    cbv zeta. destruct (decide _) as [|N1]; [same_ops|]. destruct (decide _) as [|N2]; [same_ops|].
    case_match; [same_ops|].
    destruct (aborted_allocation_frame e o p s) as [m Em].
    destruct (aborted_allocation e o p s) as [[d|x] s0]; simpl in Em; subst s0; [|same_ops].
    repeat (case_match; try same_ops).
    all: eapply ops_next_insert; [exact Ho| |reflexivity].
    all: split; cbn; [done|right|done|]; by destruct (lo_state o).
Qed.

Lemma forget_next e t s : macc s → ops_next s (forget_physical_version e t s).2.
Proof.
    intros HA. unfold forget_physical_version. cbv zeta. case_match; [same_ops|].
    destruct (parent_of _ _ _) as [[id o]|] eqn:Hp; [|same_ops].
    apply parent_of_Some in Hp as [Ho _]. cbn in Ho. pose proof (op_released _ _ (acc_wf _ _ HA _ _ Ho)).
    repeat (case_match; try same_ops).
    eapply ops_next_insert; [exact Ho| |reflexivity].
    split; cbn; [done|by left|done|]. intros _. repeat split; lia.
Qed.

Lemma finish_purge_next e id s : macc s → ops_next s (finish_purge e id s).2.
Proof.
    intros HA. unfold finish_purge. cbv zeta. repeat (case_match; try same_ops).
    all: intros j; cbn; rewrite lookup_fmap; destruct (_ !! j) as [o|] eqn:Ho; cbn; [|done].
    all: pose proof (op_released _ _ (acc_wf _ _ HA _ _ Ho)); unfold release_all;
      case_decide; [|apply op_next_refl].
    all: split; cbn; [done|by left|done|]; intros _; repeat split; lia.
Qed.

Lemma managed_step_ops e c s : macc s → ops_next s (managed_step e c s).
Proof.
    intros HA. destruct (quiet c) eqn:Hq.
    { apply ops_next_eq. pose proof (quiet_accounts e c s Hq) as E. by injection E. }
    destruct c; try discriminate Hq; unfold managed_step, call_run; simpl.
    - apply insert_op_next.
    - apply reserve_next.
    - apply record_next.
    - apply put_next.
    - apply delete_next.
    - apply transition_next.
    - apply abort_next.
    - by apply forget_next.
    - unfold purge_namespace. cbv zeta. repeat (case_match; try same_ops); cbn;
        match goal with HF : finish_purge _ _ ?s0 = (_, ?s1) |- ops_next _ ?s1 =>
          pose proof (finish_purge_next e (pr_operation_id request) s0 HA) as Hx;
          rewrite HF in Hx; exact Hx end.
    - unfold namespace_purge_status.
      pose proof (finish_purge_next e (pr_operation_id request) s HA) as Hx. by destruct (finish_purge _ _ _).
Qed.
End steps.

(** ** Frames: the fields that loops and recursive methods leave alone *)

Definition with_cursors a b (s : MemoryState) : MemoryState :=
  upd_list_cursors (λ _, a) (upd_list_cursor_successors (λ _, b) s).
Definition with_multipart a b (s : MemoryState) : MemoryState :=
  upd_multipart_activities (λ _, a) (upd_multipart_registration_expiry (λ _, b) s).

Lemma remove_list_cursor_frame n id s : ∃ a b, remove_list_cursor n id s = with_cursors a b s.
Proof.
  revert id s. induction n as [|n IH]; intros id s; simpl.
  - exists (list_cursors s), (list_cursor_successors s). by destruct s.
  - case_match; [|by eexists _, _].
    edestruct IH as (a & b & ->). by eexists _, _.
Qed.

Lemma foldl_frame2 {A X Y} (w : X → Y → MemoryState → MemoryState) (px : MemoryState → X)
    (py : MemoryState → Y) (f : MemoryState → A → MemoryState) l s :
  (∀ s, w (px s) (py s) s = s) → (∀ x y x' y' s, w x y (w x' y' s) = w x y s) →
  (∀ a s, ∃ x y, f s a = w x y s) → ∃ x y, foldl f s l = w x y s.
Proof.
  intros Hid Hww Hf. revert s. induction l as [|a l IH]; intros s; simpl.
  - exists (px s), (py s). by rewrite Hid.
  - destruct (Hf a s) as (x & y & ->). destruct (IH (w x y s)) as (x' & y' & ->).
    exists x', y'. apply Hww.
Qed.

Lemma remove_cursors_frame (l : list (Z * Uuid)) s :
  ∃ a b, foldl (λ s c, remove_list_cursor (S (size (list_cursor_successors s))) c.2 s) s l
         = with_cursors a b s.
Proof.
  apply (foldl_frame2 _ list_cursors list_cursor_successors); [by intros []|done|].
  intros a s'. apply remove_list_cursor_frame.
Qed.

Lemma reconcile_frame (l : list string) s :
  ∃ a b, foldl (λ s u, upd_multipart_activities (delete u)
                  (upd_multipart_registration_expiry (delete u) s)) s l = with_multipart a b s.
Proof.
  apply (foldl_frame2 _ multipart_activities multipart_registration_expiry); [by intros []|done|].
  intros a s'. by eexists _, _.
Qed.

Lemma waiting_cleanup_frame r s :
  ∃ m, insert_memory_waiting_placement_cleanup r s = upd_repairs (λ _, m) s.
Proof.
  unfold insert_memory_waiting_placement_cleanup. case_match; [|by eexists].
  exists (repairs s). by destruct s.
Qed.

Lemma complete_repair_frame `{Crypto, ManagedText} e r s :
  ∃ a m, (complete_repair e r s).2 = upd_repairs (λ _, m) (upd_authorities (λ _, a) s).
Proof.
  assert (∃ a m, s = upd_repairs (λ _, m) (upd_authorities (λ _, a) s)) as Hs.
  { exists (authorities s), (repairs s). by destruct s. }
  assert (∀ m, ∃ a m', upd_repairs m s = upd_repairs (λ _, m') (upd_authorities (λ _, a) s)) as Hr.
  { intros m. eexists (authorities s), _. destruct s. reflexivity. }
  unfold complete_repair. cbv zeta. repeat (case_match; try exact Hs; try apply Hr).
  all: try match goal with |- context [foldl ?f ?s1 ?l] =>
    destruct (fold_repairs_frame f l s1 (λ _ s', waiting_cleanup_frame _ s')) as [m ->] end.
  all: by eexists _, _.
Qed.

(** Abstracts what the loops of a method leave. *)
Ltac frame_loops :=
  frame_repairs;
  repeat match goal with
  | |- context [insert_memory_repair ?e ?r ?s] =>
      let m := fresh "m" in destruct (insert_memory_repair_frame e r s) as [m ->]
  | |- context [foldl (λ x c, remove_list_cursor _ _ _) ?s ?l] =>
      let E := fresh "E" in destruct (remove_cursors_frame l s) as (? & ? & E); rewrite E; clear E
  | |- context [foldl (λ x u, upd_multipart_activities _ _) ?s ?l] =>
      let E := fresh "E" in destruct (reconcile_frame l s) as (? & ? & E); rewrite E; clear E
  | |- context [remove_list_cursor ?n ?id ?s] =>
      let E := fresh "E" in destruct (remove_list_cursor_frame n id s) as (? & ? & E); rewrite E; clear E
  | |- context [(complete_repair ?e ?r ?s).2] =>
      let E := fresh "E" in destruct (complete_repair_frame e r s) as (? & ? & E); rewrite E; clear E
  | H : claim_loop ?e ?o ?u ?i ?l ?s = (_, ?s') |- context [?s'] =>
      let E := fresh "E" in destruct (claim_loop_frame e o u i l s) as [? E];
      rewrite H in E; cbn [snd] in E; rewrite E; clear E H
  | H : aborted_allocation ?e ?o ?p ?s = (_, ?s') |- context [?s'] =>
      let E := fresh "E" in destruct (aborted_allocation_frame e o p s) as [? E];
      rewrite H in E; cbn [snd] in E; rewrite E; clear E H
  end.

(** The body of the call in [managed_step e c s], case by case. *)
Ltac call_cases :=
  unfold managed_step, call_run; cbn [fst snd];
  unfold insert_logical_operation, reserve_logical_operation, record_logical_usage,
    commit_logical_put, commit_logical_delete, transition_logical_operation, prove_logical_abort,
    publish, tombstone, forget_physical_version, publish;
  unfold_calls; cbv zeta.

Section epochs.
  Context `{Crypto, ManagedText}.

Definition is_purge (c : ManagedCall) : bool :=
    match c with CPurge _ | CPurgeStatus _ => true | _ => false end.

Lemma namespace_epoch_enter t t' s : namespace_epoch (enter_namespace t s) t' = namespace_epoch s t'.
Proof.
    unfold namespace_epoch. cbn. rewrite lookup_or_insert. case_decide; subst; [|done].
    by destruct (namespace_epochs s !! t').
Qed.

Lemma namespace_epoch_step e c s t :
    is_purge c = false → namespace_epoch (managed_step e c s) t = namespace_epoch s t.
Proof.
    pose proof (λ t', namespace_epoch_enter t' t s) as Hen.
    destruct c; intros Hq; try discriminate Hq; call_cases.
    all: repeat (case_match; try done; try apply Hen); simplify_eq; frame_loops; (done || apply Hen).
Qed.
End epochs.

(** ** Purges *)

(** A completed purge found nothing of the tenant left to wait for. *)
Definition purge_completes (e : Env) (id : Uuid) (s : MemoryState) (p : MemoryPurge) : Prop :=
  purges s !! id = Some p
  ∧ (∀ n, mp_status p ≠ PurgeComplete n)
  ∧ blocked_reason e s (mp_tenant_id p) = None
  ∧ has_unresolved s (mp_tenant_id p) = false
  ∧ has_physical s (mp_tenant_id p) = false.

Lemma finish_purge_cases e id s :
  (∃ h, (finish_purge e id s).2 = upd_purges h s
        ∧ ∀ n, (finish_purge e id s).1 = PurgeComplete n →
            ∃ p, purges s !! id = Some p ∧ mp_status p = PurgeComplete n)
  ∨ (∃ p, purge_completes e id s p
      ∧ finish_purge e id s =
          (PurgeComplete (mp_deleted_versions p),
           set_purge_status id (PurgeComplete (mp_deleted_versions p))
             (clear_namespace (env_now e) (mp_tenant_id p) s))).
Proof.
  assert (Hid : upd_purges (λ m, m) s = s) by (by destruct s).
  unfold finish_purge, purge_completes. cbv zeta.
  destruct (purges s !! id) as [p|] eqn:Hp; [|left; exists (λ m, m); by rewrite Hid].
  destruct (mp_status p) eqn:Hst; [| |left; exists (λ m, m); rewrite Hid; naive_solver| |].
  all: destruct (blocked_reason _ _ _) eqn:Hb; [left; by eexists|].
  all: destruct (has_unresolved _ _) eqn:Hu; [left; by eexists|].
  all: destruct (has_physical _ _) eqn:Hph; [left; exists (λ m, m); by rewrite Hid|].
  all: right; exists p; by rewrite Hst.
Qed.

(** A purge call ends in [finish_purge], after fencing the tenant the first time. *)
Definition fence_for_purge (r : NamespacePurgeRequest) (s : MemoryState) : MemoryState :=
  upd_purges <[pr_operation_id r := mkPurge (pr_tenant_id r) PurgeRunning 0]>
    (upd_fenced_namespaces <[pr_tenant_id r := pr_operation_id r]> s).

(** The epochs and operations after a completed purge. *)
Lemma purged_namespace_epoch now id st t t' s :
  namespace_epoch (set_purge_status id st (clear_namespace now t s)) t' =
    if decide (t = t') then u64_wrap (namespace_epoch s t + 1) else namespace_epoch s t'.
Proof.
  unfold namespace_epoch at 1.
  change (namespace_epochs _) with (<[t := u64_wrap (namespace_epoch s t + 1)]> (namespace_epochs s)).
  case_decide as D; [subst t'; by rewrite lookup_insert_eq|by rewrite lookup_insert_ne].
Qed.

Lemma purged_routing_epoch now id st t t' s :
  routing_epoch (set_purge_status id st (clear_namespace now t s)) t' =
    if decide (t = t') then u64_wrap (routing_epoch s t + 1) else routing_epoch s t'.
Proof.
  unfold routing_epoch at 1.
  change (routing_epochs _) with (<[t := u64_wrap (routing_epoch s t + 1)]> (routing_epochs s)).
  case_decide as D; [subst t'; by rewrite lookup_insert_eq|by rewrite lookup_insert_ne].
Qed.

Lemma purged_operations now id st t s :
  logical_operations (set_purge_status id st (clear_namespace now t s)) = release_all now t <$> logical_operations s.
Proof. reflexivity. Qed.

Section purges.
  Context `{Crypto, ManagedText}.

Lemma purge_namespace_cases e r s :
    (purge_namespace e r s).2 = s
    ∨ (∃ p, purges s !! pr_operation_id r = Some p ∧ mp_tenant_id p = pr_tenant_id r
        ∧ purge_namespace e r s = (Ok (finish_purge e (pr_operation_id r) s).1,
                                   (finish_purge e (pr_operation_id r) s).2))
    ∨ (purges s !! pr_operation_id r = None ∧ fenced s (pr_tenant_id r) = false
       ∧ unledgered e s (pr_tenant_id r) = None
       ∧ purge_namespace e r s = (Ok (finish_purge e (pr_operation_id r) (fence_for_purge r s)).1,
                                  (finish_purge e (pr_operation_id r) (fence_for_purge r s)).2)).
Proof.
    unfold purge_namespace, fence_for_purge. cbv zeta.
    destruct (purges s !! _) as [p|] eqn:Hp.
    - case_match; [by left|]. guards. right. left. exists p. by destruct (finish_purge _ _ _).
    - destruct (fenced _ _) eqn:Hf; [by left|]. destruct (unledgered _ _ _) eqn:Hu; [by left|].
      right. right. by destruct (finish_purge _ _ _).
Qed.

  (** ** The fence of an unsettled operation is current *)

Definition epoch_inv (s : MemoryState) : Prop :=
    ∀ k o, logical_operations s !! k = Some o → terminal (lo_state o) = false →
      namespace_epoch s (op_tenant o) = rf_namespace_epoch (li_fence (lo_intent o)).

Lemma finish_purge_epoch e id s t :
    has_unresolved s t = true → namespace_epoch (finish_purge e id s).2 t = namespace_epoch s t.
Proof.
    intros Hu. destruct (finish_purge_cases e id s) as [(h & -> & _)|(p & (_ & _ & _ & Hn & _) & ->)]; [done|].
    cbn [snd]. rewrite purged_namespace_epoch. case_decide; congruence.
Qed.

Lemma unresolved_true s k o :
    logical_operations s !! k = Some o → terminal (lo_state o) = false → has_unresolved s (op_tenant o) = true.
Proof.
    intros Ho Ht. destruct (has_unresolved s (op_tenant o)) eqn:E; [done|].
    by rewrite (unresolved_terminal _ _ _ _ E Ho eq_refl) in Ht.
Qed.

Lemma namespace_epoch_kept e c s k o :
    logical_operations s !! k = Some o → terminal (lo_state o) = false →
    namespace_epoch (managed_step e c s) (op_tenant o) = namespace_epoch s (op_tenant o).
Proof.
    intros Ho Ht. destruct (is_purge c) eqn:Hq; [|by apply namespace_epoch_step].
    pose proof (unresolved_true s k o Ho Ht) as Hu.
    destruct c; try discriminate Hq; unfold managed_step, call_run; cbn [fst snd].
    - destruct (purge_namespace_cases e request s) as [->|[(p & _ & _ & ->)|(_ & _ & _ & ->)]]; cbn [fst snd].
      + done.
      + by apply finish_purge_epoch.
      + rewrite finish_purge_epoch; done.
    - unfold namespace_purge_status. pose proof (finish_purge_epoch e (pr_operation_id request) s _ Hu) as E.
      by destruct (finish_purge _ _ _).
Qed.

Lemma epoch_inv_step e c s : macc s → epoch_inv s → epoch_inv (managed_step e c s).
Proof.
    intros HA HE k o' Ho' Ht'. pose proof (managed_step_ops e c s HA k) as Hn. rewrite Ho' in Hn.
    destruct (logical_operations s !! k) as [o|] eqn:Ho.
    - assert (Ht : terminal (lo_state o) = false).
      { destruct (terminal (lo_state o)) eqn:E; [|done]. destruct (on_settled _ _ Hn E) as [E' _]. congruence. }
      pose proof (namespace_epoch_kept e c s k o Ho Ht) as E.
      unfold op_tenant in *. rewrite (on_intent _ _ Hn), E. by apply (HE k).
    - destruct Hn as [_ Hf]. rewrite Hf. cbn. destruct (is_purge c) eqn:Hq; [|by apply namespace_epoch_step].
      exfalso. assert (logical_operations (managed_step e c s) !! k = None); [|congruence].
      destruct c; try discriminate Hq; unfold managed_step, call_run; cbn [fst snd].
      + destruct (purge_namespace_cases e request s) as [->|[(p & _ & _ & ->)|(_ & _ & _ & ->)]]; cbn [fst snd]; [done|..].
        all: match goal with |- context [finish_purge ?x ?i ?s0] =>
          destruct (finish_purge_cases x i s0) as [(h & -> & _)|(? & _ & ->)] end; [done|].
        all: cbn [snd]; rewrite purged_operations, lookup_fmap;
          by change (logical_operations (fence_for_purge _ _)) with (logical_operations s); rewrite Ho.
      + unfold namespace_purge_status.
        destruct (finish_purge_cases e (pr_operation_id request) s) as [(h & E & _)|(? & _ & E)].
        * destruct (finish_purge _ _ _). cbn in *. by rewrite E.
        * rewrite E. cbn [snd]. by rewrite purged_operations, lookup_fmap, Ho.
Qed.

Lemma mreach_epoch_inv s : mreach s → epoch_inv s.
Proof. induction 1 as [|e c s Hs IH Hc]; [by intros ??|]. apply epoch_inv_step; [by apply mreach_macc|done]. Qed.
End purges.

(** ** Settling never fails half-way *)

Lemma settle_fits now s id o d :
  macc s → logical_operations s !! id = Some o → terminal (lo_state o) = false →
  0 <= d <= lo_reserved_physical_bytes o →
  let u := usage_row now (op_tenant o) s in
  u64_checked_add (wu_physical_allocated_bytes u) d = Some (wu_physical_allocated_bytes u + d)
  ∧ u64_checked_sub (wu_reserved_bytes u) (lo_reserved_physical_bytes o)
      = Some (wu_reserved_bytes u - lo_reserved_physical_bytes o).
Proof.
  intros HA Ho Ht Hd u. pose proof bytes_limit_u64.
  pose proof (row_bound _ _ _ (accounted_row now s (op_tenant o) HA)) as Hb.
  destruct (accounted_nonneg now s (op_tenant o) HA) as [n1 n2]. fold u in Hb, n1, n2.
  assert (lo_reserved_physical_bytes o <= wu_reserved_bytes u) as Hle.
  { destruct (op_active o) eqn:Ha.
    - destruct (accounted_active now s id o HA Ho Ha) as [_ E]. unfold u. rewrite E. reflexivity.
    - assert (lo_state o = LIntent) as Hi by (unfold op_active in Ha; by destruct (lo_state o)).
      rewrite (op_unreserved _ _ (acc_wf _ _ HA _ _ Ho) Hi). done. }
  unfold u64_checked_add, u64_checked_sub.
  by rewrite !(proj2 (Z.leb_le _ _)) by lia.
Qed.

(** Two repositories that differ at most in entries that hold the default. *)
Definition rest (s : MemoryState) :=
  (authorities s, logical_operations s, list_cursors s, list_cursor_successors s, repairs s,
   physical_write_intents s, blocked_write_intents s, physical_write_leases s,
   physical_write_tokens s, physical_write_epochs s, physical_versions s, fenced_namespaces s,
   purges s, multipart_activities s, confirmed_multipart_activities s,
   multipart_registration_expiry s, placement_policy_fingerprints s).

Record unchanged (s s' : MemoryState) : Prop := {
  unc_rest : rest s' = rest s;
  unc_namespace t : namespace_epoch s' t = namespace_epoch s t;
  unc_routing t : routing_epoch s' t = routing_epoch s t;
  unc_usage t : workspace_usage s' !! t = workspace_usage s !! t
    ∨ workspace_usage s !! t = None ∧ ∃ now, workspace_usage s' !! t = Some (new_usage now t);
}.

Lemma unchanged_refl s : unchanged s s.
Proof. split; [done..|by left]. Qed.

Lemma unchanged_enter_usage now t s : unchanged s (enter_usage now t s).
Proof.
  split; [done..|]. intros t'. cbn. rewrite lookup_or_insert. case_decide as D; [subst t'|by left].
  destruct (workspace_usage s !! t); [by left|right]. split; [done|]. by eexists.
Qed.

Lemma unchanged_enter_epochs t s : unchanged s (enter_routing t (enter_namespace t s)).
Proof.
  split; [done| | |by left]; intros t'; unfold namespace_epoch, routing_epoch; cbn;
    rewrite lookup_or_insert; case_decide as D; by subst.
Qed.

Create HintDb unchanged.
#[export] Hint Resolve unchanged_refl unchanged_enter_usage unchanged_enter_epochs : unchanged.

Section atomic.
  Context `{Crypto, ManagedText}.

  (** The calls that carry a logical operation through its life. *)
Definition on_operation (c : ManagedCall) : bool :=
    match c with
    | CInsertOp _ | CReserve _ _ | CRecordUsage _ _ | CCommitPut _ _ _ | CCommitDelete _ _
    | CTransition _ _ _ _ | CProveAbort _ _ _ => true
    | _ => false
    end.

Lemma put_unchanged e id a n s x : macc s → is_u64 (oa_size a) →
    (commit_logical_put e id a n s).1 = Err x → unchanged s (commit_logical_put e id a n s).2.
Proof.
    intros HA Hsz. unfold commit_logical_put.
    destruct (logical_operations s !! id) as [o|] eqn:Ho; [|eauto with unchanged].
    cbv zeta. destruct (decide _); [by repeat case_match; eauto with unchanged|].
    destruct (lo_evidence o) as [ev|]; [|eauto with unchanged].
    destruct (put_mismatch _ _ _) eqn:Hpm; [eauto with unchanged|].
    case_match; [eauto with unchanged|].
    destruct (physical_allocation _ _) as [d|] eqn:Hd; [|eauto with unchanged].
    case_match eqn:Hg1; [eauto with unchanged|]. case_match; [eauto with unchanged|].
    case_match; [eauto with unchanged|]. case_match; [|eauto with unchanged].
    case_match; [eauto with unchanged|]. frame_repairs.
    unfold put_mismatch in Hpm. guards. edestruct settleable_not_terminal as [T1 T2]; [eassumption|].
    pose proof (physical_allocation_nonneg _ _ _ (proj1 Hsz) (child_version_count_nonneg _ _) Hd).
    destruct (settle_fits (env_now e) (enter_usage (env_now e) (op_tenant o) s) id o d
      (macc_enter _ _ _ HA) Ho T1) as [F1 F2]; [lia|].
    match goal with |- context [u64_checked_add ?p d] => change p with
      (wu_physical_allocated_bytes (usage_row (env_now e) (op_tenant o)
         (enter_usage (env_now e) (op_tenant o) s))) end.
    rewrite F1. cbn [wu_reserved_bytes set_wu_physical_allocated_bytes].
    match goal with |- context [u64_checked_sub ?p _] => change p with
      (wu_reserved_bytes (usage_row (env_now e) (op_tenant o)
         (enter_usage (env_now e) (op_tenant o) s))) end.
    by rewrite F2.
Qed.

Lemma abort_unchanged e id c p s x : macc s →
    (∀ q, p = Some q → is_u64 (oa_size (pa_authority q))) →
    (prove_logical_abort e id c p s).1 = Err x → unchanged s (prove_logical_abort e id c p s).2.
Proof.
    intros HA Hp. unfold prove_logical_abort.
    destruct (logical_operations s !! id) as [o|] eqn:Ho; [|eauto with unchanged].
    cbv zeta. destruct (decide _) as [|N1]; [eauto with unchanged|].
    destruct (decide _) as [|N2]; [eauto with unchanged|]. case_match; [eauto with unchanged|].
    assert (T : terminal (lo_state o) = false) by (by destruct (lo_state o)).
    destruct (aborted_allocation e o p s) as [[d|y] s0] eqn:Eal.
    - pose proof (aborted_allocation_bound _ _ _ _ _ _ Hp
        (op_reserved _ _ (acc_wf _ _ HA _ _ Ho)) Eal) as Hd.
      destruct (aborted_allocation_frame e o p s) as [m Em]. rewrite Eal in Em. cbn in Em. subst s0.
      set (s1 := enter_usage _ _ _).
      assert (HA1 : macc s1) by (by apply macc_enter).
      destruct (settle_fits (env_now e) s1 id o d HA1 Ho T Hd) as [F1 F2].
      case_match eqn:Hg.
      + exfalso. guards. assert (Ha : op_active o = true).
        { unfold op_active. by destruct (lo_state o). }
        by destruct (accounted_active (env_now e) s1 id o HA1 Ho Ha).
      + unfold op_tenant in F1, F2. rewrite F2. cbn [wu_physical_allocated_bytes set_wu_reserved_bytes].
        by rewrite F1.
    - unfold aborted_allocation in Eal. cbv zeta in Eal.
      repeat (case_match; simplify_eq; eauto with unchanged).
Qed.

(** A call on a logical operation that is refused leaves the repository as
    it was: no authority, repair, operation or counter has changed, at most an
    entry with its default value has been filled in. *)
Theorem refused_unchanged e c s x :
    mreach s → on_operation c = true → call_ok c → call_error e c s = Some x →
    unchanged s (managed_step e c s).
Proof.
    intros Hs%mreach_macc Hc Hok. unfold call_error, managed_step, call_run.
    assert (Hsome : ∀ A (r : result ManagedError A),
      match r with Ok _ => None | Err y => Some y end = Some x → ∃ y, r = Err y) by (intros ? [] [=]; by eexists).
    destruct c; try discriminate Hc; cbn [fst snd]; intros [y E]%Hsome; revert E.
    4: by apply put_unchanged.
    6: apply abort_unchanged; [done|]; intros q ->; exact Hok.
    all: unfold insert_logical_operation, reserve_logical_operation, record_logical_usage,
      commit_logical_delete, transition_logical_operation; cbv zeta.
    all: repeat case_match; cbn [fst snd]; try discriminate; eauto with unchanged.
Qed.

Lemma abort_None_settles e id c s o :
    macc s → epoch_inv s → logical_operations s !! id = Some o → lo_state o ≠ LCommitted →
    child_version_count s (lo_intent o) = 0 →
    ∃ o', (prove_logical_abort e id c None s).1 = Ok o' ∧ lo_state o' = LProvenAborted
      ∧ wu_active_operation_id (urow (workspace_usage (prove_logical_abort e id c None s).2) (op_tenant o))
        ≠ Some id.
Proof.
    intros HA HE Ho Hc Hn.
    assert (Hinv : macc (prove_logical_abort e id c None s).2) by (by apply abort_macc).
    pose proof (λ j, proj1 (row_active _ _ _ (acc_row _ _ Hinv (op_tenant o)) j)) as Hrow.
    assert (∃ o', (prove_logical_abort e id c None s).1 = Ok o' ∧ lo_state o' = LProvenAborted
      ∧ logical_operations (prove_logical_abort e id c None s).2 !! id = Some o') as (o' & E1 & E2 & E3).
    { unfold prove_logical_abort. rewrite Ho. cbv zeta.
      destruct (decide _) as [|N]; [by exists o|]. rewrite (decide_False _ _ Hc).
      assert (T : terminal (lo_state o) = false) by (by destruct (lo_state o)).
      pose proof (HE id o Ho T) as Ee. unfold op_tenant in Ee. rewrite Ee, Z.eqb_refl. cbn [negb].
      unfold aborted_allocation. rewrite Hn. cbn [Z.eqb negb].
      set (s1 := enter_usage _ _ s). assert (HA1 : macc s1) by (by apply macc_enter).
      pose proof (op_reserved _ _ (acc_wf _ _ HA _ _ Ho)).
      destruct (settle_fits (env_now e) s1 id o 0 HA1 Ho T) as [F1 F2]; [lia|].
      unfold op_tenant in F1, F2. rewrite F2. cbn [wu_physical_allocated_bytes set_wu_reserved_bytes].
      rewrite F1. case_match eqn:Hg.
      - exfalso. guards. assert (Ha : op_active o = true) by (unfold op_active; by destruct (lo_state o)).
        by destruct (accounted_active (env_now e) s1 id o HA1 Ho Ha).
      - eexists. split; [done|]. split; [done|]. cbn. by rewrite lookup_insert_eq. }
    exists o'. split; [done|]. split; [done|]. intros (x & Hx & _ & Ha)%Hrow.
    rewrite E3 in Hx. injection Hx as <-. unfold op_active in Ha. by rewrite E2 in Ha.
Qed.

(** An unsettled operation can always be brought to an end: once none of its
    versions is ledgered, proving its abort succeeds in every reachable
    repository, and the workspace is free for the next mutation. *)
Theorem abort_always_settles e id c s o :
    mreach s → logical_operations s !! id = Some o → lo_state o ≠ LCommitted →
    child_version_count s (lo_intent o) = 0 →
    ∃ o', (prove_logical_abort e id c None s).1 = Ok o' ∧ lo_state o' = LProvenAborted
      ∧ wu_active_operation_id (urow (workspace_usage (prove_logical_abort e id c None s).2) (op_tenant o))
        ≠ Some id.
Proof. intros Hs. apply abort_None_settles; [by apply mreach_macc|by apply mreach_epoch_inv]. Qed.
End atomic.

Section histories.
  Context `{Crypto, ManagedText}.

  (** One call, and any number of them. *)
Definition mstep (s s' : MemoryState) : Prop := ∃ e c, call_ok c ∧ s' = managed_step e c s.

  (** A call that does not draw the UUID [τ] again. *)
Definition mstep_avoiding (τ : Uuid) (s s' : MemoryState) : Prop :=
    ∃ e c, call_ok c ∧ (∀ i, env_uuid e i ≠ τ) ∧ s' = managed_step e c s.

Lemma mreach_steps s s' : mreach s → rtc mstep s s' → mreach s'.
Proof.
    intros Hs Hr. induction Hr as [|s s1 s' (e & c & Hc & ->) _ IH]; [done|].
    apply IH. by apply mreach_step.
Qed.

Definition move (a b : ManagedLogicalOperationState) : Prop := logical_move a b = true.

(** Along every history an operation is never lost, keeps its intent and its
    evidence, and its state follows the moves of the protocol; once it is
    COMMITTED or PROVEN_ABORTED, its state, its evidence, the bytes it charged
    and the authority version it committed are final. *)
Theorem managed_operation_lifecycle s s' id o :
    mreach s → rtc mstep s s' → logical_operations s !! id = Some o →
    ∃ o', logical_operations s' !! id = Some o' ∧ lo_intent o' = lo_intent o
      ∧ rtc move (lo_state o) (lo_state o')
      ∧ (∀ ev, lo_evidence o = Some ev → lo_evidence o' = Some ev)
      ∧ (terminal (lo_state o) = true →
           lo_state o' = lo_state o ∧ lo_evidence o' = lo_evidence o
           ∧ lo_committed_physical_bytes o' = lo_committed_physical_bytes o
           ∧ lo_committed_authority_version o' = lo_committed_authority_version o).
Proof.
    intros Hs Hr. revert Hs o. induction Hr as [s|s s1 s' (e & c & Hc & ->) _ IH]; intros Hs o Ho.
    { exists o. by repeat split. }
    pose proof (managed_step_ops e c s (mreach_macc s Hs) id) as Hn. rewrite Ho in Hn.
    destruct (logical_operations (managed_step e c s) !! id) as [o1|] eqn:Ho1; [|done].
    destruct (IH (mreach_step e c s Hs Hc) o1 eq_refl) as (o' & Ho' & Ei & Em & Ev & Et).
    destruct Hn as [n1 n2 n3 n4]. exists o'. split; [done|]. split; [congruence|]. split; [|split; [auto|]].
    - destruct n2 as [<-|Hm]; [done|]. by eapply rtc_l.
    - intros T. destruct (n4 T) as (E1 & E2 & E3 & E4 & _).
      destruct Et as (F1 & F2 & F3 & F4); [by rewrite E1|]. repeat split; congruence.
Qed.

(** Admission is exact: with the fence in place, an operation that has only
    been recorded gets its reservation if and only if no other operation of the
    workspace is under way and the bytes fit beside everything allocated. *)
Theorem reserve_exact e id n s o :
    mreach s → is_u64 n → logical_operations s !! id = Some o → lo_state o = LIntent →
    fence_lost s (lo_intent o) = false →
    (reserve_logical_operation e id n s).1 =
      if bool_decide (is_Some (wu_active_operation_id (urow (workspace_usage s) (op_tenant o))))
      then Err MutationInProgress
      else if sumZ (allocated_part (op_tenant o)) (logical_operations s) + n <=? bytes_limit
      then Ok (touch_usage (env_now e) (set_wu_active_operation_id (Some id)
             (set_wu_reserved_bytes n (usage_row (env_now e) (op_tenant o) s))))
      else Err QuotaExceeded.
Proof.
    intros Hs%mreach_macc Hn Ho Hst Hf. unfold reserve_logical_operation. rewrite Ho, Hf. cbv zeta.
    change (lk_tenant_id (li_logical (lo_intent o))) with (op_tenant o).
    set (s1 := enter_usage _ _ s). rewrite Hst. cbn [bool_decide decide_rel].
    rewrite (bool_decide_eq_false_2 (LIntent = LOpen)) by done. cbn [andb].
    rewrite (bool_decide_eq_true_2 (LIntent = LIntent)) by done. cbn [negb].
    assert (Hrow : usage_row (env_now e) (op_tenant o) s1 = usage_row (env_now e) (op_tenant o) s).
    { unfold usage_row. cbn. rewrite lookup_or_insert, decide_True by done. by destruct (_ !! _). }
    rewrite Hrow. destruct (usage_row_urow (env_now e) (op_tenant o) s) as (_ & _ & _ & _ & _ & <-).
    pose proof (accounted_row (env_now e) s (op_tenant o) Hs) as [h1 h2 h3 h4 h5 h6 h7].
    case_bool_decide as Hact; [done|].
    assert (Hno : wu_reserved_bytes (usage_row (env_now e) (op_tenant o) s) = 0).
    { rewrite h4. apply sumZ_zero. intros k x Hx. unfold reserved_part.
      case_bool_decide as Et; [|done]. destruct (op_active x) eqn:Ha; [|done].
      destruct Hact. exists k. apply h7. by exists x. }
    rewrite h1, h2, Hno, <- h5. unfold u64_checked_add at 1.
    change (MANAGED_VISIBLE_LIMIT_BYTES + MANAGED_REPLACEMENT_HEADROOM_BYTES) with bytes_limit.
    rewrite (proj2 (Z.leb_le _ _) bytes_limit_u64).
    unfold u64_checked_add at 1. unfold is_u64 in Hn. rewrite (proj2 (Z.leb_le _ _)) by lia.
    rewrite Z.add_0_l. unfold u64_checked_add. pose proof bytes_limit_u64.
    destruct (Z.leb_spec (wu_physical_allocated_bytes (usage_row (env_now e) (op_tenant o) s) + n) bytes_limit).
    - rewrite (proj2 (Z.leb_le _ _)) by lia. by rewrite (proj2 (Z.ltb_ge _ _)) by lia.
    - destruct (_ <=? u64_max); [|done]. by rewrite (proj2 (Z.ltb_lt _ _)) by lia.
Qed.
End histories.
