(* ===== verification/ManagedVisible.v ===== *)
(** * Managed storage: the visible bytes of a workspace

    Authorities are published by committing logical operations, which keep the
    visible bytes of the workspace in step; [publish] and [tombstone], the older
    calls, do not.  In the histories without those two the counter of a workspace
    is the total size of its live objects. *)

From S2P Require Import Prelude Operation Integrity Managed ManagedRepo ManagedUsage ManagedOps.
From stdpp Require Import sorting.

#[local] Open Scope Z_scope.
Set Default Goal Selector "!".

(** ** Sums over filtered maps *)

Lemma sumZ_filter_zero `{Countable K} {A} (P : K * A → Prop) `{∀ x, Decision (P x)} (f : A → Z) (m : gmap K A) :
  (∀ k a, m !! k = Some a → ¬ P (k, a) → f a = 0) → sumZ f (filter P m) = sumZ f m.
Proof.
  induction m as [|k a m Hk IH] using map_ind; intros Hf; [by rewrite map_filter_empty|].
  assert (IH' : sumZ f (filter P m) = sumZ f m).
  { apply IH. intros j b Hj. apply (Hf j b). rewrite lookup_insert_ne; [done|congruence]. }
  rewrite (sumZ_insert _ m) by done. destruct (decide (P (k, a))) as [HP|HP].
  - rewrite map_filter_insert_True by done. rewrite sumZ_insert; [by rewrite IH'|].
    by apply map_lookup_filter_None_2; left.
  - rewrite map_filter_insert_not' by (done || congruence). rewrite IH'.
    rewrite (Hf k a); [done|by rewrite lookup_insert_eq|done].
Qed.

(** ** The invariant *)

Definition visible_part (t : string) (a : ObjectAuthority) : Z :=
  if bool_decide (lk_tenant_id (oa_logical a) = t) && negb (oa_tombstone a) then oa_size a else 0.

Record visible_inv (s : MemoryState) : Prop := {
  vis_key k a : authorities s !! k = Some a → oa_logical a = k;
  vis_sum t : wu_visible_logical_bytes (urow (workspace_usage s) t) = sumZ (visible_part t) (authorities s);
}.

(** The calls that publish without an operation. *)
Definition direct (c : ManagedCall) : bool :=
  match c with CPublish _ _ | CTombstone _ _ _ _ => true | _ => false end.

Lemma visible_same s s' :
  authorities s' = authorities s →
  (∀ t, wu_visible_logical_bytes (urow (workspace_usage s') t)
        = wu_visible_logical_bytes (urow (workspace_usage s) t)) →
  visible_inv s → visible_inv s'.
Proof. intros Ea Ev [Hk Hv]. split; rewrite Ea; [done|]. intros t. by rewrite Ev. Qed.

(** One authority changes together with the counter of its tenant. *)
Lemma visible_publish s s' a old t :
  visible_inv s → lk_tenant_id (oa_logical a) = t → authorities s !! oa_logical a = old →
  authorities s' = <[oa_logical a := a]> (authorities s) →
  (∀ t', wu_visible_logical_bytes (urow (workspace_usage s') t')
     = if decide (t = t') then wu_visible_logical_bytes (urow (workspace_usage s) t)
                               - live_size old + live_size (Some a)
       else wu_visible_logical_bytes (urow (workspace_usage s) t')) →
  visible_inv s'.
Proof.
  intros [Hk Hv] Ht Ho Ea Ev. split; rewrite Ea.
  - intros k b. destruct (decide (k = oa_logical a)) as [->|Hne].
    + rewrite lookup_insert_eq. by intros [= <-].
    + rewrite lookup_insert_ne by done. apply Hk.
  - intros t'. rewrite Ev.
    assert (Hpart : ∀ b, lk_tenant_id (oa_logical b) = t →
      visible_part t' b = if decide (t = t') then live_size (Some b) else 0).
    { intros b Hb. unfold visible_part, live_size. rewrite Hb.
      destruct (decide (t = t')) as [E|E].
      - rewrite bool_decide_eq_true_2 by done. by destruct (oa_tombstone b).
      - by rewrite bool_decide_eq_false_2. }
    destruct old as [b|].
    + rewrite (sumZ_update _ _ _ b) by done. rewrite (Hpart a Ht).
      rewrite (Hpart b) by (by rewrite (Hk _ _ Ho)). rewrite !Hv. case_decide; subst; lia.
    + rewrite sumZ_insert by done. rewrite (Hpart a Ht), !Hv.
      case_decide; subst; simpl; lia.
Qed.

(** Changing where an object is stored does not change what is visible. *)
Lemma visible_move s s' k a a' :
  visible_inv s → authorities s !! k = Some a →
  oa_logical a' = oa_logical a → oa_size a' = oa_size a → oa_tombstone a' = oa_tombstone a →
  authorities s' = <[k := a']> (authorities s) → workspace_usage s' = workspace_usage s →
  visible_inv s'.
Proof.
  intros [Hk Hv] Ha El Es Et Ea Eu. split; rewrite Ea.
  - intros j b. destruct (decide (j = k)) as [->|Hne].
    + rewrite lookup_insert_eq. intros [= <-]. rewrite El. by apply Hk.
    + rewrite lookup_insert_ne by done. apply Hk.
  - intros t. rewrite Eu, Hv, (sumZ_update _ _ _ a) by done.
    unfold visible_part at 3 4. rewrite El, Es, Et. lia.
Qed.

Lemma visible_urow_enter now t t' us :
  wu_visible_logical_bytes (urow (or_insert t (new_usage now t) us) t')
  = wu_visible_logical_bytes (urow us t').
Proof. by destruct (urow_or_insert us t t' now) as (_ & _ & <- & _). Qed.

(** The row of a tenant after it is written. *)
Lemma visible_urow_insert (us : gmap string ManagedWorkspaceUsage) t t' u :
  wu_visible_logical_bytes (urow (<[t := u]> us) t')
  = if decide (t = t') then wu_visible_logical_bytes u else wu_visible_logical_bytes (urow us t').
Proof. unfold urow. case_decide as D; subst; [by rewrite lookup_insert_eq|by rewrite lookup_insert_ne]. Qed.

Lemma visible_usage_row now t s :
  wu_visible_logical_bytes (usage_row now t s) = wu_visible_logical_bytes (urow (workspace_usage s) t).
Proof. by destruct (usage_row_urow now t s) as (_ & _ & -> & _). Qed.

Lemma visible_enter now t s : visible_inv s → visible_inv (enter_usage now t s).
Proof. apply visible_same; [done|]. intros t'. apply visible_urow_enter. Qed.

(** Writing a row that keeps the visible bytes. *)
Lemma visible_keep now t s s' u :
  visible_inv s → authorities s' = authorities s →
  workspace_usage s' = <[t := u]> (workspace_usage s) →
  wu_visible_logical_bytes u = wu_visible_logical_bytes (usage_row now t s) → visible_inv s'.
Proof.
  intros HV Ea Eu Ev. revert HV. apply visible_same; [done|]. intros t'. rewrite Eu, visible_urow_insert.
  case_decide; subst; [|done]. by rewrite Ev, visible_usage_row.
Qed.

Section visible.
  Context `{Crypto, ManagedText}.

Lemma apply_repair_kept a r b a' :
    apply_repair_to_authority a r = Ok (b, a') →
    oa_logical a' = oa_logical a ∧ oa_size a' = oa_size a ∧ oa_tombstone a' = oa_tombstone a
    ∧ oa_cas_version a' = oa_cas_version a ∧ oa_generation a' = oa_generation a
    ∧ oa_digest a' = oa_digest a.
Proof.
    unfold apply_repair_to_authority. destruct (decide _).
    - destruct (rr_placement_primary_backend_id r) as [primary|]; [|done].
      case_match; [by intros [= <- <-]|]. intros (moved & Hm & E)%result_bind_Ok.
      assert (oa_logical moved = oa_logical a ∧ oa_size moved = oa_size a
        ∧ oa_tombstone moved = oa_tombstone a ∧ oa_cas_version moved = oa_cas_version a
        ∧ oa_generation moved = oa_generation a ∧ oa_digest moved = oa_digest a) as Hk.
      { repeat case_match; try discriminate Hm; by injection Hm as <-. }
      injection E as <- <-. destruct (locations_match _ _ _); exact Hk.
    - destruct (rr_target_role r); by intros [= <- <-].
Qed.

Lemma complete_repair_visible e r s : visible_inv s → visible_inv (complete_repair e r s).2.
Proof.
    intros HV. assert (HVr : ∀ m, visible_inv (upd_repairs m s)) by (intros m; by destruct HV).
    unfold complete_repair. cbv zeta. do 2 (case_match; [done|]).
    destruct (repairs s !! _) as [[stored status]|]; [|done]. case_match; [done|].
    set (s1 := upd_repairs _ s). destruct (repaired_authority s1 r) as [a|] eqn:Hra; [|apply HVr].
    destruct (apply_repair_to_authority a r) as [[[] a']|] eqn:Hap; [|apply HVr..].
    apply apply_repair_kept in Hap as (E1 & E2 & E3 & _).
    unfold repaired_authority in Hra. apply bind_Some in Hra as (a0 & Ha0 & Hra).
    case_match; [|done]. injection Hra as ->.
    assert (HV2 : ∀ h, visible_inv (upd_repairs h (upd_authorities <[rr_logical r :=
      set_oa_updated_at_ms (env_now e) (set_oa_cas_version (u64_saturating_add (oa_cas_version a') 1) a')]> s))).
    { intros h. eapply (visible_move s); [done|exact Ha0| | | |reflexivity|reflexivity]; done. }
    destruct (decide _); [|apply HV2].
    match goal with |- context [foldl ?f ?s2 ?l] =>
      destruct (fold_repairs_frame f l s2 (λ _ s', waiting_cleanup_frame _ s')) as [m ->] end.
    case_match; apply (HV2 (λ _, _)).
Qed.

  (** A commit publishes [a] and sets the counter of its tenant. *)
Lemma visible_commit now s s' a u' :
    let t := lk_tenant_id (oa_logical a) in
    visible_inv s → authorities s' = <[oa_logical a := a]> (authorities s) →
    workspace_usage s' = <[t := u']> (workspace_usage s) →
    wu_visible_logical_bytes u' = wu_visible_logical_bytes (usage_row now t s)
      - live_size (authorities s !! oa_logical a) + live_size (Some a) →
    visible_inv s'.
Proof.
    cbv zeta. intros HV Ea Eu Ev. eapply visible_publish; [exact HV|reflexivity|reflexivity|exact Ea|].
    intros t'. rewrite Eu, visible_urow_insert. case_decide; [|done].
    by rewrite Ev, visible_usage_row.
Qed.

Lemma put_visible e id a n s : visible_inv s → visible_inv (commit_logical_put e id a n s).2.
Proof.
    intros HV. unfold commit_logical_put.
    destruct (logical_operations s !! id) as [o|] eqn:Ho; [|done]. cbv zeta.
    pose proof (visible_enter (env_now e) (lk_tenant_id (li_logical (lo_intent o))) s HV) as HV1.
    destruct (decide _); [repeat (case_match; try exact HV; try exact HV1)|].
    destruct (lo_evidence o) as [ev|]; [|done]. destruct (put_mismatch _ _ _) eqn:Hpm; [done|].
    destruct (fence_lost _ _); [done|]. destruct (physical_allocation _ _); [|done].
    case_match; [done|]. case_match eqn:Hmv; [done|].
    set (s1 := enter_usage _ _ s) in *.
    case_match; [done|]. case_match eqn:Hvis; [|done]. case_match; [done|]. frame_repairs.
    match goal with |- context [set_oa_created_at_ms ?c _] => generalize c; intros created end.
    unfold put_mismatch in Hpm. unfold authority_moved in Hmv.
    apply bind_Some in Hvis as (v & Hv & Hvis). guards. subst.
    match goal with E : oa_logical a = _ |- _ => rewrite <- E in * end.
    assert (Hlive : live_size (Some (set_oa_updated_at_ms (env_now e) a)) = oa_size a).
    { unfold live_size. cbn. by match goal with E : oa_tombstone a = false |- _ => rewrite E end. }
    repeat case_match; (eapply (visible_commit (env_now e) s1);
      [exact HV1|reflexivity|reflexivity|]); cbn -[live_size usage_row s1 lookup];
      change (live_size (Some _)) with (live_size (Some (set_oa_updated_at_ms (env_now e) a)));
      rewrite Hlive; unfold s1 in *; cbn -[live_size usage_row lookup] in *; lia.
Qed.

Lemma delete_visible e id p s : visible_inv s → visible_inv (commit_logical_delete e id p s).2.
Proof.
    intros HV. unfold commit_logical_delete.
    destruct (logical_operations s !! id) as [o|] eqn:Ho; [|done]. cbv zeta.
    pose proof (visible_enter (env_now e) (lk_tenant_id (li_logical (lo_intent o))) s HV) as HV1.
    destruct (decide _); [repeat (case_match; try exact HV; try exact HV1)|].
    destruct (delete_mismatch o); [done|]. destruct (fence_lost _ _); [done|].
    case_match eqn:Hmv; [done|]. set (s1 := enter_usage _ _ s) in *.
    case_match; [done|]. case_match eqn:Hvis; [|done]. frame_repairs.
    unfold authority_moved in Hmv. guards. subst.
    eapply (visible_commit (env_now e) s1); [exact HV1|reflexivity|reflexivity|].
    cbn -[live_size usage_row s1 lookup]. unfold live_size at 2. cbn -[live_size usage_row s1 lookup].
    unfold s1 in *; cbn -[live_size usage_row lookup] in *. lia.
Qed.

Lemma visible_purged now id st t s :
    visible_inv s → visible_inv (set_purge_status id st (clear_namespace now t s)).
Proof.
    intros [Hk Hv].
    assert (Ea : authorities (set_purge_status id st (clear_namespace now t s))
                 = filter (λ kv, lk_tenant_id kv.1 ≠ t) (authorities s)) by reflexivity.
    assert (Eu : workspace_usage (set_purge_status id st (clear_namespace now t s))
                 = alter (clear_usage now) t (workspace_usage s)) by reflexivity.
    split; rewrite Ea.
    - intros k a [Ha _]%map_lookup_filter_Some. by apply Hk.
    - intros t'. rewrite Eu. unfold urow. destruct (decide (t' = t)) as [->|Hne].
      + rewrite lookup_alter_eq. rewrite sumZ_zero; [by destruct (workspace_usage s !! t)|].
        intros k a [Ha Hn]%map_lookup_filter_Some. cbn in Hn. unfold visible_part.
        rewrite bool_decide_eq_false_2; [done|]. by rewrite (Hk _ _ Ha).
      + rewrite lookup_alter_ne by done. fold (urow (workspace_usage s) t'). rewrite Hv.
        symmetry. apply sumZ_filter_zero. intros k a Ha Hn. unfold visible_part.
        rewrite bool_decide_eq_false_2; [done|]. rewrite (Hk _ _ Ha). cbn in Hn.
        destruct (decide (lk_tenant_id k = t)); [congruence|done].
Qed.

Lemma finish_purge_visible e id s : visible_inv s → visible_inv (finish_purge e id s).2.
Proof.
    intros HV. destruct (finish_purge_cases e id s) as [(h & -> & _)|(p & _ & ->)].
    - by destruct HV.
    - cbn [snd]. by apply visible_purged.
Qed.

  (** The calls that can change an authority. *)
Definition moves_authority (c : ManagedCall) : bool :=
    match c with
    | CCommitPut _ _ _ | CCommitDelete _ _ | CPublish _ _ | CTombstone _ _ _ _
    | CAdvancePlacement _ _ _ | CCompleteRepair _ | CPurge _ | CPurgeStatus _ => true
    | _ => false
    end.

Lemma authorities_step e c s :
    moves_authority c = false → authorities (managed_step e c s) = authorities s.
Proof.
    destruct c; intros Hq; try discriminate Hq; call_cases.
    all: repeat (case_match; try done); simplify_eq; frame_loops; done.
Qed.

Lemma visible_quiet e c s :
    quiet c = true → moves_authority c = false → visible_inv s → visible_inv (managed_step e c s).
Proof.
    intros Hq Hm. apply visible_same; [by apply authorities_step|].
    pose proof (quiet_accounts e c s Hq) as E. injection E as _ ->. done.
Qed.

Lemma reserve_visible e id n s : visible_inv s → visible_inv (reserve_logical_operation e id n s).2.
Proof.
    intros HV. unfold reserve_logical_operation. cbv zeta.
    repeat (case_match; try exact HV; try (by apply visible_enter)).
    eapply visible_keep; [by apply visible_enter|reflexivity|reflexivity|done].
Qed.

Lemma abort_visible e id c p s : visible_inv s → visible_inv (prove_logical_abort e id c p s).2.
Proof.
    intros HV. unfold prove_logical_abort. cbv zeta.
    destruct (logical_operations s !! id) as [o|]; [|done].
    do 2 (destruct (decide _); [done|]). case_match; [done|].
    destruct (aborted_allocation_frame e o p s) as [m Em].
    destruct (aborted_allocation e o p s) as [[d|x] s0]; cbn in Em; subst s0;
      (assert (HV0 : visible_inv (upd_repairs (λ _, m) s)) by (by destruct HV)); [|done].
    case_match; [by apply visible_enter|]. case_match; [|by apply visible_enter].
    case_match; (eapply (visible_keep (env_now e)); [by apply visible_enter|reflexivity|reflexivity|]).
    - by destruct (decide _).
    - done.
Qed.

Lemma forget_visible e t s : visible_inv s → visible_inv (forget_physical_version e t s).2.
Proof.
    intros HV. unfold forget_physical_version. cbv zeta.
    set (s0 := upd_physical_versions _ s). assert (HV0 : visible_inv s0) by (by destruct HV).
    repeat (case_match; try exact HV0; try (by apply visible_enter)).
    eapply visible_keep; [by apply visible_enter|reflexivity|reflexivity|done].
Qed.

Lemma advance_visible e k c p s : visible_inv s → visible_inv (advance_placement_version e k c p s).2.
Proof.
    intros HV. unfold advance_placement_version. cbv zeta. repeat (case_match; try exact HV).
    eapply visible_move; [exact HV|eassumption| | | |reflexivity|reflexivity]; done.
Qed.

Lemma visible_step e c s : direct c = false → visible_inv s → visible_inv (managed_step e c s).
Proof.
    intros Hd HV. destruct (quiet c && negb (moves_authority c)) eqn:Hq.
    { guards. by apply visible_quiet. }
    destruct c; try discriminate Hd; try discriminate Hq; clear Hd Hq.
    - eapply visible_same; [by apply authorities_step| |done]. intros t. call_cases. by repeat case_match.
    - by apply reserve_visible.
    - eapply visible_same; [by apply authorities_step| |done]. intros t. call_cases. by repeat case_match.
    - by apply put_visible.
    - by apply delete_visible.
    - eapply visible_same; [by apply authorities_step| |done]. intros t. call_cases. by repeat case_match.
    - by apply abort_visible.
    - by apply advance_visible.
    - by apply complete_repair_visible.
    - by apply forget_visible.
    - unfold managed_step, call_run. cbn [fst snd].
      destruct (purge_namespace_cases e request s) as [->|[(p & _ & _ & ->)|(_ & _ & _ & ->)]]; cbn [fst snd].
      + done.
      + by apply finish_purge_visible.
      + apply finish_purge_visible. by destruct HV.
    - unfold managed_step, call_run, namespace_purge_status. cbn [fst snd].
      pose proof (finish_purge_visible e (pr_operation_id request) s HV). by destruct (finish_purge _ _ _).
Qed.

  (** The histories in which objects are published by operations only. *)
Inductive oreach : MemoryState → Prop :=
  | oreach_new : oreach managed_new
  | oreach_step e c s : oreach s → call_ok c → direct c = false → oreach (managed_step e c s).

Lemma oreach_mreach s : oreach s → mreach s.
Proof. induction 1; [constructor|by apply mreach_step]. Qed.

Lemma oreach_visible s : oreach s → visible_inv s.
Proof.
    induction 1 as [|e c s _ IH _ Hd]; [|by apply visible_step].
    split; [by intros k a|]. intros t. cbn. by rewrite sumZ_empty.
Qed.

(** When objects are published by logical operations only, the visible bytes
    of a workspace are exactly the total size of its live objects, and they are
    within the limit. *)
Theorem visible_is_live_size s t :
    oreach s →
    wu_visible_logical_bytes (urow (workspace_usage s) t) = sumZ (visible_part t) (authorities s)
    ∧ sumZ (visible_part t) (authorities s) <= MANAGED_VISIBLE_LIMIT_BYTES.
Proof.
    intros Hs. pose proof (vis_sum _ (oreach_visible s Hs) t) as E.
    pose proof (row_visible _ _ _ (acc_row _ _ (mreach_macc s (oreach_mreach s Hs)) t)). lia.
Qed.
End visible.
