(* ===== verification/ManagedPurge.v ===== *)
(** * Managed storage: purging a namespace

    The purge of [InMemoryManagedRepository]: what a completed purge guarantees,
    how it moves while only written versions are left, and what happens when a
    completed purge is driven once more. *)

From S2P Require Import Prelude Operation Integrity Managed ManagedRepo ManagedUsage ManagedOps.
From stdpp Require Import sorting.

#[local] Open Scope Z_scope.
Set Default Goal Selector "!".

(** ** What a completed purge leaves *)

Lemma head_None_nil {A} (l : list A) : head l = None → l = [].
Proof. by destruct l. Qed.

(** Nothing of tenant [t] is left in the repository. *)
Record namespace_empty (s : MemoryState) (t : string) : Prop := {
  ne_authorities k a : authorities s !! k = Some a → lk_tenant_id k ≠ t;
  ne_repairs k r : repairs s !! k = Some r → lk_tenant_id (rr_logical r.1) ≠ t;
  ne_intents k i : physical_write_intents s !! k = Some i → wi_tenant_id i ≠ t;
  ne_versions v : v ∈ physical_versions s → vt_tenant_id v ≠ t;
  ne_activities k a : multipart_activities s !! k = Some a → a.1 ≠ t;
  ne_cursors k c : list_cursors s !! k = Some c → cb_tenant_id (lc_binding c) ≠ t;
  ne_operations k o : logical_operations s !! k = Some o → op_tenant o = t →
    terminal (lo_state o) = true ∧ lo_released_physical_bytes o = lo_committed_physical_bytes o;
  ne_usage : wu_visible_logical_bytes (urow (workspace_usage s) t) = 0
    ∧ wu_physical_allocated_bytes (urow (workspace_usage s) t) = 0
    ∧ wu_reserved_bytes (urow (workspace_usage s) t) = 0
    ∧ wu_active_operation_id (urow (workspace_usage s) t) = None;
  ne_unfenced : fenced s t = false;
}.

Lemma has_physical_false s t : has_physical s t = false →
  (∀ k i, physical_write_intents s !! k = Some i → wi_tenant_id i ≠ t)
  ∧ (∀ v, v ∈ physical_versions s → vt_tenant_id v ≠ t)
  ∧ (∀ k a, multipart_activities s !! k = Some a → a.1 ≠ t).
Proof.
  unfold has_physical. intros [[H1 H2]%orb_false_elim H3]%orb_false_elim. split; [|split].
  - intros k i Hi E. by pose proof (existsb_map_false _ _ _ _ H1 Hi) as X%bool_decide_eq_false.
  - intros v Hv E. assert (existsb (λ v, bool_decide (vt_tenant_id v = t)) (physical_versions s) = true); [|congruence].
    apply existsb_exists. exists v. split; [by apply list_elem_of_In|by apply bool_decide_eq_true].
  - intros k a Ha E. by pose proof (existsb_map_false _ _ _ _ H3 Ha) as X%bool_decide_eq_false.
Qed.

Lemma cleared_fields now id st t s :
  let s' := set_purge_status id st (clear_namespace now t s) in
  authorities s' = filter (λ kv, lk_tenant_id kv.1 ≠ t) (authorities s)
  ∧ repairs s' = filter (λ kv, lk_tenant_id (rr_logical kv.2.1) ≠ t) (repairs s)
  ∧ physical_write_intents s' = physical_write_intents s
  ∧ physical_versions s' = physical_versions s
  ∧ multipart_activities s' = multipart_activities s
  ∧ list_cursors s' = filter (λ kv, cb_tenant_id (lc_binding kv.2) ≠ t) (list_cursors s)
  ∧ workspace_usage s' = alter (clear_usage now) t (workspace_usage s)
  ∧ fenced_namespaces s' = delete t (fenced_namespaces s)
  ∧ purges s' = alter (set_mp_status st) id (purges s).
Proof. repeat split. Qed.

Lemma purged_empty now id st t s :
  has_unresolved s t = false → has_physical s t = false →
  namespace_empty (set_purge_status id st (clear_namespace now t s)) t.
Proof.
  intros Hu (P1 & P2 & P3)%has_physical_false.
  destruct (cleared_fields now id st t s) as (E1 & E2 & E3 & E4 & E5 & E6 & E7 & E8 & _).
  split.
  - rewrite E1. by intros k a [_ ?]%map_lookup_filter_Some.
  - rewrite E2. by intros k r [_ ?]%map_lookup_filter_Some.
  - by rewrite E3.
  - by rewrite E4.
  - by rewrite E5.
  - rewrite E6. by intros k c [_ ?]%map_lookup_filter_Some.
  - rewrite purged_operations. intros k o (o0 & <- & Ho)%lookup_fmap_Some.
    destruct (release_all_fields now t o0) as (F1 & F2 & _ & F4). unfold op_tenant. rewrite F1, F2, F4.
    intros Ht. split; [by eapply unresolved_terminal|]. unfold release_all. by rewrite decide_True.
  - rewrite E7. unfold urow. rewrite lookup_alter_eq. by destruct (workspace_usage s !! t).
  - unfold fenced. rewrite E8, lookup_delete_eq. by rewrite bool_decide_eq_false_2 by (by intros [??]).
Qed.

(** ** Epochs are machine words *)

Section words.
  Context `{Crypto, ManagedText}.

Lemma routing_epoch_enter t t' s : routing_epoch (enter_routing t s) t' = routing_epoch s t'.
Proof.
    unfold routing_epoch. cbn. rewrite lookup_or_insert. case_decide; subst; [|done].
    by destruct (routing_epochs s !! t').
Qed.

Definition advances (c : ManagedCall) : bool := match c with CAdvanceRouting _ _ => true | _ => false end.

Lemma routing_epoch_step e c s t :
    is_purge c = false → advances c = false →
    routing_epoch (managed_step e c s) t = routing_epoch s t.
Proof.
    assert (Hen : ∀ t', routing_epoch (enter_routing t' (enter_namespace t' s)) t = routing_epoch s t).
    { intros t'. by rewrite routing_epoch_enter. }
    destruct c; intros Hq Ha; try discriminate Hq; try discriminate Ha; call_cases.
    all: repeat (case_match; try done; try apply Hen); simplify_eq; frame_loops; (done || apply Hen).
Qed.

Lemma u64_wrap_range z : is_u64 (u64_wrap z).
Proof. unfold is_u64, u64_wrap, u64_max. pose proof (Z.mod_pos_bound z (2 ^ 64)). lia. Qed.

Lemma u64_wrap_succ z : is_u64 z → u64_wrap (z + 1) ≠ z.
Proof.
    unfold is_u64, u64_wrap, u64_max. intros Hz E.
    destruct (Z.eq_dec z (2 ^ 64 - 1)) as [->|Hne]; [by vm_compute in E|].
    rewrite Z.mod_small in E by lia. lia.
Qed.

Definition epochs_u64 (s : MemoryState) : Prop :=
    ∀ t, is_u64 (namespace_epoch s t) ∧ is_u64 (routing_epoch s t).

Lemma purged_epochs_u64 now id st t s :
    epochs_u64 s → epochs_u64 (set_purge_status id st (clear_namespace now t s)).
Proof.
    intros HE t'. rewrite purged_namespace_epoch, purged_routing_epoch.
    destruct (HE t'). case_decide; split; try done; apply u64_wrap_range.
Qed.

Lemma finish_purge_epochs_u64 e id s : epochs_u64 s → epochs_u64 (finish_purge e id s).2.
Proof.
    intros HE. destruct (finish_purge_cases e id s) as [(h & -> & _)|(p & _ & ->)]; [exact HE|].
    by apply purged_epochs_u64.
Qed.

Lemma epochs_u64_step e c s : epochs_u64 s → epochs_u64 (managed_step e c s).
Proof.
    intros HE. destruct (is_purge c) eqn:Hq.
    - destruct c; try discriminate Hq; unfold managed_step, call_run; cbn [fst snd].
      + destruct (purge_namespace_cases e request s) as [->|[(p & _ & _ & ->)|(_ & _ & _ & ->)]]; cbn [fst snd].
        * done.
        * by apply finish_purge_epochs_u64.
        * by apply finish_purge_epochs_u64.
      + unfold namespace_purge_status. pose proof (finish_purge_epochs_u64 e (pr_operation_id request) s HE).
        by destruct (finish_purge _ _ _).
    - intros t. split; [rewrite namespace_epoch_step by done; apply HE|].
      destruct (advances c) eqn:Ha; [|rewrite routing_epoch_step by done; apply HE].
      destruct c; try discriminate Ha. unfold managed_step, call_run, advance_routing_epoch. cbn [fst snd]. cbv zeta.
      repeat case_match; cbn [snd]; try apply HE; try (rewrite routing_epoch_enter; apply (HE t)).
      guards. unfold routing_epoch. cbn. destruct (decide (tenant = t)) as [<-|].
      * rewrite lookup_insert_eq. cbn. destruct (HE tenant) as [_ Hr].
        rewrite routing_epoch_enter in *. change (routing_epoch (enter_namespace tenant s) tenant) with
          (routing_epoch s tenant) in *. unfold is_u64 in *. lia.
      * rewrite lookup_insert_ne by done. rewrite lookup_or_insert, decide_False by done. apply (HE t).
Qed.

Lemma mreach_epochs_u64 s : mreach s → epochs_u64 s.
Proof.
    induction 1; [|by apply epochs_u64_step]. intros t. split; unfold is_u64; cbn; by split.
Qed.

(** C25: When a purge completes, nothing of the tenant is left: no authority,
    repair, cursor, running write, written version or multipart activity; its
    counters are zero and its operations settled and released.  The namespace is
    open again under new epochs, so that what was fenced under the old ones is
    refused, and no other tenant has noticed. *)
Theorem purge_complete_clean e r s s' n :
    mreach s → namespace_purge_status e r s = (Ok (PurgeComplete n), s') →
    ∃ p, purges s !! pr_operation_id r = Some p ∧
      (mp_status p = PurgeComplete n ∧ s' = s
       ∨ mp_deleted_versions p = n ∧ namespace_empty s' (mp_tenant_id p)
         ∧ namespace_epoch s' (mp_tenant_id p) ≠ namespace_epoch s (mp_tenant_id p)
         ∧ (∀ o, op_tenant o = mp_tenant_id p →
              rf_namespace_epoch (li_fence (lo_intent o)) = namespace_epoch s (mp_tenant_id p) →
              fence_lost s' (lo_intent o) = true)
         ∧ (∀ t, t ≠ mp_tenant_id p →
              namespace_epoch s' t = namespace_epoch s t ∧ fenced s' t = fenced s t
              ∧ workspace_usage s' !! t = workspace_usage s !! t
              ∧ ∀ k, lk_tenant_id k = t → authorities s' !! k = authorities s !! k)).
Proof.
    intros Hs%mreach_epochs_u64. unfold namespace_purge_status.
    destruct (finish_purge_cases e (pr_operation_id r) s) as [(h & E1 & E2)|(p & (Hp & _ & _ & Hu & Hph) & ->)].
    - destruct (finish_purge _ _ _) as [st s1] eqn:Ef. cbn in E1, E2. intros [= -> ->].
      destruct (E2 n eq_refl) as (p & Hp & Hst). exists p. split; [done|]. left. split; [done|].
      unfold finish_purge in Ef. rewrite Hp, Hst in Ef. by injection Ef.
    - intros [= <- <-]. exists p. split; [done|]. right.
      split; [done|]. split; [by apply purged_empty|].
      assert (Hne : namespace_epoch (set_purge_status (pr_operation_id r) (PurgeComplete (mp_deleted_versions p))
        (clear_namespace (env_now e) (mp_tenant_id p) s)) (mp_tenant_id p) ≠ namespace_epoch s (mp_tenant_id p)).
      { rewrite purged_namespace_epoch, decide_True by done. apply u64_wrap_succ, Hs. }
      split; [done|]. split.
      + intros o Ht He. unfold fence_lost. unfold op_tenant in Ht. rewrite Ht, He.
        rewrite (proj2 (Z.eqb_neq _ _) Hne). by rewrite orb_true_r.
      + intros t Ht. rewrite purged_namespace_epoch, decide_False by done. split; [done|].
        destruct (cleared_fields (env_now e) (pr_operation_id r) (PurgeComplete (mp_deleted_versions p))
          (mp_tenant_id p) s) as (F1 & _ & _ & _ & _ & _ & F7 & F8 & _).
        unfold fenced. rewrite F1, F7, F8, lookup_delete_ne, lookup_alter_ne by done.
        split; [done|]. split; [done|]. intros k Hk. apply option_eq. intros a.
        rewrite map_lookup_filter_Some. naive_solver.
Qed.
End words.

(** ** A purge with only versions left *)

(** The status that makes the service drive the purge. *)
Definition drives (status : NamespacePurgeStatus) : bool :=
  match status with PurgeRunning | PurgeBlocked _ => true | _ => false end.

Definition tenant_versions (s : MemoryState) (t : string) : list PhysicalVersionTarget :=
  filter (λ v, vt_tenant_id v = t) (physical_versions s).

(** The purge [id] of [t] is under way, and only written versions are left. *)
Record only_versions (id : Uuid) (t : string) (s : MemoryState) : Prop := {
  ov_purge : ∃ p, purges s !! id = Some p ∧ mp_tenant_id p = t ∧ drives (mp_status p) = true;
  ov_intents k i : physical_write_intents s !! k = Some i → wi_tenant_id i ≠ t;
  ov_activities k a : multipart_activities s !! k = Some a → a.1 ≠ t;
  ov_resolved : has_unresolved s t = false;
}.

Definition purge_done (id : Uuid) (t : string) (s : MemoryState) : Prop :=
  namespace_empty s t ∧ ∃ p n, purges s !! id = Some p ∧ mp_tenant_id p = t ∧ mp_status p = PurgeComplete n.

Lemma existsb_map_intro `{Countable K} {A} (f : K * A → bool) (m : gmap K A) :
  (∀ k a, m !! k = Some a → f (k, a) = false) → existsb f (map_to_list m) = false.
Proof.
  intros Hf. destruct (existsb f (map_to_list m)) eqn:E; [|done].
  apply existsb_exists in E as ([k a] & Hin & Hx).
  apply list_elem_of_In, elem_of_map_to_list in Hin. by rewrite (Hf _ _ Hin) in Hx.
Qed.

Lemma unblocked e id t s : only_versions id t s → blocked_reason e s t = None.
Proof.
  intros [_ Hi _ _]. unfold blocked_reason.
  destruct (head _) as [r|] eqn:E; [|done]. exfalso.
  apply head_Some_elem_of in E. apply list_elem_of_omap in E as ([k x] & _ & E). cbn in E.
  destruct (physical_write_intents s !! k) as [i|] eqn:Hk; [|done].
  destruct (decide (wi_tenant_id i = t)) as [Ht|]; [|done]. by apply (Hi k i Hk).
Qed.

Lemma physical_versions_only id t s : only_versions id t s → has_physical s t = true → tenant_versions s t ≠ [].
Proof.
  intros [_ Hi Ha _]. unfold has_physical.
  rewrite (existsb_map_intro (λ kv : Uuid * PhysicalWriteIntent, bool_decide (wi_tenant_id kv.2 = t))),
    (existsb_map_intro (λ kv : string * (string * Z), bool_decide (kv.2.1 = t))).
  - rewrite orb_false_r. cbn [orb]. intros (v & Hv & Ht%bool_decide_eq_true)%existsb_exists.
    intros E. assert (v ∈ tenant_versions s t) as Hin; [|rewrite E in Hin; by apply elem_of_nil in Hin].
    apply list_elem_of_filter. split; [done|by apply list_elem_of_In].
  - intros k a Hk. apply bool_decide_eq_false. by apply (Ha k).
  - intros k i Hk. apply bool_decide_eq_false. by apply (Hi k).
Qed.

(** With nothing left, asking for the status completes the purge. *)
Lemma finish_completes e id t s :
  only_versions id t s → tenant_versions s t = [] →
  ∃ n s', finish_purge e id s = (PurgeComplete n, s') ∧ purge_done id t s'.
Proof.
  intros HO Hv. pose proof HO as [(p & Hp & Ht & Hd) Hi Ha Hu].
  assert (Hph : has_physical s t = false).
  { destruct (has_physical s t) eqn:E; [|done]. by destruct (physical_versions_only _ _ _ HO E). }
  unfold finish_purge. rewrite Hp. cbv zeta. rewrite Ht, (unblocked e id t s HO), Hu, Hph.
  destruct (mp_status p); try discriminate Hd.
  all: eexists _, _; split; [reflexivity|].
  all: split; [by apply purged_empty|].
  all: eexists _, _; split; [cbn; rewrite lookup_alter_eq, Hp; reflexivity|done].
Qed.

(** With versions left, it changes nothing and asks to be driven. *)
Lemma finish_waits e id t s :
  only_versions id t s → tenant_versions s t ≠ [] →
  ∃ st, finish_purge e id s = (st, s) ∧ drives st = true.
Proof.
  intros HO Hv. pose proof HO as [(p & Hp & Ht & Hd) Hi Ha Hu].
  assert (Hph : has_physical s t = true).
  { destruct (has_physical s t) eqn:E; [done|]. apply has_physical_false in E as (_ & E & _).
    destruct (tenant_versions s t) as [|v l] eqn:Ev; [done|].
    assert (v ∈ tenant_versions s t) as [Hvt Hin]%list_elem_of_filter by (rewrite Ev; left).
    by destruct (E v Hin). }
  unfold finish_purge. rewrite Hp. cbv zeta. rewrite Ht, (unblocked e id t s HO), Hu, Hph.
  destruct (mp_status p) eqn:Hst; try discriminate Hd; eexists; done.
Qed.

(** A purge that is complete stays as it is. *)
Lemma finish_done e id t s : purge_done id t s → ∃ n, finish_purge e id s = (PurgeComplete n, s).
Proof. intros (_ & p & n & Hp & _ & Hst). exists n. unfold finish_purge. by rewrite Hp, Hst. Qed.

Lemma mark_deleted_only id t v s :
  only_versions id t s →
  let s' := (mark_purge_target_deleted (mkPurgeRequest t id) v s).2 in
  only_versions id t s' ∧ physical_versions s' = filter (λ x, x ≠ v) (physical_versions s).
Proof.
  intros [(p & Hp & Ht & Hd) Hi Ha Hu]. unfold mark_purge_target_deleted. cbv zeta.
  case_match; (split; [split|reflexivity]); try done.
  - by exists p.
  - cbn. rewrite lookup_alter_eq, Hp. eexists. split; [reflexivity|]. by rewrite <- Ht.
Qed.

Lemma filter_filter_neq (vs l : list PhysicalVersionTarget) v :
  filter (λ x, x ∉ vs) (filter (λ x, x ≠ v) l) = filter (λ x, x ∉ v :: vs) l.
Proof. rewrite list_filter_filter. apply list_filter_iff. intros x. rewrite not_elem_of_cons. tauto. Qed.

Lemma filter_everything {A} (P : A → Prop) `{∀ x, Decision (P x)} (l : list A) :
  (∀ x, x ∈ l → P x) → filter P l = l.
Proof.
  induction l as [|x l IH]; intros Hp; [done|]. rewrite filter_cons_True by (apply Hp; left).
  f_equal. apply IH. intros y Hy. apply Hp. by right.
Qed.

Lemma filter_nothing {A} (P : A → Prop) `{∀ x, Decision (P x)} (l : list A) :
  (∀ x, x ∈ l → ¬ P x) → filter P l = [].
Proof.
  induction l as [|x l IH]; intros Hp; [done|]. rewrite filter_cons_False by (apply Hp; left).
  apply IH. intros y Hy. apply Hp. by right.
Qed.

Lemma length_filter_take {A} `{EqDecision A} n (l : list A) :
  (length (filter (λ x, x ∉ take n l) l) <= length l - n)%nat.
Proof.
  set (P := λ x, x ∉ take n l).
  assert (filter P l = filter P (take n l) ++ filter P (drop n l)) as -> by (by rewrite <- filter_app, take_drop).
  assert (filter P (take n l) = []) as ->.
  { apply filter_nothing. intros x Hx Hn. done. }
  cbn. rewrite length_filter, length_drop. done.
Qed.

Lemma tenant_versions_filter s s' t (vs : list PhysicalVersionTarget) :
  physical_versions s' = filter (λ x, x ∉ vs) (physical_versions s) →
  tenant_versions s' t = filter (λ x, x ∉ vs) (tenant_versions s t).
Proof. intros E. unfold tenant_versions. rewrite E, !list_filter_filter. apply list_filter_iff. intros x. tauto. Qed.

(** ** A completed purge can be driven again *)

(** A version of the tenant that is deleted in the name of a completed purge
    reopens it: with nothing else of the tenant under way, the next status
    request clears the namespace, although it is not fenced any more and its
    objects belong to the time after the purge. *)
Theorem completed_purge_reopens e r s p n v k a :
    purges s !! pr_operation_id r = Some p → mp_tenant_id p = pr_tenant_id r →
    mp_status p = PurgeComplete n →
    tenant_versions s (pr_tenant_id r) = [v] →
    (∀ k i, physical_write_intents s !! k = Some i → wi_tenant_id i ≠ pr_tenant_id r) →
    (∀ k a, multipart_activities s !! k = Some a → a.1 ≠ pr_tenant_id r) →
    has_unresolved s (pr_tenant_id r) = false →
    authorities s !! k = Some a → lk_tenant_id k = pr_tenant_id r →
    ∃ m s', namespace_purge_status e r (mark_purge_target_deleted r v s).2 = (Ok (PurgeComplete m), s')
            ∧ authorities s' !! k = None.
Proof.
    intros Hp Ht Hst Hv Hi Ha Hu Hk Hkt.
    assert (v ∈ tenant_versions s (pr_tenant_id r)) as [_ Hin]%list_elem_of_filter by (rewrite Hv; by left).
    set (s1 := (mark_purge_target_deleted r v s).2).
    assert (E1 : s1 = upd_purges (alter (λ p, set_mp_status PurgeRunning
        (set_mp_deleted_versions (u64_saturating_add (mp_deleted_versions p) 1) p)) (pr_operation_id r))
        (upd_physical_versions (filter (λ x, x ≠ v)) s)).
    { unfold s1, mark_purge_target_deleted. cbv zeta.
      change (physical_versions (upd_physical_versions _ s)) with (filter (λ x, x ≠ v) (physical_versions s)).
      destruct (Nat.eqb_spec (length (filter (λ x, x ≠ v) (physical_versions s))) (length (physical_versions s)))
        as [E|]; [|done].
      exfalso. pose proof (length_filter_lt (λ x, x ≠ v) (physical_versions s) v Hin). naive_solver lia. }
    assert (HO : only_versions (pr_operation_id r) (pr_tenant_id r) s1).
    { rewrite E1. split; [|done..]. cbn. rewrite lookup_alter_eq, Hp. by eexists. }
    assert (Hn : tenant_versions s1 (pr_tenant_id r) = []).
    { rewrite E1. unfold tenant_versions in *. cbn. rewrite list_filter_filter.
      transitivity (filter (λ x, x ≠ v) [v]); [|by rewrite filter_cons_False by (by intros [])].
      rewrite <- Hv, list_filter_filter. apply list_filter_iff. intros x. tauto. }
    destruct (finish_completes e _ _ s1 HO Hn) as (m & s' & Ef & Hempty & _).
    exists m, s'. unfold namespace_purge_status. rewrite Ef. split; [done|].
    destruct (authorities s' !! k) as [a'|] eqn:Ea; [|done].
    by destruct (ne_authorities _ _ Hempty k a' Ea).
Qed.
