(* ===== verification/ManagedWrites.v ===== *)
(** * Managed storage: leases, compare-and-swap and the repair queue

    Stale leases of physical writes and repairs are refused for good, an
    authority changes only under the version its writer has seen, the ledger
    holds each version once, and a repair that keeps failing is given up. *)

From S2P Require Import Prelude Operation Integrity Managed ManagedRepo ManagedUsage ManagedOps ManagedVisible.
From stdpp Require Import sorting.

#[local] Open Scope Z_scope.
Set Default Goal Selector "!".

Section writes.
  Context `{Crypto, ManagedText}.

  (** ** Physical writes *)

Lemma write_tokens_step e c s id τ :
    physical_write_tokens (managed_step e c s) !! id = Some τ →
    physical_write_tokens s !! id = Some τ ∨ τ = env_uuid e 0.
Proof.
    destruct (is_purge c) eqn:Hq.
    - destruct c; try discriminate Hq; unfold managed_step, call_run; cbn [fst snd].
      + destruct (purge_namespace_cases e request s) as [->|[(p & _ & _ & ->)|(_ & _ & _ & ->)]]; cbn [fst snd];
          [by left| |]; match goal with |- context [finish_purge ?x ?i ?s0] =>
          destruct (finish_purge_cases x i s0) as [(h & -> & _)|(? & _ & ->)] end; by left.
      + unfold namespace_purge_status.
        destruct (finish_purge_cases e (pr_operation_id request) s) as [(h & E & _)|(? & _ & E)];
          destruct (finish_purge _ _ _); cbn [fst snd] in *; simplify_eq; by left.
    - destruct c; try discriminate Hq; call_cases.
      all: repeat (case_match; try (by left)); simplify_eq; frame_loops; try (by left).
      all: cbn; intros E; apply lookup_insert_Some in E || apply lookup_delete_Some in E; naive_solver.
Qed.

Lemma write_token_gone s s' id τ :
    rtc (mstep_avoiding τ) s s' → physical_write_tokens s !! id ≠ Some τ →
    physical_write_tokens s' !! id ≠ Some τ.
Proof.
    induction 1 as [|s s1 s' (e & c & _ & Hτ & ->) _ IH]; [done|]. intros Hn. apply IH.
    intros [E|E]%write_tokens_step; [done|]. by apply (Hτ O).
Qed.

Lemma lease_lost_token now l s :
    physical_write_tokens s !! wl_intent_id l ≠ Some (wl_token l) → lease_lost now l s = true.
Proof. intros Hn. unfold lease_lost. by rewrite bool_decide_eq_false_2. Qed.

(** Fencing of physical writes: once an expired write has been claimed under
    another token, the old lease is refused by renewal, commit, abort and block
    in every later state, and the refusal changes nothing, however the clock
    runs. *)
Theorem stale_write_lease_refused e owner until s s1 s' l l' :
    claim_expired_physical_write_intent e (wl_intent_id l) owner until s = (Ok (Some l'), s1) →
    wl_token l' ≠ wl_token l →
    rtc (mstep_avoiding (wl_token l)) s1 s' →
    ∀ e' expires versions version reason,
      renew_physical_write_intent e' l expires s' = (Err Conflict, s')
      ∧ commit_physical_write e' l versions version s' = (Err Conflict, s')
      ∧ abort_physical_write e' l s' = (Err Conflict, s')
      ∧ block_physical_write e' l reason s' = (Err Conflict, s').
Proof.
    intros Hc Ht Hr e' expires versions version reason.
    assert (Hn : physical_write_tokens s1 !! wl_intent_id l ≠ Some (wl_token l)).
    { unfold claim_expired_physical_write_intent in Hc. repeat (case_match; simplify_eq).
      cbn. rewrite lookup_insert_eq. cbn in Ht. congruence. }
    apply (write_token_gone _ _ _ _ Hr) in Hn. pose proof (lease_lost_token (env_now e') l s' Hn) as Hl.
    unfold renew_physical_write_intent, commit_physical_write, abort_physical_write, block_physical_write.
    rewrite Hl, orb_true_r. split; [done|]. split; [by case_match|]. by split.
Qed.

  (** ** The ledger of versions *)

Definition ledger_unique (l : list PhysicalVersionTarget) : Prop :=
    ∀ i j a b, l !! i = Some a → l !! j = Some b → same_version a b = true → i = j.

Lemma same_version_sym a b : same_version a b = same_version b a.
Proof.
    apply eq_iff_eq_true. unfold same_version. rewrite !andb_true_iff, !bool_decide_eq_true.
    split; intros ((((-> & ->) & ->) & ->) & ->); done.
Qed.

Lemma ledger_version_unique v l : ledger_unique l → ledger_unique (ledger_version v l).
Proof.
    intros Hl. unfold ledger_version. case_match eqn:E; [done|].
    assert (Hno : ∀ i a, l !! i = Some a → same_version a v = false).
    { intros i a Ha. destruct (same_version a v) eqn:Ev; [|done].
      assert (existsb (λ x, same_version x v) l = true); [|congruence].
      apply existsb_exists. exists a. split; [|done]. by eapply list_elem_of_In, list_elem_of_lookup_2. }
    intros i j a b Ha Hb Hab. rewrite lookup_snoc_Some in Ha, Hb.
    destruct Ha as [[? Ha]|[-> <-]], Hb as [[? Hb]|[-> <-]].
    - by eapply Hl.
    - by rewrite (Hno _ _ Ha) in Hab.
    - rewrite same_version_sym in Hab. by rewrite (Hno _ _ Hb) in Hab.
    - done.
Qed.

Lemma ledger_unique_filter (P : PhysicalVersionTarget → Prop) `{∀ x, Decision (P x)} l :
    ledger_unique l → ledger_unique (filter P l).
Proof.
    assert (Hp : ∀ l, ledger_unique l ↔ ForallOrdPairs (λ a b, same_version a b = false) l).
    { clear. induction l as [|x l IH].
      - split; [constructor|]. intros _ i j a b Ha. by rewrite lookup_nil in Ha.
      - split.
        + intros Hl. constructor.
          * apply Forall_forall. intros y [i Hy]%list_elem_of_lookup.
            destruct (same_version x y) eqn:E; [|done]. by specialize (Hl O (S i) x y eq_refl Hy E).
          * apply IH. intros i j a b Ha Hb Hab. by specialize (Hl (S i) (S j) a b Ha Hb Hab) as [= ->].
        + intros Hl. inversion Hl as [|? ? Hx Hl']; subst. rewrite Forall_forall in Hx.
          intros [|i] [|j] a b Ha Hb Hab; cbn in Ha, Hb; simplify_eq; [done|..].
          * rewrite Hx in Hab; [done|]. by eapply list_elem_of_lookup_2.
          * rewrite same_version_sym, Hx in Hab; [done|]. by eapply list_elem_of_lookup_2.
          * f_equal. apply IH in Hl'. by eapply Hl'. }
    rewrite !Hp. induction 1 as [|x l Hx Hl IH]; [constructor|]. rewrite filter_cons. case_decide; [|done].
    constructor; [|done]. apply Forall_forall. intros y [_ Hy]%list_elem_of_filter.
    by apply (proj1 (Forall_forall _ _) Hx).
Qed.

  (** The calls that can change the ledger. *)
Definition moves_ledger (c : ManagedCall) : bool :=
    match c with CCommitWrite _ _ _ | CForget _ | CMarkDeleted _ _ => true | _ => false end.

Lemma ledger_step e c s :
    moves_ledger c = false → physical_versions (managed_step e c s) = physical_versions s.
Proof.
    intros Hm. destruct (is_purge c) eqn:Hq.
    - destruct c; try discriminate Hq; unfold managed_step, call_run; cbn [fst snd].
      + destruct (purge_namespace_cases e request s) as [->|[(p & _ & _ & ->)|(_ & _ & _ & ->)]]; cbn [fst snd];
          [done| |]; match goal with |- context [finish_purge ?x ?i ?s0] =>
          destruct (finish_purge_cases x i s0) as [(h & -> & _)|(? & _ & ->)] end; done.
      + unfold namespace_purge_status.
        destruct (finish_purge_cases e (pr_operation_id request) s) as [(h & E & _)|(? & _ & E)];
          destruct (finish_purge _ _ _); cbn [fst snd] in *; simplify_eq; done.
    - destruct c; try discriminate Hq; try discriminate Hm; call_cases.
      all: repeat (case_match; try done); simplify_eq; frame_loops; done.
Qed.

Lemma fold_ledger_unique (f : option string → PhysicalVersionTarget) ws l :
    ledger_unique l → ledger_unique (foldl (λ vs w, ledger_version (f w) vs) l ws).
Proof. revert l. induction ws as [|w ws IH]; intros l Hl; [done|]. apply IH. by apply ledger_version_unique. Qed.

Lemma forget_ledger e v s :
    physical_versions (forget_physical_version e v s).2 = filter (λ x, x ≠ v) (physical_versions s).
Proof. unfold forget_physical_version. cbv zeta. by repeat case_match. Qed.

Lemma mark_deleted_ledger r v s :
    physical_versions (mark_purge_target_deleted r v s).2 = filter (λ x, x ≠ v) (physical_versions s).
Proof. unfold mark_purge_target_deleted. cbv zeta. by repeat case_match. Qed.

Lemma ledger_unique_step e c s :
    ledger_unique (physical_versions s) → ledger_unique (physical_versions (managed_step e c s)).
Proof.
    intros Hl. destruct (moves_ledger c) eqn:Hm; [|by rewrite ledger_step].
    destruct c; try discriminate Hm; unfold managed_step, call_run; cbn [fst snd].
    - unfold commit_physical_write. repeat (case_match; try exact Hl); by apply fold_ledger_unique.
    - rewrite forget_ledger. by apply ledger_unique_filter.
    - rewrite mark_deleted_ledger. by apply ledger_unique_filter.
Qed.

Lemma mreach_ledger s : mreach s → ledger_unique (physical_versions s).
Proof. induction 1; [by intros i j a b Ha|by apply ledger_unique_step]. Qed.

Lemma fold_ledger_spec (f : option string → PhysicalVersionTarget) ws l :
    let l' := foldl (λ vs w, ledger_version (f w) vs) l ws in
    (∀ x, x ∈ l → x ∈ l')
    ∧ (∀ x, x ∈ l' → x ∈ l ∨ ∃ w, w ∈ ws ∧ x = f w)
    ∧ (∀ w, w ∈ ws → ∃ x, x ∈ l' ∧ same_version x (f w) = true).
Proof.
    assert (Hself : ∀ v, same_version v v = true).
    { intros v. unfold same_version. by rewrite !bool_decide_eq_true_2. }
    assert (Hone : ∀ v l, (∀ x, x ∈ l → x ∈ ledger_version v l)
      ∧ (∀ x, x ∈ ledger_version v l → x ∈ l ∨ x = v)
      ∧ ∃ x, x ∈ ledger_version v l ∧ same_version x v = true).
    { intros v l0. unfold ledger_version. case_match eqn:E.
      - apply existsb_exists in E as (x & Hx & Ev). split; [done|]. split; [by left|].
        exists x. split; [by apply list_elem_of_In|done].
      - split; [set_solver|]. split; [set_solver|]. exists v. split; [set_solver|done]. }
    revert l. induction ws as [|w ws IH]; intros l; cbn.
    - split; [done|]. split; [by left|]. by intros w ?%not_elem_of_nil.
    - destruct (Hone (f w) l) as (A1 & A2 & x & Hx & Ex). destruct (IH (ledger_version (f w) l)) as (B1 & B2 & B3).
      split; [auto|]. split.
      + intros y [Hy|(w' & Hw' & ->)]%B2; [|right; exists w'; set_solver].
        apply A2 in Hy as [| ->]; [by left|]. right. exists w. set_solver.
      + intros w' [->|Hw']%elem_of_cons; [by exists x; auto|by apply B3].
Qed.

(** A committed write is ledgered exactly once: every version it reports is
    in the ledger at one place, nothing else has been added or lost, and the
    write is over, so that the same commit is refused when it is repeated. *)
Theorem commit_write_ledgers e l superseded version s s' :
    mreach s → commit_physical_write e l superseded version s = (Ok tt, s') →
    ∃ intent, physical_write_intents s !! wl_intent_id l = Some intent
      ∧ (∀ w, w ∈ (Some <$> superseded) ++ [version] →
           ∃ i x, physical_versions s' !! i = Some x ∧ same_version x (version_target intent l w) = true
             ∧ ∀ j y, physical_versions s' !! j = Some y →
                 same_version y (version_target intent l w) = true → j = i)
      ∧ (∀ x, x ∈ physical_versions s → x ∈ physical_versions s')
      ∧ (∀ x, x ∈ physical_versions s' → x ∈ physical_versions s
           ∨ ∃ w, w ∈ (Some <$> superseded) ++ [version] ∧ x = version_target intent l w)
      ∧ ∀ e', commit_physical_write e' l superseded version s' = (Err Conflict, s').
Proof.
    intros Hs%mreach_ledger. unfold commit_physical_write at 1.
    destruct (existsb is_empty superseded || _) eqn:G1; [done|].
    destruct (owner_lost l s || _) eqn:G2; [done|].
    destruct (physical_write_intents s !! wl_intent_id l) as [it|] eqn:G3; [|done].
    intros [= <-]. exists it. split; [done|].
    destruct (fold_ledger_spec (version_target it l) ((Some <$> superseded) ++ [version]) (physical_versions s))
      as (A1 & A2 & A3).
    pose proof (fold_ledger_unique (version_target it l) ((Some <$> superseded) ++ [version]) _ Hs) as Hu.
    split; [|split; [done|split; [done|]]].
    - intros w (x & [i Hx]%list_elem_of_lookup & Ex)%A3. exists i, x. split; [done|]. split; [done|].
      intros j y Hy Ey. eapply Hu; [exact Hy|exact Hx|].
      unfold same_version in *. guards. repeat (rewrite bool_decide_eq_true_2; [|congruence]). done.
    - intros e'. unfold commit_physical_write.
      rewrite G1. assert (owner_lost l (upd_physical_versions _ (drop_write (wl_intent_id l) s)) = true) as ->; [|done].
      unfold owner_lost. cbn. by rewrite lookup_delete_eq.
Qed.

  (** ** Compare-and-swap on authorities *)

  (** The authority version that the caller has seen. *)
Definition cas_expected (s : MemoryState) (c : ManagedCall) : option Z :=
    match c with
    | CCommitPut id _ _ | CCommitDelete id _ =>
      match logical_operations s !! id with
      | Some o => li_expected_authority_cas (lo_intent o)
      | None => None
      end
    | CPublish _ x | CTombstone _ _ x _ => x
    | CAdvancePlacement _ x _ => Some x
    | CCompleteRepair r => Some (rr_authority_cas_version r)
    | _ => None
    end.

  (** Publishing [b] at its key under [expected]. *)
Lemma cas_publish (m m' : gmap LogicalObjectKey ObjectAuthority) k b a' expected key :
    m' = <[key := b]> m → oa_cas_version <$> m !! key = expected →
    oa_cas_version b = next_cas expected →
    m' !! k = Some a' → m !! k ≠ Some a' →
    expected = oa_cas_version <$> m !! k ∧ oa_cas_version a' = next_cas (oa_cas_version <$> m !! k).
Proof.
    intros -> He Hb Ha' Hne. destruct (decide (key = k)) as [->|Hk].
    - rewrite lookup_insert_eq in Ha'. injection Ha' as <-. by rewrite He.
    - by rewrite lookup_insert_ne in Ha'.
Qed.

Lemma publish_cas e b x s k a' :
    authorities (publish e b x s).2 !! k = Some a' → authorities s !! k ≠ Some a' →
    x = oa_cas_version <$> authorities s !! k
    ∧ oa_cas_version a' = next_cas (oa_cas_version <$> authorities s !! k).
Proof.
    unfold publish. cbv zeta. destruct (fenced _ _); [done|]. case_match eqn:Hx; [done|]. guards.
    frame_repairs. cbn. intros Ha' Hne. eapply cas_publish; [reflexivity|eassumption| |exact Ha'|exact Hne].
    done.
Qed.

Lemma put_cas e id b n s k a' :
    authorities (commit_logical_put e id b n s).2 !! k = Some a' → authorities s !! k ≠ Some a' →
    ∃ o, logical_operations s !! id = Some o
      ∧ li_expected_authority_cas (lo_intent o) = oa_cas_version <$> authorities s !! k
      ∧ oa_cas_version a' = next_cas (oa_cas_version <$> authorities s !! k).
Proof.
    unfold commit_logical_put. destruct (logical_operations s !! id) as [o|]; [|done]. cbv zeta.
    destruct (decide _); [by repeat case_match|].
    destruct (lo_evidence o) as [ev|]; [|done]. destruct (put_mismatch _ _ _); [done|].
    destruct (fence_lost _ _); [done|]. destruct (physical_allocation _ _); [|done].
    case_match; [done|]. case_match eqn:Hmv; [done|]. do 2 (case_match; try done). case_match; [done|].
    frame_repairs. unfold authority_moved in Hmv. guards.
    match goal with |- context [set_oa_created_at_ms ?c _] => generalize c; intros created end.
    intros Ha' Hne. exists o. split; [done|].
    eapply cas_publish; [|eassumption| |exact Ha'|exact Hne]; [|].
    - repeat case_match; reflexivity.
    - done.
Qed.

Lemma delete_cas e id p s k a' :
    authorities (commit_logical_delete e id p s).2 !! k = Some a' → authorities s !! k ≠ Some a' →
    ∃ o, logical_operations s !! id = Some o
      ∧ li_expected_authority_cas (lo_intent o) = oa_cas_version <$> authorities s !! k
      ∧ oa_cas_version a' = next_cas (oa_cas_version <$> authorities s !! k).
Proof.
    unfold commit_logical_delete. destruct (logical_operations s !! id) as [o|]; [|done]. cbv zeta.
    destruct (decide _); [by repeat case_match|].
    destruct (delete_mismatch _); [done|]. destruct (fence_lost _ _); [done|].
    case_match eqn:Hmv; [done|]. case_match; [done|]. case_match; [|done].
    frame_repairs. unfold authority_moved in Hmv. guards. cbn. intros Ha' Hne. exists o. split; [done|].
    eapply cas_publish; [reflexivity|eassumption| |exact Ha'|exact Hne]. done.
Qed.

Lemma complete_repair_authorities e r s k a' :
    authorities (complete_repair e r s).2 !! k = Some a' → authorities s !! k ≠ Some a' →
    Some (rr_authority_cas_version r) = oa_cas_version <$> authorities s !! k
    ∧ oa_cas_version a' = next_cas (oa_cas_version <$> authorities s !! k).
Proof.
    unfold complete_repair. cbv zeta. do 2 (case_match; [done|]).
    destruct (repairs s !! _) as [[stored status]|]; [|done]. case_match; [done|].
    set (s1 := upd_repairs _ s). destruct (repaired_authority s1 r) as [a|] eqn:Hra; [|done].
    destruct (apply_repair_to_authority a r) as [[[] b]|] eqn:Hap; [|done..].
    apply apply_repair_kept in Hap as (_ & _ & _ & Ecas & _).
    unfold repaired_authority in Hra. apply bind_Some in Hra as (a0 & Ha0 & Hra).
    case_match eqn:Hg; [|done]. injection Hra as ->. guards.
    assert (Hgo : ∀ s2, authorities s2 = <[rr_logical r := set_oa_updated_at_ms (env_now e)
        (set_oa_cas_version (u64_saturating_add (oa_cas_version b) 1) b)]> (authorities s) →
      authorities s2 !! k = Some a' → authorities s !! k ≠ Some a' →
      Some (rr_authority_cas_version r) = oa_cas_version <$> authorities s !! k
      ∧ oa_cas_version a' = next_cas (oa_cas_version <$> authorities s !! k)).
    { intros s2 E2 Ha' Hne. eapply cas_publish; [exact E2| | |exact Ha'|exact Hne].
      - change (authorities s !! rr_logical r = Some a) in Ha0. rewrite Ha0. cbn. congruence.
      - cbn. unfold next_cas. cbn. congruence. }
    destruct (decide _); [|by apply Hgo].
    match goal with |- context [foldl ?f ?s2 ?l] =>
      destruct (fold_repairs_frame f l s2 (λ _ s', waiting_cleanup_frame _ s')) as [m ->] end.
    case_match; by apply Hgo.
Qed.

Lemma purge_authorities e id s k a' :
    authorities (finish_purge e id s).2 !! k = Some a' → authorities s !! k = Some a'.
Proof.
    destruct (finish_purge_cases e id s) as [(h & -> & _)|(p & _ & ->)]; [done|]. cbn [snd].
    match goal with |- authorities ?x !! k = _ → _ => assert (authorities x =
      filter (λ kv, lk_tenant_id kv.1 ≠ mp_tenant_id p) (authorities s)) as -> by reflexivity end.
    by intros [? _]%map_lookup_filter_Some.
Qed.

(** C24: No lost update: whatever the call, when it leaves a different authority
    under a key, its caller named the version that was there (none for a new
    object), and the new authority carries the next version. *)
Theorem authority_compare_and_swap e c s k a' :
    authorities (managed_step e c s) !! k = Some a' → authorities s !! k ≠ Some a' →
    cas_expected s c = oa_cas_version <$> authorities s !! k
    ∧ oa_cas_version a' = next_cas (oa_cas_version <$> authorities s !! k).
Proof.
    intros Ha' Hne. destruct (moves_authority c) eqn:Hm; [|by rewrite authorities_step in Ha'].
    destruct c; try discriminate Hm; unfold managed_step, call_run in Ha'; cbn [fst snd cas_expected] in *.
    - by destruct (put_cas _ _ _ _ _ _ _ Ha' Hne) as (o & -> & ?).
    - by destruct (delete_cas _ _ _ _ _ _ Ha' Hne) as (o & -> & ?).
    - by eapply publish_cas.
    - unfold advance_placement_version in Ha'. repeat (case_match; try done). guards.
      eapply cas_publish; [reflexivity| | |exact Ha'|exact Hne]; cbn.
      + match goal with E : _ !! logical = Some _ |- _ => rewrite E end. cbn. congruence.
      + unfold next_cas. cbn. congruence.
    - by eapply publish_cas.
    - by eapply complete_repair_authorities.
    - exfalso. apply Hne. destruct (purge_namespace_cases e request s) as [E|[(p & _ & _ & E)|(_ & _ & _ & E)]];
        rewrite E in Ha'; cbn [fst snd] in Ha'; [done|..]; apply purge_authorities in Ha'; exact Ha'.
    - exfalso. apply Hne. unfold namespace_purge_status in Ha'.
      apply (purge_authorities e (pr_operation_id request)). by destruct (finish_purge _ _ _).
Qed.
End writes.
