(* ===== verification/ManagedRepairs.v ===== *)
(** * Managed storage: the repair queue

    A repair is worked on under a lease token.  A worker whose lease was taken
    over is refused for good, a failed repair waits out its backoff, and the
    eighth failure gives it up. *)

From S2P Require Import Prelude Operation Integrity Managed ManagedRepo ManagedUsage ManagedOps.
From stdpp Require Import sorting.

#[local] Open Scope Z_scope.
Set Default Goal Selector "!".

(** The repair [k] is leased under [τ]. *)
Definition leased_under (k τ : Uuid) (m : gmap Uuid (RepairRecord * string)) : Prop :=
  ∃ r, m !! k = Some (r, "LEASED") ∧ rr_lease_token r = Some τ.

Lemma leased_under_insert k τ k' r st m :
  leased_under k τ (<[k' := (r, st)]> m) →
  leased_under k τ m ∨ (k = k' ∧ st = "LEASED" ∧ rr_lease_token r = Some τ).
Proof.
  intros (x & Hx & Ht). destruct (decide (k = k')) as [->|Hk].
  - rewrite lookup_insert_eq in Hx. injection Hx as -> ->. by right.
  - rewrite lookup_insert_ne in Hx by done. left. by exists x.
Qed.

Lemma insert_memory_repair_leased e r s k τ :
  leased_under k τ (repairs (insert_memory_repair e r s)) → leased_under k τ (repairs s).
Proof.
  unfold insert_memory_repair.
  destruct (List.find _ _) as [[k' [x st]]|]; [case_decide; [|done]|]; cbn;
    intros [?|(_ & ? & _)]%leased_under_insert; done.
Qed.

Lemma foldl_leased {A} (f : MemoryState → A → MemoryState) l s k τ :
  (∀ a s, leased_under k τ (repairs (f s a)) → leased_under k τ (repairs s)) →
  leased_under k τ (repairs (foldl f s l)) → leased_under k τ (repairs s).
Proof. intros Hf. revert s. induction l as [|a l IH]; intros s; cbn; [done|]. intros Hl. by eapply Hf, IH. Qed.

Lemma insert_repairs_leased e n rs s k τ :
  leased_under k τ (repairs (insert_repairs e n rs s)) → leased_under k τ (repairs s).
Proof. apply foldl_leased. intros r s'. apply insert_memory_repair_leased. Qed.

Lemma insert_ledgered_repairs_leased e n rs s k τ :
  leased_under k τ (repairs (insert_ledgered_repairs e n rs s)) → leased_under k τ (repairs s).
Proof. apply foldl_leased. intros r s'. case_match; [apply insert_memory_repair_leased|done]. Qed.

Lemma waiting_cleanup_leased r s k τ :
  leased_under k τ (repairs (insert_memory_waiting_placement_cleanup r s)) → leased_under k τ (repairs s).
Proof.
  unfold insert_memory_waiting_placement_cleanup. case_match; [done|]. cbn.
  by intros [?|(_ & ? & _)]%leased_under_insert.
Qed.

Lemma claim_loop_leased e o u i l s k τ :
  leased_under k τ (repairs (claim_loop e o u i l s).2) →
  leased_under k τ (repairs s) ∨ ∃ j, env_uuid e j = τ.
Proof.
  revert i s. induction l as [|[k' [r st]] l IH]; intros i s; cbn; [by left|].
  destruct (claim_loop _ _ _ _ _ _) as [cl s'] eqn:E. cbn.
  intros Hl. specialize (IH (S i) (upd_repairs <[k' := (lease_repair (env_now e) o (env_uuid e i) u r, "LEASED")]> s)).
  rewrite E in IH. destruct (IH Hl) as [H1|H1]; [|by right].
  apply leased_under_insert in H1 as [H1|(_ & _ & H1)]; [by left|]. right. exists i. by injection H1.
Qed.

Lemma leased_under_filter k τ (P : Uuid * (RepairRecord * string) → Prop) `{∀ x, Decision (P x)} m :
  leased_under k τ (filter P m) → leased_under k τ m.
Proof. intros (r & [Hr _]%map_lookup_filter_Some & Ht). by exists r. Qed.

Lemma activate_cleanups_leased r s k τ :
  leased_under k τ (repairs (activate_cleanups r s)) → leased_under k τ (repairs s).
Proof.
  unfold activate_cleanups. intros (x & Hx & Ht). cbn in Hx.
  apply lookup_fmap_Some in Hx as ([x0 st0] & E & Hx). case_match; simplify_eq. by exists x.
Qed.

Lemma find_leased_Some e τ s k r st :
  find_leased e τ s = Some (k, (r, st)) → repairs s !! k = Some (r, st) ∧ rr_lease_token r = Some τ.
Proof.
  unfold find_leased. intros [Hin Hc]%List.find_some. apply bool_decide_eq_true in Hc. split; [|done].
  apply list_elem_of_In in Hin. unfold hash_iter in Hin. rewrite env_iter_perm in Hin.
  by apply elem_of_map_to_list in Hin.
Qed.

Section repairs.
  Context `{Crypto, ManagedText}.

Lemma finish_purge_leased e id s k τ :
    leased_under k τ (repairs (finish_purge e id s).2) → leased_under k τ (repairs s).
Proof.
    destruct (finish_purge_cases e id s) as [(h & -> & _)|(p & _ & ->)]; [done|]. cbn [snd].
    match goal with |- leased_under _ _ (repairs ?x) → _ => assert (repairs x =
      filter (λ kv, lk_tenant_id (rr_logical kv.2.1) ≠ mp_tenant_id p) (repairs s)) as -> by reflexivity end.
    apply leased_under_filter.
Qed.

Lemma complete_repair_leased e r s k τ :
    leased_under k τ (repairs (complete_repair e r s).2) → leased_under k τ (repairs s).
Proof.
    unfold complete_repair. cbv zeta. do 2 (case_match; [done|]).
    destruct (repairs s !! _) as [[stored status]|]; [|done]. case_match; [done|].
    set (s1 := upd_repairs _ s).
    assert (Hs1 : leased_under k τ (repairs s1) → leased_under k τ (repairs s)).
    { cbn. by intros [?|(_ & ? & _)]%leased_under_insert. }
    destruct (repaired_authority s1 r) as [a|]; [|done].
    destruct (apply_repair_to_authority a r) as [[[] b]|]; [|done..].
    destruct (decide _); [|done]. cbn [snd].
    match goal with |- context [foldl ?f ?s2 ?l] => assert (Hf : leased_under k τ (repairs (foldl f s2 l)) →
      leased_under k τ (repairs s)) end.
    { intros Hl. apply Hs1. eapply foldl_leased in Hl; [exact Hl|]. intros c s'. apply waiting_cleanup_leased. }
    case_match; [|done]. intros Hl%activate_cleanups_leased. by apply Hf.
Qed.

  (** The calls that can change the queue. *)
Definition moves_repairs (c : ManagedCall) : bool :=
    match c with
    | CCommitPut _ _ _ | CCommitDelete _ _ | CProveAbort _ _ _ | CPublish _ _ | CTombstone _ _ _ _
    | CEnqueue _ | CClaimRepairs _ _ _ | CRenewRepair _ _ | CCompleteRepair _ | CFailRepair _
    | CPurge _ | CPurgeStatus _ => true
    | _ => false
    end.

Lemma repairs_step e c s : moves_repairs c = false → repairs (managed_step e c s) = repairs s.
Proof.
    destruct c; intros Hq; try discriminate Hq; call_cases.
    all: repeat (case_match; try done); simplify_eq; frame_loops; done.
Qed.

Lemma publish_leased e a x s k τ :
    leased_under k τ (repairs (publish e a x s).2) → leased_under k τ (repairs s).
Proof.
    unfold publish. cbv zeta. do 2 (case_match; [done|]). cbn [snd].
    by intros Hl%insert_ledgered_repairs_leased%insert_repairs_leased.
Qed.

Lemma put_leased e id a n s k τ :
    leased_under k τ (repairs (commit_logical_put e id a n s).2) → leased_under k τ (repairs s).
Proof.
    unfold commit_logical_put. cbv zeta. repeat (case_match; try done).
    all: intros Hl; match type of Hl with context [insert_ledgered_repairs ?e ?n ?c ?x] =>
      change (leased_under k τ (repairs (insert_ledgered_repairs e n c x))) in Hl end.
    all: by apply insert_ledgered_repairs_leased, insert_repairs_leased in Hl.
Qed.

Lemma delete_leased e id p s k τ :
    leased_under k τ (repairs (commit_logical_delete e id p s).2) → leased_under k τ (repairs s).
Proof.
    unfold commit_logical_delete. cbv zeta. repeat (case_match; try done).
    all: intros Hl; match type of Hl with context [insert_ledgered_repairs ?e ?n ?c ?x] =>
      change (leased_under k τ (repairs (insert_ledgered_repairs e n c x))) in Hl end.
    all: by apply insert_ledgered_repairs_leased in Hl.
Qed.

Lemma abort_leased e id c p s k τ :
    leased_under k τ (repairs (prove_logical_abort e id c p s).2) → leased_under k τ (repairs s).
Proof.
    assert (Ha : ∀ o, leased_under k τ (repairs (aborted_allocation e o p s).2) → leased_under k τ (repairs s)).
    { intros o. unfold aborted_allocation. cbv zeta. repeat (case_match; try done).
      apply insert_ledgered_repairs_leased. }
    unfold prove_logical_abort. cbv zeta. destruct (logical_operations s !! id) as [o|]; [|done].
    do 2 (destruct (decide _); [done|]). case_match; [done|]. specialize (Ha o).
    destruct (aborted_allocation e o p s) as [[d|x] s0]; cbn [snd] in Ha; [|done].
    repeat (case_match; try done).
Qed.

Lemma leased_step e c s k τ :
    leased_under k τ (repairs (managed_step e c s)) →
    leased_under k τ (repairs s) ∨ ∃ i, env_uuid e i = τ.
Proof.
    destruct (moves_repairs c) eqn:Hm; [|rewrite repairs_step by done; by left].
    destruct c; try discriminate Hm; unfold managed_step, call_run; cbn [fst snd].
    - intros Hl%put_leased. by left.
    - intros Hl%delete_leased. by left.
    - intros Hl%abort_leased. by left.
    - intros Hl%publish_leased. by left.
    - intros Hl%publish_leased. by left.
    - unfold enqueue. cbv zeta. repeat (case_match; try (by left)); intros Hl%insert_memory_repair_leased; by left.
    - unfold claim_repairs. destruct (claim_loop _ _ _ _ _ _) as [cl s'] eqn:E. cbn [snd].
      intros Hl. eapply (claim_loop_leased e owner until O). by rewrite E.
    - unfold renew_repair. destruct (find_leased e token s) as [[k' [r st]]|] eqn:Hf; [|by left].
      case_match; [by left|]. apply find_leased_Some in Hf as [Hr Ht]. cbn.
      intros [?|(-> & -> & Hτ)]%leased_under_insert; left; [done|]. by exists r.
    - intros Hl%complete_repair_leased. by left.
    - unfold fail_repair. destruct (find_leased e token s) as [[k' [r st]]|]; [|by left]. cbv zeta.
      repeat (case_match; try (by left)); cbn; intros [?|(_ & ? & _)]%leased_under_insert; by left.
    - destruct (purge_namespace_cases e request s) as [->|[(p & _ & _ & ->)|(_ & _ & _ & ->)]]; cbn [fst snd];
        [by left|..]; intros Hl%finish_purge_leased; by left.
    - unfold namespace_purge_status. pose proof (finish_purge_leased e (pr_operation_id request) s k τ) as Hl.
      destruct (finish_purge _ _ _). left. auto.
Qed.

Lemma leased_under_steps s s' k τ :
    rtc (mstep_avoiding τ) s s' → leased_under k τ (repairs s') → leased_under k τ (repairs s).
Proof.
    induction 1 as [|s s1 s' (e & c & _ & Hτ & ->) _ IH]; [done|]. intros Hl.
    destruct (leased_step e c s k τ (IH Hl)) as [|[i E]]; [done|]. by destruct (Hτ i).
Qed.

(** Fencing of repairs: a repair that is not leased under a worker's token
    (because another worker has claimed it, or it is done or given up) cannot be
    completed with that token in any later state: the repository answers with a
    conflict and stays as it is. *)
Theorem stale_repair_lease_refused s s' r :
    (∀ x, repairs s !! rr_repair_id r = Some (x, "LEASED") → rr_lease_token x ≠ Some (rr_id r)) →
    rtc (mstep_avoiding (rr_id r)) s s' →
    ∀ e, complete_repair e r s' = (Err Conflict, s').
Proof.
    intros Hn Hr e. unfold complete_repair. cbv zeta. do 2 (case_match; [done|]).
    destruct (repairs s' !! rr_repair_id r) as [[x st]|] eqn:Hx; [|done].
    case_match eqn:Hg; [done|]. exfalso. unfold lease_lapsed in Hg. guards. cbn in *. subst st.
    destruct (leased_under_steps s s' (rr_repair_id r) (rr_id r) Hr) as (y & Hy & Ey); [by exists x|].
    by apply (Hn y Hy).
Qed.

  (** ** Backoff *)

Lemma repair_backoff_bounds n : 0 <= n →
    REPAIR_BACKOFF_BASE_MS <= repair_backoff_ms n <= REPAIR_BACKOFF_MAX_MS
    ∧ repair_backoff_ms n = Z.min (REPAIR_BACKOFF_BASE_MS * 2 ^ Z.min n 10) REPAIR_BACKOFF_MAX_MS.
Proof.
    intros Hn. unfold repair_backoff_ms. rewrite Z.shiftl_1_l.
    assert (1 <= 2 ^ Z.min n 10 <= 2 ^ 10) as [B1 B2].
    { split; [|apply Z.pow_le_mono_r; lia]. change 1 with (2 ^ 0). apply Z.pow_le_mono_r; lia. }
    set (b := 2 ^ Z.min n 10) in *. change (2 ^ 10) with 1024 in B2.
    rewrite i64_clamp_id; [|unfold is_i64, i64_min, i64_max, REPAIR_BACKOFF_BASE_MS; lia].
    unfold REPAIR_BACKOFF_BASE_MS, REPAIR_BACKOFF_MAX_MS. lia.
Qed.

(** A failed repair is retried with growing delays and given up at the eighth
    failure: reporting a failure counts it, drops the lease, and either makes the
    repair unclaimable for an exponential backoff between half a minute and four
    hours, or, from the eighth failure on, unclaimable for good. *)
Theorem fail_repair_backs_off e τ s s' :
    fail_repair e τ s = (Ok tt, s') →
    ∃ k r r', repairs s !! k = Some (r, "LEASED") ∧ rr_lease_token r = Some τ
      ∧ rr_attempts r' = Z.min u32_max (rr_attempts r + 1) ∧ rr_lease_token r' = None
      ∧ if MAX_REPAIR_ATTEMPTS <=? rr_attempts r'
        then repairs s' !! k = Some (r', "DEAD") ∧ ∀ now, claimable s' now (r', "DEAD") = false
        else repairs s' !! k = Some (r', "PENDING")
             ∧ rr_not_before_ms r' = i64_saturating_add (env_now e) (repair_backoff_ms (rr_attempts r'))
             ∧ (0 <= rr_attempts r → REPAIR_BACKOFF_BASE_MS <= repair_backoff_ms (rr_attempts r')
                                       <= REPAIR_BACKOFF_MAX_MS)
             ∧ ∀ now, now < rr_not_before_ms r' → claimable s' now (r', "PENDING") = false.
Proof.
    unfold fail_repair. destruct (find_leased e τ s) as [[k [r st]]|] eqn:Hf; [|done].
    apply find_leased_Some in Hf as [Hr Ht]. cbv zeta. destruct (lease_lapsed _ _) eqn:Hl; [done|].
    unfold lease_lapsed in Hl. guards. cbn in *. subst st.
    set (failed := drop_lease (env_now e) (set_rr_attempts (Z.min u32_max (rr_attempts r + 1)) r)).
    destruct (MAX_REPAIR_ATTEMPTS <=? Z.min u32_max (rr_attempts r + 1)) eqn:Hm; intros [= <-].
    - exists k, r, (set_rr_not_before_ms 0 failed). cbn. rewrite Hm, lookup_insert_eq.
      repeat (split; [done|]). intros now. by rewrite andb_false_r.
    - set (until := i64_saturating_add _ _). exists k, r, (set_rr_not_before_ms until failed).
      cbn -[claimable until]. rewrite Hm, lookup_insert_eq.
      repeat (split; [done|]). split.
      { intros Hn. apply repair_backoff_bounds. unfold u32_max. lia. }
      intros now Hnow. unfold claimable.
      rewrite (proj2 (Z.leb_gt _ _)) by done. by rewrite andb_false_r.
Qed.
End repairs.
