(* ===== verification/ManagedCursor.v ===== *)
(** * Managed storage: list cursors

    Removing a cursor follows the chain of its successors and comes to an end;
    the successor a chain names is always there; asking twice for the successor
    of a page gives the same cursor; and the limits on cursors hold. *)

From S2P Require Import Prelude Operation Integrity Managed ManagedRepo ManagedUsage ManagedOps.
From stdpp Require Import sorting.

#[local] Open Scope Z_scope.
Set Default Goal Selector "!".

(** ** Removal *)

(** The recursion needs no more fuel than there are successors. *)
Lemma remove_list_cursor_fuel n m id s :
  (size (list_cursor_successors s) < n)%nat → (size (list_cursor_successors s) < m)%nat →
  remove_list_cursor n id s = remove_list_cursor m id s.
Proof.
  revert m id s. induction n as [|n IH]; intros m id s Hn Hm; [lia|].
  destruct m as [|m]; [lia|]. cbn.
  destruct (list_cursor_successors s !! id) as [q|] eqn:Hq; [|done].
  assert (size (delete id (list_cursor_successors s)) < size (list_cursor_successors s))%nat.
  { rewrite map_size_delete_Some by (by eexists).
    pose proof (map_size_ne_0_lookup_2 (list_cursor_successors s) id ltac:(by eexists)). lia. }
  rewrite (IH m); [done|cbn; lia|cbn; lia].
Qed.

(** The successor that a chain names is a cursor of the repository. *)
Definition succ_inv (s : MemoryState) : Prop :=
  ∀ p q, list_cursor_successors s !! p = Some q → is_Some (list_cursors s !! q).

(** What a removal does. *)
Record removed (id : Uuid) (s s' : MemoryState) : Prop := {
  rm_gone : list_cursors s' !! id = None;
  rm_cursors j c : list_cursors s' !! j = Some c → list_cursors s !! j = Some c;
  rm_successors p q : list_cursor_successors s' !! p = Some q →
    list_cursor_successors s !! p = Some q ∧ q ≠ id;
  rm_kept : succ_inv s → succ_inv s';
}.

Lemma remove_list_cursor_spec n id s :
  (size (list_cursor_successors s) < n)%nat → removed id s (remove_list_cursor n id s).
Proof.
  revert id s. induction n as [|n IH]; intros id s Hn; [lia|]. cbn.
  set (s1 := match list_cursor_successors s !! id with Some _ => _ | None => _ end).
  assert ((∀ j c, list_cursors s1 !! j = Some c → list_cursors s !! j = Some c)
    ∧ (∀ p q, list_cursor_successors s1 !! p = Some q → list_cursor_successors s !! p = Some q)
    ∧ (succ_inv s → succ_inv s1)) as (H1 & H2 & H3).
  { unfold s1. destruct (list_cursor_successors s !! id) as [q|] eqn:Hq; [|done].
    destruct (IH q (upd_list_cursor_successors (delete id) s)) as [g c u k].
    { cbn. rewrite map_size_delete_Some by (by eexists).
      pose proof (map_size_ne_0_lookup_2 (list_cursor_successors s) id ltac:(by eexists)). lia. }
    split; [exact c|]. split.
    - intros p x [Hx _]%u. cbn in Hx. by apply lookup_delete_Some in Hx as [_ ?].
    - intros HI. apply k. intros p x Hx. cbn in Hx. apply lookup_delete_Some in Hx as [_ Hx].
      by apply (HI p). }
  split; cbn.
  - apply lookup_delete_eq.
  - intros j c [_ Hj]%lookup_delete_Some. auto.
  - intros p q [Hp Hq]%map_lookup_filter_Some. cbn in Hq. auto.
  - intros HI p q Hpq. cbn in Hpq |- *. apply map_lookup_filter_Some in Hpq as [Hp Hq]. cbn in Hq.
    rewrite lookup_delete_ne by congruence. by apply (H3 HI p).
Qed.

Lemma remove_cursor_spec id s : removed id s (remove_cursor id s).
Proof. apply remove_list_cursor_spec. lia. Qed.

Lemma succ_inv_same s s' :
  list_cursor_successors s' = list_cursor_successors s → list_cursors s' = list_cursors s →
  succ_inv s → succ_inv s'.
Proof. unfold succ_inv. by intros -> ->. Qed.

Lemma succ_inv_insert id c s : succ_inv s → succ_inv (upd_list_cursors <[id := c]> s).
Proof.
  intros HI p q Hp. cbn in Hp |- *. destruct (decide (id = q)) as [->|Hq].
  - rewrite lookup_insert_eq. by eexists.
  - rewrite lookup_insert_ne by done. by apply (HI p).
Qed.

Lemma purge_cursors_inv t s : succ_inv (purge_cursors t s).
Proof. intros p q Hp. cbn in Hp. apply map_lookup_filter_Some in Hp as [_ [_ Hq]]. exact Hq. Qed.

Lemma cursor_bytes_Err cs x : cursor_bytes cs = Err x → x = CursorLimitExceeded.
Proof.
  unfold cursor_bytes. assert (∀ acc, (∀ y, acc = Err y → y = CursorLimitExceeded) →
    foldl (λ acc c, total ← acc; ok_or (u64_checked_add total (lc_response_state_bytes c)) CursorLimitExceeded)
      acc cs = Err x → x = CursorLimitExceeded) as Hf; [|by apply Hf].
  induction cs as [|c cs IH]; intros acc Ha; cbn; [by apply Ha|].
  apply IH. intros y. destruct acc as [t|z]; cbn; [|by intros [= <-]; apply Ha].
  unfold ok_or. case_match; by intros [= <-].
Qed.

(** Creating a cursor never reports a missing successor. *)
Lemma create_not_missing `{ManagedText} e r now s :
  (create_list_cursor_in_state e r now s).1 ≠ Err (Corrupt "managed cursor successor is missing").
Proof.
  unfold create_list_cursor_in_state, serialize_cursor_response_state. cbv zeta.
  destruct (json_to_vec _); cbn; [|done].
  destruct (MANAGED_LIST_CURSOR_RESPONSE_MAX_BYTES <? _); [done|]. case_match; [done|].
  destruct (cursor_bytes (tenant_cursors _ _)) eqn:E1; [|by apply cursor_bytes_Err in E1 as ->].
  destruct (cursor_bytes (live_cursors _ _ _)) eqn:E2; [|by apply cursor_bytes_Err in E2 as ->].
  by case_match.
Qed.

Section cursors.
  Context `{Crypto, ManagedText}.

Lemma create_inv e r now s : succ_inv s → succ_inv (create_list_cursor_in_state e r now s).2.
Proof.
    intros HI. unfold create_list_cursor_in_state. cbv zeta. repeat (case_match; try exact HI).
    by apply succ_inv_insert.
Qed.

  (** A created cursor is stored under its id. *)
Lemma create_stored e r now s c s' :
    create_list_cursor_in_state e r now s = (Ok c, s') →
    list_cursors s' !! lc_id c = Some c ∧ cursor_matches_request c r = true
    ∧ lc_expires_at_ms c = i64_saturating_add now MANAGED_LIST_CURSOR_TTL_MS
    ∧ lc_fence c = current_fence s' (cb_tenant_id (lc_binding c))
    ∧ list_cursor_successors s' = list_cursor_successors s.
Proof.
    unfold create_list_cursor_in_state. cbv zeta. repeat (case_match; try done).
    intros [= <- <-]. cbn. rewrite lookup_insert_eq. split; [done|].
    split; [unfold cursor_matches_request; cbn; by rewrite !bool_decide_eq_true_2|]. done.
Qed.

Definition moves_cursors (c : ManagedCall) : bool :=
    match c with
    | CCreateCursor _ _ | CCreateSuccessor _ _ _ | CUseCursor _ _ _ | CDeleteCursor _
    | CCleanupCursors _ _ | CPurge _ | CPurgeStatus _ => true
    | _ => false
    end.

Lemma cursors_step e c s :
    moves_cursors c = false →
    list_cursors (managed_step e c s) = list_cursors s
    ∧ list_cursor_successors (managed_step e c s) = list_cursor_successors s.
Proof.
    destruct c; intros Hq; try discriminate Hq; call_cases.
    all: repeat (case_match; try done); simplify_eq; frame_loops; done.
Qed.

Lemma finish_purge_succ e id s : succ_inv s → succ_inv (finish_purge e id s).2.
Proof.
    intros HI. destruct (finish_purge_cases e id s) as [(h & -> & _)|(p & _ & ->)]; [done|]. cbn [snd].
    eapply succ_inv_same; [..|apply (purge_cursors_inv (mp_tenant_id p) (upd_workspace_usage
      (alter (clear_usage (env_now e)) (mp_tenant_id p)) (upd_logical_operations
        (fmap (release_all (env_now e) (mp_tenant_id p))) s)))]; reflexivity.
Qed.

Lemma succ_inv_step e c s : succ_inv s → succ_inv (managed_step e c s).
Proof.
    intros HI. destruct (moves_cursors c) eqn:Hm.
    2: { destruct (cursors_step e c s Hm) as [E1 E2]. by eapply succ_inv_same. }
    destruct c; try discriminate Hm; unfold managed_step, call_run; cbn [fst snd].
    - by apply create_inv.
    - unfold create_list_cursor_successor. repeat (case_match; try exact HI); cbn [snd].
      + pose proof (create_inv e request now_ms s HI) as HI'.
        match goal with E : create_list_cursor_in_state _ _ _ _ = (Ok ?c, ?s1) |- _ =>
          rewrite E in HI'; destruct (create_stored _ _ _ _ _ _ E) as (Hc & _) end.
        intros p q Hp. cbn in Hp |- *. apply lookup_insert_Some in Hp as [[_ <-]|[_ Hp]]; [by eexists|].
        by apply (HI' p).
      + pose proof (create_inv e request now_ms s HI) as HI'.
        match goal with E : create_list_cursor_in_state _ _ _ _ = _ |- _ => by rewrite E in HI' end.
    - unfold use_list_cursor. repeat (case_match; try exact HI); cbn [snd];
        try (by apply (rm_kept _ _ _ (remove_cursor_spec id s))); by apply succ_inv_insert.
    - by apply (rm_kept _ _ _ (remove_cursor_spec id s)).
    - unfold cleanup_expired_list_cursors. cbn [snd].
      match goal with |- succ_inv (foldl _ _ ?l) => generalize l end.
      intros l. revert s HI. induction l as [|x l IH]; intros s HI; [done|]. cbn. apply IH.
      by apply (rm_kept _ _ _ (remove_cursor_spec x.2 s)).
    - destruct (purge_namespace_cases e request s) as [->|[(p & _ & _ & ->)|(_ & _ & _ & ->)]]; cbn [fst snd].
      + done.
      + by apply finish_purge_succ.
      + by apply finish_purge_succ.
    - unfold namespace_purge_status. pose proof (finish_purge_succ e (pr_operation_id request) s HI).
      by destruct (finish_purge _ _ _).
Qed.

Lemma mreach_succ s : mreach s → succ_inv s.
Proof. induction 1; [by intros p q|by apply succ_inv_step]. Qed.

(** Asking again for the successor of a page converges: whatever environment
    the second request sees, until the cursor expires it gets the cursor of the
    first one and changes nothing, a request for another page is refused, and in
    no reachable repository is a successor missing. *)
Theorem cursor_successor_converges e p r now s c s' :
    mreach s → create_list_cursor_successor e p r now s = (Ok c, s') →
    (∀ e' now', now' < lc_expires_at_ms c →
       create_list_cursor_successor e' p r now' s' = (Ok c, s'))
    ∧ (∀ e' now' r', now' < lc_expires_at_ms c → cursor_matches_request c r' = false →
       create_list_cursor_successor e' p r' now' s' = (Err Conflict, s'))
    ∧ (∀ e' p' now' r', (create_list_cursor_successor e' p' r' now' s').1
                         ≠ Err (Corrupt "managed cursor successor is missing")).
Proof.
    intros Hs Hc.
    assert (Hs' : succ_inv s').
    { pose proof (succ_inv_step e (CCreateSuccessor p r now) s (mreach_succ s Hs)) as HI.
      unfold managed_step, call_run in HI. cbn [fst snd] in HI. by rewrite Hc in HI. }
    assert (∃ q, list_cursor_successors s' !! p = Some q ∧ list_cursors s' !! q = Some c
      ∧ lc_fence c = current_fence s' (cb_tenant_id (lc_binding c)) ∧ cursor_matches_request c r = true)
      as (q & Hq & Hqc & Hf & Hm).
    { unfold create_list_cursor_successor in Hc. repeat case_match; simplify_eq.
      - guards. eexists. by repeat split.
      - match goal with E : create_list_cursor_in_state _ _ _ _ = _ |- _ =>
          destruct (create_stored _ _ _ _ _ _ E) as (F1 & F2 & _ & F4 & _) end.
        exists (lc_id c). cbn. rewrite lookup_insert_eq. by repeat split. }
    split; [|split].
    - intros e' now' Hn. unfold create_list_cursor_successor. rewrite Hq, Hqc, Hm.
      rewrite (proj2 (Z.leb_gt _ _)) by done. by rewrite bool_decide_eq_true_2.
    - intros e' now' r' Hn Hr. unfold create_list_cursor_successor. rewrite Hq, Hqc, Hr.
      rewrite (proj2 (Z.leb_gt _ _)) by done. by rewrite bool_decide_eq_true_2.
    - intros e' p' now' r'. unfold create_list_cursor_successor.
      destruct (list_cursor_successors s' !! p') as [q'|] eqn:Hq'; [|].
      + destruct (Hs' p' q' Hq') as [c' ->]. by repeat case_match.
      + pose proof (create_not_missing e' r' now' s') as Hn.
        destruct (create_list_cursor_in_state _ _ _ _) as [[]]; [done|exact Hn].
Qed.
End cursors.
