(* ===== verification/Placement.v ===== *)
(** * Managed storage: placement of objects on backends

    Rendezvous hashing of [crates/gateway/src/managed.rs]: every backend is
    scored for an object, the best two distinct backends hold it.  The scores of
    [rendezvous_placement] are SHA-256 digests; those of the weighted variant are
    floating-point penalties, of which only the total order of [total_cmp] is
    used, so they are an argument. *)

From S2P Require Import Prelude Operation Integrity Managed ManagedRepo.
From stdpp Require Import sorting.

#[local] Open Scope Z_scope.
Set Default Goal Selector "!".

(** ** Orders *)

(** A comparison function that decides a total order. *)
Class TotalCmp {A} (cmp : A → A → comparison) : Prop := {
  cmp_eq a b : cmp a b = Eq ↔ a = b;
  cmp_flip a b : cmp b a = CompOpp (cmp a b);
  cmp_trans a b c : cmp a b = Lt → cmp b c = Lt → cmp a c = Lt;
}.

#[global] Instance string_compare_total : TotalCmp String.compare.
Proof.
  split.
  - intros a b. split; [apply String.compare_eq_iff|]. intros <-.
    induction a as [|x a IH]; [done|]. cbn. unfold Ascii.compare. by rewrite N.compare_refl.
  - intros a b. apply String.compare_antisym.
  - intros a. induction a as [|x a IH]; intros [|y b] [|z c]; cbn; try done.
    unfold Ascii.compare. intros Hab Hbc.
    destruct (N.compare_spec (Ascii.N_of_ascii x) (Ascii.N_of_ascii y)) as [E1|E1|E1]; try done;
      destruct (N.compare_spec (Ascii.N_of_ascii y) (Ascii.N_of_ascii z)) as [E2|E2|E2]; try done;
      destruct (N.compare_spec (Ascii.N_of_ascii x) (Ascii.N_of_ascii z)) as [E3|E3|E3]; try done; try lia.
    by eapply IH.
Qed.

(** The order of [[u8; 32]]: lexicographic. *)
Fixpoint bytes_compare (a b : list byte) : comparison :=
  match a, b with
  | [], [] => Eq
  | [], _ => Lt
  | _, [] => Gt
  | x :: a, y :: b =>
    match Z.compare (b2z x) (b2z y) with Eq => bytes_compare a b | c => c end
  end.

#[global] Instance bytes_compare_total : TotalCmp bytes_compare.
Proof.
  split.
  - intros a. induction a as [|x a IH]; intros [|y b]; cbn; try done.
    destruct (Z.compare_spec (b2z x) (b2z y)) as [E|E|E].
    + apply b2z_inj in E as <-. rewrite IH. naive_solver.
    + split; [done|]. intros [= -> ->]. lia.
    + split; [done|]. intros [= -> ->]. lia.
  - intros a. induction a as [|x a IH]; intros [|y b]; cbn; try done.
    rewrite (Z.compare_antisym (b2z x) (b2z y)). destruct (b2z x ?= b2z y); cbn; auto.
  - intros a. induction a as [|x a IH]; intros [|y b] [|z c]; cbn; try done. intros Hab Hbc.
    destruct (Z.compare_spec (b2z x) (b2z y)) as [E1|E1|E1]; try done;
      destruct (Z.compare_spec (b2z y) (b2z z)) as [E2|E2|E2]; try done;
      destruct (Z.compare_spec (b2z x) (b2z z)) as [E3|E3|E3]; try done; try lia.
    by eapply IH.
Qed.

(** [|l, r| r.cmp(l)]. *)
Definition flip_cmp {A} (cmp : A → A → comparison) (a b : A) : comparison := cmp b a.
#[global] Instance flip_cmp_total {A} (cmp : A → A → comparison) `{!TotalCmp cmp} : TotalCmp (flip_cmp cmp).
Proof.
  unfold flip_cmp. split.
  - intros a b. rewrite cmp_eq. naive_solver.
  - intros a b. apply cmp_flip.
  - intros a b c Hab Hbc. by apply (cmp_trans c b a).
Qed.

(** ** Choosing two backends *)

Section choose.
  Context {S : Type} (cmp : S → S → comparison).

  (** The comparator of [sort_by]: the score, then the identifier. *)
Definition before (x y : S * string) : Prop :=
    match cmp x.1 y.1 with Lt => True | Gt => False | Eq => str_le x.2 y.2 end.
#[global] Instance before_dec : RelDecision before.
Proof. intros x y. unfold before. destruct (cmp x.1 y.1); apply _. Defined.

  (** [dedup_by(|(_, l), (_, r)| l == r)]: neighbours with the same identifier. *)
Fixpoint dedup_from (id : string) (l : list (S * string)) : list (S * string) :=
    match l with
    | [] => []
    | x :: l => if decide (x.2 = id) then dedup_from id l else x :: dedup_from x.2 l
    end.
Definition dedup (l : list (S * string)) : list (S * string) :=
    match l with [] => [] | x :: l => x :: dedup_from x.2 l end.

Definition choose (version : Z) (scored : list (S * string)) : option Placement :=
    let scored := dedup (merge_sort before scored) in
    first ← head scored;
    Some (mkPlacement version first.2 (snd <$> scored !! 1%nat)).
End choose.

Section rendezvous.
  Context `{Crypto}.

Definition rendezvous_score (placement_version : Z) (tenant_id object_key backend_id : string) : list byte :=
    let hasher := h_update c_sha256 (h_new c_sha256) (bs "s4-rendezvous" ++ [x00]) in
    let hasher := h_update c_sha256 hasher (to_be_bytes 4 placement_version) in
    let hasher := hash_field hasher (bs tenant_id) in
    let hasher := hash_field hasher (bs object_key) in
    let hasher := hash_field hasher (bs backend_id) in
    h_finalize c_sha256 hasher.

Definition rendezvous_placement (placement_version : Z) (tenant_id object_key : string)
      (backend_ids : list string) : option Placement :=
    choose (flip_cmp bytes_compare) placement_version
      ((λ b, (rendezvous_score placement_version tenant_id object_key b, b)) <$> backend_ids).

  (** [penalty prefix weight] is the [-uniform.ln() / weight] of the first eight bytes of the score. *)
Definition weighted_rendezvous_placement {F} (total_cmp : F → F → comparison)
      (penalty : list byte → Z → F) (placement_version : Z) (tenant_id object_key : string)
      (backend_weights : list (string * Z)) : option Placement :=
    choose total_cmp placement_version
      ((λ bw : string * Z,
          (penalty (take 8 (rendezvous_score placement_version tenant_id object_key bw.1)) bw.2, bw.1))
       <$> filter (λ bw, 0 < bw.2) backend_weights).

  (** The order of the tuples [(backend_id, weight, capacity)]. *)
Definition fact_le (a b : string * Z * Z) : Prop :=
    let '(i, w, c) := a in let '(j, x, d) := b in
    match String.compare i j with
    | Lt => True
    | Gt => False
    | Eq => w < x ∨ (w = x ∧ c <= d)
    end.
#[global] Instance fact_le_dec : RelDecision fact_le.
Proof. intros [[i w] c] [[j x] d]. unfold fact_le. destruct (String.compare i j); apply _. Defined.

Definition placement_policy_fingerprint (version : Z) (backends : list (string * Z * Z)) : string :=
    let hasher := h_update c_sha256 (h_new c_sha256) (bs "s4-placement-policy" ++ [x00]) in
    let hasher := h_update c_sha256 hasher (to_be_bytes 4 version) in
    let hasher := foldl (λ hasher '(backend_id, weight, capacity),
        hash_field (hash_field (hash_field hasher (bs backend_id)) (to_be_bytes 8 weight))
          (to_be_bytes 8 capacity)) hasher (merge_sort fact_le backends) in
    String.string_of_list_byte (hex_encode (h_finalize c_sha256 hasher)).
End rendezvous.

(** ** The ranking of the backends *)

Section ranking.
  Context {S : Type} (cmp : S → S → comparison) `{!TotalCmp cmp} (score : string → S).

Lemma sc_eq a b : cmp a b = Eq → a = b.
Proof. intros E. by apply (cmp_eq (cmp := cmp)). Qed.
Lemma sc_refl a : cmp a a = Eq.
Proof. by apply (cmp_eq (cmp := cmp)). Qed.
Lemma sc_flip a b : cmp b a = CompOpp (cmp a b).
Proof. apply (cmp_flip (cmp := cmp)). Qed.
Lemma sc_trans a b c : cmp a b = Lt → cmp b c = Lt → cmp a c = Lt.
Proof. apply (cmp_trans (cmp := cmp)). Qed.
Lemma str_refl a : String.compare a a = Eq.
Proof. by apply (cmp_eq (cmp := String.compare)). Qed.
Lemma str_trans a b c : String.compare a b = Lt → String.compare b c = Lt → String.compare a c = Lt.
Proof. apply (cmp_trans (cmp := String.compare)). Qed.

Definition scored (ids : list string) : list (S * string) := (λ b, (score b, b)) <$> ids.

  (** [a] is strictly better than [b]. *)
Definition beats (a b : string) : Prop :=
    match cmp (score a) (score b) with Lt => True | Gt => False | Eq => String.compare a b = Lt end.

Definition ranked (ids : list string) : list string := (dedup (merge_sort (before cmp) (scored ids))).*2.

Lemma beats_irrefl a : ¬ beats a a.
Proof.
    unfold beats. by rewrite sc_refl, str_refl.
Qed.

Lemma beats_trans a b c : beats a b → beats b c → beats a c.
Proof.
    unfold beats. intros Hab Hbc.
    destruct (cmp (score a) (score b)) eqn:E1; [| |done]; destruct (cmp (score b) (score c)) eqn:E2; try done.
    - apply sc_eq in E1, E2. rewrite E1, E2, sc_refl. by eapply str_trans.
    - apply sc_eq in E1. by rewrite E1, E2.
    - apply sc_eq in E2. by rewrite <- E2, E1.
    - by rewrite (sc_trans _ _ _ E1 E2).
Qed.

Lemma beats_total a b : a = b ∨ beats a b ∨ beats b a.
Proof.
    unfold beats. rewrite (sc_flip (score a) (score b)).
    destruct (cmp (score a) (score b)); cbn; [|auto..].
    rewrite (String.compare_antisym b a). destruct (String.compare a b) eqn:E; cbn; [|auto..].
    left. by apply String.compare_eq_iff.
Qed.

Lemma str_le_compare a b : str_le a b ↔ String.compare a b ≠ Gt.
Proof. unfold str_le, String.leb. destruct (String.compare a b); naive_solver. Qed.

#[local] Instance before_trans : Transitive (before cmp).
Proof.
    intros x y z. unfold before.
    destruct (cmp x.1 y.1) eqn:E1; [| |done]; destruct (cmp y.1 z.1) eqn:E2; try done.
    - apply sc_eq in E1, E2. rewrite E1, E2, sc_refl, !str_le_compare.
      intros H1 H2. destruct (String.compare x.2 y.2) eqn:F1; [| |done].
      + apply String.compare_eq_iff in F1. by rewrite F1.
      + destruct (String.compare y.2 z.2) eqn:F2; [| |done].
        * apply String.compare_eq_iff in F2. by rewrite <- F2, F1.
        * by rewrite (str_trans _ _ _ F1 F2).
    - apply sc_eq in E1. by rewrite E1, E2.
    - apply sc_eq in E2. by rewrite <- E2, E1.
    - by rewrite (sc_trans _ _ _ E1 E2).
Qed.

#[local] Instance before_total : Total (before cmp).
Proof.
    intros x y. unfold before. rewrite (sc_flip x.1 y.1).
    destruct (cmp x.1 y.1); cbn; [|auto..]. apply String.leb_total.
Qed.

Lemma before_beats a b : before cmp (score a, a) (score b, b) → a ≠ b → beats a b.
Proof.
    unfold before, beats. cbn. destruct (cmp (score a) (score b)); try done.
    rewrite str_le_compare. intros Hle Hne. destruct (String.compare a b) eqn:E; [|done..].
    by apply String.compare_eq_iff in E.
Qed.

  (** On a sorted list, removing neighbouring duplicates removes all of them. *)
Lemma dedup_from_ranked id ids :
    StronglySorted (before cmp) (scored (id :: ids)) →
    StronglySorted beats (id :: (dedup_from id (scored ids)).*2)
    ∧ ∀ x, x ∈ id :: (dedup_from id (scored ids)).*2 ↔ x ∈ id :: ids.
Proof.
    revert id. induction ids as [|y ids IH]; intros id Hs.
    - cbn. split; [by repeat constructor|done].
    - inversion Hs as [|? ? Hs' Hid]; subst. cbn. case_decide as Hy; cbn in Hy.
      + subst y. destruct (IH id Hs') as [S1 S2]. split; [done|]. intros x. rewrite S2. set_solver.
      + destruct (IH y Hs') as [S1 S2]. cbn. split.
        * constructor; [done|]. inversion Hid as [|? ? Hb _]; subst.
          assert (beats id y) as Hiy by (by apply before_beats).
          apply Forall_forall. intros x Hx. apply elem_of_cons in Hx as [->|Hx]; [done|].
          inversion S1 as [|? ? _ Hall]; subst.
          eapply beats_trans; [exact Hiy|]. by apply (proj1 (Forall_forall _ _) Hall).
        * intros x. rewrite elem_of_cons, S2. set_solver.
Qed.

Lemma scored_of_perm l ids : l ≡ₚ scored ids → ∃ ids', l = scored ids' ∧ ids' ≡ₚ ids.
Proof. intros (ids' & -> & Hp)%Permutation_map_inv. by exists ids'. Qed.

Lemma ranked_spec ids : StronglySorted beats (ranked ids) ∧ ∀ x, x ∈ ranked ids ↔ x ∈ ids.
Proof.
    unfold ranked. pose proof (StronglySorted_merge_sort (before cmp) (scored ids)) as Hs.
    destruct (scored_of_perm _ _ (merge_sort_Permutation (before cmp) (scored ids))) as (ids' & E & Hp).
    rewrite E in *. destruct ids' as [|y ids']; cbn.
    - apply Permutation_nil in Hp as ->. split; [constructor|done].
    - destruct (dedup_from_ranked y ids' Hs) as [S1 S2]. split; [exact S1|].
      intros x. etransitivity; [apply S2|]. by rewrite Hp.
Qed.

Lemma ranked_unique l1 l2 :
    StronglySorted beats l1 → StronglySorted beats l2 → (∀ x, x ∈ l1 ↔ x ∈ l2) → l1 = l2.
Proof.
    revert l2. induction l1 as [|x l1 IH]; intros l2 H1 H2 Hx.
    - destruct l2 as [|y l2]; [done|]. exfalso. apply (not_elem_of_nil y). apply Hx. left.
    - destruct l2 as [|y l2]; [exfalso; apply (not_elem_of_nil x); apply Hx; left|].
      inversion H1 as [|? ? S1 F1]; inversion H2 as [|? ? S2 F2]; subst. rewrite Forall_forall in F1, F2.
      assert (x = y) as <-.
      { destruct (proj1 (elem_of_cons l2 x y) (proj1 (Hx x) ltac:(left))) as [|Hxy]; [done|].
        destruct (proj1 (elem_of_cons l1 y x) (proj2 (Hx y) ltac:(left))) as [|Hyx]; [done|].
        exfalso. apply (beats_irrefl x). by apply (beats_trans x y x); [apply F1|apply F2]. }
      f_equal. apply IH; [done..|]. intros z. split; intros Hz.
      + destruct (proj1 (elem_of_cons l2 z x) (proj1 (Hx z) ltac:(by right))) as [->|]; [|done].
        by destruct (beats_irrefl x (F1 x Hz)).
      + destruct (proj1 (elem_of_cons l1 z x) (proj2 (Hx z) ltac:(by right))) as [->|]; [|done].
        by destruct (beats_irrefl x (F2 x Hz)).
Qed.

Lemma choose_ranked version ids :
    choose cmp version (scored ids) =
      match ranked ids with
      | [] => None
      | p :: rest => Some (mkPlacement version p (head rest))
      end.
Proof.
    unfold choose, ranked. destruct (dedup _) as [|x [|y l]]; [done..|]. done.
Qed.

Lemma choose_ext version ids1 ids2 :
    (∀ x, x ∈ ids1 ↔ x ∈ ids2) → choose cmp version (scored ids1) = choose cmp version (scored ids2).
Proof.
    intros Hx. rewrite !choose_ranked.
    destruct (ranked_spec ids1) as [S1 E1], (ranked_spec ids2) as [S2 E2].
    rewrite (ranked_unique _ _ S1 S2); [done|]. intros x. by rewrite E1, E2.
Qed.

Lemma choose_best version ids p :
    choose cmp version (scored ids) = Some p →
    pl_version p = version ∧ pl_primary_backend_id p ∈ ids
    ∧ (∀ b, b ∈ ids → b = pl_primary_backend_id p ∨ beats (pl_primary_backend_id p) b)
    ∧ match pl_replica_backend_id p with
      | None => ∀ b, b ∈ ids → b = pl_primary_backend_id p
      | Some r => r ∈ ids ∧ r ≠ pl_primary_backend_id p
          ∧ ∀ b, b ∈ ids → b = pl_primary_backend_id p ∨ b = r ∨ beats r b
      end.
Proof.
    rewrite choose_ranked. destruct (ranked_spec ids) as [Hs Hin].
    destruct (ranked ids) as [|x l]; [done|]. intros [= <-]. cbn.
    inversion Hs as [|? ? Hs' Hx]; subst. rewrite Forall_forall in Hx.
    split; [done|]. split; [apply Hin; left|]. split.
    - intros b [->|Hb]%Hin%elem_of_cons; [by left|right; by apply Hx].
    - destruct l as [|r l]; cbn.
      + intros b Hb%Hin. by apply list_elem_of_singleton in Hb.
      + inversion Hs' as [|? ? _ Hr]; subst. rewrite Forall_forall in Hr.
        split; [apply Hin; right; left|]. split.
        * intros ->. apply (beats_irrefl x), Hx. left.
        * intros b [->|[->|Hb]%elem_of_cons]%Hin%elem_of_cons; [by left|by right; left|].
          right; right. by apply Hr.
Qed.

Lemma ranked_filter b ids :
    ranked (filter (λ x, x ≠ b) ids) = filter (λ x, x ≠ b) (ranked ids).
Proof.
    destruct (ranked_spec ids) as [S1 E1], (ranked_spec (filter (λ x, x ≠ b) ids)) as [S2 E2].
    apply ranked_unique; [done| |].
    - clear -S1. induction S1 as [|x l Hs IH Hx]; [constructor|]. rewrite filter_cons. case_decide; [|done].
      constructor; [done|]. apply Forall_forall. intros y [_ Hy]%list_elem_of_filter.
      by apply (proj1 (Forall_forall _ _) Hx).
    - intros x. rewrite E2, !list_elem_of_filter, E1. done.
Qed.

  (** A backend that holds no copy of the object can come or go. *)
Lemma choose_stable version ids b p :
    choose cmp version (scored ids) = Some p →
    pl_primary_backend_id p ≠ b → pl_replica_backend_id p ≠ Some b →
    choose cmp version (scored (filter (λ x, x ≠ b) ids)) = Some p.
Proof.
    rewrite !choose_ranked, ranked_filter. destruct (ranked ids) as [|x [|y l]]; [done|..]; intros [= <-];
      cbn [pl_primary_backend_id pl_replica_backend_id head].
    - intros Hx _. by rewrite filter_cons_True.
    - intros Hx Hy. rewrite filter_cons_True, filter_cons_True by congruence. done.
Qed.
End ranking.

Section placements.
  Context `{Crypto} (version : Z) (tenant key : string).

Abbreviation score := (rendezvous_score version tenant key).

(** Rendezvous placement: the primary and the replica are distinct backends
    with the best and second-best scores, ties going to the smaller identifier;
    they depend on the set of backends only, not on its order or on repetitions;
    and a backend that holds no copy can be added or removed without moving the
    object. *)
Theorem rendezvous_minimal_disruption ids p :
    rendezvous_placement version tenant key ids = Some p →
    (pl_primary_backend_id p ∈ ids
     ∧ (∀ b, b ∈ ids → b = pl_primary_backend_id p
          ∨ beats (flip_cmp bytes_compare) score (pl_primary_backend_id p) b)
     ∧ match pl_replica_backend_id p with
       | None => ∀ b, b ∈ ids → b = pl_primary_backend_id p
       | Some r => r ∈ ids ∧ r ≠ pl_primary_backend_id p
           ∧ ∀ b, b ∈ ids → b = pl_primary_backend_id p ∨ b = r
               ∨ beats (flip_cmp bytes_compare) score r b
       end)
    ∧ (∀ ids', (∀ x, x ∈ ids' ↔ x ∈ ids) → rendezvous_placement version tenant key ids' = Some p)
    ∧ (∀ b, pl_primary_backend_id p ≠ b → pl_replica_backend_id p ≠ Some b →
         rendezvous_placement version tenant key (filter (λ x, x ≠ b) ids) = Some p).
Proof.
    unfold rendezvous_placement. fold (scored score ids). intros Hp.
    destruct (choose_best _ _ _ _ _ Hp) as (_ & H1 & H2 & H3). split; [done|]. split.
    - intros ids' Hx. rewrite <- Hp. exact (choose_ext (flip_cmp bytes_compare) score version ids' ids Hx).
    - intros b Hb1 Hb2. exact (choose_stable (flip_cmp bytes_compare) score version ids b p Hp Hb1 Hb2).
Qed.
End placements.
