(* ===== verification/ServiceStorage.v ===== *)
(** * Managed storage: the service

    [crates/gateway/src/service_storage.rs]: the configured backends, the calls
    to their S3 endpoints and the operations of [ServiceStorage] over the
    managed repository, and the classification of S3 failures of
    [crates/gateway/src/s3_safety.rs].

    An operation runs in a world made of the repository, the provider and a
    count of the repository calls made so far.  Between two of its repository
    calls other requests run: [Outside] says which calls they make, and what
    the operation's own calls observe of the clock and of the UUIDs. *)

From S2P Require Import Prelude Operation RustStr Integrity Managed ManagedRepo ManagedUsage ManagedPurge Placement.
From stdpp Require Import sorting.

#[local] Open Scope Z_scope.
Set Default Goal Selector "!".

(** ** Failures of S3 calls: [s3_safety.rs] *)

(** The cases of the SDK's error that are told apart.  A [ServiceError] and a
    [ResponseError] carry the HTTP status; [missing] is the answer of
    [is_not_found] or [is_no_such_key], whichever belongs to the request. *)
Inductive SdkError : Type :=
| ConstructionFailure
| TimeoutError
| DispatchFailure (timeout : bool)
| ResponseError (status : Z)
| ServiceError (status : Z) (missing : bool)
| OtherFailure.

Inductive S3FailureCategory : Type :=
| FConfiguration | FTimeout | FTransport | FResponse | FProvider | FRequest.

Definition client_message (c : S3FailureCategory) : string :=
  match c with
  | FConfiguration => "S3 backend request configuration failed"
  | FTimeout => "S3 backend request timed out"
  | FTransport => "S3 backend connection failed"
  | FResponse => "S3 backend returned an invalid response"
  | FProvider => "S3 backend rejected the request"
  | FRequest => "S3 backend request failed"
  end.

Definition classify_s3_failure (error : SdkError) : S3FailureCategory :=
  match error with
  | ConstructionFailure => FConfiguration
  | TimeoutError => FTimeout
  | DispatchFailure timeout => if timeout then FTimeout else FTransport
  | ResponseError _ => FResponse
  | ServiceError _ _ => FProvider
  | OtherFailure => FRequest
  end.

(** [record_s3_failure(operation, &error).to_string()]: the warning is not modelled. *)
Definition record_s3_failure (error : SdkError) : string := client_message (classify_s3_failure error).
Definition body_failure : string := "S3 backend response body failed".

(** [error.raw_response()] and its status. *)
Definition raw_status (error : SdkError) : option Z :=
  match error with ResponseError status | ServiceError status _ => Some status | _ => None end.
(** [error.as_service_error().is_some_and(|e| e.is_not_found())]. *)
Definition service_missing (error : SdkError) : bool :=
  match error with ServiceError _ missing => missing | _ => false end.

(** ** Text of errors *)

Definition mode_debug (m : ManagedStreamingMode) : string :=
  match m with ModeOff => "Off" | ModeObserve => "Observe" | ModeEnforce => "Enforce" end.
Definition logical_state_debug (s : ManagedLogicalOperationState) : string :=
  match s with
  | LIntent => "Intent" | LOpen => "Open" | LCompleting => "Completing"
  | LCommitUnknown => "CommitUnknown" | LCommitted => "Committed" | LProvenAborted => "ProvenAborted"
  end.

(** [ManagedError]'s [Display]. *)
Definition managed_error_display (e : ManagedError) : string :=
  match e with
  | InvalidMode value => "invalid managed streaming mode " +:+ debug_str value
  | MutationDisabled mode => "managed mutations are disabled in " +:+ mode_debug mode +:+ " mode"
  | OffAfterAuthority => "managed mode off is invalid after authority exists"
  | Conflict => "managed authority compare-and-swap conflict"
  | Corrupt m => "managed authority data is corrupt: " +:+ m
  | Persistence m => "managed authority persistence failed: " +:+ m
  | NamespaceFenced => "managed namespace is fenced for purge"
  | InvalidTransition from to =>
    "managed operation transition from " +:+ logical_state_debug from +:+ " to "
      +:+ logical_state_debug to +:+ " is invalid"
  | MutationInProgress => "managed workspace already has an active mutation"
  | QuotaExceeded => "managed workspace capacity is exhausted"
  | CursorExpired => "managed list cursor is expired"
  | CursorQueryMismatch => "managed list cursor does not match this query"
  | CursorLimitExceeded => "managed list cursor capacity is exhausted"
  end.

(** ** Backends *)

Record ServiceBackend := mkBackend {
  sb_provider : string;
  sb_provider_instance_id : option string;
  sb_provider_account_id : option string;
  sb_credential_epoch : option Z;
  sb_placement_weight : Z;
  sb_placement_capacity_units : Z;
  sb_endpoint : string;
  sb_region : string;
  sb_bucket : string;
  sb_access_key : string;
  sb_secret_key : string;
}.
#[global] Instance ServiceBackend_eq_dec : EqDecision ServiceBackend.
Proof. solve_decision. Defined.

(** [reqwest::Url]. *)
Class UrlParser := {
  Url : Type;
  url_parse : string → option Url;
  url_scheme : Url → string;
  url_host_str : Url → option string;
  url_username : Url → string;
  url_password : Url → option string;
  url_query : Url → option string;
  url_fragment : Url → option string;
  url_path : Url → string;
  url_set_path : string → Url → Url;
  url_to_string : Url → string;
}.

Definition is_b2 (b : ServiceBackend) : bool := eq_ignore_ascii_case (bs (sb_provider b)) (bs "b2").

Definition service_id (b : ServiceBackend) : string :=
  match sb_provider_instance_id b with
  | None => sb_provider b +:+ ":" +:+ sb_bucket b
  | Some instance_id => sb_provider b +:+ ":" +:+ instance_id
  end.

(** [u64::checked_mul]. *)
Definition u64_checked_mul (a b : Z) : option Z := if a * b <=? u64_max then Some (a * b) else None.

Definition placement_weight (b : ServiceBackend) : option Z :=
  u64_checked_mul (sb_placement_weight b) (sb_placement_capacity_units b).

Section backends.
  Context `{UrlParser}.

  (** The conditions an endpoint must meet, which [parse_service_backends] repeats. *)
Definition endpoint_refused (u : Url) : bool :=
    negb (bool_decide (url_scheme u = "http") || bool_decide (url_scheme u = "https"))
    || bool_decide (url_host_str u = None)
    || negb (is_empty (url_username u))
    || bool_decide (is_Some (url_password u))
    || bool_decide (is_Some (url_query u))
    || bool_decide (is_Some (url_fragment u)).

Definition canonical_provider_endpoint (endpoint : string) : option string :=
    u ← url_parse endpoint;
    if endpoint_refused u then None
    else Some (url_to_string (if is_empty (url_path u) then url_set_path "/" u else u)).

Definition storage_identity (b : ServiceBackend) : option ProviderStorageIdentity :=
    instance ← sb_provider_instance_id b;
    account ← sb_provider_account_id b;
    endpoint ← canonical_provider_endpoint (sb_endpoint b);
    Some {| si_provider_kind := sb_provider b; si_provider_instance_id := instance;
            si_provider_account_id := account; si_canonical_endpoint := endpoint;
            si_region := sb_region b |}.

Definition matches_persisted_identity (b : ServiceBackend) (identity : ProviderStorageIdentity)
      (credential_epoch : Z) : bool :=
    bool_decide (storage_identity b = Some identity)
    && match sb_credential_epoch b with Some current => credential_epoch <=? current | None => false end.
End backends.

(** ** The provider *)

(** What [head_object] and [get_object] answer; a chunk of the body is [None]
    when reading it fails. *)
Record ObjectOutput := mkOutput {
  out_metadata : option (gmap string string);
  out_content_length : option Z;
  out_version_id : option string;
  out_e_tag : option string;
  out_body : list (option (list byte));
}.

(** The S3 calls of the service, each on the client of a backend: bucket, key
    and version as the request names them. *)
Class ServiceProvider (P : Type) := {
  p_get_bucket_versioning : ServiceBackend → string → SE P SdkError (option string);
  p_delete_object : ServiceBackend → string → string → option string → SE P SdkError unit;
  p_head_object : ServiceBackend → string → string → option string → SE P SdkError ObjectOutput;
  p_get_object : ServiceBackend → string → string → option string → option string →
    SE P SdkError ObjectOutput;
}.

(** What happens around the [n]-th repository call of an operation: the calls
    other requests have made since the one before, and what it observes itself. *)
Class Outside := {
  o_others : nat → list (Env * ManagedCall);
  o_env : nat → Env;
}.

(** The scores of the weighted placement: an [f64] is never inspected, only compared. *)
Class Penalty := {
  Float : Type;
  total_cmp : Float → Float → comparison;
  penalty : list byte → Z → Float;
}.

(** The calls of a deletion, with their outcomes. *)
Inductive svc_event : Type :=
| SDelete (b : ServiceBackend) (bucket key : string) (version : option string) (r : result SdkError unit)
| SHead (b : ServiceBackend) (bucket key : string) (version : option string)
    (r : result SdkError ObjectOutput).

Record ServiceStorage := mkStorage {
  st_backends : list ServiceBackend;
  st_authority : bool;
  st_managed_mode : ManagedStreamingMode;
  st_placement_version : Z;
  st_versioning_capability : option BackendVersioningCapability;
}.

Definition storage_new (backends : list ServiceBackend) : ServiceStorage :=
  mkStorage backends false ModeOff PLACEMENT_VERSION_V1 None.
Definition with_management (backends : list ServiceBackend) (mode : ManagedStreamingMode)
    (placement_version : Z) : ServiceStorage :=
  mkStorage backends true mode (Z.max placement_version 1) None.
Definition capability_of (v : VersioningCapability) : BackendVersioningCapability :=
  match v with
  | VersioningUnsupported => CapUnsupported
  | VersioningOptional => CapOptional
  | VersioningRequired => CapRequired
  end.
Definition with_managed_capabilities (capabilities : option BackendCapabilities) (st : ServiceStorage)
    : ServiceStorage :=
  mkStorage (st_backends st) (st_authority st) (st_managed_mode st) (st_placement_version st)
    ((λ c, capability_of (versioning c)) <$> capabilities).

Section world.
  Context {P : Type} `{Crypto, ManagedText, Outside}.

Record SvcWorld := mkSvc {
    sw_repo : MemoryState;
    sw_provider : P;
    sw_tick : nat;
    sw_log : list svc_event;
  }.

Definition sw_set_provider (p : P) (w : SvcWorld) : SvcWorld :=
    mkSvc (sw_repo w) p (sw_tick w) (sw_log w).
Definition sw_record (ev : svc_event) (w : SvcWorld) : SvcWorld :=
    mkSvc (sw_repo w) (sw_provider w) (sw_tick w) (sw_log w ++ [ev]).

  (** The repository after the calls of the other requests. *)
Definition run_others (cs : list (Env * ManagedCall)) (s : MemoryState) : MemoryState :=
    foldl (λ s c, managed_step c.1 c.2 s) s cs.

Definition repo_call {A} (f : Env → SE MemoryState ManagedError A) : SE SvcWorld ManagedError A := λ w,
    let n := sw_tick w in
    let (r, s) := f (o_env n) (run_others (o_others n) (sw_repo w)) in
    (r, mkSvc s (sw_provider w) (S n) (sw_log w)).

  (** An S3 call; [ev] logs it. *)
Definition s3_call {A} (ev : result SdkError A → option svc_event) (f : SE P SdkError A)
      : SE SvcWorld SdkError A := λ w,
    let (r, p) := f (sw_provider w) in
    let w := sw_set_provider p w in
    (r, match ev r with Some x => sw_record x w | None => w end).

  (** [match fallible.await { .. }]. *)
Definition attempt {E F A} (m : SE SvcWorld E A) : SE SvcWorld F (result E A) := λ w,
    let (r, w) := m w in (Ok r, w).
  (** [map_err(f)?]. *)
Definition se_map_err {E F A} (f : E → F) (m : SE SvcWorld E A) : SE SvcWorld F A := λ w,
    let (r, w) := m w in (map_err f r, w).
End world.
Arguments SvcWorld : clear implicits.

Section service.
  Context {P : Type} `{ServiceProvider P, Crypto, ManagedText, Outside, Penalty, UrlParser}.
  Context (st : ServiceStorage).
  Abbreviation W := (SvcWorld P).

  (** ** Placement and backends *)

Definition svc_placement (logical : LogicalObjectKey) : option Placement :=
    weighted_rendezvous_placement total_cmp penalty (st_placement_version st)
      (lk_tenant_id logical) (object_key logical)
      (omap (λ b, (λ weight, (service_id b, weight)) <$> placement_weight b) (st_backends st)).

Definition index_for_id (backend_id : string) : option nat :=
    position (λ b, bool_decide (service_id b = backend_id)) (st_backends st).
  (** [self.backends[index]] for an index of [index_for_id]. *)
Definition backend_for_id (backend_id : string) : option ServiceBackend :=
    i ← index_for_id backend_id; st_backends st !! i.

Definition validate_backend (seen : gset string) (b : ServiceBackend) : result string (gset string) :=
    if negb (is_b2 b)
    then Err "transactional managed mode supports only B2 backend pools at launch"
    else if match url_parse (sb_endpoint b) with
            | Some u => negb (bool_decide (url_scheme u = "https")) | None => true end
    then Err "transactional managed B2 requires HTTPS provider endpoints"
    else if bool_decide (storage_identity b = None) || bool_decide (sb_provider_account_id b = None)
            || negb match sb_credential_epoch b with Some e => 0 <? e | None => false end
    then Err "transactional managed B2 requires explicit provider instance/account identity and a positive credential epoch"
    else if match placement_weight b with Some weight => weight =? 0 | None => true end
    then Err "transactional managed B2 requires positive static placement weight and capacity units"
    else if decide (service_id b ∈ seen)
    then Err "transactional managed B2 requires unique stable backend IDs"
    else Ok ({[service_id b]} ∪ seen).

Fixpoint validate_backends (seen : gset string) (backends : list ServiceBackend) : result string unit :=
    match backends with
    | [] => Ok tt
    | b :: backends => seen ← validate_backend seen b; validate_backends seen backends
    end.

Definition validate_managed_launch_configuration : result string unit :=
    if negb (bool_decide (st_managed_mode st = ModeEnforce)) then Ok tt
    else if bool_decide (st_backends st = [])
    then Err "transactional managed mode requires one or more managed B2 backends at launch"
    else validate_backends ∅ (st_backends st).

Definition authority_repository_required {W'} : SE W' ManagedError unit :=
    if st_authority st then mret tt
    else se_throw (Persistence "managed authority repository is not configured").

Definition versioning_answer (r : result SdkError (option string)) : BackendVersioningMode :=
    match r with
    | Ok (Some status) =>
      if decide (status = "Enabled") then Enabled
      else if decide (status = "Suspended") then Suspended else Unknown
    | Ok None => Unversioned
    | Err _ => Unknown
    end.

  (** [versioning_mode(index)]: the client is always available, as
      [build_client] has no failing path. *)
Definition versioning_mode {E} (b : ServiceBackend) : SE W E BackendVersioningMode :=
    r ← attempt (s3_call (λ _, None) (p_get_bucket_versioning b (sb_bucket b)));
    mret (versioning_answer r).

  (** ** Deleting a ledgered version *)

  (** The checks of [delete_and_verify_purge_target] before its first S3 mutation. *)
Definition purge_target_refused (b : ServiceBackend) (current : BackendVersioningMode)
      (target : PhysicalVersionTarget) : option string :=
    let named tail := "managed backend " +:+ vt_backend_id target +:+ tail in
    if bool_decide (vt_versioning_mode target = Unknown) || bool_decide (current = Unknown)
    then Some (named " bucket versioning mode is unknown")
    else if negb (bool_decide (current = vt_versioning_mode target))
    then Some (named (" bucket versioning mode changed from "
           +:+ versioning_mode_str (vt_versioning_mode target) +:+ " to " +:+ versioning_mode_str current))
    else if negb (bool_decide (st_versioning_capability st = Some (vt_versioning_capability target)))
    then Some (named " versioning capability is unknown or changed")
    else if bool_decide (vt_version_id target = None)
            && (negb (bool_decide (vt_versioning_mode target = Unversioned))
                || negb (bool_decide (vt_versioning_capability target = CapUnsupported)))
    then Some (named " cannot prove an unversioned ledger target has no historical versions")
    else None.

Definition delete_and_verify_purge_target (target : PhysicalVersionTarget) : SE W string unit :=
    b ← se_lift (ok_or (backend_for_id (vt_backend_id target))
                   ("unknown managed backend " +:+ vt_backend_id target));
    if negb (matches_persisted_identity b (vt_storage_identity target) (vt_credential_epoch target))
    then se_throw ("managed backend " +:+ vt_backend_id target
           +:+ " storage identity changed or its credential epoch moved backwards since the physical version was written")
    else if negb (bool_decide (sb_bucket b = vt_provider_bucket target))
    then se_throw ("managed backend " +:+ vt_backend_id target +:+ " bucket changed from "
           +:+ vt_provider_bucket target +:+ " to " +:+ sb_bucket b)
    else
      current ← versioning_mode b;
      match purge_target_refused b current target with
      | Some reason => se_throw reason
      | None =>
        let bucket := vt_provider_bucket target in
        let key := vt_physical_key target in
        let version := vt_version_id target in
        deleted ← attempt (s3_call (λ r, Some (SDelete b bucket key version r)) (p_delete_object b bucket key version));
        match deleted with
        | Err error =>
          if bool_decide (raw_status error = Some 404) then mret tt
          else se_throw (record_s3_failure error)
        | Ok _ => mret tt
        end;;
        seen ← attempt (s3_call (λ r, Some (SHead b bucket key version r)) (p_head_object b bucket key version));
        match seen with
        | Err error =>
          if service_missing error then mret tt else se_throw (record_s3_failure error)
        | Ok _ =>
          se_throw ("managed physical version on " +:+ vt_backend_id target
                    +:+ " is still present after deletion")
        end
      end.

  (** ** Purging a namespace *)

Fixpoint purge_each (request : NamespacePurgeRequest) (targets : list PhysicalVersionTarget)
      : SE W ManagedError unit :=
    match targets with
    | [] => mret tt
    | target :: targets =>
      outcome ← attempt (delete_and_verify_purge_target target);
      match outcome with
      | Err reason => repo_call (λ _, mark_purge_target_blocked request reason)
      | Ok _ => repo_call (λ _, mark_purge_target_deleted request target)
      end;;
      purge_each request targets
    end.

Definition drive_namespace_purge (request : NamespacePurgeRequest) : SE W ManagedError NamespacePurgeStatus :=
    targets ← repo_call (λ _, purge_targets request 64);
    purge_each request targets;;
    repo_call (λ e, namespace_purge_status e request).

Definition service_purge_namespace (request : NamespacePurgeRequest) : SE W ManagedError NamespacePurgeStatus :=
    if negb (st_authority st)
    then mret (PurgeUnsupported "managed namespace purge requires an authority repository")
    else if negb (bool_decide (st_managed_mode st = ModeEnforce))
    then mret (PurgeUnsupported "complete managed namespace purge requires enforce mode and its exact physical-version ledger")
    else
      status ← repo_call (λ e, purge_namespace e request);
      if drives status then drive_namespace_purge request else mret status.

Definition service_purge_status (request : NamespacePurgeRequest) : SE W ManagedError NamespacePurgeStatus :=
    if negb (st_authority st)
    then mret (PurgeUnsupported "managed namespace purge status requires an authority repository")
    else if negb (bool_decide (st_managed_mode st = ModeEnforce))
    then mret (PurgeUnsupported "complete managed namespace purge requires enforce mode and its exact physical-version ledger")
    else
      status ← repo_call (λ e, namespace_purge_status e request);
      if drives status then drive_namespace_purge request else mret status.

  (** ** Reading an authoritative object *)

Definition metadata_matches (metadata : option (gmap string string)) (content_length : option Z)
      (a : ObjectAuthority) (ranged : bool) : bool :=
    match metadata with
    | None => false
    | Some metadata =>
      bool_decide (metadata !! "s4-generation" = Some (uuid_display (oa_generation a)))
      && bool_decide (metadata !! "s4-sha256" = Some (oa_digest a))
      && bool_decide ((value ← metadata !! "s4-size"; from_str_radix 10 (bs value)) = Some (oa_size a))
      && (ranged || bool_decide (content_length ≫= u64_try_from = Some (oa_size a)))
    end.

  (** [authoritative_get_from] and [authoritative_head_from] differ in the call [fetch]
      they make and in whether a range was asked for. *)
Definition authoritative_from (fetch : ServiceBackend → string → string → option string → SE P SdkError ObjectOutput)
      (ranged : bool) (backend_id physical_key : string) (a : ObjectAuthority)
      : SE W ManagedError (option ObjectOutput) :=
    match backend_for_id backend_id with
    | None => mret None
    | Some b =>
      let version := if decide (backend_id = oa_primary_backend_id a) then oa_primary_version_id a else None in
      r ← attempt (s3_call (λ _, None) (fetch b (sb_bucket b) physical_key version));
      mret match r with
           | Err _ => None
           | Ok output =>
             if metadata_matches (out_metadata output) (out_content_length output) a ranged
             then Some output else None
           end
    end.

  (** [RepairRecord::copy]/[placement] and the [enqueue] that follows. *)
Definition enqueue_copy (kind : RepairKind) (a : ObjectAuthority) (source : option string) (target : string)
      (role : RepairTargetRole) (version : Z) : SE W ManagedError unit :=
    repo_call (λ e, enqueue e (repair_copy (env_now e) (env_uuid e 0) kind a source target role version)).
Definition enqueue_placement (a : ObjectAuthority) (source : option string) (target : string)
      (role : RepairTargetRole) (p : Placement) : SE W ManagedError unit :=
    repo_call (λ e, enqueue e (repair_placement (env_now e) (env_uuid e 0) a source target role p)).

Definition enqueue_read_repairs (a : ObjectAuthority) (valid_source : string) (primary_failed : bool)
      : SE W ManagedError unit :=
    authority_repository_required;;
    (if primary_failed && negb (bool_decide (valid_source = oa_primary_backend_id a))
     then enqueue_copy KReplica a (Some valid_source) (oa_primary_backend_id a) RPrimary (oa_placement_version a)
     else mret tt);;
    match svc_placement (oa_logical a) with
    | None => mret tt
    | Some current =>
      if pl_version current =? oa_placement_version a then mret tt
      else
        (if negb (bool_decide (pl_primary_backend_id current = oa_primary_backend_id a))
         then enqueue_placement a (Some valid_source) (pl_primary_backend_id current) RPrimary current
         else mret tt);;
        match pl_replica_backend_id current with
        | Some replica =>
          if negb (bool_decide (oa_replica_backend_id a = Some replica))
          then enqueue_placement a (Some valid_source) replica RReplica current
          else mret tt
        | None => mret tt
        end
    end.

  (** The locations of the current placement, tried in turn. *)
Fixpoint read_migrated (fetch : string → SE W ManagedError (option ObjectOutput)) (a : ObjectAuthority)
      (backends : list string) : SE W ManagedError (option ObjectOutput) :=
    match backends with
    | [] => mret None
    | backend_id :: backends =>
      output ← fetch backend_id;
      match output with
      | Some output => enqueue_read_repairs a backend_id true;; mret (Some output)
      | None => read_migrated fetch a backends
      end
    end.

  (** [open_authoritative] and [head_authoritative]. *)
Definition read_authoritative (fetch : ServiceBackend → string → string → option string → SE P SdkError ObjectOutput)
      (ranged : bool) (logical : LogicalObjectKey) : SE W ManagedError (option ObjectOutput) :=
    authority_repository_required;;
    found ← repo_call (λ _, get logical);
    match found with
    | None => mret None
    | Some a =>
      if oa_tombstone a then mret None
      else
        let from backend_id :=
          authoritative_from fetch ranged backend_id (generation_physical_key logical (oa_generation a)) a in
        primary ← from (oa_primary_backend_id a);
        match primary with
        | Some output => enqueue_read_repairs a (oa_primary_backend_id a) false;; mret (Some output)
        | None =>
          secondary ← (match oa_replica_backend_id a with
                       | Some replica => if decide (oa_replica_status a = Ready) then from replica else mret None
                       | None => mret None
                       end);
          match secondary, oa_replica_backend_id a with
          | Some output, Some replica => enqueue_read_repairs a replica true;; mret (Some output)
          | _, _ =>
            match svc_placement logical with
            | Some current =>
              if pl_version current =? oa_placement_version a then mret None
              else read_migrated from a
                     (pl_primary_backend_id current :: option_list (pl_replica_backend_id current))
            | None => mret None
            end
          end
        end
    end.

Definition open_authoritative (logical : LogicalObjectKey) (range : option string)
      : SE W ManagedError (option ObjectOutput) :=
    read_authoritative (λ b bucket key version, p_get_object b bucket key version range)
      (bool_decide (is_Some range)) logical.
Definition head_authoritative (logical : LogicalObjectKey) : SE W ManagedError (option ObjectOutput) :=
    read_authoritative p_head_object false logical.

Definition has_authority (logical : LogicalObjectKey) : SE W ManagedError bool :=
    authority_repository_required;;
    found ← repo_call (λ _, get logical);
    mret (bool_decide (is_Some found)).

  (** ** Deleting an object and the queue of repairs *)

Definition required_placement (logical : LogicalObjectKey) : SE W ManagedError Placement :=
    se_lift (ok_or (svc_placement logical) (Persistence "managed storage has no backends")).

Definition tombstone_authoritative (logical : LogicalObjectKey) : SE W ManagedError unit :=
    if negb (allows_mutations (st_managed_mode st))
    then se_throw (MutationDisabled (st_managed_mode st))
    else
      authority_repository_required;;
      existing ← repo_call (λ _, get logical);
      placement ← required_placement logical;
      repo_call (λ e, tombstone e (env_uuid e 0) logical (oa_cas_version <$> existing) placement);;
      mret tt.

  (** Is this backend one that holds the recorded generation? *)
Definition cleanup_is_authoritative (repair : RepairRecord) (a : ObjectAuthority) : bool :=
    negb (oa_tombstone a) && bool_decide (oa_generation a = rr_generation repair)
    && (bool_decide (oa_primary_backend_id a = rr_target_backend_id repair)
        || bool_decide (oa_replica_backend_id a = Some (rr_target_backend_id repair))).

Fixpoint forget_each (targets : list PhysicalVersionTarget) : SE W string unit :=
    match targets with
    | [] => mret tt
    | target :: targets =>
      delete_and_verify_purge_target target;;
      se_map_err managed_error_display (repo_call (λ e, forget_physical_version e target));;
      forget_each targets
    end.

Definition delete_generation (repair : RepairRecord) : SE W string unit :=
    b ← se_lift (ok_or (backend_for_id (rr_target_backend_id repair))
                   ("unknown cleanup backend " +:+ rr_target_backend_id repair));
    se_map_err managed_error_display authority_repository_required;;
    found ← se_map_err managed_error_display (repo_call (λ _, get (rr_logical repair)));
    if match found with Some a => cleanup_is_authoritative repair a | None => false end
    then se_throw "cleanup target is currently authoritative for this generation"
    else
      versions ← se_map_err managed_error_display (repo_call (λ _,
        physical_versions_of (lk_tenant_id (rr_logical repair)) (rr_target_backend_id repair) (sb_bucket b)
          (rr_physical_key repair)));
      if bool_decide (versions = []) then se_throw "cleanup has no exact physical-version ledger targets"
      else forget_each versions.

  (** ** Following a new placement *)

Definition ready_source (a : ObjectAuthority) : option string :=
    if decide (oa_primary_status a = Ready) then Some (oa_primary_backend_id a)
    else if decide (oa_replica_status a = Ready) then oa_replica_backend_id a
    else None.

Definition reconcile_authority_placement (a : ObjectAuthority) (desired : Placement) : SE W ManagedError unit :=
    if oa_tombstone a || (pl_version desired <=? oa_placement_version a) then mret tt
    else
      authority_repository_required;;
      if locations_match a (pl_primary_backend_id desired) (pl_replica_backend_id desired)
      then repo_call (λ e, advance_placement_version e (oa_logical a) (oa_cas_version a) desired);; mret tt
      else
        source ← se_lift (ok_or (ready_source a)
          (Persistence "stale authority has no verified ready source for placement repair"));
        (if negb (bool_decide (oa_primary_backend_id a = pl_primary_backend_id desired)
                  && bool_decide (oa_primary_status a = Ready))
            || (bool_decide (pl_replica_backend_id desired = None)
                && bool_decide (is_Some (oa_replica_backend_id a)))
         then enqueue_placement a (Some source) (pl_primary_backend_id desired) RPrimary desired
         else mret tt);;
        match pl_replica_backend_id desired with
        | Some replica =>
          if negb (bool_decide (oa_replica_backend_id a = Some replica))
             || negb (bool_decide (oa_replica_status a = Ready))
          then enqueue_placement a (Some source) replica RReplica desired
          else mret tt
        | None => mret tt
        end.

Fixpoint reconcile_each (objects : list ObjectAuthority) : SE W ManagedError unit :=
    match objects with
    | [] => mret tt
    | a :: objects =>
      desired ← required_placement (oa_logical a);
      reconcile_authority_placement a desired;;
      reconcile_each objects
    end.

Definition reconcile_authority_placement_page (after : option AuthorityPlacementCursor) (limit : Z)
      : SE W ManagedError AuthorityPlacementPage :=
    authority_repository_required;;
    page ← repo_call (λ e, list_authority_below_placement_version e
                             (mkPlacementQuery (st_placement_version st) after limit));
    reconcile_each (ppg_objects page);;
    mret page.

  (** ** Unresolved physical writes *)

Definition validate_durable_intent_backend (intent : PhysicalWriteIntent) : SE W string ServiceBackend :=
    b ← se_lift (ok_or (backend_for_id (wi_backend_id intent))
                   ("unknown managed backend " +:+ wi_backend_id intent));
    if negb (matches_persisted_identity b (wi_storage_identity intent) (wi_credential_epoch intent))
    then se_throw ("managed backend " +:+ wi_backend_id intent
           +:+ " storage identity changed or its credential epoch moved backwards while a write intent was unresolved")
    else if negb (bool_decide (sb_bucket b = wi_provider_bucket intent))
    then se_throw ("managed backend " +:+ wi_backend_id intent
           +:+ " bucket changed while a write intent was unresolved")
    else
      current ← versioning_mode b;
      if bool_decide (current = Unknown) || bool_decide (wi_versioning_mode intent = Unknown)
         || negb (bool_decide (current = wi_versioning_mode intent))
      then se_throw ("managed backend " +:+ wi_backend_id intent
             +:+ " versioning mode is unknown or changed while a write intent was unresolved")
      else if negb (bool_decide (st_versioning_capability st = Some (wi_versioning_capability intent)))
      then se_throw ("managed backend " +:+ wi_backend_id intent
             +:+ " versioning capability changed while a write intent was unresolved")
      else mret b.
End service.

(** ** The ring of objects without authority *)

Section ring.
  Context (legacy_hash : string → Z) (st : ServiceStorage).

Definition LEGACY_VIRTUAL_NODES : nat := 150.

  (** [ring.insert] for the virtual nodes of one backend: a later node replaces an equal hash. *)
Definition ring_insert (i : nat) (b : ServiceBackend) (ring : gmap Z nat) : gmap Z nat :=
    foldl (λ ring vnode, <[legacy_hash (service_id b +:+ ":" +:+ pretty vnode) := i]> ring) ring
      (seq 0 LEGACY_VIRTUAL_NODES).
Fixpoint ring_from (i : nat) (backends : list ServiceBackend) (ring : gmap Z nat) : gmap Z nat :=
    match backends with
    | [] => ring
    | b :: backends => ring_from (S i) backends (ring_insert i b ring)
    end.

Definition node_le (a b : Z * nat) : Prop := a.1 <= b.1.
#[global] Instance node_le_dec : RelDecision node_le.
Proof. intros a b. unfold node_le. apply _. Defined.

  (** The nodes in the order of their hashes, and those from [hash] on. *)
Definition ring_nodes (ring : gmap Z nat) : list (Z * nat) := merge_sort node_le (map_to_list ring).
Definition ring_range (hash : Z) (ring : gmap Z nat) : list (Z * nat) :=
    filter (λ node, hash <= node.1) (ring_nodes ring).

Definition get_backend_ids (key : string) : nat * option nat :=
    let hash := legacy_hash key in
    let ring := ring_from 0 (st_backends st) ∅ in
    let primary := default O (snd <$> match head (ring_range hash ring) with
                                      | Some node => Some node | None => head (ring_nodes ring) end) in
    let replica :=
      if (1 <? length (st_backends st))%nat
      then snd <$> List.find (λ node, negb (node.2 =? primary)%nat) (ring_range hash ring ++ ring_nodes ring)
      else None in
    (primary, replica).
End ring.

(** ** Reasoning about operations of the service *)

Section rules.
  Context {P : Type} `{ServiceProvider P, Crypto, ManagedText, Outside}.
  Abbreviation W := (SvcWorld P).

  (** The repository a call of the operation finds in [w]. *)
Definition found_repo (w : W) : MemoryState := run_others (o_others (sw_tick w)) (sw_repo w).

Lemma wp_repo_call {A} (f : Env → SE MemoryState ManagedError A) (Q : result ManagedError A → W → Prop) w :
    Q (f (o_env (sw_tick w)) (found_repo w)).1
      (mkSvc (f (o_env (sw_tick w)) (found_repo w)).2 (sw_provider w) (S (sw_tick w)) (sw_log w)) →
    wp (repo_call f) Q w.
Proof. unfold wp, repo_call, found_repo. by destruct (f _ _). Qed.

  (** Whatever an S3 call does to the provider, it leaves the repository alone. *)
Lemma wp_s3_call {A} ev (f : SE P SdkError A) (Q : result SdkError A → W → Prop) w :
    (∀ r p, Q r (mkSvc (sw_repo w) p (sw_tick w) (sw_log w ++ option_list (ev r)))) → wp (s3_call ev f) Q w.
Proof.
    intros HQ. unfold wp, s3_call. destruct (f (sw_provider w)) as [r p]. specialize (HQ r p).
    unfold sw_set_provider, sw_record. cbn. destruct (ev r); cbn in *; [exact HQ|]. by rewrite app_nil_r in HQ.
Qed.

Lemma wp_s3_run {A} ev (f : SE P SdkError A) r p (Q : result SdkError A → W → Prop) w :
    f (sw_provider w) = (r, p) →
    Q r (mkSvc (sw_repo w) p (sw_tick w) (sw_log w ++ option_list (ev r))) → wp (s3_call ev f) Q w.
Proof.
    intros Ef HQ. unfold wp, s3_call. rewrite Ef. unfold sw_set_provider, sw_record. cbn.
    destruct (ev r); cbn in *; [exact HQ|]. by rewrite app_nil_r in HQ.
Qed.

Lemma wp_attempt {E F A} (m : SE W E A) (Q : result F (result E A) → W → Prop) w :
    wp m (λ r, Q (Ok r)) w → wp (attempt m) Q w.
Proof. unfold wp, attempt. by destruct (m w). Qed.

Lemma wp_se_map_err {E F A} (f : E → F) (m : SE W E A) (Q : result F A → W → Prop) w :
    wp m (λ r, Q (map_err f r)) w → wp (se_map_err f m) Q w.
Proof. unfold wp, se_map_err. by destruct (m w). Qed.
End rules.

(** One step through the monad. *)
Ltac svc_step :=
  lazymatch goal with
  | |- wp (_ ≫= _) _ _ => apply wp_bind
  | |- wp (attempt _) _ _ => apply wp_attempt
  | |- wp (se_map_err _ _) _ _ => apply wp_se_map_err
  | |- wp (mret _) _ _ => apply wp_ret
  | |- wp (se_throw _) _ _ => apply wp_throw
  | |- wp (se_lift _) _ _ => apply wp_lift
  | |- wp (repo_call _) _ _ => apply wp_repo_call
  end.
