(* ===== verification/ServiceConfig.v ===== *)
(** * Managed storage: the configured backends

    [parse_service_backends] of [crates/gateway/src/service_storage.rs], the
    parser of the environment variable that lists the backends, and the reads
    and deletions of objects without authority, which live on the legacy ring. *)

From S2P Require Import Prelude Operation RustStr Integrity Managed ManagedRepo ManagedUsage Placement ServiceStorage.
From stdpp Require Import sorting.

#[local] Open Scope Z_scope.
Set Default Goal Selector "!".

Definition str_of : list byte → string := String.string_of_list_byte.

Definition is_ascii_alphanumeric (b : byte) : bool :=
  is_ascii_digit b || is_ascii_lowercase b || is_ascii_uppercase b.

(** ** [parse_service_backends] *)

Definition identifier_byte (b : byte) : bool :=
  is_ascii_alphanumeric b || bool_decide (b ∈ [x2e; x5f; x2d]).
Definition valid_identifier (value : list byte) (max_len : Z) : bool :=
  (1 <=? Z.of_nat (length value)) && (Z.of_nat (length value) <=? max_len) && forallb identifier_byte value.
Definition valid_credential (value : list byte) : bool :=
  (Z.of_nat (length value) <=? 4096) && forallb graphic value.

(** The tuple that the match on the fields yields. *)
Record BackendFields := mkFields {
  bf_provider : list byte;
  bf_instance : option (list byte);
  bf_account : option (list byte);
  bf_credential_epoch : option (list byte);
  bf_placement_weight : option (list byte);
  bf_placement_capacity_units : option (list byte);
  bf_endpoint : list byte;
  bf_region : list byte;
  bf_bucket : list byte;
  bf_access_key : list byte;
  bf_secret_key : list byte;
}.

Definition backend_fields (parts : list (list byte)) : option BackendFields :=
  match parts with
  | [provider; endpoint; region; bucket; access_key; secret_key] =>
    Some (mkFields provider None None None None None endpoint region bucket access_key secret_key)
  | [provider; instance; account; credential_epoch; endpoint; region; bucket; access_key; secret_key] =>
    Some (mkFields provider (Some instance) (Some account) (Some credential_epoch) None None
            endpoint region bucket access_key secret_key)
  | [provider; instance; account; credential_epoch; weight; capacity_units;
     endpoint; region; bucket; access_key; secret_key] =>
    Some (mkFields provider (Some instance) (Some account) (Some credential_epoch) (Some weight)
            (Some capacity_units) endpoint region bucket access_key secret_key)
  | _ => None
  end.

(** What follows the number of the entry in an error. *)
Definition R_FIELDS : string :=
  "expected six legacy fields, nine managed identity fields, or eleven managed placement fields".
Definition R_PLACEMENT : string := "placement weight and capacity units must be positive without overflow".

Definition explicit_identity (f : BackendFields) : result string (option (list byte * list byte * Z)) :=
  match bf_instance f, bf_account f, bf_credential_epoch f with
  | Some instance, Some account, Some credential_epoch =>
    if negb (valid_identifier instance 128) then Err "malformed provider instance ID"
    else if negb (valid_identifier account 256) then Err "malformed provider account ID"
    else match from_str_radix 10 credential_epoch with
         | None => Err "malformed credential epoch"
         | Some epoch =>
           if epoch =? 0 then Err "credential epoch must be positive"
           else Ok (Some (instance, account, epoch))
         end
  | _, _, _ => Ok None
  end.

Definition placement_policy (f : BackendFields) : result string (Z * Z) :=
  match bf_placement_weight f, bf_placement_capacity_units f with
  | Some weight, Some capacity_units =>
    match from_str_radix 10 weight with
    | None => Err "malformed placement weight"
    | Some weight =>
      match from_str_radix 10 capacity_units with
      | None => Err "malformed placement capacity units"
      | Some capacity_units =>
        if (weight =? 0) || (capacity_units =? 0)
           || bool_decide (u64_checked_mul weight capacity_units = None)
        then Err R_PLACEMENT
        else Ok (weight, capacity_units)
      end
    end
  | _, _ => Ok (1, 1)
  end.

Section parser.
  Context `{UrlParser}.

Definition checked_endpoint (endpoint : list byte) : result string string :=
    match url_parse (str_of endpoint) with
    | None => Err "malformed endpoint"
    | Some url =>
      if (2048 <? Z.of_nat (length endpoint)) || negb (forallb graphic endpoint) || endpoint_refused url
      then Err "malformed endpoint"
      else match canonical_provider_endpoint (str_of endpoint) with
           | None => Err "malformed endpoint"
           | Some canonical => Ok canonical
           end
    end.

  (** One entry; the error is what follows its number. *)
Definition parse_definition (definition : list byte) : result string ServiceBackend :=
    let parts := split_on x7c definition in
    match backend_fields parts with
    | None => Err R_FIELDS
    | Some f =>
      if existsb (λ part, bool_decide (trim part = [])) parts then Err "fields must be non-empty"
      else if negb (valid_identifier (bf_provider f) 128) then Err "malformed provider"
      else
        identity ← explicit_identity f;
        policy ← placement_policy f;
        endpoint ← checked_endpoint (bf_endpoint f);
        if negb (valid_identifier (bf_region f) 128) then Err "malformed region"
        else if negb (valid_identifier (bf_bucket f) 255) then Err "malformed bucket"
        else if negb (valid_credential (bf_access_key f)) then Err "malformed access key"
        else if negb (valid_credential (bf_secret_key f)) then Err "malformed secret key"
        else Ok {| sb_provider := str_of (bf_provider f);
                   sb_provider_instance_id := (λ i, str_of i.1.1) <$> identity;
                   sb_provider_account_id := (λ i, str_of i.1.2) <$> identity;
                   sb_credential_epoch := snd <$> identity;
                   sb_placement_weight := policy.1; sb_placement_capacity_units := policy.2;
                   sb_endpoint := endpoint; sb_region := str_of (bf_region f);
                   sb_bucket := str_of (bf_bucket f); sb_access_key := str_of (bf_access_key f);
                   sb_secret_key := str_of (bf_secret_key f) |}
    end.

Definition entry_error (entry : nat) (reason : string) : string :=
    "invalid S4_SERVICE_BUCKETS entry " +:+ pretty entry +:+ ": " +:+ reason.

Fixpoint parse_definitions (entry : nat) (definitions : list (list byte)) : result string (list ServiceBackend) :=
    match definitions with
    | [] => Ok []
    | definition :: definitions =>
      b ← map_err (entry_error entry) (parse_definition definition);
      backends ← parse_definitions (S entry) definitions;
      Ok (b :: backends)
    end.

Definition parse_service_backends (env_value : list byte) : result string (list ServiceBackend) :=
    parse_definitions 1 (split_on x3b env_value).
End parser.

(** ** Objects without authority: [open], [delete], [head], [head_output] *)

(** [self.backends[index]] panics when there is no backend at all. *)
Inductive Panic : Type := OutOfBounds.

Section legacy.
  Context {P : Type} `{ServiceProvider P} (legacy_hash : string → Z) (st : ServiceStorage).
  Abbreviation L := (SE P Panic).

Definition backend_at (index : nat) : L ServiceBackend := se_lift (ok_or (st_backends st !! index) OutOfBounds).

  (** A call whose failure is only logged. *)
Definition logged {A} (m : SE P SdkError A) : L (option A) := λ p,
    let (r, p) := m p in (Ok (match r with Ok a => Some a | Err _ => None end), p).

  (** The primary, then the replica. *)
Definition first_answer {A} (ask : nat → L (option A)) (key : string) : L (option A) :=
    let '(primary, replica) := get_backend_ids legacy_hash st key in
    answer ← ask primary;
    match answer, replica with
    | Some answer, _ => mret (Some answer)
    | None, Some replica => ask replica
    | None, None => mret None
    end.

Definition legacy_open (key : string) (range : option string) : L (option ObjectOutput) :=
    first_answer (λ index, b ← backend_at index; logged (p_get_object b (sb_bucket b) key None range)) key.
Definition legacy_head_output (key : string) : L (option ObjectOutput) :=
    first_answer (λ index, b ← backend_at index; logged (p_head_object b (sb_bucket b) key None)) key.
Definition legacy_head (key : string) : L (option (Z * string)) :=
    first_answer (λ index,
      b ← backend_at index;
      output ← logged (p_head_object b (sb_bucket b) key None);
      mret ((λ output, (default 0 (u64_wrap <$> out_content_length output), default "" (out_e_tag output)))
              <$> output)) key.

Definition legacy_delete (key : string) : L unit :=
    let '(primary, replica) := get_backend_ids legacy_hash st key in
    b ← backend_at primary;
    logged (p_delete_object b (sb_bucket b) key None);;
    match replica with
    | Some replica =>
      b ← backend_at replica;
      logged (p_delete_object b (sb_bucket b) key None);;
      mret tt
    | None => mret tt
    end.

  (** Every node of the ring is a backend. *)
Lemma ring_insert_range n i b (ring : gmap Z nat) :
    (i < n)%nat → map_Forall (λ _ j, (j < n)%nat) ring → map_Forall (λ _ j, (j < n)%nat) (ring_insert legacy_hash i b ring).
Proof.
    intros Hi. unfold ring_insert. generalize (seq 0 LEGACY_VIRTUAL_NODES). intros vs. revert ring.
    induction vs as [|v vs IH]; intros ring Hr; cbn; [done|]. apply IH. by apply map_Forall_insert_2.
Qed.

Lemma ring_from_range n i bs ring :
    (i + length bs <= n)%nat → map_Forall (λ _ j, (j < n)%nat) ring →
    map_Forall (λ _ j, (j < n)%nat) (ring_from legacy_hash i bs ring).
Proof.
    revert i ring. induction bs as [|b bs IH]; intros i ring Hn Hr; cbn in *; [done|].
    apply IH; [lia|]. apply ring_insert_range; [lia|done].
Qed.

Lemma ring_nodes_range n ring node :
    map_Forall (λ _ j, (j < n)%nat) ring → node ∈ ring_nodes ring → (node.2 < n)%nat.
Proof.
    intros Hr Hn. unfold ring_nodes in Hn. rewrite (merge_sort_Permutation node_le) in Hn. destruct node as [h j].
    apply elem_of_map_to_list in Hn. by apply (Hr h j).
Qed.

Lemma ring_range_nodes h ring node : node ∈ ring_range h ring → node ∈ ring_nodes ring.
Proof. by intros [_ ?]%list_elem_of_filter. Qed.

Lemma get_backend_ids_range key primary replica :
    st_backends st ≠ [] → get_backend_ids legacy_hash st key = (primary, replica) →
    (primary < length (st_backends st))%nat
    ∧ ∀ r, replica = Some r → (r < length (st_backends st))%nat ∧ r ≠ primary.
Proof.
    intros Hne. unfold get_backend_ids. cbv zeta. set (ring := ring_from _ _ _ _).
    assert (Hring : ∀ node, node ∈ ring_nodes ring → (node.2 < length (st_backends st))%nat).
    { intros node. apply ring_nodes_range. apply ring_from_range; [done|]. apply map_Forall_empty. }
    intros [= <- <-]. split.
    - destruct (head (ring_range _ _)) as [node|] eqn:E1; cbn.
      { apply Hring. apply head_Some_elem_of in E1. by eapply ring_range_nodes. }
      destruct (head (ring_nodes ring)) as [node|] eqn:E2; cbn.
      { apply Hring. by apply head_Some_elem_of. }
      destruct (st_backends st); [done|]. cbn. lia.
    - intros r. destruct (_ <? _)%nat; [|done]. intros (node & Hf & ->)%fmap_Some.
      apply List.find_some in Hf as [Hin Hneq]. split.
      + apply Hring. apply list_elem_of_In, elem_of_app in Hin as [Hin|Hin]; [by eapply ring_range_nodes|done].
      + by apply negb_true_iff, Nat.eqb_neq in Hneq.
Qed.
End legacy.

(** ** Errors *)

(** Every text that can follow the number of an entry: none of them quotes the input. *)
Definition reasons : list string :=
  [R_FIELDS; "fields must be non-empty"; "malformed provider"; "malformed provider instance ID";
   "malformed provider account ID"; "malformed credential epoch"; "credential epoch must be positive";
   "malformed placement weight"; "malformed placement capacity units"; R_PLACEMENT; "malformed endpoint";
   "malformed region"; "malformed bucket"; "malformed access key"; "malformed secret key"].

Section parsed.
  Context `{UrlParser}.

Lemma explicit_identity_reason f r : explicit_identity f = Err r → r ∈ reasons.
Proof. unfold explicit_identity. repeat case_match; try done; intros [= <-]; unfold reasons; set_solver. Qed.
Lemma placement_policy_reason f r : placement_policy f = Err r → r ∈ reasons.
Proof. unfold placement_policy. repeat case_match; try done; intros [= <-]; unfold reasons; set_solver. Qed.
Lemma checked_endpoint_reason e r : checked_endpoint e = Err r → r ∈ reasons.
Proof. unfold checked_endpoint. repeat case_match; try done; intros [= <-]; unfold reasons; set_solver. Qed.

Lemma parse_definition_reason d r : parse_definition d = Err r → r ∈ reasons.
Proof.
    unfold parse_definition. cbv zeta. destruct (backend_fields _) as [f|]; [|intros [= <-]; unfold reasons; set_solver].
    do 2 (case_match; [intros [= <-]; unfold reasons; set_solver|]).
    destruct (explicit_identity f) eqn:E1; cbn; [|intros [= <-]; by eapply explicit_identity_reason].
    destruct (placement_policy f) eqn:E2; cbn; [|intros [= <-]; by eapply placement_policy_reason].
    destruct (checked_endpoint _) eqn:E3; cbn; [|intros [= <-]; by eapply checked_endpoint_reason].
    repeat case_match; try done; intros [= <-]; unfold reasons; set_solver.
Qed.

Lemma parse_definitions_error entry ds e :
    parse_definitions entry ds = Err e →
    ∃ pre d post reason, ds = pre ++ d :: post ∧ Forall (λ p, is_ok (parse_definition p) = true) pre
      ∧ parse_definition d = Err reason ∧ e = entry_error (entry + length pre) reason.
Proof.
    revert entry. induction ds as [|d ds IH]; intros entry; cbn; [done|].
    destruct (parse_definition d) as [b|reason] eqn:Ed; cbn.
    - destruct (parse_definitions (S entry) ds) as [bs|x] eqn:Eds; cbn; [done|]. intros [= ->].
      destruct (IH (S entry) Eds) as (pre & d' & post & reason & -> & Hp & Hd & ->).
      exists (d :: pre), d', post, reason. split; [done|]. split; [constructor; [by rewrite Ed|done]|]. split; [done|].
      cbn. by rewrite Nat.add_succ_r.
    - intros [= <-]. exists [], d, ds, reason. split_and!; try done. cbn. by rewrite Nat.add_0_r.
Qed.

(** A refused configuration is reported without its contents: the error
    names the first entry, counted from 1, that does not parse, and gives one
    of fifteen fixed reasons; all entries before it parse. *)
Theorem parse_error_quotes_nothing env e :
    parse_service_backends env = Err e →
    ∃ pre d post reason, split_on x3b env = pre ++ d :: post
      ∧ Forall (λ p, is_ok (parse_definition p) = true) pre
      ∧ parse_definition d = Err reason ∧ reason ∈ reasons
      ∧ e = entry_error (S (length pre)) reason.
Proof.
    intros (pre & d & post & reason & E & Hp & Hd & ->)%parse_definitions_error.
    exists pre, d, post, reason. split_and!; try done. by eapply parse_definition_reason.
Qed.

  (** ** What a parsed backend promises *)

Lemma radix_digits_u64 radix acc l n :
    0 <= radix → is_u64 acc → radix_digits radix acc l = Some n → is_u64 n.
Proof.
    intros Hr. revert acc. induction l as [|b l IH]; intros acc Ha; cbn; [by intros [= <-]|].
    destruct (to_digit_radix radix b) as [d|] eqn:Ed; cbn; [|done].
    assert (0 <= d).
    { unfold to_digit_radix, is_ascii_digit in Ed. repeat case_match; simplify_eq; lia. }
    destruct (_ <=? _) eqn:El; [|done]. apply IH. unfold is_u64 in *. nia.
Qed.

Lemma from_str_radix_u64 l n : from_str_radix 10 l = Some n → is_u64 n.
Proof.
    unfold from_str_radix. repeat case_match; try done; apply radix_digits_u64; done.
Qed.

  (** The identity is given as a whole, the weight is positive, and the endpoint is canonical. *)
Record parsed_ok (b : ServiceBackend) : Prop := {
    po_identity : match sb_provider_instance_id b, sb_provider_account_id b, sb_credential_epoch b with
      | Some _, Some _, Some epoch => 0 < epoch
      | None, None, None => True
      | _, _, _ => False
      end;
    po_weight : ∃ w, placement_weight b = Some w ∧ 0 < w;
    po_endpoint : ∃ e, canonical_provider_endpoint e = Some (sb_endpoint b);
  }.

Lemma explicit_identity_ok f i : explicit_identity f = Ok (Some i) → 0 < i.2.
Proof.
    unfold explicit_identity. repeat case_match; try done. intros [= <-]. cbn.
    match goal with E : from_str_radix _ _ = Some _ |- _ => apply from_str_radix_u64 in E end. unfold is_u64 in *. lia.
Qed.

Lemma placement_policy_ok f p : placement_policy f = Ok p → ∃ w, u64_checked_mul p.1 p.2 = Some w ∧ 0 < w.
Proof.
    unfold placement_policy. repeat case_match; try done; intros [= <-]; cbn; try (by exists 1).
    repeat match goal with E : from_str_radix _ _ = Some _ |- _ => apply from_str_radix_u64 in E end.
    repeat match goal with E : _ || _ = false |- _ => apply orb_false_iff in E as [? ?] end.
    match goal with E : bool_decide _ = false |- _ => apply bool_decide_eq_false in E end.
    unfold u64_checked_mul, is_u64 in *. case_match; [|done]. eexists. split; [done|]. nia.
Qed.

Lemma parse_definition_ok d b : parse_definition d = Ok b → parsed_ok b.
Proof.
    unfold parse_definition. cbv zeta. destruct (backend_fields _) as [f|]; [|done].
    do 2 (case_match; [done|]).
    destruct (explicit_identity f) as [identity|] eqn:E1; cbn; [|done].
    destruct (placement_policy f) as [policy|] eqn:E2; cbn; [|done].
    destruct (checked_endpoint _) as [endpoint|] eqn:E3; cbn; [|done].
    repeat (case_match; [done|]). intros [= <-]. split; cbn.
    - destruct identity as [i|]; [|done]. by apply explicit_identity_ok in E1.
    - unfold placement_weight. by apply placement_policy_ok in E2.
    - unfold checked_endpoint in E3. repeat case_match; simplify_eq. eauto.
Qed.

Lemma parse_definitions_ok entry ds bs :
    parse_definitions entry ds = Ok bs → Forall2 (λ d b, parse_definition d = Ok b) ds bs.
Proof.
    revert entry bs. induction ds as [|d ds IH]; intros entry bs; cbn; [by intros [= <-]|].
    destruct (parse_definition d) as [b|] eqn:Ed; cbn; [|done].
    destruct (parse_definitions _ ds) as [bs'|] eqn:Eds; cbn; [|done]. intros [= <-].
    constructor; [done|]. by eapply IH.
Qed.

Lemma parsed_backends env bs :
    parse_service_backends env = Ok bs → bs ≠ [] ∧ Forall parsed_ok bs.
Proof.
    intros Hp%parse_definitions_ok. split.
    - intros ->. apply Forall2_nil_inv_r in Hp. by apply split_on_nonempty in Hp.
    - clear -Hp. induction Hp as [|d b ds bs Hd _ IH]; constructor; [|done]. by eapply parse_definition_ok.
Qed.
End parsed.

(** ** Launching with a parsed configuration *)

(** What is used of [reqwest::Url]: a URL prints to a text that parses back to
    it, and setting the path gives a URL with everything else unchanged. *)
Class UrlLaws `{UrlParser} : Prop := {
  url_reparse s u : url_parse s = Some u → url_parse (url_to_string u) = Some u;
  url_set_path_parse s u p : url_parse s = Some u →
    url_parse (url_to_string (url_set_path p u)) = Some (url_set_path p u);
  url_set_path_refused u p : endpoint_refused (url_set_path p u) = endpoint_refused u;
}.

Section launch.
  Context `{UrlLaws}.

Lemma canonical_again e c : canonical_provider_endpoint e = Some c → is_Some (canonical_provider_endpoint c).
Proof.
    unfold canonical_provider_endpoint. intros (u & Hu & Hc)%bind_Some.
    destruct (endpoint_refused u) eqn:Hr; [done|]. injection Hc as <-.
    destruct (is_empty (url_path u)).
    - rewrite (url_set_path_parse _ _ "/" Hu). cbn. rewrite url_set_path_refused, Hr. by eexists.
    - rewrite (url_reparse _ _ Hu). cbn. rewrite Hr. by eexists.
Qed.

  (** What is left to check of a parsed backend. *)
Definition launchable (b : ServiceBackend) : Prop :=
    is_b2 b = true ∧ (url_scheme <$> url_parse (sb_endpoint b)) = Some "https" ∧ is_Some (sb_provider_instance_id b).

Lemma parsed_identity b : parsed_ok b → is_Some (sb_provider_instance_id b) → is_Some (storage_identity b).
Proof.
    intros [Hi _ (e & He)] [i Ei]. unfold storage_identity. rewrite Ei in Hi |- *. cbn.
    destruct (sb_provider_account_id b); [|done]. cbn.
    destruct (canonical_again _ _ He) as [c ->]. by eexists.
Qed.

Lemma validate_backend_parsed seen seen' b :
    parsed_ok b →
    validate_backend seen b = Ok seen' ↔ launchable b ∧ (service_id b ∉ seen) ∧ seen' = {[service_id b]} ∪ seen.
Proof.
    intros Hb. unfold validate_backend, launchable.
    destruct (is_b2 b); cbn [negb]; [|split; [done|by intros [(? & _) _]]].
    destruct (url_parse (sb_endpoint b)) as [u|]; cbn; [|split; [done|by intros [(_ & ? & _) _]]].
    case_bool_decide as Hs; cbn [negb]; [|split; [done|intros [(_ & Hx & _) _]; cbn in Hx; congruence]].
    rewrite Hs. case_match eqn:Hi.
    - split; [done|]. intros [(_ & _ & Hin) _]. exfalso. destruct (parsed_identity b Hb Hin) as [? Es].
      destruct Hin as [i Ei]. pose proof (po_identity b Hb) as Hid. rewrite Ei in Hid.
      destruct (sb_provider_account_id b), (sb_credential_epoch b); try done.
      rewrite Es, !bool_decide_eq_false_2 in Hi by done. cbn in Hi. apply negb_true_iff, Z.ltb_ge in Hi. lia.
    - destruct (po_weight b Hb) as (w & -> & Hw). rewrite (proj2 (Z.eqb_neq w 0)) by lia.
      assert (Hin : is_Some (sb_provider_instance_id b)).
      { apply orb_false_iff in Hi as [Hi _]. apply orb_false_iff in Hi as [Hi _]. apply bool_decide_eq_false in Hi.
        unfold storage_identity in Hi. destruct (sb_provider_instance_id b); [by eexists|done]. }
      destruct (decide _); [naive_solver|]. split; [intros [= <-]; done|]. by intros (_ & _ & ->).
Qed.

Lemma validate_backends_parsed seen bs :
    Forall parsed_ok bs →
    validate_backends seen bs = Ok tt ↔
    Forall launchable bs ∧ NoDup (service_id <$> bs) ∧ Forall (λ b, service_id b ∉ seen) bs.
Proof.
    intros Hp. revert seen. induction Hp as [|b bs Hb _ IH]; intros seen; cbn [validate_backends].
    { split; [|done]. intros _. split_and!; constructor. }
    rewrite result_bind_Ok. setoid_rewrite (validate_backend_parsed _ _ _ Hb). setoid_rewrite IH.
    rewrite fmap_cons, NoDup_cons, !Forall_cons. split.
    - intros (seen' & (Hl & Hn & ->) & Hls & Hnd & Hns). split_and!; try done.
      + rewrite list_elem_of_fmap. intros (c & Ec & Hc). rewrite Forall_forall in Hns. apply (Hns c Hc). set_solver.
      + eapply Forall_impl; [exact Hns|]. intros c Hc. set_solver.
    - intros ((Hl & Hls) & (Hnew & Hnd) & Hn & Hns). eexists. split; [by split_and!|]. split_and!; try done.
      apply Forall_forall. intros c Hc. rewrite Forall_forall in Hns. specialize (Hns c Hc).
      intros Hin. apply Hnew, list_elem_of_fmap. exists c. split; [set_solver|done].
Qed.

(** A parsed configuration is launched exactly when every backend is a B2
    backend with an HTTPS endpoint and an explicit identity and no two share
    an id; the other checks of the launch (the credential epoch, the storage
    identity, the weight, an empty list) cannot fail after the parser. *)
Theorem launch_validation_exact env backends st :
    parse_service_backends env = Ok backends → st_backends st = backends → st_managed_mode st = ModeEnforce →
    validate_managed_launch_configuration st = Ok tt ↔
    Forall launchable backends ∧ NoDup (service_id <$> backends).
Proof.
    intros (Hne & Hp)%parsed_backends <- Hm. unfold validate_managed_launch_configuration.
    rewrite Hm, !bool_decide_eq_true_2, (bool_decide_eq_false_2 (st_backends st = [])) by done. cbn [negb].
    rewrite validate_backends_parsed by done. split; [naive_solver|]. intros [? ?]. split_and!; try done.
    apply Forall_forall. set_solver.
Qed.
End launch.

(** ** Visible bytes *)

Definition visible (l : list byte) : Prop := l ≠ [] ∧ forallb graphic l = true.

Lemma identifier_graphic b : identifier_byte b = true → graphic b = true ∧ b ≠ x7c ∧ b ≠ x3b.
Proof. destruct b; vm_compute; intros H; try discriminate H; repeat split; discriminate. Qed.

Lemma digit_graphic b : is_ascii_digit b = true → graphic b = true ∧ b ≠ x7c ∧ b ≠ x3b.
Proof. destruct b; vm_compute; intros H; try discriminate H; repeat split; discriminate. Qed.

Lemma trim_visible l : visible l → trim l ≠ [].
Proof.
  intros [Hn Hg]. rewrite forallb_forall in Hg.
  destruct (head l) as [b|] eqn:Hh; [|by destruct l]. destruct (last l) as [c|] eqn:Hl; [|by apply last_None in Hl].
  rewrite (trim_graphic l b c); [done..| |]; apply Hg, list_elem_of_In;
    [by apply head_Some_elem_of|by apply last_Some_elem_of].
Qed.

(** ** Configurations that print and parse back *)

Definition printable_text (max : Z) (s : string) : Prop :=
  visible (bs s) ∧ (x7c ∉ bs s) ∧ (x3b ∉ bs s) ∧ Z.of_nat (length (bs s)) <= max.

Section roundtrip.
  Context `{UrlParser}.

  (** A managed backend as the eleven-field form describes it. *)
Record printable (b : ServiceBackend) (instance account : string) (epoch : Z) : Prop := {
    pr_provider : valid_identifier (bs (sb_provider b)) 128 = true;
    pr_identity : sb_provider_instance_id b = Some instance ∧ sb_provider_account_id b = Some account
                  ∧ sb_credential_epoch b = Some epoch;
    pr_instance : valid_identifier (bs instance) 128 = true;
    pr_account : valid_identifier (bs account) 256 = true;
    pr_epoch : is_u64 epoch ∧ epoch ≠ 0;
    pr_policy : 0 < sb_placement_weight b ∧ 0 < sb_placement_capacity_units b
                ∧ sb_placement_weight b * sb_placement_capacity_units b <= u64_max;
    pr_endpoint : printable_text 2048 (sb_endpoint b)
                  ∧ canonical_provider_endpoint (sb_endpoint b) = Some (sb_endpoint b);
    pr_region : valid_identifier (bs (sb_region b)) 128 = true;
    pr_bucket : valid_identifier (bs (sb_bucket b)) 255 = true;
    pr_access_key : printable_text 4096 (sb_access_key b);
    pr_secret_key : printable_text 4096 (sb_secret_key b);
  }.

Definition print_fields (b : ServiceBackend) : list (list byte) :=
    [bs (sb_provider b); bs (default "" (sb_provider_instance_id b)); bs (default "" (sb_provider_account_id b));
     show_u64 (default 0 (sb_credential_epoch b)); show_u64 (sb_placement_weight b);
     show_u64 (sb_placement_capacity_units b); bs (sb_endpoint b); bs (sb_region b); bs (sb_bucket b);
     bs (sb_access_key b); bs (sb_secret_key b)].
Definition print_backend (b : ServiceBackend) : list byte := RustStr.join [x7c] (print_fields b).
Definition print_service_backends (backends : list ServiceBackend) : list byte := RustStr.join [x3b] (print_backend <$> backends).

  (** What every field satisfies. *)
Definition clean (l : list byte) : Prop := visible l ∧ (x7c ∉ l) ∧ (x3b ∉ l).

Lemma forallb_clean (f : byte → bool) l :
    (∀ b, f b = true → graphic b = true ∧ b ≠ x7c ∧ b ≠ x3b) → l ≠ [] → forallb f l = true → clean l.
Proof.
    intros Hf Hn Hl. rewrite forallb_forall in Hl. split_and!.
    - split; [done|]. apply forallb_forall. intros b Hb. by apply Hf, Hl.
    - intros Hin%list_elem_of_In. by destruct (Hf x7c (Hl _ Hin)) as (_ & ? & _).
    - intros Hin%list_elem_of_In. by destruct (Hf x3b (Hl _ Hin)) as (_ & _ & ?).
Qed.

Lemma identifier_clean l max : valid_identifier l max = true → clean l.
Proof.
    unfold valid_identifier. rewrite !andb_true_iff. intros [[Hl _] Hf]. apply (forallb_clean identifier_byte); [|by intros ->|done].
    apply identifier_graphic.
Qed.
Lemma show_clean z : is_u64 z → clean (show_u64 z).
Proof. intros [Hd Hn]%show_u64_digits. apply (forallb_clean is_ascii_digit); [apply digit_graphic|done..]. Qed.
Lemma text_clean max s : printable_text max s → clean (bs s).
Proof. by intros (? & ? & ? & _). Qed.

Lemma print_fields_clean b i a e : printable b i a e → Forall clean (print_fields b).
Proof.
    intros Hb. destruct (pr_identity _ _ _ _ Hb) as (Ei & Ea & Ee).
    destruct (pr_policy _ _ _ _ Hb) as (Hw & Hc & Hwc).
    unfold print_fields. rewrite Ei, Ea, Ee. cbn [default from_option id].
    repeat (apply Forall_cons; split); [..|constructor];
      first [ eapply identifier_clean; eapply Hb | eapply text_clean; eapply Hb | apply show_clean ].
    - apply Hb.
    - split; nia.
    - split; nia.
Qed.

Lemma str_bs s : str_of (bs s) = s.
Proof. apply String.string_of_list_byte_of_string. Qed.

Lemma text_credential s : printable_text 4096 s → valid_credential (bs s) = true.
Proof. intros ((_ & Hg) & _ & _ & Hl). unfold valid_credential. rewrite Hg, andb_true_r. by apply Z.leb_le. Qed.

Lemma print_endpoint e :
    printable_text 2048 e → canonical_provider_endpoint e = Some e → checked_endpoint (bs e) = Ok e.
Proof.
    intros ((_ & Hg) & _ & _ & Hl) Hc. unfold checked_endpoint. rewrite str_bs, Hc, Hg.
    unfold canonical_provider_endpoint in Hc. apply bind_Some in Hc as (u & -> & Hu).
    destruct (endpoint_refused u); [done|]. by rewrite (proj2 (Z.ltb_ge _ _)).
Qed.

#[local] Arguments str_of : simpl never.
#[local] Arguments bs : simpl never.
Lemma print_backend_parses b i a e : printable b i a e → parse_definition (print_backend b) = Ok b.
Proof.
    intros Hb. pose proof (print_fields_clean _ _ _ _ Hb) as Hclean.
    assert (Es : split_on x7c (print_backend b) = print_fields b).
    { apply split_join; [done|]. eapply Forall_impl; [exact Hclean|]. by intros l (_ & ? & _). }
    assert (Ex : existsb (λ part, bool_decide (trim part = [])) (print_fields b) = false).
    { apply not_true_iff_false. intros (l & Hl%list_elem_of_In & Ht%bool_decide_eq_true)%existsb_exists.
      rewrite Forall_forall in Hclean. destruct (Hclean l Hl) as (Hv & _). by apply trim_visible in Hv. }
    unfold parse_definition. cbv zeta. rewrite Es, Ex. destruct (pr_identity _ _ _ _ Hb) as (Ei & Ea & Ee).
    unfold print_fields. rewrite Ei, Ea, Ee. cbn [default from_option id backend_fields bf_provider].
    rewrite (pr_provider _ _ _ _ Hb). cbn [negb].
    unfold explicit_identity, placement_policy. cbn [bf_instance bf_account bf_credential_epoch bf_placement_weight
      bf_placement_capacity_units bf_endpoint bf_region bf_bucket bf_access_key bf_secret_key].
    destruct (pr_epoch _ _ _ _ Hb) as [He Hne]. destruct (pr_policy _ _ _ _ Hb) as (Hw & Hc & Hwc).
    rewrite (pr_instance _ _ _ _ Hb), (pr_account _ _ _ _ Hb), (show_u64_parse e He). cbn [negb].
    rewrite (proj2 (Z.eqb_neq e 0) Hne). cbn [mbind result_bind].
    rewrite !show_u64_parse by (split; nia). rewrite !(proj2 (Z.eqb_neq _ 0)) by lia.
    unfold u64_checked_mul. rewrite (proj2 (Z.leb_le _ _) Hwc). cbn.
    destruct (pr_endpoint _ _ _ _ Hb) as [Ht Hcan]. rewrite (print_endpoint _ Ht Hcan). cbn.
    rewrite (pr_region _ _ _ _ Hb), (pr_bucket _ _ _ _ Hb), !text_credential by apply Hb. cbn.
    rewrite !str_bs. destruct b. simpl in Ei, Ea, Ee. subst. done.
Qed.

(** The configuration text round-trips: backends with a well-formed
    identity, policy, canonical endpoint and credentials, written one per entry
    in the eleven-field form, parse back to exactly those backends. *)
Theorem service_backends_roundtrip backends :
    backends ≠ [] → Forall (λ b, ∃ i a e, printable b i a e) backends →
    parse_service_backends (print_service_backends backends) = Ok backends.
Proof.
    intros Hn Hb. unfold parse_service_backends, print_service_backends. rewrite split_join.
    - clear Hn. generalize 1%nat. induction Hb as [|b backends (i & a & e & Hp) _ IH]; intros n; [done|].
      rewrite fmap_cons. cbn [parse_definitions]. rewrite (print_backend_parses _ _ _ _ Hp).
      cbn [map_err mbind result_bind]. by rewrite IH.
    - by destruct backends.
    - apply Forall_fmap. eapply Forall_impl; [exact Hb|]. intros b (i & a & e & Hp).
      change (x3b ∉ RustStr.join [x7c] (print_fields b)). pose proof (print_fields_clean _ _ _ _ Hp) as Hc. revert Hc. generalize (print_fields b).
      intros ps Hc. induction Hc as [|p ps (_ & _ & Hp3) _ IH]; [by intros ?%not_elem_of_nil|].
      destruct ps as [|q ps]; [done|]. change (RustStr.join [x7c] (p :: q :: ps)) with (p ++ [x7c] ++ RustStr.join [x7c] (q :: ps)).
      intros [?|[?|?]%elem_of_cons]%elem_of_app; done.
Qed.
End roundtrip.
