(* ===== verification/ServicePurge.v ===== *)
(** * Managed storage: deleting physical versions

    The operations of [service_storage.rs] that delete versions from the
    providers and take them out of the ledger: nothing leaves the ledger before
    the provider has denied that it exists, and polling a purge ends it. *)

From S2P Require Import Prelude Operation RustStr Integrity Managed ManagedRepo ManagedUsage ManagedOps ManagedPurge Placement ServiceStorage.

#[local] Open Scope Z_scope.
Set Default Goal Selector "!".

Section deletions.
  Context {P : Type} `{ServiceProvider P, Crypto, ManagedText, Outside, Penalty, UrlParser}.
  Context (st : ServiceStorage).
  Abbreviation W := (SvcWorld P).

  (** The log shows that the provider was asked to delete exactly this version,
      on the backend the ledger names, and then answered that it is not there. *)
Definition version_gone (log : list svc_event) (v : PhysicalVersionTarget) : Prop :=
    ∃ b pre post r error,
      log = pre ++ [SDelete b (vt_provider_bucket v) (vt_physical_key v) (vt_version_id v) r;
                    SHead b (vt_provider_bucket v) (vt_physical_key v) (vt_version_id v) (Err error)] ++ post
      ∧ service_missing error = true
      ∧ backend_for_id st (vt_backend_id v) = Some b
      ∧ matches_persisted_identity b (vt_storage_identity v) (vt_credential_epoch v) = true
      ∧ sb_bucket b = vt_provider_bucket v.

Lemma version_gone_app l l' v : version_gone l v → version_gone (l ++ l') v.
Proof.
    intros (b & pre & post & r & x & -> & Hr). exists b, pre, (post ++ l'), r, x.
    split; [|done]. by rewrite <- !app_assoc.
Qed.

  (** Deleting a version touches the provider only; when it succeeds, the log proves it. *)
Lemma wp_delete_and_verify v (Q : result string unit → W → Prop) w :
    (∀ r p evs, (r = Ok tt → version_gone evs v) →
       Q r (mkSvc (sw_repo w) p (sw_tick w) (sw_log w ++ evs))) →
    wp (delete_and_verify_purge_target st v) Q w.
Proof.
    intros HQ. assert (HE : ∀ x p, Q (Err x) (mkSvc (sw_repo w) p (sw_tick w) (sw_log w))).
    { intros x p. specialize (HQ (Err x) p []). rewrite app_nil_r in HQ. by apply HQ. }
    assert (HEw : ∀ x, Q (Err x) w) by (intros x; specialize (HE x (sw_provider w)); by destruct w).
    unfold delete_and_verify_purge_target. svc_step. svc_step.
    destruct (backend_for_id st (vt_backend_id v)) as [b|] eqn:Hb; cbn [ok_or]; [|done].
    destruct (matches_persisted_identity _ _ _) eqn:Hm; cbn [negb]; [|by svc_step].
    case_bool_decide as Hk; cbn [negb]; [|by svc_step].
    svc_step. unfold versioning_mode. svc_step. svc_step. apply wp_s3_call. intros vr p1. svc_step.
    cbn [option_list option_rect]. rewrite app_nil_r.
    destruct (purge_target_refused _ _ _ _) as [reason|]; [by svc_step|].
    svc_step. svc_step. apply wp_s3_call. intros dr p2. cbn [sw_repo sw_tick sw_log option_list option_rect].
    svc_step. apply wp_mono with (λ r w', w' = mkSvc (sw_repo w) p2 (sw_tick w)
      (sw_log w ++ [SDelete b (vt_provider_bucket v) (vt_physical_key v) (vt_version_id v) dr])).
    { destruct dr; [by svc_step|]. case_bool_decide; by svc_step. }
    intros [_|x] ? ->.
    2: { apply HQ. done. }
    svc_step. svc_step. apply wp_s3_call. intros hr p3. cbn [sw_repo sw_tick sw_log option_list option_rect].
    rewrite <- app_assoc. cbn [app].
    destruct hr as [o|x]; [svc_step; by apply HQ|].
    destruct (service_missing x) eqn:Hx; svc_step; apply HQ; [|done].
    intros _. exists b, [], [], dr, x. done.
Qed.

  (** The other requests of the system, for which the same holds. *)
Definition others_keep_ledger : Prop := ∀ n s v,
    v ∈ physical_versions s → v ∈ physical_versions (run_others (o_others n) s).

  (** From [w] to [w'], the ledger lost at most versions of which [T] holds and
      which the log proves to be gone. *)
Definition forgets_verified (T : PhysicalVersionTarget → Prop) (w w' : W) : Prop :=
    ∃ evs, sw_log w' = sw_log w ++ evs ∧
      ∀ v, v ∈ physical_versions (sw_repo w) →
           v ∈ physical_versions (sw_repo w') ∨ (T v ∧ version_gone evs v).

Lemma forgets_refl T w : forgets_verified T w w.
Proof. exists []. rewrite app_nil_r. split; [done|]. by left. Qed.

Lemma forgets_trans T w1 w2 w3 :
    forgets_verified T w1 w2 → forgets_verified T w2 w3 → forgets_verified T w1 w3.
Proof.
    intros (e1 & L1 & F1) (e2 & L2 & F2). exists (e1 ++ e2). rewrite L2, L1, app_assoc. split; [done|].
    intros v Hv. destruct (F1 v Hv) as [Hv2|[Ht Hg]].
    - destruct (F2 v Hv2) as [|[Ht (b & pre & post & r & x & -> & Hr)]]; [by left|]. right. split; [done|].
      exists b, (e1 ++ pre), post, r, x. by rewrite <- app_assoc.
    - right. split; [done|]. by apply version_gone_app.
Qed.

  (** A repository call of the operation that forgets at most [T] after the log proved it. *)
Lemma forgets_repo T (w : W) (s : MemoryState) p evs :
    others_keep_ledger →
    (∀ v, v ∈ physical_versions (found_repo w) → v ∈ physical_versions s ∨ (T v ∧ version_gone evs v)) →
    forgets_verified T w (mkSvc s p (S (sw_tick w)) (sw_log w ++ evs)).
Proof. intros Ho Hs. exists evs. split; [done|]. intros v Hv. by apply Hs, Ho. Qed.

Lemma finish_purge_versions e id s : physical_versions (finish_purge e id s).2 = physical_versions s.
Proof. unfold finish_purge. repeat case_match; done. Qed.

Lemma mark_deleted_versions r t s :
    physical_versions (mark_purge_target_deleted r t s).2 = filter (λ v, v ≠ t) (physical_versions s).
Proof. unfold mark_purge_target_deleted. cbv zeta. by case_match. Qed.

Lemma mark_deleted_ok r t s : (mark_purge_target_deleted r t s).1 = Ok tt.
Proof. unfold mark_purge_target_deleted. cbv zeta. by case_match. Qed.

Lemma purge_each_forgets request targets T (w : W) :
    others_keep_ledger → Forall T targets →
    wp (purge_each st request targets) (λ _, forgets_verified T w) w.
Proof.
    intros Ho. revert w. induction targets as [|t targets IH]; intros w HT; cbn [purge_each].
    { svc_step. apply forgets_refl. }
    inversion HT as [|? ? Ht HT']; subst. svc_step. svc_step. apply wp_delete_and_verify. intros r p evs Hr.
    set (w1 := mkSvc _ p _ _). svc_step.
    assert (Hnext : ∀ s, (∀ v, v ∈ physical_versions (found_repo w) →
        v ∈ physical_versions s ∨ (T v ∧ version_gone evs v)) →
      wp (purge_each st request targets) (λ _, forgets_verified T w) (mkSvc s p (S (sw_tick w)) (sw_log w ++ evs))).
    { intros s Hs. eapply wp_mono; [by apply IH|]. intros ? w2 F2. eapply forgets_trans; [|exact F2].
      by apply forgets_repo. }
    destruct r as [[]|reason]; svc_step; [rewrite mark_deleted_ok|cbn [fst mark_purge_target_blocked]];
      apply Hnext; intros v Hv.
    - rewrite mark_deleted_versions. destruct (decide (v = t)) as [->|]; [right; eauto|].
      left. by apply list_elem_of_filter.
    - by left.
Qed.

Lemma forget_versions e t s :
    physical_versions (forget_physical_version e t s).2 = filter (λ v, v ≠ t) (physical_versions s).
Proof. unfold forget_physical_version. cbv zeta. repeat case_match; done. Qed.

Lemma forget_each_forgets targets T (w : W) :
    others_keep_ledger → Forall T targets → wp (forget_each st targets) (λ _, forgets_verified T w) w.
Proof.
    intros Ho. revert w. induction targets as [|t targets IH]; intros w HT; cbn [forget_each].
    { svc_step. apply forgets_refl. }
    inversion HT as [|? ? Ht HT']; subst. svc_step. apply wp_delete_and_verify. intros r p evs Hr.
    destruct r as [[]|x].
    2: { exists evs. split; [done|]. by left. }
    svc_step. svc_step. svc_step.
    set (w1 := mkSvc (sw_repo w) p (sw_tick w) (sw_log w ++ evs)).
    assert (HF : forgets_verified T w (mkSvc
        (forget_physical_version (o_env (sw_tick w)) t (found_repo w)).2 p (S (sw_tick w)) (sw_log w ++ evs))).
    { apply forgets_repo; [done|]. intros v Hv. rewrite forget_versions.
      destruct (decide (v = t)) as [->|]; [right; eauto|left]. by apply list_elem_of_filter. }
    destruct (forget_physical_version _ t (found_repo w1)).1; cbn [map_err]; [|exact HF].
    eapply wp_mono; [by apply IH|]. intros ? w2 F2. by eapply forgets_trans.
Qed.

(** Nothing leaves the ledger unverified: whatever the provider answers and
    whatever other requests do that keep the ledger, a version that is gone from
    it after a purge was driven belonged to the purged tenant, and one that is
    gone after a cleanup was a version of the cleaned generation; in both cases
    the provider was asked to delete exactly that version on the backend the
    ledger recorded and answered afterwards that it does not exist. *)
Theorem ledger_forgets_only_verified (w : W) :
    others_keep_ledger →
    (∀ request, wp (drive_namespace_purge st request)
       (λ _, forgets_verified (λ v, vt_tenant_id v = pr_tenant_id request) w) w)
    ∧ (∀ repair, wp (delete_generation st repair)
         (λ _, forgets_verified (λ v, vt_backend_id v = rr_target_backend_id repair
                                      ∧ vt_physical_key v = rr_physical_key repair) w) w).
Proof.
    intros Ho. assert (Hcall : ∀ T s p, physical_versions s = physical_versions (found_repo w) →
      forgets_verified T w (mkSvc s p (S (sw_tick w)) (sw_log w))).
    { intros T s p E. rewrite <- (app_nil_r (sw_log w)). apply forgets_repo; [done|]. rewrite E. by left. }
    split.
    - intros request. unfold drive_namespace_purge. svc_step. svc_step.
      destruct (purge_targets request 64 (found_repo w)) as [r s] eqn:Hr. cbn [fst snd].
      unfold purge_targets in Hr. repeat case_match; simplify_eq; try (by apply Hcall).
      svc_step. eapply wp_mono; [apply (purge_each_forgets request _ (λ v, vt_tenant_id v = pr_tenant_id request)); [done|]|].
      { apply Forall_take, Forall_forall. by intros v [Hv _]%list_elem_of_filter. }
      intros r w1 F1. eapply forgets_trans in F1; [|by apply Hcall].
      destruct r; [|exact F1]. svc_step. eapply forgets_trans; [exact F1|].
      rewrite <- (app_nil_r (sw_log w1)). apply forgets_repo; [done|]. intros v Hv. left.
      unfold namespace_purge_status. pose proof (finish_purge_versions (o_env (sw_tick w1)) (pr_operation_id request)
        (found_repo w1)) as E. destruct (finish_purge _ _ _). cbn in *. by rewrite E.
    - intros repair. unfold delete_generation. svc_step. svc_step.
      destruct (backend_for_id _ _) as [b|]; cbn [ok_or]; [|apply forgets_refl].
      svc_step. svc_step. unfold authority_repository_required.
      destruct (st_authority st); svc_step; cbn [map_err]; [|apply forgets_refl].
      svc_step. svc_step. svc_step. unfold get. destruct (fenced _ _); cbn [fst snd map_err]; [by apply Hcall|].
      case_match; [svc_step; by apply Hcall|].
      svc_step. svc_step. svc_step. unfold physical_versions_of at 1. cbn [fst snd map_err].
      set (w1 := mkSvc _ _ (S _) _). assert (F1 : forgets_verified (λ v, vt_backend_id v = rr_target_backend_id repair
        ∧ vt_physical_key v = rr_physical_key repair) w (mkSvc (found_repo w1) (sw_provider w1) (S (sw_tick w1)) (sw_log w1))).
      { eapply forgets_trans; [by apply (Hcall _ (found_repo w) (sw_provider w))|].
        rewrite <- (app_nil_r (sw_log w1)). apply forgets_repo; [done|]. by left. }
      case_bool_decide; [svc_step; exact F1|].
      eapply wp_mono; [apply (forget_each_forgets _ (λ v, vt_backend_id v = rr_target_backend_id repair
        ∧ vt_physical_key v = rr_physical_key repair)); [done|]|].
      2: { intros ? w2 F2. eapply forgets_trans; [exact F1|exact F2]. }
      apply Forall_forall. intros v [(_ & ? & _ & ?) _]%list_elem_of_filter. done.
Qed.
End deletions.

(** ** Driving a purge comes to an end *)

Section converge.
  Context {P : Type} `{ServiceProvider P, Crypto, ManagedText, Outside, Penalty, UrlParser}.
  Context (st : ServiceStorage) (Hauthority : st_authority st = true)
          (Hmode : st_managed_mode st = ModeEnforce).
  Abbreviation W := (SvcWorld P).

  (** The version is on a backend that is configured as when it was written, and
      the provider does what it is asked: after the deletion it denies the version. *)
Definition deletable (v : PhysicalVersionTarget) : Prop :=
    ∃ b, backend_for_id st (vt_backend_id v) = Some b
      ∧ matches_persisted_identity b (vt_storage_identity v) (vt_credential_epoch v) = true
      ∧ sb_bucket b = vt_provider_bucket v
      ∧ (∀ p, purge_target_refused st b
                (versioning_answer (p_get_bucket_versioning b (sb_bucket b) p).1) v = None)
      ∧ ∀ p, ∃ p1 p2 error,
          p_delete_object b (vt_provider_bucket v) (vt_physical_key v) (vt_version_id v) p = (Ok tt, p1)
          ∧ p_head_object b (vt_provider_bucket v) (vt_physical_key v) (vt_version_id v) p1 = (Err error, p2)
          ∧ service_missing error = true.

  (** Other requests leave the purge [id] of [t] alone. *)
Definition others_leave (id : Uuid) (t : string) : Prop := ∀ n s,
    only_versions id t s →
    only_versions id t (run_others (o_others n) s)
    ∧ tenant_versions (run_others (o_others n) s) t = tenant_versions s t.

  (** Asking for the status until the purge is complete, at most [n] times. *)
Fixpoint poll (n : nat) (request : NamespacePurgeRequest) : SE W ManagedError NamespacePurgeStatus :=
    status ← service_purge_status st request;
    match n, status with
    | _, PurgeComplete _ | O, _ => mret status
    | S n, _ => poll n request
    end.

Lemma wp_deletable v (Q : result string unit → W → Prop) w :
    deletable v → (∀ p evs, Q (Ok tt) (mkSvc (sw_repo w) p (sw_tick w) (sw_log w ++ evs))) →
    wp (delete_and_verify_purge_target st v) Q w.
Proof.
    intros (b & Hb & Hm & Hk & Hv & Hd) HQ. unfold delete_and_verify_purge_target. svc_step. svc_step.
    rewrite Hb. cbn [ok_or]. rewrite Hm, bool_decide_eq_true_2 by done. cbn [negb].
    unfold versioning_mode. specialize (Hv (sw_provider w)).
    destruct (p_get_bucket_versioning b (sb_bucket b) (sw_provider w)) as [r p0] eqn:E0.
    destruct (Hd p0) as (p1 & p2 & x & E1 & E2 & Hx).
    svc_step. svc_step. svc_step. eapply wp_s3_run; [exact E0|]. svc_step. cbn [fst] in Hv. rewrite Hv.
    svc_step. svc_step. eapply wp_s3_run; [exact E1|]. svc_step. svc_step.
    svc_step. svc_step. eapply wp_s3_run; [exact E2|]. lazy beta match. rewrite Hx. svc_step.
    cbn [sw_repo sw_tick sw_log]. rewrite <- !app_assoc. apply HQ.
Qed.

  (** The purge after a number of deletions: the versions [vs] are gone. *)
Definition purged_by (id : Uuid) (t : string) (vs : list PhysicalVersionTarget) (s s' : MemoryState) : Prop :=
    only_versions id t s' ∧ tenant_versions s' t = filter (λ x, x ∉ vs) (tenant_versions s t).

Lemma purge_each_all id t vs (w : W) :
    others_leave id t → only_versions id t (sw_repo w) → Forall deletable vs →
    wp (purge_each st (mkPurgeRequest t id) vs)
       (λ r w', r = Ok tt ∧ purged_by id t vs (sw_repo w) (sw_repo w')) w.
Proof.
    intros Hout. revert w. induction vs as [|v vs IH]; intros w HO Hd; cbn [purge_each].
    { svc_step. split; [done|]. split; [done|]. symmetry. apply filter_everything. intros x _. apply not_elem_of_nil. }
    inversion Hd as [|? ? Hv Hvs]; subst. svc_step. svc_step. apply wp_deletable; [done|]. intros p evs.
    svc_step. svc_step. rewrite mark_deleted_ok.
    destruct (Hout (sw_tick w) (sw_repo w) HO) as [HO1 E1].
    destruct (mark_deleted_only id t v _ HO1) as [HO2 E2].
    eapply wp_mono; [apply IH; [exact HO2|done]|]. intros r w' [-> [HO3 E3]]. split; [done|]. split; [done|].
    rewrite E3. unfold found_repo, tenant_versions in *. cbn [sw_repo sw_tick]. rewrite E2, <- E1, !list_filter_filter.
    apply list_filter_iff. intros x. rewrite not_elem_of_cons. tauto.
Qed.

  (** What one status request does: it completes the purge, or leaves at most all but 64 versions. *)
Lemma status_progress id t (w : W) :
    others_leave id t → only_versions id t (sw_repo w) → Forall deletable (tenant_versions (sw_repo w) t) →
    wp (service_purge_status st (mkPurgeRequest t id)) (λ r w',
      (∃ m, r = Ok (PurgeComplete m) ∧ namespace_empty (sw_repo w') t)
      ∨ (∃ x, r = Ok x ∧ drives x = true) ∧ only_versions id t (sw_repo w')
        ∧ Forall deletable (tenant_versions (sw_repo w') t)
        ∧ (64 < length (tenant_versions (sw_repo w) t))%nat
        ∧ (length (tenant_versions (sw_repo w') t) <= length (tenant_versions (sw_repo w) t) - 64)%nat) w.
Proof.
    intros Hout HO Hd. unfold service_purge_status. rewrite Hauthority, bool_decide_eq_true_2 by done. cbn [negb].
    assert (Hask : ∀ (w : W), only_versions id t (sw_repo w) →
      ∃ x s, namespace_purge_status (o_env (sw_tick w)) (mkPurgeRequest t id) (found_repo w) = (Ok x, s)
        ∧ ((∃ m, x = PurgeComplete m ∧ namespace_empty s t)
           ∨ drives x = true ∧ only_versions id t s ∧ tenant_versions s t = tenant_versions (sw_repo w) t
             ∧ tenant_versions s t ≠ [])).
    { intros v HOv. destruct (Hout (sw_tick v) _ HOv) as [HO1 E1]. unfold namespace_purge_status, found_repo. cbn [pr_operation_id].
      destruct (decide (tenant_versions (sw_repo v) t = [])) as [Hn|Hn]; rewrite <- E1 in Hn.
      - destruct (finish_completes (o_env (sw_tick v)) id t _ HO1 Hn) as (m & s & -> & Hdone & _). eauto 10.
      - destruct (finish_waits (o_env (sw_tick v)) id t _ HO1 Hn) as (x & -> & Hx). eauto 10. }
    svc_step. svc_step. destruct (Hask w HO) as (x & s & -> & [(m & -> & He)|(Hx & HOs & Es & _)]); cbn [fst snd].
    { cbn [drives]. svc_step. left. eauto. }
    rewrite Hx. unfold drive_namespace_purge. svc_step. svc_step.
    set (w1 := mkSvc s _ (S _) _). destruct (Hout (sw_tick w1) (sw_repo w1) HOs) as [HO1 E1].
    fold (found_repo w1) in HO1, E1. change (tenant_versions (sw_repo w1) t) with (tenant_versions s t) in E1. unfold purge_targets. cbn [pr_operation_id pr_tenant_id].
    pose proof (ov_purge _ _ _ HO1) as (p & Hp & Ht & _). rewrite Hp, bool_decide_eq_true_2 by done.
    cbn [negb fst snd]. change (Z.to_nat 64) with 64%nat. fold (tenant_versions (found_repo w1) t).
    rewrite E1, Es. svc_step. eapply wp_mono.
    { apply (purge_each_all id t); [done|exact HO1|by apply Forall_take]. }
    intros r w2 [-> [HO2 E2]]. cbn [sw_repo] in E2. rewrite E1, Es in E2.
    svc_step. destruct (Hask w2 HO2) as (y & s2 & -> & [(m & -> & He)|(Hy & HOs2 & Es2 & Hne)]); cbn [fst snd].
    { left. eauto. }
    right. split; [eauto|]. split; [done|]. cbn [sw_repo]. rewrite Es2, E2 in *.
    pose proof (length_filter_take 64 (tenant_versions (sw_repo w) t)) as Hlen. split; [|split; [|done]].
    - apply Forall_forall. intros v [_ Hv]%list_elem_of_filter. by apply (proj1 (Forall_forall _ _) Hd).
    - destruct (filter _ _) as [|? ?]; [done|]. cbn in Hlen. lia.
Qed.

(** C26: Polling a purge brings it to its end: when no write, multipart activity or
    unsettled operation of the tenant is left, the providers delete what they
    are asked to and other requests leave the tenant alone, one status request
    per 64 versions completes the purge and leaves the namespace empty. *)
Theorem purge_converges n id t (w : W) :
    others_leave id t → only_versions id t (sw_repo w) → Forall deletable (tenant_versions (sw_repo w) t) →
    (length (tenant_versions (sw_repo w) t) <= 64 * S n)%nat →
    ∃ m w', poll n (mkPurgeRequest t id) w = (Ok (PurgeComplete m), w') ∧ namespace_empty (sw_repo w') t.
Proof.
    intros Hout. revert w. induction n as [|n IH]; intros w HO Hd Hlen; cbn [poll];
      pose proof (status_progress id t w Hout HO Hd) as Hs; unfold mbind, SE_bind; unfold wp in Hs;
      destruct (service_purge_status _ _ _) as [r w1];
      destruct Hs as [(m & -> & He)|((x & -> & Hx) & HO1 & Hd1 & Hl1 & Hl2)].
    1,3: by eexists _, _.
    - lia.
    - destruct x; try discriminate Hx; apply IH; [done|done|lia|done|done|lia].
Qed.
End converge.
