(* ===== verification/ServiceReads.v ===== *)
(** * Managed storage: reading authoritative objects

    [open_authoritative] and [head_authoritative] of [service_storage.rs]: they
    serve the recorded generation only, and they serve it as long as one of the
    locations the repository knows of has it. *)

From S2P Require Import Prelude Operation RustStr Integrity Managed ManagedRepo ManagedUsage Placement ServiceStorage.

#[local] Open Scope Z_scope.
Set Default Goal Selector "!".

Section reads.
  Context {P : Type} `{ServiceProvider P, Crypto, ManagedText, Outside, Penalty, UrlParser}.
  Context (st : ServiceStorage).
  Context (fetch : ServiceBackend → string → string → option string → SE P SdkError ObjectOutput).
  Abbreviation W := (SvcWorld P).

  (** ** Only the recorded generation *)

  (** An operation that leaves the result to [Q], whatever it does to the world. *)
Definition answers {E A} (m : SE W E A) (Q : A → Prop) : Prop := ∀ w, wp m (λ r _, ∀ x, r = Ok x → Q x) w.

Lemma answers_bind {E A B} (m : SE W E A) (k : A → SE W E B) (R : A → Prop) Q :
    answers m R → (∀ a, R a → answers (k a) Q) → answers (m ≫= k) Q.
Proof.
    intros Hm Hk w. apply wp_bind. eapply wp_mono; [apply Hm|]. intros [a|x] w' HR; [|by intros ? [=]].
    apply Hk. by apply HR.
Qed.
Lemma answers_ret {E A} (a : A) (Q : A → Prop) : Q a → answers (mret a : SE W E A) Q.
Proof. intros HQ w. apply wp_ret. by intros x [= <-]. Qed.
Lemma answers_any {E A} (m : SE W E A) : answers m (λ _, True).
Proof. intros w. unfold wp. by destruct (m w). Qed.

Lemma authoritative_from_valid ranged backend_id key a :
    answers (authoritative_from st fetch ranged backend_id key a) (λ o, ∀ output, o = Some output →
      metadata_matches (out_metadata output) (out_content_length output) a ranged = true).
Proof.
    unfold authoritative_from. destruct (backend_for_id st backend_id) as [b|]; [|by apply answers_ret].
    eapply answers_bind; [apply answers_any|]. intros r _. apply answers_ret. intros output.
    destruct r as [o|]; [|done]. destruct (metadata_matches _ _ a _) eqn:E; [|done]. by intros [= <-].
Qed.

Lemma read_migrated_valid (Q : ObjectOutput → Prop) from a backends :
    (∀ b, answers (from b) (λ o, ∀ output, o = Some output → Q output)) →
    answers (read_migrated st from a backends) (λ o, ∀ output, o = Some output → Q output).
Proof.
    intros Hf. induction backends as [|b backends IH]; cbn [read_migrated]; [by apply answers_ret|].
    eapply answers_bind; [apply Hf|]. intros [output|] Ho; [|exact IH].
    eapply answers_bind; [apply answers_any|]. intros _ _. apply answers_ret. by intros ? [= <-]; apply Ho.
Qed.

  (** What the answer says about the object. *)
Definition names_generation (ranged : bool) (a : ObjectAuthority) (output : ObjectOutput) : Prop :=
    ∃ metadata, out_metadata output = Some metadata
      ∧ metadata !! "s4-generation" = Some (uuid_display (oa_generation a))
      ∧ metadata !! "s4-sha256" = Some (oa_digest a)
      ∧ (ranged = false → out_content_length output = Some (oa_size a)).

Lemma metadata_matches_names ranged a output :
    metadata_matches (out_metadata output) (out_content_length output) a ranged = true →
    names_generation ranged a output.
Proof.
    unfold metadata_matches. destruct (out_metadata output) as [m|] eqn:Em; [|done].
    rewrite !andb_true_iff, !bool_decide_eq_true, orb_true_iff. intros [[[Hg Hd] _] Hl].
    exists m. split; [done|]. split; [done|]. split; [done|].
    intros ->. destruct Hl as [|Hl%bool_decide_eq_true]; [done|].
    destruct (out_content_length output) as [z|]; [|done]. cbn in Hl. unfold u64_try_from in Hl.
    by case_match.
Qed.

(** C17: A read serves the recorded object and nothing else: whatever the
    providers hold and answer, and whatever other requests do meanwhile, an
    answer names the generation, the digest and (unless a range was asked for)
    the length of the authority that the repository held for the key when the
    read looked it up, and that authority was not a deletion. *)
Theorem read_serves_recorded ranged logical (w w' : W) output :
    read_authoritative st fetch ranged logical w = (Ok (Some output), w') →
    ∃ a, authorities (found_repo w) !! logical = Some a ∧ oa_tombstone a = false
         ∧ fenced (found_repo w) (lk_tenant_id logical) = false
         ∧ names_generation ranged a output.
Proof.
    intros Hr.
    enough (wp (read_authoritative st fetch ranged logical) (λ r _, ∀ output, r = Ok (Some output) →
      ∃ a, authorities (found_repo w) !! logical = Some a ∧ oa_tombstone a = false
         ∧ fenced (found_repo w) (lk_tenant_id logical) = false ∧ names_generation ranged a output) w) as Hwp.
    { unfold wp in Hwp. rewrite Hr in Hwp. by apply Hwp. }
    clear Hr. unfold read_authoritative. svc_step. unfold authority_repository_required.
    destruct (st_authority st); svc_step; [|by intros ? [=]]. svc_step. svc_step. unfold get.
    destruct (fenced _ _) eqn:Hf; cbn [fst snd]; [by intros ? [=]|].
    destruct (authorities (found_repo w) !! logical) as [a|] eqn:Ha; [|svc_step; by intros ? [=]].
    destruct (oa_tombstone a) eqn:Ht; [svc_step; by intros ? [=]|].
    set (Q := λ o : option ObjectOutput, ∀ output, o = Some output → names_generation ranged a output).
    apply wp_mono with (λ r _, ∀ x, r = Ok x → Q x).
    2: { intros r w1 HQ x ->. exists a. repeat (split; [done|]). by apply (HQ (Some x)). }
    assert (Hfrom : ∀ b, answers (authoritative_from st fetch ranged b (generation_physical_key logical (oa_generation a)) a) Q).
    { intros b w1. eapply wp_mono; [apply authoritative_from_valid|]. intros r w2 HQ o -> x ->.
      eapply metadata_matches_names, HQ; done. }
    refine (answers_bind _ _ Q Q _ _ _); [apply Hfrom|]. intros [o|] Ho.
    { eapply answers_bind; [apply answers_any|]. intros _ _. by apply answers_ret. }
    refine (answers_bind _ _ Q Q _ _); [|intros second Hsecond].
    { destruct (oa_replica_backend_id a); [|by apply answers_ret].
      destruct (decide _); [apply Hfrom|by apply answers_ret]. }
    assert (Hrest : answers (match svc_placement st logical with
      | Some current => if pl_version current =? oa_placement_version a then mret None
                        else read_migrated st (λ b, authoritative_from st fetch ranged b
                               (generation_physical_key logical (oa_generation a)) a) a
                               (pl_primary_backend_id current :: option_list (pl_replica_backend_id current))
      | None => mret None end : SE W ManagedError (option ObjectOutput)) Q).
    { destruct (svc_placement st logical) as [current|]; [|by apply answers_ret].
      destruct (_ =? _); [by apply answers_ret|]. apply read_migrated_valid. exact Hfrom. }
    destruct second as [o|], (oa_replica_backend_id a) as [replica|]; try exact Hrest.
    eapply answers_bind; [apply answers_any|]. intros _ _. by apply answers_ret.
Qed.

  (** ** A copy that is there is found *)

  (** Other requests neither change the object nor fence its tenant. *)
Definition others_leave_object (logical : LogicalObjectKey) : Prop := ∀ n s,
    authorities (run_others (o_others n) s) !! logical = authorities s !! logical
    ∧ fenced (run_others (o_others n) s) (lk_tenant_id logical) = fenced s (lk_tenant_id logical).

  (** The locations a read tries, in this order. *)
Definition locations (a : ObjectAuthority) : list string :=
    oa_primary_backend_id a
    :: match oa_replica_backend_id a with
       | Some replica => if decide (oa_replica_status a = Ready) then [replica] else []
       | None => []
       end
    ++ match svc_placement st (oa_logical a) with
       | Some current =>
         if pl_version current =? oa_placement_version a then []
         else pl_primary_backend_id current :: option_list (pl_replica_backend_id current)
       | None => []
       end.

  (** The provider holds the recorded generation at a location and hands it out. *)
Definition holds_copy (ranged : bool) (a : ObjectAuthority) (backend_id : string) : Prop :=
    ∃ b, backend_for_id st backend_id = Some b ∧
      ∀ p, ∃ output p', fetch b (sb_bucket b) (generation_physical_key (oa_logical a) (oa_generation a))
             (if decide (backend_id = oa_primary_backend_id a) then oa_primary_version_id a else None) p
             = (Ok output, p')
           ∧ metadata_matches (out_metadata output) (out_content_length output) a ranged = true.

Context (a : ObjectAuthority) (ranged : bool).
Abbreviation from := (λ backend_id,
    authoritative_from st fetch ranged backend_id (generation_physical_key (oa_logical a) (oa_generation a)) a).

  (** The repository holds [a] and admits calls of its tenant. *)
Definition steady (s : MemoryState) : Prop :=
    authorities s !! oa_logical a = Some a ∧ fenced s (lk_tenant_id (oa_logical a)) = false.

Lemma steady_found (w : W) : others_leave_object (oa_logical a) → steady (sw_repo w) → steady (found_repo w).
Proof. intros Ho [H1' H2']. unfold steady, found_repo. by destruct (Ho (sw_tick w) (sw_repo w)) as [-> ->]. Qed.

Lemma enqueue_steady e r s :
    steady s → rr_logical r = oa_logical a → rr_generation r = oa_generation a →
    rr_authority_cas_version r = oa_cas_version a → rr_kind r ≠ KDeleteGeneration →
    (enqueue e r s).1 = Ok tt ∧ steady (enqueue e r s).2.
Proof.
    intros [Ha Hf] E1 E2 E3 E4. unfold enqueue, steady. rewrite E1, Hf. cbv zeta.
    rewrite decide_False by done. cbn [authorities enter_namespace upd_namespace_epochs]. rewrite Ha.
    rewrite bool_decide_eq_true_2 by done. rewrite E3, Z.eqb_refl. cbn [negb orb fst snd].
    unfold insert_memory_repair. repeat case_match; done.
Qed.

Lemma wp_enqueue_steady f (Q : result ManagedError unit → W → Prop) w :
    others_leave_object (oa_logical a) → steady (sw_repo w) →
    (∀ e, rr_logical (f e) = oa_logical a ∧ rr_generation (f e) = oa_generation a
          ∧ rr_authority_cas_version (f e) = oa_cas_version a ∧ rr_kind (f e) ≠ KDeleteGeneration) →
    (∀ w', steady (sw_repo w') → Q (Ok tt) w') → wp (repo_call (λ e, enqueue e (f e))) Q w.
Proof.
    intros Ho Hs Hf HQ. svc_step. destruct (Hf (o_env (sw_tick w))) as (E1 & E2 & E3 & E4).
    destruct (enqueue_steady (o_env (sw_tick w)) (f (o_env (sw_tick w))) (found_repo w)) as [-> Hs'];
      [by apply steady_found|done..|]. by apply HQ.
Qed.

Lemma wp_read_repairs source failed (Q : result ManagedError unit → W → Prop) w :
    st_authority st = true → others_leave_object (oa_logical a) → steady (sw_repo w) →
    (∀ w', steady (sw_repo w') → Q (Ok tt) w') → wp (enqueue_read_repairs st a source failed) Q w.
Proof.
    intros Hst Ho Hs HQ. unfold enqueue_read_repairs, authority_repository_required, enqueue_copy, enqueue_placement.
    rewrite Hst. svc_step. svc_step. svc_step.
    apply wp_mono with (λ r w', r = Ok tt ∧ steady (sw_repo w')).
    { destruct (failed && _); [apply wp_enqueue_steady|svc_step]; done. }
    intros ? w1 [-> Hs1]. destruct (svc_placement st (oa_logical a)) as [current|]; [|svc_step; by apply HQ].
    destruct (_ =? _); [svc_step; by apply HQ|]. svc_step.
    apply wp_mono with (λ r w', r = Ok tt ∧ steady (sw_repo w')).
    { case_bool_decide; cbn [negb]; [svc_step|apply wp_enqueue_steady]; done. }
    intros ? w2 [-> Hs2]. destruct (pl_replica_backend_id current); [|svc_step; by apply HQ].
    case_bool_decide; cbn [negb]; [svc_step; by apply HQ|]. by apply wp_enqueue_steady.
Qed.

  (** A location is left behind only if it does not hold the copy. *)
Lemma wp_from backend_id (Q : result ManagedError (option ObjectOutput) → W → Prop) w :
    steady (sw_repo w) →
    (∀ o w', steady (sw_repo w') → (o = None → ¬ holds_copy ranged a backend_id) → Q (Ok o) w') →
    wp (from backend_id) Q w.
Proof.
    intros Hs HQ. unfold authoritative_from. destruct (backend_for_id st backend_id) as [b|] eqn:Hb.
    2: { svc_step. apply HQ; [done|]. intros _ (b & Hb' & _). congruence. }
    cbv zeta. svc_step. svc_step.
    destruct (fetch b (sb_bucket b) (generation_physical_key (oa_logical a) (oa_generation a))
      (if decide (backend_id = oa_primary_backend_id a) then oa_primary_version_id a else None) (sw_provider w))
      as [r p] eqn:Ef.
    eapply wp_s3_run; [exact Ef|]. svc_step. apply HQ; [done|]. intros Hn (b' & Hb' & Hc).
    rewrite Hb in Hb'. injection Hb' as <-. destruct (Hc (sw_provider w)) as (output & p' & Ef' & Hm).
    rewrite Ef in Ef'. injection Ef' as -> ->. by rewrite Hm in Hn.
Qed.

Definition served (r : result ManagedError (option ObjectOutput)) : Prop := ∃ output, r = Ok (Some output).

Lemma wp_serve source failed output (w : W) :
    st_authority st = true → others_leave_object (oa_logical a) → steady (sw_repo w) →
    wp (enqueue_read_repairs st a source failed ≫= λ _, mret (Some output)) (λ r _, served r) w.
Proof. intros Hst Ho Hs. svc_step. apply wp_read_repairs; [done..|]. intros w' _. svc_step. by exists output. Qed.

Lemma wp_read_migrated backends (w : W) :
    st_authority st = true → others_leave_object (oa_logical a) → steady (sw_repo w) →
    Exists (holds_copy ranged a) backends →
    wp (read_migrated st from a backends) (λ r _, served r) w.
Proof.
    intros Hst Ho. revert w. induction backends as [|b backends IH]; intros w Hs Hc; [by inversion Hc|].
    cbn [read_migrated]. svc_step. apply wp_from; [done|]. intros [output|] w1 Hs1 Hn; [by apply wp_serve|].
    apply IH; [done|]. inversion Hc; [|done]. by destruct (Hn eq_refl).
Qed.

(** C21: A read finds the object: while other requests leave the object and the
    fence of its tenant alone, a live object of a tenant that is not fenced is
    served if any location the repository knows of holds its recorded generation: the primary, the replica once it is ready, and during
    a migration the backends of the current placement. *)
Theorem read_finds_copy (w : W) :
    st_authority st = true → others_leave_object (oa_logical a) →
    steady (sw_repo w) → oa_tombstone a = false →
    Exists (holds_copy ranged a) (locations a) →
    ∃ output w', read_authoritative st fetch ranged (oa_logical a) w = (Ok (Some output), w').
Proof.
    intros Hst Ho Hs Ht Hc.
    enough (wp (read_authoritative st fetch ranged (oa_logical a)) (λ r _, served r) w) as Hwp.
    { unfold wp in Hwp. destruct (read_authoritative _ _ _ _ _) as [r w']. destruct Hwp as [output ->]. eauto. }
    unfold read_authoritative, authority_repository_required. rewrite Hst. svc_step. svc_step. svc_step. svc_step.
    unfold get. destruct (steady_found w Ho Hs) as [Ha Hf]. rewrite Hf. cbn [fst snd]. rewrite Ha, Ht.
    cbv zeta. svc_step. apply wp_from; [by apply steady_found|].
    intros [output|] w1 Hs1 Hn1; [by apply wp_serve|]. svc_step.
    unfold locations in Hc. inversion Hc as [|? ? Hc']; subst; [by destruct (Hn1 eq_refl)|]. clear Hc.
    set (rest := match svc_placement st (oa_logical a) with Some _ => _ | None => [] end) in Hc'.
    assert (Hrest : ∀ w : W, steady (sw_repo w) → Exists (holds_copy ranged a) rest →
      wp (match svc_placement st (oa_logical a) with
          | Some current => if pl_version current =? oa_placement_version a then mret None
                            else read_migrated st from a
                                   (pl_primary_backend_id current :: option_list (pl_replica_backend_id current))
          | None => mret None end) (λ r _, served r) w).
    { unfold rest. intros v Hv Hr. destruct (svc_placement st (oa_logical a)) as [current|]; [|by inversion Hr].
      destruct (_ =? _); [by inversion Hr|]. by apply wp_read_migrated. }
    destruct (oa_replica_backend_id a) as [replica|]; [|svc_step; by apply Hrest].
    destruct (decide (oa_replica_status a = Ready)); [|svc_step; by apply Hrest].
    apply wp_from; [done|]. intros [output|] w2 Hs2 Hn2; [by apply wp_serve|].
    apply Hrest; [done|]. inversion Hc'; [|done]. by destruct (Hn2 eq_refl).
Qed.
End reads.
