(* ===== verification/ManagedSink.v ===== *)
(** * Managed storage: writing an object

    The sinks of [crates/gateway/src/service_storage.rs]: [ManagedDirectSink]
    (a [DirectS3Sink] whose physical write is leased and ledgered in the managed
    repository), [ManagedReplicatedSink] (which publishes the authority) and
    [ManagedLogicalSink] (which records the usage evidence of the logical
    operation), and the functions that start them.

    [begin_authoritative_sink_for_operation], the only function that builds a
    replicated sink, gives it no second destination, so the branches for one
    are left out; a replica is made later by a repair.  The background tasks
    (heartbeats of leases, cleanup after a dropped sink) are other requests in
    the sense of [Outside]. *)

From S2P Require Import Prelude Operation Journal MemJournal Transaction Reconciler DirectSink.
From S2P Require Import RustStr Integrity Managed ManagedRepo ManagedUsage ManagedPurge Placement ServiceStorage.

#[local] Open Scope Z_scope.
Set Default Goal Selector "!".

(** ** Text of transaction errors *)

Definition journal_error_display `{ManagedText} (e : JournalError) : string :=
  match e with
  | NotFound id => "operation " +:+ uuid_display id +:+ " was not found"
  | Operation.Conflict m => "operation journal conflict: " +:+ m
  | Operation.Corrupt m => "operation journal contains corrupt data: " +:+ m
  | Operation.Persistence m => "operation journal persistence failed: " +:+ m
  end.
Definition capability_error_display (e : CapabilityError) : string :=
  match e with
  | MissingIncompleteUploadDiscovery => "backend cannot discover incomplete multipart uploads"
  | MissingIncompleteUploadAbort => "backend cannot abort discovered multipart uploads"
  | MissingCompletionReconciliation => "backend cannot reconcile ambiguous completion"
  | CleanupSlaExceeded => "backend cannot guarantee reconciliation within five minutes"
  end.
Definition backend_error_display (e : BackendError) : string :=
  "destination backend " +:+ debug_kind (be_kind e) +:+ " failure: " +:+ be_message e.
Definition transaction_error_display `{ManagedText} (e : TransactionError) : string :=
  match e with
  | TJournal e => journal_error_display e
  | TBackend e => backend_error_display e
  | TCapability e => capability_error_display e
  | TFinished => "transaction is already finished"
  | TCompletionAmbiguous => "completion outcome is ambiguous and must be reconciled"
  | TTooManyParts => "transaction part number limit exceeded"
  | TSpool m => "transaction spool failed: " +:+ m
  | TOutputMismatch => "transaction output does not match the validated digest or size"
  | TCapacityExceeded => "transaction destination capacity or object limit exceeded"
  | TPublication m => "managed authority publication failed: " +:+ m
  end.

(** The [?] after [.map_err(|error| TransactionError::Publication(error.to_string()))]. *)
Definition publication (e : ManagedError) : TransactionError := TPublication (managed_error_display e).

(** ** The sinks *)

Inductive ManagedChildIdentity : Type :=
| Supplied (scope : ManagedOperationScope)
| DeterministicChild (parent : Uuid) (role : ManagedChildRole).

(** The fields beside the [DirectS3Sink], the journal and the repository. *)
Record ManagedDirectSink := mkDirect {
  md_operation_id : Uuid;
  md_lease : PhysicalWriteLease;
}.

Record ManagedReplicatedSink := mkReplicated {
  mr_logical : LogicalObjectKey;
  mr_generation : Uuid;
  mr_placement : Placement;
  mr_logical_operation_id : option Uuid;
  mr_expected_cas : option Z;
  mr_metadata : gmap string string;
  mr_primary : ManagedDirectSink;
  mr_output : option (Z * string);
  mr_finished : bool;
}.
Definition set_mr_output v (r : ManagedReplicatedSink) : ManagedReplicatedSink :=
  mkReplicated (mr_logical r) (mr_generation r) (mr_placement r) (mr_logical_operation_id r)
    (mr_expected_cas r) (mr_metadata r) (mr_primary r) v (mr_finished r).
Definition set_mr_finished v (r : ManagedReplicatedSink) : ManagedReplicatedSink :=
  mkReplicated (mr_logical r) (mr_generation r) (mr_placement r) (mr_logical_operation_id r)
    (mr_expected_cas r) (mr_metadata r) (mr_primary r) (mr_output r) v.

Record ManagedLogicalSink := mkLogical {
  ml_inner : ManagedReplicatedSink;
  ml_operation_id : Uuid;
  ml_expected_output_size : option Z;
  ml_expected_output_digest : option string;
  ml_usage_recorded : bool;
  ml_committed : bool;
}.
Definition set_ml_inner v (r : ManagedLogicalSink) : ManagedLogicalSink :=
  mkLogical v (ml_operation_id r) (ml_expected_output_size r) (ml_expected_output_digest r)
    (ml_usage_recorded r) (ml_committed r).
Definition set_ml_expected size digest (r : ManagedLogicalSink) : ManagedLogicalSink :=
  mkLogical (ml_inner r) (ml_operation_id r) (Some size) (Some digest) (ml_usage_recorded r) (ml_committed r).
Definition set_ml_usage_recorded v (r : ManagedLogicalSink) : ManagedLogicalSink :=
  mkLogical (ml_inner r) (ml_operation_id r) (ml_expected_output_size r) (ml_expected_output_digest r)
    v (ml_committed r).
Definition set_ml_committed v (r : ManagedLogicalSink) : ManagedLogicalSink :=
  mkLogical (ml_inner r) (ml_operation_id r) (ml_expected_output_size r) (ml_expected_output_digest r)
    (ml_usage_recorded r) v.

(** What a sink reads of a [UsageEvent]. *)
Record UsageEvent := mkUsageEvent {
  ev_route : UsageRoute;
  ev_kind : RequestKind;
  ev_bucket : string;
  ev_source_bytes : Z;
  ev_processed_bytes : Z;
  ev_pipeline_evidence : Json;
}.

Definition replicated_commit_state (r : ManagedReplicatedSink) : SinkCommitState :=
  if mr_finished r then SinkCommitted
  else match mr_output r with Some _ => SinkCommitUnknown | None => PreCommit end.
Definition logical_commit_state (r : ManagedLogicalSink) : SinkCommitState :=
  if ml_committed r then SinkCommitted
  else if ml_usage_recorded r then SinkCommitUnknown else PreCommit.

(** ** The world of a managed sink: the service, the direct sink below, and [X], the sink itself *)

Section world.
  Context {P J B X : Type} `{OperationJournal J, TransactionBackend B}.

Record MW := mkMW {
    mw_svc : SvcWorld P;
    mw_tx : World Sink J B;
    mw_me : X;
  }.

Definition on_svc {E A} (m : SE (SvcWorld P) E A) : SE MW E A := λ w,
    let (r, v) := m (mw_svc w) in (r, mkMW v (mw_tx w) (mw_me w)).
Definition on_sink {A} (m : M Sink J B A) : SE MW TransactionError A := λ w,
    let (r, v) := m (mw_tx w) in (r, mkMW (mw_svc w) v (mw_me w)).
Definition mw_get : SE MW TransactionError X := λ w, (Ok (mw_me w), w).
Definition mw_modify (f : X → X) : SE MW TransactionError unit := λ w,
    (Ok tt, mkMW (mw_svc w) (mw_tx w) (f (mw_me w))).
  (** [match fallible.await { .. }] and [let _ = fallible.await]. *)
Definition mw_try {E F A} (m : SE MW E A) : SE MW F (result E A) := λ w, let (r, v) := m w in (Ok r, v).
End world.
Arguments MW : clear implicits.

(** A method of the sink inside another one. *)
Definition on_inner {P J B X Y A} (get : X → Y) (put : Y → X → X)
    (m : SE (MW P J B Y) TransactionError A) : SE (MW P J B X) TransactionError A := λ w,
  let (r, v) := m (mkMW (mw_svc w) (mw_tx w) (get (mw_me w))) in
  (r, mkMW (mw_svc v) (mw_tx v) (put (mw_me v) (mw_me w))).

Section sinks.
  Context {P J B : Type} `{ServiceProvider P, OperationJournal J, TransactionBackend B}.
  Context `{Crypto, ManagedText, Outside, Penalty, UrlParser}.
  Context (sha256_hex : list byte → string) (part_bytes : nat).

  (** ** [ManagedDirectSink] *)

Section direct.
    Context {X : Type} (d : ManagedDirectSink).
    Abbreviation MX := (SE (MW P J B X) TransactionError).

Definition repo {A} (f : Env → SE MemoryState ManagedError A) : MX A :=
      on_svc (se_map_err publication (repo_call f)).

    (** The lease is renewed before every call on the sink. *)
Definition renew_lease : MX unit :=
      repo (λ e, renew_physical_write_intent e (md_lease d)
                   (i64_saturating_add (env_now e) PHYSICAL_WRITE_LEASE_MS)).

Definition journal_get (id : Uuid) : MX (option OperationRecord) :=
      on_sink (from_journal (journal_call (λ _, j_get id))).

Definition settle_managed_intent_from_journal (operation : OperationRecord) : MX unit :=
      match op_state operation with
      | ProvenAborted => repo (λ e, abort_physical_write e (md_lease d))
      | Committed =>
        match op_committed operation with
        | None =>
          let reason := "committed managed operation has no provider result metadata" in
          repo (λ e, block_physical_write e (md_lease d) reason);;
          se_throw (TPublication reason)
        | Some stored =>
          if negb (version_history_complete stored) then
            let reason := "committed managed operation has ambiguous provider version history" in
            repo (λ e, block_physical_write e (md_lease d) reason);;
            se_throw TCompletionAmbiguous
          else repo (λ e, commit_physical_write e (md_lease d) (superseded_version_ids stored) (version_id stored))
        end
      | state =>
        repo (λ e, block_physical_write e (md_lease d)
                     ("managed operation remains unresolved in journal state " +:+ as_str state));;
        se_throw TCompletionAmbiguous
      end.

Definition direct_write (chunk : list byte) : MX unit :=
      renew_lease;; on_sink (DirectSink.write sha256_hex part_bytes chunk).

Definition direct_verify_output (expected_size : Z) (expected_sha256 : string) : MX unit :=
      renew_lease;; on_sink (DirectSink.verify_output sha256_hex expected_size expected_sha256).

Definition complete_reconciled : MX StoredObjectMeta :=
      r ← mw_try (on_sink (DirectSink.complete sha256_hex));
      match r with
      | Ok stored => mret stored
      | Err original =>
        found ← journal_get (md_operation_id d);
        operation ← se_lift (ok_or found (TPublication "managed operation disappeared"));
        if decide (op_state operation = Committed)
        then se_lift (ok_or (op_committed operation)
               (TPublication "committed managed operation has no result metadata"))
        else se_throw original
      end.

Definition direct_complete : MX StoredObjectMeta :=
      renew_lease;;
      r ← mw_try complete_reconciled;
      match r with
      | Err error =>
        let reason := "provider completion did not prove exact version history: "
                        +:+ transaction_error_display error in
        on_svc (se_map_err (λ ledger_error, TPublication (reason
            +:+ "; additionally failed to block its physical write intent: "
            +:+ managed_error_display ledger_error))
          (repo_call (λ e, block_physical_write e (md_lease d) reason)));;
        se_throw error
      | Ok stored =>
        if negb (version_history_complete stored) then
          let reason := "provider version history is ambiguous; exact namespace purge is blocked" in
          repo (λ e, block_physical_write e (md_lease d) reason);;
          se_throw (TPublication reason)
        else
          r ← mw_try (on_svc (repo_call (λ e,
                commit_physical_write e (md_lease d) (superseded_version_ids stored) (version_id stored))));
          match r with
          | Err error =>
            let reason := "physical version ledger commit failed: " +:+ managed_error_display error in
            mw_try (on_svc (repo_call (λ e, block_physical_write e (md_lease d) reason)));;
            se_throw (TPublication reason)
          | Ok _ => mret stored
          end
      end.

Definition direct_abort : MX unit :=
      renew_lease;;
      found ← journal_get (md_operation_id d);
      match found with
      | Some operation =>
        if bool_decide (op_state operation = Committed) || bool_decide (op_state operation = CommitUnknown)
           || bool_decide (op_state operation = Completing)
        then settle_managed_intent_from_journal operation;; se_throw TCompletionAmbiguous
        else mret tt
      | None => mret tt
      end;;
      on_sink DirectSink.abort;;
      found ← journal_get (md_operation_id d);
      operation ← se_lift (ok_or found (TPublication "managed operation journal row disappeared"));
      settle_managed_intent_from_journal operation.
End direct.

  (** ** [ManagedReplicatedSink] *)

Abbreviation MR := (SE (MW P J B ManagedReplicatedSink) TransactionError).

Definition replicated_write (chunk : list byte) : MR unit :=
    me ← mw_get;
    if mr_finished me then se_throw TFinished else direct_write (mr_primary me) chunk.

Definition replicated_verify_output (expected_size : Z) (expected_sha256 : string) : MR unit :=
    me ← mw_get;
    direct_verify_output (mr_primary me) expected_size expected_sha256;;
    mw_modify (set_mr_output (Some (expected_size, expected_sha256))).

  (** The authority of the generation that has been written. *)
Definition new_authority (now : Z) (me : ManagedReplicatedSink) (size : Z) (digest : string)
      (primary : StoredObjectMeta) : ObjectAuthority :=
    {| oa_logical := mr_logical me; oa_generation := mr_generation me; oa_digest := digest; oa_size := size;
       oa_metadata := mr_metadata me; oa_placement_version := pl_version (mr_placement me);
       oa_primary_backend_id := pl_primary_backend_id (mr_placement me);
       oa_primary_version_id := version_id primary;
       oa_replica_backend_id := pl_replica_backend_id (mr_placement me);
       oa_primary_status := Ready;
       oa_replica_status := match pl_replica_backend_id (mr_placement me) with
                            | Some _ => RepairPending | None => Absent end;
       oa_tombstone := false; oa_cas_version := 0; oa_created_at_ms := now; oa_updated_at_ms := now |}.

  (** [let _ = enqueue(..)] for every backend of an authority that could not be published. *)
Fixpoint enqueue_cleanups (a : ObjectAuthority) (backends : list string) : MR unit :=
    match backends with
    | [] => mret tt
    | backend_id :: backends =>
      mw_try (on_svc (enqueue_copy KDeleteGeneration a None backend_id RCleanup (oa_placement_version a)));;
      enqueue_cleanups a backends
    end.

Definition replicated_complete : MR StoredObjectMeta :=
    me ← mw_get;
    if mr_finished me then se_throw TFinished
    else
      output ← se_lift (ok_or (mr_output me) TOutputMismatch);
      let '(size, digest) := output in
      primary ← direct_complete (mr_primary me);
      match mr_logical_operation_id me with
      | Some logical_operation_id =>
        count ← se_lift (ok_or (u64_checked_add (Z.of_nat (length (superseded_version_ids primary))) 1) TCapacityExceeded);
        allocated ← se_lift (ok_or (u64_checked_mul size count) TCapacityExceeded);
        repo (λ e, commit_logical_put e logical_operation_id (new_authority (env_now e) me size digest primary)
                     allocated);;
        mret tt
      | None =>
        r ← mw_try (on_svc (repo_call (λ e,
              publish e (new_authority (env_now e) me size digest primary) (mr_expected_cas me))));
        match r with
        | Err error =>
          (* the cleanups do not carry the times of the authority *)
          let a := new_authority 0 me size digest primary in
          enqueue_cleanups a (oa_primary_backend_id a :: option_list (oa_replica_backend_id a));;
          se_throw (publication error)
        | Ok _ => mret tt
        end
      end;;
      mw_modify (set_mr_finished true);;
      mret primary.

Definition replicated_abort : MR unit :=
    me ← mw_get;
    if mr_finished me then mret tt
    else
      r ← mw_try (direct_abort (mr_primary me));
      mw_modify (set_mr_finished (is_ok r));;
      se_lift r.

  (** ** [ManagedLogicalSink] *)

Abbreviation ML := (SE (MW P J B ManagedLogicalSink) TransactionError).
Abbreviation inner := (on_inner ml_inner set_ml_inner).

Definition logical_write (chunk : list byte) : ML unit :=
    me ← mw_get;
    if ml_committed me then se_throw TFinished else inner (replicated_write chunk).

Definition logical_verify_output (expected_size : Z) (expected_sha256 : string) : ML unit :=
    me ← mw_get;
    if ml_committed me then se_throw TFinished
    else
      inner (replicated_verify_output expected_size expected_sha256);;
      mw_modify (set_ml_expected expected_size expected_sha256).

Definition record_usage_evidence (event : UsageEvent) : ML unit :=
    me ← mw_get;
    if ml_usage_recorded me then mret tt
    else
      size ← se_lift (ok_or (ml_expected_output_size me)
        (TPublication "managed logical usage evidence requires a verified output size"));
      digest ← se_lift (ok_or (ml_expected_output_digest me)
        (TPublication "managed logical usage evidence requires a verified output digest"));
      found ← repo (λ _, logical_operation (ml_operation_id me));
      logical ← se_lift (ok_or found (TPublication "managed logical operation disappeared"));
      if negb (bool_decide (li_kind (lo_intent logical) = MPut))
      then se_throw (TPublication "managed logical operation is not a put")
      else if negb (ev_processed_bytes event =? Z.max (ev_source_bytes event) size)
      then se_throw (TPublication "managed usage evidence is inconsistent with the request")
      else
        let evidence :=
          {| ue_expected_output_digest := Some digest; ue_expected_output_size := size;
             ue_source_bytes := ev_source_bytes event; ue_processed_bytes := ev_processed_bytes event;
             ue_payload := JObj [("route", JStr (usage_route_str (ev_route event)));
                                 ("kind", JStr (request_kind_str (ev_kind event)));
                                 ("bucket", JStr (ev_bucket event));
                                 ("pipeline_evidence", ev_pipeline_evidence event)] |} in
        repo (λ e, record_logical_usage e (ml_operation_id me) evidence);;
        repo (λ e, transition_logical_operation e (ml_operation_id me) LOpen LCompleting None);;
        mw_modify (set_ml_usage_recorded true).

Definition logical_complete : ML StoredObjectMeta :=
    me ← mw_get;
    if ml_committed me then se_throw TFinished
    else if negb (ml_usage_recorded me)
    then se_throw (TPublication "managed logical usage evidence was not recorded before commit")
    else
      stored ← inner replicated_complete;
      mw_modify (set_ml_committed true);;
      mret stored.

Definition logical_abort : ML unit :=
    me ← mw_get;
    if ml_committed me then mret tt
    else
      inner replicated_abort;;
      if ml_usage_recorded me then mret tt
      else repo (λ e, prove_logical_abort e (ml_operation_id me) "client_abort" None);; mret tt.
End sinks.

(** ** Starting a sink *)

Section begin.
  Context {P J B : Type} `{ServiceProvider P, OperationJournal J, TransactionBackend B}.
  Context `{Crypto, ManagedText, Outside, Penalty, UrlParser}.
  Context (uuid_new_v5 : list byte → list byte → Uuid).
  Context (st : ServiceStorage).

  (** Before the sink exists: the service, and the journal and the provider of the writes. *)
Definition BW : Type := SvcWorld P * World unit J B.
Abbreviation MB := (SE BW TransactionError).

Definition b_svc {E A} (m : SE (SvcWorld P) E A) : SE BW E A := λ w, let (r, v) := m w.1 in (r, (v, w.2)).
Definition b_tx {A} (m : M unit J B A) : MB A := λ w, let (r, v) := m w.2 in (r, (w.1, v)).
Definition b_try {E F A} (m : SE BW E A) : SE BW F (result E A) := λ w, let (r, v) := m w in (Ok r, v).
Definition b_repo {A} (f : Env → SE MemoryState ManagedError A) : MB A := b_svc (se_map_err publication (repo_call f)).
  (** What the operation itself draws: [Uuid::now_v7()]. *)
Definition draw_uuid : MB Uuid := λ w,
    (Ok (env_uuid (o_env (sw_tick w.1)) 0),
     (mkSvc (sw_repo w.1) (sw_provider w.1) (S (sw_tick w.1)) (sw_log w.1), w.2)).

Definition opt_insert (k : string) (v : option string) (m : gmap string string) : gmap string string :=
    match v with Some v => <[k := v]> m | None => m end.

Definition destination_of (b : ServiceBackend) (backend_id : string) (logical : LogicalObjectKey) (physical_key : string)
      : ObjectDestination :=
    {| Operation.backend_id := backend_id; bucket := sb_bucket b; logical_key := object_key logical;
       Operation.physical_key := physical_key; workspace_binding := None |}.

  (** [direct_sink_for]; [capabilities] are those of the provider [B]. *)
Definition direct_sink_for (backend_id : string) (logical : LogicalObjectKey) (physical_key : string)
      (metadata : gmap string string) (child_identity : ManagedChildIdentity) : MB (Sink * ManagedDirectSink) :=
    b ← se_lift (ok_or (backend_for_id st backend_id)
                   (TPublication ("unknown managed backend " +:+ backend_id)));
    let metadata := opt_insert "s4-provider-instance" (sb_provider_instance_id b) metadata in
    let metadata := opt_insert "s4-provider-account" (sb_provider_account_id b) metadata in
    let metadata := opt_insert "s4-credential-epoch" (pretty <$> sb_credential_epoch b) metadata in
    let destination := destination_of b backend_id logical physical_key in
    let '(operation_id, expected_namespace_epoch) :=
      match child_identity with
      | Supplied scope => (scope_operation_id scope, Some (scope_namespace_epoch scope))
      | DeterministicChild parent role =>
        (scope_operation_id (deterministic_child uuid_new_v5 parent (lk_tenant_id logical) 0 destination role), None)
      end in
    b_svc (se_map_err publication (authority_repository_required st));;
    mode ← b_svc (versioning_mode b);
    identity ← se_lift (ok_or (storage_identity b)
      (TPublication ("managed backend " +:+ backend_id +:+ " has no immutable storage identity")));
    credential_epoch ← se_lift (ok_or (sb_credential_epoch b)
      (TPublication ("managed backend " +:+ backend_id +:+ " has no credential epoch")));
    writer ← draw_uuid;
    lease ← b_repo (λ e, begin_physical_write e
      {| wi_intent_id := operation_id; wi_tenant_id := lk_tenant_id logical; wi_backend_id := backend_id;
         wi_storage_identity := identity; wi_credential_epoch := credential_epoch;
         wi_provider_bucket := sb_bucket b; wi_physical_key := physical_key; wi_versioning_mode := mode;
         wi_versioning_capability := capability_of (versioning b_capabilities);
         wi_lease_owner := "managed-writer-" +:+ uuid_display writer |});
    if match expected_namespace_epoch with
       | Some expected => negb (expected =? wl_namespace_epoch lease) | None => false end
    then
      b_repo (λ e, abort_physical_write e lease);;
      se_throw (TPublication "managed child scope namespace epoch is stale")
    else
      request ← draw_uuid;
      se_lift (map_err TCapability (reconciler_new ("managed-request-" +:+ uuid_display request)));;
      now ← b_tx unix_time_ms;
      fresh ← draw_uuid;
      let operation := scoped_intent fresh now operation_id destination
        (mkExpected None None metadata) (lk_tenant_id logical) (wl_namespace_epoch lease) in
      r ← b_try (b_tx (from_operation operation 3 true));
      match r with
      | Ok sink => mret (sink, mkDirect operation_id lease)
      | Err error =>
        b_svc (se_map_err (λ ledger_error, TPublication ("managed journal initialization failed: "
            +:+ transaction_error_display error +:+ "; intent cleanup failed: "
            +:+ managed_error_display ledger_error))
          (repo_call (λ e, abort_physical_write e lease)));;
        se_throw error
      end.

  (** Does the parent stand behind exactly this physical child? *)
Definition parent_mismatch (logical : LogicalObjectKey) (logical_operation_id : Uuid)
      (child_scope : ManagedOperationScope) (generation : Uuid) (placement : Placement) (physical_key : string)
      (parent : ManagedLogicalOperation) (usage : option ManagedWorkspaceUsage) : bool :=
    let i := lo_intent parent in
    negb (bool_decide (li_kind i = MPut))
    || negb (bool_decide (lo_state parent = LOpen))
    || match usage with
       | Some usage => negb (bool_decide (wu_active_operation_id usage = Some logical_operation_id))
       | None => true
       end
    || negb (bool_decide (li_logical i = logical))
    || negb (bool_decide (li_generation i = generation))
    || negb (bool_decide (li_primary_child_operation_id i = scope_operation_id child_scope))
    || negb (rf_namespace_epoch (li_fence i) =? scope_namespace_epoch child_scope)
    || negb (bool_decide (li_backend_id i = pl_primary_backend_id placement))
    || negb (bool_decide (li_provider_bucket i = default "" (sb_bucket <$> backend_for_id st (li_backend_id i))))
    || negb (bool_decide (li_physical_key i = physical_key)).

Definition begin_authoritative_sink_for_operation (logical : LogicalObjectKey) (content_type : string)
      (logical_operation_id : Uuid) (child_scope : ManagedOperationScope) (generation : Uuid)
      : MB (Sink * ManagedReplicatedSink) :=
    if negb (bool_decide (scope_tenant_id child_scope = lk_tenant_id logical))
    then se_throw (TPublication "managed child scope belongs to a different tenant")
    else if negb (bool_decide (st_managed_mode st = ModeEnforce))
    then se_throw (publication (MutationDisabled (st_managed_mode st)))
    else
      se_lift (map_err TPublication (validate_managed_launch_configuration st));;
      b_svc (se_map_err publication (authority_repository_required st));;
      placement ← se_lift (ok_or (svc_placement st logical) (TPublication "managed storage has no backends"));
      let physical_key := generation_physical_key logical generation in
      found ← b_repo (λ _, logical_operation logical_operation_id);
      parent ← se_lift (ok_or found (TPublication "managed logical parent operation was not found"));
      usage ← b_repo (λ _, workspace_usage_of (lk_tenant_id logical));
      if parent_mismatch logical logical_operation_id child_scope generation placement physical_key parent usage
      then se_throw (TPublication "managed logical parent does not match its reserved physical child")
      else
        primary ← direct_sink_for (pl_primary_backend_id placement) logical physical_key
          (<["s4-generation" := uuid_display generation]> {["content-type" := content_type]}) (Supplied child_scope);
        let '(sink, direct) := primary in
        mret (sink, mkReplicated logical generation placement (Some logical_operation_id) None
                      {["content-type" := content_type]} direct None false).

Definition MANAGED_STREAMING_PUT_HEADROOM : Z := 4.

  (** The bytes the workspace can still take, and the reservation of a request. *)
Definition available_bytes (usage : option ManagedWorkspaceUsage) : Z :=
    Z.max match usage with
          | Some u => u64_saturating_sub (u64_saturating_sub
              (u64_saturating_add (wu_visible_limit_bytes u) (wu_replacement_headroom_bytes u))
              (wu_physical_allocated_bytes u)) (wu_reserved_bytes u)
          | None => MANAGED_VISIBLE_LIMIT_BYTES
          end 1.
Definition reservation_bytes (max_processed_bytes : Z) (usage : option ManagedWorkspaceUsage) : Z :=
    Z.min (u64_saturating_mul max_processed_bytes MANAGED_STREAMING_PUT_HEADROOM) (available_bytes usage).

Definition put_intent_of (operation_id receipt_id : Uuid) (logical : LogicalObjectKey) (generation : Uuid)
      (fence : ManagedRouteFence) (expected_authority_cas : option Z) (prior_logical_size : Z) (child : Uuid)
      (backend_id provider_bucket physical_key : string) (occurred_at_ms rate_version max_processed_bytes : Z)
      : ManagedLogicalOperationIntent :=
    {| li_operation_id := operation_id; li_receipt_id := receipt_id; li_logical := logical; li_kind := MPut;
       li_generation := generation; li_fence := fence; li_expected_authority_cas := expected_authority_cas;
       li_prior_logical_size := prior_logical_size; li_primary_child_operation_id := child;
       li_backend_id := backend_id; li_provider_bucket := provider_bucket; li_physical_key := physical_key;
       li_occurred_at_ms := occurred_at_ms; li_rate_version := rate_version; li_route := PutObject;
       li_request_kind := Write; li_max_processed_bytes := max_processed_bytes |}.

  (** From the recorded intent on: the reservation and the sink, or the abort of the operation. *)
Definition admit_put (logical : LogicalObjectKey) (content_type : string) (operation_id : Uuid)
      (max_processed_bytes : Z) (child_scope : ManagedOperationScope) (generation : Uuid)
      : MB (Sink * ManagedLogicalSink) :=
    usage ← b_repo (λ _, workspace_usage_of (lk_tenant_id logical));
    r ← b_try (b_svc (repo_call (λ e,
          reserve_logical_operation e operation_id (reservation_bytes max_processed_bytes usage))));
    match r with
    | Err error =>
      b_try (b_svc (repo_call (λ e, prove_logical_abort e operation_id "reservation_failed" None)));;
      se_throw (TPublication ("managed physical reservation failed: " +:+ managed_error_display error))
    | Ok _ =>
      r ← b_try (begin_authoritative_sink_for_operation logical content_type operation_id child_scope generation);
      match r with
      | Err error =>
        b_try (b_svc (repo_call (λ e, prove_logical_abort e operation_id "sink_begin_failed" None)));;
        se_throw error
      | Ok (sink, replicated) => mret (sink, mkLogical replicated operation_id None None false false)
      end
    end.

Definition begin_managed_put_sink (durable : bool) (logical : LogicalObjectKey) (content_type : string)
      (operation_id receipt_id : Uuid) (occurred_at_ms rate_version max_processed_bytes : Z)
      (expected_authority_cas : option Z) (prior_logical_size : Z) : MB (Sink * ManagedLogicalSink) :=
    if negb (bool_decide (st_managed_mode st = ModeEnforce))
    then se_throw (publication (MutationDisabled (st_managed_mode st)))
    else
      se_lift (map_err TPublication (validate_managed_launch_configuration st));;
      if negb durable
      then se_throw (TPublication "managed streaming requires a durable operation journal")
      else
        b_svc (se_map_err publication (authority_repository_required st));;
        b_repo (λ _, assert_namespace_active (lk_tenant_id logical));;
        fence ← b_repo (λ _, route_fence (lk_tenant_id logical));
        placement ← se_lift (ok_or (svc_placement st logical) (TPublication "managed storage has no backends"));
        let backend_id := pl_primary_backend_id placement in
        b ← se_lift (ok_or (backend_for_id st backend_id)
                       (TPublication ("unknown managed backend " +:+ backend_id)));
        generation ← draw_uuid;
        let physical_key := generation_physical_key logical generation in
        let child_scope := deterministic_child uuid_new_v5 operation_id (lk_tenant_id logical)
          (rf_namespace_epoch fence) (destination_of b backend_id logical physical_key) Primary in
        let intent := put_intent_of operation_id receipt_id logical generation fence expected_authority_cas
          prior_logical_size (scope_operation_id child_scope) backend_id (sb_bucket b) physical_key
          occurred_at_ms rate_version max_processed_bytes in
        b_svc (se_map_err (λ error, TPublication ("managed logical admission failed: "
                                                  +:+ managed_error_display error))
                 (repo_call (λ e, insert_logical_operation e intent)));;
        admit_put logical content_type operation_id max_processed_bytes child_scope generation.
End begin.
