(* ===== verification/ManagedReconcile.v ===== *)
(** * Managed storage: workers

    The background work of [crates/gateway/src/service_storage.rs]: settling
    physical writes whose writer is gone ([reconcile_managed_write_intents]),
    and executing repairs ([repair_due], [execute_repair]). *)

From S2P Require Import Prelude Operation Journal MemJournal Transaction Reconciler DirectSink.
From S2P Require Import RustStr Integrity Managed ManagedRepo ManagedUsage ManagedPurge Placement ServiceStorage ManagedSink.

#[local] Open Scope Z_scope.
Set Default Goal Selector "!".

Section workers.
  Context {P J B : Type} `{ServiceProvider P, OperationJournal J, TransactionBackend B}.
  Context `{Crypto, ManagedText, Outside, Penalty, UrlParser}.
  Context (sha256_hex : list byte → string) (part_bytes : nat).
  Context (uuid_new_v5 : list byte → list byte → Uuid).
  Context (st : ServiceStorage).
  Abbreviation BW := (@BW P J B).

  (** ** Pieces *)

Definition w_with {S S'} (s : S') (w : World S J B) : World S' J B :=
    mkWorld s (journal w) (backend w) (clock w) (uuids w) (tick w) (log w).
  (** A method of an object that lives for this call only. *)
Definition tx_with {S A} (s : S) (m : M S J B A) : SE BW TransactionError A := λ w,
    let (r, v) := m (w_with s w.2) in (r, (w.1, w_with tt v)).
Definition sink_with {E A} (s : Sink) (m : SE (MW P J B unit) E A) : SE BW E A := λ w,
    let (r, v) := m (mkMW w.1 (w_with s w.2) tt) in (r, (mw_svc v, w_with tt (mw_tx v))).
Definition b_map_err {E F A} (f : E → F) (m : SE BW E A) : SE BW F A := λ w, let (r, v) := m w in (map_err f r, v).
Definition draw {E A} (f : Env → A) : SE BW E A := λ w,
    (Ok (f (o_env (sw_tick w.1))), (mkSvc (sw_repo w.1) (sw_provider w.1) (S (sw_tick w.1)) (sw_log w.1), w.2)).
Definition now_ms {E} : SE BW E Z := draw env_now.
Definition now_v7 {E} : SE BW E Uuid := draw (λ e, env_uuid e 0).

Definition read_journal (id : Uuid) : SE BW ManagedError (option OperationRecord) := λ w,
    let (r, v) := journal_call (λ _, j_get id) w.2 in
    (map_err (λ e, Persistence (journal_error_display e)) r, (w.1, v)).

  (** ** Physical writes whose writer is gone *)

Definition block (lease : PhysicalWriteLease) (reason : string) : SE BW ManagedError unit :=
    b_svc (repo_call (λ e, block_physical_write e lease reason)).

  (** Is the journal row the one of this write? *)
Definition journal_mismatch (durable : DurablePhysicalWriteIntent) (operation : OperationRecord) : bool :=
    let intent := di_intent durable in
    negb (bool_decide (op_tenant_id operation = Some (wi_tenant_id intent)))
    || negb (bool_decide (op_namespace_epoch operation = Some (di_namespace_epoch durable)))
    || negb (bool_decide (backend_id (op_destination operation) = wi_backend_id intent))
    || negb (bool_decide (bucket (op_destination operation) = wi_provider_bucket intent))
    || negb (bool_decide (physical_key (op_destination operation) = wi_physical_key intent)).

  (** The outcome of the journal, carried over to the ledger. *)
Definition settle_from_journal (stale_after : Z) (lease : PhysicalWriteLease) (operation : OperationRecord)
      : SE BW ManagedError unit :=
    match op_state operation with
    | ProvenAborted => b_svc (repo_call (λ e, abort_physical_write e lease))
    | Committed =>
      match op_committed operation with
      | Some stored =>
        if version_history_complete stored
        then b_svc (repo_call (λ e, commit_physical_write e lease (superseded_version_ids stored) (version_id stored)))
        else block lease "managed operation committed with ambiguous or missing version history"
      | None => block lease "managed operation committed with ambiguous or missing version history"
      end
    | state =>
      now ← now_ms;
      if op_updated_at_ms operation <=? i64_saturating_sub now (i64_wrap stale_after)
      then block lease ("managed operation remains unresolved in journal state " +:+ as_str state)
      else mret tt
    end.

  (** The journal row after its reconciliation, or [None] when the write has been blocked. *)
Definition reconciled_row (stale_after : Z) (lease : PhysicalWriteLease) (id : Uuid) (operation : OperationRecord)
      : SE BW ManagedError (option OperationRecord) :=
    if is_terminal (op_state operation) then mret (Some operation)
    else
      request ← now_v7;
      reconciler ← se_lift (map_err (λ e, Persistence (transaction_error_display (TCapability e)))
        (reconciler_new ("managed-intent-" +:+ uuid_display request)));
      r ← b_try (tx_with reconciler (reconcile_operation id stale_after));
      match r with
      | Err error =>
        block lease ("managed operation reconciliation failed: " +:+ transaction_error_display error);;
        mret None
      | Ok _ =>
        found ← read_journal id;
        operation ← se_lift (ok_or found (Persistence "managed operation disappeared after reconciliation"));
        mret (Some operation)
      end.

Definition reconcile_claimed_intent (stale_after : Z) (durable : DurablePhysicalWriteIntent) (lease : PhysicalWriteLease)
      : SE BW ManagedError unit :=
    let intent := di_intent durable in
    valid ← b_try (b_svc (validate_durable_intent_backend st intent));
    match valid with
    | Err reason => block lease reason
    | Ok _ =>
      found ← read_journal (wi_intent_id intent);
      match found with
      | None => block lease "managed write intent has no operation journal row"
      | Some operation =>
        if journal_mismatch durable operation
        then block lease "managed write intent does not match its operation journal identity"
        else
          row ← reconciled_row stale_after lease (wi_intent_id intent) operation;
          match row with
          | Some operation => settle_from_journal stale_after lease operation
          | None => mret tt
          end
      end
    end.

Definition reconcile_intent (stale_after : Z) (durable : DurablePhysicalWriteIntent) : SE BW ManagedError unit :=
    now ← now_ms;
    if now <? di_lease_expires_at_ms durable then mret tt
    else
      owner ← now_v7;
      claimed ← b_svc (repo_call (λ e, claim_expired_physical_write_intent e (wi_intent_id (di_intent durable))
        ("managed-reconciler-" +:+ uuid_display owner)
        (i64_saturating_add (env_now e) PHYSICAL_WRITE_LEASE_MS)));
      match claimed with
      | None => mret tt
      | Some lease => reconcile_claimed_intent stale_after durable lease
      end.

Fixpoint reconcile_intents (stale_after : Z) (intents : list DurablePhysicalWriteIntent) : SE BW ManagedError unit :=
    match intents with
    | [] => mret tt
    | durable :: intents => reconcile_intent stale_after durable;; reconcile_intents stale_after intents
    end.

Definition reconcile_managed_write_intents (stale_after limit : Z) : SE BW ManagedError nat :=
    authority_repository_required st;;
    intents ← b_svc (repo_call (λ e, pending_physical_write_intents e limit));
    reconcile_intents stale_after intents;;
    mret (length intents).

  (** ** Executing repairs *)

  (** The authority the copy is compared with. *)
Definition repair_source_authority (repair : RepairRecord) (source_id : string) (version : option string)
      : ObjectAuthority :=
    {| oa_logical := rr_logical repair; oa_generation := rr_generation repair; oa_digest := rr_digest repair;
       oa_size := rr_size repair; oa_metadata := rr_metadata repair;
       oa_placement_version := rr_placement_version repair; oa_primary_backend_id := source_id;
       oa_primary_version_id := version; oa_replica_backend_id := None; oa_primary_status := Ready;
       oa_replica_status := Absent; oa_tombstone := false; oa_cas_version := 0;
       oa_created_at_ms := 0; oa_updated_at_ms := 0 |}.

Abbreviation MT := (SE (MW P J B unit) string).
Definition to_text {A} (m : SE (MW P J B unit) TransactionError A) : MT A := λ w,
    let (r, v) := m w in (map_err transaction_error_display r, v).

Fixpoint copy_body (d : ManagedDirectSink) (body : list (option (list byte))) : MT unit :=
    match body with
    | [] => mret tt
    | None :: _ => se_throw body_failure
    | Some chunk :: body => to_text (direct_write sha256_hex part_bytes d chunk);; copy_body d body
    end.

Definition copy_object (d : ManagedDirectSink) (repair : RepairRecord) (body : list (option (list byte))) : MT unit :=
    copy_body d body;;
    to_text (direct_verify_output sha256_hex d (rr_size repair) (rr_digest repair));;
    to_text (direct_complete sha256_hex d);;
    mret tt.

Definition execute_repair (repair : RepairRecord) : SE BW string unit :=
    if decide (rr_kind repair = KDeleteGeneration) then b_svc (delete_generation st repair)
    else
      source_id ← se_lift (ok_or (rr_source_backend_id repair) "repair has no source backend");
      source ← se_lift (ok_or (backend_for_id st source_id) ("unknown repair source backend " +:+ source_id));
      output ← b_svc (se_map_err record_s3_failure
        (s3_call (λ _, None) (p_get_object source (sb_bucket source) (rr_physical_key repair) None None)));
      if negb (metadata_matches (out_metadata output) (out_content_length output)
                 (repair_source_authority repair source_id (out_version_id output)) false)
      then se_throw "repair source generation metadata does not match authority"
      else
        target ← b_map_err transaction_error_display
          (direct_sink_for uuid_new_v5 st (rr_target_backend_id repair) (rr_logical repair) (rr_physical_key repair)
             (<["s4-generation" := uuid_display (rr_generation repair)]> (rr_metadata repair))
             (DeterministicChild (rr_id repair) Repair));
        let '(sink, d) := target in
        sink_with sink (copy_object d repair (out_body output)).

  (** [Ok(_) | Err(ManagedError::Conflict) => {}]. *)
Definition ignore_conflict {A} (m : SE BW ManagedError A) : SE BW ManagedError unit :=
    r ← b_try m;
    match r with
    | Ok _ => mret tt
    | Err error => if decide (error = Conflict) then mret tt else se_throw error
    end.

  (** One claimed repair; the heartbeat that renews its lease is another request. *)
Definition run_repair (repair : RepairRecord) : SE BW ManagedError unit :=
    r ← b_try (execute_repair repair);
    match r with
    | Ok _ => ignore_conflict (b_svc (repo_call (λ e, complete_repair e repair)))
    | Err _ => ignore_conflict (b_svc (repo_call (λ e, fail_repair e (rr_id repair))))
    end.

Fixpoint run_repairs (repairs : list RepairRecord) : SE BW ManagedError unit :=
    match repairs with
    | [] => mret tt
    | repair :: repairs => run_repair repair;; run_repairs repairs
    end.

Definition repair_due (owner : string) (limit : Z) : SE BW ManagedError nat :=
    authority_repository_required st;;
    now ← now_ms;
    repairs ← b_svc (repo_call (λ e, claim_repairs e owner (i64_wrap (now + 30000)) limit));
    run_repairs repairs;;
    mret (length repairs).
End workers.
