(* ===== verification/ManagedSettle.v ===== *)
(** * Managed storage: how a physical write ends

    A physical write is recorded in the repository before its first byte goes to
    a provider.  However it ends, through its own sink or through the worker
    that takes it over, its record disappears only when the operation journal
    has settled it: aborted, or committed with every version in the ledger. *)

From S2P Require Import Prelude Operation Journal MemJournal Transaction Reconciler DirectSink SinkSafety.
From S2P Require Import RustStr Integrity Managed ManagedRepo ManagedUsage ManagedWrites Placement ServiceStorage ManagedSink ManagedReconcile.

#[local] Open Scope Z_scope.
Set Default Goal Selector "!".

(** ** Rules for the two worlds *)

Section rules.
  Context {P J B X : Type}.

Lemma wp_on_svc {E A} (m : SE (SvcWorld P) E A) (Q : result E A → MW P J B X → Prop) w :
    wp m (λ r v, Q r (mkMW v (mw_tx w) (mw_me w))) (mw_svc w) → wp (on_svc m) Q w.
Proof. unfold wp, on_svc. by destruct (m (mw_svc w)). Qed.
Lemma wp_on_sink {A} (m : M Sink J B A) (Q : result TransactionError A → MW P J B X → Prop) w :
    wp m (λ r v, Q r (mkMW (mw_svc w) v (mw_me w))) (mw_tx w) → wp (on_sink m) Q w.
Proof. unfold wp, on_sink. by destruct (m (mw_tx w)). Qed.
Lemma wp_mw_try {E F A} (m : SE (MW P J B X) E A) (Q : result F (result E A) → MW P J B X → Prop) w :
    wp m (λ r, Q (Ok r)) w → wp (mw_try m) Q w.
Proof. unfold wp, mw_try. by destruct (m w). Qed.
Lemma wp_mw_get (Q : result TransactionError X → MW P J B X → Prop) w : Q (Ok (mw_me w)) w → wp mw_get Q w.
Proof. done. Qed.
Lemma wp_mw_modify f (Q : result TransactionError unit → MW P J B X → Prop) w :
    Q (Ok tt) (mkMW (mw_svc w) (mw_tx w) (f (mw_me w))) → wp (mw_modify f) Q w.
Proof. done. Qed.
Lemma wp_on_inner {Y A} (g : X → Y) (p : Y → X → X) (m : SE (MW P J B Y) TransactionError A) Q w :
    wp m (λ r v, Q r (mkMW (mw_svc v) (mw_tx v) (p (mw_me v) (mw_me w)))) (mkMW (mw_svc w) (mw_tx w) (g (mw_me w))) →
    wp (on_inner g p m) Q w.
Proof. unfold wp, on_inner. by destruct (m _). Qed.

Lemma wp_b_svc {E A} (m : SE (SvcWorld P) E A) (Q : result E A → @BW P J B → Prop) w :
    wp m (λ r v, Q r (v, w.2)) w.1 → wp (b_svc m) Q w.
Proof. unfold wp, b_svc. by destruct (m w.1). Qed.
Lemma wp_b_tx {A} (m : M unit J B A) (Q : result TransactionError A → @BW P J B → Prop) w :
    wp m (λ r v, Q r (w.1, v)) w.2 → wp (b_tx m) Q w.
Proof. unfold wp, b_tx. by destruct (m w.2). Qed.
Lemma wp_b_try {E F A} (m : SE (@BW P J B) E A) (Q : result F (result E A) → @BW P J B → Prop) w :
    wp m (λ r, Q (Ok r)) w → wp (b_try m) Q w.
Proof. unfold wp, b_try. by destruct (m w). Qed.
Lemma wp_any {W E A} (m : SE W E A) (Q : result E A → W → Prop) w : (∀ r w', Q r w') → wp m Q w.
Proof. intros HQ. unfold wp. by destruct (m w). Qed.
End rules.

Ltac mw_step :=
  lazymatch goal with
  | |- wp (_ ≫= _) _ _ => apply wp_bind
  | |- wp (on_svc _) _ _ => apply wp_on_svc
  | |- wp (on_sink _) _ _ => apply wp_on_sink
  | |- wp (mw_try _) _ _ => apply wp_mw_try
  | |- wp mw_get _ _ => apply wp_mw_get
  | |- wp (mw_modify _) _ _ => apply wp_mw_modify
  | |- wp (on_inner _ _ _) _ _ => apply wp_on_inner
  | |- wp (b_svc _) _ _ => apply wp_b_svc
  | |- wp (b_tx _) _ _ => apply wp_b_tx
  | |- wp (b_try _) _ _ => apply wp_b_try
  | |- _ => svc_step
  end.

Section settle.
  Context {P J B : Type} `{ServiceProvider P, OperationJournal J, TransactionBackend B}.
  Context `{Crypto, ManagedText, Outside, Penalty, UrlParser}.
  Context (sha256_hex : list byte → string).
  Context (l : PhysicalWriteLease) (intent : PhysicalWriteIntent).

  (** The write of the lease is recorded. *)
Definition held (s : MemoryState) : Prop := physical_write_intents s !! wl_intent_id l = Some intent.

Definition others_keep_write : Prop := ∀ n s,
    physical_write_intents (run_others (o_others n) s) !! wl_intent_id l = physical_write_intents s !! wl_intent_id l.

  (** Every version of a result is in the ledger. *)
Definition all_ledgered (stored : StoredObjectMeta) (s : MemoryState) : Prop :=
    ∀ v, v ∈ (Some <$> superseded_version_ids stored) ++ [version_id stored] →
      ∃ x, x ∈ physical_versions s ∧ same_version x (version_target intent l v) = true.

  (** What the journal's last answer must have been when the record is gone. *)
Definition settled_by (op : OperationRecord) (s : MemoryState) : Prop :=
    op_state op = ProvenAborted
    ∨ ∃ stored, op_state op = Committed ∧ op_committed op = Some stored
        ∧ version_history_complete stored = true ∧ all_ledgered stored s.

Definition kept_or_settled (id : Uuid) (s : MemoryState) (j : J) : Prop :=
    held s ∨ ∃ op j0, j_get id j0 = (Ok (Some op), j) ∧ settled_by op s.

Lemma held_found (w : SvcWorld P) : others_keep_write → held (sw_repo w) → held (found_repo w).
Proof. intros Ho Hw. unfold held, found_repo. by rewrite Ho. Qed.

Lemma commit_ledgers e stored s :
    held s →
    held (commit_physical_write e l (superseded_version_ids stored) (version_id stored) s).2
      ∧ (commit_physical_write e l (superseded_version_ids stored) (version_id stored) s).1 ≠ Ok tt
    ∨ all_ledgered stored (commit_physical_write e l (superseded_version_ids stored) (version_id stored) s).2
      ∧ (commit_physical_write e l (superseded_version_ids stored) (version_id stored) s).1 = Ok tt.
Proof.
    intros Hs. unfold commit_physical_write. destruct (existsb is_empty _ || _); [by left|].
    destruct (owner_lost l s || _); [by left|].
    unfold held in Hs. rewrite Hs. right. split; [|done]. cbn [snd]. intros v Hv. cbn [physical_versions upd_physical_versions drop_write].
    destruct (fold_ledger_spec (version_target intent l) ((Some <$> superseded_version_ids stored) ++ [version_id stored])
      (physical_versions s)) as (_ & _ & A3). by apply A3.
Qed.

Lemma block_held e reason s : held s → held (block_physical_write e l reason s).2.
Proof. intros Hs. unfold block_physical_write. by case_match. Qed.
Lemma renew_held e x s : held s → held (renew_physical_write_intent e l x s).2.
Proof. intros Hs. unfold renew_physical_write_intent. by case_match. Qed.

  (** ** The sink of the write *)

Section sink.
    Context {X : Type} (d : ManagedDirectSink) (Hd : md_lease d = l) (Hother : others_keep_write).
    Abbreviation MWX := (MW P J B X).
    Abbreviation repo_of := (λ w : MWX, sw_repo (mw_svc w)).

Lemma wp_repo {A} (f : Env → SE MemoryState ManagedError A) (Q : result TransactionError A → MWX → Prop) w :
      (∀ e v, let (r, s) := f e (found_repo (mw_svc w)) in
              sw_repo v = s → Q (map_err publication r) (mkMW v (mw_tx w) (mw_me w))) →
      wp (repo f) Q w.
Proof.
      intros HQ. unfold repo. mw_step. svc_step. svc_step. specialize (HQ (o_env (sw_tick (mw_svc w)))).
      destruct (f _ _) as [r s]. by apply (HQ (mkSvc s _ _ _)).
Qed.

Lemma wp_block reason (Q : result TransactionError unit → MWX → Prop) w :
      held (repo_of w) → (∀ r w', held (repo_of w') → mw_tx w' = mw_tx w → Q r w') →
      wp (repo (λ e, block_physical_write e (md_lease d) reason)) Q w.
Proof.
      intros Hw HQ. apply wp_repo. intros e v. rewrite Hd.
      pose proof (block_held e reason _ (held_found _ Hother Hw)) as Hb.
      destruct (block_physical_write _ _ _ _) as [r s]. intros <-. by apply HQ.
Qed.

Lemma wp_settle id op j0 (w : MWX) :
      held (repo_of w) → j_get id j0 = (Ok (Some op), journal (mw_tx w)) →
      wp (settle_managed_intent_from_journal d op)
         (λ _ w', kept_or_settled id (repo_of w') (journal (mw_tx w'))) w.
Proof.
      intros Hw Hj. unfold settle_managed_intent_from_journal.
      assert (Hblock : ∀ reason error, wp (repo (λ e, block_physical_write e (md_lease d) reason) ≫= λ _, se_throw error)
        (λ (_ : result TransactionError unit) w', kept_or_settled id (repo_of w') (journal (mw_tx w'))) w).
      { intros reason error. mw_step. apply wp_block; [done|]. intros [] w' Hw' _; [mw_step|]; by left. }
      destruct (op_state op) eqn:Hst; try apply Hblock.
      - destruct (op_committed op) as [stored|] eqn:Hc; [|apply Hblock].
        destruct (version_history_complete stored) eqn:Hh; cbn [negb]; [|apply Hblock].
        apply wp_repo. intros e v. rewrite Hd.
        pose proof (commit_ledgers e stored _ (held_found _ Hother Hw)) as Hl.
        destruct (commit_physical_write _ _ _ _ _) as [r s]. cbn [fst snd] in Hl. intros <-.
        destruct Hl as [[Hl _]|[Hl _]]; [by left|]. right. exists op, j0. split; [done|]. right. by exists stored.
      - apply wp_repo. intros e v. destruct (abort_physical_write _ _ _) as [r s]. intros _.
        right. exists op, j0. split; [done|]. by left.
Qed.

Lemma wp_journal_get id (Q : result TransactionError (option OperationRecord) → MWX → Prop) w :
      (∀ r w', repo_of w' = repo_of w →
         (∀ op, r = Ok (Some op) → j_get id (journal (mw_tx w)) = (Ok (Some op), journal (mw_tx w'))) → Q r w') →
      wp (journal_get id) Q w.
Proof.
      intros HQ. unfold journal_get. mw_step. apply wp_from_journal. unfold wp, journal_call.
      destruct (j_get id (journal (mw_tx w))) as [r j] eqn:Hj. apply HQ; [done|].
      intros op Hr. destruct r; [|done]. cbn in *. congruence.
Qed.

Lemma wp_renew (Q : result TransactionError unit → MWX → Prop) w :
      held (repo_of w) → (∀ r w', held (repo_of w') → mw_tx w' = mw_tx w → Q r w') → wp (renew_lease d) Q w.
Proof.
      intros Hw HQ. unfold renew_lease. apply wp_repo. intros e v. rewrite Hd.
      pose proof (renew_held e (i64_saturating_add (env_now e) PHYSICAL_WRITE_LEASE_MS) _ (held_found _ Hother Hw)) as Hb.
      destruct (renew_physical_write_intent _ _ _ _) as [r s]. intros <-. by apply HQ.
Qed.

  (** Aborting the sink drops the record of the write only if the journal has settled it. *)
Lemma wp_direct_abort (w : MWX) :
      held (repo_of w) →
      wp (direct_abort d) (λ _ w', kept_or_settled (md_operation_id d) (repo_of w') (journal (mw_tx w'))) w.
Proof.
      intros Hw. unfold direct_abort. mw_step. apply wp_renew; [done|]. intros [] w1 H1' _; [|by left].
      mw_step. apply wp_journal_get. intros r w2 E2 Hr. rewrite <- E2 in H1'. destruct r as [found|]; [|by left].
      mw_step. apply wp_mono with (λ r w', match r with
          | Ok _ => held (repo_of w')
          | Err _ => kept_or_settled (md_operation_id d) (repo_of w') (journal (mw_tx w')) end).
      { destruct found as [op|]; [|by mw_step]. case_match; [|by mw_step].
        pose proof (Hr op eq_refl) as Hj. mw_step. eapply wp_mono; [by eapply wp_settle|].
        intros [] w' Hw'; [|exact Hw']. by mw_step. }
      intros [] w3 H3'; [|exact H3'].
      mw_step. mw_step. apply wp_any. intros [] v4; [|by left]. mw_step. apply wp_journal_get.
      intros r w5 E5 Hr5. assert (H5' : held (repo_of w5)) by (by rewrite E5).
      destruct r as [[op|]|]; [|by left..]. mw_step. mw_step. cbn [ok_or].
      pose proof (Hr5 op eq_refl) as Hj. by eapply wp_settle.
Qed.

  (** What the sink's own completion, or after its failure the journal, said. *)
Context {Laws : JournalLaws J}.
Lemma wp_complete_reconciled (w : MWX) :
      wp (complete_reconciled sha256_hex d) (λ r w', repo_of w' = repo_of w
        ∧ ∀ stored, r = Ok stored → inv (md_operation_id d) (mw_tx w) → recorded (md_operation_id d) stored (mw_tx w')) w.
Proof.
      unfold complete_reconciled. mw_step. mw_step. mw_step. unfold wp at 1.
      assert (Hc := λ Hi, wp_complete sha256_hex (md_operation_id d) (mw_tx w) Hi). unfold wp in Hc.
      destruct (DirectSink.complete sha256_hex (mw_tx w)) as [[stored|e] v].
      { mw_step. split; [done|]. intros ? [= <-] Hi. destruct (Hc Hi) as [_ Hr]. by apply Hr. }
      mw_step. apply wp_journal_get. intros r w2 E2 Hr. destruct r as [o|]; [|done]. mw_step. mw_step.
      destruct o as [op|]; cbn [ok_or]; [|done]. destruct (decide (op_state op = Committed)) as [Hs|]; [|by mw_step].
      mw_step. split; [done|]. intros stored Hop Hi. destruct (Hc Hi) as [(s & js & _ & _ & Hwf & _) _].
      pose proof (Hr op eq_refl) as Hg. cbn [mw_tx] in Hg. destruct (get_read _ _ _ _ Hwf Hg) as (_ & Hst & Hcm).
      destruct (get_state _ _ _ _ Hg) as [_ Hrows]. destruct (Hrows (md_operation_id d)) as [Hs' Hc'].
      destruct (op_committed op) as [m|] eqn:Em; [|done]. cbn in Hop. injection Hop as ->.
      split; [by rewrite Hs', Hst, Hs|by rewrite Hc', (Hcm Hs _ eq_refl)].
Qed.

  (** Completing the sink succeeds only with the whole result ledgered and the
      operation committed with it in the journal, and otherwise leaves the
      record of the write in place. *)
Lemma wp_direct_complete (w : MWX) :
      held (repo_of w) →
      wp (direct_complete sha256_hex d) (λ r w', match r with
        | Ok stored => version_history_complete stored = true ∧ all_ledgered stored (repo_of w')
            ∧ (inv (md_operation_id d) (mw_tx w) → recorded (md_operation_id d) stored (mw_tx w'))
        | Err _ => held (repo_of w') end) w.
Proof.
      intros Hw. unfold direct_complete. mw_step. apply wp_renew; [done|]. intros [] w1 H1' Et; [|done].
      mw_step. mw_step. eapply wp_mono; [apply wp_complete_reconciled|]. rewrite Et.
      intros r w2 [E2 Hcom]. rewrite <- E2 in H1'. destruct r as [stored|error]; lazy beta match.
      - destruct (version_history_complete stored) eqn:Hh; cbn [negb].
        + mw_step. mw_step. mw_step. svc_step.
          pose proof (commit_ledgers (o_env (sw_tick (mw_svc w2))) stored _ (held_found _ Hother H1')) as Hl.
          rewrite <- Hd in Hl at 1 2 3 4. destruct (commit_physical_write _ (md_lease d) _ _ _) as [r s]. cbn [fst snd] in *.
          destruct r as [[]|e]; cbn [map_err].
          * mw_step. destruct Hl as [[_ Hl]|[Hl _]]; [done|]. split; [done|]. split; [done|]. by apply Hcom.
          * destruct Hl as [[Hl _]|[_ Hl]]; [|done]. mw_step. mw_step. mw_step. svc_step. mw_step.
            rewrite Hd. apply block_held. by apply held_found.
        + mw_step. apply wp_block; [done|]. intros [] w3 H3' _; [by mw_step|done].
      - mw_step. mw_step. svc_step. svc_step.
        pose proof (block_held (o_env (sw_tick (mw_svc w2)))
          ("provider completion did not prove exact version history: " +:+ transaction_error_display error)
          _ (held_found _ Hother H1')) as Hb.
        rewrite <- Hd in Hb at 1. destruct (block_physical_write _ _ _ _) as [[] s]; cbn [map_err fst snd] in *; [by mw_step|done].
Qed.
End sink.

  (** ** The worker that takes the write over *)

Section worker.
    Context (st : ServiceStorage) (Hother : others_keep_write).
    Abbreviation BW := (@BW P J B).
    Abbreviation repo_in := (λ w : BW, sw_repo w.1).

Lemma wp_worker_block reason (Q : result ManagedError unit → BW → Prop) w :
      held (repo_in w) → (∀ r w', held (repo_in w') → Q r w') → wp (block l reason) Q w.
Proof.
      intros Hw HQ. unfold block. mw_step. svc_step. apply HQ. cbn [fst sw_repo]. apply block_held. by apply held_found.
Qed.

Lemma wp_read_journal id (Q : result ManagedError (option OperationRecord) → BW → Prop) w :
      (∀ r w', w'.1 = w.1 →
         (∀ op, r = Ok (Some op) → ∃ j0, j_get id j0 = (Ok (Some op), journal w'.2)) → Q r w') →
      wp (read_journal id) Q w.
Proof.
      intros HQ. unfold wp, read_journal, journal_call.
      destruct (j_get id (journal w.2)) as [r j] eqn:Hj. apply HQ; [done|].
      intros op Hr. exists (journal w.2). destruct r; [|done]. cbn in *. congruence.
Qed.

Lemma wp_settle_from_journal stale_after id op j0 (w : BW) :
      held (repo_in w) → j_get id j0 = (Ok (Some op), journal w.2) →
      wp (settle_from_journal stale_after l op) (λ _ w', kept_or_settled id (repo_in w') (journal w'.2)) w.
Proof.
      intros Hw Hj. unfold settle_from_journal.
      assert (Hblock : ∀ reason w, held (repo_in w) →
        wp (block l reason) (λ _ w', kept_or_settled id (repo_in w') (journal w'.2)) w).
      { intros reason w1 Hw1. apply wp_worker_block; [done|]. intros r w' Hw'. by left. }
      assert (Hlate : ∀ reason, wp (now ← now_ms;
          if op_updated_at_ms op <=? i64_saturating_sub now (i64_wrap stale_after) then block l reason else mret tt)
        (λ _ w', kept_or_settled id (repo_in w') (journal w'.2)) w).
      { intros reason. mw_step. unfold wp at 1, now_ms, draw. case_match; [by apply Hblock|]. mw_step. by left. }
      destruct (op_state op) eqn:Hst; try apply Hlate.
      - destruct (op_committed op) as [stored|] eqn:Hc; [|by apply Hblock].
        destruct (version_history_complete stored) eqn:Hh; [|by apply Hblock].
        mw_step. svc_step. cbn [fst snd sw_repo].
        pose proof (commit_ledgers (o_env (sw_tick w.1)) stored _ (held_found _ Hother Hw)) as [[Hl _]|[Hl _]]; [by left|].
        right. exists op, j0. split; [done|]. right. by exists stored.
      - mw_step. svc_step. right. exists op, j0. split; [done|]. by left.
Qed.

Lemma wp_reconcile_claimed stale_after durable (w : BW) :
      held (repo_in w) →
      wp (reconcile_claimed_intent st stale_after durable l)
         (λ _ w', kept_or_settled (wi_intent_id (di_intent durable)) (repo_in w') (journal w'.2)) w.
Proof.
      intros Hw. unfold reconcile_claimed_intent. cbv zeta.
      set (id := wi_intent_id (di_intent durable)).
      assert (Hblock : ∀ reason w, held (repo_in w) →
        wp (block l reason) (λ _ w', kept_or_settled id (repo_in w') (journal w'.2)) w).
      { intros reason w1 Hw1. apply wp_worker_block; [done|]. intros r w' Hw'. by left. }
      mw_step. mw_step. mw_step. apply wp_mono with (λ _ v, sw_repo v = sw_repo w.1).
      { unfold validate_durable_intent_backend. svc_step. svc_step.
        destruct (backend_for_id _ _); cbn [ok_or]; [|done]. do 2 (case_match; [by svc_step|]).
        svc_step. unfold versioning_mode. svc_step. svc_step. apply wp_s3_call. intros r p. svc_step.
        do 2 (case_match; [by svc_step|]). by svc_step. }
      intros valid v Hv. assert (Hv' : held (repo_in (v, w.2))) by (unfold held in *; cbn; congruence).
      destruct valid as [b|reason]; [|by apply Hblock].
      mw_step. apply wp_read_journal. intros r w1 E1 Hr. cbn [fst snd] in *.
      assert (H1' : held (repo_in w1)) by (by rewrite E1). destruct r as [[op|]|]; [|by apply Hblock|by left].
      destruct (Hr op eq_refl) as [j0 Hj]. case_match; [by apply Hblock|].
      mw_step. apply wp_mono with (λ r w', held (repo_in w') ∧
        ∀ row, r = Ok (Some row) → ∃ j0, j_get id j0 = (Ok (Some row), journal w'.2)).
      { unfold reconciled_row. case_match; [mw_step; split; [done|]; intros ? [= <-]; eauto|].
        mw_step. unfold wp at 1, now_v7, draw. mw_step. mw_step.
        destruct (reconciler_new _) as [rc|]; cbn [map_err]; [|by split].
        mw_step. mw_step. unfold wp at 1, tx_with. destruct (reconcile_operation _ _ _) as [r2 w2]. cbn [fst snd].
        destruct r2 as [[]|error].
        1,2: mw_step; apply wp_read_journal; intros r3 w3 E3 Hr3; cbn [fst snd] in *;
          assert (held (repo_in w3)) by (by rewrite E3); (destruct r3 as [o|]; [|by split]);
          mw_step; mw_step; (destruct o as [op'|]; cbn [ok_or]; [|by split]); mw_step;
          split; [done|]; intros ? [= <-]; eauto.
        mw_step. apply wp_worker_block; [done|]. intros [] w3 H3'; [mw_step|]; by split. }
      intros r w2 [H2' Hr2]. destruct r as [[row|]|]; [|by mw_step; left|by left].
      destruct (Hr2 row eq_refl) as [j1 Hj1]. by eapply wp_settle_from_journal.
Qed.
End worker.
End settle.

Section ends.
  Context {P J B : Type} `{ServiceProvider P, JournalLaws J, TransactionBackend B}.
  Context `{Crypto, ManagedText, Outside, Penalty, UrlParser}.
  Context (sha256_hex : list byte → string).

(** C16: No physical version gets lost: while other requests leave a physical
    write alone, its record leaves the repository only when it is accounted
    for.  The sink's [complete] succeeds only with a complete version history,
    with every version of it in the ledger and, over a direct sink that keeps
    its invariant, with the operation COMMITTED in the journal with exactly
    this result; it keeps the record otherwise;
    [abort], and the worker that has taken the write over, drop it only after
    the operation journal answered that the operation is aborted, or committed
    with a complete history whose versions are all in the ledger. *)
Theorem write_ends_accounted (l : PhysicalWriteLease) (intent : PhysicalWriteIntent) :
    others_keep_write l →
    (∀ X (d : ManagedDirectSink) (w : MW P J B X), md_lease d = l → held l intent (sw_repo (mw_svc w)) →
       wp (direct_complete sha256_hex d) (λ r w', match r with
         | Ok stored => version_history_complete stored = true
                        ∧ all_ledgered l intent stored (sw_repo (mw_svc w'))
                        ∧ (inv (md_operation_id d) (mw_tx w) → recorded (md_operation_id d) stored (mw_tx w'))
         | Err _ => held l intent (sw_repo (mw_svc w')) end) w
       ∧ wp (direct_abort d) (λ _ w',
           kept_or_settled l intent (md_operation_id d) (sw_repo (mw_svc w')) (journal (mw_tx w'))) w)
    ∧ (∀ st stale_after durable (w : SvcWorld P * World unit J B), held l intent (sw_repo w.1) →
         wp (reconcile_claimed_intent st stale_after durable l) (λ _ w',
           kept_or_settled l intent (wi_intent_id (di_intent durable)) (sw_repo w'.1) (journal w'.2)) w).
Proof.
    intros Ho. split.
    - intros X d w Hd Hw. split; [by apply wp_direct_complete|by apply wp_direct_abort].
    - intros st stale_after durable w Hw. by apply wp_reconcile_claimed.
Qed.
End ends.
