(* ===== verification/ManagedPut.v ===== *)
(** * Managed storage: what a managed PUT publishes

    A managed PUT that succeeds publishes, for the bytes the provider was sent,
    an authority with their size and digest, and settles its operation; a PUT
    that cannot begin gives the workspace back; one that fails after its usage
    was recorded does not. *)

From S2P Require Import Prelude Operation Journal MemJournal Transaction Reconciler DirectSink SinkSafety SinkData.
From S2P Require Import RustStr Integrity Managed ManagedRepo ManagedUsage ManagedOps ManagedPurge ManagedWrites Placement ServiceStorage ManagedSink ManagedSettle.

#[local] Open Scope Z_scope.
Set Default Goal Selector "!".

(** ** The repository calls of a PUT *)

Section calls.
  Context `{Crypto, ManagedText}.

Lemma transition_Ok e id from to c s o :
    (transition_logical_operation e id from to c s).1 = Ok o →
    logical_operations (transition_logical_operation e id from to c s).2 !! id = Some o ∧ lo_state o = to.
Proof.
    unfold transition_logical_operation. repeat case_match; try done. cbn. intros [= <-].
    by rewrite lookup_insert_eq.
Qed.

  (** A commit that finds the operation completing publishes its authority. *)
Lemma put_publishes e id a n s o c :
    logical_operations s !! id = Some o → lo_state o = LCompleting →
    (commit_logical_put e id a n s).1 = Ok c →
    (∃ o', logical_operations (commit_logical_put e id a n s).2 !! id = Some o' ∧ lo_state o' = LCommitted)
    ∧ ∃ cas created updated, authorities (commit_logical_put e id a n s).2 !! oa_logical a
        = Some (set_oa_updated_at_ms updated (set_oa_created_at_ms created (set_oa_cas_version cas a))).
Proof.
    intros Ho Hst. unfold commit_logical_put. rewrite Ho. cbv zeta.
    rewrite decide_False by congruence.
    destruct (lo_evidence o) as [ev|]; [|done]. destruct (put_mismatch _ _ _); [done|].
    destruct (fence_lost _ _); [done|]. destruct (physical_allocation _ _); [|done].
    repeat (case_match; try done).
    all: frame_repairs; intros _; split; cbn; rewrite lookup_insert_eq; by repeat eexists.
Qed.

Lemma commit_write_ops e l vs v s : logical_operations (commit_physical_write e l vs v s).2 = logical_operations s.
Proof. unfold commit_physical_write. by repeat case_match. Qed.
Lemma block_write_ops e l reason s : logical_operations (block_physical_write e l reason s).2 = logical_operations s.
Proof. unfold block_physical_write. by case_match. Qed.
Lemma renew_write_ops e l x s : logical_operations (renew_physical_write_intent e l x s).2 = logical_operations s.
Proof. unfold renew_physical_write_intent. by case_match. Qed.
End calls.

Section put.
  Context {P J B : Type} `{ServiceProvider P, OperationJournal J, TransactionBackend B}.
  Context `{Crypto, ManagedText, Outside, Penalty, UrlParser}.
  Context (sha256_hex : list byte → string) (part_bytes : nat).
  Context (uuid_new_v5 : list byte → list byte → Uuid) (st : ServiceStorage).
  Context (id : Uuid).

  (** Other requests do not act on the operation of this PUT. *)
Definition others_leave_operation : Prop := ∀ n s,
    logical_operations (run_others (o_others n) s) !! id = logical_operations s !! id.

Definition completing (s : MemoryState) : Prop :=
    ∃ o, logical_operations s !! id = Some o ∧ lo_state o = LCompleting.

Lemma completing_found (w : SvcWorld P) :
    others_leave_operation → completing (sw_repo w) → completing (found_repo w).
Proof. intros Ho Hw. unfold completing, found_repo. by rewrite Ho. Qed.

Section inner.
    Context {X : Type} (d : ManagedDirectSink) (Hother : others_leave_operation).
    Abbreviation MWX := (MW P J B X).
    Abbreviation repo_of := (λ w : MWX, sw_repo (mw_svc w)).

    (** A call that leaves the operations alone. *)
Lemma wp_repo_keep {A} (f : Env → SE MemoryState ManagedError A) (Q : result TransactionError A → MWX → Prop) w :
      (∀ e s, logical_operations (f e s).2 = logical_operations s) → completing (repo_of w) →
      (∀ r w', completing (repo_of w') → mw_tx w' = mw_tx w → mw_me w' = mw_me w → Q r w') →
      wp (repo f) Q w.
Proof.
      intros Hf Hw HQ. apply wp_repo. intros e v. pose proof (completing_found _ Hother Hw) as Hc.
      unfold completing in Hc. rewrite <- (Hf e) in Hc. destruct (f e _) as [r s]. intros <-. by apply HQ.
Qed.

    (** The completion of the sink below sends [data] only and leaves the operation completing. *)
Lemma wp_direct_complete_sent data (w : MWX) :
      SinkData.stored part_bytes data (mw_tx w) → sent_only data (log (mw_tx w)) → completing (repo_of w) →
      wp (direct_complete sha256_hex d) (λ _ w', completing (repo_of w') ∧ sent_only data (log (mw_tx w'))
        ∧ mw_me w' = mw_me w) w.
Proof.
      intros Hst Hs Hw. unfold direct_complete. mw_step. unfold renew_lease. apply wp_repo_keep; [|done|].
      { intros e s. apply renew_write_ops. }
      intros [] w1 H1' T1 M1; [|by rewrite T1]. mw_step. mw_step.
      apply wp_mono with (λ _ w', completing (repo_of w') ∧ sent_only data (log (mw_tx w')) ∧ mw_me w' = mw_me w).
      { unfold complete_reconciled. mw_step. mw_step. mw_step. rewrite T1.
        eapply wp_mono; [by eapply wp_complete_data|]. intros r v Hv. destruct r; [by mw_step|].
        mw_step. unfold journal_get. mw_step. apply wp_from_journal. unfold wp, journal_call.
        destruct (j_get _ _) as [[o|] j]; [|done]. cbn [map_err]. apply wp_bind, wp_lift.
        destruct o; cbn [ok_or]; [|done]. case_match; mw_step; done. }
      intros r w2 (H2' & S2 & M2).
      assert (Hblock : ∀ (f : ManagedError → TransactionError) reason (w3 : MWX) (Q : result TransactionError unit → MWX → Prop),
        completing (repo_of w3) → (∀ r w', completing (repo_of w') → mw_tx w' = mw_tx w3 → mw_me w' = mw_me w3 → Q r w') →
        wp (on_svc (se_map_err f (repo_call (λ e, block_physical_write e (md_lease d) reason)))) Q w3).
      { intros f reason w3 Q Hc HQ. mw_step. svc_step. svc_step. apply HQ; [|done..].
        cbn. unfold completing. rewrite block_write_ops. by apply completing_found. }
      destruct r as [stored|error]; lazy beta match.
      - destruct (version_history_complete stored); cbn [negb].
        + mw_step. mw_step. mw_step. svc_step.
          assert (Hc : completing (commit_physical_write (o_env (sw_tick (mw_svc w2))) (md_lease d)
            (superseded_version_ids stored) (version_id stored) (found_repo (mw_svc w2))).2).
          { unfold completing. rewrite commit_write_ops. by apply completing_found. }
          destruct (commit_physical_write _ _ _ _ _) as [[[]|e] s]; cbn [fst snd] in *; [by mw_step|].
          mw_step. mw_step. mw_step. svc_step. mw_step. cbn. split; [|done].
          unfold completing. rewrite block_write_ops. by apply completing_found.
        + mw_step. apply wp_repo_keep; [|done|].
          { intros e s. apply block_write_ops. }
          intros [] w3 H3' T3 M3; [mw_step|]; rewrite T3, M3; done.
      - mw_step. apply Hblock; [done|]. intros [] w3 H3' T3 M3; [mw_step|]; rewrite T3, M3; done.
Qed.
End inner.

  (** ** The calls of the request on its sink *)

  (** [write_stream_record] and the end of the request: the chunks, their
      verification, the usage evidence and the completion. *)
Abbreviation MWL := (MW P J B ManagedLogicalSink).
Abbreviation repo_of := (λ w : MWL, sw_repo (mw_svc w)).
Abbreviation accounted := (SinkData.accounted part_bytes).

Fixpoint write_chunks (chunks : list (list byte)) : SE MWL TransactionError unit :=
    match chunks with
    | [] => mret tt
    | chunk :: chunks => logical_write sha256_hex part_bytes chunk;; write_chunks chunks
    end.
Definition put_body (chunks : list (list byte)) (size : Z) (digest : string) (event : UsageEvent)
      : SE MWL TransactionError StoredObjectMeta :=
    write_chunks chunks;;
    logical_verify_output sha256_hex size digest;;
    record_usage_evidence event;;
    logical_complete sha256_hex.

  (** A sink as [begin_managed_put_sink] makes it. *)
Definition begun (logical : LogicalObjectKey) (generation : Uuid) (p : Placement) (me : ManagedLogicalSink) : Prop :=
    ml_operation_id me = id ∧ mr_logical_operation_id (ml_inner me) = Some id
    ∧ mr_logical (ml_inner me) = logical ∧ mr_generation (ml_inner me) = generation
    ∧ mr_placement (ml_inner me) = p ∧ ml_usage_recorded me = false.

Lemma wp_logical_write chunk data (w : MWL) :
    (0 < part_bytes)%nat → accounted data (mw_tx w) →
    wp (logical_write sha256_hex part_bytes chunk)
      (λ r w', r = Ok tt → accounted (data ++ chunk) (mw_tx w') ∧ mw_me w' = mw_me w) w.
Proof.
    intros Hpos Hw. unfold logical_write. mw_step. mw_step. destruct (ml_committed _); [by mw_step|].
    mw_step. unfold replicated_write. mw_step. mw_step. destruct (mr_finished _); [by mw_step|].
    unfold direct_write, renew_lease. mw_step. apply wp_repo. intros e v. cbn [mw_svc mw_tx mw_me].
    destruct (renew_physical_write_intent _ _ _ _) as [[] s]; [|done]. intros _. cbn [map_err].
    mw_step. cbn [mw_tx]. eapply wp_mono; [by eapply wp_write_data|]. intros r v' Hr E. cbn.
    split; [by apply Hr|]. by destruct (mw_me w).
Qed.

Lemma wp_write_chunks chunks data (w : MWL) :
    (0 < part_bytes)%nat → accounted data (mw_tx w) →
    wp (write_chunks chunks)
      (λ r w', r = Ok tt → accounted (data ++ concat chunks) (mw_tx w') ∧ mw_me w' = mw_me w) w.
Proof.
    intros Hpos. revert data w. induction chunks as [|c cs IH]; intros data w Hw; simpl.
    - mw_step. intros _. by rewrite app_nil_r.
    - mw_step. eapply wp_mono; [by apply wp_logical_write|]. intros [[]|] w1 H1'; [|done].
      destruct (H1' eq_refl) as [A1 M1]. eapply wp_mono; [by apply IH|]. intros r w2 H2' E.
      rewrite app_assoc, <- M1. by apply H2'.
Qed.

Lemma wp_logical_verify logical g p size digest data (w : MWL) :
    accounted data (mw_tx w) → begun logical g p (mw_me w) →
    wp (logical_verify_output sha256_hex size digest)
      (λ r w', r = Ok tt → accounted data (mw_tx w') ∧ begun logical g p (mw_me w')
        ∧ mr_output (ml_inner (mw_me w')) = Some (size, digest)
        ∧ size = Z.of_nat (length data) ∧ digest = sha256_hex data) w.
Proof.
    intros Hw Hb. unfold logical_verify_output. mw_step. mw_step. destruct (ml_committed _); [by mw_step|].
    mw_step. mw_step. unfold replicated_verify_output. mw_step. mw_step. mw_step.
    unfold direct_verify_output, renew_lease. mw_step. apply wp_repo. intros e v. cbn [mw_svc mw_tx mw_me].
    destruct (renew_physical_write_intent _ _ _ _) as [[] s]; [|done]. intros _. cbn [map_err].
    mw_step. cbn [mw_tx]. eapply wp_mono; [by eapply wp_verify_data|]. intros [[]|] v' Hr; [|done].
    mw_step. mw_step. cbn. intros _. destruct (Hr eq_refl) as (? & ? & ?). destruct Hb as (? & ? & ? & ? & ? & ?).
    by split_and!.
Qed.

Lemma wp_record_usage logical g p event (w : MWL) :
    begun logical g p (mw_me w) →
    wp (record_usage_evidence event)
      (λ r w', r = Ok tt → completing (repo_of w') ∧ mw_tx w' = mw_tx w
        ∧ mw_me w' = set_ml_usage_recorded true (mw_me w)) w.
Proof.
    intros (Eid & _ & _ & _ & _ & Eu). unfold record_usage_evidence. mw_step. mw_step. rewrite Eu, Eid.
    mw_step. mw_step. destruct (ok_or _ _); [|done]. mw_step. mw_step. destruct (ok_or _ _); [|done].
    mw_step. apply wp_repo. intros e v. cbn. intros _. mw_step. mw_step. destruct (ok_or _ _); [|done].
    destruct (negb _); [by mw_step|]. destruct (negb _); [by mw_step|].
    mw_step. apply wp_repo. intros e1 v1. cbn [mw_svc mw_tx mw_me].
    destruct (record_logical_usage _ _ _ _) as [[] s1]; [|done]. intros _. cbn [map_err].
    mw_step. apply wp_repo. intros e2 v2. cbn [mw_svc mw_tx mw_me].
    pose proof (transition_Ok e2 id LOpen LCompleting None (found_repo v1)) as Ht.
    destruct (transition_logical_operation _ _ _ _ _ _) as [[o|] s2]; [|done]. intros <-. cbn [map_err fst snd] in *.
    mw_step. intros _. split; [|done]. exists o. by apply Ht.
Qed.

  (** What the PUT of [data] leaves behind. *)
Definition published (logical : LogicalObjectKey) (data : list byte) (me : ManagedLogicalSink)
      (stored : StoredObjectMeta) (w : MWL) : Prop :=
    (∃ a, authorities (repo_of w) !! logical = Some a
      ∧ oa_logical a = logical ∧ oa_generation a = mr_generation (ml_inner me)
      ∧ oa_size a = Z.of_nat (length data) ∧ oa_digest a = sha256_hex data
      ∧ oa_primary_backend_id a = pl_primary_backend_id (mr_placement (ml_inner me))
      ∧ oa_primary_version_id a = version_id stored ∧ oa_primary_status a = Ready ∧ oa_tombstone a = false)
    ∧ (∃ o, logical_operations (repo_of w) !! id = Some o ∧ lo_state o = LCommitted)
    ∧ sent_only data (log (mw_tx w)).

Lemma wp_logical_complete logical data (w : MWL) :
    others_leave_operation → SinkData.accounted part_bytes data (mw_tx w) → completing (repo_of w) →
    mr_logical_operation_id (ml_inner (mw_me w)) = Some id → mr_logical (ml_inner (mw_me w)) = logical →
    mr_output (ml_inner (mw_me w)) = Some (Z.of_nat (length data), sha256_hex data) →
    wp (logical_complete sha256_hex) (λ r w', ∀ stored, r = Ok stored → published logical data (mw_me w) stored w') w.
Proof.
    intros Hother (Hst & _ & _ & Hn) Hc Eop Elog Eout. unfold logical_complete. mw_step. mw_step.
    destruct (ml_committed _); [by mw_step|]. destruct (negb _); [by mw_step|]. mw_step. mw_step.
    unfold replicated_complete. mw_step. mw_step. cbn [mw_me]. destruct (mr_finished _); [by mw_step|].
    rewrite Eout, Eop. mw_step. mw_step. cbn [ok_or]. mw_step.
    eapply wp_mono; [apply (wp_direct_complete_sent _ Hother data); [done|by apply no_commit_sent|done]|].
    intros [primary|] w1 (C1 & S1 & M1); [|done]. cbn [mw_me] in M1.
    do 3 mw_step. destruct (ok_or _ _) as [count|]; [|done]. mw_step. mw_step.
    destruct (ok_or _ _) as [allocated|]; [|done]. mw_step. apply wp_repo. intros e v.
    destruct (completing_found _ Hother C1) as (o & Ho & Hlo).
    match goal with |- context [commit_logical_put e id ?a allocated ?s] =>
      pose proof (put_publishes e id a allocated s o) as Hp end.
    destruct (commit_logical_put _ _ _ _ _) as [[c|] s]; [|done]. intros E. cbn [map_err fst snd] in *.
    destruct (Hp c Ho Hlo eq_refl) as (Hop & cas & created & updated & Ha). clear Hp. subst s.
    repeat mw_step. cbn. intros stored [= <-]. split_and!; [|done|done].
    eexists. split; [by rewrite <- Elog|]. by split_and!.
Qed.

  (** ** The start of the PUT *)

Abbreviation BW := (@BW P J B).

Lemma wp_draw_uuid (Q : result TransactionError Uuid → BW → Prop) w :
    (∀ u v, sw_repo v = sw_repo w.1 → Q (Ok u) (v, w.2)) → wp draw_uuid Q w.
Proof. intros HQ. apply HQ. by destruct w as [[] ?]. Qed.

Lemma wp_b_repo {A} (f : Env → SE MemoryState ManagedError A) (Q : result TransactionError A → BW → Prop) w :
    (∀ e v, let (r, s) := f e (found_repo w.1) in sw_repo v = s → Q (map_err publication r) (v, w.2)) →
    wp (b_repo f) Q w.
Proof.
    intros HQ. unfold b_repo. mw_step. svc_step. svc_step. specialize (HQ (o_env (sw_tick w.1))).
    destruct (f _ _) as [r s]. by apply (HQ (mkSvc s _ _ _)).
Qed.

Lemma wp_from_operation op n (w : Transaction.World unit J B) :
    log w = [] →
    wp (from_operation op n true) (λ r w', ∀ s, r = Ok s → SinkData.accounted part_bytes [] (with_sink s w')) w.
Proof.
    intros Hl. unfold wp, from_operation, mbind, SE_bind, se_lift, from_journal, journal_call.
    destruct (map_err TCapability (streaming_eligibility _)); simpl; [|done].
    destruct (j_insert_intent _ _) as [[[]|x] j]; simpl; [|done].
    intros sink [= <-]. split_and!; [|done|done|simpl; rewrite Hl; by constructor].
    exists []. simpl. split_and!; [done|by constructor|lia|done|done].
Qed.

Lemma wp_direct_sink_for backend_id logical key metadata child (w : BW) :
    log w.2 = [] →
    wp (direct_sink_for uuid_new_v5 st backend_id logical key metadata child)
      (λ r w', ∀ sink d, r = Ok (sink, d) → SinkData.accounted part_bytes [] (with_sink sink w'.2)) w.
Proof.
    intros Hl. unfold direct_sink_for. mw_step. mw_step. destruct (ok_or _ _) as [b|]; [|done].
    destruct (match child with Supplied _ => _ | DeterministicChild _ _ => _ end) as [operation_id expected].
    mw_step. mw_step. apply wp_any. intros [] v1; [|done]. mw_step. mw_step. apply wp_any. intros [mode|] v2; [|done].
    mw_step. mw_step. destruct (ok_or _ _); [|done]. mw_step. mw_step. destruct (ok_or _ _); [|done].
    mw_step. apply wp_draw_uuid. intros writer v3 _. mw_step. apply wp_b_repo. intros e v4.
    destruct (begin_physical_write _ _ _) as [[lease|] s]; [|done]. intros _. cbn [map_err snd].
    case_match.
    { mw_step. apply wp_b_repo. intros e5 v5. destruct (abort_physical_write _ _ _) as [[] ?]; [|done].
      intros _. cbn [map_err]. by mw_step. }
    mw_step. apply wp_draw_uuid. intros request v6 _. mw_step. mw_step. destruct (map_err _ _); [|done].
    mw_step. mw_step. unfold wp at 1, unix_time_ms. cbn [snd].
    mw_step. apply wp_draw_uuid. intros fresh v7 _. cbn [snd]. mw_step. mw_step. mw_step. cbn [snd fst].
    eapply wp_mono; [by apply wp_from_operation|]. intros [sink|x] w8 H8.
    - mw_step. intros ? d [= <- _]. by apply H8.
    - mw_step. apply wp_any. intros [] v9; [by mw_step|done].
Qed.

Lemma wp_begin_authoritative logical ct scope generation (w : BW) :
    log w.2 = [] →
    wp (begin_authoritative_sink_for_operation uuid_new_v5 st logical ct id scope generation)
      (λ r w', ∀ sink me, r = Ok (sink, me) → SinkData.accounted part_bytes [] (with_sink sink w'.2)
        ∧ mr_logical_operation_id me = Some id ∧ mr_logical me = logical) w.
Proof.
    intros Hl. unfold begin_authoritative_sink_for_operation.
    destruct (negb _); [by mw_step|]. destruct (negb _); [by mw_step|].
    mw_step. mw_step. destruct (map_err _ _); [|done]. mw_step. mw_step. apply wp_any. intros [] v1; [|done].
    mw_step. mw_step. destruct (ok_or _ _) as [p|]; [|done].
    mw_step. apply wp_b_repo. intros e v2. cbn. intros _. mw_step. mw_step. destruct (ok_or _ _); [|done].
    mw_step. apply wp_b_repo. intros e' v3. cbn [workspace_usage_of]. intros _.
    cbn [map_err]. lazy beta match. case_match; [by mw_step|]. mw_step.
    eapply wp_mono; [by apply wp_direct_sink_for|]. intros [[sink d]|] w1 H1'; [|done].
    mw_step. intros ? ? [= <- <-]. split; [by eapply H1'|done].
Qed.

Lemma wp_begin_put durable logical ct receipt at_ rate max cas prior (w : BW) :
    log w.2 = [] →
    wp (begin_managed_put_sink uuid_new_v5 st durable logical ct id receipt at_ rate max cas prior)
      (λ r w', ∀ sink me, r = Ok (sink, me) → SinkData.accounted part_bytes [] (with_sink sink w'.2)
        ∧ begun logical (mr_generation (ml_inner me)) (mr_placement (ml_inner me)) me) w.
Proof.
    intros Hl. unfold begin_managed_put_sink. destruct (negb _); [by mw_step|].
    mw_step. mw_step. destruct (map_err _ _); [|done]. destruct (negb _); [by mw_step|].
    mw_step. mw_step. apply wp_any. intros [] v1; [|done].
    mw_step. apply wp_b_repo. intros e v2. destruct (assert_namespace_active _ _) as [[] s2]; [|done]. intros _.
    cbn [map_err snd]. mw_step. apply wp_b_repo. intros e' v3. destruct (route_fence _ _) as [[fence|] s3]; [|done].
    intros _. cbn [map_err snd]. mw_step. mw_step. destruct (ok_or _ _) as [p|]; [|done].
    mw_step. mw_step. destruct (ok_or _ _) as [b|]; [|done]. mw_step. apply wp_draw_uuid. intros generation v4 _.
    mw_step. mw_step. apply wp_any. intros [] v5; [|done]. unfold admit_put.
    mw_step. apply wp_b_repo. intros e6 v6. cbn [workspace_usage_of]. intros _.
    cbn [map_err]. lazy beta match. mw_step. mw_step. mw_step. apply wp_any. intros [] v7.
    - mw_step. mw_step. eapply wp_mono; [by apply wp_begin_authoritative|]. intros [[sink me]|] w8 H8.
      + mw_step. intros ? ? [= <- <-]. by destruct (H8 _ _ eq_refl) as (? & ? & ?).
      + mw_step. apply wp_any. intros [] v9; [by mw_step|done].
    - mw_step. apply wp_any. intros [] v9; [by mw_step|done].
Qed.

(** C15: A managed PUT that succeeds publishes what was written.  When the sink
    begins, the chunks are written, their size and digest verified, the usage
    recorded and the sink completed, then the object's authority is that of this
    PUT's generation, live and ready at the primary in the version the provider
    returned, with the size and the SHA-256 of the concatenated chunks; the
    provider was sent those bytes and no others; and the operation is COMMITTED. *)
Theorem managed_put_publishes durable logical ct receipt at_ rate max cas prior v u sink me v' u'
      chunks size digest event stored w' :
    (0 < part_bytes)%nat → others_leave_operation → log u = [] →
    begin_managed_put_sink uuid_new_v5 st durable logical ct id receipt at_ rate max cas prior (v, u)
      = (Ok (sink, me), (v', u')) →
    put_body chunks size digest event (mkMW v' (with_sink sink u') me) = (Ok stored, w') →
    published logical (concat chunks) me stored w'
    ∧ size = Z.of_nat (length (concat chunks)) ∧ digest = sha256_hex (concat chunks).
Proof.
    intros Hpos Hother Hl Hbegin Hput.
    pose proof (wp_begin_put durable logical ct receipt at_ rate max cas prior (v, u) Hl) as Hb.
    unfold wp in Hb. rewrite Hbegin in Hb. destruct (Hb sink me eq_refl) as [Hacc Hme]. clear Hb Hbegin.
    enough (Hwp : wp (put_body chunks size digest event) (λ r w', ∀ stored, r = Ok stored →
        published logical (concat chunks) me stored w'
        ∧ size = Z.of_nat (length (concat chunks)) ∧ digest = sha256_hex (concat chunks))
      (mkMW v' (with_sink sink u') me)) by (unfold wp in Hwp; rewrite Hput in Hwp; by apply Hwp).
    unfold put_body. mw_step. eapply wp_mono; [by eapply (wp_write_chunks chunks [])|].
    intros [[]|] w1 H1'; [|done]. destruct (H1' eq_refl) as [A1 M1]. cbn [mw_me] in M1. rewrite app_nil_l in A1.
    mw_step. eapply wp_mono; [by eapply (wp_logical_verify logical _ _); [|rewrite M1]|].
    intros [[]|] w2 H2'; [|done]. destruct (H2' eq_refl) as (A2 & B2 & O2 & -> & ->).
    mw_step. eapply wp_mono; [by eapply wp_record_usage|]. intros [[]|] w3 H3'; [|done].
    destruct (H3' eq_refl) as (C3 & T3 & M3). destruct B2 as (_ & E2 & L2 & G2 & P2 & _).
    eapply wp_mono; [apply (wp_logical_complete logical (concat chunks)); try done|].
    - by rewrite T3.
    - by rewrite M3.
    - by rewrite M3.
    - by rewrite M3.
    - intros r w4 Hr stored4 E. split; [|done].
      apply Hr in E. unfold published in *. rewrite M3 in E. cbn in E. by rewrite G2, P2 in E.
Qed.

  (** ** A PUT that cannot begin *)

  (** No version in the ledger is of the child of [o]. *)
Definition unwritten (o : ManagedLogicalOperation) (s : MemoryState) : Prop :=
    Forall (λ v, vt_write_operation_id v ≠ li_primary_child_operation_id (lo_intent o)) (physical_versions s).

  (** What the other requests do: valid calls, on other operations and children. *)
Record others_apart : Prop := {
    oth_calls n : Forall (λ c, call_ok c.2) (o_others n);
    oth_operation : others_leave_operation;
    oth_versions n s o : logical_operations s !! id = Some o → unwritten o s →
      unwritten o (run_others (o_others n) s);
  }.

Definition pending (s : MemoryState) : Prop :=
    mreach s ∧ ∃ o, logical_operations s !! id = Some o ∧ lo_state o ≠ LCommitted ∧ unwritten o s.

  (** The operation is over, or was never recorded, and holds no workspace. *)
Definition released (s : MemoryState) : Prop :=
    match logical_operations s !! id with Some o => lo_state o = LProvenAborted | None => True end
    ∧ ∀ t, wu_active_operation_id (urow (workspace_usage s) t) ≠ Some id.

Lemma mreach_released s :
    mreach s → match logical_operations s !! id with Some o => lo_state o = LProvenAborted | None => True end →
    released s.
Proof.
    intros Hs Ho. split; [done|]. intros t Ht.
    apply (row_active _ _ _ (acc_row _ _ (mreach_macc _ Hs) t)) in Ht as (o & Eo & _ & Ha).
    rewrite Eo in Ho. unfold op_active in Ha. by rewrite Ho in Ha.
Qed.

Lemma mreach_others cs s : Forall (λ c, call_ok c.2) cs → mreach s → mreach (run_others cs s).
Proof.
    intros Hc. revert s. induction Hc as [|[e c] cs Hc _ IH]; intros s Hs; [done|].
    apply IH. by apply mreach_step.
Qed.

Lemma mreach_found (w : SvcWorld P) : others_apart → mreach (sw_repo w) → mreach (found_repo w).
Proof. intros Ho. apply mreach_others, Ho. Qed.

Lemma pending_found (w : SvcWorld P) : others_apart → pending (sw_repo w) → pending (found_repo w).
Proof.
    intros Ho (Hs & o & Hlo & Hst & Hu). split; [by apply mreach_found|]. exists o.
    split; [by unfold found_repo; rewrite (oth_operation Ho)|]. split; [done|]. by apply Ho.
Qed.

  (** A call of the PUT that keeps the operation and the ledger. *)
Lemma pending_call e c s :
    call_ok c → logical_operations (managed_step e c s) = logical_operations s →
    physical_versions (managed_step e c s) = physical_versions s → pending s → pending (managed_step e c s).
Proof.
    intros Hc El Ev (Hs & o & Hlo & Hst & Hu). split; [by apply mreach_step|]. exists o.
    unfold unwritten. by rewrite El, Ev.
Qed.

Lemma pending_begin_write e i s : pending s → pending (begin_physical_write e i s).2.
Proof.
    apply (pending_call e (CBeginWrite i)); [done| |]; unfold managed_step, call_run, begin_physical_write;
      cbn; by repeat case_match.
Qed.
Lemma pending_abort_write e l s : pending s → pending (abort_physical_write e l s).2.
Proof.
    apply (pending_call e (CAbortWrite l)); [done| |]; unfold managed_step, call_run, abort_physical_write;
      cbn; by case_match.
Qed.

Lemma pending_insert e i s o :
    mreach s → li_operation_id i = id → is_u64 (li_prior_logical_size i) → logical_operations s !! id = None →
    (insert_logical_operation e i s).1 = Ok o → pending (insert_logical_operation e i s).2.
Proof.
    intros Hs Ei Hz Hn Hok. split; [by apply (mreach_step e (CInsertOp i))|]. revert Hok.
    unfold insert_logical_operation. cbv zeta. rewrite Ei. destruct (validate_logical_intent i); [|done].
    do 2 (case_match; [done|]). cbn [logical_operations enter_routing enter_namespace upd_routing_epochs upd_namespace_epochs].
    rewrite Hn. destruct (intent_taken _ _) eqn:Ht; [done|]. intros _. cbn. rewrite lookup_insert_eq.
    eexists. split; [done|]. split; [done|]. unfold intent_taken in Ht. guards.
    apply Forall_forall. intros v Hv Ev. match goal with E : existsb _ (physical_versions _) = false |- _ =>
      revert E; apply not_false_iff_true; apply existsb_exists; exists v end.
    split; [by apply list_elem_of_In|]. by apply bool_decide_eq_true.
Qed.

Lemma pending_reserve e n s : is_u64 n → pending s → pending (reserve_logical_operation e id n s).2.
Proof.
    intros Hn (Hs & o & Hlo & Hst & Hu). split; [by apply (mreach_step e (CReserve id n))|].
    unfold reserve_logical_operation. rewrite Hlo. cbv zeta.
    repeat (case_match; try (by exists o)).
    eexists. cbn. rewrite lookup_insert_eq. by split_and!.
Qed.

  (** Aborting the pending operation gives the workspace back. *)
Lemma pending_abort e c s : pending s → released (prove_logical_abort e id c None s).2.
Proof.
    intros (Hs & o & Hlo & Hst & Hu).
    assert (Hn : child_version_count s (lo_intent o) = 0).
    { unfold child_version_count. rewrite filter_nothing; [done|].
      intros v Hv (Ev & _). by eapply Forall_forall in Hu; [|exact Hv]. }
    destruct (abort_None_settles e id c s o (mreach_macc _ Hs) (mreach_epoch_inv _ Hs) Hlo Hst Hn)
      as (o' & E1 & E2 & _).
    apply mreach_released; [by apply (mreach_step e (CProveAbort id c None))|].
    revert E1. unfold prove_logical_abort. rewrite Hlo. cbv zeta.
    repeat case_match; cbn; try done; intros [= <-]; by simplify_map_eq.
Qed.

Section keeps.
    Context (Hother : others_apart).
    Abbreviation pending_in := (λ w : BW, pending (sw_repo w.1)).

Lemma wp_pending_repo {A} (f : Env → SE MemoryState ManagedError A) (Q : result TransactionError A → BW → Prop) w :
      (∀ e s, pending s → pending (f e s).2) → pending_in w →
      (∀ r w', pending_in w' → Q r w') → wp (b_repo f) Q w.
Proof.
      intros Hf Hw HQ. apply wp_b_repo. intros e v. pose proof (Hf e _ (pending_found _ Hother Hw)) as Hp.
      destruct (f e _) as [r s]. intros <-. by apply HQ.
Qed.

Lemma wp_required (Q : result TransactionError unit → BW → Prop) w :
      (∀ r, Q r w) → wp (b_svc (se_map_err publication (authority_repository_required st))) Q w.
Proof.
      intros HQ. mw_step. svc_step. destruct w as [v u]. unfold authority_repository_required.
      case_match; svc_step; apply HQ.
Qed.

Lemma wp_versioning b (Q : result TransactionError BackendVersioningMode → BW → Prop) w :
      (∀ r v, sw_repo v = sw_repo w.1 → Q r (v, w.2)) → wp (b_svc (versioning_mode b)) Q w.
Proof.
      intros HQ. mw_step. unfold versioning_mode. repeat first [svc_step | apply wp_s3_call; intros ? ? | case_match];
        by apply HQ.
Qed.

Lemma wp_direct_sink_pending backend_id logical key metadata child (w : BW) :
      pending_in w →
      wp (direct_sink_for uuid_new_v5 st backend_id logical key metadata child) (λ _ w', pending_in w') w.
Proof.
      intros Hw. unfold direct_sink_for. mw_step. mw_step. destruct (ok_or _ _) as [b|]; [|done].
      destruct (match child with Supplied _ => _ | DeterministicChild _ _ => _ end) as [operation_id expected].
      mw_step. apply wp_required. intros []; [|done]. mw_step. apply wp_versioning. intros [mode|] v2 E2; [|cbn; by rewrite E2].
      mw_step. mw_step. destruct (ok_or _ _); [|cbn; by rewrite E2]. mw_step. mw_step. destruct (ok_or _ _); [|cbn; by rewrite E2].
      mw_step. apply wp_draw_uuid. intros writer v3 E3. cbn [fst] in E3.
      mw_step. apply wp_pending_repo; [intros e s; apply pending_begin_write|cbn; by rewrite E3, E2|].
      intros [lease|] w4 H4'; [|done]. case_match.
      { mw_step. apply wp_pending_repo; [intros e s; apply pending_abort_write|done|].
        intros [] w5 H5'; [by mw_step|done]. }
      mw_step. apply wp_draw_uuid. intros request v6 E6. mw_step. mw_step.
      destruct (map_err _ _); [|cbn; by rewrite E6]. mw_step. mw_step. unfold wp at 1, unix_time_ms.
      mw_step. apply wp_draw_uuid. intros fresh v7 E7. cbn [fst] in E7. mw_step. mw_step. mw_step. cbn [fst snd].
      apply wp_any. intros [sink|x] v8; [mw_step; cbn; by rewrite E7, E6|].
      mw_step. mw_step. svc_step. svc_step. cbn [fst].
      match goal with |- context [abort_physical_write ?e ?l ?s] =>
        pose proof (pending_abort_write e l s) as Ha; destruct (abort_physical_write e l s) as [[] s9] end;
      cbn [map_err fst snd] in *; [mw_step|]; apply Ha, pending_found; try done; cbn; by rewrite E7, E6.
Qed.

Lemma wp_authoritative_pending logical ct scope generation (w : BW) :
      pending_in w →
      wp (begin_authoritative_sink_for_operation uuid_new_v5 st logical ct id scope generation)
        (λ _ w', pending_in w') w.
Proof.
      intros Hw. unfold begin_authoritative_sink_for_operation.
      destruct (negb _); [by mw_step|]. destruct (negb _); [by mw_step|].
      mw_step. mw_step. destruct (map_err _ _); [|done]. mw_step. apply wp_required. intros []; [|done].
      mw_step. mw_step. destruct (ok_or _ _) as [p|]; [|done].
      mw_step. apply wp_pending_repo; [done|done|]. intros [found|] w2 H2'; [|done].
      mw_step. mw_step. destruct (ok_or _ _); [|done].
      mw_step. apply wp_pending_repo; [done|done|]. intros [usage|] w3 H3'; [|done].
      case_match; [by mw_step|]. mw_step. eapply wp_mono; [by apply wp_direct_sink_pending|].
      intros [[sink d]|] w4 H4'; [by mw_step|done].
Qed.

Lemma reservation_u64 n usage : is_u64 n → is_u64 (reservation_bytes n usage).
Proof.
      intros [Hn _]. unfold is_u64, reservation_bytes, u64_saturating_mul, available_bytes, MANAGED_STREAMING_PUT_HEADROOM.
      assert (0 <= u64_max) by done. lia.
Qed.

Lemma wp_admit logical ct n scope generation (w : BW) :
      is_u64 n → pending_in w →
      wp (admit_put uuid_new_v5 st logical ct id n scope generation)
        (λ r w', ∀ x, r = Err x → released (sw_repo w'.1)) w.
Proof.
      intros Hn Hw. unfold admit_put. mw_step. apply wp_b_repo. intros e v1. cbn [workspace_usage_of]. intros E1.
      cbn [map_err]. lazy beta match. mw_step. mw_step. mw_step. svc_step. cbn [fst].
      assert (H1' : pending (sw_repo v1)) by (rewrite E1; by apply pending_found).
      match goal with |- context [reserve_logical_operation ?e _ ?n ?s] =>
        pose proof (pending_reserve e n s (reservation_u64 _ _ Hn) (pending_found _ Hother H1')) as Hr;
        destruct (reserve_logical_operation e id n s) as [[] s2] end; cbn [fst snd] in *.
      - mw_step. mw_step. eapply wp_mono; [by apply wp_authoritative_pending|]. intros [[sink me]|] w3 H3'; [by mw_step|].
        mw_step. mw_step. mw_step. svc_step. mw_step. intros x _. apply pending_abort. by apply pending_found.
      - mw_step. mw_step. mw_step. svc_step. mw_step. intros x _. apply pending_abort. by apply pending_found.
Qed.

  (** Before the intent is recorded there is no such operation. *)
Definition fresh (s : MemoryState) : Prop := mreach s ∧ logical_operations s !! id = None.

Lemma fresh_released s : fresh s → released s.
Proof. intros [Hs Hn]. apply mreach_released; [done|]. by rewrite Hn. Qed.
Lemma fresh_found (w : SvcWorld P) : fresh (sw_repo w) → fresh (found_repo w).
Proof. intros [Hs Hn]. split; [by apply mreach_found|]. unfold found_repo. by rewrite (oth_operation Hother). Qed.
Lemma fresh_route_fence (e : Env) t s : fresh s → fresh (route_fence t s).2.
Proof.
      intros [Hs Hn]. split; [by apply (mreach_step e (CRouteFence t))|].
      unfold route_fence. by case_match.
Qed.
Lemma fresh_insert e i s x :
      fresh s → is_u64 (li_prior_logical_size i) → (insert_logical_operation e i s).1 = Err x →
      fresh (insert_logical_operation e i s).2.
Proof.
      intros [Hs Hn] Hz Hx. split; [by apply (mreach_step e (CInsertOp i))|]. revert Hx.
      unfold insert_logical_operation. cbv zeta. by repeat case_match.
Qed.

(** A managed PUT that cannot begin leaves nothing behind that blocks the
    workspace.  Whatever fails, the mode, the launch configuration, the fence, the
    reservation, the parent check, the write intent or the journal, the operation
    either was never recorded or is PROVEN_ABORTED, and no workspace has it as its
    active mutation, while other requests keep making valid calls on operations of
    their own. *)
Theorem begin_put_failure_releases durable logical ct receipt at_ rate n cas prior w x w' :
      mreach (sw_repo w.1) → logical_operations (sw_repo w.1) !! id = None → is_u64 n → is_u64 prior →
      begin_managed_put_sink uuid_new_v5 st durable logical ct id receipt at_ rate n cas prior w = (Err x, w') →
      released (sw_repo w'.1).
Proof.
      intros Hs Hnone Hn Hprior Hbegin. assert (Hw : fresh (sw_repo w.1)) by done. clear Hs Hnone.
      enough (Hwp : wp (begin_managed_put_sink uuid_new_v5 st durable logical ct id receipt at_ rate n cas prior)
        (λ r w', ∀ x, r = Err x → released (sw_repo w'.1)) w) by (unfold wp in Hwp; rewrite Hbegin in Hwp; by eapply Hwp).
      clear Hbegin. unfold begin_managed_put_sink.
      assert (H0' : released (sw_repo w.1)) by (by apply fresh_released).
      destruct (negb _); [by mw_step|]. mw_step. mw_step. destruct (map_err _ _); [|done].
      destruct (negb _); [by mw_step|]. mw_step. apply wp_required. intros []; [|done].
      mw_step. apply wp_b_repo. intros e v1. pose proof (fresh_found _ Hw) as H1'.
      assert (Ea : (assert_namespace_active (lk_tenant_id logical) (found_repo w.1)).2 = found_repo w.1)
        by (unfold assert_namespace_active; by case_match).
      destruct (assert_namespace_active _ _) as [[] s1]; cbn [snd] in Ea; subst s1; intros E1; rewrite <- E1 in H1'.
      2: { intros ? _. by apply fresh_released. }
      cbn [map_err]. mw_step. apply wp_b_repo. intros e2 v2. cbn [fst].
      pose proof (fresh_route_fence e2 (lk_tenant_id logical) _ (fresh_found _ H1')) as H2'.
      destruct (route_fence _ _) as [[fence|] s2]; cbn [snd] in H2'; intros <-.
      2: { intros ? _. by apply fresh_released. }
      cbn [map_err]. mw_step. mw_step. destruct (ok_or _ _) as [p|]; [|intros ? _; by apply fresh_released].
      mw_step. mw_step. destruct (ok_or _ _) as [b|]; [|intros ? _; by apply fresh_released].
      mw_step. apply wp_draw_uuid. intros generation v3 E3. cbn [fst] in E3. rewrite <- E3 in H2'.
      mw_step. mw_step. svc_step. svc_step. cbn [fst snd]. set (i := put_intent_of _ _ _ _ _ _ _ _ _ _ _ _ _ _).
      pose proof (pending_insert (o_env (sw_tick v3)) i (found_repo v3)) as Hin.
      pose proof (λ y, fresh_insert (o_env (sw_tick v3)) i (found_repo v3) y (fresh_found _ H2') Hprior) as Hout.
      destruct (fresh_found _ H2') as [Hm Hl].
      destruct (insert_logical_operation _ _ _) as [[o|y] s4]; cbn [map_err fst snd] in *.
      - apply wp_admit; [done|]. by apply (Hin o).
      - intros ? _. by apply fresh_released, (Hout y).
Qed.
End keeps.
End put.

(** ** A PUT that fails after its usage was recorded *)

Section wedge.
  Context {P J B : Type} `{ServiceProvider P, OperationJournal J, TransactionBackend B}.
  Context `{Crypto, ManagedText, Outside, Penalty, UrlParser}.
  Context (uuid_new_v5 : list byte → list byte → Uuid) (st : ServiceStorage).
  Context (id : Uuid) (Hother : others_leave_operation id).
  Abbreviation completing := (completing id).

Section abort.
    Context {X : Type} (d : ManagedDirectSink).
    Abbreviation MWX := (MW P J B X).
    Abbreviation repo_of := (λ w : MWX, sw_repo (mw_svc w)).

Lemma abort_write_ops e l s : logical_operations (abort_physical_write e l s).2 = logical_operations s.
Proof. unfold abort_physical_write. by case_match. Qed.

Lemma wp_settle_keeps op (w : MWX) :
      completing (repo_of w) →
      wp (settle_managed_intent_from_journal d op) (λ _ w', completing (repo_of w') ∧ mw_me w' = mw_me w) w.
Proof.
      intros Hw. unfold settle_managed_intent_from_journal.
      assert (Hblock : ∀ reason error, wp (repo (λ e, block_physical_write e (md_lease d) reason) ≫= λ _, se_throw error)
        (λ (_ : result TransactionError unit) w', completing (repo_of w') ∧ mw_me w' = mw_me w) w).
      { intros reason error. mw_step. eapply wp_repo_keep; [done| |done|].
        - intros e s. apply block_write_ops.
        - intros [] w1 H1' _ M1; [by mw_step|done]. }
      assert (Hkeep : ∀ f : Env → SE MemoryState ManagedError unit,
        (∀ e s, logical_operations (f e s).2 = logical_operations s) →
        wp (repo f) (λ _ w', completing (repo_of w') ∧ mw_me w' = mw_me w) w).
      { intros f Hf. by eapply wp_repo_keep. }
      destruct (op_state op); try apply Hblock.
      - do 2 (case_match; try apply Hblock). apply Hkeep. intros ? ?. apply commit_write_ops.
      - apply Hkeep. intros ? ?. apply abort_write_ops.
Qed.

Lemma wp_journal_keeps i (Q : result TransactionError (option OperationRecord) → MWX → Prop) w :
      (∀ r w', repo_of w' = repo_of w → mw_me w' = mw_me w → Q r w') → wp (journal_get i) Q w.
Proof. intros HQ. unfold journal_get. mw_step. apply wp_any. intros r v. by apply HQ. Qed.

Lemma wp_abort_keeps (w : MWX) :
      completing (repo_of w) → wp (direct_abort d) (λ _ w', completing (repo_of w') ∧ mw_me w' = mw_me w) w.
Proof.
      intros Hw. unfold direct_abort, renew_lease. mw_step. eapply wp_repo_keep; [done| |done|].
      { intros e s. apply renew_write_ops. }
      intros [] w1 H1' _ M1; [|done]. mw_step. apply wp_journal_keeps. intros [found|] w2 E2 M2; [|by rewrite E2, M2].
      rewrite <- E2 in H1'. rewrite <- M2 in M1. mw_step.
      apply wp_mono with (λ _ w', completing (repo_of w') ∧ mw_me w' = mw_me w).
      { destruct found as [op|]; [|by mw_step]. case_match; [|by mw_step]. mw_step.
        eapply wp_mono; [by apply wp_settle_keeps|]. intros [] w3 [H3' M3]; [mw_step|]; by rewrite M3. }
      intros [] w3 [H3' M3]; [|done]. mw_step. mw_step. apply wp_any. intros [] v4; [|done].
      mw_step. apply wp_journal_keeps. intros [found5|] w5 E5 M5; [|by rewrite E5, M5].
      mw_step. mw_step. destruct (ok_or _ _) as [op|]; [|by rewrite E5, M5].
      eapply wp_mono; [apply wp_settle_keeps; by rewrite E5|]. intros r w6 [H6' M6]. by rewrite M6, M5.
Qed.
End abort.

  (** The workspace of [t] is taken by the completing operation. *)
Definition taken (t : string) (s : MemoryState) : Prop :=
    mreach s ∧ ∃ o, logical_operations s !! id = Some o ∧ lo_state o = LCompleting ∧ op_tenant o = t.

Lemma reserve_refused e id2 n s t o :
    taken t s → id2 ≠ id → logical_operations s !! id2 = Some o → op_tenant o = t →
    is_ok (reserve_logical_operation e id2 n s).1 = false.
Proof.
    intros (Hs & p & Hp & Hst & Ht) Hne Ho Eo. unfold reserve_logical_operation. rewrite Ho. cbv zeta.
    case_match; [done|]. set (s1 := enter_usage _ _ s).
    assert (HA1 : macc s1) by (by apply macc_enter, mreach_macc).
    assert (Ha : op_active p = true) by (unfold op_active; by rewrite Hst).
    destruct (accounted_active (env_now e) s1 id p HA1 Hp Ha) as [Hact _].
    rewrite Ht in Hact. change (lk_tenant_id (li_logical (lo_intent o))) with (op_tenant o). rewrite Eo, Hact.
    rewrite (bool_decide_eq_false_2 (Some id = Some id2)) by congruence. rewrite andb_false_r. cbn [negb].
    destruct (negb _); [done|]. by rewrite bool_decide_eq_true_2.
Qed.

Lemma taken_step e c t s :
    call_ok c → logical_operations (managed_step e c s) !! id = logical_operations s !! id →
    taken t s → taken t (managed_step e c s).
Proof. intros Hc El [Hs Ho]. split; [by apply mreach_step|]. by rewrite El. Qed.

Section next.
    Context (Hcalls : ∀ n, Forall (λ c, call_ok c.2) (o_others n)).
    Context (id2 : Uuid) (Hne : id2 ≠ id) (Hother2 : others_leave_operation id2).
    Abbreviation BW := (@BW P J B).

Lemma taken_found t (w : SvcWorld P) : taken t (sw_repo w) → taken t (found_repo w).
Proof. intros [Hs Ho]. split; [by apply mreach_others|]. unfold found_repo. by rewrite Hother. Qed.

Lemma insert_keeps e i s o :
      li_operation_id i = id2 → (insert_logical_operation e i s).1 = Ok o →
      logical_operations (insert_logical_operation e i s).2 !! id = logical_operations s !! id
      ∧ ∃ o', logical_operations (insert_logical_operation e i s).2 !! id2 = Some o' ∧ lo_intent o' = i.
Proof.
      intros Ei. unfold insert_logical_operation. cbv zeta. rewrite Ei. destruct (validate_logical_intent i); [|done].
      do 2 (case_match; [done|]). cbn [logical_operations enter_routing enter_namespace upd_routing_epochs upd_namespace_epochs].
      destruct (logical_operations s !! id2) as [x|] eqn:Hx; [case_match; [|done]|case_match; [done|]]; intros _; cbn.
      - by split; [|exists x].
      - split; [by rewrite lookup_insert_ne|]. rewrite lookup_insert_eq. by eexists.
Qed.

Lemma wp_admit_refused logical ct n scope generation o (w : BW) :
      taken (lk_tenant_id logical) (sw_repo w.1) → logical_operations (sw_repo w.1) !! id2 = Some o →
      op_tenant o = lk_tenant_id logical →
      wp (admit_put uuid_new_v5 st logical ct id2 n scope generation) (λ r _, is_ok r = false) w.
Proof.
      intros Ht Ho Eo. unfold admit_put. mw_step. apply wp_b_repo. intros e v1. cbn [workspace_usage_of]. intros E1.
      cbn [map_err]. lazy beta match. mw_step. mw_step. mw_step. svc_step. cbn [fst].
      assert (Ht1 : taken (lk_tenant_id logical) (found_repo v1)) by (apply taken_found; rewrite E1; by apply taken_found).
      assert (Ho1 : logical_operations (found_repo v1) !! id2 = Some o).
      { unfold found_repo. rewrite Hother2, E1. unfold found_repo. by rewrite Hother2. }
      match goal with |- context [reserve_logical_operation ?e _ ?m ?s] =>
        pose proof (reserve_refused e id2 m s _ o Ht1 Hne Ho1 Eo) as Hr;
        destruct (reserve_logical_operation e id2 m s) as [[] s2] end; cbn [fst snd] in *; [done|].
      mw_step. apply wp_any. intros [] v; [by mw_step|done].
Qed.

Lemma wp_begin_refused durable logical ct receipt at_ rate n cas prior (w : BW) :
      taken (lk_tenant_id logical) (sw_repo w.1) → is_u64 prior →
      wp (begin_managed_put_sink uuid_new_v5 st durable logical ct id2 receipt at_ rate n cas prior)
        (λ r _, is_ok r = false) w.
Proof.
      intros Hw Hprior. unfold begin_managed_put_sink. destruct (negb _); [by mw_step|].
      mw_step. mw_step. destruct (map_err _ _); [|done]. destruct (negb _); [by mw_step|].
      mw_step. apply wp_required. intros []; [|done].
      mw_step. apply wp_b_repo. intros e v1. pose proof (taken_found _ _ Hw) as H1'.
      assert (Ea : (assert_namespace_active (lk_tenant_id logical) (found_repo w.1)).2 = found_repo w.1)
        by (unfold assert_namespace_active; by case_match).
      destruct (assert_namespace_active _ _) as [[] s1]; cbn [snd] in Ea; subst s1; intros E1; [|done].
      rewrite <- E1 in H1'. cbn [map_err]. mw_step. apply wp_b_repo. intros e2 v2. cbn [fst].
      assert (H2' : taken (lk_tenant_id logical) (route_fence (lk_tenant_id logical) (found_repo v1)).2).
      { apply (taken_step e2 (CRouteFence (lk_tenant_id logical))); [done| |by apply taken_found].
        unfold managed_step, call_run, route_fence. cbn. by case_match. }
      destruct (route_fence _ _) as [[fence|] s2]; cbn [snd] in H2'; intros <-; [|done].
      cbn [map_err]. mw_step. mw_step. destruct (ok_or _ _) as [p|]; [|done].
      mw_step. mw_step. destruct (ok_or _ _) as [b|]; [|done].
      mw_step. apply wp_draw_uuid. intros generation v3 E3. cbn [fst] in E3. rewrite <- E3 in H2'.
      mw_step. mw_step. svc_step. svc_step. cbn [fst snd]. set (i := put_intent_of _ _ _ _ _ _ _ _ _ _ _ _ _ _).
      pose proof (insert_keeps (o_env (sw_tick v3)) i (found_repo v3)) as Hin.
      pose proof (λ El, taken_step (o_env (sw_tick v3)) (CInsertOp i) _ (found_repo v3) Hprior El (taken_found _ _ H2')) as Hstep.
      unfold managed_step, call_run in Hstep.
      destruct (insert_logical_operation _ _ _) as [[o|y] s4]; cbn [map_err fst snd] in *; [|done].
      destruct (Hin o eq_refl eq_refl) as (El & o' & Ho' & Ei).
      apply (wp_admit_refused _ _ _ _ _ o'); [by apply Hstep|done|]. unfold op_tenant. by rewrite Ei.
Qed.
End next.

(** A managed PUT that fails once its usage is recorded goes on holding its
    workspace, until some other call settles its operation.  Its sink reports an unknown commit, so the request does not abort
    it; aborting it all the same leaves the operation COMPLETING; and while it is
    COMPLETING no PUT of the tenant can begin, whatever other requests do. *)
Theorem failed_commit_wedges :
    (∀ w : MW P J B ManagedLogicalSink,
      ml_usage_recorded (mw_me w) = true → ml_committed (mw_me w) = false → completing (sw_repo (mw_svc w)) →
      logical_commit_state (mw_me w) = SinkCommitUnknown
      ∧ completing (sw_repo (mw_svc (logical_abort w).2)))
    ∧ ∀ id2 durable logical ct receipt at_ rate n cas prior (w : @BW P J B),
      id2 ≠ id → others_leave_operation id2 → (∀ n, Forall (λ c, call_ok c.2) (o_others n)) →
      taken (lk_tenant_id logical) (sw_repo w.1) → is_u64 prior →
      is_ok (begin_managed_put_sink uuid_new_v5 st durable logical ct id2 receipt at_ rate n cas prior w).1 = false.
Proof.
    split.
    - intros w Hu Hc Hw. split; [unfold logical_commit_state; by rewrite Hu, Hc|].
      enough (Hwp : wp logical_abort (λ _ w', completing (sw_repo (mw_svc w'))) w)
        by (revert Hwp; unfold wp; by destruct (logical_abort w)).
      unfold logical_abort. mw_step. mw_step. rewrite Hc, Hu. mw_step. mw_step.
      unfold replicated_abort. mw_step. mw_step. destruct (mr_finished _); [by repeat mw_step|].
      mw_step. mw_step. eapply wp_mono; [by apply wp_abort_keeps|]. intros r w1 [H1' _].
      mw_step. mw_step. mw_step. destruct r; [by mw_step|done].
    - intros id2 durable logical ct receipt at_ rate n cas prior w Hne Ho2 Hcalls Ht Hp.
      pose proof (wp_begin_refused Hcalls id2 Hne Ho2 durable logical ct receipt at_ rate n cas prior w Ht Hp) as Hwp.
      revert Hwp. unfold wp. by destruct (begin_managed_put_sink _ _ _ _ _ _ _ _ _ _ _ _ w).
Qed.
End wedge.
