(* ===== verification/ManagedExamples.v ===== *)
(** * Managed storage: a concrete repository

    Instances of the parameters and a short history of calls, at which the
    theorems on managed storage are evaluated. *)

From S2P Require Import Prelude Operation Integrity Managed ManagedRepo ManagedUsage ManagedOps ManagedVisible ManagedPurge ManagedWrites ManagedRepairs ManagedCursor Placement.

#[local] Open Scope Z_scope.
Set Default Goal Selector "!".

(** A "digest" that keeps its input. *)
Definition keep_hash : Hash (list byte) := mkHash _ (list byte) [] (λ h l, h ++ l) id.
Definition sum_hash : Hash Z := mkHash _ Z 0 (λ h l, h + Z.of_nat (length l)) id.
#[global] Instance example_crypto : Crypto := {|
  c_sha256 := keep_hash; c_sha1 := keep_hash;
  c_crc32 := sum_hash; c_crc32c := sum_hash; c_crc64nvme := sum_hash;
  hmac_sha256 := λ k m, k ++ m; hex_encode := id; hex_decode := Some; base64_decode := Some |}.
#[global] Instance example_text : ManagedText := {|
  uuid_display := λ u, pretty u; json_to_vec := λ _, Ok (bs "{}") |}.

(** An environment whose clock reads [now] and whose UUIDs are [base], [base + 1], … *)
Definition example_env (now : Z) (base : Uuid) : Env :=
  mkEnv now (λ i, (base + N.of_nat i)%N) (λ _ _ _ _ m, map_to_list m) (λ _ _ _ _ _, reflexivity _).

Definition object : LogicalObjectKey := mkLogical "tenant" "bucket" "key".

Definition object_physical_key : string := generation_physical_key object 3%N.

Definition put_intent : ManagedLogicalOperationIntent :=
  {| li_operation_id := 1%N; li_receipt_id := 2%N; li_logical := object; li_kind := MPut;
     li_generation := 3%N; li_fence := mkFence 1 1; li_expected_authority_cas := None;
     li_prior_logical_size := 0; li_primary_child_operation_id := 4%N; li_backend_id := "b1";
     li_provider_bucket := "pb"; li_physical_key := object_physical_key; li_occurred_at_ms := 0;
     li_rate_version := 1; li_route := PutObject; li_request_kind := Write;
     li_max_processed_bytes := 1000 |}.

Definition put_evidence : ManagedUsageEvidence := mkEvidence (Some "digest") 10 10 10 JNull.

Definition write_intent : PhysicalWriteIntent :=
  {| wi_intent_id := 4%N; wi_tenant_id := "tenant"; wi_backend_id := "b1";
     wi_storage_identity := mkStorageIdentity "s3" "i" "a" "e" "r"; wi_credential_epoch := 1;
     wi_provider_bucket := "pb"; wi_physical_key := object_physical_key; wi_versioning_mode := Enabled;
     wi_versioning_capability := CapRequired; wi_lease_owner := "worker" |}.

Definition put_authority : ObjectAuthority :=
  {| oa_logical := object; oa_generation := 3%N; oa_digest := "digest"; oa_size := 10;
     oa_metadata := ∅; oa_placement_version := 1; oa_primary_backend_id := "b1";
     oa_primary_version_id := Some "v1"; oa_replica_backend_id := Some "b2";
     oa_primary_status := Ready; oa_replica_status := RepairPending; oa_tombstone := false;
     oa_cas_version := 0; oa_created_at_ms := 0; oa_updated_at_ms := 0 |}.

(** The calls of a [PUT], one after the other, and the states between them. *)
Definition put_calls : list ManagedCall :=
  [ CInsertOp put_intent; CReserve 1%N 100; CBeginWrite write_intent;
    CRecordUsage 1%N put_evidence; CTransition 1%N LOpen LCompleting None;
    CCommitWrite (mkWriteLease 4%N 1 "worker" 50%N) [] (Some "v1");
    CCommitPut 1%N put_authority 10 ].

Definition run_calls (e : Env) (s : MemoryState) (cs : list ManagedCall) : MemoryState :=
  foldl (λ s c, managed_step e c s) s cs.

Definition put_env : Env := example_env 1000 50%N.
Definition after (n : nat) : MemoryState := run_calls put_env managed_new (take n put_calls).

Lemma run_calls_mreach e s cs : mreach s → Forall call_ok cs → mreach (run_calls e s cs).
Proof.
  revert s. induction cs as [|c cs IH]; intros s Hs Hc; [done|]. inversion Hc; subst.
  apply IH; [by apply mreach_step|done].
Qed.

Lemma put_calls_ok : Forall call_ok put_calls.
Proof. by repeat constructor. Qed.

Lemma after_mreach n : mreach (after n).
Proof.
  apply run_calls_mreach; [constructor|]. apply Forall_take, put_calls_ok.
Qed.

(** The history ends with a committed operation and a published object. *)
Example put_commits : call_error put_env (CCommitPut 1%N put_authority 10) (after 6) = None.
Proof. vm_compute. reflexivity. Qed.
Example put_published : oa_cas_version <$> authorities (after 7) !! object = Some 1.
Proof. vm_compute. reflexivity. Qed.
Example put_repair_queued : length (map_to_list (repairs (after 7))) = 1%nat.
Proof. vm_compute. reflexivity. Qed.

(** ** Usage and operations *)

Definition row_after (n : nat) : ManagedWorkspaceUsage := usage_row 0 "tenant" (after n).

Lemma managed_usage_exact_witness :
  workspace_usage (after 6) !! "tenant" = Some (row_after 6)
  ∧ sumZ (reserved_part "tenant") (logical_operations (after 6)) = 100
  ∧ wu_reserved_bytes (row_after 6) = sumZ (reserved_part "tenant") (logical_operations (after 6)).
Proof.
  split; [vm_compute; reflexivity|]. split; [vm_compute; reflexivity|].
  apply (managed_usage_exact (after 6) "tenant" (row_after 6)); [apply after_mreach|vm_compute; reflexivity].
Defined.

Lemma refused_unchanged_witness :
  call_error put_env (CCommitPut 1%N put_authority 10) (after 4) = Some Conflict
  ∧ unchanged (after 4) (managed_step put_env (CCommitPut 1%N put_authority 10) (after 4)).
Proof.
  split; [vm_compute; reflexivity|].
  apply (refused_unchanged put_env (CCommitPut 1%N put_authority 10) (after 4) Conflict);
    [apply after_mreach|reflexivity|by split|vm_compute; reflexivity].
Defined.

Definition op_after (n : nat) : ManagedLogicalOperation :=
  default (new_logical_operation 0 put_intent) (logical_operations (after n) !! 1%N).

Lemma abort_always_settles_witness :
  lo_state (op_after 5) = LCompleting
  ∧ ∃ o', (prove_logical_abort put_env 1%N "timeout" None (after 5)).1 = Ok o'
      ∧ lo_state o' = LProvenAborted
      ∧ wu_active_operation_id (urow (workspace_usage (prove_logical_abort put_env 1%N "timeout" None (after 5)).2)
          (op_tenant (op_after 5))) ≠ Some 1%N.
Proof.
  split; [vm_compute; reflexivity|].
  apply (abort_always_settles put_env 1%N "timeout" (after 5) (op_after 5));
    [apply after_mreach|vm_compute; reflexivity|vm_compute; discriminate|vm_compute; reflexivity].
Defined.

Lemma after_step n c : put_calls !! n = Some c → mstep (after n) (after (S n)).
Proof.
  intros Hc. exists put_env, c. split.
  - eapply (proj1 (Forall_forall _ _) put_calls_ok), list_elem_of_lookup_2, Hc.
  - unfold after, run_calls. by rewrite (take_S_r _ _ _ Hc), foldl_app.
Qed.

Lemma managed_operation_lifecycle_witness :
  ∃ o', logical_operations (after 7) !! 1%N = Some o'
    ∧ rtc move (lo_state (op_after 5)) (lo_state o') ∧ lo_state o' = LCommitted.
Proof.
  destruct (managed_operation_lifecycle (after 5) (after 7) 1%N (op_after 5)) as (o' & H1 & _ & H3 & _).
  - apply after_mreach.
  - eapply rtc_l; [eapply (after_step 5); reflexivity|].
    eapply rtc_l; [eapply (after_step 6); reflexivity|]. apply rtc_refl.
  - vm_compute. reflexivity.
  - exists o'. split; [exact H1|]. split; [exact H3|]. vm_compute in H1. injection H1 as <-. reflexivity.
Defined.

Lemma reserve_exact_witness :
  (reserve_logical_operation put_env 1%N 100 (after 1)).1 =
    Ok (touch_usage 1000 (set_wu_active_operation_id (Some 1%N)
          (set_wu_reserved_bytes 100 (usage_row 1000 "tenant" (after 1)))))
  ∧ (reserve_logical_operation put_env 1%N (2 ^ 40) (after 1)).1 = Err QuotaExceeded.
Proof.
  split.
  - rewrite (reserve_exact put_env 1%N 100 (after 1) (op_after 1));
      [vm_compute; reflexivity|apply after_mreach|by split|vm_compute; reflexivity..].
  - rewrite (reserve_exact put_env 1%N (2 ^ 40) (after 1) (op_after 1));
      [vm_compute; reflexivity|apply after_mreach|by split|vm_compute; reflexivity..].
Defined.

Lemma after_oreach n : oreach (after n).
Proof.
  assert (∀ s cs, oreach s → Forall (λ c, call_ok c ∧ direct c = false) cs → oreach (run_calls put_env s cs)) as Hr.
  { intros s cs. revert s. induction cs as [|c cs IH]; intros s Hs Hc; [done|].
    inversion Hc as [|? ? [? ?]]; subst. apply IH; [by apply oreach_step|done]. }
  apply Hr; [constructor|]. apply Forall_take. by repeat constructor.
Qed.

Lemma visible_is_live_size_witness :
  wu_visible_logical_bytes (urow (workspace_usage (after 7)) "tenant") = 10
  ∧ wu_visible_logical_bytes (urow (workspace_usage (after 7)) "tenant")
    = sumZ (visible_part "tenant") (authorities (after 7)).
Proof.
  split; [vm_compute; reflexivity|]. apply (visible_is_live_size (after 7) "tenant"), after_oreach.
Defined.

(** ** Purging *)

Definition purge_request : NamespacePurgeRequest := mkPurgeRequest "tenant" 90%N.
Definition put_version : PhysicalVersionTarget :=
  version_target write_intent (mkWriteLease 4%N 1 "worker" 50%N) (Some "v1").

Definition purging : MemoryState := managed_step put_env (CPurge purge_request) (after 7).
Definition purged_versions : MemoryState :=
  managed_step put_env (CMarkDeleted purge_request put_version) purging.
Definition purged : MemoryState := (namespace_purge_status put_env purge_request purged_versions).2.

Lemma purging_mreach : mreach purging.
Proof. apply mreach_step; [apply after_mreach|done]. Qed.

Lemma purge_complete_clean_witness :
  namespace_purge_status put_env purge_request purged_versions = (Ok (PurgeComplete 1), purged)
  ∧ namespace_empty purged "tenant".
Proof.
  assert (E : namespace_purge_status put_env purge_request purged_versions = (Ok (PurgeComplete 1), purged))
    by (vm_compute; reflexivity).
  split; [exact E|].
  destruct (purge_complete_clean put_env purge_request purged_versions purged 1) as (p & Hp & [[Hst _]|(_ & He & _)]).
  - apply mreach_step; [apply purging_mreach|done].
  - exact E.
  - exfalso. vm_compute in Hp. injection Hp as <-. vm_compute in Hst. discriminate.
  - assert (mp_tenant_id p = "tenant") as <-; [vm_compute in Hp; injection Hp as <-; reflexivity|exact He].
Defined.

Lemma map_Forall_compute `{Countable K} {A} (f : K → A → bool) (P : K → A → Prop) (m : gmap K A) :
  (∀ k a, f k a = true → P k a) → forallb (λ kv, f kv.1 kv.2) (map_to_list m) = true →
  ∀ k a, m !! k = Some a → P k a.
Proof.
  intros Hf Hm k a Hk. apply Hf. rewrite forallb_forall in Hm. apply (Hm (k, a)).
  apply list_elem_of_In. by apply elem_of_map_to_list.
Qed.

Lemma purging_only_versions : only_versions 90%N "tenant" purging.
Proof.
  split.
  - exists (mkPurge "tenant" PurgeRunning 0). vm_compute. done.
  - apply (map_Forall_compute (λ _ i, negb (bool_decide (wi_tenant_id i = "tenant")))
      (λ _ i, wi_tenant_id i ≠ "tenant") (physical_write_intents purging)).
    + intros k i. rewrite negb_true_iff. apply bool_decide_eq_false.
    + vm_compute. reflexivity.
  - apply (map_Forall_compute (λ _ (a : string * Z), negb (bool_decide (a.1 = "tenant")))
      (λ _ a, a.1 ≠ "tenant") (multipart_activities purging)).
    + intros k a. rewrite negb_true_iff. apply bool_decide_eq_false.
    + vm_compute. reflexivity.
  - vm_compute. reflexivity.
Qed.

(** After the purge the tenant stores its object again, in the new epoch. *)
Definition again (i : ManagedLogicalOperationIntent) : ManagedLogicalOperationIntent :=
  {| li_operation_id := 11%N; li_receipt_id := 12%N; li_logical := li_logical i; li_kind := li_kind i;
     li_generation := li_generation i; li_fence := mkFence 2 2;
     li_expected_authority_cas := None; li_prior_logical_size := 0;
     li_primary_child_operation_id := 14%N; li_backend_id := li_backend_id i;
     li_provider_bucket := li_provider_bucket i; li_physical_key := li_physical_key i;
     li_occurred_at_ms := 0; li_rate_version := 1; li_route := PutObject; li_request_kind := Write;
     li_max_processed_bytes := 1000 |}.
Definition write_again (i : PhysicalWriteIntent) : PhysicalWriteIntent :=
  mkWriteIntent 14%N (wi_tenant_id i) (wi_backend_id i) (wi_storage_identity i) (wi_credential_epoch i)
    (wi_provider_bucket i) (wi_physical_key i) (wi_versioning_mode i) (wi_versioning_capability i)
    (wi_lease_owner i).
Definition stored_again : MemoryState := run_calls put_env purged
  [ CInsertOp (again put_intent); CReserve 11%N 100; CBeginWrite (write_again write_intent);
    CRecordUsage 11%N put_evidence; CTransition 11%N LOpen LCompleting None;
    CCommitWrite (mkWriteLease 14%N 2 "worker" 50%N) [] (Some "v2");
    CCommitPut 11%N put_authority 10 ].
Definition version_again : PhysicalVersionTarget :=
  version_target (write_again write_intent) (mkWriteLease 14%N 2 "worker" 50%N) (Some "v2").
Definition authority_again : ObjectAuthority :=
  default put_authority (authorities stored_again !! object).

Lemma completed_purge_reopens_witness :
  authorities stored_again !! object = Some authority_again ∧ fenced stored_again "tenant" = false
  ∧ ∃ m s', namespace_purge_status put_env purge_request
              (mark_purge_target_deleted purge_request version_again stored_again).2 = (Ok (PurgeComplete m), s')
            ∧ authorities s' !! object = None.
Proof.
  split; [vm_compute; reflexivity|]. split; [vm_compute; reflexivity|].
  apply (completed_purge_reopens put_env purge_request stored_again
    (mkPurge "tenant" (PurgeComplete 1) 1) 1 version_again object authority_again).
  1-4: vm_compute; reflexivity.
  3-5: vm_compute; reflexivity.
  - apply (map_Forall_compute (λ _ i, negb (bool_decide (wi_tenant_id i = "tenant")))
      (λ _ i, wi_tenant_id i ≠ "tenant") (physical_write_intents stored_again)).
    + intros k i. rewrite negb_true_iff. apply bool_decide_eq_false.
    + vm_compute. reflexivity.
  - apply (map_Forall_compute (λ _ (a : string * Z), negb (bool_decide (a.1 = "tenant")))
      (λ _ a, a.1 ≠ "tenant") (multipart_activities stored_again)).
    + intros k a. rewrite negb_true_iff. apply bool_decide_eq_false.
    + vm_compute. reflexivity.
Defined.

(** ** Leases, versions and compare-and-swap *)

(** The write's lease has expired and another worker claims it under the token 70. *)
Definition late_env : Env := example_env (1000 + PHYSICAL_WRITE_LEASE_MS) 70%N.
Definition old_lease : PhysicalWriteLease := mkWriteLease 4%N 1 "worker" 50%N.
Definition new_lease : PhysicalWriteLease := mkWriteLease 4%N 1 "other" 70%N.
Definition taken_over : MemoryState :=
  (claim_expired_physical_write_intent late_env 4%N "other" 99000000 (after 5)).2.

Lemma stale_write_lease_refused_witness :
  claim_expired_physical_write_intent late_env 4%N "other" 99000000 (after 5) = (Ok (Some new_lease), taken_over)
  ∧ commit_physical_write late_env old_lease [] (Some "v1") taken_over = (Err Conflict, taken_over).
Proof.
  assert (E : claim_expired_physical_write_intent late_env 4%N "other" 99000000 (after 5)
              = (Ok (Some new_lease), taken_over)) by (vm_compute; reflexivity).
  split; [exact E|].
  destruct (stale_write_lease_refused late_env "other" 99000000 (after 5) taken_over taken_over old_lease new_lease
    E ltac:(discriminate) (rtc_refl _ _) late_env 0 [] (Some "v1") "") as (_ & Hc & _). exact Hc.
Defined.

Lemma commit_write_ledgers_witness :
  commit_physical_write put_env old_lease [] (Some "v1") (after 5) = (Ok tt, after 6)
  ∧ ∃ i x, physical_versions (after 6) !! i = Some x ∧ same_version x put_version = true.
Proof.
  assert (E : commit_physical_write put_env old_lease [] (Some "v1") (after 5) = (Ok tt, after 6))
    by (vm_compute; reflexivity).
  split; [exact E|].
  destruct (commit_write_ledgers put_env old_lease [] (Some "v1") (after 5) (after 6)) as (it & Hi & Hw & _).
  - apply after_mreach.
  - exact E.
  - destruct (Hw (Some "v1")) as (i & x & Hx & Ex & _); [left|]. exists i, x. split; [exact Hx|].
    vm_compute in Hi. injection Hi as <-. exact Ex.
Defined.

Definition published : ObjectAuthority := default put_authority (authorities (after 7) !! object).

Lemma authority_compare_and_swap_witness :
  authorities (after 6) !! object = None ∧ authorities (after 7) !! object = Some published
  ∧ oa_cas_version published = next_cas None.
Proof.
  split; [vm_compute; reflexivity|]. split; [vm_compute; reflexivity|].
  apply (authority_compare_and_swap put_env (CCommitPut 1%N put_authority 10) (after 6) object published).
  - vm_compute. reflexivity.
  - vm_compute. discriminate.
Defined.

(** ** Repairs *)

Definition claimed : list RepairRecord * MemoryState :=
  match claim_repairs (example_env 2000 60%N) "worker" 5000 10 (after 7) with
  | (Ok l, s) => (l, s) | (_, s) => ([], s) end.
Definition claimed_repair : RepairRecord :=
  default (repair_copy 0 0%N KReplica put_authority None "" RReplica 0) (head claimed.1).
(** The lease expires and the repair is claimed under the token 80. *)
Definition reclaimed : MemoryState := (claim_repairs (example_env 6000 80%N) "other" 9000 10 claimed.2).2.

Lemma stale_repair_lease_refused_witness :
  complete_repair (example_env 2500 100%N) claimed_repair reclaimed = (Err Conflict, reclaimed)
  ∧ (complete_repair (example_env 2500 100%N) claimed_repair claimed.2).1 = Ok true.
Proof.
  split; [|vm_compute; reflexivity].
  apply (stale_repair_lease_refused reclaimed reclaimed claimed_repair); [|apply rtc_refl].
  intros x Hx. vm_compute in Hx. injection Hx as <-. vm_compute. discriminate.
Defined.

Definition failed_once : MemoryState := (fail_repair (example_env 3000 100%N) 60%N claimed.2).2.

Lemma fail_repair_backs_off_witness :
  fail_repair (example_env 3000 100%N) 60%N claimed.2 = (Ok tt, failed_once)
  ∧ ∃ k r', repairs failed_once !! k = Some (r', "PENDING") ∧ rr_attempts r' = 1
      ∧ rr_not_before_ms r' = 63000.
Proof.
  assert (E : fail_repair (example_env 3000 100%N) 60%N claimed.2 = (Ok tt, failed_once)) by (vm_compute; reflexivity).
  split; [exact E|].
  destruct (fail_repair_backs_off (example_env 3000 100%N) 60%N claimed.2 failed_once E)
    as (k & r & r' & Hr & _ & Ha & _ & Hif).
  assert (rr_attempts r = 0) as Hz.
  { apply (map_Forall_compute (λ _ (x : RepairRecord * string), rr_attempts x.1 =? 0)
      (λ _ x, rr_attempts x.1 = 0) (repairs claimed.2)) with (k := k) (a := (r, "LEASED")).
    - intros j x. apply Z.eqb_eq.
    - vm_compute. reflexivity.
    - exact Hr. }
  rewrite Hz in Ha. change (rr_attempts r' = 1) in Ha. rewrite Ha in Hif. cbn [Z.leb] in Hif.
  destruct Hif as (H1 & H2 & _). exists k, r'. split; [exact H1|]. split; [exact Ha|].
  rewrite H2. vm_compute. reflexivity.
Defined.

(** ** Cursors and placements *)

Definition page_request : ManagedListCursorRequest :=
  mkCursorRequest (mkCursorBinding "tenant" "bucket" "" None V2) (mkPosition (Some "key") None) JNull false.
Definition paged : MemoryState := (create_list_cursor_successor put_env 40%N page_request 1000 (after 7)).2.
Definition page_cursor : ManagedListCursor :=
  match (create_list_cursor_successor put_env 40%N page_request 1000 (after 7)).1 with
  | Ok c => c
  | Err _ => mkCursor 0%N (cr_binding page_request) (mkFence 0 0) (cr_position page_request) JNull 0 false
               CursorActive 0 0 None
  end.

Lemma cursor_successor_converges_witness :
  create_list_cursor_successor put_env 40%N page_request 1000 (after 7) = (Ok page_cursor, paged)
  ∧ create_list_cursor_successor late_env 40%N page_request 2000 paged = (Ok page_cursor, paged).
Proof.
  assert (E : create_list_cursor_successor put_env 40%N page_request 1000 (after 7) = (Ok page_cursor, paged))
    by (vm_compute; reflexivity).
  split; [exact E|].
  apply (cursor_successor_converges put_env 40%N page_request 1000 (after 7) page_cursor paged);
    [apply after_mreach|exact E|vm_compute; reflexivity].
Defined.

Definition example_placement : Placement := mkPlacement 1 "gamma" (Some "alpha").

Lemma rendezvous_minimal_disruption_witness :
  rendezvous_placement 1 "tenant" "bucket/key" ["alpha"; "beta"; "gamma"] = Some example_placement
  ∧ rendezvous_placement 1 "tenant" "bucket/key" ["gamma"; "alpha"; "gamma"] = Some example_placement.
Proof.
  assert (E : rendezvous_placement 1 "tenant" "bucket/key" ["alpha"; "beta"; "gamma"] = Some example_placement)
    by (vm_compute; reflexivity).
  split; [exact E|].
  destruct (rendezvous_minimal_disruption 1 "tenant" "bucket/key" _ _ E) as (_ & _ & Hrm).
  assert (E2 : rendezvous_placement 1 "tenant" "bucket/key" ["alpha"; "gamma"] = Some example_placement)
    by (apply (Hrm "beta"); discriminate).
  destruct (rendezvous_minimal_disruption 1 "tenant" "bucket/key" _ _ E2) as (_ & Hset & _).
  apply Hset. intros x. set_solver.
Defined.
