(* ===== verification/ServiceExamples.v ===== *)
(** * Managed storage: a concrete service

    Instances of the service's parameters and one history on them, a managed PUT,
    a read and a purge, at which the theorems on the service are evaluated. *)

From S2P Require Import Prelude Operation Journal MemJournal Transaction Reconciler DirectSink SinkSafety SinkData.
From S2P Require Import RustStr Integrity Managed ManagedRepo ManagedUsage ManagedOps ManagedPurge ManagedWrites Placement ServiceStorage ServiceConfig ServicePurge ServiceReads ManagedSink ManagedReconcile ManagedSettle ManagedPut ManagedExamples.

#[local] Open Scope Z_scope.
Set Default Goal Selector "!".
#[local] Existing Instance scripted_backend.

(** Nobody else uses the repository; every call draws UUIDs of its own. *)
#[local] Instance alone : Outside := {|
  o_others := λ _, []; o_env := λ n, example_env 1000 (50 + 10 * N.of_nat n)%N |}.
(** A URL that is nothing but an HTTPS host. *)
#[local] Instance plain_url : UrlParser := {|
  Url := string; url_parse := Some; url_scheme := λ _, "https"; url_host_str := Some;
  url_username := λ _, ""; url_password := λ _, None; url_query := λ _, None; url_fragment := λ _, None;
  url_path := λ _, "/"; url_set_path := λ _ u, u; url_to_string := id |}.
#[local] Instance by_weight : Penalty := {|
  Float := Z; total_cmp := Z.compare; penalty := λ _ weight, weight |}.
(** A provider whose buckets are versioned and that forgets what it deletes. *)
Definition missing : SdkError := ServiceError 404 true.
#[local] Instance forgetful : ServiceProvider unit := {|
  p_get_bucket_versioning := λ _ _, mret (Some "Enabled");
  p_delete_object := λ _ _ _ _, mret tt;
  p_head_object := λ _ _ _ _, se_throw missing;
  p_get_object := λ _ _ _ _ _, se_throw missing |}.

Definition one_backend : ServiceBackend :=
  mkBackend "b2" (Some "one") (Some "account") (Some 1) 1 1 "https://one" "r" "pb" "ak" "sk".
Definition example_storage : ServiceStorage :=
  with_managed_capabilities (Some b_capabilities) (with_management [one_backend] ModeEnforce 1).
Definition example_v5 (namespace name : list byte) : Uuid := 4%N.

Definition stored_v1 : StoredObjectMeta := mkMeta (Some "e") (Some "v1") [] true.
Definition example_tx : World unit MemJournal Script :=
  mkWorld tt mem_new (mkScript [Ok stored_v1] (Ok Inconclusive)) (λ n, 1000 + Z.of_nat n) N.of_nat 0 [].
Definition example_svc : SvcWorld unit := mkSvc managed_new tt 0 [].

Definition begin_put (durable : bool) (id : Uuid) (w : SvcWorld unit * World unit MemJournal Script) :=
  begin_managed_put_sink example_v5 example_storage durable object "text/plain" id (id + 1)%N 0 1 1000 None 0 w.
Definition put_event : UsageEvent := mkUsageEvent PutObject Write "bucket" 5 5 JNull.

Definition begun_put := begin_put true 1%N (example_svc, example_tx).

(** The sink of the PUT, and the world it runs in. *)
Definition no_sink : Sink * ManagedLogicalSink :=
  (mkSink ex_op [] None [] 0 [] 0 false true 0 0,
   ManagedSink.mkLogical (mkReplicated object 0%N (mkPlacement 0 "" None) None None ∅
     (mkDirect 0%N (mkWriteLease 0%N 0 "" 0%N)) None true) 0%N None None false true).
Definition put_sink : Sink * ManagedLogicalSink :=
  match begun_put.1 with Ok x => x | Err _ => no_sink end.
Definition put_start : MW unit MemJournal Script ManagedLogicalSink :=
  mkMW begun_put.2.1 (with_sink put_sink.1 begun_put.2.2) put_sink.2.
Definition put_done := put_body ex_sha 4 [bs "hel"; bs "lo"] 5 "5" put_event put_start.

(** ** The PUT *)

Lemma managed_put_publishes_witness :
  put_done.1 = Ok stored_v1
  ∧ ManagedPut.published ex_sha 1%N object (bs "hello") put_sink.2 stored_v1 put_done.2 ∧ ex_sha (bs "hello") = "5".
Proof.
  split; [vm_compute; reflexivity|].
  destruct (managed_put_publishes ex_sha 4 example_v5 example_storage 1%N true object "text/plain" 2%N 0 1 1000 None 0
    example_svc example_tx put_sink.1 put_sink.2 begun_put.2.1 begun_put.2.2
    [bs "hel"; bs "lo"] 5 "5" put_event stored_v1 put_done.2) as (Hp & _ & Hd).
  - lia.
  - intros n s. reflexivity.
  - reflexivity.
  - vm_compute. reflexivity.
  - vm_compute. reflexivity.
  - split; [exact Hp|symmetry; exact Hd].
Defined.

(** The PUT up to its usage evidence, and the calls that lead there. *)
Definition put_recorded : MW unit MemJournal Script ManagedLogicalSink :=
  ((write_chunks ex_sha 4 [bs "hel"; bs "lo"];; logical_verify_output ex_sha 5 "5";; record_usage_evidence put_event)
     put_start).2.
Definition recorded_repo : MemoryState := sw_repo (mw_svc put_recorded).
Definition recorded_op : ManagedLogicalOperation :=
  default (new_logical_operation 0 put_intent) (logical_operations recorded_repo !! 1%N).
Definition recorded_write : PhysicalWriteIntent := default write_intent (physical_write_intents recorded_repo !! 4%N).
Definition put_steps : list (Env * ManagedCall) :=
  (λ c, (o_env 9, c)) <$>
    [ CRouteFence "tenant"; CInsertOp (lo_intent recorded_op); CReserve 1%N (lo_reserved_physical_bytes recorded_op);
      CBeginWrite recorded_write; CRecordUsage 1%N (default put_evidence (lo_evidence recorded_op));
      CTransition 1%N LOpen LCompleting None ].

Lemma recorded_mreach : mreach recorded_repo.
Proof.
  assert (recorded_repo = run_others put_steps managed_new) as -> by (vm_compute; reflexivity).
  apply mreach_others; [|constructor]. repeat constructor; vm_compute; discriminate.
Qed.

(** A journal that already knows the child refuses it, and the PUT is given up. *)
Definition refused_put := begin_put true 1%N (example_svc, begun_put.2.2).

Lemma alone_apart id : others_apart id.
Proof. split; [constructor|intros n s; reflexivity|done]. Qed.

Lemma begin_put_failure_releases_witness :
  (∃ x, refused_put.1 = Err x) ∧ released 1%N (sw_repo refused_put.2.1).
Proof.
  destruct refused_put as [[x|x] w'] eqn:E; [vm_compute in E; discriminate|]. split; [by exists x|].
  apply (begin_put_failure_releases example_v5 example_storage 1%N (alone_apart 1%N)
    true object "text/plain" 2%N 0 1 1000 None 0 (example_svc, begun_put.2.2) x w').
  - constructor.
  - reflexivity.
  - split; vm_compute; discriminate.
  - split; vm_compute; discriminate.
  - exact E.
Defined.

Lemma failed_commit_wedges_witness :
  completing 1%N (sw_repo (mw_svc (logical_abort put_recorded).2))
  ∧ is_ok (begin_put true 11%N (mw_svc put_recorded, example_tx)).1 = false.
Proof.
  destruct (failed_commit_wedges (P := unit) (J := MemJournal) (B := Script) example_v5 example_storage 1%N
    (oth_operation 1%N (alone_apart 1%N))) as [Habort Hnext].
  split.
  - apply Habort; [vm_compute; reflexivity..|]. exists recorded_op. vm_compute. split; reflexivity.
  - apply (Hnext 11%N true object "text/plain" 12%N 0 1 1000 None 0 (mw_svc put_recorded, example_tx)).
    + discriminate.
    + intros n s. reflexivity.
    + intros n. constructor.
    + split; [apply recorded_mreach|]. exists recorded_op. vm_compute. repeat split; reflexivity.
    + split; vm_compute; discriminate.
Defined.

Definition put_direct : ManagedDirectSink := mr_primary (ml_inner put_sink.2).

Lemma write_ends_accounted_witness :
  held (md_lease put_direct) recorded_write recorded_repo
  ∧ wp (direct_abort put_direct) (λ _ w', kept_or_settled (md_lease put_direct) recorded_write
      (md_operation_id put_direct) (sw_repo (mw_svc w')) (journal (mw_tx w'))) put_recorded.
Proof.
  assert (Hheld : held (md_lease put_direct) recorded_write recorded_repo) by (vm_compute; reflexivity).
  split; [exact Hheld|].
  refine (proj2 (proj1 (write_ends_accounted ex_sha (md_lease put_direct) recorded_write _)
    ManagedLogicalSink put_direct put_recorded _ _)).
  - intros n s. reflexivity.
  - reflexivity.
  - exact Hheld.
Defined.

(** ** The read *)

Definition put_world : SvcWorld unit := mw_svc put_done.2.
Definition stored_authority : ObjectAuthority := default put_authority (authorities (sw_repo put_world) !! object).
(** The provider hands the object out with the metadata it was stored with. *)
Definition stored_output : ObjectOutput :=
  mkOutput (Some (<["s4-size" := "5"]> (<["s4-sha256" := "5"]> {["s4-generation" := "70"]})))
    (Some 5) (Some "v1") (Some "e") [Some (bs "hello")].
Definition fetch_stored (b : ServiceBackend) (bucket key : string) (version : option string)
    : SE unit SdkError ObjectOutput := mret stored_output.

Lemma read_serves_recorded_witness :
  (read_authoritative example_storage fetch_stored false object put_world).1 = Ok (Some stored_output)
  ∧ names_generation false stored_authority stored_output.
Proof.
  assert (Hr : (read_authoritative example_storage fetch_stored false object put_world).1 = Ok (Some stored_output))
    by (vm_compute; reflexivity).
  split; [exact Hr|]. destruct (read_authoritative _ _ _ _ _) as [r w'] eqn:E. cbn [fst] in Hr. subst r.
  destruct (read_serves_recorded example_storage fetch_stored false object put_world w' stored_output E)
    as (a & Ha & _ & _ & Hn).
  assert (a = stored_authority) as <- by (vm_compute in Ha; injection Ha as <-; vm_compute; reflexivity).
  exact Hn.
Defined.

Lemma read_finds_copy_witness :
  steady stored_authority (sw_repo put_world)
  ∧ ∃ output w', read_authoritative example_storage fetch_stored false object put_world = (Ok (Some output), w').
Proof.
  assert (Hs : steady stored_authority (sw_repo put_world)) by (split; vm_compute; reflexivity).
  split; [exact Hs|].
  apply (read_finds_copy example_storage fetch_stored stored_authority false put_world).
  - reflexivity.
  - intros n s. split; reflexivity.
  - exact Hs.
  - vm_compute. reflexivity.
  - apply Exists_cons_hd. exists one_backend. split; [vm_compute; reflexivity|]. intros p.
    exists stored_output, p. split; [reflexivity|vm_compute; reflexivity].
Defined.

(** ** The purge *)

Definition purge_world : SvcWorld unit :=
  mkSvc (managed_step (o_env 30) (CPurge purge_request) (sw_repo put_world)) tt 31 [].

Lemma purge_world_only : only_versions 90%N "tenant" (sw_repo purge_world).
Proof.
  split.
  - exists (mkPurge "tenant" PurgeRunning 0). vm_compute. done.
  - apply (map_Forall_compute (λ _ i, negb (bool_decide (wi_tenant_id i = "tenant")))
      (λ _ i, wi_tenant_id i ≠ "tenant") (physical_write_intents (sw_repo purge_world))).
    + intros k i. rewrite negb_true_iff. apply bool_decide_eq_false.
    + vm_compute. reflexivity.
  - apply (map_Forall_compute (λ _ (a : string * Z), negb (bool_decide (a.1 = "tenant")))
      (λ _ a, a.1 ≠ "tenant") (multipart_activities (sw_repo purge_world))).
    + intros k a. rewrite negb_true_iff. apply bool_decide_eq_false.
    + vm_compute. reflexivity.
  - vm_compute. reflexivity.
Qed.

Definition stored_version : PhysicalVersionTarget := version_target recorded_write (md_lease put_direct) (Some "v1").

Lemma purge_converges_witness :
  tenant_versions (sw_repo purge_world) "tenant" = [stored_version]
  ∧ ∃ m w', poll example_storage 0 purge_request purge_world = (Ok (PurgeComplete m), w')
            ∧ namespace_empty (sw_repo w') "tenant".
Proof.
  assert (E : tenant_versions (sw_repo purge_world) "tenant" = [stored_version]) by (vm_compute; reflexivity).
  split; [exact E|].
  apply (purge_converges example_storage eq_refl eq_refl 0 90%N "tenant" purge_world).
  - intros n s Hs. split; [exact Hs|reflexivity].
  - apply purge_world_only.
  - rewrite E. constructor; [|constructor]. exists one_backend. repeat split; try (vm_compute; reflexivity).
    intros p. exists p, p, missing. repeat split; reflexivity.
  - rewrite E. simpl. lia.
Defined.

Lemma ledger_forgets_only_verified_witness :
  physical_versions (sw_repo purge_world) = [stored_version]
  ∧ physical_versions (sw_repo (drive_namespace_purge example_storage purge_request purge_world).2) = []
  ∧ forgets_verified example_storage (λ v, vt_tenant_id v = "tenant") purge_world
      (drive_namespace_purge example_storage purge_request purge_world).2.
Proof.
  split; [vm_compute; reflexivity|]. split; [vm_compute; reflexivity|].
  destruct (ledger_forgets_only_verified example_storage purge_world) as [Hp _]; [intros n s v Hv; exact Hv|].
  specialize (Hp purge_request). unfold wp in Hp.
  destruct (drive_namespace_purge example_storage purge_request purge_world). exact Hp.
Defined.

(** ** The configuration *)

#[local] Instance plain_url_laws : UrlLaws.
Proof. split; [intros s u [= ->]; reflexivity|reflexivity|reflexivity]. Qed.

Definition example_config : list byte := bs "b2|one|account|1|1|1|https://one|r|pb|ak|sk".

Lemma service_backends_roundtrip_witness :
  print_service_backends [one_backend] = example_config
  ∧ parse_service_backends (print_service_backends [one_backend]) = Ok [one_backend].
Proof.
  split; [vm_compute; reflexivity|].
  apply (service_backends_roundtrip [one_backend]); [discriminate|].
  constructor; [|constructor]. exists "one", "account", 1.
  split; try (vm_compute; reflexivity).
  all: repeat split; try (vm_compute; (reflexivity || discriminate)).
  all: intros Hin; vm_compute in Hin; set_solver.
Defined.

Lemma parse_error_quotes_nothing_witness :
  ∃ reason, parse_service_backends (bs "b2|secret") = Err (entry_error 1 reason) ∧ reason ∈ reasons.
Proof.
  destruct (parse_error_quotes_nothing (bs "b2|secret") (entry_error 1 R_FIELDS))
    as (pre & d & post & reason & Hs & _ & Hd & Hin & He); [vm_compute; reflexivity|].
  exists R_FIELDS. split; [vm_compute; reflexivity|]. assert (reason = R_FIELDS) as <-; [|exact Hin].
  destruct pre as [|x [|y pre]]; [|discriminate Hs..]. cbn in Hs. injection Hs as <- _. vm_compute in Hd.
  injection Hd as <-. reflexivity.
Defined.

Lemma launch_validation_exact_witness :
  validate_managed_launch_configuration example_storage = Ok tt
  ∧ Forall launchable [one_backend] ∧ NoDup (service_id <$> [one_backend]).
Proof.
  assert (Hv : validate_managed_launch_configuration example_storage = Ok tt) by (vm_compute; reflexivity).
  split; [exact Hv|].
  apply (launch_validation_exact example_config [one_backend] example_storage); vm_compute; reflexivity.
Defined.
