(* ===== verification/SinkApi.v ===== *)
(** * Sinks behind their trait: [ObjectSinkTransaction]

    The requests of [server.rs] write an object through the trait
    [ObjectSinkTransaction] ([transaction/mod.rs]) and leave a usage record in
    the journal before the commit.  The class [ObjectSinkTransaction] is the
    trait, [SinkLaws] what a sink promises to its client: which bytes it
    holds, when they are published, and that a sink that reports PRE_COMMIT
    has published nothing.  [DirectS3Sink] and the development sink
    [MemorySinkTransaction] ([transaction/memory.rs], over [MemoryStore] of
    [store.rs]) are instances; the theorems about requests are proved against
    the class. *)

From S2P Require Import Prelude Staging Operation Journal Transaction DirectSink SinkSafety SinkData Managed.

#[local] Open Scope Z_scope.
Set Default Goal Selector "!".

(** ** Usage events: [control.rs] *)

Record AuthorizationGrant := mkGrant {
  gr_operation_id : Uuid;
  gr_receipt_id : Uuid;
  gr_occurred_at : Z;
  gr_rate_version : Z;
  gr_bucket : string;
  gr_route : UsageRoute;
  gr_kind : RequestKind;
  gr_max_processed_bytes : Z;
  gr_pipeline_revision : option string;
  gr_pipeline_fingerprint : option string;
}.

Record UsageEvent := mkUsage {
  ue_receipt_id : Uuid;
  ue_operation_id : Uuid;
  ue_occurred_at : Z;
  ue_rate_version : Z;
  ue_bucket : string;
  ue_kind : RequestKind;
  ue_route : UsageRoute;
  ue_source_bytes : Z;
  ue_output_bytes : Z;
  ue_processed_bytes : Z;
  ue_pipeline_evidence : option PipelineEvidence;
}.

Definition from_grant (grant : AuthorizationGrant) (source_bytes output_bytes : Z) : UsageEvent := {|
  ue_receipt_id := gr_receipt_id grant;
  ue_operation_id := gr_operation_id grant;
  ue_occurred_at := gr_occurred_at grant;
  ue_rate_version := gr_rate_version grant;
  ue_bucket := gr_bucket grant;
  ue_kind := gr_kind grant;
  ue_route := gr_route grant;
  ue_source_bytes := source_bytes;
  ue_output_bytes := output_bytes;
  ue_processed_bytes := Z.max source_bytes output_bytes;
  ue_pipeline_evidence := None;
|}.

Definition with_pipeline_evidence (e : UsageEvent) (evidence : PipelineEvidence) : UsageEvent :=
  mkUsage (ue_receipt_id e) (ue_operation_id e) (ue_occurred_at e) (ue_rate_version e) (ue_bucket e)
    (ue_kind e) (ue_route e) (ue_source_bytes e) (ue_output_bytes e) (ue_processed_bytes e) (Some evidence).

(** ** The trait *)

(** [W] is the sink together with what it can reach: the store, the journal,
    the provider. *)
Class ObjectSinkTransaction (W : Type) := {
  s_commit_state : W → SinkCommitState;
  s_durable_operation_id : W → option Uuid;
  s_write : list byte → SE W TransactionError unit;
  s_verify_output : Z → string → SE W TransactionError unit;
  s_record_usage_evidence : UsageEvent → SE W TransactionError unit;
  s_complete : SE W TransactionError StoredObjectMeta;
  s_abort : SE W TransactionError unit;
}.

(** The journal of the gateway ([state.operation_journal]), which is the one
    the sink writes to; [None] when none is configured. *)
Class GatewayJournal (W : Type) := {
  gj_configured : W → bool;
  gj_get : Uuid → SE W JournalError (option OperationRecord);
  gj_append_evidence : EvidenceRecord → SE W JournalError unit;
}.

(** [chrono]'s and [uuid]'s text and hash forms, and [unix_time_ms()] of
    [EvidenceRecord::new] at the evidence's creation. *)
Class UsageEncoding := {
  rfc3339 : Z → string;
  uuid_str : Uuid → string;
  uuid_v5_oid : Uuid → Uuid;
}.

Section usage.
  Context {W : Type} `{GatewayJournal W} `{UsageEncoding} (created_at : Z).

Definition usage_evidence_id (receipt_id : Uuid) : Uuid := uuid_v5_oid receipt_id.

Definition evidence_json (e : PipelineEvidence) : Json :=
  JObj [("revision", JStr (pe_revision e)); ("fingerprint", JStr (pe_fingerprint e));
        ("components", JStr (pe_components e)); ("fuel_consumed", JNum (pe_fuel_consumed e));
        ("duration_ms", JNum (pe_duration_ms e)); ("spool_mode", JStr (pe_spool_mode e))].

(** [DurableUsageEvidence::from] and its derived serialization. *)
Definition durable_usage_evidence (e : UsageEvent) : Json :=
  JObj [("receipt_id", JStr (uuid_str (ue_receipt_id e)));
        ("occurred_at", JStr (rfc3339 (ue_occurred_at e)));
        ("rate_version", JNum (ue_rate_version e));
        ("source_bytes", JNum (ue_source_bytes e));
        ("output_bytes", JNum (ue_output_bytes e));
        ("processed_bytes", JNum (ue_processed_bytes e));
        ("route", JStr (usage_route_str (ue_route e)));
        ("kind", JStr (request_kind_str (ue_kind e)));
        ("bucket", JStr (ue_bucket e));
        ("pipeline_evidence", from_option evidence_json JNull (ue_pipeline_evidence e))].

Definition append_usage_evidence (event : UsageEvent) : SE W JournalError unit :=
  gj_append_evidence (Operation.mkEvidence (usage_evidence_id (ue_receipt_id event)) (ue_operation_id event) "usage"
    (durable_usage_evidence event) created_at).

Definition persist_transaction_usage_evidence (durable_operation_id : option Uuid) (event : UsageEvent)
    : SE W JournalError unit := λ w,
  match durable_operation_id with
  | None => (Ok tt, w)
  | Some id =>
    if negb (bool_decide (id = ue_operation_id event))
    then (Err (Operation.Corrupt "sink operation does not match usage evidence operation"), w)
    else if negb (gj_configured w)
    then (Err (Operation.Persistence "durable sink has no operation journal"), w)
    else
      (row ← gj_get id;
       match row with
       | None => se_throw (Operation.Corrupt ("durable sink operation " +:+ uuid_str id +:+ " has no journal intent"))
       | Some _ => append_usage_evidence event
       end) w
  end.
End usage.

(** ** What a sink promises *)

Class SinkLaws (W : Type) `{ObjectSinkTransaction W, GatewayJournal W} (sha256_hex : list byte → string) := {
  (** a state the sink can be in *)
  sink_alive : W → Prop;
  (** every write so far was accepted, and these are the bytes *)
  sink_holds : list byte → W → Prop;
  sink_published : list byte → W → Prop;
  sink_unpublished : W → Prop;
  holds_alive d w : sink_holds d w → sink_alive w;
  precommit_unpublished w : sink_alive w → s_commit_state w = PreCommit → sink_unpublished w;
  write_law d c w : sink_holds d w →
    wp (s_write c) (λ r w', sink_alive w' ∧ (r = Ok tt → sink_holds (d ++ c) w')) w;
  verify_law d size sha w : sink_holds d w →
    wp (s_verify_output size sha) (λ r w', sink_alive w' ∧
      (r = Ok tt → sink_holds d w' ∧ size = Z.of_nat (length d) ∧ sha = sha256_hex d)) w;
  usage_law d e w : sink_holds d w →
    wp (s_record_usage_evidence e) (λ r w', sink_alive w' ∧ (r = Ok tt → sink_holds d w')) w;
  journal_get_law d id w : sink_holds d w → wp (gj_get id) (λ _ w', sink_holds d w') w;
  journal_append_law d e w : sink_holds d w → wp (gj_append_evidence e) (λ _ w', sink_holds d w') w;
  complete_law d w : sink_holds d w →
    wp s_complete (λ r w', sink_alive w' ∧ ∀ m, r = Ok m → sink_published d w') w;
  abort_law w : sink_alive w → s_commit_state w = PreCommit →
    wp s_abort (λ _ w', sink_unpublished w') w;
}.

Lemma persist_law `{SinkLaws W sha} `{UsageEncoding} at_ id event d w :
  sink_holds d w → wp (persist_transaction_usage_evidence at_ id event) (λ _ w', sink_holds d w') w.
Proof.
  intros Hd. unfold persist_transaction_usage_evidence, wp. destruct id as [id|]; [|done].
  case_bool_decide; cbn [negb]; [|done]. destruct (gj_configured w); cbn [negb]; [|done].
  apply (wp_bind (gj_get id)). eapply wp_mono; [by apply journal_get_law|]. intros [[row|]|e] w1 H1'; [|done..].
  by apply journal_append_law.
Qed.

(** ** [MemoryStore]: [store.rs] *)

Record StoredObject := mkStored { so_data : list byte; so_content_type : string; so_etag : string }.
Definition MemoryStore : Type := gmap string StoredObject.

Definition object_key (bucket key : string) : string := bucket +:+ "/" +:+ key.

(** [uuid] is the [Uuid::new_v4()] of the entity tag. *)
Definition store_put (uuid bucket key : string) (data : list byte) (content_type : string) (st : MemoryStore)
    : StoredObject * MemoryStore :=
  let obj := mkStored data content_type (debug_str uuid) in
  (obj, <[object_key bucket key := obj]> st).
Definition store_get (bucket key : string) (st : MemoryStore) : option StoredObject := st !! object_key bucket key.
Definition store_head (bucket key : string) (st : MemoryStore) : option StoredObject :=
  (λ o, mkStored [] (so_content_type o) (so_etag o)) <$> st !! object_key bucket key.
Definition store_metadata (bucket key : string) (st : MemoryStore) : option (Z * string * string) :=
  (λ o, (Z.of_nat (length (so_data o)), so_content_type o, so_etag o)) <$> st !! object_key bucket key.
Definition store_remove (bucket key : string) (st : MemoryStore) : bool * MemoryStore :=
  (bool_decide (is_Some (st !! object_key bucket key)), delete (object_key bucket key) st).
Definition store_keys (st : MemoryStore) : list string := (map_to_list st).*1.

(** ** [MemorySinkTransaction]: [transaction/memory.rs] *)

Record MemorySinkTransaction := mkMemSink {
  mk_bucket : string;
  mk_key : string;
  mk_content_type : string;
  mk_max_bytes : Z;
  mk_buffer : list byte;
  (** the bytes the hasher has seen *)
  mk_hashed : list byte;
  mk_output_verified : bool;
  mk_finished : bool;
}.

(** The sink, the shared store, the uuids drawn so far and, for the
    theorems, the puts of this transaction. *)
Record MemSinkWorld := mkMemWorld {
  mm_sink : MemorySinkTransaction;
  mm_store : MemoryStore;
  mm_tick : nat;
  mm_puts : list StoredObject;
}.

Definition memory_new (bucket key content_type : string) (max_bytes : Z)
    : result TransactionError MemorySinkTransaction :=
  if max_bytes =? 0 then Err TOutputMismatch
  else Ok (mkMemSink bucket key content_type max_bytes [] [] false false).

Definition memory_commit_state (w : MemSinkWorld) : SinkCommitState :=
  if mk_finished (mm_sink w) then SinkCommitted else PreCommit.

Definition mm_set_sink (s : MemorySinkTransaction) (w : MemSinkWorld) : MemSinkWorld :=
  mkMemWorld s (mm_store w) (mm_tick w) (mm_puts w).

Definition usize_saturating_add (a b : Z) : Z := Z.min u64_max (a + b).

Section memory.
  Context (sha256_hex : list byte → string) (new_v4 : nat → string).

Definition memory_write (chunk : list byte) : SE MemSinkWorld TransactionError unit := λ w,
  let s := mm_sink w in
  if mk_finished s then (Err TFinished, w)
  else if mk_max_bytes s <? usize_saturating_add (Z.of_nat (length (mk_buffer s))) (Z.of_nat (length chunk))
  then (Err TCapacityExceeded, w)
  else (Ok tt, mm_set_sink (mkMemSink (mk_bucket s) (mk_key s) (mk_content_type s) (mk_max_bytes s)
                 (mk_buffer s ++ chunk) (mk_hashed s ++ chunk) false (mk_finished s)) w).

Definition memory_verify_output (expected_size : Z) (expected_sha256 : string)
    : SE MemSinkWorld TransactionError unit := λ w,
  let s := mm_sink w in
  let size_matches := Z.of_nat (length (mk_buffer s)) =? expected_size in
  let digest_matches := bool_decide (sha256_hex (mk_hashed s) = expected_sha256) in
  if negb size_matches || negb digest_matches then (Err TOutputMismatch, w)
  else (Ok tt, mm_set_sink (mkMemSink (mk_bucket s) (mk_key s) (mk_content_type s) (mk_max_bytes s)
                 (mk_buffer s) (mk_hashed s) true (mk_finished s)) w).

Definition memory_complete : SE MemSinkWorld TransactionError StoredObjectMeta := λ w,
  let s := mm_sink w in
  if mk_finished s then (Err TFinished, w)
  else if negb (mk_output_verified s) then (Err TOutputMismatch, w)
  else
    let '(object, store) := store_put (new_v4 (mm_tick w)) (mk_bucket s) (mk_key s) (mk_buffer s)
                              (mk_content_type s) (mm_store w) in
    (Ok (mkMeta (Some (so_etag object)) None [] true),
     mkMemWorld (mkMemSink (mk_bucket s) (mk_key s) (mk_content_type s) (mk_max_bytes s)
                   [] (mk_hashed s) (mk_output_verified s) true)
       store (S (mm_tick w)) (mm_puts w ++ [object])).

Definition memory_abort : SE MemSinkWorld TransactionError unit := λ w,
  let s := mm_sink w in
  (Ok tt, mm_set_sink (mkMemSink (mk_bucket s) (mk_key s) (mk_content_type s) (mk_max_bytes s)
            [] (mk_hashed s) (mk_output_verified s) true) w).

#[local] Instance memory_sink : ObjectSinkTransaction MemSinkWorld := {|
  s_commit_state := memory_commit_state;
  s_durable_operation_id := λ _, None;
  s_write := memory_write;
  s_verify_output := memory_verify_output;
  s_record_usage_evidence := λ _, mret tt;
  s_complete := memory_complete;
  s_abort := memory_abort;
|}.

(** The sink has no row in the journal, so none is consulted. *)
#[local] Instance memory_journal : GatewayJournal MemSinkWorld := {|
  gj_configured := λ _, false;
  gj_get := λ _, mret None;
  gj_append_evidence := λ _, mret tt;
|}.

#[local, program] Instance memory_sink_laws : SinkLaws MemSinkWorld sha256_hex := {|
  sink_alive w := mk_finished (mm_sink w) = false → mm_puts w = [];
  sink_holds d w := mk_finished (mm_sink w) = false ∧ mm_puts w = []
    ∧ mk_buffer (mm_sink w) = d ∧ mk_hashed (mm_sink w) = d;
  sink_published d w := ∃ o, mm_puts w = [o] ∧ so_data o = d
    ∧ store_get (mk_bucket (mm_sink w)) (mk_key (mm_sink w)) (mm_store w) = Some o;
  sink_unpublished w := mm_puts w = [];
|}.
Next Obligation. by intros d w (_ & ? & _). Qed.
Next Obligation. intros w. cbn. unfold memory_commit_state. by destruct (mk_finished _); auto. Qed.
Next Obligation.
  intros d c w (Hf & Hp & Hb & Hh). cbn. unfold wp, memory_write. rewrite Hf. destruct (_ <? _); cbn; [by split|].
  by rewrite Hb, Hh.
Qed.
Next Obligation.
  intros d size sha w (Hf & Hp & Hb & Hh). cbn. unfold wp, memory_verify_output. rewrite Hb, Hh.
  destruct (Z.eqb_spec (Z.of_nat (length d)) size) as [<-|]; cbn; [|by split].
  case_bool_decide as Hs; cbn; [|by split]. split_and!; auto.
Qed.
Next Obligation. intros d e w (Hf & Hp & Hb & Hh). cbn. by split_and!. Qed.
Next Obligation. done. Qed.
Next Obligation. done. Qed.
Next Obligation.
  intros d w (Hf & Hp & Hb & Hh). cbn. unfold wp, memory_complete. rewrite Hf.
  destruct (mk_output_verified _); cbn; [|split; [done|by intros ? [=]]]. split; [done|]. intros m _.
  eexists. rewrite Hp. cbn. split; [done|]. split; [done|]. apply lookup_insert_eq.
Qed.
Next Obligation. intros w. cbn. unfold memory_commit_state. destruct (mk_finished _); [done|]. intros Hw _. by apply Hw. Qed.
End memory.

(** ** [DirectS3Sink] *)

Section direct.
  Context {J B : Type} `{JournalLaws J} `{TransactionBackend B}.
  Context (sha256_hex : list byte → string) (part_bytes : nat).
  Abbreviation World := (World Sink J B).

#[local] Instance direct_sink : ObjectSinkTransaction World := {|
  s_commit_state w := DirectSink.commit_state (self w);
  s_durable_operation_id w := Some (op_id (operation (self w)));
  s_write := DirectSink.write sha256_hex part_bytes;
  s_verify_output := DirectSink.verify_output sha256_hex;
  s_record_usage_evidence := λ _, mret tt;
  s_complete := DirectSink.complete sha256_hex;
  s_abort := DirectSink.abort;
|}.

#[local] Instance direct_journal : GatewayJournal World := {|
  gj_configured := λ _, true;
  gj_get id := journal_call (λ _, j_get id);
  gj_append_evidence e := journal_call (λ _, j_append_evidence e);
|}.

(** A journal call that leaves the rows alone. *)
Lemma holds_journal {A} (f : Z → SE J JournalError A) id d (w : World)
    (Hf : ∀ now j r j', f now j = (r, j') → same_rows j_wf j_state j_committed j j') :
  inv id w → accounted part_bytes d w →
  wp (journal_call f) (λ _ w', inv id w' ∧ accounted part_bytes d w') w.
Proof.
  intros (s & js & Hw) (Hst & Hh & Ho & Hn). apply wp_journal_same; [exact Hf|]. intros r w' Hs.
  pose proof Hs as (Hself & Hlog & _). rewrite app_nil_r in Hlog.
  split; [exists s, js; by eapply inv_at_same|]. unfold accounted. rewrite Hself, Hlog. split_and!; [|done..].
  eapply stored_quiet; [exact Hst|done|by apply quiet_refl].
Qed.

Lemma precommit_justified id (w : World) :
  inv id w → DirectSink.commit_state (self w) = PreCommit → abort_justified (log w).
Proof.
  intros (s & js & _ & Hs & _ & _ & Hrel & Hn & _ & Ha & _). unfold DirectSink.commit_state. rewrite Hs.
  destruct s; try done; intros _; [left; by apply no_commit_definitive, Hn..|]. destruct js; try done. by apply Ha.
Qed.

#[local, program] Instance direct_sink_laws (Hpos : (0 < part_bytes)%nat) : SinkLaws World sha256_hex := {|
  sink_alive w := ∃ id, inv id w;
  sink_holds d w := (∃ id, inv id w) ∧ accounted part_bytes d w;
  sink_published d w := sent_only d (log w) ∧ ∃ m, commit_justified (log w) (Some m);
  sink_unpublished w := abort_justified (log w);
|}.
Next Obligation. by intros _ d w [? _]. Qed.
Next Obligation. intros _ w [id Hw]. by eapply precommit_justified. Qed.
Next Obligation.
  intros Hpos d c w [[id Hi] Ha]. pose proof (inv_write sha256_hex part_bytes id c w Hi) as H1'.
  pose proof (wp_write_data sha256_hex part_bytes c d w Hpos Ha) as H2'. unfold wp in *. cbn.
  destruct (DirectSink.write _ _ _ _) as [r w']. split; [by exists id|]. intros Hr. split; [by exists id|auto].
Qed.
Next Obligation.
  intros _ d size sha w [[id Hi] Ha]. pose proof (inv_verify sha256_hex id size sha w Hi) as H1'.
  pose proof (wp_verify_data sha256_hex part_bytes size sha d w Ha) as H2'. unfold wp in *. cbn.
  destruct (DirectSink.verify_output _ _ _ _) as [r w']. split; [by exists id|].
  intros Hr. destruct (H2' Hr) as (? & ? & ?). split_and!; [by exists id|done..].
Qed.
Next Obligation. intros _ d e w [Hi Ha]. cbn. split; [done|]. by intros _. Qed.
Next Obligation.
  intros _ d id' w [[id Hi] Ha]. eapply wp_mono.
  - apply (holds_journal (λ _, j_get id') id d w); [|done..]. intros _ j r j'. apply get_state.
  - cbn. intros _ w' [? ?]. split; [by exists id|done].
Qed.
Next Obligation.
  intros _ d e w [[id Hi] Ha]. eapply wp_mono.
  - apply (holds_journal (λ _, j_append_evidence e) id d w); [|done..]. intros _ j r j'. apply append_evidence_state.
  - cbn. intros _ w' [? ?]. split; [by exists id|done].
Qed.
Next Obligation.
  intros _ d w [[id Hi] (Hst & _ & _ & Hn)]. pose proof (wp_complete sha256_hex id w Hi) as H1'.
  pose proof (wp_complete_data sha256_hex part_bytes d w Hst (no_commit_sent d _ Hn)) as H2'. unfold wp in *. cbn.
  destruct (DirectSink.complete _ _) as [r w']. destruct H1' as [Hi' Hr]. split; [by exists id|].
  intros m ->. split; [done|]. exists m. destruct (Hr m eq_refl) as [Hs Hm]. destruct Hi' as (s & js & Hw).
  destruct Hw as (_ & _ & _ & Hjs & _ & _ & Hc & _). rewrite Hs in Hjs. simplify_eq. rewrite <- Hm. by apply Hc.
Qed.
Next Obligation.
  intros _ w [id Hi] Hc. eapply wp_mono; [apply quiet_abort|]. intros r w' (evs & -> & He).
  apply abort_justified_app; [|done]. by eapply precommit_justified.
Qed.
End direct.
