(* ===== verification/Spool.v ===== *)
(** * Spool files: [crates/gateway/src/transaction/spool.rs]

    The quota that every spool file is charged to, as threads that race on an
    atomic counter; the sink that spools an object to a private file and
    uploads the file when it is complete; the removal of stale files.

    A spool sees its own file, which another task may unlink at any time (the
    cleanup of stale files does), and whose operations may fail.  The ledger
    of what the transaction reserved and released is kept for the theorems. *)

From S2P Require Import Prelude Staging Operation RustStr Integrity Managed SinkApi.

#[local] Open Scope Z_scope.
Set Default Goal Selector "!".

(** ** [SpoolQuota] *)

(** One turn of the loop in [reserve_bytes] after [current] was read: the
    check, then [compare_exchange_weak], which may fail spuriously. *)
Inductive reserve_outcome : Type :=
| Again (current : Z)
| Returns (r : result TransactionError unit).

Definition reserve_turn (max_bytes bytes current : Z) (spurious : bool) (reserved : Z) : reserve_outcome * Z :=
  match u64_checked_add current bytes with
  | None => (Returns (Err (TSpool "spool quota overflow")), reserved)
  | Some next =>
    if max_bytes <? next then (Returns (Err TCapacityExceeded), reserved)
    else if (current =? reserved) && negb spurious then (Returns (Ok tt), next)
    else (Again reserved, reserved)
  end.

(** [fetch_sub] wraps around. *)
Definition release_bytes (bytes reserved : Z) : Z := u64_wrap (reserved - bytes).

(** [reserve_bytes] when no other thread interferes. *)
Definition reserve_bytes (max_bytes bytes reserved : Z) : result TransactionError unit * Z :=
  match reserve_turn max_bytes bytes reserved false reserved with
  | (Returns r, reserved) => (r, reserved)
  | (Again _, reserved) => (Err TCapacityExceeded, reserved)
  end.

(** Threads: calls of [reserve_bytes] under way, before and after the load,
    and the reservations that are held. *)
Record QuotaPool := mkPool {
  qp_reserved : Z;
  qp_calls : gmap nat (Z * option Z);
  qp_held : gmap nat Z;
}.

Inductive quota_step (max_bytes : Z) : QuotaPool → QuotaPool → Prop :=
| quota_call t bytes p :
    is_u64 bytes → qp_calls p !! t = None → qp_held p !! t = None →
    quota_step max_bytes p (mkPool (qp_reserved p) (<[t := (bytes, None)]> (qp_calls p)) (qp_held p))
| quota_load t bytes p :
    qp_calls p !! t = Some (bytes, None) →
    quota_step max_bytes p
      (mkPool (qp_reserved p) (<[t := (bytes, Some (qp_reserved p))]> (qp_calls p)) (qp_held p))
| quota_turn t bytes current spurious p current' reserved :
    qp_calls p !! t = Some (bytes, Some current) →
    reserve_turn max_bytes bytes current spurious (qp_reserved p) = (Again current', reserved) →
    quota_step max_bytes p (mkPool reserved (<[t := (bytes, Some current')]> (qp_calls p)) (qp_held p))
| quota_return t bytes current spurious p r reserved :
    qp_calls p !! t = Some (bytes, Some current) →
    reserve_turn max_bytes bytes current spurious (qp_reserved p) = (Returns r, reserved) →
    quota_step max_bytes p (mkPool reserved (delete t (qp_calls p))
      (if is_ok r then <[t := bytes]> (qp_held p) else qp_held p))
| quota_release t bytes p :
    qp_held p !! t = Some bytes →
    quota_step max_bytes p (mkPool (release_bytes bytes (qp_reserved p)) (qp_calls p) (delete t (qp_held p))).

Definition quota_new : QuotaPool := mkPool 0 ∅ ∅.

Record quota_inv (max_bytes : Z) (p : QuotaPool) : Prop := {
  qi_sum : qp_reserved p = sumZ id (qp_held p);
  qi_max : 0 <= qp_reserved p <= max_bytes;
  qi_held : map_Forall (λ _, is_u64) (qp_held p);
  qi_calls : map_Forall (λ t c, is_u64 c.1 ∧ qp_held p !! t = None) (qp_calls p);
}.

Lemma quota_inv_step max_bytes p p' :
  max_bytes <= u64_max → quota_inv max_bytes p → quota_step max_bytes p p' → quota_inv max_bytes p'.
Proof.
  intros Hmax [Hsum Hb Hh Hc] Hs. destruct Hs as [t n p Hn Ht Hf|t n p Ht|t n c sp p c' r Ht Hr|t n c sp p r q Ht Hr|t n p Ht].
  - split; cbn; try done. apply map_Forall_insert_2; [done|]. exact Hc.
  - split; cbn; try done. apply map_Forall_insert_2; [|done]. exact (Hc _ _ Ht).
  - assert (r = qp_reserved p) as ->.
    { unfold reserve_turn in Hr. repeat (case_match; simplify_eq); done. }
    split; cbn; try done. apply map_Forall_insert_2; [|done]. exact (Hc _ _ Ht).
  - destruct (Hc _ _ Ht) as [Hn Hnone]. cbn in Hn.
    assert (Hcases : (r = Ok tt ∧ q = qp_reserved p + n ∧ q <= max_bytes) ∨ (is_ok r = false ∧ q = qp_reserved p)).
    { unfold reserve_turn, u64_checked_add in Hr.
      destruct (_ <=? u64_max); [|injection Hr as <- <-; auto]. destruct (Z.ltb_spec max_bytes (c + n)); [injection Hr as <- <-; auto|].
      destruct (Z.eqb_spec c (qp_reserved p)); destruct sp; cbn in Hr; simplify_eq. auto with lia. }
    destruct Hcases as [(-> & -> & Hle)|[-> ->]]; cbn.
    + split; cbn.
      * rewrite sumZ_insert, Hsum by done. unfold id. lia.
      * destruct Hn. lia.
      * by apply map_Forall_insert_2.
      * intros t' c' [Hne Ht']%lookup_delete_Some. rewrite lookup_insert_ne by done. exact (Hc _ _ Ht').
    + split; cbn; try done. by apply map_Forall_delete.
  - assert (Hn : is_u64 n) by exact (Hh _ _ Ht).
    assert (Hle : n <= qp_reserved p).
    { rewrite Hsum. apply (sumZ_member id (qp_held p) t n); [|done]. intros k a Ha. unfold id. by destruct (Hh _ _ Ha). }
    assert (Hrel : release_bytes n (qp_reserved p) = qp_reserved p - n).
    { unfold release_bytes, u64_wrap. apply Z.mod_small. unfold u64_max in Hmax. destruct Hn. lia. }
    rewrite Hrel. destruct Hn. split; cbn.
    + rewrite (sumZ_delete id _ t n Ht), Hsum. done.
    + lia.
    + by apply map_Forall_delete.
    + intros t' c' Ht'. destruct (Hc _ _ Ht') as [? ?]. split; [done|]. rewrite lookup_delete_None. auto.
Qed.

(** C19: The quota is exact under any interleaving of threads, whichever
    exchanges fail: the counter is the sum of the reservations held, never
    above the limit, and no release wraps around. *)
Theorem spool_quota_exact max_bytes p :
  max_bytes <= u64_max → 0 <= max_bytes → rtc (quota_step max_bytes) quota_new p →
  qp_reserved p = sumZ id (qp_held p) ∧ 0 <= qp_reserved p <= max_bytes
  ∧ ∀ t bytes, qp_held p !! t = Some bytes → release_bytes bytes (qp_reserved p) = qp_reserved p - bytes.
Proof.
  intros Hmax Hpos Hsteps. assert (Hinv : quota_inv max_bytes p).
  { revert Hsteps. apply (rtc_ind_r (quota_inv max_bytes)).
    - split; cbn; [done|lia|apply map_Forall_empty..].
    - intros q q' _ Hq Hi. by eapply quota_inv_step. }
  destruct Hinv as [Hsum Hb Hh _]. split; [done|]. split; [done|]. intros t n Ht.
  assert (0 <= n <= qp_reserved p) as [? ?].
  { destruct (Hh _ _ Ht). split; [done|]. rewrite Hsum. apply (sumZ_member id (qp_held p) t n); [|done].
    intros k a Ha. unfold id. by destruct (Hh _ _ Ha). }
  unfold release_bytes, u64_wrap. apply Z.mod_small. unfold u64_max in Hmax. lia.
Qed.

(** ** A spool file and its operations *)

Inductive IoErrorKind : Type := IoNotFound | IoAlreadyExists | IoUnexpectedEof | IoOther.
#[global] Instance IoErrorKind_eq_dec : EqDecision IoErrorKind.
Proof. solve_decision. Defined.
Record IoError := mkIo { io_kind : IoErrorKind; io_message : string }.

(** The file of one spool: is it linked in the directory, and its contents. *)
Record SpoolFile := mkFile { sf_linked : bool; sf_content : list byte }.

Record SpoolWorld := mkSpoolWorld {
  sw_file : option SpoolFile;
  (** what was reserved (positive) and released (negative) *)
  sw_ledger : list Z;
  sw_tick : nat;
}.

Definition set_file (f : option SpoolFile) (w : SpoolWorld) : SpoolWorld := mkSpoolWorld f (sw_ledger w) (sw_tick w).
Definition log_quota (z : Z) (w : SpoolWorld) : SpoolWorld := mkSpoolWorld (sw_file w) (sw_ledger w ++ [z]) (sw_tick w).
Definition ledger_sum (w : SpoolWorld) : Z := foldr Z.add 0 (sw_ledger w).

(** The environment of a spool: at its [n]-th file operation another task may
    have unlinked the file, and the operation may fail; a failed write leaves
    some prefix of what should be there. *)
Class FileSystem := {
  fs_unlinked : nat → bool;
  fs_fault : nat → option (IoError * nat);
}.

Section files.
  Context `{FileSystem}.

Definition unlink (f : SpoolFile) : SpoolFile := mkFile false (sf_content f).

Definition io {A} (on_fault : nat → SpoolWorld → SpoolWorld) (m : SE SpoolWorld IoError A) : SE SpoolWorld IoError A := λ w,
  let n := sw_tick w in
  let file := if fs_unlinked n then unlink <$> sw_file w else sw_file w in
  let w := mkSpoolWorld file (sw_ledger w) (S n) in
  match fs_fault n with
  | Some (e, kept) => (Err e, on_fault kept w)
  | None => m w
  end.
Definition no_effect (kept : nat) (w : SpoolWorld) : SpoolWorld := w.

Definition io_create_dir_all : SE SpoolWorld IoError unit := io no_effect (mret tt).
Definition io_create_new : SE SpoolWorld IoError unit := io no_effect (se_modify (set_file (Some (mkFile true [])))).
Definition io_sync : SE SpoolWorld IoError unit := io no_effect (mret tt).

Definition append (chunk : list byte) (f : SpoolFile) : SpoolFile := mkFile (sf_linked f) (sf_content f ++ chunk).
Definition io_write_all (chunk : list byte) : SE SpoolWorld IoError unit :=
  io (λ kept w, set_file ((λ f, mkFile (sf_linked f) (take kept (sf_content f ++ chunk))) <$> sw_file w) w)
    (se_modify (λ w, set_file (append chunk <$> sw_file w) w)).

(** [remove_file]: [NotFound] when the name is gone. *)
Definition io_remove_file : SE SpoolWorld IoError unit :=
  io no_effect (λ w,
    match sw_file w with
    | Some (mkFile true content) => (Ok tt, set_file (Some (mkFile false content)) w)
    | _ => (Err (mkIo IoNotFound "not found"), w)
    end).

(** What a reader of the path finds. *)
Definition path_content (w : SpoolWorld) : option (list byte) :=
  f ← sw_file w; if sf_linked f then Some (sf_content f) else None.
End files.

Definition spool_error (e : IoError) : TransactionError := TSpool (io_message e).

(** ** [CompatibilitySpoolTransaction] *)

Record CompatibilitySpool := mkSpool {
  cs_max_object_bytes : Z;
  cs_file : bool;
  cs_bytes : Z;
  cs_reserved_bytes : Z;
  (** the bytes the hasher has seen *)
  cs_hashed : list byte;
  cs_output_verified : bool;
  cs_commit_started : bool;
  cs_finished : bool;
}.

(** The transaction with its file, and the uploads it asked for. *)
Record CompatWorld := mkCompat {
  cw_self : CompatibilitySpool;
  cw_world : SpoolWorld;
  cw_uploads : list (option (list byte) * Z * result TransactionError StoredObjectMeta);
}.

Definition cw_set_self (s : CompatibilitySpool) (w : CompatWorld) : CompatWorld := mkCompat s (cw_world w) (cw_uploads w).
Definition cw_set_world (x : SpoolWorld) (w : CompatWorld) : CompatWorld := mkCompat (cw_self w) x (cw_uploads w).

Definition compat_commit_state (w : CompatWorld) : SinkCommitState :=
  if cs_finished (cw_self w) then SinkCommitted
  else if cs_commit_started (cw_self w) then SinkCommitUnknown else PreCommit.

Section compat.
  Context `{FileSystem} (sha256_hex : list byte → string).
  (** [CompatibilitySpoolUploader::upload_file]: what it answers to the
      contents it finds under the path and the announced length. *)
  Context (upload_file : option (list byte) → Z → result TransactionError StoredObjectMeta).

(** [quota] is the counter when it is reserved from. *)
Definition compat_begin (quota_max max_object_bytes quota : Z)
    : SE SpoolWorld TransactionError CompatibilitySpool := λ w,
  if (max_object_bytes =? 0) || (quota_max <? max_object_bytes)
  then (Err (TSpool "invalid compatibility spool object limit"), w)
  else match (reserve_bytes quota_max max_object_bytes quota).1 with
  | Err e => (Err e, w)
  | Ok _ =>
    let w := log_quota max_object_bytes w in
    match io_create_dir_all w with
    | (Err e, w) => (Err (spool_error e), log_quota (- max_object_bytes) w)
    | (Ok _, w) =>
      match io_create_new w with
      | (Err e, w) => (Err (spool_error e), log_quota (- max_object_bytes) w)
      | (Ok _, w) => (Ok (mkSpool max_object_bytes true 0 max_object_bytes [] false false false), w)
      end
    end
  end.

Definition compat_io {A} (m : SE SpoolWorld IoError A) : SE CompatWorld TransactionError A := λ w,
  let (r, x) := m (cw_world w) in (map_err spool_error r, cw_set_world x w).

Definition compat_write (chunk : list byte) : SE CompatWorld TransactionError unit := λ w,
  let s := cw_self w in
  if cs_finished s then (Err TFinished, w)
  else match u64_checked_add (cs_bytes s) (Z.of_nat (length chunk)) with
  | None => (Err (TSpool "spool size overflow"), w)
  | Some next =>
    if cs_max_object_bytes s <? next then (Err TCapacityExceeded, w)
    else if negb (cs_file s) then (Err TFinished, w)
    else
      (_ ← compat_io (io_write_all chunk);
       se_modify (cw_set_self (mkSpool (cs_max_object_bytes s) (cs_file s) next (cs_reserved_bytes s)
                                 (cs_hashed s ++ chunk) false (cs_commit_started s) (cs_finished s)))) w
  end.

Definition compat_verify_output (expected_size : Z) (expected_sha256 : string)
    : SE CompatWorld TransactionError unit := λ w,
  let s := cw_self w in
  if negb (cs_bytes s =? expected_size) || negb (bool_decide (sha256_hex (cs_hashed s) = expected_sha256))
  then (Err TOutputMismatch, w)
  else (Ok tt, cw_set_self (mkSpool (cs_max_object_bytes s) (cs_file s) (cs_bytes s) (cs_reserved_bytes s)
                              (cs_hashed s) true (cs_commit_started s) (cs_finished s)) w).

(** [remove_file]: a file that is already gone is removed. *)
Definition compat_remove_file : SE CompatWorld TransactionError unit := λ w,
  let s := cw_self w in
  let w := cw_set_self (mkSpool (cs_max_object_bytes s) false (cs_bytes s) (cs_reserved_bytes s)
                          (cs_hashed s) (cs_output_verified s) (cs_commit_started s) (cs_finished s)) w in
  let (r, x) := io_remove_file (cw_world w) in
  let w := cw_set_world x w in
  match r with
  | Ok _ => (Ok tt, w)
  | Err e => if bool_decide (io_kind e = IoNotFound) then (Ok tt, w) else (Err (spool_error e), w)
  end.

(** [release_bytes] and the reset that [complete] and [abort] end with. *)
Definition compat_finish : SE CompatWorld TransactionError unit := λ w,
  let s := cw_self w in
  (Ok tt, mkCompat (mkSpool (cs_max_object_bytes s) (cs_file s) 0 0 (cs_hashed s) (cs_output_verified s)
                      (cs_commit_started s) true)
            (log_quota (- cs_reserved_bytes s) (cw_world w)) (cw_uploads w)).

Definition compat_upload : SE CompatWorld TransactionError StoredObjectMeta := λ w,
  let s := cw_self w in
  let s := mkSpool (cs_max_object_bytes s) (cs_file s) (cs_bytes s) (cs_reserved_bytes s)
             (cs_hashed s) (cs_output_verified s) true (cs_finished s) in
  let content := path_content (cw_world w) in
  let r := upload_file content (cs_bytes s) in
  (r, mkCompat s (cw_world w) (cw_uploads w ++ [(content, cs_bytes s, r)])).

Definition compat_complete : SE CompatWorld TransactionError StoredObjectMeta := λ w,
  let s := cw_self w in
  if cs_finished s then (Err TFinished, w)
  else if negb (cs_output_verified s) then (Err TOutputMismatch, w)
  else if negb (cs_file s) then (Err TFinished, w)
  else
    (_ ← compat_io io_sync;
     _ ← compat_io io_sync;
     result ← compat_upload;
     _ ← compat_remove_file;
     _ ← compat_finish;
     mret result) w.

Definition compat_abort : SE CompatWorld TransactionError unit := λ w,
  if cs_finished (cw_self w) then (Ok tt, w)
  else (_ ← compat_remove_file; compat_finish) w.

(** [Drop]. *)
Definition compat_drop (w : CompatWorld) : CompatWorld :=
  if cs_finished (cw_self w) then w
  else
    let x := (io_remove_file (cw_world w)).2 in
    let s := cw_self w in
    mkCompat (mkSpool (cs_max_object_bytes s) false 0 0 (cs_hashed s) (cs_output_verified s)
                (cs_commit_started s) (cs_finished s))
      (log_quota (- cs_reserved_bytes s) x) (cw_uploads w).

#[local] Instance compat_sink : ObjectSinkTransaction CompatWorld := {|
  s_commit_state := compat_commit_state;
  s_durable_operation_id := λ _, None;
  s_write := compat_write;
  s_verify_output := compat_verify_output;
  s_record_usage_evidence := λ _, mret tt;
  s_complete := compat_complete;
  s_abort := compat_abort;
|}.
#[local] Instance compat_journal : GatewayJournal CompatWorld := {|
  gj_configured := λ _, false;
  gj_get := λ _, mret None;
  gj_append_evidence := λ _, mret tt;
|}.
End compat.

(** ** [cleanup_stale] *)

Definition FILE_PREFIX : list byte := bs "maskura-spool-".
Definition READ_FILE_PREFIX : list byte := bs "maskura-read-spool-".
Definition starts_with (p l : list byte) : bool := bool_decide (take (length p) l = p).
Definition is_recognized_spool_file (name : list byte) : bool :=
  ends_with (bs ".tmp") name && (starts_with FILE_PREFIX name || starts_with READ_FILE_PREFIX name).

(** An entry of the directory: its name if it is text, its metadata, and what
    removing it answers.  Times are nanoseconds since the epoch. *)
Record Metadata := mkMetadata { md_is_file : bool; md_modified : result IoError Z }.
Record DirEntry := mkEntry {
  de_name : option (list byte);
  de_metadata : result IoError Metadata;
  de_removal : result IoError unit;
}.

(** [SystemTime::checked_sub]: the seconds of a time are an [i64]. *)
Definition system_time_checked_sub (now duration : Z) : option Z :=
  if i64_min <=? (now - duration) / 10 ^ 9 then Some (now - duration) else None.

(** The names that were removed, and the count or the error that ended the walk. *)
Fixpoint cleanup_entries (cutoff removed : Z) (entries : list (result IoError DirEntry))
    : result TransactionError Z * list (list byte) :=
  match entries with
  | [] => (Ok removed, [])
  | Err e :: _ => (Err (spool_error e), [])
  | Ok entry :: entries =>
    match de_name entry with
    | None => cleanup_entries cutoff removed entries
    | Some name =>
      if negb (is_recognized_spool_file name) then cleanup_entries cutoff removed entries
      else match de_metadata entry with
      | Err e => (Err (spool_error e), [])
      | Ok metadata =>
        if negb (md_is_file metadata) then cleanup_entries cutoff removed entries
        else match md_modified metadata with
        | Err e => (Err (spool_error e), [])
        | Ok modified =>
          if cutoff <? modified then cleanup_entries cutoff removed entries
          else match de_removal entry with
          | Err e => (Err (spool_error e), [])
          | Ok _ => let (r, names) := cleanup_entries cutoff (removed + 1) entries in (r, name :: names)
          end
        end
      end
    end
  end.

Definition cleanup_stale (listing : result IoError (list (result IoError DirEntry))) (now stale_after : Z)
    : result TransactionError Z * list (list byte) :=
  match listing with
  | Err e => if bool_decide (io_kind e = IoNotFound) then (Ok 0, []) else (Err (spool_error e), [])
  | Ok entries => cleanup_entries (default 0 (system_time_checked_sub now stale_after)) 0 entries
  end.

(** Nothing but recognized spool files, regular and not younger than the
    cutoff, is ever removed. *)
Lemma cleanup_removes_stale cutoff removed entries name :
  name ∈ (cleanup_entries cutoff removed entries).2 →
  is_recognized_spool_file name = true ∧ ∃ entry m modified, Ok entry ∈ entries ∧ de_name entry = Some name
    ∧ de_metadata entry = Ok m ∧ md_is_file m = true ∧ md_modified m = Ok modified ∧ modified <= cutoff.
Proof.
  revert removed. induction entries as [|[entry|e] entries IH]; intros removed; cbn [cleanup_entries];
    [by intros ?%not_elem_of_nil| |by intros ?%not_elem_of_nil].
  assert (Hlater : ∀ n, name ∈ (cleanup_entries cutoff n entries).2 →
    is_recognized_spool_file name = true ∧ ∃ en m modified, Ok en ∈ Ok entry :: entries ∧ de_name en = Some name
    ∧ de_metadata en = Ok m ∧ md_is_file m = true ∧ md_modified m = Ok modified ∧ modified <= cutoff).
  { intros n (Hr & en & m & md & Hin & Hrest)%IH. split; [done|]. exists en, m, md. split; [|done]. by right. }
  destruct (de_name entry) as [nm|] eqn:En; [|eauto]. destruct (is_recognized_spool_file nm) eqn:Er; cbn [negb]; [|eauto].
  destruct (de_metadata entry) as [m|] eqn:Em; [|by intros ?%not_elem_of_nil].
  destruct (md_is_file m) eqn:Ef; cbn [negb]; [|eauto]. destruct (md_modified m) as [md|] eqn:Ed; [|by intros ?%not_elem_of_nil].
  destruct (Z.ltb_spec cutoff md); [eauto|]. destruct (de_removal entry); [|by intros ?%not_elem_of_nil].
  destruct (cleanup_entries cutoff (removed + 1) entries) as [r names] eqn:Ec. cbn.
  intros [->|Hin]%elem_of_cons; [|apply (Hlater (removed + 1)); by rewrite Ec]. split; [done|]. exists entry, m, md.
  split_and!; [by left|done..].
Qed.

(** ** What the file operations leave alone *)

Section io_facts.
  Context `{FileSystem}.

Definition content (w : SpoolWorld) : option (list byte) := sf_content <$> sw_file w.

(** An operation that neither writes nor charges. *)
Definition io_pure {A} (m : SE SpoolWorld IoError A) : Prop :=
  ∀ w, content (m w).2 = content w ∧ sw_ledger (m w).2 = sw_ledger w.

Lemma io_pure_no_effect {A} (m : SE SpoolWorld IoError A) : io_pure m → io_pure (io no_effect m).
Proof.
  intros Hm w. unfold io, no_effect. set (w1 := mkSpoolWorld _ _ _).
  assert (content w1 = content w ∧ sw_ledger w1 = sw_ledger w) as [E1 E2].
  { split; [|done]. unfold content, w1. cbn. destruct (fs_unlinked _); [|done]. by destruct (sw_file w). }
  destruct (fs_fault _) as [[e k]|]; [done|]. destruct (Hm w1) as [-> ->]. done.
Qed.
Lemma io_pure_sync : io_pure io_sync.
Proof. by apply io_pure_no_effect. Qed.
Lemma io_pure_dir : io_pure io_create_dir_all.
Proof. by apply io_pure_no_effect. Qed.
Lemma io_pure_remove : io_pure io_remove_file.
Proof. apply io_pure_no_effect. by intros [[[[] c]|] l t]. Qed.

Lemma io_create_new_spec w r w' :
  io_create_new w = (r, w') → sw_ledger w' = sw_ledger w ∧ (r = Ok tt → content w' = Some []).
Proof. unfold io_create_new, io, no_effect. destruct (fs_fault _) as [[e k]|]; intros [= <- <-]; by split. Qed.

Lemma io_write_all_spec chunk w r w' c :
  content w = Some c → io_write_all chunk w = (r, w') →
  sw_ledger w' = sw_ledger w ∧ (r = Ok tt → content w' = Some (c ++ chunk))
  ∧ ∃ k, content w' = Some (take k (c ++ chunk)).
Proof.
  intros Hc. unfold io_write_all, io. set (w1 := mkSpoolWorld _ _ _).
  assert (Hc1 : content w1 = Some c).
  { revert Hc. unfold content, w1. cbn. destruct (fs_unlinked _); [|done]. by destruct (sw_file w). }
  assert (Hl : sw_ledger w1 = sw_ledger w) by done. clearbody w1. rewrite <- Hl. destruct w1 as [[f|] l t]; [|done].
  injection Hc1 as <-. destruct (fs_fault _) as [[e k]|]; intros [= <- <-]; (split; [done|]); (split; [done|]).
  - by exists k.
  - exists (length (sf_content f ++ chunk)). by rewrite firstn_all.
Qed.

Lemma path_content_content w d : content w = Some d → path_content w = Some d ∨ path_content w = None.
Proof. unfold content, path_content. destruct (sw_file w) as [[[] c]|]; cbn; [|auto..]. intros [= ->]. by left. Qed.
End io_facts.

(** ** The spooled sink keeps the promises of a sink *)

Section compat_laws.
  Context `{FileSystem} (sha256_hex : list byte → string).
  Context (upload_file : option (list byte) → Z → result TransactionError StoredObjectMeta).
  (** An uploader cannot read a file that is not there. *)
  Hypothesis upload_missing : ∀ n, is_ok (upload_file None n) = false.
  #[local] Existing Instance compat_journal.
#[local] Instance spooled : ObjectSinkTransaction CompatWorld := compat_sink sha256_hex upload_file.

Lemma compat_complete_spec d w :
  cs_finished (cw_self w) = false → cs_commit_started (cw_self w) = false → cw_uploads w = [] →
  content (cw_world w) = Some d → cs_bytes (cw_self w) = Z.of_nat (length d) →
  wp (compat_complete upload_file) (λ r w',
    (cs_finished (cw_self w') = false → cs_commit_started (cw_self w') = false → cw_uploads w' = [])
    ∧ ∀ m, r = Ok m → cw_uploads w' = [(Some d, Z.of_nat (length d), Ok m)]) w.
Proof.
  intros Hf Hs Hu Hc Hb. unfold wp, compat_complete. rewrite Hf. destruct (cs_output_verified _); cbn; [|done].
  destruct (cs_file _); cbn; [|done]. unfold mbind, SE_bind, compat_io.
  destruct (io_sync (cw_world w)) as [[[]|e] x1] eqn:E1; cbn; [|done].
  destruct (io_sync x1) as [[[]|e] x2] eqn:E2; cbn; [|done].
  assert (Hc2 : content x2 = Some d).
  { destruct (io_pure_sync (cw_world w)) as [E _]. destruct (io_pure_sync x1) as [E' _]. rewrite E1 in E. rewrite E2 in E'.
    cbn in E, E'. congruence. }
  unfold compat_upload. cbn. rewrite Hu, Hb. destruct (upload_file (path_content x2) _) as [m|e] eqn:Eu; cbn; [|done].
  assert (Hp : path_content x2 = Some d).
  { destruct (path_content_content _ _ Hc2) as [|Hn]; [done|]. pose proof (upload_missing (Z.of_nat (length d))).
    rewrite Hn in Eu. by rewrite Eu in *. }
  rewrite Hp. unfold compat_remove_file. cbn. destruct (io_remove_file x2) as [[[]|e] x3]; cbn.
  - split; [done|]. by intros ? [= <-].
  - case_bool_decide; cbn; [|done]. split; [done|]. by intros ? [= <-].
Qed.

#[local, program] Instance compat_laws : SinkLaws CompatWorld sha256_hex := {|
  sink_alive w := cs_finished (cw_self w) = false → cs_commit_started (cw_self w) = false → cw_uploads w = [];
  sink_holds d w := cs_finished (cw_self w) = false ∧ cs_commit_started (cw_self w) = false ∧ cw_uploads w = []
    ∧ content (cw_world w) = Some d ∧ cs_hashed (cw_self w) = d ∧ cs_bytes (cw_self w) = Z.of_nat (length d);
  sink_published d w := ∃ m, cw_uploads w = [(Some d, Z.of_nat (length d), Ok m)];
  sink_unpublished w := cw_uploads w = [];
|}.
Next Obligation. by intros d w (_ & _ & ? & _). Qed.
Next Obligation.
  intros w. cbn. unfold compat_commit_state. destruct (cs_finished _); [done|]. destruct (cs_commit_started _); [done|]. auto.
Qed.
Next Obligation.
  intros d c w (Hf & Hs & Hu & Hc & Hh & Hb). cbn. unfold wp, compat_write. rewrite Hf, Hb. unfold u64_checked_add.
  destruct (_ <=? u64_max); [|by split]. destruct (_ <? _); [by split|]. destruct (cs_file _); cbn; [|by split].
  unfold mbind, SE_bind, compat_io. destruct (io_write_all c (cw_world w)) as [[[]|e] x] eqn:Ew; cbn; [|by split].
  apply (io_write_all_spec c _ _ _ d) in Ew as (_ & Hx & _); [|done]. split; [done|]. intros _.
  split_and!; [done..|by apply Hx|by rewrite Hh|rewrite length_app; lia].
Qed.
Next Obligation.
  intros d size sha w (Hf & Hs & Hu & Hc & Hh & Hb). cbn. unfold wp, compat_verify_output. rewrite Hb, Hh.
  destruct (Z.eqb_spec (Z.of_nat (length d)) size) as [<-|]; cbn; [|by split].
  case_bool_decide; cbn; [|by split]. split; [done|]. intros _. by split_and!.
Qed.
Next Obligation. intros d e w Hw. cbn. split; [by destruct Hw as (_ & _ & ? & _)|done]. Qed.
Next Obligation. done. Qed.
Next Obligation. done. Qed.
Next Obligation.
  intros d w (Hf & Hs & Hu & Hc & Hh & Hb). eapply wp_mono; [by apply (compat_complete_spec d)|].
  intros r w' [Ha Hr]. split; [done|]. intros m E. exists m. by apply Hr.
Qed.
Next Obligation.
  intros w. cbn. unfold compat_commit_state, wp, compat_abort. destruct (cs_finished _) eqn:Ef; [done|].
  destruct (cs_commit_started _) eqn:Es; [done|]. intros Ha _. specialize (Ha eq_refl eq_refl).
  unfold mbind, SE_bind, compat_remove_file. destruct (io_remove_file _) as [[[]|e] x]; cbn; [done|].
  by case_bool_decide.
Qed.

(** *** The reservation is given back exactly once *)

Inductive spool_call : Type :=
| SpoolWrite (chunk : list byte)
| SpoolVerify (size : Z) (sha : string)
| SpoolComplete
| SpoolAbort.
Definition run_spool_call (c : spool_call) (w : CompatWorld) : CompatWorld :=
  match c with
  | SpoolWrite chunk => (compat_write chunk w).2
  | SpoolVerify size sha => (compat_verify_output sha256_hex size sha w).2
  | SpoolComplete => (compat_complete upload_file w).2
  | SpoolAbort => (compat_abort w).2
  end.

(** The ledger balances with what the transaction still holds. *)
Definition balanced (w : CompatWorld) : Prop :=
  ledger_sum (cw_world w) = cs_reserved_bytes (cw_self w)
  ∧ (cs_finished (cw_self w) = true → cs_reserved_bytes (cw_self w) = 0).

Lemma ledger_sum_log z w : ledger_sum (log_quota z w) = ledger_sum w + z.
Proof.
  unfold ledger_sum, log_quota. cbn. induction (sw_ledger w) as [|a l IH]; cbn; [lia|]. rewrite IH. lia.
Qed.
Lemma ledger_sum_pure {A} (m : SE SpoolWorld IoError A) r w w' :
  io_pure m → m w = (r, w') → ledger_sum w' = ledger_sum w.
Proof. intros Hm E. destruct (Hm w) as [_ El]. rewrite E in El. unfold ledger_sum. cbn in El. by rewrite El. Qed.

Lemma balanced_io {A} (m : SE SpoolWorld IoError A) w r x :
  io_pure m → balanced w → m (cw_world w) = (r, x) → balanced (cw_set_world x w).
Proof. intros Hm [Hb Hf] E. split; [|done]. cbn. by rewrite (ledger_sum_pure m _ _ _ Hm E). Qed.

Lemma balanced_remove w r w' :
  balanced w → compat_remove_file w = (r, w') → balanced w' ∧ cs_finished (cw_self w') = cs_finished (cw_self w).
Proof.
  intros Hb. unfold compat_remove_file. cbn. destruct (io_remove_file (cw_world w)) as [q x] eqn:E.
  destruct (balanced_io _ _ _ _ io_pure_remove Hb E) as [H1' H2'].
  destruct q as [[]|e]; [|case_bool_decide]; intros [= <- <-]; by split.
Qed.

Lemma balanced_finish w : balanced w → balanced (compat_finish w).2.
Proof.
  intros [Hb _]. split; [|done]. change (ledger_sum (log_quota (- cs_reserved_bytes (cw_self w)) (cw_world w)) = 0).
  rewrite ledger_sum_log, Hb. lia.
Qed.

Lemma balanced_write chunk w : balanced w → balanced (compat_write chunk w).2.
Proof.
  intros Hb. unfold compat_write. destruct (cs_finished _) eqn:Ef; [done|]. destruct (u64_checked_add _ _); [|done].
  destruct (_ <? _); [done|]. destruct (cs_file _); cbn [negb]; [|done]. unfold mbind, SE_bind, compat_io.
  destruct (io_write_all chunk (cw_world w)) as [r x] eqn:E.
  assert (Hx : ledger_sum x = ledger_sum (cw_world w)).
  { revert E. unfold io_write_all, io. destruct (fs_fault _) as [[e k]|]; by intros [= <- <-]. }
  destruct Hb as [Hb Hz]. destruct r as [[]|e]; split; cbn; by rewrite ?Hx, ?Ef.
Qed.

Lemma balanced_complete w : balanced w → balanced (compat_complete upload_file w).2.
Proof.
  intros Hb. unfold compat_complete. destruct (cs_finished _) eqn:Ef; [done|]. destruct (cs_output_verified _); cbn [negb]; [|done].
  destruct (cs_file _); cbn [negb]; [|done]. unfold mbind, SE_bind, compat_io.
  destruct (io_sync (cw_world w)) as [r1 x1] eqn:E1. pose proof (balanced_io _ _ _ _ io_pure_sync Hb E1) as Hb1.
  destruct r1 as [[]|e]; cbn [map_err]; [|done].
  destruct (io_sync (cw_world (cw_set_world x1 w))) as [r2 x2] eqn:E2.
  pose proof (balanced_io _ _ _ _ io_pure_sync Hb1 E2) as Hb2. destruct r2 as [[]|e]; cbn [map_err]; [|done].
  destruct (compat_upload _ _) as [r3 w3] eqn:E3.
  assert (Hb3 : balanced w3) by (unfold compat_upload in E3; injection E3 as _ <-; exact Hb2). destruct r3 as [m|e]; [|done].
  destruct (compat_remove_file w3) as [r4 w4] eqn:E4. destruct (balanced_remove _ _ _ Hb3 E4) as [Hb4 _].
  destruct r4 as [[]|e]; [|done]. apply (balanced_finish _ Hb4).
Qed.

Lemma balanced_call c w : balanced w → balanced (run_spool_call c w).
Proof.
  intros Hb. destruct c as [chunk|size sha| |]; cbn [run_spool_call].
  - by apply balanced_write.
  - unfold compat_verify_output. by destruct (_ || _).
  - by apply balanced_complete.
  - unfold compat_abort. destruct (cs_finished _) eqn:Ef; [done|]. unfold mbind, SE_bind.
    destruct (compat_remove_file w) as [r1 w1] eqn:E1. destruct (balanced_remove _ _ _ Hb E1) as [Hb1 _].
    destruct r1 as [[]|e]; [|done]. by apply balanced_finish.
Qed.

Lemma compat_begin_ledger qmax max q w r w' :
  compat_begin qmax max q w = (r, w') → ledger_sum w = 0 →
  match r with Ok s => balanced (mkCompat s w' []) | Err _ => ledger_sum w' = 0 end.
Proof.
  unfold compat_begin. destruct (_ || _); [by intros [= <- <-]|]. destruct (reserve_bytes _ _ _).1; [|by intros [= <- <-]].
  destruct (io_create_dir_all _) as [r1 w1] eqn:E1. apply ledger_sum_pure in E1; [|apply io_pure_dir].
  rewrite ledger_sum_log in E1. destruct r1 as [[]|e]; [|intros [= <- <-]; rewrite ledger_sum_log; lia].
  destruct (io_create_new w1) as [r2 w2] eqn:E2. apply io_create_new_spec in E2 as [E2 _].
  assert (ledger_sum w2 = ledger_sum w1) by (unfold ledger_sum; by rewrite E2).
  destruct r2 as [[]|e]; intros [= <- <-] H0'; [split; cbn; [lia|done]|rewrite ledger_sum_log; lia].
Qed.

(** A spool charges the quota once and gives everything back once: if it
    cannot be opened, the ledger is even again; otherwise, after any calls,
    whichever file operations and uploads failed and whether or not a failed
    call was repeated, the ledger is what the transaction still holds, and
    dropping it settles the rest, exactly once. *)
Theorem spool_releases_once qmax max q w r w' calls :
  sw_ledger w = [] → compat_begin qmax max q w = (r, w') →
  match r with
  | Err _ => ledger_sum w' = 0
  | Ok s =>
    let w1 := foldl (λ w c, run_spool_call c w) (mkCompat s w' []) calls in
    ledger_sum (cw_world w1) = cs_reserved_bytes (cw_self w1) ∧ ledger_sum (cw_world (compat_drop w1)) = 0
  end.
Proof.
  intros Hl Hb. apply compat_begin_ledger in Hb; [|unfold ledger_sum; by rewrite Hl]. destruct r as [s|e]; [|done].
  assert (Hw : balanced (foldl (λ w c, run_spool_call c w) (mkCompat s w' []) calls)).
  { revert Hb. generalize (mkCompat s w' []). induction calls as [|c calls IH]; intros x Hx; [done|]. by apply IH, balanced_call. }
  cbn zeta. destruct Hw as [Hw Hz]. split; [done|]. unfold compat_drop. destruct (cs_finished _) eqn:Ef.
  - rewrite Hw. auto.
  - cbn [cw_world]. rewrite ledger_sum_log. destruct (io_remove_file _) as [q' x] eqn:E.
    apply ledger_sum_pure in E; [|apply io_pure_remove]. cbn [snd]. lia.
Qed.
End compat_laws.
