(* ===== verification/ReadSpool.v ===== *)
(** * Encrypted staging of transformed reads: [crates/gateway/src/read_spool.rs]

    A transformed read whose output must be complete before its first byte
    is sent is staged in a file of independently encrypted frames, under a key
    that only the request holds, and replayed from there.  The model has the
    writer, the file format, the replaying task and the path through
    [server.rs] that uses them.

    AES-256-GCM is the class [Aead]: a function of key, nonce, associated data
    and message, with the two facts its crate documents ([AeadLaws]).  The
    file is the one of [Spool.v]: it may be unlinked by others, and every
    operation on it may fail.  The replay may be interrupted at every turn: the
    request cancelled, the client gone, a read failed. *)

From S2P Require Import Prelude Staging Operation RustStr Managed SinkApi Spool.

#[local] Open Scope Z_scope.
Set Default Goal Selector "!".

Class Aead := {
  aead_encrypt : list byte → list byte → list byte → list byte → option (list byte);
  aead_decrypt : list byte → list byte → list byte → list byte → option (list byte);
}.
Class AeadLaws `{Aead} : Prop := {
  aead_opens key nonce aad msg sealed :
    aead_encrypt key nonce aad msg = Some sealed → aead_decrypt key nonce aad sealed = Some msg;
  aead_tag_length key nonce aad msg sealed :
    aead_encrypt key nonce aad msg = Some sealed → length sealed = (length msg + 16)%nat;
}.

(** [OsRng]: the key, and the nonce drawn before the [n]-th file operation. *)
Class OsRng := {
  rng_key : list byte;
  rng_nonce : nat → list byte;
  rng_nonce_length n : length (rng_nonce n) = 12%nat;
}.

Definition NONCE_BYTES : nat := 12.
Definition PLAINTEXT_FRAME_BYTES : nat := N.to_nat (64 * 1024).
Definition FRAME_OVERHEAD_BYTES : Z := 4 + Z.of_nat NONCE_BYTES + 16.

Record EncryptedReadSpool := mkReadSpool {
  rs_file : bool;
  rs_reserved_bytes : Z;
  rs_max_object_bytes : Z;
  rs_bytes : Z;
  rs_key : list byte;
  rs_chunk_number : Z;
  rs_pending : list byte;
}.
Definition set_rs_file v (s : EncryptedReadSpool) : EncryptedReadSpool :=
  mkReadSpool v (rs_reserved_bytes s) (rs_max_object_bytes s) (rs_bytes s) (rs_key s) (rs_chunk_number s) (rs_pending s).
Definition set_rs_reserved v (s : EncryptedReadSpool) : EncryptedReadSpool :=
  mkReadSpool (rs_file s) v (rs_max_object_bytes s) (rs_bytes s) (rs_key s) (rs_chunk_number s) (rs_pending s).
Definition set_rs_bytes v (s : EncryptedReadSpool) : EncryptedReadSpool :=
  mkReadSpool (rs_file s) (rs_reserved_bytes s) (rs_max_object_bytes s) v (rs_key s) (rs_chunk_number s) (rs_pending s).
Definition set_rs_chunk v (s : EncryptedReadSpool) : EncryptedReadSpool :=
  mkReadSpool (rs_file s) (rs_reserved_bytes s) (rs_max_object_bytes s) (rs_bytes s) (rs_key s) v (rs_pending s).
Definition set_rs_pending v (s : EncryptedReadSpool) : EncryptedReadSpool :=
  mkReadSpool (rs_file s) (rs_reserved_bytes s) (rs_max_object_bytes s) (rs_bytes s) (rs_key s) (rs_chunk_number s) v.

Definition u64_checked_mul (a b : Z) : option Z := if a * b <=? u64_max then Some (a * b) else None.

Definition disk_reservation (max_object_bytes : Z) : result TransactionError Z :=
  rounded ← ok_or (u64_checked_add max_object_bytes (Z.of_nat PLAINTEXT_FRAME_BYTES - 1)) TCapacityExceeded;
  let frames := rounded / Z.of_nat PLAINTEXT_FRAME_BYTES in
  overhead ← ok_or (u64_checked_mul frames FRAME_OVERHEAD_BYTES) TCapacityExceeded;
  ok_or (u64_checked_add max_object_bytes overhead) TCapacityExceeded.

(** ** The writer *)

Section writer.
  Context `{FileSystem, Aead, OsRng}.
  Abbreviation R := (SE (EncryptedReadSpool * SpoolWorld) TransactionError).

Definition rs_io {A} (m : SE SpoolWorld IoError A) : R A := λ '(s, w),
  let (r, w) := m w in (map_err spool_error r, (s, w)).
Definition rs_modify (f : EncryptedReadSpool → EncryptedReadSpool) : R unit := λ '(s, w), (Ok tt, (f s, w)).

(** [quota] is the counter when it is reserved from. *)
Definition rs_begin (quota_max max_object_bytes quota : Z) : SE SpoolWorld TransactionError EncryptedReadSpool := λ w,
  if max_object_bytes =? 0
  then (Err (TSpool "transformed-read spool object limit must be greater than zero"), w)
  else match disk_reservation max_object_bytes with
  | Err e => (Err e, w)
  | Ok reserved =>
    match (reserve_bytes quota_max reserved quota).1 with
    | Err e => (Err e, w)
    | Ok _ =>
      let w := log_quota reserved w in
      match io_create_dir_all w with
      | (Err e, w) => (Err (spool_error e), log_quota (- reserved) w)
      | (Ok _, w) =>
        match io_create_new w with
        | (Err e, w) => (Err (spool_error e), log_quota (- reserved) w)
        | (Ok _, w) => (Ok (mkReadSpool true reserved max_object_bytes 0 rng_key 0 []), w)
        end
      end
    end
  end.

Definition write_frame (plaintext : list byte) : R unit := λ '(s, w),
  let nonce := rng_nonce (sw_tick w) in
  match aead_encrypt (rs_key s) nonce (to_be_bytes 8 (rs_chunk_number s)) plaintext with
  | None => (Err (TSpool "transformed-read spool encryption failed"), (s, w))
  | Some ciphertext =>
    if negb (rs_file s) then (Err TFinished, (s, w))
    else
      (_ ← rs_io (io_write_all (to_be_bytes 4 (Z.of_nat (length plaintext))));
       _ ← rs_io (io_write_all nonce);
       _ ← rs_io (io_write_all ciphertext);
       rs_modify (λ s, set_rs_chunk (u64_saturating_add (rs_chunk_number s) 1) s)) (s, w)
  end.

Definition flush_pending : R unit := λ '(s, w),
  match rs_pending s with
  | [] => (Ok tt, (s, w))
  | pending => write_frame pending (set_rs_pending [] s, w)
  end.

(** [while remaining.len() >= PLAINTEXT_FRAME_BYTES]; the rest. *)
Fixpoint write_frames (fuel : nat) (remaining : list byte) : R (list byte) :=
  match fuel with
  | O => mret remaining
  | S fuel =>
    if (PLAINTEXT_FRAME_BYTES <=? length remaining)%nat then
      _ ← write_frame (take PLAINTEXT_FRAME_BYTES remaining);
      write_frames fuel (drop PLAINTEXT_FRAME_BYTES remaining)
    else mret remaining
  end.

(** The part of [write] that fills up the pending frame; what is left over. *)
Definition fill_pending (plaintext : list byte) : R (list byte) := λ '(s, w),
  match rs_pending s with
  | [] => (Ok plaintext, (s, w))
  | pending =>
    let n := Nat.min (PLAINTEXT_FRAME_BYTES - length pending) (length plaintext) in
    let pending := pending ++ take n plaintext in
    let s := set_rs_pending pending s in
    if (length pending =? PLAINTEXT_FRAME_BYTES)%nat
    then (_ ← flush_pending; mret (drop n plaintext)) (s, w)
    else (Ok (drop n plaintext), (s, w))
  end.

Definition rs_write (plaintext : list byte) : R unit := λ '(s, w),
  match u64_checked_add (rs_bytes s) (Z.of_nat (length plaintext)) with
  | None => (Err TCapacityExceeded, (s, w))
  | Some next =>
    if rs_max_object_bytes s <? next then (Err TCapacityExceeded, (s, w))
    else
      (_ ← rs_modify (set_rs_bytes next);
       remaining ← fill_pending plaintext;
       remaining ← write_frames (S (length remaining)) remaining;
       match remaining with
       | [] => mret tt
       | _ => rs_modify (λ s, set_rs_pending (rs_pending s ++ remaining) s)
       end) (s, w)
  end.

(** [remove_file] with its result dropped, then the release. *)
Definition rs_settle (reserved : Z) (w : SpoolWorld) : SpoolWorld := log_quota (- reserved) (io_remove_file w).2.

Definition rs_abort (s : EncryptedReadSpool) (w : SpoolWorld) : SpoolWorld := rs_settle (rs_reserved_bytes s) w.
Definition rs_drop (s : EncryptedReadSpool) (w : SpoolWorld) : SpoolWorld :=
  if rs_reserved_bytes s =? 0 then w else rs_settle (rs_reserved_bytes s) w.

(** ** The replay *)

(** What may stop the replay at its [n]-th turn. *)
Inductive interruption : Type :=
| Cancelled
| ReadFailed (e : IoError)
| ReceiverGone.

Definition read_exact (n : nat) : SE (list byte) IoError (list byte) := λ l,
  if (length l <? n)%nat then (Err (mkIo IoUnexpectedEof "early eof"), []) else (Ok (take n l), drop n l).
Definition from_be_bytes (l : list byte) : Z := foldl (λ z b, z * 256 + b2z b) 0 l.
Definition io_other (message : string) : IoError := mkIo IoOther message.

(** One frame off the file. *)
Definition read_frame (key : list byte) (chunk_number : Z) : SE (list byte) IoError (list byte) :=
  length ← read_exact 4;
  let plaintext_len := Z.to_nat (from_be_bytes length) in
  if (PLAINTEXT_FRAME_BYTES <? plaintext_len)%nat
  then se_throw (io_other "transformed-read spool frame exceeds the encrypted staging bound")
  else
    nonce ← read_exact NONCE_BYTES;
    ciphertext ← read_exact (plaintext_len + 16);
    se_lift (ok_or (aead_decrypt key nonce (to_be_bytes 8 chunk_number) ciphertext)
               (io_other "transformed-read spool authentication failed")).

(** [stream_decrypted_file] after the file was opened: the chunks that were
    sent, and how it ended.  Every frame takes bytes off the file, so the
    length of the file bounds the turns. *)
Fixpoint stream_frames (interrupt : nat → option interruption) (key : list byte) (fuel : nat)
    (file : list byte) (chunk_number : Z) (turn : nat) : list (list byte) * result IoError unit :=
  match fuel with
  | O => ([], Ok tt)
  | S fuel =>
    match interrupt turn with
    | Some Cancelled => ([], Ok tt)
    | Some (ReadFailed e) => ([], Err e)
    | _ =>
      match file with
      | [] => ([], Ok tt)
      | _ =>
        match read_frame key chunk_number file with
        | (Err e, _) => ([], Err e)
        | (Ok plaintext, file) =>
          match interrupt turn with
          | Some ReceiverGone => ([], Ok tt)
          | _ =>
            let '(sent, r) :=
              stream_frames interrupt key fuel file (u64_saturating_add chunk_number 1) (S turn) in
            (plaintext :: sent, r)
          end
        end
      end
    end
  end.

(** [into_body] and the task it spawns: the announced length, the chunks the
    body yields and its end.  When [into_body] fails, the spool is dropped. *)
Definition rs_replay (interrupt : nat → option interruption) (key : list byte) (reserved : Z) (w : SpoolWorld)
    : list (list byte) * result IoError unit * SpoolWorld :=
  let (opened, w) := io no_effect (λ w, (ok_or (path_content w) (mkIo IoNotFound "not found"), w)) w in
  let '(sent, r) :=
    match opened with
    | Err e => ([], Err e)
    | Ok file => stream_frames interrupt key (S (length file)) file 0 0
    end in
  (sent, r, rs_settle reserved w).

Definition into_body (interrupt : nat → option interruption) (s : EncryptedReadSpool)
    : SE SpoolWorld TransactionError (Z * list (list byte) * result IoError unit) := λ w,
  match flush_pending (s, w) with
  | (Err e, (s, w)) => (Err e, rs_drop s w)
  | (Ok _, (s, w)) =>
    if negb (rs_file s) then (Err TFinished, rs_drop s w)
    else
      let s := set_rs_file false s in
      match io_sync w with
      | (Err e, w) => (Err (spool_error e), rs_drop s w)
      | (Ok _, w) =>
        let '(sent, r, w) := rs_replay interrupt (rs_key s) (rs_reserved_bytes s) w in
        (Ok (rs_bytes s, sent, r), w)
      end
  end.

(** The writer task of a transformed read: it aborts the spool when a write fails. *)
Fixpoint spool_writer (chunks : list (list byte)) (s : EncryptedReadSpool)
    : SE SpoolWorld TransactionError EncryptedReadSpool := λ w,
  match chunks with
  | [] => (Ok s, w)
  | chunk :: chunks =>
    match rs_write chunk (s, w) with
    | (Err e, (s, w)) => (Err e, rs_abort s w)
    | (Ok _, (s, w)) => spool_writer chunks s w
    end
  end.

(** A transformed read through the spool: begin, write the output, replay. *)
Definition serve_spooled (interrupt : nat → option interruption) (quota_max max_object_bytes quota : Z)
    (chunks : list (list byte)) : SE SpoolWorld TransactionError (Z * list (list byte) * result IoError unit) :=
  s ← rs_begin quota_max max_object_bytes quota;
  s ← spool_writer chunks s;
  into_body interrupt s.
End writer.

(** ** Proofs *)

Lemma from_be_bytes_snoc l b : from_be_bytes (l ++ [b]) = from_be_bytes l * 256 + b2z b.
Proof. unfold from_be_bytes. by rewrite foldl_app. Qed.

Lemma from_to_be_bytes n z : 0 <= z < 256 ^ Z.of_nat n → from_be_bytes (to_be_bytes n z) = z.
Proof.
  revert z. induction n as [|n IH]; intros z Hz; cbn [to_be_bytes]; [cbn in *; lia|].
  rewrite Nat2Z.inj_succ, Z.pow_succ_r in Hz by lia. rewrite from_be_bytes_snoc, IH.
  - rewrite b2z_of_Z by (apply Z.mod_pos_bound; lia). pose proof (Z.div_mod z 256). lia.
  - split; [apply Z.div_pos; lia|]. apply Z.div_lt_upper_bound; lia.
Qed.

Lemma frame_bytes : Z.of_nat PLAINTEXT_FRAME_BYTES = 65536.
Proof. unfold PLAINTEXT_FRAME_BYTES. by rewrite N_nat_Z. Qed.
#[local] Opaque PLAINTEXT_FRAME_BYTES.
#[local] Ltac flia := pose proof frame_bytes; lia.

Section proofs.
  Context `{FileSystem} `{AeadLaws} `{OsRng}.

(** *** The file format *)

Definition frame (plaintext nonce sealed : list byte) : list byte :=
  to_be_bytes 4 (Z.of_nat (length plaintext)) ++ nonce ++ sealed.

(** [c] holds the frames [ps] under [key]; [n] is the next frame's number. *)
Inductive framed (key : list byte) : list (list byte) → list byte → Z → Prop :=
| framed_nil : framed key [] [] 0
| framed_snoc ps c n p nonce sealed :
    framed key ps c n → length nonce = 12%nat → (length p ≤ PLAINTEXT_FRAME_BYTES)%nat →
    aead_encrypt key nonce (to_be_bytes 8 n) p = Some sealed →
    framed key (ps ++ [p]) (c ++ frame p nonce sealed) (u64_saturating_add n 1).

Lemma read_exact_app n a b : length a = n → read_exact n (a ++ b) = (Ok a, b).
Proof.
  intros <-. unfold read_exact. rewrite length_app. rewrite (proj2 (Nat.ltb_ge _ _)) by lia.
  by rewrite take_app_length, drop_app_length.
Qed.

Lemma read_frame_frame key n p nonce sealed rest :
  length nonce = 12%nat → (length p ≤ PLAINTEXT_FRAME_BYTES)%nat →
  aead_encrypt key nonce (to_be_bytes 8 n) p = Some sealed →
  read_frame key n (frame p nonce sealed ++ rest) = (Ok p, rest).
Proof.
  intros Hn Hp He. unfold read_frame, frame, mbind, SE_bind. rewrite <- !app_assoc.
  rewrite read_exact_app by apply length_to_be_bytes.
  rewrite from_to_be_bytes by (pose proof frame_bytes; lia). rewrite Nat2Z.id.
  rewrite (proj2 (Nat.ltb_ge _ _)) by lia. rewrite read_exact_app by done.
  rewrite read_exact_app by (by eapply aead_tag_length). unfold se_lift. by erewrite aead_opens.
Qed.

Lemma framed_length key ps c n : framed key ps c n → (length ps ≤ length c)%nat.
Proof. induction 1; [done|]. unfold frame. rewrite !length_app, length_to_be_bytes. cbn [length]. lia. Qed.

(** The replay of frames hands them out in order; only an interruption stops it. *)
Lemma stream_framed interrupt key ps c n :
  framed key ps c n → ∀ fuel rest, (length ps < fuel)%nat →
  (∃ k r t, stream_frames interrupt key fuel (c ++ rest) 0 0 = (take k ps, r) ∧ interrupt t ≠ None)
  ∨ stream_frames interrupt key fuel (c ++ rest) 0 0 =
      (let '(sent, r) := stream_frames interrupt key (fuel - length ps) rest n (length ps) in (ps ++ sent, r)).
Proof.
  induction 1 as [|ps c n p nonce sealed Hf IH Hn Hp He]; intros fuel rest Hfuel.
  { right. cbn [app length]. rewrite Nat.sub_0_r. by destruct (stream_frames _ _ _ _ _ _). }
  rewrite length_app in Hfuel. cbn in Hfuel. rewrite <- app_assoc.
  destruct (IH fuel (frame p nonce sealed ++ rest) ltac:(lia)) as [(k & r & t & E & Ht)|E].
  { left. exists (Nat.min k (length ps)), r, t. split; [|done]. rewrite E, take_app_le by lia.
    destruct (Nat.le_ge_cases k (length ps)); [by rewrite Nat.min_l|]. rewrite Nat.min_r, firstn_all, take_ge by done. done. }
  rewrite E. rewrite length_app. cbn [length].
  replace (fuel - length ps)%nat with (S (fuel - (length ps + 1)))%nat by lia. cbn [stream_frames].
  assert (Hne : frame p nonce sealed ++ rest ≠ []).
  { intros E0. apply (f_equal length) in E0. unfold frame in E0. rewrite !length_app, length_to_be_bytes in E0. cbn in E0. lia. }
  assert (Hstop : interrupt (length ps) ≠ None → ∀ r : result IoError unit, ∃ k r' t,
    (ps ++ [], r) = (take k (ps ++ [p]), r') ∧ interrupt t ≠ None).
  { intros Hi r. exists (length ps), r, (length ps). split; [|done]. by rewrite take_app_length, app_nil_r. }
  destruct (interrupt (length ps)) as [[|e|]|] eqn:Ei; [left; by apply Hstop..| |].
  all: destruct (frame p nonce sealed ++ rest) as [|b l] eqn:El; [done|].
  all: rewrite <- El, read_frame_frame by done.
  - left. by apply Hstop.
  - right. rewrite Nat.add_1_r. destruct (stream_frames _ _ _ rest _ _) as [sent r]. by rewrite <- app_assoc.
Qed.

(** *** Writing *)

Lemma frame_length key n p nonce sealed :
  length nonce = 12%nat → aead_encrypt key nonce (to_be_bytes 8 n) p = Some sealed →
  length (frame p nonce sealed) = (length p + 32)%nat.
Proof.
  intros Hn He. unfold frame. rewrite !length_app, length_to_be_bytes, (aead_tag_length _ _ _ _ _ He), Hn. lia.
Qed.

Lemma framed_size key ps c n : framed key ps c n → length c = (length (concat ps) + 32 * length ps)%nat.
Proof.
  induction 1 as [|ps c n p nonce sealed Hf IH Hn Hp He]; [done|].
  rewrite length_app, IH, (frame_length _ _ _ _ _ Hn He), concat_app, !length_app. cbn. rewrite app_nil_r. lia.
Qed.

(** Is the file still in the directory?  Only others unlink it. *)
Definition linked (w : SpoolWorld) : Prop := ∃ f, sw_file w = Some f ∧ sf_linked f = true.
Definition stays_linked (w w' : SpoolWorld) : Prop := (∀ n, fs_unlinked n = false) → linked w → linked w'.
Lemma stays_linked_refl w : stays_linked w w.
Proof. by intros _. Qed.
#[local] Hint Resolve stays_linked_refl : core.

(** What no operation of the writer changes. *)
Record kept (x x' : EncryptedReadSpool * SpoolWorld) : Prop := {
  kept_file : rs_file x'.1 = rs_file x.1;
  kept_reserved : rs_reserved_bytes x'.1 = rs_reserved_bytes x.1;
  kept_max : rs_max_object_bytes x'.1 = rs_max_object_bytes x.1;
  kept_bytes : rs_bytes x'.1 = rs_bytes x.1;
  kept_key : rs_key x'.1 = rs_key x.1;
  kept_ledger : sw_ledger x'.2 = sw_ledger x.2;
  kept_linked : stays_linked x.2 x'.2;
}.
#[local] Instance kept_preorder : PreOrder kept.
Proof. split; [intros x; by split|]. intros x y z [] []. split; [congruence..|]. unfold stays_linked in *. auto. Qed.

Definition size (x : EncryptedReadSpool * SpoolWorld) : nat := length (default [] (content x.2)).

(** The file holds [data], less the pending bytes. *)
Definition staged (data : list byte) (x : EncryptedReadSpool * SpoolWorld) : Prop :=
  ∃ ps c, rs_file x.1 = true ∧ content x.2 = Some c ∧ framed (rs_key x.1) ps c (rs_chunk_number x.1)
    ∧ Forall (λ p, length p = PLAINTEXT_FRAME_BYTES) ps ∧ concat ps ++ rs_pending x.1 = data
    ∧ (length (rs_pending x.1) < PLAINTEXT_FRAME_BYTES)%nat.

Lemma full_frames_length ps :
  Forall (λ p : list byte, length p = PLAINTEXT_FRAME_BYTES) ps → length (concat ps) = (length ps * PLAINTEXT_FRAME_BYTES)%nat.
Proof. induction 1 as [|p ps Hp _ IH]; [done|]. cbn. rewrite length_app, Hp, IH. done. Qed.

(** Three writes in a row append at most the whole frame. *)
Lemma write_all_linked chunk w r w' : io_write_all chunk w = (r, w') → stays_linked w w'.
Proof.
  intros E Hu (f & Hf & Hl). revert E. unfold io_write_all, io. rewrite Hu, Hf.
  destruct (fs_fault _) as [[e k]|]; intros [= <- <-]; by eexists.
Qed.

Lemma write_all_grows chunk w r w' c :
  content w = Some c → io_write_all chunk w = (r, w') →
  (sw_ledger w' = sw_ledger w ∧ stays_linked w w') ∧ (r = Ok tt → content w' = Some (c ++ chunk))
  ∧ (length (default [] (content w')) ≤ length c + length chunk)%nat.
Proof.
  intros Hc E. destruct (io_write_all_spec _ _ _ _ _ Hc E) as (Hl & Ho & k & Hk).
  split; [split; [done|by eapply write_all_linked]|]. split; [done|].
  rewrite Hk. cbn. rewrite length_take, length_app. lia.
Qed.

Lemma write_frame_spec p s w ps c :
  rs_file s = true → content w = Some c → framed (rs_key s) ps c (rs_chunk_number s) →
  (length p ≤ PLAINTEXT_FRAME_BYTES)%nat →
  wp (write_frame p) (λ r x', kept (s, w) x' ∧ (size x' ≤ length c + length p + 32)%nat
    ∧ rs_pending x'.1 = rs_pending s
    ∧ (r = Ok tt → ∃ c', content x'.2 = Some c' ∧ framed (rs_key s) (ps ++ [p]) c' (rs_chunk_number x'.1))) (s, w).
Proof.
  intros Hf Hc Hfr Hp. unfold wp, write_frame. destruct (aead_encrypt _ _ _ _) as [sealed|] eqn:He.
  2: { split; [done|]. split; [|done]. unfold size. cbn. rewrite Hc. cbn. lia. }
  rewrite Hf. cbn [negb]. set (nonce := rng_nonce _) in *.
  assert (Hn : length nonce = 12%nat) by apply rng_nonce_length.
  pose proof (frame_length _ _ _ _ _ Hn He) as Hlen. unfold frame in Hlen. rewrite !length_app in Hlen.
  unfold mbind, SE_bind, rs_io, rs_modify.
  destruct (io_write_all (to_be_bytes 4 _) w) as [r1 w1] eqn:E1. destruct (write_all_grows _ _ _ _ _ Hc E1) as ([L1 K1] & O1 & S1).
  destruct r1 as [[]|e]; cbn; [|split; [by split|]; split; [unfold size; cbn; lia|done]]. specialize (O1 eq_refl).
  destruct (io_write_all nonce w1) as [r2 w2] eqn:E2. destruct (write_all_grows _ _ _ _ _ O1 E2) as ([L2 K2] & O2 & S2).
  rewrite length_app in S2.
  destruct r2 as [[]|e]; cbn; [|split; [split; cbn; [congruence..|unfold stays_linked in *; auto]|]; split; [unfold size; cbn; lia|done]]. specialize (O2 eq_refl).
  destruct (io_write_all sealed w2) as [r3 w3] eqn:E3. destruct (write_all_grows _ _ _ _ _ O2 E3) as ([L3 K3] & O3 & S3).
  rewrite !length_app in S3.
  destruct r3 as [[]|e]; cbn; (split; [split; cbn; [congruence..|unfold stays_linked in *; auto]|]; split; [unfold size; cbn; lia|]; split; [done|]); [|done].
  intros _. specialize (O3 eq_refl). exists (c ++ frame p nonce sealed). split.
  - rewrite O3. unfold frame. by rewrite !app_assoc.
  - by constructor.
Qed.

(** *** The reservation covers the file *)

Definition frames_bound (max : Z) : Z := max + 32 * ((max + 65535) / 65536).

Lemma disk_reservation_ok max reserved : disk_reservation max = Ok reserved → reserved = frames_bound max.
Proof.
  unfold disk_reservation, frames_bound, u64_checked_add, u64_checked_mul, mbind, result_bind, FRAME_OVERHEAD_BYTES, NONCE_BYTES, ok_or.
  rewrite frame_bytes. repeat case_match; cbn; try done. all: intros [= <-]; simplify_eq.
  replace (max + (65536 - 1)) with (max + 65535) by flia. change (4 + Z.of_nat 12 + 16) with 32. flia.
Qed.

Lemma frames_bound_full k p max :
  0 <= k → 1 <= p → 65536 * k + p <= max → 65536 * k + 32 * k + p + 32 <= frames_bound max.
Proof.
  intros Hk Hp Hm. unfold frames_bound. assert (k + 1 <= (max + 65535) / 65536) by (apply Z.div_le_lower_bound; flia). flia.
Qed.

Lemma staged_size data x max :
  staged data x → Z.of_nat (length data) <= max → Z.of_nat (size x) <= frames_bound max.
Proof.
  intros (ps & c & _ & Hc & Hf & Hall & <- & _) Hle. unfold size. rewrite Hc. cbn. 
  rewrite (framed_size _ _ _ _ Hf). rewrite length_app, (full_frames_length ps Hall) in *. unfold frames_bound.
  assert (Z.of_nat (length ps) <= (max + 65535) / 65536) by (apply Z.div_le_lower_bound; flia). flia.
Qed.

(** A frame on top of a staged file stays within the reservation. *)
Lemma staged_frame_size (data : list byte) s w c ps max p (n : nat) :
  content w = Some c → framed (rs_key s) ps c (rs_chunk_number s) →
  Forall (λ p, length p = PLAINTEXT_FRAME_BYTES) ps → (length (concat ps ++ p) ≤ length data)%nat → p ≠ [] →
  Z.of_nat (length data) <= max → (n ≤ length c + length p + 32)%nat → Z.of_nat n <= frames_bound max.
Proof.
  intros Hc Hf Hall Hd Hp Hmax Hn. rewrite (framed_size _ _ _ _ Hf) in Hn. rewrite length_app in Hd.
  rewrite (full_frames_length ps Hall) in Hn, Hd. destruct p as [|b p]; [by destruct Hp|].
  cbn [length] in Hn, Hd. 
  pose proof (frames_bound_full (Z.of_nat (length ps)) (Z.of_nat (S (length p))) max ltac:(flia) ltac:(flia) ltac:(flia)). flia.
Qed.

(** What every step of [write] guarantees: it changes nothing else, it stays
    within the reservation, and if it succeeds [done] is staged. *)
Definition step_ok {A} (max : Z) (x : EncryptedReadSpool * SpoolWorld) (post : A → EncryptedReadSpool * SpoolWorld → Prop)
    (r : result TransactionError A) (x' : EncryptedReadSpool * SpoolWorld) : Prop :=
  kept x x' ∧ Z.of_nat (size x') <= frames_bound max ∧ ∀ a, r = Ok a → post a x'.

(** A full frame, with nothing pending afterwards. *)
Lemma write_full_frame max data p s w :
  staged data (s, w) → rs_pending s = [] → length p = PLAINTEXT_FRAME_BYTES →
  Z.of_nat (length (data ++ p)) <= max →
  wp (write_frame p) (step_ok max (s, w) (λ _ x', staged (data ++ p) x' ∧ rs_pending x'.1 = [])) (s, w).
Proof.
  intros (ps & c & Hfile & Hc & Hf & Hall & Hd & _) Hpend Hp Hmax. cbn in *. rewrite Hpend, app_nil_r in Hd.
  eapply wp_mono; [eapply write_frame_spec; try done; flia|]. intros r [s' w'] (Hk & Hsz & Hpe & Hr). cbn in *.
  split; [done|]. split.
  - eapply staged_frame_size; [exact Hc|exact Hf|exact Hall| | |exact Hmax|exact Hsz]; [by rewrite Hd|].
    intros Ep. rewrite Ep in Hp. cbn in Hp. flia.
  - intros [] ->. destruct (Hr eq_refl) as (c' & Hc' & Hf'). rewrite Hpend in Hpe. split; [|done].
    pose proof (kept_key _ _ Hk) as Ek. pose proof (kept_file _ _ Hk) as Ef. cbn in Ek, Ef.
    exists (ps ++ [p]), c'. cbn. rewrite Ek, Ef, Hpe. cbn. split_and!; [done..| | |].
    + apply Forall_app. auto.
    + rewrite concat_app, app_nil_r. cbn. by rewrite app_nil_r, Hd.
    + flia.
Qed.

Lemma write_frames_spec max fuel : ∀ data remaining s w,
  (length remaining < fuel)%nat → staged data (s, w) → rs_pending s = [] →
  Z.of_nat (length (data ++ remaining)) <= max →
  wp (write_frames fuel remaining) (step_ok max (s, w) (λ rest x', ∃ written, remaining = written ++ rest
    ∧ staged (data ++ written) x' ∧ rs_pending x'.1 = [] ∧ (length rest < PLAINTEXT_FRAME_BYTES)%nat)) (s, w).
Proof.
  induction fuel as [|fuel IH]; intros data remaining s w Hfuel Hst Hpend Hmax; [flia|].
  cbn [write_frames]. destruct (Nat.leb_spec PLAINTEXT_FRAME_BYTES (length remaining)) as [Hge|Hlt].
  - set (p := take PLAINTEXT_FRAME_BYTES remaining). set (q := drop PLAINTEXT_FRAME_BYTES remaining).
    assert (Hpq : remaining = p ++ q) by (unfold p, q; by rewrite take_drop).
    assert (Hp : length p = PLAINTEXT_FRAME_BYTES) by (unfold p; rewrite length_take; flia).
    apply wp_bind. eapply wp_mono.
    + apply (write_full_frame max data p); try done. rewrite Hpq, !length_app in Hmax. rewrite length_app. flia.
    + intros r [s1 w1] (Hk & Hsz & Hr). destruct r as [[]|e]; [|by split]. destruct (Hr _ eq_refl) as [Hst1 Hp1].
      eapply wp_mono.
      * apply (IH (data ++ p) q); [unfold q; rewrite length_drop; flia|done|done|]. by rewrite <- app_assoc, <- Hpq.
      * intros r x' (Hk' & Hsz' & Hr'). split; [by etrans|]. split; [done|]. intros rest E.
        destruct (Hr' rest E) as (written & Eq & Hst' & Hrest). exists (p ++ written). rewrite Hpq, Eq, !app_assoc in *. done.
  - split; [done|]. split.
    + apply (staged_size data); [done|]. rewrite length_app in Hmax. flia.
    + intros rest [= <-]. exists []. by rewrite app_nil_r.
Qed.

Lemma fill_pending_spec max data plaintext s w :
  staged data (s, w) → Z.of_nat (length (data ++ plaintext)) <= max →
  wp (fill_pending plaintext) (step_ok max (s, w) (λ rest x', ∃ taken, plaintext = taken ++ rest
    ∧ staged (data ++ taken) x' ∧ (rs_pending x'.1 = [] ∨ rest = []))) (s, w).
Proof.
  intros Hst Hmax. unfold wp, fill_pending.
  destruct (rs_pending s) as [|b0 pend0] eqn:Hpend.
  { split; [done|]. split; [apply (staged_size data); [done|]; rewrite length_app in Hmax; flia|].
    intros rest [= <-]. exists []. rewrite app_nil_r. auto. }
  destruct Hst as (ps & c & Hfile & Hc & Hf & Hall & Hd & Hlt). cbn in Hfile, Hc, Hf, Hd, Hlt. rewrite Hpend in Hd, Hlt.
  remember (b0 :: pend0) as pend eqn:Epend. assert (Hne : pend ≠ []) by (by subst). clear Epend b0 pend0.
  set (n := Nat.min _ _). set (p := take n plaintext). set (q := drop n plaintext).
  assert (Hpq : plaintext = p ++ q) by (unfold p, q; by rewrite take_drop).
  assert (Hp : length p = n) by (unfold p, n; rewrite length_take; flia).
  assert (Hq : length q = (length plaintext - n)%nat) by (unfold q; by rewrite length_drop).
  destruct (Nat.eqb_spec (length (pend ++ p)) PLAINTEXT_FRAME_BYTES) as [Hfull|Hpart]; rewrite length_app in *.
  - unfold mbind, SE_bind, flush_pending. cbn [rs_pending set_rs_pending].
    destruct (pend ++ p) as [|b l] eqn:Epp; [by destruct pend|]. rewrite <- Epp.
    match goal with |- context [write_frame ?a ?b] => destruct (write_frame a b) as [r x'] eqn:E end.
    pose proof (write_frame_spec (pend ++ p) (set_rs_pending [] (set_rs_pending (pend ++ p) s)) w ps c) as Hw.
    unfold wp in Hw. rewrite E in Hw. destruct Hw as (Hk & Hsz & Hpe & Hr); [done..|rewrite length_app; flia|].
    assert (Hsize : Z.of_nat (size x') <= frames_bound max).
    { apply (staged_frame_size (data ++ plaintext) s w c ps max (pend ++ p)); try done.
      - rewrite <- Hd, Hpq, !length_app. flia.
      - by rewrite Epp.
      - by rewrite length_app. }
    assert (Hkept : kept (s, w) x') by (destruct Hk; by split).
    destruct r as [[]|e]; [|by split]. split; [done|]. split; [done|]. intros rest [= <-]. exists p. split; [done|].
    destruct (Hr eq_refl) as (c' & Hc' & Hf'). split; [|by left]. exists (ps ++ [pend ++ p]), c'.
    rewrite (kept_key _ _ Hkept), (kept_file _ _ Hkept), Hpe. cbn. split_and!; try done.
    + apply Forall_app. split; [done|]. constructor; [|done]. by rewrite length_app.
    + rewrite concat_app, app_nil_r. cbn. by rewrite app_nil_r, app_assoc, Hd.
    + flia.
  - assert (Hst' : staged (data ++ p) (set_rs_pending (pend ++ p) s, w)).
    { exists ps, c. cbn. split_and!; try done; [by rewrite app_assoc, Hd|]. rewrite length_app. flia. }
    split; [by split|]. split.
    + apply (staged_size _ _ _ Hst'). rewrite length_app. flia.
    + intros rest [= <-]. exists p. split; [done|]. split; [done|]. right. apply length_zero_iff_nil. flia.
Qed.

(** *** A whole read *)

Definition ready (data : list byte) (x : EncryptedReadSpool * SpoolWorld) : Prop :=
  staged data x ∧ rs_bytes x.1 = Z.of_nat (length data) ∧ rs_bytes x.1 <= rs_max_object_bytes x.1.

(** The charge, and what it was computed from, stays. *)
Record charged (x x' : EncryptedReadSpool * SpoolWorld) : Prop := {
  charged_reserved : rs_reserved_bytes x'.1 = rs_reserved_bytes x.1;
  charged_max : rs_max_object_bytes x'.1 = rs_max_object_bytes x.1;
  charged_ledger : sw_ledger x'.2 = sw_ledger x.2;
  charged_linked : stays_linked x.2 x'.2;
}.
#[local] Instance charged_preorder : PreOrder charged.
Proof. split; [intros x; by split|]. intros x y z [] []. split; [congruence..|]. unfold stays_linked in *. auto. Qed.

Lemma kept_charged x y z : charged x y → kept y z → charged x z.
Proof. intros [] []. split; [congruence..|]. unfold stays_linked in *. auto. Qed.

Lemma ready_size data x : ready data x → Z.of_nat (size x) <= frames_bound (rs_max_object_bytes x.1).
Proof. intros (Hst & Hb & Hm). eapply staged_size; [done|]. lia. Qed.

Lemma rs_write_spec data chunk x :
  ready data x →
  wp (rs_write chunk) (λ r x', charged x x' ∧ Z.of_nat (size x') <= frames_bound (rs_max_object_bytes x.1)
    ∧ (r = Ok tt → ready (data ++ chunk) x')) x.
Proof.
  intros Hx. pose proof (ready_size _ _ Hx) as Hsz. destruct Hx as (Hst & Hb & Hm). destruct x as [s w]. cbn in Hb, Hm, Hsz.
  unfold wp, rs_write. unfold u64_checked_add. destruct (_ <=? u64_max); [|by refine (conj _ (conj _ _))].
  destruct (Z.ltb_spec (rs_max_object_bytes s) (rs_bytes s + Z.of_nat (length chunk))) as [|Hle]; [by refine (conj _ (conj _ _))|].
  set (next := rs_bytes s + Z.of_nat (length chunk)). set (s0 := set_rs_bytes next s).
  assert (Hlen : Z.of_nat (length (data ++ chunk)) = next) by (rewrite length_app; unfold next; lia).
  change (next <= rs_max_object_bytes s) in Hle.
  assert (Hst0 : staged data (s0, w)) by done. assert (Hc0 : charged (s, w) (s0, w)) by (by split).
  unfold mbind, SE_bind, rs_modify. cbn [fst snd]. change (set_rs_bytes next s) with s0.
  assert (Eb0 : rs_bytes s0 = next) by done. clearbody s0. clearbody next.
  pose proof (fill_pending_spec (rs_max_object_bytes s) data chunk s0 w Hst0 ltac:(lia)) as Hfill. unfold wp in Hfill.
  destruct (fill_pending chunk (s0, w)) as [r1 [s1 w1]]. destruct Hfill as (K1 & Z1 & R1).
  pose proof (kept_charged _ _ _ Hc0 K1) as C1. destruct r1 as [rest|e]; [|by refine (conj _ (conj _ _))].
  destruct (R1 rest eq_refl) as (taken & -> & Hst1 & Hor). destruct Hor as [Hp1|Hrest].
  - pose proof (write_frames_spec (rs_max_object_bytes s) (S (length rest)) (data ++ taken) rest s1 w1 ltac:(lia) Hst1 Hp1) as Hwf.
    rewrite <- app_assoc in Hwf. specialize (Hwf ltac:(lia)). unfold wp in Hwf.
    destruct (write_frames _ rest (s1, w1)) as [r2 [s2 w2]]. destruct Hwf as (K2 & Z2 & R2).
    pose proof (kept_charged _ _ _ C1 K2) as C2. destruct r2 as [rest'|e]; [|by refine (conj _ (conj _ _))].
    destruct (R2 rest' eq_refl) as (written & -> & Hst2 & Hp2 & Hlt).
    assert (Hb2 : rs_bytes s2 = next) by (rewrite (kept_bytes _ _ K2 : rs_bytes s2 = rs_bytes s1); rewrite <- Eb0; apply (kept_bytes _ _ K1)).
    assert (Hm2 : rs_max_object_bytes s2 = rs_max_object_bytes s) by apply (charged_max _ _ C2).
    destruct rest' as [|b l].
    + split; [done|]. split; [done|]. intros _. rewrite app_nil_r in *. split; [by rewrite app_assoc|]. cbn. split; lia.
    + cbn [fst snd]. split; [by destruct C2|]. split; [done|]. intros _. split; [|cbn; split; lia].
      destruct Hst2 as (ps & c & Hf2 & Hc2 & Hfr2 & Hall2 & Hd2 & _). exists ps, c. cbn in *. rewrite Hp2 in *.
      split_and!; try done. rewrite app_nil_r in Hd2. cbn. by rewrite Hd2, !app_assoc.
  - subst rest. cbn [write_frames length]. destruct (Nat.leb_spec PLAINTEXT_FRAME_BYTES 0); [flia|].
    split; [done|]. split; [done|]. intros _. rewrite app_nil_r in *. split; [done|]. cbn.
    pose proof (kept_bytes _ _ K1) as Eb. pose proof (charged_max _ _ C1) as Em. cbn in Eb, Em. rewrite Eb, Em, Eb0. split; lia.
Qed.

Lemma rs_begin_spec qmax max q w r w' :
  0 <= max → rs_begin qmax max q w = (r, w') →
  match r with
  | Err _ => ledger_sum w' = ledger_sum w
  | Ok s => ready [] (s, w') ∧ linked w' ∧ rs_reserved_bytes s = frames_bound max ∧ rs_max_object_bytes s = max
            ∧ ledger_sum w' = ledger_sum w + rs_reserved_bytes s
  end.
Proof.
  intros Hmax. unfold rs_begin. destruct (_ =? 0); [by intros [= <- <-]|]. destruct (disk_reservation max) as [reserved|] eqn:Ed; [|by intros [= <- <-]].
  apply disk_reservation_ok in Ed. destruct (reserve_bytes _ _ _).1; [|by intros [= <- <-]].
  destruct (io_create_dir_all _) as [r1 w1] eqn:E1. apply ledger_sum_pure in E1; [|apply io_pure_dir].
  rewrite ledger_sum_log in E1. destruct r1 as [[]|e]; [|intros [= <- <-]; rewrite ledger_sum_log; lia].
  destruct (io_create_new w1) as [r2 w2] eqn:E2. pose proof (io_create_new_spec _ _ _ E2) as [El Ec].
  assert (ledger_sum w2 = ledger_sum w1) by (unfold ledger_sum; by rewrite El).
  destruct r2 as [[]|e]; intros [= <- <-]; [|rewrite ledger_sum_log; lia]. specialize (Ec eq_refl).
  split_and!; [split; [|by split]| |done|done|cbn; lia].
  - exists [], []. cbn. split_and!; [done|done|constructor|constructor|done|flia].
  - revert E2. unfold io_create_new, io, no_effect. destruct (fs_fault _) as [[]|]; intros [= <-]. by eexists.
Qed.

Lemma rs_settle_spec reserved w :
  content (rs_settle reserved w) = content w ∧ ledger_sum (rs_settle reserved w) = ledger_sum w - reserved.
Proof.
  unfold rs_settle. destruct (io_pure_remove w) as [Ec El]. split; [exact Ec|].
  rewrite ledger_sum_log. unfold ledger_sum at 1. rewrite El. unfold ledger_sum. lia.
Qed.

Lemma rs_drop_ledger s w : ledger_sum (rs_drop s w) = ledger_sum w - rs_reserved_bytes s.
Proof. unfold rs_drop. destruct (Z.eqb_spec (rs_reserved_bytes s) 0) as [->|]; [lia|]. apply rs_settle_spec. Qed.

Lemma spool_writer_spec chunks : ∀ data s w r w',
  ready data (s, w) → spool_writer chunks s w = (r, w') →
  Z.of_nat (length (default [] (content w'))) <= frames_bound (rs_max_object_bytes s)
  ∧ match r with
    | Err _ => ledger_sum w' = ledger_sum w - rs_reserved_bytes s
    | Ok s' => charged (s, w) (s', w') ∧ ready (data ++ concat chunks) (s', w')
    end.
Proof.
  induction chunks as [|chunk chunks IH]; intros data s w r w' Hr; cbn [spool_writer concat].
  - intros [= <- <-]. rewrite app_nil_r. split; [apply (ready_size _ _ Hr)|]. done.
  - pose proof (rs_write_spec data chunk _ Hr) as Hw. unfold wp in Hw. destruct (rs_write chunk (s, w)) as [r1 [s1 w1]].
    destruct Hw as (Hc & Hsz & Hok). cbn in Hsz. pose proof (charged_max _ _ Hc) as Em. cbn in Em. destruct r1 as [[]|e].
    + intros E. apply (IH (data ++ chunk)) in E as [Hs Hrest]; [|by apply Hok]. rewrite Em in Hs. split; [done|].
      destruct r as [s'|e].
      * rewrite app_assoc. destruct Hrest as [Hc' ?]. split; [by etrans|done].
      * pose proof (charged_reserved _ _ Hc) as Er. pose proof (charged_ledger _ _ Hc) as El. cbn in Er, El.
        rewrite Hrest, Er. unfold ledger_sum. by rewrite El.
    + intros [= <- <-]. unfold rs_abort. destruct (rs_settle_spec (rs_reserved_bytes s1) w1) as [-> ->]. split; [done|].
      pose proof (charged_reserved _ _ Hc) as Er. pose proof (charged_ledger _ _ Hc) as El. cbn in Er, El.
      rewrite Er. unfold ledger_sum. by rewrite El.
Qed.

(** The last, short frame. *)
Lemma flush_spec data x :
  ready data x →
  wp flush_pending (λ r x', kept x x' ∧ Z.of_nat (size x') <= frames_bound (rs_max_object_bytes x.1)
    ∧ (r = Ok tt → ∃ ps c n, content x'.2 = Some c ∧ framed (rs_key x.1) ps c n ∧ concat ps = data)) x.
Proof.
  intros Hx. pose proof (ready_size _ _ Hx) as Hsz. destruct Hx as ((ps & c & Hfile & Hc & Hf & Hall & Hd & Hlt) & Hb & Hm).
  destruct x as [s w]. cbn in *. unfold wp, flush_pending. destruct (rs_pending s) as [|b pend] eqn:Ep.
  { split; [done|]. split; [done|]. intros _. rewrite app_nil_r in Hd. eauto 6. }
  pose proof (write_frame_spec (b :: pend) (set_rs_pending [] s) w ps c) as Hw. unfold wp in Hw.
  destruct (write_frame _ _) as [r x']. destruct Hw as (Hk & Hs & _ & Hr); [done..|lia|].
  split; [destruct Hk; by split|]. split.
  - apply (staged_frame_size data s w c ps _ (b :: pend)); try done; [by rewrite Hd|lia].
  - intros E. destruct (Hr E) as (c' & Hc' & Hf'). eexists _, _, _. split; [done|]. split; [exact Hf'|].
    rewrite concat_app. cbn. by rewrite app_nil_r.
Qed.

Lemma io_pure_open {A} (f : SpoolWorld → result IoError A) : io_pure (io no_effect (λ w, (f w, w))).
Proof. apply io_pure_no_effect. by intros w. Qed.

Definition quiet_files : Prop := ∀ n, fs_unlinked n = false ∧ fs_fault n = None.

(** The replay of a complete file: in order, and to its end unless it is
    interrupted or the file is gone. *)
Lemma rs_replay_spec interrupt key reserved w ps c n sent r w' :
  content w = Some c → framed key ps c n → rs_replay interrupt key reserved w = (sent, r, w') →
  ledger_sum w' = ledger_sum w - reserved ∧ (∃ k, sent = take k ps)
  ∧ ((∀ t, interrupt t = None) → quiet_files → linked w → sent = ps ∧ r = Ok tt).
Proof.
  intros Hc Hf. unfold rs_replay.
  destruct (io no_effect _ w) as [opened w1] eqn:Eo.
  assert (Hopen : opened = Ok c ∨ (∃ e, opened = Err e) ∧ (quiet_files → linked w → False)).
  { revert Eo. unfold io, no_effect. destruct (fs_fault _) as [[e k]|] eqn:Ef.
    { intros [= <- <-]. right. split; [by eexists|]. intros Hq. destruct (Hq (sw_tick w)). congruence. }
    destruct (sw_file w) as [[l cc]|] eqn:Ew; [|by unfold content in Hc; rewrite Ew in Hc].
    unfold content in Hc. rewrite Ew in Hc. injection Hc as ->. unfold path_content. cbn.
    destruct (fs_unlinked _) eqn:Eu; cbn.
    { intros [= <- <-]. right. split; [by eexists|]. intros Hq. destruct (Hq (sw_tick w)). congruence. }
    destruct l; intros [= <- <-]; [by left|]. right. split; [by eexists|]. intros _ (f & Ef' & Hl). simplify_eq. }
  assert (El : ledger_sum w1 = ledger_sum w) by (apply (ledger_sum_pure _ _ _ _ (io_pure_open _) Eo)).
  destruct Hopen as [->|[[e ->] Hno]].
  2: { intros [= <- <- <-]. destruct (rs_settle_spec reserved w1) as [_ ->]. split; [lia|]. split; [by exists 0%nat|].
       intros _ Hq Hl. destruct (Hno Hq Hl). }
  pose proof (framed_length _ _ _ _ Hf) as Hlen.
  destruct (stream_framed interrupt key ps c n Hf (S (length c)) [] ltac:(lia)) as [(k & r0 & t & E & Ht)|E];
    rewrite app_nil_r in E; rewrite E.
  - intros [= <- <- <-]. destruct (rs_settle_spec reserved w1) as [_ ->]. split; [lia|]. split; [by exists k|].
    intros Hn. destruct (Ht (Hn t)).
  - replace (S (length c) - length ps)%nat with (S (length c - length ps))%nat by lia. cbn [stream_frames].
    destruct (interrupt (length ps)) as [[]|] eqn:Ei; rewrite ?app_nil_r; intros [= <- <- <-];
      destruct (rs_settle_spec reserved w1) as [_ ->]; (split; [lia|]); (split; [by exists (length ps); rewrite firstn_all|]); try done.
    intros Hn. by rewrite Hn in Ei.
Qed.

Lemma io_sync_linked w : stays_linked w (io_sync w).2.
Proof.
  intros Hu (f & Hf & Hl). unfold io_sync, io, no_effect. rewrite Hu, Hf. destruct (fs_fault _) as [[]|]; by eexists.
Qed.

Lemma into_body_spec interrupt data s w r w' :
  ready data (s, w) → into_body interrupt s w = (r, w') →
  ledger_sum w' = ledger_sum w - rs_reserved_bytes s
  ∧ match r with
    | Err _ => True
    | Ok (n, sent, ended) =>
      n = Z.of_nat (length data) ∧ concat sent `prefix_of` data
      ∧ ((∀ t, interrupt t = None) → quiet_files → linked w → concat sent = data ∧ ended = Ok tt)
    end.
Proof.
  intros Hr. pose proof (flush_spec data _ Hr) as Hfl. unfold wp in Hfl. unfold into_body.
  destruct (flush_pending (s, w)) as [r1 [s1 w1]]. destruct Hfl as (Hk & _ & Hok).
  destruct Hk as [Kf Kr Km Kb Kk Kl Ki]. cbn in *.
  assert (El : ledger_sum w1 = ledger_sum w) by (unfold ledger_sum; by rewrite Kl).
  destruct r1 as [[]|e]; [|intros [= <- <-]; split; [rewrite rs_drop_ledger; lia|done]].
  destruct (Hok eq_refl) as (ps & c & n & Hc & Hf & Hd). destruct (rs_file s1); cbn [negb].
  2: { intros [= <- <-]. split; [rewrite rs_drop_ledger; lia|done]. }
  destruct (io_sync w1) as [r2 w2] eqn:E2. pose proof (ledger_sum_pure _ _ _ _ io_pure_sync E2) as El2.
  pose proof (io_pure_sync w1) as [Ec2 _]. pose proof (io_sync_linked w1) as Hl2. rewrite E2 in Ec2, Hl2. cbn in Ec2, Hl2.
  rewrite Hc in Ec2.
  destruct r2 as [[]|e]; [|intros [= <- <-]; split; [rewrite rs_drop_ledger; cbn; lia|done]].
  cbn. rewrite Kk. destruct (rs_replay _ _ _ _) as [[sent ended] w3] eqn:E3. intros [= <- <-].
  destruct (rs_replay_spec _ _ _ _ ps c n _ _ _ Ec2 Hf E3) as (El3 & [k ->] & Hq). split; [lia|].
  destruct Hr as (_ & Hb & _). cbn in Hb. split; [lia|]. split.
  - rewrite <- Hd. exists (concat (drop k ps)). by rewrite <- concat_app, take_drop.
  - intros Hi Hqf Hl. destruct Hq as [-> ->]; [done|done| |by rewrite Hd]. assert (Hu : ∀ n, fs_unlinked n = false) by (intros m; apply Hqf).
    auto.
Qed.

(** C18: A transformed read that goes through the spool is replayed as it was
    written: the announced length is the length of the output, and the body
    yields a prefix of the output, the whole of it and a regular end when
    nothing interrupts the replay and the file system does as it is told. *)
Theorem read_spool_replays interrupt quota_max max_object_bytes quota chunks w n sent ended w' :
  0 <= max_object_bytes →
  serve_spooled interrupt quota_max max_object_bytes quota chunks w = (Ok (n, sent, ended), w') →
  n = Z.of_nat (length (concat chunks)) ∧ n <= max_object_bytes ∧ concat sent `prefix_of` concat chunks
  ∧ ((∀ t, interrupt t = None) → quiet_files → concat sent = concat chunks ∧ ended = Ok tt).
Proof.
  intros Hmax. unfold serve_spooled, mbind, SE_bind. destruct (rs_begin _ _ _ w) as [[s|e] w1] eqn:E1; [|done].
  apply rs_begin_spec in E1 as (Hr & Hl & _ & Em & _); [|done].
  destruct (spool_writer chunks s w1) as [[s2|e] w2] eqn:E2; [|done].
  apply (spool_writer_spec chunks []) in E2 as (_ & Hc & Hr2); [|done]. intros E3.
  destruct (into_body_spec _ _ _ _ _ _ Hr2 E3) as (_ & -> & Hp & Hq). split; [done|].
  destruct Hr2 as (_ & Hb & Hm). pose proof (charged_max _ _ Hc) as Em2. cbn in *. split; [lia|]. split; [done|].
  intros Hi Hqf. apply Hq; [done|done|]. apply (charged_linked _ _ Hc); [intros m; apply Hqf|done].
Qed.

(** C20: The reservation covers the file: however the output is cut up, and
    whichever operation fails, the encrypted file is never longer than what
    was reserved for it, its last frame included. *)
Theorem read_spool_bounded quota_max max_object_bytes quota chunks w s w0 r w1 :
  0 <= max_object_bytes → rs_begin quota_max max_object_bytes quota w = (Ok s, w0) →
  spool_writer chunks s w0 = (r, w1) →
  Z.of_nat (length (default [] (content w1))) <= rs_reserved_bytes s
  ∧ ∀ s1, r = Ok s1 → Z.of_nat (size (flush_pending (s1, w1)).2) <= rs_reserved_bytes s.
Proof.
  intros Hmax E1 E2. apply rs_begin_spec in E1 as (Hr & _ & -> & <- & _); [|done].
  apply (spool_writer_spec chunks []) in E2 as [Hs Hrest]; [|done]. split; [done|]. intros s1 ->. destruct Hrest as [Hc Hr1].
  pose proof (flush_spec _ _ Hr1) as Hfl. unfold wp in Hfl. destruct (flush_pending (s1, w1)) as [r x].
  destruct Hfl as (_ & Hsz & _). pose proof (charged_max _ _ Hc) as Em. cbn in *. by rewrite Em in Hsz.
Qed.

(** Whatever becomes of the read, everything it reserved is released, once. *)
Theorem read_spool_releases interrupt quota_max max_object_bytes quota chunks w r w' :
  0 <= max_object_bytes → sw_ledger w = [] →
  serve_spooled interrupt quota_max max_object_bytes quota chunks w = (r, w') → ledger_sum w' = 0.
Proof.
  intros Hmax Hw. assert (H0' : ledger_sum w = 0) by (unfold ledger_sum; by rewrite Hw).
  unfold serve_spooled, mbind, SE_bind. destruct (rs_begin _ _ _ w) as [[s|e] w1] eqn:E1; apply rs_begin_spec in E1; try done.
  2: { intros [= <- <-]. lia. }
  destruct E1 as (Hr & _ & _ & _ & El). destruct (spool_writer chunks s w1) as [[s2|e] w2] eqn:E2;
    apply (spool_writer_spec chunks []) in E2 as [_ Hrest]; try done.
  2: { intros [= <- <-]. lia. }
  destruct Hrest as [Hc Hr2]. intros E3. destruct (into_body_spec _ _ _ _ _ _ Hr2 E3) as [Hl _].
  pose proof (charged_reserved _ _ Hc) as Er. pose proof (charged_ledger _ _ Hc) as Eg. cbn in Er, Eg.
  unfold ledger_sum in *. rewrite Eg in Hl. lia.
Qed.
End proofs.
