(* ===== verification/StreamingPut.v ===== *)
(** * A streamed PUT: [streaming_single_put] of [server.rs]

    The request path that composes the other parts: the frames of the body
    go through the payload verifier ([Integrity.v]), the verified bytes through
    the record decoder ([RecordDecoder.v]), every record through the filter
    pipeline, and the pipeline's records into a sink ([SinkApi.v]), which is
    completed only after the verifier and the decoder have accepted the whole
    body.  [streaming_avro_single_put] is the same path for Avro, which is
    decoded as a whole.

    The pipeline runs components in the sandbox: it is the class [Pipeline],
    an arbitrary state machine.  The Avro codec is a function argument.  The
    theorems hold for every sink that keeps the promises of [SinkLaws]. *)

From S2P Require Import Prelude Staging Operation RustStr Integrity IntegrityProofs Format RecordDecoder RecordProofs SinkApi.

#[local] Open Scope Z_scope.
Set Default Goal Selector "!".

(** [StreamingPipelineSession]: [process] and [finish], and what cancelling
    leaves behind. *)
Class Pipeline (G : Type) := {
  pl_process : RecordT → SE G S4Error (option RecordT);
  pl_finish : SE G S4Error (list RecordT * Z);
  pl_cancel_and_wait : G → G;
}.

Inductive StreamingPutError : Type :=
| PutIntegrity (e : IntegrityError)
| PutPipeline (e : S4Error)
| PutTransaction (e : TransactionError)
| InputTooLarge
| SourceFrameTooLarge
| Transport
| InvalidRequest (m : string)
| Unsupported (m : string)
| PreserveReservation (e : StreamingPutError).

Definition put_preserves_reservation (e : StreamingPutError) : bool :=
  match e with PreserveReservation _ => true | _ => false end.

(** What [body.frame()] yields: a data frame, trailers, a frame of another
    kind, or a transport error. *)
Inductive BodyFrame : Type :=
| DataFrame (data : list byte)
| TrailersFrame
| OtherFrame
| BrokenFrame.

Record SourceBodyLimits := mkSourceLimits { sl_max_bytes : Z; sl_max_frame_bytes : nat }.

Definition decoder_limits (limits : SourceBodyLimits) : DecoderLimits :=
  mkLimits (sl_max_frame_bytes limits) (N.to_nat DEFAULT_MAX_RECORD_BYTES)
    (N.to_nat DEFAULT_MAX_JSON_DOCUMENT_BYTES) (N.to_nat DEFAULT_MAX_CSV_FIELDS).

(** ** The format of the request *)

Definition media_type (content_type : list byte) : list byte :=
  lowercase (trim (default [] (head (split_on x3b content_type)))).

Definition streaming_format_content_type (content_type : list byte)
    : result StreamingPutError (Format * list byte) :=
  let media := media_type content_type in
  if bool_decide (media = bs "text/plain") then Ok (Text, media)
  else if bool_decide (media = bs "application/x-ndjson" ∨ media = bs "application/jsonlines") then Ok (Jsonl, media)
  else if bool_decide (media = bs "application/json") then Ok (Json, media)
  else if bool_decide (media = bs "text/csv") then Ok (Csv, media)
  else if bool_decide (media = bs "text/tab-separated-values") then Ok (Tsv, media)
  else Err (Unsupported ("unsupported streaming Content-Type " +:+ debug_str (String.string_of_list_byte media))).

(** The Content-Type header as [None] when absent, [Some None] when not text. *)
Definition streaming_format (header : option (option (list byte))) : result StreamingPutError (Format * list byte) :=
  match header with
  | None => Err (InvalidRequest "Content-Type is required")
  | Some None => Err (InvalidRequest "invalid Content-Type")
  | Some (Some content_type) => streaming_format_content_type content_type
  end.

Definition avro_media_type (content_type : list byte) : option (list byte) :=
  let media := media_type content_type in
  if bool_decide (media ∈ [bs "application/avro"; bs "application/x-avro"; bs "application/vnd.apache.avro+binary"])
  then Some media else None.

Definition is_avro_content_type (header : option (option (list byte))) : bool :=
  match header with
  | Some (Some content_type) => bool_decide (is_Some (avro_media_type content_type))
  | _ => false
  end.

(** ** The state of a request *)

Section put.
  Context {W G : Type} `{ObjectSinkTransaction W, GatewayJournal W, Pipeline G, UsageEncoding, Crypto, Parsers}.
  Context (sha256_hex : list byte → string) (created_at : Z).

Record PutState := mkPut {
  pt_verifier : option BodyVerifier;
  pt_decoder : Decoder;
  pt_pipeline : G;
  pt_input_bytes : Z;
  pt_output_bytes : Z;
  (** the bytes the output hasher has seen *)
  pt_hashed : list byte;
  pt_sink : W;
}.
  Abbreviation P := (SE PutState StreamingPutError).

Definition set_verifier v (s : PutState) : PutState :=
  mkPut v (pt_decoder s) (pt_pipeline s) (pt_input_bytes s) (pt_output_bytes s) (pt_hashed s) (pt_sink s).
Definition set_decoder v (s : PutState) : PutState :=
  mkPut (pt_verifier s) v (pt_pipeline s) (pt_input_bytes s) (pt_output_bytes s) (pt_hashed s) (pt_sink s).
Definition set_pipeline v (s : PutState) : PutState :=
  mkPut (pt_verifier s) (pt_decoder s) v (pt_input_bytes s) (pt_output_bytes s) (pt_hashed s) (pt_sink s).
Definition set_input_bytes v (s : PutState) : PutState :=
  mkPut (pt_verifier s) (pt_decoder s) (pt_pipeline s) v (pt_output_bytes s) (pt_hashed s) (pt_sink s).
Definition set_output v h (s : PutState) : PutState :=
  mkPut (pt_verifier s) (pt_decoder s) (pt_pipeline s) (pt_input_bytes s) v h (pt_sink s).
Definition set_put_sink v (s : PutState) : PutState :=
  mkPut (pt_verifier s) (pt_decoder s) (pt_pipeline s) (pt_input_bytes s) (pt_output_bytes s) (pt_hashed s) v.

(** The calls of a component, with the conversion of [?]. *)
Definition on_sink {A} (m : SE W TransactionError A) : P A := λ s,
  let (r, w) := m (pt_sink s) in (map_err PutTransaction r, set_put_sink w s).
Definition on_decoder {A} (m : SE Decoder S4Error A) : P A := λ s,
  let (r, d) := m (pt_decoder s) in (map_err PutPipeline r, set_decoder d s).
Definition on_pipeline {A} (m : SE G S4Error A) : P A := λ s,
  let (r, g) := m (pt_pipeline s) in (map_err PutPipeline r, set_pipeline g s).

(** ** [write_stream_record] *)

Definition write_output (chunk : list byte) : P unit :=
  if bool_decide (chunk = []) then mret tt
  else
    s ← se_get;
    total ← se_lift (ok_or (u64_checked_add (pt_output_bytes s) (Z.of_nat (length chunk))) InputTooLarge);
    _ ← se_modify (set_output total (pt_hashed s ++ chunk));
    on_sink (s_write chunk).

Definition write_stream_record (record : RecordT) : P unit :=
  _ ← write_output (payload record); write_output (separator record).

(** ** [processing] *)

(** [while let Some(record) = decoder.next_record()? { .. }]; [fuel] bounds the
    turns, and [records_fuel] is enough. *)
Fixpoint put_records (fuel : nat) : P unit :=
  match fuel with
  | O => mret tt
  | S fuel =>
    record ← on_decoder next_record;
    match record with
    | None => mret tt
    | Some record =>
      processed ← on_pipeline (pl_process record);
      _ ← (match processed with Some record => write_stream_record record | None => mret tt end);
      put_records fuel
    end
  end.
Definition records_fuel (d : Decoder) : nat := 2 * buffered_bytes d + 4.
Definition put_ready_records : P unit := s ← se_get; put_records (records_fuel (pt_decoder s)).

(** [for chunk in decoded { .. }]. *)
Fixpoint put_chunks (max_bytes : Z) (chunks : list (list byte)) : P unit :=
  match chunks with
  | [] => mret tt
  | chunk :: chunks =>
    s ← se_get;
    total ← se_lift (ok_or (u64_checked_add (pt_input_bytes s) (Z.of_nat (length chunk))) InputTooLarge);
    _ ← se_modify (set_input_bytes total);
    if max_bytes <? total then se_throw InputTooLarge
    else
      _ ← on_decoder (RecordDecoder.push chunk);
      _ ← put_ready_records;
      put_chunks max_bytes chunks
  end.

(** The frame as data, or the error that ends the request. *)
Definition frame_data (frame : BodyFrame) : result StreamingPutError (list byte) :=
  match frame with
  | DataFrame data => Ok data
  | TrailersFrame => Err (PutIntegrity (Framing "HTTP trailers are not valid outside aws-chunked framing"))
  | OtherFrame | BrokenFrame => Err Transport
  end.

Definition verifier_push (data : list byte) : P (list (list byte)) := λ s,
  match pt_verifier s with
  | Some verifier =>
    let (r, verifier) := body_push data verifier in
    (map_err PutIntegrity r, set_verifier (Some verifier) s)
  | None => (Ok [data], s)
  end.

Fixpoint put_frames (limits : SourceBodyLimits) (frames : list BodyFrame) : P unit :=
  match frames with
  | [] => mret tt
  | frame :: frames =>
    data ← se_lift (frame_data frame);
    if (sl_max_frame_bytes limits <? length data)%nat then se_throw SourceFrameTooLarge
    else
      decoded ← verifier_push data;
      _ ← put_chunks (sl_max_bytes limits) decoded;
      put_frames limits frames
  end.

(** [authentication.body_verifier.take()], [finish] and the comparison. *)
Definition verifier_finish : P unit := λ s,
  match pt_verifier s with
  | None => (Ok tt, s)
  | Some verifier =>
    let s := set_verifier None s in
    match body_finish verifier with
    | Err e => (Err (PutIntegrity e), s)
    | Ok verified =>
      if negb (verified =? pt_input_bytes s) then (Err (PutIntegrity DecodedLengthMismatch), s) else (Ok tt, s)
    end
  end.

Fixpoint write_records (records : list RecordT) : P unit :=
  match records with
  | [] => mret tt
  | record :: records => _ ← write_stream_record record; write_records records
  end.

(** The usage event of a grant. *)
Definition usage_event (grant : AuthorizationGrant) (source_bytes output_bytes : Z) (evidence : option PipelineEvidence) : UsageEvent :=
  let event := from_grant grant source_bytes output_bytes in
  match evidence with Some e => with_pipeline_evidence event e | None => event end.

(** The end of both paths: verification of the output, the usage record, the commit. *)
Definition commit_output (event : UsageEvent) (size : Z) (digest : string) : SE W TransactionError StoredObjectMeta :=
  _ ← s_verify_output size digest;
  id ← se_gets s_durable_operation_id;
  _ ← (λ w, let (r, w) := persist_transaction_usage_evidence created_at id event w in (map_err TJournal r, w));
  _ ← s_record_usage_evidence event;
  s_complete.

(** After the last frame: the verifier, the decoder and the pipeline are
    finished and the remaining records written; the fuel the pipeline used. *)
Definition finish_input : P Z :=
  _ ← verifier_finish;
  _ ← on_decoder RecordDecoder.finish;
  _ ← put_ready_records;
  finished ← on_pipeline pl_finish;
  _ ← write_records finished.1;
  mret finished.2.

(** [evidence] is [snapshot.pipeline_evidence] as a function of the fuel. *)
Definition put_processing (limits : SourceBodyLimits) (grant : AuthorizationGrant)
    (evidence : Z → option PipelineEvidence) (frames : list BodyFrame)
    : P (StoredObjectMeta * Z * option PipelineEvidence) :=
  _ ← put_frames limits frames;
  pipeline_fuel ← finish_input;
  s ← se_get;
  let pipeline_evidence := evidence pipeline_fuel in
  let event := usage_event grant (pt_input_bytes s) (pt_output_bytes s) pipeline_evidence in
  stored ← on_sink (commit_output event (pt_output_bytes s) (sha256_hex (pt_hashed s)));
  mret (stored, pt_output_bytes s, pipeline_evidence).

(** The failure of [processing]: the reservation is kept when the sink may
    have published, and the sink is aborted otherwise. *)
Definition settle_failure (error : StreamingPutError) (w : W) : StreamingPutError * W :=
  if preserves_reservation (s_commit_state w) then (PreserveReservation error, w)
  else (error, (s_abort w).2).

(** ** [streaming_single_put], from the open sink on

    [session] is the pipeline session or the error of starting it.  A failing
    [RecordDecoder::new] returns with the guard armed, whose drop aborts. *)
Definition streaming_put_into (w : W) (session : result S4Error G) (verifier : option BodyVerifier)
    (format : Format) (limits : SourceBodyLimits) (grant : AuthorizationGrant)
    (evidence : Z → option PipelineEvidence) (frames : list BodyFrame)
    : result StreamingPutError (StoredObjectMeta * Z * Z * option PipelineEvidence) * W :=
  match session with
  | Err e => (Err (PutPipeline e), (s_abort w).2)
  | Ok pipeline =>
    match decoder_new format (decoder_limits limits) with
    | Err e => (Err (PutPipeline e), (s_abort w).2)
    | Ok decoder =>
      match put_processing limits grant evidence frames (mkPut verifier decoder pipeline 0 0 [] w) with
      | (Ok (stored, output_bytes, evidence), s) => (Ok (stored, pt_input_bytes s, output_bytes, evidence), pt_sink s)
      | (Err error, s) => let (error, w) := settle_failure error (pt_sink s) in (Err error, w)
      end
    end
  end.

(** ** [streaming_avro_single_put], from the open sink on

    The body is collected and verified, decoded and transformed as a whole by
    [process_ocf], and written in one piece. *)
Record AvroState := mkAvro {
  av_verifier : option BodyVerifier;
  av_input : list byte;
  av_input_bytes : Z;
}.

Fixpoint avro_collect (max_bytes : Z) (chunks : list (list byte)) (s : AvroState) : result StreamingPutError AvroState :=
  match chunks with
  | [] => Ok s
  | chunk :: chunks =>
    total ← ok_or (u64_checked_add (av_input_bytes s) (Z.of_nat (length chunk))) InputTooLarge;
    if max_bytes <? total then Err InputTooLarge
    else avro_collect max_bytes chunks (mkAvro (av_verifier s) (av_input s ++ chunk) total)
  end.

Definition avro_verifier_push (data : list byte) (s : AvroState)
    : result StreamingPutError (list (list byte) * AvroState) :=
  match av_verifier s with
  | None => Ok ([data], s)
  | Some verifier =>
    let (r, verifier) := body_push data verifier in
    decoded ← map_err PutIntegrity r;
    Ok (decoded, mkAvro (Some verifier) (av_input s) (av_input_bytes s))
  end.

Fixpoint avro_frames (limits : SourceBodyLimits) (frames : list BodyFrame) (s : AvroState)
    : result StreamingPutError AvroState :=
  match frames with
  | [] => Ok s
  | DataFrame data :: frames =>
    if (sl_max_frame_bytes limits <? length data)%nat then Err SourceFrameTooLarge
    else
      pushed ← avro_verifier_push data s;
      s ← avro_collect (sl_max_bytes limits) pushed.1 pushed.2;
      avro_frames limits frames s
  | (TrailersFrame | OtherFrame | BrokenFrame) :: _ => Err Transport
  end.

Definition avro_verified (s : AvroState) : result StreamingPutError unit :=
  match av_verifier s with
  | None => Ok tt
  | Some verifier =>
    verified ← map_err PutIntegrity (body_finish verifier);
    if negb (verified =? av_input_bytes s) then Err (PutIntegrity DecodedLengthMismatch) else Ok tt
  end.

Definition avro_put_into (process_ocf : list byte → result S4Error (list byte)) (w : W)
    (verifier : option BodyVerifier) (limits : SourceBodyLimits) (grant : AuthorizationGrant)
    (frames : list BodyFrame) : result StreamingPutError (StoredObjectMeta * Z * Z) * W :=
  match (s ← avro_frames limits frames (mkAvro verifier [] 0);
         _ ← avro_verified s;
         output ← map_err PutPipeline (process_ocf (av_input s));
         Ok (s, output)) with
  | Err error => let (error, w) := settle_failure error w in (Err error, w)
  | Ok (s, output) =>
    let output_bytes := Z.of_nat (length output) in
    match (_ ← s_write output;
           commit_output (from_grant grant (av_input_bytes s) output_bytes) output_bytes (sha256_hex output)) w with
    | (Ok stored, w) => (Ok (stored, av_input_bytes s, output_bytes), w)
    | (Err error, w) => let (error, w) := settle_failure (PutTransaction error) w in (Err error, w)
    end
  end.
End put.
Arguments PutState W G {_}.

(** ** What a successful request did *)

Section meaning.
  Context {G : Type} `{Pipeline G} `{Crypto, Parsers}.

(** The pipeline on a list of records, and to its end. *)
Fixpoint process_all (records : list RecordT) : SE G S4Error (list RecordT) :=
  match records with
  | [] => mret []
  | r :: records => o ← pl_process r; outs ← process_all records; mret (opt_list o ++ outs)
  end.
Definition transform (records : list RecordT) : SE G S4Error (list RecordT * Z) :=
  outs ← process_all records; finished ← pl_finish; mret (outs ++ finished.1, finished.2).

(** The decoder on chunks of an object that has not ended. *)
Fixpoint decode_open (chunks : list (list byte)) : SE Decoder S4Error (list RecordT) :=
  match chunks with
  | [] => mret []
  | c :: chunks => _ ← RecordDecoder.push c; rs ← drain accept_all; rest ← decode_open chunks; mret (rs ++ rest)
  end.

(** The body that [pieces] carry, checked if there is a verifier. *)
Definition verified_body (v : option BodyVerifier) (pieces : list (list byte)) (body : list byte) : Prop :=
  match v with
  | None => body = concat pieces
  | Some v => ∃ chunks v', push_all pieces v = (Ok chunks, v') ∧ body = concat chunks
      ∧ body_finish v' = Ok (Z.of_nat (length body))
  end.

Lemma process_all_app a b g outs1 g1 outs2 g2 :
  process_all a g = (Ok outs1, g1) → process_all b g1 = (Ok outs2, g2) →
  process_all (a ++ b) g = (Ok (outs1 ++ outs2), g2).
Proof.
  revert g outs1. induction a as [|r a IH]; intros g outs1; cbn; unfold mbind, SE_bind, mret, SE_ret.
  - by intros [= <- <-].
  - destruct (pl_process r g) as [[o|e] g']; [|done]. destruct (process_all a g') as [[os|e] g''] eqn:Ea; [|done].
    intros [= <- <-] Hb. rewrite (IH _ _ Ea Hb). by rewrite app_assoc.
Qed.

Lemma transform_app a b g outs1 g1 outs2 fuel g2 :
  process_all a g = (Ok outs1, g1) → transform b g1 = (Ok (outs2, fuel), g2) →
  transform (a ++ b) g = (Ok (outs1 ++ outs2, fuel), g2).
Proof.
  intros Ha. unfold transform, mbind, SE_bind. destruct (process_all b g1) as [[o|e] g'] eqn:Eb; [|done].
  rewrite (process_all_app _ _ _ _ _ _ _ Ha Eb). destruct (pl_finish g') as [[[t f]|e] g'']; [|done].
  intros [= <- <- <-]. cbn. by rewrite app_assoc.
Qed.

Lemma decode_open_app a b d rs1 d1 rs2 d2 :
  decode_open a d = (Ok rs1, d1) → decode_open b d1 = (Ok rs2, d2) → decode_open (a ++ b) d = (Ok (rs1 ++ rs2), d2).
Proof.
  revert d rs1. induction a as [|c a IH]; intros d rs1; cbn; unfold mbind, SE_bind, mret, SE_ret.
  - by intros [= <- <-].
  - destruct (RecordDecoder.push c d) as [[[]|e] d']; [|done]. destruct (drain accept_all d') as [[rs|e] d'']; [|done].
    destruct (decode_open a d'') as [[rest|e] d3] eqn:Ea; [|done].
    intros [= <- <-] Hb. rewrite (IH _ _ Ea Hb). by rewrite app_assoc.
Qed.

Lemma decode_chunks_open cs d rs1 d1 d2 rs2 d3 :
  decode_open cs d = (Ok rs1, d1) → RecordDecoder.finish d1 = (Ok tt, d2) → drain accept_all d2 = (Ok rs2, d3) →
  decode_chunks cs d = (Ok (rs1 ++ rs2), d3).
Proof.
  intros Ho Hf Hd. revert d rs1 Ho. induction cs as [|c cs IH]; intros d rs1; cbn; unfold mbind, SE_bind, mret, SE_ret.
  - intros [= <- <-]. by rewrite Hf.
  - destruct (RecordDecoder.push c d) as [[[]|e] d']; [|done]. destruct (drain accept_all d') as [[rs|e] d'']; [|done].
    destruct (decode_open cs d'') as [[rest|e] d4] eqn:Ea; [|done]. intros [= <- <-]. rewrite (IH _ _ Ea). by rewrite app_assoc.
Qed.

Lemma push_all_app a b v cs1 v1 cs2 v2 :
  push_all a v = (Ok cs1, v1) → push_all b v1 = (Ok cs2, v2) → push_all (a ++ b) v = (Ok (cs1 ++ cs2), v2).
Proof.
  revert v cs1. induction a as [|c a IH]; intros v cs1; cbn; unfold mbind, SE_bind, mret, SE_ret.
  - by intros [= <- <-].
  - destruct (body_push c v) as [[os|e] v']; [|done]. destruct (push_all a v') as [[rest|e] v''] eqn:Ea; [|done].
    intros [= <- <-] Hb. rewrite (IH _ _ Ea Hb). by rewrite app_assoc.
Qed.
End meaning.

(** ** Proofs *)

Section proofs.
  Context {W G : Type} (sha256_hex : list byte → string) `{SinkLaws W sha256_hex}.
  Context `{Pipeline G, UsageEncoding, Crypto, Parsers} (created_at : Z).
  Abbreviation PutState := (PutState W G).

(** The output so far, in the sink, in the hasher and counted. *)
Definition tracks (data : list byte) (s : PutState) : Prop :=
  sink_holds data (pt_sink s) ∧ pt_hashed s = data ∧ pt_output_bytes s = Z.of_nat (length data).

Lemma tracks_alive data s : tracks data s → sink_alive (pt_sink s).
Proof. intros [Hh _]. by eapply holds_alive. Qed.
#[local] Hint Resolve tracks_alive : core.
(** A request that ends in an error here leaves the sink as it was. *)
Ltac put_stop := split_and!; [by eapply tracks_alive|done..].

(** Writing leaves the input side alone. *)
Definition same_input (s s' : PutState) : Prop :=
  pt_verifier s' = pt_verifier s ∧ pt_decoder s' = pt_decoder s ∧ pt_pipeline s' = pt_pipeline s
  ∧ pt_input_bytes s' = pt_input_bytes s.
#[local] Instance same_input_preorder : PreOrder same_input.
Proof. split; [by intros s|]. intros a b c (?&?&?&?) (?&?&?&?). split_and!; congruence. Qed.

Lemma wp_put_sink {A} (m : SE W TransactionError A) (Q : result StreamingPutError A → PutState → Prop) s :
  wp m (λ r w, Q (map_err PutTransaction r) (set_put_sink w s)) (pt_sink s) → wp (on_sink m) Q s.
Proof. unfold wp, on_sink. by destruct (m (pt_sink s)). Qed.

Lemma write_output_spec chunk data s :
  tracks data s →
  wp (write_output chunk) (λ r s', sink_alive (pt_sink s') ∧ same_input s s'
    ∧ (r = Ok tt → tracks (data ++ chunk) s')) s.
Proof.
  intros Ht. unfold write_output. case_bool_decide as Hc.
  { subst chunk. split; [eauto|]. split; [done|]. intros _. by rewrite app_nil_r. }
  unfold wp, mbind, SE_bind, se_get, se_lift, se_modify. destruct Ht as (Hh & Hd & Ho). rewrite Ho. unfold u64_checked_add.
  destruct (_ <=? u64_max); cbn [ok_or]; [|by split; [by eapply holds_alive|]]. apply wp_put_sink. cbn.
  eapply wp_mono; [by apply write_law|]. intros r w' [Ha Hr]. split; [done|]. split; [done|].
  destruct r as [[]|]; [|done]. intros _. split; [by apply Hr|]. cbn. rewrite Hd. split; [done|].
  rewrite length_app. lia.
Qed.

Lemma write_record_spec record data s :
  tracks data s →
  wp (write_stream_record record) (λ r s', sink_alive (pt_sink s') ∧ same_input s s'
    ∧ (r = Ok tt → tracks (data ++ record_bytes record) s')) s.
Proof.
  intros Ht. unfold write_stream_record. apply wp_bind. eapply wp_mono; [by apply write_output_spec|].
  intros [[]|e] s1 (Ha & Hs & Hr); [|done]. eapply wp_mono; [by apply write_output_spec, Hr|].
  intros r s2 (Ha2 & Hs2 & Hr2). split; [done|]. split; [by etrans|]. intros E. unfold record_bytes. rewrite app_assoc. auto.
Qed.

Lemma write_records_spec records data s :
  tracks data s →
  wp (write_records records) (λ r s', sink_alive (pt_sink s') ∧ same_input s s'
    ∧ (r = Ok tt → tracks (data ++ concat (record_bytes <$> records)) s')) s.
Proof.
  revert data s. induction records as [|r records IH]; intros data s Ht; cbn [write_records].
  { split; [eauto|]. split; [done|]. intros _. cbn. by rewrite app_nil_r. }
  apply wp_bind. eapply wp_mono; [by apply write_record_spec|]. intros [[]|e] s1 (Ha & Hs & Hr); [|done].
  eapply wp_mono; [by apply IH, Hr|]. intros q s2 (Ha2 & Hs2 & Hr2). split; [done|]. split; [by etrans|].
  intros E. cbn. rewrite app_assoc. auto.
Qed.

Definition bytes_of (records : list RecordT) : list byte := concat (record_bytes <$> records).
Lemma bytes_of_app a b : bytes_of (a ++ b) = bytes_of a ++ bytes_of b.
Proof. unfold bytes_of. by rewrite fmap_app, concat_app. Qed.

(** The records [rs] came out of the decoder and went through the pipeline
    into the output: what one stretch of the request does. *)
Definition flowed (rs : list RecordT) (data : list byte) (s s' : PutState) : Prop :=
  ∃ outs, process_all rs (pt_pipeline s) = (Ok outs, pt_pipeline s') ∧ tracks (data ++ bytes_of outs) s'.

Lemma flowed_trans rs1 rs2 data s1 s2 s3 :
  flowed rs1 data s1 s2 → (∀ data, tracks data s2 → flowed rs2 data s2 s3) → flowed (rs1 ++ rs2) data s1 s3.
Proof.
  intros (o1 & Hp1 & Ht1) H23. destruct (H23 _ Ht1) as (o2 & Hp2 & Ht2). exists (o1 ++ o2).
  split; [by eapply process_all_app|]. by rewrite bytes_of_app, app_assoc.
Qed.

(** The loop over the records is a drain of the decoder: it ends by itself. *)
Lemma put_records_spec fuel data s :
  tracks data s → dec_inv (pt_decoder s) → (drain_measure (pt_decoder s) < fuel)%nat →
  wp (put_records fuel) (λ r s', sink_alive (pt_sink s') ∧ pt_verifier s' = pt_verifier s
    ∧ pt_input_bytes s' = pt_input_bytes s
    ∧ (r = Ok tt → ∃ rs, drain_loop fuel accept_all (pt_decoder s) = Some (Ok rs, pt_decoder s')
         ∧ flowed rs data s s')) s.
Proof.
  revert data s. induction fuel as [|fuel IH]; intros data s Ht Hi Hm; [lia|]. cbn [put_records drain_loop].
  unfold wp at 1, mbind, SE_bind, on_decoder. destruct (next_record (pt_decoder s)) as [[o|e] d] eqn:En; cbn; [|by put_stop].
  destruct (next_record_spec _ _ _ Hi En) as (_ & _ & _ & _ & Hi1 & Hsome & _).
  destruct o as [record|].
  2:{ split; [by eauto|]. do 2 (split; [done|]). intros _. exists []. split; [done|]. exists []. split; [done|].
      cbn. by rewrite app_nil_r. }
  destruct (Hsome _ eq_refl) as [_ Hdec]. unfold on_pipeline. cbn.
  destruct (pl_process record (pt_pipeline s)) as [[o|e] g] eqn:Ep; cbn; [|by put_stop].
  set (s1 := set_pipeline g (set_decoder d s)).
  assert (Ht1 : tracks data s1) by done.
  assert (Hrest : ∀ data s2, tracks data s2 → same_input s1 s2 →
    wp (put_records fuel) (λ r s', sink_alive (pt_sink s') ∧ pt_verifier s' = pt_verifier s
      ∧ pt_input_bytes s' = pt_input_bytes s
      ∧ (r = Ok tt → ∃ rs, drain_loop fuel accept_all d = Some (Ok rs, pt_decoder s') ∧ flowed rs data s1 s')) s2).
  { intros data2 s2 Ht2 (E1 & E2 & E3 & E4). eapply wp_mono; [apply (IH data2); [done|by rewrite E2|rewrite E2; change (pt_decoder s1) with d; lia]|].
    intros r s' (Ha & Hv & Hin & Hr). split; [done|]. split; [by rewrite Hv, E1|]. split; [by rewrite Hin, E4|].
    intros Eok. destruct (Hr Eok) as (rs & Hd & outs & Hp & Hto). rewrite E2 in Hd. rewrite E3 in Hp.
    exists rs. split; [done|]. by exists outs. }
  destruct o as [out|].
  - apply (wp_bind (write_stream_record out)). eapply wp_mono; [by apply write_record_spec|].
    intros [[]|e] s2 (Ha2 & Hs2 & Hr2).
    2:{ destruct Hs2 as (E1 & _ & _ & E4). split; [done|]. split; [by rewrite E1|]. split; [by rewrite E4|done]. }
    eapply wp_mono; [by apply Hrest, Hs2; apply Hr2|]. intros r s' (Ha & Hv & Hin & Hr). do 3 (split; [done|]).
    intros Eok. destruct (Hr Eok) as (rs & -> & outs & Hp & Hto). exists (record :: rs). split; [done|].
    exists (out :: outs). cbn. unfold mbind, SE_bind. rewrite Ep. split.
    + change g with (pt_pipeline s1). by rewrite Hp.
    + unfold bytes_of in *. cbn. by rewrite app_assoc.
  - eapply wp_mono; [by apply (Hrest data)|]. intros r s' (Ha & Hv & Hin & Hr). do 3 (split; [done|]).
    intros Eok. destruct (Hr Eok) as (rs & -> & outs & Hp & Hto). exists (record :: rs). split; [done|].
    exists outs. cbn. unfold mbind, SE_bind. rewrite Ep. split; [|done]. change g with (pt_pipeline s1). by rewrite Hp.
Qed.

Lemma records_fuel_enough d : (drain_measure d < records_fuel d)%nat.
Proof.
  unfold drain_measure, records_fuel, buffered_bytes. destruct (ready d); [rewrite bool_decide_eq_false_2 by done|];
    destruct (complete d); cbn; lia.
Qed.

Lemma put_ready_spec data s :
  tracks data s → dec_inv (pt_decoder s) →
  wp put_ready_records (λ r s', sink_alive (pt_sink s') ∧ pt_verifier s' = pt_verifier s
    ∧ pt_input_bytes s' = pt_input_bytes s
    ∧ (r = Ok tt → ∃ rs, drain accept_all (pt_decoder s) = (Ok rs, pt_decoder s') ∧ flowed rs data s s')) s.
Proof.
  intros Ht Hi. unfold put_ready_records, wp at 1, mbind, SE_bind, se_get. cbn.
  eapply wp_mono; [apply (put_records_spec _ data); [done..|apply records_fuel_enough]|].
  intros r s' (Ha & Hv & Hin & Hr). do 3 (split; [done|]). intros E. destruct (Hr E) as (rs & Hd & Hf). exists rs.
  split; [|done]. unfold drain. unfold records_fuel in Hd. by rewrite Hd.
Qed.

(** The decoder of a body that has not ended. *)
Definition open_decoder (d : Decoder) : Prop := dec_inv d ∧ complete d = false ∧ finished d = false.

Lemma push_drain_open c d d1 rs d2 :
  open_decoder d → RecordDecoder.push c d = (Ok tt, d1) → drain accept_all d1 = (Ok rs, d2) →
  dec_inv d1 ∧ open_decoder d2.
Proof.
  intros (Hi & Hc & Hf) Hp Hd. apply push_spec in Hp as (_ & _ & Hf1 & Hi1 & _); [|done|done]. split; [done|].
  apply drain_spec in Hd as (_ & _ & Hf2 & _ & Hi2 & _ & Ho & _); [|done]. destruct (Ho Hf1) as (? & _).
  split_and!; [done|done|congruence].
Qed.

Lemma put_chunks_spec max chunks data s :
  tracks data s → open_decoder (pt_decoder s) →
  wp (put_chunks max chunks) (λ r s', sink_alive (pt_sink s') ∧ pt_verifier s' = pt_verifier s
    ∧ (r = Ok tt → open_decoder (pt_decoder s')
         ∧ pt_input_bytes s' = pt_input_bytes s + Z.of_nat (length (concat chunks))
         ∧ (pt_input_bytes s <= max → pt_input_bytes s' <= max)
         ∧ ∃ rs, decode_open chunks (pt_decoder s) = (Ok rs, pt_decoder s') ∧ flowed rs data s s')) s.
Proof.
  revert data s. induction chunks as [|c chunks IH]; intros data s Ht Hd; cbn [put_chunks decode_open].
  { split; [eauto|]. split; [done|]. intros _. split; [done|]. split; [cbn; lia|]. split; [done|]. exists []. split; [done|].
    exists []. split; [done|]. cbn. by rewrite app_nil_r. }
  unfold wp at 1, mbind, SE_bind, se_get, se_lift, se_modify, u64_checked_add.
  destruct (_ <=? u64_max); cbn [ok_or]; [|by put_stop]. destruct (Z.ltb_spec max (pt_input_bytes s + Z.of_nat (length c))); [by put_stop|].
  unfold on_decoder. cbn. destruct (RecordDecoder.push c (pt_decoder s)) as [[[]|e] d1] eqn:Ep; cbn; [|by put_stop].
  set (s1 := set_decoder d1 _). assert (Ht1 : tracks data s1) by done.
  apply (wp_bind put_ready_records).
  assert (Hi1 : dec_inv d1). { destruct Hd as (Hi & Hc & Hf). by apply push_spec in Ep as (_ & _ & _ & ? & _). }
  eapply wp_mono; [by apply put_ready_spec|]. intros [[]|e] s2 (Ha2 & Hv2 & Hin2 & Hr2); [|done].
  destruct (Hr2 eq_refl) as (rs1 & Hdr & Hf1). pose proof (push_drain_open _ _ _ _ _ Hd Ep Hdr) as [_ Hd2].
  destruct Hf1 as (outs1 & Hp1 & Ht2).
  eapply wp_mono; [by apply (IH (data ++ bytes_of outs1))|]. intros r s3 (Ha3 & Hv3 & Hr3). split; [done|].
  split; [by rewrite Hv3, Hv2|]. intros E. destruct (Hr3 E) as (Hd3 & Hin3 & Hmax & rs2 & Hdo & outs2 & Hp2 & Ht3).
  cbn in Hin2, Hdr, Hp1. split; [done|]. split; [rewrite Hin3, Hin2; cbn; rewrite length_app; lia|].
  split; [intros _; apply Hmax; lia|].
  exists (rs1 ++ rs2). rewrite Hdr, Hdo. split; [done|]. exists (outs1 ++ outs2).
  split; [by eapply process_all_app|]. by rewrite bytes_of_app, app_assoc.
Qed.

(** The verifier on the frames: the chunks it let through. *)
Definition pushed (v : option BodyVerifier) (pieces chunks : list (list byte)) (v' : option BodyVerifier) : Prop :=
  match v with
  | None => chunks = pieces ∧ v' = None
  | Some b => ∃ b', push_all pieces b = (Ok chunks, b') ∧ v' = Some b'
  end.

Lemma verifier_push_spec p (s : PutState) r s1 :
  verifier_push p s = (r, s1) →
  pt_sink s1 = pt_sink s ∧ pt_decoder s1 = pt_decoder s ∧ pt_pipeline s1 = pt_pipeline s
  ∧ pt_input_bytes s1 = pt_input_bytes s ∧ pt_hashed s1 = pt_hashed s ∧ pt_output_bytes s1 = pt_output_bytes s
  ∧ ∀ cs, r = Ok cs → ∀ ps rest v', pushed (pt_verifier s1) ps rest v' → pushed (pt_verifier s) (p :: ps) (cs ++ rest) v'.
Proof.
  unfold verifier_push. destruct (pt_verifier s) as [b|] eqn:Ev.
  - destruct (body_push p b) as [[cs|e] b1] eqn:Eb; intros [= <- <-]; cbn; do 6 (split; [done|]); [|by intros ? [=]].
    intros ? [= <-] ps rest v' (b' & Hp & ->). exists b'. split; [|done]. cbn. unfold mbind, SE_bind. by rewrite Eb, Hp.
  - intros [= <- <-]. do 6 (split; [done|]). intros ? [= <-] ps rest v'. rewrite Ev. cbn. intros [-> ->]. done.
Qed.

Lemma put_frames_spec limits frames data s :
  tracks data s → open_decoder (pt_decoder s) →
  wp (put_frames limits frames) (λ r s', sink_alive (pt_sink s')
    ∧ (r = Ok tt → open_decoder (pt_decoder s') ∧ ∃ pieces chunks rs,
         frames = DataFrame <$> pieces ∧ pushed (pt_verifier s) pieces chunks (pt_verifier s')
         ∧ pt_input_bytes s' = pt_input_bytes s + Z.of_nat (length (concat chunks))
         ∧ (pt_input_bytes s <= sl_max_bytes limits → pt_input_bytes s' <= sl_max_bytes limits)
         ∧ decode_open chunks (pt_decoder s) = (Ok rs, pt_decoder s') ∧ flowed rs data s s')) s.
Proof.
  revert data s. induction frames as [|f frames IH]; intros data s Ht Hd; cbn [put_frames].
  { split; [eauto|]. intros _. split; [done|]. exists [], [], []. cbn. split; [done|].
    split; [destruct (pt_verifier s); [by eexists|done]|]. split; [lia|]. split; [done|]. split; [done|].
    exists []. split; [done|]. cbn. by rewrite app_nil_r. }
  unfold wp at 1, mbind, SE_bind, se_lift. destruct f as [piece| | |]; cbn [frame_data]; [|by put_stop..].
  destruct (_ <? _)%nat; [by put_stop|].
  destruct (verifier_push piece s) as [[cs|e] s1] eqn:Ev;
    destruct (verifier_push_spec _ _ _ _ Ev) as (E1 & E2 & E3 & E4 & E5 & E6 & Hv);
    assert (Ht1 : tracks data s1) by (unfold tracks; by rewrite E1, E5, E6); [|by put_stop].
  specialize (Hv cs eq_refl). rewrite <- E2 in Hd.
  apply (wp_bind (put_chunks _ cs)). eapply wp_mono; [by apply put_chunks_spec|].
  intros [[]|e] s2 (Ha2 & Hv2 & Hr2); [|done].
  destruct (Hr2 eq_refl) as (Hd2 & Hin2 & Hm2 & rs1 & Ho1 & outs1 & Hp1 & Ht2).
  eapply wp_mono; [by apply (IH (data ++ bytes_of outs1))|]. intros r s3 (Ha3 & Hr3). split; [done|].
  intros E. destruct (Hr3 E) as (Hd3 & ps & chunks & rs2 & -> & Hpu & Hin3 & Hm3 & Ho2 & outs2 & Hp2 & Ht3).
  split; [done|]. exists (piece :: ps), (cs ++ chunks), (rs1 ++ rs2). split; [done|].
  split; [apply Hv; by rewrite <- Hv2|]. split; [rewrite Hin3, Hin2, E4, concat_app, length_app; lia|].
  split; [rewrite <- E4; auto|]. rewrite <- E2. split; [by eapply decode_open_app|].
  exists (outs1 ++ outs2). rewrite <- E3. split; [by eapply process_all_app|]. by rewrite bytes_of_app, app_assoc.
Qed.

(** The commit that answered [m] and led to [w'] was of a sink that held
    [data], and came after both records of the usage had succeeded: the one in
    the journal of the gateway, for a sink with a durable operation, and the
    one of the sink. *)
Definition usage_before_commit (event : UsageEvent) (data : list byte) (m : StoredObjectMeta) (w' : W) : Prop :=
  ∃ w1 w2 w3, sink_holds data w1
    ∧ persist_transaction_usage_evidence created_at (s_durable_operation_id w1) event w1 = (Ok tt, w2)
    ∧ s_record_usage_evidence event w2 = (Ok tt, w3) ∧ s_complete w3 = (Ok m, w').

Lemma commit_output_spec event size digest data w :
  sink_holds data w →
  wp (commit_output created_at event size digest)
    (λ r w', sink_alive w' ∧ ∀ m, r = Ok m → sink_published data w' ∧ usage_before_commit event data m w') w.
Proof.
  intros Hh. unfold commit_output. apply wp_bind. eapply wp_mono; [by apply verify_law|].
  intros [[]|e] w1 [Ha1 Hr1]; [|done]. destruct (Hr1 eq_refl) as (Hh1 & _).
  unfold wp at 1, mbind, SE_bind, se_gets.
  pose proof (persist_law created_at (s_durable_operation_id w1) event data w1 Hh1) as Hp. unfold wp in Hp.
  destruct (persist_transaction_usage_evidence _ _ _ _) as [[[]|e] w2] eqn:Ep; cbn; [|by split; [eapply holds_alive|]].
  pose proof (usage_law data event w2 Hp) as Hu. unfold wp in Hu.
  destruct (s_record_usage_evidence event w2) as [[[]|e] w3] eqn:Eu; [|by destruct Hu].
  pose proof (complete_law data w3 (proj2 Hu eq_refl)) as Hc. unfold wp in Hc.
  destruct (s_complete w3) as [r w4] eqn:Ec. destruct Hc as [Ha4 Hr4]. split; [done|]. intros m ->.
  split; [by eapply Hr4|]. by exists w1, w2, w3.
Qed.

Lemma decoder_new_open f l d : decoder_new f l = Ok d → open_decoder d.
Proof.
  unfold decoder_new. case_match; [done|]. intros [= <-]. split; [|done]. split; [|by split]. intros _.
  split; [by apply scanned_start|done].
Qed.

(** What [processing] published: the body that was verified, cut into its
    records, through the pipeline; and which usage it recorded before. *)
Definition put_meaning (limits : SourceBodyLimits) (f : Format) (frames : list BodyFrame) (v : option BodyVerifier)
    (g : G) (grant : AuthorizationGrant) (evidence : Z → option PipelineEvidence) (m : StoredObjectMeta)
    (input_bytes output_bytes : Z) (ev : option PipelineEvidence) (w : W) : Prop :=
  ∃ pieces body outs fuel g',
    frames = DataFrame <$> pieces ∧ verified_body v pieces body
    ∧ input_bytes = Z.of_nat (length body) ∧ (0 <= sl_max_bytes limits → input_bytes <= sl_max_bytes limits)
    ∧ transform (all_records f body) g = (Ok (outs, fuel), g')
    ∧ output_bytes = Z.of_nat (length (bytes_of outs)) ∧ sink_published (bytes_of outs) w
    ∧ ev = evidence fuel ∧ usage_before_commit (usage_event grant input_bytes output_bytes ev) (bytes_of outs) m w.

Lemma verifier_finish_spec data s :
  tracks data s →
  wp verifier_finish (λ r s', sink_alive (pt_sink s')
    ∧ (r = Ok tt → s' = set_verifier None s ∧ ∀ b, pt_verifier s = Some b → body_finish b = Ok (pt_input_bytes s))) s.
Proof.
  intros Ht. unfold wp, verifier_finish. destruct (pt_verifier s) as [b|] eqn:Ev.
  - destruct (body_finish b) as [n|e] eqn:Eb; cbn; [|split; [by eapply tracks_alive, Ht|done]].
    destruct (Z.eqb_spec n (pt_input_bytes s)) as [->|]; cbn; [|split; [by eapply tracks_alive, Ht|done]]. split; [by eauto|]. intros _. split; [done|].
    by intros ? [= <-].
  - split; [by eauto|]. intros _. split; [|done]. destruct s; cbn in *. by subst.
Qed.

Lemma finish_input_spec data s :
  tracks data s → open_decoder (pt_decoder s) →
  wp finish_input (λ r s', sink_alive (pt_sink s') ∧ ∀ fuel, r = Ok fuel →
    pt_input_bytes s' = pt_input_bytes s ∧ (∀ b, pt_verifier s = Some b → body_finish b = Ok (pt_input_bytes s))
    ∧ ∃ d rs d' outs g', RecordDecoder.finish (pt_decoder s) = (Ok tt, d) ∧ drain accept_all d = (Ok rs, d')
      ∧ transform rs (pt_pipeline s) = (Ok (outs, fuel), g') ∧ tracks (data ++ bytes_of outs) s') s.
Proof.
  intros Ht (Hi & _ & Hf). unfold finish_input. apply wp_bind. eapply wp_mono; [by eapply verifier_finish_spec|].
  intros [[]|e] s1 [Ha1 Hr1]; [|done]. destruct (Hr1 eq_refl) as [-> Hv]. clear Hr1 Ha1.
  apply wp_bind. unfold wp at 1, on_decoder. cbn [set_verifier pt_decoder].
  destruct (RecordDecoder.finish (pt_decoder s)) as [[[]|e] d] eqn:Efin; cbn [map_err]; [|split; [by eapply tracks_alive, Ht|done]].
  set (s2 := set_decoder d _). assert (Ht2 : tracks data s2) by done.
  pose proof (finish_spec _ _ _ Hi Hf Efin) as (_ & _ & _ & _ & Hi2 & _).
  apply wp_bind. eapply wp_mono; [by apply put_ready_spec|]. intros [[]|e] s3 (Ha3 & _ & Hin3 & Hr3); [|done].
  destruct (Hr3 eq_refl) as (rs & Hdr & outs & Hp & Ht3). clear Hr3.
  apply wp_bind. unfold wp at 1, on_pipeline.
  destruct (pl_finish (pt_pipeline s3)) as [[[tail fuel]|e] g] eqn:Epf; cbn [map_err fst snd]; [|split; [by eapply tracks_alive, Ht3|done]].
  apply wp_bind. eapply wp_mono; [by apply (write_records_spec tail (data ++ bytes_of outs))|].
  intros [[]|e] s4 (Ha4 & (_ & _ & _ & Hin4) & Hr4); [|done]. split; [done|]. intros ? [= <-].
  split; [by rewrite Hin4; cbn; rewrite Hin3|]. split; [done|].
  exists d, rs, (pt_decoder s3), (outs ++ tail), g. split; [done|]. split; [done|]. split.
  - unfold transform, mbind, SE_bind. change (pt_pipeline s) with (pt_pipeline s2). rewrite Hp. by rewrite Epf.
  - rewrite bytes_of_app, app_assoc. by apply Hr4.
Qed.

Lemma put_processing_spec limits grant evidence frames f v d g w :
  sink_holds [] w → decoder_new f (decoder_limits limits) = Ok d →
  wp (put_processing sha256_hex created_at limits grant evidence frames) (λ r s', sink_alive (pt_sink s')
    ∧ ∀ m n ev, r = Ok (m, n, ev) → put_meaning limits f frames v g grant evidence m (pt_input_bytes s') n ev (pt_sink s'))
    (mkPut v d g 0 0 [] w).
Proof.
  intros Hw Hnew. set (s0 := mkPut v d g 0 0 [] w). assert (Ht0 : tracks [] s0) by done.
  pose proof (decoder_new_open _ _ _ Hnew) as Hd0. unfold put_processing. apply wp_bind.
  eapply wp_mono; [by apply put_frames_spec|]. intros [[]|e] s1 (Ha1 & Hr1); [|done].
  destruct (Hr1 eq_refl) as (Hd1 & pieces & chunks & rs1 & -> & Hpu & Hin1 & Hm1 & Ho1 & outs1 & Hp1 & Ht1).
  clear Hr1. cbn in Hpu, Hin1, Hm1, Ho1, Hp1, Ht1.
  apply wp_bind. eapply wp_mono; [by apply finish_input_spec|]. intros [fuel|e] s2 [Ha2 Hr2]; [|done].
  destruct (Hr2 fuel eq_refl) as (Hin2 & Hv & d2 & rs2 & d3 & outs2 & g2 & Hfin & Hdr & Htr & Ht2). clear Hr2.
  unfold wp at 1, mbind, SE_bind, se_get. rewrite <- bytes_of_app in Ht2.
  unfold on_sink. match goal with |- context [commit_output created_at ?e ?n ?h (pt_sink s2)] =>
    pose proof (commit_output_spec e n h _ _ (proj1 Ht2)) as Hco end. unfold wp in Hco.
  destruct (commit_output _ _ _ _ (pt_sink s2)) as [[m|e] w3]; destruct Hco as (Ha3 & Hpub); cbn; [|split; [done|done]].
  split; [done|]. intros m' n ev [= <- <- <-]. destruct (Hpub m eq_refl) as [Hpub' Hu].
  assert (Hall : decode f (decoder_limits limits) chunks = Ok (rs1 ++ rs2)).
  { unfold decode, mbind, result_bind. rewrite Hnew. by rewrite (decode_chunks_open _ _ _ _ _ _ _ Ho1 Hfin Hdr). }
  apply decode_all_records in Hall as [Hall _].
  exists pieces, (concat chunks), (outs1 ++ outs2), fuel, g2. rewrite <- Hall, Hin2, Hin1.
  split; [done|]. split.
  { unfold verified_body, pushed in *. destruct v as [b|]; [|by destruct Hpu as [-> _]].
    destruct Hpu as (b' & Hpush & Ev). exists chunks, b'. split_and!; [done|done|]. rewrite (Hv b' Ev), Hin1. done. }
  split; [lia|]. split; [intros Hpos; rewrite <- Hin1; by apply Hm1|]. split; [by eapply transform_app|].
  split; [apply Ht2|]. split; [done|]. split; [done|]. rewrite <- Hin1, <- Hin2. exact Hu.
Qed.

Lemma settle_failure_spec e w e' w' :
  sink_alive w → settle_failure e w = (e', w') → put_preserves_reservation e' = false → sink_unpublished w'.
Proof.
  intros Ha. unfold settle_failure. destruct (s_commit_state w) eqn:Es; cbn; intros [= <- <-]; try done.
  intros _. pose proof (abort_law _ Ha Es) as Hab. unfold wp in Hab. by destruct (s_abort w).
Qed.

(** The two outcomes of [streaming_put_into]. *)
Lemma streaming_put_spec w session v f limits grant evidence frames r w' :
  sink_holds [] w →
  streaming_put_into sha256_hex created_at w session v f limits grant evidence frames = (r, w') →
  match r with
  | Ok (m, nin, nout, ev) => ∃ g, session = Ok g ∧ put_meaning limits f frames v g grant evidence m nin nout ev w'
  | Err e => s_commit_state w = PreCommit → put_preserves_reservation e = false → sink_unpublished w'
  end.
Proof.
  intros Hw. pose proof (holds_alive _ _ Hw) as Ha. unfold streaming_put_into.
  assert (Hab : s_commit_state w = PreCommit → sink_unpublished (s_abort w).2).
  { intros Hpre. pose proof (abort_law w Ha Hpre) as Hab. unfold wp in Hab. by destruct (s_abort w). }
  destruct session as [g|x]; [|intros [= <- <-] Hpre _; by apply Hab].
  destruct (decoder_new f (decoder_limits limits)) as [d|x] eqn:Hnew; [|intros [= <- <-] Hpre _; by apply Hab].
  pose proof (put_processing_spec limits grant evidence frames f v d g w Hw Hnew) as Hp. unfold wp in Hp.
  destruct (put_processing _ _ _ _ _ _ _) as [[[[m' n] ev']|x] s]; destruct Hp as [Has Hp].
  - intros [= <- <-]. exists g. split; [done|]. by eapply Hp.
  - destruct (settle_failure x (pt_sink s)) eqn:Es. intros [= <- <-] _. by eapply settle_failure_spec.
Qed.

(** C6: A streamed PUT that succeeds has published the transformation of what was
    verified, and nothing else: the body consisted of data frames; with a
    verifier, it accepted all of them, and the bytes it let through are the
    object; these bytes, within the limit of the source, were cut into their
    records, whatever frames they arrived in; the bytes of the records that
    the pipeline returned for them, and of those it returned at its end, are
    what the sink published.  The commit that published them came after the
    usage event of the grant, with exactly these two sizes and the pipeline's
    evidence, had been accepted by the journal (for a sink with a durable
    operation) and by the sink. *)
Theorem put_publishes_transformed w session v f limits grant evidence frames m nin nout ev w' :
  sink_holds [] w →
  streaming_put_into sha256_hex created_at w session v f limits grant evidence frames
    = (Ok (m, nin, nout, ev), w') →
  ∃ g, session = Ok g ∧ put_meaning limits f frames v g grant evidence m nin nout ev w'.
Proof. intros Hw E. by apply (streaming_put_spec _ _ _ _ _ _ _ _ _ _ Hw E). Qed.

(** C8: A streamed PUT that fails releases its reservation only if nothing was
    published: an error that is not marked to preserve the reservation leaves
    the sink without a published object, whatever failed (the transport, the
    verifier, the decoder, the pipeline, a write, the usage record, the commit
    itself, or the abort that followed). *)
Theorem failed_put_publishes_nothing w session v f limits grant evidence frames e w' :
  sink_holds [] w → s_commit_state w = PreCommit →
  streaming_put_into sha256_hex created_at w session v f limits grant evidence frames = (Err e, w') →
  put_preserves_reservation e = false → sink_unpublished w'.
Proof. intros Hw Hpre E. by apply (streaming_put_spec _ _ _ _ _ _ _ _ _ _ Hw E). Qed.

(** ** The Avro path *)

Lemma avro_collect_spec max chunks s s' :
  avro_collect max chunks s = Ok s' →
  s' = mkAvro (av_verifier s) (av_input s ++ concat chunks) (av_input_bytes s + Z.of_nat (length (concat chunks))).
Proof.
  revert s. induction chunks as [|c chunks IH]; intros s; cbn.
  { intros [= <-]. rewrite app_nil_r, Z.add_0_r. by destruct s. }
  unfold u64_checked_add, mbind, result_bind. destruct (_ <=? u64_max); cbn [ok_or]; [|done]. destruct (_ <? _); [done|].
  intros ->%IH. cbn. f_equal; [by rewrite app_assoc|rewrite length_app; lia].
Qed.

Lemma avro_frames_spec limits frames s s' :
  avro_frames limits frames s = Ok s' →
  ∃ pieces chunks, frames = DataFrame <$> pieces ∧ pushed (av_verifier s) pieces chunks (av_verifier s')
    ∧ av_input s' = av_input s ++ concat chunks
    ∧ av_input_bytes s' = av_input_bytes s + Z.of_nat (length (concat chunks)).
Proof.
  revert s. induction frames as [|f frames IH]; intros s; cbn [avro_frames].
  { intros [= <-]. exists [], []. cbn. rewrite app_nil_r. split; [done|].
    split; [destruct (av_verifier s); [by eexists|done]|]. split; [done|lia]. }
  destruct f as [data| | |]; [|done..]. destruct (_ <? _)%nat; [done|]. unfold avro_verifier_push.
  destruct (av_verifier s) as [b|] eqn:Ev.
  - destruct (body_push data b) as [[cs|e] b1] eqn:Eb; cbn; [|done]. unfold mbind at 1, result_bind at 1.
    destruct (avro_collect _ cs _) as [s1|] eqn:Ec; [|done]. apply avro_collect_spec in Ec as ->. cbn.
    intros (ps & chunks & -> & (b' & Hp & Ev') & Hi & Hn)%IH. cbn in Hp, Hi, Hn. exists (data :: ps), (cs ++ chunks).
    split; [done|]. rewrite concat_app, app_assoc, length_app. split; [|split; [done|lia]].
    exists b'. split; [|done]. cbn. unfold mbind, SE_bind. by rewrite Eb, Hp.
  - cbn -[avro_collect]. unfold mbind at 1, result_bind at 1.
    destruct (avro_collect _ [data] s) as [s1|] eqn:Ec; [|done]. apply avro_collect_spec in Ec as ->.
    intros (ps & chunks & -> & Hp & Hi & Hn)%IH. cbn in Hp, Hi, Hn. rewrite Ev in Hp. destruct Hp as [-> Ev'].
    exists (data :: ps), (data :: ps). cbn. rewrite app_nil_r in Hi, Hn. rewrite Hi, Hn, length_app, app_assoc.
    split; [done|]. split; [done|]. split; [done|lia].
Qed.

(** The Avro path keeps the same two promises: on success, what was published
    is the transformation of the verified body; on an error that releases the
    reservation, nothing was published. *)
Theorem avro_put_outcome process_ocf w v limits grant frames r w' :
  sink_holds [] w → s_commit_state w = PreCommit →
  avro_put_into sha256_hex created_at process_ocf w v limits grant frames = (r, w') →
  match r with
  | Ok (m, nin, nout) => ∃ pieces body output, frames = DataFrame <$> pieces ∧ verified_body v pieces body
      ∧ nin = Z.of_nat (length body) ∧ process_ocf body = Ok output ∧ nout = Z.of_nat (length output)
      ∧ sink_published output w'
  | Err e => put_preserves_reservation e = false → sink_unpublished w'
  end.
Proof.
  intros Hw Hpre. pose proof (holds_alive _ _ Hw) as Ha.
  unfold avro_put_into. unfold mbind at 1, result_bind at 1.
  destruct (avro_frames limits frames _) as [s|e] eqn:Ef.
  2:{ destruct (settle_failure e w) eqn:Es. intros [= <- <-]. by eapply settle_failure_spec. }
  destruct (avro_verified s) as [[]|e] eqn:Evd; cbn.
  2:{ destruct (settle_failure e w) eqn:Es. intros [= <- <-]. by eapply settle_failure_spec. }
  destruct (process_ocf (av_input s)) as [output|e] eqn:Eo; cbn.
  2:{ destruct (settle_failure (PutPipeline e) w) eqn:Es. intros [= <- <-]. by eapply settle_failure_spec. }
  apply avro_frames_spec in Ef as (pieces & chunks & -> & Hpu & Hi & Hn). cbn in Hpu, Hi, Hn.
  match goal with |- context [(?m ≫= ?k) w] => set (prog := m ≫= k) end.
  assert (Hc : wp prog (λ r w', sink_alive w' ∧ ∀ m, r = Ok m → sink_published output w' ∧ usage_before_commit (from_grant grant (av_input_bytes s) (Z.of_nat (length output))) output m w') w).
  { unfold prog. apply wp_bind. eapply wp_mono; [by apply write_law|]. intros [[]|e] w1 [Ha1 Hr1]; [|done].
    apply commit_output_spec. by apply Hr1. }
  unfold wp in Hc. destruct (prog w) as [[m|e] w1]; destruct Hc as [Ha1 Hpub].
  2:{ destruct (settle_failure (PutTransaction e) w1) eqn:Es. intros [= <- <-]. by eapply settle_failure_spec. }
  intros [= <- <-]. exists pieces, (concat chunks), output. rewrite Hi in Eo. split; [done|]. split.
  { unfold verified_body, pushed, avro_verified in *. destruct v as [b|]; [|by destruct Hpu as [-> _]].
    destruct Hpu as (b' & Hpush & Ev). rewrite Ev in Evd. exists chunks, b'. split_and!; [done|done|].
    destruct (body_finish b') as [n|]; [|done]. cbn in Evd. destruct (Z.eqb_spec n (av_input_bytes s)); [|done].
    f_equal. lia. }
  split; [lia|]. split; [done|]. split; [done|]. by eapply Hpub.
Qed.
End proofs.
