(* ===== verification/Completion.v ===== *)
(** * Multipart completion: [complete_staged_multipart] of [server.rs]

    The worker that holds a completion lease reads the selected parts back
    from the artifact store, checks each against its committed size and
    digests, sends the records through the pipeline into a sink and commits
    it, renewing and checking its lease before every step.  When it fails, the
    sink decides whether the usage reservation is kept.
    [complete_staged_avro_multipart] is the same for Avro, with an error path
    of its own.

    The repository and the artifact store are the state [T]; [fence] is
    [renew_and_fence_completion] on the repository as other requests leave it
    ([Staging.v] models it and shows that a lost lease is refused).  The
    reader of an encrypted artifact yields a list of chunks or errors. *)

From S2P Require Import Prelude Staging Operation RustStr Integrity Format RecordDecoder RecordProofs SinkApi StreamingPut.

#[local] Open Scope Z_scope.
Set Default Goal Selector "!".

Inductive MultipartCompletionError : Type :=
| McStaging (e : StagingError)
| McStreaming (e : StreamingPutError)
| McInvalid (m : string)
| McPreserveReservation (e : MultipartCompletionError).

Definition mc_preserves_reservation (e : MultipartCompletionError) : bool :=
  match e with McPreserveReservation _ => true | _ => false end.

Definition into_cause (e : MultipartCompletionError) : MultipartCompletionError :=
  match e with McPreserveReservation e => e | e => e end.

(** [StagingArtifactStore::get] and [EncryptedPartReader]: the stored body,
    then what the calls of [next_chunk] return until the end. *)
Class ArtifactReader (T : Type) := {
  ar_body : Type;
  ar_get : string → SE T StagingError ar_body;
  ar_open : ar_body → MultipartPart → SE T StagingError (list (result StagingError (list byte)));
}.

Definition multipart_completion_event (grant : AuthorizationGrant) (result : MultipartCompletionResult) : UsageEvent :=
  let event := from_grant grant (cr_source_bytes result) (cr_size_bytes result) in
  match cr_pipeline_evidence result with
  | Some evidence => with_pipeline_evidence event evidence
  | None => event
  end.

Section completion.
  Context {W G T : Type} `{ObjectSinkTransaction W, GatewayJournal W, Pipeline G, UsageEncoding, Crypto, Parsers}.
  Context `{ArtifactReader T}.
  Context (sha256_hex md5_etag : list byte → string) (created_at : Z).
  Context (fence : SE T StagingError unit) (finish_upload : MultipartCompletionResult → SE T StagingError unit).
  Abbreviation CState := (PutState W G * T)%type.
  Abbreviation C := (SE CState MultipartCompletionError).

Definition on_staging {A} (m : SE T StagingError A) : C A := λ '(s, t),
  let (r, t) := m t in (map_err McStaging r, (s, t)).
Definition on_put_with {A} (f : StreamingPutError → MultipartCompletionError)
    (m : SE (PutState W G) StreamingPutError A) : C A := λ '(s, t),
  let (r, s) := m s in (map_err f r, (s, t)).
Definition on_put {A} (m : SE (PutState W G) StreamingPutError A) : C A := on_put_with McStreaming m.

(** ** [write_completed_record] *)

Definition output_error (e : StreamingPutError) : MultipartCompletionError :=
  match e with InputTooLarge => McInvalid "output is too large" | e => McStreaming e end.

Definition write_completed_chunk (chunk : list byte) : C unit :=
  if bool_decide (chunk = []) then mret tt
  else _ ← on_staging fence; on_put_with output_error (write_output chunk).

Definition write_completed_record (record : RecordT) : C unit :=
  _ ← write_completed_chunk (payload record); write_completed_chunk (separator record).

Fixpoint write_completed_records (records : list RecordT) : C unit :=
  match records with
  | [] => mret tt
  | record :: records => _ ← write_completed_record record; write_completed_records records
  end.

(** ** [processing] *)

Fixpoint complete_records (fuel : nat) : C unit :=
  match fuel with
  | O => mret tt
  | S fuel =>
    record ← on_put (on_decoder next_record);
    match record with
    | None => mret tt
    | Some record =>
      processed ← on_put (on_pipeline (pl_process record));
      _ ← (match processed with Some record => write_completed_record record | None => mret tt end);
      complete_records fuel
    end
  end.
Definition complete_ready_records : C unit :=
  s ← se_get; complete_records (records_fuel (pt_decoder s.1)).

(** The loop over [next_chunk]; [seen] is what the digests have been fed. *)
Fixpoint complete_chunks (max_bytes : Z) (part : MultipartPart) (seen : list byte)
    (items : list (result StagingError (list byte))) : C (list byte) :=
  _ ← on_staging fence;
  match items with
  | [] => mret seen
  | item :: items =>
    chunk ← se_lift (map_err McStaging item);
    part_bytes ← se_lift (ok_or (u64_checked_add (Z.of_nat (length seen)) (Z.of_nat (length chunk)))
                            (McInvalid "multipart part is too large"));
    s ← se_get;
    input_bytes ← se_lift (ok_or (u64_checked_add (pt_input_bytes s.1) (Z.of_nat (length chunk)))
                             (McInvalid "multipart input is too large"));
    _ ← on_put (se_modify (set_input_bytes input_bytes));
    if (mp_size_bytes part <? part_bytes) || (max_bytes <? input_bytes)
    then se_throw (McInvalid "multipart input exceeds its limit")
    else
      _ ← on_put (on_decoder (RecordDecoder.push chunk));
      _ ← complete_ready_records;
      complete_chunks max_bytes part (seen ++ chunk) items
  end.

(** The comparison of a part with what was committed for it. *)
Definition part_matches (part : MultipartPart) (body : list byte) : bool :=
  (Z.of_nat (length body) =? mp_size_bytes part) && bool_decide (sha256_hex body = mp_checksum_sha256 part)
  && bool_decide (md5_etag body = mp_etag part).

Definition complete_part (max_bytes : Z) (part : MultipartPart) : C unit :=
  _ ← on_staging fence;
  body ← on_staging (ar_get (mp_artifact_key part));
  _ ← on_staging fence;
  items ← on_staging (ar_open body part);
  seen ← complete_chunks max_bytes part [] items;
  if negb (part_matches part seen)
  then se_throw (McInvalid "staged multipart artifact does not match its committed part")
  else
    _ ← on_put (on_decoder end_of_segment);
    complete_ready_records.

Fixpoint complete_parts (max_bytes : Z) (parts : list MultipartPart) : C unit :=
  match parts with
  | [] => mret tt
  | part :: parts => _ ← complete_part max_bytes part; complete_parts max_bytes parts
  end.

(** After the last part; the fuel the pipeline used. *)
Definition complete_input : C Z :=
  _ ← on_put (on_decoder RecordDecoder.finish);
  _ ← complete_ready_records;
  finished ← on_put (on_pipeline pl_finish);
  _ ← write_completed_records finished.1;
  mret finished.2.

Definition on_journal (event : UsageEvent) : SE W TransactionError unit := λ w,
  let (r, w) := persist_transaction_usage_evidence created_at (s_durable_operation_id w) event w in
  (map_err TJournal r, w).

(** The commit works on the sink and the repository alone. *)
Definition on_repo {A} (m : SE T StagingError A) : SE (W * T) MultipartCompletionError A := λ '(w, t),
  let (r, t) := m t in (map_err McStaging r, (w, t)).
Definition on_tx {A} (m : SE W TransactionError A) : SE (W * T) MultipartCompletionError A := λ '(w, t),
  let (r, w) := m w in (map_err (λ e, McStreaming (PutTransaction e)) r, (w, t)).
Definition on_commit {A} (m : SE (W * T) MultipartCompletionError A) : C A := λ '(s, t),
  let '(r, (w, t)) := m (pt_sink s, t) in (r, (set_put_sink w s, t)).

(** From [verify_output] to [complete_completion]; [result] without what the
    sink reports, and with it. *)
Definition commit_completion (grant : AuthorizationGrant) (evidence : option PipelineEvidence)
    (source_bytes size_bytes : Z) (checksum : string)
    : SE (W * T) MultipartCompletionError MultipartCompletionResult :=
  let result etag version := mkCompletionResult etag checksum version source_bytes size_bytes evidence in
  let event := multipart_completion_event grant (result None None) in
  _ ← on_tx (s_verify_output size_bytes checksum);
  _ ← on_repo fence;
  _ ← on_tx (on_journal event);
  _ ← on_tx (s_record_usage_evidence event);
  _ ← on_repo fence;
  stored ← on_tx s_complete;
  let result := result (etag stored) (version_id stored) in
  _ ← on_repo fence;
  _ ← on_repo (finish_upload result);
  mret result.

Definition completion_processing (max_bytes : Z) (grant : AuthorizationGrant)
    (evidence : Z → option PipelineEvidence) (parts : list MultipartPart) : C MultipartCompletionResult :=
  _ ← complete_parts max_bytes parts;
  pipeline_fuel ← complete_input;
  _ ← on_staging fence;
  s ← se_get;
  on_commit (commit_completion grant (evidence pipeline_fuel) (pt_input_bytes s.1) (pt_output_bytes s.1)
               (sha256_hex (pt_hashed s.1))).

(** The failure path: the sink is aborted only if it has published nothing
    and the lease is still held; then the sink is asked again whether the
    reservation is to be kept. *)
Definition settle_completion (error : MultipartCompletionError) (w : W) (t : T) : MultipartCompletionError * W :=
  let w := if negb (preserves_reservation (s_commit_state w)) && is_ok (fence t).1 then (s_abort w).2 else w in
  (if preserves_reservation (s_commit_state w) then McPreserveReservation error else error, w).

(** [complete_staged_multipart] from the open sink, the started session and
    the decoder on. *)
Definition complete_into (w : W) (t : T) (decoder : Decoder) (pipeline : G) (max_bytes : Z)
    (grant : AuthorizationGrant) (evidence : Z → option PipelineEvidence) (parts : list MultipartPart)
    : result MultipartCompletionError MultipartCompletionResult * W :=
  match completion_processing max_bytes grant evidence parts (mkPut None decoder pipeline 0 0 [] w, t) with
  | (Ok result, (s, _)) => (Ok result, pt_sink s)
  | (Err error, (s, t)) => let (error, w) := settle_completion error (pt_sink s) t in (Err error, w)
  end.

(** ** [complete_staged_avro_multipart], from the open sink on *)

(** The loop over [next_chunk] of one part, after [input]. *)
Fixpoint avro_part_chunks (max_source_bytes : Z) (part : MultipartPart) (input seen : list byte)
    (items : list (result StagingError (list byte))) : SE T MultipartCompletionError (list byte * list byte) := λ t,
  match fence t with
  | (Err e, t) => (Err (McStaging e), t)
  | (Ok _, t) =>
    match items with
    | [] => (Ok (input, seen), t)
    | Err e :: _ => (Err (McStaging e), t)
    | Ok chunk :: items =>
      match u64_checked_add (Z.of_nat (length seen)) (Z.of_nat (length chunk)),
            u64_checked_add (Z.of_nat (length input)) (Z.of_nat (length chunk)) with
      | None, _ => (Err (McInvalid "multipart part is too large"), t)
      | _, None => (Err (McInvalid "multipart input is too large"), t)
      | Some part_bytes, Some input_bytes =>
        if (mp_size_bytes part <? part_bytes) || (max_source_bytes <? input_bytes)
        then (Err (McInvalid "multipart input exceeds its limit"), t)
        else avro_part_chunks max_source_bytes part (input ++ chunk) (seen ++ chunk) items t
      end
    end
  end.

Definition on_parts {A} (m : SE T StagingError A) : SE T MultipartCompletionError A := λ t,
  let (r, t) := m t in (map_err McStaging r, t).

Fixpoint avro_parts (max_source_bytes : Z) (input : list byte) (parts : list MultipartPart)
    : SE T MultipartCompletionError (list byte) :=
  match parts with
  | [] => mret input
  | part :: parts =>
    _ ← on_parts fence;
    body ← on_parts (ar_get (mp_artifact_key part));
    _ ← on_parts fence;
    items ← on_parts (ar_open body part);
    read ← avro_part_chunks max_source_bytes part input [] items;
    if negb (part_matches part read.2)
    then se_throw (McInvalid "staged multipart artifact does not match its committed part")
    else avro_parts max_source_bytes read.1 parts
  end.

(** The renewals while the worker decodes. *)
Fixpoint renewals (n : nat) : SE T MultipartCompletionError unit :=
  match n with O => mret tt | S n => _ ← on_parts fence; renewals n end.

(** [process_ocf] is the codec with the pump, [sleeps] how often its worker
    outlasts a third of the lease.  Whatever fails before the [async] block
    returns at once; the sink is dropped. *)
Definition avro_output (process_ocf : list byte → result S4Error (list byte)) (sleeps : nat) (max_bytes : Z)
    (parts : list MultipartPart) : SE T MultipartCompletionError (list byte * list byte) :=
  _ ← on_parts fence;
  input ← avro_parts (Z.min max_bytes (64 * 1024 * 1024)) [] parts;
  _ ← renewals sleeps;
  output ← se_lift (map_err (λ e, McStreaming (PutPipeline e)) (process_ocf input));
  mret (input, output).

Definition avro_complete_into (process_ocf : list byte → result S4Error (list byte)) (sleeps : nat) (w : W) (t : T)
    (max_bytes : Z) (grant : AuthorizationGrant) (parts : list MultipartPart)
    : result MultipartCompletionError MultipartCompletionResult * W :=
  match avro_output process_ocf sleeps max_bytes parts t with
  | (Err e, _) => (Err e, w)
  | (Ok (input, output), t) =>
    match (_ ← on_repo fence;
           _ ← on_tx (s_write output);
           commit_completion grant None (Z.of_nat (length input)) (Z.of_nat (length output)) (sha256_hex output))
            (w, t) with
    | (Ok result, (w, _)) => (Ok result, w)
    | (Err error, (w, t)) => (Err error, if is_ok (fence t).1 then (s_abort w).2 else w)
    end
  end.
End completion.

(** ** The decoder over several pieces of an object *)

Section consumed.
  Context `{Parsers}.

(** [d'] has taken in [body] after [d] and handed out [rs]. *)
Definition consumed (body : list byte) (rs : list RecordT) (d d' : Decoder) : Prop :=
  open_decoder d' ∧ ready d' = None ∧ format d' = format d
  ∧ input_seen d' = input_seen d || negb (bool_decide (body = []))
  ∧ ∀ future, records (format d) (pending d ++ body ++ future) = rs ++ records (format d) (pending d' ++ future).

Lemma consumed_trans b1 b2 rs1 rs2 d d1 d2 :
  consumed b1 rs1 d d1 → consumed b2 rs2 d1 d2 → consumed (b1 ++ b2) (rs1 ++ rs2) d d2.
Proof.
  intros (_ & _ & Hf1 & Hs1 & Hr1) (Ho & Hn & Hf2 & Hs2 & Hr2). split; [done|]. split; [done|]. split; [congruence|]. split.
  - rewrite Hs2, Hs1, <- orb_assoc. f_equal. by destruct b1.
  - intros future. rewrite <- !app_assoc, Hr1, <- Hf1, Hr2. by rewrite app_assoc.
Qed.

Lemma consumed_drain d rs d' :
  open_decoder d → ready d = None → drain accept_all d = (Ok rs, d') → consumed [] rs d d'.
Proof.
  intros (Hi & Hc & Hf) Hr Hd. apply drain_spec in Hd as (Hf' & _ & Hfin & Hr' & Hi' & _ & Ho & _); [|done].
  destruct (Ho Hf) as (Hc' & Hs' & _ & Hrec). rewrite Hr in Hrec. split; [split_and!; congruence|]. split; [done|].
  split; [done|]. split; [by rewrite Hs', orb_false_r|]. intros future. apply Hrec.
Qed.

Lemma consumed_push c d d1 rs d2 :
  open_decoder d → RecordDecoder.push c d = (Ok tt, d1) → drain accept_all d1 = (Ok rs, d2) → consumed c rs d d2.
Proof.
  intros (Hi & Hc & Hf) Hp Hd.
  apply push_spec in Hp as (Hf1 & _ & Hfin1 & Hi1 & Hc1 & _ & _ & Hs1 & Hrec1); [|done|done].
  apply drain_spec in Hd as (Hf2 & _ & Hfin2 & Hr2 & Hi2 & _ & Ho2 & _); [|done].
  destruct (Ho2 Hfin1) as (Hc2 & Hs2 & _ & Hrec2). split; [split_and!; congruence|]. split; [done|]. split; [congruence|].
  split; [by rewrite Hs2, Hs1|]. intros future. rewrite Hrec1, <- Hf1. apply Hrec2.
Qed.

Lemma consumed_open chunks d rs d' :
  open_decoder d → ready d = None → decode_open chunks d = (Ok rs, d') → consumed (concat chunks) rs d d'.
Proof.
  revert d rs. induction chunks as [|c chunks IH]; intros d rs Ho Hr; cbn; unfold mbind, SE_bind, mret, SE_ret.
  { intros [= <- <-]. split; [done|]. split; [done|]. split; [done|]. split; [by rewrite orb_false_r|done]. }
  destruct (RecordDecoder.push c d) as [[[]|e] d1] eqn:Ep; [|done]. destruct (drain accept_all d1) as [[rs1|e] d2] eqn:Ed; [|done].
  destruct (decode_open chunks d2) as [[rs2|e] d3] eqn:Er; [|done]. intros [= <- <-].
  pose proof (consumed_push _ _ _ _ _ Ho Ep Ed) as Hc. eapply consumed_trans; [exact Hc|].
  destruct Hc as (Ho2 & Hr2 & _). by apply IH.
Qed.

(** A new decoder that has taken in the whole object and is finished has
    handed out its records. *)
Lemma consumed_finish f l d0 body rs1 d d1 rs2 d2 :
  decoder_new f l = Ok d0 → consumed body rs1 d0 d → RecordDecoder.finish d = (Ok tt, d1) →
  drain accept_all d1 = (Ok rs2, d2) → rs1 ++ rs2 = all_records f body.
Proof.
  intros Hnew ((Hi & Hc & Hf) & Hr & Hfm & Hs & Hrec) Hfin Hd. unfold decoder_new in Hnew. case_match; [done|].
  injection Hnew as <-. cbn in *.
  apply finish_spec in Hfin as (_ & _ & _ & Hfin1 & Hi1 & Htail); [|done|done].
  apply drain_spec in Hd as (_ & _ & _ & _ & _ & _ & _ & Hcl); [|done]. rewrite <- (Hcl Hfin1), <- Htail.
  specialize (Hrec []). rewrite !app_nil_r in Hrec. unfold tail_records. rewrite Hc, Hs, Hfm.
  assert (Hpend : body = [] → pending d = []).
  { intros ->. destruct Hi as (H1' & _ & _). destruct (H1' Hc) as [_ Hseen]. rewrite Hs in Hseen.
    destruct (decide (pending d = [])) as [|n]; [done|]. by specialize (Hseen n). }
  destruct (decide (body = [])) as [->|Hne].
  - rewrite Hpend in * by done. rewrite records_nil in Hrec. cbn. rewrite records_nil in *.
    destruct rs1; [|done]. cbn. destruct f; repeat (case_bool_decide || cbn); naive_solver.
  - rewrite (bool_decide_eq_false_2 (body = [])) by done. cbn. rewrite andb_false_r. cbn. rewrite <- Hrec.
    destruct f; cbn; try done; by rewrite bool_decide_eq_false_2.
Qed.

(** *** JSON, cut at the ends of segments *)

Definition json_complete (l : list byte) : bool := match json_from_slice l with JsonOk => true | JsonErr _ _ => false end.

(** The documents of a sequence of segments: what is buffered at the end of a
    segment is a document if it parses; otherwise it goes on in the next one. *)
Fixpoint json_documents (buffered : list byte) (segments : list (list byte)) : list RecordT :=
  match segments with
  | [] => remainder buffered
  | segment :: segments =>
    let buffered := buffered ++ segment in
    if negb (bool_decide (buffered = [])) && json_complete buffered
    then mkRecord buffered [] :: json_documents [] segments
    else json_documents buffered segments
  end.

(** The records of an object that arrives in segments: only JSON looks at
    where they end. *)
Definition segment_records (f : Format) (segments : list (list byte)) : list RecordT :=
  match f with Json => json_documents [] segments | _ => all_records f (concat segments) end.

Lemma segment_records_joined f segments : f ≠ Json → segment_records f segments = all_records f (concat segments).
Proof. by destruct f. Qed.

(** A JSON decoder keeps what it is given. *)
Lemma consumed_json body rs d d' :
  format d = Json → consumed body rs d d' → rs = [] ∧ pending d' = pending d ++ body.
Proof.
  intros Hf (_ & _ & _ & _ & Hrec). specialize (Hrec [x00]). rewrite Hf in Hrec. cbn in Hrec. unfold remainder in Hrec.
  rewrite (bool_decide_eq_false_2 (pending d ++ _ = [])) in Hrec by (by destruct (pending d), body).
  rewrite (bool_decide_eq_false_2 (pending d' ++ _ = [])) in Hrec by (by destruct (pending d')).
  destruct rs as [|r rs]; [|by destruct rs]. cbn in Hrec. injection Hrec as Hrec. split; [done|].
  rewrite app_assoc in Hrec. by apply app_inj_tail in Hrec as [-> _].
Qed.

(** The ends of a segment. *)
Lemma end_of_segment_spec d d' :
  open_decoder d → ready d = None → end_of_segment d = (Ok tt, d') →
  (d' = d ∧ (format d = Json → negb (bool_decide (pending d = [])) && json_complete (pending d) = false))
  ∨ (format d = Json ∧ negb (bool_decide (pending d = [])) && json_complete (pending d) = true
     ∧ ∃ d1, next_record d' = (Ok (Some (mkRecord (pending d) [])), d1) ∧ open_decoder d1 ∧ ready d1 = None
         ∧ format d1 = Json ∧ pending d1 = [] ∧ (3 < records_fuel d')%nat).
Proof.
  intros (Hi & Hc & Hf) Hr. unfold end_of_segment, json_complete. rewrite Hr, (bool_decide_eq_true_2 (None = None)) by done.
  cbn [negb]. rewrite orb_false_r. case_bool_decide as Hj; cbn [negb orb]; [|intros [= <-]; by left].
  case_bool_decide as Hp; [intros [= <-]; by left|]. destruct (json_from_slice (pending d)) as [|[] m].
  - intros [= <-]. right. split; [done|]. split; [done|]. eexists. split; [reflexivity|]. cbn. split.
    + split; [|done]. unfold dec_inv. cbn. rewrite Hc. split; [|done]. intros _. unfold scanned. cbn. by rewrite Hj.
    + split_and!; try done. unfold records_fuel. lia.
  - intros [= <-]. by left.
  - done.
Qed.

(** The end of the last segment. *)
Lemma json_finish d d1 rs d2 :
  open_decoder d → format d = Json → RecordDecoder.finish d = (Ok tt, d1) → drain accept_all d1 = (Ok rs, d2) →
  rs = remainder (pending d).
Proof.
  intros (Hi & Hc & Hf) Hj Hfin Hd. apply finish_spec in Hfin as (_ & _ & _ & Hfin1 & Hi1 & Htail); [|done|done].
  apply drain_spec in Hd as (_ & _ & _ & _ & _ & _ & _ & Hcl); [|done]. rewrite <- (Hcl Hfin1), <- Htail.
  unfold tail_records. rewrite Hc, Hj, (bool_decide_eq_false_2 (Json ≠ Csv ∧ Json ≠ Json)) by naive_solver.
  by rewrite andb_false_r.
Qed.
End consumed.

(** ** Proofs *)

Section proofs.
  Context {W G T : Type} (sha256_hex md5_etag : list byte → string) `{SinkLaws W sha256_hex}.
  Context `{Pipeline G, UsageEncoding, Crypto, Parsers, ArtifactReader T} (created_at : Z).
  Context (fence : SE T StagingError unit) (finish_upload : MultipartCompletionResult → SE T StagingError unit).
  Abbreviation PutState := (PutState W G).
  Abbreviation CState := (PutState * T)%type.
  Abbreviation C := (SE CState MultipartCompletionError).
  Abbreviation tracks := (tracks sha256_hex).

(** *** A failure leaves the sink in a state of its own

    While every write was accepted, a step keeps the sink's account of the
    output, or fails with the sink alive. *)
Definition safe {A} (m : C A) : Prop := ∀ data s t, tracks data s →
  wp m (λ r st, sink_alive (pt_sink st.1) ∧ ∀ a, r = Ok a → ∃ data', tracks data' st.1) (s, t).

Lemma safe_bind {A B} (m : C A) (k : A → C B) : safe m → (∀ a, safe (k a)) → safe (m ≫= k).
Proof.
  intros Hm Hk data s t Ht. apply wp_bind. eapply wp_mono; [by apply (Hm data)|].
  intros [a|e] [s1 t1] [Ha Hr]; [|done]. destruct (Hr a eq_refl) as [data1 Ht1]. by apply (Hk a data1).
Qed.
Lemma safe_ret {A} (a : A) : safe (mret a).
Proof. intros data s t Ht. split; [by eapply tracks_alive|]. intros _ _. by exists data. Qed.
Lemma safe_throw {A} e : safe (se_throw e : C A).
Proof. intros data s t Ht. split; [by eapply tracks_alive|done]. Qed.
Lemma safe_lift {A} (r : result MultipartCompletionError A) : safe (se_lift r).
Proof. intros data s t Ht. split; [by eapply tracks_alive|]. intros _ _. by exists data. Qed.
Lemma safe_get : safe se_get.
Proof. intros data s t Ht. split; [by eapply tracks_alive|]. intros _ _. by exists data. Qed.
Lemma safe_staging {A} (m : SE T StagingError A) : safe (on_staging m).
Proof.
  intros data s t Ht. unfold wp, on_staging. destruct (m t). split; [by eapply tracks_alive|]. intros _ _. by exists data.
Qed.

(** A step of the request that leaves the output alone. *)
Lemma safe_input {A} f (m : SE PutState StreamingPutError A) :
  (∀ s, pt_sink (m s).2 = pt_sink s ∧ pt_hashed (m s).2 = pt_hashed s ∧ pt_output_bytes (m s).2 = pt_output_bytes s) →
  safe (on_put_with f m).
Proof.
  intros Hm data s t Ht. unfold wp, on_put_with. specialize (Hm s). destruct (m s) as [r s']. cbn in *.
  destruct Hm as (E1 & E2 & E3). assert (Ht' : tracks data s') by (unfold tracks; by rewrite E1, E2, E3).
  split; [by eapply tracks_alive|]. intros _ _. by exists data.
Qed.
Lemma safe_decoder {A} f (m : SE Decoder S4Error A) : safe (on_put_with f (on_decoder m)).
Proof. apply safe_input. intros s. unfold on_decoder. by destruct (m (pt_decoder s)). Qed.
Lemma safe_pipeline {A} f (m : SE G S4Error A) : safe (on_put_with f (on_pipeline m)).
Proof. apply safe_input. intros s. unfold on_pipeline. by destruct (m (pt_pipeline s)). Qed.
Lemma safe_write_output f chunk : safe (on_put_with f (write_output chunk)).
Proof.
  intros data s t Ht. unfold wp, on_put_with. pose proof (write_output_spec sha256_hex chunk data s Ht) as Hw. unfold wp in Hw.
  destruct (write_output chunk s) as [[[]|e] s']; destruct Hw as (Ha & _ & Hr); (split; [done|]); [|by intros ? [=]].
  intros _ _. eexists. by apply Hr.
Qed.
Lemma safe_on_sink {A} f (m : SE W TransactionError A) :
  (∀ data w, sink_holds data w → wp m (λ r w', sink_alive w' ∧ ∀ a, r = Ok a → sink_holds data w') w) →
  safe (on_put_with f (on_sink m)).
Proof.
  intros Hm data s t (Hh & Hd & Ho). unfold wp, on_put_with, on_sink. specialize (Hm data (pt_sink s) Hh). unfold wp in Hm.
  destruct (m (pt_sink s)) as [[a|e] w]; destruct Hm as [Ha Hr]; (split; [done|]); [|by intros ? [=]].
  intros _ _. exists data. split; [by eapply Hr|done].
Qed.

Create HintDb safe.
#[local] Hint Resolve safe_ret safe_throw safe_lift safe_get safe_staging safe_decoder safe_pipeline safe_write_output : safe.
Ltac safe := repeat first [ apply safe_bind; [|intros ?] | solve [eauto 3 with safe] | progress case_match ].

Lemma safe_chunk chunk : safe (write_completed_chunk fence chunk).
Proof. unfold write_completed_chunk. safe. Qed.
#[local] Hint Resolve safe_chunk : safe.
Lemma safe_record record : safe (write_completed_record fence record).
Proof. unfold write_completed_record. safe. Qed.
#[local] Hint Resolve safe_record : safe.
Lemma safe_written records : safe (write_completed_records fence records).
Proof. induction records; cbn; safe. Qed.
Lemma safe_records fuel : safe (complete_records fence fuel).
Proof. unfold on_put. induction fuel; cbn [complete_records]; unfold on_put; safe. Qed.
#[local] Hint Resolve safe_written safe_records : safe.
Lemma safe_ready : safe (complete_ready_records fence).
Proof. unfold complete_ready_records. safe. Qed.
#[local] Hint Resolve safe_ready : safe.
Lemma safe_set_input n : safe (on_put (se_modify (set_input_bytes n))).
Proof. by apply safe_input. Qed.
#[local] Hint Resolve safe_set_input : safe.
Lemma safe_chunks max part seen items : safe (complete_chunks fence max part seen items).
Proof.
  revert seen. induction items as [|item items IH]; intros seen; cbn [complete_chunks]; unfold on_put; safe.
Qed.
#[local] Hint Resolve safe_chunks : safe.
Lemma safe_parts max parts : safe (complete_parts sha256_hex md5_etag fence max parts).
Proof. induction parts; cbn [complete_parts]; unfold complete_part, on_put; safe. Qed.
Lemma safe_complete_input : safe (complete_input fence).
Proof. unfold complete_input, on_put. safe. Qed.
#[local] Hint Resolve safe_parts safe_complete_input : safe.

Lemma journal_holds event data w :
  sink_holds data w → wp (on_journal created_at event) (λ r w', sink_alive w' ∧ ∀ a, r = Ok a → sink_holds data w') w.
Proof.
  intros Hh. pose proof (persist_law created_at (s_durable_operation_id w) event data w Hh) as Hp. unfold wp, on_journal in *.
  destruct (persist_transaction_usage_evidence _ _ _ _). split; [by eapply holds_alive|done].
Qed.

(** The commit: alive when it fails, published when it succeeds. *)
Lemma commit_completion_spec grant evidence n size sha data w t :
  sink_holds data w →
  wp (commit_completion created_at fence finish_upload grant evidence n size sha) (λ r wt,
    sink_alive wt.1 ∧ ∀ x, r = Ok x → sink_published data wt.1 ∧ cr_source_bytes x = n
      ∧ cr_size_bytes x = size ∧ cr_checksum_sha256 x = sha) (w, t).
Proof.
  intros Hh. unfold commit_completion, wp at 1, mbind, SE_bind, on_repo, on_tx.
  pose proof (verify_law data size sha w Hh) as Hv. unfold wp in Hv.
  destruct (s_verify_output size sha w) as [[[]|e] w1]; destruct Hv as [Ha1 Hr1]; cbn; [|done].
  destruct (Hr1 eq_refl) as [Hh1 _]. destruct (fence t) as [[[]|e] t2]; cbn; [|done].
  set (event := multipart_completion_event _ _).
  pose proof (journal_holds event data w1 Hh1) as Hj. unfold wp in Hj.
  destruct (on_journal created_at event w1) as [[[]|e] w2]; destruct Hj as [Ha2 Hr2]; cbn; [|done].
  pose proof (usage_law data event w2 (Hr2 tt eq_refl)) as Hu. unfold wp in Hu.
  destruct (s_record_usage_evidence event w2) as [[[]|e] w3]; destruct Hu as [Ha3 Hr3]; cbn; [|done].
  destruct (fence t2) as [[[]|e] t3]; cbn; [|done].
  pose proof (complete_law data w3 (Hr3 eq_refl)) as Hc. unfold wp in Hc.
  destruct (s_complete w3) as [[m|e] w4]; destruct Hc as [Ha4 Hr4]; cbn; [|done].
  destruct (fence t3) as [[[]|e] t4]; cbn; [|done]. destruct (finish_upload _ t4) as [[[]|e] t5]; cbn; [|done].
  split; [done|]. intros x [= <-]. split; [by eapply Hr4|done].
Qed.

Lemma processing_alive max grant evidence parts data (s : PutState) t :
  tracks data s →
  wp (completion_processing sha256_hex md5_etag created_at fence finish_upload max grant evidence parts)
    (λ _ st, sink_alive (pt_sink st.1)) (s, t).
Proof.
  intros Ht. unfold completion_processing. apply wp_bind. eapply wp_mono; [by apply (safe_parts max parts data)|].
  intros [[]|e] [s1 t1] [Ha1 Hr1]; [|done]. destruct (Hr1 tt eq_refl) as [d1 Ht1]. cbn in Ht1.
  apply wp_bind. eapply wp_mono; [by apply (safe_complete_input d1)|].
  intros [fuel|e] [s2 t2] [Ha2 Hr2]; [|done]. destruct (Hr2 fuel eq_refl) as [d2 Ht2]. cbn in Ht2.
  unfold wp at 1, mbind, SE_bind, se_get, on_staging. destruct (fence t2) as [[[]|e] t3]; cbn; [|done].
  match goal with |- context [commit_completion created_at fence finish_upload ?a ?b ?c ?d ?e] =>
    pose proof (commit_completion_spec a b c d e _ (pt_sink s2) t3 (proj1 Ht2)) as Hco end. unfold wp in Hco.
  destruct (commit_completion _ _ _ _ _ _ _ _ _) as [r [w3 t4]]. by destruct Hco.
Qed.

(** C14: A completion of an object that is not Avro, when it fails, releases the
    usage reservation only if nothing was published: when its error is not marked to preserve the reservation,
    the sink has not published the object, whether the lease was lost, a part
    did not match, the pipeline or the commit failed, and whether or not the
    worker was still allowed to abort. *)
Theorem failed_completion_publishes_nothing w t d g max grant evidence parts e w' :
  sink_holds [] w →
  complete_into sha256_hex md5_etag created_at fence finish_upload w t d g max grant evidence parts = (Err e, w') →
  mc_preserves_reservation e = false → sink_unpublished w'.
Proof.
  intros Hw. unfold complete_into. set (s0 := mkPut None d g 0 0 [] w). assert (Ht0 : tracks [] s0) by done.
  pose proof (processing_alive max grant evidence parts [] s0 t Ht0) as Ha. unfold wp in Ha.
  destruct (completion_processing _ _ _ _ _ _ _ _ _ _) as [[x|e'] [s t']]; [done|]. cbn in Ha.
  unfold settle_completion. destruct (s_commit_state (pt_sink s)) eqn:Es; cbn [preserves_reservation negb andb].
  - destruct (is_ok (fence t').1).
    + pose proof (abort_law _ Ha Es) as Hab. unfold wp in Hab. destruct (s_abort (pt_sink s)) as [r w1]. cbn.
      intros [= <- <-] _. done.
    + rewrite Es. cbn. intros [= <- <-] _. by apply precommit_unpublished.
  - rewrite Es. by intros [= <- <-].
  - rewrite Es. by intros [= <- <-].
Qed.

(** *** A success does what the steps without the fences do *)

Definition sim {A} (m : C A) (p : SE PutState StreamingPutError A) : Prop :=
  ∀ s t a s' t', m (s, t) = (Ok a, (s', t')) → p s = (Ok a, s').

Lemma sim_bind {A B} (m : C A) p (k : A → C B) q : sim m p → (∀ a, sim (k a) (q a)) → sim (m ≫= k) (p ≫= q).
Proof.
  intros Hm Hk s t b s' t'. unfold mbind, SE_bind. destruct (m (s, t)) as [[a|e] [s1 t1]] eqn:Em; [|done].
  rewrite (Hm _ _ _ _ _ Em). apply Hk.
Qed.
Lemma sim_skip {A B} (m : SE T StagingError A) (k : A → C B) p : (∀ a, sim (k a) p) → sim (on_staging m ≫= k) p.
Proof.
  intros Hk s t b s' t'. unfold mbind, SE_bind, on_staging. destruct (m t) as [[a|e] t1]; [|done]. apply Hk.
Qed.
Lemma sim_ret {A} (a : A) : sim (mret a) (mret a).
Proof. by intros s t x s' t' [= <- <- <-]. Qed.
Lemma sim_put {A} f (m : SE PutState StreamingPutError A) : sim (on_put_with f m) m.
Proof. intros s t a s' t'. unfold on_put_with. by destruct (m s) as [[x|e] s1]; intros [= <- <- <-]. Qed.

Lemma sim_chunk chunk : sim (write_completed_chunk fence chunk) (write_output chunk).
Proof.
  unfold write_completed_chunk. case_bool_decide as Hc; [by subst chunk; apply sim_ret|].
  apply sim_skip. intros []. apply sim_put.
Qed.
Lemma sim_record record : sim (write_completed_record fence record) (write_stream_record record).
Proof. apply sim_bind; [apply sim_chunk|]. intros []. apply sim_chunk. Qed.
Lemma sim_written records : sim (write_completed_records fence records) (write_records records).
Proof. induction records; cbn; [apply sim_ret|]. apply sim_bind; [apply sim_record|done]. Qed.
Lemma sim_records fuel : sim (complete_records fence fuel) (put_records fuel).
Proof.
  induction fuel; cbn; [apply sim_ret|]. apply sim_bind; [apply sim_put|]. intros [r|]; [|apply sim_ret].
  apply sim_bind; [apply sim_put|]. intros o. apply sim_bind; [|done]. destruct o; [apply sim_record|apply sim_ret].
Qed.
Lemma sim_ready : sim (complete_ready_records fence) put_ready_records.
Proof. intros s t a s' t'. unfold complete_ready_records, put_ready_records, mbind, SE_bind, se_get. apply sim_records. Qed.

Lemma chunks_ok max part items seen s t body s' t' :
  complete_chunks fence max part seen items (s, t) = (Ok body, (s', t')) →
  ∃ chunks, body = seen ++ concat chunks ∧ put_chunks max chunks s = (Ok tt, s').
Proof.
  revert seen s t. induction items as [|item items IH]; intros seen s t; cbn [complete_chunks].
  { unfold mbind, SE_bind, on_staging. destruct (fence t) as [[[]|e] t1]; [|done]. intros [= <- <- <-].
    exists []. by rewrite app_nil_r. }
  unfold mbind, SE_bind, on_staging, se_lift, se_get. destruct (fence t) as [[[]|e] t1]; [|done]. cbn [map_err].
  destruct item as [chunk|e]; cbn [map_err]; [|done].
  destruct (u64_checked_add (Z.of_nat (length seen)) _) as [n|]; cbn [ok_or]; [|done].
  destruct (u64_checked_add (pt_input_bytes (s, t1).1) _) as [total|] eqn:Et; cbn [ok_or]; [|done].
  unfold on_put, on_put_with, se_modify at 1. cbn [map_err].
  destruct (_ || _) eqn:Eor; [done|]. apply orb_false_iff in Eor as [_ Emax].
  destruct (on_decoder (RecordDecoder.push chunk) (set_input_bytes total s)) as [[[]|e] s1] eqn:Ed; cbn [map_err]; [|done].
  destruct (complete_ready_records fence (s1, t1)) as [[[]|e] [s2 t2]] eqn:Er; [|done].
  intros (chunks & -> & Hp)%IH. apply sim_ready in Er. exists (chunk :: chunks). cbn [concat]. rewrite app_assoc.
  split; [done|]. cbn [put_chunks]. unfold mbind, SE_bind, se_get, se_lift, se_modify. cbn [fst] in Et. rewrite Et.
  cbn [ok_or]. by rewrite Emax, Ed, Er.
Qed.

(** One part, and all of them: [d'] has taken in the segments [bodies] after
    [d] and handed out [rs]. *)
Definition taken (bodies : list (list byte)) (rs : list RecordT) (d d' : Decoder) : Prop :=
  if bool_decide (format d = Json)
  then open_decoder d' ∧ ready d' = None ∧ format d' = Json
       ∧ ∀ rest, json_documents (pending d) (bodies ++ rest) = rs ++ json_documents (pending d') rest
  else consumed (concat bodies) rs d d'.

Lemma taken_open bodies rs d d' : taken bodies rs d d' → open_decoder d' ∧ ready d' = None ∧ format d' = format d.
Proof. unfold taken. case_bool_decide; [|by intros (? & ? & ? & _)]. intros (? & ? & ? & _). split_and!; congruence. Qed.

Lemma taken_trans b1 b2 rs1 rs2 d d1 d2 : taken b1 rs1 d d1 → taken b2 rs2 d1 d2 → taken (b1 ++ b2) (rs1 ++ rs2) d d2.
Proof.
  intros H1'. destruct (taken_open _ _ _ _ H1') as (_ & _ & Hf). revert H1'. unfold taken. rewrite Hf. case_bool_decide.
  - intros (_ & _ & _ & R1) (? & ? & ? & R2). split_and!; [done..|]. intros rest. by rewrite <- !app_assoc, R1, R2.
  - rewrite concat_app. apply consumed_trans.
Qed.

Definition contributes (bodies : list (list byte)) (data : list byte) (s s' : PutState) : Prop :=
  ∃ rs, taken bodies rs (pt_decoder s) (pt_decoder s') ∧ flowed sha256_hex rs data s s'
    ∧ pt_input_bytes s' = pt_input_bytes s + Z.of_nat (length (concat bodies)) ∧ pt_verifier s' = pt_verifier s.

(** One turn of the loop over the records. *)
Lemma put_records_turn fuel data s r d1 s' :
  tracks data s → next_record (pt_decoder s) = (Ok (Some r), d1) → put_records (S fuel) s = (Ok tt, s') →
  ∃ s1, flowed sha256_hex [r] data s s1 ∧ pt_decoder s1 = d1 ∧ pt_verifier s1 = pt_verifier s
    ∧ pt_input_bytes s1 = pt_input_bytes s ∧ put_records fuel s1 = (Ok tt, s').
Proof.
  intros Ht Hn. cbn [put_records]. unfold mbind at 1, SE_bind at 1, on_decoder. rewrite Hn. cbn [map_err].
  unfold mbind at 1, SE_bind at 1, on_pipeline. cbn [pt_pipeline set_decoder].
  destruct (pl_process r (pt_pipeline s)) as [[o|e] g] eqn:Ep; cbn [map_err]; [|done].
  set (s0 := set_pipeline g (set_decoder d1 s)). assert (Ht0 : tracks data s0) by done.
  assert (Hp : process_all [r] (pt_pipeline s) = (Ok (opt_list o), g)).
  { cbn. unfold mbind, SE_bind. rewrite Ep. cbn. by rewrite app_nil_r. }
  unfold mbind, SE_bind. destruct o as [record|].
  - pose proof (write_record_spec sha256_hex record data s0 Ht0) as Hw. unfold wp in Hw.
    destruct (write_stream_record record s0) as [[[]|e] s1]; [|done]. destruct Hw as (_ & (E1 & E2 & E3 & E4) & Hw).
    intros Hrest. exists s1. split_and!; [|exact E2|exact E1|exact E4|done]. exists [record]. split; [by rewrite Hp, E3|].
    unfold bytes_of. cbn. rewrite app_nil_r. by apply Hw.
  - intros Hrest. exists s0. split_and!; [|done..]. exists []. split; [exact Hp|]. unfold bytes_of. cbn. by rewrite app_nil_r.
Qed.

Lemma flowed_then rs1 rs2 data outs1 s s1 s2 :
  process_all rs1 (pt_pipeline s) = (Ok outs1, pt_pipeline s1) → flowed sha256_hex rs2 (data ++ bytes_of outs1) s1 s2 →
  flowed sha256_hex (rs1 ++ rs2) data s s2.
Proof.
  intros Hp1 (outs2 & Hp2 & Ht2). exists (outs1 ++ outs2). split; [by eapply process_all_app|].
  by rewrite bytes_of_app, app_assoc.
Qed.

(** The records that are ready at the end of a segment. *)
Lemma segment_ok data s d' s' :
  tracks data s → open_decoder (pt_decoder s) → ready (pt_decoder s) = None →
  end_of_segment (pt_decoder s) = (Ok tt, d') → put_ready_records (set_decoder d' s) = (Ok tt, s') →
  ∃ rs, flowed sha256_hex rs data s s' ∧ pt_input_bytes s' = pt_input_bytes s ∧ pt_verifier s' = pt_verifier s
    ∧ if bool_decide (format (pt_decoder s) = Json)
      then open_decoder (pt_decoder s') ∧ ready (pt_decoder s') = None ∧ format (pt_decoder s') = Json
           ∧ ∀ rest, json_documents [] ((pending (pt_decoder s)) :: rest) = rs ++ json_documents (pending (pt_decoder s')) rest
      else consumed [] rs (pt_decoder s) (pt_decoder s').
Proof.
  intros Ht Ho Hr He Hput. destruct (end_of_segment_spec _ _ Ho Hr He) as [[-> Hj]|(Hf & Hj & d1 & Hn & Ho1 & Hr1 & Hf1 & Hp1 & Hfuel)].
  - assert (Es : set_decoder (pt_decoder s) s = s) by (by destruct s). rewrite Es in Hput.
    pose proof (put_ready_spec sha256_hex _ s Ht (proj1 Ho)) as Hs. unfold wp in Hs. rewrite Hput in Hs.
    destruct Hs as (_ & Hv & Hin & Hs). destruct (Hs eq_refl) as (rs & Hd & Hfl). exists rs. split_and!; [done..|].
    pose proof (consumed_drain _ _ _ Ho Hr Hd) as Hc.
    destruct (bool_decide_reflect (format (pt_decoder s) = Json)) as [Hf|Hf]; [|exact Hc].
    destruct (consumed_json _ _ _ _ Hf Hc) as [-> Hp]. rewrite app_nil_r in Hp. destruct Hc as (? & ? & ? & _).
    split_and!; [done|done|congruence|]. intros rest. cbn [json_documents app]. by rewrite (Hj Hf), Hp.
  - unfold put_ready_records, mbind, SE_bind, se_get in Hput. cbn [pt_decoder set_decoder] in Hput.
    set (s0 := set_decoder d' s) in *. destruct (records_fuel d') as [|fuel] eqn:Efuel; [lia|].
    destruct (put_records_turn fuel data s0 _ d1 s' Ht Hn Hput) as (s1 & (outs1 & Hp & Ht1) & Ed & Hv1 & Hin1 & Hrest).
    assert (Hm : (drain_measure (pt_decoder s1) < fuel)%nat).
    { unfold drain_measure. rewrite Ed, Hp1, Hr1, bool_decide_eq_true_2 by done. destruct Ho1 as (_ & -> & _). cbn. lia. }
    rewrite <- Ed in Ho1. pose proof (put_records_spec sha256_hex fuel _ s1 Ht1 (proj1 Ho1) Hm) as Hs. unfold wp in Hs.
    rewrite Hrest in Hs. destruct Hs as (_ & Hv & Hin & Hs). destruct (Hs eq_refl) as (rs & Hd & Hfl). rewrite Ed in Hd, Ho1.
    assert (Hnone : rs = [] ∧ open_decoder (pt_decoder s') ∧ ready (pt_decoder s') = None ∧ format (pt_decoder s') = Json
      ∧ pending (pt_decoder s') = []).
    { destruct (drain_loop_ends fuel accept_all d1 (proj1 Ho1)) as (q & d2 & Eq & Hq); [by rewrite Ed in Hm|].
      rewrite Hd in Eq. injection Eq as <- <-. destruct (Hq rs eq_refl) as (Hf2 & _ & Hfin2 & Hr2 & Hi2 & _ & Hopen & _).
      destruct Ho1 as (_ & _ & Hfin). destruct (Hopen Hfin) as (Hc2 & _ & _ & Hrec).
      specialize (Hrec [x00]). rewrite Hr1, Hp1, Hf1 in Hrec. cbn in Hrec. unfold remainder in Hrec.
      rewrite (bool_decide_eq_false_2 (_ ++ _ = [])) in Hrec by (by destruct (pending (pt_decoder s'))). cbn in Hrec.
      destruct rs as [|r rs]; [|by destruct rs]. cbn in Hrec. injection Hrec as Hrec. split; [done|]. split; [split_and!; congruence|].
      split_and!; [done|congruence|]. by destruct (pending (pt_decoder s')) as [|? [|]]. }
    destruct Hnone as (-> & Ho2 & Hr2 & Hf2 & Hp2). exists ([mkRecord (pending (pt_decoder s)) []] ++ []).
    split; [by eapply (flowed_then _ _ data outs1 s s1)|]. split; [by rewrite Hin|]. split; [by rewrite Hv|].
    rewrite bool_decide_eq_true_2 by done. split_and!; [done..|]. intros rest. cbn [json_documents app]. by rewrite Hj, Hp2.
Qed.

Lemma part_ok max part data s t s' t' :
  tracks data s → open_decoder (pt_decoder s) → ready (pt_decoder s) = None →
  complete_part sha256_hex md5_etag fence max part (s, t) = (Ok tt, (s', t')) →
  ∃ body, part_matches sha256_hex md5_etag part body = true ∧ contributes [body] data s s'.
Proof.
  intros Ht Ho Hr. unfold complete_part, mbind, SE_bind, on_staging.
  destruct (fence t) as [[[]|e] t1]; [|done]. cbn [map_err]. destruct (ar_get _ t1) as [[art|e] t2]; [|done]. cbn [map_err].
  destruct (fence t2) as [[[]|e] t3]; [|done]. cbn [map_err]. destruct (ar_open art part t3) as [[items|e] t4]; [|done].
  cbn [map_err]. destruct (complete_chunks _ _ _ _ _ _) as [[body|e] [s1 t5]] eqn:Ec; [|done].
  apply chunks_ok in Ec as (chunks & -> & Hp). cbn [app].
  destruct (part_matches _ _ part _) eqn:Em; [|done]. cbn [negb].
  pose proof (put_chunks_spec sha256_hex max chunks data s Ht Ho) as Hs. unfold wp in Hs. rewrite Hp in Hs.
  destruct Hs as (_ & Hv1 & Hs). destruct (Hs eq_refl) as (Ho1 & Hin1 & _ & rs1 & Hdo & outs1 & Hp1 & Ht1).
  pose proof (consumed_open _ _ _ _ Ho Hr Hdo) as Hc1. pose proof Hc1 as (_ & Hr1 & Hf1 & _).
  unfold on_put, on_put_with, on_decoder. destruct (end_of_segment (pt_decoder s1)) as [[[]|e] d'] eqn:Ee; cbn [map_err]; [|done].
  intros Hrd%sim_ready. destruct (segment_ok _ s1 d' s' Ht1 Ho1 Hr1 Ee Hrd) as (rs2 & Hfl & Hin2 & Hv2 & Hd2).
  exists (concat chunks). split; [done|]. exists (rs1 ++ rs2). split.
  { unfold taken. rewrite Hf1 in Hd2. cbn [concat]. rewrite app_nil_r. case_bool_decide as Hj.
    - destruct (consumed_json _ _ _ _ Hj Hc1) as [-> Hpend]. destruct Hd2 as (? & ? & ? & Hdocs). split_and!; [done..|].
      intros rest. rewrite <- Hdocs. cbn [json_documents app]. by rewrite Hpend.
    - rewrite <- (app_nil_r (concat chunks)). by eapply consumed_trans. }
  split; [by eapply flowed_then|]. cbn [concat]. rewrite app_nil_r. by rewrite Hin2, Hin1, Hv2, Hv1.
Qed.

Lemma parts_ok max parts data s t s' t' :
  tracks data s → open_decoder (pt_decoder s) → ready (pt_decoder s) = None →
  complete_parts sha256_hex md5_etag fence max parts (s, t) = (Ok tt, (s', t')) →
  ∃ bodies, Forall2 (λ part body, part_matches sha256_hex md5_etag part body = true) parts bodies
    ∧ contributes bodies data s s'.
Proof.
  revert data s t. induction parts as [|part parts IH]; intros data s t Ht Ho Hr; cbn [complete_parts].
  { intros [= <- <-]. exists []. split; [done|]. exists []. split.
    - unfold taken. case_bool_decide; [done|]. split; [done|]. split; [done|]. split; [done|]. split; [by rewrite orb_false_r|done].
    - split; [|split; [cbn; lia|done]]. exists []. split; [done|]. cbn. by rewrite app_nil_r. }
  unfold mbind, SE_bind. destruct (complete_part _ _ _ _ _ _) as [[[]|e] [s1 t1]] eqn:Ep; [|done]. intros Hrest.
  apply (part_ok max part data) in Ep as (body & Hm & rs1 & Hc1 & (outs1 & Hp1 & Ht1) & Hin1 & Hv1); [|done..].
  destruct (taken_open _ _ _ _ Hc1) as (Ho1 & Hr1 & Hf1).
  apply (IH (data ++ bytes_of outs1)) in Hrest as (bodies & Hms & rs2 & Hc2 & Hfl2 & Hin2 & Hv2); [|done..].
  exists (body :: bodies). split; [by constructor|]. exists (rs1 ++ rs2). split; [by apply (taken_trans [body] bodies rs1 rs2 _ (pt_decoder s1))|].
  split; [by eapply flowed_then|]. split; [|congruence]. rewrite Hin2, Hin1. cbn [concat]. rewrite !length_app. cbn. lia.
Qed.

Lemma taken_finish f l d0 bodies rs1 d d1 rs2 d2 :
  decoder_new f l = Ok d0 → taken bodies rs1 d0 d → RecordDecoder.finish d = (Ok tt, d1) →
  drain accept_all d1 = (Ok rs2, d2) → rs1 ++ rs2 = segment_records f bodies.
Proof.
  intros Hnew Ht Hfin Hd. assert (Hd0 : format d0 = f ∧ pending d0 = []).
  { unfold decoder_new in Hnew. case_match; [done|]. by injection Hnew as <-. }
  destruct Hd0 as [Hf0 Hp0]. unfold taken in Ht. rewrite Hf0 in Ht. case_bool_decide as Hj.
  - destruct Ht as (Ho & _ & Hf & Hdocs). rewrite (json_finish _ _ _ _ Ho Hf Hfin Hd). specialize (Hdocs []).
    rewrite app_nil_r, Hp0 in Hdocs. subst f. rewrite Hj. exact (eq_sym Hdocs).
  - rewrite segment_records_joined by done. by eapply consumed_finish.
Qed.

Lemma input_ok s t fuel s' t' :
  pt_verifier s = None → complete_input fence (s, t) = (Ok fuel, (s', t')) → finish_input s = (Ok fuel, s').
Proof.
  intros Hv Hc. assert (Hvf : verifier_finish s = (Ok tt, s)) by (unfold verifier_finish; by rewrite Hv).
  unfold finish_input. unfold mbind at 1, SE_bind at 1. rewrite Hvf. revert Hc. unfold complete_input.
  apply sim_bind; [apply sim_put|]. intros []. apply sim_bind; [apply sim_ready|]. intros [].
  apply sim_bind; [apply sim_put|]. intros fin. apply sim_bind; [apply sim_written|]. intros []. apply sim_ret.
Qed.

(** C9: A completion (of an object that is not Avro) that succeeds has
    published the transformation of the selected parts: each part that was
    read back is, by size, SHA-256 and ETag, the one that was committed; the
    records are those of the parts put together, wherever a part ends; only
    for JSON, what is buffered at the end of a part is a document of its own
    if it is complete there, and otherwise goes on in the next part
    ([segment_records]).  The sink has published what the pipeline made of the
    records, and the result carries its size and digest. *)
Theorem completion_publishes_parts f l w t d g max grant evidence parts x w' :
  sink_holds [] w → decoder_new f l = Ok d →
  complete_into sha256_hex md5_etag created_at fence finish_upload w t d g max grant evidence parts = (Ok x, w') →
  ∃ bodies outs fuel g',
    Forall2 (λ part body, part_matches sha256_hex md5_etag part body = true) parts bodies
    ∧ transform (segment_records f bodies) g = (Ok (outs, fuel), g')
    ∧ sink_published (bytes_of outs) w'
    ∧ cr_source_bytes x = Z.of_nat (length (concat bodies)) ∧ cr_size_bytes x = Z.of_nat (length (bytes_of outs))
    ∧ cr_checksum_sha256 x = sha256_hex (bytes_of outs).
Proof.
  intros Hw Hnew. unfold complete_into. set (s0 := mkPut None d g 0 0 [] w). assert (Ht0 : tracks [] s0) by done.
  assert (Hd : ready d = None).
  { unfold decoder_new in Hnew. case_match; [done|]. by injection Hnew as <-. }
  unfold completion_processing, mbind, SE_bind.
  destruct (complete_parts _ _ _ _ _ _) as [[[]|e] [s1 t1]] eqn:E1; [|by destruct (settle_completion _ _ _ _)].
  apply (parts_ok max parts []) in E1 as (bodies & Hm & rs1 & Hc1 & (outs1 & Hp1 & Ht1) & Hin1 & Hv1);
    [|done|by eapply decoder_new_open|done].
  destruct (complete_input _ _) as [[fuel|e] [s2 t2]] eqn:E2; [|by destruct (settle_completion _ _ _ _)].
  apply input_ok in E2; [|by rewrite Hv1]. destruct (taken_open _ _ _ _ Hc1) as (Ho1 & _ & _).
  pose proof (finish_input_spec sha256_hex _ s1 Ht1 Ho1) as Hs. unfold wp in Hs. rewrite E2 in Hs. destruct Hs as [_ Hs].
  destruct (Hs fuel eq_refl) as (Hin2 & _ & d2 & rs2 & d3 & outs2 & g2 & Hfin & Hdr & Htr & Ht2). clear Hs E2.
  unfold on_staging at 1. destruct (fence t2) as [[[]|e] t3]; cbn [map_err]; [|by destruct (settle_completion _ _ _ _)].
  unfold se_get, on_commit. cbn [fst]. rewrite <- app_assoc, <- bytes_of_app in Ht2. cbn [app] in Ht2.
  pose proof (commit_completion_spec grant (evidence fuel) (pt_input_bytes s2) (pt_output_bytes s2)
    (sha256_hex (pt_hashed s2)) _ (pt_sink s2) t3 (proj1 Ht2)) as Hco. unfold wp in Hco.
  destruct (commit_completion _ _ _ _ _ _ _ _ _) as [[y|e] [w3 t4]]; [|by destruct (settle_completion _ _ _ _)].
  destruct Hco as [_ Hco]. destruct (Hco y eq_refl) as (Hpub & Hsrc & Hsz & Hsha). intros [= <- <-].
  exists bodies, (outs1 ++ outs2), fuel, g2. split; [done|].
  rewrite <- (taken_finish _ _ _ _ _ _ _ _ _ Hnew Hc1 Hfin Hdr). split; [by eapply transform_app|].
  destruct Ht2 as (_ & Hh & Hn). rewrite Hsrc, Hsz, Hsha, Hin2, Hin1, Hh, Hn. by split_and!.
Qed.
End proofs.

(** ** The development sink in a completion *)

Section memory.
  Context {G T : Type} (sha256_hex md5_etag : list byte → string) (new_v4 : nat → string).
  Context `{Pipeline G, UsageEncoding, Crypto, Parsers, ArtifactReader T} (created_at : Z).
  Context (fence : SE T StagingError unit) (finish_upload : MultipartCompletionResult → SE T StagingError unit).
  #[local] Existing Instance memory_journal.
#[local] Instance here : ObjectSinkTransaction MemSinkWorld := memory_sink sha256_hex new_v4.

(** A completion into the development sink never releases its reservation
    while the worker holds its lease: a failure before the commit aborts the
    sink, an aborted sink reports COMMITTED, and the second look at the
    sink's state then takes the failed completion for a published one. *)
Theorem aborted_memory_sink_keeps_reservation w t d g max grant evidence parts e w' :
  (∀ t, is_ok (fence t).1 = true) →
  complete_into sha256_hex md5_etag created_at fence finish_upload w t d g max grant evidence parts = (Err e, w') →
  mc_preserves_reservation e = true.
Proof.
  intros Hf. unfold complete_into. destruct (completion_processing _ _ _ _ _ _ _ _ _ _) as [[x|e'] [s t']]; [done|].
  unfold settle_completion. rewrite Hf, andb_true_r. cbn [s_commit_state here memory_sink].
  unfold memory_commit_state. destruct (mk_finished (mm_sink (pt_sink s))) eqn:Ef; cbn; rewrite ?Ef; by intros [= <- <-].
Qed.
End memory.
