(* ===== verification/PutExamples.v ===== *)
(** * Requests into the development sink: concrete runs

    Witnesses of [StreamingPut.v] and [Completion.v]: a signed body of the
    bytes [hello] put through a pipeline that doubles every record, the same
    body with its signature broken, and completions of a staged upload
    that succeed, that lose their lease, and that fail at a part. *)

From S2P Require Import Prelude Staging Operation RustStr Integrity IntegrityProofs Format RecordDecoder RecordProofs Managed SinkApi StreamingPut Completion.

#[local] Open Scope Z_scope.
Set Default Goal Selector "!".

#[local] Existing Instance plain_crypto.
#[local] Existing Instance sample_parsers.

(** A digest for the examples, and the development sink over it. *)
Definition example_sha (l : list byte) : string := pretty (Z.to_N (poly 32 l)).
Definition example_uuid (n : nat) : string := pretty n.
#[local] Instance example_sink : ObjectSinkTransaction MemSinkWorld := memory_sink example_sha example_uuid.
#[local] Instance example_journal : GatewayJournal MemSinkWorld := memory_journal.
#[local] Instance example_sink_laws : SinkLaws MemSinkWorld example_sha := memory_sink_laws example_sha example_uuid.
#[local] Instance example_encoding : UsageEncoding :=
  {| rfc3339 := pretty; uuid_str := pretty; uuid_v5_oid := λ id, (id + 1)%N |}.

(** Every record twice; at the end, one more. *)
#[local] Instance doubling_pipeline : Pipeline unit := {|
  pl_process r := mret (Some (mkRecord (payload r ++ payload r) (separator r)));
  pl_finish := mret ([mkRecord (bs ".") []], 7);
  pl_cancel_and_wait g := g;
|}.

Definition example_mem_sink : MemorySinkTransaction := mkMemSink "bucket" "key" "text/plain" 100 [] [] false false.
Definition example_world : MemSinkWorld := mkMemWorld example_mem_sink ∅ 0 [].
Definition example_grant : AuthorizationGrant := mkGrant 1 2 0 1 "bucket" PutObject Write 1000 None None.
Definition example_source : SourceBodyLimits := mkSourceLimits 1000 512.
Definition example_verifier : option BodyVerifier :=
  match from_headers sample_headers sample_hash (Some sample_signing) false with Ok v => Some v | Err _ => None end.
Definition example_frames : list BodyFrame := [DataFrame (take 100 sample_stream); DataFrame (drop 100 sample_stream)].
Abbreviation example_put frames :=
  (streaming_put_into example_sha 0 example_world (Ok tt) example_verifier Text example_source example_grant (λ _, None) frames).
Definition example_object : StoredObject := mkStored (bs "hellohello.") "text/plain" (debug_str "0").
Definition example_committed : MemSinkWorld :=
  mkMemWorld (mkMemSink "bucket" "key" "text/plain" 100 [] (bs "hellohello.") true true)
    {[ "bucket/key" := example_object ]} 1 [example_object].

Lemma example_holds : sink_holds [] example_world.
Proof. by repeat split. Qed.

Lemma example_put_ok :
  example_put example_frames = (Ok (mkMeta (Some (debug_str "0")) None [] true, 5, 11, None), example_committed).
Proof. vm_compute. reflexivity. Qed.

Lemma put_publishes_transformed_witness :
  put_meaning example_sha 0 example_source Text example_frames example_verifier tt example_grant (λ _, None)
    (mkMeta (Some (debug_str "0")) None [] true) 5 11 None example_committed.
Proof.
  destruct (put_publishes_transformed example_sha 0 example_world (Ok tt) example_verifier Text example_source example_grant
    (λ _, None) example_frames _ _ _ _ _ example_holds example_put_ok) as ([] & _ & H). exact H.
Defined.

(** The same body with one byte of its data changed: nothing is published. *)
Definition tampered_frames : list BodyFrame := [DataFrame (<[85%nat := x61]> sample_stream)].
Definition example_aborted : MemSinkWorld :=
  mkMemWorld (mkMemSink "bucket" "key" "text/plain" 100 [] [] false true) ∅ 0 [].

Lemma failed_put_publishes_nothing_witness :
  example_put tampered_frames = (Err (PutIntegrity SignatureMismatch), example_aborted)
  ∧ sink_unpublished example_aborted.
Proof.
  assert (E : example_put tampered_frames = (Err (PutIntegrity SignatureMismatch), example_aborted))
    by (vm_compute; reflexivity).
  split; [exact E|].
  exact (failed_put_publishes_nothing example_sha 0 example_world (Ok tt) example_verifier Text example_source example_grant
    (λ _, None) tampered_frames _ _ example_holds eq_refl E eq_refl).
Defined.

Abbreviation example_avro :=
  (avro_put_into example_sha 0 (λ body, Ok (reverse body)) example_world example_verifier example_source example_grant example_frames).

Lemma avro_put_outcome_witness :
  ∃ pieces body output, example_frames = DataFrame <$> pieces ∧ verified_body example_verifier pieces body
    ∧ 5 = Z.of_nat (length body) ∧ Ok (E:=S4Error) (reverse body) = Ok output ∧ 5 = Z.of_nat (length output)
    ∧ sink_published output example_avro.2.
Proof.
  assert (E : ∃ m, example_avro.1 = Ok (m, 5, 5)) by (eexists; vm_compute; reflexivity). destruct E as [m E].
  pose proof (avro_put_outcome example_sha 0 (λ body, Ok (reverse body)) example_world example_verifier example_source
    example_grant example_frames (Ok (m, 5, 5)) example_avro.2 example_holds eq_refl) as H.
  apply H. rewrite <- E. apply surjective_pairing.
Defined.

(** ** A staged upload of two parts *)

Definition example_etag (l : list byte) : string := debug_str (pretty (length l)).
Definition example_part (n : Z) (body : list byte) : MultipartPart :=
  mkMultipartPart "upload" n 1 (pretty n) (example_etag body) (example_sha body) (Z.of_nat (length body)) 0.
Definition example_body (n : Z) : list byte := if n =? 1 then bs "he" ++ [x0a] ++ bs "l" else bs "lo".
Definition example_parts : list MultipartPart := [example_part 1 (example_body 1); example_part 2 (example_body 2)].

(** Artifacts under the part's number, read in pieces of one byte; the state
    counts the renewals of the lease. *)
#[local] Instance example_artifacts : ArtifactReader nat := {|
  ar_body := list byte;
  ar_get key := mret (example_body (if bool_decide (key = "1") then 1 else 2));
  ar_open body _ := mret ((λ b, Ok [b]) <$> body);
|}.
Definition held : SE nat StagingError unit := λ n, (Ok tt, S n).
Definition recorded (result : MultipartCompletionResult) : SE nat StagingError unit := mret tt.
Definition example_decoder : Decoder :=
  match decoder_new Text (mkLimits 64 64 64 64) with Ok d => d | Err _ => mkDec Text (mkLimits 0 0 0 0) [] None 0 FieldStart 0 true true true 0 end.
Abbreviation example_complete fence finish parts :=
  (complete_into example_sha example_etag 0 fence finish example_world 0%nat example_decoder tt 1000 example_grant (λ _, None) parts).

Lemma completion_publishes_parts_witness :
  ∃ bodies outs fuel g',
    Forall2 (λ part body, part_matches example_sha example_etag part body = true) example_parts bodies
    ∧ transform (segment_records Text bodies) tt = (Ok (outs, fuel), g')
    ∧ sink_published (bytes_of outs) (example_complete held recorded example_parts).2.
Proof.
  assert (E : ∃ x, (example_complete held recorded example_parts).1 = Ok x) by (eexists; vm_compute; reflexivity).
  destruct E as [x E].
  destruct (completion_publishes_parts example_sha example_etag 0 held recorded Text (mkLimits 64 64 64 64) example_world 0%nat
    example_decoder tt 1000 example_grant (λ _, None) example_parts x (example_complete held recorded example_parts).2
    example_holds eq_refl) as (bodies & outs & fuel & g' & ? & ? & ? & _).
  - rewrite <- E. apply surjective_pairing.
  - exists bodies, outs, fuel, g'. by split_and!.
Defined.

(** The lease is lost at once: the worker may not even abort, and nothing was published. *)
Definition lost : SE nat StagingError unit := λ n, (Err Fenced, n).

Lemma failed_completion_publishes_nothing_witness :
  example_complete lost recorded example_parts = (Err (McStaging Fenced), example_world) ∧ sink_unpublished example_world.
Proof.
  assert (E : example_complete lost recorded example_parts = (Err (McStaging Fenced), example_world))
    by (vm_compute; reflexivity).
  split; [exact E|].
  exact (failed_completion_publishes_nothing example_sha example_etag 0 lost recorded example_world 0%nat example_decoder tt 1000
    example_grant (λ _, None) example_parts _ _ example_holds E eq_refl).
Defined.

(** A part that does not match: nothing is published, and the reservation is kept. *)
Lemma aborted_memory_sink_keeps_reservation_witness :
  mm_puts (example_complete held recorded [example_part 1 (bs "x")]).2 = []
  ∧ ∃ e, (example_complete held recorded [example_part 1 (bs "x")]).1 = Err e ∧ mc_preserves_reservation e = true.
Proof.
  split; [vm_compute; reflexivity|].
  assert (E : ∃ e, (example_complete held recorded [example_part 1 (bs "x")]).1 = Err e) by (eexists; vm_compute; reflexivity).
  destruct E as [e E]. exists e. split; [exact E|].
  apply (aborted_memory_sink_keeps_reservation example_sha example_etag example_uuid 0 held recorded example_world 0%nat
    example_decoder tt 1000 example_grant (λ _, None) [example_part 1 (bs "x")] e
    (example_complete held recorded [example_part 1 (bs "x")]).2); [done|].
  rewrite <- E. apply surjective_pairing.
Defined.

(** The repository refuses the record of the completion after the commit. *)
Definition unrecorded (result : MultipartCompletionResult) : SE nat StagingError unit := se_throw Fenced.

(** The text path marks the failure. *)
Lemma completion_keeps_published :
  mc_preserves_reservation <$>
    (match (example_complete held unrecorded example_parts).1 with Err e => Some e | Ok _ => None end) = Some true.
Proof. vm_compute. reflexivity. Qed.
