(* ===== verification/SpoolExamples.v ===== *)
(** * Concrete runs of the spools

    Inputs on which the theorems of [Spool.v] and [ReadSpool.v] apply, with
    their hypotheses evaluated: two threads that race for the quota, a spooled
    object whose upload fails and is repeated, a transformed read larger than
    one frame. *)

From S2P Require Import Prelude Staging Operation RustStr Integrity Managed SinkApi Spool ReadSpool.

#[local] Open Scope Z_scope.
Set Default Goal Selector "!".

(** ** Two threads race: the exchange of the second one fails, and it tries again *)

Definition racing : QuotaPool := mkPool 90 ∅ (<[2%nat := 60]> (<[1%nat := 30]> ∅)).

Lemma racing_reached : rtc (quota_step 100) quota_new racing.
Proof.
  eapply rtc_l; [apply (quota_call 100 1 30); by vm_compute|]. eapply rtc_l; [apply (quota_call 100 2 60); by vm_compute|].
  eapply rtc_l; [by apply (quota_load 100 1 30)|]. eapply rtc_l; [by apply (quota_load 100 2 60)|].
  eapply rtc_l; [eapply (quota_return 100 1 30 0 false); [done|by vm_compute]|].
  eapply rtc_l; [eapply (quota_turn 100 2 60 0 false); [done|by vm_compute]|].
  eapply rtc_l; [eapply (quota_return 100 2 60 30 false); [done|by vm_compute]|].
  apply rtc_refl.
Qed.

Lemma spool_quota_exact_witness :
  qp_reserved racing = sumZ id (qp_held racing) ∧ 0 <= qp_reserved racing <= 100
  ∧ ∀ t bytes, qp_held racing !! t = Some bytes → release_bytes bytes (qp_reserved racing) = qp_reserved racing - bytes.
Proof. apply (spool_quota_exact 100 racing); [by vm_compute|lia|exact racing_reached]. Defined.

(** ** A spooled object *)

(** The fifth file operation fails; nobody unlinks the file. *)
Definition failing_sync : FileSystem :=
  {| fs_unlinked _ := false; fs_fault n := if (n =? 4)%nat then Some (mkIo IoOther "disk full", 0%nat) else None |}.
Definition toy_digest (l : list byte) : string := "d".
Definition toy_upload (content : option (list byte)) (n : Z) : result TransactionError StoredObjectMeta :=
  Err (TSpool "unreachable").
Definition no_files : SpoolWorld := mkSpoolWorld None [] 0.
Definition toy_calls : list spool_call :=
  [SpoolWrite ["097"; "098"]%byte; SpoolVerify 2 "d"; SpoolComplete; SpoolComplete; SpoolAbort; SpoolAbort].

Lemma spool_releases_once_witness :
  let '(r, w') := @compat_begin failing_sync 100 64 0 no_files in
  match r with
  | Err _ => ledger_sum w' = 0
  | Ok s =>
    let w1 := foldl (λ w c, @run_spool_call failing_sync toy_digest toy_upload c w) (mkCompat s w' []) toy_calls in
    ledger_sum (cw_world w1) = cs_reserved_bytes (cw_self w1) ∧ ledger_sum (cw_world (@compat_drop failing_sync w1)) = 0
  end.
Proof.
  destruct (@compat_begin failing_sync 100 64 0 no_files) as [r w'] eqn:E.
  apply (@spool_releases_once failing_sync toy_digest toy_upload 100 64 0 no_files r w' toy_calls); [reflexivity|exact E].
Defined.

(** ** A transformed read *)

Definition calm : FileSystem := {| fs_unlinked _ := false; fs_fault _ := None |}.
Definition toy_aead : Aead :=
  {| aead_encrypt _ _ _ msg := Some (msg ++ replicate 16 "000"%byte);
     aead_decrypt _ _ _ sealed := Some (take (length sealed - 16) sealed) |}.
Definition toy_rng : OsRng :=
  {| rng_key := []; rng_nonce n := replicate 12 "001"%byte; rng_nonce_length n := eq_refl |}.

Lemma toy_aead_laws : @AeadLaws toy_aead.
Proof.
  split; intros key nonce aad msg sealed [= <-].
  - change (Some (take (length (msg ++ replicate 16 "000"%byte) - 16) (msg ++ replicate 16 "000"%byte)) = Some msg).
    f_equal. rewrite length_app, length_replicate, Nat.add_sub. apply take_app_length.
  - by rewrite length_app.
Qed.

Definition big_output : list (list byte) := [replicate 3 "097"%byte; replicate (N.to_nat 65536) "098"%byte].
Definition uninterrupted (t : nat) : option interruption := None.
#[local] Abbreviation big_read := (@serve_spooled calm toy_aead toy_rng uninterrupted 1000000 100000 0 big_output no_files).

Lemma read_spool_replays_witness :
  ∃ n sent ended w', big_read = (Ok (n, sent, ended), w')
    ∧ concat sent = concat big_output ∧ ended = Ok tt.
Proof.
  assert (Hmax : 0 <= 100000) by lia. assert (Hok : is_ok big_read.1 = true) by (vm_compute; reflexivity).
  destruct big_read as [[[[n sent] ended]|e] w'] eqn:E; [|discriminate Hok].
  exists n, sent, ended, w'. split; [reflexivity|].
  apply (@read_spool_replays calm toy_aead toy_aead_laws toy_rng uninterrupted 1000000 100000 0 big_output no_files
           n sent ended w' Hmax E); [intros t; reflexivity|intros m; split; reflexivity].
Defined.

Lemma read_spool_bounded_witness :
  ∃ s w0 r w1, @rs_begin calm toy_rng 1000000 100000 0 no_files = (Ok s, w0)
    ∧ @spool_writer calm toy_aead toy_rng big_output s w0 = (r, w1)
    ∧ Z.of_nat (length (default [] (content w1))) <= rs_reserved_bytes s.
Proof.
  assert (Hmax : 0 <= 100000) by lia.
  assert (Hok : is_ok (@rs_begin calm toy_rng 1000000 100000 0 no_files).1 = true) by (vm_compute; reflexivity).
  destruct (@rs_begin calm toy_rng 1000000 100000 0 no_files) as [[s|e] w0] eqn:E; [|discriminate Hok].
  destruct (@spool_writer calm toy_aead toy_rng big_output s w0) as [r w1] eqn:E1.
  exists s, w0, r, w1. split; [reflexivity|]. split; [exact E1|].
  apply (@read_spool_bounded calm toy_aead toy_aead_laws toy_rng 1000000 100000 0 big_output no_files s w0 r w1 Hmax E E1).
Defined.

Lemma read_spool_releases_witness :
  ledger_sum (@serve_spooled failing_sync toy_aead toy_rng uninterrupted 1000000 100000 0 big_output no_files).2 = 0.
Proof.
  assert (Hmax : 0 <= 100000) by lia. destruct (serve_spooled _ _ _ _ _ _) as [r w'] eqn:E.
  apply (@read_spool_releases failing_sync toy_aead toy_aead_laws toy_rng uninterrupted 1000000 100000 0 big_output no_files
           r w' Hmax eq_refl E).
Defined.
