(* ===== verification/ObjectBody.v ===== *)
(** * Object responses: [object.rs], [s3_error.rs] and [customer_headers.rs]

    The body of a source object with its limits and counters, the body that
    serves an in-memory object in frames, the headers that a response may
    carry, the XML of S3 errors, and the headers that customers may send under
    two names.

    A [HeaderMap] is the list of its entries ([SigV4.v]); names are in lower
    case, as the [http] crate keeps them. *)

From S2P Require Import Prelude RustStr Integrity IntegrityProofs Format SigV4.

#[local] Open Scope Z_scope.
Set Default Goal Selector "!".

Definition hm_get (headers : Headers) (name : string) : option str := head (get_all headers (bs name)).
Definition contains_key (headers : Headers) (name : string) : bool := bool_decide (get_all headers (bs name) ≠ []).
Definition remove_name (name : str) (headers : Headers) : Headers := filter (λ h, h.1 ≠ name) headers.
Definition hm_remove (name : string) (headers : Headers) : Headers := remove_name (bs name) headers.
Definition hm_insert (name : string) (value : str) (headers : Headers) : Headers :=
  hm_remove name headers ++ [(bs name, value)].
Definition hm_append (name : string) (value : str) (headers : Headers) : Headers := headers ++ [(bs name, value)].

(** ** Response headers *)

Definition OBJECT_DOWNLOAD_CSP : string := "sandbox; default-src 'none'; base-uri 'none'; form-action 'none'".

Definition harden_object_response_headers (headers : Headers) : Headers :=
  let headers := hm_remove "age" headers in
  let headers := hm_remove "expires" headers in
  let headers := hm_insert "cache-control" (bs "private, no-store") headers in
  let headers := hm_insert "content-disposition" (bs "attachment") headers in
  let headers := hm_insert "x-content-type-options" (bs "nosniff") headers in
  hm_insert "content-security-policy" (bs OBJECT_DOWNLOAD_CSP) headers.

Definition presigned_response_names : list string :=
  ["accept-ranges"; "content-encoding"; "content-language"; "content-length"; "content-range"; "content-type";
   "etag"; "last-modified";
   "x-amz-archive-status"; "x-amz-checksum-crc32"; "x-amz-checksum-crc32c"; "x-amz-checksum-crc64nvme";
   "x-amz-checksum-md5"; "x-amz-checksum-sha1"; "x-amz-checksum-sha256"; "x-amz-checksum-sha512";
   "x-amz-checksum-type"; "x-amz-checksum-xxhash3"; "x-amz-checksum-xxhash64"; "x-amz-checksum-xxhash128";
   "x-amz-delete-marker"; "x-amz-expiration"; "x-amz-missing-meta"; "x-amz-mp-parts-count";
   "x-amz-object-lock-legal-hold"; "x-amz-object-lock-mode"; "x-amz-object-lock-retain-until-date";
   "x-amz-replication-status"; "x-amz-request-charged"; "x-amz-restore"; "x-amz-server-side-encryption";
   "x-amz-server-side-encryption-aws-kms-key-id"; "x-amz-server-side-encryption-bucket-key-enabled";
   "x-amz-server-side-encryption-customer-algorithm"; "x-amz-server-side-encryption-customer-key-md5";
   "x-amz-storage-class"; "x-amz-tagging-count"; "x-amz-version-id"; "x-amz-website-redirect-location";
   "x-goog-component-count"; "x-goog-custom-time"; "x-goog-encryption-algorithm"; "x-goog-encryption-key-sha256";
   "x-goog-expiration"; "x-goog-generation"; "x-goog-hash"; "x-goog-metageneration"; "x-goog-object-lock-mode";
   "x-goog-object-lock-retain-until-date"; "x-goog-storage-class"; "x-goog-stored-content-encoding";
   "x-goog-stored-content-length"].

Definition is_allowed_presigned_response_header (name : str) : bool :=
  starts_with (bs "x-amz-meta-") name || starts_with (bs "x-goog-meta-") name
  || bool_decide (name ∈ bs <$> presigned_response_names).

(** [HeaderName::from_bytes]: a token, in lower case. *)
Definition is_token_byte (b : byte) : bool :=
  is_ascii_digit b || ((97 <=? b2z b) && (b2z b <=? 122)) || ((65 <=? b2z b) && (b2z b <=? 90))
  || bool_decide (b ∈ bs "!#$%&'*+-.^_`|~").
Definition header_name_from_bytes (l : list byte) : option str :=
  if bool_decide (l = []) || (65535 <? Z.of_nat (length l)) || negb (forallb is_token_byte l) then None
  else Some (lowercase l).

Definition hop_by_hop_names : list string :=
  ["connection"; "keep-alive"; "proxy-authenticate"; "proxy-authorization"; "proxy-connection"; "te"; "trailer";
   "transfer-encoding"; "upgrade"].

Definition connection_extensions (headers : Headers) : list str :=
  omap (λ name, header_name_from_bytes (trim name))
    (concat (split_on x2c <$> omap to_str (get_all headers (bs "connection")))).

Definition strip_hop_by_hop_headers (headers : Headers) : Headers :=
  let extensions := connection_extensions headers in
  let headers := foldl (λ h name, remove_name name h) headers extensions in
  foldl (λ h name, hm_remove name h) headers hop_by_hop_names.

Definition filter_presigned_response_headers (headers : Headers) : Headers :=
  let headers := strip_hop_by_hop_headers headers in
  let blocked := filter (λ name, is_allowed_presigned_response_header name = false) (keys headers) in
  foldl (λ h name, remove_name name h) headers blocked.

Definition object_response_trailer_names : list string :=
  ["content-digest"; "content-md5"; "digest"; "repr-digest"; "x-amz-checksum-crc32"; "x-amz-checksum-crc32c";
   "x-amz-checksum-crc64nvme"; "x-amz-checksum-md5"; "x-amz-checksum-sha1"; "x-amz-checksum-sha256";
   "x-amz-checksum-sha512"; "x-amz-checksum-type"; "x-amz-checksum-xxhash3"; "x-amz-checksum-xxhash64";
   "x-amz-checksum-xxhash128"; "x-goog-hash"].
Definition is_allowed_object_response_trailer (name : str) : bool :=
  bool_decide (name ∈ bs <$> object_response_trailer_names).
Definition filter_object_response_trailers (trailers : Headers) : Headers :=
  let blocked := filter (λ name, is_allowed_object_response_trailer name = false) (keys trailers) in
  foldl (λ h name, remove_name name h) trailers blocked.

(** ** [CountedBody] *)

Record BodyLimits := mkBodyLimits { bl_max_frame_bytes : nat; bl_max_bytes : Z }.
Definition DEFAULT_MAX_SOURCE_FRAME_BYTES : Z := 8 * 1024 * 1024.
Definition DEFAULT_MAX_SOURCE_BYTES : Z := 5 * 1024 * 1024 * 1024.

Inductive SourceError : Type :=
| FrameTooLarge (actual limit : nat)
| ObjectTooLarge (actual limit : Z)
| Upstream (message : string).

(** A frame is data or trailers. *)
Inductive SourceFrame : Type :=
| SourceData (data : list byte)
| SourceTrailers (trailers : Headers).

(** What polling the inner body to the end yields: frames, and errors. *)
Record CountedBody := mkCounted {
  cb_inner : list (string + SourceFrame);
  cb_bytes : Z;
  cb_frames : Z;
  cb_cancelled : bool;
  cb_finished : bool;
}.
Definition counted_new (inner : list (string + SourceFrame)) : CountedBody := mkCounted inner 0 0 false false.

Definition poll_frame (limits : BodyLimits) (b : CountedBody) : option (result SourceError SourceFrame) * CountedBody :=
  match cb_inner b with
  | [] => (None, mkCounted [] (cb_bytes b) (cb_frames b) (cb_cancelled b) true)
  | inl message :: rest => (Some (Err (Upstream message)), mkCounted rest (cb_bytes b) (cb_frames b) true (cb_finished b))
  | inr (SourceTrailers t) :: rest =>
    (Some (Ok (SourceTrailers t)), mkCounted rest (cb_bytes b) (cb_frames b) (cb_cancelled b) (cb_finished b))
  | inr (SourceData data) :: rest =>
    if (bl_max_frame_bytes limits <? length data)%nat then
      (Some (Err (FrameTooLarge (length data) (bl_max_frame_bytes limits))),
       mkCounted rest (cb_bytes b) (cb_frames b) true (cb_finished b))
    else
      let total := u64_wrap (cb_bytes b + Z.of_nat (length data)) in
      let frames := u64_wrap (cb_frames b + 1) in
      if bl_max_bytes limits <? total then
        (Some (Err (ObjectTooLarge total (bl_max_bytes limits))), mkCounted rest total frames true (cb_finished b))
      else (Some (Ok (SourceData data)), mkCounted rest total frames (cb_cancelled b) (cb_finished b))
  end.

(** [Drop]. *)
Definition counted_drop (b : CountedBody) : CountedBody :=
  if cb_finished b then b else mkCounted (cb_inner b) (cb_bytes b) (cb_frames b) true false.

(** A consumer that stops at the first error, as every consumer in the
    gateway does: the frames it got, and the error or the regular end. *)
Fixpoint drain_body (fuel : nat) (limits : BodyLimits) (b : CountedBody)
    : list SourceFrame * option SourceError * CountedBody :=
  match fuel with
  | O => ([], None, b)
  | S fuel =>
    match poll_frame limits b with
    | (None, b) => ([], None, b)
    | (Some (Err e), b) => ([], Some e, b)
    | (Some (Ok f), b) => let '(fs, r, b) := drain_body fuel limits b in (f :: fs, r, b)
    end
  end.
Definition read_body (limits : BodyLimits) (inner : list (string + SourceFrame)) :=
  drain_body (S (length inner)) limits (counted_new inner).

Definition frame_bytes_of (f : SourceFrame) : list byte := match f with SourceData d => d | SourceTrailers _ => [] end.
Definition body_bytes (fs : list SourceFrame) : list byte := concat (frame_bytes_of <$> fs).

(** ** [ChunkedBytesBody] *)

Record ChunkedBytesBody := mkChunked { ck_bytes : list byte; ck_offset : nat; ck_frame_bytes : nat }.
Definition chunked_new (bytes : list byte) (frame_bytes : nat) : ChunkedBytesBody :=
  mkChunked bytes 0 (Nat.max frame_bytes 1).
Definition chunked_poll (b : ChunkedBytesBody) : option (list byte) * ChunkedBytesBody :=
  if (ck_offset b =? length (ck_bytes b))%nat then (None, b)
  else
    let e := Nat.min (ck_offset b + ck_frame_bytes b) (length (ck_bytes b)) in
    (Some (take (e - ck_offset b) (drop (ck_offset b) (ck_bytes b))), mkChunked (ck_bytes b) e (ck_frame_bytes b)).
Definition chunked_size_hint (b : ChunkedBytesBody) : Z := Z.of_nat (length (ck_bytes b)) - Z.of_nat (ck_offset b).
Fixpoint chunked_frames (fuel : nat) (b : ChunkedBytesBody) : option (list (list byte)) :=
  match fuel with
  | O => None
  | S fuel => match chunked_poll b with (None, _) => Some [] | (Some f, b) => cons f <$> chunked_frames fuel b end
  end.

(** ** Ranges of an in-memory object: [memory_range] of [server.rs] *)

Definition BYTES_EQ : str := bs "bytes=".
Definition range_header (s e len : Z) : str := bs "bytes " ++ bs (pretty s) ++ [x2d] ++ bs (pretty e) ++ [x2f] ++ bs (pretty len).

(** The error is [InvalidRange] with the length of the object. *)
Definition memory_range (data : list byte) (range : option str) : result Z (list byte * option str) :=
  let len := Z.of_nat (length data) in
  match range with
  | None => Ok (data, None)
  | Some range =>
    spec ← ok_or (strip_prefix BYTES_EQ range) len;
    if bool_decide (x2c ∈ spec) then Err len
    else
      se ← ok_or (split_once x2d spec) len;
      if len =? 0 then Err len
      else
        bounds ←
          (if bool_decide (se.1 = []) then
             suffix ← ok_or (from_str_radix 10 se.2) len;
             if suffix =? 0 then Err len else Ok (Z.max 0 (len - suffix), len - 1)
           else
             s ← ok_or (from_str_radix 10 se.1) len;
             e ← (if bool_decide (se.2 = []) then Ok (len - 1) else ok_or (from_str_radix 10 se.2) len);
             if (len <=? s) || (e <? s) then Err len else Ok (s, Z.min e (len - 1)));
        let '(s, e) := bounds in
        Ok (take (Z.to_nat (e - s + 1)) (drop (Z.to_nat s) data), Some (range_header s e len))
  end.

(** ** S3 errors: [s3_error.rs] *)

(** [str::chars] of a valid string, each as its bytes. *)
Definition char_width (b : byte) : nat :=
  if b2z b <? 128 then 1 else if b2z b <? 224 then 2 else if b2z b <? 240 then 3 else 4.
Fixpoint utf8_chars (fuel : nat) (l : list byte) : list (list byte) :=
  match fuel, l with
  | S fuel, b :: _ => take (char_width b) l :: utf8_chars fuel (drop (char_width b) l)
  | _, _ => []
  end.
Definition chars (l : list byte) : list (list byte) := utf8_chars (length l) l.

Definition MAX_S3_ERROR_FIELD_BYTES : nat := N.to_nat 1024.
Fixpoint bounded_chars (output : list byte) (cs : list (list byte)) : list byte :=
  match cs with
  | [] => output
  | c :: cs =>
    if (MAX_S3_ERROR_FIELD_BYTES <? length output + length c)%nat then output else bounded_chars (output ++ c) cs
  end.
Definition bounded_field (value : list byte) : list byte := bounded_chars [] (chars value).

Definition REPLACEMENT : list byte := [xef; xbf; xbd].
(** The characters that XML allows besides the ones that are escaped: not the
    control characters, not U+FFFE and U+FFFF. *)
Definition is_xml_char (c : list byte) : bool :=
  match c with
  | [b] => (32 <=? b2z b) || bool_decide (b ∈ [x09; x0a; x0d])
  | _ => negb (bool_decide (c = [xef; xbf; xbe] ∨ c = [xef; xbf; xbf]))
  end.
Definition xml_char (c : list byte) : list byte :=
  match c with
  | [x26] => bs "&amp;"
  | [x3c] => bs "&lt;"
  | [x3e] => bs "&gt;"
  | [x22] => bs "&quot;"
  | [x27] => bs "&apos;"
  | _ => if is_xml_char c then c else REPLACEMENT
  end.
Definition push_xml_text (output value : list byte) : list byte := output ++ concat (xml_char <$> chars value).

Definition push_xml_element (output : list byte) (name : string) (value : list byte) : list byte :=
  let output := output ++ bs "  <" ++ bs name ++ [x3e] in
  push_xml_text output value ++ bs "</" ++ bs name ++ [x3e; x0a].

Definition XML_PROLOG : list byte := bs "<?xml version=" ++ [x22] ++ bs "1.0" ++ [x22] ++ bs " encoding=" ++ [x22] ++ bs "UTF-8" ++ [x22] ++ bs "?>" ++ [x0a].

Definition s3_error_body (code message resource request_id : list byte) : list byte :=
  let body := XML_PROLOG ++ bs "<Error>" ++ [x0a] in
  let body := push_xml_element body "Code" (bounded_field code) in
  let body := push_xml_element body "Message" (bounded_field message) in
  let body := push_xml_element body "Key" (bounded_field resource) in
  let body := push_xml_element body "RequestId" request_id in
  body ++ bs "</Error>".

Record Response := mkResponse { rsp_status : Z; rsp_headers : Headers; rsp_body : list (list byte) }.
Definition is_success (r : Response) : bool := (200 <=? rsp_status r) && (rsp_status r <? 300).

(** [request_id] is the fresh UUID, as text. *)
Section errors.
  Context (request_id : list byte).

Definition s3_error_xml (code message : string) (resource : list byte) (status : Z) : Response :=
  mkResponse status (harden_object_response_headers (hm_insert "content-type" (bs "application/xml") []))
    [s3_error_body (bs code) (bs message) resource request_id].

Definition no_such_key key := s3_error_xml "NoSuchKey" "The specified key does not exist." key 404.
Definition internal_error key (detail : string) := s3_error_xml "InternalError" "We encountered an internal error." key 500.
Definition transformed_read_not_supported key :=
  s3_error_xml "NotImplemented" "Transformed reads are disabled until the streaming disclosure model is available." key 501.
Definition entity_too_large key := s3_error_xml "EntityTooLarge" "The object exceeds the maximum allowed size." key 400.
Definition not_implemented key :=
  s3_error_xml "NotImplemented" "This operation is not supported by the Maskura Gateway." key 501.
Definition access_denied key := s3_error_xml "AccessDenied" "Access Denied" key 403.
Definition payment_required key (detail : string) := s3_error_xml "PaymentRequired" detail key 402.
Definition invalid_request key (detail : string) := s3_error_xml "InvalidRequest" detail key 400.
Definition slow_down key := s3_error_xml "SlowDown" "Please reduce your request rate." key 503.
Definition service_unavailable key (detail : string) := s3_error_xml "ServiceUnavailable" detail key 503.
Definition multipart_not_supported key :=
  s3_error_xml "NotImplemented" "Multipart operations are disabled until staged multipart storage is available." key 501.
Definition no_such_upload key := s3_error_xml "NoSuchUpload" "The specified multipart upload does not exist." key 404.
Definition invalid_part key (detail : string) := s3_error_xml "InvalidPart" detail key 400.
Definition invalid_part_order key := s3_error_xml "InvalidPartOrder" "The list of parts was not in ascending order." key 400.
Definition signature_mismatch key :=
  s3_error_xml "SignatureDoesNotMatch" "The request signature we calculated does not match the signature you provided." key 403.
Definition bad_digest key (detail : string) := s3_error_xml "BadDigest" detail key 400.
Definition bucket_not_allowed bucket :=
  s3_error_xml "AccessDenied"
    "Bucket creation and deletion are not allowed on the Maskura Gateway; use an existing bucket on a configured backend." bucket 403.
Definition invalid_range key (object_length : Z) : Response :=
  let r := s3_error_xml "InvalidRange" "The requested range is not satisfiable." key 416 in
  mkResponse (rsp_status r) (hm_insert "content-range" (bs "bytes */" ++ bs (pretty object_length)) (rsp_headers r)) (rsp_body r).
End errors.

(** ** Headers with two names: [customer_headers.rs] *)

Record HeaderAlias := mkAlias { ha_canonical : string; ha_legacy : string }.
Definition ACCESS_KEY := mkAlias "x-maskura-access-key" "x-s4-access-key".
Definition SECRET_KEY := mkAlias "x-maskura-secret-key" "x-s4-secret-key".
Definition MCP_TOKEN := mkAlias "x-maskura-mcp-token" "x-s4-mcp-token".
Definition STORAGE_MODE := mkAlias "x-maskura-storage-mode" "x-s4-storage-mode".
Definition BACKEND_URL := mkAlias "x-maskura-backend-url" "x-s4-backend-url".
Definition PROCESS := mkAlias "x-maskura-process" "x-s4-process".
Definition STABLE_FIELDS := mkAlias "x-maskura-stable-fields" "x-s4-stable-fields".
Definition ENCRYPT_FIELDS := mkAlias "x-maskura-encrypt-fields" "x-s4-encrypt-fields".
Definition PLUGIN_NAME := mkAlias "x-maskura-plugin-name" "x-s4-plugin-name".
Definition ALL : list HeaderAlias :=
  [ACCESS_KEY; SECRET_KEY; MCP_TOKEN; STORAGE_MODE; BACKEND_URL; PROCESS; STABLE_FIELDS; ENCRYPT_FIELDS; PLUGIN_NAME].

Inductive HeaderAliasError : Type :=
| Duplicate (name : string)
| AliasConflict (canonical legacy : string).

Definition unique (headers : Headers) (name : string) : result HeaderAliasError (option str) :=
  match get_all headers (bs name) with
  | [] => Ok None
  | [value] => Ok (Some value)
  | _ => Err (Duplicate name)
  end.
Definition resolve_pair (canonical legacy : option str) (alias : HeaderAlias) : result HeaderAliasError (option str) :=
  match canonical, legacy with
  | Some c, Some l => if bool_decide (c = l) then Ok (Some c) else Err (AliasConflict (ha_canonical alias) (ha_legacy alias))
  | Some value, None | None, Some value => Ok (Some value)
  | None, None => Ok None
  end.
Definition aliased_unique (headers : Headers) (alias : HeaderAlias) : result HeaderAliasError (option str) :=
  canonical ← unique headers (ha_canonical alias);
  legacy ← unique headers (ha_legacy alias);
  resolve_pair canonical legacy alias.

(** [validated] panics on an error: [None] is the panic. *)
Definition validated (headers : Headers) (alias : HeaderAlias) : option (option str) :=
  match aliased_unique headers alias with Ok v => Some v | Err _ => None end.

Fixpoint validate_aliases (headers : Headers) (aliases : list HeaderAlias) : result HeaderAliasError unit :=
  match aliases with
  | [] => Ok tt
  | alias :: aliases => _ ← aliased_unique headers alias; validate_aliases headers aliases
  end.
Definition validate_all (headers : Headers) : result HeaderAliasError unit := validate_aliases headers ALL.

(** ** Proofs *)

(** *** Headers *)

Lemma get_all_remove headers name n :
  get_all (remove_name n headers) name = if bool_decide (n = name) then [] else get_all headers name.
Proof.
  unfold remove_name, get_all. induction headers as [|[k v] headers IH]; [by case_bool_decide|]. rewrite filter_cons. cbn.
  destruct (decide (k ≠ n)) as [Hk|Hk%dec_stable]; cbn.
  - rewrite IH. repeat case_bool_decide; by subst.
  - subst k. rewrite IH. repeat case_bool_decide; done.
Qed.

Lemma get_all_app a b name : get_all (a ++ b) name = get_all a name ++ get_all b name.
Proof. unfold get_all. apply omap_app. Qed.

Lemma get_all_insert headers name value n :
  get_all (hm_insert name value headers) (bs n) = if bool_decide (name = n) then [value] else get_all headers (bs n).
Proof.
  unfold hm_insert, hm_remove. rewrite get_all_app, get_all_remove. cbn. destruct (decide (name = n)) as [->|Hn].
  - by rewrite !bool_decide_eq_true_2.
  - rewrite !bool_decide_eq_false_2 by (intros E; try apply bs_inj in E; done). by rewrite app_nil_r.
Qed.

Definition hardening_names : list string :=
  ["age"; "expires"; "cache-control"; "content-disposition"; "x-content-type-options"; "content-security-policy"].
Lemma harden_other headers name :
  name ∉ hardening_names → get_all (harden_object_response_headers headers) (bs name) = get_all headers (bs name).
Proof.
  unfold hardening_names, harden_object_response_headers. intros Hn.
  rewrite !get_all_insert, !bool_decide_eq_false_2 by (intros <-; set_solver). unfold hm_remove.
  rewrite !get_all_remove, !bool_decide_eq_false_2 by (intros <-%bs_inj; set_solver). done.
Qed.

(** Every object response, errors included, is downloaded and not rendered,
    and is not cached: each protecting header is there exactly once, with its
    fixed value, whatever the source sent. *)
Theorem hardened_headers headers :
  let h := harden_object_response_headers headers in
  get_all h (bs "cache-control") = [bs "private, no-store"] ∧ get_all h (bs "content-disposition") = [bs "attachment"]
  ∧ get_all h (bs "x-content-type-options") = [bs "nosniff"]
  ∧ get_all h (bs "content-security-policy") = [bs OBJECT_DOWNLOAD_CSP]
  ∧ get_all h (bs "age") = [] ∧ get_all h (bs "expires") = []
  ∧ ∀ name, name ∉ hardening_names → get_all h (bs name) = get_all headers (bs name).
Proof.
  cbn zeta. split_and!; [..|intros name; apply harden_other]; unfold harden_object_response_headers.
  1, 2, 3, 4: by rewrite !get_all_insert.
  all: rewrite !get_all_insert; cbn; unfold hm_remove; by rewrite !get_all_remove.
Qed.

Lemma filter_ext_in {A} (P Q : A → Prop) `{∀ x, Decision (P x), ∀ x, Decision (Q x)} (l : list A) :
  (∀ x, x ∈ l → (P x ↔ Q x)) → filter P l = filter Q l.
Proof.
  induction l as [|x l IH]; intros Hpq; [done|]. rewrite !filter_cons, IH by (intros y Hy; apply Hpq; by right).
  pose proof (Hpq x ltac:(by left)). by destruct (decide (P x)), (decide (Q x)); try tauto.
Qed.

Lemma remove_names_filter names : ∀ headers : Headers,
  foldl (λ h name, remove_name name h) headers names = filter (λ h, h.1 ∉ names) headers.
Proof.
  induction names as [|n names IH]; intros headers; cbn [foldl].
  - induction headers as [|h headers IH]; [done|]. rewrite filter_cons_True by apply not_elem_of_nil. by f_equal.
  - rewrite IH. unfold remove_name. rewrite list_filter_filter. apply list_filter_iff. intros h. rewrite not_elem_of_cons. tauto.
Qed.

Lemma hop_names_filter names (headers : Headers) :
  foldl (λ h name, hm_remove name h) headers names = filter (λ h, h.1 ∉ bs <$> names) headers.
Proof. rewrite <- remove_names_filter. revert headers. induction names as [|n names IH]; intros h; [done|]. apply IH. Qed.

(** What an untrusted presigned backend may add to a response: exactly the
    entries whose name is on the list, and which its [Connection] header does
    not claim; in their order, and nothing that belongs to the connection. *)
Theorem presigned_headers_exact headers :
  filter_presigned_response_headers headers =
    filter (λ h, is_allowed_presigned_response_header h.1 = true ∧ h.1 ∉ connection_extensions headers) headers
  ∧ ∀ name, name ∈ bs <$> hop_by_hop_names → is_allowed_presigned_response_header name = false.
Proof.
  assert (Hhop : ∀ name, name ∈ bs <$> hop_by_hop_names → is_allowed_presigned_response_header name = false).
  { apply Forall_forall. unfold hop_by_hop_names. cbn [fmap list_fmap]. repeat constructor; by vm_compute. }
  split; [|done]. unfold filter_presigned_response_headers, strip_hop_by_hop_headers.
  rewrite hop_names_filter, !remove_names_filter. set (ext := connection_extensions headers).
  rewrite !list_filter_filter. apply filter_ext_in. intros [n v] Hin. cbn [fst].
  rewrite list_elem_of_filter. unfold keys. rewrite elem_of_remove_dups.
  destruct (is_allowed_presigned_response_header n) eqn:Ea.
  - split; [by intros [_ ?]|]. intros [_ Hext]. split; [|done]. split; [by intros [? _]|].
    intros Hn. rewrite Hhop in Ea by done. done.
  - split; [|by intros [? _]]. intros ((Hno & Hhop') & Hext). destruct Hno. split; [done|].
    apply list_elem_of_fmap. exists (n, v). split; [done|]. by apply list_elem_of_filter.
Qed.

(** *** Bodies *)

(** What a consumer got from the inner body: its frames up to the first
    that is refused or broken. *)
Lemma drain_body_spec limits fuel : ∀ b fs r b',
  (length (cb_inner b) < fuel)%nat → 0 <= cb_bytes b <= bl_max_bytes limits →
  bl_max_bytes limits + Z.of_nat (bl_max_frame_bytes limits) <= u64_max →
  drain_body fuel limits b = (fs, r, b') →
  cb_bytes b + Z.of_nat (length (body_bytes fs)) <= bl_max_bytes limits
  ∧ Forall (λ f, (length (frame_bytes_of f) ≤ bl_max_frame_bytes limits)%nat) fs
  ∧ inr <$> fs `prefix_of` cb_inner b
  ∧ match r with
    | None => cb_inner b = inr <$> fs ∧ cb_bytes b' = cb_bytes b + Z.of_nat (length (body_bytes fs))
              ∧ cb_finished b' = true ∧ cb_cancelled b' = cb_cancelled b
    | Some _ => cb_cancelled b' = true
    end.
Proof.
  induction fuel as [|fuel IH]; intros b fs r b' Hfuel Hb Hmax; [lia|]. cbn [drain_body]. unfold poll_frame.
  destruct (cb_inner b) as [|[m|[data|t]] rest] eqn:Ei.
  - intros [= <- <- <-]. cbn. split_and!; try done; lia.
  - intros [= <- <- <-]. cbn. split_and!; try done; [lia|apply prefix_nil].
  - destruct (Nat.ltb_spec (bl_max_frame_bytes limits) (length data)) as [|Hlen].
    { intros [= <- <- <-]. cbn. split_and!; try done; [lia|apply prefix_nil]. }
    assert (Hw : u64_wrap (cb_bytes b + Z.of_nat (length data)) = cb_bytes b + Z.of_nat (length data)).
    { unfold u64_wrap. apply Z.mod_small. unfold u64_max in Hmax. lia. }
    rewrite Hw. destruct (Z.ltb_spec (bl_max_bytes limits) (cb_bytes b + Z.of_nat (length data))) as [|Hle].
    { intros [= <- <- <-]. cbn. split_and!; try done; [lia|apply prefix_nil]. }
    destruct (drain_body fuel limits _) as [[fs' r'] b''] eqn:Ed. intros [= <- <- <-].
    apply IH in Ed as (H1 & H2 & H3 & H4); [|cbn in *; lia..]. cbn in H1, H2, H3, H4 |- *.
    unfold body_bytes in *. cbn [fmap list_fmap concat frame_bytes_of]. rewrite length_app. split; [lia|].
    split; [by constructor|]. split; [by apply prefix_cons|]. destruct r'; [done|].
    destruct H4 as (-> & -> & ? & ?). split_and!; try done. lia.
  - destruct (drain_body fuel limits _) as [[fs' r'] b''] eqn:Ed. intros [= <- <- <-].
    apply IH in Ed as (H1 & H2 & H3 & H4); [|cbn in *; lia..]. cbn in H1, H2, H3, H4 |- *.
    unfold body_bytes in *. cbn [fmap list_fmap concat frame_bytes_of app]. split; [lia|].
    split; [constructor; [cbn; lia|done]|]. split; [by apply prefix_cons|]. destruct r'; [done|]. by destruct H4 as (-> & ?).
Qed.

(** C38: The source body keeps its limits: no consumer ever gets more bytes than
    the limit allows, or a larger frame; a regular end means that every frame
    of the source was handed out and counted, and every other end cancels the
    source. *)
Theorem counted_body_bounded limits inner fs r b :
  0 <= bl_max_bytes limits → bl_max_bytes limits + Z.of_nat (bl_max_frame_bytes limits) <= u64_max →
  read_body limits inner = (fs, r, b) →
  Z.of_nat (length (body_bytes fs)) <= bl_max_bytes limits
  ∧ Forall (λ f, (length (frame_bytes_of f) ≤ bl_max_frame_bytes limits)%nat) fs
  ∧ inr <$> fs `prefix_of` inner
  ∧ match r with
    | None => inner = inr <$> fs ∧ cb_bytes b = Z.of_nat (length (body_bytes fs)) ∧ cb_cancelled (counted_drop b) = false
    | Some _ => cb_cancelled b = true
    end.
Proof.
  intros H0 Hmax E. apply drain_body_spec in E as (H1 & H2 & H3 & H4); [|cbn; lia..]. split; [exact H1|].
  split; [done|]. split; [done|]. destruct r; [done|]. destruct H4 as (? & Hb & Hf & Hc). split; [done|].
  split; [exact Hb|]. unfold counted_drop. by rewrite Hf, Hc.
Qed.

Lemma chunked_frames_spec fuel : ∀ b,
  (0 < ck_frame_bytes b)%nat → (ck_offset b ≤ length (ck_bytes b))%nat →
  (length (ck_bytes b) - ck_offset b < fuel)%nat →
  ∃ fs, chunked_frames fuel b = Some fs ∧ concat fs = drop (ck_offset b) (ck_bytes b)
    ∧ Forall (λ f, 0 < length f ≤ ck_frame_bytes b)%nat fs.
Proof.
  induction fuel as [|fuel IH]; intros b Hfb Hoff Hfuel; [lia|]. cbn [chunked_frames]. unfold chunked_poll.
  destruct (Nat.eqb_spec (ck_offset b) (length (ck_bytes b))) as [Heq|Hne].
  { exists []. split; [done|]. split; [|constructor]. rewrite Heq. by rewrite drop_all. }
  set (e := Nat.min _ _). destruct (IH (mkChunked (ck_bytes b) e (ck_frame_bytes b))) as (fs & -> & Hc & Hall); cbn; [lia..|].
  cbn in Hc, Hall. eexists. split; [done|]. cbn [concat]. split.
  - rewrite Hc. rewrite <- (take_drop (e - ck_offset b) (drop (ck_offset b) (ck_bytes b))) at 2. f_equal.
    rewrite drop_drop. f_equal. lia.
  - constructor; [|done]. rewrite length_take, length_drop. lia.
Qed.

(** An in-memory object is served completely: the frames end, each holds at
    least a byte and at most the configured number, and they concatenate to
    the object, which is as long as the size hint says. *)
Theorem chunked_body_complete bytes frame_bytes :
  ∃ fs, chunked_frames (S (length bytes)) (chunked_new bytes frame_bytes) = Some fs ∧ concat fs = bytes
    ∧ Forall (λ f, 0 < length f ≤ Nat.max frame_bytes 1)%nat fs
    ∧ chunked_size_hint (chunked_new bytes frame_bytes) = Z.of_nat (length (concat fs)).
Proof.
  destruct (chunked_frames_spec (S (length bytes)) (chunked_new bytes frame_bytes)) as (fs & Hf & Hc & Hall); cbn; [lia..|].
  exists fs. split_and!; [done|done|done|]. rewrite Hc. unfold chunked_size_hint. cbn [chunked_new ck_bytes ck_offset].
  rewrite drop_0. lia.
Qed.

(** *** Ranges *)

(** A range of an in-memory object is answered with exactly the bytes that
    the Content-Range header announces, which lie within the object. *)
Theorem memory_range_exact data range part header :
  memory_range data (Some range) = Ok (part, Some header) →
  ∃ s e, 0 <= s <= e ∧ e < Z.of_nat (length data) ∧ header = range_header s e (Z.of_nat (length data))
    ∧ Z.of_nat (length part) = e - s + 1 ∧ part = take (Z.to_nat (e - s + 1)) (drop (Z.to_nat s) data).
Proof.
  unfold memory_range. set (len := Z.of_nat (length data)). destruct (strip_prefix _ _) as [spec|]; cbn; [|done].
  case_bool_decide; [done|]. destruct (split_once x2d spec) as [[a b]|]; cbn; [|done].
  destruct (Z.eqb_spec len 0) as [|Hlen]; [done|].
  assert (Hfin : ∀ s e, 0 <= s <= e → e < len →
    Ok (E := Z) (take (Z.to_nat (e - s + 1)) (drop (Z.to_nat s) data), Some (range_header s e len)) = Ok (part, Some header) →
    ∃ s e, 0 <= s <= e ∧ e < len ∧ header = range_header s e len ∧ Z.of_nat (length part) = e - s + 1
      ∧ part = take (Z.to_nat (e - s + 1)) (drop (Z.to_nat s) data)).
  { intros s e Hse He [= <- <-]. exists s, e. do 3 (split; [done|]). split; [|done].
    rewrite length_take, length_drop. unfold len in *. lia. }
  case_bool_decide.
  - destruct (from_str_radix 10 b) as [n|] eqn:En; cbn; [|done]. apply from_str_radix_nonneg in En; [|lia].
    destruct (Z.eqb_spec n 0); cbn; [done|].
    apply Hfin; unfold len in Hlen |- *; lia.
  - destruct (from_str_radix 10 a) as [s|] eqn:Es; cbn; [|done]. apply from_str_radix_nonneg in Es; [|lia].
    assert (He : ∀ e, (if (len <=? s) || (e <? s) then Err len else Ok (s, Z.min e (len - 1)))
      ≫= (λ bounds : Z * Z, let '(s, e) := bounds in
           Ok (take (Z.to_nat (e - s + 1)) (drop (Z.to_nat s) data), Some (range_header s e len))) = Ok (part, Some header) →
      ∃ s e, 0 <= s <= e ∧ e < len ∧ header = range_header s e len ∧ Z.of_nat (length part) = e - s + 1
        ∧ part = take (Z.to_nat (e - s + 1)) (drop (Z.to_nat s) data)).
    { intros e. destruct (Z.leb_spec len s); [done|]. destruct (Z.ltb_spec e s); [done|]. apply Hfin; lia. }
    case_bool_decide; [apply He|]. destruct (from_str_radix 10 b) as [e|]; [apply (He e)|done].
Qed.

(** *** Error documents *)

(** A character of a valid string: one ASCII byte, or bytes outside ASCII as
    many as the first one says. *)
Definition good_char (c : list byte) : Prop :=
  ∃ b t, c = b :: t ∧ length c = char_width b ∧ (b2z b < 128 ∨ Forall (λ b, 128 <= b2z b) c).

Lemma char_width_ascii b : b2z b < 128 → char_width b = 1%nat.
Proof. intros Hb. unfold char_width. by rewrite (proj2 (Z.ltb_lt _ _)). Qed.
Lemma char_width_range b : (1 ≤ char_width b ≤ 4)%nat.
Proof. unfold char_width. repeat case_match; lia. Qed.

Lemma chars_concat fuel : ∀ l, (length l ≤ fuel)%nat → concat (utf8_chars fuel l) = l.
Proof.
  induction fuel as [|fuel IH]; intros [|b l] Hl; cbn [utf8_chars concat]; [done|cbn in Hl; lia|done|].
  rewrite IH; [apply take_drop|]. pose proof (char_width_range b). rewrite length_drop. cbn in *. lia.
Qed.

Lemma utf8_chars_good fuel : ∀ i l, utf8_error_from i l = None → Forall good_char (utf8_chars fuel l).
Proof.
  induction fuel as [|fuel IH]; intros i [|a l]; [constructor..|]. cbn [utf8_error_from utf8_chars].
  destruct (Z.ltb_spec (b2z a) 128) as [Ha|Ha].
  { intros E. rewrite char_width_ascii by done. constructor; [|by apply (IH (i + 1))]. exists a, [].
    rewrite char_width_ascii by done. auto. }
  assert (Hmany : ∀ t, length (a :: t) = char_width a → Forall (λ b, 128 <= b2z b) t → good_char (a :: t)).
  { intros t Hl Ht. exists a, t. split; [done|]. split; [done|]. right. by constructor. }
  unfold char_width, within in *.
  destruct (Z.leb_spec 194 (b2z a)); destruct (Z.leb_spec (b2z a) 223); cbn [andb].
  2, 3, 4: destruct (Z.leb_spec 224 (b2z a)); destruct (Z.leb_spec (b2z a) 239); cbn [andb]; try lia.
  all: repeat (match goal with
    | |- match ?l with [] => _ | _ :: _ => _ end = None → _ => destruct l; [done|]
    | |- (if ?x then _ else _) = None → _ => destruct x eqn:?; [|done]
    | |- Some _ = None → _ => done
    end).
  all: intros E; repeat match goal with H : context [b2z ?x <? ?n] |- _ => destruct (Z.ltb_spec (b2z x) n); try lia end.
  all: repeat match goal with H : context [if ?x then _ else _] |- _ => destruct x end.
  all: constructor; [|by eapply IH]; cbn [take]; rewrite take_0; apply Hmany; [done|].
  all: repeat (apply Forall_cons; split; [lia|]); by apply Forall_nil.
Qed.

Lemma chars_good l : utf8_valid l = true → Forall good_char (chars l).
Proof. unfold utf8_valid, utf8_error. destruct (utf8_error_from 0 l) eqn:E; [done|]. intros _. by eapply utf8_chars_good. Qed.

(** Characters put together are taken apart again. *)
Lemma chars_of_concat cs : Forall good_char cs → chars (concat cs) = cs.
Proof.
  intros Hcs. unfold chars. generalize (le_n (length (concat cs))). generalize (length (concat cs)) at 2 3. intros fuel.
  revert cs Hcs. induction fuel as [|fuel IH]; intros cs Hcs Hlen.
  - destruct Hcs as [|c cs (b & t & -> & _) _]; [done|]. cbn in Hlen. lia.
  - destruct Hcs as [|c cs (b & t & -> & Hl & _) Hcs]; [done|]. cbn [concat app utf8_chars].
    rewrite <- Hl. change (b :: t ++ concat cs) with ((b :: t) ++ concat cs). rewrite take_app_length, drop_app_length. f_equal.
    apply IH; [done|]. cbn in Hlen. rewrite length_app in Hlen. lia.
Qed.

Definition count (b : byte) (l : list byte) : nat := length (filter (λ x, x = b) l).
Lemma count_app b x y : count b (x ++ y) = (count b x + count b y)%nat.
Proof. unfold count. by rewrite filter_app, length_app. Qed.
Lemma count_zero x c : x ∉ c → count x c = 0%nat.
Proof.
  intros Hx. unfold count. induction c as [|y c IH]; [done|]. rewrite filter_cons_False by (intros ->; apply Hx; by left).
  apply IH. intros Hin. apply Hx. by right.
Qed.

(** The escaped form of a character has no angle bracket. *)
Lemma xml_char_spec c :
  good_char c → count x3c (xml_char c) = 0%nat ∧ count x3e (xml_char c) = 0%nat ∧ (length (xml_char c) ≤ 6)%nat.
Proof.
  intros (b & t & -> & Hl & [Hb|Hall]).
  - rewrite char_width_ascii in Hl by done. destruct t; [|done].
    assert (Hc : ∀ b, b2z b < 128 → (count x3c (xml_char [b]) =? 0)%nat && (count x3e (xml_char [b]) =? 0)%nat
      && (length (xml_char [b]) <=? 6)%nat = true).
    { intros x Hx. destruct x; try (by vm_compute in Hx); by vm_compute. }
    specialize (Hc b Hb). apply andb_prop in Hc as [Hc ?%Nat.leb_le]. apply andb_prop in Hc as [?%Nat.eqb_eq ?%Nat.eqb_eq]. done.
  - assert (Hno : ∀ x, b2z x < 128 → x ∉ b :: t) by (intros x Hx Hin; rewrite Forall_forall in Hall; apply Hall in Hin; lia).
    assert (E : xml_char (b :: t) = if is_xml_char (b :: t) then b :: t else REPLACEMENT).
    { destruct t as [|b' t]; unfold xml_char; [|by destruct b].
      inversion Hall as [|? ? Hb _]. destruct b; try done; by vm_compute in Hb. }
    rewrite E. destruct (is_xml_char (b :: t)).
    + split_and!; [by apply count_zero, Hno|by apply count_zero, Hno|]. pose proof (char_width_range b). lia.
    + split_and!; [by vm_compute..|]. by vm_compute; lia.
Qed.

Lemma chars_length cs : Forall good_char cs → (length cs ≤ length (concat cs))%nat.
Proof. induction 1 as [|c cs (b & t & -> & _) _ IH]; [done|]. cbn. rewrite length_app. lia. Qed.

Lemma xml_text_spec output cs :
  Forall good_char cs →
  count x3c (push_xml_text output (concat cs)) = count x3c output
  ∧ count x3e (push_xml_text output (concat cs)) = count x3e output
  ∧ (length (push_xml_text output (concat cs)) ≤ length output + 6 * length (concat cs))%nat.
Proof.
  intros Hv. unfold push_xml_text. rewrite chars_of_concat, !count_app, length_app by done. pose proof (chars_length _ Hv) as Hlen.
  assert (Hcs : count x3c (concat (xml_char <$> cs)) = 0%nat
    ∧ count x3e (concat (xml_char <$> cs)) = 0%nat ∧ (length (concat (xml_char <$> cs)) ≤ 6 * length cs)%nat).
  { clear Hlen. induction Hv as [|c cs Hc _ (IH1 & IH2 & IH3)]; [by vm_compute; repeat split; lia|].
    destruct (xml_char_spec c Hc) as (H1 & H2 & H3). cbn [fmap list_fmap concat]. rewrite !count_app, length_app. cbn [length]. lia. }
  destruct Hcs as (-> & -> & ?). lia.
Qed.

Lemma bounded_field_spec value :
  utf8_valid value = true →
  ∃ cs, bounded_field value = concat cs ∧ Forall good_char cs ∧ cs `prefix_of` chars value
    ∧ (length (bounded_field value) ≤ MAX_S3_ERROR_FIELD_BYTES)%nat.
Proof.
  intros Hv%chars_good. unfold bounded_field.
  assert (Hgen : ∀ cs pre, Forall good_char cs → (length (concat pre) ≤ MAX_S3_ERROR_FIELD_BYTES)%nat →
    ∃ k, bounded_chars (concat pre) cs = concat (pre ++ take k cs)
      ∧ (length (bounded_chars (concat pre) cs) ≤ MAX_S3_ERROR_FIELD_BYTES)%nat).
  { induction cs as [|c cs IH]; intros pre Hcs Hlen; cbn [bounded_chars].
    - exists 0%nat. by rewrite take_0, app_nil_r.
    - destruct (Nat.ltb_spec MAX_S3_ERROR_FIELD_BYTES (length (concat pre) + length c)).
      + exists 0%nat. by rewrite take_0, app_nil_r.
      + inversion Hcs as [|? ? _ Hcs']. destruct (IH (pre ++ [c]) Hcs') as (k & Ek & Hk).
        * rewrite concat_app, length_app. cbn. rewrite app_nil_r. lia.
        * rewrite concat_app in Ek, Hk. cbn [concat] in Ek, Hk. rewrite app_nil_r in Ek, Hk.
          exists (S k). rewrite Ek. split; [|by rewrite <- Ek]. cbn [take]. by rewrite <- app_assoc. }
  destruct (Hgen (chars value) [] Hv) as (k & Ek & Hk); [cbn; lia|]. cbn [concat app] in Ek, Hk.
  exists (take k (chars value)). split; [done|]. split; [by apply Forall_take|]. split; [apply prefix_take|done].
Qed.

Lemma xml_element_spec output name cs :
  Forall good_char cs → count x3c (bs name) = 0%nat → count x3e (bs name) = 0%nat →
  count x3c (push_xml_element output name (concat cs)) = (count x3c output + 2)%nat
  ∧ count x3e (push_xml_element output name (concat cs)) = (count x3e output + 2)%nat
  ∧ (length (push_xml_element output name (concat cs)) ≤ length output + 6 * length (concat cs) + 2 * length (bs name) + 8)%nat.
Proof.
  intros Hcs H1 H2. unfold push_xml_element. rewrite !count_app, !length_app.
  destruct (xml_text_spec (output ++ bs "  <" ++ bs name ++ [x3e]) cs Hcs) as (-> & -> & Hl).
  rewrite !count_app, !length_app in *. rewrite H1, H2.
  change (count x3c (bs "  <")) with 1%nat. change (count x3e (bs "  <")) with 0%nat.
  change (count x3c (bs "</")) with 1%nat. change (count x3e (bs "</")) with 0%nat.
  change (count x3c [x3e]) with 0%nat. change (count x3e [x3e]) with 1%nat.
  change (count x3c [x3e; x0a]) with 0%nat. change (count x3e [x3e; x0a]) with 1%nat.
  change (length (bs "  <")) with 3%nat in *. change (length (bs "</")) with 2%nat. cbn [length] in *. lia.
Qed.

(** *** Reading the document back

    A reader of the document: the character data of an element ends at the
    next tag, an ampersand has to begin one of the five entities. *)
Definition ENTITIES : list (list byte * byte) :=
  [(bs "amp;", x26); (bs "lt;", x3c); (bs "gt;", x3e); (bs "quot;", x22); (bs "apos;", x27)].
Fixpoint find_entity (entities : list (list byte * byte)) (l : list byte) : option (byte * list byte) :=
  match entities with
  | [] => None
  | (name, c) :: entities =>
    match strip_prefix name l with Some rest => Some (c, rest) | None => find_entity entities l end
  end.
Definition prepend (t : list byte) (o : option (list byte * list byte)) : option (list byte * list byte) :=
  prod_map (app t) id <$> o.
Fixpoint read_text (fuel : nat) (l : list byte) : option (list byte * list byte) :=
  match fuel, l with
  | S fuel, b :: rest =>
    if bool_decide (b = x3c) then Some ([], l)
    else if bool_decide (b = x26) then
      match find_entity ENTITIES rest with Some (c, rest) => prepend [c] (read_text fuel rest) | None => None end
    else prepend [b] (read_text fuel rest)
  | _, _ => None
  end.
Definition read_element (name : string) (doc : list byte) : option (list byte * list byte) :=
  body ← strip_prefix (bs "  <" ++ bs name ++ [x3e]) doc;
  text ← read_text (length body) body;
  rest ← strip_prefix (bs "</" ++ bs name ++ [x3e; x0a]) text.2;
  Some (text.1, rest).
Definition read_error (doc : list byte) : option (list byte * list byte * list byte * list byte) :=
  doc ← strip_prefix (XML_PROLOG ++ bs "<Error>" ++ [x0a]) doc;
  code ← read_element "Code" doc;
  message ← read_element "Message" code.2;
  resource ← read_element "Key" message.2;
  request_id ← read_element "RequestId" resource.2;
  if bool_decide (request_id.2 = bs "</Error>") then Some (code.1, message.1, resource.1, request_id.1) else None.

(** A value as XML can show it: characters that XML does not allow are replaced. *)
Definition shown_char (c : list byte) : list byte := if is_xml_char c then c else REPLACEMENT.
Definition shown (value : list byte) : list byte := concat (shown_char <$> chars value).

Lemma prepend_prepend a b o : prepend a (prepend b o) = prepend (a ++ b) o.
Proof. destruct o as [[t r]|]; [|done]. cbn. by rewrite app_assoc. Qed.

Lemma read_plain e tail fuel :
  x3c ∉ e → x26 ∉ e → read_text (length e + fuel) (e ++ tail) = prepend e (read_text fuel tail).
Proof.
  induction e as [|b e IH]; intros H1 H2; cbn [length app read_text Nat.add].
  { unfold prepend. destruct (read_text fuel tail) as [[t r]|]; done. }
  rewrite not_elem_of_cons in H1, H2. rewrite !bool_decide_eq_false_2 by naive_solver.
  rewrite IH by tauto. apply (prepend_prepend [b]).
Qed.

(** An escaped character is an entity that stands for it, or shows itself. *)
Lemma xml_char_cases c :
  good_char c →
  (∃ name b, xml_char c = x26 :: name ∧ shown_char c = [b] ∧ ∀ tail, find_entity ENTITIES (name ++ tail) = Some (b, tail))
  ∨ (xml_char c = shown_char c ∧ (x3c ∉ shown_char c) ∧ (x26 ∉ shown_char c)).
Proof.
  assert (Hrep : (x3c ∉ REPLACEMENT) ∧ (x26 ∉ REPLACEMENT)) by (split; apply (bool_decide_unpack _); by vm_compute).
  assert (Hshown : ∀ c, x3c ∉ c → x26 ∉ c → (x3c ∉ shown_char c) ∧ (x26 ∉ shown_char c)).
  { intros x ? ?. unfold shown_char. by destruct (is_xml_char x). }
  intros (b & t & -> & Hl & [Hb|Hall]).
  - rewrite char_width_ascii in Hl by done. destruct t; [|done].
    destruct (decide (b ∈ ENTITIES.*2)) as [Hin|Hout].
    + left. cbn in Hin. repeat (apply elem_of_cons in Hin as [->|Hin]; [eexists _, _; by split_and!|]). by apply elem_of_nil in Hin.
    + right. cbn in Hout. rewrite !not_elem_of_cons in Hout. destruct Hout as (? & ? & ? & ? & ? & _).
      split; [destruct b; try done; by vm_compute|]. apply Hshown; rewrite list_elem_of_singleton; congruence.
  - assert (Hno : ∀ x, b2z x < 128 → x ∉ b :: t) by (intros x Hx Hin; rewrite Forall_forall in Hall; apply Hall in Hin; lia).
    right. split; [|by apply Hshown; apply Hno]. unfold shown_char.
    destruct t as [|b' t]; unfold xml_char; [|by destruct b]. inversion Hall as [|? ? Hb _]. destruct b; try done; by vm_compute in Hb.
Qed.

Lemma read_text_chars cs r : ∀ fuel,
  Forall good_char cs → (length (concat (xml_char <$> cs)) < fuel)%nat →
  read_text fuel (concat (xml_char <$> cs) ++ x3c :: r) = Some (concat (shown_char <$> cs), x3c :: r).
Proof.
  induction cs as [|c cs IH]; intros fuel Hcs Hf; cbn [fmap list_fmap concat] in *.
  { destruct fuel; [cbn in Hf; lia|]. done. }
  inversion Hcs as [|? ? Hc Hcs']; subst. rewrite length_app in Hf. rewrite <- app_assoc.
  destruct (xml_char_cases c Hc) as [(name & b & Ex & Es & He)|(Ex & H1 & H2)].
  - rewrite Ex, Es in *. destruct fuel as [|fuel]; [cbn in Hf; lia|]. cbn [app read_text].
    rewrite bool_decide_eq_false_2, bool_decide_eq_true_2 by done. rewrite He, IH; [done|done|]. cbn in Hf. lia.
  - rewrite Ex in *. replace fuel with (length (shown_char c) + (fuel - length (shown_char c)))%nat by lia.
    rewrite read_plain, IH by (done || lia). done.
Qed.

Lemma read_element_ok name output value rest cs :
  Forall good_char cs → value = concat cs →
  ∃ doc, push_xml_element output name value ++ rest = output ++ doc
    ∧ read_element name doc = Some (shown value, rest).
Proof.
  intros Hcs ->. unfold push_xml_element, push_xml_text. rewrite chars_of_concat by done.
  exists ((bs "  <" ++ bs name ++ [x3e]) ++ concat (xml_char <$> cs) ++ (bs "</" ++ bs name ++ [x3e; x0a]) ++ rest).
  split; [by rewrite <- !app_assoc|]. unfold read_element. rewrite strip_prefix_app. cbn [mbind option_bind].
  change ((bs "</" ++ bs name ++ [x3e; x0a]) ++ rest) with (x3c :: (x2f :: bs name ++ [x3e; x0a]) ++ rest).
  rewrite read_text_chars; [|done|rewrite length_app; cbn; lia]. cbn [mbind option_bind fst snd].
  change (x3c :: (x2f :: bs name ++ [x3e; x0a]) ++ rest) with ((bs "</" ++ bs name ++ [x3e; x0a]) ++ rest).
  rewrite strip_prefix_app. cbn [mbind option_bind]. unfold shown. by rewrite chars_of_concat.
Qed.

Lemma read_error_body code message resource request_id :
  utf8_valid code = true → utf8_valid message = true → utf8_valid resource = true → utf8_valid request_id = true →
  read_error (s3_error_body code message resource request_id)
    = Some (shown (bounded_field code), shown (bounded_field message), shown (bounded_field resource), shown request_id).
Proof.
  intros Hc Hm Hr Hi. destruct (bounded_field_spec _ Hc) as (cs1 & E1 & G1 & _).
  destruct (bounded_field_spec _ Hm) as (cs2 & E2 & G2 & _). destruct (bounded_field_spec _ Hr) as (cs3 & E3 & G3 & _).
  pose proof (chars_good _ Hi) as G4. pose proof (chars_concat (length request_id) request_id (le_n _)) as E4.
  unfold s3_error_body, read_error. set (p := XML_PROLOG ++ bs "<Error>" ++ [x0a]).
  edestruct (read_element_ok "RequestId") as (d4 & -> & R4); [exact G4|symmetry; exact E4|].
  edestruct (read_element_ok "Key") as (d3 & -> & R3); [exact G3|exact E3|].
  edestruct (read_element_ok "Message") as (d2 & -> & R2); [exact G2|exact E2|].
  edestruct (read_element_ok "Code") as (d1 & -> & R1); [exact G1|exact E1|].
  rewrite strip_prefix_app. cbn [mbind option_bind]. rewrite R1. cbn [mbind option_bind fst snd]. rewrite R2.
  cbn [mbind option_bind fst snd]. rewrite R3. cbn [mbind option_bind fst snd]. rewrite R4. cbn [mbind option_bind fst snd].
  by rewrite bool_decide_eq_true_2.
Qed.


(** *** Customer headers *)

Lemma aliased_spec headers alias v :
  aliased_unique headers alias = Ok v →
  ∀ x, v = Some x ↔ x ∈ get_all headers (bs (ha_canonical alias)) ++ get_all headers (bs (ha_legacy alias)).
Proof.
  unfold aliased_unique, unique, resolve_pair.
  destruct (get_all headers (bs (ha_canonical alias))) as [|c [|]]; cbn; [| |done];
    (destruct (get_all headers (bs (ha_legacy alias))) as [|l [|]]; cbn; [| |done]).
  - intros [= <-] x. split; [done|]. by intros ?%elem_of_nil.
  - intros [= <-] x. rewrite list_elem_of_singleton. split; [by intros [= ->]|by intros ->].
  - intros [= <-] x. rewrite list_elem_of_singleton. split; [by intros [= ->]|by intros ->].
  - case_bool_decide as Hcl; [|done]. subst l. intros [= <-] x. rewrite elem_of_cons, list_elem_of_singleton.
    split; [by intros [= ->]; left|by intros [->| ->]].
Qed.

(** Once a request passed the check of its headers, reading a customer header
    never panics, and it yields the one value that was sent under either
    name. *)
Theorem validated_headers_total headers alias :
  validate_all headers = Ok tt → alias ∈ ALL →
  ∃ v, validated headers alias = Some v
    ∧ ∀ x, v = Some x ↔ x ∈ get_all headers (bs (ha_canonical alias)) ++ get_all headers (bs (ha_legacy alias)).
Proof.
  unfold validate_all. intros Hv Hin. induction ALL as [|a l IH]; [by apply elem_of_nil in Hin|]. cbn in Hv.
  destruct (aliased_unique headers a) as [v|] eqn:Ea; [|done]. apply elem_of_cons in Hin as [->|Hin]; [|by apply IH].
  exists v. unfold validated. rewrite Ea. split; [done|]. by apply aliased_spec.
Qed.
