(* ===== verification/TransformedRead.v ===== *)
(** * Reads: [s3_get] of [server.rs] and what it composes

    A GET of an object from its authorization on: the resolution and the
    snapshot of the pipeline, the preflight on the stored metadata, the source
    object through the record decoder ([RecordDecoder.v]) and the filter
    pipeline, and then one of three ways out: the encrypted spool
    ([ReadSpool.v]), the direct body of a pipeline whose filters are safe to
    disclose as they run, or the untransformed object.  The control plane is
    asked to record the usage or to release the reservation: its calls are the
    log of the model.

    The control plane ([control.rs] has the trait and an implementation that
    always agrees) answers each call as it likes; the backends answer with a
    source object or an error; the Avro codec is a function argument. *)

From S2P Require Import Prelude Staging Operation RustStr Integrity Format RecordDecoder RecordProofs SigV4 Managed SinkApi Spool ReadSpool StreamingPut ObjectBody.

#[local] Open Scope Z_scope.
Set Default Goal Selector "!".

(** ** The control plane: [control.rs] *)

Record UsageAuthorization := mkUsageAuthorization {
  ua_operation_id : Uuid;
  ua_receipt_id : Uuid;
  ua_bucket : string;
  ua_route : UsageRoute;
  ua_kind : RequestKind;
  ua_max_processed_bytes : Z;
  ua_pipeline_revision : option string;
  ua_pipeline_fingerprint : option string;
}.

(** [AuthorizationGrant::new]. *)
Definition grant_new (a : UsageAuthorization) (occurred_at rate_version : Z) : AuthorizationGrant :=
  mkGrant (ua_operation_id a) (ua_receipt_id a) occurred_at rate_version (ua_bucket a) (ua_route a) (ua_kind a)
    (ua_max_processed_bytes a) (ua_pipeline_revision a) (ua_pipeline_fingerprint a).

Definition grant_matches (g : AuthorizationGrant) (a : UsageAuthorization) : bool :=
  bool_decide (gr_operation_id g = ua_operation_id a) && bool_decide (gr_receipt_id g = ua_receipt_id a)
  && bool_decide (gr_bucket g = ua_bucket a) && bool_decide (gr_route g = ua_route a)
  && bool_decide (gr_kind g = ua_kind a) && (gr_max_processed_bytes g =? ua_max_processed_bytes a)
  && bool_decide (gr_pipeline_revision g = ua_pipeline_revision a)
  && bool_decide (gr_pipeline_fingerprint g = ua_pipeline_fingerprint a).

Inductive AuthorizationDecision : Type :=
| Granted (grant : AuthorizationGrant)
| Blocked (message : string).
Inductive AuthorizationError : Type := AuthorizationUnavailable.
Inductive MeteringError : Type := MeteringUnavailable | MeteringConflict | MeteringRejected.

(** A call of the control plane after the authorization, with its success.
    [CallRecordLost] is a record call that was sent and whose answer was not
    waited for: the usage may be recorded or not. *)
Inductive ControlCall : Type :=
| CallRelease (operation_id : Uuid) (released : bool)
| CallRecord (event : UsageEvent) (recorded : bool)
| CallRecordLost (event : UsageEvent)
| CallAttempt (error_code : string).

(** The answers to the [n]-th call. *)
Class ControlPlane := {
  cp_authorize : UsageAuthorization → result AuthorizationError AuthorizationDecision;
  cp_release : nat → bool;
  cp_record : nat → option MeteringError;
}.

Section control.
  Context `{ControlPlane} (request_id key : list byte).
  Abbreviation Log := (list ControlCall).

Definition authorize_request (authorization : UsageAuthorization) : result Response AuthorizationGrant :=
  match cp_authorize authorization with
  | Ok (Granted grant) =>
    if grant_matches grant authorization then Ok grant
    else Err (service_unavailable request_id key "Authorization returned an invalid grant.")
  | Ok (Blocked message) => Err (payment_required request_id key message)
  | Err AuthorizationUnavailable =>
    Err (service_unavailable request_id key "Authorization is temporarily unavailable.")
  end.

Definition control_release (operation_id : Uuid) (log : Log) : bool * Log :=
  let ok := cp_release (length log) in (ok, log ++ [CallRelease operation_id ok]).
Definition control_record (event : UsageEvent) (log : Log) : option MeteringError * Log :=
  let e := cp_record (length log) in (e, log ++ [CallRecord event (bool_decide (e = None))]).

Definition release_failure (grant : AuthorizationGrant) (response : Response) (log : Log) : Response * Log :=
  let (ok, log) := control_release (gr_operation_id grant) log in
  (if ok then response
   else service_unavailable request_id key "Authorization is temporarily unavailable while releasing the operation.", log).

Definition metering_error_response (error : MeteringError) : Response :=
  match error with
  | MeteringUnavailable => service_unavailable request_id key "Usage metering is temporarily unavailable."
  | MeteringConflict => invalid_request request_id key "The usage receipt conflicts with an existing usage event."
  | MeteringRejected => payment_required request_id key "The usage event was rejected."
  end.

Definition record_failed_pipeline_attempt (error_code : string) (log : Log) : Log := log ++ [CallAttempt error_code].

(** ** Sizes of responses *)

Definition single_length (values : list str) : option Z :=
  match values with [value] => text ← to_str value; from_str_radix 10 text | _ => None end.
Definition content_length (headers : Headers) : option Z := single_length (get_all headers (bs "content-length")).
(** [size_hint] is the exact size the body announces, if it does. *)
Definition admitted_response_bytes (response : Response) (size_hint : option Z) : option Z :=
  match get_all (rsp_headers response) (bs "content-length") with
  | [] => size_hint
  | values => single_length values
  end.

Definition metered_read_response (grant : AuthorizationGrant) (source_bytes : option Z) (response : Response)
    (size_hint : option Z) (pipeline_evidence : option PipelineEvidence) (log : Log) : Response * Log :=
  if negb (is_success response) then release_failure grant response log
  else match admitted_response_bytes response size_hint with
  | None =>
    release_failure grant
      (service_unavailable request_id key "The response size is unavailable for usage metering.") log
  | Some bytes =>
    let source_bytes := default bytes source_bytes in
    if gr_max_processed_bytes grant <? Z.max source_bytes bytes
    then release_failure grant (entity_too_large request_id key) log
    else
      let event := from_grant grant source_bytes bytes in
      let event := match pipeline_evidence with Some e => with_pipeline_evidence event e | None => event end in
      match control_record event log with
      | (Some e, log) => (metering_error_response e, log)
      | (None, log) => (response, log)
      end
  end.
End control.

(** ** The metadata of an object *)

Record ObjectMetadata := mkMetadata { om_headers : Headers; om_version_id : option str }.

Definition is_immutable_version_id (version_id : option str) : bool :=
  match version_id with Some v => negb (bool_decide (v = [])) && negb (bool_decide (v = bs "null")) | None => false end.

Definition strong_etag (metadata : ObjectMetadata) : option str :=
  value ← hm_get (om_headers metadata) "etag";
  text ← to_str value;
  let etag := trim text in
  if (2 <? length etag)%nat && bool_decide (head etag = Some x22) && bool_decide (last etag = Some x22)
     && negb (starts_with (bs "W/") etag)
  then Some etag else None.

Definition transformed_source_matches_preflight (preflight source : ObjectMetadata) : bool :=
  (is_immutable_version_id (om_version_id preflight) && bool_decide (om_version_id preflight = om_version_id source))
  || match strong_etag preflight, strong_etag source with
     | Some l, Some r => bool_decide (l = r)
     | _, _ => false
     end.

Definition etag_matches (etag condition : str) : bool :=
  existsb (λ candidate, bool_decide (trim candidate = bs "*") || bool_decide (trim candidate = etag)) (split_on x2c condition).
Definition header_text (headers : Headers) (name : string) : option str := hm_get headers name ≫= to_str.
Definition conditional_read_status (headers : Headers) (metadata : ObjectMetadata) : option Z :=
  etag ← header_text (om_headers metadata) "etag";
  match header_text headers "if-match" with
  | Some condition => if etag_matches etag condition then None else Some 412
  | None =>
    match header_text headers "if-none-match" with
    | Some condition => if etag_matches etag condition then Some 304 else None
    | None => None
    end
  end.

(** [version_id.parse()] into a header value: visible ASCII, tabs and bytes outside ASCII. *)
Definition header_value (v : str) : option str :=
  if forallb (λ b, ((32 <=? b2z b) && negb (b2z b =? 127)) || (b2z b =? 9)) v then Some v else None.
Definition conditional_read_response (metadata : ObjectMetadata) (status : Z) : Response :=
  let headers := match hm_get (om_headers metadata) "etag" with Some etag => [(bs "etag", etag)] | None => [] end in
  let headers := match om_version_id metadata ≫= header_value with
                 | Some value => hm_insert "x-amz-version-id" value headers
                 | None => headers
                 end in
  mkResponse status (harden_object_response_headers headers) [].

Definition copy_headers (name : string) (metadata : ObjectMetadata) : Headers :=
  (λ value, (bs name, value)) <$> get_all (om_headers metadata) (bs name).
Definition transformed_response_headers (metadata : ObjectMetadata) (content_length : option Z) : Headers :=
  let headers := copy_headers "content-type" metadata ++ copy_headers "content-disposition" metadata
                 ++ copy_headers "content-language" metadata in
  let headers := match content_length with
                 | Some n => hm_insert "content-length" (show_u64 n) headers
                 | None => headers
                 end in
  harden_object_response_headers headers.

(** ** Preflight *)

Inductive TransformedReadError : Type :=
| TrInvalidRequest (m : string)
| TrCapacity (m : string)
| TrSource (m : string)
| TrPipeline (e : S4Error)
| TrSpool (e : TransactionError).

Definition identity_encoding (metadata : ObjectMetadata) : result TransformedReadError unit :=
  match hm_get (om_headers metadata) "content-encoding" with
  | None => Ok tt
  | Some encoding =>
    match to_str encoding with
    | None => Err (TrInvalidRequest "invalid source Content-Encoding")
    | Some e =>
      if eq_ignore_ascii_case e (bs "identity") then Ok tt
      else Err (TrInvalidRequest "Content-Encoding is unsupported for transformed reads")
    end
  end.

Definition avro_read_preflight (headers : Headers) (part_number : option Z) (metadata : ObjectMetadata)
    : option TransformedReadError :=
  if contains_key headers "range" then Some (TrInvalidRequest "Range is not supported for transformed reads")
  else if bool_decide (is_Some part_number)
  then Some (TrInvalidRequest "part-number reads are not supported for transformed reads")
  else match hm_get (om_headers metadata) "content-encoding" with
  | None => None
  | Some encoding =>
    match to_str encoding with
    | Some e => if eq_ignore_ascii_case e (bs "identity") then None
                else Some (TrInvalidRequest "Content-Encoding is unsupported for transformed reads")
    | None => Some (TrInvalidRequest "Content-Encoding is unsupported for transformed reads")
    end
  end.

Definition transformed_read_preflight (headers : Headers) (part_number : option Z) (metadata : ObjectMetadata)
    : result TransformedReadError (Format * list byte) :=
  if contains_key headers "range" then Err (TrInvalidRequest "Range is not supported for transformed reads")
  else if bool_decide (is_Some part_number)
  then Err (TrInvalidRequest "part-number reads are not supported for transformed reads")
  else
    _ ← identity_encoding metadata;
    value ← ok_or (hm_get (om_headers metadata) "content-type")
      (TrInvalidRequest "Content-Type is required for transformed reads");
    content_type ← ok_or (to_str value) (TrInvalidRequest "invalid source Content-Type");
    let media := media_type content_type in
    if bool_decide (media = bs "text/plain") then Ok (Text, media)
    else if bool_decide (media = bs "application/x-ndjson" ∨ media = bs "application/jsonlines") then Ok (Jsonl, media)
    else if bool_decide (media = bs "application/json") then Ok (Json, media)
    else if bool_decide (media = bs "text/csv") then Ok (Csv, media)
    else if bool_decide (media = bs "text/tab-separated-values") then Ok (Tsv, media)
    else Err (TrInvalidRequest ("unsupported transformed-read Content-Type " +:+ debug_str (String.string_of_list_byte media))).

Definition content_type_header (metadata : ObjectMetadata) : option (option (list byte)) :=
  to_str <$> hm_get (om_headers metadata) "content-type".

Section responses.
  Context (request_id key : list byte).

Definition pipeline_error_response (error : S4Error) : Response :=
  let code := error_code error in
  if bool_decide (code = "wasm.admission") then slow_down request_id key
  else if bool_decide (code ∈ ["limit.input_bytes"; "limit.output_bytes"; "limit.expansion"; "limit.intermediate_bytes";
                               "limit.finish_bytes"; "record.too_large"])
  then entity_too_large request_id key
  else if bool_decide (code ∈ ["decode.json"; "decode.jsonl"; "decode.csv"; "decode.encoding"; "wasm.reject";
                               "unsupported.format"; "config.invalid"; "policy.expired"; "policy.tampered"])
  then invalid_request request_id key "The processing pipeline rejected the request."
  else internal_error request_id key code.

Definition transformed_read_error_response (error : TransformedReadError) : Response :=
  match error with
  | TrInvalidRequest detail => invalid_request request_id key detail
  | TrCapacity detail => service_unavailable request_id key detail
  | TrSource detail => internal_error request_id key detail
  | TrSpool TCapacityExceeded =>
    service_unavailable request_id key "encrypted transformed-read staging capacity is unavailable"
  | TrSpool _ => internal_error request_id key ""
  | TrPipeline error => pipeline_error_response error
  end.
End responses.

(** ** [process_transformed_source] *)

Definition source_error_string (e : SourceError) : string :=
  match e with
  | FrameTooLarge actual limit => "source frame is " +:+ pretty actual +:+ " bytes, limit is " +:+ pretty limit
  | ObjectTooLarge actual limit => "source body is at least " +:+ pretty actual +:+ " bytes, limit is " +:+ pretty limit
  | Upstream m => "upstream source error: " +:+ m
  end.

Section source.
  Context {G : Type} `{Pipeline G, Crypto, Parsers} (limits : BodyLimits).
  (** Does the channel that [emit] sends to refuse the [n]-th chunk? *)
  Context (refused : nat → option TransformedReadError).

Record ReadState := mkRead {
  rd_body : CountedBody;
  rd_decoder : Decoder;
  rd_pipeline : G;
  (** what was emitted *)
  rd_sent : list (list byte);
}.
  Abbreviation R := (SE ReadState TransformedReadError).

Definition set_rd_decoder v (s : ReadState) : ReadState := mkRead (rd_body s) v (rd_pipeline s) (rd_sent s).
Definition set_rd_pipeline v (s : ReadState) : ReadState := mkRead (rd_body s) (rd_decoder s) v (rd_sent s).
Definition set_rd_body v (s : ReadState) : ReadState := mkRead v (rd_decoder s) (rd_pipeline s) (rd_sent s).
Definition rd_on_decoder {A} (m : SE Decoder S4Error A) : R A := λ s,
  let (r, d) := m (rd_decoder s) in (map_err TrPipeline r, set_rd_decoder d s).
Definition rd_on_pipeline {A} (m : SE G S4Error A) : R A := λ s,
  let (r, g) := m (rd_pipeline s) in (map_err TrPipeline r, set_rd_pipeline g s).

Definition emit (chunk : list byte) : R unit := λ s,
  if bool_decide (chunk = []) then (Ok tt, s)
  else match refused (length (rd_sent s)) with
  | Some e => (Err e, s)
  | None => (Ok tt, mkRead (rd_body s) (rd_decoder s) (rd_pipeline s) (rd_sent s ++ [chunk]))
  end.
Definition emit_record (record : RecordT) : R unit := _ ← emit (payload record); emit (separator record).
Fixpoint emit_records (records : list RecordT) : R unit :=
  match records with [] => mret tt | record :: records => _ ← emit_record record; emit_records records end.

Fixpoint read_records (fuel : nat) : R unit :=
  match fuel with
  | O => mret tt
  | S fuel =>
    record ← rd_on_decoder next_record;
    match record with
    | None => mret tt
    | Some record =>
      processed ← rd_on_pipeline (pl_process record);
      _ ← (match processed with Some record => emit_record record | None => mret tt end);
      read_records fuel
    end
  end.
Definition read_ready_records : R unit := s ← se_get; read_records (records_fuel (rd_decoder s)).

(** [while let Some(frame) = object.body.frame().await]; every turn takes a
    frame off the source. *)
Fixpoint read_frames (fuel : nat) : R unit :=
  match fuel with
  | O => mret tt
  | S fuel => λ s,
    let (frame, body) := poll_frame limits (rd_body s) in
    let s := set_rd_body body s in
    match frame with
    | None => (Ok tt, s)
    | Some (Err e) => (Err (TrSource (source_error_string e)), s)
    | Some (Ok (SourceTrailers _)) => (Err (TrSource "source trailers are not valid for transformed reads"), s)
    | Some (Ok (SourceData data)) =>
      (_ ← rd_on_decoder (RecordDecoder.push data); _ ← read_ready_records; read_frames fuel) s
    end
  end.

Definition read_source : R Z :=
  s ← se_get;
  _ ← read_frames (S (length (cb_inner (rd_body s))));
  _ ← rd_on_decoder RecordDecoder.finish;
  _ ← read_ready_records;
  finished ← rd_on_pipeline pl_finish;
  _ ← emit_records finished.1;
  mret finished.2.

(** The whole of [process_transformed_source]: the fuel the pipeline used, the
    chunks that were emitted, and the bytes counted at the source. *)
Definition process_transformed_source (format : Format) (max_source_frame_bytes : nat) (pipeline : G)
    (body : CountedBody) : result TransformedReadError Z * list (list byte) * Z :=
  match decoder_new format (decoder_limits (mkSourceLimits 0 max_source_frame_bytes)) with
  | Err e => (Err (TrPipeline e), [], cb_bytes body)
  | Ok decoder =>
    let (r, s) := read_source (mkRead body decoder pipeline []) in (r, rd_sent s, cb_bytes (rd_body s))
  end.
End source.
Arguments ReadState G : clear implicits.

(** ** [collect_opened_object], for Avro *)

Fixpoint collect_frames (fuel : nat) (limits : BodyLimits) (max_bytes : Z) (output : list byte) (body : CountedBody)
    : result TransformedReadError (list byte) * CountedBody :=
  match fuel with
  | O => (Ok output, body)
  | S fuel =>
    match poll_frame limits body with
    | (None, body) => (Ok output, body)
    | (Some (Err e), body) => (Err (TrSource (source_error_string e)), body)
    | (Some (Ok (SourceTrailers _)), body) =>
      (Err (TrSource "source trailers are not valid for transformed reads"), body)
    | (Some (Ok (SourceData data)), body) =>
      if max_bytes <? Z.of_nat (length output + length data)
      then (Err (TrSource "Avro source exceeds the configured byte limit"), body)
      else collect_frames fuel limits max_bytes (output ++ data) body
    end
  end.
Definition collect_opened_object (limits : BodyLimits) (max_bytes : Z) (body : CountedBody) :=
  collect_frames (S (length (cb_inner body))) limits max_bytes [] body.

(** ** Opening an object *)

Inductive OpenObjectError : Type :=
| ObjectNotFound
| ObjectInvalidRange (object_length : Z)
| ObjectRejected (detail : string)
| ObjectBackend (detail : string)
| ObjectS3
| ObjectPresignedTransport.

(** [OpenedObject] before its body is read; [op_size_hint] is the exact size
    that the inner body announces. *)
Record OpenedObject := mkOpened {
  op_status : Z;
  op_metadata : ObjectMetadata;
  op_inner : list (string + SourceFrame);
  op_size_hint : option Z;
}.

(** How the body of a response ends: the frames were given to the client, and
    then an error or the regular end. *)
Definition into_response (limits : BodyLimits) (object : OpenedObject) : Response * result IoError unit :=
  let '(frames, r, _) := read_body limits (op_inner object) in
  (mkResponse (op_status object) (harden_object_response_headers (om_headers (op_metadata object)))
     (frame_bytes_of <$> frames),
   match r with None => Ok tt | Some e => Err (io_other (source_error_string e)) end).

Section open_errors.
  Context (request_id key : list byte).
Definition open_error_response (error : OpenObjectError) : Response :=
  match error with
  | ObjectNotFound => no_such_key request_id key
  | ObjectInvalidRange n => invalid_range request_id key n
  | ObjectRejected _ => access_denied request_id key
  | ObjectBackend detail => internal_error request_id key detail
  | ObjectS3 => internal_error request_id key ""
  | ObjectPresignedTransport => internal_error request_id key "presigned backend request failed"
  end.

Definition client_metering_id_rejection (headers : Headers) : option Response :=
  if existsb (contains_key headers)
       ["x-maskura-metering-id"; "x-maskura-operation-id"; "x-maskura-usage-id"; "x-s4-metering-id";
        "x-s4-operation-id"; "x-s4-usage-id"]
  then Some (invalid_request request_id key "The request contains an unsupported header.")
  else None.
End open_errors.

(** [validated] cannot panic on headers that passed [validate_all]. *)
Definition wants_transformed_read (headers : Headers) : bool :=
  match validated headers PROCESS with
  | Some (Some value) =>
    match to_str value with
    | Some v => eq_ignore_ascii_case v (bs "read") || eq_ignore_ascii_case v (bs "true")
    | None => false
    end
  | _ => false
  end.

Inductive StreamingReadMode : Type := ReadOff | ReadPassthrough | ReadTransformed.
#[global] Instance StreamingReadMode_eq_dec : EqDecision StreamingReadMode.
Proof. solve_decision. Defined.
Definition streams_passthrough (m : StreamingReadMode) : bool := bool_decide (m = ReadPassthrough ∨ m = ReadTransformed).

(** ** The direct body *)

Inductive DirectReadEvent : Type :=
| DirectData (bytes : list byte)
| DirectFailed (e : TransformedReadError)
| DirectDone (source_bytes output_bytes : Z) (evidence : option PipelineEvidence).

Definition DIRECT_READ_SETTLEMENT_ATTEMPTS : nat := 3.

(** [DirectSettlementFuture]: the event it records, the attempts it has left
    (the current one included) and whether the call of the current attempt was
    sent and is not yet answered. *)
Record DirectSettlement := mkSettlement {
  st_event : UsageEvent;
  st_attempts : nat;
  st_in_flight : bool;
}.

Record DirectReadBody := mkDirect {
  dr_first : option (list byte);
  dr_settlement : option DirectSettlement;
  dr_disclosed : bool;
  dr_reservation_owned : bool;
  dr_done : bool;
}.

Inductive PollOutcome : Type :=
| PollData (bytes : list byte)
| PollPending
| PollError (m : string)
| PollEnd.

Section direct.
  Context `{ControlPlane} (grant : AuthorizationGrant).
  Abbreviation Log := (list ControlCall).

Definition direct_settlement_future (event : UsageEvent) : DirectSettlement :=
  mkSettlement event DIRECT_READ_SETTLEMENT_ATTEMPTS false.

(** One poll of the future, in which the control plane has [answers] answers
    ready: [None] is [Poll::Pending], with the call of the current attempt in
    flight; otherwise whether the usage was recorded. *)
Fixpoint settlement_poll (event : UsageEvent) (attempts answers : nat) (log : Log) : option bool * nat * Log :=
  match attempts with
  | O => (Some false, O, log)
  | S rest =>
    match answers with
    | O => (None, attempts, log)
    | S answers =>
      match control_record event log with
      | (None, log) => (Some true, attempts, log)
      | (Some _, log) => settlement_poll event rest answers log
      end
    end
  end.

(** The settlement branch of [poll_frame]. *)
Definition poll_settlement (d : DirectReadBody) (st : DirectSettlement) (answers : nat) (log : Log)
    : PollOutcome * DirectReadBody * Log :=
  let '(ready, attempts, log) := settlement_poll (st_event st) (st_attempts st) answers log in
  match ready with
  | Some true => (PollEnd, mkDirect (dr_first d) None (dr_disclosed d) false true, log)
  | Some false =>
    (PollError "direct transformed-read usage settlement failed",
     mkDirect (dr_first d) None (dr_disclosed d) (dr_reservation_owned d) true, log)
  | None =>
    (PollPending, mkDirect (dr_first d) (Some (mkSettlement (st_event st) attempts true)) (dr_disclosed d)
       (dr_reservation_owned d) (dr_done d), log)
  end.

(** What a poll finds: has the worker's next event (or its end) arrived, and
    how many answers of the control plane. *)
Record Arrivals := mkArrivals { ar_received : bool; ar_answers : nat }.

(** [poll_frame]; the queue is what the worker sends, its end the worker's
    end.  The spawned release and attempt record are run at once. *)
Definition direct_poll (d : DirectReadBody) (queue : list DirectReadEvent) (arrivals : Arrivals) (log : Log)
    : PollOutcome * DirectReadBody * list DirectReadEvent * Log :=
  match dr_settlement d with
  | Some st => let '(o, d, log) := poll_settlement d st (ar_answers arrivals) log in (o, d, queue, log)
  | None =>
    match dr_first d with
    | Some bytes => (PollData bytes, mkDirect None None true (dr_reservation_owned d) (dr_done d), queue, log)
    | None =>
      if negb (ar_received arrivals) then (PollPending, d, queue, log)
      else match queue with
      | DirectData bytes :: queue =>
        (PollData bytes, mkDirect None None true (dr_reservation_owned d) (dr_done d), queue, log)
      | DirectFailed error :: queue =>
        let code := match error with TrPipeline e => error_code e | _ => "internal" end in
        let log := record_failed_pipeline_attempt code log in
        let '(owned, log) :=
          if dr_disclosed d then (dr_reservation_owned d, log)
          else (false, (control_release (gr_operation_id grant) log).2) in
        (PollError "direct transformed-read pipeline failed", mkDirect None None (dr_disclosed d) owned true, queue, log)
      | DirectDone source_bytes output_bytes evidence :: queue =>
        if gr_max_processed_bytes grant <? Z.max source_bytes output_bytes then
          (PollError "direct transformed-read exceeded its authorized size",
           mkDirect None None (dr_disclosed d) (dr_reservation_owned d) true, queue, log)
        else
          let st := direct_settlement_future (usage_event grant source_bytes output_bytes evidence) in
          let d := mkDirect None (Some st) (dr_disclosed d) (dr_reservation_owned d) (dr_done d) in
          let '(o, d, log) := poll_settlement d st (ar_answers arrivals) log in (o, d, queue, log)
      | [] => (PollError "transformed read worker terminated unexpectedly",
               mkDirect None None (dr_disclosed d) (dr_reservation_owned d) true, [], log)
      end
    end
  end.

(** [Drop]; with the body, a settlement under way is dropped, and with it the
    wait for the answer of a call in flight. *)
Definition direct_drop (d : DirectReadBody) (log : Log) : Log :=
  let log := match dr_settlement d with
             | Some st => if st_in_flight st then log ++ [CallRecordLost (st_event st)] else log
             | None => log
             end in
  if dr_done d then log
  else if dr_reservation_owned d && negb (dr_disclosed d) then (control_release (gr_operation_id grant) log).2 else log.

(** A client that polls, and then drops the body. *)
Fixpoint direct_polls (polls : list Arrivals) (d : DirectReadBody) (queue : list DirectReadEvent) (log : Log)
    : list PollOutcome * DirectReadBody * Log :=
  match polls with
  | [] => ([], d, log)
  | arrivals :: polls =>
    if dr_done d then ([], d, log)
    else
      let '(o, d, queue, log) := direct_poll d queue arrivals log in
      let '(os, d, log) := direct_polls polls d queue log in (o :: os, d, log)
  end.
Definition direct_client (polls : list Arrivals) (d : DirectReadBody) (queue : list DirectReadEvent) (log : Log)
    : list PollOutcome * Log :=
  let '(os, d, log) := direct_polls polls d queue log in (os, direct_drop d log).
End direct.

(** ** [transformed_read_response] *)

(** [PipelineSnapshot]: the session it starts, which of its filters are safe to
    disclose as they run, and the evidence for a settlement. *)
Record Snapshot (G : Type) := mkSnapshot {
  sn_start : result S4Error G;
  sn_prefix_safe : list bool;
  sn_evidence : Z → string → option PipelineEvidence;
}.
Arguments mkSnapshot {G}.
Arguments sn_start {G}.
Arguments sn_prefix_safe {G}.
Arguments sn_evidence {G}.

Record ReadConfig := mkReadConfig {
  rc_limits : BodyLimits;
  rc_max_processed_bytes : Z;
  rc_read_mode : StreamingReadMode;
  rc_spool_enabled : bool;
  rc_spool_max_object_bytes : Z;
  rc_spool_quota : Z;
  rc_avro_enabled : bool;
}.

(** What the tasks of one read run into: the counter of the spool quota, the
    chunks that the channel refuses, the number of events after which the
    worker dies, and what interrupts the replay. *)
Record Conditions := mkConditions {
  cd_quota : Z;
  cd_refused : nat → option TransformedReadError;
  cd_events : nat;
  cd_interrupt : nat → option interruption;
}.

(** The response: its head and the chunks of its body, with their end; or a
    direct body with the events that its worker will send. *)
Inductive Served : Type :=
| ServedBody (response : Response) (ended : result IoError unit)
| ServedDirect (response : Response) (body : DirectReadBody) (queue : list DirectReadEvent).
Definition served_response (s : Served) : Response :=
  match s with ServedBody r _ => r | ServedDirect r _ _ => r end.

Definition total_bytes (chunks : list (list byte)) : Z := Z.of_nat (length (concat chunks)).

Section reads.
  Context `{ControlPlane, FileSystem, Aead, OsRng} {G : Type} `{Pipeline G, Crypto, Parsers}.
  Context (request_id key : list byte) (config : ReadConfig) (conditions : Conditions).

Definition refuse (e : TransformedReadError) : Served := ServedBody (transformed_read_error_response request_id key e) (Ok tt).

Definition spool_disabled : TransformedReadError :=
  TrCapacity "unsafe transformed reads require MASKURA_TRANSFORMED_READ_SPOOL=encrypted".

(** The events of the worker of a direct read. *)
Definition direct_events (snapshot : Snapshot G) (pipeline : G) (format : Format) (body : CountedBody)
    : list DirectReadEvent :=
  let '(r, sent, source_bytes) :=
    process_transformed_source (rc_limits config) (cd_refused conditions) format
      (bl_max_frame_bytes (rc_limits config)) pipeline body in
  take (cd_events conditions)
    ((DirectData <$> sent) ++
     [match r with
      | Ok fuel => DirectDone source_bytes (total_bytes sent) (sn_evidence snapshot fuel "none")
      | Err e => DirectFailed e
      end]).

Definition direct_read_response (grant : AuthorizationGrant) (metadata : ObjectMetadata) (events : list DirectReadEvent)
    : Served :=
  let head n := mkResponse 200 (transformed_response_headers metadata n) [] in
  match events with
  | [] => refuse (TrPipeline (mkS4Error "internal" "transformed read worker terminated unexpectedly"))
  | DirectFailed e :: _ => refuse e
  | DirectData bytes :: queue => ServedDirect (head None) (mkDirect (Some bytes) None false true false) queue
  | DirectDone source_bytes output_bytes evidence :: queue =>
    ServedDirect (head (Some output_bytes))
      (mkDirect None (Some (direct_settlement_future (usage_event grant source_bytes output_bytes evidence)))
         false true false) queue
  end.

(** The writer task and the source run side by side; the source decides first. *)
Definition spooled_read_response (snapshot : Snapshot G) (pipeline : G) (format : Format) (metadata : ObjectMetadata)
    (body : CountedBody) (w : SpoolWorld) : Served * option Z * option PipelineEvidence * SpoolWorld :=
  if negb (rc_spool_enabled config) then (refuse spool_disabled, None, None, w)
  else match rs_begin (rc_spool_quota config) (rc_spool_max_object_bytes config) (cd_quota conditions) w with
  | (Err e, w) => (refuse (TrSpool e), None, None, w)
  | (Ok spool, w) =>
    let '(r, sent, source_bytes) :=
      process_transformed_source (rc_limits config) (cd_refused conditions) format
        (bl_max_frame_bytes (rc_limits config)) pipeline body in
    match r, spool_writer sent spool w with
    | Err e, (Ok spool, w) => (refuse e, None, None, rs_drop spool w)
    | Err e, (Err _, w) => (refuse e, None, None, w)
    | Ok _, (Err e, w) => (refuse (TrSpool e), None, None, w)
    | Ok fuel, (Ok spool, w) =>
      let evidence := sn_evidence snapshot fuel "encrypted" in
      match into_body (cd_interrupt conditions) spool w with
      | (Err e, w) => (refuse (TrSpool e), None, evidence, w)
      | (Ok (n, chunks, ended), w) =>
        (ServedBody (mkResponse 200 (transformed_response_headers metadata (Some n)) chunks) ended,
         Some source_bytes, evidence, w)
      end
    end
  end.

Definition transformed_read_response (grant : AuthorizationGrant) (snapshot : Snapshot G) (format : Format)
    (object : OpenedObject) (w : SpoolWorld) : Served * option Z * option PipelineEvidence * SpoolWorld :=
  match sn_start snapshot with
  | Err e => (refuse (TrPipeline e), None, None, w)
  | Ok pipeline =>
    let body := counted_new (op_inner object) in
    if forallb id (sn_prefix_safe snapshot) then
      (direct_read_response grant (op_metadata object) (direct_events snapshot pipeline format body), None, None, w)
    else spooled_read_response snapshot pipeline format (op_metadata object) body w
  end.

(** ** [avro_transformed_read_response] *)

Definition serve_spooled_bytes (bytes : list byte) (w : SpoolWorld)
    : result TransformedReadError (Z * list (list byte) * result IoError unit) * SpoolWorld :=
  let (r, w) := serve_spooled (cd_interrupt conditions) (rc_spool_quota config) (rc_spool_max_object_bytes config)
                  (cd_quota conditions) [bytes] w in
  (map_err TrSpool r, w).

Definition avro_transformed_read_response (process_ocf : list byte → result S4Error (list byte)) (object : OpenedObject)
    (w : SpoolWorld) : Served * option Z * SpoolWorld :=
  if negb (rc_spool_enabled config) then (refuse spool_disabled, None, w)
  else
    let max_source_bytes := Z.min (bl_max_bytes (rc_limits config)) (64 * 1024 * 1024) in
    match collect_opened_object (rc_limits config) max_source_bytes (counted_new (op_inner object)) with
    | (Err e, _) => (refuse e, None, w)
    | (Ok source, body) =>
      match process_ocf source with
      | Err e => (refuse (TrPipeline e), None, w)
      | Ok output =>
        match serve_spooled_bytes output w with
        | (Err e, w) => (refuse e, None, w)
        | (Ok (n, chunks, ended), w) =>
          (ServedBody (mkResponse 200 (transformed_response_headers (op_metadata object) (Some n)) chunks) ended,
           Some (cb_bytes body), w)
        end
      end
    end.
End reads.

(** ** [s3_get] of an object, from the authenticated request on *)

Record GetDependencies (G : Type) := mkDependencies {
  (** the pipeline that the workspace assigned to the bucket: its revision and fingerprint *)
  gd_resolution : result S4Error (string * string);
  gd_snapshot : result S4Error (Snapshot G);
  (** the backend, if it can be resolved: is it a presigned URL? *)
  gd_backend : option bool;
  (** [open_backend_object] with [head_only] *)
  gd_open : bool → result OpenObjectError OpenedObject;
  gd_process_ocf : list byte → result S4Error (list byte);
}.
Arguments mkDependencies {G}.
Arguments gd_resolution {G}.
Arguments gd_snapshot {G}.
Arguments gd_backend {G}.
Arguments gd_open {G}.
Arguments gd_process_ocf {G}.

Record OperationIdentity := mkIdentity { oi_operation_id : Uuid; oi_receipt_id : Uuid }.
Definition authorization (operation : OperationIdentity) (bucket : string) (max_processed_bytes : Z)
    (pipeline : option (string * string)) : UsageAuthorization :=
  mkUsageAuthorization (oi_operation_id operation) (oi_receipt_id operation) bucket GetObject Read
    max_processed_bytes (fst <$> pipeline) (snd <$> pipeline).

Section get.
  Context `{ControlPlane, FileSystem, Aead, OsRng} {G : Type} `{Pipeline G, Crypto, Parsers}.
  Context (request_id key : list byte) (bucket : string) (config : ReadConfig) (conditions : Conditions).
  Context (headers : Headers) (part_number : option Z) (operation : OperationIdentity) (dependencies : GetDependencies G).
  Abbreviation Log := (list ControlCall).
  Abbreviation Answer := (Served * Log * SpoolWorld)%type.

Definition released (grant : AuthorizationGrant) (response : Response) (log : Log) (w : SpoolWorld) : Answer :=
  let (response, log) := release_failure request_id key grant response log in (ServedBody response (Ok tt), log, w).

Definition metered (grant : AuthorizationGrant) (source_bytes : option Z) (served : Served) (size_hint : option Z)
    (evidence : option PipelineEvidence) (log : Log) (w : SpoolWorld) : Answer :=
  match served with
  | ServedDirect _ _ _ => (served, log, w)
  | ServedBody response ended =>
    let (r, log) := metered_read_response request_id key grant source_bytes response size_hint evidence log in
    (* an error response replaces the body, which ends at once *)
    (ServedBody r (if is_success r then ended else Ok tt), log, w)
  end.

(** An Avro object: [metadata] came from the HEAD. *)
Definition get_avro (grant : AuthorizationGrant) (metadata : ObjectMetadata) (log : Log) (w : SpoolWorld) : Answer :=
  match avro_read_preflight headers part_number metadata with
  | Some e => (ServedBody (transformed_read_error_response request_id key e) (Ok tt), log, w)
  | None =>
    if negb (rc_avro_enabled config) then
      (ServedBody (transformed_read_error_response request_id key
         (TrInvalidRequest "Avro processing is disabled; set MASKURA_ENABLE_AVRO=true")) (Ok tt), log, w)
    else match gd_open dependencies false with
    | Err e => (ServedBody (open_error_response request_id key e) (Ok tt), log, w)
    | Ok object =>
      let source_bytes := content_length (om_headers (op_metadata object)) in
      let '(served, completed, w) :=
        avro_transformed_read_response request_id key config conditions (gd_process_ocf dependencies) object w in
      metered grant (match source_bytes with Some n => Some n | None => completed end) served None None log w
    end
  end.

Definition get_transformed (grant : AuthorizationGrant) (snapshot : Snapshot G) (log : Log) (w : SpoolWorld) : Answer :=
  match gd_open dependencies true with
  | Err e => released grant (open_error_response request_id key e) log w
  | Ok head =>
    let metadata := op_metadata head in
    if is_avro_content_type (content_type_header metadata) then get_avro grant metadata log w
    else match transformed_read_preflight headers part_number metadata with
    | Err e => released grant (transformed_read_error_response request_id key e) log w
    | Ok preflight =>
      match gd_open dependencies false with
      | Err e => released grant (open_error_response request_id key e) log w
      | Ok object =>
        match transformed_read_preflight headers part_number (op_metadata object) with
        | Err e => released grant (transformed_read_error_response request_id key e) log w
        | Ok source_preflight =>
          if negb (bool_decide (source_preflight.1 = preflight.1)) || negb (bool_decide (source_preflight.2 = preflight.2))
             || negb (transformed_source_matches_preflight metadata (op_metadata object))
          then released grant (transformed_read_error_response request_id key
                 (TrSource "source metadata changed after transformed-read preflight")) log w
          else match conditional_read_status headers (op_metadata object) with
          | Some status => released grant (conditional_read_response (op_metadata object) status) log w
          | None =>
            let source_bytes := content_length (om_headers (op_metadata object)) in
            let '(served, completed, evidence, w) :=
              transformed_read_response request_id key config conditions grant snapshot preflight.1 object w in
            match served with
            | ServedDirect _ _ _ => (served, log, w)
            | ServedBody response _ =>
              let log := if is_success response then log else record_failed_pipeline_attempt "internal" log in
              metered grant (match source_bytes with Some n => Some n | None => completed end) served None evidence log w
            end
          end
        end
      end
    end
  end.

Definition get_passthrough (grant : AuthorizationGrant) (log : Log) (w : SpoolWorld) : Answer :=
  match gd_open dependencies false with
  | Err e => released grant (open_error_response request_id key e) log w
  | Ok object =>
    match conditional_read_status headers (op_metadata object) with
    | Some status => released grant (conditional_read_response (op_metadata object) status) log w
    | None =>
      if streams_passthrough (rc_read_mode config) then
        let (response, ended) := into_response (rc_limits config) object in
        metered grant None (ServedBody response ended) (op_size_hint object) None log w
      else released grant (not_implemented request_id key) log w
    end
  end.

(** From the grant on. *)
Definition get_granted (transformed : bool) (grant : AuthorizationGrant) (log : Log) (w : SpoolWorld) : Answer :=
  match (if transformed then Some <$> (gd_snapshot dependencies) else Ok None) with
  | Err e =>
    released grant (pipeline_error_response request_id key e) (record_failed_pipeline_attempt (error_code e) log) w
  | Ok snapshot =>
    if transformed && negb (bool_decide (rc_read_mode config = ReadTransformed))
    then released grant (transformed_read_not_supported request_id key) log w
    else match gd_backend dependencies with
    | None => released grant (service_unavailable request_id key "workspace storage is unavailable") log w
    | Some presigned =>
      match snapshot with
      | Some snapshot =>
        if presigned then
          released grant (transformed_read_error_response request_id key
            (TrInvalidRequest "transformed reads require stored object metadata")) log w
        else get_transformed grant snapshot log w
      | None => get_passthrough grant log w
      end
    end
  end.

(** The grant, if one was issued, is returned for the theorems. *)
Definition s3_get (w : SpoolWorld) : Answer * option AuthorizationGrant :=
  match client_metering_id_rejection request_id key headers with
  | Some response => ((ServedBody response (Ok tt), [], w), None)
  | None =>
    let transformed := wants_transformed_read headers in
    match (if transformed then Some <$> (gd_resolution dependencies) else Ok None) with
    | Err e =>
      ((ServedBody (pipeline_error_response request_id key e) (Ok tt), record_failed_pipeline_attempt (error_code e) [], w),
       None)
    | Ok resolution =>
      match authorize_request request_id key
              (authorization operation bucket (rc_max_processed_bytes config) resolution) with
      | Err response => ((ServedBody response (Ok tt), [], w), None)
      | Ok grant => (get_granted transformed grant [] w, Some grant)
      end
    end
  end.
End get.
