(* ===== verification/ReadProofs.v ===== *)
(** * What a read serves, and how it is settled: theorems about [TransformedRead.v] *)

From S2P Require Import Prelude Staging Operation RustStr Integrity Format RecordDecoder RecordProofs SigV4 Managed SinkApi Spool ReadSpool StreamingPut ObjectBody TransformedRead.

#[local] Open Scope Z_scope.
Set Default Goal Selector "!".

(** ** The source through the decoder and the pipeline *)

Section source.
  Context {G : Type} `{Pipeline G, Crypto, Parsers} (limits : BodyLimits) (refused : nat → option TransformedReadError).
  Abbreviation ReadState := (ReadState G).

(** [data] was emitted, and nothing else happened. *)
Definition emitted (data : list byte) (s s' : ReadState) : Prop :=
  concat (rd_sent s') = concat (rd_sent s) ++ data ∧ rd_body s' = rd_body s ∧ rd_decoder s' = rd_decoder s
  ∧ rd_pipeline s' = rd_pipeline s.

Lemma emit_spec chunk (s : ReadState) :
  wp (emit refused chunk) (λ r s', rd_body s' = rd_body s ∧ (r = Ok tt → emitted chunk s s')) s.
Proof.
  unfold wp, emit, emitted. case_bool_decide as Hc; [subst; split; [done|]; by rewrite app_nil_r|].
  destruct (refused _); [done|]. split; [done|]. cbn [rd_sent]. by rewrite concat_app; cbn; rewrite app_nil_r.
Qed.

Lemma emitted_trans a b s1 s2 s3 : emitted a s1 s2 → emitted b s2 s3 → emitted (a ++ b) s1 s3.
Proof. intros (E1 & ? & ? & ?) (E2 & ? & ? & ?). split_and!; [by rewrite E2, E1, app_assoc|congruence..]. Qed.

Lemma emit_record_spec record (s : ReadState) :
  wp (emit_record refused record) (λ r s', rd_body s' = rd_body s ∧ (r = Ok tt → emitted (record_bytes record) s s')) s.
Proof.
  unfold emit_record. apply wp_bind. eapply wp_mono; [apply emit_spec|]. intros [[]|e] s1 [Hb1 Hr1]; [|done].
  eapply wp_mono; [apply emit_spec|]. intros r s2 [Hb2 Hr2]. split; [congruence|]. intros E.
  by eapply emitted_trans; [apply Hr1|apply Hr2].
Qed.

Lemma emit_records_spec records (s : ReadState) :
  wp (emit_records refused records) (λ r s', rd_body s' = rd_body s ∧ (r = Ok tt → emitted (bytes_of records) s s')) s.
Proof.
  revert s. induction records as [|record records IH]; intros s; cbn [emit_records].
  { apply wp_ret. split; [done|]. intros _. unfold emitted, bytes_of. cbn. by rewrite app_nil_r. }
  apply wp_bind. eapply wp_mono; [apply emit_record_spec|]. intros [[]|e] s1 [Hb1 Hr1]; [|done].
  eapply wp_mono; [apply IH|]. intros r s2 [Hb2 Hr2]. split; [congruence|]. intros E.
  unfold bytes_of. cbn. by eapply emitted_trans; [apply Hr1|apply Hr2].
Qed.

(** The records [rs] went through the pipeline and were emitted. *)
Definition passed (rs : list RecordT) (s s' : ReadState) : Prop :=
  ∃ outs, process_all rs (rd_pipeline s) = (Ok outs, rd_pipeline s')
    ∧ concat (rd_sent s') = concat (rd_sent s) ++ bytes_of outs.

Lemma passed_nil s s' : rd_pipeline s' = rd_pipeline s → rd_sent s' = rd_sent s → passed [] s s'.
Proof. intros E1 E2. exists []. cbn. rewrite E2, app_nil_r. split; [|done]. by rewrite E1. Qed.

Lemma passed_trans rs1 rs2 s1 s2 s3 : passed rs1 s1 s2 → passed rs2 s2 s3 → passed (rs1 ++ rs2) s1 s3.
Proof.
  intros (o1 & P1 & E1) (o2 & P2 & E2). exists (o1 ++ o2). split; [by eapply process_all_app|].
  by rewrite E2, E1, bytes_of_app, app_assoc.
Qed.

Lemma read_records_spec fuel : ∀ s : ReadState,
  dec_inv (rd_decoder s) → (drain_measure (rd_decoder s) < fuel)%nat →
  wp (read_records refused fuel) (λ r s', rd_body s' = rd_body s
    ∧ (r = Ok tt → ∃ rs, drain_loop fuel accept_all (rd_decoder s) = Some (Ok rs, rd_decoder s') ∧ passed rs s s')) s.
Proof.
  induction fuel as [|fuel IH]; intros s Hi Hm; [lia|]. cbn [read_records drain_loop].
  unfold wp at 1, mbind, SE_bind, rd_on_decoder. destruct (next_record (rd_decoder s)) as [[o|e] d] eqn:En; cbn; [|done].
  destruct (next_record_spec _ _ _ Hi En) as (_ & _ & _ & _ & Hi1 & Hsome & _).
  destruct o as [record|]; [|split; [done|]; intros _; exists []; split; [done|]; by apply passed_nil].
  destruct (Hsome _ eq_refl) as [_ Hdec]. unfold rd_on_pipeline. cbn.
  destruct (pl_process record (rd_pipeline s)) as [[o|e] g] eqn:Ep; cbn; [|done].
  set (s1 := set_rd_pipeline g (set_rd_decoder d s)).
  assert (Hone : ∀ s2, emitted (bytes_of (opt_list o)) s1 s2 → wp (read_records refused fuel)
    (λ r s', rd_body s' = rd_body s ∧ (r = Ok tt → ∃ rs,
       match drain_loop fuel accept_all d with
       | Some (Ok rs, d) => Some (Ok (record :: rs), d)
       | o => o
       end = Some (Ok rs, rd_decoder s') ∧ passed rs s s')) s2).
  { intros s2 (Es & Eb & Ed & Eg). eapply wp_mono; [apply IH; rewrite Ed; [done|]; change (rd_decoder s1) with d; lia|].
    intros r s' [Hb Hr]. split; [by rewrite Hb, Eb|]. intros E. destruct (Hr E) as (rs & Hd & Hp).
    rewrite Ed in Hd. change (rd_decoder s1) with d in Hd. rewrite Hd. exists (record :: rs). split; [done|].
    change (record :: rs) with ([record] ++ rs). eapply passed_trans; [|done]. exists (opt_list o).
    cbn. unfold mbind, SE_bind. rewrite Ep. cbn. rewrite app_nil_r, Eg. split; [done|exact Es]. }
  destruct o as [out|].
  - apply (wp_bind (emit_record refused out)). eapply wp_mono; [apply emit_record_spec|].
    intros [[]|e] s2 [Hb2 Hr2]; [|done]. apply Hone. unfold bytes_of. cbn. rewrite app_nil_r. by apply Hr2.
  - apply Hone. unfold emitted, bytes_of. cbn. by rewrite app_nil_r.
Qed.

Lemma read_ready_spec (s : ReadState) :
  dec_inv (rd_decoder s) →
  wp (read_ready_records refused) (λ r s', rd_body s' = rd_body s
    ∧ (r = Ok tt → ∃ rs, drain accept_all (rd_decoder s) = (Ok rs, rd_decoder s') ∧ passed rs s s')) s.
Proof.
  intros Hi. unfold read_ready_records, wp at 1, mbind, SE_bind, se_get. cbn.
  eapply wp_mono; [apply read_records_spec; [done|apply records_fuel_enough]|].
  intros r s' [Hb Hr]. split; [done|]. intros E. destruct (Hr E) as (rs & Hd & Hp). exists rs. split; [|done].
  unfold drain. unfold records_fuel in Hd. by rewrite Hd.
Qed.

(** All frames were data, the source ended regularly, and what the decoder
    made of them went through the pipeline. *)
Lemma read_frames_spec fuel : ∀ s : ReadState,
  (length (cb_inner (rd_body s)) < fuel)%nat → open_decoder (rd_decoder s) →
  wp (read_frames limits refused fuel) (λ r s', r = Ok tt → open_decoder (rd_decoder s') ∧ ∃ pieces rs,
    drain_body fuel limits (rd_body s) = (SourceData <$> pieces, None, rd_body s')
    ∧ decode_open pieces (rd_decoder s) = (Ok rs, rd_decoder s') ∧ passed rs s s') s.
Proof.
  induction fuel as [|fuel IH]; intros s Hfuel Hd; [lia|]. cbn [read_frames drain_body]. unfold wp at 1.
  destruct (poll_frame limits (rd_body s)) as [[[[data|t]|e]|] body] eqn:Ep; [|done|done|].
  2: { intros _. cbn. split; [done|]. exists [], []. split_and!; [done|done|by apply passed_nil]. }
  assert (Hlen : (length (cb_inner body) < fuel)%nat).
  { revert Ep. unfold poll_frame. destruct (cb_inner (rd_body s)) as [|[m|[d|t]] rest]; cbn in Hfuel; try done.
    repeat case_match; try done. intros [= _ <-]. cbn. lia. }
  unfold mbind, SE_bind, rd_on_decoder. cbn [rd_decoder set_rd_body].
  destruct (RecordDecoder.push data (rd_decoder s)) as [[[]|e] d1] eqn:Epush; cbn; [|done].
  set (s1 := set_rd_decoder d1 _).
  assert (Hi1 : dec_inv d1). { destruct Hd as (Hi & Hc & Hf). by apply push_spec in Epush as (_ & _ & _ & ? & _). }
  apply (wp_bind (read_ready_records refused)). eapply wp_mono; [by apply read_ready_spec|].
  intros [[]|e] s2 [Hb2 Hr2]; [|done]. destruct (Hr2 eq_refl) as (rs1 & Hdr & Hp1).
  pose proof (push_drain_open _ _ _ _ _ Hd Epush Hdr) as [_ Hd2].
  eapply wp_mono; [apply IH; [rewrite Hb2; exact Hlen|exact Hd2]|]. intros r s3 Hr3 E.
  destruct (Hr3 E) as (Hd3 & pieces & rs2 & Hdrain & Hdo & Hp2). rewrite Hb2 in Hdrain. cbn in Hdrain.
  split; [done|]. exists (data :: pieces), (rs1 ++ rs2). rewrite Hdrain. split; [done|]. split.
  - cbn. unfold mbind, SE_bind. rewrite Epush. change (rd_decoder s1) with d1 in Hdr. by rewrite Hdr, Hdo.
  - by eapply passed_trans.
Qed.

Definition source_meaning (f : Format) (body body' : CountedBody) (g : G) (sent : list (list byte)) (fuel : Z) : Prop :=
  ∃ pieces outs g',
    drain_body (S (length (cb_inner body))) limits body = (SourceData <$> pieces, None, body')
    ∧ transform (all_records f (concat pieces)) g = (Ok (outs, fuel), g')
    ∧ concat sent = bytes_of outs.

Lemma read_source_spec f n d g body fuel s' :
  decoder_new f (decoder_limits (mkSourceLimits 0 n)) = Ok d →
  read_source limits refused (mkRead body d g []) = (Ok fuel, s') →
  source_meaning f body (rd_body s') g (rd_sent s') fuel.
Proof.
  intros Hnew. pose proof (decoder_new_open _ _ _ Hnew) as Hd0. unfold read_source, mbind, SE_bind, se_get. cbn [rd_body].
  pose proof (read_frames_spec (S (length (cb_inner body))) (mkRead body d g []) ltac:(cbn; lia) Hd0) as Hfr. unfold wp in Hfr.
  destruct (read_frames limits refused _ _) as [[[]|e] s1]; [|done].
  destruct (Hfr eq_refl) as (Hd1 & pieces & rs1 & Hdrain & Hdo & outs1 & Hp1 & Hs1). clear Hfr. cbn [rd_body] in Hdrain.
  cbn in Hdo, Hp1, Hs1.
  unfold rd_on_decoder. destruct (RecordDecoder.finish (rd_decoder s1)) as [[[]|e] d2] eqn:Efin; cbn [map_err]; [|done].
  assert (Hi2 : dec_inv d2). { destruct Hd1 as (Hi & _ & Hf). by destruct (finish_spec _ _ _ Hi Hf Efin) as (_ & _ & _ & _ & ? & _). }
  pose proof (read_ready_spec (set_rd_decoder d2 s1) Hi2) as Hrd. unfold wp in Hrd.
  destruct (read_ready_records refused (set_rd_decoder d2 s1)) as [[[]|e] s2]; [|done].
  destruct Hrd as [Hb2 Hr2]. destruct (Hr2 eq_refl) as (rs2 & Hdr & outs2 & Hp2 & Hs2). clear Hr2. cbn in Hdr, Hp2, Hs2, Hb2.
  unfold rd_on_pipeline. destruct (pl_finish (rd_pipeline s2)) as [[[tail fuel']|e] g3] eqn:Epf; cbn [map_err fst snd]; [|done].
  pose proof (emit_records_spec tail (set_rd_pipeline g3 s2)) as Hem. unfold wp in Hem.
  destruct (emit_records refused tail (set_rd_pipeline g3 s2)) as [[[]|e] s3]; [|done].
  destruct Hem as [Hb3 He3]. destruct (He3 eq_refl) as (Hs3 & _ & _ & _). cbn in Hs3, Hb3.
  unfold mret, SE_ret. intros [= <- <-].
  assert (Hall : decode f (decoder_limits (mkSourceLimits 0 n)) pieces = Ok (rs1 ++ rs2)).
  { unfold decode, mbind, result_bind. rewrite Hnew. by rewrite (decode_chunks_open _ _ _ _ _ _ _ Hdo Efin Hdr). }
  apply decode_all_records in Hall as [Hall _].
  exists pieces, (outs1 ++ outs2 ++ tail), g3. split; [by rewrite Hdrain, Hb3, Hb2|]. rewrite <- Hall. split.
  - eapply transform_app; [done|]. unfold transform, mbind, SE_bind. by rewrite Hp2, Epf.
  - by rewrite Hs3, Hs2, Hs1, !bytes_of_app, app_assoc.
Qed.

(** A source that was processed to its end: its frames were data, within the
    limits, and what was emitted is the transformation of its records. *)
Lemma process_source_spec f n g inner fuel sent source_bytes :
  0 <= bl_max_bytes limits → bl_max_bytes limits + Z.of_nat (bl_max_frame_bytes limits) <= u64_max →
  process_transformed_source limits refused f n g (counted_new inner) = (Ok fuel, sent, source_bytes) →
  ∃ pieces outs g',
    inner = inr ∘ SourceData <$> pieces ∧ source_bytes = Z.of_nat (length (concat pieces))
    ∧ source_bytes <= bl_max_bytes limits
    ∧ transform (all_records f (concat pieces)) g = (Ok (outs, fuel), g')
    ∧ concat sent = bytes_of outs.
Proof.
  intros H0' Hmax. unfold process_transformed_source.
  destruct (decoder_new f _) as [d|e] eqn:Hnew; [|done].
  destruct (read_source limits refused _) as [r s'] eqn:Er. intros [= -> <- <-].
  destruct (read_source_spec _ _ _ _ _ _ _ Hnew Er) as (pieces & outs & g' & Hdr & Htr & Hsent).
  apply drain_body_spec in Hdr as (Hb & _ & _ & Hin & Hcb & _); [|cbn; lia..]. cbn in Hb, Hin, Hcb.
  assert (Hbytes : body_bytes (SourceData <$> pieces) = concat pieces).
  { unfold body_bytes. rewrite <- list_fmap_compose. f_equal. clear. induction pieces; cbn; by f_equal. }
  rewrite Hbytes in *. exists pieces, outs, g'. split; [by rewrite Hin, <- list_fmap_compose|]. split; [done|]. split; [lia|]. done.
Qed.
End source.

(** ** Every read is settled once *)

Definition is_attempt (c : ControlCall) : bool := match c with CallAttempt _ => true | _ => false end.
(** The calls that settle: the reports of failed attempts are not among them. *)
Definition settling (log : list ControlCall) : list ControlCall := filter (λ c, is_attempt c = false) log.
Lemma settling_app a b : settling (a ++ b) = settling a ++ settling b.
Proof. apply filter_app. Qed.

Section settled.
  Context `{ControlPlane} (request_id key : list byte).

(** The reservation was asked to be released and the client got an error, or
    the usage was asked to be recorded, within the grant, and the client got
    the object exactly if it was. *)
Definition settled (grant : AuthorizationGrant) (response : Response) (log : list ControlCall) : Prop :=
  (∃ ok, settling log = [CallRelease (gr_operation_id grant) ok] ∧ is_success response = false)
  ∨ (∃ source output evidence ok, settling log = [CallRecord (usage_event grant source output evidence) ok]
       ∧ is_success response = ok ∧ Z.max source output <= gr_max_processed_bytes grant).

Lemma open_error_fails e : is_success (open_error_response request_id key e) = false.
Proof. by destruct e. Qed.
Lemma pipeline_error_fails e : is_success (pipeline_error_response request_id key e) = false.
Proof. unfold pipeline_error_response. by repeat case_bool_decide. Qed.
Lemma read_error_fails e : is_success (transformed_read_error_response request_id key e) = false.
Proof. destruct e as [| | |e|e]; try done; [apply pipeline_error_fails|]. by destruct e. Qed.
Lemma metering_error_fails e : is_success (metering_error_response request_id key e) = false.
Proof. by destruct e. Qed.
Lemma conditional_fails headers metadata status :
  conditional_read_status headers metadata = Some status → is_success (conditional_read_response metadata status) = false.
Proof.
  unfold conditional_read_status, mbind, option_bind. repeat case_match; try done; intros [= <-]; done.
Qed.

Lemma release_settles grant response log r log' :
  is_success response = false → settling log = [] →
  release_failure request_id key grant response log = (r, log') → settled grant r log'.
Proof.
  intros Hf Hl. unfold release_failure, control_release. intros [= <- <-]. left. eexists. split; [by rewrite settling_app, Hl|].
  by destruct (cp_release _).
Qed.

Lemma metered_settles grant source response hint evidence log r log' :
  settling log = [] →
  metered_read_response request_id key grant source response hint evidence log = (r, log') → settled grant r log'.
Proof.
  intros Hl. unfold metered_read_response. destruct (is_success response) eqn:Es; cbn [negb]; [|by apply release_settles].
  destruct (admitted_response_bytes response hint) as [n|]; [|by apply release_settles].
  destruct (Z.ltb_spec (gr_max_processed_bytes grant) (Z.max (default n source) n)) as [|Hle]; [by apply release_settles|].
  unfold control_record. set (ev := match evidence with Some _ => _ | None => _ end).
  assert (Hev : ev = usage_event grant (default n source) n evidence) by (by destruct evidence).
  destruct (cp_record (length log)) as [e|]; intros [= <- <-]; right; exists (default n source), n, evidence;
    eexists; rewrite settling_app, Hl, Hev; (split; [done|]); (split; [|done]).
  - apply metering_error_fails.
  - done.
Qed.
End settled.
#[local] Hint Resolve open_error_fails pipeline_error_fails read_error_fails : core.

Section get.
  Context `{ControlPlane, FileSystem} `{AeadLaws} `{OsRng} {G : Type} `{Pipeline G, Crypto, Parsers}.
  Context (request_id key : list byte) (bucket : string) (config : ReadConfig) (conditions : Conditions).
  Context (headers : Headers) (part_number : option Z) (operation : OperationIdentity) (dependencies : GetDependencies G).
  Abbreviation get := (s3_get request_id key bucket config conditions headers part_number operation dependencies).

Definition avro_object : bool :=
  match gd_open dependencies true with
  | Ok head => is_avro_content_type (content_type_header (op_metadata head))
  | Err _ => false
  end.

(** A transformed read that reaches an Avro object and is refused before its
    body is read: by the preflight, because Avro is not enabled, or because the
    object cannot be opened. *)
Definition avro_refusal : bool :=
  wants_transformed_read headers && bool_decide (rc_read_mode config = ReadTransformed)
  && match gd_snapshot dependencies, gd_backend dependencies, gd_open dependencies true with
     | Ok _, Some false, Ok head =>
       is_avro_content_type (content_type_header (op_metadata head))
       && (bool_decide (is_Some (avro_read_preflight headers part_number (op_metadata head)))
           || negb (rc_avro_enabled config)
           || match gd_open dependencies false with Ok _ => false | Err _ => true end)
     | _, _, _ => false
     end.

(** The answer to a read that holds a grant. *)
Definition accounted (grant : AuthorizationGrant) (answer : Served * list ControlCall * SpoolWorld) : Prop :=
  match answer with
  | (ServedBody response _, log, _) => settled grant response log
  | (ServedDirect response body _, log, _) =>
    settling log = [] ∧ is_success response = true ∧ dr_reservation_owned body = true ∧ dr_disclosed body = false
    ∧ dr_done body = false
  end.

Lemma released_accounted grant response log w :
  is_success response = false → settling log = [] → accounted grant (released request_id key grant response log w).
Proof.
  intros Hf Hl. unfold released. destruct (release_failure request_id key grant response log) as [r log'] eqn:E.
  by eapply release_settles.
Qed.

Lemma metered_accounted grant source response ended hint evidence log w :
  settling log = [] →
  accounted grant (metered request_id key grant source (ServedBody response ended) hint evidence log w).
Proof.
  intros Hl. unfold metered. destruct (metered_read_response _ _ _ _ _ _ _ _) as [r log'] eqn:E. by eapply metered_settles.
Qed.
#[local] Hint Resolve released_accounted metered_accounted : core.

Lemma direct_read_accounted grant metadata events :
  match direct_read_response request_id key grant metadata events with
  | ServedBody response _ => is_success response = false
  | ServedDirect response body _ => is_success response = true ∧ dr_reservation_owned body = true
      ∧ dr_disclosed body = false ∧ dr_done body = false
  end.
Proof. unfold direct_read_response. destruct events as [|[b|e|n m ev] queue]; cbn; auto. Qed.

Lemma transformed_response_served grant snapshot format object w served completed evidence w' :
  transformed_read_response request_id key config conditions grant snapshot format object w = (served, completed, evidence, w') →
  match served with
  | ServedBody _ _ => True
  | ServedDirect response body _ => is_success response = true ∧ dr_reservation_owned body = true
      ∧ dr_disclosed body = false ∧ dr_done body = false
  end.
Proof.
  unfold transformed_read_response. destruct (sn_start snapshot) as [g|e]; [|by intros [= <- _ _ _]].
  destruct (forallb id _).
  - intros [= <- _ _ _]. pose proof (direct_read_accounted grant (op_metadata object) (direct_events config conditions snapshot g format (counted_new (op_inner object)))) as Hd.
    by destruct (direct_read_response _ _ _ _ _).
  - unfold spooled_read_response. repeat (case_match; simplify_eq; try by intros [= <- _ _ _]).
Qed.

Lemma avro_response_body process_ocf object w served completed w' :
  avro_transformed_read_response request_id key config conditions process_ocf object w = (served, completed, w') →
  ∃ response ended, served = ServedBody response ended.
Proof.
  unfold avro_transformed_read_response. destruct (negb _); [intros [= <- _ _]; by eexists _, _|].
  destruct (collect_opened_object _ _ _) as [[source|e] body]; [|intros [= <- _ _]; by eexists _, _].
  destruct (process_ocf source) as [output|e]; [|intros [= <- _ _]; by eexists _, _].
  destruct (serve_spooled_bytes _ _ _ _) as [[[[n chunks] ended]|e] w1]; intros [= <- _ _]; by eexists _, _.
Qed.

(** The two ends of an Avro read. *)
Lemma get_avro_accounted grant metadata w :
  let answer := get_avro request_id key config conditions headers part_number dependencies grant metadata [] w in
  if bool_decide (is_Some (avro_read_preflight headers part_number metadata)) || negb (rc_avro_enabled config)
     || match gd_open dependencies false with Ok _ => false | Err _ => true end
  then ∃ response, answer = (ServedBody response (Ok tt), [], w) ∧ is_success response = false
  else accounted grant answer.
Proof.
  cbn zeta. unfold get_avro. destruct (avro_read_preflight headers part_number metadata) as [e|]; cbn; [eauto|].
  destruct (rc_avro_enabled config); cbn; [|eauto]. destruct (gd_open dependencies false) as [object|e]; [|eauto].
  destruct (avro_transformed_read_response _ _ _ _ _ _ _) as [[served completed] w1] eqn:Ea.
  destruct (avro_response_body _ _ _ _ _ _ Ea) as (response & ended & ->). by apply metered_accounted.
Qed.

Lemma get_transformed_accounted grant snapshot w :
  avro_object = false →
  accounted grant (get_transformed request_id key config conditions headers part_number dependencies grant snapshot [] w).
Proof.
  unfold avro_object, get_transformed. destruct (gd_open dependencies true) as [head|e]; [|auto]. intros ->.
  destruct (transformed_read_preflight _ _ (op_metadata head)) as [pre|e]; [|auto].
  destruct (gd_open dependencies false) as [object|e]; [|auto].
  destruct (transformed_read_preflight _ _ (op_metadata object)) as [pre'|e]; [|auto].
  destruct (_ || _ || _); [auto|]. destruct (conditional_read_status _ _) as [status|] eqn:Ec.
  { apply released_accounted; [by eapply conditional_fails|done]. }
  destruct (transformed_read_response _ _ _ _ _ _ _ _ _) as [[[served completed] evidence] w'] eqn:Et.
  apply transformed_response_served in Et. destruct served as [response ended|response body queue].
  - apply metered_accounted. by destruct (is_success response).
  - by split.
Qed.

Lemma get_passthrough_accounted grant w :
  accounted grant (get_passthrough request_id key config headers dependencies grant [] w).
Proof.
  unfold get_passthrough. destruct (gd_open dependencies false) as [object|e]; [|auto].
  destruct (conditional_read_status _ _) as [status|] eqn:Ec.
  { apply released_accounted; [by eapply conditional_fails|done]. }
  destruct (streams_passthrough _); [|auto]. destruct (into_response _ _) as [response ended]. auto.
Qed.

(** From the grant on, a read settles what it reserved, or it is the refusal of
    an Avro object. *)
Lemma get_granted_accounted grant w :
  let answer := get_granted request_id key config conditions headers part_number dependencies
                  (wants_transformed_read headers) grant [] w in
  if avro_refusal then ∃ response, answer = (ServedBody response (Ok tt), [], w) ∧ is_success response = false
  else accounted grant answer.
Proof.
  cbn zeta. unfold get_granted, avro_refusal. destruct (wants_transformed_read headers); cbn [andb].
  - destruct (gd_snapshot dependencies) as [snapshot|e]; cbn [fmap result_fmap]; [|rewrite andb_false_r; auto].
    case_bool_decide; cbn [negb andb]; [|auto]. destruct (gd_backend dependencies) as [[]|]; [auto| |auto].
    pose proof (get_transformed_accounted grant snapshot w) as Ht. unfold avro_object, get_transformed in *.
    destruct (gd_open dependencies true) as [head|e]; [|auto].
    destruct (is_avro_content_type _); cbn [andb]; [apply get_avro_accounted|by apply Ht].
  - destruct (gd_backend dependencies) as [presigned|]; [|auto]. apply get_passthrough_accounted.
Qed.

(** The grant that a read holds, and what happens without one. *)
Lemma get_grant w served log w' grant :
  get w = ((served, log, w'), grant) →
  match grant with
  | None => settling log = [] ∧ is_success (served_response served) = false
  | Some grant => gr_operation_id grant = oi_operation_id operation
      ∧ get_granted request_id key config conditions headers part_number dependencies
          (wants_transformed_read headers) grant [] w = (served, log, w')
  end.
Proof.
  unfold s3_get. destruct (client_metering_id_rejection _ _ _) as [r|] eqn:Ec.
  { intros [= <- <- <- <-]. split; [done|]. unfold client_metering_id_rejection in Ec.
    destruct (existsb _ _); [|done]. by injection Ec as <-. }
  destruct (if wants_transformed_read headers then _ else _) as [resolution|e] eqn:Er.
  2: { intros [= <- <- <- <-]. split; [done|]. apply pipeline_error_fails. }
  unfold authorize_request. set (a := authorization _ _ _ _).
  destruct (cp_authorize a) as [[g|m]|[]]; [|by intros [= <- <- <- <-]..].
  destruct (grant_matches g a) eqn:Eg; [|by intros [= <- <- <- <-]]. intros [= E <-]. split; [|done].
  unfold grant_matches in Eg. repeat (apply andb_prop in Eg as [Eg _]). by apply bool_decide_eq_true in Eg.
Qed.

(** C5: A read settles what it reserved, once.  Without a grant, nothing is
    settled and the client gets an error.  With a grant, which is the one
    that was asked for, the answer is one of: an error, with one request to
    release the reservation; an answer with one request to record the usage,
    within the grant, which is the object exactly if the usage was recorded;
    or a direct body, handed out before anything is settled, which owns the
    reservation and has disclosed nothing.  Excepted is the refusal of a
    transformed read of an Avro object before its body is read
    ([avro_refusal]); the Avro reads that get further are not. *)
Theorem read_settled_once w served log w' grant :
  avro_refusal = false →
  get w = ((served, log, w'), grant) →
  match grant with
  | None => settling log = [] ∧ is_success (served_response served) = false
  | Some grant => gr_operation_id grant = oi_operation_id operation ∧ accounted grant (served, log, w')
  end.
Proof.
  intros Ha E. apply get_grant in E. destruct grant as [grant|]; [|done]. destruct E as [Hid <-]. split; [done|].
  pose proof (get_granted_accounted grant w) as Hg. by rewrite Ha in Hg.
Qed.

(** C40: Which reads leave their reservation open: a read that was granted and is
    answered with a whole body or an error ends without any settling call of
    the control plane exactly if it is the refusal of an Avro object by the
    preflight, by the configuration, or by the second opening of the object;
    the client then gets an error, and nothing was called. *)
Theorem avro_refusal_keeps_reservation w response ended log w' grant :
  get w = ((ServedBody response ended, log, w'), Some grant) →
  (settling log = [] ↔ avro_refusal = true) ∧ (avro_refusal = true → log = [] ∧ is_success response = false).
Proof.
  intros [_ E]%get_grant. pose proof (get_granted_accounted grant w) as Hg. rewrite E in Hg. destruct avro_refusal.
  - destruct Hg as (r & [= -> -> -> ->] & Hf). done.
  - split; [|done]. split; [|done]. intros Hl. cbn in Hg. unfold settled in Hg. rewrite Hl in Hg.
    destruct Hg as [(ok & ? & _)|(? & ? & ? & ? & ? & _)]; done.
Qed.

(** *** What the spooled read serves *)

Lemma digits_to_str l : forallb is_ascii_digit l = true → to_str l = Some l.
Proof.
  intros Hl. unfold to_str. rewrite (proj2 (forallb_forall _ _)); [done|]. rewrite forallb_forall in Hl. intros b Hb.
  specialize (Hl b Hb). unfold is_ascii_digit in Hl. lia.
Qed.

Lemma content_length_shown metadata n :
  is_u64 n → get_all (transformed_response_headers metadata (Some n)) (bs "content-length") = [show_u64 n]
  ∧ single_length [show_u64 n] = Some n.
Proof.
  intros Hn. split.
  - unfold transformed_response_headers. rewrite harden_other by (vm_compute; set_solver). by rewrite get_all_insert.
  - destruct (show_u64_digits n Hn) as [Hd _]. cbn. rewrite (digits_to_str _ Hd). cbn. by apply show_u64_parse.
Qed.

Lemma refuse_fails e : is_success (served_response (refuse request_id key e)) = false.
Proof. apply read_error_fails. Qed.

Lemma spooled_read_spec snapshot g f metadata inner w response ended completed evidence w' :
  0 <= rc_spool_max_object_bytes config <= u64_max →
  spooled_read_response request_id key config conditions snapshot g f metadata (counted_new inner) w
    = (ServedBody response ended, completed, evidence, w') →
  is_success response = true →
  ∃ fuel sent source chunks n,
    process_transformed_source (rc_limits config) (cd_refused conditions) f (bl_max_frame_bytes (rc_limits config)) g
      (counted_new inner) = (Ok fuel, sent, source)
    ∧ response = mkResponse 200 (transformed_response_headers metadata (Some n)) chunks
    ∧ completed = Some source ∧ evidence = sn_evidence snapshot fuel "encrypted"
    ∧ n = Z.of_nat (length (concat sent)) ∧ is_u64 n ∧ concat chunks `prefix_of` concat sent
    ∧ ((∀ t, cd_interrupt conditions t = None) → quiet_files → concat chunks = concat sent ∧ ended = Ok tt).
Proof.
  intros Hmax. unfold spooled_read_response.
  assert (Hno : ∀ e (c : option Z) (ev : option PipelineEvidence) (x : SpoolWorld) {Q : Prop},
    (refuse request_id key e, c, ev, x) = (ServedBody response ended, completed, evidence, w') → is_success response = true → Q).
  { intros e c ev x Q E. assert (E' : refuse request_id key e = ServedBody response ended) by congruence.
    pose proof (refuse_fails e) as Hf. rewrite E' in Hf. cbn in Hf. congruence. }
  destruct (rc_spool_enabled config); cbn [negb]; [|apply Hno].
  destruct (rs_begin _ _ _ w) as [[s|e] w1] eqn:Eb; [|apply Hno].
  apply rs_begin_spec in Eb as (Hr & Hl & _ & Em & _); [|lia].
  destruct (process_transformed_source _ _ _ _ _ _) as [[r sent] source] eqn:Ep.
  destruct (spool_writer sent s w1) as [[s2|e2] w2] eqn:Ew;
    (destruct r as [fuel|e]; [|apply Hno]);
    [|apply Hno].
  apply (spool_writer_spec sent []) in Ew as (_ & Hc & Hr2); [|done].
  destruct (into_body _ s2 w2) as [[[[n chunks] end']|e] w3] eqn:Ei; [|apply Hno].
  destruct (into_body_spec _ _ _ _ _ _ Hr2 Ei) as (_ & Hn & Hp & Hq). intros [= <- <- <- <- <-] _.
  exists fuel, sent, source, chunks, n. do 5 (split; [done|]).
  destruct Hr2 as (_ & Hb2 & Hm2). pose proof (charged_max _ _ Hc) as Em2. cbn in *. split; [split; lia|]. split; [done|].
  intros Hi Hqf. apply Hq; [done|done|]. apply (charged_linked _ _ Hc); [intros m; apply Hqf|done].
Qed.

Lemma metered_success grant source rsp en evidence l w0 response ended log w' :
  metered request_id key grant source (ServedBody rsp en) None evidence l w0 = (ServedBody response ended, log, w') →
  is_success response = true → settling l = [] →
  rsp = response ∧ en = ended ∧ ∃ n, admitted_response_bytes rsp None = Some n
    ∧ settling log = [CallRecord (usage_event grant (default n source) n evidence) true].
Proof.
  unfold metered. destruct (metered_read_response _ _ _ _ _ _ _ _) as [r l'] eqn:E. intros [= -> <- <- <-] Hs Hl. rewrite Hs.
  unfold metered_read_response in E.
  assert (Hrel : ∀ rsp' (Q : Prop), is_success rsp' = false → release_failure request_id key grant rsp' l = (response, l') → Q).
  { intros rsp' Q Hf E'. destruct (release_settles _ _ _ _ _ _ _ Hf Hl E') as [(ok & _ & ?)|(? & ? & ? & ok & Hlog & _)]; [congruence|].
    unfold release_failure, control_release in E'. injection E' as _ <-. by rewrite settling_app, Hl in Hlog. }
  destruct (is_success rsp) eqn:Es; cbn [negb] in E; [|by eapply Hrel].
  destruct (admitted_response_bytes rsp None) as [n|]; [|by eapply Hrel; [|exact E]].
  destruct (_ <? _); [by eapply Hrel; [|exact E]|]. unfold control_record in E.
  destruct (cp_record (length l)) as [e|]; injection E as <- <-; [by rewrite metering_error_fails in Hs|].
  split; [done|]. split; [done|]. exists n. split; [done|]. rewrite settling_app, Hl. by destruct evidence.
Qed.

Lemma transformed_read_body grant snapshot f object w response ended completed evidence w' :
  transformed_read_response request_id key config conditions grant snapshot f object w
    = (ServedBody response ended, completed, evidence, w') → is_success response = true →
  ∃ g, sn_start snapshot = Ok g
    ∧ spooled_read_response request_id key config conditions snapshot g f (op_metadata object) (counted_new (op_inner object)) w
      = (ServedBody response ended, completed, evidence, w').
Proof.
  unfold transformed_read_response. destruct (sn_start snapshot) as [g|e].
  2: { intros [= <- _ _ _ _]. by rewrite pipeline_error_fails. }
  destruct (forallb id _); [|eauto]. intros E Hs. exfalso.
  pose proof (direct_read_accounted grant (op_metadata object) (direct_events config conditions snapshot g f (counted_new (op_inner object)))) as Hd.
  injection E as E _ _ _. rewrite E in Hd. congruence.
Qed.

(** C7: A transformed read of an object that is not Avro, when it is answered
    from the spool with an object, serves the transformation of that object,
    and was paid for: the source, all data and within the limits, was cut into
    its records, whatever frames it arrived in; the announced length is the
    length of what the pipeline made of them, the body is that or (when the
    replay was interrupted) a prefix of it.  The one usage event was recorded
    before: its source size is the length the object declares, or without one
    the length that was read; its output size is the announced length; its
    evidence is that of the snapshot for the fuel used. *)
Theorem transformed_read_serves w response ended log w' grant :
  0 <= rc_spool_max_object_bytes config <= u64_max → 0 <= bl_max_bytes (rc_limits config) →
  bl_max_bytes (rc_limits config) + Z.of_nat (bl_max_frame_bytes (rc_limits config)) <= u64_max →
  wants_transformed_read headers = true → avro_object = false →
  get w = ((ServedBody response ended, log, w'), Some grant) → is_success response = true →
  ∃ object snapshot g f media pieces outs fuel g',
    gd_open dependencies false = Ok object ∧ gd_snapshot dependencies = Ok snapshot ∧ sn_start snapshot = Ok g
    ∧ transformed_read_preflight headers part_number (op_metadata object) = Ok (f, media)
    ∧ op_inner object = inr ∘ SourceData <$> pieces
    ∧ transform (all_records f (concat pieces)) g = (Ok (outs, fuel), g')
    ∧ content_length (rsp_headers response) = Some (Z.of_nat (length (bytes_of outs)))
    ∧ concat (rsp_body response) `prefix_of` bytes_of outs
    ∧ ((∀ t, cd_interrupt conditions t = None) → quiet_files → concat (rsp_body response) = bytes_of outs ∧ ended = Ok tt)
    ∧ settling log = [CallRecord (usage_event grant
        (default (Z.of_nat (length (concat pieces))) (content_length (om_headers (op_metadata object))))
        (Z.of_nat (length (bytes_of outs))) (sn_evidence snapshot fuel "encrypted")) true].
Proof.
  intros Hspool Hpos Hlim Hw Ha. unfold s3_get. destruct (client_metering_id_rejection _ _ _) as [r|]; [done|]. rewrite Hw.
  destruct (gd_resolution dependencies) as [resolution|e]; cbn [fmap result_fmap]; [|done].
  destruct (authorize_request _ _ _) as [g|r]; [|done]. intros [= E <-] Hs. revert E. unfold get_granted.
  assert (Hrel : ∀ (Q : Prop) rsp l x, released request_id key g rsp l x = (ServedBody response ended, log, w') →
    is_success rsp = false → settling l = [] → Q).
  { intros Q rsp l x E Hf Hl. pose proof (released_accounted g rsp l x Hf Hl) as Hr. rewrite E in Hr.
    destruct Hr as [(ok & _ & Hr)|(? & ? & ? & ok & Hlog & Hr & _)]; [congruence|].
    unfold released, release_failure, control_release in E. injection E as _ _ <- _. rewrite settling_app, Hl in Hlog. done. }
  destruct (gd_snapshot dependencies) as [snapshot|e] eqn:Esnap; cbn [fmap result_fmap]; [|intros E; eapply Hrel; eauto].
  case_bool_decide; cbn [negb andb]; [|intros E; by eapply Hrel; eauto].
  destruct (gd_backend dependencies) as [[]|]; [intros E; by eapply Hrel; eauto| |intros E; by eapply Hrel; eauto].
  unfold get_transformed. unfold avro_object in Ha.
  destruct (gd_open dependencies true) as [hd|e]; [|intros E; by eapply Hrel; eauto]. rewrite Ha.
  destruct (transformed_read_preflight _ _ (op_metadata hd)) as [pre|e]; [|intros E; by eapply Hrel; eauto].
  destruct (gd_open dependencies false) as [object|e] eqn:Eobj; [|intros E; by eapply Hrel; eauto].
  destruct (transformed_read_preflight _ _ (op_metadata object)) as [[f media]|e] eqn:Epre; [|intros E; by eapply Hrel; eauto].
  case_bool_decide as Hf; cbn [negb orb]; [|intros E; by eapply Hrel; eauto].
  destruct (_ || _); [intros E; by eapply Hrel; eauto|].
  destruct (conditional_read_status _ _) as [status|] eqn:Ec.
  { intros E. eapply Hrel; [done|by eapply conditional_fails|done]. }
  cbn [fst] in Hf. rewrite <- Hf.
  destruct (transformed_read_response _ _ _ _ _ _ _ _ _) as [[[served completed] evidence] w1] eqn:Et.
  destruct served as [rsp en|]; [|done]. intros E. set (l := if is_success rsp then [] else _) in E.
  assert (Hl : settling l = []) by (unfold l; by destruct (is_success rsp)).
  destruct (metered_success _ _ _ _ _ _ _ _ _ _ _ E Hs Hl) as (-> & -> & n' & Hadm & Hlog).
  destruct (transformed_read_body _ _ _ _ _ _ _ _ _ _ Et Hs) as (pl & Epl & Esp).
  destruct (spooled_read_spec _ _ _ _ _ _ _ _ _ _ _ Hspool Esp Hs) as (fuel & sent & source & chunks & n & Hproc & -> & -> & -> & Hn & Hu & Hpre & Hq).
  destruct (process_source_spec _ _ _ _ _ _ _ _ _ Hpos Hlim Hproc) as (pieces & outs & g' & Hin & Hsrc & _ & Htr & Hsent).
  destruct (content_length_shown (op_metadata object) n Hu) as [Hget Hsl]. rewrite Hsent in *.
  unfold admitted_response_bytes in Hadm. cbn [rsp_headers] in Hadm. rewrite Hget, Hsl in Hadm. injection Hadm as <-.
  exists object, snapshot, pl, f, media, pieces, outs, fuel, g'.
  rewrite <- Hn, <- Hsrc. split_and!; try done.
  - unfold content_length. cbn [rsp_headers]. by rewrite Hget, Hsl.
  - rewrite Hlog. by destruct (content_length (om_headers (op_metadata object))).
Qed.
End get.

(** ** The direct body *)

Section direct.
  Context `{ControlPlane} (grant : AuthorizationGrant) (sent : list (list byte)).
  (** how the worker ended: its error, or the bytes of the source and the evidence *)
  Context (worker : TransformedReadError + Z * option PipelineEvidence).

Definition final : DirectReadEvent :=
  match worker with inl e => DirectFailed e | inr (source, evidence) => DirectDone source (total_bytes sent) evidence end.

Definition outcome_bytes (o : PollOutcome) : list byte := match o with PollData b => b | _ => [] end.
Definition given (os : list PollOutcome) : list byte := concat (outcome_bytes <$> os).

Definition refused_record (c : ControlCall) : Prop := ∃ event, c = CallRecord event false.

(** The states of a direct body, with the bytes the client got and whether the
    body has ended regularly. *)
Inductive direct_state : list byte → bool → DirectReadBody → list DirectReadEvent → list ControlCall → Prop :=
| ds_streaming got first disclosed queue rem k log :
    got ++ concat rem = concat sent → (disclosed = false → got = []) →
    opt_list (DirectData <$> first) ++ queue = take k ((DirectData <$> rem) ++ [final]) → settling log = [] →
    direct_state got false (mkDirect first None disclosed true false) queue log
| ds_settling disclosed queue log source evidence attempts in_flight :
    (disclosed = false → concat sent = []) → worker = inr (source, evidence) →
    Forall refused_record (settling log) →
    direct_state (concat sent) false
      (mkDirect None (Some (mkSettlement (usage_event grant source (total_bytes sent) evidence) attempts in_flight))
         disclosed true false) queue log
| ds_recorded disclosed queue log source evidence refused :
    worker = inr (source, evidence) → Forall refused_record refused →
    settling log = refused ++ [CallRecord (usage_event grant source (total_bytes sent) evidence) true] →
    direct_state (concat sent) true (mkDirect None None disclosed false true) queue log
| ds_failed got disclosed owned queue log :
    got `prefix_of` concat sent →
    Forall refused_record (settling log) ∨ (got = [] ∧ ∃ ok, settling log = [CallRelease (gr_operation_id grant) ok]) →
    direct_state got false (mkDirect None None disclosed owned true) queue log.

Definition is_end (o : PollOutcome) : bool := match o with PollEnd => true | _ => false end.

(** A poll of the future has refused attempts behind it, and one that
    succeeded if it says so. *)
Lemma settlement_poll_spec event attempts answers log ready attempts' log' :
  Forall refused_record (settling log) →
  settlement_poll event attempts answers log = (ready, attempts', log') →
  if bool_decide (ready = Some true)
  then ∃ refused, Forall refused_record refused ∧ settling log' = refused ++ [CallRecord event true]
  else Forall refused_record (settling log').
Proof.
  revert answers log. induction attempts as [|attempts IH]; intros answers log Hf; cbn [settlement_poll]; [by intros [= <- <- <-]|].
  destruct answers as [|answers]; [by intros [= <- <- <-]|]. unfold control_record. destruct (cp_record (length log)) as [e|].
  - apply IH. rewrite settling_app. apply Forall_app. split; [done|]. constructor; [by eexists|done].
  - intros [= <- <- <-]. exists (settling log). split; [done|]. by rewrite settling_app.
Qed.

Lemma settlement_step disclosed queue log source evidence attempts in_flight answers o d' log' :
  let st := mkSettlement (usage_event grant source (total_bytes sent) evidence) attempts in_flight in
  (disclosed = false → concat sent = []) → worker = inr (source, evidence) →
  Forall refused_record (settling log) →
  poll_settlement (mkDirect None (Some st) disclosed true false) st answers log = (o, d', log') →
  outcome_bytes o = [] ∧ direct_state (concat sent) (is_end o) d' queue log'.
Proof.
  intros st Hd Hl Hf. unfold poll_settlement. cbn [st_event st_attempts st].
  destruct (settlement_poll _ _ _ _) as [[ready attempts'] log1] eqn:E.
  apply settlement_poll_spec in E; [|done]. destruct ready as [[]|]; cbn in E; intros [= <- <- <-]; (split; [done|]).
  - destruct E as (refused & Hr & Hlog). by eapply ds_recorded.
  - apply ds_failed; [done|by left].
  - by apply ds_settling.
Qed.

Lemma direct_step got d queue arrivals log o d' queue' log' :
  direct_state got false d queue log → dr_done d = false → direct_poll grant d queue arrivals log = (o, d', queue', log') →
  direct_state (got ++ outcome_bytes o) (is_end o) d' queue' log'.
Proof.
  intros Hs. inversion Hs as [got' first disclosed q rem k l Hgot Hdis Hq Hl|disclosed q l source evidence attempts fl Hdis Hfin Hf| |];
    subst; intros Hdone; [| |done].
  2: { unfold direct_poll. cbn [dr_settlement]. destruct (poll_settlement _ _ _ _) as [[o1 d1] l1] eqn:E. intros [= <- <- <- <-].
       destruct (settlement_step _ queue _ _ _ _ _ _ _ _ _ Hdis Hfin Hf E) as [-> ?]. by rewrite app_nil_r. }
  assert (Hdata : ∀ b q, DirectData b :: q = take k ((DirectData <$> rem) ++ [final]) →
    direct_state (got ++ b) false (mkDirect None None true true false) q log).
  { intros b q E. destruct k as [|k]; [done|]. destruct rem as [|b' rem]; cbn in E.
    - injection E as E _. unfold final in E. by destruct worker as [|[]].
    - injection E as <- ->. eapply (ds_streaming _ None _ _ rem k); [|done|done|done]. cbn in Hgot. by rewrite <- app_assoc. }
  unfold direct_poll. cbn [dr_settlement dr_first dr_reservation_owned dr_done dr_disclosed]. destruct first as [b|]; cbn in Hq.
  { intros [= <- <- <- <-]. by apply Hdata. }
  assert (Hpre : got `prefix_of` concat sent) by (by eexists).
  destruct (ar_received arrivals); cbn [negb].
  2: { intros [= <- <- <- <-]. cbn. rewrite app_nil_r. by eapply (ds_streaming got None disclosed queue rem k). }
  destruct queue as [|[b|e|source output evidence] queue].
  - intros [= <- <- <- <-]. cbn. rewrite app_nil_r. apply ds_failed; [done|]. left. by rewrite Hl.
  - intros [= <- <- <- <-]. by apply Hdata.
  - intros E. assert (E' : ∃ owned log1, (o, d', queue', log') = (PollError "direct transformed-read pipeline failed",
      mkDirect None None disclosed owned true, queue, log1) ∧ (settling log1 = [] ∨ (disclosed = false ∧ ∃ ok, settling log1 = [CallRelease (gr_operation_id grant) ok]))).
    { destruct disclosed; rewrite <- E; eexists _, _; (split; [done|]); unfold record_failed_pipeline_attempt, control_release;
        cbn [snd]; rewrite !settling_app, Hl; [by left|]. right. split; [done|]. by eexists. }
    destruct E' as (owned & log1 & [= -> -> -> ->] & Hlog). cbn. rewrite app_nil_r. apply ds_failed; [done|].
    destruct Hlog as [->|[Hd Hok]]; [by left|]. right. auto.
  - destruct k as [|k]; [done|]. destruct rem as [|b' rem]; cbn in Hq; [|done]. injection Hq as Hq _. unfold final in Hq.
    destruct worker as [e|[source' evidence']] eqn:Ew; [done|]. injection Hq as -> -> ->. cbn in Hgot. rewrite app_nil_r in Hgot. subst got.
    destruct (_ <? _).
    + intros [= <- <- <- <-]. cbn. rewrite app_nil_r. apply ds_failed; [done|]. left. by rewrite Hl.
    + destruct (poll_settlement _ _ _ _) as [[o1 d1] l1] eqn:E. intros [= <- <- <- <-].
      destruct (settlement_step disclosed queue log source' evidence' DIRECT_READ_SETTLEMENT_ATTEMPTS false (ar_answers arrivals) o1 d1 l1 Hdis Ew) as [-> ?]; [by rewrite Hl| |by rewrite app_nil_r].
      exact E.
Qed.

Lemma direct_polls_state polls : ∀ got d queue log os d' log',
  direct_state got false d queue log → direct_polls grant polls d queue log = (os, d', log') →
  ∃ queue', direct_state (got ++ given os) (existsb is_end os) d' queue' log'.
Proof.
  assert (Hnil : ∀ got d queue log, direct_state got false d queue log →
    ∃ queue', direct_state (got ++ given []) (existsb is_end []) d queue' log).
  { intros got d queue log Hs. exists queue. unfold given. cbn. by rewrite app_nil_r. }
  induction polls as [|arrivals polls IH]; intros got d queue log os d' log' Hs; cbn [direct_polls]; [intros [= <- <- <-]; by eapply Hnil|].
  destruct (dr_done d) eqn:Hd; [intros [= <- <- <-]; by eapply Hnil|].
  destruct (direct_poll grant d queue arrivals log) as [[[o d1] q1] l1] eqn:E. pose proof (direct_step _ _ _ _ _ _ _ _ _ Hs Hd E) as Hs1.
  destruct (direct_polls grant polls d1 q1 l1) as [[os1 d2] l2] eqn:Ep. intros [= <- <- <-].
  unfold given. cbn. rewrite app_assoc. destruct (is_end o) eqn:Eo; cbn.
  - assert (Hdone : dr_done d1 = true) by (by inversion Hs1). destruct polls as [|a polls]; cbn in Ep.
    + injection Ep as <- <- <-. exists q1. cbn. by rewrite app_nil_r.
    + rewrite Hdone in Ep. injection Ep as <- <- <-. exists q1. cbn. by rewrite app_nil_r.
  - by eapply IH.
Qed.

Lemma settling_elem c log : is_attempt c = false → c ∈ log ↔ c ∈ settling log.
Proof. intros Hc. unfold settling. rewrite list_elem_of_filter. tauto. Qed.
(** What the drop of a body adds to refused attempts. *)
Lemma drop_members d log c :
  Forall refused_record (settling log) → is_attempt c = false → c ∈ direct_drop grant d log →
  refused_record c ∨ (∃ st, dr_settlement d = Some st ∧ c = CallRecordLost (st_event st))
  ∨ (dr_disclosed d = false ∧ ∃ ok, c = CallRelease (gr_operation_id grant) ok).
Proof.
  intros Hf Hc. unfold direct_drop, control_release. set (l := match dr_settlement d with Some _ => _ | None => _ end).
  assert (Hl : c ∈ l → refused_record c ∨ ∃ st, dr_settlement d = Some st ∧ c = CallRecordLost (st_event st)).
  { assert (Hr : c ∈ log → refused_record c) by (rewrite settling_elem by done; rewrite Forall_forall in Hf; apply Hf).
    unfold l. destruct (dr_settlement d) as [st|]; [|auto]. destruct (st_in_flight st); [|auto].
    rewrite elem_of_app, list_elem_of_singleton. intros [?| ->]; eauto. }
  destruct (dr_done d); [naive_solver|]. destruct (dr_reservation_owned d); [|naive_solver].
  destruct (dr_disclosed d); cbn [negb andb snd]; [naive_solver|]. rewrite elem_of_app, list_elem_of_singleton. naive_solver.
Qed.

(** What a direct body leaves behind when it is dropped. *)
Lemma direct_final got ended d queue log :
  direct_state got ended d queue log →
  let log' := direct_drop grant d log in
  got `prefix_of` concat sent
  ∧ (ended = true → got = concat sent ∧ ∃ source evidence, worker = inr (source, evidence)
       ∧ CallRecord (usage_event grant source (total_bytes sent) evidence) true ∈ log')
  ∧ (∀ id ok, CallRelease id ok ∈ log' → got = [] ∧ (∀ event, CallRecord event true ∉ log')
       ∧ ∀ event, CallRecordLost event ∈ log' → concat sent = [])
  ∧ (∀ event, CallRecord event true ∈ log' → ended = true)
  ∧ (∀ event, CallRecordLost event ∈ log' → ended = false ∧ got = concat sent ∧ ∃ source evidence,
       worker = inr (source, evidence) ∧ event = usage_event grant source (total_bytes sent) evidence).
Proof.
  assert (Hmem := drop_members d log).
  destruct 1 as [got first disclosed q rem k l Hgot Hdis Hq Hl|disclosed q l source evidence attempts fl Hdis Hfin Hf
                |disclosed q l source evidence refused Hfin Hf Hl|got disclosed owned q l Hpre Hor]; cbn zeta.
  - assert (Hf : Forall refused_record (settling l)) by (by rewrite Hl). cbn [dr_settlement dr_disclosed] in Hmem.
    assert (Hno : ∀ c, is_attempt c = false → c ∈ direct_drop grant (mkDirect first None disclosed true false) l →
      refused_record c ∨ (disclosed = false ∧ ∃ ok, c = CallRelease (gr_operation_id grant) ok)).
    { intros c Hc Hin. destruct (Hmem c Hf Hc Hin) as [?|[(st & ? & _)|?]]; [by left|done|by right]. }
    split; [by eexists|]. split; [done|]. split_and!; [|by intros event [[? ?]|(_ & ? & ?)]%Hno..].
    intros id ok [[? ?]|(? & _)]%Hno; [done| |done]. split; [by apply Hdis|].
    split; by intros event [[? ?]|(_ & ? & ?)]%Hno.
  - cbn [dr_settlement dr_disclosed] in Hmem. set (body := mkDirect _ _ _ _ _) in *. set (event := usage_event _ _ _ _) in *.
    assert (Hno : ∀ c, is_attempt c = false → c ∈ direct_drop grant body l →
      refused_record c ∨ c = CallRecordLost event ∨ (disclosed = false ∧ ∃ ok, c = CallRelease (gr_operation_id grant) ok)).
    { intros c Hc Hin. destruct (Hmem c Hf Hc Hin) as [?|[(st & [= <-] & ->)|?]]; auto. }
    split; [done|]. split; [done|]. split_and!.
    + intros id ok [[? ?]|[?|(? & _)]]%Hno; [done..| |done]. split; [by apply Hdis|]. split; [|by intros; apply Hdis].
      by intros ev [[? ?]|[?|(_ & ? & ?)]]%Hno.
    + by intros ev [[? ?]|[?|(_ & ? & ?)]]%Hno.
    + intros ev [[? ?]|[[= ->]|(_ & ? & ?)]]%Hno; [done| |done|done]. split; [done|]. split; [done|]. by exists source, evidence.
  - clear Hmem. cbn. assert (Hin : ∀ c, is_attempt c = false → c ∈ l → refused_record c ∨ c = CallRecord (usage_event grant source (total_bytes sent) evidence) true).
    { intros c Hc. rewrite settling_elem, Hl, elem_of_app, list_elem_of_singleton by done. rewrite Forall_forall in Hf.
      intros [?|?]; [left; by apply Hf|by right]. }
    split; [done|]. split.
    { intros _. split; [done|]. exists source, evidence. split; [done|]. apply settling_elem; [done|]. rewrite Hl. set_solver. }
    split; [by intros id ok [[? ?]|?]%Hin|]. split; [done|]. by intros event [[? ?]|?]%Hin.
  - clear Hmem. cbn. split; [done|]. split; [done|]. destruct Hor as [Hf|[-> [ok Hl]]].
    + assert (Hno : ∀ c, is_attempt c = false → c ∈ l → refused_record c).
      { intros c Hc. rewrite settling_elem by done. rewrite Forall_forall in Hf. apply Hf. }
      split; [by intros id ok [? ?]%Hno|]. split; by intros event [? ?]%Hno.
    + assert (Hin : ∀ c, is_attempt c = false → c ∈ l → c = CallRelease (gr_operation_id grant) ok).
      { intros c Hc. rewrite settling_elem, Hl by done. apply list_elem_of_singleton. }
      split; [|split; by intros event ?%Hin]. intros id ok' _. split; [done|]. split; by intros event ?%Hin.
Qed.

Lemma existsb_exists_end os : PollEnd ∈ os ↔ existsb is_end os = true.
Proof.
  rewrite existsb_exists. split.
  - intros Hin. exists PollEnd. by rewrite <- list_elem_of_In.
  - intros (o & Hin & Ho). rewrite <- list_elem_of_In in Hin. by destruct o.
Qed.

(** C13: However often the client polls a direct body before it drops it,
    whatever the worker has sent by then and however many answers the control
    plane has given, the client gets a prefix of the output.  A regular end
    means that it got all of it and that the usage was recorded with exactly
    its length.  The reservation is released only when the client got nothing
    and no record of usage was acknowledged; and if then a record call was
    left unanswered, which may have taken effect, the output was empty.  Usage
    is acknowledged as recorded only at a regular end, and a record call is
    left unanswered only by a client that drops the body after all of the
    output, before the end. *)
Theorem direct_read_settles metadata request_id key k response body queue polls os log :
  direct_read_response request_id key grant metadata (take k ((DirectData <$> sent) ++ [final])) = ServedDirect response body queue →
  direct_client grant polls body queue [] = (os, log) →
  given os `prefix_of` concat sent
  ∧ (PollEnd ∈ os → given os = concat sent ∧ ∃ source evidence, worker = inr (source, evidence)
       ∧ CallRecord (usage_event grant source (total_bytes sent) evidence) true ∈ log)
  ∧ (∀ id ok, CallRelease id ok ∈ log → given os = [] ∧ (∀ event, CallRecord event true ∉ log)
       ∧ ∀ event, CallRecordLost event ∈ log → concat sent = [])
  ∧ (∀ event, CallRecord event true ∈ log → PollEnd ∈ os)
  ∧ (∀ event, CallRecordLost event ∈ log → (PollEnd ∉ os) ∧ given os = concat sent ∧ ∃ source evidence,
       worker = inr (source, evidence) ∧ event = usage_event grant source (total_bytes sent) evidence).
Proof.
  intros Hserved Hclient.
  assert (Hinit : direct_state [] false body queue []).
  { revert Hserved. destruct (take k _) as [|[b|e|source output evidence] events] eqn:Eev; cbn [direct_read_response]; [done| |done|].
    - intros [= _ <- <-]. by eapply (ds_streaming [] (Some b) false events sent k).
    - intros [= _ <- <-]. destruct k as [|k]; [done|].
      assert (Hsent : sent = []) by (revert Eev; by destruct sent). rewrite Hsent in Eev. cbn in Eev. injection Eev as Eev _.
      unfold final in Eev. destruct worker as [|[source' evidence']] eqn:Ew; [done|]. injection Eev as -> <- ->.
      assert (Hc : concat sent = []) by (by rewrite Hsent).
      pose proof (ds_settling false events [] source evidence DIRECT_READ_SETTLEMENT_ATTEMPTS false (λ _, Hc) Ew) as Hst.
      rewrite Hc in Hst. apply Hst. constructor. }
  unfold direct_client in Hclient. destruct (direct_polls grant polls body queue []) as [[os' d'] log1] eqn:Ep.
  destruct (direct_polls_state _ _ _ _ _ _ _ _ Hinit Ep) as (queue' & Hst). injection Hclient as <- <-. cbn [app] in Hst.
  destruct (direct_final _ _ _ _ _ Hst) as (P1 & P2 & P3 & P4 & P5). split; [done|]. split; [by intros ?%existsb_exists_end; apply P2|].
  split; [done|]. split; [intros event Hev; apply existsb_exists_end; by eapply P4|].
  intros event Hev. destruct (P5 event Hev) as (Hend & Hrest). split; [|done]. rewrite existsb_exists_end. congruence.
Qed.

(** The exception is real: whatever the control plane, when the output is empty
    and the client drops the body while the record call is in flight, the
    reservation is released although the usage may have been recorded. *)
Lemma dropped_settlement_releases metadata request_id key source evidence received response body queue :
  sent = [] → worker = inr (source, evidence) →
  direct_read_response request_id key grant metadata [final] = ServedDirect response body queue →
  direct_client grant [mkArrivals received 0] body queue []
    = ([PollPending], [CallRecordLost (usage_event grant source 0 evidence); CallRelease (gr_operation_id grant) (cp_release 1)]).
Proof. unfold final. intros -> ->. by intros [= _ <- <-]. Qed.
End direct.
