(* ===== verification/ReadExamples.v ===== *)
(** * Concrete reads

    Inputs on which the theorems of [ObjectBody.v] and [ReadProofs.v] apply:
    a text object of two lines read through a pipeline that doubles every
    record, once through the spool and once directly; an error document with
    hostile texts; and the refused read of an Avro object, whose reservation
    stays. *)

From S2P Require Import Prelude Staging Operation RustStr Integrity IntegrityProofs Format RecordDecoder RecordProofs SigV4 Managed SinkApi Spool ReadSpool StreamingPut ObjectBody TransformedRead ReadProofs SpoolExamples.

#[local] Open Scope Z_scope.
Set Default Goal Selector "!".

#[local] Existing Instance plain_crypto.
#[local] Existing Instance sample_parsers.
#[local] Existing Instance calm.
#[local] Existing Instance toy_aead.
#[local] Existing Instance toy_aead_laws.
#[local] Existing Instance toy_rng.

(** ** Bodies, ranges, errors, headers *)

Definition small_limits : BodyLimits := mkBodyLimits 8 10.
Definition long_source : list (string + SourceFrame) :=
  [inr (SourceData (bs "abcdef")); inr (SourceData (bs "ghi")); inr (SourceData (bs "jkl"))].

Lemma counted_body_bounded_witness :
  let '(fs, r, b) := read_body small_limits long_source in
  Z.of_nat (length (body_bytes fs)) <= 10 ∧ cb_cancelled b = true ∧ r = Some (ObjectTooLarge 12 10).
Proof.
  destruct (read_body small_limits long_source) as [[fs r] b] eqn:E.
  pose proof (counted_body_bounded small_limits long_source fs r b ltac:(done) ltac:(done) E) as (H1 & _ & _ & H4).
  assert (Er : r = Some (ObjectTooLarge 12 10)) by (vm_compute in E; congruence). subst r. auto.
Defined.

Lemma memory_range_exact_witness :
  ∃ s e, 0 <= s <= e ∧ e < 6 ∧ bs "bytes 2-5/6" = range_header s e 6 ∧ Z.of_nat (length (bs "cdef")) = e - s + 1
    ∧ bs "cdef" = take (Z.to_nat (e - s + 1)) (drop (Z.to_nat s) (bs "abcdef")).
Proof.
  apply (memory_range_exact (bs "abcdef") (bs "bytes=2-99") (bs "cdef") (bs "bytes 2-5/6")). vm_compute. reflexivity.
Defined.

Definition hostile_key : list byte := bs "<key>&lt;" ++ [xef; xbf; xbf].

Definition two_names : Headers := [(bs "x-s4-process", bs "read"); (bs "x-maskura-process", bs "read")].
Lemma validated_headers_total_witness :
  ∃ v, validated two_names PROCESS = Some v
    ∧ ∀ x, v = Some x ↔ x ∈ get_all two_names (bs "x-maskura-process") ++ get_all two_names (bs "x-s4-process").
Proof. apply (validated_headers_total two_names PROCESS); [vm_compute; reflexivity|]. unfold ALL. set_solver. Defined.

(** ** A transformed read *)

#[local] Instance willing : ControlPlane := {|
  cp_authorize a := Ok (Granted (grant_new a 5 1));
  cp_release _ := true;
  cp_record _ := None;
|}.
#[local] Instance doubling : Pipeline unit := {|
  pl_process r := mret (Some (mkRecord (payload r ++ payload r) (separator r)));
  pl_finish := mret ([mkRecord (bs ".") []], 7);
  pl_cancel_and_wait g := g;
|}.

Definition read_headers : Headers := [(bs "x-maskura-process", bs "read")].
Definition text_metadata : ObjectMetadata := mkMetadata [(bs "content-type", bs "text/plain"); (bs "etag", [x22] ++ bs "e1" ++ [x22])] None.
Definition text_pieces : list (list byte) := [bs "he"; bs "llo" ++ [x0a] ++ bs "you"].
Definition text_object : OpenedObject := mkOpened 200 text_metadata ((inr ∘ SourceData) <$> text_pieces) (Some 9).
Definition example_config : ReadConfig := mkReadConfig (mkBodyLimits 64 1000) 1000 ReadTransformed true 1000 100000 false.
Definition no_trouble : Conditions := mkConditions 0 (λ _, None) 100 (λ _, None).
Definition doubling_snapshot (direct : bool) : Snapshot unit := mkSnapshot (Ok tt) [direct] (λ _ _, None).
Definition reads_of (object : OpenedObject) (direct : bool) : GetDependencies unit :=
  mkDependencies (Ok ("r1", "f1")) (Ok (doubling_snapshot direct)) (Some false) (λ _, Ok object) (λ _, Err (mkS4Error "internal" "")).
Abbreviation example_get object direct :=
  (s3_get (bs "id") (bs "key") "bucket" example_config no_trouble read_headers None (mkIdentity 1 2) (reads_of object direct) no_files).

Lemma read_settled_once_witness :
  ∃ served log w' grant, example_get text_object false = ((served, log, w'), Some grant)
    ∧ gr_operation_id grant = 1%N ∧ accounted grant (served, log, w').
Proof.
  destruct (example_get text_object false) as [[[served log] w'] [grant|]] eqn:E; [|vm_compute in E; discriminate E].
  exists served, log, w', grant. split; [reflexivity|].
  exact (read_settled_once (bs "id") (bs "key") "bucket" example_config no_trouble read_headers None (mkIdentity 1 2)
           (reads_of text_object false) no_files served log w' (Some grant) eq_refl E).
Defined.

Lemma transformed_read_serves_witness :
  ∃ response ended log w' grant, example_get text_object false = ((ServedBody response ended, log, w'), Some grant)
    ∧ concat (rsp_body response) = bs "hellohello" ++ [x0a] ++ bs "youyou."
    ∧ ∃ pieces outs, op_inner text_object = inr ∘ SourceData <$> pieces ∧ concat (rsp_body response) = bytes_of outs ∧ ended = Ok tt.
Proof.
  assert (H1 : 0 <= rc_spool_max_object_bytes example_config <= u64_max) by (vm_compute; split; discriminate).
  assert (H2 : 0 <= bl_max_bytes (rc_limits example_config)) by (vm_compute; discriminate).
  assert (H3 : bl_max_bytes (rc_limits example_config) + Z.of_nat (bl_max_frame_bytes (rc_limits example_config)) <= u64_max)
    by (vm_compute; discriminate).
  destruct (example_get text_object false) as [[[served log] w'] og] eqn:E.
  assert (Hs : ∃ response ended grant, served = ServedBody response ended ∧ og = Some grant ∧ is_success response = true
    ∧ concat (rsp_body response) = bs "hellohello" ++ [x0a] ++ bs "youyou.").
  { vm_compute in E. injection E as <- _ _ <-. eexists _, _, _. split; [reflexivity|]. split; [reflexivity|]. split; reflexivity. }
  destruct Hs as (response & ended & grant & -> & -> & Hok & Hb). exists response, ended, log, w', grant. split; [reflexivity|].
  split; [exact Hb|].
  destruct (transformed_read_serves (bs "id") (bs "key") "bucket" example_config no_trouble read_headers None (mkIdentity 1 2)
           (reads_of text_object false) no_files response ended log w' grant H1 H2 H3 eq_refl eq_refl E Hok)
    as (object & snapshot & g & f & media & pieces & outs & fuel & g' & Ho & _ & _ & _ & Hin & _ & _ & _ & Hq & _).
  exists pieces, outs. injection Ho as <-. split; [exact Hin|]. apply Hq; [intros t; reflexivity|intros m; split; reflexivity].
Defined.

(** ** The same object, directly *)

(** The worker is slow once, and the answer of the control plane takes a poll. *)
Definition seven_polls : list Arrivals :=
  [mkArrivals true 0; mkArrivals false 0; mkArrivals true 0; mkArrivals true 0; mkArrivals true 0; mkArrivals true 0;
   mkArrivals true 1].
Definition sent_chunks : list (list byte) := [bs "hellohello"; [x0a]; bs "youyou"; bs "."].

Lemma direct_read_settles_witness :
  ∃ grant response body queue,
    direct_read_response (bs "id") (bs "key") grant text_metadata
      (take 100 ((DirectData <$> sent_chunks) ++ [DirectDone 9 (total_bytes sent_chunks) None])) = ServedDirect response body queue
    ∧ ∃ os log, direct_client grant seven_polls body queue [] = (os, log)
    ∧ given os = concat sent_chunks
    ∧ CallRecord (usage_event grant 9 (total_bytes sent_chunks) None) true ∈ log.
Proof.
  set (grant := mkGrant 1 2 5 1 "bucket" GetObject Read 1000 None None). exists grant.
  destruct (direct_read_response (bs "id") (bs "key") grant text_metadata
    (take 100 ((DirectData <$> sent_chunks) ++ [DirectDone 9 (total_bytes sent_chunks) None]))) as [|response body queue] eqn:E;
    [vm_compute in E; discriminate E|].
  exists response, body, queue. split; [reflexivity|]. destruct (direct_client grant seven_polls body queue []) as [os log] eqn:Ec.
  exists os, log. split; [reflexivity|].
  destruct (direct_read_settles grant sent_chunks (inr (9, None)) text_metadata (bs "id") (bs "key") 100 response body queue seven_polls os log E Ec)
    as (_ & Hend & _).
  destruct Hend as (Hgiven & source & evidence & [= <- <-] & Hlog).
  { vm_compute in E. injection E as _ <- <-. vm_compute in Ec. injection Ec as <- _. set_solver. }
  split; [exact Hgiven|exact Hlog].
Defined.

(** ** Avro *)

Definition avro_metadata : ObjectMetadata := mkMetadata [(bs "content-type", bs "application/avro")] None.
Definition avro_object_example : OpenedObject := mkOpened 200 avro_metadata [] (Some 0).

Lemma avro_refusal_keeps_reservation_witness :
  ∃ response w' grant, example_get avro_object_example false = ((ServedBody response (Ok tt), [], w'), Some grant)
    ∧ is_success response = false ∧ gr_operation_id grant = 1%N.
Proof.
  destruct (example_get avro_object_example false) as [[[served log] w'] og] eqn:E.
  assert (Hs : ∃ response grant, served = ServedBody response (Ok tt) ∧ og = Some grant ∧ gr_operation_id grant = 1%N).
  { vm_compute in E. injection E as <- _ _ <-. eexists _, _. split; [reflexivity|]. split; reflexivity. }
  destruct Hs as (response & grant & -> & -> & Hid). exists response, w', grant.
  destruct (avro_refusal_keeps_reservation (bs "id") (bs "key") "bucket" example_config no_trouble read_headers None (mkIdentity 1 2)
    (reads_of avro_object_example false) no_files response (Ok tt) log w' grant E) as [_ Hr].
  destruct Hr as [-> Hf]; [vm_compute; reflexivity|]. split; [reflexivity|]. split; [exact Hf|exact Hid].
Defined.
