(* ===== verification/PutRequest.v ===== *)
(** * A PUT request from its authorization to its answer: [s3_put] of [server.rs]

    The handler around [StreamingPut.v]: the resolution of the pipeline, the
    authorization, the checks on the backend and on the write mode, the
    streamed PUT, and the settlement with the control plane (whose calls are
    the log of [TransformedRead.v]).  Opening the sink ([begin_streaming_sink])
    is an argument: its sinks are modelled in [DirectSink.v], [ManagedSink.v]
    and [SinkApi.v]. *)

From S2P Require Import Prelude Staging Operation RustStr Integrity Format RecordDecoder RecordProofs SigV4 Managed ServiceStorage SinkApi StreamingPut ObjectBody TransformedRead ReadProofs.

#[local] Open Scope Z_scope.
Set Default Goal Selector "!".

(** ** Errors *)

(** [Display] of [IntegrityError]. *)
Definition integrity_error_string (e : IntegrityError) : string :=
  match e with
  | ConflictingChecksum => "conflicting checksum declarations"
  | DecodedLengthMismatch => "decoded content length mismatch"
  | DuplicateHeader name => "duplicate " +:+ name +:+ " header"
  | DuplicateTrailer name => "duplicate " +:+ String.string_of_list_byte name +:+ " trailer"
  | Framing message => "invalid aws-chunked framing: " +:+ message
  | InvalidChecksum name => "invalid or mismatched " +:+ name +:+ " checksum"
  | InvalidDecodedLength => "invalid decoded content length"
  | InvalidPayloadHash => "invalid x-amz-content-sha256"
  | MissingChecksum => "required payload checksum is missing"
  | MissingDecodedLength => "x-amz-decoded-content-length is required"
  | MissingTrailerDeclaration => "x-amz-trailer is required"
  | OversizedFraming => "aws-chunked framing limit exceeded"
  | PayloadHashMismatch => "payload SHA-256 mismatch"
  | SignatureMismatch => "streaming payload signature mismatch"
  | TrailingData => "data follows the final aws-chunked frame"
  | Truncated => "truncated request payload"
  | UnsupportedContentEncoding => "unsupported content-encoding"
  | UnsupportedPayloadMode => "unsupported SigV4 payload mode"
  end.

Section errors.
  Context (request_id key : list byte).

(** The details of an internal error never reach the client. *)
Fixpoint streaming_put_error_response (error : StreamingPutError) : Response :=
  match error with
  | PreserveReservation error => streaming_put_error_response error
  | PutIntegrity (PayloadHashMismatch | SignatureMismatch) => signature_mismatch request_id key
  | PutIntegrity ((InvalidChecksum _ | MissingChecksum | DecodedLengthMismatch) as e) => bad_digest request_id key (integrity_error_string e)
  | PutIntegrity e => invalid_request request_id key (integrity_error_string e)
  | PutPipeline e => pipeline_error_response request_id key e
  | PutTransaction (TCapacityExceeded | TTooManyParts) => entity_too_large request_id key
  | PutTransaction (TSpool detail) => internal_error request_id key detail
  | PutTransaction (TBackend e) =>
    if bool_decide (be_kind e = Definitive)
    then service_unavailable request_id key "The destination rejected the write request."
    else internal_error request_id key ""
  | PutTransaction _ => internal_error request_id key ""
  | InputTooLarge | SourceFrameTooLarge => entity_too_large request_id key
  | Transport => invalid_request request_id key "request body stream failed"
  | InvalidRequest detail => invalid_request request_id key detail
  | Unsupported detail => not_implemented request_id key
  end.
End errors.

(** ** The backend and the write mode *)

Inductive BackendKind : Type := KindPresignedHttp | KindPerUserS3 | KindManaged | KindGlobalS3 | KindMemory.
#[global] Instance BackendKind_eq_dec : EqDecision BackendKind.
Proof. solve_decision. Defined.

(** [ResolvedBackend], with what the checks ask of it: whether an S3 backend
    of a workspace has a trusted streaming profile; the mode of managed
    storage, whether its authority is durable, and whether its configuration
    may be launched. *)
Inductive ResolvedBackend : Type :=
| BackendPresignedHttp
| BackendS3 (kind : BackendKind) (workspace_streaming : bool)
| BackendManaged (mode : ManagedStreamingMode) (authority_durable launch_valid : bool)
| BackendMemory.

Inductive StreamingWriteMode : Type := WriteOff | WriteSingle | WriteAll.
Definition write_mode_rank (m : StreamingWriteMode) : nat := match m with WriteOff => 0 | WriteSingle => 1 | WriteAll => 2 end.
Definition write_mode_min (a b : StreamingWriteMode) : StreamingWriteMode :=
  if (write_mode_rank b <? write_mode_rank a)%nat then b else a.

Record PutConfig := mkPutConfig {
  (** the operation journal, if there is one: is it durable? *)
  pc_journal : option bool;
  pc_debug_assertions : bool;
  pc_auth_disabled : bool;
  pc_explicit_single_tenant : bool;
  pc_s3_streaming_capabilities : bool;
  pc_managed_streaming_capabilities : bool;
  pc_dev_memory_streaming : bool;
  pc_write_mode : StreamingWriteMode;
  pc_source : SourceBodyLimits;
  pc_max_processed_bytes : Z;
  pc_avro_enabled : bool;
}.

Definition direct_journal_allowed (c : PutConfig) (kind : BackendKind) : bool :=
  match pc_journal c with
  | None => false
  | Some durable =>
    durable || (bool_decide (kind = KindGlobalS3) && pc_debug_assertions c && pc_auth_disabled c && pc_explicit_single_tenant c)
  end.

Definition validate_streaming_backend (c : PutConfig) (backend : ResolvedBackend) : result StreamingPutError unit :=
  match backend with
  | BackendS3 kind workspace_streaming =>
    if bool_decide (kind = KindPerUserS3) && workspace_streaming && direct_journal_allowed c KindPerUserS3 then Ok tt
    else if bool_decide (kind = KindGlobalS3) && pc_s3_streaming_capabilities c && direct_journal_allowed c KindGlobalS3 then Ok tt
    else if bool_decide (kind = KindPerUserS3) then
      Err (Unsupported "workspace S3 streaming needs a trusted provider capability profile, stable routing fence, and durable operation journal")
    else Err (Unsupported "direct global S3 streaming needs configured capabilities and a durable operation journal")
  | BackendMemory =>
    if pc_dev_memory_streaming c then Ok tt else Err (Unsupported "development memory streaming is not enabled")
  | BackendPresignedHttp =>
    Err (Unsupported "presigned streaming cannot durably align authorization and destination commit")
  | BackendManaged mode authority_durable launch_valid =>
    if bool_decide (pc_journal c = Some true) && pc_managed_streaming_capabilities c && bool_decide (mode = ModeEnforce)
       && authority_durable && launch_valid
    then Ok tt
    else Err (Unsupported "managed streaming needs a durable operation journal and authority ledger in enforce mode")
  end.

(** ** The handler *)

Section put.
  Context {W G : Type} `{ObjectSinkTransaction W, GatewayJournal W, Pipeline G, UsageEncoding, Crypto, Parsers, ControlPlane}.
  Context (sha256_hex : list byte → string) (created_at : Z) (request_id key : list byte) (bucket : string).
  Abbreviation Log := (list ControlCall).

Record PutRequest := mkPutRequest {
  pr_headers : Headers;
  pr_verifier : option BodyVerifier;
  pr_frames : list BodyFrame;
}.

Record PutDependencies := mkPutDependencies {
  pd_resolution : result S4Error (string * string);
  (** the snapshot: the session it starts and its evidence *)
  pd_snapshot : result S4Error (result S4Error G * (Z → option PipelineEvidence));
  pd_tenant_write_mode : option StreamingWriteMode;
  pd_backend : option ResolvedBackend;
  (** [begin_streaming_sink] *)
  pd_begin : result StreamingPutError W;
  pd_process_ocf : list byte → result S4Error (list byte);
}.

Definition put_authorization (operation : OperationIdentity) (c : PutConfig) (pipeline : string * string) : UsageAuthorization :=
  mkUsageAuthorization (oi_operation_id operation) (oi_receipt_id operation) bucket PutObject Write
    (pc_max_processed_bytes c) (Some pipeline.1) (Some pipeline.2).

(** [streaming_single_put] with its checks and the opening of the sink: the
    result, and the sink if it was opened. *)
Definition streaming_single_put (c : PutConfig) (r : PutRequest) (d : PutDependencies) (grant : AuthorizationGrant)
    (session : result S4Error G) (evidence : Z → option PipelineEvidence)
    : result StreamingPutError (StoredObjectMeta * Z * Z * option PipelineEvidence) * option W :=
  let content_type := to_str <$> hm_get (pr_headers r) "content-type" in
  if match pr_verifier r with None => true | Some _ => false end && contains_key (pr_headers r) "content-encoding"
  then (Err (InvalidRequest "Content-Encoding is unsupported for transformed streaming"), None)
  else if is_avro_content_type content_type then
    if negb (pc_avro_enabled c)
    then (Err (Unsupported "Avro processing is disabled; set MASKURA_ENABLE_AVRO=true"), None)
    else match pd_begin d with
    | Err e => (Err e, None)
    | Ok w =>
      match avro_put_into sha256_hex created_at (pd_process_ocf d) w (pr_verifier r) (pc_source c) grant (pr_frames r) with
      | (Ok (stored, nin, nout), w) => (Ok (stored, nin, nout, None), Some w)
      | (Err e, w) => (Err e, Some w)
      end
    end
  else match streaming_format content_type with
  | Err e => (Err e, None)
  | Ok (format, _) =>
    match pd_begin d with
    | Err e => (Err e, None)
    | Ok w =>
      let (result, w) := streaming_put_into sha256_hex created_at w session (pr_verifier r) format (pc_source c) grant
                           evidence (pr_frames r) in
      (result, Some w)
    end
  end.

Definition put_ok_response (stored : StoredObjectMeta) : Response :=
  mkResponse 200
    ((match etag stored with Some e => [(bs "etag", bs e)] | None => [] end)
     ++ match version_id stored with Some v => [(bs "x-amz-version-id", bs v)] | None => [] end) [].

Definition put_error_code (e : StreamingPutError) : string :=
  match e with
  | PutPipeline e | PreserveReservation (PutPipeline e) => error_code e
  | _ => "internal"
  end.

Definition streaming_put_failure_response (grant : AuthorizationGrant) (error : StreamingPutError) (log : Log) : Response * Log :=
  let response := streaming_put_error_response request_id key error in
  if put_preserves_reservation error then (response, log) else release_failure request_id key grant response log.

(** From the grant on. *)
Definition put_granted (c : PutConfig) (r : PutRequest) (d : PutDependencies) (grant : AuthorizationGrant) (log : Log)
    : Response * Log * option W :=
  let refuse (response : Response) (log : Log) : Response * Log * option W :=
    let (response, log) := release_failure request_id key grant response log in (response, log, None) in
  match pd_snapshot d with
  | Err e => refuse (pipeline_error_response request_id key e) (record_failed_pipeline_attempt (error_code e) log)
  | Ok (session, evidence) =>
    let mode := write_mode_min (pc_write_mode c) (default (pc_write_mode c) (pd_tenant_write_mode d)) in
    match pd_backend d with
    | None => refuse (service_unavailable request_id key "workspace storage is unavailable") log
    | Some backend =>
      match validate_streaming_backend c backend with
      | Err e => refuse (streaming_put_error_response request_id key e) log
      | Ok _ =>
        if match backend with BackendManaged ModeObserve _ _ => true | _ => false end
        then refuse (service_unavailable request_id key "managed mutations are disabled in observe mode") log
        else if (write_mode_rank mode <? write_mode_rank WriteSingle)%nat
        then refuse (not_implemented request_id key) log
        else match streaming_single_put c r d grant session evidence with
        | (Ok (stored, source_bytes, output_bytes, pipeline_evidence), w) =>
          match control_record (usage_event grant source_bytes output_bytes pipeline_evidence) log with
          | (Some e, log) => (metering_error_response request_id key e, log, w)
          | (None, log) => (put_ok_response stored, log, w)
          end
        | (Err error, w) =>
          let log := record_failed_pipeline_attempt (put_error_code error) log in
          let (response, log) := streaming_put_failure_response grant error log in (response, log, w)
        end
      end
    end
  end.

Definition s3_put (c : PutConfig) (r : PutRequest) (d : PutDependencies) (operation : OperationIdentity)
    : Response * Log * option W * option AuthorizationGrant :=
  match client_metering_id_rejection request_id key (pr_headers r) with
  | Some response => (response, [], None, None)
  | None =>
    match pd_resolution d with
    | Err e => (pipeline_error_response request_id key e, record_failed_pipeline_attempt (error_code e) [], None, None)
    | Ok pipeline =>
      match authorize_request request_id key (put_authorization operation c pipeline) with
      | Err response => (response, [], None, None)
      | Ok grant => (put_granted c r d grant [], Some grant)
      end
    end
  end.
End put.
Arguments PutDependencies W G : clear implicits.

(** ** What a PUT leaves behind *)

Section proofs.
  Context {W G : Type} (sha256_hex : list byte → string) `{SinkLaws W sha256_hex}.
  Context `{Pipeline G, UsageEncoding, Crypto, Parsers, ControlPlane} (created_at : Z) (request_id key : list byte) (bucket : string).

Lemma put_error_fails e : is_success (streaming_put_error_response request_id key e) = false.
Proof.
  induction e as [e|e|e| | | | | |e IH]; cbn [streaming_put_error_response]; try done.
  - by destruct e.
  - apply pipeline_error_fails.
  - destruct e; try done. by case_bool_decide.
Qed.

(** An object of [n] bytes was published. *)
Definition published (n : Z) (w : option W) : Prop :=
  ∃ w' data, w = Some w' ∧ sink_published data w' ∧ n = Z.of_nat (length data).
Definition unpublished (w : option W) : Prop := ∀ w', w = Some w' → sink_unpublished w'.

Lemma single_put_spec c r d grant session evidence result w :
  (∀ w0, pd_begin d = Ok w0 → sink_holds [] w0 ∧ s_commit_state w0 = PreCommit) →
  streaming_single_put sha256_hex created_at c r d grant session evidence = (result, w) →
  match result with
  | Ok (_, _, nout, _) => published nout w
  | Err e => put_preserves_reservation e = false → unpublished w
  end.
Proof.
  intros Hbegin. unfold streaming_single_put, unpublished, published.
  destruct (_ && _); [by intros [= <- <-]|]. destruct (is_avro_content_type _).
  - destruct (pc_avro_enabled c); cbn [negb]; [|by intros [= <- <-]]. destruct (pd_begin d) as [w0|e]; [|by intros [= <- <-]].
    destruct (Hbegin w0 eq_refl) as [Hw Hpre].
    destruct (avro_put_into _ _ _ _ _ _ _ _) as [[[[stored nin] nout]|e] w1] eqn:Ea;
      pose proof (avro_put_outcome _ _ _ _ _ _ _ _ _ _ Hw Hpre Ea) as Ho; intros [= <- <-].
    + destruct Ho as (_ & _ & output & _ & _ & _ & _ & -> & Hp). eauto.
    + intros Hres ? [= <-]. by apply Ho.
  - destruct (streaming_format _) as [[format media]|e]; [|by intros [= <- <-]].
    destruct (pd_begin d) as [w0|e]; [|by intros [= <- <-]]. destruct (Hbegin w0 eq_refl) as [Hw Hpre].
    destruct (streaming_put_into _ _ _ _ _ _ _ _ _ _) as [q w1] eqn:Ep.
    pose proof (streaming_put_spec _ _ _ _ _ _ _ _ _ _ _ _ Hw Ep) as Ho. intros [= <- <-].
    destruct q as [[[[stored nin] nout] ev]|e].
    + destruct Ho as (g & _ & pieces & body & outs & fuel & g' & _ & _ & _ & _ & _ & -> & Hp & _). eauto.
    + intros Hres ? [= <-]. by apply Ho.
Qed.

(** How a PUT that holds a grant may end: accepted, with its usage recorded
    and the object published; refused because the usage could not be recorded
    although the object is published; refused and released, with nothing
    published; or refused with the reservation kept, for the recovery. *)
Inductive put_outcome (grant : AuthorizationGrant) (response : Response) (log : list ControlCall) (w : option W) : Prop :=
| PutAccepted nin nout ev :
    is_success response = true → settling log = [CallRecord (usage_event grant nin nout ev) true] → published nout w →
    put_outcome grant response log w
| PutUnrecorded nin nout ev :
    is_success response = false → settling log = [CallRecord (usage_event grant nin nout ev) false] → published nout w →
    put_outcome grant response log w
| PutReleased ok :
    is_success response = false → settling log = [CallRelease (gr_operation_id grant) ok] → unpublished w →
    put_outcome grant response log w
| PutKept :
    is_success response = false → settling log = [] → put_outcome grant response log w.

Lemma release_outcome grant response log w r log' :
  is_success response = false → settling log = [] → unpublished w →
  release_failure request_id key grant response log = (r, log') → put_outcome grant r log' w.
Proof.
  intros Hf Hl Hu. unfold release_failure, control_release. intros [= <- <-].
  eapply PutReleased; [|by rewrite settling_app, Hl|done]. by destruct (cp_release _).
Qed.

Lemma put_granted_outcome c r d grant response log w :
  (∀ w0, pd_begin d = Ok w0 → sink_holds [] w0 ∧ s_commit_state w0 = PreCommit) →
  put_granted sha256_hex created_at request_id key c r d grant [] = (response, log, w) → put_outcome grant response log w.
Proof.
  intros Hbegin. unfold put_granted.
  assert (Hrel : ∀ rsp l, is_success rsp = false → settling l = [] →
    (let (response, log) := release_failure request_id key grant rsp l in (response, log, None)) = (response, log, w) →
    put_outcome grant response log w).
  { intros rsp l Hf Hl. destruct (release_failure _ _ _ _ _) as [r' l'] eqn:E. intros [= <- <- <-].
    by eapply release_outcome. }
  destruct (pd_snapshot d) as [[session evidence]|e]; [|apply Hrel; [apply pipeline_error_fails|done]].
  destruct (pd_backend d) as [backend|]; [|by apply Hrel].
  destruct (validate_streaming_backend c backend) as [[]|e]; [|apply Hrel; [apply put_error_fails|done]].
  destruct (match backend with BackendManaged ModeObserve _ _ => true | _ => false end); [by apply Hrel|].
  destruct (_ <? _)%nat; [by apply Hrel|].
  destruct (streaming_single_put _ _ _ _ _ _ _ _) as [q w1] eqn:Es. apply single_put_spec in Es; [|done].
  destruct q as [[[[stored nin] nout] ev]|e].
  - unfold control_record. destruct (cp_record _) as [e|]; intros [= <- <- <-].
    + eapply PutUnrecorded; [apply metering_error_fails|done|done].
    + by eapply PutAccepted.
  - unfold streaming_put_failure_response. destruct (put_preserves_reservation e) eqn:Ek.
    + intros [= <- <- <-]. apply PutKept; [apply put_error_fails|done].
    + destruct (release_failure _ _ _ _ _) as [r' l'] eqn:E. intros [= <- <- <-].
      eapply release_outcome; [apply put_error_fails| |by apply Es|exact E]. done.
Qed.

(** C4: A PUT request, from its authorization to its answer, over any sink that
    keeps its promises: without a grant nothing is opened or settled; with a
    grant, which is the one that was asked for, it ends in exactly one of the
    four ways of [put_outcome].  In particular a client that is told of
    success has its object published and its usage recorded with the size of
    the object, and a reservation is released only if nothing was published. *)
Theorem put_settled_once c r d operation response log w grant :
  (∀ w0, pd_begin d = Ok w0 → sink_holds [] w0 ∧ s_commit_state w0 = PreCommit) →
  s3_put sha256_hex created_at request_id key bucket c r d operation = (response, log, w, grant) →
  match grant with
  | None => is_success response = false ∧ settling log = [] ∧ w = None
  | Some grant => gr_operation_id grant = oi_operation_id operation ∧ put_outcome grant response log w
  end.
Proof.
  intros Hbegin. unfold s3_put. destruct (client_metering_id_rejection _ _ _) as [rsp|] eqn:Ec.
  { intros [= <- <- <- <-]. split; [|done]. unfold client_metering_id_rejection in Ec.
    destruct (existsb _ _); [|done]. by injection Ec as <-. }
  destruct (pd_resolution d) as [pipeline|e].
  2: { intros [= <- <- <- <-]. split; [|done]. apply pipeline_error_fails. }
  unfold authorize_request. set (a := put_authorization _ _ _ _).
  destruct (cp_authorize a) as [[g|m]|[]]; [|by intros [= <- <- <- <-]..].
  destruct (grant_matches g a) eqn:Eg; [|by intros [= <- <- <- <-]]. intros [= E <-]. split.
  { unfold grant_matches in Eg. repeat (apply andb_prop in Eg as [Eg _]). by apply bool_decide_eq_true in Eg. }
  by eapply put_granted_outcome.
Qed.
End proofs.
