(* ===== verification/MultipartSettle.v ===== *)
(** * How a failed multipart completion is answered and settled

    [multipart_completion_failure_response] of [server.rs]: the answer to the
    errors of [Completion.v], and the release of the usage reservation unless
    the error is marked to preserve it.  The text path marks every failure
    after which the object may be published; the Avro path marks none. *)

From S2P Require Import Prelude Staging Operation RustStr Integrity Format RecordDecoder RecordProofs SigV4 Managed ServiceStorage SinkApi StreamingPut Completion ObjectBody TransformedRead ReadProofs PutRequest.

#[local] Open Scope Z_scope.
Set Default Goal Selector "!".

Section settle.
  Context `{ControlPlane} (request_id key : list byte).
  Abbreviation Log := (list ControlCall).

(** [None] is the panic of [unreachable!]. *)
Definition multipart_completion_error_response (error : MultipartCompletionError) : option Response :=
  match into_cause error with
  | McStaging Fenced => Some (service_unavailable request_id key "multipart completion lease was lost")
  | McStaging InvalidPart => Some (invalid_part request_id key "staged part validation failed")
  | McStaging _ => Some (internal_error request_id key "")
  | McStreaming error => Some (streaming_put_error_response request_id key error)
  | McInvalid error => Some (invalid_request request_id key error)
  | McPreserveReservation _ => None
  end.

Definition multipart_completion_failure_response (grant : AuthorizationGrant) (error : MultipartCompletionError) (log : Log)
    : option (Response * Log) :=
  response ← multipart_completion_error_response error;
  Some (if mc_preserves_reservation error then (response, log) else release_failure request_id key grant response log).

Lemma completion_error_fails e response :
  multipart_completion_error_response e = Some response → is_success response = false.
Proof.
  unfold multipart_completion_error_response. destruct (into_cause e) as [s|s|m|c]; [|intros [= <-]; apply put_error_fails|by intros [= <-]|done].
  destruct s; by intros [= <-].
Qed.

Lemma staging_failure_released grant s log :
  ∃ response, multipart_completion_failure_response grant (McStaging s) log
      = Some (response, log ++ [CallRelease (gr_operation_id grant) (cp_release (length log))])
    ∧ is_success response = false.
Proof.
  destruct (multipart_completion_error_response (McStaging s)) as [r|] eqn:Er; [|by destruct s].
  pose proof (completion_error_fails _ _ Er) as Hf. unfold multipart_completion_failure_response. rewrite Er. cbn.
  eexists. split; [done|]. by destruct (cp_release _).
Qed.
End settle.

Section avro.
  Context {W T : Type} (sha256_hex md5_etag : list byte → string) `{SinkLaws W sha256_hex}.
  Context `{UsageEncoding, ControlPlane, ArtifactReader T} (created_at : Z) (request_id key : list byte).
  Context (fence : SE T StagingError unit) (accept refuse : MultipartCompletionResult → SE T StagingError unit).
  (** the repository refuses the record of the completion, with any error *)
  Context (Hrefuse : ∀ result t, is_ok (refuse result t).1 = false).

(** The same commit with both repositories: the sink is left the same. *)
Lemma commit_refused grant evidence n size sha data w t x w1 t1 :
  sink_holds data w →
  commit_completion created_at fence accept grant evidence n size sha (w, t) = (Ok x, (w1, t1)) →
  sink_published data w1 ∧ cr_size_bytes x = size
  ∧ ∃ s t2, commit_completion created_at fence refuse grant evidence n size sha (w, t) = (Err (McStaging s), (w1, t2)).
Proof.
  intros Hh E. pose proof (commit_completion_spec sha256_hex created_at fence accept grant evidence n size sha data w t Hh) as Hs.
  unfold wp in Hs. rewrite E in Hs. destruct Hs as [_ Hs]. destruct (Hs x eq_refl) as (Hpub & _ & Hsz & _).
  split; [done|]. split; [done|]. clear Hs. revert E. unfold commit_completion, mbind, SE_bind, on_repo, on_tx.
  destruct (s_verify_output size sha w) as [[[]|e] w']; cbn; [|done]. destruct (fence t) as [[[]|e] t']; cbn; [|done].
  destruct (on_journal created_at _ w') as [[[]|e] w'']; cbn; [|done].
  destruct (s_record_usage_evidence _ w'') as [[[]|e] w3]; cbn; [|done]. destruct (fence t') as [[[]|e] t3]; cbn; [|done].
  destruct (s_complete w3) as [[m|e] w4]; cbn; [|done]. destruct (fence t3) as [[[]|e] t4]; cbn; [|done].
  set (result := mkCompletionResult _ _ _ _ _ _). pose proof (Hrefuse result t4) as Hr.
  destruct (accept result t4) as [[[]|e] t5]; cbn; [|done]. intros [= _ <- _].
  destruct (refuse result t4) as [[[]|e] t6]; [done|]. by exists e, t6.
Qed.

(** C37: The Avro completion releases the reservation of an object that is
    published.  Take any Avro completion that succeeds, so that the sink has
    published an object; let the repository refuse the record of the
    completion instead, after the commit, with whatever error.  Then the
    completion fails with the sink as the commit left it, or aborted after
    the commit, and its error is answered with a failure and exactly one
    request to release the reservation. *)
Theorem avro_completion_releases_published process_ocf sleeps w t max grant parts x w1 log :
  sink_holds [] w →
  avro_complete_into sha256_hex md5_etag created_at fence accept process_ocf sleeps w t max grant parts = (Ok x, w1) →
  ∃ output e w2 response ok,
    sink_published output w1 ∧ cr_size_bytes x = Z.of_nat (length output)
    ∧ avro_complete_into sha256_hex md5_etag created_at fence refuse process_ocf sleeps w t max grant parts = (Err e, w2)
    ∧ (w2 = w1 ∨ w2 = (s_abort w1).2)
    ∧ multipart_completion_failure_response request_id key grant e log
      = Some (response, log ++ [CallRelease (gr_operation_id grant) ok])
    ∧ is_success response = false.
Proof.
  intros Hw. unfold avro_complete_into.
  destruct (avro_output _ _ _ _ _ _ _ _) as [[[input output]|e] t1]; [|done].
  unfold mbind, SE_bind, on_repo. destruct (fence t1) as [[[]|e] t2]; cbn [map_err]; [|done].
  pose proof (write_law [] output w Hw) as Hwr. unfold wp in Hwr. unfold on_tx.
  destruct (s_write output w) as [[[]|e] w']; cbn [map_err]; [|done]. destruct Hwr as [_ Hwr].
  destruct (commit_completion created_at fence accept _ _ _ _ _ (w', t2)) as [[y|e] [w3 t3]] eqn:Ec; [|done].
  intros [= <- <-].
  destruct (commit_refused _ _ _ _ _ output _ _ _ _ _ (Hwr eq_refl) Ec) as (Hpub & Hsz & s & t4 & Er). rewrite Er.
  destruct (staging_failure_released request_id key grant s log) as (response & Hlog & Hf).
  eexists output, (McStaging s), _, response, _. split; [done|]. split; [done|]. split; [done|]. split; [|done].
  destruct (is_ok _); auto.
Qed.
End avro.
