(* ===== verification/PutRequestExamples.v ===== *)
(** * A concrete PUT request

    Two requests of [PutRequest.v] over the development sink: one that is
    accepted, published and metered, and one whose body was tampered with,
    which is refused, released and not published.  And the completion of an
    Avro upload of [MultipartSettle.v] whose record the repository refuses. *)

From S2P Require Import Prelude Staging Operation RustStr Integrity IntegrityProofs Format RecordDecoder RecordProofs SigV4 Managed ServiceStorage SinkApi StreamingPut Completion PutExamples ObjectBody TransformedRead ReadProofs PutRequest MultipartSettle.

#[local] Open Scope Z_scope.
Set Default Goal Selector "!".

#[local] Existing Instance plain_crypto.
#[local] Existing Instance sample_parsers.
#[local] Existing Instance example_sink.
#[local] Existing Instance example_journal.
#[local] Existing Instance example_sink_laws.
#[local] Existing Instance example_encoding.
#[local] Existing Instance doubling_pipeline.

#[local] Instance granting : ControlPlane := {|
  cp_authorize a := Ok (Granted (grant_new a 5 1));
  cp_release _ := true;
  cp_record _ := None;
|}.

Definition example_put_config : PutConfig :=
  mkPutConfig (Some true) false false false true false true WriteAll example_source 1000 false.
Definition example_put_dependencies : PutDependencies MemSinkWorld unit :=
  mkPutDependencies (Ok ("pipeline", "version")) (Ok (Ok tt, λ _, None)) (Some WriteSingle) (Some BackendMemory)
    (Ok example_world) (λ body, Ok body).
Definition example_put_request (frames : list BodyFrame) : PutRequest :=
  mkPutRequest [(bs "content-type", bs "text/plain")] example_verifier frames.
Definition example_operation : OperationIdentity := mkIdentity 1 2.
Abbreviation example_s3_put frames :=
  (s3_put example_sha 0 (bs "request") (bs "key") "bucket" example_put_config (example_put_request frames)
     example_put_dependencies example_operation).

Lemma put_settled_once_witness :
  (∃ g response log w, example_s3_put example_frames = (response, log, Some w, Some g)
    ∧ is_success response = true ∧ put_outcome example_sha g response log (Some w))
  ∧ (∃ g response log w, example_s3_put tampered_frames = (response, log, Some w, Some g)
    ∧ settling log = [CallRelease 1 true] ∧ put_outcome example_sha g response log (Some w)).
Proof.
  split.
  - assert (E : ∃ g response log w, example_s3_put example_frames = (response, log, Some w, Some g)
      ∧ is_success response = true) by (do 4 eexists; split; vm_compute; reflexivity).
    destruct E as (g & response & log & w & E & Hs). exists g, response, log, w. split; [exact E|]. split; [exact Hs|].
    refine (proj2 (put_settled_once example_sha 0 (bs "request") (bs "key") "bucket" _ _ _ _ _ _ _ _ _ E)).
    intros w0 [= <-]. exact (conj example_holds eq_refl).
  - assert (E : ∃ g response log w, example_s3_put tampered_frames = (response, log, Some w, Some g)
      ∧ settling log = [CallRelease 1 true]) by (do 4 eexists; split; vm_compute; reflexivity).
    destruct E as (g & response & log & w & E & Hs). exists g, response, log, w. split; [exact E|]. split; [exact Hs|].
    refine (proj2 (put_settled_once example_sha 0 (bs "request") (bs "key") "bucket" _ _ _ _ _ _ _ _ _ E)).
    intros w0 [= <-]. exact (conj example_holds eq_refl).
Defined.

(** ** An Avro completion that is refused after its commit *)

#[local] Existing Instance example_artifacts.
Abbreviation example_avro_complete finish :=
  (avro_complete_into example_sha example_etag 0 held finish (λ body, Ok (reverse body)) 2 example_world 0%nat 1000
     example_grant example_parts).

Lemma avro_completion_releases_published_witness :
  (∃ e w2 response, example_avro_complete unrecorded = (Err e, w2)
    ∧ multipart_completion_failure_response (bs "request") (bs "key") example_grant e [] = Some (response, [CallRelease 1 true]))
  ∧ so_data <$> store_get "bucket" "key" (mm_store (example_avro_complete unrecorded).2)
    = Some (reverse (example_body 1 ++ example_body 2)).
Proof.
  split; [|vm_compute; reflexivity].
  assert (E : ∃ x, (example_avro_complete recorded).1 = Ok x) by (eexists; vm_compute; reflexivity). destruct E as [x E].
  destruct (avro_completion_releases_published example_sha example_etag 0 (bs "request") (bs "key") held recorded unrecorded
    ltac:(intros; reflexivity) (λ body, Ok (reverse body)) 2 example_world 0%nat 1000 example_grant example_parts x
    (example_avro_complete recorded).2 [] example_holds) as (output & e & w2 & response & ok & _ & _ & Hr & _ & Hlog & _).
  - rewrite <- E. apply surjective_pairing.
  - exists e, w2, response. split; [exact Hr|]. rewrite Hlog.
    assert (Eo : ok = true); [|by rewrite Eo]. revert Hlog. unfold multipart_completion_failure_response, release_failure, control_release.
    destruct (multipart_completion_error_response _ _ e); cbn; [|discriminate]. destruct (mc_preserves_reservation e); [discriminate|].
    cbn. congruence.
Defined.
