(* ===== verification/FilterPipeline.v ===== *)
(** * The filter pipeline of one object: [PipelineSession] of [plugin_registry.rs]

    A session routes every record through the filters of a snapshot, meters
    their fuel, bounds the bytes of every stage and of the whole output, and
    validates the output as one stream.  [StreamingPipelineSession] is the
    asynchronous handle that the requests hold: it is an instance of the class
    [Pipeline] of [StreamingPut.v], so what is proved of a session here holds
    of the requests there.

    The filters run in the sandbox: they are the class [PipelineFilter], and may
    answer anything and report any fuel.  The engine that starts a filter is a
    function of the snapshot. *)

From S2P Require Import Prelude Staging Operation RustStr Integrity IntegrityProofs Format RecordDecoder RecordProofs SinkApi StreamingPut.

#[local] Open Scope Z_scope.
Set Default Goal Selector "!".

(** ** Limits *)

Definition DEFAULT_PIPELINE_FUEL : Z := 1000000000.

(** [max_wall_time] in nanoseconds. *)
Record PipelineLimits := mkPipelineLimits {
  max_intermediate_record_bytes : Z;
  max_plugin_finish_bytes : Z;
  max_input_bytes : Z;
  max_output_bytes : Z;
  max_expansion_factor : Z;
  max_expansion_slack_bytes : Z;
  max_plugins : Z;
  max_cumulative_fuel : Z;
  max_wall_time : Z;
}.

Definition default_pipeline_limits : PipelineLimits :=
  mkPipelineLimits (16 * 1024 * 1024) (8 * 1024 * 1024) (5 * 1024 * 1024 * 1024) (5 * 1024 * 1024 * 1024) 32 (1024 * 1024) 16
    DEFAULT_PIPELINE_FUEL (5 * 60 * 1000000000).

Definition limits_validate (l : PipelineLimits) : result S4Error PipelineLimits :=
  if (max_intermediate_record_bytes l =? 0) || (max_plugin_finish_bytes l =? 0) || (max_input_bytes l =? 0)
     || (max_output_bytes l =? 0) || (max_expansion_factor l =? 0) || (max_plugins l =? 0)
     || (max_cumulative_fuel l =? 0) || (max_wall_time l =? 0)
  then Err (mkS4Error "config.invalid" "pipeline limits except expansion slack must be greater than zero")
  else Ok l.

Definition limits_min (a b : PipelineLimits) : PipelineLimits :=
  mkPipelineLimits
    (Z.min (max_intermediate_record_bytes a) (max_intermediate_record_bytes b))
    (Z.min (max_plugin_finish_bytes a) (max_plugin_finish_bytes b))
    (Z.min (max_input_bytes a) (max_input_bytes b))
    (Z.min (max_output_bytes a) (max_output_bytes b))
    (Z.min (max_expansion_factor a) (max_expansion_factor b))
    (Z.min (max_expansion_slack_bytes a) (max_expansion_slack_bytes b))
    (Z.min (max_plugins a) (max_plugins b))
    (Z.min (max_cumulative_fuel a) (max_cumulative_fuel b))
    (Z.min (max_wall_time a) (max_wall_time b)).

(** ** Errors *)

Definition limit_error (code kind : string) (actual limit : Z) : S4Error :=
  mkS4Error code (kind +:+ " " +:+ pretty actual +:+ " exceeds limit " +:+ pretty limit).
Definition fuel_limit_error : S4Error := mkS4Error "wasm.fuel" "Wasm pipeline cumulative fuel exhausted".
Definition plugin_error (name : string) (error : S4Error) : S4Error :=
  mkS4Error (error_code error) ("plugin " +:+ name +:+ ": " +:+ error_message error).
Definition output_validation_error (error : S4Error) : S4Error :=
  mkS4Error "decode.invalid_output" (error_message error).
Definition pipeline_stopped : S4Error := mkS4Error "wasm.cancelled" "Wasm pipeline session stopped".
Definition deadline_error : S4Error := mkS4Error "wasm.deadline" "Wasm pipeline deadline exceeded".
(** The panics of the session, caught by the executor. *)
Definition pipeline_panic : S4Error := mkS4Error "internal" "".

Definition record_len (record : RecordT) : Z :=
  u64_saturating_add (Z.of_nat (length (payload record))) (Z.of_nat (length (separator record))).

Definition checked_total (code kind : string) (current added limit : Z) : result S4Error Z :=
  total ← ok_or (u64_checked_add current added) (mkS4Error code (kind +:+ " count overflow"));
  if limit <? total then Err (limit_error code kind total limit) else Ok total.

(** ** A session *)

Inductive TransformOutcome : Type :=
| Emit (payload : list byte)
| DropRecord.

(** [trait PipelineFilter]; [finish] consumes the filter. *)
Class PipelineFilter (F : Type) := {
  flt_transform : list byte → Z → SE F S4Error TransformOutcome;
  flt_finish : F → Z → result S4Error (list byte * Z);
  flt_fuel_consumed : F → Z;
}.

Section session.
  Context {F : Type} `{PipelineFilter F, Parsers}.
  (** The clock at its [n]-th reading. *)
  Context (now : nat → Z).

Record PluginSession := mkPluginSession {
  pn_name : string;
  pn_filter : F;
  pn_accounted_fuel : Z;
}.

Record PipelineSession := mkSession {
  ses_plugins : list (option PluginSession);
  ses_limits : PipelineLimits;
  ses_output_validator : OutputValidator;
  ses_input_bytes : Z;
  ses_output_bytes : Z;
  ses_stage_output_bytes : list Z;
  ses_fuel_consumed : Z;
  ses_object_deadline : Z;
  (** readings of the clock so far *)
  ses_readings : nat;
}.
  Abbreviation S A := (SE PipelineSession S4Error A).

Definition set_ses_plugins v (s : PipelineSession) : PipelineSession :=
  mkSession v (ses_limits s) (ses_output_validator s) (ses_input_bytes s) (ses_output_bytes s) (ses_stage_output_bytes s)
    (ses_fuel_consumed s) (ses_object_deadline s) (ses_readings s).
Definition set_ses_validator v (s : PipelineSession) : PipelineSession :=
  mkSession (ses_plugins s) (ses_limits s) v (ses_input_bytes s) (ses_output_bytes s) (ses_stage_output_bytes s)
    (ses_fuel_consumed s) (ses_object_deadline s) (ses_readings s).
Definition set_ses_input v (s : PipelineSession) : PipelineSession :=
  mkSession (ses_plugins s) (ses_limits s) (ses_output_validator s) v (ses_output_bytes s) (ses_stage_output_bytes s)
    (ses_fuel_consumed s) (ses_object_deadline s) (ses_readings s).
Definition set_ses_output v (s : PipelineSession) : PipelineSession :=
  mkSession (ses_plugins s) (ses_limits s) (ses_output_validator s) (ses_input_bytes s) v (ses_stage_output_bytes s)
    (ses_fuel_consumed s) (ses_object_deadline s) (ses_readings s).
Definition set_ses_stages v (s : PipelineSession) : PipelineSession :=
  mkSession (ses_plugins s) (ses_limits s) (ses_output_validator s) (ses_input_bytes s) (ses_output_bytes s) v
    (ses_fuel_consumed s) (ses_object_deadline s) (ses_readings s).
Definition set_ses_fuel v (s : PipelineSession) : PipelineSession :=
  mkSession (ses_plugins s) (ses_limits s) (ses_output_validator s) (ses_input_bytes s) (ses_output_bytes s)
    (ses_stage_output_bytes s) v (ses_object_deadline s) (ses_readings s).
Definition set_ses_readings v (s : PipelineSession) : PipelineSession :=
  mkSession (ses_plugins s) (ses_limits s) (ses_output_validator s) (ses_input_bytes s) (ses_output_bytes s)
    (ses_stage_output_bytes s) (ses_fuel_consumed s) (ses_object_deadline s) v.

Definition check_deadline : S unit := λ s,
  let s' := set_ses_readings (Datatypes.S (ses_readings s)) s in
  if ses_object_deadline s <=? now (ses_readings s)
  then (Err (mkS4Error "wasm.deadline" "Wasm pipeline wall-time deadline exceeded"), s')
  else (Ok tt, s').

Definition remaining_fuel : S Z := λ s,
  match u64_checked_sub (max_cumulative_fuel (ses_limits s)) (ses_fuel_consumed s) with
  | Some remaining => if 0 <? remaining then (Ok remaining, s) else (Err fuel_limit_error, s)
  | None => (Err fuel_limit_error, s)
  end.

Definition account_fuel (consumed : Z) : S unit := λ s,
  match u64_checked_add (ses_fuel_consumed s) consumed with
  | None => (Err fuel_limit_error, s)
  | Some total =>
    let s := set_ses_fuel total s in
    if max_cumulative_fuel (ses_limits s) <? total then (Err fuel_limit_error, s) else (Ok tt, s)
  end.

Definition check_intermediate (bytes : nat) : S unit := λ s,
  let limit := max_intermediate_record_bytes (ses_limits s) in
  if limit <? Z.of_nat bytes
  then (Err (limit_error "limit.intermediate_bytes" "intermediate record" (Z.of_nat bytes) limit), s)
  else (Ok tt, s).

Definition expansion_limit (s : PipelineSession) : Z :=
  Z.min (u64_saturating_add (u64_saturating_mul (ses_input_bytes s) (max_expansion_factor (ses_limits s)))
           (max_expansion_slack_bytes (ses_limits s)))
    (max_output_bytes (ses_limits s)).

Definition check_cumulative_output (total : Z) : S unit := λ s,
  let limit := max_output_bytes (ses_limits s) in
  if limit <? total then (Err (limit_error "limit.output_bytes" "output bytes" total limit), s)
  else if expansion_limit s <? total
  then (Err (limit_error "limit.expansion" "cumulative expansion" total (expansion_limit s)), s)
  else (Ok tt, s).

Definition account_stage (index : nat) (bytes : Z) : S unit :=
  s ← se_get;
  stage ← se_lift (ok_or (ses_stage_output_bytes s !! index) pipeline_panic);
  total ← se_lift (ok_or (u64_checked_add stage bytes) (mkS4Error "limit.output_bytes" "stage byte count overflow"));
  _ ← check_cumulative_output total;
  se_modify (λ s, set_ses_stages (<[index := total]> (ses_stage_output_bytes s)) s).

Definition account_output (bytes : Z) : S unit :=
  s ← se_get;
  total ← se_lift (ok_or (u64_checked_add (ses_output_bytes s) bytes) (mkS4Error "limit.output_bytes" "output byte count overflow"));
  _ ← check_cumulative_output total;
  se_modify (set_ses_output total).

Definition on_validator {A} (m : SE OutputValidator S4Error A) : S A := λ s,
  let (r, v) := m (ses_output_validator s) in (map_err output_validation_error r, set_ses_validator v s).

(** One filter on one payload; its fuel is accounted whatever it answers. *)
Definition run_filter (index : nat) (bytes : list byte) : S TransformOutcome :=
  fuel ← remaining_fuel;
  s ← se_get;
  match ses_plugins s !! index with
  | Some (Some plugin) =>
    let (outcome, filter) := flt_transform bytes fuel (pn_filter plugin) in
    let current := flt_fuel_consumed filter in
    let delta := u64_saturating_sub current (pn_accounted_fuel plugin) in
    _ ← se_modify (set_ses_plugins (<[index := Some (mkPluginSession (pn_name plugin) filter current)]> (ses_plugins s)));
    _ ← account_fuel delta;
    se_lift (map_err (plugin_error (pn_name plugin)) outcome)
  | _ => se_throw pipeline_panic
  end.

(** [route_from]; [n] filters are left, from [index] on. *)
Fixpoint route (n index : nat) (record : RecordT) : S (option RecordT) :=
  match n with
  | O =>
    _ ← on_validator (push_record record);
    _ ← account_output (record_len record);
    mret (Some record)
  | Datatypes.S n =>
    outcome ← run_filter index (payload record);
    match outcome with
    | DropRecord => mret None
    | Emit bytes =>
      _ ← check_intermediate (length bytes);
      let record := mkRecord bytes (separator record) in
      _ ← account_stage index (record_len record);
      route n (Datatypes.S index) record
    end
  end.
Definition route_from (start : nat) (record : RecordT) : S (option RecordT) :=
  s ← se_get; route (length (ses_plugins s) - start) start record.

Definition process (record : RecordT) : S (option RecordT) :=
  _ ← check_deadline;
  s ← se_get;
  total ← se_lift (checked_total "limit.input_bytes" "input bytes" (ses_input_bytes s) (record_len record)
                     (max_input_bytes (ses_limits s)));
  _ ← se_modify (set_ses_input total);
  route_from 0 record.

(** The end of the filter at [index]: what it had left, through the rest. *)
Definition finish_plugin (index : nat) : S (option RecordT) :=
  _ ← check_deadline;
  s ← se_get;
  match ses_plugins s !! index with
  | Some (Some plugin) =>
    _ ← se_modify (set_ses_plugins (<[index := None]> (ses_plugins s)));
    fuel ← remaining_fuel;
    finished ← se_lift (map_err (plugin_error (pn_name plugin)) (flt_finish (pn_filter plugin) fuel));
    let (trailing, plugin_fuel) := finished : list byte * Z in
    _ ← account_fuel (u64_saturating_sub plugin_fuel (pn_accounted_fuel plugin));
    s ← se_get;
    let limit := max_plugin_finish_bytes (ses_limits s) in
    if limit <? Z.of_nat (length trailing)
    then se_throw (limit_error "limit.finish_bytes" "plugin finish output" (Z.of_nat (length trailing)) limit)
    else if bool_decide (trailing = []) then mret None
    else
      _ ← check_intermediate (length trailing);
      let record := mkRecord trailing [] in
      _ ← account_stage index (record_len record);
      route_from (Datatypes.S index) record
  | _ => se_throw pipeline_panic
  end.
Fixpoint finish_plugins (n index : nat) : S (list RecordT) :=
  match n with
  | O => mret []
  | Datatypes.S n =>
    record ← finish_plugin index;
    output ← finish_plugins n (Datatypes.S index);
    mret (opt_list record ++ output)
  end.
Definition finish_with_fuel : S (list RecordT * Z) :=
  s ← se_get;
  output ← finish_plugins (length (ses_plugins s)) 0;
  _ ← on_validator validator_finish;
  s ← se_get;
  mret (output, ses_fuel_consumed s).

(** ** The snapshot, and how a session starts *)

(** [snp_start] is the engine: it gets the fuel that is left and the deadline. *)
Record SnapshotPlugin := mkSnapshotPlugin {
  snp_name : string;
  snp_enabled : bool;
  snp_guest_memory_limit : Z;
  snp_start : Z → Z → result S4Error F;
}.
Record PipelineSnapshot := mkPipelineSnapshot {
  psn_plugins : list SnapshotPlugin;
  psn_limits : PipelineLimits;
}.
Definition enabled_plugins (p : PipelineSnapshot) : list SnapshotPlugin := filter (λ x, snp_enabled x = true) (psn_plugins p).

Definition constrained (p : PipelineSnapshot) (constraints : PipelineLimits) : result S4Error PipelineSnapshot :=
  constraints ← limits_validate constraints;
  Ok (mkPipelineSnapshot (psn_plugins p) (limits_min (psn_limits p) constraints)).

Fixpoint guest_memory (plugins : list SnapshotPlugin) (total : Z) : result S4Error Z :=
  match plugins with
  | [] => Ok total
  | plugin :: plugins =>
    total ← ok_or (u64_checked_add total (snp_guest_memory_limit plugin))
              (mkS4Error "wasm.admission" "Wasm guest-memory reservation overflow");
    guest_memory plugins total
  end.
Definition guest_memory_reservation (p : PipelineSnapshot) : result S4Error Z := guest_memory (enabled_plugins p) 0.

Fixpoint start_plugins (limits : PipelineLimits) (deadline : Z) (plugins : list SnapshotPlugin) (fuel_consumed : Z)
    : result S4Error (list (option PluginSession) * Z) :=
  match plugins with
  | [] => Ok ([], fuel_consumed)
  | plugin :: plugins =>
    let remaining := max_cumulative_fuel limits - fuel_consumed in
    filter ← map_err (plugin_error (snp_name plugin)) (snp_start plugin remaining deadline);
    fuel_consumed ← ok_or (u64_checked_add fuel_consumed (flt_fuel_consumed filter)) fuel_limit_error;
    if max_cumulative_fuel limits <? fuel_consumed then Err fuel_limit_error
    else
      rest ← start_plugins limits deadline plugins fuel_consumed;
      let (sessions, fuel_consumed) := rest : list (option PluginSession) * Z in
      Ok (Some (mkPluginSession (snp_name plugin) filter (flt_fuel_consumed filter)) :: sessions, fuel_consumed)
  end.

Definition default_decoder_limits : DecoderLimits :=
  mkLimits (N.to_nat DEFAULT_MAX_SOURCE_FRAME_BYTES) (N.to_nat DEFAULT_MAX_RECORD_BYTES)
    (N.to_nat DEFAULT_MAX_JSON_DOCUMENT_BYTES) (N.to_nat DEFAULT_MAX_CSV_FIELDS).

(** [format] is what [Format::parse] made of the session's format; the clock
    was read [readings] times before. *)
Definition start_session_with_deadline (readings : nat) (p : PipelineSnapshot) (format : option Format) (requested_deadline : Z)
    : result S4Error PipelineSession :=
  let limits := psn_limits p in
  let count := Z.of_nat (length (enabled_plugins p)) in
  if max_plugins limits <? count then Err (limit_error "limit.plugin_count" "plugin count" count (max_plugins limits))
  else
    let deadline := Z.min requested_deadline (now readings + max_wall_time limits) in
    started ← start_plugins limits deadline (enabled_plugins p) 0;
    let (plugins, fuel_consumed) := started : list (option PluginSession) * Z in
    validator ← validator_new (default Text format) default_decoder_limits;
    Ok (mkSession plugins limits validator 0 0 (replicate (length plugins) 0) fuel_consumed deadline (Datatypes.S readings)).

(** ** The asynchronous handle *)

(** What may come between a command and its answer. *)
Inductive Interruption : Type := WorkerStopped | DeadlinePassed.
Definition interruption_error (i : Interruption) : S4Error :=
  match i with WorkerStopped => pipeline_stopped | DeadlinePassed => deadline_error end.

(** [sps_session] is [None] once the sender is gone. *)
Record StreamingPipelineSession := mkStreaming {
  sps_session : option PipelineSession;
  sps_commands : nat;
}.

(** [admission]: what the executor and its memory admission answer. *)
Definition start_streaming_session (admission : result S4Error unit) (p : PipelineSnapshot) (format : option Format)
    : result S4Error StreamingPipelineSession :=
  let requested := now 0 + max_wall_time (psn_limits p) in
  let deadline := Z.min requested (now 1 + max_wall_time (psn_limits p)) in
  _ ← guest_memory_reservation p;
  _ ← admission;
  session ← start_session_with_deadline 2 p format deadline;
  Ok (mkStreaming (Some session) 0).

  (** What interrupts the [n]-th command; how the worker's task ends. *)
  Context (interrupt : nat → option Interruption) (task_end : result S4Error unit).

Definition streaming_process (record : RecordT) : SE StreamingPipelineSession S4Error (option RecordT) := λ g,
  match sps_session g with
  | None => (Err pipeline_stopped, g)
  | Some session =>
    let n := sps_commands g in
    match interrupt n with
    | Some i => (Err (interruption_error i), mkStreaming None (Datatypes.S n))
    | None =>
      match process record session with
      | (Ok record, session) => (Ok record, mkStreaming (Some session) (Datatypes.S n))
      | (Err e, _) => (Err e, mkStreaming None (Datatypes.S n))
      end
    end
  end.

Definition streaming_finish : SE StreamingPipelineSession S4Error (list RecordT * Z) := λ g,
  let stopped := mkStreaming None (Datatypes.S (sps_commands g)) in
  match sps_session g with
  | None => (Err pipeline_stopped, stopped)
  | Some session =>
    match interrupt (sps_commands g) with
    | Some i => (Err (interruption_error i), stopped)
    | None =>
      match finish_with_fuel session with
      | (Err e, _) => (Err e, stopped)
      | (Ok result, _) => match task_end with Ok _ => (Ok result, stopped) | Err e => (Err e, stopped) end
      end
    end
  end.

#[global] Instance streaming_pipeline : Pipeline StreamingPipelineSession := {|
  pl_process := streaming_process;
  pl_finish := streaming_finish;
  pl_cancel_and_wait g := mkStreaming None (sps_commands g);
|}.
End session.
Arguments PipelineSession F : clear implicits.
Arguments PluginSession F : clear implicits.
Arguments StreamingPipelineSession F : clear implicits.
Arguments SnapshotPlugin F : clear implicits.
Arguments PipelineSnapshot F : clear implicits.

(** ** What a session promises *)

(** [m], when it succeeds, ends in [Q]. *)
Definition succeeds {S E A} (m : SE S E A) (Q : A → S → Prop) (s : S) : Prop := ∀ x s', m s = (Ok x, s') → Q x s'.

Lemma succeeds_bind {S E A B} (m : SE S E A) (k : A → SE S E B) Q s :
  succeeds m (λ x s', succeeds (k x) Q s') s → succeeds (x ← m; k x) Q s.
Proof.
  intros H y s'. unfold mbind, SE_bind. destruct (m s) as [[x|e] s1] eqn:Em; [|done]. intros Hk. exact (H x s1 Em y s' Hk).
Qed.
Lemma succeeds_ret {S E A} (x : A) (Q : A → S → Prop) s : Q x s → succeeds (E:=E) (mret x) Q s.
Proof. by intros ? ? ? [= <- <-]. Qed.
Lemma succeeds_get {S E} (Q : S → S → Prop) s : Q s s → succeeds (E:=E) se_get Q s.
Proof. by intros ? ? ? [= <- <-]. Qed.
Lemma succeeds_modify {S E} (f : S → S) (Q : unit → S → Prop) s : Q tt (f s) → succeeds (E:=E) (se_modify f) Q s.
Proof. by intros ? ? ? [= <- <-]. Qed.
Lemma succeeds_lift {S E A} (r : result E A) (Q : A → S → Prop) s : (∀ x, r = Ok x → Q x s) → succeeds (se_lift r) Q s.
Proof. intros H ? ? [= -> <-]. by apply H. Qed.
Lemma succeeds_throw {S E A} (e : E) (Q : A → S → Prop) s : succeeds (se_throw e) Q s.
Proof. by intros ? ?. Qed.
Lemma succeeds_mono {S E A} (m : SE S E A) (P Q : A → S → Prop) s :
  succeeds m P s → (∀ x s', P x s' → Q x s') → succeeds m Q s.
Proof. intros H Himp x s' Em. apply Himp. by apply H. Qed.

Create HintDb succeeds.
#[export] Hint Resolve succeeds_ret succeeds_get succeeds_modify succeeds_lift succeeds_throw : succeeds.

Record sound_limits (l : PipelineLimits) : Prop := {
  sound_input : 0 <= max_input_bytes l < u64_max;
  sound_output : 0 <= max_output_bytes l < u64_max;
  sound_factor : 0 <= max_expansion_factor l;
  sound_slack : 0 <= max_expansion_slack_bytes l;
  sound_fuel : 0 <= max_cumulative_fuel l;
}.

Section bounds.
  Context {F : Type} `{PipelineFilter F, Parsers} (now : nat → Z) (f : Format).
  Implicit Types (s : PipelineSession F) (r : RecordT).

(** What no filter can change. *)
Definition same_account s s' : Prop := ses_limits s' = ses_limits s ∧ ses_input_bytes s' = ses_input_bytes s.

(** The session has given out the bytes [out]. *)
Record gave (out : list byte) s : Prop := {
  gave_limits : sound_limits (ses_limits s);
  gave_input : 0 <= ses_input_bytes s <= max_input_bytes (ses_limits s);
  gave_output : ses_output_bytes s = Z.of_nat (length out);
  gave_bounded : ses_output_bytes s <= expansion_limit s;
  gave_fuel : ses_fuel_consumed s <= max_cumulative_fuel (ses_limits s);
  gave_valid : validating f default_decoder_limits out (ses_output_validator s);
}.

Definition steps (s : PipelineSession F) (out : list byte) s' : Prop := same_account s s' ∧ gave out s'.

Lemma record_len_exact r n : 0 <= n → n + record_len r < u64_max → record_len r = Z.of_nat (length (record_bytes r)).
Proof. unfold record_len, u64_saturating_add, record_bytes. rewrite length_app. lia. Qed.
Lemma record_len_nonneg r : 0 <= record_len r.
Proof. unfold record_len, u64_saturating_add, u64_max. lia. Qed.

Lemma check_deadline_steps s out : gave out s → succeeds (check_deadline now) (λ _, steps s out) s.
Proof. intros [] ? ?. unfold check_deadline. destruct (_ <=? _); [done|]. intros [= <- <-]. split; [done|by constructor]. Qed.

Lemma remaining_fuel_same s : succeeds remaining_fuel (λ _ s', s' = s) s.
Proof. intros ? ?. unfold remaining_fuel. destruct (u64_checked_sub _ _); [|done]. by destruct (_ <? _); intros [= <- <-]. Qed.

Lemma account_fuel_steps s out n : gave out s → succeeds (account_fuel n) (λ _, steps s out) s.
Proof.
  intros [] ? ?. unfold account_fuel. destruct (u64_checked_add _ _) as [total|]; [|done].
  destruct (Z.ltb_spec (max_cumulative_fuel (ses_limits (set_ses_fuel total s))) total); intros [= <- <-].
  split; [done|by constructor].
Qed.

Lemma check_intermediate_same s n :
  succeeds (check_intermediate n) (λ _ s', s' = s ∧ Z.of_nat n <= max_intermediate_record_bytes (ses_limits s)) s.
Proof. intros ? ?. unfold check_intermediate. destruct (Z.ltb_spec (max_intermediate_record_bytes (ses_limits s)) (Z.of_nat n)); by intros [= <- <-]. Qed.

Lemma check_cumulative_output_same s n : succeeds (check_cumulative_output n) (λ _ s', s' = s ∧ n <= expansion_limit s) s.
Proof.
  intros ? ?. unfold check_cumulative_output. destruct (_ <? n); [done|].
  destruct (Z.ltb_spec (expansion_limit s) n); by intros [= <- <-].
Qed.

Lemma account_stage_steps s out index n : gave out s → succeeds (account_stage index n) (λ _, steps s out) s.
Proof.
  intros []. unfold account_stage. apply succeeds_bind, succeeds_get, succeeds_bind, succeeds_lift. intros stage _.
  apply succeeds_bind, succeeds_lift. intros total _. apply succeeds_bind.
  eapply succeeds_mono; [apply check_cumulative_output_same|]. intros _ s' [-> _]. apply succeeds_modify. split; [done|by constructor].
Qed.

Lemma same_account_trans s s1 s2 : same_account s s1 → same_account s1 s2 → same_account s s2.
Proof. intros [] []. split; congruence. Qed.

(** The end of the chain: the record is validated, counted and given out. *)
Lemma emit_steps s out index r :
  gave out s → succeeds (route 0 index r) (λ o, steps s (out ++ bytes_of (opt_list o))) s.
Proof.
  intros [Hl Hin Ho Hb Hf Hv]. cbn [route]. apply succeeds_bind. intros u1 s1 Hpush. unfold on_validator in Hpush.
  destruct (push_record r _) as [[[]|e] v] eqn:Er; cbn in Hpush; [|done]. injection Hpush as <- <-.
  assert (Hv' : validating f default_decoder_limits (out ++ bytes_of [r]) v).
  { eapply (push_records_spec f _ [r] out (ses_output_validator s) v tt); [done|]. cbn. unfold mbind, SE_bind. by rewrite Er. }
  apply succeeds_bind. unfold account_output. apply succeeds_bind, succeeds_get, succeeds_bind, succeeds_lift. intros total Ht.
  cbn in Ht. unfold u64_checked_add in Ht. destruct (_ <=? u64_max); cbn in Ht; [|done]. injection Ht as <-.
  apply succeeds_bind. eapply succeeds_mono; [apply check_cumulative_output_same|]. intros _ s2 [-> Hle].
  apply succeeds_modify, succeeds_ret. change (expansion_limit (set_ses_validator v s)) with (expansion_limit s) in Hle.
  assert (Hmax : expansion_limit s <= max_output_bytes (ses_limits s)) by (unfold expansion_limit; lia).
  pose proof (sound_output _ Hl). pose proof (record_len_exact r (ses_output_bytes s) ltac:(lia) ltac:(lia)) as Hlen.
  split; [done|]. split; cbn; [done|done| |exact Hle|done|exact Hv'].
  rewrite Hlen, length_app. unfold bytes_of. cbn. rewrite app_nil_r. lia.
Qed.

Lemma run_filter_steps s out index bytes : gave out s → succeeds (run_filter index bytes) (λ _, steps s out) s.
Proof.
  intros Hg. unfold run_filter. apply succeeds_bind. eapply succeeds_mono; [apply remaining_fuel_same|]. intros fuel s1 ->.
  apply succeeds_bind, succeeds_get. destruct (ses_plugins s !! index) as [[plugin|]|]; [|apply succeeds_throw..].
  destruct (flt_transform _ _ _) as [outcome filter]. apply succeeds_bind, succeeds_modify, succeeds_bind.
  eapply succeeds_mono; [apply (account_fuel_steps _ out); by destruct Hg|]. intros [] s2 Hs2. by apply succeeds_lift.
Qed.

Lemma route_steps n index r s out :
  gave out s → succeeds (route n index r) (λ o, steps s (out ++ bytes_of (opt_list o))) s.
Proof.
  revert index r s. induction n as [|n IH]; intros index r s Hg; [by apply emit_steps|]. cbn [route].
  apply succeeds_bind. eapply succeeds_mono; [by apply run_filter_steps|]. intros outcome s1 [Hk1 Hg1].
  destruct outcome as [bytes|].
  2: { apply succeeds_ret. cbn. by rewrite app_nil_r. }
  apply succeeds_bind. eapply succeeds_mono; [apply check_intermediate_same|]. intros _ s2 [-> _].
  apply succeeds_bind. eapply succeeds_mono; [by apply account_stage_steps|]. intros _ s3 [Hk3 Hg3].
  eapply succeeds_mono; [by apply IH|]. intros o s4 [Hk4 Hg4]. split; [|done].
  by eapply same_account_trans, same_account_trans.
Qed.

Lemma process_steps r s out :
  gave out s → succeeds (process now r) (λ o s', gave (out ++ bytes_of (opt_list o)) s' ∧ ses_limits s' = ses_limits s
    ∧ ses_input_bytes s' = ses_input_bytes s + Z.of_nat (length (record_bytes r))) s.
Proof.
  intros Hg. unfold process. apply succeeds_bind. eapply succeeds_mono; [by apply check_deadline_steps|].
  intros _ s1 [[Hl1 Hi1] Hg1]. apply succeeds_bind, succeeds_get, succeeds_bind, succeeds_lift. intros total Ht.
  unfold checked_total, mbind, result_bind, u64_checked_add in Ht. destruct (_ <=? u64_max); cbn in Ht; [|done].
  destruct (Z.ltb_spec (max_input_bytes (ses_limits s1)) (ses_input_bytes s1 + record_len r)); [done|]. injection Ht as <-.
  destruct Hg1 as [Hl Hin Ho Hb Hf Hv]. pose proof (sound_input _ Hl). pose proof (record_len_nonneg r).
  pose proof (record_len_exact r (ses_input_bytes s1) ltac:(lia) ltac:(lia)) as Hlen.
  apply succeeds_bind, succeeds_modify. unfold route_from. apply succeeds_bind, succeeds_get.
  eapply succeeds_mono; [apply (route_steps _ _ _ _ out)|].
  - split; cbn; [done|lia|done| |done|done]. etrans; [exact Hb|]. unfold expansion_limit, u64_saturating_add, u64_saturating_mul. cbn.
    pose proof (sound_factor _ Hl). assert (ses_input_bytes s1 * max_expansion_factor (ses_limits s1)
      <= (ses_input_bytes s1 + record_len r) * max_expansion_factor (ses_limits s1)) by (apply Z.mul_le_mono_nonneg_r; lia). lia.
  - intros o s2 [[Hk1 Hk2] Hg2]. split; [done|]. cbn in Hk1, Hk2. split; [congruence|]. rewrite Hk2, Hlen. congruence.
Qed.

Lemma finish_plugin_steps index s out :
  gave out s → succeeds (finish_plugin now index) (λ o, steps s (out ++ bytes_of (opt_list o))) s.
Proof.
  intros Hg. unfold finish_plugin. apply succeeds_bind. eapply succeeds_mono; [by apply check_deadline_steps|].
  intros _ s1 [Hk1 Hg1]. apply succeeds_bind, succeeds_get.
  destruct (ses_plugins s1 !! index) as [[plugin|]|]; [|apply succeeds_throw..].
  apply succeeds_bind, succeeds_modify, succeeds_bind. set (s2 := set_ses_plugins _ s1).
  assert (Hs2 : same_account s1 s2 ∧ gave out s2) by (split; [done|by destruct Hg1]). destruct Hs2 as [Hk2 Hg2].
  eapply succeeds_mono; [apply remaining_fuel_same|]. intros fuel s3 ->.
  apply succeeds_bind, succeeds_lift. intros [trailing plugin_fuel] _. apply succeeds_bind.
  eapply succeeds_mono; [by apply account_fuel_steps|]. intros _ s4 [Hk4 Hg4]. apply succeeds_bind, succeeds_get.
  destruct (_ <? _); [apply succeeds_throw|]. pose proof (same_account_trans _ _ _ Hk1 (same_account_trans _ _ _ Hk2 Hk4)) as Hk.
  case_bool_decide. { apply succeeds_ret. cbn. by rewrite app_nil_r. }
  apply succeeds_bind. eapply succeeds_mono; [apply check_intermediate_same|]. intros _ s5 [-> _].
  apply succeeds_bind. eapply succeeds_mono; [by apply account_stage_steps|]. intros _ s6 [Hk6 Hg6].
  unfold route_from. apply succeeds_bind, succeeds_get. eapply succeeds_mono; [by apply route_steps|].
  intros o s7 [Hk7 Hg7]. split; [|done]. by eapply same_account_trans, same_account_trans.
Qed.

Lemma finish_plugins_steps n index s out :
  gave out s → succeeds (finish_plugins now n index) (λ rs, steps s (out ++ bytes_of rs)) s.
Proof.
  revert index s out. induction n as [|n IH]; intros index s out Hg; cbn [finish_plugins].
  { apply succeeds_ret. cbn. by rewrite app_nil_r. }
  apply succeeds_bind. eapply succeeds_mono; [by apply finish_plugin_steps|]. intros o s1 [Hk1 Hg1].
  apply succeeds_bind. eapply succeeds_mono; [by apply IH|]. intros rs s2 [Hk2 Hg2]. apply succeeds_ret.
  rewrite bytes_of_app, app_assoc. split; [by eapply same_account_trans|done].
Qed.

Lemma finish_with_fuel_spec s out rs fuel s' :
  gave out s → finish_with_fuel now s = (Ok (rs, fuel), s') →
  let all := out ++ bytes_of rs in
  Z.of_nat (length all) <= expansion_limit s ∧ fuel <= max_cumulative_fuel (ses_limits s)
  ∧ Forall (good f default_decoder_limits) (records f all).
Proof.
  intros Hg E. revert E. enough (Hs : succeeds (finish_with_fuel now) (λ '(rs, fuel) _, let all := out ++ bytes_of rs in
    Z.of_nat (length all) <= expansion_limit s ∧ fuel <= max_cumulative_fuel (ses_limits s)
    ∧ Forall (good f default_decoder_limits) (records f all)) s) by (intros E; exact (Hs _ _ E)).
  unfold finish_with_fuel. apply succeeds_bind, succeeds_get, succeeds_bind.
  eapply succeeds_mono; [by apply finish_plugins_steps|]. intros output s1 [[Hl Hi] [Hl1 _ Ho Hb Hf Hv]].
  apply succeeds_bind. intros [] s2. unfold on_validator.
  destruct (validator_finish _) as [[[]|e] v] eqn:Ev; cbn; [|done]. intros [= <-].
  apply succeeds_bind, succeeds_get, succeeds_ret. rewrite <- Ho. cbn. split; [|split].
  - unfold expansion_limit in *. by rewrite <- Hl, <- Hi.
  - by rewrite <- Hl.
  - by eapply validator_finish_spec.
Qed.
End bounds.

Section streaming.
  Context {F : Type} `{PipelineFilter F, Parsers} (now : nat → Z).
  Context (interrupt : nat → option Interruption) (task_end : result S4Error unit).
  Implicit Types (p : PipelineSnapshot F) (g : StreamingPipelineSession F).
#[local] Instance here_pipeline : Pipeline (StreamingPipelineSession F) := streaming_pipeline now interrupt task_end.

(** Both ends of a session's life. *)
Lemma start_plugins_fuel l deadline plugins fuel sessions fuel' :
  fuel <= max_cumulative_fuel l → start_plugins l deadline plugins fuel = Ok (sessions, fuel') →
  fuel' <= max_cumulative_fuel l ∧ length sessions = length plugins.
Proof.
  revert fuel sessions. induction plugins as [|x plugins IH]; intros fuel sessions Hf; cbn [start_plugins].
  { by intros [= <- <-]. }
  unfold mbind, result_bind. destruct (map_err _ _) as [filter|]; [|done]. destruct (ok_or _ _) as [total|]; [|done].
  destruct (Z.ltb_spec (max_cumulative_fuel l) total); [done|]. destruct (start_plugins _ _ _ _) as [[rest fl]|] eqn:E; [|done].
  intros [= <- <-]. apply IH in E as [? Hlen]; [|done]. split; [done|]. cbn. by rewrite Hlen.
Qed.

Lemma start_gave admission p format g :
  sound_limits (psn_limits p) → start_streaming_session now admission p format = Ok g →
  ∃ s, sps_session g = Some s ∧ gave (default Text format) [] s ∧ ses_limits s = psn_limits p ∧ ses_input_bytes s = 0.
Proof.
  intros Hl. unfold start_streaming_session, mbind, result_bind. destruct (guest_memory_reservation p); [|done].
  destruct admission; [|done]. unfold start_session_with_deadline, mbind, result_bind.
  destruct (_ <? _); [done|]. destruct (start_plugins _ _ _ _) as [[plugins fuel]|] eqn:Es; [|done].
  destruct (validator_new _ _) as [v|] eqn:Ev; [|done]. intros [= <-]. eexists. split; [done|]. split; [|done].
  apply start_plugins_fuel in Es as [Hf _]; [|apply Hl]. destruct Hl as [Hi Ho Hx Hs Hc]. split; cbn; [done|lia|done| |done|].
  - unfold expansion_limit, u64_saturating_add, u64_saturating_mul, u64_max. cbn. lia.
  - by apply fresh_validating.
Qed.

Lemma process_all_gave f rs g s out outs g' :
  sps_session g = Some s → gave f out s → process_all rs g = (Ok outs, g') →
  ∃ s', sps_session g' = Some s' ∧ gave f (out ++ bytes_of outs) s' ∧ ses_limits s' = ses_limits s
    ∧ ses_input_bytes s' = ses_input_bytes s + Z.of_nat (length (bytes_of rs)).
Proof.
  revert g s out outs. induction rs as [|r rs IH]; intros g s out outs Es Hg; cbn [process_all].
  { intros [= <- <-]. exists s. rewrite app_nil_r. split_and!; [done..|cbn; lia]. }
  unfold mbind at 1, SE_bind at 1. cbn [pl_process here_pipeline streaming_pipeline]. unfold streaming_process. rewrite Es.
  destruct (interrupt _); [done|]. destruct (process now r s) as [[o|e] s1] eqn:Ep; [|done].
  apply (process_steps now f r s out Hg) in Ep as (Hg1 & Hl1 & Hi1). unfold mbind, SE_bind.
  destruct (process_all rs _) as [[outs1|] g1] eqn:Er; [|done]. intros [= <- <-].
  apply (IH _ s1 (out ++ bytes_of (opt_list o))) in Er as (s2 & Es2 & Hg2 & Hl2 & Hi2); [|done|done].
  exists s2. rewrite bytes_of_app, app_assoc. split_and!; [done|done|congruence|].
  rewrite Hi2, Hi1. change (bytes_of (r :: rs)) with (record_bytes r ++ bytes_of rs). rewrite length_app. lia.
Qed.

(** What a pipeline gives out for the records of an object. *)
Definition within_limits (l : PipelineLimits) (f : Format) (input output : list byte) (fuel : Z) : Prop :=
  Z.of_nat (length input) <= max_input_bytes l
  ∧ Z.of_nat (length output) <= max_output_bytes l
  ∧ Z.of_nat (length output) <= Z.of_nat (length input) * max_expansion_factor l + max_expansion_slack_bytes l
  ∧ fuel <= max_cumulative_fuel l
  ∧ Forall (λ r, record_ok f default_decoder_limits r ∧ check_output f r = Ok tt) (records f output).

(** A pipeline keeps its limits against every filter: if the records of an
    object go through, the bytes taken in are within the input limit; the bytes
    given out, the trailing output of every filter included, are within the
    output limit and the expansion limit; the fuel of all filters together is
    within the budget; and the output, read as one stream, is valid in the
    format of the object, within the limits of its records. *)
Theorem pipeline_output_bounded admission p format g rs outs fuel g' :
  sound_limits (psn_limits p) → start_streaming_session now admission p format = Ok g →
  transform rs g = (Ok (outs, fuel), g') →
  within_limits (psn_limits p) (default Text format) (bytes_of rs) (bytes_of outs) fuel.
Proof.
  intros Hl Hs. destruct (start_gave _ _ _ _ Hl Hs) as (s & Es & Hg & Els & Ei).
  unfold transform, mbind at 1, SE_bind at 1. destruct (process_all rs g) as [[outs1|] g1] eqn:Ep; [|done].
  destruct (process_all_gave _ _ _ _ _ _ _ Es Hg Ep) as (s1 & Es1 & Hg1 & El1 & Ei1). clear Ep Hs.
  unfold mbind, SE_bind. cbn [pl_finish here_pipeline streaming_pipeline]. unfold streaming_finish. rewrite Es1.
  destruct (interrupt _); [done|]. destruct (finish_with_fuel now s1) as [[[outs2 n]|] s2] eqn:Ef; [|done].
  destruct task_end; [|done]. intros [= <- <- <-]. apply (finish_with_fuel_spec now _ _ _ _ _ _ Hg1) in Ef as (Hb & Hf & Hv).
  cbn [app] in Hb, Hv. rewrite <- bytes_of_app in Hb, Hv. pose proof (gave_input _ _ _ Hg1) as Hin.
  rewrite Ei1, Ei, El1, Els in Hin. unfold within_limits. rewrite El1, Els in Hf. split_and!; [lia| | |done|exact Hv].
  all: revert Hb; unfold expansion_limit, u64_saturating_add, u64_saturating_mul; rewrite El1, Els, Ei1, Ei; cbn; lia.
Qed.

End streaming.

(** ** A PUT through a pipeline *)

Section put.
  Context {W F : Type} (sha256_hex : list byte → string) `{SinkLaws W sha256_hex}.
  Context `{PipelineFilter F, UsageEncoding, Crypto, Parsers} (created_at : Z) (now : nat → Z).
  Context (interrupt : nat → option Interruption) (task_end : result S4Error unit).
#[local] Instance put_pipeline : Pipeline (StreamingPipelineSession F) := streaming_pipeline now interrupt task_end.

(** C10: A streamed PUT through a session of this pipeline publishes, whatever its
    filters do, an object within the output limit and within the expansion of
    what the client sent, every record of which is valid in the format of the
    request. *)
Theorem put_within_pipeline_limits admission p w v f limits grant evidence frames m nin nout ev w' :
  sound_limits (psn_limits p) → sink_holds [] w →
  streaming_put_into sha256_hex created_at w (start_streaming_session now admission p (Some f)) v f limits grant evidence
    frames = (Ok (m, nin, nout, ev), w') →
  ∃ output, sink_published output w' ∧ nout = Z.of_nat (length output)
    ∧ nout <= max_output_bytes (psn_limits p)
    ∧ nout <= nin * max_expansion_factor (psn_limits p) + max_expansion_slack_bytes (psn_limits p)
    ∧ Forall (λ r, record_ok f default_decoder_limits r ∧ check_output f r = Ok tt) (records f output).
Proof.
  intros Hl Hw E. pose proof (streaming_put_spec _ _ _ _ _ _ _ _ _ _ _ _ Hw E) as Hput. clear E.
  destruct Hput as (g & Hg & pieces & body & outs & fuel & g' & _ & _ & -> & _ & Ht & -> & Hp & _).
  destruct (pipeline_output_bounded now interrupt task_end admission p (Some f) g _ outs fuel g' Hl Hg Ht)
    as (_ & Ho & Hx & _ & Hv).
  exists (bytes_of outs). split_and!; [done|done|done| |done]. etrans; [exact Hx|].
  pose proof (woven_length _ _ (all_records_woven f body)) as Hlen. fold (bytes_of (all_records f body)) in Hlen.
  pose proof (sound_factor _ Hl). nia.
Qed.
End put.

(** ** Filters without memory *)

Fixpoint chain (filters : list (list byte → TransformOutcome)) (bytes : list byte) : option (list byte) :=
  match filters with
  | [] => Some bytes
  | filter :: filters => match filter bytes with Emit bytes => chain filters bytes | DropRecord => None end
  end.
Definition through (filters : list (list byte → TransformOutcome)) (r : RecordT) : option RecordT :=
  (λ bytes, mkRecord bytes (separator r)) <$> chain filters (payload r).

Section stateless.
  Context {F : Type} `{PipelineFilter F, Parsers} (now : nat → Z).
  Context (interrupt : nat → option Interruption) (task_end : result S4Error unit).
#[local] Instance stateless_pipeline : Pipeline (StreamingPipelineSession F) := streaming_pipeline now interrupt task_end.
  (** What a filter answers, when it does, is a function of the payload; it
      holds nothing back to its end. *)
  Context (meaning : F → list byte → TransformOutcome).
  Hypothesis transform_meaning : ∀ bytes fuel x o x',
    flt_transform bytes fuel x = (Ok o, x') → o = meaning x bytes ∧ meaning x' = meaning x.
  Hypothesis finish_empty : ∀ x fuel trailing n, flt_finish x fuel = Ok (trailing, n) → trailing = [].

Definition runs (filters : list (list byte → TransformOutcome)) (s : PipelineSession F) : Prop :=
  Forall2 (λ o g, ∃ x, o = Some x ∧ meaning (pn_filter x) = g) (ses_plugins s) filters.

Lemma keep_plugins_account n s : succeeds (account_fuel (F:=F) n) (λ _ s', ses_plugins s' = ses_plugins s) s.
Proof.
  intros ? ?. unfold account_fuel. destruct (u64_checked_add _ _); [|done]. by destruct (_ <? _); intros [= <- <-].
Qed.
Lemma keep_plugins_stage index n s : succeeds (account_stage (F:=F) index n) (λ _ s', ses_plugins s' = ses_plugins s) s.
Proof.
  unfold account_stage. apply succeeds_bind, succeeds_get, succeeds_bind, succeeds_lift. intros stage _.
  apply succeeds_bind, succeeds_lift. intros total _. apply succeeds_bind.
  eapply succeeds_mono; [apply check_cumulative_output_same|]. intros _ s' [-> _]. by apply succeeds_modify.
Qed.

Lemma run_filter_meaning filters index bytes s :
  runs filters s → succeeds (run_filter index bytes) (λ o s', runs filters s'
    ∧ ∃ g, filters !! index = Some g ∧ o = g bytes) s.
Proof.
  intros Hr. unfold run_filter. apply succeeds_bind. eapply succeeds_mono; [apply remaining_fuel_same|]. intros fuel s1 ->.
  apply succeeds_bind, succeeds_get. destruct (ses_plugins s !! index) as [[plugin|]|] eqn:El; [|apply succeeds_throw..].
  destruct (flt_transform bytes fuel (pn_filter plugin)) as [outcome filter] eqn:Et.
  apply succeeds_bind, succeeds_modify, succeeds_bind.
  eapply succeeds_mono; [apply keep_plugins_account|]. intros [] s2 Hp2. apply succeeds_lift. intros o Ho.
  destruct outcome as [o'|]; [|done]. injection Ho as ->. apply transform_meaning in Et as [-> Hm].
  destruct (Forall2_lookup_l _ _ _ _ _ Hr El) as (g & Hg & x & [= <-] & Hx). split.
  - unfold runs. rewrite Hp2. cbn. rewrite <- (list_insert_id filters index g) by done.
    apply Forall2_insert; [done|]. eexists. split; [done|]. cbn. congruence.
  - exists g. split; [done|]. by rewrite Hx.
Qed.

Lemma route_meaning filters n index r s :
  runs filters s → (n + index = length filters)%nat →
  succeeds (route n index r) (λ o s', runs filters s' ∧ o = through (drop index filters) r) s.
Proof.
  revert index r s. induction n as [|n IH]; intros index r s Hr Hn; cbn [route].
  { rewrite drop_ge by lia. apply succeeds_bind. intros u s1. unfold on_validator.
    destruct (push_record _ _) as [[[]|] v]; cbn; [|done]. intros [= <- <-]. apply succeeds_bind. unfold account_output.
    apply succeeds_bind, succeeds_get, succeeds_bind, succeeds_lift. intros total _. apply succeeds_bind.
    eapply succeeds_mono; [apply check_cumulative_output_same|]. intros _ s2 [-> _]. apply succeeds_modify, succeeds_ret.
    split; [exact Hr|]. by destruct r. }
  apply succeeds_bind. eapply succeeds_mono; [by apply (run_filter_meaning filters)|].
  intros o s1 (Hr1 & g & Hg & ->). rewrite (drop_S _ g) by done. unfold through. cbn [chain].
  destruct (g (payload r)) as [bytes|]; [|by apply succeeds_ret].
  apply succeeds_bind. eapply succeeds_mono; [apply check_intermediate_same|]. intros _ s2 [-> _].
  apply succeeds_bind. eapply succeeds_mono; [apply keep_plugins_stage|]. intros [] s3 Hp3.
  eapply succeeds_mono; [apply (IH (S index))|]; [unfold runs; by rewrite Hp3|lia|]. done.
Qed.

Lemma process_meaning filters r s :
  runs filters s → succeeds (process now r) (λ o s', runs filters s' ∧ o = through filters r) s.
Proof.
  intros Hr. unfold process. apply succeeds_bind. intros [] s1. unfold check_deadline. destruct (_ <=? _); [done|].
  intros [= <-]. apply succeeds_bind, succeeds_get, succeeds_bind, succeeds_lift. intros total _.
  apply succeeds_bind, succeeds_modify. unfold route_from. apply succeeds_bind, succeeds_get. cbn [ses_plugins set_ses_input set_ses_readings].
  pose proof (Forall2_length _ _ _ Hr) as Hlen. apply (route_meaning filters _ 0); [exact Hr|lia].
Qed.

Lemma finish_plugin_nothing index s : succeeds (finish_plugin now index) (λ o _, o = None) s.
Proof.
  unfold finish_plugin. apply succeeds_bind. intros [] s1 _. apply succeeds_bind, succeeds_get.
  destruct (ses_plugins s1 !! index) as [[plugin|]|]; [|apply succeeds_throw..].
  apply succeeds_bind, succeeds_modify, succeeds_bind. intros fuel s2 _. apply succeeds_bind, succeeds_lift.
  intros [trailing n] Hf. destruct (flt_finish _ _) as [[t k]|] eqn:E; [|done]. injection Hf as -> ->.
  apply finish_empty in E as ->. apply succeeds_bind. intros [] s3 _. apply succeeds_bind, succeeds_get.
  destruct (_ <? _); [apply succeeds_throw|]. by apply succeeds_ret.
Qed.
Lemma finish_plugins_nothing n index s : succeeds (finish_plugins now n index) (λ rs _, rs = []) s.
Proof.
  revert index s. induction n as [|n IH]; intros index s; cbn [finish_plugins]; [by apply succeeds_ret|].
  apply succeeds_bind. eapply succeeds_mono; [apply finish_plugin_nothing|]. intros o s1 ->.
  apply succeeds_bind. eapply succeeds_mono; [apply IH|]. intros rs s2 ->. by apply succeeds_ret.
Qed.

Lemma process_all_meaning filters rs g s outs g' :
  sps_session g = Some s → runs filters s → process_all rs g = (Ok outs, g') → outs = omap (through filters) rs.
Proof.
  revert g s outs. induction rs as [|r rs IH]; intros g s outs Es Hr; cbn [process_all]; [by intros [= <- <-]|].
  unfold mbind at 1, SE_bind at 1. cbn [pl_process stateless_pipeline streaming_pipeline]. unfold streaming_process. rewrite Es.
  destruct (interrupt _); [done|]. destruct (process now r s) as [[o|e] s1] eqn:Ep; [|done].
  apply (process_meaning filters r s Hr) in Ep as [Hr1 ->]. unfold mbind, SE_bind.
  destruct (process_all rs _) as [[outs1|] g1] eqn:Er; [|done]. intros [= <- <-].
  apply (IH _ s1) in Er as ->; [|done|done]. cbn. by destruct (through filters r).
Qed.

  (** What the filter of a snapshot means. *)
  Context (means : SnapshotPlugin F → list byte → TransformOutcome).
Definition start_means (plugin : SnapshotPlugin F) : Prop :=
  ∀ fuel deadline x, snp_start plugin fuel deadline = Ok x → meaning x = means plugin.

Lemma start_plugins_runs l deadline plugins fuel sessions fuel' :
  Forall start_means plugins → start_plugins l deadline plugins fuel = Ok (sessions, fuel') →
  Forall2 (λ o g, ∃ x, o = Some x ∧ meaning (pn_filter x) = g) sessions (means <$> plugins).
Proof.
  intros Hm. revert fuel sessions. induction Hm as [|x plugins Hx _ IH]; intros fuel sessions; cbn [start_plugins].
  { intros [= <- <-]. constructor. }
  unfold mbind, result_bind. destruct (snp_start x _ _) as [filter|] eqn:Ef; cbn [map_err]; [|done].
  destruct (ok_or _ _) as [total|]; [|done]. destruct (_ <? _); [done|].
  destruct (start_plugins _ _ _ _) as [[rest fl]|] eqn:E; [|done]. intros [= <- <-]. cbn. constructor; [|by eapply IH].
  eexists. split; [done|]. cbn. by eapply Hx.
Qed.

(** C11: A pipeline of filters without memory is their composition: every record
    whose chain does not drop it comes out once, in order, with its payload
    transformed by the enabled filters of the snapshot in their order and its
    separator untouched; nothing else comes out. *)
Theorem stateless_pipeline_reference admission p format g rs outs fuel g' :
  Forall start_means (enabled_plugins p) →
  start_streaming_session now admission p format = Ok g → transform rs g = (Ok (outs, fuel), g') →
  outs = omap (through (means <$> enabled_plugins p)) rs.
Proof.
  intros Hm. unfold start_streaming_session, mbind, result_bind. destruct (guest_memory_reservation p); [|done].
  destruct admission; [|done]. unfold start_session_with_deadline, mbind, result_bind.
  destruct (_ <? _); [done|]. destruct (start_plugins _ _ _ _) as [[plugins fuel0]|] eqn:Es; [|done].
  apply start_plugins_runs in Es; [|done]. destruct (validator_new _ _) as [v|]; [|done]. intros [= <-]. set (s0 := mkSession _ _ _ _ _ _ _ _ _).
  unfold transform, mbind at 1, SE_bind at 1. destruct (process_all rs _) as [[outs1|] g1] eqn:Ep; [|done].
  apply (process_all_meaning (means <$> enabled_plugins p) _ _ s0) in Ep as ->; [|done|done].
  unfold mbind, SE_bind. cbn [pl_finish stateless_pipeline streaming_pipeline]. unfold streaming_finish.
  destruct (sps_session g1) as [s1|]; [|done]. destruct (interrupt _); [done|].
  destruct (finish_with_fuel now s1) as [[[outs2 n]|] s2] eqn:Ef; [|done]. destruct task_end; [|done]. intros [= <- <- <-].
  enough (outs2 = []) as -> by by rewrite app_nil_r.
  enough (Hs : succeeds (finish_with_fuel now) (λ x _, x.1 = []) s1) by exact (Hs _ _ Ef).
  unfold finish_with_fuel. apply succeeds_bind, succeeds_get, succeeds_bind.
  eapply succeeds_mono; [apply finish_plugins_nothing|]. intros rs' s3 ->. apply succeeds_bind. intros [] s4 _.
  by apply succeeds_bind, succeeds_get, succeeds_ret.
Qed.
End stateless.
