(* ===== verification/FilterExamples.v ===== *)
(** * Concrete pipelines

    Two filters over the development sink: one that doubles a payload, one
    that drops the records starting with [#] and appends a trailer at its end. *)

From S2P Require Import Prelude Staging Operation RustStr Integrity IntegrityProofs Format RecordDecoder RecordProofs Managed SinkApi StreamingPut Completion PutExamples FilterPipeline.

#[local] Open Scope Z_scope.
Set Default Goal Selector "!".

#[local] Existing Instance plain_crypto.
#[local] Existing Instance sample_parsers.
#[local] Existing Instance example_sink.
#[local] Existing Instance example_journal.
#[local] Existing Instance example_sink_laws.
#[local] Existing Instance example_encoding.

Inductive ToyKind : Type := Doubling | Uncomment.
Record ToyFilter := mkToy { toy_kind : ToyKind; toy_trailer : list byte; toy_fuel : Z }.
Definition toy_meaning (x : ToyFilter) (bytes : list byte) : TransformOutcome :=
  match toy_kind x with
  | Doubling => Emit (bytes ++ bytes)
  | Uncomment => if bool_decide (head bytes = Some x23) then DropRecord else Emit bytes
  end.
#[local] Instance toy_filter : PipelineFilter ToyFilter := {|
  flt_transform bytes fuel x := (Ok (toy_meaning x bytes), mkToy (toy_kind x) (toy_trailer x) (toy_fuel x + 1));
  flt_finish x fuel := Ok (toy_trailer x, toy_fuel x + 1);
  flt_fuel_consumed := toy_fuel;
|}.
Definition toy_clock (n : nat) : Z := Z.of_nat n.
Definition toy_plugin (kind : ToyKind) (trailer : list byte) : SnapshotPlugin ToyFilter :=
  mkSnapshotPlugin "toy" true 1024 (λ _ _, Ok (mkToy kind trailer 2)).
Definition off_plugin : SnapshotPlugin ToyFilter := mkSnapshotPlugin "off" false 1024 (λ _ _, Err (mkS4Error "wasm.init" "")).
Definition toy_snapshot (trailer : list byte) : PipelineSnapshot ToyFilter :=
  mkPipelineSnapshot [toy_plugin Uncomment trailer; off_plugin; toy_plugin Doubling []] default_pipeline_limits.
Abbreviation toy_pipeline := (streaming_pipeline toy_clock (λ _, None) (Ok tt)).

Lemma default_limits_sound : sound_limits default_pipeline_limits.
Proof. by split; vm_compute. Qed.

Definition toy_means (plugin : SnapshotPlugin ToyFilter) : list byte → TransformOutcome :=
  match snp_start plugin 0 0 with Ok x => toy_meaning x | Err _ => λ _, DropRecord end.
Definition line (l : list byte) : RecordT := mkRecord l [x0a].
Definition toy_records : list RecordT := [line (bs "a"); line (bs "#b"); line (bs "c")].

Abbreviation toy_put trailer :=
  (streaming_put_into (H1 := put_pipeline toy_clock (λ _, None) (Ok tt)) example_sha 0 example_world
    (start_streaming_session toy_clock (Ok tt) (toy_snapshot trailer) (Some Text)) example_verifier Text example_source
    example_grant (λ _, None) example_frames).

Lemma put_within_pipeline_limits_witness :
  ∃ m ev w output, toy_put (bs "!") = (Ok (m, 5, 12, ev), w) ∧ sink_published output w ∧ 12 = Z.of_nat (length output)
    ∧ 12 <= 5 * 32 + 1024 * 1024.
Proof.
  assert (E : ∃ m ev w, toy_put (bs "!") = (Ok (m, 5, 12, ev), w)) by (do 3 eexists; vm_compute; reflexivity).
  destruct E as (m & ev & w & E).
  destruct (put_within_pipeline_limits example_sha 0 toy_clock (λ _, None) (Ok tt) (Ok tt) (toy_snapshot (bs "!")) example_world
    example_verifier Text example_source example_grant (λ _, None) example_frames m 5 12 ev w default_limits_sound
    example_holds E) as (output & Hp & Hn & _ & Hx & _).
  exists m, ev, w, output. exact (conj E (conj Hp (conj Hn Hx))).
Defined.

(** The same filters with nothing left at their end. *)
#[local] Instance plain_filter : PipelineFilter ToyFilter := {|
  flt_transform bytes fuel x := (Ok (toy_meaning x bytes), mkToy (toy_kind x) [] (toy_fuel x + 1));
  flt_finish x fuel := Ok ([], toy_fuel x + 1);
  flt_fuel_consumed := toy_fuel;
|}.
Abbreviation toy_start := (start_streaming_session toy_clock (Ok tt) (toy_snapshot []) (Some Text)).
Abbreviation toy_transform :=
  (transform (H := stateless_pipeline toy_clock (λ _, None) (Ok tt)) toy_records).

Lemma toy_plugins_mean : Forall (start_means toy_meaning toy_means) (enabled_plugins (toy_snapshot [])).
Proof. repeat constructor; by intros ? ? ? [= <-]. Qed.

Lemma stateless_pipeline_reference_witness :
  [line (bs "aa"); line (bs "cc")] = omap (through (toy_means <$> enabled_plugins (toy_snapshot []))) toy_records.
Proof.
  assert (Hok : is_ok toy_start = true) by (vm_compute; reflexivity).
  assert (Ht : match toy_start with Ok g => (toy_transform g).1 | Err e => Err e end
    = Ok ([line (bs "aa"); line (bs "cc")], 11)) by (vm_compute; reflexivity).
  destruct toy_start as [g|e] eqn:Es; [|discriminate Hok]. destruct (toy_transform g) as [r g'] eqn:Eg.
  cbn [fst] in Ht. rewrite Ht in Eg.
  refine (stateless_pipeline_reference toy_clock (λ _, None) (Ok tt) toy_meaning _ _ toy_means (Ok tt) (toy_snapshot [])
    (Some Text) g toy_records _ 11 g' toy_plugins_mean Es Eg).
  - intros bytes fuel x o x' [= <- <-]. split; [reflexivity|]. by destruct x.
  - by intros x fuel trailing n [= <- <-].
Defined.
