(* ===== verification/PluginRegistry.v ===== *)
(** * The catalog of filters and its compile cache: [plugin_registry.rs]

    The registry keeps the catalog of plugins, and a cache of compiled
    components keyed by their digest, weighted by the memory a guest may use
    and evicted in least-recently-used order; the components of the catalog are
    pinned.  A request resolves its pipeline ([pipeline.rs]) and takes a
    snapshot, for which components that are missing are loaded by digest,
    verified, compiled and cached.

    Every access to the state is under its lock and atomic; compiling and
    loading happen in between, so an operation that does both is two steps, and
    other requests may come in between ([interfere]).  Compiling and running are
    the class [FilterEngine]; [sha256_hex] is the digest as text. *)

From S2P Require Import Prelude Staging Operation RustStr Integrity IntegrityProofs Format RecordDecoder RecordProofs SinkApi StreamingPut FilterPipeline.

#[local] Open Scope Z_scope.
Set Default Goal Selector "!".

(** ** Data *)

Record PluginInfo := mkPluginInfo {
  pi_id : string;
  pi_name : string;
  pi_version : string;
  pi_enabled : bool;
  pi_description : string;
}.

Record PluginCapabilities := mkCapabilities { prefix_safe_for_read : bool }.
#[global] Instance PluginCapabilities_eq_dec : EqDecision PluginCapabilities.
Proof. solve_decision. Defined.
Definition default_capabilities : PluginCapabilities := mkCapabilities false.

(** [SensitiveGrant]: the fields of a request a filter may see. *)
Record SensitiveGrant := mkSensitiveGrant {
  sg_public_key_pem : bool;
  sg_entropy_seed : bool;
  sg_stable_key : bool;
  sg_stable_fields : bool;
}.
Definition SENSITIVE_NONE : SensitiveGrant := mkSensitiveGrant false false false false.
Definition SENSITIVE_ALL : SensitiveGrant := mkSensitiveGrant true true true true.

(** [pipeline.rs] *)
Record PipelineLocator := mkLocator { pl_revision : string; pl_fingerprint : string }.
Record PipelineStep := mkStep {
  st_component_hash : string;
  st_plugin_version_id : option string;
  st_enabled : bool;
  st_version : option string;
  st_config_json : option string;
  st_capabilities : PluginCapabilities;
  st_sensitive_grant : SensitiveGrant;
}.
Record PipelineResolution := mkResolution {
  rv_locator : PipelineLocator;
  rv_steps : list PipelineStep;
  rv_policy_generation : option Z;
  rv_explicit_passthrough : bool;
  rv_limits : PipelineLimits;
}.

Definition pipeline_requires_passthrough (r : PipelineResolution) : bool :=
  negb (existsb st_enabled (rv_steps r)) && negb (rv_explicit_passthrough r).
(** The first eight characters of a digest are its first eight bytes. *)
Definition plugin_step_info (step : PipelineStep) : PluginInfo :=
  mkPluginInfo (st_component_hash step)
    (default (String.substring 0 8 (st_component_hash step)) (st_version step)) (default "0.1.0" (st_version step)) (st_enabled step) "".
Definition missing_component_error (component_hash : string) : S4Error :=
  mkS4Error "wasm.init" ("component " +:+ component_hash +:+ " is not available from its component source").

Class FilterEngine (E F : Type) := {
  eng_with_fuel : list byte → Z → result string E;
  eng_guest_memory_limit : E → Z;
  eng_world_v01 : E → bool;
  eng_start : E → option string → SensitiveGrant → Z → Z → result S4Error F;
}.

Section registry.
  Context {E F : Type} `{FilterEngine E F} (sha256_hex : list byte → string) (fuel : Z) (pipeline_limits : PipelineLimits).

Record Plugin := mkPlugin {
  pg_info : PluginInfo;
  pg_component_hash : string;
  pg_capabilities : PluginCapabilities;
  pg_engine : E;
}.
Record CacheEntry := mkCacheEntry {
  ce_engine : E;
  ce_capabilities : PluginCapabilities;
  ce_bytes : list byte;
  ce_weight : Z;
}.
Record RegistryState := mkRegistry {
  rg_plugins : gmap string Plugin;
  rg_order : list string;
  rg_engines : gmap string CacheEntry;
  rg_cache_order : list string;
  rg_cache_weight : Z;
  rg_cache_max_weight : Z;
}.

Definition set_rg_plugins v (s : RegistryState) : RegistryState :=
  mkRegistry v (rg_order s) (rg_engines s) (rg_cache_order s) (rg_cache_weight s) (rg_cache_max_weight s).
Definition set_rg_order v (s : RegistryState) : RegistryState :=
  mkRegistry (rg_plugins s) v (rg_engines s) (rg_cache_order s) (rg_cache_weight s) (rg_cache_max_weight s).
Definition set_rg_cache_order v (s : RegistryState) : RegistryState :=
  mkRegistry (rg_plugins s) (rg_order s) (rg_engines s) v (rg_cache_weight s) (rg_cache_max_weight s).
Definition set_rg_cache engines weight (s : RegistryState) : RegistryState :=
  mkRegistry (rg_plugins s) (rg_order s) engines (rg_cache_order s) weight (rg_cache_max_weight s).

Definition DEFAULT_COMPILE_CACHE_MAX_WEIGHT : Z := 1024 * 1024 * 1024.
Definition with_options_and_cache (cache_max_weight : option Z) : result S4Error RegistryState :=
  if fuel =? 0 then Err (mkS4Error "config.invalid" "pipeline fuel must be greater than zero")
  else
    let cache_max_weight := default DEFAULT_COMPILE_CACHE_MAX_WEIGHT cache_max_weight in
    if cache_max_weight =? 0 then Err (mkS4Error "config.invalid" "component compile cache weight must be greater than zero")
    else
      _ ← limits_validate pipeline_limits;
      Ok (mkRegistry ∅ [] ∅ [] 0 cache_max_weight).

(** ** The cache *)

(** [position] and [remove] of the first occurrence. *)
Fixpoint remove_first (h : string) (l : list string) : list string :=
  match l with [] => [] | x :: l => if bool_decide (x = h) then l else x :: remove_first h l end.

Definition touch_cache_entry (h : string) (s : RegistryState) : RegistryState :=
  set_rg_cache_order (remove_first h (rg_cache_order s) ++ [h]) s.

Definition referenced (s : RegistryState) (h : string) : bool :=
  existsb (λ '(_, p), bool_decide (pg_component_hash p = h)) (map_to_list (rg_plugins s)).

Definition victim (s : RegistryState) : option string :=
  List.find (λ h, negb (referenced s h) && bool_decide (is_Some (rg_engines s !! h))) (rg_cache_order s).

Definition evict_one (h : string) (s : RegistryState) : RegistryState :=
  let s := set_rg_cache_order (remove_first h (rg_cache_order s)) s in
  match rg_engines s !! h with
  | Some entry => set_rg_cache (delete h (rg_engines s)) (u64_saturating_sub (rg_cache_weight s) (ce_weight entry)) s
  | None => s
  end.

(** [while state.cache_weight > state.cache_max_weight]; every turn takes a
    digest off the order. *)
Fixpoint evict (n : nat) (s : RegistryState) : RegistryState :=
  match n with
  | O => s
  | S n =>
    if rg_cache_max_weight s <? rg_cache_weight s
    then match victim s with None => s | Some h => evict n (evict_one h s) end
    else s
  end.
Definition evict_unreferenced_engines (s : RegistryState) : RegistryState := evict (S (length (rg_cache_order s))) s.

Definition cached_engine (h : string) (s : RegistryState) : option (E * PluginCapabilities) * RegistryState :=
  match rg_engines s !! h with
  | None => (None, s)
  | Some entry =>
    (Some (ce_engine entry, ce_capabilities entry),
     if bool_decide (h ∈ rg_cache_order s) then touch_cache_entry h s else s)
  end.

Definition component_bytes (h : string) (s : RegistryState) : option (list byte) := ce_bytes <$> rg_engines s !! h.

Definition capabilities_error (h : string) : S4Error :=
  mkS4Error "config.invalid" ("component " +:+ h +:+ " is already registered with different capabilities").

Definition add_entry (h : string) (engine : E) (capabilities : PluginCapabilities) (bytes : list byte) (weight : Z)
    (s : RegistryState) : RegistryState :=
  set_rg_cache (<[h := mkCacheEntry engine capabilities bytes weight]> (rg_engines s))
    (u64_saturating_add (rg_cache_weight s) weight) s.

Definition insert_engine (h : string) (engine : E) (capabilities : PluginCapabilities) (bytes : list byte) (weight : Z)
    (s : RegistryState) : result S4Error E * RegistryState :=
  match rg_engines s !! h with
  | Some existing =>
    if negb (bool_decide (ce_capabilities existing = capabilities)) then (Err (capabilities_error h), s)
    else (Ok (ce_engine existing), touch_cache_entry h s)
  | None =>
    (Ok engine, evict_unreferenced_engines (touch_cache_entry h (add_entry h engine capabilities bytes weight s)))
  end.

(** ** The catalog *)

(** The locked part of [import_with_capabilities]; [id] is the fresh UUID. *)
Definition import_commit (id name : string) (bytes : list byte) (capabilities : PluginCapabilities) (candidate : E)
    (s : RegistryState) : result S4Error PluginInfo * RegistryState :=
  let h := sha256_hex bytes in
  let info := mkPluginInfo id name "0.1.0" true "" in
  let pin (engine : E) (s : RegistryState) : RegistryState :=
    let s := touch_cache_entry h s in
    let s := set_rg_plugins (<[id := mkPlugin info h capabilities engine]> (rg_plugins s)) s in
    evict_unreferenced_engines (set_rg_order (rg_order s ++ [id]) s) in
  match rg_engines s !! h with
  | Some existing =>
    if negb (bool_decide (ce_capabilities existing = capabilities)) then (Err (capabilities_error h), s)
    else (Ok info, pin (ce_engine existing) s)
  | None => (Ok info, pin candidate (add_entry h candidate capabilities bytes (eng_guest_memory_limit candidate) s))
  end.

Definition import_with_capabilities (interfere : RegistryState → RegistryState) (id name : string) (bytes : list byte)
    (capabilities : PluginCapabilities) (s : RegistryState) : result S4Error PluginInfo * RegistryState :=
  let h := sha256_hex bytes in
  match cached_engine h s with
  | (Some (engine, registered), s) =>
    if negb (bool_decide (registered = capabilities)) then (Err (capabilities_error h), s)
    else import_commit id name bytes capabilities engine (interfere s)
  | (None, s) =>
    match eng_with_fuel bytes fuel with
    | Err e => (Err (mkS4Error "" e), s)
    | Ok engine => import_commit id name bytes capabilities engine (interfere s)
    end
  end.

Definition catalog (s : RegistryState) : list Plugin := omap (λ id, rg_plugins s !! id) (rg_order s).
Definition list_plugins (s : RegistryState) : list PluginInfo := pg_info <$> catalog s.
Definition get_info (id : string) (s : RegistryState) : option PluginInfo := pg_info <$> rg_plugins s !! id.
Definition get_engine (id : string) (s : RegistryState) : option E := pg_engine <$> rg_plugins s !! id.

Definition update_info (id : string) (change : PluginInfo → PluginInfo) (s : RegistryState) : option PluginInfo * RegistryState :=
  match rg_plugins s !! id with
  | None => (None, s)
  | Some p =>
    let info := change (pg_info p) in
    (Some info, set_rg_plugins (<[id := mkPlugin info (pg_component_hash p) (pg_capabilities p) (pg_engine p)]> (rg_plugins s)) s)
  end.
Definition set_enabled (id : string) (enabled : bool) (s : RegistryState) : option PluginInfo * RegistryState :=
  update_info id (λ i, mkPluginInfo (pi_id i) (pi_name i) (pi_version i) enabled (pi_description i)) s.
Definition set_name (id name : string) (s : RegistryState) : option PluginInfo * RegistryState :=
  update_info id (λ i, mkPluginInfo (pi_id i) name (pi_version i) (pi_enabled i) (pi_description i)) s.

Definition remove_plugin (id : string) (s : RegistryState) : bool * RegistryState :=
  let removed := bool_decide (is_Some (rg_plugins s !! id)) in
  let s := set_rg_order (filter (λ x, x ≠ id) (rg_order s)) s in
  let s := set_rg_plugins (delete id (rg_plugins s)) s in
  (removed, if removed then evict_unreferenced_engines s else s).

(** [new_order] grows by the ids that are in [keep] and not in it yet. *)
Fixpoint push_new (keep : string → bool) (ids new_order : list string) : list string :=
  match ids with
  | [] => new_order
  | id :: ids => push_new keep ids (if keep id && bool_decide (id ∉ new_order) then new_order ++ [id] else new_order)
  end.
Definition reorder (ids : list string) (s : RegistryState) : RegistryState :=
  let new_order := push_new (λ id, bool_decide (is_Some (rg_plugins s !! id))) ids [] in
  set_rg_order (push_new (λ _, true) (rg_order s) new_order) s.

Definition enabled_catalog (s : RegistryState) : list (PluginInfo * string * PluginCapabilities) :=
  (λ p, (pg_info p, pg_component_hash p, pg_capabilities p)) <$> filter (λ p, pi_enabled (pg_info p) = true) (catalog s).

(** ** Snapshots *)

Record SnapshotEntry := mkEntry {
  se_info : PluginInfo;
  se_component_hash : string;
  se_enabled : bool;
  se_config_json : option string;
  se_capabilities : PluginCapabilities;
  se_sensitive_grant : SensitiveGrant;
  se_engine : option E;
}.

(** The entry as the session starts it. *)
Definition entry_plugin (x : SnapshotEntry) : SnapshotPlugin F :=
  mkSnapshotPlugin (pi_name (se_info x)) (se_enabled x) (from_option eng_guest_memory_limit 0 (se_engine x))
    (λ fuel deadline,
      match se_engine x with
      | Some engine => eng_start engine (se_config_json x) (se_sensitive_grant x) fuel deadline
      | None => Err pipeline_panic
      end).

Definition snapshot (s : RegistryState) : list SnapshotEntry :=
  (λ p, mkEntry (pg_info p) (pg_component_hash p) true None (pg_capabilities p) SENSITIVE_ALL (Some (pg_engine p)))
    <$> filter (λ p, pi_enabled (pg_info p) = true) (catalog s).

  (** [ComponentSource::load], and the requests in between. *)
  Context (load : string → result S4Error (list byte)) (interfere : RegistryState → RegistryState).

Definition engine_for (step : PipelineStep) (s : RegistryState) : result S4Error E * RegistryState :=
  let h := st_component_hash step in
  match cached_engine h s with
  | (Some (engine, registered), s) =>
    if negb (bool_decide (registered = st_capabilities step)) then (Err (capabilities_error h), s) else (Ok engine, s)
  | (None, s) =>
    match load h with
    | Err e => (Err e, s)
    | Ok bytes =>
      if negb (bool_decide (sha256_hex bytes = h))
      then (Err (mkS4Error "wasm.init" ("component " +:+ h +:+ " digest mismatch after fetch")), s)
      else match eng_with_fuel bytes fuel with
      | Err error => (Err (mkS4Error "wasm.init" ("component " +:+ h +:+ " failed to compile: " +:+ error)), s)
      | Ok engine =>
        insert_engine h engine (st_capabilities step) bytes (eng_guest_memory_limit engine) (interfere s)
      end
    end
  end.

Definition step_entry (step : PipelineStep) (engine : option E) : SnapshotEntry :=
  mkEntry (plugin_step_info step) (st_component_hash step) (st_enabled step) (st_config_json step) (st_capabilities step)
    (st_sensitive_grant step) engine.

Fixpoint snapshot_steps (steps : list PipelineStep) : SE RegistryState S4Error (list SnapshotEntry) :=
  match steps with
  | [] => mret []
  | step :: steps =>
    engine ← (if st_enabled step then
                engine ← engine_for step;
                if bool_decide (is_Some (st_config_json step)) && eng_world_v01 engine
                then se_throw (mkS4Error "config.invalid" "v0.1 components cannot carry step configuration")
                else mret (Some engine)
              else mret None);
    entries ← snapshot_steps steps;
    mret (step_entry step engine :: entries)
  end.

(** [snapshot_for]: the entries, and the limits of the snapshot. *)
Definition snapshot_for (resolution : PipelineResolution) : SE RegistryState S4Error (list SnapshotEntry * PipelineLimits) :=
  if pipeline_requires_passthrough resolution
  then se_throw (mkS4Error "config.invalid" "empty pipeline requires explicit pass-through")
  else
    limits ← se_lift (limits_validate (rv_limits resolution));
    entries ← snapshot_steps (rv_steps resolution);
    constraints ← se_lift (limits_validate pipeline_limits);
    mret (entries, limits_min limits constraints).
End registry.
Arguments RegistryState E : clear implicits.
Arguments Plugin E : clear implicits.
Arguments CacheEntry E : clear implicits.
Arguments SnapshotEntry E : clear implicits.
