(* ===== verification/RegistryProofs.v ===== *)
(** * Theorems on the catalog and its compile cache

    The invariant of [PluginRegistry.v] under every interleaving of its atomic
    operations, and what it gives a request: every engine of a snapshot was
    compiled from bytes with the digest that the resolution names. *)

From S2P Require Import Prelude Staging Operation RustStr Integrity IntegrityProofs Format RecordDecoder RecordProofs SinkApi StreamingPut FilterPipeline PluginRegistry.

#[local] Open Scope Z_scope.
Set Default Goal Selector "!".

(** ** Lists without duplicates *)

Lemma remove_first_notin h l : h ∉ l → remove_first h l = l.
Proof.
  induction l as [|x l IH]; cbn; [done|]. intros [Hx Hl]%not_elem_of_cons. rewrite bool_decide_eq_false_2 by done. by rewrite IH.
Qed.
Lemma remove_first_perm h l : h ∈ l → l ≡ₚ h :: remove_first h l.
Proof.
  induction l as [|x l IH]; cbn; [by intros ?%elem_of_nil|]. case_bool_decide as Hx; [by subst|].
  intros [->|Hl]%elem_of_cons; [done|]. rewrite (IH Hl) at 1. apply Permutation_swap.
Qed.
Lemma touch_perm h l : h ∈ l → remove_first h l ++ [h] ≡ₚ l.
Proof. intros Hh. rewrite Permutation_app_comm. cbn. symmetry. by apply remove_first_perm. Qed.

Lemma push_new_elem keep ids acc x : x ∈ push_new keep ids acc ↔ x ∈ acc ∨ (x ∈ ids ∧ keep x = true).
Proof.
  revert acc. induction ids as [|id ids IH]; intros acc; cbn; [set_solver|]. rewrite IH.
  destruct (keep id) eqn:Ek; cbn; [case_bool_decide|]; rewrite ?elem_of_app, ?elem_of_cons;
    (split; [|intros [?|[[->|?] ?]]; auto; try congruence]); try (intros [?|[]]; auto); set_solver.
Qed.
Lemma push_new_nodup keep ids acc : NoDup acc → NoDup (push_new keep ids acc).
Proof.
  revert acc. induction ids as [|id ids IH]; intros acc Ha; cbn; [done|]. apply IH.
  destruct (keep id); cbn; [|done]. case_bool_decide; [|done]. apply NoDup_app. split; [done|].
  split; [set_solver|apply NoDup_singleton].
Qed.

Section proofs.
  Context {E F : Type} `{FilterEngine E F} (sha256_hex : list byte → string) (fuel : Z).
  Hypothesis memory_nonneg : ∀ e, 0 <= eng_guest_memory_limit e.
  Implicit Types (s : RegistryState E) (h : string) (e : E).

(** [e] was compiled from bytes with the digest [h]. *)
Definition compiled h e : Prop := ∃ bytes, sha256_hex bytes = h ∧ eng_with_fuel bytes fuel = Ok e.

Definition weight_of (engines : gmap string (CacheEntry E)) h : Z := from_option ce_weight 0 (engines !! h).
Definition weights (engines : gmap string (CacheEntry E)) (l : list string) : Z := foldr (λ h n, weight_of engines h + n) 0 l.

#[local] Arguments weights : simpl never.

Record cache_ok s : Prop := {
  co_nodup : NoDup (rg_cache_order s);
  co_dom : ∀ h, h ∈ rg_cache_order s ↔ is_Some (rg_engines s !! h);
  co_weight : rg_cache_weight s = weights (rg_engines s) (rg_cache_order s);
  co_entry : ∀ h x, rg_engines s !! h = Some x →
    sha256_hex (ce_bytes x) = h ∧ compiled h (ce_engine x) ∧ ce_weight x = eng_guest_memory_limit (ce_engine x);
}.

(** What holds while the cache may be too heavy. *)
Record registry_loose s : Prop := {
  rl_cache : cache_ok s;
  rl_pinned : ∀ id p, rg_plugins s !! id = Some p → ∃ x, rg_engines s !! pg_component_hash p = Some x
    ∧ ce_engine x = pg_engine p ∧ ce_capabilities x = pg_capabilities p;
  rl_order : NoDup (rg_order s);
  rl_catalog : ∀ id, id ∈ rg_order s ↔ is_Some (rg_plugins s !! id);
}.

(** The invariant: besides, the cache is within its weight, or everything in
    it is pinned by the catalog. *)
Record registry_inv s : Prop := {
  ri_loose : registry_loose s;
  ri_bounded : rg_cache_weight s <= rg_cache_max_weight s ∨ ∀ h, h ∈ rg_cache_order s → referenced s h = true;
}.

Lemma referenced_spec s h : referenced s h = true ↔ ∃ id p, rg_plugins s !! id = Some p ∧ pg_component_hash p = h.
Proof.
  unfold referenced. rewrite existsb_exists. split.
  - intros ([id p] & Hin & Hh). apply bool_decide_eq_true in Hh. exists id, p. split; [|done].
    by apply elem_of_map_to_list, list_elem_of_In.
  - intros (id & p & Hp & Hh). exists (id, p). split; [by apply list_elem_of_In, elem_of_map_to_list|]. by apply bool_decide_eq_true.
Qed.

Lemma weights_cons engines h l : weights engines (h :: l) = weight_of engines h + weights engines l.
Proof. done. Qed.
Lemma weights_perm engines l k : l ≡ₚ k → weights engines l = weights engines k.
Proof. induction 1; rewrite ?weights_cons; lia. Qed.
Lemma weights_ext m1 m2 l : (∀ h, h ∈ l → m1 !! h = m2 !! h) → weights m1 l = weights m2 l.
Proof.
  induction l as [|x l IH]; intros Hm; [done|]. rewrite !weights_cons, IH by (intros; apply Hm; set_solver).
  unfold weight_of. rewrite Hm by set_solver. done.
Qed.
Lemma weights_app m l k : weights m (l ++ k) = weights m l + weights m k.
Proof. induction l; cbn [app]; [done|]. rewrite !weights_cons. lia. Qed.

Lemma weights_nonneg s l : cache_ok s → 0 <= weights (rg_engines s) l.
Proof.
  intros Hc. induction l as [|h l IH]; [done|]. rewrite weights_cons. unfold weight_of. destruct (rg_engines s !! h) as [x|] eqn:Ex; cbn; [|lia].
  destruct (co_entry _ Hc _ _ Ex) as (_ & _ & ->). specialize (memory_nonneg (ce_engine x)). lia.
Qed.

(** ** The cache *)

Lemma touch_ok s h : cache_ok s → h ∈ rg_cache_order s → cache_ok (touch_cache_entry h s).
Proof.
  intros [Hn Hd Hw He] Hh. pose proof (touch_perm h _ Hh) as Hp. split; cbn; [|intros k|..].
  - by rewrite Hp.
  - rewrite Hp. apply Hd.
  - rewrite Hw. symmetry. by apply weights_perm.
  - exact He.
Qed.

Lemma add_ok s h e caps bytes :
  cache_ok s → rg_engines s !! h = None → sha256_hex bytes = h → compiled h e →
  rg_cache_weight s + eng_guest_memory_limit e <= u64_max →
  cache_ok (touch_cache_entry h (add_entry h e caps bytes (eng_guest_memory_limit e) s)).
Proof.
  intros [Hn Hd Hw He] Hnone Hsha Hc Hroom.
  assert (Hh : h ∉ rg_cache_order s) by (rewrite Hd, Hnone; by intros [? ?]).
  split; cbn; rewrite ?(remove_first_notin h (rg_cache_order s)) by done.
  - apply NoDup_app. split; [done|]. split; [set_solver|apply NoDup_singleton].
  - intros k. rewrite elem_of_app, list_elem_of_singleton, Hd. destruct (decide (k = h)) as [->|Hk].
    + rewrite lookup_insert. case_decide; [|done]. naive_solver.
    + rewrite lookup_insert_ne by done. naive_solver.
  - unfold u64_saturating_add. rewrite weights_app, weights_cons, Z.min_r by done. unfold weight_of at 1.
    rewrite lookup_insert, decide_True by done. cbn. rewrite Hw. rewrite Z.add_0_r. f_equal. apply weights_ext.
    intros k Hk. rewrite lookup_insert_ne; [done|]. by intros ->.
  - intros k x. destruct (decide (k = h)) as [->|Hk].
    + rewrite lookup_insert, decide_True by done. by intros [= <-].
    + rewrite lookup_insert_ne by done. apply He.
Qed.

Lemma evict_one_loose s h :
  registry_loose s → h ∈ rg_cache_order s → referenced s h = false → registry_loose (evict_one h s).
Proof.
  intros [[Hn Hd Hw He] Hp Ho Hcat] Hh Hr. pose proof (remove_first_perm h _ Hh) as Hperm.
  destruct (proj1 (Hd h) Hh) as [x Hx]. unfold evict_one. cbn. rewrite Hx.
  assert (Hn' := Hn). rewrite Hperm in Hn'. apply NoDup_cons in Hn' as [Hnin Hn'].
  split; [split| |exact Ho|exact Hcat]; cbn.
  - done.
  - intros k. destruct (decide (k = h)) as [->|Hk].
    + rewrite lookup_delete, decide_True by done. split; [done|]. by intros [? ?].
    + rewrite lookup_delete_ne, <- Hd by done. pose proof (elem_of_Permutation_proper k _ _ Hperm) as Hk'.
      rewrite elem_of_cons in Hk'. naive_solver.
  - rewrite Hw, (weights_perm _ _ _ Hperm), weights_cons. unfold weight_of at 1. rewrite Hx. cbn.
    pose proof (weights_nonneg s (remove_first h (rg_cache_order s)) (Build_cache_ok s Hn Hd Hw He)).
    unfold u64_saturating_sub. rewrite Z.max_r by lia. rewrite Z.add_simpl_l. apply weights_ext.
    intros k Hk. rewrite lookup_delete_ne; [done|]. by intros ->.
  - intros k y. destruct (decide (k = h)) as [->|Hk]; [by rewrite lookup_delete, decide_True by done|].
    rewrite lookup_delete_ne by done. apply He.
  - intros id p Hid. destruct (Hp id p Hid) as (y & Hy & Heq). exists y. split; [|done]. rewrite lookup_delete_ne; [done|].
    intros ->. enough (referenced s (pg_component_hash p) = true) by congruence. apply referenced_spec. eauto.
Qed.

Lemma evict_spec n s :
  registry_loose s → (length (rg_cache_order s) < n)%nat →
  registry_inv (evict n s) ∧ rg_plugins (evict n s) = rg_plugins s ∧ rg_cache_max_weight (evict n s) = rg_cache_max_weight s.
Proof.
  revert s. induction n as [|n IH]; intros s Hl Hn; [lia|]. cbn [evict].
  destruct (Z.ltb_spec (rg_cache_max_weight s) (rg_cache_weight s)) as [Hw|Hw].
  2: { split; [|done]. split; [done|by left]. }
  unfold victim. destruct (List.find _ _) as [h|] eqn:Ef.
  - apply List.find_some in Ef as [Hin%list_elem_of_In Hv]. apply andb_prop in Hv as [Hr _]. apply negb_true_iff in Hr.
    pose proof (remove_first_perm h _ Hin) as Hperm%Permutation_length. cbn in Hperm.
    destruct (IH (evict_one h s)) as (Hi & Hp & Hm).
    + by apply evict_one_loose.
    + unfold evict_one. cbn. destruct (rg_engines s !! h); cbn; lia.
    + split; [done|]. rewrite Hp, Hm. unfold evict_one. cbn. by destruct (rg_engines s !! h).
  - split; [|done]. split; [done|]. right. intros h Hh. pose proof (List.find_none _ _ Ef h) as Hf.
    rewrite <- list_elem_of_In in Hf. specialize (Hf Hh). cbn in Hf.
    rewrite (bool_decide_eq_true_2 (is_Some _)) in Hf by (by apply Hl.(rl_cache _).(co_dom _)).
    rewrite andb_true_r in Hf. by apply negb_false_iff in Hf.
Qed.
Lemma evict_inv s : registry_loose s → registry_inv (evict_unreferenced_engines s).
Proof. intros Hl. apply evict_spec; [done|lia]. Qed.

(** ** The operations *)

Lemma touch_inv s h : registry_inv s → is_Some (rg_engines s !! h) → registry_inv (touch_cache_entry h s).
Proof.
  intros [[Hc Hp Ho Hcat] Hb] Hh. apply Hc.(co_dom _) in Hh. split; [split|].
  - by apply touch_ok.
  - exact Hp.
  - exact Ho.
  - exact Hcat.
  - destruct Hb as [Hb|Hb]; [by left|right]. intros k. cbn. rewrite (touch_perm h) by done. apply Hb.
Qed.

Lemma cached_engine_spec s h r s' :
  registry_inv s → cached_engine h s = (r, s') →
  registry_inv s' ∧ (∀ e caps, r = Some (e, caps) → compiled h e).
Proof.
  intros Hi. unfold cached_engine. destruct (rg_engines s !! h) as [x|] eqn:Ex; intros [= <- <-]; [|done].
  split.
  - case_bool_decide; [|done]. apply touch_inv; [done|by eauto].
  - intros e caps [= <- <-]. by apply (co_entry _ (rl_cache _ (ri_loose _ Hi)) _ _ Ex).
Qed.

(** There is room for another engine without overflow of the counter. *)
Definition room s : Prop := ∀ e, rg_cache_weight s + eng_guest_memory_limit e <= u64_max.

Lemma insert_engine_spec s h e caps bytes r s' :
  registry_inv s → room s → sha256_hex bytes = h → compiled h e →
  insert_engine h e caps bytes (eng_guest_memory_limit e) s = (r, s') →
  registry_inv s' ∧ (∀ e', r = Ok e' → compiled h e').
Proof.
  intros Hi Hroom Hsha Hc. unfold insert_engine. destruct (rg_engines s !! h) as [x|] eqn:Ex.
  - case_bool_decide; cbn; intros [= <- <-]; [|done]. split; [apply touch_inv; [done|by eauto]|].
    intros e' [= <-]. by apply (co_entry _ (rl_cache _ (ri_loose _ Hi)) _ _ Ex).
  - intros [= <- <-]. split; [|by intros ? [= <-]]. destruct Hi as [[Hok Hp Ho Hcat] _]. apply evict_inv. split.
    + by apply add_ok.
    + intros id p Hid. destruct (Hp id p Hid) as (y & Hy & Heq). exists y. split; [|done]. cbn.
      rewrite lookup_insert_ne; [done|]. intros ->. congruence.
    + exact Ho.
    + exact Hcat.
Qed.

Lemma import_commit_inv s id name bytes caps candidate :
  registry_inv s → room s → rg_plugins s !! id = None → compiled (sha256_hex bytes) candidate →
  registry_inv (import_commit sha256_hex id name bytes caps candidate s).2.
Proof.
  intros Hi Hroom Hid Hc. pose proof Hi as [[Hok Hp Ho Hcat] _]. unfold import_commit.
  assert (Hpin : ∀ s1 engine x, cache_ok (touch_cache_entry (sha256_hex bytes) s1) → rg_plugins s1 = rg_plugins s → rg_order s1 = rg_order s →
    (∀ k y, rg_engines s !! k = Some y → rg_engines s1 !! k = Some y) → rg_engines s1 !! sha256_hex bytes = Some x →
    ce_engine x = engine → ce_capabilities x = caps →
    registry_loose (set_rg_order (rg_order s1 ++ [id]) (set_rg_plugins (<[id := mkPlugin (mkPluginInfo id name "0.1.0" true "")
      (sha256_hex bytes) caps engine]> (rg_plugins s1)) (touch_cache_entry (sha256_hex bytes) s1)))).
  { intros s1 engine x Hok1 Hps Hos Hext Hx He Hcap. assert (Hnin : id ∉ rg_order s) by (rewrite Hcat, Hid; by intros [? ?]).
    split; cbn; rewrite ?Hps, ?Hos.
    - by destruct Hok1.
    - intros k p. destruct (decide (k = id)) as [->|Hk].
      + rewrite lookup_insert, decide_True by done. intros [= <-]. cbn. eauto.
      + rewrite lookup_insert_ne by done. intros Hkp. destruct (Hp k p Hkp) as (y & Hy & Heq). eauto.
    - apply NoDup_app. split; [done|]. split; [set_solver|apply NoDup_singleton].
    - intros k. rewrite elem_of_app, list_elem_of_singleton, Hcat. destruct (decide (k = id)) as [->|Hk].
      + rewrite lookup_insert, decide_True by done. naive_solver.
      + rewrite lookup_insert_ne by done. naive_solver. }
  destruct (rg_engines s !! sha256_hex bytes) as [x|] eqn:Ex.
  - case_bool_decide as Hcaps; cbn [negb snd]; [|exact Hi].
    apply evict_inv, (Hpin s (ce_engine x) x); [|done..]. apply touch_ok; [done|]. apply Hok.(co_dom _). eauto.
  - cbn [snd]. set (weight := eng_guest_memory_limit candidate).
    apply evict_inv, (Hpin (add_entry _ candidate caps bytes weight s) candidate (mkCacheEntry candidate caps bytes weight));
      [by apply add_ok|done|done| |cbn; by rewrite lookup_insert, decide_True by done|done|done].
    intros k y Hy. cbn. rewrite lookup_insert_ne; [done|]. intros <-. congruence.
Qed.

Lemma update_info_inv s id change : registry_inv s → registry_inv (update_info id change s).2.
Proof.
  intros Hi. pose proof Hi as [[Hok Hp Ho Hcat] Hb]. unfold update_info.
  destruct (rg_plugins s !! id) as [p|] eqn:Ep; cbn; [|exact Hi].
  assert (Hsame : ∀ k q, <[id:=mkPlugin (change (pg_info p)) (pg_component_hash p) (pg_capabilities p) (pg_engine p)]> (rg_plugins s) !! k
      = Some q → ∃ q', rg_plugins s !! k = Some q' ∧ pg_component_hash q' = pg_component_hash q ∧ pg_engine q' = pg_engine q
        ∧ pg_capabilities q' = pg_capabilities q).
  { intros k q. destruct (decide (k = id)) as [->|Hk]; [|rewrite lookup_insert_ne by done; eauto].
    rewrite lookup_insert, decide_True by done. intros [= <-]. eauto. }
  split; [split|]; cbn.
  - by destruct Hok.
  - intros k q Hq. destruct (Hsame k q Hq) as (q' & Hq' & <- & <- & <-). by eapply Hp.
  - exact Ho.
  - intros k. rewrite Hcat. destruct (decide (k = id)) as [->|Hk]; [|by rewrite lookup_insert_ne].
    rewrite lookup_insert, decide_True, Ep by done. split; eauto.
  - destruct Hb as [Hb|Hb]; [by left|right]. intros h Hh. apply Hb, referenced_spec in Hh as (k & q & Hq & <-).
    apply referenced_spec. cbn. destruct (decide (k = id)) as [->|Hk].
    + exists id. eexists. rewrite lookup_insert, decide_True by done. split; [done|]. cbn. congruence.
    + exists k, q. by rewrite lookup_insert_ne.
Qed.

Lemma remove_plugin_inv s id : registry_inv s → registry_inv (remove_plugin id s).2.
Proof.
  intros [[Hok Hp Ho Hcat] Hb]. unfold remove_plugin. cbn [snd].
  set (s1 := set_rg_plugins _ _). assert (Hl : registry_loose s1).
  { split; cbn.
    - by destruct Hok.
    - intros k p. destruct (decide (k = id)) as [->|Hk]; [by rewrite lookup_delete, decide_True by done|].
      rewrite lookup_delete_ne by done. apply Hp.
    - by apply NoDup_filter.
    - intros k. rewrite list_elem_of_filter, Hcat. destruct (decide (k = id)) as [->|Hk].
      + rewrite lookup_delete, decide_True by done. split; [naive_solver|]. by intros [? ?].
      + rewrite lookup_delete_ne by done. naive_solver. }
  case_bool_decide as Hid; [by apply evict_inv|]. split; [done|]. destruct Hb as [Hb|Hb]; [by left|right].
  intros h Hh. apply Hb, referenced_spec in Hh as (k & q & Hq & <-). apply referenced_spec. exists k, q. cbn.
  rewrite lookup_delete_ne; [done|]. intros ->. apply Hid. eauto.
Qed.

Lemma reorder_inv s ids : registry_inv s → registry_inv (reorder ids s).
Proof.
  intros [[Hok Hp Ho Hcat] Hb]. split; [split|]; cbn.
  - by destruct Hok.
  - exact Hp.
  - apply push_new_nodup, push_new_nodup, NoDup_nil_2.
  - intros k. rewrite !push_new_elem, bool_decide_eq_true, <- Hcat. set_solver.
  - exact Hb.
Qed.

(** Both halves of an import, with other requests in between. *)
Lemma import_inv interfere s id name bytes caps :
  (∀ s, registry_inv s → registry_inv (interfere s) ∧ room (interfere s) ∧ rg_plugins (interfere s) !! id = None) →
  registry_inv s → registry_inv (import_with_capabilities sha256_hex fuel interfere id name bytes caps s).2.
Proof.
  intros Hint Hi. unfold import_with_capabilities. destruct (cached_engine _ s) as [[[e registered]|] s1] eqn:Ec;
    destruct (cached_engine_spec _ _ _ _ Hi Ec) as [Hi1 Hc1]; destruct (Hint _ Hi1) as (Hi2 & Hr2 & Hid2).
  - case_bool_decide; cbn [negb]; [|done]. apply import_commit_inv; [done..|by eauto].
  - destruct (eng_with_fuel bytes fuel) as [engine|] eqn:Ee; [|done]. apply import_commit_inv; [done..|by exists bytes].
Qed.

(** ** Every interleaving *)

(** One atomic access of a request: engines come from the compiler or from an
    earlier look into the cache, and identifiers are fresh. *)
Inductive registry_step : RegistryState E → RegistryState E → Prop :=
| step_cached s h : registry_step s (cached_engine h s).2
| step_insert s h e caps bytes : room s → sha256_hex bytes = h → compiled h e →
    registry_step s (insert_engine h e caps bytes (eng_guest_memory_limit e) s).2
| step_import s id name bytes caps candidate : room s → rg_plugins s !! id = None → compiled (sha256_hex bytes) candidate →
    registry_step s (import_commit sha256_hex id name bytes caps candidate s).2
| step_set_enabled s id b : registry_step s (set_enabled id b s).2
| step_set_name s id name : registry_step s (set_name id name s).2
| step_remove s id : registry_step s (remove_plugin id s).2
| step_reorder s ids : registry_step s (reorder ids s).

Lemma registry_step_inv s s' : registry_inv s → registry_step s s' → registry_inv s'.
Proof.
  intros Hi Hs. revert Hi. destruct Hs as [s h|s h e caps bytes Hroom Hsha Hc|s id name bytes caps candidate Hroom Hid Hc| | | |]; intros Hi.
  - destruct (cached_engine h s) eqn:Ec. by apply (cached_engine_spec _ _ _ _ Hi Ec).
  - destruct (insert_engine h e caps bytes _ s) eqn:Ec. by apply (insert_engine_spec _ _ _ _ _ _ _ Hi Hroom Hsha Hc Ec).
  - by apply import_commit_inv.
  - by apply update_info_inv.
  - by apply update_info_inv.
  - by apply remove_plugin_inv.
  - by apply reorder_inv.
Qed.

(** C23: The catalog and the compile cache stay consistent under every interleaving
    of requests: the recorded weight is the sum of the cached engines, each
    cached once, under the digest of its bytes and compiled from bytes with this
    digest; every plugin of the catalog finds its engine in the cache with its
    capabilities; the order lists the plugins once each; and after every
    operation the cache is within its weight, or all of it is pinned by the
    catalog. *)
Theorem plugin_cache_invariant limits max s0 s :
  (∀ n, max = Some n → 0 <= n) → with_options_and_cache fuel limits max = Ok s0 → rtc registry_step s0 s → registry_inv s.
Proof.
  intros Hmax H0 Hsteps. assert (Hi : registry_inv s0).
  { revert H0. unfold with_options_and_cache, mbind, result_bind. destruct (fuel =? 0); [done|].
    destruct (_ =? 0); [done|]. destruct (limits_validate limits); [|done]. intros [= <-].
    split; [split; [split|..]|]; cbn; try done; try (by apply NoDup_nil_2).
    - intros h. rewrite lookup_empty. split; [by intros ?%elem_of_nil|by intros [? ?]].
    - intros h. rewrite lookup_empty. split; [by intros ?%elem_of_nil|by intros [? ?]].
    - left. destruct max as [n|]; [by apply Hmax|done]. }
  clear H0 Hmax. induction Hsteps as [|? ? ? Hs _ IH]; [done|]. apply IH. by eapply registry_step_inv.
Qed.

(** ** Snapshots *)

  Context (pipeline_limits : PipelineLimits) (load : string → result S4Error (list byte)) (interfere : RegistryState E → RegistryState E).

Lemma engine_for_spec step s e s' :
  (∀ s, registry_inv s → registry_inv (interfere s) ∧ room (interfere s)) → registry_inv s →
  engine_for sha256_hex fuel load interfere step s = (Ok e, s') → registry_inv s' ∧ compiled (st_component_hash step) e.
Proof.
  intros Hint Hi. unfold engine_for. destruct (cached_engine _ s) as [[[e1 caps]|] s1] eqn:Ec;
    destruct (cached_engine_spec _ _ _ _ Hi Ec) as [Hi1 Hc1].
  - case_bool_decide; cbn; [|done]. intros [= <- <-]. by eauto.
  - destruct (load _) as [bytes|]; [|done]. case_bool_decide as Hsha; cbn [negb]; [|done].
    destruct (eng_with_fuel bytes fuel) as [engine|] eqn:Ee; [|done]. destruct (Hint _ Hi1) as [Hi2 Hr2]. intros Ein.
    eapply insert_engine_spec in Ein as [Hi3 Hc3]; [by eauto|done|done|done|by exists bytes].
Qed.

(** What an entry of a snapshot has to do with its step. *)
Definition entry_for (step : PipelineStep) (x : SnapshotEntry E) : Prop :=
  x = step_entry step (se_engine x)
  ∧ if st_enabled step
    then ∃ e, se_engine x = Some e ∧ compiled (st_component_hash step) e ∧ (is_Some (st_config_json step) → eng_world_v01 e = false)
    else se_engine x = None.

Lemma snapshot_steps_spec steps s entries s' :
  (∀ s, registry_inv s → registry_inv (interfere s) ∧ room (interfere s)) → registry_inv s →
  snapshot_steps sha256_hex fuel load interfere steps s = (Ok entries, s') → registry_inv s' ∧ Forall2 entry_for steps entries.
Proof.
  intros Hint. revert s entries s'. induction steps as [|step steps IH]; intros s entries s' Hi; cbn [snapshot_steps].
  { intros [= <- <-]. by split. }
  intros Hrun. assert (Hs : succeeds (snapshot_steps sha256_hex fuel load interfere (step :: steps))
    (λ entries s', registry_inv s' ∧ Forall2 entry_for (step :: steps) entries) s); [|exact (Hs _ _ Hrun)].
  clear Hrun entries s'. cbn [snapshot_steps]. apply succeeds_bind.
  eapply (succeeds_mono _ (λ engine s1, registry_inv s1 ∧ entry_for step (step_entry step engine))).
  - destruct (st_enabled step) eqn:Een; [|apply succeeds_ret; unfold entry_for; by rewrite Een].
    apply succeeds_bind. intros e s1 Ee. apply engine_for_spec in Ee as [Hi1 Hc]; [|done|done].
    destruct (bool_decide _ && eng_world_v01 e) eqn:Ev; [apply succeeds_throw|]. apply succeeds_ret. split; [done|].
    unfold entry_for. rewrite Een. split; [done|]. exists e. split; [done|]. split; [done|]. intros Hcfg.
    by rewrite bool_decide_eq_true_2 in Ev.
  - intros engine s1 [Hi1 Hx]. apply succeeds_bind. intros entries s2 E2. destruct (IH _ _ _ Hi1 E2) as [Hi2 Hall].
    apply succeeds_ret. split; [done|]. by constructor.
Qed.

(** C12: A snapshot for a resolution is the resolution: its entries are the steps in
    their order; the enabled ones run an engine that was compiled from bytes
    with the digest the step names, however the cache was filled, evicted and
    refilled in between; the disabled ones run nothing; a configuration goes
    only to components that take one; nothing is passed through unless the
    resolution says so; and the limits are no laxer than those of the
    resolution and of the registry. *)
Theorem snapshot_engines_authentic resolution s entries limits s' :
  (∀ s, registry_inv s → registry_inv (interfere s) ∧ room (interfere s)) → registry_inv s →
  snapshot_for sha256_hex fuel pipeline_limits load interfere resolution s = (Ok (entries, limits), s') →
  registry_inv s' ∧ Forall2 entry_for (rv_steps resolution) entries
  ∧ (Exists (λ step, st_enabled step = true) (rv_steps resolution) ∨ rv_explicit_passthrough resolution = true)
  ∧ limits = limits_min (rv_limits resolution) pipeline_limits.
Proof.
  intros Hint Hi. unfold snapshot_for. destruct (pipeline_requires_passthrough resolution) eqn:Ep; [done|].
  intros Hrun. match type of Hrun with ?m s = _ => assert (Hs : succeeds m (λ r s', registry_inv s'
    ∧ Forall2 entry_for (rv_steps resolution) r.1 ∧ r.2 = limits_min (rv_limits resolution) pipeline_limits) s) end.
  { apply succeeds_bind, succeeds_lift. intros l Hl. apply succeeds_bind. intros es s1 E1.
    destruct (snapshot_steps_spec _ _ _ _ Hint Hi E1) as [Hi1 Hall]. apply succeeds_bind, succeeds_lift. intros c Hc.
    apply succeeds_ret. split; [done|]. split; [done|]. cbn. unfold limits_validate in Hl, Hc.
    destruct (_ || _) in Hl; [done|]. destruct (_ || _) in Hc; [done|]. congruence. }
  destruct (Hs _ _ Hrun) as (Hi' & Hall & Hl). split; [done|]. split; [done|]. split; [|done].
  unfold pipeline_requires_passthrough in Ep. apply andb_false_iff in Ep as [Ep|Ep]; apply negb_false_iff in Ep; [left|by right].
  apply existsb_exists in Ep as (step & Hin & Hen). apply Exists_exists. exists step. split; [|done]. by apply list_elem_of_In.
Qed.
End proofs.
