(* ===== verification/RegistryExamples.v ===== *)
(** * A concrete registry

    Components whose weight is their length, capped; a cache of three bytes.
    The catalog pins one component; a second one, used by a request, is evicted
    when a third comes in. *)

From S2P Require Import Prelude Staging Operation RustStr Integrity IntegrityProofs Format RecordDecoder RecordProofs SinkApi StreamingPut FilterPipeline PluginRegistry RegistryProofs.

#[local] Open Scope Z_scope.
Set Default Goal Selector "!".

#[local] Instance toy_engine : FilterEngine (list byte) unit := {|
  eng_with_fuel bytes fuel := if bool_decide (bytes = []) then Err "empty component" else Ok bytes;
  eng_guest_memory_limit e := Z.min 100 (Z.of_nat (length e));
  eng_world_v01 e := bool_decide (head e = Some x31);
  eng_start _ _ _ _ _ := Ok tt;
|}.
Definition toy_digest (l : list byte) : string := "d" +:+ String.string_of_list_byte l.

Lemma toy_memory_nonneg e : 0 <= eng_guest_memory_limit (E:=list byte) e.
Proof. cbn. lia. Qed.
Lemma toy_compiled bytes : bytes ≠ [] → compiled toy_digest 9 (toy_digest bytes) bytes.
Proof. intros Hb. exists bytes. split; [done|]. cbn. by rewrite bool_decide_eq_false_2. Qed.
Lemma toy_room (s : RegistryState (list byte)) : rg_cache_weight s <= 1000 → room s.
Proof. intros Hs e. cbn. unfold u64_max. lia. Qed.

Abbreviation toy_limits := default_pipeline_limits.
Definition state0 : RegistryState (list byte) := mkRegistry ∅ [] ∅ [] 0 3.
Definition state1 := (import_commit toy_digest "id" "name" (bs "ab") default_capabilities (bs "ab") state0).2.
Definition state2 := (insert_engine "dc" (bs "c") default_capabilities (bs "c") (eng_guest_memory_limit (bs "c")) state1).2.
Definition state3 := (insert_engine "de" (bs "e") default_capabilities (bs "e") (eng_guest_memory_limit (bs "e")) state2).2.

Lemma state_room : room state0 ∧ room state1 ∧ room state2.
Proof. split_and!; apply toy_room; vm_compute; discriminate. Qed.

Lemma state_steps : rtc (registry_step toy_digest 9) state0 state3.
Proof.
  destruct state_room as (H0 & H1 & H2). apply (rtc_l _ state0 state1 state3); [|apply (rtc_l _ state1 state2 state3)].
  - exact (step_import toy_digest 9 state0 "id" "name" (bs "ab") default_capabilities (bs "ab") H0 eq_refl
      (toy_compiled (bs "ab") ltac:(discriminate))).
  - exact (step_insert toy_digest 9 state1 "dc" (bs "c") default_capabilities (bs "c") H1 eq_refl
      (toy_compiled (bs "c") ltac:(discriminate))).
  - exact (rtc_once _ _ (step_insert toy_digest 9 state2 "de" (bs "e") default_capabilities (bs "e") H2 eq_refl
      (toy_compiled (bs "e") ltac:(discriminate)))).
Qed.

Lemma plugin_cache_invariant_witness :
  registry_inv toy_digest 9 state3 ∧ rg_cache_order state3 = ["dab"; "de"] ∧ rg_cache_weight state3 = 3.
Proof.
  split; [|split; vm_compute; reflexivity].
  apply (plugin_cache_invariant toy_digest 9 toy_memory_nonneg toy_limits (Some 3) state0).
  - by intros n [= <-].
  - vm_compute. reflexivity.
  - exact state_steps.
Defined.

Definition toy_step (h : string) (enabled : bool) : PipelineStep :=
  mkStep h None enabled None None default_capabilities SENSITIVE_NONE.
Definition toy_resolution : PipelineResolution :=
  mkResolution (mkLocator "static" "") [toy_step "dab" true; toy_step "dx" false; toy_step "dc" true] None false default_pipeline_limits.
Definition toy_load (h : string) : result S4Error (list byte) :=
  if bool_decide (h = "dc") then Ok (bs "c") else Err (missing_component_error h).
(** Meanwhile other requests removed the plugin, and the cache is empty again. *)
Definition toy_interfere (s : RegistryState (list byte)) : RegistryState (list byte) := state0.

Lemma state0_inv : registry_inv toy_digest 9 state0.
Proof.
  split; [split; [split|..]|]; cbn; try done; try (by apply NoDup_nil_2).
  - intros h. rewrite lookup_empty. split; [by intros ?%elem_of_nil|by intros [? ?]].
  - intros h. rewrite lookup_empty. split; [by intros ?%elem_of_nil|by intros [? ?]].
  - by left.
Qed.
Lemma toy_interfere_ok s : registry_inv toy_digest 9 s → registry_inv toy_digest 9 (toy_interfere s) ∧ room (toy_interfere s).
Proof. intros _. split; [apply state0_inv|by apply toy_room]. Qed.
Lemma state3_inv : registry_inv toy_digest 9 state3.
Proof.
  assert (Hind : ∀ a b, rtc (registry_step toy_digest 9) a b → registry_inv toy_digest 9 a → registry_inv toy_digest 9 b).
  { induction 1 as [|? ? ? Hs _ IH]; [done|]. intros Ha. apply IH. by eapply (registry_step_inv toy_digest 9 toy_memory_nonneg). }
  exact (Hind _ _ state_steps state0_inv).
Qed.

Abbreviation toy_snapshot_for := (snapshot_for toy_digest 9 default_pipeline_limits toy_load toy_interfere toy_resolution state3).
Lemma snapshot_engines_authentic_witness :
  ∃ entries s', toy_snapshot_for = (Ok (entries, default_pipeline_limits), s')
    ∧ se_engine <$> entries = [Some (bs "ab"); None; Some (bs "c")]
    ∧ Forall2 (entry_for toy_digest 9) (rv_steps toy_resolution) entries.
Proof.
  assert (Ex : ∃ entries s', toy_snapshot_for = (Ok (entries, default_pipeline_limits), s')
    ∧ se_engine <$> entries = [Some (bs "ab"); None; Some (bs "c")]) by (do 2 eexists; split; vm_compute; reflexivity).
  destruct Ex as (entries & s' & Es & Heng). exists entries, s'. split; [exact Es|]. split; [exact Heng|].
  exact (proj1 (proj2 (snapshot_engines_authentic toy_digest 9 toy_memory_nonneg default_pipeline_limits toy_load toy_interfere
    toy_resolution state3 entries default_pipeline_limits s' toy_interfere_ok state3_inv Es))).
Defined.
